(* ===== verification/_CoqProject ===== *)
-Q . S2P
Prelude.v
BufCodec.v
Storage.v
StorageInv.v
StorageOps.v
StorageView.v
Bytes.v
BytesRefine.v
Pages.v
PagesSpec.v
PagesLoops.v
PagesRefine.v
Deps.v
Task.v
Wheel.v
WheelArith.v
WheelInv.v
WheelRun.v
WheelTime.v
WheelDriver.v
WheelProps.v
Delays.v
Channels.v
Waiters.v
ChannelProps.v
ChannelData.v
IoConfig.v
IoFlags.v
IoBuf.v
IoChain.v
IoTimers.v
IoTimerProps.v
IoState.v
IoInv.v
IoRef.v
IoKeeps.v
IoOutput.v
Polling.v
PollingSpec.v
PollingSteps.v
IoSystem.v
IoOwner.v
IoExample.v
IoProps.v
Dispatcher.v
DispatcherInv.v
DispatcherTerm.v
DispatcherProps.v
Pipeline.v
PipelineInv.v
PipelineSystem.v
PipelineProps.v
ServiceComb.v
ServiceCombProps.v
PollFds.v
PollFdsSpec.v
PollSys.v
PollSysInv.v
PollProps.v
UringReactor.v
UringReactorProps.v
UringStream.v
UringFrame.v
UringInv.v
UringSteps.v
UringEvents.v
UringProps.v
WinStream.v
WinInv.v
WinSteps.v
WinProps.v
Iocp.v
IocpInv.v
IocpRun.v
IocpSys.v
IocpProps.v
Server.v
ServerInv.v
ServerWorker.v
ServerProps.v
