(* ===== verification/Prelude.v ===== *)
(** * Verification of geario

    geario is an asynchronous I/O framework with an executor per thread: buffers
    ([geario/src/bytes]), timers and channels ([geario/src/util]), streams with
    filters and their drivers ([geario/src/io], [geario/src/net]), a dispatcher
    that runs a service on the frames of a stream ([geario/src/dispatcher],
    [geario/src/service]), a server that accepts connections and hands them to
    worker threads ([geario/src/server]), and a portable poller
    ([geario-polling]).  A driver
    fills and drains the buffers of a stream; the tasks of the program use the
    stream through [IoRef]; the dispatcher decodes what was read, calls the
    service through its pipeline and encodes the answers; timers of the wheel
    and of the I/O manager bound how long each of them waits.

    The sources are embedded as Rocq functions.  Code that changes state runs
    in the monad [M] below: it returns a result and a new state, or it is at
    fault ([Panic], [Undefined], [Diverges]).  Integers are [Z] with their
    width written out where it matters.  A future is its state with a poll
    function.  Code of the user (services, codecs, filter layers) and of other
    crates (slabs, [bitflags!], delays, sockets) is a type class with its
    documented laws, each with an instance that meets them.

    ** Files

    - [Prelude]: outcomes, the monad and its total-correctness triple [runs],
      machine integers, lists.  [Deps]: interfaces of other crates.
    - Buffers: [BufCodec] (bytes/buf/buf_impl.rs, buf_mut.rs); [Storage],
      [StorageInv], [StorageOps], [StorageView] (stvec.rs, storage.rs,
      stext.rs, stext_arc.rs: blocks with reference counts in an explicit
      store); [Bytes], [BytesRefine] (bytes.rs, bvec.rs); [Pages],
      [PagesSpec], [PagesLoops], [PagesRefine] (pages.rs).
    - Time: [Task] (util/task.rs, util/time/types.rs); [Wheel], [WheelArith],
      [WheelInv], [WheelRun], [WheelTime], [WheelDriver], [WheelProps]
      (util/time/wheel.rs); [Delays] (util/time/mod.rs).
    - Channels: [Channels] (oneshot, mpsc, inplace, bstream), [Waiters]
      (condition, pool), [ChannelProps], [ChannelData].
    - Streams: [IoConfig] (io/cfg.rs), [IoFlags] (flags.rs), [IoBuf], [IoChain]
      (buf.rs, filter.rs), [IoTimers], [IoTimerProps] (ops.rs), [IoState],
      [IoRef] (io.rs, ioref.rs, ctx.rs, utils.rs) with their invariant in
      [IoInv], [IoKeeps], [IoOutput];
      [Polling], [PollingSpec], [PollingSteps] (net/polling/stream.rs, io.rs);
      [IoSystem], [IoOwner], [IoExample], [IoProps] put a stream, its driver,
      its task and the scheduled writes together.  [IoKeeps] has the contract
      of a driver, as a class with its laws; [IoOwner] is about the calls of
      the owner on top of any driver.  A driver may waive that output is
      served once a close has begun (the class [Waive] of [IoInv]): that of
      completion ports does; after a layer failed to flush it is waived.
    - The driver on io_uring: [UringStream] (net/uring/stream.rs, io.rs: one
      stream with the slab of its operations in flight, its owner and the
      kernel, which completes and cancels operations in any order),
      [UringFrame], [UringInv], [UringSteps], [UringEvents], [UringProps];
      [UringReactor],
      [UringReactorProps] (net/uring/reactor.rs: the submission queue, the
      queue of changes and the handlers).
    - The driver on completion ports: [WinStream] (net/iocp/stream.rs, ops.rs,
      io.rs and the completions of reactor.rs: one stream with its two
      overlapped operations, which the kernel holds until they complete, the
      blocking calls left to threads, its task and its owner), with its
      invariant in [WinInv], [WinSteps], and [WinProps].
    - [Dispatcher], [DispatcherInv], [DispatcherTerm], [DispatcherProps]
      (dispatcher/mod.rs).
    - Services: [Pipeline], [PipelineInv], [PipelineSystem], [PipelineProps]
      (service/ctx.rs, pl_inner.rs,
      pipeline.rs); [ServiceComb], [ServiceCombProps]
      (and_then.rs, map.rs, map_err.rs, util.rs, macros.rs).
    - Poller: [PollFds], [PollFdsSpec] (the registry of
      geario-polling/src/poll.rs), [PollSys], [PollSysInv], [PollProps] (its
      threads, with lib.rs).
    - The poller on completion ports: [Iocp] (geario-polling/src/iocp/mod.rs,
      afd.rs, port.rs: the packets of sockets and waitable handles, the queue
      of updates, the port, the threads that call and the one that waits),
      with its invariant in [IocpInv], [IocpRun], [IocpSys], and [IocpProps].
    - The server: [Server] (server/net/accept.rs, server.rs, manager.rs: the
      accept loop, the manager and the channels of the workers), [ServerInv],
      [ServerProps]; [ServerWorker] (wrk.rs: the status of a worker between
      its thread and the task that reports it).

    ** What the theorems show

    - Buffers: programs over any number of [Bytes] and [BytesMut], and over
      [BytePages], that keep to the contract of the operations cannot be told
      from programs on independent byte strings; no operation has undefined
      behaviour, and dropped buffers are freed.  A [put_u8] of [BytePages] on a
      page that an encoder filled panics.  Integer codecs read back what they
      wrote.
    - Timers: no timer fires early, operations return, the driver fires what
      has expired and waits for the earliest timer that is left.  The timers
      of a stream are notified at their second.
    - Channels: no wake-up is lost, but for the reader of a byte stream whose
      last sender is dropped, and handles of a pool never reach a vacant entry.
    - Streams: each step of a program over a stream keeps its invariant; the
      accepted output reaches the socket in order and is not left behind; the
      descriptor is closed once; a graceful close sends everything first.
    - io_uring: the output is in order and a graceful close waits for the
      kernel, for streams without zero-copy sends (with them both fail, which
      [UringProps] exhibits); a slot is freed last.  The reactor hands each
      completion to its handler, and entries to the kernel in their order as
      long as its queue of changes has not wrapped around; it panics only when
      the poll of its notifier ends and the submission queue is full.
    - Completion ports: the output of a stream without layers is in order, no
      operation is touched after its memory was freed, the slot is freed and
      the socket closed only when the kernel has returned both operations, and
      a close ends once it has, as long as a cancellation is refused only
      because its operation is over (otherwise memory is used after it was
      freed, which [WinProps] exhibits).  A graceful close loses the send that
      is in flight.
    - The dispatcher, on a stream without layers, counts its calls right in any
      interleaving, ends only when they have ended, with the error of the
      service that a round met, and each of its polls returns; with a frame
      read rate a poll may panic in the subtraction of its timer.
    - A pipeline loses no wake-up of a task that waits for its service; the
      combinators keep the contract that this needs.
    - The poller: its registry refines a map, and its threads never get stuck.
      On completion ports no registered socket is forgotten, a deleted one is
      silent, a completion delivers what was asked for, and the timeout of a
      wait covers the time asked for.
    - The server loses and duplicates no connection between a listener and a
      worker; its back-pressure follows the workers that the manager lists, and
      a worker's change of status is not missed; a connection finds a live
      worker.
    - Theorems of kind [error] exhibit runs in which the code does not do what
      it means to; the findings of the manifest describe them.

    ** Bounds and fuel

    Loops with no structural argument take fuel.  The theorems either supply
    enough for every input (the wheel: one round per level or bucket; pages:
    one per page; the dispatcher: three rounds per byte of input and nine;
    completion ports: one round per answer of the system and two) or
    state the bound; [Diverges], the result of fuel that ran out, is accepted
    as a result only for the polls of a dispatcher whose service uses the
    stream in ways of its own, where no bound holds.  Clocks are readings that do not go back; delays of
    other crates are never early.  Counts that the source keeps in [u32] or
    [u64] are assumed not to overflow only where a theorem says so.

    ** Not modelled

    - The pollers on kqueue, epoll and event ports: their logic is in the
      system calls they make.  [net::connect] and the connectors of the
      drivers, the resolvers, TLS (glue around other crates), and the
      reactors' system calls.
    - Of the drivers on io_uring and on completion ports: other streams of the
      same slab, the cleanup when the reactor ends, counters, and errors of
      the submission; on completion ports, streams with layers.
    - In the drivers, the empty page that [BytePages::take] can hand out (the
      current page, before anything is written to it): the pages of the output
      are a parameter, by law not empty ([PageSplitLaws] of [Polling]).
    - [rt] (runtime, arbiters, signals): threads of the system and other
      crates' executors.  Of [server], its builders and configuration, the
      runner that drives the service of a worker, and the waiting for the end
      of a stop.
    - Service factories, middleware, configuration storage and boxed services:
      they build the services whose behaviour is modelled.
    - [BytesMut]'s and [Bytes]' conversions to strings, [serde], formatting;
      [error], which builds reports; macros; tests, benches and examples.
    - In [io], the testing stream, [Framed] and [Sealed] wrappers and the type
      erased filter pointers; in [dispatcher], logging. *)
From stdpp Require Import base gmap list numbers.
From Stdlib Require Import ZArith Lia.

#[global] Open Scope Z_scope.

(** ** Outcomes of Rust code

    A Rust call either returns, panics (a failed [assert!], an [expect] on
    [None], a bounds check, an arithmetic overflow in a build with overflow
    checks), or, when an [unsafe] block is used outside its contract, has
    undefined behaviour.  They are kept apart so that memory safety ("never
    [Undefined]") and panic freedom can be stated separately.  [Diverges] is
    the result of a loop whose fuel ran out; no theorem about a result of the
    code admits it. *)

Inductive fault := Panic | Undefined | Diverges.

Inductive outcome (A : Type) :=
| Done (a : A)
| Fault (f : fault).
Arguments Done {A} a.
Arguments Fault {A} f.

#[export] Instance outcome_ret : MRet outcome := @Done.
#[export] Instance outcome_bind : MBind outcome := fun A B k m =>
  match m with Done a => k a | Fault f => Fault f end.
#[export] Instance outcome_fmap : FMap outcome := fun A B g m =>
  match m with Done a => Done (g a) | Fault f => Fault f end.

#[export] Instance fault_eq_dec : EqDecision fault.
Proof. solve_decision. Defined.

Definition panic {A} : outcome A := Fault Panic.

(** [assert!(b)] in code that has no other state to thread. *)
Definition assert_true (b : bool) : outcome () :=
  if b then Done tt else Fault Panic.

(** State passing code: a computation that may change the state. *)
Definition M (St A : Type) := St -> outcome (A * St).

#[export] Instance M_ret {St} : MRet (M St) := fun A a s => Done (a, s).
#[export] Instance M_bind {St} : MBind (M St) := fun A B k m s =>
  match m s with Done (a, s') => k a s' | Fault f => Fault f end.

Definition getS {St} : M St St := fun s => Done (s, s).
Definition putS {St} (s' : St) : M St () := fun _ => Done (tt, s').
Definition getsS {St A} (g : St -> A) : M St A := fun s => Done (g s, s).
Definition modifyS {St} (g : St -> St) : M St () := fun s => Done (tt, g s).
Definition failS {St A} (f : fault) : M St A := fun _ => Fault f.
Definition assertS {St} (b : bool) : M St () :=
  fun s => if b then Done (tt, s) else Fault Panic.
Definition liftS {St A} (o : outcome A) : M St A :=
  fun s => match o with Done a => Done (a, s) | Fault f => Fault f end.

(** ** Running code *)

Section runs.
Context {St : Type}.

(** [runs c s Q]: [c] returns from [s], and [Q] holds of its result and of
    the final state. *)
Definition runs {A} (c : M St A) (s : St) (Q : A -> St -> Prop) : Prop :=
  exists a s', c s = Done (a, s') /\ Q a s'.

Lemma runs_bind {A B} (c : M St A) (k : A -> M St B) s Q :
  runs c s (fun a s' => runs (k a) s' Q) -> runs (c ≫= k) s Q.
Proof.
  intros (a & s' & Hc & b & s'' & Hk & HQ). exists b, s''. split; [|done].
  unfold mbind, M_bind. by rewrite Hc.
Qed.

Lemma runs_ret {A} (a : A) s (Q : A -> St -> Prop) : Q a s -> runs (mret a) s Q.
Proof. intros. by exists a, s. Qed.

Lemma runs_lift {A} (o : outcome A) a s (Q : A -> St -> Prop) :
  o = Done a -> Q a s -> runs (liftS o) s Q.
Proof. intros -> ?. by exists a, s. Qed.

Lemma runs_assert (b : bool) s (Q : () -> St -> Prop) : b = true -> Q tt s -> runs (assertS b) s Q.
Proof. intros -> ?. by exists tt, s. Qed.

Lemma runs_get s (Q : St -> St -> Prop) : Q s s -> runs getS s Q.
Proof. intros. by exists s, s. Qed.

Lemma runs_gets {A} (g : St -> A) s (Q : A -> St -> Prop) : Q (g s) s -> runs (getsS g) s Q.
Proof. intros. by exists (g s), s. Qed.

Lemma runs_put s s' (Q : () -> St -> Prop) : Q tt s' -> runs (putS s') s Q.
Proof. intros. by exists tt, s'. Qed.

Lemma runs_modify g s (Q : () -> St -> Prop) : Q tt (g s) -> runs (modifyS g) s Q.
Proof. intros. by exists tt, (g s). Qed.

Lemma runs_conseq {A} (c : M St A) s (Q Q' : A -> St -> Prop) :
  runs c s Q -> (forall a s', Q a s' -> Q' a s') -> runs c s Q'.
Proof. intros (a & s' & Hc & HQ) Himp. exists a, s'. auto. Qed.

Lemma runs_eq {A} (c : M St A) s a s' (Q : A -> St -> Prop) :
  c s = Done (a, s') -> Q a s' -> runs c s Q.
Proof. intros. by exists a, s'. Qed.
End runs.

Lemma bind_done {St A B} (c : M St A) (k : A -> M St B) s b s' :
  (c ≫= k) s = Done (b, s') -> exists a s1, c s = Done (a, s1) /\ k a s1 = Done (b, s').
Proof. unfold mbind, M_bind. destruct (c s) as [[a s1]|]; [|done]. by exists a, s1. Qed.

(** ** Machine integers *)

Definition u8_modulus : Z := 2 ^ 8.
Definition u16_modulus : Z := 2 ^ 16.
Definition u32_modulus : Z := 2 ^ 32.
Definition u64_modulus : Z := 2 ^ 64.
Definition u32_max : Z := u32_modulus - 1.
Definition u64_max : Z := u64_modulus - 1.

(** [x as u32], [x as u64]: truncating casts of unsigned values. *)
Definition as_u32 (x : Z) : Z := x mod u32_modulus.
Definition as_u64 (x : Z) : Z := x mod u64_modulus.

(** [a + b] and [a - b] on an unsigned type of the given modulus, with the
    overflow check of a debug build. *)
Definition checked_add (m a b : Z) : outcome Z :=
  if a + b <? m then Done (a + b) else Fault Panic.
Definition checked_sub (a b : Z) : outcome Z :=
  if b <=? a then Done (a - b) else Fault Panic.

(** [a.wrapping_add(b)] on [u64], and [saturating_sub]. *)
Definition wrapping_add64 (a b : Z) : Z := as_u64 (a + b).
Definition saturating_sub (a b : Z) : Z := Z.max 0 (a - b).

Lemma checked_add_ok m a b : a + b < m -> checked_add m a b = Done (a + b).
Proof. intros. unfold checked_add. by rewrite (proj2 (Z.ltb_lt _ _)). Qed.

Lemma checked_sub_ok a b : b <= a -> checked_sub a b = Done (a - b).
Proof. intros. unfold checked_sub. by rewrite (proj2 (Z.leb_le _ _)). Qed.

Lemma as_u32_small x : 0 <= x < u32_modulus -> as_u32 x = x.
Proof. apply Z.mod_small. Qed.

Lemma as_u64_small x : 0 <= x < u64_modulus -> as_u64 x = x.
Proof. apply Z.mod_small. Qed.

(** ** Lists measured in [Z]

    Lengths and positions of the source are [usize]; the lists of the model
    are indexed by [nat]. *)

Definition zlen {A} (l : list A) : Z := Z.of_nat (length l).
Definition ztake {A} (n : Z) (l : list A) : list A := take (Z.to_nat n) l.
Definition zdrop {A} (n : Z) (l : list A) : list A := drop (Z.to_nat n) l.
Definition zslice {A} (from n : Z) (l : list A) : list A := ztake n (zdrop from l).

Create HintDb zlist.
Create Rewrite HintDb zlist.

Section zlist.
Context {A : Type}.
Implicit Types l k : list A.

Lemma zlen_nonneg l : 0 <= zlen l.
Proof. unfold zlen. lia. Qed.

Lemma zlen_nil : zlen (@nil A) = 0.
Proof. done. Qed.

Lemma zlen_cons (x : A) l : zlen (x :: l) = 1 + zlen l.
Proof. unfold zlen. cbn [length]. lia. Qed.

Lemma zlen_app l k : zlen (l ++ k) = zlen l + zlen k.
Proof. unfold zlen. rewrite length_app. lia. Qed.

Lemma zlen_0_inv l : zlen l = 0 -> l = [].
Proof. destruct l; [done|]. rewrite zlen_cons. pose proof (zlen_nonneg l). lia. Qed.

Lemma zlen_ztake n l : zlen (ztake n l) = Z.max 0 (Z.min n (zlen l)).
Proof. unfold zlen, ztake. rewrite length_take. lia. Qed.

Lemma zlen_zdrop n l : zlen (zdrop n l) = Z.max 0 (zlen l - Z.max 0 n).
Proof. unfold zlen, zdrop. rewrite length_drop. lia. Qed.

Lemma ztake_le0 n l : n <= 0 -> ztake n l = [].
Proof. intros. unfold ztake. replace (Z.to_nat n) with 0%nat by lia. done. Qed.

Lemma zdrop_le0 n l : n <= 0 -> zdrop n l = l.
Proof. intros. unfold zdrop. replace (Z.to_nat n) with 0%nat by lia. done. Qed.

Lemma ztake_all n l : zlen l <= n -> ztake n l = l.
Proof. intros. unfold ztake, zlen in *. apply take_ge. lia. Qed.

Lemma zdrop_all n l : zlen l <= n -> zdrop n l = [].
Proof. intros. unfold zdrop, zlen in *. apply drop_ge. lia. Qed.

Lemma ztake_zdrop n l : ztake n l ++ zdrop n l = l.
Proof. apply take_drop. Qed.

Lemma zdrop_zdrop n m l : 0 <= n -> 0 <= m -> zdrop n (zdrop m l) = zdrop (m + n) l.
Proof. intros. unfold zdrop. rewrite drop_drop. f_equal. lia. Qed.

Lemma ztake_ztake n m l : ztake n (ztake m l) = ztake (Z.min n m) l.
Proof. unfold ztake. rewrite take_take. f_equal. lia. Qed.

Lemma ztake_app_le n l k : n <= zlen l -> ztake n (l ++ k) = ztake n l.
Proof. intros. unfold ztake, zlen in *. apply take_app_le. lia. Qed.

Lemma ztake_app_ge n l k : zlen l <= n -> ztake n (l ++ k) = l ++ ztake (n - zlen l) k.
Proof.
  intros. unfold ztake, zlen in *. rewrite take_app_ge by lia. do 2 f_equal. lia.
Qed.

Lemma zdrop_app_le n l k : n <= zlen l -> zdrop n (l ++ k) = zdrop n l ++ k.
Proof. intros. unfold zdrop, zlen in *. apply drop_app_le. lia. Qed.

Lemma zdrop_app_ge n l k : zlen l <= n -> zdrop n (l ++ k) = zdrop (n - zlen l) k.
Proof.
  intros. unfold zdrop, zlen in *. rewrite drop_app_ge by lia. f_equal. lia.
Qed.

Lemma ztake_app_len l k : ztake (zlen l) (l ++ k) = l.
Proof. rewrite ztake_app_ge, Z.sub_diag, ztake_le0, app_nil_r by lia. done. Qed.

Lemma zdrop_app_len l k : zdrop (zlen l) (l ++ k) = k.
Proof. rewrite zdrop_app_ge, Z.sub_diag, zdrop_le0 by lia. done. Qed.

Lemma ztake_zdrop_comm n m l :
  0 <= n -> 0 <= m -> ztake n (zdrop m l) = zdrop m (ztake (m + n) l).
Proof.
  intros. unfold ztake, zdrop. rewrite take_drop_commute. do 2 f_equal. lia.
Qed.

Lemma ztake_split n m l :
  0 <= n <= m -> ztake m l = ztake n l ++ ztake (m - n) (zdrop n l).
Proof.
  intros. rewrite <- (ztake_zdrop n l) at 1.
  destruct (Z.le_gt_cases n (zlen l)).
  - assert (zlen (ztake n l) = n) by (rewrite zlen_ztake; lia).
    rewrite ztake_app_ge by lia. do 2 f_equal. lia.
  - rewrite (ztake_all n l), (zdrop_all n l), !app_nil_r by lia.
    unfold ztake at 2. rewrite take_nil, app_nil_r.
    apply ztake_all. lia.
Qed.

Lemma zslice_zslice f1 n1 f2 n2 l :
  0 <= f1 -> 0 <= f2 -> 0 <= n2 -> f2 + n2 <= n1 ->
  zslice f2 n2 (zslice f1 n1 l) = zslice (f1 + f2) n2 l.
Proof.
  intros. unfold zslice.
  rewrite (ztake_zdrop_comm n2 f2), ztake_ztake, Z.min_l by lia.
  rewrite <- ztake_zdrop_comm, zdrop_zdrop by lia. done.
Qed.

Lemma zlen_zslice f n l : 0 <= f -> 0 <= n -> f + n <= zlen l -> zlen (zslice f n l) = n.
Proof. intros. unfold zslice. rewrite zlen_ztake, zlen_zdrop. lia. Qed.
End zlist.

Lemma zlen_replicate {A} n (x : A) : zlen (replicate n x) = Z.of_nat n.
Proof. unfold zlen. by rewrite length_replicate. Qed.

Lemma zlen_fmap {A B} (f : A -> B) l : zlen (f <$> l) = zlen l.
Proof. unfold zlen. by rewrite length_fmap. Qed.

Lemma zslice_full {A} (l : list A) : zslice 0 (zlen l) l = l.
Proof. unfold zslice. rewrite zdrop_le0, ztake_all by lia. done. Qed.

Lemma zslice_agree {A} (a n o : Z) (l l' : list A) :
  0 <= a -> 0 <= n -> a + n <= o -> ztake o l = ztake o l' -> zslice a n l = zslice a n l'.
Proof.
  intros ??? H. unfold zslice. rewrite !ztake_zdrop_comm by lia.
  rewrite <- (Z.min_l (a + n) o) by lia. by rewrite <- !ztake_ztake, H.
Qed.

Lemma zdrop_replicate {A} n k (x : A) :
  0 <= k <= n -> zdrop k (replicate (Z.to_nat n) x) = replicate (Z.to_nat (n - k)) x.
Proof. intros. unfold zdrop. rewrite drop_replicate. f_equal. lia. Qed.

Lemma mapM_id_Some (bs : list Z) : mapM id (Some <$> bs) = Some bs.
Proof. induction bs as [|b bs IH]; [done|]. cbn in *. by rewrite IH. Qed.

#[export] Hint Rewrite @zlen_fmap @zlen_replicate @zlen_nil @zlen_cons @zlen_app @zlen_ztake @zlen_zdrop : zlist.
#[export] Hint Resolve zlen_nonneg : zlist.

(** [zlen_of l]: adds [0 <= zlen l] for every list measured in the context. *)
Ltac zlen_pos :=
  repeat match goal with
  | |- context [zlen ?l] =>
      lazymatch goal with
      | _ : 0 <= zlen l |- _ => fail
      | _ => pose proof (zlen_nonneg l)
      end
  | _ : context [zlen ?l] |- _ =>
      lazymatch goal with
      | _ : 0 <= zlen l |- _ => fail
      | _ => pose proof (zlen_nonneg l)
      end
  end.

(** Linear arithmetic after normalising the lengths of lists. *)
Ltac zlia := autorewrite with zlist in *; zlen_pos; lia.

(** Splits on the boolean comparisons of [Z] in the goal, keeping the facts. *)
Ltac zcase :=
  match goal with
  | |- context [?a <? ?b] => destruct (Z.ltb_spec a b)
  | |- context [?a <=? ?b] => destruct (Z.leb_spec a b)
  | |- context [?a =? ?b] => destruct (Z.eqb_spec a b)
  end.

(** The same for a hypothesis. *)
Ltac zcase_in H :=
  match type of H with
  | context [?a <? ?b] => destruct (Z.ltb_spec a b)
  | context [?a <=? ?b] => destruct (Z.leb_spec a b)
  | context [?a =? ?b] => destruct (Z.eqb_spec a b)
  end.

(** Boolean comparisons that the context decides. *)
Ltac zbool :=
  repeat match goal with
  | |- context [?a <? ?b] =>
      first [ rewrite (proj2 (Z.ltb_lt a b)) by zlia
            | rewrite (proj2 (Z.ltb_ge a b)) by zlia ]
  | |- context [?a <=? ?b] =>
      first [ rewrite (proj2 (Z.leb_le a b)) by zlia
            | rewrite (proj2 (Z.leb_gt a b)) by zlia ]
  | |- context [?a =? ?b] =>
      first [ rewrite (proj2 (Z.eqb_eq a b)) by zlia
            | rewrite (proj2 (Z.eqb_neq a b)) by zlia ]
  end.
