(* ===== verification/BufCodec.v ===== *)
(** * [bytes::buf]: the [Buf] and [BufMut] traits and their integer codecs

    Models geario/src/bytes/buf/buf_impl.rs, buf_mut.rs and iter.rs.  The two
    traits are type classes of their required methods; the provided methods
    are definitions over any instance.  [BufSpec] and [BufMutSpec] state the
    contract the trait documentation asks of an implementation, and the
    theorems about the provided methods are proved against it, so that they
    hold for contiguous and for segmented buffers alike.  The instances are
    the ones of the source: [&[u8]], [io::Cursor], [&mut [u8]] and [Vec<u8>].

    Floats are represented by their bit patterns ([f32::to_bits] and
    [f32::from_bits] are then the identity). *)
From stdpp Require Import base list numbers.
From Stdlib Require Import ZArith Lia.
From S2P Require Import Prelude.

Abbreviation byte := Z (only parsing).

(** ** Integers and byte strings (the standard library's conversions) *)

Fixpoint le_bytes (n : nat) (w : Z) : list byte :=
  match n with
  | O => []
  | S n => w mod 256 :: le_bytes n (w / 256)
  end.

Fixpoint le_value (bs : list byte) : Z :=
  match bs with
  | [] => 0
  | b :: bs => b + 256 * le_value bs
  end.

(** Two's complement reading of a [bits]-wide unsigned value. *)
Definition to_signed (bits v : Z) : Z := if v <? 2 ^ (bits - 1) then v else v - 2 ^ bits.

(** [uN::to_le_bytes] and so on: the same function serves signed values,
    since the bytes of a negative [n] are those of [n] modulo [2^bits]. *)
Definition to_le_bytes (size : nat) (n : Z) : list byte := le_bytes size n.
Definition to_be_bytes (size : nat) (n : Z) : list byte := reverse (le_bytes size n).
Definition u_from_le_bytes (bs : list byte) : Z := le_value bs.
Definition u_from_be_bytes (bs : list byte) : Z := le_value (reverse bs).
Definition i_from_le_bytes (bs : list byte) : Z := to_signed (8 * zlen bs) (le_value bs).
Definition i_from_be_bytes (bs : list byte) : Z := to_signed (8 * zlen bs) (le_value (reverse bs)).

(** ** [trait Buf]: the required methods, and [get_u8], which two
    implementations override *)
Class Buf (B : Type) := {
  remaining : B -> Z;
  chunk : B -> list byte;
  advance : Z -> B -> outcome B;
  get_u8 : B -> outcome (byte * B);
}.

(** [chunk()[0]] of the default [get_u8]. *)
Definition get_u8_default {B} (remaining : B -> Z) (chunk : B -> list byte)
    (advance : Z -> B -> outcome B) (b : B) : outcome (byte * B) :=
  assert_true (1 <=? remaining b);;
  match chunk b with
  | [] => Fault Panic
  | ret :: _ => b' ← advance 1 b; Done (ret, b')
  end.

Section buf_provided.
Context {B : Type} `{!Buf B}.

Definition has_remaining (b : B) : bool := 0 <? remaining b.

(** The loop of [copy_to_slice]; [dst] is the destination slice, filled up
    to [off]. *)
Fixpoint copy_to_slice_loop (fuel : nat) (off : Z) (dst : list byte) (b : B)
    : outcome (list byte * B) :=
  if off <? zlen dst then
    match fuel with
    | O => Fault Diverges
    | S fuel =>
        let src := chunk b in
        let cnt := Z.min (zlen src) (zlen dst - off) in
        let dst := ztake off dst ++ ztake cnt src ++ zdrop (off + cnt) dst in
        b' ← advance cnt b;
        copy_to_slice_loop fuel (off + cnt) dst b'
    end
  else Done (dst, b).

Definition copy_to_slice (dst : list byte) (b : B) : outcome (list byte * B) :=
  assert_true (zlen dst <=? remaining b);;
  copy_to_slice_loop (length dst) 0 dst b.

(** [buf_get_impl!(this, typ::conv)]: convert straight from the chunk when
    it is long enough, else through a temporary buffer. *)
Definition buf_get_impl (size : nat) (conv : list byte -> Z) (b : B) : outcome (Z * B) :=
  if Z.of_nat size <=? zlen (chunk b) then
    let ret := conv (take size (chunk b)) in
    b' ← advance (Z.of_nat size) b;
    Done (ret, b')
  else
    '(buf, b') ← copy_to_slice (replicate size 0) b;
    Done (conv buf, b').

(** [buf_get_impl!(le => this, typ, nbytes)]. *)
Definition buf_get_impl_le (size : nat) (conv : list byte -> Z) (nbytes : Z) (b : B)
    : outcome (Z * B) :=
  assert_true (nbytes <=? Z.of_nat size);;
  '(buf, b') ← copy_to_slice (replicate (Z.to_nat nbytes) 0) b;
  Done (conv (buf ++ replicate (size - Z.to_nat nbytes) 0), b').

(** [buf_get_impl!(be => this, typ, nbytes)]. *)
Definition buf_get_impl_be (size : nat) (conv : list byte -> Z) (nbytes : Z) (b : B)
    : outcome (Z * B) :=
  assert_true (nbytes <=? Z.of_nat size);;
  '(buf, b') ← copy_to_slice (replicate (Z.to_nat nbytes) 0) b;
  Done (conv (replicate (size - Z.to_nat nbytes) 0 ++ buf), b').

Definition get_i8 (b : B) : outcome (Z * B) :=
  '(n, b') ← get_u8 b; Done (to_signed 8 n, b').
Definition get_u16 := buf_get_impl 2 u_from_be_bytes.
Definition get_u16_le := buf_get_impl 2 u_from_le_bytes.
Definition get_i16 := buf_get_impl 2 i_from_be_bytes.
Definition get_i16_le := buf_get_impl 2 i_from_le_bytes.
Definition get_u32 := buf_get_impl 4 u_from_be_bytes.
Definition get_u32_le := buf_get_impl 4 u_from_le_bytes.
Definition get_i32 := buf_get_impl 4 i_from_be_bytes.
Definition get_i32_le := buf_get_impl 4 i_from_le_bytes.
Definition get_u64 := buf_get_impl 8 u_from_be_bytes.
Definition get_u64_le := buf_get_impl 8 u_from_le_bytes.
Definition get_i64 := buf_get_impl 8 i_from_be_bytes.
Definition get_i64_le := buf_get_impl 8 i_from_le_bytes.
Definition get_u128 := buf_get_impl 16 u_from_be_bytes.
Definition get_u128_le := buf_get_impl 16 u_from_le_bytes.
Definition get_i128 := buf_get_impl 16 i_from_be_bytes.
Definition get_i128_le := buf_get_impl 16 i_from_le_bytes.
Definition get_uint (nbytes : Z) := buf_get_impl_be 8 u_from_be_bytes nbytes.
Definition get_uint_le (nbytes : Z) := buf_get_impl_le 8 u_from_le_bytes nbytes.
Definition get_int (nbytes : Z) := buf_get_impl_be 8 i_from_be_bytes nbytes.
Definition get_int_le (nbytes : Z) := buf_get_impl_le 8 i_from_le_bytes nbytes.
Definition get_f32 := get_u32.
Definition get_f32_le := get_u32_le.
Definition get_f64 := get_u64.
Definition get_f64_le := get_u64_le.

(** [IntoIter::next] and [IntoIter::size_hint]. *)
Definition into_iter_next (b : B) : outcome (option byte * B) :=
  if negb (has_remaining b) then Done (None, b)
  else match chunk b with
       | [] => Fault Panic
       | x :: _ => b' ← advance 1 b; Done (Some x, b')
       end.

Definition into_iter_size_hint (b : B) : Z * option Z :=
  let rem := remaining b in (rem, Some rem).

(** Draining the iterator, as a [for] loop over it does. *)
Fixpoint into_iter_collect (fuel : nat) (b : B) : outcome (list byte) :=
  match fuel with
  | O => Fault Diverges
  | S fuel =>
      '(x, b') ← into_iter_next b;
      match x with
      | None => Done []
      | Some x => xs ← into_iter_collect fuel b'; Done (x :: xs)
      end
  end.
End buf_provided.

(** *** The implementations for [&[u8]] and [io::Cursor<T>] *)

Definition slice_advance (cnt : Z) (s : list byte) : outcome (list byte) :=
  if cnt <=? zlen s then Done (zdrop cnt s) else Fault Panic.

Definition slice_get_u8 (s : list byte) : outcome (byte * list byte) :=
  match s with
  | [] => Fault Panic
  | ret :: _ => s' ← slice_advance 1 s; Done (ret, s')
  end.

#[export] Instance slice_buf : Buf (list byte) := {
  remaining s := zlen s;
  chunk s := s;
  advance := slice_advance;
  get_u8 := slice_get_u8;
}.

Record Cursor := mkCursor { cur_inner : list byte; cur_pos : Z }.

Definition cursor_remaining (c : Cursor) : Z :=
  let len := zlen (cur_inner c) in
  if len <=? cur_pos c then 0 else len - cur_pos c.

Definition cursor_chunk (c : Cursor) : list byte :=
  let len := zlen (cur_inner c) in
  if len <=? cur_pos c then [] else zdrop (cur_pos c) (cur_inner c).

Definition cursor_advance (cnt : Z) (c : Cursor) : outcome Cursor :=
  pos ← checked_add u64_modulus (cur_pos c) cnt;
  assert_true (pos <=? zlen (cur_inner c));;
  Done (mkCursor (cur_inner c) pos).

#[export] Instance cursor_buf : Buf Cursor := {
  remaining := cursor_remaining;
  chunk := cursor_chunk;
  advance := cursor_advance;
  get_u8 := get_u8_default cursor_remaining cursor_chunk cursor_advance;
}.

(** ** [trait BufMut]

    [chunk_mut] returns the length of the uninitialised slice it hands out
    (it may grow the buffer); [chunk_write] is the raw copy of a source into
    the start of that slice, which the provided methods do through
    [ptr::copy_nonoverlapping]; [put_slice] is overridden by some
    implementations. *)
Class BufMut (W : Type) := {
  remaining_mut : W -> Z;
  chunk_mut : W -> outcome (Z * W);
  chunk_write : list byte -> W -> W;
  advance_mut : Z -> W -> outcome W;
  put_slice : list byte -> W -> outcome W;
}.

Section put_slice_default.
Context {W : Type} (remaining_mut : W -> Z) (chunk_mut : W -> outcome (Z * W))
  (chunk_write : list byte -> W -> W) (advance_mut : Z -> W -> outcome W).

Fixpoint put_slice_loop (fuel : nat) (off : Z) (src : list byte) (w : W) : outcome W :=
  if off <? zlen src then
    match fuel with
    | O => Fault Diverges
    | S fuel =>
        '(dlen, w) ← chunk_mut w;
        let cnt := Z.min dlen (zlen src - off) in
        let w := chunk_write (ztake cnt (zdrop off src)) w in
        w' ← advance_mut cnt w;
        put_slice_loop fuel (off + cnt) src w'
    end
  else Done w.

(** The provided [BufMut::put_slice]. *)
Definition put_slice_default (src : list byte) (w : W) : outcome W :=
  assert_true (zlen src <=? remaining_mut w);;
  put_slice_loop (length src) 0 src w.
End put_slice_default.

Section bufmut_provided.
Context {W : Type} `{!BufMut W}.

Definition has_remaining_mut (w : W) : bool := 0 <? remaining_mut w.

(** The loop of [BufMut::put], which copies chunk by chunk from a [Buf]. *)
Fixpoint put_loop {B} `{!Buf B} (fuel : nat) (src : B) (w : W) : outcome (B * W) :=
  if has_remaining src then
    match fuel with
    | O => Fault Diverges
    | S fuel =>
        let s := chunk src in
        '(dlen, w) ← chunk_mut w;
        let l := Z.min (zlen s) dlen in
        let w := chunk_write (ztake l s) w in
        src' ← advance l src;
        w' ← advance_mut l w;
        put_loop fuel src' w'
    end
  else Done (src, w).

Definition put {B} `{!Buf B} (src : B) (w : W) : outcome W :=
  assert_true (remaining src <=? remaining_mut w);;
  '(_, w') ← put_loop (Z.to_nat (remaining src)) src w;
  Done w'.

Definition put_u8 (n : Z) : W -> outcome W := put_slice [n].
Definition put_i8 (n : Z) : W -> outcome W := put_slice [n mod 256].
Definition put_u16 (n : Z) : W -> outcome W := put_slice (to_be_bytes 2 n).
Definition put_u16_le (n : Z) : W -> outcome W := put_slice (to_le_bytes 2 n).
Definition put_i16 (n : Z) : W -> outcome W := put_slice (to_be_bytes 2 n).
Definition put_i16_le (n : Z) : W -> outcome W := put_slice (to_le_bytes 2 n).
Definition put_u32 (n : Z) : W -> outcome W := put_slice (to_be_bytes 4 n).
Definition put_u32_le (n : Z) : W -> outcome W := put_slice (to_le_bytes 4 n).
Definition put_i32 (n : Z) : W -> outcome W := put_slice (to_be_bytes 4 n).
Definition put_i32_le (n : Z) : W -> outcome W := put_slice (to_le_bytes 4 n).
Definition put_u64 (n : Z) : W -> outcome W := put_slice (to_be_bytes 8 n).
Definition put_u64_le (n : Z) : W -> outcome W := put_slice (to_le_bytes 8 n).
Definition put_i64 (n : Z) : W -> outcome W := put_slice (to_be_bytes 8 n).
Definition put_i64_le (n : Z) : W -> outcome W := put_slice (to_le_bytes 8 n).
Definition put_u128 (n : Z) : W -> outcome W := put_slice (to_be_bytes 16 n).
Definition put_u128_le (n : Z) : W -> outcome W := put_slice (to_le_bytes 16 n).
Definition put_i128 (n : Z) : W -> outcome W := put_slice (to_be_bytes 16 n).
Definition put_i128_le (n : Z) : W -> outcome W := put_slice (to_le_bytes 16 n).

(** [&bytes[from..to]] of a fixed-size array; out of range it panics. *)
Definition array_slice (from to : Z) (bs : list byte) : outcome (list byte) :=
  if (0 <=? from) && (from <=? to) && (to <=? zlen bs)
  then Done (zslice from (to - from) bs) else Fault Panic.

Definition put_uint (n nbytes : Z) (w : W) : outcome W :=
  from ← checked_sub 8 nbytes;
  s ← array_slice from 8 (to_be_bytes 8 n);
  put_slice s w.
Definition put_uint_le (n nbytes : Z) (w : W) : outcome W :=
  s ← array_slice 0 nbytes (to_le_bytes 8 n);
  put_slice s w.
Definition put_int (n nbytes : Z) (w : W) : outcome W :=
  from ← checked_sub 8 nbytes;
  s ← array_slice from 8 (to_be_bytes 8 n);
  put_slice s w.
Definition put_int_le (n nbytes : Z) (w : W) : outcome W :=
  s ← array_slice 0 nbytes (to_le_bytes 8 n);
  put_slice s w.
Definition put_f32 (n : Z) : W -> outcome W := put_u32 n.
Definition put_f32_le (n : Z) : W -> outcome W := put_u32_le n.
Definition put_f64 (n : Z) : W -> outcome W := put_u64 n.
Definition put_f64_le (n : Z) : W -> outcome W := put_u64_le n.
End bufmut_provided.

(** *** [&mut [u8]]: the part already written and the part still ahead *)

Record MutSlice := mkMutSlice { ms_done : list byte; ms_rest : list byte }.

Definition mut_slice_chunk_write (bs : list byte) (w : MutSlice) : MutSlice :=
  mkMutSlice (ms_done w) (bs ++ zdrop (zlen bs) (ms_rest w)).

Definition mut_slice_advance_mut (cnt : Z) (w : MutSlice) : outcome MutSlice :=
  if cnt <=? zlen (ms_rest w)
  then Done (mkMutSlice (ms_done w ++ ztake cnt (ms_rest w)) (zdrop cnt (ms_rest w)))
  else Fault Panic.

Definition mut_slice_put_slice (src : list byte) (w : MutSlice) : outcome MutSlice :=
  if zlen src <=? zlen (ms_rest w)
  then mut_slice_advance_mut (zlen src) (mut_slice_chunk_write src w)
  else Fault Panic.

#[export] Instance mut_slice_bufmut : BufMut MutSlice := {
  remaining_mut w := zlen (ms_rest w);
  chunk_mut w := Done (zlen (ms_rest w), w);
  chunk_write := mut_slice_chunk_write;
  advance_mut := mut_slice_advance_mut;
  put_slice := mut_slice_put_slice;
}.

(** *** [Vec<u8>]: the initialised prefix and the spare capacity

    [Vec::reserve(additional)] is documented to leave a capacity of at least
    [len + additional]; how much more it takes is not specified, so the spare
    room it creates is a parameter. *)

Record Vec8 := mkVec8 { v_init : list byte; v_spare : list (option byte) }.

Section vec8.
Variable grow : Z -> Z -> Z.

Definition vec_reserve (additional : Z) (v : Vec8) : Vec8 :=
  if additional <=? zlen (v_spare v) then v
  else mkVec8 (v_init v)
         (v_spare v ++ replicate (Z.to_nat (Z.max additional (grow (zlen (v_init v)) additional)
                                            - zlen (v_spare v))) None).

Definition vec_remaining_mut (v : Vec8) : Z := u64_max - zlen (v_init v).

Definition vec_chunk_mut (v : Vec8) : outcome (Z * Vec8) :=
  let v := if zlen (v_spare v) =? 0 then vec_reserve 64 v else v in
  Done (zlen (v_spare v), v).

Definition vec_chunk_write (bs : list byte) (v : Vec8) : Vec8 :=
  mkVec8 (v_init v) ((Some <$> bs) ++ zdrop (zlen bs) (v_spare v)).

(** [set_len(len + cnt)] after an optional [reserve]: exposing bytes that
    were never written is undefined behaviour once they are read. *)
Definition vec_advance_mut (cnt : Z) (v : Vec8) : outcome Vec8 :=
  let v := if zlen (v_spare v) <? cnt then vec_reserve cnt v else v in
  match mapM id (ztake cnt (v_spare v)) with
  | Some bs => Done (mkVec8 (v_init v ++ bs) (zdrop cnt (v_spare v)))
  | None => Fault Undefined
  end.

#[export] Instance vec_bufmut : BufMut Vec8 := {
  remaining_mut := vec_remaining_mut;
  chunk_mut := vec_chunk_mut;
  chunk_write := vec_chunk_write;
  advance_mut := vec_advance_mut;
  put_slice := put_slice_default vec_remaining_mut vec_chunk_mut vec_chunk_write vec_advance_mut;
}.
End vec8.

(** ** The contracts *)

(** What the documentation of [Buf] asks: [remaining] counts the bytes ahead,
    [chunk] is a prefix of them that is empty only at the end, [advance]
    drops from the front. *)
Class BufSpec (B : Type) `{!Buf B} := {
  buf_ok : B -> Prop;
  contents : B -> list byte;
  remaining_spec b : buf_ok b -> remaining b = zlen (contents b);
  chunk_prefix b : buf_ok b -> exists rest, contents b = chunk b ++ rest;
  chunk_nonempty b : buf_ok b -> contents b <> [] -> chunk b <> [];
  advance_spec n b : buf_ok b -> 0 <= n <= zlen (contents b) ->
    exists b', advance n b = Done b' /\ buf_ok b' /\ contents b' = zdrop n (contents b);
  get_u8_spec b : buf_ok b -> get_u8 b = get_u8_default remaining chunk advance b;
}.

(** What the documentation of [BufMut] asks: bytes copied into the slice of
    [chunk_mut] and then advanced over are appended to what was written. *)
Definition chunk_contract {W} (remaining_mut : W -> Z) (chunk_mut : W -> outcome (Z * W))
    (chunk_write : list byte -> W -> W) (advance_mut : Z -> W -> outcome W)
    (ok : W -> Prop) (written : W -> list byte) : Prop :=
  forall w, ok w ->
    exists n w1, chunk_mut w = Done (n, w1) /\ ok w1 /\ written w1 = written w /\
      remaining_mut w1 = remaining_mut w /\ (0 < remaining_mut w -> 0 < n) /\
      (forall bs, zlen bs <= n -> zlen bs <= remaining_mut w ->
         exists w2, advance_mut (zlen bs) (chunk_write bs w1) = Done w2 /\ ok w2 /\
           written w2 = written w ++ bs /\ remaining_mut w2 = remaining_mut w - zlen bs).

Class BufMutSpec (W : Type) `{!BufMut W} := {
  mut_ok : W -> Prop;
  written : W -> list byte;
  chunk_mut_spec :
    chunk_contract remaining_mut chunk_mut chunk_write advance_mut mut_ok written;
  put_slice_spec src w : mut_ok w -> zlen src <= remaining_mut w ->
    exists w', put_slice src w = Done w' /\ mut_ok w' /\ written w' = written w ++ src;
}.

#[export, refine] Instance slice_buf_spec : BufSpec (list byte) := {
  buf_ok _ := True;
  contents s := s;
}.
Proof.
  - done.
  - intros b _. exists []. by rewrite app_nil_r.
  - done.
  - intros n b _ Hn. exists (zdrop n b). cbn. unfold slice_advance. by zbool.
  - intros b _. destruct b as [|x b]; [done|]. unfold get_u8_default. cbn.
    by zbool.
Defined.

#[export, refine] Instance cursor_buf_spec : BufSpec Cursor := {
  buf_ok c := 0 <= cur_pos c <= zlen (cur_inner c) /\ zlen (cur_inner c) < u64_modulus;
  contents c := zdrop (cur_pos c) (cur_inner c);
}.
Proof.
  - intros c [Hp _]. cbn. unfold cursor_remaining. zcase; zlia.
  - intros c [Hp _]. cbn. unfold cursor_chunk. zcase; exists [].
    + rewrite zdrop_all by lia. done.
    + by rewrite app_nil_r.
  - intros c [Hp _] Hne. cbn. unfold cursor_chunk. zcase; [|done].
    by rewrite zdrop_all in Hne.
  - intros n c [Hp Hl] Hn. rewrite zlen_zdrop in Hn. cbn. unfold cursor_advance.
    rewrite checked_add_ok by lia. cbn. unfold assert_true. zbool. cbn.
    eexists; split; [done|]. cbn. split; [lia|]. by rewrite zdrop_zdrop by lia.
  - done.
Defined.

Section buf_theory.
Context {B : Type} `{!Buf B} `{!BufSpec B}.
Implicit Types b : B.

Lemma chunk_ztake b n :
  buf_ok b -> n <= zlen (chunk b) -> ztake n (chunk b) = ztake n (contents b).
Proof.
  intros Hok Hn. destruct (chunk_prefix b Hok) as [rest ->]. by rewrite ztake_app_le.
Qed.

Lemma zlen_chunk_le b : buf_ok b -> zlen (chunk b) <= zlen (contents b).
Proof. intros Hok. destruct (chunk_prefix b Hok) as [rest ->]. zlia. Qed.

Lemma copy_to_slice_loop_spec fuel off dst b :
  buf_ok b -> 0 <= off <= zlen dst -> zlen dst - off <= Z.of_nat fuel ->
  zlen dst - off <= zlen (contents b) ->
  exists b', copy_to_slice_loop fuel off dst b
      = Done (ztake off dst ++ ztake (zlen dst - off) (contents b), b')
    /\ buf_ok b' /\ contents b' = zdrop (zlen dst - off) (contents b).
Proof.
  revert off dst b. induction fuel as [|fuel IH]; intros off dst b Hok Hoff Hfuel Hlen.
  - cbn [copy_to_slice_loop]. zbool. exists b.
    rewrite ztake_all, ztake_le0, zdrop_le0, app_nil_r by lia. done.
  - cbn [copy_to_slice_loop]. zcase; cycle 1.
    { exists b. rewrite ztake_all, ztake_le0, zdrop_le0, app_nil_r by lia. done. }
    pose proof (zlen_chunk_le b Hok).
    assert (0 < zlen (chunk b)).
    { assert (chunk b <> []) as Hne.
      { apply chunk_nonempty; [done|]. intros E. rewrite E in Hlen. zlia. }
      destruct (chunk b); [done|]. zlia. }
    set (cnt := Z.min (zlen (chunk b)) (zlen dst - off)).
    destruct (advance_spec cnt b Hok) as (b1 & -> & Hok1 & Hc1); [lia|].
    cbn. set (dst' := ztake off dst ++ ztake cnt (chunk b) ++ zdrop (off + cnt) dst).
    assert (Hl : zlen dst' = zlen dst) by (subst dst'; zlia).
    destruct (IH (off + cnt) dst' b1) as (b2 & E & Hok2 & Hc2);
      rewrite ?Hl, ?Hc1; rewrite ?zlen_zdrop; [done|lia..|].
    exists b2. rewrite E, Hl, Hc2, Hc1. split_and!; [|done|].
    + f_equal. f_equal. subst dst'.
      rewrite chunk_ztake by (done || lia).
      rewrite ztake_app_ge by zlia. rewrite zlen_ztake.
      replace (off + cnt - _) with cnt by zlia.
      rewrite ztake_app_ge by zlia. rewrite zlen_ztake.
      replace (cnt - _) with 0 by lia. rewrite (ztake_le0 0) by lia. rewrite app_nil_r.
      rewrite <- app_assoc. f_equal.
      rewrite (ztake_split cnt (zlen dst - off)) by lia. do 2 f_equal. lia.
    + rewrite zdrop_zdrop by lia. f_equal. lia.
Qed.

(** [copy_to_slice] fills the destination with the next bytes and advances
    past them, whatever the chunks look like. *)
Lemma copy_to_slice_spec dst b :
  buf_ok b -> zlen dst <= zlen (contents b) ->
  exists b', copy_to_slice dst b = Done (ztake (zlen dst) (contents b), b')
    /\ buf_ok b' /\ contents b' = zdrop (zlen dst) (contents b).
Proof.
  intros Hok Hl. unfold copy_to_slice, assert_true. rewrite remaining_spec by done.
  zbool. cbn.
  destruct (copy_to_slice_loop_spec (length dst) 0 dst b) as (b' & E & ? & Hc);
    [done|zlia|unfold zlen; lia|lia|].
  exists b'. rewrite E, Hc, Z.sub_0_r, ztake_le0 by lia. done.
Qed.

Lemma copy_to_slice_short dst b :
  buf_ok b -> zlen (contents b) < zlen dst -> copy_to_slice dst b = Fault Panic.
Proof.
  intros Hok Hl. unfold copy_to_slice, assert_true. rewrite remaining_spec by done.
  by zbool.
Qed.

Lemma buf_get_impl_spec size conv b :
  buf_ok b -> Z.of_nat size <= zlen (contents b) ->
  exists b', buf_get_impl size conv b = Done (conv (ztake (Z.of_nat size) (contents b)), b')
    /\ buf_ok b' /\ contents b' = zdrop (Z.of_nat size) (contents b).
Proof.
  intros Hok Hl. unfold buf_get_impl. zcase.
  - destruct (advance_spec (Z.of_nat size) b Hok) as (b' & -> & ? & ?); [lia|].
    exists b'. cbn. split; [|done]. rewrite <- chunk_ztake by done.
    unfold ztake. by rewrite Nat2Z.id.
  - destruct (copy_to_slice_spec (replicate size 0) b) as (b' & E & ? & Hc);
      [done|by rewrite zlen_replicate|].
    exists b'. rewrite E. rewrite zlen_replicate in *. done.
Qed.

Lemma buf_get_impl_short size conv b :
  buf_ok b -> zlen (contents b) < Z.of_nat size -> buf_get_impl size conv b = Fault Panic.
Proof.
  intros Hok Hl. unfold buf_get_impl. pose proof (zlen_chunk_le b Hok). zbool.
  rewrite copy_to_slice_short; [done..|by rewrite zlen_replicate].
Qed.

Lemma get_u8_contents b x rest :
  buf_ok b -> contents b = x :: rest ->
  exists b', get_u8 b = Done (x, b') /\ buf_ok b' /\ contents b' = rest.
Proof.
  intros Hok E. rewrite get_u8_spec by done. unfold get_u8_default, assert_true.
  rewrite remaining_spec by done. rewrite E. zbool. cbn.
  destruct (chunk_prefix b Hok) as [r Hr].
  destruct (chunk b) as [|y ys] eqn:Hch.
  { exfalso. eapply chunk_nonempty; [done|by rewrite E|done]. }
  destruct (advance_spec 1 b Hok) as (b' & -> & ? & Hc); [rewrite E; zlia|].
  exists b'. rewrite E in Hr. cbn in Hr. simplify_eq. rewrite Hc, E. done.
Qed.

Lemma into_iter_collect_spec fuel b :
  buf_ok b -> zlen (contents b) < Z.of_nat fuel ->
  into_iter_collect fuel b = Done (contents b).
Proof.
  revert b. induction fuel as [|fuel IH]; intros b Hok Hf; [zlia|].
  cbn [into_iter_collect]. unfold into_iter_next, has_remaining.
  rewrite remaining_spec by done.
  destruct (contents b) as [|x rest] eqn:E; [done|].
  zbool. cbn.
  destruct (chunk_prefix b Hok) as [r Hr].
  destruct (chunk b) as [|y ys] eqn:Hch.
  { exfalso. eapply chunk_nonempty; [done|by rewrite E|done]. }
  destruct (advance_spec 1 b Hok) as (b' & -> & ? & Hc); [rewrite E; zlia|].
  cbn. rewrite E in Hc, Hr. cbn in Hr. simplify_eq.
  rewrite IH by (done || rewrite Hc; cbn; zlia). cbn. by rewrite Hc.
Qed.
End buf_theory.

(** ** Integer conversions *)

Lemma length_le_bytes n w : length (le_bytes n w) = n.
Proof. revert w. induction n as [|n IH]; intros w; cbn; [done|]. by rewrite IH. Qed.

Lemma le_bytes_range n w : Forall (fun b => 0 <= b < 256) (le_bytes n w).
Proof.
  revert w. induction n as [|n IH]; intros w; cbn; constructor; [|done].
  apply Z.mod_pos_bound. lia.
Qed.

Lemma le_value_le_bytes n w : le_value (le_bytes n w) = w mod 256 ^ Z.of_nat n.
Proof.
  revert w. induction n as [|n IH]; intros w.
  - cbn. by rewrite Z.mod_1_r.
  - cbn [le_bytes le_value]. rewrite IH, Nat2Z.inj_succ, Z.pow_succ_r by lia.
    rewrite Z.rem_mul_r by lia. done.
Qed.

Lemma le_value_app k l : le_value (k ++ l) = le_value k + 256 ^ zlen k * le_value l.
Proof.
  induction k as [|b k IH]; cbn [app le_value].
  - change (256 ^ zlen (@nil Z)) with 1. lia.
  - rewrite IH, zlen_cons, Z.pow_add_r by zlia. lia.
Qed.

Lemma le_value_zeros n : le_value (replicate n 0) = 0.
Proof. induction n as [|n IH]; cbn [replicate le_value]; [done|]. rewrite IH. lia. Qed.

Lemma pow256 n : 256 ^ Z.of_nat n = 2 ^ (8 * Z.of_nat n).
Proof. rewrite Z.pow_mul_r by lia. done. Qed.

Lemma to_signed_mod bits n :
  0 < bits -> - 2 ^ (bits - 1) <= n < 2 ^ (bits - 1) -> to_signed bits (n mod 2 ^ bits) = n.
Proof.
  intros Hb Hn. unfold to_signed.
  assert (2 ^ bits = 2 * 2 ^ (bits - 1)) as E.
  { rewrite <- Z.pow_succ_r by lia. f_equal. lia. }
  destruct (Z.le_gt_cases 0 n).
  - rewrite Z.mod_small by lia. by zbool.
  - replace (n mod 2 ^ bits) with (n + 2 ^ bits).
    + zbool. lia.
    + rewrite <- (Z_mod_plus_full n 1), Z.mod_small by lia. lia.
Qed.

(** Decoding inverts encoding at every width, in both byte orders, for
    unsigned and for signed values. *)
Lemma u_le_roundtrip size n :
  0 <= n < 2 ^ (8 * Z.of_nat size) -> u_from_le_bytes (to_le_bytes size n) = n.
Proof.
  intros. unfold u_from_le_bytes, to_le_bytes.
  by rewrite le_value_le_bytes, pow256, Z.mod_small.
Qed.

Lemma u_be_roundtrip size n :
  0 <= n < 2 ^ (8 * Z.of_nat size) -> u_from_be_bytes (to_be_bytes size n) = n.
Proof.
  intros. unfold u_from_be_bytes, to_be_bytes.
  by rewrite reverse_involutive, le_value_le_bytes, pow256, Z.mod_small.
Qed.

Lemma i_le_roundtrip size n :
  (0 < size)%nat -> - 2 ^ (8 * Z.of_nat size - 1) <= n < 2 ^ (8 * Z.of_nat size - 1) ->
  i_from_le_bytes (to_le_bytes size n) = n.
Proof.
  intros. unfold i_from_le_bytes, to_le_bytes, zlen.
  by rewrite length_le_bytes, le_value_le_bytes, pow256, to_signed_mod by lia.
Qed.

Lemma i_be_roundtrip size n :
  (0 < size)%nat -> - 2 ^ (8 * Z.of_nat size - 1) <= n < 2 ^ (8 * Z.of_nat size - 1) ->
  i_from_be_bytes (to_be_bytes size n) = n.
Proof.
  intros. unfold i_from_be_bytes, to_be_bytes, zlen.
  by rewrite length_reverse, reverse_involutive, length_le_bytes, le_value_le_bytes, pow256,
    to_signed_mod by lia.
Qed.

(** ** The provided methods of [BufMut] *)

Section put_slice_theory.
Context {W : Type} (remaining_mut : W -> Z) (chunk_mut : W -> outcome (Z * W))
  (chunk_write : list byte -> W -> W) (advance_mut : Z -> W -> outcome W)
  (ok : W -> Prop) (written : W -> list byte).
Hypothesis contract : chunk_contract remaining_mut chunk_mut chunk_write advance_mut ok written.

Lemma put_slice_loop_spec fuel off src w :
  ok w -> 0 <= off <= zlen src -> zlen src - off <= Z.of_nat fuel ->
  zlen src - off <= remaining_mut w ->
  exists w', put_slice_loop chunk_mut chunk_write advance_mut fuel off src w = Done w'
    /\ ok w' /\ written w' = written w ++ zdrop off src.
Proof.
  revert off w. induction fuel as [|fuel IH]; intros off w Hok Hoff Hf Hr;
    cbn [put_slice_loop].
  { zbool. exists w. rewrite zdrop_all, app_nil_r by lia. done. }
  zcase; cycle 1.
  { exists w. rewrite zdrop_all, app_nil_r by lia. done. }
  destruct (contract w Hok) as (n & w1 & -> & Hok1 & Hw1 & Hr1 & Hn & Hadv).
  cbn. set (cnt := Z.min n (zlen src - off)).
  destruct (Hadv (ztake cnt (zdrop off src))) as (w2 & E & Hok2 & Hw2 & Hr2);
    [subst cnt; zlia..|].
  assert (zlen (ztake cnt (zdrop off src)) = cnt) as Hcnt by (subst cnt; zlia).
  rewrite Hcnt in *. rewrite E. cbn.
  destruct (IH (off + cnt) w2) as (w3 & E3 & Hok3 & Hw3); [done|subst cnt; zlia..|].
  exists w3. split; [done|]. split; [done|].
  rewrite Hw3, Hw2, <- app_assoc, <- zdrop_zdrop, ztake_zdrop by lia. done.
Qed.

Lemma put_slice_default_spec src w :
  ok w -> zlen src <= remaining_mut w ->
  exists w', put_slice_default remaining_mut chunk_mut chunk_write advance_mut src w = Done w'
    /\ ok w' /\ written w' = written w ++ src.
Proof.
  intros Hok Hl. unfold put_slice_default, assert_true. zbool. cbn.
  apply (put_slice_loop_spec (length src) 0 src w); [done|zlia|unfold zlen; lia|lia].
Qed.
End put_slice_theory.

Section bufmut_theory.
Context {W : Type} `{!BufMut W} `{!BufMutSpec W}.
Implicit Types w : W.

Lemma put_loop_spec {B} `{!Buf B} `{!BufSpec B} fuel (src : B) w :
  buf_ok src -> mut_ok w -> zlen (contents src) <= Z.of_nat fuel ->
  zlen (contents src) <= remaining_mut w ->
  exists src' w', put_loop fuel src w = Done (src', w') /\ mut_ok w'
    /\ contents src' = [] /\ written w' = written w ++ contents src.
Proof.
  revert src w. induction fuel as [|fuel IH]; intros src w Hs Hok Hf Hr;
    cbn [put_loop]; unfold has_remaining; rewrite remaining_spec by done.
  { assert (contents src = []) as E by (apply zlen_0_inv; zlia).
    rewrite E. cbn. exists src, w. by rewrite app_nil_r. }
  zcase; cycle 1.
  { assert (contents src = []) as E by (apply zlen_0_inv; zlia).
    exists src, w. by rewrite E, app_nil_r. }
  destruct (chunk_mut_spec w Hok) as (n & w1 & -> & Hok1 & Hw1 & Hr1 & Hn & Hadv).
  cbn. pose proof (zlen_chunk_le src Hs).
  assert (0 < zlen (chunk src)).
  { destruct (chunk src) eqn:E; [|zlia]. exfalso.
    eapply chunk_nonempty; [done| |done]. intros E'. rewrite E' in *. zlia. }
  set (l := Z.min (zlen (chunk src)) n).
  destruct (advance_spec l src Hs) as (src1 & -> & Hs1 & Hc1); [subst l; lia|]. cbn.
  destruct (Hadv (ztake l (chunk src))) as (w2 & E & Hok2 & Hw2 & Hr2); [subst l; zlia..|].
  assert (zlen (ztake l (chunk src)) = l) as Hl by (subst l; zlia).
  rewrite Hl in *. rewrite E. cbn.
  destruct (IH src1 w2) as (src2 & w3 & E3 & Hok3 & He & Hw3);
    [done|done|rewrite Hc1; subst l; zlia..|].
  exists src2, w3. split_and!; [done..|].
  rewrite Hw3, Hw2, Hc1, <- app_assoc, chunk_ztake, ztake_zdrop by (done || subst l; lia). done.
Qed.

Lemma put_spec {B} `{!Buf B} `{!BufSpec B} (src : B) w :
  buf_ok src -> mut_ok w -> zlen (contents src) <= remaining_mut w ->
  exists w', put src w = Done w' /\ mut_ok w' /\ written w' = written w ++ contents src.
Proof.
  intros Hs Hok Hl. unfold put, assert_true. rewrite remaining_spec by done. zbool. cbn.
  destruct (put_loop_spec (Z.to_nat (zlen (contents src))) src w)
    as (s' & w' & -> & ? & _ & ?); [done|done|zlia|lia|]. by exists w'.
Qed.
End bufmut_theory.

#[export, refine] Instance mut_slice_spec : BufMutSpec MutSlice := {
  mut_ok _ := True;
  written w := ms_done w;
}.
Proof.
  - intros [d r] _. cbn. exists (zlen r), (mkMutSlice d r). split_and!; try done.
    intros bs Hb _. unfold mut_slice_advance_mut. cbn. zbool.
    eexists; split; [done|]. cbn. rewrite ztake_app_len, zdrop_app_len. split_and!; [done..|zlia].
  - intros src [d r] _. cbn. intros Hl. unfold mut_slice_put_slice, mut_slice_advance_mut.
    cbn. zbool. eexists; split; [done|]. cbn. by rewrite ztake_app_len.
Defined.

Section vec8_spec.
Variable grow : Z -> Z -> Z.

Lemma vec_chunk_mut_ok v :
  exists n v1, vec_chunk_mut grow v = Done (n, v1) /\ v_init v1 = v_init v
    /\ n = zlen (v_spare v1) /\ 0 < n.
Proof.
  unfold vec_chunk_mut. eexists _, _. split; [done|]. zcase; cbn.
  - unfold vec_reserve. zbool. cbn. split_and!; [done|done|]. rewrite zlen_app, zlen_replicate. lia.
  - split_and!; [done|done|zlia].
Qed.

Lemma vec_advance_ok bs v :
  zlen bs <= zlen (v_spare v) ->
  vec_advance_mut grow (zlen bs) (vec_chunk_write bs v)
    = Done (mkVec8 (v_init v ++ bs) (zdrop (zlen bs) (v_spare v))).
Proof.
  intros Hl. unfold vec_advance_mut, vec_chunk_write. cbn.
  assert (Hf : zlen (Some <$> bs : list (option byte)) = zlen bs)
    by (unfold zlen; by rewrite length_fmap).
  rewrite zlen_app, Hf. zbool. cbn.
  rewrite <- !Hf, ztake_app_len, mapM_id_Some, zdrop_app_len. by rewrite Hf.
Qed.

Lemma vec_chunk_contract :
  chunk_contract vec_remaining_mut (vec_chunk_mut grow) vec_chunk_write (vec_advance_mut grow)
    (fun v => zlen (v_init v) <= u64_max) v_init.
Proof.
  intros w Hw. destruct (vec_chunk_mut_ok w) as (n & v1 & E & Hi & Hn & Hpos).
  exists n, v1. unfold vec_remaining_mut in *. rewrite Hi. split_and!; try done.
  intros bs Hb Hr. rewrite vec_advance_ok by lia. eexists; split; [done|]. cbn.
  rewrite Hi, zlen_app. split_and!; [lia|done|lia].
Qed.

#[export] Instance vec_spec : @BufMutSpec Vec8 (vec_bufmut grow) :=
  @Build_BufMutSpec Vec8 (vec_bufmut grow) (fun v => zlen (v_init v) <= u64_max) v_init
    vec_chunk_contract
    (put_slice_default_spec _ _ _ _ _ _ vec_chunk_contract).
End vec8_spec.

(** ** Properties *)

(** [put n] on a writer with room for [size] more bytes appends an encoding
    of [n], and [get] on any reader positioned at that encoding returns [n]
    and is left just after it. *)
Definition roundtrips {W B} `{!BufMut W} `{!BufMutSpec W} `{!Buf B} `{!BufSpec B}
    (size : Z) (put : Z -> W -> outcome W) (get : B -> outcome (Z * B)) (lo hi : Z) : Prop :=
  forall n w, lo <= n < hi -> mut_ok w -> size <= remaining_mut w ->
    exists bs w', put n w = Done w' /\ mut_ok w' /\ written w' = written w ++ bs /\
      zlen bs = size /\
      forall b rest, buf_ok b -> contents b = bs ++ rest ->
        exists b', get b = Done (n, b') /\ buf_ok b' /\ contents b' = rest.

Section roundtrip.
Context {W B : Type} `{!BufMut W} `{!BufMutSpec W} `{!Buf B} `{!BufSpec B}.

Lemma zlen_to_le_bytes size n : zlen (to_le_bytes size n) = Z.of_nat size.
Proof. unfold zlen, to_le_bytes. by rewrite length_le_bytes. Qed.

Lemma zlen_to_be_bytes size n : zlen (to_be_bytes size n) = Z.of_nat size.
Proof. unfold zlen, to_be_bytes. by rewrite length_reverse, length_le_bytes. Qed.

Lemma fixed_roundtrips size enc conv lo hi :
  (forall n, zlen (enc n) = Z.of_nat size) ->
  (forall n, lo <= n < hi -> conv (enc n) = n) ->
  roundtrips (W:=W) (B:=B) (Z.of_nat size) (fun n => put_slice (enc n))
    (buf_get_impl size conv) lo hi.
Proof.
  intros Henc Hconv n w Hn Hok Hr.
  destruct (put_slice_spec (enc n) w Hok) as (w' & E & ? & ?); [by rewrite Henc|].
  exists (enc n), w'. split_and!; [done..|]. intros b rest Hb Hc.
  destruct (buf_get_impl_spec size conv b Hb) as (b' & Eb & ? & Hc');
    [rewrite Hc, zlen_app, Henc; zlia|].
  exists b'. rewrite Eb, Hc', Hc, <- (Henc n), ztake_app_len, zdrop_app_len, Hconv by done.
  done.
Qed.

Lemma put_u8_get_u8 : roundtrips (W:=W) (B:=B) 1 put_u8 get_u8 0 256.
Proof.
  intros n w Hn Hok Hr.
  destruct (put_slice_spec [n] w Hok) as (w' & E & ? & ?); [done|].
  exists [n], w'. split_and!; [done..|]. intros b rest Hb Hc. by apply get_u8_contents.
Qed.

Lemma put_i8_get_i8 : roundtrips (W:=W) (B:=B) 1 put_i8 get_i8 (-128) 128.
Proof.
  intros n w Hn Hok Hr.
  destruct (put_slice_spec [n mod 256] w Hok) as (w' & E & ? & ?); [done|].
  exists [n mod 256], w'. split_and!; [done..|]. intros b rest Hb Hc.
  destruct (get_u8_contents b _ _ Hb Hc) as (b' & E' & ? & ?).
  exists b'. unfold get_i8. rewrite E'. cbn [mbind outcome_bind].
  change 256 with (2 ^ 8). rewrite to_signed_mod by lia. done.
Qed.

Lemma ube_roundtrips size :
  roundtrips (W:=W) (B:=B) (Z.of_nat size) (fun n => put_slice (to_be_bytes size n))
    (buf_get_impl size u_from_be_bytes) 0 (2 ^ (8 * Z.of_nat size)).
Proof. apply fixed_roundtrips; [apply zlen_to_be_bytes|apply u_be_roundtrip]. Qed.

Lemma ule_roundtrips size :
  roundtrips (W:=W) (B:=B) (Z.of_nat size) (fun n => put_slice (to_le_bytes size n))
    (buf_get_impl size u_from_le_bytes) 0 (2 ^ (8 * Z.of_nat size)).
Proof. apply fixed_roundtrips; [apply zlen_to_le_bytes|apply u_le_roundtrip]. Qed.

Lemma ibe_roundtrips size :
  (0 < size)%nat ->
  roundtrips (W:=W) (B:=B) (Z.of_nat size) (fun n => put_slice (to_be_bytes size n))
    (buf_get_impl size i_from_be_bytes)
    (- 2 ^ (8 * Z.of_nat size - 1)) (2 ^ (8 * Z.of_nat size - 1)).
Proof.
  intros. apply fixed_roundtrips; [apply zlen_to_be_bytes|].
  intros; by apply i_be_roundtrip.
Qed.

Lemma ile_roundtrips size :
  (0 < size)%nat ->
  roundtrips (W:=W) (B:=B) (Z.of_nat size) (fun n => put_slice (to_le_bytes size n))
    (buf_get_impl size i_from_le_bytes)
    (- 2 ^ (8 * Z.of_nat size - 1)) (2 ^ (8 * Z.of_nat size - 1)).
Proof.
  intros. apply fixed_roundtrips; [apply zlen_to_le_bytes|].
  intros; by apply i_le_roundtrip.
Qed.

(** C37. Every fixed-width integer written with a [put_] method of [BufMut]
    is read back by the matching [get_] method of [Buf], for every value of
    its type, in both byte orders, on every pair of buffers that keep the
    trait contracts (the source's [&[u8]], [Cursor], [&mut [u8]] and
    [Vec<u8>] do).  The reader may be segmented: the direct and the copying
    path of [buf_get_impl!] give the same result. *)
Theorem int_codecs_roundtrip :
  roundtrips (W:=W) (B:=B) 1 put_u8 get_u8 0 (2 ^ 8) /\
  roundtrips (W:=W) (B:=B) 1 put_i8 get_i8 (- 2 ^ 7) (2 ^ 7) /\
  roundtrips (W:=W) (B:=B) 2 put_u16 get_u16 0 (2 ^ 16) /\
  roundtrips (W:=W) (B:=B) 2 put_u16_le get_u16_le 0 (2 ^ 16) /\
  roundtrips (W:=W) (B:=B) 2 put_i16 get_i16 (- 2 ^ 15) (2 ^ 15) /\
  roundtrips (W:=W) (B:=B) 2 put_i16_le get_i16_le (- 2 ^ 15) (2 ^ 15) /\
  roundtrips (W:=W) (B:=B) 4 put_u32 get_u32 0 (2 ^ 32) /\
  roundtrips (W:=W) (B:=B) 4 put_u32_le get_u32_le 0 (2 ^ 32) /\
  roundtrips (W:=W) (B:=B) 4 put_i32 get_i32 (- 2 ^ 31) (2 ^ 31) /\
  roundtrips (W:=W) (B:=B) 4 put_i32_le get_i32_le (- 2 ^ 31) (2 ^ 31) /\
  roundtrips (W:=W) (B:=B) 8 put_u64 get_u64 0 (2 ^ 64) /\
  roundtrips (W:=W) (B:=B) 8 put_u64_le get_u64_le 0 (2 ^ 64) /\
  roundtrips (W:=W) (B:=B) 8 put_i64 get_i64 (- 2 ^ 63) (2 ^ 63) /\
  roundtrips (W:=W) (B:=B) 8 put_i64_le get_i64_le (- 2 ^ 63) (2 ^ 63) /\
  roundtrips (W:=W) (B:=B) 16 put_u128 get_u128 0 (2 ^ 128) /\
  roundtrips (W:=W) (B:=B) 16 put_u128_le get_u128_le 0 (2 ^ 128) /\
  roundtrips (W:=W) (B:=B) 16 put_i128 get_i128 (- 2 ^ 127) (2 ^ 127) /\
  roundtrips (W:=W) (B:=B) 16 put_i128_le get_i128_le (- 2 ^ 127) (2 ^ 127) /\
  roundtrips (W:=W) (B:=B) 4 put_f32 get_f32 0 (2 ^ 32) /\
  roundtrips (W:=W) (B:=B) 4 put_f32_le get_f32_le 0 (2 ^ 32) /\
  roundtrips (W:=W) (B:=B) 8 put_f64 get_f64 0 (2 ^ 64) /\
  roundtrips (W:=W) (B:=B) 8 put_f64_le get_f64_le 0 (2 ^ 64).
Proof.
  split; [exact put_u8_get_u8|]. split; [exact put_i8_get_i8|].
  split_and!;
    first [ exact (ube_roundtrips 2) | exact (ule_roundtrips 2)
          | exact (ibe_roundtrips 2 ltac:(lia)) | exact (ile_roundtrips 2 ltac:(lia))
          | exact (ube_roundtrips 4) | exact (ule_roundtrips 4)
          | exact (ibe_roundtrips 4 ltac:(lia)) | exact (ile_roundtrips 4 ltac:(lia))
          | exact (ube_roundtrips 8) | exact (ule_roundtrips 8)
          | exact (ibe_roundtrips 8 ltac:(lia)) | exact (ile_roundtrips 8 ltac:(lia))
          | exact (ube_roundtrips 16) | exact (ule_roundtrips 16)
          | exact (ibe_roundtrips 16 ltac:(lia)) | exact (ile_roundtrips 16 ltac:(lia)) ].
Qed.

(** *** Reads and writes of a variable number of bytes *)

Lemma take_le_bytes k n w : (k <= n)%nat -> take k (le_bytes n w) = le_bytes k w.
Proof.
  revert n w. induction k as [|k IH]; intros [|n] w Hk; cbn; try done; [lia|].
  rewrite IH by lia. done.
Qed.

Lemma be_tail k n : (k <= 8)%nat ->
  array_slice (8 - Z.of_nat k) 8 (to_be_bytes 8 n) = Done (to_be_bytes k n).
Proof.
  intros Hk. unfold array_slice. rewrite zlen_to_be_bytes. zbool. cbn [andb].
  f_equal. unfold zslice. rewrite ztake_all by (rewrite zlen_zdrop, zlen_to_be_bytes; lia).
  unfold zdrop, to_be_bytes. rewrite <- (take_le_bytes k 8) by done.
  rewrite <- (take_drop k (le_bytes 8 n)) at 1. rewrite reverse_app, drop_app_length'; [done|].
  rewrite length_reverse, length_drop, length_le_bytes. lia.
Qed.

Lemma le_head k n : (k <= 8)%nat ->
  array_slice 0 (Z.of_nat k) (to_le_bytes 8 n) = Done (to_le_bytes k n).
Proof.
  intros Hk. unfold array_slice. rewrite zlen_to_le_bytes. zbool. cbn [andb].
  f_equal. unfold zslice, to_le_bytes. rewrite zdrop_le0 by lia. unfold ztake.
  replace (Z.to_nat (Z.of_nat k - 0)) with k by lia. by apply take_le_bytes.
Qed.

Lemma be_extend k bs : le_value (reverse (replicate k 0 ++ bs)) = le_value (reverse bs).
Proof. rewrite reverse_app, le_value_app, reverse_replicate, le_value_zeros. lia. Qed.

Lemma le_extend k bs : le_value (bs ++ replicate k 0) = le_value bs.
Proof. rewrite le_value_app, le_value_zeros. lia. Qed.

Lemma get_be_bytes k n conv (b : B) rest :
  (k <= 8)%nat -> buf_ok b -> contents b = to_be_bytes k n ++ rest ->
  exists b', buf_get_impl_be 8 conv (Z.of_nat k) b
      = Done (conv (replicate (8 - k) 0 ++ to_be_bytes k n), b')
    /\ buf_ok b' /\ contents b' = rest.
Proof.
  intros Hk Hb Hc. unfold buf_get_impl_be, assert_true. zbool. cbn. rewrite Nat2Z.id.
  destruct (copy_to_slice_spec (replicate k 0) b Hb) as (b' & E & ? & Hc');
    rewrite zlen_replicate, Hc in *; [rewrite zlen_app, zlen_to_be_bytes; zlia|].
  rewrite <- (zlen_to_be_bytes k n), ztake_app_len in E.
  rewrite <- (zlen_to_be_bytes k n), zdrop_app_len in Hc'.
  exists b'. rewrite E. done.
Qed.

Lemma get_le_bytes k n conv (b : B) rest :
  (k <= 8)%nat -> buf_ok b -> contents b = to_le_bytes k n ++ rest ->
  exists b', buf_get_impl_le 8 conv (Z.of_nat k) b
      = Done (conv (to_le_bytes k n ++ replicate (8 - k) 0), b')
    /\ buf_ok b' /\ contents b' = rest.
Proof.
  intros Hk Hb Hc. unfold buf_get_impl_le, assert_true. zbool. cbn. rewrite Nat2Z.id.
  destruct (copy_to_slice_spec (replicate k 0) b Hb) as (b' & E & ? & Hc');
    rewrite zlen_replicate, Hc in *; [rewrite zlen_app, zlen_to_le_bytes; zlia|].
  rewrite <- (zlen_to_le_bytes k n), ztake_app_len in E.
  rewrite <- (zlen_to_le_bytes k n), zdrop_app_len in Hc'.
  exists b'. rewrite E. done.
Qed.

(** What a variable-width [put] followed by the matching [get] returns, as a
    function [back] of the value written. *)
Definition var_reads_back (put : Z -> Z -> W -> outcome W) (get : Z -> B -> outcome (Z * B))
    (back : Z -> Z -> Z) : Prop :=
  forall nbytes n w, 0 <= nbytes <= 8 -> mut_ok w -> nbytes <= remaining_mut w ->
    exists bs w', put n nbytes w = Done w' /\ written w' = written w ++ bs /\ zlen bs = nbytes /\
      forall b rest, buf_ok b -> contents b = bs ++ rest ->
        exists b', get nbytes b = Done (back nbytes n, b') /\ buf_ok b' /\ contents b' = rest.

Lemma var_be_reads_back conv back :
  (forall k n, (k <= 8)%nat ->
     conv (replicate (8 - k) 0 ++ to_be_bytes k n) = back (Z.of_nat k) n) ->
  var_reads_back put_uint (buf_get_impl_be 8 conv) back.
Proof.
  intros Hconv nbytes n w Hn Hok Hr. set (k := Z.to_nat nbytes).
  assert (nbytes = Z.of_nat k) as E by lia. rewrite E in *.
  destruct (put_slice_spec (to_be_bytes k n) w Hok) as (w' & Ew & ? & ?);
    [by rewrite zlen_to_be_bytes|].
  exists (to_be_bytes k n), w'. unfold put_uint. rewrite checked_sub_ok by lia.
  cbn [mbind outcome_bind]. rewrite be_tail by lia. cbn [mbind outcome_bind].
  rewrite zlen_to_be_bytes. split_and!; [done..|]. intros b rest Hb Hc.
  rewrite <- Hconv by lia. apply get_be_bytes; [lia|done..].
Qed.

Lemma var_le_reads_back conv back :
  (forall k n, (k <= 8)%nat ->
     conv (to_le_bytes k n ++ replicate (8 - k) 0) = back (Z.of_nat k) n) ->
  var_reads_back put_uint_le (buf_get_impl_le 8 conv) back.
Proof.
  intros Hconv nbytes n w Hn Hok Hr. set (k := Z.to_nat nbytes).
  assert (nbytes = Z.of_nat k) as E by lia. rewrite E in *.
  destruct (put_slice_spec (to_le_bytes k n) w Hok) as (w' & Ew & ? & ?);
    [by rewrite zlen_to_le_bytes|].
  exists (to_le_bytes k n), w'. unfold put_uint_le. rewrite le_head by lia.
  cbn [mbind outcome_bind].
  rewrite zlen_to_le_bytes. split_and!; [done..|]. intros b rest Hb Hc.
  rewrite <- Hconv by lia. apply get_le_bytes; [lia|done..].
Qed.

Lemma zlen_be_padded k n : (k <= 8)%nat -> zlen (replicate (8 - k) 0 ++ to_be_bytes k n) = 8.
Proof. intros. rewrite zlen_app, zlen_replicate, zlen_to_be_bytes. lia. Qed.

Lemma zlen_le_padded k n : (k <= 8)%nat -> zlen (to_le_bytes k n ++ replicate (8 - k) 0) = 8.
Proof. intros. rewrite zlen_app, zlen_replicate, zlen_to_le_bytes. lia. Qed.

(** [put_uint]/[get_uint] and [put_int]/[get_int] (and their [_le]
    forms) for every number of bytes up to 8: the unsigned reader returns the
    value modulo [256^nbytes]; the signed reader returns that same
    zero-extended number read as an [i64], so it is not sign-extended from
    [nbytes]. *)
Theorem var_codecs_read_back :
  var_reads_back put_uint get_uint (fun k n => n mod 256 ^ k) /\
  var_reads_back put_uint_le get_uint_le (fun k n => n mod 256 ^ k) /\
  var_reads_back put_int get_int (fun k n => to_signed 64 (n mod 256 ^ k)) /\
  var_reads_back put_int_le get_int_le (fun k n => to_signed 64 (n mod 256 ^ k)).
Proof.
  split_and!.
  - apply var_be_reads_back. intros k n Hk. unfold u_from_be_bytes, to_be_bytes.
    by rewrite be_extend, reverse_involutive, le_value_le_bytes.
  - apply var_le_reads_back. intros k n Hk. unfold u_from_le_bytes, to_le_bytes.
    by rewrite le_extend, le_value_le_bytes.
  - apply var_be_reads_back. intros k n Hk. unfold i_from_be_bytes.
    rewrite zlen_be_padded by done. unfold to_be_bytes.
    by rewrite be_extend, reverse_involutive, le_value_le_bytes.
  - apply var_le_reads_back. intros k n Hk. unfold i_from_le_bytes.
    rewrite zlen_le_padded by done. unfold to_le_bytes.
    by rewrite le_extend, le_value_le_bytes.
Qed.

(** Consequence for negative numbers: writing a negative [n] in fewer
    than 8 bytes and reading it back with [get_int] never gives [n]; it gives
    [n + 256^nbytes]. *)
Theorem get_int_loses_sign nbytes n w :
  0 < nbytes < 8 -> - 256 ^ nbytes <= n < 0 -> mut_ok w -> nbytes <= remaining_mut w ->
  exists bs w', put_int n nbytes w = Done w' /\ written w' = written w ++ bs /\
    forall (b : B) rest, buf_ok b -> contents b = bs ++ rest ->
      exists b', get_int nbytes b = Done (n + 256 ^ nbytes, b') /\ n + 256 ^ nbytes <> n.
Proof.
  intros Hk Hn Hok Hr.
  assert (var_reads_back put_int get_int (fun k n => to_signed 64 (n mod 256 ^ k))) as Hrb.
  { apply var_be_reads_back. intros k m Hk'. unfold i_from_be_bytes.
    rewrite zlen_be_padded by done. unfold to_be_bytes.
    by rewrite be_extend, reverse_involutive, le_value_le_bytes. }
  destruct (Hrb nbytes n w) as (bs & w' & ? & ? & ? & Hget); [lia|done|done|].
  exists bs, w'. split_and!; [done..|]. intros b rest Hb Hc.
  destruct (Hget b rest Hb Hc) as (b' & E & _). exists b'.
  assert (256 ^ nbytes <= 2 ^ 56).
  { change 256 with (2 ^ 8). rewrite <- Z.pow_mul_r by lia. apply Z.pow_le_mono_r; lia. }
  assert (0 < 256 ^ nbytes) by (apply Z.pow_pos_nonneg; lia).
  assert (n mod 256 ^ nbytes = n + 256 ^ nbytes) as Em.
  { rewrite <- (Z_mod_plus_full n 1), Z.mod_small by lia. lia. }
  rewrite E, Em. unfold to_signed. zbool. split; [done|lia].
Qed.
End roundtrip.

Lemma int_codecs_roundtrip_witness :
  exists w', put_i32 (-2) (mkMutSlice [] [9; 9; 9; 9; 9]) = Done w' /\
    get_i32 (mkCursor (7 :: ms_done w') 1) = Done (-2, mkCursor [7; 255; 255; 255; 254] 5).
Proof.
  destruct (int_codecs_roundtrip (W:=MutSlice) (B:=Cursor))
    as (_ & _ & _ & _ & _ & _ & _ & _ & Hi32 & _).
  destruct (Hi32 (-2) (mkMutSlice [] [9; 9; 9; 9; 9])) as (bs & w' & E & _ & Hw & _ & Hg);
    [lia|done|by vm_compute|].
  assert (w' = mkMutSlice [255; 255; 255; 254] [9]) as -> by (vm_compute in E; congruence).
  cbn in Hw. subst bs. eexists; split; [exact E|].
  destruct (Hg (mkCursor [7; 255; 255; 255; 254] 1) []) as (b' & Eb & _);
    [by vm_compute|done|].
  assert (b' = mkCursor [7; 255; 255; 255; 254] 5) as -> by (vm_compute in Eb; congruence).
  exact Eb.
Defined.

Lemma get_int_loses_sign_witness :
  exists bs w', put_int (-1) 3 (mkMutSlice [] [0; 0; 0; 0]) = Done w' /\
    ms_done w' = [] ++ bs /\ bs = [255; 255; 255] /\
    exists b', get_int 3 bs = Done (16777215, b').
Proof.
  destruct (get_int_loses_sign (W:=MutSlice) (B:=list Z) 3 (-1) (mkMutSlice [] [0; 0; 0; 0]))
    as (bs & w' & E & Hw & Hg); [lia|lia|done|by vm_compute|].
  exists bs, w'. split; [done|]. split; [done|].
  assert (w' = mkMutSlice [255; 255; 255] [0]) as -> by (vm_compute in E; congruence).
  cbn in Hw. split; [done|].
  destruct (Hg bs [] I) as (b' & Eb & _); [by rewrite app_nil_r|]. by exists b'.
Defined.
