(* ===== verification/Storage.v ===== *)
(** * [bytes::stvec] and [bytes::storage]: reference counted buffers

    Models geario/src/bytes/stvec.rs, storage.rs, stext.rs, stext_arc.rs and
    the page sizes of bytes/mod.rs.

    The memory of the program is a store of allocated blocks.  A block is a
    [SharedVec] header followed by its payload; payload bytes that were never
    written are [None].  Handles are the values the source passes around: a
    [StorageVec] is the location of its block, a [Storage] is the three-word
    struct of the source.  Raw pointers are a block with a byte address in it,
    and every access through one is checked: outside the allocation, to a
    freed block or of an uninitialised byte it is [Undefined].

    Arithmetic on the header's [u32] fields has the overflow checks of a
    debug build.  The state threaded through is that of one thread: the
    payload store and the thread-local page cache.  Allocation succeeds. *)
From stdpp Require Import base gmap list numbers.
From Stdlib Require Import ZArith Lia.
From S2P Require Import Prelude.

Abbreviation byte := Z (only parsing).
Abbreviation loc := nat (only parsing).

(** ** Page sizes *)

Inductive BytePageSize :=
| Size4 | Size8 | Size16 | Size24 | Size32 | Size48 | Size64 | Unset.

#[export] Instance BytePageSize_eq_dec : EqDecision BytePageSize.
Proof. solve_decision. Defined.

(** [self as usize]. *)
Definition page_index (s : BytePageSize) : nat :=
  match s with
  | Size4 => 0 | Size8 => 1 | Size16 => 2 | Size24 => 3
  | Size32 => 4 | Size48 => 5 | Size64 => 6 | Unset => 7
  end.

Definition page_capacity (s : BytePageSize) : Z :=
  match s with
  | Size4 => 4 * 1024
  | Size8 => 8 * 1024
  | Size16 => 16 * 1024
  | Size24 => 24 * 1024
  | Size32 => 32 * 1024
  | Size48 => 48 * 1024
  | Size64 | Unset => 64 * 1024
  end.

Definition page_half_capacity (s : BytePageSize) : Z :=
  match s with
  | Size4 => 2 * 1024
  | Size8 => 4 * 1024
  | Size16 => 8 * 1024
  | Size24 => 12 * 1024
  | Size32 | Size48 | Size64 | Unset => 16 * 1024
  end.

(** ** Blocks and the store *)

(** [mem::size_of::<SharedVec>()]: five [u32] and a one-byte enum, padded to
    the alignment of [u32]. *)
Definition METADATA_SIZE : Z := 24.
(** The inline capacity of a 64-bit target. *)
Definition INLINE_CAP : Z := 3 * 8 - 1.
Definition MIN_CAPACITY : Z := 128 - METADATA_SIZE.

Record SharedVec := mkSharedVec {
  sv_offset : Z;
  sv_len : Z;
  sv_capacity : Z;
  sv_remaining : Z;
  sv_ref_count : Z;
  sv_size : BytePageSize;
  sv_mem : list (option byte);   (* the payload, behind the header *)
}.

Record Mem := mkMem {
  blocks : gmap loc SharedVec;
  arcs : gmap loc (Z * list byte);   (* strong count and text of each [Arc<str>] *)
  next_loc : loc;
  cache_size : Z;                    (* [Cache::size] *)
  cache : list (list loc);           (* [Cache::cache], one stack per page size *)
}.

Definition empty_mem : Mem := mkMem ∅ ∅ 0%nat 128 (replicate 7 []).

Definition set_block (l : loc) (sv : SharedVec) (m : Mem) : Mem :=
  mkMem (<[l := sv]> (blocks m)) (arcs m) (next_loc m) (cache_size m) (cache m).
Definition del_block (l : loc) (m : Mem) : Mem :=
  mkMem (delete l (blocks m)) (arcs m) (next_loc m) (cache_size m) (cache m).
Definition set_arcs (a : gmap loc (Z * list byte)) (m : Mem) : Mem :=
  mkMem (blocks m) a (next_loc m) (cache_size m) (cache m).
Definition set_cache (c : list (list loc)) (m : Mem) : Mem :=
  mkMem (blocks m) (arcs m) (next_loc m) (cache_size m) c.

Definition with_len (n : Z) (sv : SharedVec) : SharedVec :=
  mkSharedVec (sv_offset sv) n (sv_capacity sv) (sv_remaining sv) (sv_ref_count sv)
    (sv_size sv) (sv_mem sv).
Definition with_remaining (n : Z) (sv : SharedVec) : SharedVec :=
  mkSharedVec (sv_offset sv) (sv_len sv) (sv_capacity sv) n (sv_ref_count sv)
    (sv_size sv) (sv_mem sv).
Definition with_capacity_f (n : Z) (sv : SharedVec) : SharedVec :=
  mkSharedVec (sv_offset sv) (sv_len sv) n (sv_remaining sv) (sv_ref_count sv)
    (sv_size sv) (sv_mem sv).
Definition with_offset (n : Z) (sv : SharedVec) : SharedVec :=
  mkSharedVec n (sv_len sv) (sv_capacity sv) (sv_remaining sv) (sv_ref_count sv)
    (sv_size sv) (sv_mem sv).
Definition with_ref_count (n : Z) (sv : SharedVec) : SharedVec :=
  mkSharedVec (sv_offset sv) (sv_len sv) (sv_capacity sv) (sv_remaining sv) n
    (sv_size sv) (sv_mem sv).
Definition with_size (s : BytePageSize) (sv : SharedVec) : SharedVec :=
  mkSharedVec (sv_offset sv) (sv_len sv) (sv_capacity sv) (sv_remaining sv) (sv_ref_count sv)
    s (sv_mem sv).
Definition with_mem (b : list (option byte)) (sv : SharedVec) : SharedVec :=
  mkSharedVec (sv_offset sv) (sv_len sv) (sv_capacity sv) (sv_remaining sv) (sv_ref_count sv)
    (sv_size sv) b.

(** *** Raw memory access *)

Definition deref (l : loc) : M Mem SharedVec := fun m =>
  match blocks m !! l with Some sv => Done (sv, m) | None => Fault Undefined end.

Definition store (l : loc) (sv : SharedVec) : M Mem () := fun m => Done (tt, set_block l sv m).

(** Is [[addr, addr + n)] inside the payload? *)
Definition in_payload (sv : SharedVec) (addr n : Z) : bool :=
  (METADATA_SIZE <=? addr) && (0 <=? n) && (addr + n <=? METADATA_SIZE + zlen (sv_mem sv)).

Definition load_bytes (sv : SharedVec) (addr n : Z) : outcome (list byte) :=
  if in_payload sv addr n then
    match mapM id (zslice (addr - METADATA_SIZE) n (sv_mem sv)) with
    | Some bs => Done bs
    | None => Fault Undefined
    end
  else Fault Undefined.

Definition read_bytes (l : loc) (addr n : Z) : M Mem (list byte) :=
  sv ← deref l; liftS (load_bytes sv addr n).

Definition splice (mem : list (option byte)) (pos : Z) (bs : list (option byte)) :=
  ztake pos mem ++ bs ++ zdrop (pos + zlen bs) mem.

Definition write_bytes (l : loc) (addr : Z) (bs : list byte) : M Mem () :=
  sv ← deref l;
  if in_payload sv addr (zlen bs) then
    store l (with_mem (splice (sv_mem sv) (addr - METADATA_SIZE) (Some <$> bs)) sv)
  else failS Undefined.

(** ** [SharedVec] *)

(** [shared_vec_layout(cap).unwrap().size()]: the header and the payload; a
    size beyond [isize::MAX], rounded to the alignment, is an error. *)
Definition shared_vec_layout (cap : Z) : outcome Z :=
  if METADATA_SIZE + cap <=? 2 ^ 63 - 4 then Done (METADATA_SIZE + cap) else Fault Panic.

Definition alloc_with_capacity (size : BytePageSize) (cap len : Z) : M Mem loc :=
  layout ← liftS (shared_vec_layout cap);
  let capacity := as_u32 (layout - METADATA_SIZE) in
  remaining ← liftS (checked_sub capacity len);
  m ← getS;
  let l := next_loc m in
  putS (mkMem (<[l := mkSharedVec METADATA_SIZE len capacity remaining 1 size
                       (replicate (Z.to_nat (layout - METADATA_SIZE)) None)]> (blocks m))
          (arcs m) (S l) (cache_size m) (cache m));;
  mret l.

Definition SharedVec_create (size : BytePageSize) (cap : Z) (src : list byte) : M Mem loc :=
  l ← alloc_with_capacity size cap (as_u32 (zlen src));
  write_bytes l METADATA_SIZE src;;
  mret l.

(** [release_shared_vec]: drop one reference; the last one returns the block
    to the thread's page cache or frees it.  [dealloc] must be given the
    layout the block was allocated with. *)
Definition release_shared_vec (l : loc) : M Mem () :=
  sv ← deref l;
  store l (with_ref_count (as_u32 (sv_ref_count sv - 1)) sv);;
  if negb (sv_ref_count sv =? 1) then mret tt
  else
    cap ← liftS (checked_add u32_modulus (sv_offset sv) (sv_capacity sv));
    m ← getS;
    let cached :=
      if bool_decide (sv_size sv = Unset) then None
      else match cache m !! page_index (sv_size sv) with
           | Some stack => if zlen stack <? cache_size m then Some stack else None
           | None => None
           end in
    match cached with
    | Some stack =>
        capacity ← liftS (checked_sub cap METADATA_SIZE);
        store l (mkSharedVec METADATA_SIZE 0 capacity capacity 1 Unset (sv_mem sv));;
        modifyS (set_cache (<[page_index (sv_size sv) := l :: stack]> (cache m)))
    | None =>
        if cap - METADATA_SIZE =? zlen (sv_mem sv) then modifyS (del_block l)
        else failS Undefined
    end.

(** ** [StorageVec] *)

Definition sv_with_capacity (capacity : Z) : M Mem loc := SharedVec_create Unset capacity [].

(** [StorageVec::sized]: reuse a cached block of that size category. *)
Definition sv_sized (size : BytePageSize) : M Mem loc :=
  m ← getS;
  match cache m !! page_index size with
  | None => failS Panic
  | Some (l :: stack) =>
      putS (set_cache (<[page_index size := stack]> (cache m)) m);;
      sv ← deref l;
      store l (with_size size sv);;
      mret l
  | Some [] => SharedVec_create size (page_capacity size) []
  end.

Definition sv_from_slice (capacity : Z) (src : list byte) : M Mem loc :=
  SharedVec_create Unset capacity src.

Definition sv_unsize (l : loc) : M Mem () := sv ← deref l; store l (with_size Unset sv).
Definition sv_page_size (l : loc) : M Mem BytePageSize := sv ← deref l; mret (sv_size sv).

Definition sv_as_ref (l : loc) : M Mem (list byte) :=
  sv ← deref l; read_bytes l (sv_offset sv) (sv_len sv).

(** A write through the slice of [as_mut]: [self[i] = b]. *)
Definition sv_set_index (l : loc) (i : Z) (b : byte) : M Mem () :=
  sv ← deref l;
  assertS ((0 <=? i) && (i <? sv_len sv));;
  write_bytes l (sv_offset sv + i) [b].

Definition sv_length (l : loc) : M Mem Z := sv ← deref l; mret (sv_len sv).
Definition sv_cap (l : loc) : M Mem Z := sv ← deref l; mret (sv_capacity sv).
Definition sv_remain (l : loc) : M Mem Z := sv ← deref l; mret (sv_remaining sv).
Definition sv_is_full (l : loc) : M Mem bool := sv ← deref l; mret (sv_remaining sv =? 0).
Definition sv_is_unique (l : loc) : M Mem bool := sv ← deref l; mret (sv_ref_count sv =? 1).

Definition sv_put_u8 (l : loc) (n : byte) : M Mem () :=
  len ← sv_length l;
  sv ← deref l;
  len' ← liftS (checked_add u32_modulus (sv_len sv) 1);
  rem' ← liftS (checked_sub (sv_remaining sv) 1);
  store l (with_remaining rem' (with_len len' sv));;
  write_bytes l (sv_offset sv + len) [n].

(** [fetch_add(1)] followed by the abort on a saturated count. *)
Definition add_ref (l : loc) : M Mem () :=
  sv ← deref l;
  store l (with_ref_count (as_u32 (sv_ref_count sv + 1)) sv);;
  assertS (negb (sv_ref_count sv =? u32_max)).

(** The unsafe [StorageVec::clone]. *)
Definition sv_clone (l : loc) : M Mem loc := add_ref l;; mret l.

Definition sv_set_len (l : loc) (len : Z) : M Mem () :=
  sv ← deref l;
  assertS (as_u32 len <=? sv_capacity sv);;
  rem' ← liftS (checked_sub (sv_capacity sv) (as_u32 len));
  store l (with_remaining rem' (with_len (as_u32 len) sv)).

Definition sv_set_start (l : loc) (start : Z) : M Mem () :=
  if negb (start =? 0) then
    sv ← deref l;
    assertS (start <=? sv_capacity sv);;
    off' ← liftS (checked_add u32_modulus (sv_offset sv) start);
    let len' := if start <? sv_len sv then sv_len sv - start else 0 in
    r ← liftS (checked_sub (sv_capacity sv) len');
    rem' ← liftS (checked_sub r start);
    cap' ← liftS (checked_add u32_modulus rem' len');
    store l (with_capacity_f cap' (with_remaining rem' (with_len len' (with_offset off' sv))))
  else mret tt.

Definition sv_truncate (l : loc) (len : Z) : M Mem () :=
  sv ← deref l;
  if (len =? 0) && (sv_ref_count sv =? 1) && negb (sv_offset sv =? METADATA_SIZE) then
    let cap := sv_offset sv + sv_capacity sv in
    let capacity := as_u32 (cap - METADATA_SIZE) in
    store l (with_remaining capacity (with_capacity_f capacity
              (with_offset METADATA_SIZE (with_len 0 sv))))
  else if len <? sv_len sv then sv_set_len l len
  else mret tt.

(** [*self = StorageVec(new)]: the old handle is dropped. *)
Definition sv_replace (old new : loc) : M Mem loc := release_shared_vec old;; mret new.

Definition sv_reserve_capacity (l : loc) (capacity : Z) : M Mem loc :=
  bs ← sv_as_ref l;
  l' ← SharedVec_create Unset capacity bs;
  sv_replace l l'.

Definition sv_reserve_inner (l : loc) (additional : Z) : M Mem loc :=
  sv ← deref l;
  let len := sv_len sv in
  new_cap ← liftS (checked_add u64_modulus len additional);
  let capacity := sv_offset sv + sv_capacity sv in
  if (sv_ref_count sv =? 1) && (new_cap + METADATA_SIZE <=? capacity) then
    let offset := sv_offset sv in
    let remaining := as_u32 (capacity - len - METADATA_SIZE) in
    cap' ← liftS (checked_add u32_modulus len remaining);
    store l (with_capacity_f cap' (with_remaining remaining (with_offset METADATA_SIZE sv)));;
    (if negb (len =? 0) then
       bs ← read_bytes l offset len;
       write_bytes l METADATA_SIZE bs
     else mret tt);;
    mret l
  else
    bs ← sv_as_ref l;
    l' ← SharedVec_create Unset new_cap bs;
    sv_replace l l'.

Definition sv_reserve (l : loc) (additional : Z) : M Mem loc :=
  rem ← sv_remain l;
  if additional <=? rem then mret l else sv_reserve_inner l additional.

Definition sv_resize (l : loc) (new_len : Z) (value : byte) : M Mem loc :=
  len ← sv_length l;
  if len <? new_len then
    let additional := new_len - len in
    l ← sv_reserve l additional;
    sv ← deref l;
    assertS (len <=? sv_capacity sv);;
    write_bytes l (sv_offset sv + len) (replicate (Z.to_nat additional) value);;
    sv_set_len l new_len;;
    mret l
  else sv_truncate l new_len;; mret l.

(** [set_pages_cache]. *)
Definition set_pages_cache (size : Z) : M Mem () :=
  modifyS (fun m => mkMem (blocks m) (arcs m) (next_loc m) size (cache m)).

(** ** [Storage] *)

(** A raw pointer of the source: into a block, into static data, or to the
    text of an [Arc<str>]. *)
Inductive ptr :=
| PNull
| PVec (l : loc) (addr : Z)
| PStatic (data : list byte) (pos : Z)
| PArc (a : loc).

(** The struct [{ offset, ptr, len }].  In inline mode its 24 bytes are one
    tag byte (the low byte of [offset]) followed by 23 data bytes; the data
    bytes are the field [st_inline], and [ptr] and [len] are then unused. *)
Record Storage := mkStorage {
  st_offset : Z;
  st_ptr : ptr;
  st_len : Z;
  st_inline : list byte;
}.

Definition KIND_STEXT : Z := 0.
Definition KIND_VEC : Z := 1.
Definition KIND_INLINE : Z := 2.
Definition KIND_STATIC : Z := 3.
Definition KIND_MASK : Z := 3.
Definition KIND_OFFSET_BITS : Z := 2.
Definition INLINE_LEN_MASK : Z := 252.
Definition PTR_INLINE : Z := KIND_INLINE.
Definition PTR_STATIC : Z := KIND_STATIC.

(** [(offset << KIND_OFFSET_BITS) ^ KIND_VEC]. *)
Definition vec_word (offset : Z) : Z := Z.lxor (Z.shiftl offset KIND_OFFSET_BITS) KIND_VEC.
Definition DEFAULT_OFFSET : Z := vec_word METADATA_SIZE.

(** The address of the static vtable of [Arc<str>]: a nonzero multiple of the
    alignment, so that its two low bits are [KIND_STEXT]. *)
Definition ARC_STR_VTABLE : Z := 4096.

Definition inline_zeros : list byte := replicate 23 0.
Definition storage_empty : Storage := mkStorage PTR_INLINE PNull 0 inline_zeros.

Definition storage_from_static (bs : list byte) : Storage :=
  mkStorage PTR_STATIC (PStatic bs 0) (zlen bs) inline_zeros.

(** [Storage::from_stext] for the [Arc<str>] vtable. *)
Definition storage_from_arc (a : loc) (len : Z) : Storage :=
  mkStorage ARC_STR_VTABLE (PArc a) len inline_zeros.

Definition kind (s : Storage) : Z := Z.land (st_offset s) KIND_MASK.
Definition inline_len (s : Storage) : Z :=
  Z.shiftr (Z.land (st_offset s) INLINE_LEN_MASK) KIND_OFFSET_BITS.

Definition set_inline_len (len : Z) (s : Storage) : outcome Storage :=
  assert_true (len <=? INLINE_CAP);;
  Done (mkStorage (Z.lor (Z.land (st_offset s) (Z.lnot INLINE_LEN_MASK))
                         (Z.shiftl len KIND_OFFSET_BITS))
          (st_ptr s) (st_len s) (st_inline s)).

(** [from_ptr_inline(src, len)], given the bytes at [src]. *)
Definition from_ptr_inline (src : list byte) : outcome Storage :=
  if zlen src <=? INLINE_CAP
  then set_inline_len (zlen src)
         (mkStorage PTR_INLINE PNull 0 (src ++ zdrop (zlen src) inline_zeros))
  else Fault Undefined.

(** [self.shared_vec()]: the block the pointer lies in, recovered by
    subtracting the offset. *)
Definition shared_vec (s : Storage) : outcome loc :=
  match st_ptr s with
  | PVec l addr => if addr =? Z.shiftr (st_offset s) KIND_OFFSET_BITS then Done l else Fault Undefined
  | _ => Fault Undefined
  end.

(** The [len] entry of the vtable: an [Arc<str>] keeps its length in [st_len]. *)
Definition st_ext_len (s : Storage) : Z := st_len s.

Definition storage_len (s : Storage) : Z :=
  if kind s =? KIND_STEXT then st_ext_len s
  else if kind s =? KIND_INLINE then inline_len s
  else st_len s.

(** The [n] bytes at [self.as_ptr() + pos]. *)
Definition read_ptr (s : Storage) (pos n : Z) : M Mem (list byte) :=
  if kind s =? KIND_INLINE then
    if (0 <=? pos) && (0 <=? n) && (pos + n <=? INLINE_CAP)
    then mret (zslice pos n (st_inline s)) else failS Undefined
  else match st_ptr s with
  | PNull => failS Undefined
  | PVec l addr => read_bytes l (addr + pos) n
  | PStatic d p =>
      if (0 <=? p + pos) && (0 <=? n) && (p + pos + n <=? zlen d)
      then mret (zslice (p + pos) n d) else failS Undefined
  | PArc a =>
      m ← getS;
      match arcs m !! a with
      | Some (_, d) =>
          if (0 <=? pos) && (0 <=? n) && (pos + n <=? zlen d)
          then mret (zslice pos n d) else failS Undefined
      | None => failS Undefined
      end
  end.

Definition storage_as_ref (s : Storage) : M Mem (list byte) :=
  if kind s =? KIND_INLINE then read_ptr s 0 (inline_len s)
  else if kind s =? KIND_STEXT then read_ptr s 0 (storage_len s)
  else read_ptr s 0 (st_len s).

Definition storage_capacity (s : Storage) : M Mem Z :=
  if kind s =? KIND_VEC then l ← liftS (shared_vec s); sv_cap l
  else if kind s =? KIND_STEXT then mret (st_ext_len s)
  else if kind s =? KIND_INLINE then mret INLINE_CAP
  else mret (st_len s).

(** [impl Drop for Storage]; the vtable's [drop] releases one strong
    reference of the [Arc]. *)
Definition storage_drop (s : Storage) : M Mem () :=
  if kind s =? KIND_VEC then l ← liftS (shared_vec s); release_shared_vec l
  else if kind s =? KIND_STEXT then
    match st_ptr s with
    | PArc a =>
        m ← getS;
        match arcs m !! a with
        | Some (n, d) =>
            putS (set_arcs (if n =? 1 then delete a (arcs m) else <[a := (n - 1, d)]> (arcs m)) m)
        | None => failS Undefined
        end
    | _ => failS Undefined
    end
  else mret tt.

(** [*self = new]. *)
Definition storage_replace (old new : Storage) : M Mem Storage := storage_drop old;; mret new.

Definition from_slice_with_capacity (cap : Z) (src : list byte) : M Mem Storage :=
  l ← SharedVec_create Unset cap src;
  mret (mkStorage DEFAULT_OFFSET (PVec l METADATA_SIZE) (zlen src) inline_zeros).

Definition storage_from_slice (src : list byte) : M Mem Storage :=
  if zlen src <=? INLINE_CAP then liftS (from_ptr_inline src)
  else from_slice_with_capacity (zlen src) src.

(** [shallow_clone]. *)
Definition shallow_clone (s : Storage) : M Mem Storage :=
  if (kind s =? KIND_INLINE) || (kind s =? KIND_STATIC) then mret s
  else if kind s =? KIND_VEC then
    l ← liftS (shared_vec s);
    add_ref l;;
    mret s
  else
    match st_ptr s with
    | PArc a =>
        m ← getS;
        match arcs m !! a with
        | Some (n, d) =>
            putS (set_arcs (<[a := (n + 1, d)]> (arcs m)) m);;
            mret (mkStorage (st_offset s) (PArc a) (st_len s) (st_inline s))
        | None => failS Undefined
        end
    | _ => failS Undefined
    end.

(** [ptr.add]: the result must stay within the allocation. *)
Definition vec_ptr_add (l : loc) (addr : Z) : M Mem ptr :=
  sv ← deref l;
  if (0 <=? addr) && (addr <=? METADATA_SIZE + zlen (sv_mem sv))
  then mret (PVec l addr) else failS Undefined.

Definition storage_set_start (s : Storage) (start : Z) : M Mem Storage :=
  if start =? 0 then mret s
  else if kind s =? KIND_VEC then
    l ← liftS (shared_vec s);
    offset ← liftS (checked_add u64_modulus (Z.shiftr (st_offset s) KIND_OFFSET_BITS) start);
    p ← vec_ptr_add l offset;
    let len := if start <=? st_len s then st_len s - start else 0 in
    mret (mkStorage (vec_word offset) p len (st_inline s))
  else if kind s =? KIND_INLINE then
    assertS (start <=? INLINE_CAP);;
    let len := inline_len s in
    if len <=? start then liftS (set_inline_len 0 s)
    else
      let new_len := len - start in
      let data := zslice start new_len (st_inline s) ++ zdrop new_len (st_inline s) in
      liftS (set_inline_len new_len (mkStorage (st_offset s) (st_ptr s) (st_len s) data))
  else if kind s =? KIND_STEXT then
    cap ← storage_capacity s;
    assertS (start <=? cap);;
    bs ← storage_as_ref s;
    s' ← storage_from_slice (zdrop start bs);
    storage_replace s s'
  else
    assertS (start <=? st_len s);;
    match st_ptr s with
    | PStatic d pos => mret (mkStorage (st_offset s) (PStatic d (pos + start)) (st_len s - start) (st_inline s))
    | _ => failS Undefined
    end.

Definition storage_set_end (s : Storage) (end_ : Z) : M Mem Storage :=
  if kind s =? KIND_VEC then
    mret (mkStorage (st_offset s) (st_ptr s) (Z.min (st_len s) end_) (st_inline s))
  else if kind s =? KIND_INLINE then
    assertS (end_ <=? INLINE_CAP);;
    let new_len := Z.min (inline_len s) end_ in
    liftS (set_inline_len new_len s)
  else if kind s =? KIND_STEXT then
    let len := Z.min (storage_len s) end_ in
    bs ← storage_as_ref s;
    s' ← storage_from_slice (ztake len bs);
    storage_replace s s'
  else
    assertS (end_ <=? st_len s);;
    mret (mkStorage (st_offset s) (st_ptr s) end_ (st_inline s)).

Definition storage_set_len (s : Storage) (len : Z) : M Mem Storage :=
  if kind s =? KIND_VEC then
    cap ← storage_capacity s;
    assertS (len <=? cap);;
    mret (mkStorage (st_offset s) (st_ptr s) len (st_inline s))
  else if kind s =? KIND_STEXT then
    if negb (len =? storage_len s) then
      cap ← storage_capacity s;
      assertS (len <=? cap);;
      bs ← storage_as_ref s;
      assertS (len <=? zlen bs);;
      s' ← storage_from_slice (ztake len bs);
      storage_replace s s'
    else mret s
  else if kind s =? KIND_INLINE then liftS (set_inline_len len s)
  else
    assertS (len <=? st_len s);;
    mret (mkStorage (st_offset s) (st_ptr s) len (st_inline s)).

Definition storage_get_u8 (s : Storage) : M Mem (byte * Storage) :=
  assertS (1 <=? storage_len s);;
  bs ← read_ptr s 0 1;
  match bs with
  | [ret] => s' ← storage_set_start s 1; mret (ret, s')
  | _ => failS Undefined
  end.

Definition storage_split_off (s : Storage) (at_ : Z) (create_inline : bool)
    : M Mem (Storage * Storage) :=
  fits ←
    (if create_inline then
       n ← liftS (checked_sub (storage_len s) at_); mret (n <=? INLINE_CAP)
     else mret false);
  other ←
    (if (fits : bool) then
       bs ← read_ptr s at_ (storage_len s - at_);
       liftS (from_ptr_inline bs)
     else
       other ← shallow_clone s;
       storage_set_start other at_);
  s' ←
    (if create_inline && (at_ <=? INLINE_CAP) then
       bs ← read_ptr s 0 at_;
       s' ← liftS (from_ptr_inline bs);
       storage_replace s s'
     else storage_set_end s at_);
  mret (other, s').

Definition storage_split_to (s : Storage) (at_ : Z) : M Mem (Storage * Storage) :=
  other ←
    (if at_ <=? INLINE_CAP then
       bs ← read_ptr s 0 at_;
       liftS (from_ptr_inline bs)
     else
       other ← shallow_clone s;
       storage_set_end other at_);
  s' ← storage_set_start s at_;
  mret (other, s').

Definition storage_truncate (s : Storage) (len : Z) : M Mem Storage :=
  if len <=? storage_len s then
    if len <? INLINE_CAP then
      bs ← read_ptr s 0 len;
      s' ← liftS (from_ptr_inline bs);
      storage_replace s s'
    else storage_set_len s len
  else mret s.

Definition storage_trimdown (s : Storage) : M Mem Storage :=
  if negb ((kind s =? KIND_INLINE) || (kind s =? KIND_STATIC)) then
    if storage_len s <=? INLINE_CAP then
      bs ← read_ptr s 0 (storage_len s);
      s' ← liftS (from_ptr_inline bs);
      storage_replace s s'
    else
      cap ← storage_capacity s;
      spare ← liftS (checked_sub cap (storage_len s));
      if 64 <=? spare then
        bs ← storage_as_ref s;
        s' ← from_slice_with_capacity (storage_len s) bs;
        storage_replace s s'
      else mret s
  else mret s.

(** [StorageVec::freeze] consumes the handle: a short buffer is copied inline
    and the block released, a long one keeps its reference. *)
Definition sv_freeze (l : loc) : M Mem Storage :=
  sv ← deref l;
  if sv_len sv <=? INLINE_CAP then
    bs ← read_bytes l (sv_offset sv) (sv_len sv);
    s ← liftS (from_ptr_inline bs);
    release_shared_vec l;;
    mret s
  else mret (mkStorage (vec_word (sv_offset sv)) (PVec l (sv_offset sv)) (sv_len sv) inline_zeros).

Definition sv_split_to (l : loc) (at_ : Z) : M Mem Storage :=
  sv ← deref l;
  other ←
    (if at_ <=? INLINE_CAP then
       bs ← read_bytes l (sv_offset sv) at_;
       liftS (from_ptr_inline bs)
     else
       add_ref l;;
       mret (mkStorage (vec_word (sv_offset sv)) (PVec l (sv_offset sv)) at_ inline_zeros));
  sv_set_start l (as_u32 at_);;
  mret other.

(** [info::Kind] and [Storage::info] (reference count and total capacity of
    the block; zero for the other kinds). *)
Inductive Kind := KInline | KStatic | KVec | KStExt.

Definition kind_from_raw (n : Z) : Kind :=
  if n =? KIND_STEXT then KStExt
  else if n =? KIND_INLINE then KInline
  else if n =? KIND_STATIC then KStatic
  else KVec.

Definition storage_info (s : Storage) : M Mem (Z * Z * Kind) :=
  '(refs, capacity) ←
    (if kind s =? KIND_VEC then
       l ← liftS (shared_vec s);
       sv ← deref l;
       mret (sv_ref_count sv, sv_offset sv + sv_len sv + sv_remaining sv)
     else mret (0, 0));
  mret (refs, capacity, kind_from_raw (kind s)).
