(* ===== verification/StorageInv.v ===== *)
(** * Ownership of the buffers of [bytes]

    The invariant that ties the live handles of the program to the store of
    [Storage.v], and the lemmas that maintain it.  A program state is the
    store together with the list of live handles: [HB s] for a [Bytes] with
    storage [s], [HM l] for a [BytesMut] on block [l].  The page cache owns
    the blocks it holds as further [HM] handles. *)
From Stdlib Require Import ZArith Lia.
From stdpp Require Import base numbers gmap list.
From S2P Require Import Prelude Storage.

(** ** The tag word *)

Lemma land_3 x : Z.land x 3 = x mod 4.
Proof. change 3 with (Z.ones 2). by rewrite Z.land_ones by lia. Qed.

Lemma vec_word_eq o : vec_word o = 4 * o + 1.
Proof.
  unfold vec_word, KIND_OFFSET_BITS, KIND_VEC. rewrite Z.shiftl_mul_pow2 by lia.
  change (2 ^ 2) with 4. rewrite <- Z.add_nocarry_lxor; [lia|].
  change 1 with (Z.ones 1). rewrite Z.land_ones by lia. change (2 ^ 1) with 2.
  replace (o * 4) with (o * 2 * 2) by lia. apply Z_mod_mult.
Qed.

Lemma vec_word_kind o : Z.land (4 * o + 1) KIND_MASK = KIND_VEC.
Proof.
  unfold KIND_MASK. rewrite land_3, Z.add_comm, Z.mul_comm, Z_mod_plus_full. done.
Qed.

Lemma vec_word_offset o : Z.shiftr (4 * o + 1) KIND_OFFSET_BITS = o.
Proof.
  unfold KIND_OFFSET_BITS. rewrite Z.shiftr_div_pow2 by lia. change (2 ^ 2) with 4.
  rewrite Z.mul_comm, Z.div_add_l by lia. change (1 / 4) with 0. lia.
Qed.

(** The tag byte of an inline buffer of length [n]. *)
Definition inline_word (n : Z) : Z := 4 * n + 2.

Lemma inline_word_kind n : Z.land (inline_word n) KIND_MASK = KIND_INLINE.
Proof.
  unfold KIND_MASK, inline_word. rewrite land_3, Z.add_comm, Z.mul_comm, Z_mod_plus_full. done.
Qed.

Definition inline_words_ok : bool :=
  forallb (fun n =>
    (Z.shiftr (Z.land (inline_word n) INLINE_LEN_MASK) KIND_OFFSET_BITS =? n) &&
    (Z.land (inline_word n) (Z.lnot INLINE_LEN_MASK) =? 2) &&
    (Z.lor 2 (Z.shiftl n KIND_OFFSET_BITS) =? inline_word n)) (Z.of_nat <$> seq 0 24).

Lemma inline_word_facts n :
  0 <= n <= INLINE_CAP ->
  Z.shiftr (Z.land (inline_word n) INLINE_LEN_MASK) KIND_OFFSET_BITS = n /\
  Z.land (inline_word n) (Z.lnot INLINE_LEN_MASK) = 2 /\
  Z.lor 2 (Z.shiftl n KIND_OFFSET_BITS) = inline_word n.
Proof.
  intros Hn. assert (inline_words_ok = true) as H by (vm_compute; reflexivity).
  unfold inline_words_ok in H. rewrite forallb_forall in H.
  specialize (H n). rewrite !andb_true_iff, !Z.eqb_eq in H. destruct H as [[? ?] ?]; [|done].
  apply list_elem_of_In, list_elem_of_fmap. exists (Z.to_nat n). unfold INLINE_CAP in *.
  split; [lia|]. apply elem_of_seq. lia.
Qed.

(** ** Representation *)

Inductive handle := HB (s : Storage) | HM (l : loc).

(** The payload of [sv] holds [bs] at address [addr]. *)
Definition vec_holds (sv : SharedVec) (addr : Z) (bs : list byte) : Prop :=
  METADATA_SIZE <= addr /\ addr + zlen bs <= METADATA_SIZE + zlen (sv_mem sv) /\
  zslice (addr - METADATA_SIZE) (zlen bs) (sv_mem sv) = Some <$> bs.

Inductive rep_storage (m : Mem) : Storage -> list byte -> Prop :=
| rep_inline bs pad p n :
    zlen bs <= INLINE_CAP -> zlen (bs ++ pad) = INLINE_CAP ->
    rep_storage m (mkStorage (inline_word (zlen bs)) p n (bs ++ pad)) bs
| rep_static d pos bs inl :
    0 <= pos -> pos + zlen bs <= zlen d -> zslice pos (zlen bs) d = bs ->
    rep_storage m (mkStorage PTR_STATIC (PStatic d pos) (zlen bs) inl) bs
| rep_vec l addr sv bs inl :
    blocks m !! l = Some sv -> vec_holds sv addr bs ->
    rep_storage m (mkStorage (4 * addr + 1) (PVec l addr) (zlen bs) inl) bs
| rep_arc a n d inl :
    arcs m !! a = Some (n, d) ->
    rep_storage m (mkStorage ARC_STR_VTABLE (PArc a) (zlen d) inl) d.

(** [rep_handle m h bs]: the live handle [h] shows the bytes [bs]. *)
Definition rep_handle (m : Mem) (h : handle) (bs : list byte) : Prop :=
  match h with
  | HB s => rep_storage m s bs
  | HM l => exists sv, blocks m !! l = Some sv /\ sv_len sv = zlen bs /\ vec_holds sv (sv_offset sv) bs
  end.

(** The block and the [Arc] a handle keeps alive. *)
Definition vec_of (h : handle) : option loc :=
  match h with
  | HB s => if kind s =? KIND_VEC then match st_ptr s with PVec l _ => Some l | _ => None end else None
  | HM l => Some l
  end.
Definition arc_of (h : handle) : option loc :=
  match h with
  | HB s => if kind s =? KIND_STEXT then match st_ptr s with PArc a => Some a | _ => None end else None
  | HM _ => None
  end.
Definition mut_of (h : handle) : option loc := match h with HB _ => None | HM l => Some l end.
(** The address after the last byte a [Bytes] handle sees. *)
Definition end_of (s : Storage) : Z :=
  match st_ptr s with PVec _ addr => addr + st_len s | _ => 0 end.

Definition refs (l : loc) (hs : list handle) : Z :=
  zlen (filter (fun h => vec_of h = Some l) hs).
Definition arc_refs (a : loc) (hs : list handle) : Z :=
  zlen (filter (fun h => arc_of h = Some a) hs).

(** ** The invariant *)

Definition block_ok (sv : SharedVec) : Prop :=
  METADATA_SIZE <= sv_offset sv /\ 0 <= sv_len sv /\ 0 <= sv_remaining sv /\
  sv_len sv + sv_remaining sv = sv_capacity sv /\
  sv_offset sv + sv_capacity sv = METADATA_SIZE + zlen (sv_mem sv) /\
  METADATA_SIZE + zlen (sv_mem sv) < u32_modulus /\
  (sv_size sv = Unset \/ zlen (sv_mem sv) = page_capacity (sv_size sv)).

(** [wf m hs]: [hs] are all the live handles on [m].
    - a block's reference count is the number of handles on it, and there is
      no block without one;
    - every handle shows initialised bytes inside its block;
    - at most one [BytesMut] is on a block, and every [Bytes] on that block
      lies before the part the [BytesMut] owns. *)
Record wf (m : Mem) (hs : list handle) : Prop := {
  wf_block l sv : blocks m !! l = Some sv ->
    block_ok sv /\ sv_ref_count sv = refs l hs /\ 1 <= sv_ref_count sv < u32_modulus /\
    (l < next_loc m)%nat;
  wf_rep h : h ∈ hs -> exists bs, rep_handle m h bs;
  wf_disj l sv s : blocks m !! l = Some sv -> HM l ∈ hs -> HB s ∈ hs ->
    vec_of (HB s) = Some l -> end_of s <= sv_offset sv;
  wf_uniq : NoDup (omap mut_of hs);
  wf_arc a n d : arcs m !! a = Some (n, d) -> arc_refs a hs <= n /\ (a < next_loc m)%nat;
}.

(** A block as the page cache keeps it: reset, unshared, and of exactly the
    capacity of its page size. *)
Definition cached_ok (m : Mem) (size : BytePageSize) (l : loc) : Prop :=
  exists sv, blocks m !! l = Some sv /\ sv_offset sv = METADATA_SIZE /\ sv_len sv = 0 /\
    sv_ref_count sv = 1 /\ zlen (sv_mem sv) = page_capacity size.

(** The invariant of a program whose live handles are [hs]: the blocks in
    the page cache are owned by it. *)
Record Inv (m : Mem) (hs : list handle) : Prop := {
  inv_wf : wf m (hs ++ (HM <$> concat (cache m)));
  inv_cache_len : length (cache m) = 7%nat;
  inv_cached size stack l :
    cache m !! page_index size = Some stack -> l ∈ stack -> cached_ok m size l;
}.

(** Every handle of [hs] shows in [m'] what it showed in [m]. *)
Definition frame (m m' : Mem) (hs : list handle) : Prop :=
  forall h bs, h ∈ hs -> rep_handle m h bs -> rep_handle m' h bs.

Lemma frame_refl m hs : frame m m hs.
Proof. by intros h bs _ ?. Qed.

Lemma frame_trans m1 m2 m3 hs : frame m1 m2 hs -> frame m2 m3 hs -> frame m1 m3 hs.
Proof. intros H1 H2 h bs Hin Hr. apply H2; [done|]. by apply H1. Qed.

Lemma frame_app m m' hs hs' : frame m m' (hs ++ hs') <-> frame m m' hs /\ frame m m' hs'.
Proof.
  split.
  - intros H. split; intros h bs Hin; apply H; apply elem_of_app; auto.
  - intros [H1 H2] h bs [Hin|Hin]%elem_of_app; auto.
Qed.

Lemma frame_cons m m' h hs :
  frame m m' (h :: hs) <->
  (forall bs, rep_handle m h bs -> rep_handle m' h bs) /\ frame m m' hs.
Proof.
  split.
  - intros H. split; [intros bs; apply H; left|]. intros h' bs Hin. apply H. by right.
  - intros [H1 H2] h' bs [->|Hin]%elem_of_cons; [apply H1|by apply H2].
Qed.

(** ** Counting handles *)

Lemma refs_cons l h hs : refs l (h :: hs) = (if decide (vec_of h = Some l) then 1 else 0) + refs l hs.
Proof. unfold refs. rewrite filter_cons. case_decide; [by rewrite zlen_cons|lia]. Qed.

Lemma refs_app l hs hs' : refs l (hs ++ hs') = refs l hs + refs l hs'.
Proof. unfold refs. by rewrite filter_app, zlen_app. Qed.

Lemma refs_nonneg l hs : 0 <= refs l hs.
Proof. apply zlen_nonneg. Qed.

Lemma refs_le l hs : refs l hs <= zlen hs.
Proof. unfold refs, zlen. pose proof (length_filter (fun h => vec_of h = Some l) hs). lia. Qed.

Lemma refs_pos l h hs : h ∈ hs -> vec_of h = Some l -> 1 <= refs l hs.
Proof.
  intros (hs1 & hs2 & ->)%list_elem_of_split Hv. rewrite refs_app, refs_cons, decide_True by done.
  pose proof (refs_nonneg l hs1). pose proof (refs_nonneg l hs2). lia.
Qed.

Lemma refs_zero l hs : refs l hs = 0 -> forall h, h ∈ hs -> vec_of h <> Some l.
Proof. intros H0 h Hin Hv. pose proof (refs_pos l h hs Hin Hv). lia. Qed.

Lemma arc_refs_cons a h hs :
  arc_refs a (h :: hs) = (if decide (arc_of h = Some a) then 1 else 0) + arc_refs a hs.
Proof. unfold arc_refs. rewrite filter_cons. case_decide; [by rewrite zlen_cons|lia]. Qed.

Lemma arc_refs_app a hs hs' : arc_refs a (hs ++ hs') = arc_refs a hs + arc_refs a hs'.
Proof. unfold arc_refs. by rewrite filter_app, zlen_app. Qed.

Lemma arc_refs_nonneg a hs : 0 <= arc_refs a hs.
Proof. apply zlen_nonneg. Qed.

Lemma vec_of_arc_of h l : vec_of h = Some l -> arc_of h = None.
Proof.
  destruct h as [s|]; [|done]. cbn. destruct (Z.eqb_spec (kind s) KIND_VEC) as [->|]; done.
Qed.

#[global] Instance wf_perm m : Proper ((≡ₚ) ==> impl) (wf m).
Proof.
  intros hs hs' Hp [Hb Hr Hd Hu Ha].
  assert (forall h, h ∈ hs' -> h ∈ hs) as Hin by (intros h; by rewrite Hp).
  split.
  - intros l sv Hl. destruct (Hb l sv Hl) as (?&Hc&?&?).
    split; [done|]. split; [|done]. rewrite Hc. unfold refs, zlen. by rewrite Hp.
  - eauto.
  - eauto.
  - by rewrite <- Hp.
  - intros a n d Hl. specialize (Ha a n d Hl). unfold arc_refs, zlen in *. by rewrite <- Hp.
Qed.

#[global] Instance Inv_perm m : Proper ((≡ₚ) ==> impl) (Inv m).
Proof. intros hs hs' Hp [Hw ? ?]. split; [|done..]. by rewrite <- Hp. Qed.

Lemma frame_sub m m' hs hs' : (forall h, h ∈ hs' -> h ∈ hs) -> frame m m' hs -> frame m m' hs'.
Proof. intros Hs H h bs Hin. apply H, Hs, Hin. Qed.

(** ** Changing one block

    Every operation touches one block: it replaces the handles [hl] on it by
    [hl'], and must keep what the other handles on it see. *)

Lemma rep_other m m' h bs :
  arcs m' = arcs m -> rep_handle m h bs ->
  (forall l, vec_of h = Some l -> blocks m' !! l = blocks m !! l) -> rep_handle m' h bs.
Proof.
  intros Ha Hr Hb. destruct h as [s|l]; cbn in Hr |- *.
  - destruct Hr as [| |l addr sv bs inl Hl Hh|a n d inl Hl]; [by constructor..| |].
    + apply (rep_vec _ _ _ sv); [|done]. rewrite Hb; [done|]. cbn. unfold kind. cbn.
      by rewrite vec_word_kind.
    + apply (rep_arc _ _ n). by rewrite Ha.
  - destruct Hr as (sv & Hl & ?). exists sv. by rewrite Hb.
Qed.

Lemma wf_local m m' l hl hl' ho :
  wf m (hl ++ ho) ->
  Forall (fun h => vec_of h = Some l) hl -> Forall (fun h => vec_of h = Some l) hl' ->
  (forall k, k <> l -> blocks m' !! k = blocks m !! k) ->
  arcs m' = arcs m -> (next_loc m <= next_loc m')%nat ->
  (forall sv', blocks m' !! l = Some sv' -> block_ok sv' /\
     sv_ref_count sv' = zlen hl' + refs l ho /\ 1 <= sv_ref_count sv' < u32_modulus /\
     (l < next_loc m')%nat) ->
  (forall h bs, h ∈ ho -> vec_of h = Some l -> rep_handle m h bs -> rep_handle m' h bs) ->
  (forall h, h ∈ hl' -> exists bs, rep_handle m' h bs) ->
  (forall sv' s, blocks m' !! l = Some sv' -> HM l ∈ hl' ++ ho -> HB s ∈ hl' ++ ho ->
     vec_of (HB s) = Some l -> end_of s <= sv_offset sv') ->
  NoDup (omap mut_of (hl' ++ ho)) ->
  wf m' (hl' ++ ho) /\ frame m m' ho.
Proof.
  intros Hwf Hl Hl' Hb Ha Hn Hblk Hkeep Hrep Hdisj Huniq.
  assert (forall k hx, k <> l -> Forall (fun h => vec_of h = Some l) hx -> refs k hx = 0) as Hz.
  { intros k hx Hk Hx. induction Hx as [|h hx Hv _ IH]; [done|].
    rewrite refs_cons, IH, Hv, decide_False by congruence. done. }
  assert (forall a hx, Forall (fun h => vec_of h = Some l) hx -> arc_refs a hx = 0) as Hza.
  { intros a hx Hx. induction Hx as [|h hx Hv _ IH]; [done|].
    rewrite arc_refs_cons, IH, (vec_of_arc_of h l Hv), decide_False by congruence. done. }
  assert (forall hx, Forall (fun h => vec_of h = Some l) hx -> refs l hx = zlen hx) as Hfull.
  { intros hx Hx. induction Hx as [|h hx Hv _ IH]; [done|].
    by rewrite refs_cons, IH, decide_True, zlen_cons by done. }
  assert (frame m m' ho) as Hf.
  { intros h bs Hin Hr. destruct (decide (vec_of h = Some l)); [by apply Hkeep|].
    apply (rep_other m); [done..|]. intros k Hk. apply Hb. congruence. }
  split; [|done]. split; [| | |done|].
  - intros k sv Hk. destruct (decide (k = l)) as [->|Hne].
    + rewrite refs_app, Hfull by done. by apply Hblk.
    + rewrite Hb in Hk by done. destruct (wf_block _ _ Hwf k sv Hk) as (?&Hc&?&?).
      rewrite refs_app, Hz in Hc by done. rewrite refs_app, Hz by done.
      split; [done|]. split; [lia|]. split; [done|lia].
  - intros h [Hin|Hin]%elem_of_app; [by apply Hrep|].
    destruct (wf_rep _ _ Hwf h) as [bs Hr]; [apply elem_of_app; by right|]. exists bs. by apply Hf.
  - intros k sv s Hk Hm Hs Hv. destruct (decide (k = l)) as [->|Hne]; [by eapply Hdisj|].
    rewrite Hb in Hk by done.
    apply (wf_disj _ _ Hwf k sv s Hk); [| |done]; apply elem_of_app; right.
    + apply elem_of_app in Hm as [Hm|]; [|done]. rewrite Forall_forall in Hl'.
      specialize (Hl' _ Hm). cbn in Hl'. congruence.
    + apply elem_of_app in Hs as [Hs|]; [|done]. rewrite Forall_forall in Hl'.
      specialize (Hl' _ Hs). cbn in Hl', Hv. congruence.
  - intros a n d. rewrite Ha. intros Hk. pose proof (wf_arc _ _ Hwf a n d Hk) as Hc.
    rewrite arc_refs_app, Hza in Hc |- * by done. split; [apply Hc|lia].
Qed.

Lemma page_index_surj i : (i < 7)%nat -> exists size, i = page_index size.
Proof.
  intros Hi.
  assert (i ∈ (page_index <$> [Size4; Size8; Size16; Size24; Size32; Size48; Size64])) as Hin.
  { change (i ∈ seq 0 7). apply elem_of_seq. lia. }
  apply list_elem_of_fmap in Hin as (size & -> & _). by exists size.
Qed.

Lemma elem_of_concat (l : loc) (c : list (list loc)) :
  l ∈ concat c <-> exists i stack, c !! i = Some stack /\ l ∈ stack.
Proof.
  rewrite list_elem_of_In, in_concat. split.
  - intros (stack & Hst%list_elem_of_In & Hin%list_elem_of_In).
    apply list_elem_of_lookup in Hst as [i Hi]. eauto.
  - intros (i & stack & Hi & Hin). exists stack.
    split; apply list_elem_of_In; [|done]. by eapply list_elem_of_lookup_2.
Qed.

(** The block of a live handle is not in the page cache. *)
Lemma not_cached m h hs l :
  Inv m (h :: hs) -> vec_of h = Some l -> l ∉ concat (cache m).
Proof.
  intros HI Hv Hc. pose proof (inv_wf _ _ HI) as Hwf.
  pose proof Hc as (i & stack & Hi & Hin)%elem_of_concat.
  destruct (page_index_surj i) as [size ->].
  { rewrite <- (inv_cache_len _ _ HI). by eapply lookup_lt_Some. }
  destruct (inv_cached _ _ HI size stack l Hi Hin) as (sv & Hb & _ & _ & Hrc & _).
  destruct (wf_block _ _ Hwf l sv Hb) as (_ & Hr & _).
  cbn [app] in Hr. rewrite refs_cons, decide_True in Hr by done.
  assert (1 <= refs l (hs ++ (HM <$> concat (cache m)))); [|lia].
  apply (refs_pos _ (HM l)); [|done]. apply elem_of_app. right. apply list_elem_of_fmap.
  by exists l.
Qed.

Lemma Inv_local m m' l hl hl' ho :
  Inv m (hl ++ ho) -> l ∉ concat (cache m) -> cache m' = cache m ->
  Forall (fun h => vec_of h = Some l) hl -> Forall (fun h => vec_of h = Some l) hl' ->
  (forall k, k <> l -> blocks m' !! k = blocks m !! k) ->
  arcs m' = arcs m -> (next_loc m <= next_loc m')%nat ->
  (forall sv', blocks m' !! l = Some sv' -> block_ok sv' /\
     sv_ref_count sv' = zlen hl' + refs l ho /\ 1 <= sv_ref_count sv' < u32_modulus /\
     (l < next_loc m')%nat) ->
  (forall h bs, h ∈ ho -> vec_of h = Some l -> rep_handle m h bs -> rep_handle m' h bs) ->
  (forall h, h ∈ hl' -> exists bs, rep_handle m' h bs) ->
  (forall sv' s, blocks m' !! l = Some sv' -> HM l ∈ hl' ++ ho -> HB s ∈ hl' ++ ho ->
     vec_of (HB s) = Some l -> end_of s <= sv_offset sv') ->
  NoDup (omap mut_of hl' ++ omap mut_of ho) ->
  Inv m' (hl' ++ ho) /\ frame m m' ho.
Proof.
  intros [Hwf Hlen Hc] Hnc Hca Hl Hl' Hb Ha Hn Hblk Hkeep Hrep Hdisj Huniq.
  set (hc := HM <$> concat (cache m)) in *.
  assert (forall h, h ∈ hc -> vec_of h <> Some l) as Hnv.
  { intros h (k & -> & Hk)%list_elem_of_fmap. cbn. congruence. }
  assert (refs l hc = 0) as Hz.
  { destruct (Z.eq_dec (refs l hc) 0) as [|Hne]; [done|]. unfold refs in Hne.
    destruct (filter _ hc) as [|h hx] eqn:Hfil; [done|].
    assert (h ∈ filter (fun h => vec_of h = Some l) hc) as [Hv Hin]%list_elem_of_filter
      by (rewrite Hfil; left). by apply Hnv in Hin. }
  rewrite <- app_assoc in Hwf.
  assert (forall h, h ∈ hl' ++ ho ++ hc -> vec_of h = Some l -> h ∈ hl' ++ ho) as Hin.
  { intros h Hin Hv. rewrite app_assoc in Hin. apply elem_of_app in Hin as [|Hin]; [done|].
    by apply Hnv in Hin. }
  destruct (wf_local m m' l hl hl' (ho ++ hc)) as [Hwf' Hf]; try done.
  - intros sv' Hs. rewrite refs_app, Hz, Z.add_0_r. by apply Hblk.
  - intros h bs [Hh|Hh]%elem_of_app Hv; [by apply Hkeep|]. by apply Hnv in Hh.
  - intros sv' s Hs Hm Hh Hv. eapply Hdisj; [done| |by apply Hin|done]. by apply Hin.
  - pose proof (wf_uniq _ _ Hwf) as Hu. rewrite !omap_app in Hu. rewrite !omap_app, app_assoc.
    apply NoDup_app in Hu as (_ & _ & Hu). apply NoDup_app in Hu as (_ & Hdj & Hu).
    apply NoDup_app. split; [done|]. split; [|done].
    intros k [Hk|Hk]%elem_of_app Hkc; [|by apply (Hdj k)].
    apply list_elem_of_omap in Hk as (h & Hh & Hmk). apply list_elem_of_omap in Hkc as (h' & Hh' & Hmk').
    destruct h as [|k1], h' as [|k2]; simplify_eq/=. rewrite Forall_forall in Hl'.
    specialize (Hl' _ Hh). cbn in Hl'. simplify_eq. by apply Hnv in Hh'.
  - split; [split|].
    + rewrite <- app_assoc, Hca. done.
    + by rewrite Hca.
    + intros size stack k. rewrite Hca. intros Hi Hk. destruct (Hc size stack k Hi Hk) as (sv & Hsv & ?).
      exists sv. rewrite Hb; [done|]. intros ->. apply Hnc, elem_of_concat. eauto.
    + by apply frame_app in Hf as [? _].
Qed.

(** ** Running code *)

Lemma runs_deref l sv m (Q : SharedVec -> Mem -> Prop) :
  blocks m !! l = Some sv -> Q sv m -> runs (deref l) m Q.
Proof. intros Hl ?. exists sv, m. split; [|done]. unfold deref. by rewrite Hl. Qed.

Lemma runs_store l sv m (Q : () -> Mem -> Prop) :
  Q tt (set_block l sv m) -> runs (store l sv) m Q.
Proof. intros. by exists tt, (set_block l sv m). Qed.

(** ** Reading *)

Lemma vec_holds_sub sv addr bs pos n :
  vec_holds sv addr bs -> 0 <= pos -> 0 <= n -> pos + n <= zlen bs ->
  vec_holds sv (addr + pos) (zslice pos n bs).
Proof.
  intros (H1 & H2 & H3) Hp Hn Hs. unfold vec_holds. rewrite zlen_zslice by lia.
  split; [lia|]. split; [lia|].
  replace (addr + pos - METADATA_SIZE) with ((addr - METADATA_SIZE) + pos) by lia.
  rewrite <- (zslice_zslice _ (zlen bs)) by lia. rewrite H3.
  unfold zslice, ztake, zdrop. by rewrite <- fmap_drop, <- fmap_take.
Qed.

Lemma load_bytes_holds sv addr bs :
  vec_holds sv addr bs -> load_bytes sv addr (zlen bs) = Done bs.
Proof.
  intros (H1 & H2 & H3). unfold load_bytes, in_payload. rewrite H3, mapM_id_Some. by zbool.
Qed.

Lemma read_bytes_holds m l sv addr bs :
  blocks m !! l = Some sv -> vec_holds sv addr bs ->
  read_bytes l addr (zlen bs) m = Done (bs, m).
Proof.
  intros Hl Hh. unfold read_bytes, deref, mbind, M_bind. rewrite Hl.
  unfold liftS. by rewrite load_bytes_holds.
Qed.

Lemma rep_storage_len m s bs : rep_storage m s bs -> storage_len s = zlen bs.
Proof.
  intros [bs' pad p n Hc Hp| | |]; unfold storage_len, st_ext_len, kind; cbn [st_offset st_len].
  - rewrite inline_word_kind. cbn. unfold inline_len. cbn [st_offset].
    destruct (inline_word_facts (zlen bs')) as (-> & _); [zlia|done].
  - done.
  - rewrite vec_word_kind. done.
  - done.
Qed.

Lemma read_ptr_rep m s bs pos n :
  rep_storage m s bs -> 0 <= pos -> 0 <= n -> pos + n <= zlen bs ->
  read_ptr s pos n m = Done (zslice pos n bs, m).
Proof.
  intros [bs' pad p k Hc Hp|d q bs' inl H1 H2 H3|l addr sv bs' inl Hl Hh|a k d inl Ha] Hpos Hn Hs;
    unfold read_ptr, kind; cbn [st_offset st_ptr st_inline].
  - rewrite inline_word_kind. cbn [Z.eqb]. change (KIND_INLINE =? KIND_INLINE) with true. cbn iota.
    zbool. cbn. unfold mret, M_ret. do 2 f_equal. unfold zslice.
    rewrite zdrop_app_le, ztake_app_le by zlia. done.
  - change (Z.land PTR_STATIC KIND_MASK =? KIND_INLINE) with false. cbn iota.
    zbool. cbn. unfold mret, M_ret. do 2 f_equal. rewrite <- H3 at 1.
    rewrite zslice_zslice by lia. done.
  - rewrite vec_word_kind. change (KIND_VEC =? KIND_INLINE) with false. cbn iota.
    pose proof (vec_holds_sub _ _ _ pos n Hh Hpos Hn Hs) as Hh'.
    pose proof (read_bytes_holds m l sv _ _ Hl Hh') as Hr. rewrite zlen_zslice in Hr by lia. done.
  - change (Z.land ARC_STR_VTABLE KIND_MASK =? KIND_INLINE) with false. cbn iota.
    unfold mbind, M_bind, getS. rewrite Ha. by zbool.
Qed.

Lemma storage_as_ref_rep m s bs : rep_storage m s bs -> storage_as_ref s m = Done (bs, m).
Proof.
  intros Hr. pose proof (rep_storage_len _ _ _ Hr) as Hl.
  assert (read_ptr s 0 (zlen bs) m = Done (bs, m)) as Hread.
  { rewrite (read_ptr_rep m s bs) by (zlia || done). by rewrite zslice_full. }
  unfold storage_as_ref. unfold storage_len, st_ext_len in Hl.
  destruct (Z.eqb_spec (kind s) KIND_STEXT) as [Hk|].
  - rewrite Hk. change (KIND_STEXT =? KIND_INLINE) with false. cbn iota.
    unfold storage_len, st_ext_len. rewrite Hk. change (KIND_STEXT =? KIND_STEXT) with true.
    cbn iota. by rewrite Hl.
  - destruct (kind s =? KIND_INLINE); by rewrite Hl.
Qed.

(** A handle shows one byte string. *)
Lemma rep_storage_det m s bs bs' : rep_storage m s bs -> rep_storage m s bs' -> bs = bs'.
Proof.
  intros H1%storage_as_ref_rep H2%storage_as_ref_rep. congruence.
Qed.

Lemma vec_holds_det sv addr bs bs' :
  vec_holds sv addr bs -> vec_holds sv addr bs' -> zlen bs = zlen bs' -> bs = bs'.
Proof.
  intros H1%load_bytes_holds H2%load_bytes_holds He. rewrite He in H1. congruence.
Qed.

Lemma rep_handle_det m h bs bs' : rep_handle m h bs -> rep_handle m h bs' -> bs = bs'.
Proof.
  destruct h as [s|l]; [apply rep_storage_det|].
  intros (sv & Hl & Hn & Hh) (sv' & Hl' & Hn' & Hh'). simplify_eq.
  eapply vec_holds_det; [done..|congruence].
Qed.
