(* ===== verification/StorageOps.v ===== *)
(** * What the operations of [stvec] and [storage] do

    For every operation of [Storage.v] on a live handle: it returns (under
    the stated condition), keeps the invariant of [StorageInv.v] with the
    handles it consumed and produced, shows the bytes it should, and leaves
    what every other handle shows unchanged. *)
From Stdlib Require Import ZArith Lia.
From stdpp Require Import base numbers gmap list.
From S2P Require Import Prelude Storage StorageInv.

(** ** Handles on a block *)

Lemma rep_vec_inv m s bs l :
  rep_storage m s bs -> vec_of (HB s) = Some l ->
  exists addr sv inl, s = mkStorage (4 * addr + 1) (PVec l addr) (zlen bs) inl /\
    blocks m !! l = Some sv /\ vec_holds sv addr bs.
Proof.
  intros [bs' pad p n Hc Hp|d q bs' inl H1 H2 H3|k addr sv bs' inl Hl Hh|a k d inl Ha] Hv;
    cbn in Hv; unfold kind in Hv; cbn [st_offset st_ptr] in Hv.
  - rewrite inline_word_kind in Hv. done.
  - done.
  - rewrite vec_word_kind in Hv. cbn in Hv. simplify_eq. by exists addr, sv, inl.
  - done.
Qed.

Lemma vec_holds_agree sv sv' addr bs o :
  vec_holds sv addr bs -> addr + zlen bs <= o -> zlen (sv_mem sv') = zlen (sv_mem sv) ->
  ztake (o - METADATA_SIZE) (sv_mem sv') = ztake (o - METADATA_SIZE) (sv_mem sv) ->
  vec_holds sv' addr bs.
Proof.
  intros (H1 & H2 & H3) Ho Hlen Hm. split; [done|]. split; [lia|].
  rewrite <- H3. apply (zslice_agree _ _ (o - METADATA_SIZE)); [zlia..|done].
Qed.

(** A [Bytes] on block [l] keeps its content when the block's payload below
    its end is kept. *)
Lemma rep_keep m m' l sv sv' s bs o :
  blocks m !! l = Some sv -> blocks m' !! l = Some sv' ->
  rep_storage m s bs -> vec_of (HB s) = Some l -> end_of s <= o ->
  zlen (sv_mem sv') = zlen (sv_mem sv) ->
  ztake (o - METADATA_SIZE) (sv_mem sv') = ztake (o - METADATA_SIZE) (sv_mem sv) ->
  rep_storage m' s bs.
Proof.
  intros Hl Hl' Hr Hv He Hlen Hm.
  destruct (rep_vec_inv _ _ _ _ Hr Hv) as (addr & sv0 & inl & -> & Hl0 & Hh). simplify_eq.
  apply (rep_vec _ _ _ sv'); [done|]. by eapply vec_holds_agree.
Qed.

(** Header-only changes that keep the payload, and for the [BytesMut] on the
    block its window, keep what every handle shows. *)
Lemma rep_header m m' l sv sv' h bs :
  blocks m !! l = Some sv -> blocks m' !! l = Some sv' -> vec_of h = Some l ->
  sv_mem sv' = sv_mem sv -> sv_offset sv' = sv_offset sv -> sv_len sv' = sv_len sv ->
  rep_handle m h bs -> rep_handle m' h bs.
Proof.
  intros Hl Hl' Hv Hm Ho Hn. destruct h as [s|k]; cbn in Hv.
  - intros Hr. eapply (rep_keep m); [done..|reflexivity| |]; by rewrite Hm.
  - intros (sv0 & Hl0 & Hlen & Hh). simplify_eq. exists sv'. split; [done|].
    rewrite Ho, Hn. split; [done|]. unfold vec_holds in *. by rewrite Hm.
Qed.

(** ** Facts read off the invariant *)

Lemma refs_mut_notin l (ks : list loc) : l ∉ ks -> refs l (HM <$> ks) = 0.
Proof.
  induction ks as [|k ks IH]; [done|]. intros [Hk Hks]%not_elem_of_cons.
  rewrite fmap_cons, refs_cons, decide_False, IH by (cbn; congruence). done.
Qed.

Section facts.
Context (m : Mem) (h : handle) (hs : list handle) (l : loc) (sv : SharedVec).
Hypothesis HI : Inv m (h :: hs).
Hypothesis Hv : vec_of h = Some l.
Hypothesis Hl : blocks m !! l = Some sv.

Lemma inv_refs : refs l (HM <$> concat (cache m)) = 0 /\ sv_ref_count sv = 1 + refs l hs.
Proof.
  pose proof (not_cached _ _ _ _ HI Hv) as Hnc.
  destruct (wf_block _ _ (inv_wf _ _ HI) l sv Hl) as (_ & Hc & _).
  cbn [app] in Hc. rewrite refs_cons, decide_True, refs_app in Hc by done.
  assert (refs l (HM <$> concat (cache m)) = 0) as Hz; [|lia].
  by apply refs_mut_notin.
Qed.

Lemma inv_block : block_ok sv /\ 1 <= sv_ref_count sv < u32_modulus /\ (l < next_loc m)%nat.
Proof. destruct (wf_block _ _ (inv_wf _ _ HI) l sv Hl) as (?&?&?&?). done. Qed.

Lemma inv_uniq : NoDup (omap mut_of (h :: hs)).
Proof.
  pose proof (wf_uniq _ _ (inv_wf _ _ HI)) as Hu. rewrite omap_app in Hu.
  by apply NoDup_app in Hu as [? _].
Qed.

(** An unshared block has no other handle. *)
Lemma inv_unshared h' : sv_ref_count sv = 1 -> h' ∈ hs -> vec_of h' <> Some l.
Proof. destruct inv_refs as [_ Hr]. intros H1. apply refs_zero. lia. Qed.

Lemma inv_disj s : HM l ∈ h :: hs -> HB s ∈ h :: hs -> vec_of (HB s) = Some l ->
  end_of s <= sv_offset sv.
Proof.
  intros Hm Hs. apply (wf_disj _ _ (inv_wf _ _ HI) l sv s Hl); apply elem_of_app; by left.
Qed.
End facts.

Lemma inv_rep m h hs : Inv m hs -> h ∈ hs -> exists bs, rep_handle m h bs.
Proof. intros HI Hin. apply (wf_rep _ _ (inv_wf _ _ HI)). apply elem_of_app. by left. Qed.

Lemma mut_notin l hs : NoDup (omap mut_of (HM l :: hs)) -> HM l ∉ hs.
Proof.
  intros [Hu _]%NoDup_cons Hin. apply Hu, list_elem_of_omap. by exists (HM l).
Qed.

Lemma inv_mut_uniq m l hs : Inv m (HM l :: hs) -> HM l ∉ hs.
Proof. intros HI. apply mut_notin, (inv_uniq _ _ _ HI). Qed.

(** ** Changes of one block *)

Lemma lookup_set_block l sv m : blocks (set_block l sv m) !! l = Some sv.
Proof. cbn. apply lookup_insert_eq. Qed.

Lemma lookup_set_block_ne l k sv m : k <> l -> blocks (set_block l sv m) !! k = blocks m !! k.
Proof. intros. cbn. by apply lookup_insert_ne. Qed.

(** The [BytesMut] on block [l] rewrites its header and its window. *)
Lemma Inv_mut m l sv sv' hs bs :
  Inv m (HM l :: hs) -> blocks m !! l = Some sv -> block_ok sv' ->
  sv_ref_count sv' = sv_ref_count sv -> zlen (sv_mem sv') = zlen (sv_mem sv) ->
  sv_ref_count sv = 1 \/
    (sv_offset sv <= sv_offset sv' /\
     ztake (sv_offset sv - METADATA_SIZE) (sv_mem sv') = ztake (sv_offset sv - METADATA_SIZE) (sv_mem sv)) ->
  sv_len sv' = zlen bs -> vec_holds sv' (sv_offset sv') bs ->
  Inv (set_block l sv' m) (HM l :: hs) /\ frame m (set_block l sv' m) hs /\
  rep_handle (set_block l sv' m) (HM l) bs.
Proof.
  intros HI Hl Hok Hrc Hlen Hsh Hn Hh.
  pose proof (inv_block _ _ _ _ _ HI Hl) as (_ & Hr & Hlt).
  pose proof (inv_refs _ _ _ _ _ HI eq_refl Hl) as [_ Hrefs].
  pose proof (inv_unshared _ _ _ _ _ HI eq_refl Hl) as Huns.
  assert (rep_handle (set_block l sv' m) (HM l) bs) as Hrep
    by (exists sv'; by rewrite lookup_set_block).
  assert (forall s, HB s ∈ hs -> vec_of (HB s) = Some l -> end_of s <= sv_offset sv) as Hd
    by (intros s Hs; apply (inv_disj _ _ _ _ _ HI Hl); [left|by right]).
  destruct (Inv_local m (set_block l sv' m) l [HM l] [HM l] hs) as [HI' Hf]; try done.
  - by eapply not_cached.
  - by repeat constructor.
  - by repeat constructor.
  - intros k Hk. by apply lookup_set_block_ne.
  - intros sv0. rewrite lookup_set_block. intros [= <-]. rewrite Hrc. done.
  - intros [s|k] bs0 Hin Hv Hr0; cbn in Hv.
    + destruct Hsh as [H1|[Ho Hm]]; [by destruct (Huns (HB s) H1)|].
      eapply (rep_keep m _ l sv sv'); [done|apply lookup_set_block|done|done|by apply Hd|done|done].
    + simplify_eq. by apply (inv_mut_uniq _ _ _ HI) in Hin.
  - intros h' ->%list_elem_of_singleton. eauto.
  - intros sv0 s. rewrite lookup_set_block. intros [= <-] _ Hs Hv.
    apply elem_of_app in Hs as [Hs%list_elem_of_singleton|Hs]; [done|].
    destruct Hsh as [H1|[Ho _]]; [by destruct (Huns (HB s) H1)|]. specialize (Hd s Hs Hv). lia.
  - rewrite <- omap_app. apply (inv_uniq _ _ _ HI).
Qed.

(** Side conditions of [Inv_local] that every change of a block meets. *)
Ltac local_side :=
  try done; try (by repeat constructor); try (by eapply not_cached);
  try (by intros; apply lookup_set_block_ne).

(** A further [Bytes] on the block of [h], as [shallow_clone] makes. *)
Lemma Inv_share m h hs l sv s bs :
  Inv m (h :: hs) -> vec_of h = Some l -> blocks m !! l = Some sv ->
  sv_ref_count sv < u32_max ->
  rep_storage m s bs -> vec_of (HB s) = Some l ->
  (HM l ∈ h :: hs -> end_of s <= sv_offset sv) ->
  let m' := set_block l (with_ref_count (sv_ref_count sv + 1) sv) m in
  Inv m' (HB s :: h :: hs) /\ frame m m' (h :: hs) /\ rep_storage m' s bs.
Proof.
  intros HI Hv Hl Hmax Hr Hvs He m'. unfold u32_max in Hmax.
  pose proof (inv_block _ _ _ _ _ HI Hl) as (Hok & Hrc & Hlt).
  pose proof (inv_refs _ _ _ _ _ HI Hv Hl) as [_ Hrefs].
  assert (forall h' bs', vec_of h' = Some l -> rep_handle m h' bs' -> rep_handle m' h' bs') as Hk.
  { intros h' bs' Hv'. eapply (rep_header m _ l sv); [done|apply lookup_set_block|done..]. }
  destruct (Inv_local m m' l [] [HB s] (h :: hs)) as [HI' Hf]; local_side.
  - intros sv0. unfold m'. rewrite lookup_set_block. intros [= <-]. cbn.
    rewrite refs_cons, decide_True by done. split; [done|]. split; [change (zlen [HB s]) with 1; lia|]. lia.
  - intros h' bs' _. apply Hk.
  - intros h' ->%list_elem_of_singleton. exists bs. by apply (Hk (HB s)).
  - intros sv0 s'. unfold m'. rewrite lookup_set_block. intros [= <-] Hm Hs Hv'. cbn in Hm.
    apply elem_of_cons in Hm as [|Hm]; [done|].
    apply elem_of_cons in Hs as [[= ->]|Hs]; [by apply He|]. by apply (inv_disj m h hs l sv).
  - apply (inv_uniq _ _ _ HI).
  - split; [done|]. split; [done|]. by apply (Hk (HB s)).
Qed.

(** A handle that is not the last one on its block goes away. *)
Lemma Inv_unshare m h hs l sv :
  Inv m (h :: hs) -> vec_of h = Some l -> blocks m !! l = Some sv -> sv_ref_count sv <> 1 ->
  let m' := set_block l (with_ref_count (sv_ref_count sv - 1) sv) m in
  Inv m' hs /\ frame m m' hs.
Proof.
  intros HI Hv Hl Hne m'.
  pose proof (inv_block _ _ _ _ _ HI Hl) as (Hok & Hrc & Hlt).
  pose proof (inv_refs _ _ _ _ _ HI Hv Hl) as [_ Hrefs].
  apply (Inv_local m m' l [h] [] hs); local_side.
  - intros sv0. unfold m'. rewrite lookup_set_block. intros [= <-]. cbn.
    split; [done|]. split; [change (zlen []) with 0; lia|]. lia.
  - intros h' bs' _ Hv'. eapply (rep_header m _ l sv); [done|apply lookup_set_block|done..].
  - intros h' []%not_elem_of_nil.
  - intros sv0 s'. unfold m'. rewrite lookup_set_block. intros [= <-] Hm Hs Hv'.
    apply (inv_disj m h hs l sv); [done..| | |done]; by right.
  - pose proof (inv_uniq _ _ _ HI) as Hu. rewrite (omap_app _ [h] hs) in Hu.
    by apply NoDup_app in Hu as (_ & _ & ?).
Qed.

(** The last handle on a block goes away and the block is freed. *)
Lemma Inv_free m h hs l sv :
  Inv m (h :: hs) -> vec_of h = Some l -> blocks m !! l = Some sv -> sv_ref_count sv = 1 ->
  Inv (del_block l m) hs /\ frame m (del_block l m) hs.
Proof.
  intros HI Hv Hl H1.
  assert (forall h', h' ∈ hs -> vec_of h' <> Some l) as Hun
    by (intros h'; by apply (inv_unshared _ _ _ _ _ HI Hv Hl)).
  assert (blocks (del_block l m) !! l = None) as Hnone by apply lookup_delete_eq.
  apply (Inv_local m (del_block l m) l [h] [] hs); local_side.
  - intros k Hk. by apply lookup_delete_ne.
  - intros sv0. by rewrite Hnone.
  - intros h' bs' Hin Hv'. by apply Hun in Hin.
  - intros h' []%not_elem_of_nil.
  - intros sv0 s'. by rewrite Hnone.
  - pose proof (inv_uniq _ _ _ HI) as Hu. rewrite (omap_app _ [h] hs) in Hu.
    by apply NoDup_app in Hu as (_ & _ & ?).
Qed.

(** Handles on a block are replaced without touching the store. *)
Lemma Inv_convert m h s hs l sv bs :
  Inv m (h :: hs) -> vec_of h = Some l -> blocks m !! l = Some sv ->
  rep_storage m s bs -> vec_of (HB s) = Some l ->
  (HM l ∈ hs -> end_of s <= sv_offset sv) ->
  Inv m (HB s :: hs).
Proof.
  intros HI Hv Hl Hr Hvs He.
  pose proof (inv_block _ _ _ _ _ HI Hl) as (Hok & Hrc & Hlt).
  pose proof (inv_refs _ _ _ _ _ HI Hv Hl) as [_ Hrefs].
  apply (Inv_local m m l [h] [HB s] hs); local_side.
  - intros sv0 ?. simplify_eq. split; [done|]. split; [change (zlen [HB s]) with 1; lia|]. done.
  - intros h' ->%list_elem_of_singleton. by exists bs.
  - intros sv0 s' ? Hm Hs Hv'. simplify_eq. apply elem_of_cons in Hm as [|Hm]; [done|].
    apply elem_of_cons in Hs as [[= ->]|Hs]; [by apply He|].
    apply (inv_disj m h hs l sv); [done..| | |done]; by right.
  - pose proof (inv_uniq _ _ _ HI) as Hu. rewrite (omap_app _ [h] hs) in Hu.
    by apply NoDup_app in Hu as (_ & _ & ?).
Qed.

(** [BytesMut::split_to]: a [Bytes] on the front, the [BytesMut] moves up. *)
Lemma Inv_split m l sv sv' hs s bs bs' :
  Inv m (HM l :: hs) -> blocks m !! l = Some sv -> block_ok sv' ->
  sv_ref_count sv < u32_max -> sv_ref_count sv' = sv_ref_count sv + 1 ->
  sv_mem sv' = sv_mem sv -> sv_offset sv <= sv_offset sv' ->
  rep_storage m s bs -> vec_of (HB s) = Some l -> end_of s <= sv_offset sv' ->
  sv_len sv' = zlen bs' -> vec_holds sv' (sv_offset sv') bs' ->
  let m' := set_block l sv' m in
  Inv m' (HB s :: HM l :: hs) /\ frame m m' hs /\ rep_storage m' s bs /\ rep_handle m' (HM l) bs'.
Proof.
  intros HI Hl Hok Hmax Hrc Hm Ho Hr Hvs He Hn Hh m'. unfold u32_max in Hmax.
  pose proof (inv_block _ _ _ _ _ HI Hl) as (_ & Hrc' & Hlt).
  pose proof (inv_refs _ _ _ _ _ HI eq_refl Hl) as [_ Hrefs].
  assert (forall s' bs', vec_of (HB s') = Some l -> rep_storage m s' bs' -> rep_storage m' s' bs') as Hk.
  { intros s' b Hv' Hr'. eapply (rep_keep m _ l sv sv'); [done|apply lookup_set_block|done|done|reflexivity| |];
      by rewrite Hm. }
  assert (rep_handle m' (HM l) bs') as HrM by (exists sv'; unfold m'; by rewrite lookup_set_block).
  destruct (Inv_local m m' l [HM l] [HB s; HM l] hs) as [HI' Hf]; local_side.
  - intros sv0. unfold m'. rewrite lookup_set_block. intros [= <-].
    split; [done|]. change (zlen [HB s; HM l]) with 2. split; [lia|]. split; [lia|done].
  - intros [s'|k] b Hin Hv'; [by apply Hk|]. cbn in Hv'. simplify_eq.
    by apply (inv_mut_uniq _ _ _ HI) in Hin.
  - intros h' [->|[->|[]%not_elem_of_nil]%elem_of_cons]%elem_of_cons; [|eauto].
    exists bs. by apply Hk.
  - intros sv0 s'. unfold m'. rewrite lookup_set_block. intros [= <-] _ Hs Hv'.
    apply elem_of_cons in Hs as [[= ->]|Hs]; [done|]. apply elem_of_cons in Hs as [|Hs]; [done|].
    pose proof (inv_disj m (HM l) hs l sv HI Hl s') as Hd.
    apply (Z.le_trans _ (sv_offset sv)); [|done]. apply Hd; [left|by right|done].
  - apply (inv_uniq _ _ _ HI).
  - split; [done|]. split; [done|]. split; [by apply Hk|done].
Qed.

(** ** Handles that own no block *)

Lemma Inv_add_plain m s hs bs :
  Inv m hs -> rep_storage m s bs -> vec_of (HB s) = None -> arc_of (HB s) = None ->
  Inv m (HB s :: hs).
Proof.
  intros [[Hb Hr Hd Hu Ha] Hlen Hc] Hrep Hv Hav. split; [|done..]. split.
  - intros l sv Hl. cbn [app]. rewrite refs_cons, decide_False by congruence. by apply Hb.
  - intros h [->|Hin]%elem_of_cons; [by exists bs|by apply Hr].
  - intros l sv s' Hl [|Hm]%elem_of_cons [[= ->]|Hs]%elem_of_cons Hv'; try done; [congruence|by eapply Hd].
  - done.
  - intros a n d Hl. cbn [app]. rewrite arc_refs_cons, decide_False by congruence. by apply (Ha a n d).
Qed.

Lemma Inv_drop_plain m s hs :
  Inv m (HB s :: hs) -> vec_of (HB s) = None -> arc_of (HB s) = None -> Inv m hs.
Proof.
  intros [[Hb Hr Hd Hu Ha] Hlen Hc] Hv Hav. split; [|done..]. cbn [app] in *. split.
  - intros l sv Hl. destruct (Hb l sv Hl) as (?&Hrc&?). rewrite refs_cons, decide_False in Hrc by congruence.
    done.
  - intros h Hin. apply Hr. by right.
  - intros l sv s' Hl Hm Hs. apply (Hd l); [done|by right..].
  - done.
  - intros a n d Hl. specialize (Ha a n d Hl). rewrite arc_refs_cons, decide_False in Ha by congruence. done.
Qed.

(** The strong count of an [Arc] covers at least the live handles on it. *)
Lemma inv_arc m hs a n d : Inv m hs -> arcs m !! a = Some (n, d) -> arc_refs a hs <= n.
Proof.
  intros HI Ha. destruct (wf_arc _ _ (inv_wf _ _ HI) a n d Ha) as [H _]. rewrite arc_refs_app in H.
  pose proof (arc_refs_nonneg a (HM <$> concat (cache m))). lia.
Qed.

Lemma arc_refs_cached a ks : arc_refs a (HM <$> ks) = 0.
Proof. induction ks as [|k ks IH]; [done|]. rewrite fmap_cons, arc_refs_cons, IH. done. Qed.

Lemma Inv_arcs m hs hs' f :
  Inv m hs ->
  (forall l, refs l hs' = refs l hs) -> omap mut_of hs' = omap mut_of hs ->
  (forall h, h ∈ hs' -> exists bs, rep_handle (set_arcs f m) h bs) ->
  (forall s, HB s ∈ hs' -> vec_of (HB s) <> None -> HB s ∈ hs) ->
  (forall a n d, f !! a = Some (n, d) -> arc_refs a hs' <= n /\ (a < next_loc m)%nat) ->
  Inv (set_arcs f m) hs'.
Proof.
  intros [[Hb Hr Hd Hu Ha] Hlen Hc] Hrefs Hmut Hrep Hsub Hn.
  assert (forall l, HM l ∈ hs' -> HM l ∈ hs) as HM'.
  { intros l Hin. assert (l ∈ omap mut_of hs') as Hl by (apply list_elem_of_omap; by exists (HM l)).
    rewrite Hmut in Hl. apply list_elem_of_omap in Hl as ([|k] & ? & ?); by simplify_eq/=. }
  assert (forall h, h ∈ hs' ++ (HM <$> concat (cache m)) -> vec_of h <> None ->
            h ∈ hs ++ (HM <$> concat (cache m))) as Hin.
  { intros h Hin Hv. apply elem_of_app. apply elem_of_app in Hin as [Hin|]; [|by right].
    left. destruct h; [by apply Hsub|by apply HM']. }
  split; [split|done..].
  - intros l sv Hl. rewrite refs_app, Hrefs, <- refs_app. by apply Hb.
  - intros h [Hh|Hh]%elem_of_app; [by apply Hrep|].
    destruct (Hr h) as [bs Hbs]; [apply elem_of_app; by right|]. exists bs.
    apply list_elem_of_fmap in Hh as (k & -> & _). done.
  - intros l sv s Hl Hm Hs Hv. apply (Hd l sv s Hl); [by apply Hin|by apply Hin; rewrite ?Hv|done].
  - by rewrite omap_app, Hmut, <- omap_app.
  - intros a n d Hl. rewrite arc_refs_app, arc_refs_cached, Z.add_0_r. eauto.
Qed.

Lemma frame_arcs m hs f :
  (forall a n d, arcs m !! a = Some (n, d) -> 0 < arc_refs a hs -> exists n', f !! a = Some (n', d)) ->
  frame m (set_arcs f m) hs.
Proof.
  intros Hf h bs Hin Hr. destruct h as [s|l]; [|done].
  destruct Hr as [| |l addr sv bs inl Hl Hh|a n d inl Hl]; [by constructor..|by econstructor|].
  destruct (Hf a n d Hl) as [n' Hn'].
  - apply list_elem_of_split in Hin as (h1 & h2 & ->). rewrite arc_refs_app, arc_refs_cons, decide_True by done.
    pose proof (arc_refs_nonneg a h1). pose proof (arc_refs_nonneg a h2). lia.
  - by apply (rep_arc _ _ n').
Qed.

Lemma inv_arc_next m hs a n d : Inv m hs -> arcs m !! a = Some (n, d) -> (a < next_loc m)%nat.
Proof. intros HI Ha. by destruct (wf_arc _ _ (inv_wf _ _ HI) a n d Ha). Qed.

(** ** The page cache *)

Lemma concat_insert_perm (c : list (list loc)) i st st' :
  c !! i = Some st -> concat (<[i := st']> c) ++ st ≡ₚ concat c ++ st'.
Proof.
  revert i. induction c as [|x c IH]; intros [|i] Hi; simplify_eq/=.
  - rewrite (Permutation_app_comm (st' ++ concat c) st), <- app_assoc.
    f_equiv. apply Permutation_app_comm.
  - rewrite <- !app_assoc. f_equiv. by apply IH.
Qed.

Lemma frame_cache m c hs : frame m (set_cache c m) hs.
Proof. intros h bs _ Hr. by apply (rep_other m). Qed.

Lemma wf_cache m c hs : wf m hs -> wf (set_cache c m) hs.
Proof.
  intros [Hb Hr Hd Hu Ha]. split; [done| |done..].
  intros h Hin. destruct (Hr h Hin) as [bs ?]. exists bs. by apply (frame_cache m c hs).
Qed.

(** Taking a block out of the cache. *)
Lemma Inv_uncache m hs i l stack :
  Inv m hs -> cache m !! i = Some (l :: stack) ->
  Inv (set_cache (<[i := stack]> (cache m)) m) (HM l :: hs).
Proof.
  intros [Hwf Hlen Hc] Hi. split; cbn [cache set_cache].
  - assert (concat (cache m) ≡ₚ l :: concat (<[i := stack]> (cache m))) as Hp.
    { pose proof (concat_insert_perm _ _ _ stack Hi) as Hp. 
      apply (Permutation_app_inv_r stack). rewrite <- Hp. symmetry. apply Permutation_middle. }
    rewrite Hp in Hwf. cbn [fmap list_fmap] in Hwf. rewrite <- Permutation_middle in Hwf.
    by apply wf_cache.
  - by rewrite length_insert.
  - intros size st k Hk Hin. apply list_lookup_insert_Some in Hk as [(-> & <- & _)|[Hne Hk]].
    + apply (Hc size (l :: stack)); [done|by right].
    + by apply (Hc size st).
Qed.

(** The last handle on a block goes away and the block is kept in the cache. *)
Lemma Inv_cache m h hs l sv sv' size stack :
  Inv m (h :: hs) -> vec_of h = Some l -> blocks m !! l = Some sv -> sv_ref_count sv = 1 ->
  cache m !! page_index size = Some stack ->
  block_ok sv' -> sv_offset sv' = METADATA_SIZE -> sv_len sv' = 0 -> sv_ref_count sv' = 1 ->
  zlen (sv_mem sv') = page_capacity size ->
  let m' := set_cache (<[page_index size := l :: stack]> (cache m)) (set_block l sv' m) in
  Inv m' hs /\ frame m m' hs.
Proof.
  intros HI Hv Hl H1 Hi Hok Ho Hn Hrc Hcap m'.
  assert (forall h', h' ∈ hs -> vec_of h' <> Some l) as Hun
    by (intros h'; by apply (inv_unshared _ _ _ _ _ HI Hv Hl)).
  pose proof (inv_block _ _ _ _ _ HI Hl) as (_ & _ & Hlt).
  pose proof (inv_refs _ _ _ _ _ HI Hv Hl) as [_ Hrefs].
  pose proof (not_cached _ _ _ _ HI Hv) as Hnc.
  assert (HM l ∉ hs) as Hnm by (intros Hin; by apply Hun in Hin).
  destruct (Inv_local m (set_block l sv' m) l [h] [HM l] hs) as [[Hwf Hlen Hc] Hf]; local_side.
  - intros sv0. rewrite lookup_set_block. intros [= <-]. rewrite Hrc. change (zlen [HM l]) with 1.
    split; [done|]. split; [lia|]. split; [done|]. done.
  - intros h' bs' Hin Hv'. by apply Hun in Hin.
  - intros h' ->%list_elem_of_singleton. exists []. exists sv'. rewrite lookup_set_block.
    split; [done|]. split; [done|]. rewrite Ho. split; [done|]. split; [zlia|done].
  - intros sv0 s' _ _ Hs Hv'. apply elem_of_cons in Hs as [|Hs]; [done|]. by apply Hun in Hs.
  - pose proof (inv_uniq _ _ _ HI) as Hu. rewrite (omap_app _ [h] hs) in Hu.
    apply NoDup_app in Hu as (_ & _ & Hu). constructor; [|done].
    intros ([|k] & Hin & ?)%list_elem_of_omap; simplify_eq/=. done.
  - split; [split|]; cbn [cache set_cache m']; [| | |by eapply frame_trans, frame_cache].
    + assert (concat (<[page_index size := l :: stack]> (cache m)) ≡ₚ l :: concat (cache m)) as Hp.
      { pose proof (concat_insert_perm _ _ _ (l :: stack) Hi) as Hp.
        apply (Permutation_app_inv_r stack). rewrite Hp. symmetry. apply Permutation_middle. }
      rewrite Hp. cbn [fmap list_fmap]. rewrite <- Permutation_middle. by apply wf_cache.
    + by rewrite length_insert.
    + intros size' st k Hk Hin. apply list_lookup_insert_Some in Hk as [(Hs & <- & _)|[Hne Hk]].
      * apply elem_of_cons in Hin as [->|Hin].
        -- exists sv'. cbn. rewrite lookup_insert_eq. 
           assert (size' = size) as -> by (destruct size, size'; done). done.
        -- assert (size' = size) as -> by (destruct size, size'; done). by apply (Hc size stack).
      * by apply (Hc size' st).
Qed.

(** ** Allocation and release *)

(** Linear arithmetic with the constants of the model unfolded. *)
Ltac slia := unfold METADATA_SIZE, INLINE_CAP, u32_modulus, u32_max in *; zlia.

(** One step of straight-line code whose first operation is a primitive. *)
Ltac rstep :=
  first
    [ apply runs_bind
    | apply runs_ret
    | apply runs_get | apply runs_put | apply runs_modify | apply runs_store
    | eapply runs_deref; [by first [eassumption | apply lookup_set_block | apply lookup_insert_eq]|]
    | eapply runs_lift; [first [eassumption | apply checked_add_ok; slia | apply checked_sub_ok; slia]|]
    | apply runs_assert; [by zbool|] ].
Ltac rsteps := repeat rstep.

Definition fresh_vec (size : BytePageSize) (cap : Z) (src : list byte) : SharedVec :=
  mkSharedVec METADATA_SIZE (zlen src) cap (cap - zlen src) 1 size
    ((Some <$> src) ++ replicate (Z.to_nat (cap - zlen src)) None).

Definition alloc_block (sv : SharedVec) (m : Mem) : Mem :=
  mkMem (<[next_loc m := sv]> (blocks m)) (arcs m) (S (next_loc m)) (cache_size m) (cache m).

Lemma create_eq size cap src m :
  zlen src <= cap -> METADATA_SIZE + cap < u32_modulus ->
  SharedVec_create size cap src m = Done (next_loc m, alloc_block (fresh_vec size cap src) m).
Proof.
  intros Hs Hc. unfold METADATA_SIZE, u32_modulus in Hc. pose proof (zlen_nonneg src).
  unfold SharedVec_create, alloc_with_capacity, shared_vec_layout, METADATA_SIZE.
  zbool. unfold mbind, M_bind, liftS, getS, putS, mret, M_ret.
  replace (24 + cap - 24) with cap by lia.
  rewrite !as_u32_small, checked_sub_ok by (unfold u32_modulus; lia).
  unfold write_bytes, deref, mbind, M_bind. cbn [blocks]. rewrite lookup_insert_eq.
  unfold in_payload, METADATA_SIZE. cbn [sv_mem]. zbool. cbn [andb].
  unfold store, set_block. cbn [blocks arcs next_loc cache_size cache]. rewrite insert_insert_eq. unfold alloc_block, fresh_vec, with_mem. cbn.
  do 4 f_equal. unfold splice. rewrite ztake_le0, zlen_fmap by lia. cbn.
  rewrite zdrop_replicate by lia. by replace (24 - METADATA_SIZE + zlen src) with (zlen src) by done.
Qed.

Lemma fresh_vec_ok size cap src :
  zlen src <= cap -> METADATA_SIZE + cap < u32_modulus -> size = Unset \/ cap = page_capacity size ->
  block_ok (fresh_vec size cap src) /\ vec_holds (fresh_vec size cap src) METADATA_SIZE src /\
  zlen (sv_mem (fresh_vec size cap src)) = cap.
Proof.
  intros Hs Hc Hsz. pose proof (zlen_nonneg src).
  assert (zlen (sv_mem (fresh_vec size cap src)) = cap) as Hl
    by (cbn; zlia).
  split; [|split]; [|split; [done|split; [lia|]]|done].
  - unfold block_ok. rewrite Hl. cbn. repeat split; try done; lia.
  - rewrite Z.sub_diag. cbn [fresh_vec sv_mem]. unfold zslice. rewrite zdrop_le0 by lia.
    rewrite <- (zlen_fmap Some src) at 1. apply ztake_app_len.
Qed.

Lemma Inv_alloc m hs sv bs :
  Inv m hs -> block_ok sv -> sv_ref_count sv = 1 -> sv_len sv = zlen bs ->
  vec_holds sv (sv_offset sv) bs ->
  Inv (alloc_block sv m) (HM (next_loc m) :: hs) /\ frame m (alloc_block sv m) hs /\
  rep_handle (alloc_block sv m) (HM (next_loc m)) bs.
Proof.
  intros HI Hok Hrc Hn Hh. set (l := next_loc m). pose proof (inv_wf _ _ HI) as Hwf.
  assert (blocks m !! l = None) as Hnone.
  { destruct (blocks m !! l) as [sv0|] eqn:Hl; [|done].
    destruct (wf_block _ _ Hwf l sv0 Hl) as (_ & _ & _ & Hlt). unfold l in Hlt. lia. }
  assert (forall h, h ∈ hs ++ (HM <$> concat (cache m)) -> vec_of h <> Some l) as Hno.
  { intros h Hin Hv. destruct (wf_rep _ _ Hwf h Hin) as [b Hr]. destruct h as [s|k].
    - apply (rep_vec_inv _ _ _ l) in Hr as (?&?&?&_&?&_); [|done]. congruence.
    - destruct Hr as (?&?&_). cbn in Hv. congruence. }
  assert (blocks (alloc_block sv m) !! l = Some sv) as Hl by apply lookup_insert_eq.
  assert (forall h, h ∈ hs -> vec_of h <> Some l) as Hno'
    by (intros h Hin; apply Hno, elem_of_app; by left).
  assert (rep_handle (alloc_block sv m) (HM l) bs) as Hrep by (exists sv; done).
  destruct (Inv_local m (alloc_block sv m) l [] [HM l] hs) as [HI' Hf]; local_side.
  - intros Hin. apply (Hno (HM l)); [|done]. apply elem_of_app. right. apply list_elem_of_fmap. by exists l.
  - intros sv0. rewrite Hl. intros [= <-]. change (zlen [HM l]) with 1. rewrite Hrc.
    assert (refs l hs = 0) as ->; [|split; [done|]; split; [done|]; split; [done|cbn; unfold l; lia]].
    unfold refs. destruct (filter _ hs) as [|h hx] eqn:Hfil; [done|].
    assert (h ∈ filter (fun h => vec_of h = Some l) hs) as [Hv Hin]%list_elem_of_filter
      by (rewrite Hfil; left). by apply Hno' in Hin.
  - intros h bs0 Hin Hv. by apply Hno' in Hin.
  - intros h ->%list_elem_of_singleton. eauto.
  - intros sv0 s _ _ Hs Hv. apply elem_of_cons in Hs as [|Hs]; [done|]. by apply Hno' in Hs.
  - constructor.
    + intros ([|k] & Hin & ?)%list_elem_of_omap; simplify_eq/=. by apply Hno' in Hin.
    + pose proof (wf_uniq _ _ Hwf) as Hu. rewrite omap_app in Hu. by apply NoDup_app in Hu as [? _].
Qed.

Definition fits_u32 (cap : Z) : Prop := METADATA_SIZE + cap < u32_modulus.

(** [SharedVec::create] gives a fresh unshared block that holds [src]. *)
Lemma create_spec m hs size cap src :
  Inv m hs -> zlen src <= cap -> fits_u32 cap -> size = Unset \/ cap = page_capacity size ->
  runs (SharedVec_create size cap src) m (fun l m' =>
    Inv m' (HM l :: hs) /\ frame m m' hs /\ rep_handle m' (HM l) src /\
    blocks m' !! l = Some (fresh_vec size cap src)).
Proof.
  intros HI Hs Hc Hsz. destruct (fresh_vec_ok size cap src Hs Hc Hsz) as (Hok & Hh & _).
  destruct (Inv_alloc m hs (fresh_vec size cap src) src) as (HI' & Hf & Hr); try done.
  eapply runs_eq; [by apply create_eq|]. do 3 (split; [done|]). apply lookup_insert_eq.
Qed.

Lemma block_cap sv : block_ok sv ->
  sv_offset sv + sv_capacity sv - METADATA_SIZE = zlen (sv_mem sv) /\
  sv_offset sv + sv_capacity sv < u32_modulus.
Proof. intros (?&?&?&?&?&?&?). lia. Qed.

Lemma set_block_twice l sv sv' m : set_block l sv' (set_block l sv m) = set_block l sv' m.
Proof. unfold set_block. cbn. by rewrite insert_insert_eq. Qed.

Lemma del_set_block l sv m : del_block l (set_block l sv m) = del_block l m.
Proof. unfold set_block, del_block. cbn. by rewrite delete_insert_eq. Qed.

(** Dropping a handle releases its reference; the last one frees the block
    with the layout it was allocated with, or gives it to the page cache. *)
Lemma release_spec m h hs l :
  Inv m (h :: hs) -> vec_of h = Some l ->
  runs (release_shared_vec l) m (fun _ m' => Inv m' hs /\ frame m m' hs /\
    forall k, k <> l -> blocks m' !! k = blocks m !! k).
Proof.
  intros HI Hv. assert (exists sv, blocks m !! l = Some sv) as [sv Hl].
  { destruct (inv_rep m h (h :: hs) HI) as [bs Hr]; [left|]. destruct h as [s|k].
    - apply (rep_vec_inv _ _ _ l) in Hr as (?&sv&?&_&?&_); [|done]. by exists sv.
    - destruct Hr as (sv&?&_). cbn in Hv. simplify_eq. by exists sv. }
  pose proof (inv_block _ _ _ _ _ HI Hl) as (Hok & Hrc & _).
  pose proof (block_cap sv Hok) as [Hcap Hlt].
  unfold release_shared_vec. do 4 rstep. destruct (Z.eqb_spec (sv_ref_count sv) 1) as [H1|H1]; cbn [negb].
  - rstep. rstep. rstep. rstep. cbn [cache cache_size set_block].
    destruct (bool_decide (sv_size sv = Unset)) eqn:Hsz;
      [|destruct (cache m !! page_index (sv_size sv)) as [stack|] eqn:Hst;
        [destruct (zlen stack <? cache_size m)|]].
    2: { apply bool_decide_eq_false in Hsz. rsteps. rewrite set_block_twice, Hcap.
         destruct Hok as (Ho&?&?&?&?&?&[|Hpc]); [done|]. apply and_assoc.
         split; [|by intros k Hk; apply lookup_insert_ne].
         eapply (Inv_cache m h hs l sv); try done; cbn.
         unfold block_ok. cbn. pose proof (zlen_nonneg (sv_mem sv)). repeat split; try lia. by left. }
    all: rewrite Hcap, Z.eqb_refl; rstep; rewrite del_set_block; apply and_assoc;
      (split; [by eapply Inv_free|by intros k Hk; apply lookup_delete_ne]).
  - rstep. rewrite as_u32_small by lia. apply and_assoc.
    split; [by eapply Inv_unshare|by intros k Hk; apply lookup_insert_ne].
Qed.

(** ** Writing into a window *)

Lemma vec_holds_split sv addr bs :
  vec_holds sv addr bs <->
  exists pre post, sv_mem sv = pre ++ (Some <$> bs) ++ post /\ zlen pre = addr - METADATA_SIZE.
Proof.
  unfold vec_holds. split.
  - intros (H1 & H2 & H3). exists (ztake (addr - METADATA_SIZE) (sv_mem sv)),
      (zdrop (zlen bs) (zdrop (addr - METADATA_SIZE) (sv_mem sv))).
    split; [|zlia]. rewrite <- H3. unfold zslice. by rewrite !ztake_zdrop.
  - intros (pre & post & -> & Hp). split; [zlia|]. split; [zlia|].
    rewrite <- Hp. unfold zslice. rewrite zdrop_app_len, <- (zlen_fmap Some bs). apply ztake_app_len.
Qed.

Lemma zlen_splice mem pos bs :
  0 <= pos -> pos + zlen bs <= zlen mem -> zlen (splice mem pos bs) = zlen mem.
Proof. intros. unfold splice. zlia. Qed.

Lemma ztake_splice mem pos bs n :
  0 <= pos -> n <= pos -> pos <= zlen mem -> ztake n (splice mem pos bs) = ztake n mem.
Proof.
  intros. unfold splice. rewrite ztake_app_le by zlia. rewrite ztake_ztake. f_equal. lia.
Qed.

(** Overwriting and extending the end of a window. *)
Lemma vec_holds_write sv addr bs pos src :
  vec_holds sv addr bs -> 0 <= pos <= zlen bs ->
  addr + pos + zlen src <= METADATA_SIZE + zlen (sv_mem sv) ->
  vec_holds (with_mem (splice (sv_mem sv) (addr + pos - METADATA_SIZE) (Some <$> src)) sv) addr
    (ztake pos bs ++ src ++ zdrop (pos + zlen src) bs).
Proof.
  intros Hh Hpos Hfit. pose proof Hh as (Hge & _ & _).
  apply vec_holds_split in Hh as (pre & post & Hm & Hp). apply vec_holds_split.
  cbn [sv_mem with_mem]. rewrite Hm in *. zlen_pos.
  exists pre, (zdrop (pos + zlen src - zlen bs) post). split; [|done].
  unfold splice. rewrite (zlen_fmap Some src).
  rewrite ztake_app_ge, ztake_app_le by zlia.
  rewrite zdrop_app_ge by zlia. rewrite <- !app_assoc. f_equal.
  replace (addr + pos - METADATA_SIZE - zlen pre) with pos by lia.
  replace (addr + pos - METADATA_SIZE + zlen src - zlen pre) with (pos + zlen src) by lia.
  rewrite !fmap_app, <- !app_assoc. f_equal; [unfold ztake; by rewrite fmap_take|]. f_equal.
  destruct (Z.le_gt_cases (pos + zlen src) (zlen bs)) as [Hle|Hgt].
  - rewrite zdrop_app_le by zlia. rewrite (zdrop_le0 _ post) by lia.
    f_equal. unfold zdrop. by rewrite fmap_drop.
  - rewrite zdrop_app_ge, zlen_fmap by zlia. by rewrite (zdrop_all _ bs) by lia.
Qed.

(** ** [StorageVec] *)

(** What holds after an operation of the [BytesMut] on [l], whose content is
    now [bs]. *)
Definition mut_post (m : Mem) (hs : list handle) (l : loc) (bs : list byte) (m' : Mem) : Prop :=
  Inv m' (HM l :: hs) /\ frame m m' hs /\ rep_handle m' (HM l) bs.

(** The spare capacity behind the content, and all capacity from its start. *)
Definition room (m : Mem) (l : loc) : Z :=
  match blocks m !! l with Some sv => sv_remaining sv | None => 0 end.
Definition window (m : Mem) (l : loc) : Z :=
  match blocks m !! l with Some sv => sv_capacity sv | None => 0 end.

Lemma mut_post_trans m m' m'' hs l l' bs bs' :
  mut_post m hs l bs m' -> mut_post m' hs l' bs' m'' -> mut_post m hs l' bs' m''.
Proof. intros (?&Hf&?) (?&Hf'&?). split; [done|]. split; [by eapply frame_trans|done]. Qed.

Section storage_vec.
Context (m : Mem) (l : loc) (hs : list handle) (bs : list byte).
Hypothesis HI : Inv m (HM l :: hs).
Hypothesis Hr : rep_handle m (HM l) bs.

(** The block behind the handle. *)
Lemma mut_block : exists sv, blocks m !! l = Some sv /\ sv_len sv = zlen bs /\
  vec_holds sv (sv_offset sv) bs /\ block_ok sv /\ 1 <= sv_ref_count sv < u32_modulus.
Proof.
  destruct Hr as (sv & Hl & Hn & Hh). exists sv. do 3 (split; [done|]).
  by destruct (inv_block _ _ _ _ _ HI Hl) as (?&?&_).
Qed.

Lemma mut_room : 0 <= room m l /\ window m l = zlen bs + room m l.
Proof.
  destruct mut_block as (sv & Hl & Hn & _ & (?&?&?&?&?) & _). unfold room, window. rewrite Hl. lia.
Qed.

Lemma sv_as_ref_spec : sv_as_ref l m = Done (bs, m).
Proof.
  destruct mut_block as (sv & Hl & Hn & Hh & _). unfold sv_as_ref, deref, mbind, M_bind.
  rewrite Hl, Hn. by apply (read_bytes_holds m l sv).
Qed.

(** Writing [src] at position [pos] of the window and setting the length to
    the end of the content. *)
Lemma mut_write sv pos src (sv' : SharedVec) bs' :
  blocks m !! l = Some sv -> 0 <= pos <= zlen bs -> pos + zlen src <= sv_capacity sv ->
  bs' = ztake pos bs ++ src ++ zdrop (pos + zlen src) bs ->
  sv' = mkSharedVec (sv_offset sv) (zlen bs') (sv_capacity sv) (sv_capacity sv - zlen bs')
          (sv_ref_count sv) (sv_size sv)
          (splice (sv_mem sv) (sv_offset sv + pos - METADATA_SIZE) (Some <$> src)) ->
  mut_post m hs l bs' (set_block l sv' m) /\ room (set_block l sv' m) l = sv_capacity sv - zlen bs'.
Proof.
  intros Hl Hpos Hfit Hb ->. destruct mut_block as (sv0 & Hl0 & Hn & Hh & Hok & Hrc). simplify_eq.
  destruct Hok as (Ho & Hl0' & Hrem & Hsum & Hcap & Hlt & Hsz).
  set (bs' := ztake pos bs ++ src ++ zdrop (pos + zlen src) bs).
  assert (zlen bs' <= sv_capacity sv) as Hlb by (unfold bs'; zlia).
  assert (zlen (splice (sv_mem sv) (sv_offset sv + pos - METADATA_SIZE) (Some <$> src)) = zlen (sv_mem sv)) as Hsp
    by (apply zlen_splice; zlia).
  split; [|unfold room; by rewrite lookup_set_block].
  apply (Inv_mut m l sv); try done; cbn.
  - unfold block_ok. cbn. rewrite Hsp. zlen_pos. repeat split; try done; lia.
  - right. split; [done|]. apply ztake_splice; zlia.
  - apply (vec_holds_write sv (sv_offset sv) bs pos src); [done..|zlia].
Qed.

Lemma runs_write sv addr src (Q : () -> Mem -> Prop) :
  blocks m !! l = Some sv -> in_payload sv addr (zlen src) = true ->
  Q tt (set_block l (with_mem (splice (sv_mem sv) (addr - METADATA_SIZE) (Some <$> src)) sv) m) ->
  runs (write_bytes l addr src) m Q.
Proof. intros Hl Hin HQ. unfold write_bytes. rsteps. rewrite Hin. by rstep. Qed.

Lemma sv_set_index_spec i b :
  0 <= i < zlen bs ->
  runs (sv_set_index l i b) m (fun _ => mut_post m hs l (ztake i bs ++ [b] ++ zdrop (i + 1) bs)).
Proof.
  intros Hi. destruct mut_block as (sv & Hl & Hn & Hh & Hok & Hrc).
  unfold sv_set_index. rstep. rstep. rstep. rewrite Hn. apply runs_assert; [by zbool|].
  destruct (mut_write sv i [b] (with_mem (splice (sv_mem sv) (sv_offset sv + i - METADATA_SIZE) (Some <$> [b])) sv)
    (ztake i bs ++ [b] ++ zdrop (i + 1) bs)) as [Hp _]; try done; [lia|..].
  - destruct Hok as (?&?&?&?&_). change (zlen [b]) with 1. lia.
  - destruct Hok as (?&?&?&?&_). unfold with_mem. f_equal; zlia.
  - apply (runs_write sv); [done| |done]. destruct Hok as (?&?&?&?&?&_). unfold in_payload.
    change (zlen [b]) with 1. by zbool.
Qed.

Lemma sv_put_u8_spec n :
  0 < room m l ->
  runs (sv_put_u8 l n) m (fun _ m' => mut_post m hs l (bs ++ [n]) m' /\ room m' l = room m l - 1).
Proof.
  intros Hroom. destruct mut_block as (sv & Hl & Hn & Hh & Hok & Hrc).
  unfold room in Hroom |- *. rewrite Hl in *. pose proof Hok as (?&?&?&?&?&?&_).
  unfold sv_put_u8, sv_length. rsteps. rewrite Hn.
  destruct (mut_write sv (zlen bs) [n] (with_mem (splice (sv_mem sv) (sv_offset sv + zlen bs - METADATA_SIZE)
    (Some <$> [n])) (with_remaining (sv_remaining sv - 1) (with_len (zlen bs + 1) sv))) (bs ++ [n])) as [Hp _]; try done.
  - zlia.
  - change (zlen [n]) with 1. lia.
  - rewrite ztake_all, zdrop_all by zlia. by rewrite app_nil_r.
  - unfold with_mem, with_remaining, with_len. cbn. rewrite zlen_app. change (zlen [n]) with 1. f_equal; lia.
  - exists tt. eexists. unfold write_bytes, mbind, M_bind, deref. rewrite lookup_set_block.
    unfold in_payload. cbn [sv_mem with_remaining with_len]. change (zlen [n]) with 1. zbool. cbn [andb].
    unfold store. rewrite set_block_twice. done.
Qed.

Lemma sv_set_len_spec n :
  0 <= n <= zlen bs -> runs (sv_set_len l n) m (fun _ => mut_post m hs l (ztake n bs)).
Proof.
  intros Hle. destruct mut_block as (sv & Hl & Hn & Hh & Hok & Hrc).
  pose proof Hok as (?&?&?&?&?&?&Hsz). unfold sv_set_len. rsteps.
  rewrite as_u32_small by slia. apply runs_assert; [by zbool|]. rsteps.
  apply (Inv_mut m l sv); try done; cbn.
  - unfold block_ok. cbn. repeat split; try done; lia.
  - right. done.
  - zlia.
  - pose proof (vec_holds_sub _ _ _ 0 n Hh) as Hs. rewrite Z.add_0_r in Hs.
    unfold zslice in Hs. rewrite zdrop_le0 in Hs by lia. apply Hs; lia.
Qed.

(** [set_start] accepts any start within the capacity; one past the content
    empties it. *)
Lemma sv_set_start_spec start :
  0 <= start <= window m l ->
  runs (sv_set_start l start) m (fun _ => mut_post m hs l (zdrop start bs)).
Proof.
  intros Hs. destruct mut_block as (sv & Hl & Hn & Hh & Hok & Hrc).
  unfold window in Hs. rewrite Hl in Hs. pose proof Hok as (?&?&?&?&?&?&Hsz). unfold sv_set_start.
  destruct (Z.eqb_spec start 0) as [->|Hne]; cbn [negb].
  - rstep. rewrite zdrop_le0 by lia. split; [done|]. split; [apply frame_refl|done].
  - set (len' := if start <? sv_len sv then sv_len sv - start else 0).
    assert (len' = zlen (zdrop start bs)) as Hlen' by (unfold len'; zcase; zlia).
    rsteps; cbn zeta; fold len'.
    all: rewrite Hlen'; try (apply runs_lift; apply checked_sub_ok).
    rsteps. apply (Inv_mut m l sv); try done; cbn.
    + unfold block_ok. cbn. repeat split; try done; zlia.
    + right. split; [lia|done].
    + destruct (Z.le_gt_cases start (zlen bs)).
      * pose proof (vec_holds_sub _ _ _ start (zlen bs - start) Hh) as Hsub.
        unfold zslice in Hsub. rewrite ztake_all in Hsub by zlia. apply Hsub; lia.
      * rewrite zdrop_all by lia. apply vec_holds_split.
        exists (ztake (sv_offset sv + start - METADATA_SIZE) (sv_mem sv)),
          (zdrop (sv_offset sv + start - METADATA_SIZE) (sv_mem sv)).
        cbn. rewrite ztake_zdrop. split; [done|zlia].
Qed.

Lemma mut_post_refl : mut_post m hs l bs m.
Proof. split; [done|]. split; [apply frame_refl|done]. Qed.

Lemma vec_holds_nil sv addr :
  METADATA_SIZE <= addr <= METADATA_SIZE + zlen (sv_mem sv) -> vec_holds sv addr [].
Proof.
  intros Ha. apply vec_holds_split.
  exists (ztake (addr - METADATA_SIZE) (sv_mem sv)), (zdrop (addr - METADATA_SIZE) (sv_mem sv)).
  cbn. rewrite ztake_zdrop. split; [done|zlia].
Qed.

(** An unshared block emptied by [truncate(0)] gets its whole capacity back. *)
Lemma sv_truncate_spec n :
  0 <= n ->
  runs (sv_truncate l n) m (fun _ m' => mut_post m hs l (ztake n bs) m').
Proof.
  intros Hle. destruct mut_block as (sv & Hl & Hn & Hh & Hok & Hrc).
  pose proof Hok as (?&?&?&?&?&?&Hsz). unfold sv_truncate. rsteps.
  destruct ((n =? 0) && (sv_ref_count sv =? 1) && negb (sv_offset sv =? METADATA_SIZE)) eqn:Hc.
  - apply andb_true_iff in Hc as [[->%Z.eqb_eq Huni%Z.eqb_eq]%andb_true_iff _]. rsteps.
    rewrite ztake_le0 by lia. pose proof (block_cap sv Hok) as [Hcap _].
    rewrite Hcap, as_u32_small by slia.
    apply (Inv_mut m l sv); try done; cbn.
    + unfold block_ok. cbn. pose proof (zlen_nonneg (sv_mem sv)). repeat split; try done; lia.
    + by left.
    + apply vec_holds_nil. cbn. pose proof (zlen_nonneg (sv_mem sv)). lia.
  - rewrite Hn. destruct (Z.ltb_spec n (zlen bs)).
    + apply sv_set_len_spec. lia.
    + rstep. rewrite ztake_all by lia. apply mut_post_refl.
Qed.

(** Moving the content to a fresh block of the given capacity. *)
Lemma sv_move_spec size cap :
  zlen bs <= cap -> fits_u32 cap -> size = Unset \/ cap = page_capacity size ->
  runs (l' ← SharedVec_create size cap bs; sv_replace l l') m
    (fun l' m' => mut_post m hs l' bs m' /\ room m' l' = cap - zlen bs).
Proof.
  intros Hle Hfit Hsz. apply runs_bind.
  eapply runs_conseq; [by apply (create_spec m (HM l :: hs))|].
  intros l' m' (HI' & Hf & Hr' & Hl'). cbn in Hf. apply frame_cons in Hf as [Hfl Hf].
  unfold sv_replace. apply runs_bind.
  rewrite (Permutation_swap (HM l) (HM l') hs) in HI'.
  eapply runs_conseq; [by apply (release_spec m' (HM l) (HM l' :: hs))|].
  intros [] m'' (HI'' & Hf'' & Hk). apply frame_cons in Hf'' as [Hfl' Hf'']. rstep.
  split; [split; [done|split; [by eapply frame_trans|by apply Hfl']]|].
  unfold room. rewrite Hk, Hl'; [done|]. intros ->.
  apply (inv_mut_uniq _ _ _ HI'). left.
Qed.

Lemma sv_reserve_capacity_spec cap :
  zlen bs <= cap -> fits_u32 cap ->
  runs (sv_reserve_capacity l cap) m (fun l' m' =>
    mut_post m hs l' bs m' /\ room m' l' = cap - zlen bs).
Proof.
  intros Hle Hfit. unfold sv_reserve_capacity. apply runs_bind.
  eapply runs_eq; [apply sv_as_ref_spec|]. by apply sv_move_spec; [..|left].
Qed.

(** [reserve_inner] slides the content of an unshared block to its front when
    that makes enough room, and moves it to a larger block otherwise. *)
Lemma sv_slide sv :
  blocks m !! l = Some sv -> sv_ref_count sv = 1 -> sv_len sv = zlen bs ->
  let sv' := mkSharedVec METADATA_SIZE (zlen bs) (zlen (sv_mem sv)) (zlen (sv_mem sv) - zlen bs) 1
               (sv_size sv) (splice (sv_mem sv) 0 (Some <$> bs)) in
  mut_post m hs l bs (set_block l sv' m) /\ room (set_block l sv' m) l = zlen (sv_mem sv) - zlen bs.
Proof.
  intros Hl H1 Hn sv'. destruct mut_block as (sv0 & Hl0 & _ & Hh & Hok & Hrc). simplify_eq.
  pose proof Hok as (?&?&?&?&?&?&Hsz). zlen_pos.
  assert (zlen (splice (sv_mem sv) 0 (Some <$> bs)) = zlen (sv_mem sv)) as Hsp
    by (apply zlen_splice; zlia).
  split; [|unfold room; by rewrite lookup_set_block].
  apply (Inv_mut m l sv); try done.
  - unfold block_ok, sv'. cbn. rewrite Hsp. repeat split; try done; lia.
  - by left.
  - apply vec_holds_split. exists [], (zdrop (zlen bs) (sv_mem sv)). cbn. unfold splice.
    rewrite ztake_le0, zlen_fmap by lia. done.
Qed.

Lemma sv_reserve_inner_spec additional :
  0 <= additional -> fits_u32 (zlen bs + additional) ->
  runs (sv_reserve_inner l additional) m (fun l' m' =>
    mut_post m hs l' bs m' /\ additional <= room m' l').
Proof.
  intros Ha Hfit. destruct mut_block as (sv & Hl & Hn & Hh & Hok & Hrc).
  pose proof Hok as (?&?&?&?&?&?&Hsz). pose proof (block_cap sv Hok) as [Hcap Hlt].
  unfold sv_reserve_inner. rstep. rstep. rstep. rewrite Hn.
  eapply runs_lift; [apply checked_add_ok; unfold fits_u32, METADATA_SIZE, u32_modulus, u64_modulus in *; lia|].
  destruct (_ && _) eqn:Hc.
  - apply andb_true_iff in Hc as [Huni%Z.eqb_eq Hroom%Z.leb_le].
    replace (sv_offset sv + sv_capacity sv - zlen bs - METADATA_SIZE) with (zlen (sv_mem sv) - zlen bs) by lia.
    rewrite as_u32_small by slia. rstep. eapply runs_lift; [apply checked_add_ok; slia|].
    replace (zlen bs + (zlen (sv_mem sv) - zlen bs)) with (zlen (sv_mem sv)) by lia.
    rstep. rstep. destruct (sv_slide sv Hl Huni Hn) as [Hp Hrm].
    eapply runs_bind, (runs_eq _ _ tt); cycle 1.
    { apply runs_ret. split; [exact Hp|]. rewrite Hrm. lia. }
    destruct (Z.eqb_spec (zlen bs) 0) as [Hz|Hz]; cbn [negb].
    + apply zlen_0_inv in Hz. subst bs. unfold mret, M_ret. do 3 f_equal. unfold splice. cbn.
      unfold with_capacity_f, with_remaining, with_offset. cbn. rewrite Huni, Hn.
      rewrite zlen_nil, ztake_le0, zdrop_le0 by done. done.
    + unfold mbind at 1, M_bind at 1. set (svh := with_capacity_f _ _).
      rewrite (read_bytes_holds _ l svh _ bs); [|apply lookup_set_block|done].
      unfold write_bytes, mbind, M_bind, deref. rewrite lookup_set_block. unfold in_payload. cbn.
      zbool. cbn [andb]. unfold store. rewrite set_block_twice. do 3 f_equal.
      unfold with_mem, svh. cbn. rewrite Huni, Hn. done.
  - apply runs_bind. eapply runs_eq; [apply sv_as_ref_spec|].
    eapply runs_conseq; [apply (sv_move_spec Unset); [lia|done|by left]|].
    intros l' m' [Hp Hrm]. split; [done|]. lia.
Qed.

Lemma sv_reserve_spec additional :
  0 <= additional -> additional <= room m l \/ fits_u32 (zlen bs + additional) ->
  runs (sv_reserve l additional) m (fun l' m' =>
    mut_post m hs l' bs m' /\ additional <= room m' l').
Proof.
  intros Ha Hf. destruct mut_block as (sv & Hl & Hn & Hh & Hok & Hrc).
  unfold sv_reserve, sv_remain. rsteps. unfold room in Hf. rewrite Hl in Hf.
  destruct (Z.leb_spec additional (sv_remaining sv)).
  - rstep. split; [apply mut_post_refl|]. unfold room. by rewrite Hl.
  - apply sv_reserve_inner_spec; [done|]. destruct Hf; [lia|done].
Qed.

(** Filling the spare capacity and growing the length over it. *)
Lemma sv_append_spec sv src n :
  blocks m !! l = Some sv -> zlen src <= room m l -> n = zlen bs + zlen src ->
  runs (write_bytes l (sv_offset sv + zlen bs) src;; sv_set_len l n) m (fun _ m' =>
    mut_post m hs l (bs ++ src) m' /\ room m' l = room m l - zlen src).
Proof.
  intros Hl Hroom ->. destruct mut_block as (sv0 & Hl0 & Hn & Hh & Hok & Hrc). simplify_eq.
  unfold room in Hroom |- *. rewrite Hl in *. pose proof Hok as (?&?&?&?&?&?&Hsz). zlen_pos.
  destruct (mut_write sv (zlen bs) src
    (with_remaining (sv_capacity sv - (zlen bs + zlen src)) (with_len (zlen bs + zlen src)
      (with_mem (splice (sv_mem sv) (sv_offset sv + zlen bs - METADATA_SIZE) (Some <$> src)) sv)))
    (bs ++ src)) as [Hp _]; try done; try lia.
  - rewrite ztake_all, zdrop_all by lia. by rewrite app_nil_r.
  - unfold with_mem, with_remaining, with_len. cbn. by rewrite zlen_app.
  - apply runs_bind. apply (runs_write sv); [done|unfold in_payload; by zbool|].
    unfold sv_set_len. rstep. rstep. rewrite as_u32_small by slia. cbn [sv_capacity with_mem]. rsteps.
    rewrite set_block_twice. split; [done|]. rewrite lookup_set_block. cbn. lia.
Qed.

End storage_vec.

Lemma sv_resize_spec m l hs bs n value :
  Inv m (HM l :: hs) -> rep_handle m (HM l) bs -> 0 <= n -> fits_u32 n ->
  runs (sv_resize l n value) m (fun l' m' =>
    mut_post m hs l' (ztake n bs ++ replicate (Z.to_nat (n - zlen bs)) value) m').
Proof.
  intros HI Hr Hn0 Hfit. destruct (mut_block m l hs bs HI Hr) as (sv & Hl & Hn & Hh & Hok & Hrc).
  unfold sv_resize, sv_length. rstep. rstep. rstep. rstep. rewrite Hn.
  destruct (Z.ltb_spec (zlen bs) n) as [Hlt|Hge].
  - apply runs_bind. eapply runs_conseq.
    { apply (sv_reserve_spec m l hs bs); [done..|lia|]. right.
      by replace (zlen bs + (n - zlen bs)) with n by lia. }
    intros l' m' [Hp Hroom]. pose proof Hp as (HI' & Hf' & Hr').
    destruct (mut_block m' l' hs bs HI' Hr') as (sv' & Hl' & Hn' & Hh' & Hok' & Hrc').
    pose proof Hok' as (?&?&?&?&_). rstep. rstep. rstep. rstep. zlen_pos.
    pose proof (sv_append_spec m' l' hs bs HI' Hr' sv' (replicate (Z.to_nat (n - zlen bs)) value) n Hl') as Happ.
    rewrite zlen_replicate in Happ.
    destruct Happ as (a & m'' & Hc & Hp'' & _); [lia..|].
    unfold mbind, M_bind in Hc |- *. destruct (write_bytes _ _ _ m') as [[[] mw]|] eqn:Hw; [|done].
    exists l', m''. rewrite Hw, Hc. split; [done|].
    rewrite ztake_all by lia. by eapply mut_post_trans.
  - apply runs_bind. eapply runs_conseq; [by apply (sv_truncate_spec m l hs bs)|].
    intros [] m' Hp. rstep. replace (Z.to_nat (n - zlen bs)) with 0%nat by lia. cbn. by rewrite app_nil_r.
Qed.

(** ** Inline buffers *)

Definition plain (s : Storage) : Prop := vec_of (HB s) = None /\ arc_of (HB s) = None.

Lemma inline_word_plain k p n inl : plain (mkStorage (inline_word k) p n inl).
Proof. unfold plain. cbn. unfold kind. cbn. by rewrite inline_word_kind. Qed.

Lemma static_plain d pos n inl : plain (mkStorage PTR_STATIC (PStatic d pos) n inl).
Proof. done. Qed.

Lemma set_inline_len_ok n k p c inl :
  0 <= n <= INLINE_CAP -> 0 <= k <= INLINE_CAP ->
  set_inline_len n (mkStorage (inline_word k) p c inl) = Done (mkStorage (inline_word n) p c inl).
Proof.
  intros Hn Hk. unfold set_inline_len, assert_true. zbool. cbn.
  destruct (inline_word_facts k Hk) as (_ & -> & _). by destruct (inline_word_facts n Hn) as (_ & _ & ->).
Qed.

Lemma from_ptr_inline_ok bs :
  zlen bs <= INLINE_CAP ->
  exists s, from_ptr_inline bs = Done s /\ plain s /\ forall m, rep_storage m s bs.
Proof.
  intros Hn. exists (mkStorage (inline_word (zlen bs)) PNull 0 (bs ++ zdrop (zlen bs) inline_zeros)).
  zlen_pos. split; [|split; [apply inline_word_plain|]].
  - unfold from_ptr_inline. zbool. change PTR_INLINE with (inline_word 0).
    apply set_inline_len_ok; unfold INLINE_CAP in *; lia.
  - intros m. constructor; [done|]. rewrite zlen_app, zlen_zdrop.
    change (zlen inline_zeros) with 23. unfold INLINE_CAP in *. lia.
Qed.

(** What holds after a [Bytes] was produced beside the handles [hs]. *)
Definition bytes_post (m : Mem) (hs : list handle) (bs : list byte) (s : Storage) (m' : Mem) : Prop :=
  Inv m' (HB s :: hs) /\ frame m m' hs /\ rep_storage m' s bs.

Lemma bytes_post_trans m m' m'' hs s s' bs bs' :
  bytes_post m hs bs s m' -> bytes_post m' hs bs' s' m'' -> bytes_post m hs bs' s' m''.
Proof. intros (?&Hf&?) (?&Hf'&?). split; [done|]. split; [by eapply frame_trans|done]. Qed.

Lemma runs_inline m hs bs :
  Inv m hs -> zlen bs <= INLINE_CAP -> runs (liftS (from_ptr_inline bs)) m (fun s m' =>
    m' = m /\ plain s /\ (forall m, rep_storage m s bs) /\ Inv m (HB s :: hs)).
Proof.
  intros HI Hn. destruct (from_ptr_inline_ok bs Hn) as (s & Hs & Hpl & Hr).
  eapply runs_lift; [done|]. split; [done|]. split; [done|]. split; [done|].
  destruct Hpl. by eapply Inv_add_plain.
Qed.

(** [freeze] consumes the [BytesMut]. *)
Lemma sv_freeze_spec m l hs bs :
  Inv m (HM l :: hs) -> rep_handle m (HM l) bs ->
  runs (sv_freeze l) m (fun s m' => bytes_post m hs bs s m').
Proof.
  intros HI Hr. destruct (mut_block m l hs bs HI Hr) as (sv & Hl & Hn & Hh & Hok & Hrc).
  unfold sv_freeze. rstep. rstep. rewrite Hn. destruct (Z.leb_spec (zlen bs) INLINE_CAP) as [Hle|Hgt].
  - apply runs_bind. eapply runs_eq; [by apply (read_bytes_holds m l sv)|].
    apply runs_bind. eapply runs_conseq; [by apply (runs_inline m (HM l :: hs))|].
    intros s m' (-> & Hpl & Hrep & HI'). rewrite (Permutation_swap (HM l) (HB s) hs) in HI'.
    apply runs_bind. eapply runs_conseq; [by apply (release_spec m (HM l))|].
    intros [] m' (HI'' & Hf & _). rstep. apply frame_cons in Hf as [_ Hf]. done.
  - rstep. rewrite vec_word_eq. set (s := mkStorage _ _ _ _).
    assert (rep_storage m s bs) as Hrs by (by apply (rep_vec _ _ _ sv)).
    assert (vec_of (HB s) = Some l) as Hv by (cbn; unfold kind; cbn; by rewrite vec_word_kind).
    split; [|split; [apply frame_refl|done]].
    apply (Inv_convert m (HM l) s hs l sv bs); try done.
    intros Hin. by apply (inv_mut_uniq _ _ _ HI) in Hin.
Qed.

Definition moved (start : Z) (sv : SharedVec) : SharedVec :=
  mkSharedVec (sv_offset sv + start) (sv_len sv - start) (sv_capacity sv - start) (sv_remaining sv)
    (sv_ref_count sv) (sv_size sv) (sv_mem sv).

Lemma sv_set_start_eq m l sv start :
  blocks m !! l = Some sv -> block_ok sv -> 0 < start <= sv_len sv ->
  sv_set_start l start m = Done (tt, set_block l (moved start sv) m).
Proof.
  intros Hl (?&?&?&?&?&?&?) Hs. zlen_pos.
  unfold sv_set_start. zbool. cbn [negb].
  unfold mbind, M_bind, deref. rewrite Hl. unfold assertS, liftS. zbool.
  rewrite checked_add_ok by slia.
  assert ((if start <? sv_len sv then sv_len sv - start else 0) = sv_len sv - start) as -> by (zcase; lia).
  rewrite !checked_sub_ok by lia. rewrite checked_add_ok by slia. unfold store. do 3 f_equal.
  unfold moved, with_capacity_f, with_remaining, with_len, with_offset. cbn. f_equal; lia.
Qed.

Lemma add_ref_eq m l sv :
  blocks m !! l = Some sv -> 0 <= sv_ref_count sv < u32_max ->
  add_ref l m = Done (tt, set_block l (with_ref_count (sv_ref_count sv + 1) sv) m).
Proof.
  intros Hl Hrc. unfold u32_max in *. unfold add_ref, mbind, M_bind, deref. rewrite Hl.
  unfold store, assertS. rewrite as_u32_small by lia. unfold u32_max. by zbool.
Qed.

(** The reference count of a block is at most the number of live handles. *)
Lemma ref_count_handles m h hs l sv :
  Inv m (h :: hs) -> vec_of h = Some l -> blocks m !! l = Some sv ->
  1 <= sv_ref_count sv <= zlen (h :: hs).
Proof.
  intros HI Hv Hl. destruct (inv_refs _ _ _ _ _ HI Hv Hl) as [_ ->].
  pose proof (refs_le l hs). pose proof (refs_nonneg l hs). rewrite zlen_cons. lia.
Qed.

(** [split_to] hands out the front as a [Bytes]; the [BytesMut] keeps the rest. *)
Lemma sv_split_to_spec m l hs bs n :
  Inv m (HM l :: hs) -> rep_handle m (HM l) bs -> 0 <= n <= zlen bs -> zlen (HM l :: hs) < u32_max ->
  runs (sv_split_to l n) m (fun s m' =>
    Inv m' (HB s :: HM l :: hs) /\ frame m m' hs /\
    rep_storage m' s (ztake n bs) /\ rep_handle m' (HM l) (zdrop n bs)).
Proof.
  intros HI Hr Hn Hmax. destruct (mut_block m l hs bs HI Hr) as (sv & Hl & Hlen & Hh & Hok & Hrc).
  pose proof Hok as (?&?&?&?&?&?&Hsz).
  pose proof (vec_holds_sub _ _ _ 0 n Hh) as Hfront. rewrite Z.add_0_r in Hfront.
  replace (zslice 0 n bs) with (ztake n bs) in Hfront by (unfold zslice; by rewrite zdrop_le0 by lia).
  specialize (Hfront ltac:(lia) ltac:(lia) ltac:(lia)).
  assert (zlen (ztake n bs) = n) as Hzn by zlia.
  unfold sv_split_to. rstep. rstep. rewrite as_u32_small by slia.
  destruct (Z.leb_spec n INLINE_CAP) as [Hle|Hgt]; apply runs_bind.
  - pose proof (read_bytes_holds m l sv _ _ Hl Hfront) as Hrd. rewrite Hzn in Hrd.
    rstep. eapply runs_eq; [exact Hrd|].
    eapply runs_conseq; [apply (runs_inline m (HM l :: hs)); [done|lia]|].
    intros s m' (-> & Hpl & Hrep & HI'). rewrite (Permutation_swap (HM l) (HB s) hs) in HI'.
    apply runs_bind. eapply runs_conseq; [apply (sv_set_start_spec m l (HB s :: hs) bs); [done|done|]|].
    { unfold window. rewrite Hl. lia. }
    intros [] m' (HI'' & Hf & Hr'). rstep. apply frame_cons in Hf as [_ Hf].
    rewrite (Permutation_swap (HB s) (HM l) hs) in HI''. done.
  - pose proof (ref_count_handles _ _ _ _ _ HI eq_refl Hl).
    rstep. eapply runs_eq; [apply (add_ref_eq _ _ sv); [done|lia]|]. rstep. rstep.
    eapply runs_eq; [eapply sv_set_start_eq; [apply lookup_set_block|done|cbn; slia]|].
    rstep. rewrite set_block_twice, vec_word_eq.
    set (s := mkStorage _ _ _ _). set (sv' := moved _ _).
    assert (rep_storage m s (ztake n bs)) as Hrs
      by (pose proof (rep_vec m l _ sv _ inline_zeros Hl Hfront) as Hv; by rewrite Hzn in Hv).
    destruct (Inv_split m l sv sv' hs s (ztake n bs) (zdrop n bs)) as (HI' & Hf & Hr1 & Hr2);
      try done; unfold sv', moved; cbn; try lia; try zlia.
    + unfold block_ok. cbn. repeat split; try done; lia.
    + unfold kind. cbn. by rewrite vec_word_kind.
    + pose proof (vec_holds_sub _ _ _ n (zlen bs - n) Hh) as Hsub.
      unfold zslice in Hsub. rewrite ztake_all in Hsub by zlia. apply Hsub; lia.
Qed.

(** ** [Storage] *)

Lemma vec_storage_vec_of l addr n inl :
  vec_of (HB (mkStorage (4 * addr + 1) (PVec l addr) n inl)) = Some l.
Proof. cbn. unfold kind. cbn. by rewrite vec_word_kind. Qed.

Lemma vec_storage_shared l addr n inl :
  shared_vec (mkStorage (4 * addr + 1) (PVec l addr) n inl) = Done l.
Proof. unfold shared_vec. cbn. by rewrite vec_word_offset, Z.eqb_refl. Qed.

(** Reduces the kind tests of a storage whose tag word is known. *)
Ltac kinds :=
  unfold kind; cbn [st_offset st_ptr st_len st_inline];
  rewrite ?inline_word_kind, ?vec_word_kind;
  repeat match goal with
  | |- context [?a =? ?b] =>
      lazymatch a with KIND_INLINE => idtac | KIND_VEC => idtac | KIND_STEXT => idtac
      | Z.land PTR_STATIC _ => idtac | Z.land ARC_STR_VTABLE _ => idtac end;
      let v := eval vm_compute in (a =? b) in change (a =? b) with v
  end; cbn [orb andb negb]; cbn iota.

Lemma Inv_arc_drop m s hs a n d inl :
  s = mkStorage ARC_STR_VTABLE (PArc a) (zlen d) inl -> arcs m !! a = Some (n, d) ->
  Inv m (HB s :: hs) ->
  let m' := set_arcs (if n =? 1 then delete a (arcs m) else <[a := (n - 1, d)]> (arcs m)) m in
  Inv m' hs /\ frame m m' hs.
Proof.
  intros -> Ha HI m'. set (s := mkStorage _ _ _ _) in *. assert (arc_of (HB s) = Some a) as Harc by done.
  assert (frame m m' hs) as Hf.
  { apply frame_arcs. intros a' n' d' Ha' Hpos. destruct (decide (a' = a)) as [->|Hne].
    - simplify_eq. pose proof (inv_arc _ _ _ _ _ HI Ha) as Hc. rewrite arc_refs_cons, decide_True in Hc by done.
      zbool. exists (n - 1). by rewrite lookup_insert_eq.
    - exists n'. destruct (n =? 1); [by rewrite lookup_delete_ne|by rewrite lookup_insert_ne]. }
  split; [|done]. apply (Inv_arcs m (HB s :: hs)); try done.
  - intros h Hin. destruct (inv_rep m h (HB s :: hs) HI) as [bs Hr]; [by right|]. exists bs. by apply Hf.
  - intros s' Hin _. by right.
  - intros a' n' d' Ha'. split; cycle 1.
    { destruct (n =? 1); [apply lookup_delete_Some in Ha' as [_ Ha']|
        apply lookup_insert_Some in Ha' as [[<- _]|[_ Ha']]]; by eapply inv_arc_next. }
    destruct (Z.eqb_spec n 1) as [->|].
    + apply lookup_delete_Some in Ha' as [Hne Ha'].
      pose proof (inv_arc _ _ _ _ _ HI Ha') as Hc. rewrite arc_refs_cons, decide_False in Hc by congruence. lia.
    + apply lookup_insert_Some in Ha' as [[<- [= <- <-]]|[Hne Ha']].
      * pose proof (inv_arc _ _ _ _ _ HI Ha) as Hc. rewrite arc_refs_cons, decide_True in Hc by done. lia.
      * pose proof (inv_arc _ _ _ _ _ HI Ha') as Hc. rewrite arc_refs_cons, decide_False in Hc by congruence. lia.
Qed.

Lemma storage_drop_spec m s hs :
  Inv m (HB s :: hs) -> runs (storage_drop s) m (fun _ m' => Inv m' hs /\ frame m m' hs).
Proof.
  intros HI. destruct (inv_rep m (HB s) _ HI) as [bs Hr]; [left|]. cbn in Hr. unfold storage_drop.
  destruct Hr as [bs pad p n ? ?|d pos bs inl ? ? ?|l addr sv bs inl Hl Hh|a n d inl Ha]; kinds.
  - rstep. split; [|apply frame_refl]. destruct (inline_word_plain (zlen bs) p n (bs ++ pad)).
    by eapply Inv_drop_plain.
  - rstep. split; [by eapply Inv_drop_plain|apply frame_refl].
  - rstep. eapply runs_lift; [apply vec_storage_shared|].
    eapply runs_conseq; [eapply release_spec; [done|apply vec_storage_vec_of]|].
    intros [] m' (?&?&_). done.
  - rstep. rstep. rewrite Ha. rstep. by eapply Inv_arc_drop.
Qed.

(** [StorageVec::sized]: a cached or fresh page of exactly the size's
    capacity; [Unset] has no slot in the cache. *)
Lemma sv_sized_spec m hs size :
  Inv m hs -> size <> Unset ->
  runs (sv_sized size) m (fun l m' => mut_post m hs l [] m' /\ window m' l = page_capacity size).
Proof.
  intros HI Hsz. unfold sv_sized. rstep. rstep.
  destruct (cache m !! page_index size) as [[|l stack]|] eqn:Hc.
  - eapply runs_conseq; [apply (create_spec m hs size (page_capacity size) []); [done| | |by right]|].
    1,2: by destruct size.
    intros l m' (HI' & Hf & Hr & Hl). split; [done|]. unfold window. by rewrite Hl.
  - destruct (inv_cached _ _ HI size _ l Hc) as (sv & Hl & Ho & Hn & Hrc & Hcap); [left|].
    pose proof (Inv_uncache _ _ _ _ _ HI Hc) as HI'. set (m1 := set_cache _ m) in *.
    assert (blocks m1 !! l = Some sv) as Hl1 by done.
    destruct (inv_block _ _ _ _ _ HI' Hl1) as ((?&?&?&?&?&?&_) & _).
    destruct (Inv_mut m1 l sv (with_size size sv) hs []) as (HI2 & Hf2 & Hr2); try done.
    + unfold block_ok, with_size. cbn. repeat split; try done. by right.
    + by right.
    + apply vec_holds_nil. cbn. zlia.
    + rsteps. split; [split; [done|split; [|done]]|].
      * eapply frame_trans; [apply (frame_cache m)|done].
      * unfold window. rewrite lookup_set_block. cbn. lia.
  - exfalso. apply lookup_ge_None in Hc. rewrite (inv_cache_len _ _ HI) in Hc. destruct size; cbn in Hc; try lia; done.
Qed.
