(* ===== verification/StorageView.v ===== *)
(** * What the operations of [storage] do

    The operations of [Storage], the representation of [Bytes]: each narrows,
    splits, clones or copies a view of shared bytes. *)
From Stdlib Require Import ZArith Lia.
From stdpp Require Import base numbers gmap list.
From S2P Require Import Prelude Storage StorageInv StorageOps.

(** [*self = new]: the old storage is dropped, the new one is in its place. *)
Lemma storage_replace_spec m s s' hs bs :
  Inv m (HB s' :: HB s :: hs) -> rep_storage m s' bs ->
  runs (storage_replace s s') m (fun r m' => r = s' /\ bytes_post m hs bs s' m').
Proof.
  intros HI Hr. rewrite (Permutation_swap (HB s) (HB s') hs) in HI. unfold storage_replace.
  apply runs_bind. eapply runs_conseq; [by apply storage_drop_spec|].
  intros [] m' (HI' & Hf). rstep. apply frame_cons in Hf as [Hf' Hf].
  split; [done|]. split; [done|]. split; [done|]. by apply (Hf' bs).
Qed.

Lemma from_slice_with_capacity_spec m hs cap src :
  Inv m hs -> zlen src <= cap -> fits_u32 cap ->
  runs (from_slice_with_capacity cap src) m (bytes_post m hs src).
Proof.
  intros HI Hle Hfit. unfold from_slice_with_capacity. apply runs_bind.
  eapply runs_conseq; [apply (create_spec m hs Unset cap src); [done..|by left]|].
  intros l m' (HI' & Hf & Hr & Hl). rstep. unfold DEFAULT_OFFSET. rewrite vec_word_eq.
  set (s := mkStorage _ _ _ _).
  destruct Hr as (sv & Hl' & Hn & Hh). simplify_eq. cbn in Hh.
  assert (rep_storage m' s src) as Hr by (by apply (rep_vec _ _ _ (fresh_vec Unset cap src))).
  split; [|done]. eapply (Inv_convert m' (HM l) s hs l); try done.
  intros Hin. by apply (inv_mut_uniq _ _ _ HI') in Hin.
Qed.

Lemma storage_from_slice_spec m hs src :
  Inv m hs -> fits_u32 (zlen src) -> runs (storage_from_slice src) m (bytes_post m hs src).
Proof.
  intros HI Hfit. unfold storage_from_slice. destruct (Z.leb_spec (zlen src) INLINE_CAP).
  - eapply runs_conseq; [by apply runs_inline|]. intros s m' (-> & _ & Hr & HI').
    split; [done|]. split; [apply frame_refl|done].
  - by apply from_slice_with_capacity_spec.
Qed.

(** Replacing [s] by a copy of some bytes. *)
Lemma copy_replace_spec m s hs src :
  Inv m (HB s :: hs) -> fits_u32 (zlen src) ->
  runs (s' ← storage_from_slice src; storage_replace s s') m (bytes_post m hs src).
Proof.
  intros HI Hfit. apply runs_bind.
  eapply runs_conseq; [by apply (storage_from_slice_spec m (HB s :: hs))|].
  intros s' m' (HI' & Hf & Hr). apply frame_cons in Hf as [_ Hf].
  eapply runs_conseq; [by apply (storage_replace_spec m' s s' hs src)|].
  intros r m'' (-> & HI'' & Hf' & Hr'). split; [done|]. split; [by eapply frame_trans|done].
Qed.

Lemma inline_replace_spec m s hs src :
  Inv m (HB s :: hs) -> zlen src <= INLINE_CAP ->
  runs (s' ← liftS (from_ptr_inline src); storage_replace s s') m (bytes_post m hs src).
Proof.
  intros HI Hle. apply runs_bind.
  eapply runs_conseq; [by apply (runs_inline m (HB s :: hs))|]. intros s' m' (-> & _ & Hr & HI').
  eapply runs_conseq; [by apply (storage_replace_spec m s s' hs src)|].
  intros r m' (-> & Hp). done.
Qed.

Lemma bytes_post_refl m s hs bs :
  Inv m (HB s :: hs) -> rep_storage m s bs -> bytes_post m hs bs s m.
Proof. intros. split; [done|]. split; [apply frame_refl|done]. Qed.

Lemma zslice_take {A} n (l : list A) : zslice 0 n l = ztake n l.
Proof. unfold zslice. by rewrite zdrop_le0 by lia. Qed.

Lemma zslice_drop {A} n (l : list A) : 0 <= n <= zlen l -> zslice n (zlen l - n) l = zdrop n l.
Proof. intros. unfold zslice. apply ztake_all. zlia. Qed.

(** A narrower view of the same representation. *)
Lemma Inv_narrow m s s' hs bs :
  Inv m (HB s :: hs) -> rep_storage m s' bs -> vec_of (HB s') = vec_of (HB s) ->
  arc_of (HB s) = None -> arc_of (HB s') = None -> end_of s' <= end_of s ->
  bytes_post m hs bs s' m.
Proof.
  intros HI Hr Hv Ha Ha' He. split; [|split; [apply frame_refl|done]].
  destruct (vec_of (HB s)) as [l|] eqn:Hvs.
  - destruct (rep_vec_inv _ _ _ _ Hr Hv) as (addr & sv & inl & _ & Hl & _).
    apply (Inv_convert m (HB s) s' hs l sv bs); try done. intros Hin.
    apply (Z.le_trans _ (end_of s)); [done|]. eapply inv_disj; [done|done|by right|by left|done].
  - eapply Inv_add_plain; [|done..]. by eapply Inv_drop_plain.
Qed.

(** [Storage::set_start]. *)
Lemma storage_set_start_spec m s hs bs start :
  Inv m (HB s :: hs) -> rep_storage m s bs -> 0 <= start <= zlen bs -> fits_u32 (zlen bs) ->
  runs (storage_set_start s start) m (bytes_post m hs (zdrop start bs)).
Proof.
  intros HI Hr Hs Hfit. unfold storage_set_start. destruct (Z.eqb_spec start 0) as [->|Hne].
  { rstep. rewrite zdrop_le0 by lia. by apply bytes_post_refl. }
  revert HI Hs Hfit.
  destruct Hr as [bs' pad p n Hc Hp|d pos bs' inl H1 H2 H3|l addr sv bs' inl Hl Hh|a n d inl Ha];
    intros HI Hs Hfit; kinds.
  - rstep. apply runs_assert; [by zbool|]. assert (0 <= zlen bs' <= INLINE_CAP) as Hlen by zlia.
    unfold inline_len. cbn [st_offset]. destruct (inline_word_facts (zlen bs')) as (-> & _); [done|].
    destruct (Z.leb_spec (zlen bs') start) as [Hge|Hlt].
    + eapply runs_lift; [apply set_inline_len_ok; unfold INLINE_CAP in *; lia|].
      rewrite zdrop_all by lia. destruct (inline_word_plain 0 p n (bs' ++ pad)), (inline_word_plain (zlen bs') p n (bs' ++ pad)).
      eapply Inv_narrow; [done| |congruence|done|done|done].
      apply (rep_inline m [] (bs' ++ pad)); [done|]. by cbn.
    + eapply runs_lift; [apply set_inline_len_ok; lia|].
      destruct (inline_word_plain (zlen bs' - start) p n (zslice start (zlen bs' - start) (bs' ++ pad) ++ zdrop (zlen bs' - start) (bs' ++ pad))), (inline_word_plain (zlen bs') p n (bs' ++ pad)).
      eapply Inv_narrow; [done| |congruence|done|done|done].
      replace (zslice start (zlen bs' - start) (bs' ++ pad)) with (zdrop start bs')
        by (unfold zslice; rewrite zdrop_app_le, ztake_app_le, ztake_all by zlia; done).
      replace (zlen bs' - start) with (zlen (zdrop start bs')) at 1 by zlia.
      constructor; [zlia|]. zlia.
  - rstep. apply runs_assert; [by zbool|]. rstep.
    eapply Inv_narrow; [done| |done..].
    replace (zlen bs' - start) with (zlen (zdrop start bs')) by zlia.
    constructor; [lia|zlia|]. rewrite zlen_zdrop. replace (Z.max 0 _) with (zlen bs' - start) by lia.
    rewrite <- (zslice_zslice _ (zlen bs')), H3 by lia. apply zslice_drop. lia.
  - rstep. eapply runs_lift; [apply vec_storage_shared|]. rewrite vec_word_offset.
    pose proof Hh as (Hh1 & Hh2 & _).
    destruct (inv_block _ _ _ _ _ HI Hl) as ((?&?&?&?&?&?&_) & _).
    rstep. eapply runs_lift; [apply checked_add_ok; unfold u64_modulus; slia|].
    apply runs_bind. unfold vec_ptr_add. rstep. rstep. unfold METADATA_SIZE in *. zbool. cbn [andb]. rsteps.
    rewrite vec_word_eq. pose proof (vec_holds_sub _ _ _ start (zlen bs' - start) Hh) as Hsub.
    rewrite zslice_drop in Hsub by lia. specialize (Hsub ltac:(lia) ltac:(lia) ltac:(lia)).
    pose proof (rep_vec m l _ sv _ inl Hl Hsub) as Hrep.
    replace (zlen (zdrop start bs')) with (zlen bs' - start) in Hrep by zlia.
    eapply Inv_narrow; [done|exact Hrep| | | |cbn; lia].
    + by rewrite !vec_storage_vec_of.
    + apply (vec_of_arc_of _ l), vec_storage_vec_of.
    + apply (vec_of_arc_of _ l), vec_storage_vec_of.
  - rstep. unfold storage_capacity. kinds. rstep. rstep. apply runs_assert; [unfold st_ext_len; cbn; by zbool|].
    rstep. eapply runs_eq; [by apply storage_as_ref_rep, (rep_arc _ _ n)|].
    apply copy_replace_spec; [done|]. unfold fits_u32 in *. zlia.
Qed.

(** [Storage::set_end]. *)
Lemma storage_set_end_spec m s hs bs n :
  Inv m (HB s :: hs) -> rep_storage m s bs -> 0 <= n <= zlen bs -> fits_u32 (zlen bs) ->
  runs (storage_set_end s n) m (bytes_post m hs (ztake n bs)).
Proof.
  intros HI Hr Hs Hfit. unfold storage_set_end. assert (zlen (ztake n bs) = n) as Hzn by zlia.
  revert HI Hs Hfit Hzn.
  destruct Hr as [bs' pad p k Hc Hp|d pos bs' inl H1 H2 H3|l addr sv bs' inl Hl Hh|a k d inl Ha];
    intros HI Hs Hfit Hzn; kinds.
  - assert (0 <= zlen bs' <= INLINE_CAP) as Hlen by zlia. rstep. apply runs_assert; [by zbool|].
    unfold inline_len. cbn [st_offset]. destruct (inline_word_facts (zlen bs')) as (-> & _); [done|].
    eapply runs_lift; [apply set_inline_len_ok; lia|]. rewrite Z.min_r by lia.
    destruct (inline_word_plain n p k (bs' ++ pad)), (inline_word_plain (zlen bs') p k (bs' ++ pad)).
    eapply Inv_narrow; [done| |congruence|done|done|done].
    pose proof (rep_inline m (ztake n bs') (zdrop n bs' ++ pad) p k) as Hr.
    rewrite app_assoc, ztake_zdrop, Hzn in Hr. apply Hr; [lia|done].
  - rstep. apply runs_assert; [by zbool|]. rstep.
    pose proof (rep_static m d pos (ztake n bs') inl) as Hr. rewrite Hzn in Hr.
    eapply Inv_narrow; [done|apply Hr|done..]; [lia|lia|].
    rewrite <- (Z.add_0_r pos), <- (zslice_zslice _ (zlen bs')), H3 by lia. apply zslice_take.
  - rstep. rewrite Z.min_r by lia.
    pose proof (vec_holds_sub _ _ _ 0 n Hh) as Hsub. rewrite Z.add_0_r, zslice_take in Hsub.
    specialize (Hsub ltac:(lia) ltac:(lia) ltac:(lia)).
    pose proof (rep_vec m l _ sv _ inl Hl Hsub) as Hrep. rewrite Hzn in Hrep.
    eapply Inv_narrow; [done|exact Hrep| | | |cbn; lia].
    + by rewrite !vec_storage_vec_of.
    + apply (vec_of_arc_of _ l), vec_storage_vec_of.
    + apply (vec_of_arc_of _ l), vec_storage_vec_of.
  - rstep. eapply runs_eq; [by apply storage_as_ref_rep, (rep_arc _ _ k)|].
    unfold storage_len. kinds. unfold st_ext_len. cbn [st_len]. rewrite Z.min_r by lia.
    apply copy_replace_spec; [done|]. unfold fits_u32 in *. lia.
Qed.

(** [shallow_clone] makes a second handle on the same bytes. *)
Lemma shallow_clone_spec m s hs bs :
  Inv m (HB s :: hs) -> rep_storage m s bs -> zlen (HB s :: hs) < u32_max ->
  runs (shallow_clone s) m (bytes_post m (HB s :: hs) bs).
Proof.
  intros HI Hr Hmax. unfold shallow_clone. pose proof Hr as Hr0. revert HI Hmax Hr0.
  destruct Hr as [bs' pad p k Hc Hp|d pos bs' inl H1 H2 H3|l addr sv bs' inl Hl Hh|a k d inl Ha];
    intros HI Hmax Hr0; kinds.
  - rstep. destruct (inline_word_plain (zlen bs') p k (bs' ++ pad)).
    apply bytes_post_refl; [|done]. by eapply Inv_add_plain.
  - rstep. apply bytes_post_refl; [|done]. by eapply Inv_add_plain.
  - pose proof (vec_storage_vec_of l addr (zlen bs') inl) as Hv.
    pose proof (ref_count_handles _ _ _ _ _ HI Hv Hl).
    rstep. eapply runs_lift; [apply vec_storage_shared|].
    rstep. eapply runs_eq; [apply (add_ref_eq _ _ sv); [done|lia]|]. rstep.
    apply (Inv_share m _ hs l sv _ bs'); try done; [lia|]. intros Hin.
    by eapply inv_disj; [..|left|].
  - rstep. rstep. rewrite Ha. rstep. rstep. rstep. set (s := mkStorage _ _ _ _) in *.
    assert (arc_of (HB s) = Some a) as Harc by done.
    assert (frame m (set_arcs (<[a := (k + 1, d)]> (arcs m)) m) (HB s :: hs)) as Hf.
    { apply frame_arcs. intros a' n' d' Ha' _. destruct (decide (a' = a)) as [->|Hne].
      - simplify_eq. eexists. apply lookup_insert_eq.
      - exists n'. by rewrite lookup_insert_ne. }
    split; [|split; [done|apply (Hf (HB s)); [left|done]]].
    apply (Inv_arcs m (HB s :: hs)); try done.
    + intros h Hin. assert (h ∈ HB s :: hs) as Hin' by (apply elem_of_cons in Hin as [->|]; [left|done]).
      destruct (inv_rep m h _ HI Hin') as [bs Hb]. exists bs. by apply Hf.
    + intros s' [->|]%elem_of_cons _; [left|done].
    + intros a' n' d' Ha'. split; cycle 1.
      { apply lookup_insert_Some in Ha' as [[<- _]|[_ Ha']]; by eapply inv_arc_next. }
      apply lookup_insert_Some in Ha' as [[<- [= <- <-]]|[Hne Ha']].
      * pose proof (inv_arc _ _ _ _ _ HI Ha) as Hn. rewrite arc_refs_cons, decide_True by done. lia.
      * pose proof (inv_arc _ _ _ _ _ HI Ha') as Hn. rewrite arc_refs_cons, decide_False by congruence. lia.
Qed.

(** The capacity check of [set_len] on a shared block is against the part of
    the block its [BytesMut] owns now. *)
Definition len_settable (m : Mem) (s : Storage) (n : Z) : Prop :=
  forall l, vec_of (HB s) = Some l -> n <= window m l.

Lemma set_len_is_set_end m s bs n :
  rep_storage m s bs -> kind s <> KIND_STEXT -> 0 <= n <= zlen bs -> len_settable m s n ->
  storage_set_len s n m = storage_set_end s n m.
Proof.
  intros Hr Hk Hs Hset. unfold storage_set_len, storage_set_end. revert Hk Hs Hset.
  destruct Hr as [bs' pad p k Hc Hp|d pos bs' inl H1 H2 H3|l addr sv bs' inl Hl Hh|a k d inl Ha];
    intros Hk Hs Hset; kinds.
  - assert (0 <= zlen bs' <= INLINE_CAP) as Hlen by zlia.
    unfold inline_len. cbn [st_offset]. destruct (inline_word_facts (zlen bs')) as (-> & _); [done|].
    rewrite Z.min_r by lia. unfold mbind, M_bind, assertS. by zbool.
  - done.
  - specialize (Hset l (vec_storage_vec_of _ _ _ _)). unfold window in Hset. rewrite Hl in Hset.
    rewrite Z.min_r by lia. unfold storage_capacity. kinds. unfold mbind, M_bind, liftS.
    rewrite vec_storage_shared. unfold sv_cap, mbind, M_bind, deref. rewrite Hl.
    unfold mret, M_ret, assertS. by zbool.
  - done.
Qed.

Lemma storage_set_len_spec m s hs bs n :
  Inv m (HB s :: hs) -> rep_storage m s bs -> 0 <= n <= zlen bs -> fits_u32 (zlen bs) ->
  len_settable m s n ->
  runs (storage_set_len s n) m (bytes_post m hs (ztake n bs)).
Proof.
  intros HI Hr Hs Hfit Hset. destruct (Z.eq_dec (kind s) KIND_STEXT) as [Hk|Hk].
  - unfold storage_set_len. rewrite Hk. cbn [Z.eqb]. kinds.
    change (KIND_STEXT =? KIND_VEC) with false. cbn iota.
    rewrite (rep_storage_len _ _ _ Hr). destruct (Z.eqb_spec n (zlen bs)) as [->|Hne]; cbn [negb].
    + rstep. rewrite ztake_all by lia. by apply bytes_post_refl.
    + rstep. unfold storage_capacity. rewrite Hk. kinds. rstep. rstep.
      assert (st_ext_len s = zlen bs) as ->.
      { pose proof (rep_storage_len _ _ _ Hr) as Hl. unfold storage_len in Hl. by rewrite Hk in Hl. }
      apply runs_assert; [by zbool|]. rstep. eapply runs_eq; [by apply storage_as_ref_rep|].
      rstep. apply runs_assert; [by zbool|]. apply copy_replace_spec; [done|]. unfold fits_u32 in *. zlia.
  - destruct (storage_set_end_spec m s hs bs n HI Hr Hs Hfit) as (s' & m' & Hc & Hp).
    eapply runs_eq; [|done]. by rewrite (set_len_is_set_end m s bs n).
Qed.

Lemma storage_get_u8_spec m s hs b bs :
  Inv m (HB s :: hs) -> rep_storage m s (b :: bs) -> fits_u32 (zlen (b :: bs)) ->
  runs (storage_get_u8 s) m (fun r m' => r.1 = b /\ bytes_post m hs bs r.2 m').
Proof.
  intros HI Hr Hfit. unfold storage_get_u8. rstep. rewrite (rep_storage_len _ _ _ Hr).
  rewrite zlen_cons in *. zlen_pos. apply runs_assert; [by zbool|]. rstep.
  eapply runs_eq; [apply (read_ptr_rep m s (b :: bs) 0 1); [done|lia|lia|zlia]|].
  change (zslice 0 1 (b :: bs)) with [b]. cbn iota. rstep.
  eapply runs_conseq; [apply (storage_set_start_spec m s hs (b :: bs) 1); [done..|zlia|by rewrite zlen_cons]|].
  intros s' m' Hp. rstep. done.
Qed.

Lemma storage_split_to_spec m s hs bs n :
  Inv m (HB s :: hs) -> rep_storage m s bs -> 0 <= n <= zlen bs -> fits_u32 (zlen bs) ->
  zlen (HB s :: hs) < u32_max ->
  runs (storage_split_to s n) m (fun r m' =>
    Inv m' (HB r.1 :: HB r.2 :: hs) /\ frame m m' hs /\
    rep_storage m' r.1 (ztake n bs) /\ rep_storage m' r.2 (zdrop n bs)).
Proof.
  intros HI Hr Hn Hfit Hmax. unfold storage_split_to. apply runs_bind.
  eapply (runs_conseq _ _ (bytes_post m (HB s :: hs) (ztake n bs))).
  - destruct (Z.leb_spec n INLINE_CAP) as [Hle|Hgt].
    + rstep. eapply runs_eq; [apply (read_ptr_rep m s bs 0 n); [done|lia..]|]. rewrite zslice_take.
      eapply runs_conseq; [apply (runs_inline m (HB s :: hs)); [done|zlia]|].
      intros s' m' (-> & _ & Hr' & HI'). by apply bytes_post_refl.
    + rstep. eapply runs_conseq; [by apply shallow_clone_spec|].
      intros s' m' (HI' & Hf & Hr').
      eapply runs_conseq; [by apply (storage_set_end_spec m' s' (HB s :: hs) bs n)|].
      intros s'' m'' Hp. by eapply bytes_post_trans.
  - intros other m' (HI' & Hf & Hr'). apply frame_cons in Hf as [Hfs Hf].
    rewrite (Permutation_swap (HB s) (HB other) hs) in HI'. apply runs_bind.
    eapply runs_conseq; [apply (storage_set_start_spec m' s (HB other :: hs) bs n); [done|by apply Hfs|done..]|].
    intros s' m'' (HI'' & Hf' & Hr''). rstep. apply frame_cons in Hf' as [Hfo Hf'].
    rewrite (Permutation_swap (HB other) (HB s') hs) in HI''.
    split; [done|]. split; [by eapply frame_trans|]. split; [by apply Hfo|done].
Qed.

Lemma storage_split_off_spec m s hs bs n inl :
  Inv m (HB s :: hs) -> rep_storage m s bs -> 0 <= n <= zlen bs -> fits_u32 (zlen bs) ->
  zlen (HB s :: hs) < u32_max ->
  runs (storage_split_off s n inl) m (fun r m' =>
    Inv m' (HB r.1 :: HB r.2 :: hs) /\ frame m m' hs /\
    rep_storage m' r.1 (zdrop n bs) /\ rep_storage m' r.2 (ztake n bs)).
Proof.
  intros HI Hr Hn Hfit Hmax. unfold storage_split_off. rewrite (rep_storage_len _ _ _ Hr).
  apply runs_bind. eapply (runs_eq _ _ (inl && (zlen bs - n <=? INLINE_CAP))).
  { destruct inl; [|done]. unfold mbind, M_bind, liftS. by rewrite checked_sub_ok by lia. }
  apply runs_bind. eapply (runs_conseq _ _ (bytes_post m (HB s :: hs) (zdrop n bs))).
  - destruct (inl && _) eqn:Hc.
    + apply andb_true_iff in Hc as [_ Hle%Z.leb_le].
      rstep. eapply runs_eq; [apply (read_ptr_rep m s bs); [done|lia..]|]. rewrite zslice_drop by lia.
      eapply runs_conseq; [apply (runs_inline m (HB s :: hs)); [done|zlia]|].
      intros s' m' (-> & _ & Hr' & HI'). by apply bytes_post_refl.
    + rstep. eapply runs_conseq; [by apply shallow_clone_spec|].
      intros s' m' (HI' & Hf & Hr').
      eapply runs_conseq; [by apply (storage_set_start_spec m' s' (HB s :: hs) bs n)|].
      intros s'' m'' Hp. by eapply bytes_post_trans.
  - intros other m' (HI' & Hf & Hr'). apply frame_cons in Hf as [Hfs Hf]. specialize (Hfs bs Hr).
    rewrite (Permutation_swap (HB s) (HB other) hs) in HI'. apply runs_bind.
    eapply (runs_conseq _ _ (bytes_post m' (HB other :: hs) (ztake n bs))).
    + destruct (inl && _) eqn:Hc.
      * apply andb_true_iff in Hc as [_ Hle%Z.leb_le].
        rstep. eapply runs_eq; [apply (read_ptr_rep m' s bs 0 n); [done|lia..]|]. rewrite zslice_take.
        apply inline_replace_spec; [done|zlia].
      * by apply storage_set_end_spec.
    + intros s' m'' (HI'' & Hf' & Hr''). rstep. apply frame_cons in Hf' as [Hfo Hf'].
      rewrite (Permutation_swap (HB other) (HB s') hs) in HI''.
      split; [done|]. split; [by eapply frame_trans|]. split; [by apply Hfo|done].
Qed.

(** [Storage::truncate] returns when the length fits the capacity check. *)
Lemma storage_truncate_spec m s hs bs n :
  Inv m (HB s :: hs) -> rep_storage m s bs -> 0 <= n -> fits_u32 (zlen bs) ->
  (INLINE_CAP <= n <= zlen bs -> len_settable m s n) ->
  runs (storage_truncate s n) m (bytes_post m hs (ztake n bs)).
Proof.
  intros HI Hr Hn Hfit Hset. unfold storage_truncate. rewrite (rep_storage_len _ _ _ Hr).
  destruct (Z.leb_spec n (zlen bs)).
  - destruct (Z.ltb_spec n INLINE_CAP).
    + rstep. eapply runs_eq; [apply (read_ptr_rep m s bs 0 n); [done|lia..]|]. rewrite zslice_take.
      apply inline_replace_spec; [done|zlia].
    + apply storage_set_len_spec; [done..|lia|done|]. apply Hset. lia.
  - rstep. rewrite ztake_all by lia. by apply bytes_post_refl.
Qed.

Lemma storage_trimdown_spec m s hs bs :
  Inv m (HB s :: hs) -> rep_storage m s bs -> fits_u32 (zlen bs) ->
  (INLINE_CAP < zlen bs -> len_settable m s (zlen bs)) ->
  runs (storage_trimdown s) m (bytes_post m hs bs).
Proof.
  intros HI Hr Hfit Hset. unfold storage_trimdown. rewrite (rep_storage_len _ _ _ Hr).
  destruct (negb _) eqn:Hk; [|rstep; by apply bytes_post_refl].
  destruct (Z.leb_spec (zlen bs) INLINE_CAP).
  - rstep. eapply runs_eq; [apply (read_ptr_rep m s bs 0 (zlen bs)); [done|zlia..]|]. rewrite zslice_full.
    by apply inline_replace_spec.
  - assert (exists cap, storage_capacity s m = Done (cap, m) /\ zlen bs <= cap) as (cap & Hcap & Hle).
    { specialize (Hset ltac:(lia)). unfold storage_capacity. clear Hk. revert Hset.
      destruct Hr as [bs' pad p k Hc Hp|d pos bs' inl H1 H2 H3|l addr sv bs' inl Hl Hh|a k d inl Ha];
        intros Hset; kinds.
      - eexists. split; [done|]. done.
      - eexists. split; [done|]. done.
      - specialize (Hset l (vec_storage_vec_of _ _ _ _)). unfold window in Hset. rewrite Hl in Hset.
        exists (sv_capacity sv). split; [|done]. unfold mbind, M_bind, liftS. rewrite vec_storage_shared.
        unfold sv_cap, mbind, M_bind, deref. by rewrite Hl.
      - eexists. split; [done|]. done. }
    rstep. eapply runs_eq; [done|]. rstep. eapply runs_lift; [by apply checked_sub_ok|].
    destruct (64 <=? _).
    + rstep. eapply runs_eq; [by apply storage_as_ref_rep|]. apply runs_bind.
      eapply runs_conseq; [by apply (from_slice_with_capacity_spec m (HB s :: hs))|].
      intros s' m' (HI' & Hf & Hr'). apply frame_cons in Hf as [_ Hf].
      eapply runs_conseq; [by apply (storage_replace_spec m' s s' hs bs)|].
      intros r m'' (-> & HI'' & Hf' & Hr''). split; [done|]. split; [by eapply frame_trans|done].
    + rstep. by apply bytes_post_refl.
Qed.

Lemma len_settable_dec m s n :
  len_settable m s n \/ exists l, vec_of (HB s) = Some l /\ window m l < n.
Proof.
  unfold len_settable. destruct (vec_of (HB s)) as [l|]; [|by left].
  destruct (Z.le_gt_cases n (window m l)); [left; congruence|right; eauto].
Qed.

(** The capacity check refuses. *)
Lemma storage_capacity_vec m s bs l :
  rep_storage m s bs -> vec_of (HB s) = Some l ->
  kind s = KIND_VEC /\ storage_capacity s m = Done (window m l, m).
Proof.
  intros Hr Hv. destruct (rep_vec_inv _ _ _ _ Hr Hv) as (addr & sv & inl & -> & Hl & Hh).
  split; [unfold kind; cbn; apply vec_word_kind|]. unfold storage_capacity. kinds.
  unfold mbind, M_bind, liftS. rewrite vec_storage_shared. unfold sv_cap, mbind, M_bind, deref, window.
  by rewrite Hl.
Qed.

Lemma storage_truncate_refused m s bs l n :
  rep_storage m s bs -> vec_of (HB s) = Some l -> INLINE_CAP <= n <= zlen bs -> window m l < n ->
  storage_truncate s n m = Fault Panic.
Proof.
  intros Hr Hv Hn Hw. destruct (storage_capacity_vec _ _ _ _ Hr Hv) as [Hk Hc].
  unfold storage_truncate. rewrite (rep_storage_len _ _ _ Hr). zbool.
  unfold storage_set_len. rewrite Hk. kinds. unfold mbind, M_bind. rewrite Hc. unfold assertS. by zbool.
Qed.

Lemma storage_trimdown_refused m s bs l :
  rep_storage m s bs -> vec_of (HB s) = Some l -> INLINE_CAP < zlen bs -> window m l < zlen bs ->
  storage_trimdown s m = Fault Panic.
Proof.
  intros Hr Hv Hn Hw. destruct (storage_capacity_vec _ _ _ _ Hr Hv) as [Hk Hc].
  unfold storage_trimdown. rewrite (rep_storage_len _ _ _ Hr), Hk. kinds. zbool.
  unfold mbind, M_bind. rewrite Hc. unfold liftS, checked_sub. by zbool.
Qed.

(** A fresh [Arc<str>] handed over to a [Bytes]. *)
Lemma Inv_arc_new m hs d :
  Inv m hs ->
  let a := next_loc m in
  let m' := mkMem (blocks m) (<[a := (1, d)]> (arcs m)) (S a) (cache_size m) (cache m) in
  bytes_post m hs d (storage_from_arc a (zlen d)) m'.
Proof.
  intros HI a m'. set (s := storage_from_arc a (zlen d)).
  assert (arcs m !! a = None) as Hnone.
  { destruct (arcs m !! a) as [[n d']|] eqn:Ha; [|done].
    pose proof (inv_arc_next _ _ _ _ _ HI Ha). unfold a in *. lia. }
  assert (frame m m' (hs ++ (HM <$> concat (cache m)))) as Hf.
  { intros [s'|l] bs Hin Hr; [|done]. destruct Hr as [| |l addr sv bs inl Hl Hh|a' n d' inl Ha'];
      [by constructor..|by econstructor|]. apply (rep_arc _ _ n). cbn. rewrite lookup_insert_ne; congruence. }
  assert (arc_refs a hs = 0) as Hz.
  { unfold arc_refs. destruct (filter _ hs) as [|h hx] eqn:Hfil; [done|].
    assert (h ∈ filter (fun h => arc_of h = Some a) hs) as [Hv Hin]%list_elem_of_filter by (rewrite Hfil; left).
    destruct (inv_rep _ _ _ HI Hin) as [bs Hr]. destruct h as [s'|]; [|done]. cbn in Hr.
    destruct Hr as [bs' pad p k ? ?|d' pos bs' inl ? ? ?|l addr sv bs' inl Hl Hh|a' k d' inl Ha'];
      cbn in Hv; unfold kind in Hv; cbn in Hv; rewrite ?inline_word_kind, ?vec_word_kind in Hv; try done.
    injection Hv as ->. congruence. }
  assert (rep_storage m' s d) as Hr by (apply (rep_arc _ _ 1); apply lookup_insert_eq).
  assert (arc_of (HB s) = Some a) as Harc by done.
  destruct HI as [[Hb Hrep Hd Hu Ha] Hlen Hc].
  split; [split; [split|done..]|split; [by apply frame_app in Hf as [? _]|done]].
  - intros l sv Hl. cbn [app]. rewrite refs_cons, decide_False by done.
    destruct (Hb l sv Hl) as (?&?&?&?). cbn. repeat (split; [done|]). lia.
  - intros h [->|Hin]%elem_of_cons; [by exists d|]. destruct (Hrep h Hin) as [bs ?]. exists bs. by apply Hf.
  - intros l sv s' Hl [|Hm]%elem_of_cons [[= ->]|Hs]%elem_of_cons Hv; try done. by eapply Hd.
  - done.
  - intros a' n d' Ha'. cbn [app]. rewrite arc_refs_cons. cbn in Ha'.
    apply lookup_insert_Some in Ha' as [[<- [= <- <-]]|[Hne Ha']].
    + rewrite decide_True, arc_refs_app, arc_refs_cached, Hz by done. cbn. split; [done|lia].
    + rewrite decide_False by congruence. destruct (Ha a' n d' Ha'). cbn. split; [done|lia].
Qed.
