(* ===== verification/Bytes.v ===== *)
(** * [bytes::Bytes] and [bytes::BytesMut]

    The public operations of geario/src/bytes/bytes.rs and bvec.rs over the
    store of [Storage.v].  A [Bytes] is its [Storage], a [BytesMut] the
    location of its block; an operation that takes [&mut self] returns the
    new value of the handle with its result. *)
From Stdlib Require Import ZArith Lia.
From stdpp Require Import base numbers gmap list.
From S2P Require Import Prelude Storage.

Abbreviation Bytes := Storage (only parsing).
Abbreviation BytesMut := loc (only parsing).

(** ** [Bytes] *)

Definition bytes_new : Bytes := storage_empty.
Definition bytes_from_static (bs : list byte) : Bytes := storage_from_static bs.
Definition bytes_len (b : Bytes) : Z := storage_len b.
Definition bytes_is_empty (b : Bytes) : bool := bytes_len b =? 0.
Definition bytes_is_inline (b : Bytes) : bool := kind b =? KIND_INLINE.
Definition bytes_copy_from_slice (data : list byte) : M Mem Bytes := storage_from_slice data.

(** [Arc::<str>::from] and [Bytes::from_ext], which takes over the reference. *)
Definition arc_new (d : list byte) : M Mem loc :=
  m ← getS;
  let a := next_loc m in
  putS (mkMem (blocks m) (<[a := (1, d)]> (arcs m)) (S a) (cache_size m) (cache m));;
  mret a.
Definition bytes_from_ext (a : loc) (len : Z) : Bytes := storage_from_arc a len.

(** [std::ops::Bound]. *)
Inductive Bound := Included (n : Z) | Excluded (n : Z) | Unbounded.

(** [impl Clone for Storage]: [shallow_clone]. *)
Definition bytes_clone (b : Bytes) : M Mem Bytes := shallow_clone b.

Definition bytes_slice_checked (b : Bytes) (start_bound end_bound : Bound) : M Mem (option Bytes) :=
  let len := bytes_len b in
  begin ← match start_bound with
          | Included n => mret n
          | Excluded n => liftS (checked_add u64_modulus n 1)
          | Unbounded => mret 0
          end;
  end_ ← match end_bound with
         | Included n => liftS (checked_add u64_modulus n 1)
         | Excluded n => mret n
         | Unbounded => mret len
         end;
  if (begin <=? end_) && (end_ <=? len) then
    if end_ - begin <=? INLINE_CAP then
      bs ← storage_as_ref b;
      ret ← storage_from_slice (zslice begin (end_ - begin) bs);
      mret (Some ret)
    else
      ret ← bytes_clone b;
      ret ← storage_set_end ret end_;
      ret ← storage_set_start ret begin;
      mret (Some ret)
  else mret None.

Definition bytes_slice (b : Bytes) (start_bound end_bound : Bound) : M Mem Bytes :=
  r ← bytes_slice_checked b start_bound end_bound;
  match r with Some ret => mret ret | None => failS Panic end.

(** The result and the new [self]; [mem::take] leaves [Bytes::new()]. *)
Definition bytes_split_off_checked (b : Bytes) (at_ : Z) : M Mem (option Bytes * Bytes) :=
  if at_ <=? bytes_len b then
    if at_ =? bytes_len b then mret (Some bytes_new, b)
    else if at_ =? 0 then mret (Some b, bytes_new)
    else '(other, b') ← storage_split_off b at_ true; mret (Some other, b')
  else mret (None, b).

Definition bytes_split_off (b : Bytes) (at_ : Z) : M Mem (Bytes * Bytes) :=
  '(r, b') ← bytes_split_off_checked b at_;
  match r with Some ret => mret (ret, b') | None => failS Panic end.

Definition bytes_split_to_checked (b : Bytes) (at_ : Z) : M Mem (option Bytes * Bytes) :=
  if at_ <=? bytes_len b then
    if at_ =? bytes_len b then mret (Some b, bytes_new)
    else if at_ =? 0 then mret (Some bytes_new, b)
    else '(other, b') ← storage_split_to b at_; mret (Some other, b')
  else mret (None, b).

Definition bytes_split_to (b : Bytes) (at_ : Z) : M Mem (Bytes * Bytes) :=
  '(r, b') ← bytes_split_to_checked b at_;
  match r with Some ret => mret (ret, b') | None => failS Panic end.

Definition bytes_advance_to (b : Bytes) (cnt : Z) : M Mem Bytes := storage_set_start b cnt.
Definition bytes_truncate (b : Bytes) (len : Z) : M Mem Bytes := storage_truncate b len.
Definition bytes_trimdown (b : Bytes) : M Mem Bytes := storage_trimdown b.
Definition bytes_clear (b : Bytes) : M Mem Bytes := storage_replace b storage_empty.
Definition bytes_get_u8 (b : Bytes) : M Mem (byte * Bytes) := storage_get_u8 b.
Definition bytes_drop (b : Bytes) : M Mem () := storage_drop b.

(** [io::Read::read] into a buffer of [dst_len] bytes: the bytes copied. *)
Definition bytes_read (b : Bytes) (dst_len : Z) : M Mem (list byte * Bytes) :=
  let len := Z.min (bytes_len b) dst_len in
  if 0 <? len then
    bs ← storage_as_ref b;
    b' ← bytes_advance_to b len;
    mret (ztake len bs, b')
  else mret ([], b).

(** [a == b] and [a.cmp(b)] on the contents. *)
Definition bytes_eq (a b : Bytes) : M Mem bool :=
  x ← storage_as_ref a; y ← storage_as_ref b; mret (bool_decide (x = y)).

Fixpoint slice_cmp (x y : list byte) : comparison :=
  match x, y with
  | [], [] => Eq
  | [], _ :: _ => Lt
  | _ :: _, [] => Gt
  | a :: x, b :: y => match a ?= b with Eq => slice_cmp x y | c => c end
  end.
Definition bytes_cmp (a b : Bytes) : M Mem comparison :=
  x ← storage_as_ref a; y ← storage_as_ref b; mret (slice_cmp x y).

(** ** [BytesMut] *)

Definition bm_with_capacity (capacity : Z) : M Mem BytesMut := sv_with_capacity capacity.
Definition bm_copy_from_slice (src : list byte) : M Mem BytesMut := sv_from_slice (zlen src) src.
Definition bm_new : M Mem BytesMut := sv_with_capacity MIN_CAPACITY.
Definition bm_len (l : BytesMut) : M Mem Z := sv_length l.
Definition bm_capacity (l : BytesMut) : M Mem Z := sv_cap l.
Definition bm_freeze (l : BytesMut) : M Mem Bytes := sv_freeze l.
Definition bm_take (l : BytesMut) : M Mem Bytes := len ← bm_len l; sv_split_to l len.

Definition bm_split_to_checked (l : BytesMut) (at_ : Z) : M Mem (option Bytes) :=
  len ← bm_len l;
  if at_ <=? len then b ← sv_split_to l at_; mret (Some b) else mret None.

Definition bm_split_to (l : BytesMut) (at_ : Z) : M Mem Bytes :=
  r ← bm_split_to_checked l at_;
  match r with Some ret => mret ret | None => failS Panic end.

Definition bm_advance_to (l : BytesMut) (cnt : Z) : M Mem () := sv_set_start l (as_u32 cnt).
Definition bm_truncate (l : BytesMut) (len : Z) : M Mem () := sv_truncate l len.
Definition bm_clear (l : BytesMut) : M Mem () := bm_truncate l 0.
Definition bm_resize (l : BytesMut) (new_len : Z) (value : byte) : M Mem BytesMut :=
  sv_resize l new_len value.
Definition bm_set_len (l : BytesMut) (len : Z) : M Mem () := sv_set_len l len.
Definition bm_reserve (l : BytesMut) (additional : Z) : M Mem BytesMut := sv_reserve l additional.
Definition bm_reserve_capacity (l : BytesMut) (cap : Z) : M Mem BytesMut := sv_reserve_capacity l cap.
Definition bm_drop (l : BytesMut) : M Mem () := release_shared_vec l.
Definition bm_chunk (l : BytesMut) : M Mem (list byte) := sv_as_ref l.
Definition bm_remaining_mut (l : BytesMut) : M Mem Z := sv_remain l.

Definition bm_advance_mut (l : BytesMut) (cnt : Z) : M Mem () :=
  len ← bm_len l;
  n ← liftS (checked_add u64_modulus len cnt);
  sv_set_len l n.

(** The address [chunk_mut] points to. *)
Definition bm_chunk_mut (l : BytesMut) : M Mem Z :=
  sv ← deref l; mret (sv_offset sv + sv_len sv).

Definition bm_put_slice (l : BytesMut) (src : list byte) : M Mem BytesMut :=
  let len := zlen src in
  l ← bm_reserve l len;
  dst ← bm_chunk_mut l;
  write_bytes l dst src;;
  bm_advance_mut l len;;
  mret l.

Definition bm_extend_from_slice (l : BytesMut) (extend : list byte) : M Mem BytesMut :=
  bm_put_slice l extend.

Definition bm_put_u8 (l : BytesMut) (n : byte) : M Mem BytesMut :=
  l ← bm_reserve l 1;
  sv_put_u8 l n;;
  mret l.

(** [self[i] = b] through [DerefMut]. *)
Definition bm_set_index (l : BytesMut) (i : Z) (b : byte) : M Mem () := sv_set_index l i b.

Definition bm_read (l : BytesMut) (dst_len : Z) : M Mem (list byte) :=
  n ← bm_len l;
  let len := Z.min n dst_len in
  if 0 <? len then
    bs ← sv_as_ref l;
    bm_advance_to l len;;
    mret (ztake len bs)
  else mret [].

(** [Clone]: a copy in a block of its own. *)
Definition bm_clone (l : BytesMut) : M Mem BytesMut := bs ← sv_as_ref l; bm_copy_from_slice bs.

Definition bm_from_bytes (b : Bytes) : M Mem BytesMut :=
  bs ← storage_as_ref b; l ← bm_copy_from_slice bs; bytes_drop b;; mret l.

Fixpoint bm_put_all (l : BytesMut) (items : list byte) : M Mem BytesMut :=
  match items with
  | [] => mret l
  | i :: items => l ← bm_reserve l 1; l ← bm_put_u8 l i; bm_put_all l items
  end.

(** [FromIterator]: the iterator's size hint and its items. *)
Definition bm_from_iter (min : Z) (maybe_max : option Z) (items : list byte) : M Mem BytesMut :=
  out ← bm_with_capacity (match maybe_max with Some n => n | None => min end);
  bm_put_all out items.

Fixpoint bm_extend_loop (l : BytesMut) (lower idx : Z) (items : list byte) : M Mem BytesMut :=
  match items with
  | [] => mret l
  | b :: items =>
      l ← (if lower <=? idx then bm_reserve l 1 else mret l);
      l ← bm_put_u8 l b;
      bm_extend_loop l lower (idx + 1) items
  end.

Definition bm_extend (l : BytesMut) (lower : Z) (items : list byte) : M Mem BytesMut :=
  l ← bm_reserve l lower; bm_extend_loop l lower 0 items.

Definition bytes_from_iter (min : Z) (maybe_max : option Z) (items : list byte) : M Mem Bytes :=
  l ← bm_from_iter min maybe_max items; bm_freeze l.
