(* ===== verification/BytesRefine.v ===== *)
(** * [Bytes] and [BytesMut] have value semantics

    Programs over any number of buffers, as sequences of the public
    operations of [Bytes.v].  The specification [spec] runs them on a list of
    independent byte strings; the theorems show that the implementation, with
    its shared blocks, reference counts, inline buffers and page cache, cannot
    be told apart from it and never has undefined behaviour. *)
From Stdlib Require Import ZArith Lia.
From stdpp Require Import base numbers gmap list.
From S2P Require Import Prelude Storage StorageInv StorageOps StorageView Bytes.

(** ** Programs *)

(** Buffers are named by their position; an operation that makes a buffer
    puts it in front. *)
Inductive op :=
| New | FromStatic (bs : list byte) | CopyFromSlice (bs : list byte) | FromArc (bs : list byte)
| Clone (i : nat) | Slice (i : nat) (lo hi : Bound)
| SplitOff (i : nat) (n : Z) | SplitTo (i : nat) (n : Z)
| AdvanceTo (i : nat) (n : Z) | Truncate (i : nat) (n : Z) | Trimdown (i : nat) | Clear (i : nat)
| GetU8 (i : nat) | Read (i : nat) (n : Z) | AsRef (i : nat) | Drop (i : nat)
| MNew | MSized (size : BytePageSize) | MWithCapacity (n : Z) | MCopyFromSlice (bs : list byte)
| Freeze (i : nat) | Take (i : nat) | MSplitTo (i : nat) (n : Z) | MAdvanceTo (i : nat) (n : Z)
| MTruncate (i : nat) (n : Z) | Resize (i : nat) (n : Z) (v : byte)
| Reserve (i : nat) (n : Z) | ReserveCapacity (i : nat) (n : Z)
| PutSlice (i : nat) (bs : list byte) | PutU8 (i : nat) (b : byte)
| SetIndex (i : nat) (k : Z) (b : byte) | MRead (i : nat) (n : Z)
| MClone (i : nat) | FromBytes (i : nat) | MAsRef (i : nat) | MDrop (i : nat).

(** What the program observes of an operation. *)
Inductive obs := ONothing | OBytes (bs : list byte) | OMissing.

Definition with_bytes {A} (i : nat) (hs : list handle) (k : Bytes -> list handle -> M Mem A) : M Mem A :=
  match hs !! i with Some (HB s) => k s (delete i hs) | _ => failS Undefined end.
Definition with_mut {A} (i : nat) (hs : list handle) (k : BytesMut -> list handle -> M Mem A) : M Mem A :=
  match hs !! i with Some (HM l) => k l (delete i hs) | _ => failS Undefined end.

(** One operation of the implementation on the live handles [hs]. *)
Definition exec (o : op) (hs : list handle) : M Mem (obs * list handle) :=
  match o with
  | New => mret (ONothing, HB bytes_new :: hs)
  | FromStatic bs => mret (ONothing, HB (bytes_from_static bs) :: hs)
  | CopyFromSlice bs => s ← bytes_copy_from_slice bs; mret (ONothing, HB s :: hs)
  | FromArc bs => a ← arc_new bs; mret (ONothing, HB (bytes_from_ext a (zlen bs)) :: hs)
  | Clone i => with_bytes i hs (fun s r => s' ← bytes_clone s; mret (ONothing, HB s' :: HB s :: r))
  | Slice i lo hi => with_bytes i hs (fun s r =>
      x ← bytes_slice_checked s lo hi;
      match x with
      | Some s' => mret (ONothing, HB s' :: HB s :: r)
      | None => mret (OMissing, HB s :: r)
      end)
  | SplitOff i n => with_bytes i hs (fun s r =>
      '(x, s) ← bytes_split_off s n; mret (ONothing, HB x :: HB s :: r))
  | SplitTo i n => with_bytes i hs (fun s r =>
      '(x, s) ← bytes_split_to s n; mret (ONothing, HB x :: HB s :: r))
  | AdvanceTo i n => with_bytes i hs (fun s r => s ← bytes_advance_to s n; mret (ONothing, HB s :: r))
  | Truncate i n => with_bytes i hs (fun s r => s ← bytes_truncate s n; mret (ONothing, HB s :: r))
  | Trimdown i => with_bytes i hs (fun s r => s ← bytes_trimdown s; mret (ONothing, HB s :: r))
  | Clear i => with_bytes i hs (fun s r => s ← bytes_clear s; mret (ONothing, HB s :: r))
  | GetU8 i => with_bytes i hs (fun s r => '(b, s) ← bytes_get_u8 s; mret (OBytes [b], HB s :: r))
  | Read i n => with_bytes i hs (fun s r => '(bs, s) ← bytes_read s n; mret (OBytes bs, HB s :: r))
  | AsRef i => with_bytes i hs (fun s r => bs ← storage_as_ref s; mret (OBytes bs, HB s :: r))
  | Drop i => with_bytes i hs (fun s r => bytes_drop s;; mret (ONothing, r))
  | MNew => l ← bm_new; mret (ONothing, HM l :: hs)
  | MSized size => l ← sv_sized size; mret (ONothing, HM l :: hs)
  | MWithCapacity n => l ← bm_with_capacity n; mret (ONothing, HM l :: hs)
  | MCopyFromSlice bs => l ← bm_copy_from_slice bs; mret (ONothing, HM l :: hs)
  | Freeze i => with_mut i hs (fun l r => s ← bm_freeze l; mret (ONothing, HB s :: r))
  | Take i => with_mut i hs (fun l r => s ← bm_take l; mret (ONothing, HB s :: HM l :: r))
  | MSplitTo i n => with_mut i hs (fun l r => s ← bm_split_to l n; mret (ONothing, HB s :: HM l :: r))
  | MAdvanceTo i n => with_mut i hs (fun l r => bm_advance_to l n;; mret (ONothing, HM l :: r))
  | MTruncate i n => with_mut i hs (fun l r => bm_truncate l n;; mret (ONothing, HM l :: r))
  | Resize i n v => with_mut i hs (fun l r => l ← bm_resize l n v; mret (ONothing, HM l :: r))
  | Reserve i n => with_mut i hs (fun l r => l ← bm_reserve l n; mret (ONothing, HM l :: r))
  | ReserveCapacity i n => with_mut i hs (fun l r => l ← bm_reserve_capacity l n; mret (ONothing, HM l :: r))
  | PutSlice i bs => with_mut i hs (fun l r => l ← bm_put_slice l bs; mret (ONothing, HM l :: r))
  | PutU8 i b => with_mut i hs (fun l r => l ← bm_put_u8 l b; mret (ONothing, HM l :: r))
  | SetIndex i k b => with_mut i hs (fun l r => bm_set_index l k b;; mret (ONothing, HM l :: r))
  | MRead i n => with_mut i hs (fun l r => bs ← bm_read l n; mret (OBytes bs, HM l :: r))
  | MClone i => with_mut i hs (fun l r => l' ← bm_clone l; mret (ONothing, HM l' :: HM l :: r))
  | FromBytes i => with_bytes i hs (fun s r => l ← bm_from_bytes s; mret (ONothing, HM l :: r))
  | MAsRef i => with_mut i hs (fun l r => bs ← bm_chunk l; mret (OBytes bs, HM l :: r))
  | MDrop i => with_mut i hs (fun l r => bm_drop l;; mret (ONothing, r))
  end.

(** ** The specification *)

Inductive val := VB (bs : list byte) | VM (bs : list byte).

Definition with_vb {A} (i : nat) (vs : list val) (k : list byte -> list val -> outcome A) : outcome A :=
  match vs !! i with Some (VB bs) => k bs (delete i vs) | _ => Fault Undefined end.
Definition with_vm {A} (i : nat) (vs : list val) (k : list byte -> list val -> outcome A) : outcome A :=
  match vs !! i with Some (VM bs) => k bs (delete i vs) | _ => Fault Undefined end.

Definition fitsb (n : Z) : bool := METADATA_SIZE + n <? u32_modulus.
Definition nat_size (n : Z) : bool := (0 <=? n) && (n <? u64_max).
Definition bound_ok (b : Bound) : bool :=
  match b with Included n | Excluded n => nat_size n | Unbounded => true end.
Definition bound_lo (b : Bound) : Z := match b with Included n => n | Excluded n => n + 1 | Unbounded => 0 end.
Definition bound_hi (len : Z) (b : Bound) : Z :=
  match b with Included n => n + 1 | Excluded n => n | Unbounded => len end.

(** The documented contract of an operation: its buffers are of the right kind,
    sizes are [usize] values, lengths fit the [u32] header fields, an advance
    does not go past the end and a reserved capacity is not below the length,
    and there are fewer live handles than a reference count can hold. *)
Definition on_vb (i : nat) (vs : list val) (p : list byte -> bool) : bool :=
  match vs !! i with Some (VB bs) => p bs | _ => false end.
Definition on_vm (i : nat) (vs : list val) (p : list byte -> bool) : bool :=
  match vs !! i with Some (VM bs) => p bs | _ => false end.
Definition contract (o : op) (vs : list val) : bool :=
  (zlen vs <? u32_max) &&
  match o with
  | New | MNew | MSized _ => true
  | FromStatic bs | CopyFromSlice bs | FromArc bs | MCopyFromSlice bs => fitsb (zlen bs)
  | MWithCapacity n => nat_size n && fitsb n
  | Clone i | Trimdown i | Clear i | GetU8 i | AsRef i | Drop i | FromBytes i => on_vb i vs (fun _ => true)
  | Slice i lo hi => on_vb i vs (fun _ => bound_ok lo && bound_ok hi)
  | SplitOff i n | SplitTo i n | Truncate i n | Read i n => on_vb i vs (fun _ => nat_size n)
  | AdvanceTo i n => on_vb i vs (fun bs => nat_size n && (n <=? zlen bs))
  | Freeze i | Take i | MClone i | MAsRef i | MDrop i => on_vm i vs (fun _ => true)
  | MSplitTo i n | MTruncate i n | SetIndex i n _ | MRead i n => on_vm i vs (fun _ => nat_size n)
  | MAdvanceTo i n => on_vm i vs (fun bs => nat_size n && (n <=? zlen bs))
  | Resize i n _ => on_vm i vs (fun _ => nat_size n && fitsb n)
  | Reserve i n => on_vm i vs (fun bs => nat_size n && fitsb (zlen bs + n))
  | ReserveCapacity i n => on_vm i vs (fun bs => nat_size n && fitsb n && (zlen bs <=? n))
  | PutSlice i src => on_vm i vs (fun bs => fitsb (zlen bs + zlen src))
  | PutU8 i _ => on_vm i vs (fun bs => fitsb (zlen bs + 1))
  end.

(** What an operation does to byte strings, within its contract; [Panic] where
    it is documented to panic. *)
Definition spec (o : op) (vs : list val) : outcome (obs * list val) :=
  match o with
  | New => Done (ONothing, VB [] :: vs)
  | FromStatic bs | CopyFromSlice bs | FromArc bs => Done (ONothing, VB bs :: vs)
  | Clone i => with_vb i vs (fun bs r => Done (ONothing, VB bs :: VB bs :: r))
  | Slice i lo hi => with_vb i vs (fun bs r =>
      let b := bound_lo lo in
      let e := bound_hi (zlen bs) hi in
      if (b <=? e) && (e <=? zlen bs) then Done (ONothing, VB (zslice b (e - b) bs) :: VB bs :: r)
      else Done (OMissing, VB bs :: r))
  | SplitOff i n => with_vb i vs (fun bs r =>
      if n <=? zlen bs then Done (ONothing, VB (zdrop n bs) :: VB (ztake n bs) :: r) else Fault Panic)
  | SplitTo i n => with_vb i vs (fun bs r =>
      if n <=? zlen bs then Done (ONothing, VB (ztake n bs) :: VB (zdrop n bs) :: r) else Fault Panic)
  | AdvanceTo i n => with_vb i vs (fun bs r => Done (ONothing, VB (zdrop n bs) :: r))
  | Truncate i n => with_vb i vs (fun bs r => Done (ONothing, VB (ztake n bs) :: r))
  | Trimdown i => with_vb i vs (fun bs r => Done (ONothing, VB bs :: r))
  | Clear i => with_vb i vs (fun bs r => Done (ONothing, VB [] :: r))
  | GetU8 i => with_vb i vs (fun bs r =>
      match bs with b :: bs => Done (OBytes [b], VB bs :: r) | [] => Fault Panic end)
  | Read i n => with_vb i vs (fun bs r => Done (OBytes (ztake n bs), VB (zdrop n bs) :: r))
  | AsRef i => with_vb i vs (fun bs r => Done (OBytes bs, VB bs :: r))
  | Drop i => with_vb i vs (fun bs r => Done (ONothing, r))
  | MNew => Done (ONothing, VM [] :: vs)
  | MSized size => if bool_decide (size = Unset) then Fault Panic else Done (ONothing, VM [] :: vs)
  | MWithCapacity n => Done (ONothing, VM [] :: vs)
  | MCopyFromSlice bs => Done (ONothing, VM bs :: vs)
  | Freeze i => with_vm i vs (fun bs r => Done (ONothing, VB bs :: r))
  | Take i => with_vm i vs (fun bs r => Done (ONothing, VB bs :: VM [] :: r))
  | MSplitTo i n => with_vm i vs (fun bs r =>
      if n <=? zlen bs then Done (ONothing, VB (ztake n bs) :: VM (zdrop n bs) :: r) else Fault Panic)
  | MAdvanceTo i n => with_vm i vs (fun bs r => Done (ONothing, VM (zdrop n bs) :: r))
  | MTruncate i n => with_vm i vs (fun bs r => Done (ONothing, VM (ztake n bs) :: r))
  | Resize i n v => with_vm i vs (fun bs r =>
      Done (ONothing, VM (ztake n bs ++ replicate (Z.to_nat (n - zlen bs)) v) :: r))
  | Reserve i n => with_vm i vs (fun bs r => Done (ONothing, VM bs :: r))
  | ReserveCapacity i n => with_vm i vs (fun bs r => Done (ONothing, VM bs :: r))
  | PutSlice i src => with_vm i vs (fun bs r => Done (ONothing, VM (bs ++ src) :: r))
  | PutU8 i b => with_vm i vs (fun bs r => Done (ONothing, VM (bs ++ [b]) :: r))
  | SetIndex i k b => with_vm i vs (fun bs r =>
      if k <? zlen bs then Done (ONothing, VM (ztake k bs ++ [b] ++ zdrop (k + 1) bs) :: r)
      else Fault Panic)
  | MRead i n => with_vm i vs (fun bs r => Done (OBytes (ztake n bs), VM (zdrop n bs) :: r))
  | MClone i => with_vm i vs (fun bs r => Done (ONothing, VM bs :: VM bs :: r))
  | FromBytes i => with_vb i vs (fun bs r => Done (ONothing, VM bs :: r))
  | MAsRef i => with_vm i vs (fun bs r => Done (OBytes bs, VM bs :: r))
  | MDrop i => with_vm i vs (fun bs r => Done (ONothing, r))
  end.

(** [Bytes::truncate] and [Bytes::trimdown] check a capacity where they keep
    more bytes than fit inline, and may refuse a length that is in order. *)
Definition may_refuse (o : op) (vs : list val) : bool :=
  match o with
  | Truncate i n => on_vb i vs (fun bs => (INLINE_CAP <=? n) && (n <=? zlen bs))
  | Trimdown i => on_vb i vs (fun bs => INLINE_CAP <? zlen bs)
  | _ => false
  end.

(** Running a sequence of operations. *)
Fixpoint exec_all (os : list op) (hs : list handle) : M Mem (list obs * list handle) :=
  match os with
  | [] => mret ([], hs)
  | o :: os => '(x, hs) ← exec o hs; '(xs, hs) ← exec_all os hs; mret (x :: xs, hs)
  end.
Fixpoint spec_all (os : list op) (vs : list val) : outcome (list obs * list val) :=
  match os with
  | [] => Done ([], vs)
  | o :: os => '(x, vs) ← spec o vs; '(xs, vs) ← spec_all os vs; Done (x :: xs, vs)
  end.

(** A program that stays within the contract, as far as it gets. *)
Fixpoint within (os : list op) (vs : list val) : bool :=
  match os with
  | [] => true
  | o :: os => contract o vs && match spec o vs with Done (_, vs') => within os vs' | Fault _ => true end
  end.
(** A [truncate] or [trimdown] of a program that may refuse a length. *)
Definition refusing (os : list op) (vs : list val) : Prop :=
  exists a o b xs ws, os = a ++ o :: b /\ spec_all a vs = Done (xs, ws) /\ may_refuse o ws = true.

(** ** The simulation relation *)

Definition view (m : Mem) (h : handle) (v : val) : Prop :=
  match h, v with
  | HB s, VB bs => rep_storage m s bs /\ fits_u32 (zlen bs)
  | HM l, VM bs => rep_handle m (HM l) bs /\ fits_u32 (zlen bs)
  | _, _ => False
  end.

Definition R (m : Mem) (hs : list handle) (vs : list val) : Prop := Inv m hs /\ Forall2 (view m) hs vs.

Lemma frame_views m m' hs vs : frame m m' hs -> Forall2 (view m) hs vs -> Forall2 (view m') hs vs.
Proof.
  intros Hf Hv. induction Hv as [|h v hs vs Hhv Hv IH]; [constructor|].
  apply frame_cons in Hf as [Hh Hf]. constructor; [|by apply IH].
  destruct h, v; cbn in *; try done; destruct Hhv; split; by auto.
Qed.

Lemma delete_Forall2 {A B} (P : A -> B -> Prop) i l k :
  Forall2 P l k -> Forall2 P (delete i l) (delete i k).
Proof. intros H. revert i. induction H; intros [|i]; cbn; try done; constructor; auto. Qed.

Lemma zlen_views m hs vs : Forall2 (view m) hs vs -> zlen hs = zlen vs.
Proof. intros H. unfold zlen. by rewrite (Forall2_length _ _ _ H). Qed.

Lemma pick_bytes m hs vs i bs :
  R m hs vs -> vs !! i = Some (VB bs) ->
  exists s, hs !! i = Some (HB s) /\ Inv m (HB s :: delete i hs) /\ rep_storage m s bs /\
    fits_u32 (zlen bs) /\ Forall2 (view m) (delete i hs) (delete i vs) /\
    zlen (HB s :: delete i hs) = zlen vs.
Proof.
  intros [HI Hv] Hi. destruct (Forall2_lookup_r _ _ _ _ _ Hv Hi) as ([s|] & Hh & Hs); [|done].
  pose proof (delete_Permutation _ _ _ Hh) as Hp. destruct Hs. exists s.
  split; [done|]. split; [by rewrite <- Hp|]. split; [done|]. split; [done|].
  split; [by apply delete_Forall2|]. rewrite <- (zlen_views _ _ _ Hv). unfold zlen. f_equal. symmetry. by apply Permutation_length.
Qed.

Lemma pick_mut m hs vs i bs :
  R m hs vs -> vs !! i = Some (VM bs) ->
  exists l, hs !! i = Some (HM l) /\ Inv m (HM l :: delete i hs) /\ rep_handle m (HM l) bs /\
    fits_u32 (zlen bs) /\ Forall2 (view m) (delete i hs) (delete i vs) /\
    zlen (HM l :: delete i hs) = zlen vs.
Proof.
  intros [HI Hv] Hi. destruct (Forall2_lookup_r _ _ _ _ _ Hv Hi) as ([|l] & Hh & Hs); [done|].
  pose proof (delete_Permutation _ _ _ Hh) as Hp. destruct Hs. exists l.
  split; [done|]. split; [by rewrite <- Hp|]. split; [done|]. split; [done|].
  split; [by apply delete_Forall2|]. rewrite <- (zlen_views _ _ _ Hv). unfold zlen. f_equal. symmetry. by apply Permutation_length.
Qed.

(** The results of the component's lemmas, as states of the simulation. *)
Lemma R_bytes m m' s bs hs vs :
  bytes_post m hs bs s m' -> Forall2 (view m) hs vs -> fits_u32 (zlen bs) -> R m' (HB s :: hs) (VB bs :: vs).
Proof. intros (HI & Hf & Hr) Hv Hfit. split; [done|]. constructor; [done|by eapply frame_views]. Qed.

Lemma R_mut m m' l bs hs vs :
  mut_post m hs l bs m' -> Forall2 (view m) hs vs -> fits_u32 (zlen bs) -> R m' (HM l :: hs) (VM bs :: vs).
Proof. intros (HI & Hf & Hr) Hv Hfit. split; [done|]. constructor; [done|by eapply frame_views]. Qed.

Lemma R_bytes2 m m' s s' bs bs' hs vs :
  Inv m' (HB s :: HB s' :: hs) -> frame m m' hs -> rep_storage m' s bs -> rep_storage m' s' bs' ->
  Forall2 (view m) hs vs -> fits_u32 (zlen bs) -> fits_u32 (zlen bs') ->
  R m' (HB s :: HB s' :: hs) (VB bs :: VB bs' :: vs).
Proof. intros HI Hf Hr Hr' Hv ??. split; [done|]. do 2 (constructor; [done|]). by eapply frame_views. Qed.

(** Within its contract an operation does what the specification says, or it
    refuses a length. *)
Definition refines (m : Mem) (hs : list handle) (o : op) (vs : list val) : Prop :=
  contract o vs = true ->
  match spec o vs with
  | Done (x, vs') =>
      runs (exec o hs) m (fun r m' => r.1 = x /\ R m' r.2 vs') \/
      (may_refuse o vs = true /\ exec o hs m = Fault Panic)
  | Fault Panic => exec o hs m = Fault Panic
  | Fault _ => False
  end.

Lemma fits_take n (bs : list byte) : fits_u32 (zlen bs) -> fits_u32 (zlen (ztake n bs)).
Proof. unfold fits_u32. intros. zlia. Qed.
Lemma fits_drop n (bs : list byte) : fits_u32 (zlen bs) -> fits_u32 (zlen (zdrop n bs)).
Proof. unfold fits_u32. intros. zlia. Qed.
Lemma fits_nil : fits_u32 (zlen (@nil byte)).
Proof. done. Qed.
Create HintDb fits.
#[export] Hint Resolve fits_take fits_drop fits_nil : fits.

(** Opens the goal [refines m hs o vs]: the contract holds and the named buffer
    is picked. *)
Ltac contract_in :=
  unfold nat_size, fitsb in *; rewrite ?andb_true_iff, ?Z.leb_le, ?Z.ltb_lt in *; destruct_and?.

Ltac pick HR Hc :=
  match type of Hc with
  | context [on_vb ?i ?vs _] =>
      unfold on_vb in Hc; unfold with_vb; destruct (vs !! i) as [[bs|]|] eqn:Hi; [|destruct_and? Hc; done..];
      destruct (pick_bytes _ _ _ _ _ HR Hi) as (s & Hh & HI & Hr & Hfit & Hv & Hlen);
      unfold with_bytes; rewrite Hh
  | context [on_vm ?i ?vs _] =>
      unfold on_vm in Hc; unfold with_vm; destruct (vs !! i) as [[|bs]|] eqn:Hi; [destruct_and? Hc; done| |destruct_and? Hc; done];
      destruct (pick_mut _ _ _ _ _ HR Hi) as (l & Hh & HI & Hr & Hfit & Hv & Hlen);
      unfold with_mut; rewrite Hh
  end.

Ltac open_op :=
  let HR := fresh "HR" in let Hc := fresh "Hc" in intros HR Hc; cbn [spec exec may_refuse]; cbn [contract] in Hc;
  apply andb_true_iff in Hc as [?Hmax Hc]; try pick HR Hc; contract_in.

Section steps.
Context (m : Mem) (hs : list handle) (vs : list val).

Lemma ref_make : R m hs vs -> refines m hs New vs.
Proof.
  open_op. left. rstep. split; [done|]. destruct HR as [HI Hv].
  apply (R_bytes m); [|done..]. apply bytes_post_refl; [eapply Inv_add_plain; [done| |done..]|];
    by apply (rep_inline m [] inline_zeros).
Qed.

Lemma ref_from_static bs : R m hs vs -> refines m hs (FromStatic bs) vs.
Proof.
  open_op. left. rstep. split; [done|]. destruct HR as [HI Hv].
  assert (rep_storage m (bytes_from_static bs) bs) as Hr.
  { apply (rep_static m bs 0 bs inline_zeros); [done|zlia|apply zslice_full]. }
  apply (R_bytes m); [|done..]. apply bytes_post_refl; [by eapply Inv_add_plain|done].
Qed.

Lemma ref_copy bs : R m hs vs -> refines m hs (CopyFromSlice bs) vs.
Proof.
  open_op. left. destruct HR as [HI Hv]. rstep.
  eapply runs_conseq; [by apply (storage_from_slice_spec m hs bs)|].
  intros s m' Hp. rstep. split; [done|]. by eapply R_bytes.
Qed.

Lemma ref_from_arc bs : R m hs vs -> refines m hs (FromArc bs) vs.
Proof.
  open_op. left. destruct HR as [HI Hv]. unfold arc_new. rsteps. split; [done|].
  eapply R_bytes; [by apply Inv_arc_new|done..].
Qed.

Lemma ref_clone i : R m hs vs -> refines m hs (Clone i) vs.
Proof.
  open_op. left. rstep. eapply runs_conseq; [apply shallow_clone_spec; [done..|lia]|].
  intros s' m' (HI' & Hf & Hr'). rstep. split; [done|]. apply frame_cons in Hf as [Hfs Hf].
  eapply R_bytes2; try done. by apply Hfs.
Qed.

Lemma runs_bound_lo b (Q : Z -> Mem -> Prop) :
  bound_ok b = true -> Q (bound_lo b) m ->
  runs (match b with Included n => mret n
        | Excluded n => liftS (checked_add u64_modulus n 1) | Unbounded => mret 0 end) m Q.
Proof.
  unfold bound_ok, nat_size. rewrite ?andb_true_iff, ?Z.leb_le, ?Z.ltb_lt. intros Hb HQ. unfold u64_max in *.
  destruct b as [n|n|]; [rstep; done| |rstep; done].
  rewrite andb_true_iff, Z.ltb_lt in Hb. eapply runs_lift; [apply checked_add_ok; lia|done].
Qed.

Lemma runs_bound_hi b len (Q : Z -> Mem -> Prop) :
  bound_ok b = true -> Q (bound_hi len b) m ->
  runs (match b with Included n => liftS (checked_add u64_modulus n 1)
        | Excluded n => mret n | Unbounded => mret len end) m Q.
Proof.
  unfold bound_ok, nat_size. intros Hb HQ. unfold u64_max in *.
  destruct b as [n|n|]; [|rstep; done..].
  rewrite andb_true_iff, Z.ltb_lt in Hb. eapply runs_lift; [apply checked_add_ok; lia|done].
Qed.

Lemma bound_lo_nonneg b : bound_ok b = true -> 0 <= bound_lo b.
Proof. destruct b; cbn; unfold nat_size; rewrite ?andb_true_iff, ?Z.leb_le; lia. Qed.

(** [slice] of a long range clones and narrows; a short one is copied. *)
Lemma slice_narrow s bs r b e :
  Inv m (HB s :: r) -> rep_storage m s bs -> fits_u32 (zlen bs) -> zlen (HB s :: r) < u32_max ->
  0 <= b <= e -> e <= zlen bs ->
  runs (ret ← bytes_clone s; ret ← storage_set_end ret e; ret ← storage_set_start ret b; mret (Some ret)) m
    (fun x m' => exists s', x = Some s' /\ bytes_post m (HB s :: r) (zslice b (e - b) bs) s' m').
Proof.
  intros HI Hr Hfit Hmax Hb He. rstep. eapply runs_conseq; [by apply shallow_clone_spec|].
  intros s1 m1 (HI1 & Hf1 & Hr1). rstep.
  eapply runs_conseq; [apply (storage_set_end_spec m1 s1 (HB s :: r) bs e); [done..|lia|done]|].
  intros s2 m2 (HI2 & Hf2 & Hr2). rstep.
  eapply runs_conseq; [apply (storage_set_start_spec m2 s2 (HB s :: r) (ztake e bs) b); [done..|zlia|by apply fits_take]|].
  intros s3 m3 (HI3 & Hf3 & Hr3). rstep. exists s3. split; [done|]. split; [done|].
  split; [by eapply frame_trans, frame_trans|].
  unfold zslice. rewrite ztake_zdrop_comm by lia. by replace (b + (e - b)) with e by lia.
Qed.

Lemma ref_slice i lo hi : R m hs vs -> refines m hs (Slice i lo hi) vs.
Proof.
  open_op. rename select (bound_ok lo = true) into Hlo. rename select (bound_ok hi = true) into Hhi.
  pose proof (bound_lo_nonneg lo Hlo) as Hb0. cbn zeta.
  destruct ((bound_lo lo <=? bound_hi (zlen bs) hi) && (bound_hi (zlen bs) hi <=? zlen bs)) eqn:Hc.
  - left. apply andb_true_iff in Hc as [Hbe%Z.leb_le Hel%Z.leb_le].
    rstep. eapply (runs_conseq _ _ (fun x m' => exists s', x = Some s' /\
      bytes_post m (HB s :: delete i hs) (zslice (bound_lo lo) (bound_hi (zlen bs) hi - bound_lo lo) bs) s' m')).
    + unfold bytes_slice_checked, bytes_len. rewrite (rep_storage_len _ _ _ Hr).
      rstep. apply runs_bound_lo; [done|]. rstep. apply runs_bound_hi; [done|]. zbool. cbn [andb].
      destruct (Z.leb_spec (bound_hi (zlen bs) hi - bound_lo lo) INLINE_CAP).
      * rstep. eapply runs_eq; [by apply storage_as_ref_rep|]. rstep.
        eapply runs_conseq; [apply (storage_from_slice_spec m (HB s :: delete i hs)); [done|]|].
        { unfold fits_u32 in *. rewrite zlen_zslice by lia. lia. }
        intros s' m' Hp. rstep. by exists s'.
      * apply slice_narrow; try done; lia.
    + intros x m' (s' & -> & HI' & Hf & Hr'). rstep. split; [done|]. apply frame_cons in Hf as [Hfs Hf].
      eapply R_bytes2; try done; [by apply Hfs|]. unfold fits_u32 in *. rewrite zlen_zslice by lia. lia.
  - left. rstep. unfold bytes_slice_checked, bytes_len. rewrite (rep_storage_len _ _ _ Hr).
    rstep. apply runs_bound_lo; [done|]. rstep. apply runs_bound_hi; [done|]. rewrite Hc. rstep. rstep.
    split; [done|]. by apply (R_bytes m); [apply bytes_post_refl|..].
Qed.

Lemma ztake_min {A} n (l : list A) : ztake (Z.min (zlen l) n) l = ztake n l.
Proof.
  destruct (Z.le_gt_cases n (zlen l)); [by rewrite Z.min_r|].
  rewrite Z.min_l, !ztake_all by lia. done.
Qed.

Lemma zdrop_min {A} n (l : list A) : zdrop (Z.min (zlen l) n) l = zdrop n l.
Proof.
  destruct (Z.le_gt_cases n (zlen l)); [by rewrite Z.min_r|].
  rewrite Z.min_l, !zdrop_all by lia. done.
Qed.

Lemma R_empty r rv : Inv m r -> Forall2 (view m) r rv -> R m (HB bytes_new :: r) (VB [] :: rv).
Proof.
  intros HI Hv. assert (rep_storage m bytes_new []) by (by apply (rep_inline m [] inline_zeros)).
  apply (R_bytes m); [|done..]. apply bytes_post_refl; [by eapply Inv_add_plain|done].
Qed.

Lemma R_empty2 s bs r rv :
  Inv m (HB s :: r) -> rep_storage m s bs -> fits_u32 (zlen bs) -> Forall2 (view m) r rv ->
  R m (HB s :: HB bytes_new :: r) (VB bs :: VB [] :: rv).
Proof.
  intros HI Hr Hfit Hv. destruct (R_empty (HB s :: r) (VB bs :: rv) HI) as [HI' Hv']; [by constructor|].
  rewrite (Permutation_swap (HB s) (HB bytes_new)) in HI'. split; [done|].
  inversion_clear Hv'. constructor; [done|]. by constructor.
Qed.

Lemma R_cons_plain h v r rv :
  Inv m (h :: r) -> view m h v -> Forall2 (view m) r rv -> R m (h :: r) (v :: rv).
Proof. intros. split; [done|]. by constructor. Qed.

Lemma ref_split_off i n : R m hs vs -> refines m hs (SplitOff i n) vs.
Proof.
  open_op. unfold bytes_split_off, bytes_split_off_checked, bytes_len. rewrite (rep_storage_len _ _ _ Hr).
  destruct (Z.leb_spec n (zlen bs)); [left|done].
  destruct (Z.eqb_spec n (zlen bs)) as [->|]; [|destruct (Z.eqb_spec n 0) as [->|]].
  - rsteps. split; [done|]. rewrite zdrop_all, ztake_all by lia. cbn [snd].
    apply R_empty; [done|]. by constructor.
  - rsteps. split; [done|]. rewrite zdrop_le0, ztake_le0 by lia. cbn [snd].
    by apply R_empty2.
  - do 3 rstep. eapply runs_conseq; [apply storage_split_off_spec; [done|done|lia|done|lia]|].
    intros [x s'] m' (HI' & Hf & Hr1 & Hr2). rsteps. split; [done|]. eapply R_bytes2; eauto with fits.
Qed.

Lemma ref_split_to i n : R m hs vs -> refines m hs (SplitTo i n) vs.
Proof.
  open_op. unfold bytes_split_to, bytes_split_to_checked, bytes_len. rewrite (rep_storage_len _ _ _ Hr).
  destruct (Z.leb_spec n (zlen bs)); [left|done].
  destruct (Z.eqb_spec n (zlen bs)) as [->|]; [|destruct (Z.eqb_spec n 0) as [->|]].
  - rsteps. split; [done|]. rewrite zdrop_all, ztake_all by lia. cbn [snd].
    by apply R_empty2.
  - rsteps. split; [done|]. rewrite zdrop_le0, ztake_le0 by lia. cbn [snd].
    apply R_empty; [done|]. by constructor.
  - do 3 rstep. eapply runs_conseq; [apply storage_split_to_spec; [done|done|lia|done|lia]|].
    intros [x s'] m' (HI' & Hf & Hr1 & Hr2). rsteps. split; [done|]. eapply R_bytes2; eauto with fits.
Qed.

Lemma ref_advance i n : R m hs vs -> refines m hs (AdvanceTo i n) vs.
Proof.
  open_op. left. rstep. eapply runs_conseq; [by apply storage_set_start_spec|].
  intros s' m' Hp. rstep. split; [done|]. eapply R_bytes; eauto with fits.
Qed.

Lemma ref_clear i : R m hs vs -> refines m hs (Clear i) vs.
Proof.
  open_op. left. unfold bytes_clear. rstep.
  eapply runs_conseq; [apply (storage_replace_spec m s storage_empty (delete i hs) [])|].
  - eapply Inv_add_plain; [done|by apply (rep_inline m [] inline_zeros)|done..].
  - by apply (rep_inline m [] inline_zeros).
  - intros r m' [-> Hp]. rstep. split; [done|]. eapply R_bytes; eauto with fits.
Qed.

Lemma ref_get_u8 i : R m hs vs -> refines m hs (GetU8 i) vs.
Proof.
  open_op. destruct bs as [|b bs].
  - unfold bytes_get_u8, storage_get_u8. rewrite (rep_storage_len _ _ _ Hr). done.
  - left. rstep. eapply runs_conseq; [by apply storage_get_u8_spec|].
    intros [x s'] m' [Hx Hp]. cbn in Hx. subst x. rstep. split; [done|]. eapply R_bytes; [done..|].
    unfold fits_u32 in *. zlia.
Qed.

Lemma ref_read i n : R m hs vs -> refines m hs (Read i n) vs.
Proof.
  open_op. left. unfold bytes_read, bytes_len. rewrite (rep_storage_len _ _ _ Hr).
  destruct (Z.ltb_spec 0 (Z.min (zlen bs) n)).
  - do 2 rstep. eapply runs_eq; [by apply storage_as_ref_rep|]. rstep.
    eapply runs_conseq; [apply (storage_set_start_spec m s (delete i hs) bs); [done|done|lia|done]|].
    intros s' m' Hp. rsteps. split; cbn [fst snd].
    + by rewrite ztake_min.
    + rewrite zdrop_min in Hp. eapply R_bytes; eauto with fits.
  - rsteps. split; cbn [fst snd].
    + by rewrite <- ztake_min, ztake_le0.
    + rewrite <- zdrop_min, zdrop_le0 by done. by apply R_cons_plain.
Qed.

Lemma ref_as_ref i : R m hs vs -> refines m hs (AsRef i) vs.
Proof.
  open_op. left. rstep. eapply runs_eq; [by apply storage_as_ref_rep|]. rstep.
  split; [done|]. by apply R_cons_plain.
Qed.

Lemma ref_drop i : R m hs vs -> refines m hs (Drop i) vs.
Proof.
  open_op. left. rstep. eapply runs_conseq; [by apply storage_drop_spec|].
  intros [] m' [HI' Hf]. rstep. split; [done|]. split; [done|]. by eapply frame_views.
Qed.

Lemma ref_truncate i n : R m hs vs -> refines m hs (Truncate i n) vs.
Proof.
  open_op.
  assert ((INLINE_CAP <= n <= zlen bs -> len_settable m s n) \/
          INLINE_CAP <= n <= zlen bs /\ bytes_truncate s n m = Fault Panic) as [Hset|[Hin Hp]].
  { destruct (decide (INLINE_CAP <= n <= zlen bs)) as [Hin|]; [|by left].
    destruct (len_settable_dec m s n) as [|(l & Hvl & Hw)]; [by left|]. right.
    split; [done|]. by eapply storage_truncate_refused. }
  - left. rstep. eapply runs_conseq; [by apply storage_truncate_spec|].
    intros s' m' Hp. rstep. split; [done|]. eapply R_bytes; eauto with fits.
  - right. unfold mbind, M_bind. rewrite Hp. split; [|done]. unfold on_vb. rewrite Hi. by zbool.
Qed.

Lemma ref_trimdown i : R m hs vs -> refines m hs (Trimdown i) vs.
Proof.
  open_op.
  assert ((INLINE_CAP < zlen bs -> len_settable m s (zlen bs)) \/
          INLINE_CAP < zlen bs /\ bytes_trimdown s m = Fault Panic) as [Hset|[Hin Hp]].
  { destruct (decide (INLINE_CAP < zlen bs)) as [Hin|]; [|by left].
    destruct (len_settable_dec m s (zlen bs)) as [|(l & Hvl & Hw)]; [by left|]. right.
    split; [done|]. by eapply storage_trimdown_refused. }
  - left. rstep. eapply runs_conseq; [by apply storage_trimdown_spec|].
    intros s' m' Hp. rstep. split; [done|]. eapply R_bytes; eauto with fits.
  - right. unfold mbind, M_bind. rewrite Hp. split; [|done]. unfold on_vb. rewrite Hi. by zbool.
Qed.

(** *** [BytesMut] *)

Lemma ref_mmake cap bs :
  R m hs vs -> zlen bs <= cap -> fits_u32 cap ->
  runs (l ← SharedVec_create Unset cap bs; mret (ONothing, HM l :: hs)) m
    (fun r m' => r.1 = ONothing /\ R m' r.2 (VM bs :: vs)).
Proof.
  intros [HI Hv] Hle Hfit. rstep. eapply runs_conseq; [apply (create_spec m hs Unset); [done..|by left]|].
  intros l m' (HI' & Hf & Hr & _). rstep. split; [done|].
  apply (R_mut m); [done|done|]. unfold fits_u32 in *. lia.
Qed.

Lemma ref_mnew : R m hs vs -> refines m hs MNew vs.
Proof. open_op. left. by apply ref_mmake. Qed.

Lemma ref_mcap n : R m hs vs -> refines m hs (MWithCapacity n) vs.
Proof. open_op. left. by apply ref_mmake. Qed.

Lemma ref_mcopy bs : R m hs vs -> refines m hs (MCopyFromSlice bs) vs.
Proof. open_op. left. by apply ref_mmake. Qed.

Lemma ref_freeze i : R m hs vs -> refines m hs (Freeze i) vs.
Proof.
  open_op. left. rstep. eapply runs_conseq; [by apply sv_freeze_spec|].
  intros s m' Hp. rstep. split; [done|]. by eapply R_bytes.
Qed.

Lemma R_split l s bs bs' r rv m' :
  Inv m' (HB s :: HM l :: r) /\ frame m m' r /\ rep_storage m' s bs /\ rep_handle m' (HM l) bs' ->
  Forall2 (view m) r rv -> fits_u32 (zlen bs) -> fits_u32 (zlen bs') ->
  R m' (HB s :: HM l :: r) (VB bs :: VM bs' :: rv).
Proof.
  intros (HI & Hf & Hr & Hr') Hv ??. split; [done|]. do 2 (constructor; [done|]). by eapply frame_views.
Qed.

Lemma ref_take i : R m hs vs -> refines m hs (Take i) vs.
Proof.
  open_op. left. unfold bm_take, bm_len, sv_length. pose proof Hr as (sv & Hl & Hn & _).
  do 4 rstep. rstep. rewrite Hn.
  eapply runs_conseq; [apply (sv_split_to_spec m l (delete i hs) bs); [done|done|zlia|lia]|].
  intros s m' Hp. rstep. split; [done|]. rewrite ztake_all, zdrop_all in Hp by lia.
  eapply R_split; eauto with fits.
Qed.

Lemma ref_msplit_to i n : R m hs vs -> refines m hs (MSplitTo i n) vs.
Proof.
  open_op. unfold bm_split_to, bm_split_to_checked, bm_len, sv_length. pose proof Hr as (sv & Hl & Hn & _).
  destruct (Z.leb_spec n (zlen bs)) as [Hle|Hgt].
  - left. do 6 rstep. rewrite Hn. zbool. rstep.
    eapply runs_conseq; [apply (sv_split_to_spec m l (delete i hs) bs); [done|done|lia|lia]|].
    intros s m' Hp. rsteps. split; [done|]. eapply R_split; eauto with fits.
  - unfold mbind, M_bind, deref. rewrite Hl. unfold mret, M_ret. rewrite Hn. by zbool.
Qed.

Lemma ref_madvance i n : R m hs vs -> refines m hs (MAdvanceTo i n) vs.
Proof.
  open_op. left. unfold bm_advance_to. rstep. pose proof (mut_room m l _ bs HI Hr) as [? Hw].
  rewrite as_u32_small by (unfold fits_u32 in *; slia).
  eapply runs_conseq; [apply (sv_set_start_spec m l (delete i hs) bs); [done|done|lia]|].
  intros [] m' Hp. rstep. split; [done|]. eapply R_mut; eauto with fits.
Qed.

Lemma ref_mtruncate i n : R m hs vs -> refines m hs (MTruncate i n) vs.
Proof.
  open_op. left. rstep. eapply runs_conseq; [by apply sv_truncate_spec|].
  intros [] m' Hp. rstep. split; [done|]. eapply R_mut; eauto with fits.
Qed.

Lemma ref_resize i n v : R m hs vs -> refines m hs (Resize i n v) vs.
Proof.
  open_op. left. rstep. eapply runs_conseq; [by apply sv_resize_spec|].
  intros l' m' Hp. rstep. split; [done|]. eapply R_mut; [exact Hp|done|]. unfold fits_u32 in *. zlia.
Qed.

Lemma ref_reserve i n : R m hs vs -> refines m hs (Reserve i n) vs.
Proof.
  open_op. left. rstep. eapply runs_conseq; [apply sv_reserve_spec; [done..|by right]|].
  intros l' m' [Hp _]. rstep. split; [done|]. by eapply R_mut.
Qed.

Lemma ref_reserve_capacity i n : R m hs vs -> refines m hs (ReserveCapacity i n) vs.
Proof.
  open_op. left. rstep. eapply runs_conseq; [by apply sv_reserve_capacity_spec|].
  intros l' m' [Hp _]. rstep. split; [done|]. by eapply R_mut.
Qed.

(** Appending after [reserve] made room. *)
Lemma put_slice_spec l r bs src :
  Inv m (HM l :: r) -> rep_handle m (HM l) bs -> fits_u32 (zlen bs + zlen src) ->
  runs (bm_put_slice l src) m (fun l' m' => mut_post m r l' (bs ++ src) m').
Proof.
  intros HI Hr Hfit. unfold bm_put_slice, bm_reserve. rstep.
  eapply runs_conseq; [apply (sv_reserve_spec m l r bs); [done|done|zlia|by right]|].
  intros l' m' [Hp Hroom]. pose proof Hp as (HI' & Hf' & Hr').
  destruct (mut_block m' l' r bs HI' Hr') as (sv & Hl & Hn & _).
  unfold bm_chunk_mut. do 4 rstep. rewrite Hn.
  destruct (sv_append_spec m' l' r bs HI' Hr' sv src (zlen bs + zlen src) Hl Hroom eq_refl)
    as ([] & m'' & Hc & Hp'' & _).
  unfold mbind, M_bind in Hc. destruct (write_bytes l' _ src m') as [[[] mw]|] eqn:Hw; [|done].
  rstep. eapply runs_eq; [exact Hw|]. rstep. unfold bm_advance_mut, bm_len, sv_length.
  assert (exists sw, blocks mw !! l' = Some sw /\ sv_len sw = zlen bs) as (sw & Hlw & Hnw).
  { unfold write_bytes, mbind, M_bind, deref in Hw. rewrite Hl in Hw. destruct (in_payload _ _ _); [|done].
    unfold store in Hw. simplify_eq. rewrite lookup_set_block. by eexists. }
  do 4 rstep. rewrite Hnw. rstep.
  eapply runs_lift; [apply checked_add_ok; unfold fits_u32, METADATA_SIZE, u32_modulus, u64_modulus in *; lia|].
  eapply runs_eq; [exact Hc|]. rstep. by eapply mut_post_trans.
Qed.

Lemma ref_put_slice i src : R m hs vs -> refines m hs (PutSlice i src) vs.
Proof.
  open_op. left. rstep. eapply runs_conseq; [by apply put_slice_spec|].
  intros l' m' Hp. rstep. split; [done|]. eapply R_mut; [exact Hp|done|]. unfold fits_u32 in *. zlia.
Qed.

Lemma put_u8_spec l r bs b :
  Inv m (HM l :: r) -> rep_handle m (HM l) bs -> fits_u32 (zlen bs + 1) ->
  runs (bm_put_u8 l b) m (fun l' m' => mut_post m r l' (bs ++ [b]) m').
Proof.
  intros HI Hr Hfit. unfold bm_put_u8, bm_reserve. rstep.
  eapply runs_conseq; [apply (sv_reserve_spec m l r bs); [done|done|lia|by right]|].
  intros l' m' [Hp Hroom]. pose proof Hp as (HI' & Hf' & Hr'). rstep.
  eapply runs_conseq; [apply (sv_put_u8_spec m' l' r bs); [done|done|lia]|].
  intros [] m'' [Hp' _]. rstep. by eapply mut_post_trans.
Qed.

Lemma ref_put_u8 i b : R m hs vs -> refines m hs (PutU8 i b) vs.
Proof.
  open_op. left. rstep. eapply runs_conseq; [by apply put_u8_spec|].
  intros l' m' Hp. rstep. split; [done|]. eapply R_mut; [exact Hp|done|]. unfold fits_u32 in *. zlia.
Qed.

Lemma ref_set_index i k b : R m hs vs -> refines m hs (SetIndex i k b) vs.
Proof.
  open_op. destruct (Z.ltb_spec k (zlen bs)) as [Hlt|Hge].
  - left. rstep. eapply runs_conseq; [by apply sv_set_index_spec|].
    intros [] m' Hp. rstep. split; [done|]. eapply R_mut; [exact Hp|done|]. unfold fits_u32 in *. zlia.
  - pose proof Hr as (sv & Hl & Hn & _). unfold bm_set_index, sv_set_index, mbind, M_bind, deref.
    rewrite Hl, Hn. unfold assertS. by zbool.
Qed.

Lemma ref_mread i n : R m hs vs -> refines m hs (MRead i n) vs.
Proof.
  open_op. left. pose proof Hr as (sv & Hl & Hn & _). unfold bm_read, bm_len, sv_length.
  do 4 rstep. rstep. rewrite Hn. destruct (Z.ltb_spec 0 (Z.min (zlen bs) n)).
  - rstep. eapply runs_eq; [by eapply sv_as_ref_spec|]. rstep. unfold bm_advance_to.
    pose proof (mut_room m l _ bs HI Hr) as [? Hw].
    rewrite as_u32_small by (unfold fits_u32 in *; slia).
    eapply runs_conseq; [apply (sv_set_start_spec m l (delete i hs) bs); [done|done|lia]|].
    intros [] m' Hp. rsteps. rewrite zdrop_min in Hp. split; [by rewrite ztake_min|].
    eapply R_mut; eauto with fits.
  - rsteps. split; cbn [fst snd].
    + by rewrite <- ztake_min, ztake_le0.
    + rewrite <- zdrop_min, zdrop_le0 by done. by apply R_cons_plain.
Qed.

Lemma ref_mas_ref i : R m hs vs -> refines m hs (MAsRef i) vs.
Proof.
  open_op. left. rstep. eapply runs_eq; [by eapply sv_as_ref_spec|]. rstep.
  split; [done|]. by apply R_cons_plain.
Qed.

Lemma ref_mdrop i : R m hs vs -> refines m hs (MDrop i) vs.
Proof.
  open_op. left. rstep. eapply runs_conseq; [by apply (release_spec m (HM l) (delete i hs))|].
  intros [] m' (HI' & Hf & _). rstep. split; [done|]. split; [done|]. by eapply frame_views.
Qed.

Lemma ref_mclone i : R m hs vs -> refines m hs (MClone i) vs.
Proof.
  open_op. left. unfold bm_clone. do 2 rstep. eapply runs_eq; [by eapply sv_as_ref_spec|].
  eapply runs_conseq; [apply (create_spec m (HM l :: delete i hs) Unset); [done|done|done|by left]|].
  intros l' m' (HI' & Hf & Hr' & _). rstep. split; [done|]. apply (R_mut m); [done|by constructor|done].
Qed.

Lemma ref_from_bytes i : R m hs vs -> refines m hs (FromBytes i) vs.
Proof.
  open_op. left. unfold bm_from_bytes. do 2 rstep. eapply runs_eq; [by apply storage_as_ref_rep|]. rstep.
  eapply runs_conseq; [apply (create_spec m (HB s :: delete i hs) Unset); [done|done|done|by left]|].
  intros l m' (HI' & Hf & Hr' & _). apply frame_cons in Hf as [_ Hf]. rstep.
  rewrite (Permutation_swap (HB s) (HM l)) in HI'.
  eapply runs_conseq; [by apply storage_drop_spec|]. intros [] m'' [HI'' Hf'']. rsteps.
  apply frame_cons in Hf'' as [Hfl Hf'']. split; [done|]. apply (R_mut m); [|done..].
  split; [done|]. split; [by eapply frame_trans|by apply Hfl].
Qed.

Lemma ref_msized size : R m hs vs -> refines m hs (MSized size) vs.
Proof.
  open_op. destruct HR as [HI Hv]. case_bool_decide as Hsz.
  - subst size. unfold sv_sized, mbind, M_bind, getS.
    assert (cache m !! page_index Unset = None) as ->; [|done].
    apply lookup_ge_None. rewrite (inv_cache_len _ _ HI). done.
  - left. rstep. eapply runs_conseq; [by apply sv_sized_spec|].
    intros l m' [Hp _]. rstep. split; [done|]. by eapply R_mut.
Qed.

(** Every operation refines its specification. *)
Lemma step_refines o : R m hs vs -> refines m hs o vs.
Proof.
  intros HR. destruct o.
  all: first
    [ by apply ref_make | by apply ref_from_static | by apply ref_copy | by apply ref_from_arc | by apply ref_clone
    | by apply ref_slice | by apply ref_split_off | by apply ref_split_to | by apply ref_advance
    | by apply ref_truncate | by apply ref_trimdown | by apply ref_clear | by apply ref_get_u8
    | by apply ref_read | by apply ref_as_ref | by apply ref_drop | by apply ref_mnew
    | by apply ref_msized | by apply ref_mcap | by apply ref_mcopy | by apply ref_freeze
    | by apply ref_take | by apply ref_msplit_to | by apply ref_madvance | by apply ref_mtruncate
    | by apply ref_resize | by apply ref_reserve | by apply ref_reserve_capacity
    | by apply ref_put_slice | by apply ref_put_u8 | by apply ref_set_index | by apply ref_mread
    | by apply ref_mclone | by apply ref_from_bytes | by apply ref_mas_ref | by apply ref_mdrop ].
Qed.
End steps.

(** The program behaves as over byte strings, or refuses a length. *)
Definition refines_all (m : Mem) (hs : list handle) (os : list op) (vs : list val) : Prop :=
  match spec_all os vs with
  | Done (xs, vs') =>
      runs (exec_all os hs) m (fun r m' => r.1 = xs /\ R m' r.2 vs') \/
      (refusing os vs /\ exec_all os hs m = Fault Panic)
  | Fault Panic => exec_all os hs m = Fault Panic
  | Fault _ => False
  end.

Lemma refusing_cons o os vs x vs1 : spec o vs = Done (x, vs1) -> refusing os vs1 -> refusing (o :: os) vs.
Proof.
  intros Hs (a & o' & b & xs & ws & -> & Ha & Hr). exists (o :: a), o', b, (x :: xs), ws. split; [done|]. split; [|done].
  cbn [spec_all]. rewrite Hs. cbn. by rewrite Ha.
Qed.

Lemma spec_all_faults os vs f : within os vs = true -> spec_all os vs = Fault f -> f = Panic.
Proof.
  revert vs. induction os as [|o os IH]; intros vs; cbn; [done|]. intros [Hc Hw]%andb_true_iff.
  destruct (spec o vs) as [[x vs1]|g] eqn:Hs; cbn.
  - specialize (IH vs1 Hw). destruct (spec_all os vs1) as [[xs vs2]|g]; cbn; [done|]. intros [= <-]. auto.
  - intros [= <-]. clear Hw. unfold contract in Hc. apply andb_true_iff in Hc as [_ Hc].
    unfold on_vb, on_vm in Hc. destruct o; cbn in Hs; unfold with_vb, with_vm in Hs; repeat case_match; simplify_eq; done.
Qed.

Lemma steps_refine os m hs vs : R m hs vs -> within os vs = true -> refines_all m hs os vs.
Proof.
  revert m hs vs. induction os as [|o os IH]; intros m hs vs HR Hw; unfold refines_all.
  { left. rstep. done. }
  pose proof (fun f => spec_all_faults (o :: os) vs f Hw) as Hpanic. cbn [within] in Hw.
  apply andb_true_iff in Hw as [Hc Hw]. pose proof (step_refines m hs vs o HR Hc) as Ho. cbn [spec_all exec_all] in *.
  destruct (spec o vs) as [[x vs1]|g] eqn:Hs; cbn in Hpanic |- *; [|by destruct g; unfold mbind, M_bind; rewrite ?Ho].
  destruct Ho as [([y hs1] & m1 & He & Hx & HR1)|[Hr He]].
  - cbn in Hx, HR1. subst y. specialize (IH m1 hs1 vs1 HR1 Hw). unfold refines_all in IH.
    assert (forall f, exec_all os hs1 m1 = Fault f -> exec_all (o :: os) hs m = Fault f) as Hstop.
    { intros f Hf. cbn. unfold mbind, M_bind. by rewrite He, Hf. }
    destruct (spec_all os vs1) as [[xs vs2]|g]; cbn; [|by destruct g; [apply Hstop|..]].
    destruct IH as [([ys hs2] & m2 & He2 & Hxs & HR2)|[Hc2 He2]].
    + left. exists (x :: ys, hs2), m2. unfold mbind, M_bind. rewrite He, He2. cbn in *. by subst ys.
    + right. split; [by eapply refusing_cons|by apply Hstop].
  - assert (exec_all (o :: os) hs m = Fault Panic) as Hp by (cbn; unfold mbind, M_bind; by rewrite He).
    cbn in Hp. destruct (spec_all os vs1) as [[xs vs2]|g] eqn:Hrest; cbn in *; [right|by rewrite (Hpanic g eq_refl)].
    split; [|done]. by exists [], o, os, [], vs.
Qed.

Lemma Inv_empty : Inv empty_mem [].
Proof.
  split; [split|done|].
  - intros l sv Hl. done.
  - intros h Hin. cbn in Hin. by apply not_elem_of_nil in Hin.
  - intros l sv s Hl. done.
  - constructor.
  - intros a n d Ha. done.
  - intros size stack l Hs Hin. apply lookup_replicate in Hs as [-> _].
    by apply not_elem_of_nil in Hin.
Qed.

Lemma R_empty_world : R empty_mem [] [].
Proof. split; [apply Inv_empty|constructor]. Qed.

(** ** Properties *)

(** C4. Any program over [Bytes] and [BytesMut], started with no buffers and
    used within the documented contract ([within]: buffers of the right kind,
    lengths that fit the [u32] header fields, no advance past the end, no
    reserved capacity below the length), behaves as the same program over
    independent byte strings: it returns with the same observations and every
    live buffer shows its byte string, it panics exactly where the
    specification panics, and it never reads or writes outside a live
    allocation, reads an uninitialised byte, or frees with a wrong layout.
    The one exception is a [Bytes::truncate] or [Bytes::trimdown] that keeps
    more bytes than fit inline, which may panic in its capacity check
    ([truncate_of_split_head_panics]).  Outside of the contract,
    [advance_past_end_not_refused] and [with_capacity_truncates] show what
    happens. *)
Theorem buffer_programs_refine os : within os [] = true ->
  match spec_all os [] with
  | Done (xs, vs) =>
      runs (exec_all os []) empty_mem (fun r m => r.1 = xs /\ R m r.2 vs) \/
      (refusing os [] /\ exec_all os [] empty_mem = Fault Panic)
  | Fault f => f = Panic /\ exec_all os [] empty_mem = Fault Panic
  end.
Proof.
  intros Hw. pose proof (steps_refine os _ _ _ R_empty_world Hw) as H. unfold refines_all in H.
  pose proof (spec_all_faults os [] ) as Hf. destruct (spec_all os []) as [[xs vs]|f]; [done|]. specialize (Hf f Hw eq_refl). by subst f.
Qed.

(** The blocks of the page cache: reset, unshared and of the capacity of their
    page size. *)
Definition cached_block (m : Mem) (l : loc) (sv : SharedVec) : Prop :=
  exists size stack, cache m !! page_index size = Some stack /\ l ∈ stack /\
    sv_offset sv = METADATA_SIZE /\ sv_len sv = 0 /\ sv_ref_count sv = 1 /\ sv_capacity sv = page_capacity size.

Lemma blocks_owned m hs l sv : Inv m hs -> blocks m !! l = Some sv -> (exists h, h ∈ hs /\ vec_of h = Some l) \/ cached_block m l sv.
Proof.
  intros HI Hl. destruct (wf_block _ _ (inv_wf _ _ HI) l sv Hl) as (_ & Hc & Hrc & _).
  destruct (filter (fun h => vec_of h = Some l) (hs ++ (HM <$> concat (cache m)))) as [|h rest] eqn:Hfil.
  { unfold refs in Hc. rewrite Hfil in Hc. change (sv_ref_count sv = 0) in Hc. lia. }
  assert (h ∈ filter (fun h => vec_of h = Some l) (hs ++ (HM <$> concat (cache m)))) as Hin by (rewrite Hfil; by left).
  apply list_elem_of_filter in Hin as [Hv [Hin|(l' & -> & Hin)%list_elem_of_fmap]%elem_of_app]; [left; by exists h|right].
  cbn in Hv. injection Hv as ->. apply elem_of_concat in Hin as (i & stack & Hi & Hin).
  destruct (page_index_surj i) as [size ->].
  { rewrite <- (inv_cache_len _ _ HI). by eapply lookup_lt_Some. }
  exists size, stack. destruct (inv_cached _ _ HI size stack l Hi Hin) as (sv' & Hl' & Ho & Hn & Hrc' & Hcap).
  simplify_eq. destruct (wf_block _ _ (inv_wf _ _ HI) l sv Hl) as ((?&?&?&?&?&_) & _).
  do 5 (split; [done|]). lia.
Qed.

(** C36. No leak: when a program within the contract returns, every block that
    is left is that of a live buffer, or one that the page cache holds, reset,
    unshared and of the exact capacity of its page size; so when it has dropped
    every buffer only blocks of the cache are left.  A program within the
    contract returns unless the specification panics or a [truncate] or
    [trimdown] that keeps more bytes than fit inline refuses. *)
Theorem dropped_buffers_are_freed os xs vs :
  within os [] = true -> spec_all os [] = Done (xs, vs) ->
  runs (exec_all os []) empty_mem (fun r m =>
    r.1 = xs /\ length r.2 = length vs /\
    forall l sv, blocks m !! l = Some sv -> (exists h, h ∈ r.2 /\ vec_of h = Some l) \/ cached_block m l sv) \/
  (refusing os [] /\ exec_all os [] empty_mem = Fault Panic).
Proof.
  intros Hw Hs. pose proof (steps_refine os _ _ _ R_empty_world Hw) as H. unfold refines_all in H. rewrite Hs in H.
  destruct H as [H|H]; [left|by right]. eapply runs_conseq; [exact H|].
  intros [ys hs] m [Hx [HI Hv]]. cbn in *. split; [done|]. split; [by eapply Forall2_length|]. intros l sv. by apply blocks_owned.
Qed.

Definition drop_program : list op :=
  [MSized Size4; PutSlice 0 [1; 2; 3]; Take 0; Clone 0; Drop 0; MDrop 1; Drop 0;
   MWithCapacity 64; PutSlice 0 (replicate 40 7); Freeze 0; SplitTo 0 30; Truncate 0 20; Drop 0; Drop 0].

Lemma buffer_programs_refine_witness :
  runs (exec_all drop_program []) empty_mem (fun r m => r.1 = replicate 14 ONothing /\ R m r.2 []) \/
  (refusing drop_program [] /\ exec_all drop_program [] empty_mem = Fault Panic).
Proof. exact (buffer_programs_refine drop_program ltac:(vm_compute; reflexivity)). Defined.

Lemma dropped_buffers_are_freed_witness :
  runs (exec_all drop_program []) empty_mem (fun r m =>
    r.1 = replicate 14 ONothing /\ length r.2 = 0%nat /\
    forall l sv, blocks m !! l = Some sv -> (exists h, h ∈ r.2 /\ vec_of h = Some l) \/ cached_block m l sv) \/
  (refusing drop_program [] /\ exec_all drop_program [] empty_mem = Fault Panic).
Proof. apply (dropped_buffers_are_freed drop_program _ []); vm_compute; reflexivity. Defined.

(** [BytesMut::reserve] keeps the content and leaves room for the
    requested number of bytes, whatever other handles share the block. *)
Theorem reserve_makes_room m l hs bs additional :
  Inv m (HM l :: hs) -> rep_handle m (HM l) bs ->
  0 <= additional -> fits_u32 (zlen bs + additional) ->
  runs (bm_reserve l additional) m (fun l' m' =>
    Inv m' (HM l' :: hs) /\ frame m m' hs /\ rep_handle m' (HM l') bs /\ additional <= room m' l').
Proof.
  intros HI Hr Ha Hfit. eapply runs_conseq; [apply (sv_reserve_spec m l hs bs); [done..|by right]|].
  intros l' m' [(?&?&?) ?]. done.
Qed.

Definition small_vec : SharedVec := fresh_vec Unset 8 [1; 2; 3].

Lemma small_world : Inv (alloc_block small_vec empty_mem) [HM 0%nat] /\
  rep_handle (alloc_block small_vec empty_mem) (HM 0%nat) [1; 2; 3].
Proof.
  destruct (fresh_vec_ok Unset 8 [1; 2; 3]) as (Hok & Hh & _); [done|done|by left|].
  destruct (Inv_alloc empty_mem [] small_vec [1; 2; 3] Inv_empty Hok) as (?&?&?); done.
Qed.

Lemma reserve_makes_room_witness :
  runs (bm_reserve 0%nat 100) (alloc_block small_vec empty_mem) (fun l' m' =>
    Inv m' [HM l'] /\ frame (alloc_block small_vec empty_mem) m' [] /\
    rep_handle m' (HM l') [1; 2; 3] /\ 100 <= room m' l').
Proof. by apply reserve_makes_room; [apply small_world|apply small_world| |]. Defined.

Lemma put_all_spec items m l r bs :
  Inv m (HM l :: r) -> rep_handle m (HM l) bs -> fits_u32 (zlen bs + zlen items) ->
  runs (bm_put_all l items) m (fun l' m' => mut_post m r l' (bs ++ items) m').
Proof.
  revert m l bs. induction items as [|b items IH]; intros m l bs HI Hr Hfit; cbn.
  - rstep. rewrite app_nil_r. split; [done|]. split; [apply frame_refl|done].
  - rewrite zlen_cons in Hfit. zlen_pos. rstep.
    eapply runs_conseq; [apply (sv_reserve_spec m l r bs); [done|done|lia|right; unfold fits_u32 in *; lia]|].
    intros l1 m1 [Hp1 _]. pose proof Hp1 as (HI1 & _ & Hr1). rstep.
    eapply runs_conseq; [apply (put_u8_spec m1 l1 r bs); [done|done|unfold fits_u32 in *; lia]|].
    intros l2 m2 Hp2. pose proof Hp2 as (HI2 & _ & Hr2).
    eapply runs_conseq; [apply (IH m2 l2 (bs ++ [b])); [done|done|]|].
    { rewrite zlen_app. change (zlen [b]) with 1. unfold fits_u32 in *. lia. }
    intros l3 m3 Hp3. rewrite <- app_assoc in Hp3.
    eapply mut_post_trans; [exact Hp1|]. eapply mut_post_trans; [exact Hp2|exact Hp3].
Qed.

(** Collecting an iterator into a [BytesMut] yields its items whatever
    size hint the iterator gave. *)
Theorem from_iter_content m hs min maybe_max items :
  Inv m hs -> 0 <= min -> (forall n, maybe_max = Some n -> 0 <= n /\ fits_u32 n) -> fits_u32 min ->
  fits_u32 (zlen items) ->
  runs (bm_from_iter min maybe_max items) m (fun l m' =>
    Inv m' (HM l :: hs) /\ frame m m' hs /\ rep_handle m' (HM l) items).
Proof.
  intros HI Hmin Hmax Hfit Hit. unfold bm_from_iter. rstep. set (cap := match maybe_max with Some n => n | None => min end).
  assert (0 <= cap /\ fits_u32 cap) as [Hc0 Hcf] by (unfold cap; destruct maybe_max; [by apply Hmax|done]).
  eapply runs_conseq; [apply (create_spec m hs Unset cap []); [done|done|done|by left]|].
  intros l m' (HI' & Hf & Hr & _). eapply runs_conseq; [by apply (put_all_spec items m' l hs [])|].
  intros l' m'' (HI'' & Hf' & Hr'). split; [done|]. split; [by eapply frame_trans|done].
Qed.

Lemma from_iter_content_witness :
  runs (bm_from_iter 2 (Some 1) [4; 5; 6]) empty_mem (fun l m' =>
    Inv m' [HM l] /\ frame empty_mem m' [] /\ rep_handle m' (HM l) [4; 5; 6]).
Proof. apply from_iter_content; [apply Inv_empty|done| |done|done]. intros n [= <-]. done. Defined.

(** [Bytes::truncate] panics on the head that [BytesMut::split_to] handed
    out when the kept length is above what is left of the block behind it,
    although the length is within the buffer. *)
Theorem truncate_of_split_head_panics :
  let program := [MCopyFromSlice (replicate 100 7); MSplitTo 0 90; Truncate 0 50] in
  exec_all program [] empty_mem = Fault Panic /\
  spec_all program [] =
    Done ([ONothing; ONothing; ONothing], [VB (replicate 50 7); VM (replicate 10 7)]).
Proof. split; vm_compute; reflexivity. Qed.

(** [Bytes::advance_to] past the end does not panic on a heap buffer: it
    yields an empty buffer while the pointer stays inside the allocation, and
    moves the pointer out of it (undefined behaviour) beyond. *)
Theorem advance_past_end_not_refused :
  let program n := [MWithCapacity 200; PutSlice 0 (replicate 100 7); Freeze 0; AdvanceTo 0 n; AsRef 0] in
  (exists hs m, exec_all (program 150) [] empty_mem =
    Done (([ONothing; ONothing; ONothing; ONothing; OBytes []], hs), m)) /\
  exec_all (program 201) [] empty_mem = Fault Undefined.
Proof. split; [do 2 eexists|]; vm_compute; reflexivity. Qed.

(** The header fields are [u32]: asking for [2^32 + k] bytes allocates
    them but records a capacity of [k]. *)
Theorem with_capacity_truncates k m :
  0 <= k < u32_modulus ->
  runs (bm_with_capacity (u32_modulus + k)) m (fun l m' => window m' l = k).
Proof.
  intros Hk. unfold bm_with_capacity, sv_with_capacity, SharedVec_create, alloc_with_capacity.
  assert (shared_vec_layout (u32_modulus + k) = Done (METADATA_SIZE + (u32_modulus + k))) as Hlay.
  { unfold shared_vec_layout, METADATA_SIZE, u32_modulus in *. by zbool. }
  rewrite Hlay. set (lay := METADATA_SIZE + (u32_modulus + k)).
  assert (as_u32 (lay - METADATA_SIZE) = k) as Hcap.
  { unfold as_u32, lay. replace (_ - METADATA_SIZE) with (k + 1 * u32_modulus) by lia.
    rewrite Z_mod_plus_full. by apply Z.mod_small. }
  do 2 rstep. eapply runs_lift; [done|]. cbn zeta. rewrite Hcap. change (as_u32 (zlen [])) with 0.
  do 6 rstep. rstep. unfold write_bytes. do 3 rstep. set (sv := mkSharedVec _ _ _ _ _ _ _).
  assert (in_payload sv METADATA_SIZE (zlen []) = true) as ->.
  { unfold in_payload, METADATA_SIZE. change (zlen []) with 0. zlen_pos. by zbool. }
  do 2 rstep. unfold window. by rewrite lookup_set_block.
Qed.

Lemma with_capacity_truncates_witness :
  runs (bm_with_capacity (u32_modulus + 5)) empty_mem (fun l m' => window m' l = 5).
Proof. by apply with_capacity_truncates. Defined.
