(* ===== verification/Pages.v ===== *)
(** * [bytes::BytePage] and [bytes::BytePages]

    Models geario/src/bytes/pages.rs over the store of [Storage.v].  A
    [BytePages] is the queue of filled pages and the page being filled; an
    operation that takes [&mut self] returns the new value with its result.
    The thread-local cache of emptied queues is not represented: a queue
    taken from it is empty, as a new one is. *)
From Stdlib Require Import ZArith Lia.
From stdpp Require Import base numbers gmap list.
From S2P Require Import Prelude Storage Bytes.

(** ** [BytePage] *)

(** [StorageType]: what a page is backed by. *)
Inductive BytePage :=
  | PgBytes (b : Bytes)
  | PgStorage (l : loc)
  | PgVec (v : list byte).

Definition page_len (p : BytePage) : M Mem Z :=
  match p with
  | PgBytes b => mret (bytes_len b)
  | PgStorage l => sv_length l
  | PgVec v => mret (zlen v)
  end.

Definition page_is_empty (p : BytePage) : M Mem bool :=
  match p with
  | PgBytes b => mret (bytes_is_empty b)
  | PgStorage l => n ← sv_length l; mret (n =? 0)
  | PgVec v => mret (zlen v =? 0)
  end.

Definition page_as_ref (p : BytePage) : M Mem (list byte) :=
  match p with
  | PgBytes b => storage_as_ref b
  | PgStorage l => sv_as_ref l
  | PgVec v => mret v
  end.

(** A page that goes out of scope. *)
Definition page_drop (p : BytePage) : M Mem () :=
  match p with
  | PgBytes b => bytes_drop b
  | PgStorage l => release_shared_vec l
  | PgVec _ => mret tt
  end.

(** [split_to]: the head, and what [self] becomes.  A page that is not backed
    by [Bytes] is converted first. *)
Definition page_split_bytes (b : Bytes) (at_ : Z) : M Mem (BytePage * BytePage) :=
  '(buf, b) ← bytes_split_to b (Z.min at_ (bytes_len b));
  mret (PgBytes buf, PgBytes b).
Definition page_split_to (p : BytePage) (at_ : Z) : M Mem (BytePage * BytePage) :=
  match p with
  | PgBytes b => page_split_bytes b at_
  | PgStorage l => b ← sv_freeze l; page_split_bytes b at_
  | PgVec v => b ← bytes_copy_from_slice v; page_split_bytes b at_
  end.

Definition page_advance_to (p : BytePage) (cnt : Z) : M Mem BytePage :=
  match p with
  | PgBytes b => b ← bytes_advance_to b cnt; mret (PgBytes b)
  | PgStorage l => sv_set_start l (as_u32 cnt);; mret (PgStorage l)
  | PgVec v =>
      assertS (cnt <=? zlen v);;
      b ← bytes_copy_from_slice (zdrop cnt v);
      mret (PgBytes b)
  end.

(** [freeze], and the conversions into [Bytes] and [BytesMut]. *)
Definition page_freeze (p : BytePage) : M Mem Bytes :=
  match p with
  | PgBytes b => mret b
  | PgStorage l => sv_freeze l
  | PgVec v => storage_from_slice v
  end.
Definition page_into_bytes (p : BytePage) : M Mem Bytes :=
  match p with
  | PgBytes b => mret b
  | PgStorage l => bm_freeze l
  | PgVec v => bytes_copy_from_slice v
  end.
Definition page_into_bytes_mut (p : BytePage) : M Mem BytesMut :=
  match p with
  | PgBytes b => bm_from_bytes b
  | PgStorage l => mret l
  | PgVec v => bm_copy_from_slice v
  end.

(** [into_storage]: a page that can be filled further. *)
Definition page_into_storage (p : BytePage) : M Mem (loc + BytePage) :=
  match p with
  | PgStorage l =>
      full ← sv_is_full l;
      unique ← (if (full : bool) then mret false else sv_is_unique l);
      if (unique : bool) then mret (inl l) else mret (inr (PgStorage l))
  | _ => mret (inr p)
  end.

Definition page_clone (p : BytePage) : M Mem BytePage :=
  match p with
  | PgBytes b => b ← bytes_clone b; mret (PgBytes b)
  | PgStorage l => l ← sv_clone l; mret (PgStorage l)
  | PgVec v => b ← bytes_copy_from_slice v; mret (PgBytes b)
  end.

Definition page_eq (p q : BytePage) : M Mem bool :=
  a ← page_as_ref p; b ← page_as_ref q; mret (bool_decide (a = b)).

(** [io::Read]. *)
Definition page_read (p : BytePage) (dst_len : Z) : M Mem (list byte * BytePage) :=
  n ← page_len p;
  let len := Z.min n dst_len in
  if 0 <? len then
    bs ← page_as_ref p;
    p ← page_advance_to p len;
    mret (ztake len bs, p)
  else mret ([], p).

(** The [From] conversions. *)
Definition page_from_bytes (b : Bytes) : BytePage := PgBytes b.
Definition page_from_bytes_ref (b : Bytes) : M Mem BytePage := b ← bytes_clone b; mret (PgBytes b).
Definition page_from_bytes_mut (l : BytesMut) : BytePage := PgStorage l.
Definition page_from_storage (l : loc) : BytePage := PgStorage l.
Definition page_from_vec (v : list byte) : BytePage := PgVec v.
Definition page_from_static (bs : list byte) : BytePage := PgBytes (bytes_from_static bs).

(** ** [BytePages] *)

Record BytePages := mkBytePages {
  bp_size : BytePageSize;
  bp_pages : list BytePage;
  bp_current : option loc;
}.

Definition bp_set_pages (ps : list BytePage) (p : BytePages) : BytePages :=
  mkBytePages (bp_size p) ps (bp_current p).
Definition bp_set_current (c : option loc) (p : BytePages) : BytePages :=
  mkBytePages (bp_size p) (bp_pages p) c.

Definition bp_new (size : BytePageSize) : M Mem BytePages :=
  assertS (negb (bool_decide (size = Unset)));; mret (mkBytePages size [] None).
Definition bp_default : M Mem BytePages := bp_new Size16.
Definition bp_page_size (p : BytePages) : BytePageSize := bp_size p.
Definition bp_set_page_size (size : BytePageSize) (p : BytePages) : BytePages :=
  mkBytePages size (bp_pages p) (bp_current p).
Definition bp_push_back (page : BytePage) (p : BytePages) : BytePages := bp_set_pages (bp_pages p ++ [page]) p.

Definition bp_prepend (page : BytePage) (p : BytePages) : M Mem (bool * BytePages) :=
  e ← page_is_empty page;
  if (e : bool) then page_drop page;; mret (false, p)
  else mret (true, bp_set_pages (page :: bp_pages p) p).

Definition bp_current_len (p : BytePages) : M Mem Z :=
  match bp_current p with Some l => sv_length l | None => mret 0 end.
Definition bp_remaining_mut (p : BytePages) : M Mem Z :=
  match bp_current p with Some l => sv_remain l | None => mret 0 end.

(** The page being filled, or a new one; a full page moves to the queue. *)
Definition bp_get_current (p : BytePages) : M Mem loc :=
  match bp_current p with Some l => mret l | None => sv_sized (bp_size p) end.
Definition bp_with_current {A} (f : loc -> M Mem A) (p : BytePages) : M Mem (A * BytePages) :=
  st ← bp_get_current p;
  let p := bp_set_current None p in
  result ← f st;
  full ← sv_is_full st;
  if (full : bool) then mret (result, bp_push_back (page_from_storage st) p)
  else mret (result, bp_set_current (Some st) p).

(** The body of the loop of [put_slice]: copies what fits. *)
Definition put_chunk (src : list byte) (st : loc) : M Mem Z :=
  remaining ← sv_remain st;
  let amount := Z.min (zlen src) remaining in
  sv ← deref st;
  write_bytes st (sv_offset sv + sv_len sv) (ztake amount src);;
  len ← sv_length st;
  n ← liftS (checked_add u64_modulus len amount);
  sv_set_len st n;;
  mret amount.
Fixpoint bp_put_slice_loop (fuel : nat) (src : list byte) (p : BytePages) : M Mem BytePages :=
  if zlen src =? 0 then mret p
  else match fuel with
       | O => failS Diverges
       | S fuel =>
           '(amount, p) ← bp_with_current (put_chunk src) p;
           bp_put_slice_loop fuel (zdrop amount src) p
       end.
(** Every round but the first copies at least one byte. *)
Definition bp_put_slice (src : list byte) (p : BytePages) : M Mem BytePages :=
  bp_put_slice_loop (S (length src)) src p.
Definition bp_extend_from_slice (extend : list byte) (p : BytePages) : M Mem BytePages := bp_put_slice extend p.
Definition bp_write (src : list byte) (p : BytePages) : M Mem (Z * BytePages) :=
  p ← bp_put_slice src p; mret (zlen src, p).
Definition bp_put_u8 (n : byte) (p : BytePages) : M Mem BytePages :=
  '(_, p) ← bp_with_current (fun st => sv_put_u8 st n) p; mret p.

Definition bp_advance_mut (cnt : Z) (p : BytePages) : M Mem () :=
  match bp_current p with
  | Some st => len ← sv_length st; n ← liftS (checked_add u64_modulus len cnt); sv_set_len st n
  | None => failS Panic
  end.
(** [chunk_mut]: the address and the size of the spare room. *)
Definition bp_chunk_mut (p : BytePages) : M Mem (loc * Z * Z * BytePages) :=
  st ← bp_get_current p;
  let p := bp_set_current (Some st) p in
  sv ← deref st;
  remaining ← bp_remaining_mut p;
  mret (st, sv_offset sv + sv_len sv, remaining, p).

Definition bp_append (page : BytePage) (p : BytePages) : M Mem BytePages :=
  e ← page_is_empty page;
  if (e : bool) then page_drop page;; mret p
  else
    cur ← bp_current_len p;
    if cur =? 0 then
      r ← page_into_storage page;
      match r with
      | inl st =>
          match bp_current p with Some old => release_shared_vec old | None => mret tt end;;
          mret (bp_set_current (Some st) p)
      | inr page => mret (bp_push_back page p)
      end
    else
      n ← page_len page;
      room ← bp_remaining_mut p;
      if n <=? room then
        bs ← page_as_ref page;
        p ← bp_put_slice bs p;
        page_drop page;;
        mret p
      else
        let pages := match bp_current p with Some st => bp_pages p ++ [page_from_storage st] | None => bp_pages p end in
        mret (mkBytePages (bp_size p) (pages ++ [page]) None).

Fixpoint pages_len (ps : list BytePage) (c : Z) : M Mem Z :=
  match ps with
  | [] => mret c
  | page :: ps => n ← page_len page; c ← liftS (checked_add u64_modulus c n); pages_len ps c
  end.
Definition bp_len (p : BytePages) : M Mem Z := c ← bp_current_len p; pages_len (bp_pages p) c.

Fixpoint pages_is_empty (ps : list BytePage) : M Mem bool :=
  match ps with
  | [] => mret true
  | page :: ps => e ← page_is_empty page; if (e : bool) then pages_is_empty ps else mret false
  end.
Definition bp_is_empty (p : BytePages) : M Mem bool :=
  e ← pages_is_empty (bp_pages p);
  if (e : bool) then n ← bp_current_len p; mret (n =? 0) else mret false.

Definition bp_num_pages (p : BytePages) : nat :=
  match bp_current p with None => length (bp_pages p) | Some _ => S (length (bp_pages p)) end.

Definition bp_take (p : BytePages) : option BytePage * BytePages :=
  match bp_pages p with
  | page :: ps => (Some page, bp_set_pages ps p)
  | [] => (page_from_storage <$> bp_current p, bp_set_current None p)
  end.

(** [while let Some(page) = self.take()]: one round per page. *)
Fixpoint take_loop {A} (f : BytePage -> A -> M Mem A) (fuel : nat) (p : BytePages) (a : A) : M Mem (BytePages * A) :=
  match bp_take p with
  | (None, p) => mret (p, a)
  | (Some page, p) =>
      match fuel with
      | O => failS Diverges
      | S fuel => a ← f page a; take_loop f fuel p a
      end
  end.
Definition bp_move_to (p pages : BytePages) : M Mem (BytePages * BytePages) :=
  take_loop bp_append (bp_num_pages p) p pages.
Definition bp_clear (p : BytePages) : M Mem BytePages :=
  '(p, _) ← take_loop (fun page _ => page_drop page) (bp_num_pages p) p tt; mret p.

Fixpoint copy_pages (ps : list BytePage) (pages : BytePages) : M Mem BytePages :=
  match ps with
  | [] => mret pages
  | page :: ps => page' ← page_clone page; pages ← bp_append page' pages; copy_pages ps pages
  end.
Definition bp_copy_to (p pages : BytePages) : M Mem BytePages :=
  pages ← copy_pages (bp_pages p) pages;
  match bp_current p with
  | Some st => bs ← sv_as_ref st; b ← bytes_copy_from_slice bs; bp_append (page_from_bytes b) pages
  | None => mret pages
  end.
Definition bp_clone (p : BytePages) : M Mem BytePages := pages ← bp_new (bp_page_size p); bp_copy_to p pages.

(** The loop of [split_into] over the queue: what is left of it, and the
    count still to split off, or [None] when the loop returned. *)
Fixpoint split_pages (ps : list BytePage) (at_ : Z) (to : BytePages) : M Mem (list BytePage * option Z * BytePages) :=
  match ps with
  | [] => mret ([], Some at_, to)
  | page :: ps =>
      n ← page_len page;
      let len := Z.min n at_ in
      '(head, page) ← page_split_to page len;
      to ← bp_append head to;
      e ← page_is_empty page;
      if (e : bool) then page_drop page;; at_ ← liftS (checked_sub at_ len); split_pages ps at_ to
      else mret (page :: ps, None, to)
  end.
Definition bp_split_into (at_ : Z) (p to : BytePages) : M Mem (BytePages * BytePages) :=
  '(ps, rest, to) ← split_pages (bp_pages p) at_ to;
  let p := bp_set_pages ps p in
  match rest with
  | None => mret (p, to)
  | Some at_ =>
      if 0 <? at_ then
        match bp_take p with
        | (Some page, p) =>
            n ← page_len page;
            '(head, page) ← page_split_to page (Z.min n at_);
            to ← bp_append head to;
            p ← bp_append page p;
            mret (p, to)
        | (None, p) => mret (p, to)
        end
      else mret (p, to)
  end.
Definition bp_split_to (at_ : Z) (p : BytePages) : M Mem (BytePages * BytePages) :=
  pages ← bp_new (bp_page_size p); bp_split_into at_ p pages.

(** [freeze] leaves [self] empty; the conversions consume it. *)
Definition gather (page : BytePage) (buf : BytesMut) : M Mem BytesMut :=
  bs ← page_as_ref page; buf ← bm_extend_from_slice buf bs; page_drop page;; mret buf.
Definition bp_into_bytes_mut (p : BytePages) : M Mem BytesMut :=
  n ← bp_len p;
  buf ← bm_with_capacity n;
  '(_, buf) ← take_loop gather (bp_num_pages p) p buf;
  mret buf.
Definition bp_into_bytes (p : BytePages) : M Mem Bytes := buf ← bp_into_bytes_mut p; bm_freeze buf.
Definition bp_freeze (p : BytePages) : M Mem (Bytes * BytePages) :=
  let pages := bp_num_pages p in
  empty ← (if (pages =? 0)%nat then mret true else bp_is_empty p);
  if (empty : bool) then mret (bytes_new, p)
  else if (pages =? 1)%nat then
    match bp_take p with
    | (Some page, p) => b ← page_freeze page; mret (b, p)
    | (None, p) => failS Panic
    end
  else
    n ← bp_len p;
    buf ← bm_with_capacity n;
    '(p, buf) ← take_loop gather pages p buf;
    b ← bm_freeze buf;
    mret (b, p).

Definition bp_try_get_current_from (p pages : BytePages) : BytePages * BytePages :=
  match bp_pages p, bp_current p, bp_current pages with
  | [], None, Some st => (bp_set_current (Some st) p, bp_set_current None pages)
  | _, _, _ => (p, pages)
  end.

(** [with_bytes_mut]: [f] is given the current page as a [BytesMut] and may
    leave it on another block. *)
Definition bp_with_bytes_mut {A} (f : BytesMut -> M Mem (A * BytesMut)) (p : BytePages) : M Mem (A * BytePages) :=
  st ← bp_get_current p;
  let p := bp_set_current None p in
  cap ← sv_cap st;
  '(res, buf) ← f st;
  cap' ← bm_capacity buf;
  (if cap' =? cap then mret tt else sv_unsize buf);;
  n ← sv_length buf;
  if page_capacity (bp_page_size p) <=? n then mret (res, bp_push_back (page_from_storage buf) p)
  else mret (res, bp_set_current (Some buf) p).

(** A [BytePages] that goes out of scope. *)
Fixpoint drop_pages (ps : list BytePage) : M Mem () :=
  match ps with [] => mret tt | page :: ps => page_drop page;; drop_pages ps end.
Definition bp_drop (p : BytePages) : M Mem () :=
  drop_pages (bp_pages p);;
  match bp_current p with Some st => release_shared_vec st | None => mret tt end.
