(* ===== verification/PagesSpec.v ===== *)
(** * Specifications of the page operations

    What each operation of [Pages.v] does to the bytes a page or a
    [BytePages] shows, beside any other live handles [hs]. *)
From Stdlib Require Import ZArith Lia.
From stdpp Require Import base numbers gmap list.
From S2P Require Import Prelude Storage StorageInv StorageOps StorageView Bytes BytesRefine Pages.

(** ** Ownership and content *)

Definition page_handles (p : BytePage) : list handle :=
  match p with PgBytes b => [HB b] | PgStorage l => [HM l] | PgVec _ => [] end.
Definition page_rep (m : Mem) (p : BytePage) (bs : list byte) : Prop :=
  fits_u32 (zlen bs) /\
  match p with
  | PgBytes b => rep_storage m b bs
  | PgStorage l => rep_handle m (HM l) bs
  | PgVec v => v = bs
  end.

Definition opt_handles (c : option loc) : list handle := match c with Some l => [HM l] | None => [] end.
Definition opt_rep (m : Mem) (c : option loc) (bs : list byte) : Prop :=
  match c with Some l => rep_handle m (HM l) bs | None => bs = [] end.

Definition pages_handles (ps : list BytePage) : list handle := concat (page_handles <$> ps).
Definition bp_handles (p : BytePages) : list handle := pages_handles (bp_pages p) ++ opt_handles (bp_current p).

(** The queue shows the chunks [cs]. *)
Definition queue_rep (m : Mem) (ps : list BytePage) (cs : list (list byte)) : Prop := Forall2 (page_rep m) ps cs.
Definition bp_rep (m : Mem) (p : BytePages) (bs : list byte) : Prop :=
  bp_size p <> Unset /\
  exists cs c, queue_rep m (bp_pages p) cs /\ opt_rep m (bp_current p) c /\ bs = concat cs ++ c.
(** The current page has room, as [put_u8] assumes. *)
Definition roomy (m : Mem) (p : BytePages) : Prop :=
  match bp_current p with Some l => 0 < room m l | None => True end.

(** Results of operations that leave one page, or one [BytePages]. *)
Definition page_post (m : Mem) (hs : list handle) (bs : list byte) (p : BytePage) (m' : Mem) : Prop :=
  Inv m' (page_handles p ++ hs) /\ frame m m' hs /\ page_rep m' p bs.
Definition bp_post (m : Mem) (hs : list handle) (bs : list byte) (p : BytePages) (m' : Mem) : Prop :=
  Inv m' (bp_handles p ++ hs) /\ frame m m' hs /\ bp_rep m' p bs.

Lemma page_rep_frame m m' p bs : frame m m' (page_handles p) -> page_rep m p bs -> page_rep m' p bs.
Proof. intros Hf [? Hr]. split; [done|]. destruct p as [b|l|]; [apply (Hf (HB b))|apply (Hf (HM l))|done]; [left|done|left|done]. Qed.

Lemma opt_rep_frame m m' c bs : frame m m' (opt_handles c) -> opt_rep m c bs -> opt_rep m' c bs.
Proof. intros Hf Hr. destruct c; [apply Hf; [left|done]|done]. Qed.

Lemma queue_rep_frame m m' ps cs : frame m m' (pages_handles ps) -> queue_rep m ps cs -> queue_rep m' ps cs.
Proof.
  intros Hf Hr. induction Hr as [|p c ps cs Hp _ IH]; [constructor|].
  unfold pages_handles in Hf. cbn in Hf. apply frame_app in Hf as [Hf1 Hf2].
  constructor; [by eapply page_rep_frame|by apply IH].
Qed.

Lemma bp_rep_frame m m' p bs : frame m m' (bp_handles p) -> bp_rep m p bs -> bp_rep m' p bs.
Proof.
  intros [Hf1 Hf2]%frame_app (? & cs & c & Hq & Hc & ->). split; [done|]. exists cs, c.
  split; [by eapply queue_rep_frame|]. split; [by eapply opt_rep_frame|done].
Qed.

Lemma pages_handles_app ps qs : pages_handles (ps ++ qs) = pages_handles ps ++ pages_handles qs.
Proof. unfold pages_handles. by rewrite fmap_app, concat_app. Qed.

Lemma queue_rep_snoc m ps cs p c : queue_rep m ps cs -> page_rep m p c -> queue_rep m (ps ++ [p]) (cs ++ [c]).
Proof. intros. apply Forall2_app; [done|by constructor]. Qed.

(** A block's content fits the fields of its header. *)
Lemma mut_fits m l hs bs : Inv m (HM l :: hs) -> rep_handle m (HM l) bs -> fits_u32 (zlen bs).
Proof.
  intros HI Hr. destruct (mut_block m l hs bs HI Hr) as (sv & _ & Hn & _ & (?&?&?&?&?&?&?) & _).
  unfold fits_u32. lia.
Qed.

Lemma page_rep_storage m l hs bs : Inv m (HM l :: hs) -> rep_handle m (HM l) bs -> page_rep m (PgStorage l) bs.
Proof. intros HI Hr. split; [by eapply mut_fits|done]. Qed.

(** The invariant up to the order of the handles. *)
Ltac inv_perm H := eapply Inv_perm; [|exact H]; solve_Permutation.

(** ** Pages *)

Section page.
Context (m : Mem) (hs : list handle) (p : BytePage) (bs : list byte).
Hypothesis HI : Inv m (page_handles p ++ hs).
Hypothesis Hr : page_rep m p bs.

Lemma page_len_spec : page_len p m = Done (zlen bs, m).
Proof.
  clear HI. destruct Hr as [_ Hp]. destruct p as [b|l|v]; cbn.
  - unfold bytes_len. by rewrite (rep_storage_len _ _ _ Hp).
  - destruct Hp as (sv & Hl & Hn & _). unfold sv_length, mbind, M_bind, deref. rewrite Hl. by rewrite <- Hn.
  - by subst v.
Qed.

Lemma page_is_empty_spec : page_is_empty p m = Done (zlen bs =? 0, m).
Proof.
  clear HI. destruct Hr as [_ Hp]. destruct p as [b|l|v]; cbn.
  - unfold bytes_is_empty, bytes_len. by rewrite (rep_storage_len _ _ _ Hp).
  - destruct Hp as (sv & Hl & Hn & _). unfold sv_length, mbind, M_bind, deref. rewrite Hl. by rewrite <- Hn.
  - by subst v.
Qed.

Lemma page_as_ref_spec : page_as_ref p m = Done (bs, m).
Proof.
  destruct Hr as [_ Hp]. destruct p as [b|l|v]; cbn.
  - by apply storage_as_ref_rep.
  - by apply (sv_as_ref_spec m l hs).
  - by subst v.
Qed.

Lemma page_drop_spec : runs (page_drop p) m (fun _ m' => Inv m' hs /\ frame m m' hs).
Proof.
  clear Hr. destruct p as [b|l|v]; cbn in *.
  - by apply storage_drop_spec.
  - eapply runs_conseq; [by apply (release_spec m (HM l) hs)|]. by intros _ m' (? & ? & _).
  - rstep. split; [done|apply frame_refl].
Qed.

Lemma page_advance_to_spec n :
  0 <= n <= zlen bs -> runs (page_advance_to p n) m (page_post m hs (zdrop n bs)).
Proof.
  intros Hn. destruct Hr as [Hfit Hp]. pose proof (fits_drop n bs Hfit). destruct p as [b|l|v]; cbn in *.
  - rstep. eapply runs_conseq; [by apply storage_set_start_spec|]. intros b' m' (? & ? & ?). by rstep.
  - rstep. pose proof (mut_room m l _ bs HI Hp) as [? Hw].
    rewrite as_u32_small by (unfold fits_u32 in *; slia).
    eapply runs_conseq; [apply (sv_set_start_spec m l hs bs); [done|done|lia]|].
    intros [] m' (? & ? & ?). by rstep.
  - subst v. rstep. apply runs_assert; [by zbool|]. rstep.
    eapply runs_conseq; [by apply storage_from_slice_spec|]. intros b' m' (? & ? & ?). by rstep.
Qed.

Lemma page_freeze_spec : runs (page_freeze p) m (bytes_post m hs bs).
Proof.
  destruct Hr as [Hfit Hp]. destruct p as [b|l|v]; cbn in *.
  - rstep. by apply bytes_post_refl.
  - by apply sv_freeze_spec.
  - subst v. by apply storage_from_slice_spec.
Qed.
End page.

(** The two halves of a page that was split. *)
Definition split_post (m : Mem) (hs : list handle) (n : Z) (bs : list byte) (r : BytePage * BytePage) (m' : Mem) : Prop :=
  Inv m' (page_handles r.1 ++ page_handles r.2 ++ hs) /\ frame m m' hs /\
  page_rep m' r.1 (ztake n bs) /\ page_rep m' r.2 (zdrop n bs).

Lemma empty_bytes_inv m hs : Inv m hs -> Inv m (HB bytes_new :: hs) /\ rep_storage m bytes_new [].
Proof.
  intros HI. assert (rep_storage m bytes_new []) by (by apply (rep_inline m [] inline_zeros)).
  split; [by eapply Inv_add_plain|done].
Qed.

Lemma page_split_bytes_spec m hs b bs n :
  Inv m (HB b :: hs) -> rep_storage m b bs -> fits_u32 (zlen bs) -> 0 <= n <= zlen bs -> zlen (HB b :: hs) < u32_max ->
  runs (page_split_bytes b n) m (split_post m hs n bs).
Proof.
  intros HI Hr Hfit Hn Hc. unfold page_split_bytes, bytes_split_to, bytes_split_to_checked, bytes_len.
  rewrite (rep_storage_len _ _ _ Hr), Z.min_l by lia. zbool.
  destruct (Z.eqb_spec n (zlen bs)) as [->|]; [|destruct (Z.eqb_spec n 0) as [->|]].
  - rsteps. destruct (empty_bytes_inv _ _ HI) as [HI' Hr']. unfold split_post. cbn.
    rewrite ztake_all, zdrop_all by lia. rewrite (Permutation_swap (HB b) (HB bytes_new)) in HI'. split; [done|].
    split; [apply frame_refl|]. by repeat split.
  - rsteps. destruct (empty_bytes_inv _ _ HI) as [HI' Hr']. unfold split_post. cbn.
    rewrite ztake_le0, zdrop_le0 by lia. split; [done|]. split; [apply frame_refl|]. by repeat split.
  - do 3 rstep. eapply runs_conseq; [by apply storage_split_to_spec|]. intros [x y] m' (? & ? & ? & ?). rsteps.
    split; [done|]. split; [done|]. split; split; eauto with fits.
Qed.

Lemma page_split_to_spec m hs p bs n :
  Inv m (page_handles p ++ hs) -> page_rep m p bs -> 0 <= n <= zlen bs -> zlen hs + 1 < u32_max ->
  runs (page_split_to p n) m (split_post m hs n bs).
Proof.
  intros HI [Hfit Hp] Hn Hc. destruct p as [b|l|v]; cbn in *.
  - apply page_split_bytes_spec; try done. zlia.
  - rstep. eapply runs_conseq; [by apply sv_freeze_spec|]. intros b m' (HI' & Hf & Hr').
    eapply runs_conseq; [apply page_split_bytes_spec; try done; zlia|].
    intros r m'' (? & ? & ?). split; [done|]. split; [by eapply frame_trans|done].
  - subst v. rstep. eapply runs_conseq; [by apply storage_from_slice_spec|]. intros b m' (HI' & Hf & Hr').
    eapply runs_conseq; [apply page_split_bytes_spec; try done; zlia|].
    intros r m'' (? & ? & ?). split; [done|]. split; [by eapply frame_trans|done].
Qed.

(** [into_storage] gives the block of a page that has room; the page is
    returned otherwise. *)
Lemma page_into_storage_spec m p bs :
  page_rep m p bs ->
  (exists l, p = PgStorage l /\ room m l <> 0 /\ page_into_storage p m = Done (inl l, m)) \/
  page_into_storage p m = Done (inr p, m).
Proof.
  intros [_ Hp]. destruct p as [b|l|v]; [by right| |by right].
  destruct Hp as (sv & Hl & _). cbn. unfold sv_is_full, sv_is_unique, mbind, M_bind, deref, room, mret, M_ret. rewrite Hl.
  destruct (Z.eqb_spec (sv_remaining sv) 0); cbn; [by right|]. rewrite Hl. destruct (_ =? 1); [left; exists l; by rewrite Hl|by right].
Qed.

(** ** Filling pages *)

Lemma page_capacity_pos size : 0 < page_capacity size.
Proof. by destruct size. Qed.

(** Takes the current page out: its content, and what is left. *)
Lemma bp_get_current_spec m hs p bs :
  Inv m (bp_handles p ++ hs) -> bp_rep m p bs ->
  runs (bp_get_current p) m (fun l m' =>
    exists cs c, bs = concat cs ++ c /\ mut_post m (pages_handles (bp_pages p) ++ hs) l c m' /\
      queue_rep m' (bp_pages p) cs /\
      match bp_current p with Some l0 => l = l0 /\ m' = m | None => c = [] /\ window m' l = page_capacity (bp_size p) end).
Proof.
  intros HI (Hsz & cs & c & Hq & Hc & ->). unfold bp_get_current, bp_handles in *. destruct (bp_current p) as [l|].
  - rstep. exists cs, c. split; [done|]. assert (Inv m (HM l :: pages_handles (bp_pages p) ++ hs)) as HI'.
    { inv_perm HI. }
    split; [|done]. split; [done|]. split; [apply frame_refl|done].
  - cbn in HI, Hc. subst c. rewrite app_nil_r in HI.
    eapply runs_conseq; [by apply sv_sized_spec|]. intros l m' [Hp Hw]. exists cs, [].
    split; [done|]. split; [done|]. split; [|done]. destruct Hp as (_ & [Hf _]%frame_app & _). by eapply queue_rep_frame.
Qed.

(** Puts a page back as the current page, or on the queue. *)
Lemma bp_put_back m m' hs p l cs c :
  bp_size p <> Unset -> mut_post m (pages_handles (bp_pages p) ++ hs) l c m' -> queue_rep m' (bp_pages p) cs ->
  bp_post m hs (concat cs ++ c) (bp_set_current (Some l) (bp_set_current None p)) m' /\
  bp_post m hs (concat cs ++ c) (bp_push_back (page_from_storage l) (bp_set_current None p)) m'.
Proof.
  intros Hsz (HI & [Hf1 Hf2]%frame_app & Hr) Hq. split.
  - split; [|split; [done|]].
    + unfold bp_handles. cbn. inv_perm HI.
    + split; [done|]. exists cs, c. by split_and!.
  - split; [|split; [done|]].
    + unfold bp_handles. cbn [bp_pages bp_current bp_push_back bp_set_pages bp_set_current opt_handles].
      rewrite pages_handles_app, app_nil_r, <- app_assoc. cbn. inv_perm HI.
    + split; [done|]. exists (cs ++ [c]), []. split; [|split; [done|]].
      * apply queue_rep_snoc; [done|]. by eapply page_rep_storage.
      * rewrite concat_app. cbn. by rewrite !app_nil_r.
Qed.

(** Copying into the spare room of a block. *)
Lemma put_chunk_spec m hs l c src :
  Inv m (HM l :: hs) -> rep_handle m (HM l) c ->
  let n := Z.min (zlen src) (room m l) in
  runs (put_chunk src l) m (fun a m' => a = n /\ mut_post m hs l (c ++ ztake n src) m' /\ room m' l = room m l - n).
Proof.
  intros HI Hr n. destruct (mut_block m l hs c HI Hr) as (sv & Hl & Hn & Hh & Hok & _).
  pose proof (mut_room m l hs c HI Hr) as [Hroom _]. unfold put_chunk, sv_remain. do 3 rstep.
  assert (room m l = sv_remaining sv) as Hrem by (unfold room; by rewrite Hl). rewrite <- Hrem. fold n. do 4 rstep.
  pose proof (zlen_nonneg src). assert (zlen (ztake n src) = n) as Hlen by (rewrite zlen_ztake; subst n; lia).
  destruct (sv_append_spec m l hs c HI Hr sv (ztake n src) (zlen c + n) Hl) as ([] & m2 & Hc & Hp & Hro).
  { rewrite Hlen. subst n. lia. } { by rewrite Hlen. }
  unfold mbind, M_bind in Hc. destruct (write_bytes l _ _ m) as [[[] mw]|] eqn:Hw; [|done].
  rewrite Hn. eapply runs_eq; [exact Hw|]. rstep. unfold sv_length.
  assert (exists sw, blocks mw !! l = Some sw /\ sv_len sw = zlen c) as (sw & Hlw & Hnw).
  { unfold write_bytes, mbind, M_bind, deref in Hw. rewrite Hl in Hw. destruct (in_payload _ _ _); [|done].
    unfold store in Hw. simplify_eq. rewrite lookup_set_block. by eexists. }
  do 4 rstep. rewrite Hnw. pose proof (mut_fits m l hs c HI Hr) as Hfit. pose proof (proj1 Hok).
  eapply runs_lift; [apply checked_add_ok|].
  { destruct Hok as (?&?&?&?&?&?&_). unfold fits_u32, METADATA_SIZE, u32_modulus, u64_modulus in *. subst n. lia. }
  rstep. eapply runs_eq; [exact Hc|]. rstep. by rewrite Hlen in Hro.
Qed.

(** An operation on the current page: [f] turns its content [c] into [c']. *)
Lemma bp_with_current_spec {A} (f : loc -> M Mem A) (Q : A -> list byte -> list byte -> Prop) m hs p bs :
  Inv m (bp_handles p ++ hs) -> bp_rep m p bs ->
  (forall l m1 c, Inv m1 (HM l :: pages_handles (bp_pages p) ++ hs) -> rep_handle m1 (HM l) c ->
     match bp_current p with
     | Some l0 => l = l0 /\ m1 = m
     | None => c = [] /\ window m1 l = page_capacity (bp_size p)
     end ->
     runs (f l) m1 (fun a m2 => exists c', mut_post m1 (pages_handles (bp_pages p) ++ hs) l c' m2 /\ Q a c c')) ->
  runs (bp_with_current f p) m (fun r m' => exists cs c c',
    bs = concat cs ++ c /\ Q r.1 c c' /\ bp_post m hs (concat cs ++ c') r.2 m' /\ roomy m' r.2 /\
    zlen (bp_handles r.2) = zlen (pages_handles (bp_pages p)) + 1).
Proof.
  intros HI Hr Hf. unfold bp_with_current. rstep. pose proof (proj1 Hr) as Hsz.
  eapply runs_conseq; [by apply (bp_get_current_spec m hs p bs)|].
  intros l m1 (cs & c & -> & (HI1 & Hf1 & Hr1) & Hq & Hcur). rstep.
  eapply runs_conseq; [by apply Hf|]. intros a m2 (c' & Hp2 & HQ).
  assert (queue_rep m2 (bp_pages p) cs) as Hq2.
  { destruct Hp2 as (_ & [? _]%frame_app & _). by eapply queue_rep_frame. }
  pose proof Hp2 as (HI2 & _ & Hr2). pose proof (mut_room m2 l _ c' HI2 Hr2) as [Hro _].
  pose proof Hr2 as (sv & Hl & _). unfold sv_is_full. do 4 rstep.
  destruct (bp_put_back m m2 hs p l cs c') as [H1 H2]; [done| |done|].
  { eapply mut_post_trans; [|exact Hp2]. by split. }
  unfold room in Hro. rewrite Hl in Hro. destruct (Z.eqb_spec (sv_remaining sv) 0); rstep; exists cs, c, c'.
  - split_and!; [done..|]. cbn [snd]. unfold bp_handles. cbn [bp_push_back bp_set_pages bp_set_current bp_pages bp_current].
    rewrite pages_handles_app. unfold pages_handles at 2. cbn. zlia.
  - split_and!; [done..| |].
    + unfold roomy, room. cbn. rewrite Hl. lia.
    + unfold bp_handles. cbn [snd bp_set_current bp_pages bp_current opt_handles]. zlia.
Qed.

Lemma put_slice_round m hs p bs src :
  Inv m (bp_handles p ++ hs) -> bp_rep m p bs -> src <> [] ->
  runs (bp_with_current (put_chunk src) p) m (fun r m' =>
    0 <= r.1 <= zlen src /\ bp_post m hs (bs ++ ztake r.1 src) r.2 m' /\ roomy m' r.2 /\ (roomy m p -> 0 < r.1) /\
    match bp_current p with
    | Some l => r.1 = Z.min (zlen src) (room m l) /\ zlen (bp_handles r.2) = zlen (bp_handles p)
    | None => True
    end).
Proof.
  intros HI Hr Hne. assert (0 < zlen src) as Hpos by (destruct src; [done|zlia]).
  eapply runs_conseq; [apply (bp_with_current_spec (put_chunk src)
    (fun a c c' => c' = c ++ ztake a src /\ 0 <= a <= zlen src /\ (roomy m p -> 0 < a) /\
       match bp_current p with Some l => a = Z.min (zlen src) (room m l) | None => True end) m hs p bs HI Hr)|].
  - intros l m1 c HI1 Hr1 Hcur. pose proof (mut_room m1 l _ c HI1 Hr1) as [Hro Hw].
    eapply runs_conseq; [exact (put_chunk_spec m1 _ l c src HI1 Hr1)|]. intros a m2 (-> & Hp & _).
    eexists. split; [exact Hp|]. split; [done|]. split; [lia|]. unfold roomy. destruct (bp_current p) as [l0|].
    + destruct Hcur as [-> ->]. split; [lia|done].
    + destruct Hcur as [-> Hcap]. pose proof (page_capacity_pos (bp_size p)). split; [zlia|done].
  - intros [a p'] m' (cs & c & c' & -> & (-> & Ha & Hr' & Hmin) & Hp & Hroom & Hlen). cbn in *. rewrite <- app_assoc.
    do 4 (split; [done|]). rewrite Hlen. unfold bp_handles. destruct (bp_current p); [|done]. split; [done|]. cbn [opt_handles]. zlia.
Qed.

Lemma bp_put_slice_loop_spec fuel m hs p bs src :
  Inv m (bp_handles p ++ hs) -> bp_rep m p bs -> (length src < fuel)%nat \/ (roomy m p /\ (length src <= fuel)%nat) ->
  runs (bp_put_slice_loop fuel src p) m (fun p' m' => bp_post m hs (bs ++ src) p' m' /\ (src <> [] \/ roomy m p -> roomy m' p')).
Proof.
  revert m p bs src. induction fuel as [|fuel IH]; intros m p bs src HI Hr Hfuel; cbn [bp_put_slice_loop].
  all: destruct (Z.eqb_spec (zlen src) 0) as [Hz|Hz];
    [apply zlen_0_inv in Hz as ->; rstep; rewrite app_nil_r; split; [split; [done|]; split; [apply frame_refl|done]|]; by intros [|]|].
  - destruct src; [done|cbn in Hfuel; lia].
  - assert (src <> []) as Hne by (by intros ->). rstep. eapply runs_conseq; [by apply put_slice_round|].
    intros [a p1] m1 (Ha & (HI1 & Hf1 & Hr1) & Hroom & Hprog & _). cbn in *.
    eapply runs_conseq; [apply (IH m1 p1 _ (zdrop a src) HI1 Hr1)|].
    + right. split; [done|]. unfold zdrop, zlen in *. rewrite length_drop.
      destruct Hfuel as [Hl|[Hp Hl]]; [lia|]. specialize (Hprog Hp). lia.
    + intros p2 m2 [(HI2 & Hf2 & Hr2) Hro2]. rewrite <- app_assoc, ztake_zdrop in Hr2.
      split; [|intros _; apply Hro2; by right]. split; [done|]. split; [by eapply frame_trans|done].
Qed.

Lemma bp_put_slice_spec m hs p bs src :
  Inv m (bp_handles p ++ hs) -> bp_rep m p bs ->
  runs (bp_put_slice src p) m (fun p' m' => bp_post m hs (bs ++ src) p' m' /\ (src <> [] \/ roomy m p -> roomy m' p')).
Proof. intros. apply bp_put_slice_loop_spec; [done..|]. left. lia. Qed.

(** What fits the current page takes no new page. *)
Lemma bp_put_slice_fits m hs p bs src l :
  Inv m (bp_handles p ++ hs) -> bp_rep m p bs -> bp_current p = Some l -> zlen src <= room m l -> src <> [] ->
  runs (bp_put_slice src p) m (fun p' m' => bp_post m hs (bs ++ src) p' m' /\ zlen (bp_handles p') = zlen (bp_handles p)).
Proof.
  intros HI Hr Hc Hfit Hne. unfold bp_put_slice. cbn [bp_put_slice_loop].
  destruct (Z.eqb_spec (zlen src) 0) as [Hz|Hz]; [by apply zlen_0_inv in Hz|].
  rstep. eapply runs_conseq; [by apply put_slice_round|]. rewrite Hc.
  intros [a p1] m1 (_ & Hp & _ & _ & Ha & Hlen). cbn [fst snd] in *. rewrite Z.min_l in Ha by done. subst a.
  rewrite ztake_all in Hp by done. rewrite zdrop_all by done.
  assert (bp_put_slice_loop (length src) [] p1 m1 = Done (p1, m1)) as He by (by destruct (length src)).
  by eapply runs_eq.
Qed.

Lemma bp_put_u8_spec m hs p bs n :
  Inv m (bp_handles p ++ hs) -> bp_rep m p bs -> roomy m p ->
  runs (bp_put_u8 n p) m (fun p' m' => bp_post m hs (bs ++ [n]) p' m' /\ roomy m' p').
Proof.
  intros HI Hr Hro. unfold bp_put_u8. rstep.
  eapply runs_conseq; [apply (bp_with_current_spec _ (fun _ c c' => c' = c ++ [n]) m hs p bs HI Hr)|].
  - intros l m1 c HI1 Hr1 Hcur. pose proof (mut_room m1 l _ c HI1 Hr1) as [_ Hw].
    eapply runs_conseq; [apply (sv_put_u8_spec m1 l _ c HI1 Hr1)|].
    + unfold roomy in Hro. destruct (bp_current p); [by destruct Hcur as [-> ->]|].
      destruct Hcur as [-> Hcap]. pose proof (page_capacity_pos (bp_size p)). zlia.
    + intros [] m2 [Hp _]. by eexists.
  - intros [[] p'] m' (cs & c & c' & -> & -> & Hp & Hroom & _). rstep. by rewrite <- app_assoc.
Qed.

(** [put_u8] assumes room in the current page, and fails without it. *)
Lemma bp_put_u8_full m p n : ~ roomy m p -> (exists bs, bp_rep m p bs) -> bp_put_u8 n p m = Fault Panic.
Proof.
  unfold roomy, bp_put_u8, bp_with_current, bp_get_current. intros Hro (bs & _ & cs & c & _ & Hc & _).
  destruct (bp_current p) as [l|]; [|done]. destruct Hc as (sv & Hl & _).
  unfold sv_put_u8, sv_length, mbind, M_bind, mret, M_ret, deref, liftS. rewrite Hl.
  unfold room in Hro. rewrite Hl in Hro. rewrite Hl. unfold checked_add, checked_sub. zbool.
  destruct (sv_len sv + 1 <? u32_modulus); [|done]. by zbool.
Qed.

(** ** Whole pages *)

Lemma bp_post_refl m hs p bs : Inv m (bp_handles p ++ hs) -> bp_rep m p bs -> bp_post m hs bs p m.
Proof. intros. split; [done|]. split; [apply frame_refl|done]. Qed.

Lemma bp_post_frame m m' m'' hs p bs : frame m m' hs -> bp_post m' hs bs p m'' -> bp_post m hs bs p m''.
Proof. intros ? (? & ? & ?). split; [done|]. split; [by eapply frame_trans|done]. Qed.

Lemma bp_current_len_spec m p bs :
  bp_rep m p bs -> exists cs c, bs = concat cs ++ c /\ queue_rep m (bp_pages p) cs /\ opt_rep m (bp_current p) c /\
    bp_current_len p m = Done (zlen c, m).
Proof.
  intros (_ & cs & c & Hq & Hc & ->). exists cs, c. do 3 (split; [done|]). unfold bp_current_len.
  destruct (bp_current p) as [l|]; [|by cbn in Hc; subst c]. destruct Hc as (sv & Hl & Hn & _).
  unfold sv_length, mbind, M_bind, deref. rewrite Hl. by rewrite <- Hn.
Qed.

Lemma bp_prepend_spec m hs p bs page c :
  Inv m (page_handles page ++ bp_handles p ++ hs) -> page_rep m page c -> bp_rep m p bs ->
  runs (bp_prepend page p) m (fun r m' => r.1 = negb (zlen c =? 0) /\ bp_post m hs (c ++ bs) r.2 m').
Proof.
  intros HI Hc Hr. unfold bp_prepend. rstep. eapply runs_eq; [by apply (page_is_empty_spec m page c)|].
  destruct (Z.eqb_spec (zlen c) 0) as [->%zlen_0_inv|Hne].
  - rstep. eapply runs_conseq; [by apply page_drop_spec|]. intros [] m' [HI' [Hf1 Hf2]%frame_app]. rstep.
    split; [done|]. split; [done|]. split; [done|]. by eapply bp_rep_frame.
  - rstep. split; [done|]. apply bp_post_refl.
    + unfold bp_handles in *. cbn. unfold pages_handles. cbn. by rewrite <- !app_assoc in *.
    + destruct Hr as (? & cs & c0 & Hq & H0 & ->). split; [done|]. exists (c :: cs), c0.
      split; [by constructor|]. split; [done|]. cbn. by rewrite app_assoc.
Qed.

(** Appending takes no more handles than the page brings. *)
Definition append_post (m : Mem) (hs : list handle) (bs : list byte) (n : Z) (p : BytePages) (m' : Mem) : Prop :=
  bp_post m hs bs p m' /\ zlen (bp_handles p) <= n.

(** A page joins an empty current page: as the current page, or on the queue. *)
Lemma append_storage m hs p cs l c :
  Inv m (HM l :: bp_handles p ++ hs) -> bp_size p <> Unset -> queue_rep m (bp_pages p) cs -> rep_handle m (HM l) c ->
  runs (match bp_current p with Some old => release_shared_vec old | None => mret tt end;;
        mret (bp_set_current (Some l) p)) m (append_post m hs (concat cs ++ c) (zlen (bp_handles p) + 1)).
Proof.
  intros HI Hsz Hq Hr. unfold bp_handles in HI.
  assert (forall m', Inv m' (HM l :: pages_handles (bp_pages p) ++ hs) -> frame m m' (HM l :: pages_handles (bp_pages p) ++ hs) ->
    append_post m hs (concat cs ++ c) (zlen (bp_handles p) + 1) (bp_set_current (Some l) p) m') as Hend.
  { intros m' HI' [Hfl [Hf1 Hf2]%frame_app]%frame_cons. split; [split; [|split; [done|]]|].
    3: unfold bp_handles; cbn [bp_set_current bp_pages bp_current]; destruct (bp_current p); cbn [opt_handles]; zlia.
    - unfold bp_handles. cbn. inv_perm HI'.
    - split; [done|]. exists cs, c. split; [by eapply queue_rep_frame|]. split; [by apply Hfl|done]. }
  rstep. destruct (bp_current p) as [old|].
  - eapply runs_conseq; [apply (release_spec m (HM old) (HM l :: pages_handles (bp_pages p) ++ hs)); [|done]|].
    { cbn in HI. inv_perm HI. }
    intros [] m' (HI' & Hf & _). rstep. by apply Hend.
  - rsteps. apply Hend; [|apply frame_refl]. cbn in HI. by rewrite app_nil_r in HI.
Qed.

Lemma append_queue m hs p cs page c :
  Inv m (page_handles page ++ bp_handles p ++ hs) -> bp_size p <> Unset -> queue_rep m (bp_pages p) cs ->
  opt_rep m (bp_current p) [] -> page_rep m page c ->
  append_post m hs (concat cs ++ c) (zlen (bp_handles p) + zlen (page_handles page)) (bp_push_back page p) m.
Proof.
  intros HI Hsz Hq H0 Hc. split; [apply bp_post_refl|].
  3: unfold bp_handles; cbn [bp_pages bp_current bp_push_back bp_set_pages]; rewrite pages_handles_app;
    unfold pages_handles at 2; cbn; zlia.
  - unfold bp_handles in *. cbn [bp_pages bp_current bp_push_back bp_set_pages]. rewrite pages_handles_app.
    unfold pages_handles at 2. cbn. rewrite app_nil_r. inv_perm HI.
  - split; [done|]. exists (cs ++ [c]), []. split; [by apply queue_rep_snoc|]. split; [done|].
    rewrite concat_app. cbn. by rewrite !app_nil_r.
Qed.

Lemma append_copy m hs p bs page c l :
  Inv m (page_handles page ++ bp_handles p ++ hs) -> bp_rep m p bs -> page_rep m page c ->
  bp_current p = Some l -> zlen c <= room m l -> c <> [] ->
  runs (b ← page_as_ref page; p ← bp_put_slice b p; page_drop page;; mret p) m
    (append_post m hs (bs ++ c) (zlen (bp_handles p))).
Proof.
  intros HI Hr Hc Hcur Hfit Hne. rstep. eapply runs_eq; [by apply (page_as_ref_spec m (bp_handles p ++ hs))|]. rstep.
  assert (Inv m (bp_handles p ++ page_handles page ++ hs)) as HI' by inv_perm HI.
  eapply runs_conseq; [exact (bp_put_slice_fits m _ p bs c l HI' Hr Hcur Hfit Hne)|].
  intros p1 m1 [(HI1 & [Hf1 Hf2]%frame_app & Hr1) Hlen]. rstep.
  assert (Inv m1 (page_handles page ++ bp_handles p1 ++ hs)) as HI1' by inv_perm HI1.
  eapply runs_conseq; [exact (page_drop_spec m1 _ page HI1')|]. intros [] m2 [HI2 [Hf3 Hf4]%frame_app]. rstep.
  split; [|lia]. split; [done|]. split; [by eapply frame_trans|]. by eapply bp_rep_frame.
Qed.

Lemma bp_append_spec m hs p bs page c :
  Inv m (page_handles page ++ bp_handles p ++ hs) -> bp_rep m p bs -> page_rep m page c ->
  runs (bp_append page p) m (append_post m hs (bs ++ c) (zlen (bp_handles p) + zlen (page_handles page))).
Proof.
  intros HI Hr Hc. unfold bp_append. rstep. eapply runs_eq; [by apply (page_is_empty_spec m page c)|].
  destruct (Z.eqb_spec (zlen c) 0) as [->%zlen_0_inv|Hne].
  { rstep. eapply runs_conseq; [by apply page_drop_spec|]. intros [] m' [HI' [Hf1 Hf2]%frame_app]. rstep.
    rewrite app_nil_r. split; [|zlia]. split; [done|]. split; [done|]. by eapply bp_rep_frame. }
  rstep. destruct (bp_current_len_spec m p bs Hr) as (cs & c0 & -> & Hq & H0 & He). pose proof (proj1 Hr) as Hsz.
  eapply runs_eq; [exact He|]. destruct (Z.eqb_spec (zlen c0) 0) as [->%zlen_0_inv|Hne0].
  - rewrite app_nil_r. rstep. destruct (page_into_storage_spec m page c Hc) as [(l & -> & _ & Hs)|Hs]; (eapply runs_eq; [exact Hs|]).
    + destruct Hc. by apply append_storage.
    + rstep. by apply append_queue.
  - rstep. eapply runs_eq; [by apply (page_len_spec m page c)|]. rstep. destruct (bp_current p) as [l|] eqn:Hcur; [|by cbn in H0; subst].
    unfold bp_remaining_mut. rewrite Hcur. pose proof H0 as (sv & Hl & _). unfold sv_remain. do 3 rstep.
    destruct (Z.leb_spec (zlen c) (sv_remaining sv)).
    { eapply runs_conseq; [apply (append_copy m hs p (concat cs ++ c0) page c l); try done|].
      - unfold room. by rewrite Hl.
      - by intros ->.
      - intros p' m' [? ?]. split; [done|zlia]. }
    rstep. split; [apply bp_post_refl|].
    3: unfold bp_handles; rewrite Hcur; cbn [bp_pages bp_current opt_handles]; rewrite !pages_handles_app;
      unfold pages_handles at 2 3; cbn; zlia.
    + unfold bp_handles in *. rewrite Hcur in HI. cbn [bp_pages bp_current opt_handles] in *. rewrite !pages_handles_app.
      unfold pages_handles at 2 3. cbn in *. rewrite !app_nil_r. inv_perm HI.
    + split; [done|]. exists ((cs ++ [c0]) ++ [c]), []. split; [|split; [done|by rewrite !concat_app; cbn; rewrite !app_nil_r]].
      apply queue_rep_snoc; [|done]. apply queue_rep_snoc; [done|].
      unfold bp_handles in HI. rewrite Hcur in HI. cbn in HI.
      apply (page_rep_storage m l (page_handles page ++ pages_handles (bp_pages p) ++ hs)); [inv_perm HI|done].
Qed.
