(* ===== verification/PagesLoops.v ===== *)
(** * The loops over pages

    [take] and the operations that drain, split, join or release a
    [BytePages].  Each loop ends: it takes one page per round. *)
From Stdlib Require Import ZArith Lia.
From stdpp Require Import base numbers gmap list.
From S2P Require Import Prelude Storage StorageInv StorageOps StorageView Bytes BytesRefine Pages PagesSpec.

(** ** Lengths *)

Lemma pages_len_spec m ps cs c :
  queue_rep m ps cs -> 0 <= c -> c + zlen (concat cs) < u64_modulus -> pages_len ps c m = Done (c + zlen (concat cs), m).
Proof.
  intros Hq. revert c. induction Hq as [|p x ps cs Hp _ IH]; intros c Hc Hlt; cbn in *.
  - unfold mret, M_ret. do 2 f_equal. unfold zlen. cbn. lia.
  - rewrite zlen_app in *. pose proof (zlen_nonneg x). pose proof (zlen_nonneg (concat cs)).
    unfold mbind, M_bind. rewrite (page_len_spec _ _ _ Hp). unfold liftS. rewrite checked_add_ok by lia.
    rewrite IH by lia. do 2 f_equal. lia.
Qed.

Lemma bp_len_spec m p bs : bp_rep m p bs -> zlen bs < u64_modulus -> bp_len p m = Done (zlen bs, m).
Proof.
  intros Hr Hlt. destruct (bp_current_len_spec m p bs Hr) as (cs & c & -> & Hq & _ & He).
  unfold bp_len, mbind, M_bind. rewrite He. rewrite zlen_app in *. pose proof (zlen_nonneg c).
  rewrite (pages_len_spec m _ cs) by (done || lia). do 2 f_equal. lia.
Qed.

Lemma pages_is_empty_spec m ps cs : queue_rep m ps cs -> pages_is_empty ps m = Done (zlen (concat cs) =? 0, m).
Proof.
  induction 1 as [|p x ps cs Hp _ IH]; cbn; [done|]. unfold mbind, M_bind. rewrite (page_is_empty_spec _ _ _ Hp).
  rewrite zlen_app. pose proof (zlen_nonneg (concat cs)). pose proof (zlen_nonneg x).
  destruct (Z.eqb_spec (zlen x) 0) as [->|]; [by rewrite IH|]. unfold mret, M_ret. by zbool.
Qed.

Lemma bp_is_empty_spec m p bs : bp_rep m p bs -> bp_is_empty p m = Done (zlen bs =? 0, m).
Proof.
  intros Hr. destruct (bp_current_len_spec m p bs Hr) as (cs & c & -> & Hq & _ & He).
  unfold bp_is_empty, mbind, M_bind. rewrite (pages_is_empty_spec m _ cs Hq). rewrite zlen_app.
  pose proof (zlen_nonneg c). pose proof (zlen_nonneg (concat cs)).
  destruct (Z.eqb_spec (zlen (concat cs)) 0) as [->|]; [by rewrite He|]. unfold mret, M_ret. by zbool.
Qed.

(** ** [take] *)

Lemma bp_take_spec m hs p bs :
  Inv m (bp_handles p ++ hs) -> bp_rep m p bs ->
  match bp_take p with
  | (Some page, p') => exists c bs', bs = c ++ bs' /\ Inv m (page_handles page ++ bp_handles p' ++ hs) /\
      page_rep m page c /\ bp_rep m p' bs' /\ bp_num_pages p = S (bp_num_pages p')
  | (None, p') => bs = [] /\ p' = p /\ bp_handles p = [] /\ bp_num_pages p = 0%nat
  end.
Proof.
  intros HI (Hsz & cs & c & Hq & Hc & ->). unfold bp_take, bp_handles, bp_num_pages in *.
  destruct p as [size ps cur]. cbn in *. destruct Hq as [|page x ps cs Hp Hq].
  - destruct cur as [l|]; cbn in *; [|by subst c]. exists c, []. rewrite app_nil_r. split; [done|]. split; [done|].
    split; [by eapply page_rep_storage|]. split; [|done]. split; [done|]. exists [], []. by repeat split; try constructor.
  - exists x, (concat cs ++ c). rewrite app_assoc. split; [done|]. split; [|split; [done|split]].
    + unfold pages_handles in *. cbn in *. by rewrite <- !app_assoc in *.
    + split; [done|]. by exists cs, c.
    + by destruct cur.
Qed.

Lemma no_pages m p bs : bp_rep m p bs -> bp_num_pages p = 0%nat -> bs = [].
Proof.
  intros (_ & cs & c & Hq & Hc & ->) H0. unfold bp_num_pages in H0. destruct (bp_current p); [done|]. cbn in Hc. subst c.
  destruct Hq; [done|]. by rewrite length_cons in H0.
Qed.

(** ** Draining *)

Section drain.
Context {A : Type} (f : BytePage -> A -> M Mem A).
(** The handles an accumulator owns and the bytes it shows. *)
Context (own : A -> list handle) (shows : Mem -> A -> list byte -> Prop) (limit : Z).
Hypothesis Hstep : forall m hs page c a x,
  Inv m (page_handles page ++ own a ++ hs) -> page_rep m page c -> shows m a x -> zlen (x ++ c) <= limit ->
  runs (f page a) m (fun a' m' => Inv m' (own a' ++ hs) /\ frame m m' hs /\ shows m' a' (x ++ c)).

Lemma take_loop_spec fuel m hs p bs a x :
  Inv m (bp_handles p ++ own a ++ hs) -> bp_rep m p bs -> shows m a x -> zlen (x ++ bs) <= limit ->
  (bp_num_pages p <= fuel)%nat ->
  runs (take_loop f fuel p a) m (fun r m' =>
    Inv m' (bp_handles r.1 ++ own r.2 ++ hs) /\ frame m m' hs /\ bp_rep m' r.1 [] /\ shows m' r.2 (x ++ bs) /\
    bp_handles r.1 = []).
Proof.
  revert m p bs a x. induction fuel as [|fuel IH]; intros m p bs a x HI Hr Hs Hlim Hfuel; cbn [take_loop];
    pose proof (bp_take_spec m (own a ++ hs) p bs HI Hr) as Ht; destruct (bp_take p) as [[page|] p'].
  1: destruct Ht as (c & bs' & _ & _ & _ & _ & Hn); lia.
  2: destruct Ht as (c & bs' & -> & HI1 & Hc & Hr1 & Hn).
  1,3: destruct Ht as (-> & -> & He & _); rstep; cbn [fst snd]; rewrite app_nil_r;
    split; [done|]; split; [apply frame_refl|done].
  assert (Inv m (page_handles page ++ own a ++ bp_handles p' ++ hs)) as HI2 by inv_perm HI1.
  rewrite app_assoc in Hlim. rstep. eapply runs_conseq; [apply (Hstep m (bp_handles p' ++ hs) page c a x HI2 Hc Hs)|].
  { zlia. }
  intros a' m' (HI3 & [Hf1 Hf2]%frame_app & Hs'). rewrite app_assoc.
  assert (Inv m' (bp_handles p' ++ own a' ++ hs)) as HI4 by inv_perm HI3.
  eapply runs_conseq; [apply (IH m' p' bs' a' (x ++ c) HI4); [by eapply bp_rep_frame|done|done|lia]|].
  intros [p2 a2] m2 (? & ? & ?). split; [done|]. split; [by eapply frame_trans|done].
Qed.
End drain.

Lemma bp_move_to_spec m hs p bs to ts :
  Inv m (bp_handles p ++ bp_handles to ++ hs) -> bp_rep m p bs -> bp_rep m to ts ->
  runs (bp_move_to p to) m (fun r m' => Inv m' (bp_handles r.1 ++ bp_handles r.2 ++ hs) /\ frame m m' hs /\
    bp_rep m' r.1 [] /\ bp_rep m' r.2 (ts ++ bs)).
Proof.
  intros HI Hr Ht. unfold bp_move_to.
  eapply runs_conseq; [apply (take_loop_spec bp_append bp_handles bp_rep (zlen (ts ++ bs))); try done; clear|].
  - intros m hs page c a x HI Hc Ha _. eapply runs_conseq; [by apply bp_append_spec|]. by intros p' m' [(? & ? & ?) _].
  - by intros r m' (? & ? & ? & ? & _).
Qed.

Lemma bp_clear_spec m hs p bs :
  Inv m (bp_handles p ++ hs) -> bp_rep m p bs ->
  runs (bp_clear p) m (fun p' m' => bp_post m hs [] p' m').
Proof.
  intros HI Hr. unfold bp_clear. rstep.
  eapply runs_conseq; [apply (take_loop_spec (fun page _ => page_drop page) (fun _ => []) (fun _ _ _ => True) (zlen bs)
    ) with (hs := hs) (bs := bs) (x := []); try done; clear|].
  - intros m hs page c a x HI Hc _ _. eapply runs_conseq; [by apply page_drop_spec|]. by intros [] m' [? ?].
  - intros [p' []] m' (? & ? & ? & _). by rstep.
Qed.

(** The bytes gathered into one [BytesMut]. *)
Lemma gather_spec m hs page c l x :
  Inv m (page_handles page ++ [HM l] ++ hs) -> page_rep m page c -> rep_handle m (HM l) x -> fits_u32 (zlen (x ++ c)) ->
  runs (gather page l) m (fun l' m' => Inv m' ([HM l'] ++ hs) /\ frame m m' hs /\ rep_handle m' (HM l') (x ++ c)).
Proof.
  intros HI Hc Hr Hfit. unfold gather. rstep. eapply runs_eq; [exact (page_as_ref_spec m _ page c HI Hc)|]. rstep.
  assert (Inv m (HM l :: page_handles page ++ hs)) as HI' by inv_perm HI. rewrite zlen_app in Hfit.
  eapply runs_conseq; [exact (put_slice_spec m l (page_handles page ++ hs) x c HI' Hr Hfit)|].
  intros l' m1 (HI1 & [Hf1 Hf2]%frame_app & Hr1). rstep.
  assert (Inv m1 (page_handles page ++ HM l' :: hs)) as HI2 by inv_perm HI1.
  eapply runs_conseq; [exact (page_drop_spec m1 _ page HI2)|]. intros [] m2 (HI3 & [Hf3 Hf4]%frame_cons). rstep.
  split; [done|]. split; [by eapply frame_trans|by apply Hf3].
Qed.

Lemma gather_loop_spec m hs p bs l x :
  Inv m (bp_handles p ++ [HM l] ++ hs) -> bp_rep m p bs -> rep_handle m (HM l) x -> fits_u32 (zlen (x ++ bs)) ->
  runs (take_loop gather (bp_num_pages p) p l) m (fun r m' =>
    Inv m' (bp_handles r.1 ++ [HM r.2] ++ hs) /\ frame m m' hs /\ bp_rep m' r.1 [] /\
    rep_handle m' (HM r.2) (x ++ bs) /\ bp_handles r.1 = []).
Proof.
  intros HI Hr Hx Hfit.
  apply (take_loop_spec gather (fun l => [HM l]) (fun m l => rep_handle m (HM l)) (zlen (x ++ bs))); try done.
  clear - Hfit. intros m hs page c l y HI Hc Hy Hle. apply gather_spec; try done. unfold fits_u32 in *. lia.
Qed.

Lemma create_empty_spec m hs n :
  Inv m hs -> 0 <= n -> fits_u32 n ->
  runs (bm_with_capacity n) m (fun l m' => Inv m' (HM l :: hs) /\ frame m m' hs /\ rep_handle m' (HM l) []).
Proof.
  intros HI Hn Hfit. eapply runs_conseq; [apply (create_spec m hs Unset n []); [done|by apply Hn|done|by left]|].
  by intros l m' (? & ? & ? & _).
Qed.

Lemma bp_into_bytes_spec m hs p bs :
  Inv m (bp_handles p ++ hs) -> bp_rep m p bs -> fits_u32 (zlen bs) ->
  runs (bp_into_bytes p) m (bytes_post m hs bs).
Proof.
  intros HI Hr Hfit. unfold bp_into_bytes, bp_into_bytes_mut. do 2 rstep.
  eapply runs_eq; [apply (bp_len_spec m p bs Hr); unfold fits_u32, METADATA_SIZE, u32_modulus, u64_modulus in *; lia|].
  rstep. eapply runs_conseq; [apply (create_empty_spec m (bp_handles p ++ hs) (zlen bs)); [done|zlia|done]|].
  intros l m1 (HI1 & [Hf1 Hf2]%frame_app & Hl). assert (Inv m1 (bp_handles p ++ [HM l] ++ hs)) as HI2 by inv_perm HI1.
  rstep. eapply runs_conseq; [apply (gather_loop_spec m1 hs p bs l []); try done; by eapply bp_rep_frame|].
  intros [p' l'] m2 (HI3 & Hf3 & _ & Hl' & He). cbn [fst snd] in *. rewrite He in HI3. rstep.
  eapply runs_conseq; [exact (sv_freeze_spec m2 l' hs bs HI3 Hl')|]. intros b m3 (? & ? & ?).
  split; [done|]. split; [|done]. eapply frame_trans; [exact Hf2|]. by eapply frame_trans.
Qed.

Lemma bp_freeze_spec m hs p bs :
  Inv m (bp_handles p ++ hs) -> bp_rep m p bs -> fits_u32 (zlen bs) ->
  runs (bp_freeze p) m (fun r m' =>
    Inv m' (HB r.1 :: bp_handles r.2 ++ hs) /\ frame m m' hs /\ rep_storage m' r.1 bs /\ bp_rep m' r.2 []).
Proof.
  intros HI Hr Hfit. unfold bp_freeze. rstep.
  assert (runs (if (bp_num_pages p =? 0)%nat then mret true else bp_is_empty p) m (fun e m' => m' = m /\ (e = true -> bs = []))) as He.
  { destruct (Nat.eqb_spec (bp_num_pages p) 0) as [H0|].
    - rstep. split; [done|]. intros _. by eapply no_pages.
    - eapply runs_eq; [by apply bp_is_empty_spec|]. split; [done|]. intros ?%Z.eqb_eq. by apply zlen_0_inv. }
  eapply runs_conseq; [exact He|]. intros [] m0 [-> Hemp].
  { rstep. rewrite (Hemp eq_refl) in *. destruct (empty_bytes_inv m _ HI) as [HI' Hb].
    split; [done|]. split; [apply frame_refl|done]. }
  clear He Hemp. pose proof (bp_take_spec m hs p bs HI Hr) as Ht.
  destruct (Nat.eqb_spec (bp_num_pages p) 1) as [H1|].
  - destruct (bp_take p) as [[page|] p']; [|destruct Ht as (_ & _ & _ & ?); lia].
    destruct Ht as (c & bs' & -> & HI1 & Hc & Hr1 & Hn). rstep. assert (bs' = []) as -> by (eapply no_pages; [done|lia]).
    eapply runs_conseq; [exact (page_freeze_spec m _ page c HI1 Hc)|]. intros b m1 (HI2 & [Hf1 Hf2]%frame_app & Hb).
    rstep. rewrite app_nil_r. split; [done|]. split; [done|]. split; [done|]. by eapply bp_rep_frame.
  - rstep. eapply runs_eq; [apply (bp_len_spec m p bs Hr); unfold fits_u32, METADATA_SIZE, u32_modulus, u64_modulus in *; lia|].
    rstep. eapply runs_conseq; [apply (create_empty_spec m (bp_handles p ++ hs) (zlen bs)); [done|zlia|done]|].
    intros l m1 (HI1 & [Hf1 Hf2]%frame_app & Hl). assert (Inv m1 (bp_handles p ++ [HM l] ++ hs)) as HI2 by inv_perm HI1.
    rstep. eapply runs_conseq; [apply (gather_loop_spec m1 hs p bs l []); try done; by eapply bp_rep_frame|].
    intros [p' l'] m2 (HI3 & Hf3 & Hp' & Hl' & He). cbn [fst snd] in *. rstep.
    assert (Inv m2 (HM l' :: bp_handles p' ++ hs)) as HI4 by inv_perm HI3.
    eapply runs_conseq; [exact (sv_freeze_spec m2 l' _ bs HI4 Hl')|]. intros b m3 (? & [Hf4 Hf5]%frame_app & ?). rstep.
    split; [done|]. split; [|split; [done|by eapply bp_rep_frame]]. eapply frame_trans; [exact Hf2|]. by eapply frame_trans.
Qed.

(** ** Splitting *)

(** One page split at [n] with its head moved to [to]; what is left. *)
Lemma split_page_spec m hs page c to ts n :
  Inv m (page_handles page ++ bp_handles to ++ hs) -> page_rep m page c -> bp_rep m to ts -> 0 <= n <= zlen c ->
  zlen (bp_handles to) + zlen hs + 1 < u32_max ->
  exists head rest to' m1 m2, page_split_to page n m = Done ((head, rest), m1) /\ bp_append head to m1 = Done (to', m2) /\
    Inv m2 (page_handles rest ++ bp_handles to' ++ hs) /\ frame m m2 hs /\ page_rep m2 rest (zdrop n c) /\
    bp_rep m2 to' (ts ++ ztake n c) /\ zlen (bp_handles to') <= zlen (bp_handles to) + 1.
Proof.
  intros HI Hc Ht Hn Hcount.
  destruct (page_split_to_spec m (bp_handles to ++ hs) page c n HI Hc Hn) as ([head rest] & m1 & He1 & HI1 & [Hf1 Hf2]%frame_app & Hh & Hrest).
  { rewrite zlen_app. lia. }
  cbn [fst snd] in *. assert (Inv m1 (page_handles head ++ bp_handles to ++ page_handles rest ++ hs)) as HI2 by inv_perm HI1.
  destruct (bp_append_spec m1 (page_handles rest ++ hs) to ts head (ztake n c) HI2)
    as (to' & m2 & He2 & (HI3 & [Hf3 Hf4]%frame_app & Hto) & Hw); [by eapply bp_rep_frame|done|].
  exists head, rest, to', m1, m2. do 2 (split; [done|]). split; [inv_perm HI3|].
  split; [by eapply frame_trans|]. split; [by eapply page_rep_frame|]. split; [done|]. destruct head; cbn in Hw; zlia.
Qed.

(** The content after [split_into] stopped in the queue, or passed it. *)
Definition split_result (n : Z) (cs : list (list byte)) (ts : list byte)
    (r : list BytePage * option Z * BytePages) (m' : Mem) : Prop :=
  exists cs', queue_rep m' r.1.1 cs' /\
    match r.1.2 with
    | None => n <= zlen (concat cs) /\ concat cs' = zdrop n (concat cs) /\ bp_rep m' r.2 (ts ++ ztake n (concat cs))
    | Some k => r.1.1 = [] /\ k = n - zlen (concat cs) /\ 0 <= k /\ bp_rep m' r.2 (ts ++ concat cs)
    end.

Lemma split_pages_spec m hs ps cs to ts n :
  Inv m (pages_handles ps ++ bp_handles to ++ hs) -> queue_rep m ps cs -> bp_rep m to ts -> 0 <= n ->
  zlen (pages_handles ps) + zlen (bp_handles to) + zlen hs + zlen ps + 1 < u32_max ->
  runs (split_pages ps n to) m (fun r m' =>
    Inv m' (pages_handles r.1.1 ++ bp_handles r.2 ++ hs) /\ frame m m' hs /\ split_result n cs ts r m' /\
    zlen (bp_handles r.2) <= zlen (bp_handles to) + zlen ps).
Proof.
  intros HI Hq. revert m to ts n HI Hq. revert cs. induction ps as [|page ps IH]; intros cs m to ts n HI Hq Ht Hn Hcount; cbn [split_pages].
  - inversion Hq; subst. rstep. cbn [fst snd]. split; [done|]. split; [apply frame_refl|]. split; [|zlia].
    exists []. split; [constructor|]. cbn. rewrite app_nil_r. unfold zlen. cbn. by rewrite Z.sub_0_r.
  - inversion Hq as [|? c ? cs0 Hc Hq0]; subst. unfold pages_handles in HI, Hcount. cbn in HI, Hcount. fold (pages_handles ps) in HI, Hcount.
    rewrite <- app_assoc in HI. assert (Inv m (page_handles page ++ bp_handles to ++ pages_handles ps ++ hs)) as HI1 by inv_perm HI.
    rstep. eapply runs_eq; [by apply (page_len_spec m page c)|]. rstep. set (k := Z.min (zlen c) n).
    destruct (split_page_spec m _ page c to ts k HI1 Hc Ht) as (head & rest & to' & m1 & m2 & He1 & He2 & HI2 & [Hf1 Hf2]%frame_app & Hrest & Hto & Hw).
    { zlia. } { zlia. }
    eapply runs_eq; [exact He1|]. rstep. eapply runs_eq; [exact He2|]. rstep.
    eapply runs_eq; [by apply (page_is_empty_spec m2 rest (zdrop k c))|].
    rewrite zlen_zdrop. destruct (Z.eqb_spec (Z.max 0 (zlen c - Z.max 0 k)) 0) as [Hk|Hk].
    + assert (k = zlen c /\ zlen c <= n) as [Hkc Hle] by (subst k; zlen_pos; lia). rewrite Hkc, ztake_all in Hto by lia.
      rstep. eapply runs_conseq; [exact (page_drop_spec m2 _ rest HI2)|].
      intros [] m3 [HI3 [Hf3 [Hf4 Hf5]%frame_app]%frame_app]. rstep. rstep. rewrite Hkc.
      eapply runs_conseq; [apply (IH cs0 m3 to' (ts ++ c) (n - zlen c)); [inv_perm HI3| |by eapply bp_rep_frame|lia|zlia]|].
      { by do 2 (eapply queue_rep_frame; [done|]). }
      intros [[ps' r] to2] m4 (HI4 & Hf6 & (cs' & Hq' & Hres) & Hw'). cbn [fst snd] in *. split; [done|].
      split; [eapply frame_trans; [exact Hf2|]; by eapply frame_trans|]. split; [|zlia]. exists cs'. split; [done|]. cbn [fst snd concat].
      destruct r as [k'|].
      * destruct Hres as (-> & -> & ? & Hr). rewrite zlen_app, app_assoc. split; [done|]. split; [lia|]. split; [lia|done].
      * destruct Hres as (? & -> & Hr). rewrite zlen_app, zdrop_app_ge, ztake_app_ge, app_assoc by done. split; [lia|]. by split.
    + rstep. cbn [fst snd]. assert (k = n /\ n < zlen c) as [-> Hlt] by (subst k; zlen_pos; lia).
      split; [|split; [done|split; [|zlia]]].
      * unfold pages_handles. cbn. fold (pages_handles ps). rewrite <- app_assoc. inv_perm HI2.
      * exists (zdrop n c :: cs0). split; [constructor; [done|by eapply queue_rep_frame]|]. cbn [fst snd concat].
        rewrite zlen_app, zdrop_app_le, ztake_app_le by lia. zlen_pos. split; [lia|]. by split.
Qed.

Lemma bp_split_into_spec m hs p bs to ts n :
  Inv m (bp_handles p ++ bp_handles to ++ hs) -> bp_rep m p bs -> bp_rep m to ts -> 0 <= n ->
  zlen (bp_handles p) + zlen (bp_handles to) + zlen hs + 2 * zlen (bp_pages p) + 1 < u32_max ->
  runs (bp_split_into n p to) m (fun r m' => Inv m' (bp_handles r.1 ++ bp_handles r.2 ++ hs) /\ frame m m' hs /\
    bp_rep m' r.1 (zdrop n bs) /\ bp_rep m' r.2 (ts ++ ztake n bs)).
Proof.
  intros HI (Hsz & cs & c & Hq & Hc & ->) Ht Hn Hcount. unfold bp_handles at 1 in HI. unfold bp_handles at 1 in Hcount.
  assert (Inv m (pages_handles (bp_pages p) ++ bp_handles to ++ opt_handles (bp_current p) ++ hs)) as HI1 by inv_perm HI.
  unfold bp_split_into. rstep.
  eapply runs_conseq; [apply (split_pages_spec m _ (bp_pages p) cs to ts n HI1 Hq Ht Hn); zlia|].
  intros [[ps rest] to'] m1 (HI2 & [Hf1 Hf2]%frame_app & (cs' & Hq' & Hres) & Hw). cbn [fst snd] in *.
  assert (opt_rep m1 (bp_current p) c) as Hc1 by (by eapply opt_rep_frame).
  destruct rest as [k|]; cbn [fst snd].
  - destruct Hres as (-> & -> & Hk & Hto). zlen_pos. destruct (Z.ltb_spec 0 (n - zlen (concat cs))) as [Hpos|Hz].
    + unfold bp_take. cbn. destruct (bp_current p) as [l|]; cbn in Hc1, HI2; [|].
      * rstep. assert (Inv m1 (HM l :: bp_handles to' ++ hs)) as HI3 by inv_perm HI2.
        pose proof (page_rep_storage m1 l _ c HI3 Hc1) as Hpage.
        eapply runs_eq; [by apply (page_len_spec m1 (page_from_storage l) c)|]. rstep.
        destruct (split_page_spec m1 hs (page_from_storage l) c to' (ts ++ concat cs) (Z.min (zlen c) (n - zlen (concat cs))) HI3 Hpage Hto)
          as (head & r & to2 & m2 & m3 & He1 & He2 & HI4 & Hf3 & Hr' & Hto2 & _); [zlia|zlia|].
        eapply runs_eq; [exact He1|]. rstep. eapply runs_eq; [exact He2|]. rstep.
        rewrite zdrop_min in Hr'. rewrite ztake_min in Hto2.
        eapply runs_conseq; [apply (bp_append_spec m3 (bp_handles to2 ++ hs) (mkBytePages (bp_size p) [] None) [] r (zdrop (n - zlen (concat cs)) c) HI4); [|exact Hr']|].
        { split; [done|]. exists [], []. by repeat split; try constructor. }
        intros p2 m4 [(HI5 & [Hf4 Hf5]%frame_app & Hp2) _]. rstep. cbn [fst snd]. split; [done|].
        split; [eapply frame_trans; [exact Hf2|]; by eapply frame_trans|].
        rewrite zdrop_app_ge, ztake_app_ge, app_assoc by lia. split; [done|]. by eapply bp_rep_frame.
      * subst c. rstep. cbn [fst snd]. split; [done|]. split; [done|]. rewrite app_nil_r, ztake_all by lia. split; [|done].
        split; [done|]. exists [], []. rewrite zdrop_all by lia. by repeat split; try constructor.
    + rstep. cbn [fst snd]. assert (n = zlen (concat cs)) as -> by lia. rewrite zdrop_app_len, ztake_app_len.
      split; [|split; [done|split; [|done]]].
      * unfold bp_handles at 1. cbn. inv_perm HI2.
      * split; [done|]. exists [], c. by repeat split; try constructor.
  - destruct Hres as (Hle & Hcs' & Hto). rstep. cbn [fst snd]. rewrite zdrop_app_le, ztake_app_le by done.
    split; [|split; [done|split; [|done]]].
    + unfold bp_handles at 1. cbn. inv_perm HI2.
    + split; [done|]. exists cs', c. cbn. by rewrite Hcs'.
Qed.

(** ** The current page as a [BytesMut] *)

Lemma sv_unsize_spec m l hs bs :
  Inv m (HM l :: hs) -> rep_handle m (HM l) bs -> runs (sv_unsize l) m (fun _ m' => mut_post m hs l bs m').
Proof.
  intros HI Hr. destruct (mut_block m l hs bs HI Hr) as (sv & Hl & Hn & Hh & (?&?&?&?&?&?&?) & _). unfold sv_unsize.
  destruct (Inv_mut m l sv (with_size Unset sv) hs bs) as (? & ? & ?); try done.
  - unfold block_ok, with_size. cbn. repeat split; try done. by left.
  - by right.
  - rsteps. by split.
Qed.

(** [with_bytes_mut] for a closure that turns the content [c] of the page it
    is given into [g c]. *)
Lemma bp_with_bytes_mut_spec {A} (f : BytesMut -> M Mem (A * BytesMut)) (g : list byte -> list byte) m hs p bs :
  Inv m (bp_handles p ++ hs) -> bp_rep m p bs ->
  (forall m1 hs1 l c, Inv m1 (HM l :: hs1) -> rep_handle m1 (HM l) c -> zlen c <= zlen bs ->
     runs (f l) m1 (fun r m2 => mut_post m1 hs1 r.2 (g c) m2)) ->
  runs (bp_with_bytes_mut f p) m (fun r m' => exists cs c, bs = concat cs ++ c /\ bp_post m hs (concat cs ++ g c) r.2 m').
Proof.
  intros HI Hr Hf. unfold bp_with_bytes_mut. rstep. pose proof (proj1 Hr) as Hsz.
  eapply runs_conseq; [by apply (bp_get_current_spec m hs p bs)|].
  intros l m1 (cs & c & -> & (HI1 & Hf1 & Hr1) & Hq & _). pose proof Hr1 as (sv & Hl & _). unfold sv_cap. do 4 rstep. rstep.
  eapply runs_conseq; [apply (Hf m1 _ l c HI1 Hr1); zlia|]. intros [a buf] m2 Hp2. cbn [snd] in *.
  pose proof Hp2 as (HI2 & Hf2 & Hr2). pose proof Hr2 as (sv2 & Hl2 & _). unfold bm_capacity, sv_cap. do 5 rstep.
  assert (runs (if sv_capacity sv2 =? sv_capacity sv then mret tt else sv_unsize buf) m2
    (fun _ m3 => mut_post m1 (pages_handles (bp_pages p) ++ hs) buf (g c) m3)) as Hu.
  { destruct (_ =? _); [by rstep|]. eapply runs_conseq; [exact (sv_unsize_spec m2 buf _ (g c) HI2 Hr2)|].
    intros [] m3 ?. by eapply mut_post_trans. }
  eapply runs_conseq; [exact Hu|]. intros [] m3 Hp3. pose proof Hp3 as (HI3 & [Hf3 _]%frame_app & Hr3).
  pose proof Hr3 as (sv3 & Hl3 & _). unfold sv_length. do 4 rstep.
  destruct (bp_put_back m m3 hs p buf cs (g c)) as [H1 H2]; [done| |by eapply queue_rep_frame|].
  { eapply mut_post_trans; [|exact Hp3]. by split. }
  destruct (_ <=? _); rstep; exists cs, c; by split.
Qed.

(** ** Release *)

Lemma drop_pages_spec m hs ps : Inv m (pages_handles ps ++ hs) -> runs (drop_pages ps) m (fun _ m' => Inv m' hs /\ frame m m' hs).
Proof.
  revert m. induction ps as [|page ps IH]; intros m HI; cbn [drop_pages].
  - rstep. split; [done|apply frame_refl].
  - unfold pages_handles in HI. cbn in HI. rewrite <- app_assoc in HI. rstep.
    eapply runs_conseq; [by apply page_drop_spec|]. intros [] m1 [HI1 [_ Hf1]%frame_app].
    eapply runs_conseq; [by apply IH|]. intros [] m2 [? ?]. split; [done|]. by eapply frame_trans.
Qed.

Lemma bp_drop_spec m hs p : Inv m (bp_handles p ++ hs) -> runs (bp_drop p) m (fun _ m' => Inv m' hs /\ frame m m' hs).
Proof.
  intros HI. unfold bp_handles in HI. rewrite <- app_assoc in HI. unfold bp_drop. rstep.
  eapply runs_conseq; [by apply drop_pages_spec|]. intros [] m1 [HI1 Hf]. destruct (bp_current p) as [l|]; cbn in *.
  - apply frame_cons in Hf as [_ Hf]. eapply runs_conseq; [by apply (release_spec m1 (HM l) hs)|].
    intros [] m2 (? & ? & _). split; [done|]. by eapply frame_trans.
  - rstep. by split.
Qed.

(** ** Copies *)

(** The pages whose copy is independent of them: the copy of a [StorageVec]
    is a further handle on the same header. *)
Definition copyable (page : BytePage) : bool := match page with PgStorage _ => false | _ => true end.

Lemma page_clone_spec m hs page c :
  Inv m (page_handles page ++ hs) -> page_rep m page c -> copyable page = true -> zlen hs + 1 < u32_max ->
  runs (page_clone page) m (fun g m' =>
    Inv m' (page_handles g ++ page_handles page ++ hs) /\ frame m m' (page_handles page ++ hs) /\ page_rep m' g c /\
    zlen (page_handles g) <= 1).
Proof.
  intros HI [Hfit Hp] Hcp Hc. destruct page as [b|l|v]; [|done|]; cbn in *; rstep.
  - eapply runs_conseq; [apply (shallow_clone_spec m b hs c HI Hp); zlia|]. intros b' m' (? & ? & ?). by rstep.
  - subst v. eapply runs_conseq; [exact (storage_from_slice_spec m hs c HI Hfit)|]. intros b' m' (? & ? & ?). by rstep.
Qed.

Lemma copy_pages_spec m hs ps cs q d :
  Inv m (pages_handles ps ++ bp_handles q ++ hs) -> queue_rep m ps cs -> bp_rep m q d -> forallb copyable ps = true ->
  zlen (pages_handles ps) + zlen (bp_handles q) + zlen hs + zlen ps < u32_max ->
  runs (copy_pages ps q) m (fun q' m' =>
    Inv m' (bp_handles q' ++ pages_handles ps ++ hs) /\ frame m m' (pages_handles ps ++ hs) /\ bp_rep m' q' (d ++ concat cs) /\
    zlen (bp_handles q') <= zlen (bp_handles q) + zlen ps).
Proof.
  intros HI Hq. revert m hs q d HI Hq. revert cs. induction ps as [|g ps IH]; intros cs m hs q d HI Hq Hd Hcp Hc.
  - inversion Hq; subst. cbn. rstep. rewrite app_nil_r. split; [done|]. split; [apply frame_refl|]. split; [done|zlia].
  - inversion Hq as [|? c ? cs' Hg Hqs]; subst. cbn [forallb copy_pages] in *. apply andb_true_iff in Hcp as [Hcg Hcp].
    unfold pages_handles in *. cbn in *. fold (pages_handles ps) in *. rewrite zlen_app, zlen_cons in Hc.
    assert (zlen (page_handles g) <= 1) as Hg1 by (by destruct g). zlen_pos. rstep.
    eapply runs_conseq; [apply (page_clone_spec m (pages_handles ps ++ bp_handles q ++ hs) g c); [inv_perm HI|done|done|zlia]|].
    intros g' m1 (HI1 & Hf1 & Hg' & Hn'). rstep.
    assert (frame m m1 (bp_handles q)) as Hfq by (eapply frame_sub; [|exact Hf1]; set_solver).
    eapply runs_conseq; [apply (bp_append_spec m1 (page_handles g ++ pages_handles ps ++ hs) q d g' c);
      [inv_perm HI1|by eapply bp_rep_frame|done]|].
    intros q1 m2 [(HI2 & Hf2 & Hq1) Hn1].
    eapply runs_conseq; [apply (IH cs' m2 (page_handles g ++ hs) q1 (d ++ c)); [inv_perm HI2| |done|done|zlia]|].
    { eapply queue_rep_frame; [|eapply queue_rep_frame; [|exact Hqs]]; [eapply frame_sub; [|exact Hf2]|eapply frame_sub; [|exact Hf1]]; set_solver. }
    intros q' m3 (HI3 & Hf3 & Hq' & Hn3). rewrite <- app_assoc in *. split; [inv_perm HI3|]. split; [|split; [done|rewrite zlen_cons; lia]].
    eapply frame_trans; [eapply frame_sub; [|exact Hf1]|eapply frame_trans; [eapply frame_sub; [|exact Hf2]|eapply frame_sub; [|exact Hf3]]]; set_solver.
Qed.

Lemma bp_copy_to_spec m hs p c q d :
  Inv m (bp_handles p ++ bp_handles q ++ hs) -> bp_rep m p c -> bp_rep m q d -> forallb copyable (bp_pages p) = true ->
  zlen (bp_handles p) + zlen (bp_handles q) + zlen hs + zlen (bp_pages p) < u32_max ->
  runs (bp_copy_to p q) m (fun q' m' => Inv m' (bp_handles p ++ bp_handles q' ++ hs) /\
    frame m m' (bp_handles p ++ hs) /\ bp_rep m' q' (d ++ c)).
Proof.
  intros HI (_ & cs & x & Hq & Hx & ->) Hd Hcp Hc. unfold bp_copy_to, bp_handles in *. rewrite zlen_app in Hc. rstep.
  eapply runs_conseq; [apply (copy_pages_spec m (opt_handles (bp_current p) ++ hs) _ cs q d); [|done|done|done|]|].
  { unfold bp_handles. inv_perm HI. } { unfold bp_handles. zlia. }
  intros q1 m1 (HI1 & Hf1 & Hq1 & Hn1). rewrite app_assoc. destruct (bp_current p) as [l|]; cbn in *.
  - assert (rep_handle m1 (HM l) x) as Hl by (apply (Hf1 (HM l)); [set_solver|done]).
    assert (Inv m1 (HM l :: pages_handles (bp_pages p) ++ bp_handles q1 ++ hs)) as HIl by inv_perm HI1.
    rstep. eapply runs_eq; [exact (sv_as_ref_spec m1 l _ x HIl Hl)|]. rstep.
    eapply runs_conseq; [apply (storage_from_slice_spec m1 _ x HI1); by eapply mut_fits|]. intros b m2 (HI2 & Hf2 & Hb).
    eapply runs_conseq; [apply (bp_append_spec m2 (HM l :: pages_handles (bp_pages p) ++ hs) q1 (d ++ concat cs) (PgBytes b) x);
      [inv_perm HI2| |]|].
    { eapply bp_rep_frame; [|done]. eapply frame_sub; [|exact Hf2]. set_solver. } { split; [by eapply mut_fits|done]. }
    intros q' m3 [(HI3 & Hf3 & Hq') _]. split; [unfold bp_handles in *; inv_perm HI3|]. split; [|done].
    eapply frame_trans; [eapply frame_sub; [|exact Hf1]|eapply frame_trans; [eapply frame_sub; [|exact Hf2]|eapply frame_sub; [|exact Hf3]]]; set_solver.
  - subst x. rstep. rewrite !app_nil_r in *. split; [unfold bp_handles in *; inv_perm HI1|done].
Qed.
