(* ===== verification/PagesRefine.v ===== *)
(** * [BytePages] are byte strings

    Programs over any number of [BytePages] and loose pages, as sequences of
    the operations of [Pages.v].  The specification runs them on byte strings
    and leaves open only where pages begin and end.  The theorem shows that
    the implementation follows it as long as the program keeps to the
    contract of the operations, and names the one panic inside it. *)
From Stdlib Require Import ZArith Lia.
From stdpp Require Import base numbers gmap list.
From S2P Require Import Prelude Storage StorageInv StorageOps StorageView Bytes BytesRefine Pages PagesSpec PagesLoops.

(** ** Programs *)

(** Buffers and loose pages are named by their position; the ones an
    operation touched are put in front.  A second index counts in the list
    without the first buffer. *)
Inductive pop :=
| PNew (size : BytePageSize) | PSetPageSize (i : nat) (size : BytePageSize)
| PPutSlice (i : nat) (bs : list byte) | PPutU8 (i : nat) (b : byte) | PEncode (i : nat) (bs : list byte)
| PLen (i : nat) | PIsEmpty (i : nat) | PTake (i : nat) | PAppend (i k : nat) | PPrepend (i k : nat)
| PMoveTo (i j : nat) | PSplitInto (n : Z) (i j : nat) | PSplitTo (n : Z) (i : nat) | PClear (i : nat)
| PFreeze (i : nat) | PTryGetCurrent (i j : nat) | PIntoBytes (i : nat) | PDrop (i : nat)
| GBytes (bs : list byte) | GStatic (bs : list byte) | GMut (bs : list byte) | GVec (bs : list byte)
| GSplit (k : nat) (n : Z) | GAdvance (k : nat) (n : Z) | GRead (k : nat) (n : Z) | GFreeze (k : nat)
| GAsRef (k : nat) | GDrop (k : nat)
| PCopyTo (i j : nat) | PClone (i : nat) | GClone (k : nat).

(** What an operation reports. *)
Inductive pobs := PNothing | PNum (n : Z) | PBool (b : bool) | PData (bs : list byte).

Record pst := mkPst { st_bufs : list BytePages; st_loose : list BytePage }.
Definition pst_handles (st : pst) : list handle := concat (bp_handles <$> st_bufs st) ++ pages_handles (st_loose st).

Abbreviation pres := (M Mem (pobs * pst)) (only parsing).
(** The operands of an operation.  A name that is not in use has no operand
    in the program. *)
Definition on_buf (i : nat) (st : pst) (k : BytePages -> pst -> pres) : pres :=
  match st_bufs st !! i with
  | Some p => k p (mkPst (delete i (st_bufs st)) (st_loose st))
  | None => failS Undefined
  end.
Definition on_two (i j : nat) (st : pst) (k : BytePages -> BytePages -> pst -> pres) : pres :=
  match st_bufs st !! i, delete i (st_bufs st) !! j with
  | Some p, Some q => k p q (mkPst (delete j (delete i (st_bufs st))) (st_loose st))
  | _, _ => failS Undefined
  end.
Definition on_page (k : nat) (st : pst) (f : BytePage -> pst -> pres) : pres :=
  match st_loose st !! k with
  | Some g => f g (mkPst (st_bufs st) (delete k (st_loose st)))
  | None => failS Undefined
  end.
Definition on_both (i k : nat) (st : pst) (f : BytePages -> BytePage -> pst -> pres) : pres :=
  match st_bufs st !! i, st_loose st !! k with
  | Some p, Some g => f p g (mkPst (delete i (st_bufs st)) (delete k (st_loose st)))
  | _, _ => failS Undefined
  end.
Definition back (p : BytePages) (st : pst) : pst := mkPst (p :: st_bufs st) (st_loose st).
Definition back_page (g : BytePage) (st : pst) : pst := mkPst (st_bufs st) (g :: st_loose st).
Definition is_unset (s : BytePageSize) : bool := bool_decide (s = Unset).

Definition pexec (o : pop) (st : pst) : pres :=
  match o with
  | PNew size => p ← bp_new size; mret (PNothing, back p st)
  | PSetPageSize i size => on_buf i st (fun p r => mret (PNothing, back (bp_set_page_size size p) r))
  | PPutSlice i bs => on_buf i st (fun p r => p ← bp_put_slice bs p; mret (PNothing, back p r))
  | PPutU8 i b => on_buf i st (fun p r => p ← bp_put_u8 b p; mret (PNothing, back p r))
  | PEncode i bs => on_buf i st (fun p r =>
      '(_, p) ← bp_with_bytes_mut (fun buf => buf ← bm_extend_from_slice buf bs; mret (tt, buf)) p;
      mret (PNothing, back p r))
  | PLen i => on_buf i st (fun p r => n ← bp_len p; mret (PNum n, back p r))
  | PIsEmpty i => on_buf i st (fun p r => b ← bp_is_empty p; mret (PBool b, back p r))
  | PTake i => on_buf i st (fun p r =>
      match bp_take p with
      | (Some g, p) => mret (PBool true, back p (back_page g r))
      | (None, p) => mret (PBool false, back p r)
      end)
  | PAppend i k => on_both i k st (fun p g r => p ← bp_append g p; mret (PNothing, back p r))
  | PPrepend i k => on_both i k st (fun p g r => '(b, p) ← bp_prepend g p; mret (PBool b, back p r))
  | PMoveTo i j => on_two i j st (fun p q r => '(p, q) ← bp_move_to p q; mret (PNothing, back p (back q r)))
  | PSplitInto n i j => on_two i j st (fun p q r =>
      '(p, q) ← bp_split_into n p q; mret (PNothing, back p (back q r)))
  | PSplitTo n i => on_buf i st (fun p r => '(p, q) ← bp_split_to n p; mret (PNothing, back p (back q r)))
  | PClear i => on_buf i st (fun p r => p ← bp_clear p; mret (PNothing, back p r))
  | PFreeze i => on_buf i st (fun p r =>
      '(b, p) ← bp_freeze p; mret (PNothing, back p (back_page (page_from_bytes b) r)))
  | PTryGetCurrent i j => on_two i j st (fun p q r =>
      let '(p, q) := bp_try_get_current_from p q in mret (PNothing, back p (back q r)))
  | PIntoBytes i => on_buf i st (fun p r => b ← bp_into_bytes p; mret (PNothing, back_page (page_from_bytes b) r))
  | PDrop i => on_buf i st (fun p r => bp_drop p;; mret (PNothing, r))
  | GBytes bs => b ← bytes_copy_from_slice bs; mret (PNothing, back_page (page_from_bytes b) st)
  | GStatic bs => mret (PNothing, back_page (page_from_static bs) st)
  | GMut bs => l ← bm_copy_from_slice bs; mret (PNothing, back_page (page_from_bytes_mut l) st)
  | GVec bs => mret (PNothing, back_page (page_from_vec bs) st)
  | GSplit k n => on_page k st (fun g r => '(h, g) ← page_split_to g n; mret (PNothing, back_page h (back_page g r)))
  | GAdvance k n => on_page k st (fun g r => g ← page_advance_to g n; mret (PNothing, back_page g r))
  | GRead k n => on_page k st (fun g r => '(bs, g) ← page_read g n; mret (PData bs, back_page g r))
  | GFreeze k => on_page k st (fun g r => b ← page_freeze g; mret (PNothing, back_page (page_from_bytes b) r))
  | GAsRef k => on_page k st (fun g r => bs ← page_as_ref g; mret (PData bs, back_page g r))
  | GDrop k => on_page k st (fun g r => page_drop g;; mret (PNothing, r))
  | PCopyTo i j => on_two i j st (fun p q r => q ← bp_copy_to p q; mret (PNothing, back p (back q r)))
  | PClone i => on_buf i st (fun p r => q ← bp_clone p; mret (PNothing, back p (back q r)))
  | GClone k => on_page k st (fun g r => h ← page_clone g; mret (PNothing, back_page h (back_page g r)))
  end.

(** Runs a program. *)
Fixpoint pexec_all (os : list pop) (st : pst) : M Mem (list pobs * pst) :=
  match os with
  | [] => mret ([], st)
  | o :: os => '(x, st) ← pexec o st; '(xs, st) ← pexec_all os st; mret (x :: xs, st)
  end.

(** ** The specification *)

(** The contents of the buffers and of the loose pages. *)
Record avals := mkVals { av_bufs : list (list byte); av_loose : list (list byte) }.

(** The contract of an operation: the operands exist, a page size is one of
    the sizes, the lengths fit the fields of a block, a position lies inside
    the page, and what is copied shares no header with its copy. *)
Section contract.
Context (st : pst) (vs : avals).
Definition buf_has (i : nat) (f : BytePages -> list byte -> bool) : bool :=
  match st_bufs st !! i, av_bufs vs !! i with Some p, Some c => f p c | _, _ => false end.
Definition two_have (i j : nat) (f : BytePages -> bool) : bool :=
  match st_bufs st !! i, delete i (st_bufs st) !! j with Some p, Some _ => f p | _, _ => false end.
Definition page_has (k : nat) (f : BytePage -> list byte -> bool) : bool :=
  match st_loose st !! k, av_loose vs !! k with Some g, Some c => f g c | _, _ => false end.

Definition pcontract (o : pop) : bool :=
  match o with
  | PNew size => negb (is_unset size)
  | PSetPageSize i size => buf_has i (fun _ _ => negb (is_unset size))
  | PPutSlice i _ | PPutU8 i _ | PLen i | PIsEmpty i | PTake i | PClear i | PDrop i => buf_has i (fun _ _ => true)
  | PEncode i bs => buf_has i (fun _ c => fitsb (zlen c + zlen bs))
  | PAppend i k | PPrepend i k => buf_has i (fun _ _ => page_has k (fun _ _ => true))
  | PMoveTo i j | PTryGetCurrent i j => two_have i j (fun _ => true)
  | PSplitInto n i j => two_have i j (fun _ => 0 <=? n)
  | PSplitTo n i => buf_has i (fun _ _ => 0 <=? n)
  | PFreeze i | PIntoBytes i => buf_has i (fun _ c => fitsb (zlen c))
  | GBytes bs | GStatic bs | GMut bs | GVec bs => fitsb (zlen bs)
  | GSplit k n | GAdvance k n => page_has k (fun _ c => (0 <=? n) && (n <=? zlen c))
  | GRead k _ | GFreeze k | GAsRef k | GDrop k => page_has k (fun _ _ => true)
  | PCopyTo i j => two_have i j (fun p => forallb copyable (bp_pages p))
  | PClone i => buf_has i (fun p _ => forallb copyable (bp_pages p))
  | GClone k => page_has k (fun g _ => copyable g)
  end.
End contract.

Section spec.
Context (vs : avals) (x : pobs) (vs' : avals).
Definition gives (y : pobs) (bufs loose : list (list byte)) : Prop := x = y /\ vs' = mkVals bufs loose.
Definition s_buf (i : nat) (k : list byte -> list (list byte) -> Prop) : Prop :=
  match av_bufs vs !! i with Some c => k c (delete i (av_bufs vs)) | None => False end.
Definition s_two (i j : nat) (k : list byte -> list byte -> list (list byte) -> Prop) : Prop :=
  match av_bufs vs !! i, delete i (av_bufs vs) !! j with
  | Some c, Some d => k c d (delete j (delete i (av_bufs vs)))
  | _, _ => False
  end.
Definition s_page (k : nat) (f : list byte -> list (list byte) -> Prop) : Prop :=
  match av_loose vs !! k with Some c => f c (delete k (av_loose vs)) | None => False end.
Definition s_both (i k : nat) (f : list byte -> list byte -> list (list byte) -> list (list byte) -> Prop) : Prop :=
  match av_bufs vs !! i, av_loose vs !! k with
  | Some c, Some d => f c d (delete i (av_bufs vs)) (delete k (av_loose vs))
  | _, _ => False
  end.

Definition pspec (o : pop) : Prop :=
  let l := av_loose vs in
  match o with
  | PNew size => gives PNothing ([] :: av_bufs vs) l
  | PSetPageSize i size => s_buf i (fun c r => gives PNothing (c :: r) l)
  | PPutSlice i bs => s_buf i (fun c r => gives PNothing ((c ++ bs) :: r) l)
  | PPutU8 i b => s_buf i (fun c r => gives PNothing ((c ++ [b]) :: r) l)
  | PEncode i bs => s_buf i (fun c r => gives PNothing ((c ++ bs) :: r) l)
  | PLen i => s_buf i (fun c r => gives (PNum (zlen c)) (c :: r) l)
  | PIsEmpty i => s_buf i (fun c r => gives (PBool (zlen c =? 0)) (c :: r) l)
  | PTake i => s_buf i (fun c r =>
      (exists h t, c = h ++ t /\ gives (PBool true) (t :: r) (h :: l)) \/ (c = [] /\ gives (PBool false) ([] :: r) l))
  | PAppend i k => s_both i k (fun c d r l => gives PNothing ((c ++ d) :: r) l)
  | PPrepend i k => s_both i k (fun c d r l => gives (PBool (negb (zlen d =? 0))) ((d ++ c) :: r) l)
  | PMoveTo i j => s_two i j (fun c d r => gives PNothing ([] :: (d ++ c) :: r) l)
  | PSplitInto n i j => s_two i j (fun c d r => gives PNothing (zdrop n c :: (d ++ ztake n c) :: r) l)
  | PSplitTo n i => s_buf i (fun c r => gives PNothing (zdrop n c :: ztake n c :: r) l)
  | PClear i => s_buf i (fun c r => gives PNothing ([] :: r) l)
  | PFreeze i => s_buf i (fun c r => gives PNothing ([] :: r) (c :: l))
  | PTryGetCurrent i j => s_two i j (fun c d r =>
      gives PNothing (c :: d :: r) l \/ (c = [] /\ exists h t, d = h ++ t /\ gives PNothing (t :: h :: r) l))
  | PIntoBytes i => s_buf i (fun c r => gives PNothing r (c :: l))
  | PDrop i => s_buf i (fun c r => gives PNothing r l)
  | GBytes bs | GStatic bs | GMut bs | GVec bs => gives PNothing (av_bufs vs) (bs :: l)
  | GSplit k n => s_page k (fun c l => gives PNothing (av_bufs vs) (ztake n c :: zdrop n c :: l))
  | GAdvance k n => s_page k (fun c l => gives PNothing (av_bufs vs) (zdrop n c :: l))
  | GRead k n => s_page k (fun c l => gives (PData (ztake n c)) (av_bufs vs) (zdrop n c :: l))
  | GFreeze k => s_page k (fun c l => gives PNothing (av_bufs vs) (c :: l))
  | GAsRef k => s_page k (fun c l => gives (PData c) (av_bufs vs) (c :: l))
  | GDrop k => s_page k (fun c l => gives PNothing (av_bufs vs) l)
  | PCopyTo i j => s_two i j (fun c d r => gives PNothing (c :: (d ++ c) :: r) l)
  | PClone i => s_buf i (fun c r => gives PNothing (c :: c :: r) l)
  | GClone k => s_page k (fun c l => gives PNothing (av_bufs vs) (c :: c :: l))
  end.
End spec.

(** ** The simulation *)

Definition Rep (m : Mem) (st : pst) (vs : avals) : Prop :=
  Forall2 (bp_rep m) (st_bufs st) (av_bufs vs) /\ Forall2 (page_rep m) (st_loose st) (av_loose vs).
Definition PR (m : Mem) (st : pst) (vs : avals) : Prop := Inv m (pst_handles st) /\ Rep m st vs.

(** What counts against the range of a reference count. *)
Definition live (st : pst) : Z :=
  zlen (pst_handles st) + 2 * foldr Z.add 0 ((fun p => zlen (bp_pages p)) <$> st_bufs st) + zlen (st_bufs st).
Definition crowded (st : pst) : bool := u32_max <=? live st + 2.

Lemma Rep_frame m m' st vs : frame m m' (pst_handles st) -> Rep m st vs -> Rep m' st vs.
Proof.
  intros [Hf1 Hf2]%frame_app [Hb Hl]. split; [|by eapply queue_rep_frame]. clear Hf2 Hl.
  induction Hb as [|p c ps cs Hp _ IH]; [constructor|]. cbn in Hf1. apply frame_app in Hf1 as [Hf1 Hf2].
  constructor; [by eapply bp_rep_frame|by apply IH].
Qed.

Lemma handles_back p st : pst_handles (back p st) = bp_handles p ++ pst_handles st.
Proof. unfold pst_handles. cbn. by rewrite app_assoc. Qed.

Lemma handles_back_page g st : pst_handles (back_page g st) ≡ₚ page_handles g ++ pst_handles st.
Proof. unfold pst_handles, pages_handles. cbn. solve_Permutation. Qed.

Lemma concat_delete {A B} (f : A -> list B) (l : list A) i x :
  l !! i = Some x -> concat (f <$> l) ≡ₚ f x ++ concat (f <$> delete i l).
Proof. intros Hi. rewrite (delete_Permutation l i x Hi) at 1. done. Qed.

Definition without_buf (i : nat) (vs : avals) : avals := mkVals (delete i (av_bufs vs)) (av_loose vs).
Definition without_page (k : nat) (vs : avals) : avals := mkVals (av_bufs vs) (delete k (av_loose vs)).

Lemma pick_buf m hs st vs i p :
  Inv m (hs ++ pst_handles st) -> Rep m st vs -> st_bufs st !! i = Some p ->
  let r := mkPst (delete i (st_bufs st)) (st_loose st) in
  exists c, av_bufs vs !! i = Some c /\ Inv m (bp_handles p ++ hs ++ pst_handles r) /\ bp_rep m p c /\ Rep m r (without_buf i vs).
Proof.
  intros HI [Hb Hl] Hi r. destruct (Forall2_lookup_l _ _ _ _ _ Hb Hi) as (c & Hc & Hr). exists c.
  split; [done|]. split; [|split; [done|split; [by apply delete_Forall2|done]]].
  eapply Inv_perm; [|exact HI]. unfold pst_handles. cbn. rewrite (concat_delete bp_handles _ i p Hi). solve_Permutation.
Qed.

Lemma pick_page m hs st vs k g :
  Inv m (hs ++ pst_handles st) -> Rep m st vs -> st_loose st !! k = Some g ->
  let r := mkPst (st_bufs st) (delete k (st_loose st)) in
  exists c, av_loose vs !! k = Some c /\ Inv m (page_handles g ++ hs ++ pst_handles r) /\ page_rep m g c /\
    Rep m r (without_page k vs).
Proof.
  intros HI [Hb Hl] Hi r. destruct (Forall2_lookup_l _ _ _ _ _ Hl Hi) as (c & Hc & Hr). exists c.
  split; [done|]. split; [|split; [done|split; [done|by apply delete_Forall2]]].
  eapply Inv_perm; [|exact HI]. unfold pst_handles. cbn. unfold pages_handles. rewrite (concat_delete page_handles _ k g Hi).
  solve_Permutation.
Qed.

(** Putting results back. *)
Lemma PR_back m p c r bufs loose :
  Inv m (bp_handles p ++ pst_handles r) -> bp_rep m p c -> Rep m r (mkVals bufs loose) ->
  PR m (back p r) (mkVals (c :: bufs) loose).
Proof. intros HI Hp [Hb Hl]. split; [by rewrite handles_back|]. split; [by constructor|done]. Qed.

Lemma PR_back_page m g c r bufs loose :
  Inv m (page_handles g ++ pst_handles r) -> page_rep m g c -> Rep m r (mkVals bufs loose) ->
  PR m (back_page g r) (mkVals bufs (c :: loose)).
Proof.
  intros HI Hp [Hb Hl]. split; [|split; [done|by constructor]]. eapply Inv_perm; [|exact HI]. by rewrite handles_back_page.
Qed.

Lemma PR_post m m' p c r bufs loose :
  bp_post m (pst_handles r) c p m' -> Rep m r (mkVals bufs loose) -> PR m' (back p r) (mkVals (c :: bufs) loose).
Proof. intros (HI & Hf & Hp) Hr. apply PR_back; [done..|]. by eapply Rep_frame. Qed.

Lemma PR_bytes m m' b c r bufs loose :
  bytes_post m (pst_handles r) c b m' -> fits_u32 (zlen c) -> Rep m r (mkVals bufs loose) ->
  PR m' (back_page (page_from_bytes b) r) (mkVals bufs (c :: loose)).
Proof. intros (HI & Hf & Hp) Hfit Hr. apply PR_back_page; [done..|]. by eapply Rep_frame. Qed.

Lemma PR_two m m' p q c d r bufs loose :
  Inv m' (bp_handles p ++ bp_handles q ++ pst_handles r) -> frame m m' (pst_handles r) ->
  bp_rep m' p c -> bp_rep m' q d -> Rep m r (mkVals bufs loose) ->
  PR m' (back p (back q r)) (mkVals (c :: d :: bufs) loose).
Proof.
  intros HI Hf Hp Hq Hr. apply PR_back; [by rewrite handles_back|done|].
  destruct (Rep_frame _ _ _ _ Hf Hr). split; [by constructor|done].
Qed.

(** The step of one operation. *)
Definition step_ok (m : Mem) (st : pst) (vs : avals) (o : pop) : Prop :=
  pcontract st vs o = true -> runs (pexec o st) m (fun r m' => exists vs', pspec vs r.1 vs' o /\ PR m' r.2 vs').

(** The panic of [put_u8]: the current page is full. *)
Definition overruns (m : Mem) (st : pst) (o : pop) : Prop :=
  match o with
  | PPutU8 i _ => exists p l, st_bufs st !! i = Some p /\ bp_current p = Some l /\ sv_is_full l m = Done (true, m)
  | _ => False
  end.

Ltac enter := unfold step_ok; let H := fresh "Hcon" in intros H; cbn in H |- *.
(** Opens the buffer or the page an operation names; the contract has it. *)
Ltac open_buf HR i :=
  let Hi := fresh "Hi" in let HI := fresh "HI" in let Hc := fresh "Hc" in
  unfold on_buf, s_buf, buf_has in *;
  match goal with |- context [st_bufs ?st !! i] => destruct (st_bufs st !! i) as [p|] eqn:Hi; [|done] end;
  destruct (pick_buf _ [] _ _ _ _ (proj1 HR) (proj2 HR) Hi) as (c & Hc & HI & Hp & Hrep); rewrite Hc in *; cbn [app] in HI.
Ltac open_page HR k :=
  let Hk := fresh "Hk" in let HI := fresh "HI" in let Hc := fresh "Hc" in
  unfold on_page, s_page, page_has in *;
  match goal with |- context [st_loose ?st !! k] => destruct (st_loose st !! k) as [g|] eqn:Hk; [|done] end;
  destruct (pick_page _ [] _ _ _ _ (proj1 HR) (proj2 HR) Hk) as (c & Hc & HI & Hp & Hrep); rewrite Hc in *; cbn [app] in HI.
Ltac open_two HR i j :=
  let Hi := fresh "Hi" in let Hj := fresh "Hj" in let p := fresh "p" in let q := fresh "q" in
  let HI0 := fresh "HI0" in let Hrep0 := fresh "Hrep0" in let Hd := fresh "Hd" in let Hc := fresh "Hc" in
  unfold on_two, s_two, two_have in *;
  match goal with |- context [st_bufs ?st !! i] => destruct (st_bufs st !! i) as [p|] eqn:Hi; [|done] end;
  destruct (pick_buf _ [] _ _ _ _ (proj1 HR) (proj2 HR) Hi) as (c & Hc & HI0 & Hp & Hrep0); rewrite Hc in *; cbn [app] in HI0;
  match goal with |- context [delete i (st_bufs ?st) !! j] => destruct (delete i (st_bufs st) !! j) as [q|] eqn:Hj; [|done] end;
  destruct (pick_buf _ (bp_handles p) _ _ j q HI0 Hrep0 Hj) as (d & Hd & HI & Hq & Hrep); cbn in Hd; rewrite Hd in *.
Ltac open_both HR i k :=
  let Hi := fresh "Hi" in let Hk := fresh "Hk" in let p := fresh "p" in let g := fresh "g" in
  let HI0 := fresh "HI0" in let Hrep0 := fresh "Hrep0" in let Hd := fresh "Hd" in let Hc := fresh "Hc" in
  unfold on_both, s_both, buf_has, page_has in *;
  match goal with |- context [st_bufs ?st !! i] => destruct (st_bufs st !! i) as [p|] eqn:Hi; [|done] end;
  destruct (pick_buf _ [] _ _ _ _ (proj1 HR) (proj2 HR) Hi) as (c & Hc & HI0 & Hp & Hrep0); rewrite Hc in *; cbn [app] in HI0;
  match goal with |- context [st_loose ?st !! k] => destruct (st_loose st !! k) as [g|] eqn:Hk; [|done] end;
  destruct (pick_page _ (bp_handles p) _ _ k g HI0 Hrep0 Hk) as (d & Hd & HI & Hg & Hrep); cbn in Hd; rewrite Hd in *.

Lemma fitsb_fits n : fitsb n = true -> fits_u32 n.
Proof. unfold fitsb, fits_u32. by rewrite Z.ltb_lt. Qed.

(** The bytes of a buffer can be counted. *)
Lemma queue_bytes m ps cs : queue_rep m ps cs -> zlen (concat cs) <= zlen ps * u32_modulus.
Proof.
  induction 1 as [|p x ps cs [Hfit _] _ IH]; cbn; [done|]. rewrite zlen_app, zlen_cons.
  unfold fits_u32, METADATA_SIZE in Hfit. unfold u32_modulus in *. lia.
Qed.

Lemma bp_bytes m hs p bs : Inv m (bp_handles p ++ hs) -> bp_rep m p bs -> zlen bs <= (zlen (bp_pages p) + 1) * u32_modulus.
Proof.
  intros HI (_ & cs & c & Hq & Hc & ->). pose proof (queue_bytes m _ cs Hq). rewrite zlen_app.
  assert (zlen c <= u32_modulus); [|unfold u32_modulus in *; lia].
  destruct (bp_current p) as [l|] eqn:Hcur; cbn in Hc; [|by subst]. unfold bp_handles in HI. rewrite Hcur in HI. cbn in HI.
  assert (Inv m (HM l :: pages_handles (bp_pages p) ++ hs)) as HI' by inv_perm HI.
  pose proof (mut_fits m l _ c HI' Hc) as Hfit. unfold fits_u32, METADATA_SIZE in Hfit. lia.
Qed.

Lemma live_buf st i p : st_bufs st !! i = Some p ->
  zlen (bp_handles p) + zlen (pst_handles (mkPst (delete i (st_bufs st)) (st_loose st))) + 2 * zlen (bp_pages p) <= live st.
Proof.
  intros Hi. unfold live, pst_handles. cbn. pose proof (concat_delete bp_handles _ i p Hi) as Hperm%Permutation_length.
  assert (zlen (bp_pages p) <= foldr Z.add 0 ((fun p => zlen (bp_pages p)) <$> st_bufs st)) as Hsum.
  { clear -Hi. revert i Hi. induction (st_bufs st) as [|b bs IH]; intros [|i] Hi; [done..|cbn in *|cbn in *].
    - simplify_eq. assert (0 <= foldr Z.add 0 ((fun p => zlen (bp_pages p)) <$> bs)); [|lia].
      clear. induction bs; cbn; [done|]. zlen_pos. lia.
    - specialize (IH i Hi). zlen_pos. lia. }
  unfold zlen, pages_handles in *. rewrite !length_app in *. lia.
Qed.

Section steps.
Context (m : Mem) (st : pst) (vs : avals).
Hypothesis HR : PR m st vs.

Lemma step_new size : step_ok m st vs (PNew size).
Proof.
  enter. destruct (is_unset size) eqn:Hs; [done|].
  unfold bp_new. do 2 rstep. apply runs_assert; [exact (f_equal negb Hs)|]. rsteps. eexists. split; [done|].
  destruct vs as [bufs loose]. apply PR_back; [apply HR| |apply HR]. split; [|exists [], []; by repeat split; try constructor].
  unfold is_unset in Hs. by apply bool_decide_eq_false in Hs.
Qed.

Lemma step_set_page_size i size : step_ok m st vs (PSetPageSize i size).
Proof.
  enter. open_buf HR i. destruct (is_unset size) eqn:Hs; [done|].
  rstep. eexists. split; [done|]. apply PR_back; [done| |done]. destruct Hp as [_ Hp]. split; [|done].
  unfold is_unset in Hs. by apply bool_decide_eq_false in Hs.
Qed.

Lemma step_put_slice i bs : step_ok m st vs (PPutSlice i bs).
Proof.
  enter. open_buf HR i. rstep. eapply runs_conseq; [by apply bp_put_slice_spec|].
  intros p' m' [Hpost _]. rstep. eexists. split; [done|]. by eapply PR_post.
Qed.

Lemma put_u8_full p l b : bp_current p = Some l -> sv_is_full l m = Done (true, m) -> bp_put_u8 b p m = Fault Panic.
Proof.
  intros Hl Hf. unfold bp_put_u8, bp_with_current, bp_get_current, sv_put_u8, sv_length, sv_is_full, mbind, M_bind, deref in *.
  rewrite Hl. cbn. destruct (blocks m !! l) as [sv|] eqn:Hb; [|done]. cbn in *. injection Hf as Hz%Z.eqb_eq.
  unfold liftS, checked_add, checked_sub. rewrite Hb. cbn. rewrite Hz. by destruct (_ <? _).
Qed.

Lemma step_put_u8 i b :
  step_ok m st vs (PPutU8 i b) \/ (overruns m st (PPutU8 i b) /\ pexec (PPutU8 i b) st m = Fault Panic).
Proof.
  destruct (st_bufs st !! i) as [p0|] eqn:Hi0; [|left; enter; unfold buf_has in Hcon; by rewrite Hi0 in Hcon].
  destruct (pick_buf m [] st vs i p0 (proj1 HR) (proj2 HR) Hi0) as (c0 & _ & HI0 & Hr0 & _).
  assert (roomy m p0 \/ exists l, bp_current p0 = Some l /\ sv_is_full l m = Done (true, m)) as [Hro|(l & Hl & Hf)].
  { unfold roomy, sv_is_full, bp_handles in *. destruct Hr0 as (_ & cs & x & _ & Hx & _). destruct (bp_current p0) as [l|]; [|by left].
    assert (Inv m (HM l :: pages_handles (bp_pages p0) ++ pst_handles (mkPst (delete i (st_bufs st)) (st_loose st)))) as HIl
      by inv_perm HI0.
    destruct (mut_room m l _ x HIl Hx) as [Hge _]. destruct Hx as (sv & Hl & _). unfold mbind, M_bind, deref, room in *.
    rewrite Hl in *. destruct (Z.eqb_spec (sv_remaining sv) 0) as [Hz|Hz]; [right; exists l; unfold mret, M_ret; by rewrite Hl, Hz|left; lia]. }
  - left. enter. open_buf HR i. simplify_eq. rstep. eapply runs_conseq; [by apply bp_put_u8_spec|].
    intros p' m' [Hpost _]. rstep. eexists. split; [done|]. by eapply PR_post.
  - right. split; [by exists p0, l|]. cbn. unfold on_buf. rewrite Hi0. unfold mbind, M_bind. by rewrite (put_u8_full p0 l b Hl Hf).
Qed.

Lemma step_len i : crowded st = false -> step_ok m st vs (PLen i).
Proof.
  intros Hcr. enter. open_buf HR i. rstep. eapply runs_eq; [apply (bp_len_spec m p c Hp)|].
  { pose proof (bp_bytes _ _ _ _ HI Hp). pose proof (live_buf st i p Hi). unfold crowded in Hcr. apply Z.leb_gt in Hcr.
    unfold u32_max, u32_modulus, u64_modulus in *. zlen_pos. nia. }
  rstep. eexists. split; [done|]. by apply PR_back.
Qed.

Lemma step_is_empty i : step_ok m st vs (PIsEmpty i).
Proof.
  enter. open_buf HR i. rstep. eapply runs_eq; [by apply bp_is_empty_spec|].
  rstep. eexists. split; [done|]. by apply PR_back.
Qed.

Lemma step_take i : step_ok m st vs (PTake i).
Proof.
  enter. open_buf HR i. pose proof (bp_take_spec m _ p c HI Hp) as Ht. destruct (bp_take p) as [[g|] p'].
  - destruct Ht as (h & t & -> & HI' & Hg & Hp' & _). rstep. eexists. split; [left; by exists h, t|].
    apply PR_back; [|done|]; [|by destruct Hrep; split; [|constructor]].
    eapply Inv_perm; [|exact HI']. rewrite handles_back_page. solve_Permutation.
  - destruct Ht as (-> & -> & _). rstep. eexists. split; [by right|]. by apply PR_back.
Qed.

Lemma step_encode i bs : crowded st = false -> step_ok m st vs (PEncode i bs).
Proof.
  intros Hcr. enter. open_buf HR i.
  apply fitsb_fits in Hcon. rstep.
  eapply runs_conseq; [apply (bp_with_bytes_mut_spec _ (fun x => x ++ bs) m _ p c HI Hp)|].
  - intros m1 hs1 l x HI1 Hx Hle. rstep.
    eapply runs_conseq; [apply (put_slice_spec m1 l hs1 x bs HI1 Hx); unfold fits_u32 in *; lia|]. intros l' m2 ?. by rstep.
  - intros [[] p'] m' (cs & x & -> & Hpost). rstep. eexists. split; [done|]. rewrite <- app_assoc. by eapply PR_post.
Qed.

Lemma step_append i k : step_ok m st vs (PAppend i k).
Proof.
  enter. open_both HR i k. rstep. eapply runs_conseq; [by apply bp_append_spec|]. intros p' m' [Hpost _].
  rstep. eexists. split; [done|]. by eapply PR_post.
Qed.

Lemma step_prepend i k : step_ok m st vs (PPrepend i k).
Proof.
  enter. open_both HR i k. rstep. eapply runs_conseq; [by apply bp_prepend_spec|]. intros [b p'] m' [Hb Hpost].
  cbn in Hb. subst b. rstep. eexists. split; [done|]. by eapply PR_post.
Qed.

Lemma step_move_to i j : step_ok m st vs (PMoveTo i j).
Proof.
  enter. open_two HR i j. rstep.
  assert (Inv m (bp_handles p ++ bp_handles q ++ pst_handles (mkPst (delete j (delete i (st_bufs st))) (st_loose st)))) as HI' by inv_perm HI.
  eapply runs_conseq; [by apply bp_move_to_spec|]. intros [p' q'] m' (? & ? & ? & ?). rstep. eexists. split; [done|].
  by eapply PR_two.
Qed.

Lemma live_two i j p q : st_bufs st !! i = Some p -> delete i (st_bufs st) !! j = Some q ->
  zlen (bp_handles p) + zlen (bp_handles q) +
  zlen (pst_handles (mkPst (delete j (delete i (st_bufs st))) (st_loose st))) + 2 * zlen (bp_pages p) <= live st.
Proof.
  intros Hi Hj. pose proof (live_buf st i p Hi). unfold pst_handles in *. cbn in *.
  pose proof (concat_delete bp_handles _ j q Hj) as Hperm%Permutation_length.
  unfold zlen in *. rewrite !length_app in *. lia.
Qed.

Lemma step_split_into n i j : crowded st = false -> step_ok m st vs (PSplitInto n i j).
Proof.
  intros Hcr. enter. open_two HR i j. apply Z.leb_le in Hcon. rstep.
  assert (Inv m (bp_handles p ++ bp_handles q ++ pst_handles (mkPst (delete j (delete i (st_bufs st))) (st_loose st)))) as HI' by inv_perm HI.
  pose proof (live_two i j p q Hi Hj). unfold crowded in Hcr. apply Z.leb_gt in Hcr.
  eapply runs_conseq; [apply bp_split_into_spec; try done; lia|]. intros [p' q'] m' (? & ? & ? & ?). rstep.
  eexists. split; [done|]. by eapply PR_two.
Qed.

Lemma step_split_to n i : crowded st = false -> step_ok m st vs (PSplitTo n i).
Proof.
  intros Hcr. enter. open_buf HR i. apply Z.leb_le in Hcon. unfold bp_split_to, bp_new.
  pose proof Hp as [Hsz _]. do 3 rstep. apply runs_assert; [by rewrite bool_decide_eq_false_2|]. rstep.
  pose proof (live_buf st i p Hi). unfold crowded in Hcr. apply Z.leb_gt in Hcr.
  eapply runs_conseq; [apply (bp_split_into_spec m (pst_handles (mkPst (delete i (st_bufs st)) (st_loose st))) p c
    (mkBytePages (bp_page_size p) [] None) [] n); try done|].
  - split; [done|]. exists [], []. by repeat split; try constructor.
  - change (bp_handles (mkBytePages (bp_page_size p) [] None)) with (@nil handle). zlia.
  - intros [p' q'] m' (? & ? & ? & ?). rstep. eexists. split; [done|]. by eapply PR_two.
Qed.

Lemma step_clear i : step_ok m st vs (PClear i).
Proof.
  enter. open_buf HR i. rstep. eapply runs_conseq; [exact (bp_clear_spec m _ p c HI Hp)|].
  intros p' m' Hpost. rstep. eexists. split; [done|]. by eapply PR_post.
Qed.

Lemma step_freeze i : crowded st = false -> step_ok m st vs (PFreeze i).
Proof.
  intros Hcr. enter. open_buf HR i. apply fitsb_fits in Hcon.
  rstep. eapply runs_conseq; [by apply bp_freeze_spec|]. intros [b p'] m' (HI' & Hf & Hb & Hp'). cbn [fst snd] in *. rstep.
  eexists. split; [done|]. apply PR_back; [|done|].
  - eapply Inv_perm; [|exact HI']. rewrite handles_back_page. cbn. solve_Permutation.
  - destruct (Rep_frame _ _ _ _ Hf Hrep). split; [done|by constructor].
Qed.

Lemma step_into_bytes i : crowded st = false -> step_ok m st vs (PIntoBytes i).
Proof.
  intros Hcr. enter. open_buf HR i. apply fitsb_fits in Hcon.
  rstep. eapply runs_conseq; [by apply bp_into_bytes_spec|]. intros b m' Hpost. rstep. eexists. split; [done|]. by eapply PR_bytes.
Qed.

Lemma step_drop i : step_ok m st vs (PDrop i).
Proof.
  enter. open_buf HR i. rstep. eapply runs_conseq; [by apply bp_drop_spec|].
  intros [] m' [HI' Hf]. rstep. eexists. split; [done|]. split; [done|]. by eapply Rep_frame.
Qed.

Lemma step_try_get i j : step_ok m st vs (PTryGetCurrent i j).
Proof.
  enter. open_two HR i j. unfold bp_try_get_current_from.
  assert (Inv m (bp_handles p ++ bp_handles q ++ pst_handles (mkPst (delete j (delete i (st_bufs st))) (st_loose st)))) as HI' by inv_perm HI.
  assert (runs (mret (PNothing, back p (back q (mkPst (delete j (delete i (st_bufs st))) (st_loose st))))) m (fun r m' =>
    exists vs', (gives r.1 vs' PNothing (c :: d :: delete j (delete i (av_bufs vs))) (av_loose vs) \/
      (c = [] /\ exists h t, d = h ++ t /\ gives r.1 vs' PNothing (t :: h :: delete j (delete i (av_bufs vs))) (av_loose vs))) /\ PR m' r.2 vs')) as Hsame.
  { rstep. eexists. split; [by left|]. eapply PR_two; [done|apply frame_refl|done..]. }
  destruct p as [size [|g ps] [l|]]; cbn [bp_pages bp_current]; try exact Hsame.
  destruct q as [size' ps' [l'|]]; cbn [bp_pages bp_current]; [|exact Hsame]. clear Hsame.
  destruct Hp as (Hsz & cs & x & Hx & Hx' & ->). cbn in Hx, Hx'. inversion Hx; subst. cbn in *.
  destruct Hq as (Hsz' & cs' & x' & Hy & Hy' & ->). cbn in Hy, Hy'. rstep. eexists. split; [right; split; [done|by exists (concat cs'), x']|].
  eapply PR_two; [|apply frame_refl| | |done].
  - unfold bp_handles in *. cbn in *. inv_perm HI'.
  - split; [done|]. exists [], x'. by repeat split; try constructor.
  - split; [done|]. exists cs', []. rewrite app_nil_r. by split_and!.
Qed.

(** *** Loose pages *)

Lemma step_page b c :
  fits_u32 (zlen c) -> Inv m (HB b :: pst_handles st) -> rep_storage m b c ->
  PR m (back_page (page_from_bytes b) st) (mkVals (av_bufs vs) (c :: av_loose vs)).
Proof. intros Hfit HI Hb. destruct vs. apply PR_back_page; [done|by split|apply HR]. Qed.

Lemma step_gbytes bs : step_ok m st vs (GBytes bs).
Proof.
  enter. apply fitsb_fits in Hcon. rstep.
  eapply runs_conseq; [apply storage_from_slice_spec; [apply HR|done]|]. intros b m' Hpost. rstep. eexists. split; [done|].
  destruct vs. eapply PR_bytes; [done|done|apply HR].
Qed.

Lemma step_gstatic bs : step_ok m st vs (GStatic bs).
Proof.
  enter. apply fitsb_fits in Hcon. rstep. eexists. split; [done|].
  assert (rep_storage m (bytes_from_static bs) bs) as Hr.
  { apply rep_static; [done|lia|]. by rewrite zslice_full. }
  apply step_page; [done| |done]. eapply Inv_add_plain; [apply HR|done|done|done].
Qed.

Lemma step_gmut bs : step_ok m st vs (GMut bs).
Proof.
  enter. apply fitsb_fits in Hcon. rstep.
  eapply runs_conseq; [apply (create_spec m (pst_handles st) Unset (zlen bs) bs); [apply HR|done|done|by left]|].
  intros l m' (HI & Hf & Hl & _). rstep. eexists. split; [done|]. destruct vs as [bufs loose].
  apply PR_back_page; [done|by split|]. eapply Rep_frame; [done|apply HR].
Qed.

Lemma step_gvec bs : step_ok m st vs (GVec bs).
Proof.
  enter. apply fitsb_fits in Hcon. rstep. eexists. split; [done|]. destruct vs as [bufs loose].
  apply PR_back_page; [apply HR|by split|apply HR].
Qed.

Lemma live_page k g : st_loose st !! k = Some g ->
  zlen (page_handles g) + zlen (pst_handles (mkPst (st_bufs st) (delete k (st_loose st)))) <= live st.
Proof.
  intros Hk. unfold live, pst_handles, pages_handles. cbn. pose proof (concat_delete page_handles _ k g Hk) as Hperm%Permutation_length.
  assert (0 <= foldr Z.add 0 ((fun p => zlen (bp_pages p)) <$> st_bufs st)).
  { clear. induction (st_bufs st); cbn; [done|]. zlen_pos. lia. }
  unfold zlen in *. rewrite !length_app in *. lia.
Qed.

Lemma step_gsplit k n : crowded st = false -> step_ok m st vs (GSplit k n).
Proof.
  intros Hcr. enter. open_page HR k.
  apply andb_true_iff in Hcon as [?%Z.leb_le ?%Z.leb_le]. rstep.
  pose proof (live_page k g Hk). unfold crowded in Hcr. apply Z.leb_gt in Hcr.
  eapply runs_conseq; [apply page_split_to_spec; try done; zlen_pos; lia|].
  intros [h r] m' (HI' & Hf & Hh & Hr). rstep. eexists. split; [done|]. cbn [fst snd] in *.
  destruct (Rep_frame _ _ _ _ Hf Hrep). apply PR_back_page; [|done|split; [done|by constructor]].
  eapply Inv_perm; [|exact HI']. by rewrite handles_back_page.
Qed.

Lemma step_gadvance k n : step_ok m st vs (GAdvance k n).
Proof.
  enter. open_page HR k.
  apply andb_true_iff in Hcon as [?%Z.leb_le ?%Z.leb_le]. rstep.
  eapply runs_conseq; [by apply page_advance_to_spec|]. intros g' m' (HI' & Hf & Hg'). rstep. eexists. split; [done|].
  apply PR_back_page; [done..|]. by eapply Rep_frame.
Qed.

Lemma step_gread k n : step_ok m st vs (GRead k n).
Proof.
  enter. open_page HR k. unfold page_read. do 2 rstep. eapply runs_eq; [by apply (page_len_spec m g c)|].
  destruct (Z.ltb_spec 0 (Z.min (zlen c) n)).
  - rstep. eapply runs_eq; [by eapply page_as_ref_spec|]. rstep.
    eapply runs_conseq; [apply page_advance_to_spec; [done..|lia]|]. intros g' m' (HI' & Hf & Hg'). rsteps. eexists.
    rewrite ztake_min, zdrop_min in *. split; [done|]. apply PR_back_page; [done..|]. by eapply Rep_frame.
  - rsteps. eexists. split; [split; [|reflexivity]|].
    + cbn. by rewrite <- ztake_min, ztake_le0.
    + rewrite <- zdrop_min, zdrop_le0 by done. by apply PR_back_page.
Qed.

Lemma step_gfreeze k : step_ok m st vs (GFreeze k).
Proof.
  enter. open_page HR k. rstep. eapply runs_conseq; [by apply page_freeze_spec|].
  intros b m' Hpost. rstep. eexists. split; [done|]. destruct Hp. by eapply PR_bytes.
Qed.

Lemma step_gas_ref k : step_ok m st vs (GAsRef k).
Proof.
  enter. open_page HR k. rstep. eapply runs_eq; [by eapply page_as_ref_spec|].
  rstep. eexists. split; [done|]. by apply PR_back_page.
Qed.

Lemma step_gdrop k : step_ok m st vs (GDrop k).
Proof.
  enter. open_page HR k. rstep. eapply runs_conseq; [by apply page_drop_spec|].
  intros [] m' [HI' Hf]. rstep. eexists. split; [done|]. split; [done|]. by eapply Rep_frame.
Qed.

(** *** Copies *)

Lemma step_copy_to i j : crowded st = false -> step_ok m st vs (PCopyTo i j).
Proof.
  intros Hcr. enter. open_two HR i j. rstep.
  assert (Inv m (bp_handles p ++ bp_handles q ++ pst_handles (mkPst (delete j (delete i (st_bufs st))) (st_loose st)))) as HI' by inv_perm HI.
  pose proof (live_two i j p q Hi Hj). unfold crowded in Hcr. apply Z.leb_gt in Hcr.
  eapply runs_conseq; [apply (bp_copy_to_spec m _ p c q d HI' Hp Hq Hcon); zlen_pos; lia|].
  intros q' m' (HI1 & [Hf1 Hf2]%frame_app & Hq'). rstep. eexists. split; [done|].
  eapply PR_two; [done|done|by eapply bp_rep_frame|done..].
Qed.

Lemma step_clone i : crowded st = false -> step_ok m st vs (PClone i).
Proof.
  intros Hcr. enter. open_buf HR i. unfold bp_clone, bp_new. pose proof Hp as [Hsz _]. do 3 rstep.
  apply runs_assert; [by rewrite bool_decide_eq_false_2|]. rstep.
  pose proof (live_buf st i p Hi). unfold crowded in Hcr. apply Z.leb_gt in Hcr.
  eapply runs_conseq; [apply (bp_copy_to_spec m (pst_handles (mkPst (delete i (st_bufs st)) (st_loose st))) p c
    (mkBytePages (bp_page_size p) [] None) []); try done|].
  - split; [done|]. exists [], []. by repeat split; try constructor.
  - change (bp_handles (mkBytePages (bp_page_size p) [] None)) with (@nil handle). zlia.
  - intros q' m' (HI1 & [Hf1 Hf2]%frame_app & Hq'). rstep. eexists. split; [done|].
    eapply PR_two; [done|done|by eapply bp_rep_frame|done..].
Qed.

Lemma step_gclone k : crowded st = false -> step_ok m st vs (GClone k).
Proof.
  intros Hcr. enter. open_page HR k. rstep. pose proof (live_page k g Hk). unfold crowded in Hcr. apply Z.leb_gt in Hcr.
  eapply runs_conseq; [apply (page_clone_spec m _ g c HI Hp Hcon); zlen_pos; lia|].
  intros h m' (HI1 & [Hf1 Hf2]%frame_app & Hh & _). rstep. eexists. split; [done|].
  destruct (Rep_frame _ _ _ _ Hf2 Hrep). apply PR_back_page; [|done|split; [done|constructor; [by eapply page_rep_frame|done]]].
  eapply Inv_perm; [|exact HI1]. by rewrite handles_back_page.
Qed.

Lemma pstep_refines o : crowded st = false -> step_ok m st vs o \/ (overruns m st o /\ pexec o st m = Fault Panic).
Proof.
  intros Hcr. destruct o; try apply step_put_u8; left.
  all: first
    [ by apply step_new | by apply step_set_page_size | by apply step_put_slice | by apply step_encode
    | by apply step_len | by apply step_is_empty | by apply step_take | by apply step_append | by apply step_prepend
    | by apply step_move_to | by apply step_split_into | by apply step_split_to | by apply step_clear | by apply step_freeze
    | by apply step_try_get | by apply step_into_bytes | by apply step_drop | by apply step_gbytes | by apply step_gstatic
    | by apply step_gmut | by apply step_gvec | by apply step_gsplit | by apply step_gadvance | by apply step_gread
    | by apply step_gfreeze | by apply step_gas_ref | by apply step_gdrop
    | by apply step_copy_to | by apply step_clone | by apply step_gclone ].
Qed.
End steps.

(** ** Programs refine their specification *)

Inductive pspec_all : list pop -> avals -> list pobs -> avals -> Prop :=
  | pspec_nil vs : pspec_all [] vs [] vs
  | pspec_cons o os vs x vs1 xs vs2 : pspec vs x vs1 o -> pspec_all os vs1 xs vs2 -> pspec_all (o :: os) vs (x :: xs) vs2.

(** Why a program need not go on with [o]: it breaks the contract, more
    handles are live than a reference count can hold, or [o] is a [put_u8]
    that panics on a full page. *)
Definition stops (m : Mem) (st : pst) (vs : avals) (o : pop) : Prop :=
  pcontract st vs o = false \/ crowded st = true \/ (overruns m st o /\ pexec o st m = Fault Panic).

Lemma psteps_refine os m st vs :
  PR m st vs ->
  exists k xs st' m' vs', pexec_all (take k os) st m = Done (xs, st', m') /\
    pspec_all (take k os) vs xs vs' /\ PR m' st' vs' /\
    (k = length os \/ exists o, os !! k = Some o /\ stops m' st' vs' o).
Proof.
  revert m st vs. induction os as [|o os IH]; intros m st vs HR.
  { exists 0%nat, [], st, m, vs. split; [done|]. split; [constructor|]. split; [done|by left]. }
  assert (stops m st vs o \/ runs (pexec o st) m (fun r m' => exists vs', pspec vs r.1 vs' o /\ PR m' r.2 vs')) as [Hs|Hrun].
  { unfold stops. destruct (crowded st) eqn:Hcr; [by left; right; left|].
    destruct (pcontract st vs o) eqn:Hcon; [|by left; left].
    destruct (pstep_refines m st vs HR o Hcr) as [Hok|Hov]; [right; by apply Hok|left; by right; right]. }
  { exists 0%nat, [], st, m, vs. split; [done|]. split; [constructor|]. split; [done|right; by exists o]. }
  destruct Hrun as ([x st1] & m1 & He & vs1 & Hx & HR1). cbn [fst snd] in *.
  destruct (IH m1 st1 vs1 HR1) as (k & xs & st2 & m2 & vs2 & He2 & Hxs & HR2 & Hend).
  exists (S k), (x :: xs), st2, m2, vs2. cbn [take pexec_all]. unfold mbind, M_bind. rewrite He, He2.
  split; [done|]. split; [by econstructor|]. split; [done|]. cbn. destruct Hend as [->|?]; [by left|by right].
Qed.

Lemma PR_empty : PR empty_mem (mkPst [] []) (mkVals [] []).
Proof. split; [|by split]. apply Inv_empty. Qed.

(** C6. Paged buffers are byte strings.  A program over any number of
    [BytePages] and loose pages, run from an empty store, runs up to an
    operation that breaks the contract [pcontract] or to its end.  What each
    operation reports, and what the buffers hold after it, is what it does on
    plain byte strings; only the places where pages begin and end are open.
    No operation inside the contract fails to end, panics or has undefined
    behaviour, with two exceptions: more handles are live than a reference
    count can hold, or a [put_u8] finds the current page full, and panics
    ([put_u8_after_encode_overruns] has a program that does).  The contract
    asks that the operands exist, that lengths fit the 32-bit fields of a
    block (of the whole buffer, where it is frozen or encoded into), that
    [split_to] and [advance_to] of a page stay inside it, and that a copy is
    not made of a page backed by a [StorageVec], whose position the copy
    would share ([cloned_page_shares_position]). *)
Theorem byte_pages_refine (os : list pop) :
  exists k xs st m vs, pexec_all (take k os) (mkPst [] []) empty_mem = Done (xs, st, m) /\
    pspec_all (take k os) (mkVals [] []) xs vs /\ PR m st vs /\
    (k = length os \/ exists o, os !! k = Some o /\ stops m st vs o).
Proof. apply psteps_refine, PR_empty. Qed.

(** The copies of a page share its position.  [BytePage::clone] of a page
    backed by a [StorageVec] is a second handle on the same block, and
    [advance_to] moves the start in the header of the block, so that
    advancing the copy removes the bytes from the original as well. *)
Theorem cloned_page_shares_position (m : Mem) (hs : list handle) (l : loc) (bs : list byte) (n : Z)
    (HI : Inv m (HM l :: hs)) (Hr : rep_handle m (HM l) bs) (Hn : 0 < n <= zlen bs) (Hc : zlen hs + 1 < u32_max) :
  page_as_ref (PgStorage l) m = Done (bs, m) /\
  runs (c ← page_clone (PgStorage l); page_advance_to c n) m (fun c m' =>
    page_as_ref c m' = Done (zdrop n bs, m') /\ page_as_ref (PgStorage l) m' = Done (zdrop n bs, m')).
Proof.
  split; [by apply (sv_as_ref_spec m l hs)|].
  destruct (mut_block m l hs bs HI Hr) as (sv & Hl & Hlen & Hh & Hok & _).
  pose proof (ref_count_handles m (HM l) hs l sv HI eq_refl Hl) as Hrc. rewrite zlen_cons in Hrc.
  pose proof (mut_fits m l hs bs HI Hr) as Hfit.
  rstep. cbn [page_clone]. rstep. unfold sv_clone. rstep. eapply runs_eq; [apply (add_ref_eq m l sv Hl); lia|]. do 2 rstep.
  cbn [page_advance_to]. rstep. rewrite as_u32_small by (unfold fits_u32, METADATA_SIZE in Hfit; lia).
  eapply runs_eq; [apply (sv_set_start_eq _ l (with_ref_count (sv_ref_count sv + 1) sv)); [apply lookup_set_block|done|cbn; lia]|].
  rewrite set_block_twice. rstep. cbn [page_as_ref].
  assert (sv_as_ref l (set_block l (moved n (with_ref_count (sv_ref_count sv + 1) sv)) m) =
    Done (zdrop n bs, set_block l (moved n (with_ref_count (sv_ref_count sv + 1) sv)) m)) as He; [|by split].
  unfold sv_as_ref, mbind, M_bind, deref. rewrite lookup_set_block. cbn [sv_offset sv_len moved with_ref_count].
  replace (sv_len sv - n) with (zlen (zdrop n bs)) by zlia. eapply read_bytes_holds; [apply lookup_set_block|].
  pose proof (vec_holds_sub _ _ _ n (zlen bs - n) Hh) as Hsub. unfold zslice in Hsub. rewrite ztake_all in Hsub by zlia. apply Hsub; lia.
Qed.

(** A store with one [BytesMut] of forty bytes. *)
Definition one_page : M Mem loc := bm_copy_from_slice (replicate 40 7).

Lemma cloned_page_shares_position_witness :
  exists m l, one_page empty_mem = Done (l, m) /\
    runs (c ← page_clone (PgStorage l); page_advance_to c 8) m (fun _ m' =>
      page_as_ref (PgStorage l) m' = Done (replicate 32 7, m')).
Proof.
  destruct (create_spec empty_mem [] Unset 40 (replicate 40 7) Inv_empty) as (l & m & He & HI & _ & Hr & _);
    [done|done|by left|].
  exists m, l. split; [exact He|].
  destruct (cloned_page_shares_position m [] l (replicate 40 7) 8 HI Hr) as [_ (c & m' & Hc & _ & Ho)]; [done|done|].
  exists c, m'. split; [exact Hc|exact Ho].
Defined.

(** A byte after an encoded frame can overrun the page.  A frame encoded
    with [with_bytes_mut] (the default [encodev]) may grow the current page to
    a block that it fills exactly; the block stays the current page while it
    is shorter than the page size, and the next [put_u8] subtracts one from
    the zero bytes remaining. *)
Theorem put_u8_after_encode_overruns :
  (l ← bm_with_capacity 8;
   l ← bm_extend_from_slice l [1; 2];
   p ← bp_new Size16;
   p ← bp_append (page_from_bytes_mut l) p;
   '(_, p) ← bp_with_bytes_mut (fun b => b ← bm_extend_from_slice b [3; 4; 5; 6; 7; 8; 9; 10]; mret (tt, b)) p;
   bp_put_u8 11 p) empty_mem = Fault Panic.
Proof. vm_compute. reflexivity. Qed.
