(* ===== verification/Deps.v ===== *)
(** * Interfaces of third-party crates

    The sources use [slab::Slab], types generated by [bitflags!] and
    [futures_timer::Delay].  Each is a type class: the operations the sources
    call, and the documented behaviour they rely on, stated against an
    abstract view.  An instance of each shows that the laws can be met. *)
From Stdlib Require Import ZArith Lia.
From stdpp Require Import base numbers gmap list.
From S2P Require Import Prelude.

(** ** [slab::Slab] *)

(** A store that assigns keys: its view is the finite map from occupied keys
    to values. *)
Class Slab (T : Type -> Type) := {
  slab_map {A} : T A -> gmap nat A;
  slab_default {A} : T A;
  (** [insert]: the key chosen. *)
  slab_insert {A} : A -> T A -> nat * T A;
  (** [vacant_entry().key()]: the key the next [insert] takes. *)
  slab_vacant_key {A} : T A -> nat;
  (** [get_mut] followed by an assignment. *)
  slab_set {A} : nat -> A -> T A -> T A;
  slab_get {A} : nat -> T A -> option A;
  (** [remove], on an occupied key. *)
  slab_remove {A} : nat -> T A -> T A;
  slab_contains {A} : nat -> T A -> bool;
  slab_is_empty {A} : T A -> bool;
  slab_len {A} : T A -> nat;
  (** [drain]: the values, in the order of the iterator; the slab is emptied. *)
  slab_drain {A} : T A -> list A;
  (** The occupied keys, in the order of [iter]. *)
  slab_keys {A} : T A -> list nat;
}.

Class SlabLaws (T : Type -> Type) `{Slab T} : Prop := {
  slab_map_default {A} : slab_map (slab_default : T A) = ∅;
  slab_insert_vacant {A} (a : A) (s : T A) : slab_map s !! (slab_insert a s).1 = None;
  slab_map_insert {A} (a : A) (s : T A) :
    slab_map (slab_insert a s).2 = <[(slab_insert a s).1 := a]> (slab_map s);
  slab_insert_key {A} (a : A) (s : T A) : (slab_insert a s).1 = slab_vacant_key s;
  (** The first key of an empty, unused slab is zero. *)
  slab_insert_default {A} (a : A) : (slab_insert a (slab_default : T A)).1 = 0%nat;
  slab_map_set {A} k (a b : A) (s : T A) :
    slab_map s !! k = Some b -> slab_map (slab_set k a s) = <[k := a]> (slab_map s);
  slab_get_map {A} k (s : T A) : slab_get k s = slab_map s !! k;
  slab_map_remove {A} k (s : T A) : slab_map (slab_remove k s) = delete k (slab_map s);
  slab_contains_map {A} k (s : T A) : slab_contains k s = bool_decide (is_Some (slab_map s !! k));
  slab_is_empty_map {A} (s : T A) : slab_is_empty s = bool_decide (size (slab_map s) = 0%nat);
  slab_len_map {A} (s : T A) : slab_len s = size (slab_map s);
  slab_drain_map {A} (s : T A) : slab_drain s ≡ₚ (map_to_list (slab_map s)).*2;
  slab_keys_map {A} (s : T A) : slab_keys s ≡ₚ (map_to_list (slab_map s)).*1;
}.

(** An instance: the map itself, with the least vacant key. *)
Fixpoint first_vacant {A} (fuel : nat) (k : nat) (s : gmap nat A) : nat :=
  match fuel with
  | O => k
  | S fuel => match s !! k with None => k | Some _ => first_vacant fuel (S k) s end
  end.
Definition map_slab (A : Type) : Type := gmap nat A.

#[export] Instance map_slab_ops : Slab map_slab := {
  slab_map A s := s;
  slab_default A := ∅;
  slab_insert A a s := let k := first_vacant (S (size s)) 0 s in (k, <[k := a]> s);
  slab_vacant_key A s := first_vacant (S (size s)) 0 s;
  slab_set A k a s := <[k := a]> s;
  slab_get A k s := s !! k;
  slab_remove A k s := delete k s;
  slab_contains A k s := bool_decide (is_Some (s !! k));
  slab_is_empty A s := bool_decide (size s = 0%nat);
  slab_len A s := size s;
  slab_drain A s := (map_to_list s).*2;
  slab_keys A s := (map_to_list s).*1;
}.

Lemma first_vacant_spec {A} fuel k (s : gmap nat A) :
  s !! first_vacant fuel k s = None \/ forall i, (k <= i < k + fuel)%nat -> is_Some (s !! i).
Proof.
  revert k. induction fuel as [|fuel IH]; intros k; cbn; [right; lia|].
  destruct (s !! k) eqn:Hk; [|by left]. destruct (IH (S k)) as [|Hall]; [by left|right].
  intros i Hi. destruct (decide (i = k)) as [->|]; [by eexists|]. apply Hall. lia.
Qed.

Lemma first_vacant_vacant {A} (s : gmap nat A) : s !! first_vacant (S (size s)) 0 s = None.
Proof.
  destruct (first_vacant_spec (S (size s)) 0 s) as [|Hall]; [done|].
  assert ((set_seq 0 (S (size s)) : gset nat) ⊆ dom s) as Hsub%subseteq_size.
  { intros i Hi%elem_of_set_seq. apply elem_of_dom, Hall. lia. }
  rewrite size_set_seq, size_dom in Hsub. lia.
Qed.

#[export] Instance map_slab_laws : SlabLaws map_slab.
Proof.
  split; intros; cbn; try done.
  - apply first_vacant_vacant.
Qed.

(** ** Types made by [bitflags!] *)

(** A set of flags; a constant of the type is given by its bits. *)
Class Bitflags (F : Type) := {
  fl_bits : F -> Z;
  fl_of : Z -> F;
  fl_empty : F;
  fl_contains : F -> F -> bool;
  fl_intersects : F -> F -> bool;
  fl_insert : F -> F -> F;
  fl_remove : F -> F -> F;
}.

Class BitflagsLaws (F : Type) `{Bitflags F} : Prop := {
  fl_bits_of n : 0 <= n -> fl_bits (fl_of n) = n;
  fl_bits_empty : fl_bits fl_empty = 0;
  fl_bits_insert a b : fl_bits (fl_insert a b) = Z.lor (fl_bits a) (fl_bits b);
  fl_bits_remove a b : fl_bits (fl_remove a b) = Z.ldiff (fl_bits a) (fl_bits b);
  fl_contains_bits a b :
    fl_contains a b = (Z.land (fl_bits a) (fl_bits b) =? fl_bits b);
  fl_intersects_bits a b :
    fl_intersects a b = negb (Z.land (fl_bits a) (fl_bits b) =? 0);
}.

#[export] Instance Z_bitflags : Bitflags Z := {
  fl_bits a := a; fl_of n := n; fl_empty := 0;
  fl_contains a b := Z.land a b =? b;
  fl_intersects a b := negb (Z.land a b =? 0);
  fl_insert := Z.lor; fl_remove := Z.ldiff;
}.
#[export] Instance Z_bitflags_laws : BitflagsLaws Z.
Proof. by split. Qed.

Lemma testbit_pow2 j i : 0 <= j -> Z.testbit (2 ^ j) i = (i =? j).
Proof. intros. rewrite Z.pow2_bits_eqb by lia. apply Z.eqb_sym. Qed.

(** Single flags. *)
Section flags.
Context {F : Type} `{!Bitflags F} `{!BitflagsLaws F}.

Lemma contains_bit (a : F) k : 0 <= k -> fl_contains a (fl_of (2 ^ k)) = Z.testbit (fl_bits a) k.
Proof.
  intros Hk. rewrite fl_contains_bits, fl_bits_of by lia. apply eq_true_iff_eq. rewrite Z.eqb_eq. split.
  - intros He%(f_equal (fun x => Z.testbit x k)). rewrite Z.land_spec, Z.pow2_bits_true, andb_true_r in He by done. done.
  - intros Hb. apply Z.bits_inj. intros i. rewrite Z.land_spec, testbit_pow2 by done.
    destruct (Z.eqb_spec i k) as [->|]; [by rewrite Hb|by rewrite andb_false_r].
Qed.

Lemma contains_insert (a : F) j k :
  0 <= j -> 0 <= k ->
  fl_contains (fl_insert a (fl_of (2 ^ j))) (fl_of (2 ^ k)) = fl_contains a (fl_of (2 ^ k)) || (k =? j).
Proof.
  intros. rewrite !contains_bit, fl_bits_insert, Z.lor_spec, fl_bits_of, testbit_pow2 by lia. done.
Qed.

Lemma contains_remove (a : F) j k :
  0 <= j -> 0 <= k ->
  fl_contains (fl_remove a (fl_of (2 ^ j))) (fl_of (2 ^ k)) = fl_contains a (fl_of (2 ^ k)) && negb (k =? j).
Proof.
  intros. rewrite !contains_bit, fl_bits_remove, Z.ldiff_spec, fl_bits_of, testbit_pow2 by lia. done.
Qed.
End flags.

(** ** [futures_timer::Delay] *)

(** A one-shot timer; it reads the clock itself, [now] is that reading.  It
    is not ready before its deadline. *)
Class Delay (D : Type) := {
  delay_deadline : D -> Z;
  delay_new : Z -> Z -> D;             (* now, duration *)
  delay_reset : Z -> Z -> D -> D;      (* now, duration *)
  delay_poll : Z -> D -> bool * D;     (* now *)
}.

Class DelayLaws (D : Type) `{Delay D} : Prop := {
  delay_new_deadline now d : delay_deadline (delay_new now d) = now + d;
  delay_reset_deadline now d s : delay_deadline (delay_reset now d s) = now + d;
  delay_poll_deadline now s : delay_deadline (delay_poll now s).2 = delay_deadline s;
  delay_poll_ready now s : (delay_poll now s).1 = true -> delay_deadline s <= now;
}.

#[export] Instance Z_delay : Delay Z := {
  delay_deadline s := s;
  delay_new now d := now + d;
  delay_reset now d _ := now + d;
  delay_poll now s := (s <=? now, s);
}.
#[export] Instance Z_delay_laws : DelayLaws Z.
Proof. split; try done. intros now s. cbn. by rewrite Z.leb_le. Qed.
