(* ===== verification/Task.v ===== *)
(** * [util::task] and [util::time::types]

    [LocalWaker] of geario/src/util/task.rs, and the time spans [Millis] and
    [Seconds] of geario/src/util/time/types.rs. *)
From Stdlib Require Import ZArith Lia.
From stdpp Require Import base numbers list.
From S2P Require Import Prelude.

(** ** [LocalWaker]

    A waker is named by a number; waking one is recorded in the list of woken
    wakers of the component that holds the [LocalWaker]. *)
Abbreviation waker := nat (only parsing).
Abbreviation LocalWaker := (option nat) (only parsing).

Definition lw_new : LocalWaker := None.
(** The result tells whether a waker was registered before. *)
Definition lw_register (w : waker) (lw : LocalWaker) : bool * LocalWaker :=
  (match lw with Some _ => true | None => false end, Some w).
(** The wakers woken, and the emptied cell. *)
Definition lw_wake (lw : LocalWaker) : list waker * LocalWaker := (option_list lw, None).
Definition lw_wake_checked (lw : LocalWaker) : bool * (list waker * LocalWaker) :=
  match lw with Some w => (true, ([w], None)) | None => (false, ([], None)) end.
Definition lw_take (lw : LocalWaker) : option waker * LocalWaker := (lw, None).
Definition lw_is_set (lw : LocalWaker) : bool := match lw with Some _ => true | None => false end.
Definition lw_clone (lw : LocalWaker) : LocalWaker := lw_new.

(** [yield_to]: pending once, having woken itself, then ready. *)
Definition yield_poll (completed : bool) (w : waker) : bool * bool * list waker :=
  if completed then (true, true, []) else (false, true, [w]).

(** ** [Millis] and [Seconds] *)

Definition u16_max : Z := u16_modulus - 1.
Definition saturating_add (m a b : Z) : Z := Z.min (m - 1) (a + b).
Definition saturating_mul (m a b : Z) : Z := Z.min (m - 1) (a * b).

Definition millis_from_secs (secs : Z) : outcome Z :=
  if secs * 1000 <? u32_modulus then Done (secs * 1000) else Fault Panic.
Definition millis_is_zero (m : Z) : bool := m =? 0.
Definition millis_non_zero (m : Z) : bool := negb (m =? 0).
Definition millis_map {R} (m : Z) (f : Z -> R) : option R := if m =? 0 then None else Some (f m).
Definition millis_add (a b : Z) : Z := saturating_add u32_modulus a b.
Definition millis_add_seconds (a s : Z) : Z :=
  saturating_add u32_modulus a (saturating_mul u32_modulus s 1000).
Definition millis_from_i32 (i : Z) : Z := if i <? 0 then 0 else i.
Definition millis_from_usize (s : Z) : Z := if s <? u32_modulus then s else u32_max.
Definition millis_from_seconds (s : Z) : Z := saturating_mul u32_modulus s 1000.
(** From a [Duration] of the given whole milliseconds. *)
Definition millis_from_duration (ms : Z) : Z := if ms <? u32_modulus then ms else 2 ^ 31.

Definition seconds_checked_new (secs : Z) : Z := if u16_max <? secs then u16_max else secs.
Definition seconds_is_zero (s : Z) : bool := s =? 0.
Definition seconds_map {R} (s : Z) (f : Z -> R) : option R :=
  if s =? 0 then None else Some (f (millis_from_seconds s)).
Definition seconds_add (a b : Z) : Z := saturating_add u16_modulus a b.
Definition seconds_from_i32 (i : Z) : Z := if i <? 0 then 0 else i mod u16_modulus.
Definition seconds_from_usize (s : Z) : Z := if s <? u16_modulus then s else u16_max.

(** Conversions to [Seconds] from [usize] and from [i32] agree up to
    [u16::MAX]; above it the one from [usize] saturates while the one from
    [i32] wraps, so that a span of 65536 seconds becomes zero. *)
Theorem seconds_from_i32_wraps i :
  0 <= i < 2 ^ 31 ->
  (i <= u16_max -> seconds_from_i32 i = seconds_from_usize i) /\
  (u16_max < i -> seconds_from_usize i = u16_max /\ seconds_from_i32 i = i mod u16_modulus).
Proof.
  intros Hi. unfold seconds_from_i32, seconds_from_usize, u16_max. zbool. split; intros Hm.
  - zbool. apply Z.mod_small. lia.
  - zbool. done.
Qed.

Lemma seconds_from_i32_wraps_witness :
  (65536 <= u16_max -> seconds_from_i32 65536 = seconds_from_usize 65536) /\
  (u16_max < 65536 -> seconds_from_usize 65536 = u16_max /\ seconds_from_i32 65536 = 65536 mod u16_modulus).
Proof. apply seconds_from_i32_wraps. lia. Defined.
