(* ===== verification/Wheel.v ===== *)
(** * [util::time::wheel]: the timer wheel

    Models geario/src/util/time/wheel.rs: eight levels of 64 buckets over a
    clock of 16 ms units, the slab of timers, the driver task that advances
    the wheel and the low-resolution clock.

    The state is the thread-local [Timer].  [clock] and [system_clock] give
    the successive readings of [Instant::now] and [SystemTime::now], in
    nanoseconds; the state counts the readings.  Spawned drivers and woken
    wakers are recorded in the state. *)
From Stdlib Require Import ZArith Lia.
From stdpp Require Import base numbers gmap list.
From S2P Require Import Prelude Deps Task.

(** ** Constants *)

Definition LVL_CLK_SHIFT : Z := 3.
Definition LVL_CLK_DIV : Z := Z.shiftl 1 LVL_CLK_SHIFT.
Definition LVL_CLK_MASK : Z := LVL_CLK_DIV - 1.
Definition lvl_shift (n : Z) : Z := n * LVL_CLK_SHIFT.
Definition lvl_gran (n : Z) : Z := Z.shiftl 1 (lvl_shift n).
Definition UNITS : Z := 4.
Definition to_units (n : Z) : Z := Z.shiftr n UNITS.
Definition to_millis (n : Z) : Z := as_u64 (Z.shiftl n UNITS).
Definition LVL_BITS : Z := 6.
Definition LVL_SIZE : Z := Z.shiftl 1 LVL_BITS.
Definition LVL_MASK : Z := LVL_SIZE - 1.
Definition lvl_start (lvl : Z) : Z := Z.shiftl (LVL_SIZE - 1) ((lvl - 1) * LVL_CLK_SHIFT).
Definition LVL_DEPTH : Z := 8.
Definition lvl_offs (n : Z) : Z := n * LVL_SIZE.
Definition WHEEL_TIMEOUT_CUTOFF : Z := lvl_start LVL_DEPTH.
Definition WHEEL_TIMEOUT_MAX : Z := WHEEL_TIMEOUT_CUTOFF - lvl_gran (LVL_DEPTH - 1).
Definition WHEEL_SIZE : Z := LVL_SIZE * LVL_DEPTH.
(** [Duration::from_millis(5)]; durations and instants are nanoseconds. *)
Definition ns_of_millis (ms : Z) : Z := ms * 1000000.
Definition LOWRES_RESOLUTION : Z := ns_of_millis 5.
Definition as_millis (dur : Z) : Z := dur / 1000000.

(** Bits of [Flags]. *)
Definition DRIVER_STARTED : Z := 1.
Definition DRIVER_RECALC : Z := 2.
Definition LOWRES_TIMER : Z := 8.
Definition LOWRES_DRIVER : Z := 16.
Definition RUNNING : Z := 32.

(** ** Bucket arithmetic *)

(** The bucket and its expiration for a timer at [expires] in level [lvl]. *)
Definition calc_index (expires lvl : Z) : outcome (Z * Z) :=
  e ← checked_add u64_modulus expires (lvl_gran lvl);
  let expires := Z.shiftr e (lvl_shift lvl) in
  Done (lvl_offs lvl + Z.land expires LVL_MASK, as_u64 (Z.shiftl expires (lvl_shift lvl))).

Definition calc_wheel_index (elapsed expires delta : Z) : outcome (Z * Z) :=
  if delta <? lvl_start 1 then calc_index expires 0
  else if delta <? lvl_start 2 then calc_index expires 1
  else if delta <? lvl_start 3 then calc_index expires 2
  else if delta <? lvl_start 4 then calc_index expires 3
  else if delta <? lvl_start 5 then calc_index expires 4
  else if delta <? lvl_start 6 then calc_index expires 5
  else if delta <? lvl_start 7 then calc_index expires 6
  else if delta <? lvl_start 8 then calc_index expires 7
  else if WHEEL_TIMEOUT_CUTOFF <=? delta then
    calc_index (wrapping_add64 elapsed WHEEL_TIMEOUT_MAX) (LVL_DEPTH - 1)
  else calc_index expires (LVL_DEPTH - 1).

(** [u64::rotate_right] and [u64::trailing_zeros] (64 for zero). *)
Definition rotate_right64 (x k : Z) : Z := Z.lor (Z.shiftr x k) (as_u64 (Z.shiftl x (64 - k))).
Fixpoint trailing_zeros_from (fuel : nat) (i x : Z) : Z :=
  match fuel with
  | O => i
  | S fuel => if Z.testbit x i then i else trailing_zeros_from fuel (i + 1) x
  end.
Definition trailing_zeros64 (x : Z) : Z := trailing_zeros_from 64 0 x.

(** One level of [next_pending_bucket] after another: the levels left, the
    level, its clock, and the earliest expiry so far. *)
Fixpoint next_pending_loop (occupied : list Z) (n : nat) (lvl clk next : Z) : outcome Z :=
  match n with
  | O => Done next
  | S n =>
      let lvl_clk := Z.land clk LVL_CLK_MASK in
      match occupied !! Z.to_nat lvl with
      | None => Fault Panic
      | Some occ =>
          let pos :=
            if occ =? 0 then -1
            else trailing_zeros64 (rotate_right64 occ (Z.land clk LVL_MASK)) in
          let up := Z.shiftr clk LVL_CLK_SHIFT + (if negb (lvl_clk =? 0) then 1 else 0) in
          if 0 <=? pos then
            c ← checked_add u64_modulus clk pos;
            let tmp := as_u64 (Z.shiftl c (lvl_shift lvl)) in
            let next := if tmp <? next then tmp else next in
            if pos <=? Z.land (LVL_CLK_DIV - lvl_clk) LVL_CLK_MASK then Done next
            else next_pending_loop occupied n (lvl + 1) up next
          else next_pending_loop occupied n (lvl + 1) up next
      end
  end.

Section wheel.
Context {T : Type -> Type} `{!Slab T} {F : Type} `{!Bitflags F} {D : Type} `{!Delay D}.
Context (clock system_clock : nat -> Z).

(** ** Data *)

Record TimerEntry := mkTimerEntry {
  te_bucket : option Z;
  te_bucket_entry : nat;
  te_task : LocalWaker;
}.

Record Bucket := mkBucket {
  b_lvl : Z;
  b_bit : Z;
  b_bit_n : Z;
  b_entries : T nat;
}.

Record TimerMod := mkTimerMod {
  tm_timers : T TimerEntry;
  tm_driver_sleep : D;
  tm_buckets : list Bucket;
  tm_occupied : list Z;
  tm_lowres_driver_sleep : D;
}.

(** A driver task that was spawned. *)
Inductive Driver := DTimer | DLowres.

Record Timer := mkTimer {
  t_elapsed : Z;
  t_elapsed_time : option Z;
  t_next_expiry : Z;
  t_flags : F;
  t_driver : LocalWaker;
  t_lowres_time : option Z;
  t_lowres_stime : option Z;
  t_lowres_driver : LocalWaker;
  t_inner : TimerMod;
  t_clock_reads : nat;
  t_woken : list waker;
  t_spawned : list Driver;
}.

Definition set_elapsed v t := mkTimer v (t_elapsed_time t) (t_next_expiry t) (t_flags t) (t_driver t)
  (t_lowres_time t) (t_lowres_stime t) (t_lowres_driver t) (t_inner t) (t_clock_reads t) (t_woken t) (t_spawned t).
Definition set_elapsed_time v t := mkTimer (t_elapsed t) v (t_next_expiry t) (t_flags t) (t_driver t)
  (t_lowres_time t) (t_lowres_stime t) (t_lowres_driver t) (t_inner t) (t_clock_reads t) (t_woken t) (t_spawned t).
Definition set_next_expiry v t := mkTimer (t_elapsed t) (t_elapsed_time t) v (t_flags t) (t_driver t)
  (t_lowres_time t) (t_lowres_stime t) (t_lowres_driver t) (t_inner t) (t_clock_reads t) (t_woken t) (t_spawned t).
Definition set_flags v t := mkTimer (t_elapsed t) (t_elapsed_time t) (t_next_expiry t) v (t_driver t)
  (t_lowres_time t) (t_lowres_stime t) (t_lowres_driver t) (t_inner t) (t_clock_reads t) (t_woken t) (t_spawned t).
Definition set_driver v t := mkTimer (t_elapsed t) (t_elapsed_time t) (t_next_expiry t) (t_flags t) v
  (t_lowres_time t) (t_lowres_stime t) (t_lowres_driver t) (t_inner t) (t_clock_reads t) (t_woken t) (t_spawned t).
Definition set_lowres_time v t := mkTimer (t_elapsed t) (t_elapsed_time t) (t_next_expiry t) (t_flags t) (t_driver t)
  v (t_lowres_stime t) (t_lowres_driver t) (t_inner t) (t_clock_reads t) (t_woken t) (t_spawned t).
Definition set_lowres_stime v t := mkTimer (t_elapsed t) (t_elapsed_time t) (t_next_expiry t) (t_flags t) (t_driver t)
  (t_lowres_time t) v (t_lowres_driver t) (t_inner t) (t_clock_reads t) (t_woken t) (t_spawned t).
Definition set_lowres_driver v t := mkTimer (t_elapsed t) (t_elapsed_time t) (t_next_expiry t) (t_flags t) (t_driver t)
  (t_lowres_time t) (t_lowres_stime t) v (t_inner t) (t_clock_reads t) (t_woken t) (t_spawned t).
Definition set_inner v t := mkTimer (t_elapsed t) (t_elapsed_time t) (t_next_expiry t) (t_flags t) (t_driver t)
  (t_lowres_time t) (t_lowres_stime t) (t_lowres_driver t) v (t_clock_reads t) (t_woken t) (t_spawned t).
Definition tick_clock t := mkTimer (t_elapsed t) (t_elapsed_time t) (t_next_expiry t) (t_flags t) (t_driver t)
  (t_lowres_time t) (t_lowres_stime t) (t_lowres_driver t) (t_inner t) (S (t_clock_reads t)) (t_woken t) (t_spawned t).
Definition add_woken ws t := mkTimer (t_elapsed t) (t_elapsed_time t) (t_next_expiry t) (t_flags t) (t_driver t)
  (t_lowres_time t) (t_lowres_stime t) (t_lowres_driver t) (t_inner t) (t_clock_reads t) (t_woken t ++ ws) (t_spawned t).
Definition add_spawned d t := mkTimer (t_elapsed t) (t_elapsed_time t) (t_next_expiry t) (t_flags t) (t_driver t)
  (t_lowres_time t) (t_lowres_stime t) (t_lowres_driver t) (t_inner t) (t_clock_reads t) (t_woken t) (t_spawned t ++ [d]).

Definition with_timers ts m := mkTimerMod ts (tm_driver_sleep m) (tm_buckets m) (tm_occupied m) (tm_lowres_driver_sleep m).
Definition with_driver_sleep d m := mkTimerMod (tm_timers m) d (tm_buckets m) (tm_occupied m) (tm_lowres_driver_sleep m).
Definition with_buckets b m := mkTimerMod (tm_timers m) (tm_driver_sleep m) b (tm_occupied m) (tm_lowres_driver_sleep m).
Definition with_occupied o m := mkTimerMod (tm_timers m) (tm_driver_sleep m) (tm_buckets m) o (tm_lowres_driver_sleep m).
Definition with_lowres_sleep d m := mkTimerMod (tm_timers m) (tm_driver_sleep m) (tm_buckets m) (tm_occupied m) d.
Definition with_entries e b := mkBucket (b_lvl b) (b_bit b) (b_bit_n b) e.

Abbreviation TM := (M Timer).

(** [Instant::now] and [SystemTime::now]. *)
Definition instant_now : TM Z := fun t => Done (clock (t_clock_reads t), tick_clock t).
Definition system_now : TM Z := fun t => Done (system_clock (t_clock_reads t), tick_clock t).

Definition flags_insert (bit : Z) : TM () :=
  modifyS (fun t => set_flags (fl_insert (t_flags t) (fl_of bit)) t).
Definition flags_remove (bit : Z) : TM () :=
  modifyS (fun t => set_flags (fl_remove (t_flags t) (fl_of bit)) t).
Definition has_flag (bit : Z) (t : Timer) : bool := fl_contains (t_flags t) (fl_of bit).

Definition driver_wake : TM () :=
  modifyS (fun t => add_woken (lw_wake (t_driver t)).1 (set_driver (lw_wake (t_driver t)).2 t)).
Definition lowres_driver_wake : TM () :=
  modifyS (fun t => add_woken (lw_wake (t_lowres_driver t)).1 (set_lowres_driver (lw_wake (t_lowres_driver t)).2 t)).

(** ** Buckets and entries *)

Definition Bucket_new (lvl offs : Z) : Bucket :=
  let bit := Z.shiftl 1 offs in mkBucket lvl bit (u64_max - bit) slab_default.

Definition create_buckets : list Bucket :=
  (fun idx => Bucket_new (Z.of_nat idx / LVL_SIZE) (Z.of_nat idx mod LVL_SIZE)) <$> seq 0 (Z.to_nat WHEEL_SIZE).

Definition Timer_new (now : Z) : Timer :=
  mkTimer 0 None u64_max fl_empty lw_new None None lw_new
    (mkTimerMod (slab_insert (mkTimerEntry None 0 lw_new) slab_default).2
       (delay_new now 0) create_buckets (replicate (Z.to_nat WHEEL_SIZE) 0) (delay_new now 0))
    0 [] [].

(** [self.buckets[idx]] and [self.occupied[lvl]], with their bounds checks. *)
Definition bucket_at (idx : Z) : TM Bucket := fun t =>
  match tm_buckets (t_inner t) !! Z.to_nat idx with Some b => Done (b, t) | None => Fault Panic end.
Definition set_bucket (idx : Z) (b : Bucket) : TM () :=
  modifyS (fun t => set_inner (with_buckets (<[Z.to_nat idx := b]> (tm_buckets (t_inner t))) (t_inner t)) t).
Definition update_occupied (lvl : Z) (g : Z -> Z) : TM () := fun t =>
  match tm_occupied (t_inner t) !! Z.to_nat lvl with
  | Some o => Done (tt, set_inner (with_occupied (<[Z.to_nat lvl := g o]> (tm_occupied (t_inner t))) (t_inner t)) t)
  | None => Fault Panic
  end.
(** [self.timers[hnd]]. *)
Definition timer_at (hnd : nat) : TM TimerEntry := fun t =>
  match slab_get hnd (tm_timers (t_inner t)) with Some e => Done (e, t) | None => Fault Panic end.
Definition set_timer (hnd : nat) (e : TimerEntry) : TM () :=
  modifyS (fun t => set_inner (with_timers (slab_set hnd e (tm_timers (t_inner t))) (t_inner t)) t).

(** [b.entries.remove(k)], which panics on a vacant key, and the occupancy bit. *)
Definition remove_bucket_entry (bucket : Z) (k : nat) : TM () :=
  b ← bucket_at bucket;
  assertS (slab_contains k (b_entries b));;
  let entries := slab_remove k (b_entries b) in
  set_bucket bucket (with_entries entries b);;
  if slab_is_empty entries then update_occupied (b_lvl b) (fun o => Z.land o (b_bit_n b)) else mret tt.

Definition remove_timer_bucket (handle : nat) (remove_handle : bool) : TM () :=
  entry ← timer_at handle;
  match te_bucket entry with
  | Some bucket => remove_bucket_entry bucket (te_bucket_entry entry)
  | None => mret tt
  end;;
  if remove_handle then
    modifyS (fun t => set_inner (with_timers (slab_remove handle (tm_timers (t_inner t))) (t_inner t)) t)
  else mret tt.

(** The vacant entry's key goes into the bucket before the entry is filled. *)
Definition add_entry (idx : Z) : TM nat :=
  t ← getS;
  let no := slab_vacant_key (tm_timers (t_inner t)) in
  bucket ← bucket_at idx;
  let (bucket_entry, entries) := slab_insert no (b_entries bucket) in
  set_bucket idx (with_entries entries bucket);;
  modifyS (fun t => set_inner (with_timers
    (slab_insert (mkTimerEntry (Some idx) bucket_entry lw_new) (tm_timers (t_inner t))).2 (t_inner t)) t);;
  update_occupied (b_lvl bucket) (fun o => Z.lor o (b_bit bucket));;
  mret no.

Definition update_entry (hnd : nat) (idx : Z) : TM () :=
  entry ← timer_at hnd;
  if bool_decide (te_bucket entry = Some idx) then mret tt
  else
    match te_bucket entry with
    | Some bucket => remove_bucket_entry bucket (te_bucket_entry entry)
    | None => mret tt
    end;;
    bucket ← bucket_at idx;
    let (bucket_entry, entries) := slab_insert hnd (b_entries bucket) in
    set_bucket idx (with_entries entries bucket);;
    set_timer hnd (mkTimerEntry (Some idx) bucket_entry (te_task entry));;
    update_occupied (b_lvl bucket) (fun o => Z.lor o (b_bit bucket)).

(** [TimerEntry::complete]: the woken wakers and the entry. *)
Definition complete (e : TimerEntry) : list waker * TimerEntry :=
  match te_bucket e with
  | Some _ => ((lw_wake (te_task e)).1, mkTimerEntry None (te_bucket_entry e) (lw_wake (te_task e)).2)
  | None => ([], e)
  end.

Definition complete_timer (no : nat) : TM () := fun t =>
  match slab_get no (tm_timers (t_inner t)) with
  | Some e =>
      let (ws, e') := complete e in
      Done (tt, add_woken ws (set_inner (with_timers (slab_set no e' (tm_timers (t_inner t))) (t_inner t)) t))
  | None => Done (tt, t)
  end.

Fixpoint complete_all (nos : list nat) : TM () :=
  match nos with [] => mret tt | no :: nos => complete_timer no;; complete_all nos end.

(** The levels left, the level and its clock. *)
Fixpoint execute_loop (n : nat) (lvl clk : Z) : TM () :=
  match n with
  | O => mret tt
  | S n =>
      let idx := Z.land clk LVL_MASK + lvl * LVL_SIZE in
      b ← bucket_at idx;
      (if negb (slab_is_empty (b_entries b)) then
         update_occupied (b_lvl b) (fun o => Z.land o (b_bit_n b));;
         set_bucket idx (with_entries slab_default b);;
         complete_all (slab_drain (b_entries b))
       else mret tt);;
      if negb (Z.land clk LVL_CLK_MASK =? 0) then mret tt
      else execute_loop n (lvl + 1) (Z.shiftr clk LVL_CLK_SHIFT)
  end.

Definition execute_expired_timers (clk : Z) : TM () := execute_loop (Z.to_nat LVL_DEPTH) 0 clk.

(** ** The driver *)

Definition next_pending_bucket (t : Timer) : outcome (option Z) :=
  next ← next_pending_loop (tm_occupied (t_inner t)) (Z.to_nat LVL_DEPTH) 0 (t_elapsed t) u64_max;
  Done (if next <? u64_max then Some next else None).

Definition next_expiry_ms (t : Timer) : Z := to_millis (saturating_sub (t_next_expiry t) (t_elapsed t)).

Definition elapsed_time : TM Z :=
  t ← getS;
  match t_elapsed_time t with
  | Some et => mret et
  | None => now ← instant_now; modifyS (set_elapsed_time (Some now));; mret now
  end.

Definition TimerDriver_start : TM () :=
  flags_insert DRIVER_STARTED;;
  t ← getS;
  now ← instant_now;
  modifyS (fun t => set_inner (with_driver_sleep (delay_new now (ns_of_millis (next_expiry_ms t))) (t_inner t)) t);;
  modifyS (add_spawned DTimer).

Definition LowresTimerDriver_start : TM () :=
  flags_insert LOWRES_DRIVER;;
  now ← instant_now;
  modifyS (fun t => set_inner (with_lowres_sleep (delay_new now LOWRES_RESOLUTION) (t_inner t)) t);;
  modifyS (add_spawned DLowres).

(** [Timer::now] and [Timer::system_time]: the cached low-resolution time. *)
Definition timer_now : TM Z :=
  t ← getS;
  match t_lowres_time t with
  | Some cur => mret cur
  | None =>
      now ← instant_now;
      if has_flag RUNNING t then
        modifyS (set_lowres_time (Some now));;
        (if has_flag LOWRES_DRIVER t then lowres_driver_wake else LowresTimerDriver_start);;
        mret now
      else mret now
  end.

Definition timer_system_time : TM Z :=
  t ← getS;
  match t_lowres_stime t with
  | Some cur => mret cur
  | None =>
      now ← system_now;
      if has_flag RUNNING t then
        modifyS (set_lowres_stime (Some now));;
        (if has_flag LOWRES_DRIVER t then lowres_driver_wake else LowresTimerDriver_start);;
        mret now
      else mret now
  end.

(** [query_system_time], the free function. *)
Definition query_system_time : TM Z := timer_system_time.

(** Units from [elapsed] to a deadline [millis] after [now]. *)
Definition timer_delta (now elapsed_time millis : Z) : outcome Z :=
  if elapsed_time <=? now then
    ms ← checked_add u64_modulus (as_millis (now - elapsed_time)) millis;
    Done (to_units ms)
  else Done (to_units millis).

(** The new bucket expires earlier: reset the driver, or start it.  [flags]
    is the caller's copy of the flags. *)
Definition rearm_driver (flags : F) (bucket_expiry : Z) : TM () :=
  t ← getS;
  if bucket_expiry <? t_next_expiry t then
    modifyS (set_next_expiry bucket_expiry);;
    if fl_contains flags (fl_of DRIVER_STARTED) then
      modifyS (set_flags (fl_insert flags (fl_of DRIVER_RECALC)));; driver_wake
    else TimerDriver_start
  else mret tt.

Definition add_timer (millis : Z) : TM nat :=
  if millis =? 0 then
    t ← getS;
    let (no, timers) := slab_insert (mkTimerEntry None 0 lw_new) (tm_timers (t_inner t)) in
    putS (set_inner (with_timers timers (t_inner t)) t);;
    mret no
  else
    flags_insert RUNNING;;
    flags ← getsS t_flags;
    now ← timer_now;
    et ← elapsed_time;
    delta ← liftS (timer_delta now et millis);
    t ← getS;
    '(idx, bucket_expiry) ← liftS (calc_wheel_index (t_elapsed t) (wrapping_add64 (t_elapsed t) delta) delta);
    no ← add_entry idx;
    rearm_driver flags bucket_expiry;;
    mret no.

Definition remove_timer (hnd : nat) : TM () :=
  remove_timer_bucket hnd false;;
  e ← timer_at hnd;
  complete_timer hnd.

Definition update_timer (hnd : nat) (millis : Z) : TM () :=
  if millis =? 0 then
    remove_timer_bucket hnd false;;
    e ← timer_at hnd;
    set_timer hnd (mkTimerEntry None (te_bucket_entry e) (te_task e))
  else
    now ← timer_now;
    et ← elapsed_time;
    delta ← liftS (timer_delta now et millis);
    let delta := Z.max delta 1 in
    t ← getS;
    '(idx, bucket_expiry) ← liftS (calc_wheel_index (t_elapsed t) (wrapping_add64 (t_elapsed t) delta) delta);
    update_entry hnd idx;;
    flags ← getsS t_flags;
    rearm_driver flags bucket_expiry.

(** ** [TimerHandle] *)

Definition handle_is_elapsed (hnd : nat) : TM bool :=
  e ← timer_at hnd; mret (bool_decide (te_bucket e = None)).

Definition handle_poll_elapsed (hnd : nat) (w : waker) : TM bool :=
  e ← timer_at hnd;
  match te_bucket e with
  | None => mret true
  | Some _ =>
      set_timer hnd (mkTimerEntry (te_bucket e) (te_bucket_entry e) (lw_register w (te_task e)).2);;
      mret false
  end.

Definition handle_drop (hnd : nat) : TM () := remove_timer_bucket hnd true.

(** [stop_wheel]: every timer elapses. *)
Definition drain_bucket (b : Bucket) : Bucket := with_entries slab_default b.
Fixpoint unlink_all (nos : list nat) : TM () :=
  match nos with
  | [] => mret tt
  | no :: nos =>
      e ← timer_at no;
      set_timer no (mkTimerEntry None (te_bucket_entry e) (te_task e));;
      unlink_all nos
  end.

Definition stop_wheel : TM () :=
  t ← getS;
  let buckets := tm_buckets (t_inner t) in
  unlink_all (concat ((fun b => slab_drain (b_entries b)) <$> buckets));;
  modifyS (fun t =>
    mkTimer 0 None u64_max fl_empty (t_driver t) None None (t_lowres_driver t)
      (with_occupied (replicate (Z.to_nat WHEEL_SIZE) 0) (with_buckets (drain_bucket <$> buckets) (t_inner t)))
      (t_clock_reads t) (t_woken t) (t_spawned t)).

(** [driver_sleep.reset(dur)] and its poll, each with the clock reading the
    delay makes. *)
Definition driver_sleep_reset (dur : Z) : TM () :=
  now ← instant_now;
  modifyS (fun t => set_inner (with_driver_sleep (delay_reset now dur (tm_driver_sleep (t_inner t))) (t_inner t)) t).
Definition driver_sleep_poll : TM bool :=
  now ← instant_now;
  t ← getS;
  let (ready, d) := delay_poll now (tm_driver_sleep (t_inner t)) in
  modifyS (fun t => set_inner (with_driver_sleep d (t_inner t)) t);;
  mret ready.

(** The loop of [TimerDriver::poll]. *)
Fixpoint driver_loop (fuel : nat) : TM () :=
  match fuel with
  | O => failS Diverges
  | S fuel =>
      ready ← driver_sleep_poll;
      if (ready : bool) then
        now ← instant_now;
        modifyS (fun t => set_elapsed_time (Some now) (set_elapsed (t_next_expiry t) t));;
        t ← getS;
        execute_expired_timers (t_next_expiry t);;
        t ← getS;
        pending ← liftS (next_pending_bucket t);
        match pending with
        | Some next_expiry =>
            modifyS (set_next_expiry next_expiry);;
            t ← getS;
            driver_sleep_reset (ns_of_millis (next_expiry_ms t));;
            driver_loop fuel
        | None => modifyS (fun t => set_elapsed_time None (set_next_expiry u64_max t))
        end
      else mret tt
  end.

Definition TimerDriver_poll (fuel : nat) (w : waker) : TM () :=
  modifyS (fun t => set_driver (lw_register w (t_driver t)).2 t);;
  t ← getS;
  (if has_flag DRIVER_RECALC t then
     flags_remove DRIVER_RECALC;;
     now ← instant_now;
     et ← elapsed_time;
     t ← getS;
     let full := ns_of_millis (next_expiry_ms t) in
     driver_sleep_reset (if et <=? now then saturating_sub full (now - et) else full)
   else mret tt);;
  driver_loop fuel.

Definition LowresTimerDriver_poll (w : waker) : TM () :=
  modifyS (fun t => set_lowres_driver (lw_register w (t_lowres_driver t)).2 t);;
  t ← getS;
  (if negb (has_flag LOWRES_TIMER t) then
     flags_insert LOWRES_TIMER;;
     now ← instant_now;
     modifyS (fun t => set_inner (with_lowres_sleep
       (delay_reset now LOWRES_RESOLUTION (tm_lowres_driver_sleep (t_inner t))) (t_inner t)) t)
   else mret tt);;
  now ← instant_now;
  t ← getS;
  let (ready, d) := delay_poll now (tm_lowres_driver_sleep (t_inner t)) in
  modifyS (fun t => set_inner (with_lowres_sleep d (t_inner t)) t);;
  if (ready : bool) then
    modifyS (fun t => set_lowres_stime None (set_lowres_time None t));;
    flags_remove LOWRES_TIMER
  else mret tt.
End wheel.

Arguments Bucket T : clear implicits.
Arguments TimerMod T D : clear implicits.
Arguments Timer T F D : clear implicits.
