(* ===== verification/WheelArith.v ===== *)
(** * Arithmetic of the timer wheel

    The expiration of a bucket is a function of the wheel's clock and the
    bucket: the first multiple of the level's granularity, at or after the
    clock, that falls into the bucket.  [calc_wheel_index] puts a timer into a
    bucket with the right expiration, advancing the clock up to the
    expiration of a bucket does not change it, and [next_pending_loop] finds
    the earliest one. *)
From Stdlib Require Import ZArith Lia.
From stdpp Require Import base numbers list.
From S2P Require Import Prelude Deps Task Wheel.

(** ** Powers and shifts *)

Definition gran (lvl : Z) : Z := 8 ^ lvl.
Definition ceil_div (a b : Z) : Z := (a + b - 1) / b.

Lemma gran_pos lvl : 0 <= lvl -> 0 < gran lvl.
Proof. intros. unfold gran. lia. Qed.

Lemma gran_pow2 lvl : 0 <= lvl -> gran lvl = 2 ^ (lvl_shift lvl).
Proof.
  intros. unfold gran, lvl_shift, LVL_CLK_SHIFT. change 8 with (2 ^ 3). by rewrite <- Z.pow_mul_r, Z.mul_comm by lia.
Qed.

Lemma gran_succ lvl : 0 <= lvl -> gran (lvl + 1) = 8 * gran lvl.
Proof. intros. unfold gran. rewrite Z.pow_add_r by lia. lia. Qed.

Lemma gran_le lvl : 0 <= lvl < 8 -> gran lvl <= 8 ^ 7.
Proof. intros. unfold gran. apply Z.pow_le_mono_r; lia. Qed.

Lemma lvl_gran_eq lvl : 0 <= lvl -> lvl_gran lvl = gran lvl.
Proof.
  intros. unfold lvl_gran. rewrite Z.shiftl_mul_pow2, gran_pow2 by (unfold lvl_shift, LVL_CLK_SHIFT; lia). lia.
Qed.

Lemma shiftl_lvl x lvl : 0 <= lvl -> Z.shiftl x (lvl_shift lvl) = x * gran lvl.
Proof. intros. rewrite gran_pow2 by done. apply Z.shiftl_mul_pow2. unfold lvl_shift, LVL_CLK_SHIFT. lia. Qed.

Lemma shiftr_lvl x lvl : 0 <= lvl -> Z.shiftr x (lvl_shift lvl) = x / gran lvl.
Proof. intros. rewrite gran_pow2 by done. apply Z.shiftr_div_pow2. unfold lvl_shift, LVL_CLK_SHIFT. lia. Qed.

Lemma lvl_start_eq lvl : 1 <= lvl -> lvl_start lvl = 63 * gran (lvl - 1).
Proof.
  intros. unfold lvl_start. change (LVL_SIZE - 1) with 63. change ((lvl - 1) * LVL_CLK_SHIFT) with (lvl_shift (lvl - 1)).
  apply shiftl_lvl. lia.
Qed.

Lemma land_mask x : Z.land x LVL_MASK = x mod 64.
Proof. change LVL_MASK with (Z.ones 6). by rewrite Z.land_ones by lia. Qed.

Lemma land_clk_mask x : Z.land x LVL_CLK_MASK = x mod 8.
Proof. change LVL_CLK_MASK with (Z.ones 3). by rewrite Z.land_ones by lia. Qed.

(** ** Rounding up *)

Lemma ceil_div_spec a b : 0 < b -> a <= ceil_div a b * b < a + b.
Proof.
  intros Hb. unfold ceil_div. pose proof (Z.div_mod (a + b - 1) b ltac:(lia)).
  pose proof (Z.mod_pos_bound (a + b - 1) b Hb). nia.
Qed.

Lemma ceil_div_unique a b c : 0 < b -> a <= c * b < a + b -> ceil_div a b = c.
Proof. intros Hb Hc. pose proof (ceil_div_spec a b Hb). nia. Qed.

Lemma ceil_div_1 a : ceil_div a 1 = a.
Proof. apply ceil_div_unique; lia. Qed.

Lemma ceil_div_mono a a' b : 0 < b -> a <= a' -> ceil_div a b <= ceil_div a' b.
Proof. intros. unfold ceil_div. apply Z.div_le_mono; lia. Qed.

Lemma ceil_div_le a b c : 0 < b -> a <= c * b -> ceil_div a b <= c.
Proof. intros Hb Hc. pose proof (ceil_div_spec a b Hb). nia. Qed.

(** The clock of the next level. *)
Lemma ceil_div_up e lvl :
  0 <= lvl ->
  Z.shiftr (ceil_div e (gran lvl)) LVL_CLK_SHIFT +
    (if negb (Z.land (ceil_div e (gran lvl)) LVL_CLK_MASK =? 0) then 1 else 0)
  = ceil_div e (gran (lvl + 1)).
Proof.
  intros Hl. pose proof (gran_pos lvl Hl). set (c := ceil_div e (gran lvl)).
  pose proof (ceil_div_spec e (gran lvl) ltac:(lia)) as Hc. fold c in Hc.
  rewrite land_clk_mask. unfold LVL_CLK_SHIFT. rewrite Z.shiftr_div_pow2 by lia. change (2 ^ 3) with 8.
  symmetry. rewrite gran_succ by done. apply ceil_div_unique; [lia|].
  pose proof (Z.div_mod c 8 ltac:(lia)). pose proof (Z.mod_pos_bound c 8 ltac:(lia)).
  destruct (Z.eqb_spec (c mod 8) 0); cbn [negb]; nia.
Qed.

(** ** Expiration of a bucket *)

Definition lvl_of (idx : Z) : Z := idx / 64.

Definition bucket_expiry (elapsed idx : Z) : Z :=
  let g := gran (lvl_of idx) in
  let c := ceil_div elapsed g in
  (c + (idx mod 64 - c) mod 64) * g.

Definition valid_bucket (idx : Z) : Prop := 0 <= idx < 512.

Lemma lvl_of_range idx : valid_bucket idx -> 0 <= lvl_of idx < 8.
Proof.
  unfold valid_bucket, lvl_of. intros. pose proof (Z.div_mod idx 64). pose proof (Z.mod_pos_bound idx 64). lia.
Qed.

Lemma bucket_expiry_unique elapsed idx n :
  n mod 64 = idx mod 64 -> 0 <= n - ceil_div elapsed (gran (lvl_of idx)) <= 63 ->
  bucket_expiry elapsed idx = n * gran (lvl_of idx).
Proof.
  intros Hn Hc. unfold bucket_expiry. f_equal. set (c := ceil_div _ _) in *.
  assert ((idx mod 64 - c) mod 64 = n - c); [|lia].
  rewrite <- Hn, Zminus_mod_idemp_l. apply Z.mod_small. lia.
Qed.

Lemma bucket_expiry_spec elapsed idx :
  valid_bucket idx ->
  exists n, bucket_expiry elapsed idx = n * gran (lvl_of idx) /\ n mod 64 = idx mod 64 /\
    0 <= n - ceil_div elapsed (gran (lvl_of idx)) <= 63.
Proof.
  intros Hv. set (c := ceil_div elapsed (gran (lvl_of idx))).
  exists (c + (idx mod 64 - c) mod 64). split; [done|].
  pose proof (Z.mod_pos_bound (idx mod 64 - c) 64 ltac:(lia)). split; [|lia].
  rewrite Zplus_mod_idemp_r. replace (c + (idx mod 64 - c)) with (idx mod 64) by lia. by rewrite Z.mod_mod.
Qed.

Lemma bucket_expiry_bounds elapsed idx :
  valid_bucket idx -> 0 <= elapsed ->
  elapsed <= bucket_expiry elapsed idx < elapsed + 64 * gran (lvl_of idx).
Proof.
  intros Hv He. destruct (bucket_expiry_spec elapsed idx Hv) as (n & -> & _ & Hn).
  pose proof (lvl_of_range idx Hv). pose proof (gran_pos (lvl_of idx) ltac:(lia)).
  pose proof (ceil_div_spec elapsed (gran (lvl_of idx)) ltac:(lia)). nia.
Qed.

(** Advancing the clock up to a bucket's expiration keeps it. *)
Lemma bucket_expiry_stable elapsed elapsed' idx :
  valid_bucket idx -> elapsed <= elapsed' <= bucket_expiry elapsed idx ->
  bucket_expiry elapsed' idx = bucket_expiry elapsed idx.
Proof.
  intros Hv [Hle Hge]. destruct (bucket_expiry_spec elapsed idx Hv) as (n & He & Hm & Hn).
  rewrite He in *. pose proof (lvl_of_range idx Hv). pose proof (gran_pos (lvl_of idx) ltac:(lia)) as Hg.
  apply bucket_expiry_unique; [done|].
  pose proof (ceil_div_mono elapsed elapsed' _ Hg Hle). pose proof (ceil_div_le elapsed' _ n Hg Hge). lia.
Qed.

(** ** Placing a timer *)

Lemma calc_index_eq x lvl :
  0 <= lvl < 8 -> 0 <= x -> x + 8 ^ 7 < u64_modulus ->
  calc_index x lvl = Done (lvl * 64 + (x / gran lvl + 1) mod 64, (x / gran lvl + 1) * gran lvl).
Proof.
  intros Hl Hx Hb. pose proof (gran_pos lvl ltac:(lia)). pose proof (gran_le lvl Hl).
  unfold calc_index. rewrite lvl_gran_eq by lia. rewrite checked_add_ok by lia.
  cbn [mbind outcome_bind]. rewrite land_mask, shiftl_lvl, shiftr_lvl by lia.
  assert ((x + gran lvl) / gran lvl = x / gran lvl + 1) as ->
    by (rewrite <- (Z.mul_1_l (gran lvl)) at 1; apply Z.div_add; lia).
  rewrite as_u64_small; [done|].
  pose proof (Z.div_mod x (gran lvl) ltac:(lia)). pose proof (Z.mod_pos_bound x (gran lvl) ltac:(lia)).
  pose proof (Z.div_pos x (gran lvl) Hx ltac:(lia)). unfold u64_modulus in *. nia.
Qed.

(** In level [lvl] a timer [delta < 63 * 8^lvl] ahead expires after its
    deadline and at most one granule late. *)
Definition placed (elapsed delta lvl idx expiry : Z) : Prop :=
  valid_bucket idx /\ lvl_of idx = lvl /\ expiry = bucket_expiry elapsed idx /\
  elapsed + delta < expiry <= elapsed + delta + gran lvl.

Lemma calc_index_placed elapsed delta lvl :
  0 <= lvl < 8 -> 0 <= elapsed -> 0 <= delta < 63 * gran lvl -> elapsed + delta + 8 ^ 7 < u64_modulus ->
  exists idx expiry, calc_index (elapsed + delta) lvl = Done (idx, expiry) /\
    placed elapsed delta lvl idx expiry.
Proof.
  intros Hl He Hd Hb. do 2 eexists. split; [apply calc_index_eq; lia|].
  pose proof (gran_pos lvl ltac:(lia)) as Hg. set (g := gran lvl) in *. set (x := elapsed + delta).
  set (n := x / g + 1).
  pose proof (Z.div_mod x g ltac:(lia)). pose proof (Z.mod_pos_bound x g Hg).
  pose proof (Z.mod_pos_bound n 64 ltac:(lia)).
  assert (lvl_of (lvl * 64 + n mod 64) = lvl) as Hlv.
  { unfold lvl_of. rewrite Z.div_add_l by lia. rewrite Z.div_small by lia. lia. }
  split; [unfold valid_bucket; lia|]. split; [done|]. split; [|nia].
  symmetry. replace (n * g) with (n * gran (lvl_of (lvl * 64 + n mod 64))) by (by rewrite Hlv).
  apply bucket_expiry_unique.
  - rewrite Z.add_comm, Z_mod_plus_full, Z.mod_mod by lia. done.
  - rewrite Hlv. fold g. pose proof (ceil_div_spec elapsed g Hg).
    assert (ceil_div elapsed g <= n) by (apply ceil_div_le; [done|nia]).
    assert (x / g <= ceil_div elapsed g + 62); [|lia].
    assert (x / g < ceil_div elapsed g + 63); [|lia]. apply Z.div_lt_upper_bound; nia.
Qed.

Lemma wrapping_add64_small a b : 0 <= a + b < u64_modulus -> wrapping_add64 a b = a + b.
Proof. intros. unfold wrapping_add64. by apply as_u64_small. Qed.

(** The level [calc_wheel_index] chooses. *)
Definition level_for (delta lvl : Z) : Prop :=
  0 <= lvl < 8 /\ delta < 63 * gran lvl /\ (lvl = 0 \/ 63 * gran (lvl - 1) <= delta).

Definition in_wheel (delta : Z) : Z := if delta <? WHEEL_TIMEOUT_CUTOFF then delta else WHEEL_TIMEOUT_MAX.

Lemma calc_wheel_index_placed elapsed delta :
  0 <= elapsed -> 0 <= delta -> elapsed + delta + 8 ^ 9 < u64_modulus ->
  exists idx expiry lvl,
    calc_wheel_index elapsed (wrapping_add64 elapsed delta) delta = Done (idx, expiry) /\
    placed elapsed (in_wheel delta) lvl idx expiry /\
    (delta < WHEEL_TIMEOUT_CUTOFF -> level_for delta lvl).
Proof.
  intros He Hd Hb. rewrite wrapping_add64_small by (unfold u64_modulus in *; lia).
  assert (WHEEL_TIMEOUT_CUTOFF = 63 * gran 7) as Hcut by (vm_compute; reflexivity).
  assert (WHEEL_TIMEOUT_MAX = 62 * gran 7) as Hmax by (vm_compute; reflexivity).
  assert (gran 7 = 8 ^ 7) as Hg7 by done.
  assert (forall lvl, 0 <= lvl < 8 -> delta < 63 * gran lvl -> (lvl = 0 \/ 63 * gran (lvl - 1) <= delta) ->
    exists idx expiry lvl',
      calc_index (elapsed + delta) lvl = Done (idx, expiry) /\
      placed elapsed (in_wheel delta) lvl' idx expiry /\
      (delta < WHEEL_TIMEOUT_CUTOFF -> level_for delta lvl')) as Hlvl.
  { intros lvl Hl Hlt Hge. pose proof (gran_le lvl Hl).
    destruct (calc_index_placed elapsed delta lvl) as (idx & expiry & Hc & Hp); [lia..|].
    exists idx, expiry, lvl. split; [done|]. unfold in_wheel. rewrite (proj2 (Z.ltb_lt _ _)) by lia.
    split; [done|]. intros _. done. }
  unfold calc_wheel_index. rewrite !lvl_start_eq by lia. cbn [Z.sub Z.add Z.opp Z.pos_sub Pos.pred_double].
  change (1 - 1) with 0. change (2 - 1) with 1. change (3 - 1) with 2. change (4 - 1) with 3.
  change (5 - 1) with 4. change (6 - 1) with 5. change (7 - 1) with 6. change (8 - 1) with 7.
  repeat match goal with
  | |- context [delta <? ?b] => destruct (Z.ltb_spec delta b);
      [apply Hlvl; [lia|done|first [by left|by right]]|]
  end.
  rewrite (proj2 (Z.leb_le _ _)) by lia.
  rewrite wrapping_add64_small by (unfold u64_modulus in *; lia). change (LVL_DEPTH - 1) with 7.
  destruct (calc_index_placed elapsed WHEEL_TIMEOUT_MAX 7) as (idx & expiry & Hc & Hp);
    [lia|lia|lia|unfold u64_modulus in *; lia|].
  exists idx, expiry, 7. split; [done|]. unfold in_wheel. rewrite (proj2 (Z.ltb_ge _ _)) by lia.
  split; [done|]. lia.
Qed.

(** ** Finding the next bucket *)

Lemma testbit_small x i : 0 <= x < u64_modulus -> 64 <= i -> Z.testbit x i = false.
Proof.
  intros Hx Hi. destruct (Z.eq_dec x 0) as [->|]; [apply Z.bits_0|].
  apply Z.bits_above_log2; [lia|]. apply Z.log2_lt_pow2; [lia|].
  apply (Z.lt_le_trans _ (2 ^ 64)); [apply Hx|]. apply Z.pow_le_mono_r; lia.
Qed.

Lemma testbit_as_u64 x i : 0 <= i < 64 -> Z.testbit (as_u64 x) i = Z.testbit x i.
Proof. intros. unfold as_u64, u64_modulus. apply Z.mod_pow2_bits_low. lia. Qed.

Lemma rotate_right_bit x k i :
  0 <= x < u64_modulus -> 0 <= k < 64 -> 0 <= i < 64 ->
  Z.testbit (rotate_right64 x k) i = Z.testbit x ((i + k) mod 64).
Proof.
  intros Hx Hk Hi. unfold rotate_right64. rewrite Z.lor_spec, Z.shiftr_spec, testbit_as_u64 by lia.
  destruct (Z.lt_ge_cases (i + k) 64).
  - rewrite Z.mod_small by lia. rewrite Z.shiftl_spec_low by lia. apply orb_false_r.
  - rewrite (testbit_small x (i + k)) by lia. rewrite Z.shiftl_spec by lia. cbn. f_equal.
    symmetry. replace (i + k) with (i + k - 64 + 1 * 64) by lia. rewrite Z_mod_plus_full. rewrite Z.mod_small; lia.
Qed.

Lemma trailing_zeros_from_spec fuel i x :
  0 <= i -> (exists j, i <= j < i + Z.of_nat fuel /\ Z.testbit x j = true) ->
  let r := trailing_zeros_from fuel i x in
  i <= r < i + Z.of_nat fuel /\ Z.testbit x r = true /\ forall j, i <= j < r -> Z.testbit x j = false.
Proof.
  revert i. induction fuel as [|fuel IH]; intros i Hi (j & Hj & Hb); [lia|]. cbn.
  destruct (Z.testbit x i) eqn:Ht; [split; [lia|]; split; [done|lia]|].
  destruct (IH (i + 1)) as (H1 & H2 & H3); [lia| |].
  - exists j. split; [|done]. destruct (Z.eq_dec j i) as [->|]; [congruence|]. lia.
  - split; [lia|]. split; [done|]. intros k Hk. destruct (Z.eq_dec k i) as [->|]; [done|]. apply H3. lia.
Qed.

(** The first occupied bucket of a level at or after its clock. *)
Lemma first_occupied occ c :
  0 < occ < u64_modulus -> 0 <= c ->
  let pos := trailing_zeros64 (rotate_right64 occ (Z.land c LVL_MASK)) in
  0 <= pos < 64 /\ Z.testbit occ ((c + pos) mod 64) = true /\
  forall j, 0 <= j < pos -> Z.testbit occ ((c + j) mod 64) = false.
Proof.
  rewrite land_mask. intros Ho Hc pos. pose proof (Z.mod_pos_bound c 64 ltac:(lia)) as Hm.
  assert (forall j, 0 <= j < 64 ->
    Z.testbit (rotate_right64 occ (c mod 64)) j = Z.testbit occ ((c + j) mod 64)) as Hrot.
  { intros j Hj. rewrite rotate_right_bit by lia. f_equal. rewrite Zplus_mod_idemp_r. f_equal. lia. }
  destruct (trailing_zeros_from_spec 64 0 (rotate_right64 occ (c mod 64))) as (H1 & H2 & H3); [lia| |].
  { assert (exists j, 0 <= j < 64 /\ Z.testbit occ j = true) as (j & Hj & Hb).
    { exists (Z.log2 occ). split; [|apply Z.bit_log2; lia]. split; [apply Z.log2_nonneg|].
      apply Z.log2_lt_pow2; [lia|]. apply Ho. }
    exists ((j - c) mod 64). pose proof (Z.mod_pos_bound (j - c) 64 ltac:(lia)). split; [lia|].
    rewrite Hrot by lia. rewrite Zplus_mod_idemp_r. replace (c + (j - c)) with j by lia.
    by rewrite Z.mod_small. }
  change (trailing_zeros_from 64 0 (rotate_right64 occ (c mod 64))) with pos in *.
  split; [lia|]. rewrite Hrot in H2 by lia. split; [done|]. intros j Hj. rewrite <- Hrot by lia. apply H3. lia.
Qed.

(** Bucket [idx] is marked in the occupancy words. *)
Definition occ_bit (occupied : list Z) (idx : Z) : bool :=
  match occupied !! Z.to_nat (lvl_of idx) with Some o => Z.testbit o (idx mod 64) | None => false end.

Lemma expiry_of_pos elapsed lvl pos :
  0 <= lvl < 8 -> 0 <= pos < 64 ->
  let c := ceil_div elapsed (gran lvl) in
  let idx := lvl * 64 + (c + pos) mod 64 in
  valid_bucket idx /\ lvl_of idx = lvl /\ idx mod 64 = (c + pos) mod 64 /\
  bucket_expiry elapsed idx = (c + pos) * gran lvl.
Proof.
  intros Hl Hp c idx. pose proof (Z.mod_pos_bound (c + pos) 64 ltac:(lia)).
  assert (lvl_of idx = lvl) as Hlv.
  { unfold lvl_of, idx. rewrite Z.div_add_l by lia. rewrite Z.div_small by lia. lia. }
  assert (idx mod 64 = (c + pos) mod 64) as Hm.
  { unfold idx. by rewrite Z.add_comm, Z_mod_plus_full, Z.mod_mod by lia. }
  split; [unfold valid_bucket, idx; lia|]. split; [done|]. split; [done|].
  replace (gran lvl) with (gran (lvl_of idx)) by (by rewrite Hlv). apply bucket_expiry_unique; [done|]. rewrite Hlv. fold c. lia.
Qed.

(** Every bucket of a higher level expires at or after the clock of the next
    level. *)
Lemma higher_level_expiry elapsed idx lvl :
  valid_bucket idx -> 0 <= lvl -> lvl <= lvl_of idx ->
  ceil_div elapsed (gran lvl) * gran lvl <= bucket_expiry elapsed idx.
Proof.
  intros Hv Hl Hle. destruct (bucket_expiry_spec elapsed idx Hv) as (n & -> & _ & Hn).
  pose proof (lvl_of_range idx Hv). pose proof (gran_pos lvl Hl) as Hg.
  pose proof (gran_pos (lvl_of idx) ltac:(lia)) as Hg'.
  pose proof (ceil_div_spec elapsed (gran (lvl_of idx)) Hg').
  assert (gran (lvl_of idx) = gran (lvl_of idx - lvl) * gran lvl) as Hm.
  { unfold gran. rewrite <- Z.pow_add_r by lia. f_equal. lia. }
  assert (elapsed <= n * gran (lvl_of idx)) as Hle' by nia. rewrite Hm, Z.mul_assoc in Hle' |- *.
  apply Z.mul_le_mono_nonneg_r; [lia|]. by apply ceil_div_le.
Qed.

(** What the search has found: [r] is the earliest of [next] and the occupied
    buckets of the levels from [lvl]. *)
Definition earliest (occupied : list Z) (elapsed lvl next r : Z) : Prop :=
  r <= next /\
  (forall idx, valid_bucket idx -> lvl <= lvl_of idx -> occ_bit occupied idx = true ->
    r <= bucket_expiry elapsed idx) /\
  (r = next \/ exists idx, valid_bucket idx /\ lvl <= lvl_of idx /\ occ_bit occupied idx = true /\
    r = bucket_expiry elapsed idx).

Lemma level_min occupied elapsed lvl occ :
  0 <= lvl < 8 -> 0 <= elapsed -> occupied !! Z.to_nat lvl = Some occ -> 0 < occ < u64_modulus ->
  let c := ceil_div elapsed (gran lvl) in
  let pos := trailing_zeros64 (rotate_right64 occ (Z.land c LVL_MASK)) in
  0 <= pos < 64 /\
  (exists idx, valid_bucket idx /\ lvl_of idx = lvl /\ occ_bit occupied idx = true /\
    bucket_expiry elapsed idx = (c + pos) * gran lvl) /\
  forall idx, valid_bucket idx -> lvl_of idx = lvl -> occ_bit occupied idx = true ->
    (c + pos) * gran lvl <= bucket_expiry elapsed idx.
Proof.
  intros Hl He Ho Hocc c pos. pose proof (gran_pos lvl ltac:(lia)) as Hg.
  assert (0 <= c) as Hc by (pose proof (ceil_div_spec elapsed (gran lvl) Hg); unfold c; nia).
  destruct (first_occupied occ c Hocc Hc) as (Hp & Hbit & Hmin). fold pos in Hp, Hbit, Hmin.
  split; [done|]. split.
  - destruct (expiry_of_pos elapsed lvl pos Hl Hp) as (Hv & Hlv & Hm & Hx). fold c in Hv, Hlv, Hm, Hx.
    exists (lvl * 64 + (c + pos) mod 64). split; [done|]. split; [done|]. split; [|done].
    unfold occ_bit. by rewrite Hlv, Ho, Hm.
  - intros idx Hv Hlv Hb. unfold occ_bit in Hb. rewrite Hlv, Ho in Hb.
    destruct (bucket_expiry_spec elapsed idx Hv) as (n & -> & Hm & Hn). rewrite Hlv in Hn |- *. fold c in Hn.
    apply Z.mul_le_mono_nonneg_r; [lia|].
    destruct (Z.lt_ge_cases (n - c) pos) as [Hlt|]; [|lia].
    rewrite <- Hm in Hb. specialize (Hmin (n - c) ltac:(lia)).
    replace (c + (n - c)) with n in Hmin by lia. congruence.
Qed.

Lemma next_pending_loop_spec occupied elapsed n lvl next :
  0 <= lvl -> lvl + Z.of_nat n = 8 -> 0 <= elapsed < 2 ^ 63 ->
  (forall l, 0 <= l < 8 -> exists o, occupied !! Z.to_nat l = Some o /\ 0 <= o < u64_modulus) ->
  exists r, next_pending_loop occupied n lvl (ceil_div elapsed (gran lvl)) next = Done r /\
    earliest occupied elapsed lvl next r.
Proof.
  intros Hl Hn He Hocc. revert lvl next Hl Hn. induction n as [|n IH]; intros lvl next Hl Hn.
  - exists next. split; [done|]. split; [done|]. split; [|by left].
    intros idx Hv Hge _. pose proof (lvl_of_range idx Hv). lia.
  - destruct (Hocc lvl ltac:(lia)) as (o & Ho & Hor). cbn [next_pending_loop]. rewrite Ho.
    rewrite ceil_div_up by lia. pose proof (gran_pos lvl Hl) as Hg. pose proof (gran_le lvl ltac:(lia)) as Hgl.
    destruct (Z.eqb_spec o 0) as [->|Hne].
    + cbn. destruct (IH (lvl + 1) next) as (r & Hr & Hle & Hall & Hex); [lia..|].
      exists r. split; [done|]. split; [done|]. split.
      * intros idx Hv Hge Hb. destruct (Z.eq_dec (lvl_of idx) lvl) as [Heq|]; [|apply Hall; [done|lia|done]].
        unfold occ_bit in Hb. rewrite Heq, Ho, Z.bits_0 in Hb. done.
      * destruct Hex as [|(idx & ? & ? & ?)]; [by left|right]. exists idx. split; [done|]. split; [lia|done].
    + destruct (level_min occupied elapsed lvl o) as (Hp & (i0 & Hv0 & Hlv0 & Hb0 & Hx0) & Hmin); [lia..|done|lia|].
      set (c := ceil_div elapsed (gran lvl)) in *. set (pos := trailing_zeros64 _) in *. clearbody pos.
      pose proof (ceil_div_spec elapsed (gran lvl) Hg) as Hcs. fold c in Hcs.
      rewrite (proj2 (Z.leb_le 0 pos)) by lia.
      rewrite checked_add_ok by (unfold u64_modulus; nia). cbn [mbind outcome_bind].
      rewrite shiftl_lvl, as_u64_small by (unfold u64_modulus; nia).
      set (next' := if (c + pos) * gran lvl <? next then (c + pos) * gran lvl else next).
      assert (next' <= next /\ next' <= (c + pos) * gran lvl /\ (next' = next \/ next' = (c + pos) * gran lvl))
        as (Hn1 & Hn2 & Hn3) by (unfold next'; destruct (Z.ltb_spec ((c + pos) * gran lvl) next); lia).
      destruct (Z.leb_spec pos (Z.land (LVL_CLK_DIV - Z.land c LVL_CLK_MASK) LVL_CLK_MASK)) as [Hbrk|_].
      * exists next'. split; [done|]. split; [done|]. split.
        -- intros idx Hv Hge Hb. destruct (Z.eq_dec (lvl_of idx) lvl) as [Heq|Hne'].
           { specialize (Hmin idx Hv Heq Hb). lia. }
           pose proof (higher_level_expiry elapsed idx (lvl + 1) Hv ltac:(lia) ltac:(lia)) as Hh.
           rewrite <- ceil_div_up in Hh by lia. fold c in Hh. rewrite gran_succ in Hh by lia.
           revert Hbrk Hh. rewrite !land_clk_mask. unfold LVL_CLK_SHIFT. rewrite Z.shiftr_div_pow2 by lia.
           change (2 ^ 3) with 8. change LVL_CLK_DIV with 8.
           pose proof (Z.div_mod c 8 ltac:(lia)). pose proof (Z.mod_pos_bound c 8 ltac:(lia)).
           destruct (Z.eqb_spec (c mod 8) 0) as [Hz|Hz]; cbn [negb].
           ++ rewrite Hz. change ((8 - 0) mod 8) with 0. nia.
           ++ rewrite (Z.mod_small (8 - c mod 8)) by lia. nia.
        -- destruct Hn3 as [->| ->]; [by left|right]. exists i0. split; [done|]. split; [lia|]. by rewrite Hx0.
      * destruct (IH (lvl + 1) next') as (r & Hr & Hle & Hall & Hex); [lia..|].
        exists r. split; [done|]. split; [lia|]. split.
        -- intros idx Hv Hge Hb. destruct (Z.eq_dec (lvl_of idx) lvl) as [Heq|]; [|apply Hall; [done|lia|done]].
           specialize (Hmin idx Hv Heq Hb). lia.
        -- destruct Hex as [->|(idx & ? & ? & ?)].
           ++ destruct Hn3 as [->| ->]; [by left|right]. exists i0. split; [done|]. split; [lia|]. by rewrite Hx0.
           ++ right. exists idx. split; [done|]. split; [lia|done].
Qed.
