(* ===== verification/WheelInv.v ===== *)
(** * Correctness of the timer wheel

    The invariant of the wheel's state, its preservation by every operation,
    and what the operations do: timers sit in buckets that expire after their
    deadline, the driver fires exactly the buckets that expire, and never
    before time. *)
From Stdlib Require Import ZArith Lia.
From stdpp Require Import base numbers gmap list.
From S2P Require Import Prelude Deps Task Wheel WheelArith.

Section inv.
Context {T : Type -> Type} `{!Slab T} `{!SlabLaws T} {F : Type} `{!Bitflags F} {D : Type} `{!Delay D}.
Implicit Types t : Timer T F D.

(** ** Views of the state *)

Definition timers_of t : gmap nat TimerEntry := slab_map (tm_timers (t_inner t)).
Definition buckets_of t : list (Bucket T) := tm_buckets (t_inner t).
Definition occupied_of t : list Z := tm_occupied (t_inner t).
Definition entries_of (b : Bucket T) : gmap nat nat := slab_map (b_entries b).

(** Timer [no] is armed, in bucket [idx]. *)
Definition armed t (no : nat) (idx : Z) : Prop :=
  exists e, timers_of t !! no = Some e /\ te_bucket e = Some idx.

Definition bucket_shape (i : nat) (b : Bucket T) : Prop :=
  b_lvl b = lvl_of (Z.of_nat i) /\ b_bit b = 2 ^ (Z.of_nat i mod 64) /\ b_bit_n b = u64_max - b_bit b.

(** ** The invariant

    [shaped t]: the constant fields of the buckets, and occupancy words that
    mark exactly the non-empty buckets. *)
Record shaped t : Prop := {
  sh_buckets : length (buckets_of t) = 512%nat;
  sh_shape i b : buckets_of t !! i = Some b -> bucket_shape i b;
  sh_occupied : length (occupied_of t) = 512%nat;
  sh_occ_range l o : occupied_of t !! l = Some o -> 0 <= o < u64_modulus;
  sh_occ i b : buckets_of t !! i = Some b ->
    occ_bit (occupied_of t) (Z.of_nat i) = negb (bool_decide (entries_of b = ∅));
}.

(** [linked t X]: timers and bucket slots point at each other, except that
    the slots of the timers [X] are gone already. *)
Record linked t (X : list nat) : Prop := {
  lk_fwd no e idx : timers_of t !! no = Some e -> te_bucket e = Some idx -> no ∉ X ->
    0 <= idx /\ exists b, buckets_of t !! Z.to_nat idx = Some b /\ entries_of b !! te_bucket_entry e = Some no;
  lk_bwd i b k no : buckets_of t !! i = Some b -> entries_of b !! k = Some no -> (no ∉ X) /\
    exists e, timers_of t !! no = Some e /\ te_bucket e = Some (Z.of_nat i) /\ te_bucket_entry e = k;
}.

(** The clock is at or before every armed bucket, and the next expiry too. *)
Record clocked t : Prop := {
  ck_elapsed : 0 <= t_elapsed t <= t_next_expiry t;
  ck_next no idx : armed t no idx -> t_next_expiry t <= bucket_expiry (t_elapsed t) idx;
}.

Record WInv t : Prop := {
  wi_shaped : shaped t;
  wi_linked : linked t [];
  wi_clocked : clocked t;
  wi_zero : exists e, timers_of t !! 0%nat = Some e /\ te_bucket e = None;
}.

Lemma armed_valid t no idx : shaped t -> linked t [] -> armed t no idx -> valid_bucket idx.
Proof.
  intros Hs Hl (e & He & Hb). destruct (lk_fwd _ _ Hl no e idx He Hb) as (H0 & b & Hb' & _); [apply not_elem_of_nil|].
  apply lookup_lt_Some in Hb'. rewrite (sh_buckets _ Hs) in Hb'. unfold valid_bucket. lia.
Qed.

(** ** Occupancy bits *)

Lemma testbit_mask j i : 0 <= j < 64 -> 0 <= i < 64 -> Z.testbit (u64_max - 2 ^ j) i = negb (i =? j).
Proof.
  intros Hj Hi. change u64_max with (Z.ones 64). rewrite Z.sub_nocarry_ldiff.
  - rewrite Z.ldiff_spec, Z.ones_spec_low, testbit_pow2 by lia. done.
  - apply Z.bits_inj'. intros k Hk. rewrite Z.ldiff_spec, Z.bits_0, testbit_pow2 by lia.
    destruct (Z.eqb_spec k j) as [->|]; [|done]. by rewrite Z.ones_spec_low by lia.
Qed.

Lemma set_bit_word o j :
  0 <= o < u64_modulus -> 0 <= j < 64 ->
  0 <= Z.lor o (2 ^ j) < u64_modulus /\
  forall i, 0 <= i < 64 -> Z.testbit (Z.lor o (2 ^ j)) i = if i =? j then true else Z.testbit o i.
Proof.
  intros Ho Hj. split.
  - assert (0 <= Z.lor o (2 ^ j)) by (apply Z.lor_nonneg; lia). split; [done|].
    destruct (Z.eq_dec (Z.lor o (2 ^ j)) 0) as [->|]; [done|]. apply Z.log2_lt_pow2; [lia|].
    rewrite Z.log2_lor by lia. apply Z.max_lub_lt; [|rewrite Z.log2_pow2; lia].
    destruct (Z.eq_dec o 0) as [->|]; [done|]. apply Z.log2_lt_pow2; [lia|apply Ho].
  - intros i Hi. rewrite Z.lor_spec, testbit_pow2 by lia. destruct (i =? j); [apply orb_true_r|apply orb_false_r].
Qed.

Lemma clear_bit_word o j :
  0 <= o < u64_modulus -> 0 <= j < 64 ->
  0 <= Z.land o (u64_max - 2 ^ j) < u64_modulus /\
  forall i, 0 <= i < 64 -> Z.testbit (Z.land o (u64_max - 2 ^ j)) i = if i =? j then false else Z.testbit o i.
Proof.
  intros Ho Hj. split.
  - assert (0 <= Z.land o (u64_max - 2 ^ j)) by (apply Z.land_nonneg; lia). split; [done|].
    destruct (Z.eq_dec (Z.land o (u64_max - 2 ^ j)) 0) as [->|]; [done|]. apply Z.log2_lt_pow2; [lia|].
    assert (0 <= u64_max - 2 ^ j).
    { assert (2 ^ j <= 2 ^ 63) by (apply Z.pow_le_mono_r; lia). change u64_max with (2 ^ 64 - 1). lia. }
    pose proof (Z.log2_land o (u64_max - 2 ^ j) ltac:(lia) ltac:(lia)).
    assert (Z.log2 o < 64); [|lia].
    destruct (Z.eq_dec o 0) as [->|]; [done|]. apply Z.log2_lt_pow2; [lia|apply Ho].
  - intros i Hi. rewrite Z.land_spec, testbit_mask by lia.
    destruct (i =? j); [apply andb_false_r|apply andb_true_r].
Qed.

(** ** Replacing the entries of one bucket *)

Definition put_bucket (i : nat) (es : T nat) (o : Z) t : Timer T F D :=
  set_inner (with_occupied (<[Z.to_nat (lvl_of (Z.of_nat i)) := o]> (tm_occupied (t_inner t)))
    (with_buckets (alter (with_entries es) i (tm_buckets (t_inner t))) (t_inner t))) t.

Lemma occ_word t i b :
  shaped t -> buckets_of t !! i = Some b ->
  exists o, occupied_of t !! Z.to_nat (lvl_of (Z.of_nat i)) = Some o /\ 0 <= o < u64_modulus /\
    0 <= Z.of_nat i mod 64 < 64 /\
    Z.testbit o (Z.of_nat i mod 64) = negb (bool_decide (entries_of b = ∅)).
Proof.
  intros Hs Hb. pose proof (lookup_lt_Some _ _ _ Hb) as Hlt. rewrite (sh_buckets _ Hs) in Hlt.
  pose proof (lvl_of_range (Z.of_nat i) ltac:(unfold valid_bucket; lia)).
  destruct (lookup_lt_is_Some_2 (occupied_of t) (Z.to_nat (lvl_of (Z.of_nat i)))) as [o Ho].
  { rewrite (sh_occupied _ Hs). lia. }
  exists o. split; [done|]. split; [by eapply sh_occ_range|].
  split; [apply Z.mod_pos_bound; lia|]. pose proof (sh_occ _ Hs i b Hb) as Hocc.
  unfold occ_bit in Hocc. by rewrite Ho in Hocc.
Qed.

Lemma shaped_put t i b es o o' :
  shaped t -> buckets_of t !! i = Some b ->
  occupied_of t !! Z.to_nat (lvl_of (Z.of_nat i)) = Some o -> 0 <= o' < u64_modulus ->
  (forall j, 0 <= j < 64 -> Z.testbit o' j =
    if j =? Z.of_nat i mod 64 then negb (bool_decide (slab_map es = ∅)) else Z.testbit o j) ->
  shaped (put_bucket i es o' t).
Proof.
  intros Hs Hb Ho Ho' Hbit.
  assert (forall k b', buckets_of (put_bucket i es o' t) !! k = Some b' ->
    (k = i /\ b' = with_entries es b) \/ (k <> i /\ buckets_of t !! k = Some b')) as Hlk.
  { intros k b' Hk. unfold buckets_of, put_bucket in Hk. cbn in Hk. destruct (decide (k = i)) as [->|Hne].
    - left. rewrite list_lookup_alter_eq in Hk. unfold buckets_of in Hb. rewrite Hb in Hk. by simplify_eq/=.
    - right. by rewrite list_lookup_alter_ne in Hk. }
  split.
  - unfold buckets_of, put_bucket. cbn. rewrite length_alter. apply (sh_buckets _ Hs).
  - intros k b' [[-> ->]|[Hne Hk]]%Hlk; [exact (sh_shape _ Hs i b Hb)|by apply (sh_shape _ Hs)].
  - unfold occupied_of, put_bucket. cbn. rewrite length_insert. apply (sh_occupied _ Hs).
  - intros l w Hw. unfold occupied_of, put_bucket in Hw. cbn in Hw.
    apply list_lookup_insert_Some in Hw as [(_ & <- & _)|[_ Hw]]; [done|by eapply (sh_occ_range _ Hs)].
  - intros k b' Hk. pose proof (lookup_lt_Some _ _ _ Ho) as Hlt.
    assert (forall k : nat, 0 <= lvl_of (Z.of_nat k)) as Hpos by (intros; apply Z.div_pos; lia).
    assert (occ_bit (occupied_of (put_bucket i es o' t)) (Z.of_nat k) =
      if decide (lvl_of (Z.of_nat k) = lvl_of (Z.of_nat i)) then Z.testbit o' (Z.of_nat k mod 64)
      else occ_bit (occupied_of t) (Z.of_nat k)) as Hob.
    { unfold occ_bit, occupied_of, put_bucket. cbn [t_inner set_inner tm_occupied with_occupied].
      pose proof (Hpos k). pose proof (Hpos i).
      destruct (decide (lvl_of (Z.of_nat k) = lvl_of (Z.of_nat i))) as [Hd|Hd].
      - by rewrite Hd, list_lookup_insert_eq.
      - rewrite list_lookup_insert_ne by lia. done. }
    rewrite Hob, Hbit by (apply Z.mod_pos_bound; lia).
    assert (forall k, lvl_of (Z.of_nat k) = lvl_of (Z.of_nat i) -> Z.of_nat k mod 64 = Z.of_nat i mod 64 -> k = i) as Hinj.
    { intros k' Hd Hm. unfold lvl_of in Hd. pose proof (Z.div_mod (Z.of_nat k') 64). pose proof (Z.div_mod (Z.of_nat i) 64). lia. }
    apply Hlk in Hk as [[-> ->]|[Hne Hk]].
    + rewrite decide_True, Z.eqb_refl by done. done.
    + pose proof (sh_occ _ Hs k b' Hk) as Hold.
      destruct (decide (lvl_of (Z.of_nat k) = lvl_of (Z.of_nat i))) as [Hd|Hd]; [|done].
      destruct (Z.eqb_spec (Z.of_nat k mod 64) (Z.of_nat i mod 64)) as [He|_]; [by apply Hinj in He|].
      unfold occ_bit in Hold. by rewrite Hd, Ho in Hold.
Qed.

(** ** Links *)

Definition put_timers (ts : T TimerEntry) t : Timer T F D := set_inner (with_timers ts (t_inner t)) t.

Lemma put_bucket_lookup t i b es o k b' :
  buckets_of t !! i = Some b -> buckets_of (put_bucket i es o t) !! k = Some b' ->
  (k = i /\ b' = with_entries es b) \/ (k <> i /\ buckets_of t !! k = Some b').
Proof.
  intros Hb Hk. unfold buckets_of, put_bucket in *. cbn in Hk. destruct (decide (k = i)) as [->|Hne].
  - left. rewrite list_lookup_alter_eq, Hb in Hk. by simplify_eq/=.
  - right. by rewrite list_lookup_alter_ne in Hk.
Qed.

Lemma put_bucket_lookup_eq t i b es o :
  buckets_of t !! i = Some b -> buckets_of (put_bucket i es o t) !! i = Some (with_entries es b).
Proof. intros Hb. unfold buckets_of, put_bucket in *. cbn. by rewrite list_lookup_alter_eq, Hb. Qed.

Lemma put_bucket_lookup_ne t i es o k :
  k <> i -> buckets_of (put_bucket i es o t) !! k = buckets_of t !! k.
Proof. intros Hb. unfold buckets_of, put_bucket in *. cbn. by rewrite list_lookup_alter_ne. Qed.

(** Emptying the slot of one timer. *)
Lemma linked_unlink t i b k no es o :
  linked t [] -> buckets_of t !! i = Some b -> entries_of b !! k = Some no ->
  slab_map es = delete k (entries_of b) -> linked (put_bucket i es o t) [no].
Proof.
  intros Hl Hb Hk Hes. destruct (lk_bwd _ _ Hl i b k no Hb Hk) as (_ & e & He & Hbk & Hek). split.
  - intros no' e' idx He' Hb' Hne. destruct (lk_fwd _ _ Hl no' e' idx He' Hb') as (H0 & b' & Hbl & Hent); [apply not_elem_of_nil|].
    split; [done|]. destruct (decide (Z.to_nat idx = i)) as [Hi|Hi].
    + exists (with_entries es b). rewrite Hi in *. rewrite (put_bucket_lookup_eq t i b) by done.
      split; [done|]. simplify_eq. unfold entries_of. cbn. rewrite Hes, lookup_delete_ne; [done|].
      intros Heq. assert (no' = no) as -> by congruence. set_solver.
    + exists b'. by rewrite put_bucket_lookup_ne.
  - intros i' b' k' no' Hbl Hent. apply (put_bucket_lookup t i b _ _ _ _ Hb) in Hbl as [[-> ->]|[Hne Hbl]].
    + unfold entries_of in Hent. cbn in Hent. rewrite Hes in Hent. apply lookup_delete_Some in Hent as [Hkk Hent].
      destruct (lk_bwd _ _ Hl i b k' no' Hb Hent) as (_ & e' & He' & Hb' & Hek').
      split; [|by exists e']. intros ->%list_elem_of_singleton. congruence.
    + destruct (lk_bwd _ _ Hl i' b' k' no' Hbl Hent) as (_ & e' & He' & Hb' & Hek').
      split; [|by exists e']. intros ->%list_elem_of_singleton. by simplify_eq.
Qed.

(** Emptying a whole bucket. *)
Lemma linked_drain t i b es o nos :
  linked t [] -> buckets_of t !! i = Some b -> slab_map es = ∅ ->
  (forall no, no ∈ nos <-> exists k, entries_of b !! k = Some no) ->
  linked (put_bucket i es o t) nos.
Proof.
  intros Hl Hb Hes Hnos. split.
  - intros no' e' idx He' Hb' Hne. destruct (lk_fwd _ _ Hl no' e' idx He' Hb') as (H0 & b' & Hbl & Hent); [apply not_elem_of_nil|].
    split; [done|]. exists b'. destruct (decide (Z.to_nat idx = i)) as [Hi|Hi].
    + exfalso. apply Hne, Hnos. rewrite Hi in Hbl. simplify_eq. eauto.
    + by rewrite put_bucket_lookup_ne.
  - intros i' b' k' no' Hbl Hent. apply (put_bucket_lookup t i b _ _ _ _ Hb) in Hbl as [[-> ->]|[Hne Hbl]].
    + unfold entries_of in Hent. cbn in Hent. by rewrite Hes in Hent.
    + destruct (lk_bwd _ _ Hl i' b' k' no' Hbl Hent) as (_ & e' & He' & Hb' & Hek').
      split; [|by exists e']. intros (k & Hk)%Hnos.
      destruct (lk_bwd _ _ Hl i b k no' Hb Hk) as (_ & e'' & He'' & Hb'' & _). by simplify_eq.
Qed.

(** A timer without a slot is disarmed. *)
Lemma linked_disarm t X no e ts :
  linked t (no :: X) -> te_bucket e = None -> slab_map ts = <[no := e]> (timers_of t) ->
  linked (put_timers ts t) X.
Proof.
  intros Hl Hn Hts. split.
  - intros no' e' idx He' Hb' Hne. unfold timers_of, put_timers in He'. cbn in He'. rewrite Hts in He'.
    apply lookup_insert_Some in He' as [[<- <-]|[Hnn He']]; [congruence|].
    apply (lk_fwd _ _ Hl no' e' idx He' Hb'). set_solver.
  - intros i' b' k' no' Hbl Hent. destruct (lk_bwd _ _ Hl i' b' k' no' Hbl Hent) as (Hni & e' & He' & ?).
    split; [set_solver|]. exists e'. unfold timers_of, put_timers. cbn. rewrite Hts, lookup_insert_ne; [done|].
    set_solver.
Qed.

Lemma linked_forget t no ts :
  linked t [no] -> slab_map ts = delete no (timers_of t) -> linked (put_timers ts t) [].
Proof.
  intros Hl Hts. split.
  - intros no' e' idx He' Hb' Hne. unfold timers_of, put_timers in He'. cbn in He'. rewrite Hts in He'.
    apply lookup_delete_Some in He' as [Hnn He'].
    apply (lk_fwd _ _ Hl no' e' idx He' Hb'). set_solver.
  - intros i' b' k' no' Hbl Hent. destruct (lk_bwd _ _ Hl i' b' k' no' Hbl Hent) as (Hni & e' & He' & ?).
    split; [apply not_elem_of_nil|]. exists e'. unfold timers_of, put_timers. cbn.
    rewrite Hts, lookup_delete_ne; [done|]. set_solver.
Qed.

Lemma linked_weaken t no :
  linked t [] -> (forall e idx, timers_of t !! no = Some e -> te_bucket e <> Some idx) -> linked t [no].
Proof.
  intros Hl Hn. split.
  - intros no' e' idx He' Hb' Hne. apply (lk_fwd _ _ Hl no' e' idx He' Hb'), not_elem_of_nil.
  - intros i' b' k' no' Hbl Hent. destruct (lk_bwd _ _ Hl i' b' k' no' Hbl Hent) as (Hni & e' & He' & Hb' & ?).
    split; [|by exists e']. intros ->%list_elem_of_singleton. by destruct (Hn e' (Z.of_nat i')).
Qed.

(** A timer without a slot gets one. *)
Lemma linked_insert t i b k no es o e ts :
  linked t [no] -> buckets_of t !! i = Some b -> entries_of b !! k = None ->
  slab_map es = <[k := no]> (entries_of b) -> slab_map ts = <[no := e]> (timers_of t) ->
  te_bucket e = Some (Z.of_nat i) -> te_bucket_entry e = k ->
  linked (put_bucket i es o (put_timers ts t)) [].
Proof.
  intros Hl Hb Hk Hes Hts Hbe Hke. set (t1 := put_timers ts t).
  assert (buckets_of t1 !! i = Some b) as Hb1 by done. split.
  - intros no' e' idx He' Hb' _. change (slab_map ts !! no' = Some e') in He'. rewrite Hts in He'.
    apply lookup_insert_Some in He' as [[<- <-]|[Hnn He']].
    + rewrite Hbe in Hb'. simplify_eq. split; [lia|]. rewrite Nat2Z.id. exists (with_entries es b).
      split; [by apply put_bucket_lookup_eq|]. unfold entries_of. cbn. rewrite Hes. apply lookup_insert_eq.
    + destruct (lk_fwd _ _ Hl no' e' idx He' Hb') as (H0 & b' & Hbl & Hent); [set_solver|]. split; [done|].
      destruct (decide (Z.to_nat idx = i)) as [Hi|Hi].
      * exists (with_entries es b). rewrite Hi in *. rewrite (put_bucket_lookup_eq t1 i b) by done.
        split; [done|]. simplify_eq. unfold entries_of. cbn. rewrite Hes, lookup_insert_ne; [done|]. congruence.
      * exists b'. by rewrite put_bucket_lookup_ne.
  - intros i' b' k' no' Hbl Hent. split; [apply not_elem_of_nil|].
    apply (put_bucket_lookup t1 i b _ _ _ _ Hb1) in Hbl as [[-> ->]|[Hne Hbl]].
    + unfold entries_of in Hent. cbn in Hent. rewrite Hes in Hent.
      apply lookup_insert_Some in Hent as [[<- <-]|[Hkk Hent]].
      * exists e. change (slab_map ts !! no = Some e /\ te_bucket e = Some (Z.of_nat i) /\ te_bucket_entry e = k).
        rewrite Hts, lookup_insert_eq. done.
      * destruct (lk_bwd _ _ Hl i b k' no' Hb Hent) as (Hni & e' & He' & ?). exists e'.
        change (slab_map ts !! no' = Some e' /\ te_bucket e' = Some (Z.of_nat i) /\ te_bucket_entry e' = k').
        rewrite Hts, lookup_insert_ne by set_solver. done.
    + destruct (lk_bwd _ _ Hl i' b' k' no' Hbl Hent) as (Hni & e' & He' & ?). exists e'.
      change (slab_map ts !! no' = Some e' /\ te_bucket e' = Some (Z.of_nat i') /\ te_bucket_entry e' = k').
      rewrite Hts, lookup_insert_ne by set_solver. done.
Qed.

(** ** Operations on buckets *)

Lemma insert_is_alter {A} (f : A -> A) (l : list A) i x :
  l !! i = Some x -> <[i := f x]> l = alter f i l.
Proof. revert i. induction l as [|y l IH]; intros [|i] Hi; simplify_eq/=; [done|]. f_equal. by apply IH. Qed.

Lemma bucket_at_eq t i b :
  buckets_of t !! i = Some b -> bucket_at (Z.of_nat i) t = Done (b, t).
Proof. intros Hb. unfold bucket_at. rewrite Nat2Z.id. unfold buckets_of in Hb. by rewrite Hb. Qed.

Lemma is_empty_entries (es : T nat) : slab_is_empty es = bool_decide (slab_map es = ∅).
Proof.
  rewrite slab_is_empty_map. apply bool_decide_ext. split; [apply map_size_empty_inv|].
  intros ->. apply map_size_empty.
Qed.

Lemma put_bucket_same t i b es o :
  buckets_of t !! i = Some b -> occupied_of t !! Z.to_nat (lvl_of (Z.of_nat i)) = Some o ->
  set_inner (with_buckets (<[i := with_entries es b]> (tm_buckets (t_inner t))) (t_inner t)) t
  = put_bucket i es o t.
Proof.
  intros Hb Ho. unfold put_bucket. rewrite (insert_is_alter (with_entries es)) by done.
  unfold occupied_of in Ho. by rewrite list_insert_id.
Qed.

Lemma put_bucket_occ t i b es o o' :
  buckets_of t !! i = Some b -> occupied_of t !! Z.to_nat (lvl_of (Z.of_nat i)) = Some o ->
  update_occupied (lvl_of (Z.of_nat i)) (fun _ => o')
    (set_inner (with_buckets (<[i := with_entries es b]> (tm_buckets (t_inner t))) (t_inner t)) t)
  = Done (tt, put_bucket i es o' t).
Proof.
  intros Hb Ho. unfold update_occupied. cbn. unfold occupied_of in Ho. rewrite Ho.
  unfold put_bucket. by rewrite (insert_is_alter (with_entries es)).
Qed.

Lemma remove_entry_spec t i b k no :
  shaped t -> linked t [] -> buckets_of t !! i = Some b -> entries_of b !! k = Some no ->
  exists o, remove_bucket_entry (Z.of_nat i) k t = Done (tt, put_bucket i (slab_remove k (b_entries b)) o t) /\
    shaped (put_bucket i (slab_remove k (b_entries b)) o t) /\
    linked (put_bucket i (slab_remove k (b_entries b)) o t) [no].
Proof.
  intros Hs Hl Hb Hk. destruct (occ_word t i b Hs Hb) as (o & Ho & Hor & Him & Hbit).
  destruct (sh_shape _ Hs i b Hb) as (Hlv & Hbb & Hbn).
  set (es := slab_remove k (b_entries b)).
  assert (slab_map es = delete k (entries_of b)) as Hes by apply slab_map_remove.
  assert (entries_of b <> ∅) as Hne by (intros He; rewrite He in Hk; done).
  rewrite bool_decide_false in Hbit by done.
  set (o' := if slab_is_empty es then Z.land o (b_bit_n b) else o).
  exists o'. split; [|split; [|by eapply linked_unlink]].
  - unfold remove_bucket_entry, mbind, M_bind. rewrite (bucket_at_eq t i b) by done.
    unfold assertS. rewrite slab_contains_map, bool_decide_true by (by eexists).
    unfold set_bucket, modifyS. rewrite Nat2Z.id. fold es. unfold o'. destruct (slab_is_empty es).
    + rewrite Hlv. unfold update_occupied. cbn. unfold occupied_of in Ho. rewrite Ho.
      unfold put_bucket. by rewrite (insert_is_alter (with_entries es)).
    + unfold mret, M_ret. by rewrite (put_bucket_same t i b es o).
  - destruct (clear_bit_word o (Z.of_nat i mod 64) Hor Him) as [Hcr Hcb].
    apply (shaped_put t i b es o); [done|done|done| |].
    + unfold o'. rewrite Hbn, Hbb. by destruct (slab_is_empty es).
    + intros j Hj. unfold o'. rewrite is_empty_entries. case_bool_decide as He; cbn [negb].
      * rewrite Hbn, Hbb. by apply Hcb.
      * destruct (Z.eqb_spec j (Z.of_nat i mod 64)) as [->|]; [|done].
        by rewrite Hbit.
Qed.

(** Putting timer [no] into bucket [i]; its entry [e] is stored in between. *)
Lemma insert_entry_spec t i b no e ts :
  shaped t -> linked t [no] -> buckets_of t !! i = Some b ->
  let k := (slab_insert no (b_entries b)).1 in
  let es := (slab_insert no (b_entries b)).2 in
  slab_map ts = <[no := e]> (timers_of t) -> te_bucket e = Some (Z.of_nat i) -> te_bucket_entry e = k ->
  exists o,
    update_occupied (b_lvl b) (fun o => Z.lor o (b_bit b))
      (put_timers ts (set_inner (with_buckets (<[i := with_entries es b]> (tm_buckets (t_inner t))) (t_inner t)) t))
    = Done (tt, put_bucket i es o (put_timers ts t)) /\
    shaped (put_bucket i es o (put_timers ts t)) /\ linked (put_bucket i es o (put_timers ts t)) [].
Proof.
  intros Hs Hl Hb k es Hts Hbe Hke. destruct (occ_word t i b Hs Hb) as (o & Ho & Hor & Him & Hbit).
  destruct (sh_shape _ Hs i b Hb) as (Hlv & Hbb & Hbn).
  assert (slab_map es = <[k := no]> (entries_of b)) as Hes by apply slab_map_insert.
  destruct (set_bit_word o (Z.of_nat i mod 64) Hor Him) as [Hsr Hsb].
  assert (shaped (put_timers ts t)) as Hs1 by (destruct Hs; by split).
  exists (Z.lor o (b_bit b)). split; [|split].
  - rewrite Hlv. unfold update_occupied. cbn. unfold occupied_of in Ho. rewrite Ho.
    unfold put_bucket, put_timers. cbn. by rewrite (insert_is_alter (with_entries es)).
  - apply (shaped_put (put_timers ts t) i b es o); [done|done|done|by rewrite Hbb|].
    intros j Hj. rewrite Hbb, Hsb by done. rewrite bool_decide_false; [done|].
    rewrite Hes. apply insert_non_empty.
  - eapply linked_insert; try done. apply slab_insert_vacant.
Qed.

(** Only bucket contents and timers change. *)
Definition same_outer t t' : Prop :=
  t_elapsed t' = t_elapsed t /\ t_elapsed_time t' = t_elapsed_time t /\ t_next_expiry t' = t_next_expiry t /\
  t_flags t' = t_flags t /\ t_driver t' = t_driver t /\ t_lowres_time t' = t_lowres_time t /\
  t_lowres_stime t' = t_lowres_stime t /\ t_lowres_driver t' = t_lowres_driver t /\
  t_clock_reads t' = t_clock_reads t /\ t_spawned t' = t_spawned t /\
  tm_driver_sleep (t_inner t') = tm_driver_sleep (t_inner t) /\
  tm_lowres_driver_sleep (t_inner t') = tm_lowres_driver_sleep (t_inner t).

Lemma same_outer_refl t : same_outer t t.
Proof. by repeat split. Qed.
Lemma same_outer_trans t1 t2 t3 : same_outer t1 t2 -> same_outer t2 t3 -> same_outer t1 t3.
Proof. unfold same_outer. intros. destruct_and!. repeat split; congruence. Qed.

Lemma timer_at_eq t no e : timers_of t !! no = Some e -> timer_at no t = Done (e, t).
Proof. intros He. unfold timer_at. rewrite slab_get_map. unfold timers_of in He. by rewrite He. Qed.

(** [remove_timer_bucket(hnd, false)]: the timer's slot is gone. *)
Lemma unlink_spec t no e :
  shaped t -> linked t [] -> timers_of t !! no = Some e ->
  runs (remove_timer_bucket no false) t (fun _ t' =>
    shaped t' /\ linked t' [no] /\ timers_of t' = timers_of t /\ same_outer t t' /\ t_woken t' = t_woken t).
Proof.
  intros Hs Hl He. unfold remove_timer_bucket. apply runs_bind.
  eapply runs_eq; [by apply timer_at_eq|]. apply runs_bind. destruct (te_bucket e) as [idx|] eqn:Hb.
  - destruct (lk_fwd _ _ Hl no e idx He Hb) as (H0 & b & Hbl & Hent); [apply not_elem_of_nil|].
    destruct (remove_entry_spec t _ b _ no Hs Hl Hbl Hent) as (o & Hr & Hs' & Hl').
    rewrite Z2Nat.id in Hr by done. eapply runs_eq; [exact Hr|]. by apply runs_ret.
  - apply runs_ret, runs_ret. split; [done|]. split; [|by repeat split].
    apply linked_weaken; [done|]. intros e' idx. rewrite He. intros [= <-]. congruence.
Qed.

(** The timers, buckets and occupancy words are the same. *)
Definition same_wheel t t' : Prop :=
  timers_of t' = timers_of t /\ buckets_of t' = buckets_of t /\ occupied_of t' = occupied_of t.

Lemma same_wheel_trans t1 t2 t3 : same_wheel t1 t2 -> same_wheel t2 t3 -> same_wheel t1 t3.
Proof. unfold same_wheel. intros. destruct_and!. repeat split; congruence. Qed.

Lemma shaped_same t t' : same_wheel t t' -> shaped t -> shaped t'.
Proof. intros (Ht & Hb & Ho) [? ? ? ? ?]. split; rewrite ?Hb, ?Ho; done. Qed.

Lemma linked_same t t' X : same_wheel t t' -> linked t X -> linked t' X.
Proof. intros (Ht & Hb & Ho) [? ?]. split; rewrite ?Hb, ?Ht; done. Qed.

Lemma armed_same t t' no idx : same_wheel t t' -> armed t' no idx -> armed t no idx.
Proof. intros (Ht & _ & _) (e & He & Hb). exists e. by rewrite <- Ht. Qed.

(** [update_timer(hnd, 0)] and the like: the timer is disarmed. *)
Definition disarmed (e : TimerEntry) (task : LocalWaker) : TimerEntry :=
  mkTimerEntry None (te_bucket_entry e) task.

Lemma set_timer_eq t no e : set_timer no e t = Done (tt, put_timers (slab_set no e (tm_timers (t_inner t))) t).
Proof. done. Qed.

Lemma disarm_spec t no e :
  shaped t -> linked t [] -> timers_of t !! no = Some e ->
  runs (remove_timer_bucket no false;;
        e ← timer_at no; set_timer no (disarmed e (te_task e))) t (fun _ t' =>
    shaped t' /\ linked t' [] /\ timers_of t' = <[no := disarmed e (te_task e)]> (timers_of t) /\
    same_outer t t' /\ t_woken t' = t_woken t).
Proof.
  intros Hs Hl He. apply runs_bind. eapply runs_conseq; [by apply (unlink_spec t no e)|].
  intros [] t1 (Hs1 & Hl1 & Ht1 & Ho1 & Hw1). rewrite <- Ht1 in He.
  apply runs_bind. eapply runs_eq; [by apply timer_at_eq|]. eapply runs_eq; [apply set_timer_eq|].
  set (ts := slab_set _ _ _).
  assert (slab_map ts = <[no := disarmed e (te_task e)]> (timers_of t1)) as Hts by (by eapply slab_map_set).
  split; [destruct Hs1; by split|]. split; [by apply (linked_disarm t1 [] no (disarmed e (te_task e)))|].
  split; [|by split]. change (slab_map ts = <[no := disarmed e (te_task e)]> (timers_of t)). by rewrite Hts, Ht1.
Qed.

Lemma remove_timer_spec t no e :
  shaped t -> linked t [] -> timers_of t !! no = Some e ->
  runs (remove_timer no) t (fun _ t' =>
    shaped t' /\ linked t' [] /\ timers_of t' = <[no := (complete e).2]> (timers_of t) /\
    same_outer t t' /\ t_woken t' = t_woken t ++ (complete e).1).
Proof.
  intros Hs Hl He. apply runs_bind. eapply runs_conseq; [by apply (unlink_spec t no e)|].
  intros [] t1 (Hs1 & Hl1 & Ht1 & Ho1 & Hw1). rewrite <- Ht1 in He.
  apply runs_bind. eapply runs_eq; [by apply timer_at_eq|].
  assert (te_bucket (complete e).2 = None) as Hnone by (unfold complete; by destruct (te_bucket e) eqn:?).
  eapply runs_eq.
  { unfold complete_timer. rewrite slab_get_map. unfold timers_of in He. rewrite He.
    by rewrite (surjective_pairing (complete e)). }
  set (ts := slab_set _ _ _). set (t2 := add_woken _ _).
  assert (slab_map ts = <[no := (complete e).2]> (timers_of t1)) as Hts by (by eapply slab_map_set).
  assert (same_wheel (put_timers ts t1) t2) as Hsame by done.
  split; [destruct Hs1; by split|]. split; [eapply linked_same; [exact Hsame|by apply (linked_disarm t1 [] no (complete e).2)]|].
  split; [|split; [exact Ho1|by unfold t2; cbn; rewrite Hw1]].
  change (slab_map ts = <[no := (complete e).2]> (timers_of t)). by rewrite Hts, Ht1.
Qed.

Lemma handle_drop_spec t no e :
  shaped t -> linked t [] -> timers_of t !! no = Some e ->
  runs (handle_drop no) t (fun _ t' =>
    shaped t' /\ linked t' [] /\ timers_of t' = delete no (timers_of t) /\ same_outer t t' /\
    t_woken t' = t_woken t).
Proof.
  intros Hs Hl He. unfold handle_drop.
  assert (forall t0 r, remove_timer_bucket no false t0 = r ->
    remove_timer_bucket no true t0 =
    match r with
    | Done (_, t1) => Done (tt, put_timers (slab_remove no (tm_timers (t_inner t1))) t1)
    | Fault f => Fault f
    end) as Hrel.
  { intros t0 r <-. unfold remove_timer_bucket, mbind, M_bind. destruct (timer_at no t0) as [[e0 t1]|]; [|done].
    destruct (te_bucket e0); [|done]. by destruct (remove_bucket_entry _ _ t1) as [[? ?]|]. }
  destruct (unlink_spec t no e Hs Hl He) as ([] & t1 & Hr & Hs1 & Hl1 & Ht1 & Ho1 & Hw1).
  eapply runs_eq; [by rewrite (Hrel t _ Hr)|]. set (ts := slab_remove _ _).
  assert (slab_map ts = delete no (timers_of t1)) as Hts by apply slab_map_remove.
  split; [destruct Hs1; by split|]. split; [by eapply linked_forget|].
  split; [|by split]. change (slab_map ts = delete no (timers_of t)). by rewrite Hts, Ht1.
Qed.

Lemma bucket_lookup t idx : shaped t -> valid_bucket idx -> exists b, buckets_of t !! Z.to_nat idx = Some b.
Proof.
  intros Hs Hv. apply lookup_lt_is_Some_2. rewrite (sh_buckets _ Hs). unfold valid_bucket in Hv. lia.
Qed.

Lemma add_entry_spec t idx :
  shaped t -> linked t [] -> valid_bucket idx ->
  runs (add_entry idx) t (fun no t' =>
    shaped t' /\ linked t' [] /\ timers_of t !! no = None /\
    (exists k, timers_of t' = <[no := mkTimerEntry (Some idx) k None]> (timers_of t)) /\
    same_outer t t' /\ t_woken t' = t_woken t).
Proof.
  intros Hs Hl Hv. destruct (bucket_lookup t idx Hs Hv) as [b Hb].
  unfold add_entry. apply runs_bind, runs_get. set (no := slab_vacant_key _).
  set (k := (slab_insert no (b_entries b)).1). set (e := mkTimerEntry (Some idx) k None).
  assert ((slab_insert e (tm_timers (t_inner t))).1 = no) as Hno by apply slab_insert_key.
  assert (timers_of t !! no = None) as Hfresh by (rewrite <- Hno; apply slab_insert_vacant).
  set (ts := (slab_insert e (tm_timers (t_inner t))).2).
  assert (slab_map ts = <[no := e]> (timers_of t)) as Hts
    by (unfold ts; rewrite slab_map_insert, Hno; done).
  destruct (insert_entry_spec t (Z.to_nat idx) b no e ts) as (o & Ho & Hs' & Hl'); try done.
  { apply linked_weaken; [done|]. intros e' ?. by rewrite Hfresh. }
  { cbn. f_equal. unfold valid_bucket in Hv. lia. }
  apply runs_bind. eapply runs_eq.
  { rewrite <- (Z2Nat.id idx) by (unfold valid_bucket in Hv; lia). by apply bucket_at_eq. }
  rewrite (surjective_pairing (slab_insert no (b_entries b))).
  apply runs_bind, runs_modify, runs_bind, runs_modify. apply runs_bind.
  eapply runs_eq; [exact Ho|]. apply runs_ret. split; [done|]. split; [done|]. split; [done|].
  split; [|by repeat split]. exists k. exact Hts.
Qed.

Lemma update_entry_spec t no e idx :
  shaped t -> linked t [] -> timers_of t !! no = Some e -> valid_bucket idx ->
  runs (update_entry no idx) t (fun _ t' =>
    shaped t' /\ linked t' [] /\
    (exists k, timers_of t' = <[no := mkTimerEntry (Some idx) k (te_task e)]> (timers_of t)) /\
    same_outer t t' /\ t_woken t' = t_woken t).
Proof.
  intros Hs Hl He Hv. unfold update_entry. apply runs_bind. eapply runs_eq; [by apply timer_at_eq|].
  case_bool_decide as Hsame.
  { apply runs_ret. split; [done|]. split; [done|]. split; [|by repeat split].
    exists (te_bucket_entry e). symmetry. apply insert_id. rewrite He. destruct e. cbn in *. by subst. }
  apply runs_bind. eapply (runs_conseq _ _ (fun _ t' => shaped t' /\ linked t' [no] /\
    timers_of t' = timers_of t /\ same_outer t t' /\ t_woken t' = t_woken t)).
  { destruct (unlink_spec t no e Hs Hl He) as ([] & t1 & Hr & Hp). exists tt, t1. split; [|done].
    unfold remove_timer_bucket, mbind, M_bind in Hr. rewrite (timer_at_eq t no e He) in Hr.
    destruct (te_bucket e); [|done]. by destruct (remove_bucket_entry _ _ t) as [[[] ?]|]. }
  intros [] t1 (Hs1 & Hl1 & Ht1 & Ho1 & Hw1). rewrite <- Ht1 in He.
  destruct (bucket_lookup t1 idx Hs1 Hv) as [b Hb].
  set (k := (slab_insert no (b_entries b)).1). set (e' := mkTimerEntry (Some idx) k (te_task e)).
  set (ts := slab_set no e' (tm_timers (t_inner t1))).
  assert (slab_map ts = <[no := e']> (timers_of t1)) as Hts by (by eapply slab_map_set).
  destruct (insert_entry_spec t1 (Z.to_nat idx) b no e' ts) as (o & Ho & Hs' & Hl'); try done.
  { cbn. f_equal. unfold valid_bucket in Hv. lia. }
  apply runs_bind. eapply runs_eq.
  { rewrite <- (Z2Nat.id idx) by (unfold valid_bucket in Hv; lia). by apply bucket_at_eq. }
  rewrite (surjective_pairing (slab_insert no (b_entries b))).
  apply runs_bind, runs_modify, runs_bind, runs_modify.
  eapply runs_eq; [exact Ho|]. split; [done|]. split; [done|].
  split; [|split; [exact Ho1|exact Hw1]]. exists k. rewrite <- Ht1. exact Hts.
Qed.

(** ** Firing *)

(** What firing the buckets [p] does to a timer. *)
Definition fire (p : Z -> bool) (e : TimerEntry) : TimerEntry :=
  match te_bucket e with Some idx => if p idx then (complete e).2 else e | None => e end.

(** The wakers that firing the buckets [p] wakes. *)
Definition fired_wakers (p : Z -> bool) (ts : gmap nat TimerEntry) (ws : list waker) : Prop :=
  forall w, w ∈ ws <-> exists no e idx, ts !! no = Some e /\ te_bucket e = Some idx /\ p idx = true /\
    te_task e = Some w.

Lemma complete_wakers e w : te_bucket e <> None -> w ∈ (complete e).1 <-> te_task e = Some w.
Proof.
  unfold complete. destruct (te_bucket e); [|done]. intros _. cbn. destruct (te_task e); cbn.
  - rewrite list_elem_of_singleton. split; congruence.
  - split; [by intros ?%not_elem_of_nil|done].
Qed.

Lemma complete_all_spec nos t :
  NoDup nos -> shaped t -> linked t nos ->
  (forall no, no ∈ nos -> exists e, timers_of t !! no = Some e /\ te_bucket e <> None) ->
  runs (complete_all nos) t (fun _ t' =>
    shaped t' /\ linked t' [] /\ same_outer t t' /\
    (forall no, timers_of t' !! no = (fun e => if decide (no ∈ nos) then (complete e).2 else e) <$> timers_of t !! no) /\
    exists ws, t_woken t' = t_woken t ++ ws /\
      forall w, w ∈ ws <-> exists no e, no ∈ nos /\ timers_of t !! no = Some e /\ te_task e = Some w).
Proof.
  revert t. induction nos as [|no nos IH]; intros t Hnd Hs Hl Hin.
  { apply runs_ret. split; [done|]. split; [done|]. split; [apply same_outer_refl|]. split.
    - intros no. destruct (timers_of t !! no); cbn; [|done]. by rewrite decide_False by apply not_elem_of_nil.
    - exists []. rewrite app_nil_r. split; [done|]. intros w. split; [by intros ?%not_elem_of_nil|].
      intros (no & e & Hno & _). by apply not_elem_of_nil in Hno. }
  apply NoDup_cons in Hnd as [Hno Hnd]. destruct (Hin no) as (e & He & Hbe); [left|].
  cbn. apply runs_bind.
  assert (te_bucket (complete e).2 = None) as Hnone by (unfold complete; by destruct (te_bucket e) eqn:?).
  eapply runs_eq.
  { unfold complete_timer. rewrite slab_get_map. unfold timers_of in He. rewrite He.
    by rewrite (surjective_pairing (complete e)). }
  set (ts := slab_set _ _ _). set (t1 := add_woken _ _).
  assert (slab_map ts = <[no := (complete e).2]> (timers_of t)) as Hts by (by eapply slab_map_set).
  assert (timers_of t1 = <[no := (complete e).2]> (timers_of t)) as Ht1 by exact Hts.
  assert (same_wheel (put_timers ts t) t1) as Hsame by done.
  destruct (IH t1) as ([] & t2 & Hr & Hs2 & Hl2 & Ho2 & Ht2 & ws & Hw2 & Hws); try done.
  { destruct Hs; by split. }
  { eapply linked_same; [exact Hsame|]. by apply (linked_disarm t nos no (complete e).2). }
  { intros no' Hno'. destruct (Hin no') as (e' & He' & Hb'); [by right|]. exists e'.
    rewrite Ht1, lookup_insert_ne by congruence. done. }
  eapply runs_eq; [exact Hr|]. split; [done|]. split; [done|]. split; [exact Ho2|]. split.
  - intros no'. rewrite Ht2, Ht1. destruct (decide (no' = no)) as [->|Hne].
    + rewrite lookup_insert_eq, He. cbn. rewrite decide_False by done. by rewrite decide_True by left.
    + rewrite lookup_insert_ne by done. destruct (timers_of t !! no'); cbn; [|done]. f_equal.
      destruct (decide (no' ∈ nos)); [by rewrite decide_True by (by right)|]. rewrite decide_False; [done|].
      by intros [?|?]%elem_of_cons.
  - exists ((complete e).1 ++ ws). rewrite Hw2. split; [unfold t1; cbn; by rewrite app_assoc|].
    pose proof (fun w => complete_wakers e w Hbe) as Hcw.
    intros w. rewrite elem_of_app, Hcw, Hws. split.
    + intros [Hw|(no' & e' & Hin' & He' & Hw)].
      * exists no, e. split; [left|done].
      * exists no', e'. split; [by right|]. rewrite Ht1, lookup_insert_ne in He' by congruence. done.
    + intros (no' & e' & [->|Hin']%elem_of_cons & He' & Hw); [left; congruence|right].
      exists no', e'. split; [done|]. rewrite Ht1, lookup_insert_ne by congruence. done.
Qed.

(** The values of a bucket, each once. *)
Lemma drain_nos t i b :
  linked t [] -> buckets_of t !! i = Some b ->
  NoDup (slab_drain (b_entries b)) /\
  forall no, no ∈ slab_drain (b_entries b) <-> exists k, entries_of b !! k = Some no.
Proof.
  intros Hl Hb. split.
  - rewrite slab_drain_map. apply NoDup_fmap_2_strong; [|apply NoDup_map_to_list].
    intros [k no] [k' no'] Hk%elem_of_map_to_list Hk'%elem_of_map_to_list. cbn. intros ->.
    destruct (lk_bwd _ _ Hl i b k no' Hb Hk) as (_ & e & He & _ & Hek).
    destruct (lk_bwd _ _ Hl i b k' no' Hb Hk') as (_ & e' & He' & _ & Hek'). congruence.
  - intros no. rewrite slab_drain_map, list_elem_of_fmap. split.
    + intros ([k no'] & -> & Hk%elem_of_map_to_list). by exists k.
    + intros [k Hk]. exists (k, no). split; [done|]. by apply elem_of_map_to_list.
Qed.
End inv.
