(* ===== verification/WheelRun.v ===== *)
(** * Running the timer wheel

    Firing expired buckets, the operations of the timer on the whole state,
    and the real-time guarantee: with a monotonic clock and a delay that is
    never early, no timer fires before its deadline. *)
From Stdlib Require Import ZArith Lia.
From stdpp Require Import base numbers gmap list.
From S2P Require Import Prelude Deps Task Wheel WheelArith WheelInv.

(** ** Which buckets expire at a clock value *)

Lemma expiry_at_clock clk i :
  valid_bucket i -> 0 <= clk ->
  bucket_expiry clk i = clk <->
  clk mod gran (lvl_of i) = 0 /\ i mod 64 = (clk / gran (lvl_of i)) mod 64.
Proof.
  intros Hv Hc. pose proof (lvl_of_range i Hv). pose proof (gran_pos (lvl_of i) ltac:(lia)) as Hg.
  set (g := gran (lvl_of i)) in *. split.
  - intros He. destruct (bucket_expiry_spec clk i Hv) as (n & Hn & Hm & _). fold g in Hn. rewrite He in Hn.
    split; [rewrite Hn; apply Z_mod_mult|]. rewrite <- Hm. f_equal. rewrite Hn. by rewrite Z.div_mul by lia.
  - intros [Hz Hm]. pose proof (Z.div_mod clk g ltac:(lia)) as Hd. rewrite Hz in Hd.
    rewrite (bucket_expiry_unique clk i (clk / g)); [fold g; lia|done|]. fold g.
    assert (ceil_div clk g = clk / g) as ->; [|lia]. apply ceil_div_unique; lia.
Qed.

Definition fires_at (clk lvl i : Z) : bool := (lvl <=? lvl_of i) && (bucket_expiry clk i =? clk).

Lemma fires_level clk lvl i :
  valid_bucket i -> 0 <= clk -> 0 <= lvl -> clk mod gran lvl = 0 ->
  fires_at clk lvl i =
  (i =? Z.land (clk / gran lvl) LVL_MASK + lvl * LVL_SIZE) || fires_at clk (lvl + 1) i.
Proof.
  intros Hv Hc Hl Hz. unfold fires_at. rewrite land_mask. change LVL_SIZE with 64.
  pose proof (Z.mod_pos_bound (clk / gran lvl) 64 ltac:(lia)).
  pose proof (Z.div_mod i 64 ltac:(lia)) as Hd. fold (lvl_of i) in Hd.
  pose proof (Z.mod_pos_bound i 64 ltac:(lia)).
  destruct (Z.lt_trichotomy (lvl_of i) lvl) as [Hlt|[Heq|Hgt]].
  - rewrite (proj2 (Z.leb_gt _ _)) by lia. rewrite (proj2 (Z.leb_gt _ _)) by lia. cbn.
    rewrite (proj2 (Z.eqb_neq _ _)) by lia. done.
  - rewrite (proj2 (Z.leb_le lvl _)) by lia. rewrite (proj2 (Z.leb_gt (lvl + 1) _)) by lia. cbn [andb].
    rewrite orb_false_r. apply eq_true_iff_eq. rewrite !Z.eqb_eq, expiry_at_clock, Heq by done. lia.
  - rewrite !(proj2 (Z.leb_le _ _)) by lia. rewrite (proj2 (Z.eqb_neq i _)) by lia. done.
Qed.

Lemma fires_none clk lvl i :
  valid_bucket i -> 0 <= clk -> 0 <= lvl -> clk mod gran lvl <> 0 \/ lvl = 8 -> fires_at clk lvl i = false.
Proof.
  intros Hv Hc Hl Hz. unfold fires_at. pose proof (lvl_of_range i Hv).
  destruct (Z.leb_spec lvl (lvl_of i)); [|done]. cbn [andb]. destruct Hz as [Hz|]; [|lia].
  apply Z.eqb_neq. intros He%expiry_at_clock; [|done..]. destruct He as [Hm _]. apply Hz.
  apply Z.mod_divide; [pose proof (gran_pos lvl Hl); lia|].
  apply Z.mod_divide in Hm; [|pose proof (gran_pos (lvl_of i)); lia].
  etrans; [|exact Hm]. exists (gran (lvl_of i - lvl)). unfold gran. rewrite <- Z.pow_add_r by lia. f_equal. lia.
Qed.

Section run.
Context {T : Type -> Type} `{!Slab T} `{!SlabLaws T} {F : Type} `{!Bitflags F} {D : Type} `{!Delay D}.
Implicit Types t : Timer T F D.

Lemma fire_ext p q (ts : gmap nat TimerEntry) :
  (forall no e idx, ts !! no = Some e -> te_bucket e = Some idx -> p idx = q idx) ->
  fire p <$> ts = fire q <$> ts.
Proof.
  intros Hpq. apply map_eq. intros no. rewrite !lookup_fmap. destruct (ts !! no) as [e|] eqn:He; [|done].
  cbn. f_equal. unfold fire. destruct (te_bucket e) as [idx|] eqn:Hb; [|done]. by rewrite (Hpq no e idx).
Qed.

Lemma fire_none p (ts : gmap nat TimerEntry) :
  (forall no e idx, ts !! no = Some e -> te_bucket e = Some idx -> p idx = false) -> fire p <$> ts = ts.
Proof.
  intros Hp. apply map_eq. intros no. rewrite lookup_fmap. destruct (ts !! no) as [e|] eqn:He; [|done].
  cbn. f_equal. unfold fire. destruct (te_bucket e) as [idx|] eqn:Hb; [|done]. by rewrite (Hp no e idx).
Qed.

Lemma fire_fire p q (e : TimerEntry) : fire q (fire p e) = fire (fun i => p i || q i) e.
Proof.
  unfold fire, complete. destruct (te_bucket e) as [idx|] eqn:Hb; [|by rewrite Hb].
  destruct (p idx); cbn; [done|]. by rewrite Hb.
Qed.

Lemma fire_bucket_some p (e : TimerEntry) idx :
  te_bucket (fire p e) = Some idx <-> te_bucket e = Some idx /\ p idx = false.
Proof.
  unfold fire, complete. destruct (te_bucket e) as [i|] eqn:Hb; [|rewrite Hb; split; [done|by intros [? _]]].
  destruct (p i) eqn:Hp; cbn.
  - split; [done|]. intros [[= ->] ?]. congruence.
  - rewrite Hb. split; [by intros [= ->]|by intros [? _]].
Qed.

Lemma fire_task p (e : TimerEntry) idx :
  te_bucket (fire p e) = Some idx -> te_task (fire p e) = te_task e.
Proof.
  unfold fire, complete. destruct (te_bucket e) as [i|] eqn:Hb; [|done]. by destruct (p i).
Qed.

(** One iteration of [execute_loop]. *)
Definition fire_bucket (idx : Z) : M (Timer T F D) () :=
  b ← bucket_at idx;
  if negb (slab_is_empty (b_entries b)) then
    update_occupied (b_lvl b) (fun o => Z.land o (b_bit_n b));;
    set_bucket idx (with_entries slab_default b);;
    complete_all (slab_drain (b_entries b))
  else mret tt.

(** The wheel after the buckets [p] fired. *)
Definition fired (p : Z -> bool) t t' : Prop :=
  shaped t' /\ linked t' [] /\ same_outer t t' /\ timers_of t' = fire p <$> timers_of t /\
  exists ws, t_woken t' = t_woken t ++ ws /\ fired_wakers p (timers_of t) ws.

Lemma bucket_nos t i b :
  shaped t -> linked t [] -> buckets_of t !! i = Some b ->
  forall no e, timers_of t !! no = Some e ->
    (exists k, entries_of b !! k = Some no) <-> te_bucket e = Some (Z.of_nat i).
Proof.
  intros Hs Hl Hb no e He. split.
  - intros [k Hk]. destruct (lk_bwd _ _ Hl i b k no Hb Hk) as (_ & e' & He' & Hbe & _). congruence.
  - intros Hbe. destruct (lk_fwd _ _ Hl no e _ He Hbe) as (_ & b' & Hb' & Hk); [apply not_elem_of_nil|].
    rewrite Nat2Z.id in Hb'. simplify_eq. eauto.
Qed.

Lemma drain_nonempty_spec t i b :
  shaped t -> linked t [] -> buckets_of t !! i = Some b ->
  runs (update_occupied (b_lvl b) (fun o => Z.land o (b_bit_n b));;
        set_bucket (Z.of_nat i) (with_entries slab_default b);;
        complete_all (slab_drain (b_entries b))) t (fun _ t' => fired (fun j => j =? Z.of_nat i) t t').
Proof.
  intros Hs Hl Hb. pose proof (bucket_nos t i b Hs Hl Hb) as Hnos.
  destruct (drain_nos t i b Hl Hb) as [Hnd Hin].
  destruct (occ_word t i b Hs Hb) as (o & Ho & Hor & Him & Hbit).
  destruct (sh_shape _ Hs i b Hb) as (Hlv & Hbb & Hbn).
  destruct (clear_bit_word o (Z.of_nat i mod 64) Hor Him) as [Hcr Hcb].
  set (o' := Z.land o (b_bit_n b)). set (t1 := put_bucket i slab_default o' t).
  assert (shaped t1) as Hs1.
  { apply (shaped_put t i b slab_default o); [done|done|done|unfold o'; by rewrite Hbn, Hbb|].
    intros j Hj. unfold o'. rewrite Hbn, Hbb, Hcb, slab_map_default by done. done. }
  assert (linked t1 (slab_drain (b_entries b))) as Hl1
    by (apply (linked_drain t i b); [done|done|apply slab_map_default|done]).
  apply runs_bind. eapply runs_eq.
  { rewrite Hlv. unfold update_occupied. unfold occupied_of in Ho. by rewrite Ho. }
  apply runs_bind. eapply runs_eq; [done|].
  match goal with |- runs _ ?x _ => assert (x = t1) as -> end.
  { unfold t1, put_bucket. rewrite Nat2Z.id. cbn. by rewrite (insert_is_alter (with_entries slab_default)). }
  eapply runs_conseq; [apply complete_all_spec; [done..|]|].
  { intros no [k Hk]%Hin. destruct (lk_bwd _ _ Hl i b k no Hb Hk) as (_ & e & He & Hbe & _).
    exists e. split; [done|]. congruence. }
  intros [] t2 (Hs2 & Hl2 & Ho2 & Ht2 & ws & Hw2 & Hws).
  split; [done|]. split; [done|]. split; [exact Ho2|]. split.
  - apply map_eq. intros no. rewrite Ht2, lookup_fmap. change (timers_of t1) with (timers_of t).
    destruct (timers_of t !! no) as [e|] eqn:He; [|done]. cbn. f_equal. specialize (Hnos no e He).
    unfold fire. destruct (te_bucket e) as [idx|] eqn:Hbe.
    + destruct (Z.eqb_spec idx (Z.of_nat i)) as [->|Hne].
      * rewrite decide_True; [done|]. by apply Hin, Hnos.
      * rewrite decide_False; [done|]. intros ?%Hin%Hnos. congruence.
    + rewrite decide_False; [done|]. intros ?%Hin%Hnos. done.
  - exists ws. split; [done|]. intros w. rewrite Hws. change (timers_of t1) with (timers_of t). split.
    + intros (no & e & Hno%Hin & He & Hw). exists no, e, (Z.of_nat i). split; [done|].
      split; [by apply (Hnos no e He)|]. split; [apply Z.eqb_refl|done].
    + intros (no & e & idx & He & Hbe & ->%Z.eqb_eq & Hw). exists no, e. split; [|done].
      by apply Hin, (Hnos no e He).
Qed.

Lemma fire_bucket_spec t idx :
  shaped t -> linked t [] -> valid_bucket idx ->
  runs (fire_bucket idx) t (fun _ t' => fired (fun j => j =? idx) t t').
Proof.
  intros Hs Hl Hv. destruct (bucket_lookup t idx Hs Hv) as [b Hb].
  assert (Z.of_nat (Z.to_nat idx) = idx) as Hid by (unfold valid_bucket in Hv; lia).
  unfold fire_bucket. apply runs_bind. eapply runs_eq; [rewrite <- Hid; by apply bucket_at_eq|].
  pose proof (bucket_nos t _ b Hs Hl Hb) as Hnos. rewrite Hid in Hnos.
  rewrite is_empty_entries. case_bool_decide as He; cbn [negb].
  - apply runs_ret. split; [done|]. split; [done|]. split; [apply same_outer_refl|].
    assert (forall no e i, timers_of t !! no = Some e -> te_bucket e = Some i -> (i =? idx) = false) as Hno.
    { intros no e i Hte Hbe. apply Z.eqb_neq. intros ->. apply (Hnos no e Hte) in Hbe as [k Hk].
      unfold entries_of in Hk. by rewrite He in Hk. }
    split; [symmetry; by apply fire_none|]. exists []. rewrite app_nil_r. split; [done|].
    intros w. split; [by intros ?%not_elem_of_nil|]. intros (no & e & i & Hte & Hbe & Hp & _).
    by rewrite (Hno no e i) in Hp.
  - pose proof (drain_nonempty_spec t _ b Hs Hl Hb) as Hd. by rewrite Hid in Hd.
Qed.

Lemma execute_step n lvl clk t :
  execute_loop (S n) lvl clk t =
  (fire_bucket (Z.land clk LVL_MASK + lvl * LVL_SIZE);;
   if negb (Z.land clk LVL_CLK_MASK =? 0) then mret tt
   else execute_loop n (lvl + 1) (Z.shiftr clk LVL_CLK_SHIFT)) t.
Proof.
  cbn [execute_loop]. unfold fire_bucket, mbind, M_bind. by destruct (bucket_at _ t) as [[b t1]|].
Qed.

Lemma fired_compose p q r t1 t2 t3 :
  fired p t1 t2 -> fired q t2 t3 ->
  (forall no e idx, timers_of t1 !! no = Some e -> te_bucket e = Some idx -> r idx = p idx || q idx) ->
  fired r t1 t3.
Proof.
  intros (Hs2 & Hl2 & Ho2 & Ht2 & ws2 & Hw2 & Hf2) (Hs3 & Hl3 & Ho3 & Ht3 & ws3 & Hw3 & Hf3) Hr.
  split; [done|]. split; [done|]. split; [by eapply same_outer_trans|]. split.
  - rewrite Ht3, Ht2, <- map_fmap_compose. rewrite (fire_ext r (fun i => p i || q i)) by done.
    apply map_fmap_ext. intros no e He. apply fire_fire.
  - exists (ws2 ++ ws3). split; [by rewrite Hw3, Hw2, app_assoc|]. intros w. rewrite elem_of_app, (Hf2 w), (Hf3 w).
    rewrite Ht2. split.
    + intros [(no & e & idx & He & Hb & Hp & Hw)|(no & e & idx & He & Hb & Hq & Hw)].
      * exists no, e, idx. rewrite (Hr no e idx), Hp by done. done.
      * rewrite lookup_fmap in He. destruct (timers_of t1 !! no) as [e0|] eqn:He0; [|done]. cbn in He. simplify_eq.
        rewrite (fire_task p e0 idx) in Hw by done. apply fire_bucket_some in Hb as [Hb Hp].
        exists no, e0, idx. rewrite (Hr no e0 idx), Hq, orb_true_r by done. done.
    + intros (no & e & idx & He & Hb & Hor & Hw). rewrite (Hr no e idx) in Hor by done.
      destruct (p idx) eqn:Hp; [left; by exists no, e, idx|right]. exists no, (fire p e), idx.
      rewrite lookup_fmap, He. assert (te_bucket (fire p e) = Some idx) as Hb' by (by apply fire_bucket_some).
      split; [done|]. split; [done|]. split; [done|]. by rewrite (fire_task p e idx).
Qed.

Lemma fired_nothing p t :
  shaped t -> linked t [] ->
  (forall no e idx, timers_of t !! no = Some e -> te_bucket e = Some idx -> p idx = false) -> fired p t t.
Proof.
  intros Hs Hl Hp. split; [done|]. split; [done|]. split; [apply same_outer_refl|].
  split; [symmetry; by apply fire_none|]. exists []. rewrite app_nil_r. split; [done|]. intros w.
  split; [by intros ?%not_elem_of_nil|]. intros (no & e & idx & He & Hb & Hpi & _). by rewrite (Hp no e idx) in Hpi.
Qed.

Lemma execute_loop_spec n lvl clk t :
  shaped t -> linked t [] -> 0 <= lvl -> lvl + Z.of_nat n = 8 -> 0 <= clk -> clk mod gran lvl = 0 ->
  runs (execute_loop n lvl (clk / gran lvl)) t (fun _ t' => fired (fires_at clk lvl) t t').
Proof.
  revert lvl t. induction n as [|n IH]; intros lvl t Hs Hl Hlv Hn Hc Hz.
  - apply runs_ret, fired_nothing; [done..|]. intros no e idx He Hb. apply fires_none; [|done..|lia].
    eapply (armed_valid t no); [done..|]. by exists e.
  - pose proof (gran_pos lvl Hlv) as Hg. set (idx := Z.land (clk / gran lvl) LVL_MASK + lvl * LVL_SIZE).
    assert (valid_bucket idx) as Hv.
    { unfold idx, valid_bucket. rewrite land_mask. change LVL_SIZE with 64.
      pose proof (Z.mod_pos_bound (clk / gran lvl) 64). lia. }
    destruct (fire_bucket_spec t idx Hs Hl Hv) as ([] & t1 & Hr1 & Hf1).
    pose proof Hf1 as (Hs1 & Hl1 & _).
    assert (forall no e i, timers_of t !! no = Some e -> te_bucket e = Some i ->
      fires_at clk lvl i = (i =? idx) || fires_at clk (lvl + 1) i) as Hlevel.
    { intros no e i He Hb. apply fires_level; try done. eapply (armed_valid t no); [done..|]. by exists e. }
    assert (runs (if negb (Z.land (clk / gran lvl) LVL_CLK_MASK =? 0) then mret tt
      else execute_loop n (lvl + 1) (Z.shiftr (clk / gran lvl) LVL_CLK_SHIFT)) t1
      (fun _ t' => fired (fires_at clk (lvl + 1)) t1 t')) as ([] & t2 & Hr2 & Hf2).
    { rewrite land_clk_mask. pose proof (Z.div_mod clk (gran lvl) ltac:(lia)) as Hd. rewrite Hz in Hd.
      destruct (Z.eqb_spec ((clk / gran lvl) mod 8) 0) as [H8|H8]; cbn [negb].
      - unfold LVL_CLK_SHIFT. rewrite Z.shiftr_div_pow2 by lia. change (2 ^ 3) with 8.
        rewrite Z.div_div, Z.mul_comm, <- gran_succ by lia. apply IH; try done; [lia..|].
        apply Z.mod_divide; [pose proof (gran_pos (lvl + 1)); lia|]. rewrite gran_succ by lia.
        apply Z.mod_divide in H8 as [q Hq]; [|lia]. exists q. lia.
      - apply runs_ret, fired_nothing; [done..|]. intros no e i He Hb. apply fires_none; [|lia..|].
        + eapply (armed_valid t1 no); [done..|]. by exists e.
        + left. rewrite gran_succ by lia. intros Hm. apply H8. apply Z.mod_divide in Hm as [q Hq]; [|lia].
          apply Z.mod_divide; [lia|]. exists q. nia. }
    exists tt, t2. rewrite execute_step. unfold mbind, M_bind. fold idx. rewrite Hr1, Hr2. split; [done|].
    by eapply fired_compose.
Qed.

Lemma fired_ext p q t t' :
  fired p t t' -> (forall no idx, armed t no idx -> p idx = q idx) -> fired q t t'.
Proof.
  intros Hf Hpq. eapply (fired_compose p (fun _ => false)); [exact Hf| |].
  { destruct Hf as (Hs & Hl & _). by apply fired_nothing. }
  intros no e idx He Hb. rewrite orb_false_r. symmetry. apply (Hpq no). by exists e.
Qed.

(** Executing the wheel at [clk] fires exactly the buckets that expire then. *)
Lemma execute_spec clk t :
  shaped t -> linked t [] -> 0 <= clk ->
  runs (execute_expired_timers clk) t (fun _ t' => fired (fun i => bucket_expiry clk i =? clk) t t').
Proof.
  intros Hs Hl Hc. pose proof (execute_loop_spec 8 0 clk t Hs Hl) as Hx. change (gran 0) with 1 in Hx.
  rewrite Z.div_1_r, Z.mod_1_r in Hx. eapply runs_conseq; [by apply Hx|]. intros [] t' Hf.
  eapply fired_ext; [exact Hf|]. intros no idx Ha. unfold fires_at.
  pose proof (lvl_of_range idx (armed_valid t no idx Hs Hl Ha)). by rewrite (proj2 (Z.leb_le 0 _)) by lia.
Qed.

(** ** The next bucket *)

Lemma occupied_armed t idx :
  shaped t -> linked t [] -> valid_bucket idx ->
  occ_bit (occupied_of t) idx = true <-> exists no, armed t no idx.
Proof.
  intros Hs Hl Hv. destruct (bucket_lookup t idx Hs Hv) as [b Hb]. unfold valid_bucket in Hv.
  pose proof (sh_occ _ Hs _ b Hb) as Ho. rewrite Z2Nat.id in Ho by lia. rewrite Ho, negb_true_iff, bool_decide_eq_false.
  split.
  - intros [k [no Hk]]%map_choose. destruct (lk_bwd _ _ Hl _ _ _ _ Hb Hk) as (_ & e & He & Hbe & _).
    exists no, e. rewrite Z2Nat.id in Hbe by lia. done.
  - intros (no & e & He & Hbe) Hemp.
    destruct (lk_fwd _ _ Hl no e idx He Hbe ltac:(apply not_elem_of_nil)) as (_ & b' & Hb' & Hk).
    rewrite Hb in Hb'. simplify_eq. by rewrite Hemp, lookup_empty in Hk.
Qed.

Lemma next_pending_spec t :
  shaped t -> linked t [] -> 0 <= t_elapsed t < 2 ^ 62 ->
  exists r, next_pending_bucket t = Done r /\
    match r with
    | Some e => (exists no idx, armed t no idx /\ e = bucket_expiry (t_elapsed t) idx) /\
        forall no idx, armed t no idx -> e <= bucket_expiry (t_elapsed t) idx
    | None => forall no idx, ~ armed t no idx
    end.
Proof.
  intros Hs Hl He.
  destruct (next_pending_loop_spec (occupied_of t) (t_elapsed t) 8 0 u64_max) as (r & Hr & Hmax & Hall & Hex);
    [lia|lia|lia| |].
  { intros l Hlr. destruct (lookup_lt_is_Some_2 (occupied_of t) (Z.to_nat l)) as [o Ho].
    - rewrite (sh_occupied _ Hs). lia.
    - exists o. split; [done|]. by eapply sh_occ_range. }
  change (gran 0) with 1 in Hr. rewrite ceil_div_1 in Hr.
  assert (forall no idx, armed t no idx -> r <= bucket_expiry (t_elapsed t) idx /\
    bucket_expiry (t_elapsed t) idx < u64_max) as Hle.
  { intros no idx Ha. pose proof (armed_valid t no idx Hs Hl Ha) as Hv. pose proof (lvl_of_range idx Hv).
    split; [apply Hall; [done|lia|]; apply occupied_armed; eauto|].
    pose proof (bucket_expiry_bounds (t_elapsed t) idx Hv). pose proof (gran_le (lvl_of idx)).
    change u64_max with (2 ^ 64 - 1). lia. }
  exists (if r <? u64_max then Some r else None). split.
  { unfold next_pending_bucket. fold (occupied_of t). change (Z.to_nat LVL_DEPTH) with 8%nat. by rewrite Hr. }
  destruct (Z.ltb_spec r u64_max).
  - split; [|intros; by eapply Hle]. destruct Hex as [->|(idx & Hv & _ & Ho & ->)]; [lia|].
    apply occupied_armed in Ho as [no Ha]; eauto.
  - intros no idx Ha. pose proof (Hle no idx Ha). lia.
Qed.
End run.
