(* ===== verification/WheelTime.v ===== *)
(** * Timers in real time

    The wheel against the clock.  Readings of [Instant::now] never go back
    and stay within 2^64 ns of the first one; the third-party delay is never
    early.  [TInv] relates the wheel to the deadlines that were asked for,
    every operation of the timer returns and keeps it, and it gives the
    real-time guarantee: no timer fires before its deadline. *)
From Stdlib Require Import ZArith Lia.
From stdpp Require Import base numbers gmap list.
From S2P Require Import Prelude Deps Task Wheel WheelArith WheelInv WheelRun.

(** One unit of the wheel's clock, in nanoseconds. *)
Definition UNIT_NS : Z := ns_of_millis 16.

(** How far ahead of the clock a bucket can expire. *)
Definition WHEEL_SPAN : Z := 64 * 8 ^ 7.

Record clock_ok (clock : nat -> Z) : Prop := {
  clock_mono i j : (i <= j)%nat -> clock i <= clock j;
  clock_bound i : clock i < clock 0%nat + 2 ^ 64;
}.

Section time.
Context {T : Type -> Type} `{!Slab T} `{!SlabLaws T} {F : Type} `{!Bitflags F} `{!BitflagsLaws F}.
Context {D : Type} `{!Delay D} `{!DelayLaws D}.
Context (clock system_clock : nat -> Z) (Hclock : clock_ok clock).
Implicit Types t : Timer T F D.
Implicit Types dls : gmap nat Z.

(** The time of the last tick, once one is fixed. *)
Definition tick_time t : Z := default (clock (t_clock_reads t)) (t_elapsed_time t).

(** The real time at which bucket [idx] is due. *)
Definition due t (idx : Z) : Z := tick_time t + (bucket_expiry (t_elapsed t) idx - t_elapsed t) * UNIT_NS.

(** The delay of the driver ends when the next expiry is due: not before its
    time after the last tick, and not later than its time from now. *)
Definition sleeping t : Prop :=
  tick_time t + (t_next_expiry t - t_elapsed t) * UNIT_NS <= delay_deadline (tm_driver_sleep (t_inner t))
    <= clock (t_clock_reads t) + (t_next_expiry t - t_elapsed t) * UNIT_NS.

(** [dls] are the deadlines of the timers. *)
Record TInv t dls : Prop := {
  ti_winv : WInv t;
  ti_next : t_next_expiry t = u64_max \/
    t_next_expiry t <= t_elapsed t + WHEEL_SPAN /\ t_elapsed_time t <> None;
  ti_past : t_elapsed t * UNIT_NS <= tick_time t - clock 0%nat;
  ti_tick : tick_time t <= clock (t_clock_reads t);
  ti_due no idx : armed t no idx -> exists d, dls !! no = Some d /\ d < due t idx;
  ti_sleep : has_flag DRIVER_RECALC t = true \/ t_next_expiry t = u64_max \/ sleeping t;
  ti_lowres n : t_lowres_time t = Some n -> n <= clock (t_clock_reads t);
}.

Lemma elapsed_bound t : t_elapsed t * UNIT_NS <= tick_time t - clock 0%nat ->
  tick_time t <= clock (t_clock_reads t) -> t_elapsed t < 2 ^ 62.
Proof.
  intros Hp Ht. pose proof (clock_bound _ Hclock (t_clock_reads t)).
  unfold UNIT_NS, ns_of_millis in *. lia.
Qed.

Lemma next_expiry_ms_eq t :
  t_elapsed t <= t_next_expiry t <= t_elapsed t + WHEEL_SPAN ->
  ns_of_millis (next_expiry_ms t) = (t_next_expiry t - t_elapsed t) * UNIT_NS.
Proof.
  intros Hr. unfold WHEEL_SPAN in Hr. unfold next_expiry_ms, to_millis, saturating_sub, UNITS.
  rewrite Z.max_r by lia. rewrite Z.shiftl_mul_pow2 by lia. rewrite as_u64_small.
  - unfold ns_of_millis, UNIT_NS, ns_of_millis. lia.
  - change u64_modulus with (2 ^ 64). lia.
Qed.

(** ** Steps that do not concern the wheel's clock *)

Definition same_time t t' : Prop :=
  same_wheel t t' /\ t_elapsed t' = t_elapsed t /\ t_elapsed_time t' = t_elapsed_time t /\
  t_next_expiry t' = t_next_expiry t /\
  delay_deadline (tm_driver_sleep (t_inner t')) = delay_deadline (tm_driver_sleep (t_inner t)) /\
  (t_clock_reads t <= t_clock_reads t')%nat /\
  (has_flag DRIVER_RECALC t = true -> has_flag DRIVER_RECALC t' = true) /\
  (forall n, t_lowres_time t' = Some n -> t_lowres_time t = Some n \/ n <= clock (t_clock_reads t')).

Lemma same_time_refl t : same_time t t.
Proof. repeat split; try done. by left. Qed.

Lemma same_time_trans t1 t2 t3 : same_time t1 t2 -> same_time t2 t3 -> same_time t1 t3.
Proof.
  intros (Hw & He & Het & Hn & Hd & Hc & Hf & Hlr) (Hw' & He' & Het' & Hn' & Hd' & Hc' & Hf' & Hlr').
  split; [by eapply same_wheel_trans|]. repeat split; try congruence; try lia; [naive_solver|].
  intros n [Hn2|]%Hlr'; [|by right]. apply Hlr in Hn2 as [|]; [by left|right].
  pose proof (clock_mono _ Hclock _ _ Hc'). lia.
Qed.

Lemma tick_time_mono t t' :
  t_elapsed_time t' = t_elapsed_time t -> (t_clock_reads t <= t_clock_reads t')%nat -> tick_time t <= tick_time t'.
Proof.
  intros He Hc. unfold tick_time. rewrite He. destruct (t_elapsed_time t); cbn; [lia|by apply clock_mono].
Qed.

Lemma tick_le_clock t t' :
  t_elapsed_time t' = t_elapsed_time t -> (t_clock_reads t <= t_clock_reads t')%nat ->
  tick_time t <= clock (t_clock_reads t) -> tick_time t' <= clock (t_clock_reads t').
Proof.
  intros He Hc. pose proof (clock_mono _ Hclock _ _ Hc). unfold tick_time. rewrite He.
  destruct (t_elapsed_time t); cbn; lia.
Qed.

Lemma WInv_same t t' :
  same_wheel t t' -> t_elapsed t' = t_elapsed t -> t_next_expiry t' = t_next_expiry t -> WInv t -> WInv t'.
Proof.
  intros Hw He Hn [Hs Hl [Hc Hk] Hz]. split.
  - by eapply shaped_same.
  - by eapply linked_same.
  - split; rewrite He, Hn; [done|]. intros no idx Ha. eapply Hk. by eapply armed_same.
  - destruct Hw as [-> _]. done.
Qed.

Lemma TInv_same t t' dls : same_time t t' -> TInv t dls -> TInv t' dls.
Proof.
  intros (Hw & He & Het & Hn & Hd & Hc & Hf & Hlr) [HI Hnx Hp Ht Hdue Hsl Hlow].
  pose proof (tick_time_mono t t' Het Hc) as Hm. pose proof (tick_le_clock t t' Het Hc Ht) as Hle.
  split.
  - by eapply WInv_same.
  - by rewrite Hn, He, Het.
  - rewrite He. lia.
  - done.
  - intros no idx Ha. destruct (Hdue no idx) as (d & Hdl & Hlt); [by eapply armed_same|].
    exists d. split; [done|]. unfold due in *. rewrite He. lia.
  - rewrite Hn. destruct Hsl as [Hr|[Hr|Hr]]; [left; by apply Hf|by right; left|].
    destruct Hnx as [Hmx|[_ Hsome]]; [by right; left|]. right; right. unfold sleeping in *.
    rewrite Hn, He, Hd. pose proof (clock_mono _ Hclock _ _ Hc). unfold tick_time in *. rewrite Het in *. destruct (t_elapsed_time t); [cbn in *; lia|done].
  - intros n [Hn'%Hlow|]%Hlr; [|done]. pose proof (clock_mono _ Hclock _ _ Hc). lia.
Qed.

(** What [Timer::now] returns. *)
Definition reading t : Z := default (clock (t_clock_reads t)) (t_lowres_time t).

Lemma same_time_flags t bit :
  0 <= bit -> same_time t (set_flags (fl_insert (t_flags t) (fl_of (2 ^ bit))) t).
Proof.
  intros Hb. repeat split; try done; [|by left]. unfold has_flag. cbn. change DRIVER_RECALC with (2 ^ 1).
  intros Hr. by rewrite contains_insert, Hr by lia.
Qed.

Lemma lowres_start_same t :
  runs (LowresTimerDriver_start clock) t (fun _ t' => same_time t t').
Proof.
  eexists tt, _. split; [reflexivity|].
  eapply (same_time_trans _ (set_flags (fl_insert (t_flags t) (fl_of (2 ^ 4))) t)); [by apply same_time_flags|].
  repeat split; cbn; try done; [lia|by left].
Qed.

Lemma lowres_wake_same t : runs lowres_driver_wake t (fun _ t' => same_time t t').
Proof. eexists tt, _. split; [reflexivity|]. repeat split; try done. by left. Qed.

(** The common end of [Timer::now] and [Timer::system_time]. *)
Lemma lowres_refresh_same t (b : bool) :
  runs (if b then lowres_driver_wake else LowresTimerDriver_start clock) t (fun _ t' => same_time t t').
Proof. destruct b; [apply lowres_wake_same|apply lowres_start_same]. Qed.

Lemma same_time_tick t : same_time t (tick_clock t).
Proof. repeat split; cbn; try done; [lia|by left]. Qed.

Lemma timer_now_spec t :
  runs (timer_now clock) t (fun now t' => now = reading t /\ same_time t t').
Proof.
  unfold timer_now. apply runs_bind, runs_get. unfold reading. destruct (t_lowres_time t) as [cur|] eqn:Hlow.
  { apply runs_ret. split; [done|apply same_time_refl]. }
  apply runs_bind. eapply runs_eq; [reflexivity|].
  destruct (has_flag RUNNING t); [|apply runs_ret; split; [done|apply same_time_tick]].
  apply runs_bind, runs_modify. apply runs_bind. eapply runs_conseq; [apply lowres_refresh_same|].
  intros [] t' Hs. apply runs_ret. split; [done|]. eapply same_time_trans; [|exact Hs].
  repeat split; cbn; try done; [lia|]. intros n [= <-]. right. apply clock_mono; [done|lia].
Qed.

Lemma timer_system_time_spec t :
  runs (timer_system_time clock system_clock) t (fun _ t' => same_time t t').
Proof.
  unfold timer_system_time. apply runs_bind, runs_get. destruct (t_lowres_stime t) as [cur|] eqn:Hlow.
  { apply runs_ret. apply same_time_refl. }
  apply runs_bind. eapply runs_eq; [reflexivity|].
  destruct (has_flag RUNNING t); [|apply runs_ret, same_time_tick].
  apply runs_bind, runs_modify. apply runs_bind. eapply runs_conseq; [apply lowres_refresh_same|].
  intros [] t' Hs. apply runs_ret. eapply same_time_trans; [|exact Hs].
  repeat split; cbn; try done; [lia|by left].
Qed.

(** Fixing the tick keeps the invariant. *)
Lemma elapsed_time_spec t dls :
  TInv t dls ->
  runs (elapsed_time clock) t (fun et t' =>
    TInv t' dls /\ t_elapsed_time t' = Some et /\ tick_time t <= et /\ same_wheel t t' /\
    t_elapsed t' = t_elapsed t /\ t_next_expiry t' = t_next_expiry t /\ t_flags t' = t_flags t).
Proof.
  intros HT. unfold elapsed_time. apply runs_bind, runs_get.
  destruct (t_elapsed_time t) as [et|] eqn:Het.
  { apply runs_ret. unfold tick_time. rewrite Het. split; [done|]. split; [done|]. split; [cbn; lia|by repeat split]. }
  apply runs_bind. eapply runs_eq; [reflexivity|]. apply runs_bind, runs_modify, runs_ret.
  set (now := clock (t_clock_reads t)). set (t' := set_elapsed_time (Some now) _).
  assert (tick_time t = now) as Hnow by (unfold tick_time; by rewrite Het).
  assert (tick_time t' = now) as Hnow' by done.
  split; [|split; [done|]; split; [by rewrite Hnow|by repeat split]].
  destruct HT as [HI Hnx Hp Ht Hdue Hsl Hlow].
  destruct Hnx as [Hnx|[_ []]]; [|done]. split; try done.
  - by apply (WInv_same t).
  - by left.
  - rewrite Hnow'. rewrite Hnow in Hp. done.
  - rewrite Hnow'. apply clock_mono; [done|]. cbn. lia.
  - intros no idx Ha. unfold due in *. rewrite Hnow'. rewrite Hnow in Hdue. by apply (Hdue no).
  - right. by left.
  - intros n Hn%Hlow. etrans; [exact Hn|]. apply clock_mono; [done|]. cbn. lia.
Qed.

(** ** Arming a timer *)

(** The driver after the wheel got a bucket that expires at [exp]. *)
Definition rearmed t t' : Prop :=
  same_wheel t t' /\ t_elapsed t' = t_elapsed t /\ t_elapsed_time t' = t_elapsed_time t /\
  (t_clock_reads t <= t_clock_reads t')%nat /\ t_lowres_time t' = t_lowres_time t /\
  (has_flag DRIVER_RECALC t' = true \/ t_next_expiry t' = u64_max \/ sleeping t').

Lemma rearm_driver_spec t flags exp :
  (has_flag DRIVER_RECALC t = true \/ t_next_expiry t = u64_max \/ sleeping t) ->
  t_elapsed t <= exp <= t_elapsed t + WHEEL_SPAN -> t_elapsed_time t <> None ->
  tick_time t <= clock (t_clock_reads t) ->
  runs (rearm_driver clock flags exp) t (fun _ t' =>
    rearmed t t' /\ t_next_expiry t' = Z.min (t_next_expiry t) exp).
Proof.
  intros Hsl Hexp Het Ht. unfold rearm_driver. apply runs_bind, runs_get.
  destruct (Z.ltb_spec exp (t_next_expiry t)) as [Hlt|Hge].
  2:{ apply runs_ret. split; [by repeat split|]. lia. }
  apply runs_bind, runs_modify. destruct (fl_contains flags _).
  - apply runs_bind, runs_modify, runs_modify. split; [|cbn; lia]. repeat split; try done. left.
    unfold has_flag. cbn. change DRIVER_RECALC with (2 ^ 1). rewrite contains_insert by lia. by rewrite orb_true_r.
  - eapply runs_eq; [reflexivity|]. split; [|cbn; lia]. repeat split; cbn; try done; [lia|]. right. right.
    set (t1 := add_spawned _ _). unfold sleeping. cbn [t_inner tm_driver_sleep]. cbn -[next_expiry_ms tick_time].
    rewrite delay_new_deadline, next_expiry_ms_eq by (cbn; lia). cbn -[tick_time].
    assert (tick_time t1 = tick_time t) as ->; [|pose proof (clock_mono _ Hclock (t_clock_reads t) (S (t_clock_reads t)) ltac:(lia)); lia].
    unfold tick_time. cbn. by destruct (t_elapsed_time t).
Qed.

Definition placed_in t t2 (no : nat) (idx : Z) : Prop :=
  shaped t2 /\ linked t2 [] /\ same_outer t t2 /\
  exists k task, timers_of t2 = <[no := mkTimerEntry (Some idx) k task]> (timers_of t).

Lemma placed_armed t t2 no idx no' idx' :
  placed_in t t2 no idx -> armed t2 no' idx' -> (no' = no /\ idx' = idx) \/ (no' <> no /\ armed t no' idx').
Proof.
  intros (_ & _ & _ & k & task & Hts) (e & He & Hb). rewrite Hts in He.
  apply lookup_insert_Some in He as [[<- <-]|[Hne He]]; [left; cbn in Hb; by simplify_eq|right].
  split; [done|]. by exists e.
Qed.

Lemma place_spec t t2 dls no idx flags d :
  TInv t dls -> t_elapsed_time t <> None -> placed_in t t2 no idx -> no <> 0%nat -> valid_bucket idx ->
  d < due t idx ->
  runs (rearm_driver clock flags (bucket_expiry (t_elapsed t) idx)) t2 (fun _ t' =>
    TInv t' (<[no := d]> dls) /\ armed t' no idx).
Proof.
  intros [HI Hnx Hp Ht Hdue Hsl Hlow] Het Hpl Hno Hv Hd.
  pose proof (placed_armed t t2 no idx) as Harm.
  pose proof Hpl as (Hs2 & Hl2 & (He & Hete & Hn & Hf & _ & Hlr & _ & _ & Hc & _ & Hds & _) & k & task & Hts).
  assert (tick_time t2 = tick_time t) as Htick by (unfold tick_time; by rewrite Hete, Hc).
  pose proof (wi_clocked _ HI) as [Hck Hckn].
  pose proof (bucket_expiry_bounds (t_elapsed t) idx Hv ltac:(lia)) as Hb.
  pose proof (gran_le (lvl_of idx) (lvl_of_range idx Hv)) as Hg.
  eapply runs_conseq.
  { apply (rearm_driver_spec t2).
    - unfold has_flag, sleeping. by rewrite Hf, Hn, Htick, He, Hds, Hc.
    - rewrite He. unfold WHEEL_SPAN. lia.
    - by rewrite Hete.
    - by rewrite Htick, Hc. }
  intros [] t' [(Hw & He' & Het' & Hc' & Hlr' & Hsl') Hn'].
  assert (tick_time t' = tick_time t) as Htick'.
  { unfold tick_time. rewrite Het', Hete. by destruct (t_elapsed_time t). }
  assert (clock (t_clock_reads t) <= clock (t_clock_reads t')) as Hmono by (apply clock_mono; [done|lia]).
  split; [split|].
  - split; [by eapply shaped_same|by eapply linked_same| |].
    + split; [lia|]. intros no' idx' Ha. apply (armed_same t2) in Ha; [|done]. rewrite Hn', He', He, Hn.
      destruct (Harm no' idx' Hpl Ha) as [[-> ->]|[_ Ha']]; [lia|]. specialize (Hckn no' idx' Ha'). lia.
    + destruct (wi_zero _ HI) as (e0 & He0 & Hb0). exists e0. destruct Hw as [-> _].
      by rewrite Hts, lookup_insert_ne.
  - rewrite Hn', Hn, He', He, Het', Hete. right. split; [|done]. unfold WHEEL_SPAN. lia.
  - rewrite Htick', He', He. done.
  - rewrite Htick'. lia.
  - intros no' idx' Ha. apply (armed_same t2) in Ha; [|done]. unfold due in *. rewrite Htick', He', He.
    destruct (Harm no' idx' Hpl Ha) as [[-> ->]|[Hne Ha']].
    + exists d. by rewrite lookup_insert_eq.
    + rewrite lookup_insert_ne by done. by apply (Hdue no').
  - done.
  - intros n. rewrite Hlr', Hlr. intros Hn0%Hlow. lia.
  - eexists. destruct Hw as [-> _]. rewrite Hts, lookup_insert_eq. done.
Qed.

(** ** The units to a deadline *)

Lemma timer_delta_spec now et millis :
  0 <= millis < 2 ^ 32 -> now < et + 2 ^ 64 ->
  exists delta, timer_delta now et millis = Done delta /\ 0 <= delta < 2 ^ 45 /\
    now + ns_of_millis millis < et + (delta + 1) * UNIT_NS.
Proof.
  intros Hm Hn. unfold timer_delta, as_millis, to_units, UNITS, UNIT_NS, ns_of_millis.
  destruct (Z.leb_spec et now) as [Hle|Hlt].
  - pose proof (Z.div_mod (now - et) 1000000 ltac:(lia)). pose proof (Z.mod_pos_bound (now - et) 1000000 ltac:(lia)).
    set (q := (now - et) / 1000000) in *. unfold checked_add.
    rewrite (proj2 (Z.ltb_lt _ _)) by (change u64_modulus with (2 ^ 64); lia). cbn.
    eexists. split; [done|]. rewrite Z.shiftr_div_pow2 by lia. change (2 ^ 4) with 16.
    pose proof (Z.div_mod (q + millis) 16 ltac:(lia)). pose proof (Z.mod_pos_bound (q + millis) 16 ltac:(lia)). lia.
  - eexists. split; [done|]. rewrite Z.shiftr_div_pow2 by lia. change (2 ^ 4) with 16.
    pose proof (Z.div_mod millis 16 ltac:(lia)). pose proof (Z.mod_pos_bound millis 16 ltac:(lia)). lia.
Qed.

(** The deadline of a timer set to [millis] now: the low-resolution time plus
    [millis], or the capacity of the wheel if that is earlier. *)
Definition deadline t (millis : Z) : Z :=
  Z.min (reading t + ns_of_millis millis) (tick_time t + WHEEL_TIMEOUT_MAX * UNIT_NS).

Lemma deadline_due t0 t1 et delta idx lvl millis :
  reading t0 + ns_of_millis millis < et + (delta + 1) * UNIT_NS -> tick_time t0 <= et ->
  t_elapsed_time t1 = Some et ->
  placed (t_elapsed t1) (in_wheel delta) lvl idx (bucket_expiry (t_elapsed t1) idx) ->
  deadline t0 millis < due t1 idx.
Proof.
  intros Hr Ht Het (_ & _ & _ & Hlo & _). unfold deadline, due. assert (tick_time t1 = et) as ->.
  { unfold tick_time. by rewrite Het. }
  unfold in_wheel in Hlo. unfold UNIT_NS, ns_of_millis in *.
  destruct (Z.ltb_spec delta WHEEL_TIMEOUT_CUTOFF); lia.
Qed.

Lemma reading_bound t dls et :
  TInv t dls -> clock 0%nat <= et -> reading t < et + 2 ^ 64.
Proof.
  intros HT Hle. pose proof (clock_bound _ Hclock (t_clock_reads t)). unfold reading.
  destruct (t_lowres_time t) as [n|] eqn:Hn; cbn; [|lia]. pose proof (ti_lowres _ _ HT n Hn). lia.
Qed.

Lemma TInv_elapsed t dls : TInv t dls -> 0 <= t_elapsed t < 2 ^ 62.
Proof.
  intros [HI _ Hp Ht _ _ _]. split; [apply (wi_clocked _ HI)|by apply elapsed_bound].
Qed.

(** Both ways of arming a timer: the bucket chosen for [millis]. *)
Lemma choose_bucket t0 t1 dls et millis delta' :
  TInv t0 dls -> TInv t1 dls -> t_elapsed_time t1 = Some et -> tick_time t0 <= et ->
  0 <= millis < 2 ^ 32 -> 0 <= delta' < 2 ^ 45 ->
  (exists delta, timer_delta (reading t0) et millis = Done delta /\ delta <= delta') ->
  exists idx, calc_wheel_index (t_elapsed t1) (wrapping_add64 (t_elapsed t1) delta') delta'
      = Done (idx, bucket_expiry (t_elapsed t1) idx) /\
    valid_bucket idx /\ deadline t0 millis < due t1 idx.
Proof.
  intros HT0 HT1 Het Htick Hm Hd' (delta & Hdl & Hle).
  pose proof (TInv_elapsed _ _ HT1) as He. pose proof (TInv_elapsed _ _ HT0) as He0.
  assert (clock 0%nat <= et) as Hc0.
  { pose proof (ti_past _ _ HT0). unfold UNIT_NS, ns_of_millis in *. lia. }
  destruct (timer_delta_spec (reading t0) et millis Hm) as (delta1 & Hd1 & Hr1 & Hlt); [by eapply reading_bound|].
  rewrite Hdl in Hd1. injection Hd1 as <-.
  destruct (calc_wheel_index_placed (t_elapsed t1) delta') as (idx & exp & lvl & Hc & Hpl & _);
    [lia|lia|change u64_modulus with (2 ^ 64); lia|].
  pose proof Hpl as (Hv & _ & -> & _). exists idx. split; [done|]. split; [done|].
  eapply (deadline_due t0 t1 et delta'); [|done..]. unfold UNIT_NS, ns_of_millis in *. nia.
Qed.

Lemma add_timer_spec t dls millis :
  TInv t dls -> 0 < millis < 2 ^ 32 ->
  runs (add_timer clock millis) t (fun no t' =>
    timers_of t !! no = None /\ TInv t' (<[no := deadline t millis]> dls) /\ exists idx, armed t' no idx).
Proof.
  intros HT Hm. unfold add_timer. rewrite (proj2 (Z.eqb_neq _ _)) by lia.
  apply runs_bind. apply runs_modify.
  set (t1 := set_flags _ t). assert (same_time t t1) as Hst1 by (by apply (same_time_flags t 5)).
  apply runs_bind, runs_gets. apply runs_bind. eapply runs_conseq; [apply timer_now_spec|].
  intros now t2 [-> Hst2]. change (reading t1) with (reading t).
  assert (same_time t t2) as Hst by (by eapply same_time_trans).
  pose proof (TInv_same _ _ _ Hst HT) as HT2.
  apply runs_bind. eapply runs_conseq; [by apply elapsed_time_spec|].
  intros et t3 (HT3 & Het & Htick & Hw & He & Hn & _).
  assert (tick_time t <= et) as Htick0.
  { destruct Hst as (_ & _ & He2 & _ & _ & Hc & _). pose proof (tick_time_mono t t2 He2 Hc). lia. }
  assert (clock 0%nat <= et) as Hc0.
  { pose proof (ti_past _ _ HT). pose proof (TInv_elapsed _ _ HT). unfold UNIT_NS, ns_of_millis in *. lia. }
  destruct (timer_delta_spec (reading t) et millis) as (delta & Hdl & Hdr & _); [lia|by eapply reading_bound|].
  apply runs_bind. eapply runs_lift; [done|]. apply runs_bind, runs_get.
  destruct (choose_bucket t t3 dls et millis delta) as (idx & Hci & Hv & Hdue); [done..|lia|lia|by exists delta|].
  apply runs_bind. eapply runs_lift; [done|].
  apply runs_bind. eapply runs_conseq; [apply add_entry_spec; [apply HT3|apply HT3|done]|].
  intros no t4 (Hs4 & Hl4 & Hvac & (k & Hts) & Ho & _).
  assert (timers_of t3 = timers_of t) as Htm.
  { destruct Hw as [-> _]. by destruct Hst as [[-> _] _]. }
  apply runs_bind. eapply runs_conseq.
  { apply (place_spec t3 t4 dls no idx); try done; [by rewrite Het| |].
    - split; [done|]. split; [done|]. split; [done|]. by exists k, None.
    - intros ->. destruct (wi_zero _ (ti_winv _ _ HT3)) as (e & He0 & _). congruence. }
  intros [] t5 [HT5 Ha]. apply runs_ret. split; [by rewrite <- Htm|eauto].
Qed.

Lemma update_timer_spec t dls no e millis :
  TInv t dls -> timers_of t !! no = Some e -> no <> 0%nat -> 0 < millis < 2 ^ 32 ->
  runs (update_timer clock no millis) t (fun _ t' =>
    TInv t' (<[no := deadline t millis]> dls) /\ exists idx, armed t' no idx).
Proof.
  intros HT Hno Hz Hm. unfold update_timer. rewrite (proj2 (Z.eqb_neq _ _)) by lia.
  apply runs_bind. eapply runs_conseq; [apply timer_now_spec|].
  intros now t2 [-> Hst]. pose proof (TInv_same _ _ _ Hst HT) as HT2.
  apply runs_bind. eapply runs_conseq; [by apply elapsed_time_spec|].
  intros et t3 (HT3 & Het & Htick & Hw & He & Hn & _).
  assert (tick_time t <= et) as Htick0.
  { destruct Hst as (_ & _ & He2 & _ & _ & Hc & _). pose proof (tick_time_mono t t2 He2 Hc). lia. }
  assert (clock 0%nat <= et) as Hc0.
  { pose proof (ti_past _ _ HT). pose proof (TInv_elapsed _ _ HT). unfold UNIT_NS, ns_of_millis in *. lia. }
  destruct (timer_delta_spec (reading t) et millis) as (delta & Hdl & Hdr & _); [lia|by eapply reading_bound|].
  apply runs_bind. eapply runs_lift; [done|]. apply runs_bind, runs_get.
  destruct (choose_bucket t t3 dls et millis (Z.max delta 1)) as (idx & Hci & Hv & Hdue);
    [done..|lia|lia|exists delta; split; [done|lia]|].
  apply runs_bind. eapply runs_lift; [done|].
  assert (timers_of t3 !! no = Some e) as Hno3.
  { destruct Hw as [-> _]. by destruct Hst as [[-> _] _]. }
  apply runs_bind. eapply runs_conseq; [apply (update_entry_spec t3 no e idx); [apply HT3|apply HT3|done..]|].
  intros [] t4 (Hs4 & Hl4 & (k & Hts) & Ho & _).
  apply runs_bind, runs_gets. eapply runs_conseq; [apply (place_spec t3 t4 dls no idx); try done; [by rewrite Het|]|].
  2:{ intros [] t5 [HT5 Ha]. eauto. }
  split; [done|]. split; [done|]. split; [done|]. by exists k, (te_task e).
Qed.

(** ** Steps that only disarm timers *)

Lemma TInv_shrink t t' dls :
  TInv t dls -> shaped t' -> linked t' [] -> same_outer t t' ->
  (forall no idx, armed t' no idx -> armed t no idx) ->
  (exists e, timers_of t' !! 0%nat = Some e /\ te_bucket e = None) -> TInv t' dls.
Proof.
  intros [HI Hnx Hp Ht Hdue Hsl Hlow] Hs Hl (He & Het & Hn & Hf & _ & Hlr & _ & _ & Hc & _ & Hds & _) Ha Hz.
  assert (tick_time t' = tick_time t) as Htick by (unfold tick_time; by rewrite Het, Hc).
  split.
  - split; [done|done| |done]. destruct (wi_clocked _ HI) as [Hck Hckn]. split; rewrite He, Hn; [done|].
    intros no idx Har. apply (Hckn no), Ha, Har.
  - by rewrite Hn, He, Het.
  - by rewrite He, Htick.
  - by rewrite Htick, Hc.
  - intros no idx Har. unfold due. rewrite Htick, He. apply (Hdue no), Ha, Har.
  - unfold has_flag, sleeping. by rewrite Hf, Hn, Htick, He, Hds, Hc.
  - intros n. rewrite Hlr, Hc. apply Hlow.
Qed.

Lemma zero_insert t (ts : gmap nat TimerEntry) no e :
  WInv t -> no <> 0%nat -> ts = <[no := e]> (timers_of t) ->
  exists e, ts !! 0%nat = Some e /\ te_bucket e = None.
Proof.
  intros HI Hno ->. destruct (wi_zero _ HI) as (e0 & He0 & Hb0). exists e0. by rewrite lookup_insert_ne.
Qed.

Lemma armed_insert t t' no e no' idx' :
  timers_of t' = <[no := e]> (timers_of t) -> te_bucket e = None \/ armed t no idx' ->
  armed t' no' idx' -> armed t no' idx'.
Proof.
  intros Hts He (e' & He' & Hb'). rewrite Hts in He'.
  apply lookup_insert_Some in He' as [[<- <-]|[_ He']]; [|by exists e']. destruct He; [congruence|done].
Qed.

Lemma disarm_timer_spec t dls no e :
  TInv t dls -> timers_of t !! no = Some e -> no <> 0%nat ->
  runs (update_timer clock no 0) t (fun _ t' => TInv t' dls /\
    timers_of t' = <[no := disarmed e (te_task e)]> (timers_of t) /\ t_woken t' = t_woken t).
Proof.
  intros HT Hno Hz. eapply runs_conseq; [apply (disarm_spec t no e); [apply HT|apply HT|done]|].
  intros [] t' (Hs & Hl & Hts & Ho & Hw). split; [|done]. apply (TInv_shrink t); try done.
  - intros no' idx'. eapply armed_insert; [done|by left].
  - eapply zero_insert; [apply HT|done|done].
Qed.

Lemma complete_disarms e : te_bucket (complete e).2 = None.
Proof. unfold complete. by destruct (te_bucket e) eqn:He. Qed.

Lemma remove_timer_inv t dls no e :
  TInv t dls -> timers_of t !! no = Some e -> no <> 0%nat ->
  runs (remove_timer no) t (fun _ t' => TInv t' dls /\
    timers_of t' = <[no := (complete e).2]> (timers_of t) /\ t_woken t' = t_woken t ++ (complete e).1).
Proof.
  intros HT Hno Hz. eapply runs_conseq; [apply (remove_timer_spec t no e); [apply HT|apply HT|done]|].
  intros [] t' (Hs & Hl & Hts & Ho & Hw). split; [|done]. apply (TInv_shrink t); try done.
  - intros no' idx'. eapply armed_insert; [done|left; apply complete_disarms].
  - eapply zero_insert; [apply HT|done|done].
Qed.

Lemma handle_drop_inv t dls no e :
  TInv t dls -> timers_of t !! no = Some e -> no <> 0%nat ->
  runs (handle_drop no) t (fun _ t' => TInv t' dls /\ timers_of t' = delete no (timers_of t) /\
    t_woken t' = t_woken t).
Proof.
  intros HT Hno Hz. eapply runs_conseq; [apply (handle_drop_spec t no e); [apply HT|apply HT|done]|].
  intros [] t' (Hs & Hl & Hts & Ho & Hw). split; [|done]. apply (TInv_shrink t); try done.
  - intros no' idx' (e' & He' & Hb'). rewrite Hts in He'. apply lookup_delete_Some in He' as [_ He']. by exists e'.
  - destruct (wi_zero _ (ti_winv _ _ HT)) as (e0 & He0 & Hb0). exists e0. by rewrite Hts, lookup_delete_ne.
Qed.

Lemma shaped_put_timers ts t : shaped t -> shaped (put_timers ts t).
Proof. intros [? ? ? ? ?]. by split. Qed.

(** [add_timer(0)]: a timer that has elapsed already. *)
Lemma add_elapsed_spec t dls :
  TInv t dls ->
  runs (add_timer clock 0) t (fun no t' => timers_of t !! no = None /\ TInv t' dls /\
    timers_of t' = <[no := mkTimerEntry None 0 lw_new]> (timers_of t)).
Proof.
  intros HT. unfold add_timer. cbn [Z.eqb]. apply runs_bind, runs_get.
  set (e := mkTimerEntry None 0 lw_new). destruct (slab_insert e (tm_timers (t_inner t))) as [no ts] eqn:Hins.
  assert (timers_of t !! no = None) as Hvac.
  { pose proof (slab_insert_vacant e (tm_timers (t_inner t))) as Hv. by rewrite Hins in Hv. }
  assert (slab_map ts = <[no := e]> (timers_of t)) as Hts.
  { pose proof (slab_map_insert e (tm_timers (t_inner t))) as Hv. by rewrite Hins in Hv. }
  apply runs_bind, runs_put, runs_ret. fold (put_timers ts t).
  assert (timers_of (put_timers ts t) = <[no := e]> (timers_of t)) as Hts' by done.
  split; [done|]. split; [|done]. apply (TInv_shrink t); try done.
  - apply shaped_put_timers, HT.
  - apply (linked_disarm t [] no e); [|done..]. apply linked_weaken; [apply HT|]. intros e' idx He'. congruence.
  - intros no' idx'. eapply armed_insert; [done|by left].
  - eapply zero_insert; [apply HT| |done]. intros ->. destruct (wi_zero _ (ti_winv _ _ HT)) as (e0 & He0 & _). congruence.
Qed.

(** Registering a waker changes nothing else. *)
Lemma linked_retask t no e task ts :
  linked t [] -> timers_of t !! no = Some e ->
  slab_map ts = <[no := mkTimerEntry (te_bucket e) (te_bucket_entry e) task]> (timers_of t) ->
  linked (put_timers ts t) [].
Proof.
  intros Hl Hno Hts. split.
  - intros no' e' idx He' Hb' Hx. unfold timers_of, put_timers in He'. cbn in He'. rewrite Hts in He'.
    apply lookup_insert_Some in He' as [[<- <-]|[_ He']]; [by apply (lk_fwd _ _ Hl no e)|by apply (lk_fwd _ _ Hl no')].
  - intros i b k no' Hb Hk. destruct (lk_bwd _ _ Hl i b k no' Hb Hk) as (Hx & e' & He' & Hbe & Hke).
    split; [done|]. unfold timers_of, put_timers. cbn. rewrite Hts. destruct (decide (no' = no)) as [->|Hne].
    + eexists. rewrite lookup_insert_eq. split; [done|]. cbn. split; congruence.
    + exists e'. by rewrite lookup_insert_ne.
Qed.

Lemma poll_elapsed_spec t dls no e w :
  TInv t dls -> timers_of t !! no = Some e -> no <> 0%nat ->
  runs (handle_poll_elapsed no w) t (fun b t' => TInv t' dls /\
    b = bool_decide (te_bucket e = None) /\ t_woken t' = t_woken t /\
    timers_of t' = if b then timers_of t
      else <[no := mkTimerEntry (te_bucket e) (te_bucket_entry e) (Some w)]> (timers_of t)).
Proof.
  intros HT Hno Hz. unfold handle_poll_elapsed. apply runs_bind. eapply runs_eq; [by apply timer_at_eq|].
  destruct (te_bucket e) as [idx|] eqn:Hb; [|by apply runs_ret].
  apply runs_bind. eapply runs_eq; [apply set_timer_eq|]. apply runs_ret.
  set (e' := mkTimerEntry _ _ _). set (ts := slab_set _ _ _).
  assert (slab_map ts = <[no := e']> (timers_of t)) as Hts by (by eapply slab_map_set).
  assert (timers_of (put_timers ts t) = <[no := e']> (timers_of t)) as Hts' by done.
  split; [|done]. apply (TInv_shrink t); try done.
  - apply shaped_put_timers, HT.
  - apply (linked_retask t no e (Some w)); [apply HT|done|by rewrite Hb].
  - intros no' idx' Ha. destruct Ha as (e'' & He'' & Hb''). rewrite Hts' in He''.
    apply lookup_insert_Some in He'' as [[<- <-]|[_ He'']]; [exists e; by cbn in Hb''; rewrite Hb|by exists e''].
  - eapply zero_insert; [apply HT|done|done].
Qed.

(** ** Stopping the wheel *)

Lemma unlink_all_spec nos t :
  (forall no, no ∈ nos -> is_Some (timers_of t !! no)) ->
  runs (unlink_all nos) t (fun _ t' =>
    (exists ts, t' = put_timers ts t) /\
    forall no, timers_of t' !! no = (fun e => if decide (no ∈ nos) then disarmed e (te_task e) else e) <$> timers_of t !! no).
Proof.
  revert t. induction nos as [|no nos IH]; intros t Hin; cbn [unlink_all].
  { apply runs_ret. split; [exists (tm_timers (t_inner t)); by destruct t as [? ? ? ? ? ? ? ? []]|].
    intros no. by destruct (timers_of t !! no). }
  destruct (Hin no) as [e He]; [by left|]. apply runs_bind. eapply runs_eq; [by apply timer_at_eq|].
  apply runs_bind. eapply runs_eq; [apply set_timer_eq|]. fold (disarmed e (te_task e)).
  set (ts := slab_set _ _ _). set (t1 := put_timers ts t).
  assert (timers_of t1 = <[no := disarmed e (te_task e)]> (timers_of t)) as Hts by (by eapply slab_map_set).
  eapply runs_conseq; [apply IH|].
  { intros no' Hin'. rewrite Hts. destruct (decide (no' = no)) as [->|]; [rewrite lookup_insert_eq; eauto|].
    rewrite lookup_insert_ne by done. apply Hin. by right. }
  intros [] t' [[ts' ->] Hall]. split; [by exists ts'|]. intros no'. rewrite Hall, Hts.
  destruct (decide (no' = no)) as [->|Hne].
  - rewrite lookup_insert_eq, He. cbn. f_equal. rewrite (decide_True (P := no ∈ no :: nos)) by (by left).
    by destruct (decide (no ∈ nos)).
  - rewrite lookup_insert_ne by done. destruct (timers_of t !! no'); [|done]. cbn. f_equal.
    destruct (decide (no' ∈ nos)); [rewrite decide_True by (by right); done|].
    rewrite decide_False; [done|]. by intros [|]%elem_of_cons.
Qed.

Lemma drained_shaped t t' :
  shaped t -> buckets_of t' = drain_bucket <$> buckets_of t ->
  occupied_of t' = replicate (Z.to_nat WHEEL_SIZE) 0 -> shaped t'.
Proof.
  intros Hs Hb Ho. split.
  - by rewrite Hb, length_fmap, (sh_buckets _ Hs).
  - intros i b. rewrite Hb, list_lookup_fmap. destruct (buckets_of t !! i) as [b0|] eqn:Hb0; [|done].
    cbn. intros [= <-]. exact (sh_shape _ Hs i b0 Hb0).
  - by rewrite Ho.
  - intros l o. rewrite Ho. intros [-> _]%lookup_replicate. done.
  - intros i b. rewrite Hb, list_lookup_fmap. destruct (buckets_of t !! i) as [b0|] eqn:Hb0; [|done].
    cbn. intros [= <-]. unfold entries_of, drain_bucket. cbn. rewrite slab_map_default.
    rewrite bool_decide_eq_true_2 by done. unfold occ_bit. rewrite Ho.
    destruct (replicate _ _ !! _) as [o|] eqn:Hlo; [|done]. apply lookup_replicate in Hlo as [-> _].
    apply Z.bits_0.
Qed.

Lemma bucket_timers t no :
  linked t [] -> (no ∈ concat ((fun b => slab_drain (b_entries b)) <$> buckets_of t)) <->
    exists i b k, buckets_of t !! i = Some b /\ entries_of b !! k = Some no.
Proof.
  intros Hl. rewrite list_elem_of_In, in_concat. split.
  - intros (l & Hin & Hno). apply list_elem_of_In in Hin, Hno. apply list_elem_of_fmap in Hin as (b & -> & Hb).
    apply list_elem_of_lookup in Hb as [i Hi]. destruct (drain_nos t i b Hl Hi) as [_ Hd].
    apply Hd in Hno as [k Hk]. eauto.
  - intros (i & b & k & Hb & Hk). exists (slab_drain (b_entries b)). split; apply list_elem_of_In.
    + apply list_elem_of_fmap. exists b. split; [done|]. by eapply list_elem_of_lookup_2.
    + destruct (drain_nos t i b Hl Hb) as [_ Hd]. apply Hd. eauto.
Qed.

Lemma stop_wheel_spec t dls :
  TInv t dls ->
  runs stop_wheel t (fun _ t' => TInv t' dls /\ (forall no idx, ~ armed t' no idx) /\
    dom (timers_of t') = dom (timers_of t) /\ t_woken t' = t_woken t).
Proof.
  intros HT. pose proof (ti_winv _ _ HT) as [Hs Hl _ Hz]. unfold stop_wheel. apply runs_bind, runs_get.
  fold (buckets_of t). set (nos := concat _).
  assert (forall no, no ∈ nos -> exists e idx, timers_of t !! no = Some e /\ te_bucket e = Some idx) as Hnos.
  { intros no (i & b & k & Hb & Hk)%bucket_timers; [|done].
    destruct (lk_bwd _ _ Hl _ _ _ _ Hb Hk) as (_ & e & He & Hbe & _). eauto. }
  apply runs_bind. eapply runs_conseq; [apply unlink_all_spec|].
  { intros no (e & _ & He & _)%Hnos. eauto. }
  intros [] t1 [[ts ->] Hts]. apply runs_modify. set (t' := mkTimer _ _ _ _ _ _ _ _ _ _ _ _).
  assert (timers_of t' = timers_of (put_timers ts t)) as Htm by done.
  assert (forall no idx, ~ armed t' no idx) as Hna.
  { intros no idx (e & He & Hb). rewrite Htm, Hts in He. destruct (timers_of t !! no) as [e0|] eqn:He0; [|done].
    cbn in He. injection He as <-. destruct (decide (no ∈ nos)) as [|Hni]; [done|]. apply Hni.
    destruct (lk_fwd _ _ Hl no e0 idx He0 Hb ltac:(apply not_elem_of_nil)) as (_ & b & Hbk & Hk).
    apply bucket_timers; eauto. }
  split.
  - split; try done; [split| |..].
    + by eapply (drained_shaped t).
    + split; [intros no e idx He Hb; exfalso; apply (Hna no idx); by exists e|].
      intros i b k no Hb Hk. exfalso. revert Hb. unfold buckets_of, t'. cbn. rewrite list_lookup_fmap.
      destruct (_ !! i) as [b0|]; [|done]. cbn. intros [= <-]. unfold entries_of, drain_bucket in Hk. cbn in Hk.
      by rewrite slab_map_default, lookup_empty in Hk.
    + split; [done|]. intros no idx Ha. by destruct (Hna no idx).
    + destruct Hz as (e0 & He0 & Hb0). rewrite Htm, Hts, He0. eexists. split; [done|]. by destruct (decide _).
    + by left.
    + unfold tick_time. cbn. pose proof (clock_mono _ Hclock 0 (t_clock_reads t)). lia.
    + intros no idx Ha. by destruct (Hna no idx).
    + right. by left.
  - split; [done|]. split; [|done]. apply set_eq. intros no. rewrite !elem_of_dom, Htm, Hts.
    by destruct (timers_of t !! no).
Qed.

(** ** The low-resolution clock *)

Lemma lowres_poll_spec t w :
  runs (LowresTimerDriver_poll clock w) t (fun _ t' => same_time t t').
Proof.
  unfold LowresTimerDriver_poll. apply runs_bind, runs_modify. apply runs_bind, runs_get. apply runs_bind.
  set (t0 := set_lowres_driver _ t). assert (same_time t t0) as Hst0 by (repeat split; try done; by left).
  apply (runs_conseq _ _ (fun _ t' => same_time t t')).
  { destruct (negb _); [|by apply runs_ret]. eexists tt, _. split; [reflexivity|].
    eapply (same_time_trans _ t0); [done|]. eapply same_time_trans; [by apply (same_time_flags t0 3)|].
    repeat split; cbn; try done; [lia|by left]. }
  intros [] t1 Hst1. apply runs_bind. eapply runs_eq; [reflexivity|]. apply runs_bind, runs_get.
  destruct (delay_poll _ _) as [ready d]. apply runs_bind, runs_modify.
  set (t2 := set_inner _ _). assert (same_time t t2) as Hst2.
  { eapply same_time_trans; [exact Hst1|]. repeat split; cbn; try done; [lia|by left]. }
  destruct ready; [|by apply runs_ret]. apply runs_bind, runs_modify, runs_modify.
  eapply same_time_trans; [exact Hst2|]. repeat split; cbn; try done. unfold has_flag. cbn.
  change DRIVER_RECALC with (2 ^ 1). change LOWRES_TIMER with (2 ^ 3). intros Hr.
  by rewrite contains_remove, Hr by lia.
Qed.
End time.
