(* ===== verification/WheelDriver.v ===== *)
(** * The timer driver

    [TimerDriver::poll] against the clock: it returns, it fires exactly timers
    whose deadline has passed, wakes their tasks, and leaves the wheel waiting
    for the earliest armed bucket.  On top of it, the guarantees for every
    sequence of timer operations. *)
From Stdlib Require Import ZArith Lia.
From stdpp Require Import base numbers gmap list.
From S2P Require Import Prelude Deps Task Wheel WheelArith WheelInv WheelRun WheelTime.

Section driver.
Context {T : Type -> Type} `{!Slab T} `{!SlabLaws T} {F : Type} `{!Bitflags F} `{!BitflagsLaws F}.
Context {D : Type} `{!Delay D} `{!DelayLaws D}.
Context (clock system_clock : nat -> Z) (Hclock : clock_ok clock).
Implicit Types t : Timer T F D.
Implicit Types dls : gmap nat Z.

(** What the driver did to timer [no]: nothing, or it fired the timer after
    its deadline and woke its task. *)
Definition left_or_fired dls t t' (ws : list waker) (no : nat) : Prop :=
  timers_of t' !! no = timers_of t !! no \/
  exists e d k, timers_of t !! no = Some e /\ te_bucket e <> None /\
    timers_of t' !! no = Some (complete e).2 /\ (forall w, te_task e = Some w -> w ∈ ws) /\
    dls !! no = Some d /\ (k < t_clock_reads t')%nat /\ d < clock k.

Definition drove dls t t' : Prop :=
  (t_clock_reads t <= t_clock_reads t')%nat /\
  exists ws, t_woken t' = t_woken t ++ ws /\ (forall no, left_or_fired dls t t' ws no) /\
    forall w, w ∈ ws -> exists no e, timers_of t !! no = Some e /\ te_bucket e <> None /\
      timers_of t' !! no = Some (complete e).2 /\ te_task e = Some w.

Lemma drove_refl dls t t' :
  timers_of t' = timers_of t -> t_woken t' = t_woken t -> (t_clock_reads t <= t_clock_reads t')%nat -> drove dls t t'.
Proof.
  intros Ht Hw Hc. split; [done|]. exists []. rewrite app_nil_r. split; [done|].
  split; [intros no; left; by rewrite Ht|by intros w ?%not_elem_of_nil].
Qed.

Lemma complete_idle e : te_bucket e = None -> (complete e).2 = e.
Proof. intros He. unfold complete. by rewrite He. Qed.

Lemma drove_trans dls t1 t2 t3 : drove dls t1 t2 -> drove dls t2 t3 -> drove dls t1 t3.
Proof.
  intros (Hc & ws & Hw & Hall & Hws) (Hc' & ws' & Hw' & Hall' & Hws').
  assert (forall no e, timers_of t1 !! no = Some e -> te_bucket e <> None ->
    timers_of t2 !! no = Some (complete e).2 -> timers_of t3 !! no = Some (complete e).2) as Hkeep.
  { intros no e He Hb He2. destruct (Hall' no) as [->|(e' & _ & _ & He' & Hb' & _)]; [done|].
    rewrite He2 in He'. injection He' as <-. by rewrite complete_disarms in Hb'. }
  split; [lia|]. exists (ws ++ ws'). split; [by rewrite Hw', Hw, app_assoc|]. split.
  - intros no. destruct (Hall no) as [Heq|(e & d & k & He & Hb & He2 & Hwk & Hd & Hk & Hlt)].
    + destruct (Hall' no) as [Heq'|(e & d & k & He & Hb & He2 & Hwk & Hd & Hk & Hlt)]; [left; congruence|].
      right. exists e, d, k. rewrite <- Heq. repeat split; try done. intros w Hew. apply elem_of_app. right. by apply Hwk.
    + right. exists e, d, k. repeat split; try done; [by eapply Hkeep| |lia].
      intros w Hew. apply elem_of_app. left. by apply Hwk.
  - intros w [Hin|Hin]%elem_of_app.
    + destruct (Hws w Hin) as (no & e & He & Hb & He2 & Ht). exists no, e. repeat split; try done. by eapply Hkeep.
    + destruct (Hws' w Hin) as (no & e & He & Hb & He2 & Ht). exists no, e. split; [|done].
      destruct (Hall no) as [Heq|(e' & d & k & He' & Hb' & He2' & _)]; [by rewrite <- Heq|].
      rewrite He in He2'. injection He2' as ->. by rewrite complete_disarms in Hb.
Qed.

(** Firing the buckets due by reading [k]. *)
Lemma fired_drove dls p t t' k :
  fired p t t' -> (k < t_clock_reads t')%nat ->
  (forall no idx, armed t no idx -> p idx = true -> exists d, dls !! no = Some d /\ d < clock k) ->
  drove dls t t'.
Proof.
  intros (_ & _ & Ho & Hts & ws & Hw & Hws) Hk Hd.
  assert (t_clock_reads t' = t_clock_reads t) as Hc by apply Ho.
  split; [lia|]. exists ws. split; [done|].
  assert (forall no e idx, timers_of t !! no = Some e -> te_bucket e = Some idx -> p idx = true ->
    timers_of t' !! no = Some (complete e).2) as Hf.
  { intros no e idx He Hb Hp. rewrite Hts, lookup_fmap, He. cbn. unfold fire. by rewrite Hb, Hp. }
  split.
  - intros no. unfold left_or_fired. rewrite Hts at 1. rewrite lookup_fmap.
    destruct (timers_of t !! no) as [e|] eqn:He; [|by left]. cbn. unfold fire.
    destruct (te_bucket e) as [idx|] eqn:Hb; [|by left]. destruct (p idx) eqn:Hp; [right|by left].
    destruct (Hd no idx) as (d & Hdl & Hlt); [by exists e|done|]. exists e, d, k.
    split; [done|]. split; [by rewrite Hb|]. split; [by eapply Hf|]. split; [|done].
    intros w Hew. apply Hws. exists no, e, idx. done.
  - intros w (no & e & idx & He & Hb & Hp & Hew)%Hws. exists no, e. split; [done|].
    split; [by rewrite Hb|]. split; [by eapply Hf|done].
Qed.

(** ** One iteration *)

(** Some armed bucket expires at the next expiry. *)
Definition exact t : Prop := exists no idx, armed t no idx /\ bucket_expiry (t_elapsed t) idx = t_next_expiry t.

Definition waiting t dls : Prop := TInv clock t dls /\ t_next_expiry t <> u64_max /\ sleeping clock t.

(** The wheel right after the buckets of its next expiry fired. *)
Record ticked t dls t3 : Prop := {
  tk_shaped : shaped t3;
  tk_linked : linked t3 [];
  tk_zero : exists e, timers_of t3 !! 0%nat = Some e /\ te_bucket e = None;
  tk_elapsed : t_elapsed t3 = t_next_expiry t;
  tk_time : exists now, t_elapsed_time t3 = Some now /\ now <= clock (t_clock_reads t3) /\
    t_next_expiry t * UNIT_NS <= now - clock 0%nat;
  tk_armed no idx : armed t3 no idx -> armed t no idx /\ t_next_expiry t < bucket_expiry (t_next_expiry t) idx;
  tk_due no idx : armed t3 no idx -> exists d, dls !! no = Some d /\ d < due clock t3 idx;
  tk_lowres n : t_lowres_time t3 = Some n -> n <= clock (t_clock_reads t3);
  tk_drove : drove dls t t3;
  tk_fires no idx : armed t no idx -> bucket_expiry (t_elapsed t) idx = t_next_expiry t -> forall i, ~ armed t3 no i;
}.

Lemma armed_fire p t t' no idx :
  fired p t t' -> armed t' no idx -> armed t no idx /\ p idx = false.
Proof.
  intros (_ & _ & _ & Hts & _) (e & He & Hb). rewrite Hts, lookup_fmap in He.
  destruct (timers_of t !! no) as [e0|] eqn:He0; [|done]. cbn in He. injection He as <-.
  apply fire_bucket_some in Hb as [Hb Hp]. split; [by exists e0|done].
Qed.

Lemma armed_stable t dls no idx :
  TInv clock t dls -> armed t no idx -> bucket_expiry (t_next_expiry t) idx = bucket_expiry (t_elapsed t) idx.
Proof.
  intros HT Ha. pose proof (ti_winv _ _ _ HT) as [Hs Hl [Hck Hckn] _].
  apply bucket_expiry_stable; [by eapply armed_valid|]. specialize (Hckn no idx Ha). lia.
Qed.

Lemma tick_spec t t2 dls now :
  waiting t dls -> delay_deadline (tm_driver_sleep (t_inner t)) <= clock (t_clock_reads t) ->
  same_wheel t t2 -> t_elapsed t2 = t_next_expiry t -> t_elapsed_time t2 = Some now ->
  clock (t_clock_reads t) <= now <= clock (t_clock_reads t2) -> (t_clock_reads t < t_clock_reads t2)%nat ->
  t_lowres_time t2 = t_lowres_time t -> t_woken t2 = t_woken t ->
  runs (execute_expired_timers (t_next_expiry t)) t2 (fun _ t3 => ticked t dls t3 /\ same_outer t2 t3).
Proof.
  intros (HT & Hmx & Hsl) Hdl Hw He Het Hnow Hc Hlr Hwk.
  pose proof (ti_winv _ _ _ HT) as [Hs Hl [Hck Hckn] Hz].
  assert (forall no idx, armed t2 no idx -> armed t no idx) as Har by (intros ??; by apply armed_same).
  eapply runs_conseq; [apply execute_spec; [by eapply shaped_same|by eapply linked_same|lia]|].
  intros [] t3 Hf. pose proof Hf as (Hs3 & Hl3 & Ho & Hts & _). split; [|done].
  pose proof Ho as (He3 & Het3 & _ & _ & _ & Hlr3 & _ & _ & Hc3 & _).
  unfold sleeping in Hsl.
  assert (forall no idx, armed t3 no idx -> armed t no idx /\ t_next_expiry t < bucket_expiry (t_next_expiry t) idx) as Harm.
  { intros no idx Ha. destruct (armed_fire _ _ _ _ _ Hf Ha) as [Ha2%Har Hp]. split; [done|].
    apply Z.eqb_neq in Hp. rewrite (armed_stable t dls no idx) in * by done. specialize (Hckn no idx Ha2). lia. }
  split; try done.
  - destruct Hz as (e0 & He0 & Hb0). exists e0. split; [|done]. rewrite Hts, lookup_fmap. destruct Hw as [-> _].
    rewrite He0. cbn. f_equal. unfold fire. by rewrite Hb0.
  - by rewrite He3, He.
  - exists now. rewrite Het3, Het, Hc3. split; [done|]. split; [lia|].
    pose proof (ti_past _ _ _ HT). unfold UNIT_NS, ns_of_millis in *. lia.
  - intros no idx Ha. destruct (Harm no idx Ha) as [Hat _].
    destruct (ti_due _ _ _ HT no idx Hat) as (d & Hd & Hlt). exists d. split; [done|].
    unfold due in *. rewrite He3, He, (armed_stable t dls no idx) by done.
    assert (tick_time clock t3 = now) as -> by (unfold tick_time; by rewrite Het3, Het).
    unfold UNIT_NS, ns_of_millis in *. lia.
  - intros n. rewrite Hlr3, Hlr. intros Hn%(ti_lowres _ _ _ HT). etrans; [exact Hn|]. apply clock_mono; [done|lia].
  - eapply drove_trans; [apply (drove_refl dls t t2); [apply Hw|done|lia]|].
    eapply (fired_drove dls _ t2 t3 (t_clock_reads t)); [exact Hf|lia|]. intros no idx Ha%Har Hp.
    destruct (ti_due _ _ _ HT no idx Ha) as (d & Hd & Hlt). exists d. split; [done|].
    apply Z.eqb_eq in Hp. rewrite (armed_stable t dls no idx) in Hp by done. unfold due in Hlt. rewrite Hp in Hlt. lia.
  - intros no idx Ha Hexp i Ha3. destruct (Harm no i Ha3) as [Hai Hlt].
    assert (i = idx) as -> by (destruct Ha as (e & ? & ?), Hai as (e' & ? & ?); congruence).
    rewrite (armed_stable t dls no idx) in Hlt by done. lia.
Qed.

Lemma ticked_elapsed t dls t3 : TInv clock t dls -> ticked t dls t3 -> 0 <= t_elapsed t3 < 2 ^ 62.
Proof.
  intros HT Hk. destruct (tk_time _ _ _ Hk) as (now & Het & Hn & Hp). rewrite (tk_elapsed _ _ _ Hk).
  pose proof (wi_clocked _ (ti_winv _ _ _ HT)) as [Hck _]. split; [lia|].
  pose proof (clock_bound _ Hclock (t_clock_reads t3)). unfold UNIT_NS, ns_of_millis in *. lia.
Qed.

(** The next bucket is pending. *)
Lemma ticked_waiting t dls t3 t5 e :
  TInv clock t dls -> ticked t dls t3 ->
  (exists no idx, armed t3 no idx /\ e = bucket_expiry (t_elapsed t3) idx) ->
  (forall no idx, armed t3 no idx -> e <= bucket_expiry (t_elapsed t3) idx) ->
  same_wheel t3 t5 -> t_elapsed t5 = t_elapsed t3 -> t_elapsed_time t5 = t_elapsed_time t3 ->
  t_next_expiry t5 = e -> (t_clock_reads t3 <= t_clock_reads t5)%nat -> t_lowres_time t5 = t_lowres_time t3 ->
  delay_deadline (tm_driver_sleep (t_inner t5)) = clock (t_clock_reads t3) + (e - t_elapsed t3) * UNIT_NS ->
  waiting t5 dls /\ exact t5.
Proof.
  intros HT Hk (no & idx & Ha & He) Hmin Hw He5 Het5 Hn5 Hc5 Hlr5 Hdl.
  pose proof (ticked_elapsed t dls t3 HT Hk) as Her. destruct (tk_time _ _ _ Hk) as (now & Het & Hn & Hp).
  pose proof (armed_valid t3 no idx (tk_shaped _ _ _ Hk) (tk_linked _ _ _ Hk) Ha) as Hv.
  pose proof (bucket_expiry_bounds (t_elapsed t3) idx Hv ltac:(lia)) as Hb.
  pose proof (gran_le (lvl_of idx) (lvl_of_range idx Hv)) as Hg.
  assert (tick_time clock t5 = now) as Htick by (unfold tick_time; by rewrite Het5, Het).
  pose proof (clock_mono _ Hclock _ _ Hc5) as Hmono.
  assert (sleeping clock t5) as Hsl by (unfold sleeping; rewrite Htick, Hn5, He5, Hdl; lia).
  split.
  2:{ exists no, idx. split; [|by rewrite He5, Hn5]. destruct Hw as [Hw _]. unfold armed. by rewrite Hw. }
  split; [|split; [rewrite Hn5; change u64_max with (2 ^ 64 - 1); lia|done]]. split.
  - split; [by eapply shaped_same, Hk|by eapply linked_same, Hk| |destruct Hw as [-> _]; apply Hk].
    split; [lia|]. intros no' idx' Ha'. rewrite Hn5, He5. eapply Hmin. by eapply armed_same.
  - right. rewrite Hn5, He5, Het5, Het. split; [unfold WHEEL_SPAN; lia|done].
  - rewrite Htick, He5, (tk_elapsed _ _ _ Hk). done.
  - rewrite Htick. lia.
  - intros no' idx' Ha'. destruct (tk_due _ _ _ Hk no' idx') as (d & Hd & Hlt); [by eapply armed_same|].
    exists d. split; [done|]. unfold due in *. rewrite Htick, He5.
    assert (tick_time clock t3 = now) as Ht3 by (unfold tick_time; by rewrite Het). by rewrite Ht3 in Hlt.
  - by right; right.
  - intros n. rewrite Hlr5. intros Hn'%(tk_lowres _ _ _ Hk). lia.
Qed.

(** No timer is left. *)
Lemma ticked_idle t dls t3 t4 :
  TInv clock t dls -> ticked t dls t3 -> (forall no idx, ~ armed t3 no idx) ->
  t4 = set_elapsed_time None (set_next_expiry u64_max t3) -> TInv clock t4 dls.
Proof.
  intros HT Hk Hna ->. set (t4 := set_elapsed_time _ _).
  pose proof (ticked_elapsed t dls t3 HT Hk) as Her. destruct (tk_time _ _ _ Hk) as (now & Het & Hn & Hp).
  assert (same_wheel t3 t4) as Hw by done.
  assert (tick_time clock t4 = clock (t_clock_reads t3)) as Htick by done. split.
  - split; [by eapply shaped_same, Hk|by eapply linked_same, Hk| |apply Hk].
    split; [cbn; change u64_max with (2 ^ 64 - 1); lia|]. intros no idx Ha%(armed_same t3); [|done]. by destruct (Hna no idx).
  - by left.
  - rewrite Htick. change (t_elapsed t4) with (t_elapsed t3). rewrite (tk_elapsed _ _ _ Hk). lia.
  - by rewrite Htick.
  - intros no idx Ha%(armed_same t3); [|done]. by destruct (Hna no idx).
  - right. by left.
  - apply (tk_lowres _ _ _ Hk).
Qed.

(** ** The loop *)

Definition armed_timers t : gmap nat TimerEntry := filter (fun ne => te_bucket ne.2 <> None) (timers_of t).

Lemma drove_armed dls t t' : drove dls t t' -> armed_timers t' ⊆ armed_timers t.
Proof.
  intros (_ & ws & _ & Hall & _). apply map_subseteq_spec. intros no e [He Hb]%map_lookup_filter_Some.
  apply map_lookup_filter_Some. split; [|done].
  destruct (Hall no) as [<-|(e0 & _ & _ & _ & _ & He' & _)]; [done|]. cbn in Hb. rewrite He in He'. injection He' as ->.
  by rewrite complete_disarms in Hb.
Qed.

Lemma drove_fewer dls t t' no idx :
  drove dls t t' -> armed t no idx -> (forall i, ~ armed t' no i) -> (size (armed_timers t') < size (armed_timers t))%nat.
Proof.
  intros Hd (e & He & Hb) Hna. apply map_subset_size. split; [by eapply drove_armed|]. intros Hsub.
  assert (armed_timers t' !! no = Some e) as He'.
  { eapply lookup_weaken; [|exact Hsub]. apply map_lookup_filter_Some. split; [done|]. cbn. by rewrite Hb. }
  apply map_lookup_filter_Some in He' as [He' _]. apply (Hna idx). by exists e.
Qed.

(** When the driver returns: no timer is armed, or it waits for the next. *)
Definition settled t dls : Prop :=
  TInv clock t dls /\ ((t_next_expiry t = u64_max /\ forall no idx, ~ armed t no idx) \/ waiting t dls).

Lemma driver_iteration fuel t dls (Q : () -> Timer T F D -> Prop) :
  waiting t dls ->
  (forall t', settled t' dls -> drove dls t t' -> Q tt t') ->
  (forall t5, waiting t5 dls -> exact t5 -> drove dls t t5 ->
    (exact t -> (size (armed_timers t5) < size (armed_timers t))%nat) -> runs (driver_loop clock fuel) t5 Q) ->
  runs (driver_loop clock (S fuel)) t Q.
Proof.
  intros Hwait Hdone Hnext. pose proof Hwait as (HT & Hmx & Hsl). cbn [driver_loop]. apply runs_bind.
  pose proof (delay_poll_deadline (clock (t_clock_reads t)) (tm_driver_sleep (t_inner t))) as Hdd.
  pose proof (delay_poll_ready (clock (t_clock_reads t)) (tm_driver_sleep (t_inner t))) as Hrdy.
  destruct (delay_poll (clock (t_clock_reads t)) (tm_driver_sleep (t_inner t))) as [ready d] eqn:Hpoll. cbn in Hdd, Hrdy.
  set (t1 := set_inner (with_driver_sleep d (t_inner t)) (tick_clock t)).
  eapply (runs_eq _ _ ready t1).
  { unfold driver_sleep_poll, instant_now, mbind, M_bind, getS. cbn. by rewrite Hpoll. }
  destruct ready.
  2:{ assert (same_time clock t t1) as Hst by (repeat split; cbn; try done; [lia|by left]).
      pose proof (TInv_same _ Hclock _ _ _ Hst HT) as HT1.
      apply runs_ret, Hdone; [|apply drove_refl; cbn; [done|done|lia]]. split; [done|]. right. split; [done|]. split; [done|].
      unfold sleeping. cbn. rewrite Hdd. destruct (ti_next _ _ _ HT) as [|[_ Hsome]]; [done|].
      pose proof (clock_mono _ Hclock (t_clock_reads t) (S (t_clock_reads t)) ltac:(lia)).
      unfold sleeping, tick_time in *. cbn. destruct (t_elapsed_time t); [cbn in *; lia|done]. }
  apply runs_bind. eapply runs_eq; [reflexivity|]. apply runs_bind, runs_modify, runs_bind, runs_get, runs_bind.
  set (now := clock (t_clock_reads t1)). set (t2 := set_elapsed_time _ _).
  change (t_next_expiry t2) with (t_next_expiry t).
  eapply runs_conseq; [apply (tick_spec t t2 dls now Hwait)|]; try done; [by apply Hrdy| |cbn; lia|].
  { split; apply clock_mono; try done; cbn; lia. }
  intros [] t3 [Hk Ho]. apply runs_bind, runs_get.
  destruct (next_pending_spec t3) as (r & Hr & Hspec);
    [apply Hk|apply Hk|by eapply ticked_elapsed|].
  apply runs_bind. eapply runs_lift; [exact Hr|]. destruct r as [e|].
  - destruct Hspec as [Hex Hmin]. apply runs_bind, runs_modify, runs_bind, runs_get, runs_bind.
    eapply runs_eq; [reflexivity|]. set (t5 := set_inner _ _).
    assert (drove dls t t5) as Hd5.
    { eapply drove_trans; [apply Hk|]. apply drove_refl; cbn; [done|done|lia]. }
    destruct (ticked_waiting t dls t3 t5 e HT Hk Hex Hmin) as [Hw5 He5]; try done; [cbn; lia| |].
    { cbn -[next_expiry_ms]. rewrite delay_reset_deadline, next_expiry_ms_eq; [done|]. cbn.
      destruct Hex as (no & idx & Ha & ->). pose proof (ticked_elapsed t dls t3 HT Hk).
      pose proof (armed_valid t3 no idx (tk_shaped _ _ _ Hk) (tk_linked _ _ _ Hk) Ha) as Hv.
      pose proof (bucket_expiry_bounds (t_elapsed t3) idx Hv ltac:(lia)).
      pose proof (gran_le (lvl_of idx) (lvl_of_range idx Hv)). unfold WHEEL_SPAN. lia. }
    apply Hnext; try done. intros (no & idx & Ha & Hexp).
    eapply (drove_fewer dls t t5 no idx); [done..|]. apply (tk_fires _ _ _ Hk no idx); done.
  - apply runs_modify, Hdone.
    + split; [by eapply ticked_idle|]. left. split; [done|]. intros no idx Ha. by apply (Hspec no idx).
    + eapply drove_trans; [apply Hk|]. by apply drove_refl.
Qed.

Lemma driver_loop_exact fuel t dls :
  waiting t dls -> exact t -> (size (armed_timers t) < fuel)%nat ->
  runs (driver_loop clock fuel) t (fun _ t' => settled t' dls /\ drove dls t t').
Proof.
  revert t. induction fuel as [|fuel IH]; intros t Hw Hex Hf; [lia|].
  apply (driver_iteration fuel t dls); [done|done|]. intros t5 Hw5 He5 Hd5 Hlt. specialize (Hlt Hex).
  eapply runs_conseq; [apply IH; [done|done|lia]|]. intros [] t' [Hs Hd]. split; [done|]. by eapply drove_trans.
Qed.

Lemma driver_loop_spec fuel t dls :
  waiting t dls -> (S (size (armed_timers t)) < fuel)%nat ->
  runs (driver_loop clock fuel) t (fun _ t' => settled t' dls /\ drove dls t t').
Proof.
  intros Hw Hf. destruct fuel as [|fuel]; [lia|]. apply (driver_iteration fuel t dls); [done|done|].
  intros t5 Hw5 He5 Hd5 _. pose proof (map_subseteq_size _ _ (drove_armed _ _ _ Hd5)).
  eapply runs_conseq; [apply (driver_loop_exact fuel t5 dls); [done|done|lia]|].
  intros [] t' [Hs Hd]. split; [done|]. by eapply drove_trans.
Qed.

Lemma driver_poll_spec fuel w t dls :
  TInv clock t dls -> t_next_expiry t <> u64_max -> (S (size (armed_timers t)) < fuel)%nat ->
  runs (TimerDriver_poll clock fuel w) t (fun _ t' => settled t' dls /\ drove dls t t').
Proof.
  intros HT Hmx Hf. unfold TimerDriver_poll. apply runs_bind, runs_modify, runs_bind, runs_get.
  set (t0 := set_driver _ t). assert (same_time clock t t0) as Hst0 by (repeat split; try done; by left).
  pose proof (TInv_same _ Hclock _ _ _ Hst0 HT) as HT0.
  apply runs_bind. apply (runs_conseq _ _ (fun _ t' => waiting t' dls /\ drove dls t t' /\ timers_of t' = timers_of t)).
  2:{ intros [] t1 (Hw & Hd & Hts). eapply runs_conseq; [apply driver_loop_spec; [done|]|].
      - unfold armed_timers. by rewrite Hts.
      - intros [] t' [Hs Hd']. split; [done|]. by eapply drove_trans. }
  destruct (ti_next _ _ _ HT) as [|[Hspan Hsome]]; [done|].
  pose proof (wi_clocked _ (ti_winv _ _ _ HT)) as [Hck _].
  destruct (has_flag DRIVER_RECALC t0) eqn:Hrc.
  2:{ apply runs_ret. split; [|split; [by apply drove_refl|done]]. split; [done|]. split; [done|].
      destruct (ti_sleep _ _ _ HT0) as [|[|]]; [congruence|done|done]. }
  destruct (t_elapsed_time t) as [et|] eqn:Het; [|done].
  apply runs_bind, runs_modify, runs_bind. eapply runs_eq; [reflexivity|]. apply runs_bind.
  eapply (runs_eq _ _ et); [unfold elapsed_time, mbind, M_bind, getS; cbn; by rewrite Het|].
  apply runs_bind, runs_get. eapply runs_eq; [reflexivity|]. set (t1 := set_inner _ _).
  assert (tick_time clock t = et) as Htick by (unfold tick_time; by rewrite Het).
  assert (tick_time clock t1 = et) as Htick1 by (unfold tick_time; cbn; by rewrite Het).
  pose proof (ti_tick _ _ _ HT) as Htc. rewrite Htick in Htc.
  assert (sleeping clock t1) as Hsl.
  { unfold sleeping. rewrite Htick1. cbn -[next_expiry_ms]. rewrite delay_reset_deadline, next_expiry_ms_eq by (cbn; lia).
    rewrite (proj2 (Z.leb_le _ _)) by done. cbn. unfold saturating_sub.
    pose proof (clock_mono _ Hclock (t_clock_reads t) (S (t_clock_reads t)) ltac:(lia)).
    pose proof (clock_mono _ Hclock (S (t_clock_reads t)) (S (S (t_clock_reads t))) ltac:(lia)).
    assert (0 <= (t_next_expiry t - t_elapsed t) * UNIT_NS) by (unfold UNIT_NS, ns_of_millis; lia). lia. }
  split; [|split; [apply drove_refl; cbn; [done|done|lia]|done]]. split; [|done].
  assert (clock (t_clock_reads t) <= clock (t_clock_reads t1)) as Hmono by (apply clock_mono; [done|cbn; lia]).
  destruct HT as [HI Hnx Hp Ht Hdue _ Hlow]. split.
  - by apply (WInv_same t).
  - right. split; [done|]. cbn. by rewrite Het.
  - rewrite Htick1. by rewrite Htick in Hp.
  - rewrite Htick1. lia.
  - intros no idx Ha. destruct (Hdue no idx Ha) as (d & Hd & Hlt). exists d. split; [done|].
    unfold due in *. rewrite Htick1. by rewrite Htick in Hlt.
  - by right; right.
  - intros n Hn%Hlow. lia.
Qed.
End driver.
