(* ===== verification/WheelProps.v ===== *)
(** * Guarantees of the timer

    The timer as its clients use it: any sequence of operations on
    [util::time] timers, interleaved with polls of the driver tasks. *)
From Stdlib Require Import ZArith Lia.
From stdpp Require Import base numbers gmap list.
From S2P Require Import Prelude Deps Task Wheel WheelArith WheelInv WheelRun WheelTime WheelDriver.

(** ** Operations *)

Inductive timer_op :=
  | TAdd (millis : Z) | TUpdate (hnd : nat) (millis : Z) | TRemove (hnd : nat)
  | TPoll (hnd : nat) (w : waker) | TDrop (hnd : nat) | TNow | TSystemTime
  | TDrive (w : waker) | TLowres (w : waker) | TStop.

Section ops.
Context {T : Type -> Type} `{!Slab T} {F : Type} `{!Bitflags F} {D : Type} `{!Delay D}.
Context (clock system_clock : nat -> Z).
Implicit Types t : Timer T F D.

(** Iterations of the driver loop: one per timer, one for a bucket that was
    emptied since the driver went to sleep, and the last one. *)
Definition drive_fuel t : nat := S (S (slab_len (tm_timers (t_inner t)))).

Definition run_op (op : timer_op) : M (Timer T F D) (option nat) :=
  match op with
  | TAdd millis => no ← add_timer clock millis; mret (Some no)
  | TUpdate hnd millis => update_timer clock hnd millis;; mret None
  | TRemove hnd => remove_timer hnd;; mret None
  | TPoll hnd w => handle_poll_elapsed hnd w;; mret None
  | TDrop hnd => handle_drop hnd;; mret None
  | TNow => timer_now clock;; mret None
  | TSystemTime => timer_system_time clock system_clock;; mret None
  | TDrive w => t ← getS; TimerDriver_poll clock (drive_fuel t) w;; mret None
  | TLowres w => LowresTimerDriver_poll clock w;; mret None
  | TStop => stop_wheel;; mret None
  end.

(** A handle is live until it is dropped; durations are [Millis], 32 bits. *)
Definition live t (hnd : nat) : bool := negb (hnd =? 0)%nat && slab_contains hnd (tm_timers (t_inner t)).
Definition millis_ok (millis : Z) : bool := (0 <=? millis) && (millis <? 2 ^ 32).
Definition legal (op : timer_op) t : bool :=
  match op with
  | TAdd millis => millis_ok millis
  | TUpdate hnd millis => live t hnd && millis_ok millis
  | TRemove hnd | TPoll hnd _ | TDrop hnd => live t hnd
  | TNow | TSystemTime | TDrive _ | TLowres _ | TStop => true
  end.
(** The driver task is polled only while there is an expiry that it waits for.
    [idle_poll_makes_timers_early] shows what a poll of an idle driver does
    whose delay has fired. *)
Definition driver_awake (op : timer_op) t : bool :=
  match op with TDrive _ => negb (t_next_expiry t =? u64_max) | _ => true end.

(** The deadlines the operations ask for. *)
Definition deadlines (op : timer_op) (r : option nat) t (dls : gmap nat Z) : gmap nat Z :=
  match op, r with
  | TAdd millis, Some no => if millis =? 0 then dls else <[no := deadline clock t millis]> dls
  | TUpdate hnd millis, _ => if millis =? 0 then dls else <[hnd := deadline clock t millis]> dls
  | _, _ => dls
  end.

(** The states that operations reach, with the deadlines that were asked for. *)
Inductive reachable : Timer T F D -> gmap nat Z -> Prop :=
  | reach_new now : reachable (Timer_new now) ∅
  | reach_op t dls op r t' :
      reachable t dls -> legal op t = true -> driver_awake op t = true -> run_op op t = Done (r, t') -> reachable t' (deadlines op r t dls).
End ops.

Section props.
Context {T : Type -> Type} `{!Slab T} `{!SlabLaws T} {F : Type} `{!Bitflags F} `{!BitflagsLaws F}.
Context {D : Type} `{!Delay D} `{!DelayLaws D}.
Context (clock system_clock : nat -> Z) (Hclock : clock_ok clock).
Implicit Types t : Timer T F D.

Lemma live_some t hnd : live t hnd = true -> hnd <> 0%nat /\ exists e, timers_of t !! hnd = Some e.
Proof.
  unfold live. rewrite andb_true_iff, negb_true_iff, Nat.eqb_neq, slab_contains_map, bool_decide_eq_true. done.
Qed.

Lemma millis_range millis : millis_ok millis = true -> 0 <= millis < 2 ^ 32.
Proof. unfold millis_ok. rewrite andb_true_iff, Z.leb_le, Z.ltb_lt. done. Qed.

Lemma armed_le_len t : (size (armed_timers t) <= slab_len (tm_timers (t_inner t)))%nat.
Proof. rewrite slab_len_map. apply map_subseteq_size, map_filter_subseteq. Qed.

Lemma create_buckets_lookup (i : nat) (b : Bucket T) :
  create_buckets !! i = Some b ->
  (i < 512)%nat /\ b = Bucket_new (Z.of_nat i / LVL_SIZE) (Z.of_nat i mod LVL_SIZE).
Proof.
  unfold create_buckets. rewrite list_lookup_fmap. destruct (seq _ _ !! i) as [j|] eqn:Hj; [|done].
  apply lookup_seq in Hj as [-> Hj]. cbn. intros [= <-]. split; [exact Hj|done].
Qed.

Lemma new_shaped now : shaped (Timer_new now : Timer T F D).
Proof.
  split.
  - change (buckets_of (Timer_new now : Timer T F D)) with (create_buckets (T := T)).
    unfold create_buckets. by rewrite length_fmap, length_seq.
  - intros i b [Hi ->]%create_buckets_lookup. unfold bucket_shape, Bucket_new. cbn [b_lvl b_bit b_bit_n].
    change LVL_SIZE with 64. rewrite Z.shiftl_mul_pow2, Z.mul_1_l by (apply Z.mod_pos_bound; lia). done.
  - done.
  - intros l o [-> _]%lookup_replicate. done.
  - intros i b [Hi ->]%create_buckets_lookup. unfold entries_of, Bucket_new. cbn [b_entries]. rewrite slab_map_default.
    rewrite bool_decide_eq_true_2 by done. unfold occ_bit.
    destruct (occupied_of _ !! _) as [o|] eqn:Ho; [|done]. apply lookup_replicate in Ho as [-> _]. apply Z.bits_0.
Qed.

Lemma new_inv now : TInv clock (Timer_new now : Timer T F D) ∅.
Proof.
  set (t := Timer_new now). set (e0 := mkTimerEntry None 0 lw_new).
  assert (timers_of t = {[0%nat := e0]}) as Hts.
  { unfold timers_of, t. cbn. fold e0. rewrite slab_map_insert, slab_insert_default, slab_map_default. done. }
  assert (forall no idx, ~ armed t no idx) as Hna.
  { intros no idx (e & He & Hb). rewrite Hts in He. by apply lookup_singleton_Some in He as [_ <-]. }
  assert (clock 0%nat <= clock 0%nat) by lia. split; try done.
  - split; [apply new_shaped| | |].
    + split; [intros no e idx He Hb; exfalso; apply (Hna no idx); by exists e|].
      intros i b k no [_ ->]%create_buckets_lookup Hk. unfold entries_of, Bucket_new in Hk. cbn [b_entries] in Hk.
      by rewrite slab_map_default, lookup_empty in Hk.
    + split; [done|]. intros no idx Ha. by destruct (Hna no idx).
    + exists e0. by rewrite Hts, lookup_singleton_eq.
  - by left.
  - unfold tick_time. cbn. lia.
  - intros no idx Ha. by destruct (Hna no idx).
  - right. by left.
Qed.

Lemma run_op_spec op t dls :
  TInv clock t dls -> legal op t = true -> driver_awake op t = true ->
  runs (run_op clock system_clock op) t (fun r t' => TInv clock t' (deadlines clock op r t dls)).
Proof.
  intros HT Hleg Hawake. destruct op as [millis|hnd millis|hnd|hnd w|hnd| | |w|w| ]; cbn [run_op legal driver_awake] in *.
  - apply millis_range in Hleg. apply runs_bind. cbn. destruct (Z.eqb_spec millis 0) as [->|Hne].
    + eapply runs_conseq; [by eapply add_elapsed_spec|]. intros no t' (_ & HT' & _). by apply runs_ret.
    + eapply runs_conseq; [eapply add_timer_spec; [done|done|lia]|]. intros no t' (_ & HT' & _). by apply runs_ret.
  - apply andb_true_iff in Hleg as [(Hz & e & He)%live_some Hm%millis_range]. apply runs_bind. cbn.
    destruct (Z.eqb_spec millis 0) as [->|Hne].
    + eapply runs_conseq; [by eapply disarm_timer_spec|]. intros [] t' (HT' & _). by apply runs_ret.
    + eapply runs_conseq; [eapply update_timer_spec; [done..|lia]|]. intros [] t' [HT' _]. by apply runs_ret.
  - apply live_some in Hleg as (Hz & e & He). apply runs_bind. eapply runs_conseq; [by eapply remove_timer_inv|].
    intros [] t' (HT' & _). by apply runs_ret.
  - apply live_some in Hleg as (Hz & e & He). apply runs_bind. eapply runs_conseq; [by eapply poll_elapsed_spec|].
    intros b t' (HT' & _). by apply runs_ret.
  - apply live_some in Hleg as (Hz & e & He). apply runs_bind. eapply runs_conseq; [by eapply handle_drop_inv|].
    intros [] t' (HT' & _). by apply runs_ret.
  - apply runs_bind. eapply runs_conseq; [by eapply timer_now_spec|]. intros n t' [_ Hst]. apply runs_ret. exact (TInv_same _ Hclock _ _ _ Hst HT).
  - apply runs_bind. eapply runs_conseq; [by eapply timer_system_time_spec|]. intros n t' Hst. apply runs_ret. exact (TInv_same _ Hclock _ _ _ Hst HT).
  - apply negb_true_iff, Z.eqb_neq in Hawake. apply runs_bind, runs_get, runs_bind.
    eapply runs_conseq; [eapply driver_poll_spec; [done|done|done|]|].
    + pose proof (armed_le_len t). unfold drive_fuel. lia.
    + intros [] t' [[HT' _] _]. by apply runs_ret.
  - apply runs_bind. eapply runs_conseq; [by eapply lowres_poll_spec|]. intros n t' Hst. apply runs_ret. exact (TInv_same _ Hclock _ _ _ Hst HT).
  - apply runs_bind. eapply runs_conseq; [by eapply stop_wheel_spec|]. intros n t' (HT' & _). by apply runs_ret.
Qed.

Lemma reachable_inv t dls : reachable clock system_clock t dls -> TInv clock t dls.
Proof.
  induction 1 as [now|t dls op r t' _ IH Hleg Hawake Hrun]; [apply new_inv|].
  destruct (run_op_spec op t dls IH Hleg Hawake) as (r' & t'' & Hrun' & HT'). rewrite Hrun in Hrun'. by injection Hrun' as <- <-.
Qed.

(** C32. From any state that timer operations can reach, with a clock that
    does not go back, every further operation on a live handle returns: none
    panics on a missing bucket, timer or slot, the arithmetic does not
    overflow and the driver loop ends.  Timers, bucket slots, occupancy words
    and the next expiry still agree afterwards.  Here and in the theorems
    below, polls of the driver task, now and before, are polls of a driver
    that has an expiry to wait for ([driver_awake]); a poll of an idle driver
    whose delay has fired spoils its clock ([idle_poll_makes_timers_early]). *)
Theorem timer_operations_return t dls op :
  reachable clock system_clock t dls -> legal op t = true -> driver_awake op t = true ->
  exists r t', run_op clock system_clock op t = Done (r, t') /\ WInv t'.
Proof.
  intros Hr Hl Ha. destruct (run_op_spec op t dls (reachable_inv _ _ Hr) Hl Ha) as (r & t' & Hrun & HT).
  exists r, t'. split; [done|apply HT].
Qed.


(** C34. After a poll the driver sleeps until the right moment: either no
    timer is armed and no expiry is set, or the next expiry is at or before
    the expiry of every armed bucket, and the delay ends when it is due, which
    is neither earlier than its time after the last tick nor later than its
    time from now.  The driver task is not polled while it is idle
    ([driver_awake], for this poll and those before it). *)
Theorem driver_waits_for_next t dls w r t' :
  reachable clock system_clock t dls -> driver_awake (TDrive w) t = true ->
  run_op clock system_clock (TDrive w) t = Done (r, t') ->
  (t_next_expiry t' = u64_max /\ forall no idx, ~ armed t' no idx) \/
  (t_next_expiry t' <> u64_max /\
   (let rest := (t_next_expiry t' - t_elapsed t') * UNIT_NS in
    tick_time clock t' + rest <= delay_deadline (tm_driver_sleep (t_inner t')) <= clock (t_clock_reads t') + rest) /\
   forall no idx, armed t' no idx -> t_next_expiry t' <= bucket_expiry (t_elapsed t') idx).
Proof.
  intros Hr Hleg Hrun. apply negb_true_iff, Z.eqb_neq in Hleg. pose proof (armed_le_len t) as Hlen.
  destruct (driver_poll_spec clock Hclock (drive_fuel t) w t dls) as ([] & t1 & Hd & [HT Hset] & _);
    [by apply reachable_inv|done|unfold drive_fuel; lia|].
  cbn in Hrun. unfold mbind, M_bind, getS in Hrun. cbn in Hrun. rewrite Hd in Hrun. injection Hrun as _ <-.
  destruct Hset as [|(_ & Hmx & Hsl)]; [by left|right]. split; [done|]. split; [done|].
  apply (ck_next _ (wi_clocked _ (ti_winv _ _ _ HT))).
Qed.

(** [next_pending_bucket], which scans the occupancy words level by level
    with rotations and stops early, returns the earliest expiry of any armed
    timer, and [None] when there is none. *)
Theorem next_pending_is_earliest t dls :
  reachable clock system_clock t dls ->
  exists r, next_pending_bucket t = Done r /\
    match r with
    | Some e => (exists no idx, armed t no idx /\ e = bucket_expiry (t_elapsed t) idx) /\
        forall no idx, armed t no idx -> e <= bucket_expiry (t_elapsed t) idx
    | None => forall no idx, ~ armed t no idx
    end.
Proof.
  intros Hr%reachable_inv. apply next_pending_spec; [apply Hr|apply Hr|]. by eapply TInv_elapsed.
Qed.

(** C33. Executing the wheel at a clock value, which looks at one bucket per
    level, completes exactly the timers whose bucket expires at that value and
    wakes exactly their tasks. *)
Theorem execute_fires_expired t dls clk :
  reachable clock system_clock t dls -> 0 <= clk ->
  exists t', execute_expired_timers clk t = Done (tt, t') /\
    timers_of t' = fire (fun i => bucket_expiry clk i =? clk) <$> timers_of t /\
    exists ws, t_woken t' = t_woken t ++ ws /\
      fired_wakers (fun i => bucket_expiry clk i =? clk) (timers_of t) ws.
Proof.
  intros Hr%reachable_inv Hc. destruct (execute_spec clk t) as ([] & t' & Hx & _ & _ & _ & Hts & Hws);
    [apply Hr|apply Hr|done|]. eauto.
Qed.

(** Resetting a live timer to zero disarms it but wakes nobody: a task
    that was waiting for the timer stays registered and is not woken, where
    [remove_timer] wakes it. *)
Theorem reset_to_zero_does_not_wake t dls hnd e w :
  reachable clock system_clock t dls -> live t hnd = true -> timers_of t !! hnd = Some e ->
  te_bucket e <> None -> te_task e = Some w ->
  (exists t', update_timer clock hnd 0 t = Done (tt, t') /\ t_woken t' = t_woken t /\
    timers_of t' !! hnd = Some (mkTimerEntry None (te_bucket_entry e) (Some w))) /\
  (exists t', remove_timer hnd t = Done (tt, t') /\ t_woken t' = t_woken t ++ [w]).
Proof.
  intros Hr%reachable_inv Hl He Hb Hw. apply live_some in Hl as [Hz _]. split.
  - destruct (disarm_timer_spec clock t dls hnd e Hr He Hz) as ([] & t' & Hx & _ & Hts & Hwk).
    exists t'. rewrite Hts, lookup_insert_eq. unfold disarmed. by rewrite Hw.
  - destruct (remove_timer_inv clock t dls hnd e Hr He Hz) as ([] & t' & Hx & _ & _ & Hwk).
    exists t'. split; [done|]. rewrite Hwk. unfold complete. destruct (te_bucket e); [|done]. by rewrite Hw.
Qed.
End props.

(** A timer is placed in a bucket that expires after its deadline, and not
    much later: at most one unit, or 8/63 (about 13 percent) of the time
    asked for. *)
Theorem timer_placement_accuracy elapsed delta :
  0 <= elapsed < 2 ^ 62 -> 0 <= delta < WHEEL_TIMEOUT_CUTOFF ->
  exists idx expiry, calc_wheel_index elapsed (wrapping_add64 elapsed delta) delta = Done (idx, expiry) /\
    valid_bucket idx /\ expiry = bucket_expiry elapsed idx /\
    elapsed + delta < expiry /\
    (expiry <= elapsed + delta + 1 \/ 63 * (expiry - (elapsed + delta)) <= 8 * delta).
Proof.
  intros He Hd. change WHEEL_TIMEOUT_CUTOFF with (63 * 8 ^ 7) in Hd.
  destruct (calc_wheel_index_placed elapsed delta) as (idx & exp & lvl & Hc & (Hv & Hl & Hexp & Hlo & Hhi) & Hlvl);
    [lia|lia|change u64_modulus with (2 ^ 64); lia|].
  assert (in_wheel delta = delta) as Hin.
  { unfold in_wheel. rewrite (proj2 (Z.ltb_lt _ _)); [done|]. change WHEEL_TIMEOUT_CUTOFF with (63 * 8 ^ 7). lia. }
  rewrite Hin in *. exists idx, exp. repeat split; try done; try apply Hv.
  destruct (Hlvl ltac:(change WHEEL_TIMEOUT_CUTOFF with (63 * 8 ^ 7); lia)) as (Hr & _ & [->|Hge]).
  - left. change (gran 0) with 1 in Hhi. lia.
  - destruct (decide (lvl = 0)) as [->|]; [left; change (gran 0) with 1 in Hhi; lia|right].
    pose proof (gran_succ (lvl - 1) ltac:(lia)) as Hg. replace (lvl - 1 + 1) with lvl in Hg by lia. lia.
Qed.

(** ** Concrete timers *)

(** A clock that advances [step] ms with each reading, up to 2^60 ns. *)
Definition step_clock (step : Z) (i : nat) : Z := Z.min (ns_of_millis step * Z.of_nat i) (2 ^ 60).

Lemma step_clock_ok step : 0 <= step -> clock_ok (step_clock step).
Proof.
  intros Hs. split.
  - intros i j Hij. unfold step_clock, ns_of_millis. apply Z.min_le_compat_r. nia.
  - intros i. unfold step_clock. cbn. lia.
Qed.

Abbreviation ZTimer := (Timer map_slab Z Z).

Definition final {A} (d : A) (p : M ZTimer A) : A * ZTimer :=
  match p (Timer_new 0) with Done r => r | Fault _ => (d, Timer_new 0) end.

(** A timer of 16 ms was set, polled, and the driver polled once. *)
Definition demo_set : ZTimer := (final None (run_op (step_clock 20) (step_clock 20) (TAdd 16))).2.
Definition demo_polled : ZTimer :=
  (final None (run_op (step_clock 20) (step_clock 20) (TAdd 16);;
               run_op (step_clock 20) (step_clock 20) (TPoll 1 7))).2.
Definition demo_slept : ZTimer :=
  (final None (run_op (step_clock 20) (step_clock 20) (TAdd 16);;
               run_op (step_clock 20) (step_clock 20) (TPoll 1 7);;
               run_op (step_clock 20) (step_clock 20) (TDrive 3))).2.

Lemma demo_polled_reachable :
  exists dls, reachable (step_clock 20) (step_clock 20) demo_polled dls.
Proof.
  eexists. eapply (reach_op _ _ demo_set _ (TPoll 1 7) None); [|vm_compute; reflexivity..].
  eapply (reach_op _ _ (Timer_new 0) ∅ (TAdd 16) (Some 1%nat)); [apply reach_new|vm_compute; reflexivity..].
Defined.


Lemma timer_operations_return_witness :
  exists r t', run_op (step_clock 20) (step_clock 20) (TDrive 3) demo_polled = Done (r, t') /\ WInv t'.
Proof.
  destruct demo_polled_reachable as [dls Hr].
  eapply (timer_operations_return (step_clock 20) (step_clock 20)); [by apply step_clock_ok|exact Hr|vm_compute; reflexivity..].
Defined.


Lemma driver_waits_for_next_witness :
  (t_next_expiry demo_slept = u64_max /\ forall no idx, ~ armed demo_slept no idx) \/
  (t_next_expiry demo_slept <> u64_max /\
   (let rest := (t_next_expiry demo_slept - t_elapsed demo_slept) * UNIT_NS in
    tick_time (step_clock 20) demo_slept + rest <= delay_deadline (tm_driver_sleep (t_inner demo_slept)) <=
      step_clock 20 (t_clock_reads demo_slept) + rest) /\
   forall no idx, armed demo_slept no idx -> t_next_expiry demo_slept <= bucket_expiry (t_elapsed demo_slept) idx).
Proof.
  destruct demo_polled_reachable as [dls Hr].
  eapply (driver_waits_for_next (step_clock 20) (step_clock 20) (step_clock_ok 20 ltac:(lia)) demo_polled dls 3 None demo_slept);
    [exact Hr|vm_compute; reflexivity|vm_compute; reflexivity].
Defined.

Lemma next_pending_is_earliest_witness :
  exists r, next_pending_bucket demo_polled = Done r /\ r = Some 2.
Proof.
  destruct demo_polled_reachable as [dls Hr].
  destruct (next_pending_is_earliest (step_clock 20) (step_clock 20) (step_clock_ok 20 ltac:(lia)) demo_polled dls Hr)
    as (r & Hx & _).
  exists r. split; [exact Hx|]. vm_compute in Hx. by injection Hx as <-.
Defined.

Lemma execute_fires_expired_witness :
  exists t', execute_expired_timers 2 demo_polled = Done (tt, t') /\
    timers_of t' = fire (fun i => bucket_expiry 2 i =? 2) <$> timers_of demo_polled.
Proof.
  destruct demo_polled_reachable as [dls Hr].
  destruct (execute_fires_expired (step_clock 20) (step_clock 20) (step_clock_ok 20 ltac:(lia)) demo_polled dls 2 Hr ltac:(lia))
    as (t' & Hx & Hts & _).
  exists t'. split; [exact Hx|exact Hts].
Defined.

Lemma reset_to_zero_does_not_wake_witness :
  exists e, timers_of demo_polled !! 1%nat = Some e /\
  (exists t', update_timer (step_clock 20) 1 0 demo_polled = Done (tt, t') /\ t_woken t' = t_woken demo_polled /\
    timers_of t' !! 1%nat = Some (mkTimerEntry None (te_bucket_entry e) (Some 7%nat))) /\
  (exists t', remove_timer 1 demo_polled = Done (tt, t') /\ t_woken t' = t_woken demo_polled ++ [7%nat]).
Proof.
  destruct demo_polled_reachable as [dls Hr]. exists (mkTimerEntry (Some 2) 0 (Some 7%nat)).
  split; [vm_compute; reflexivity|].
  eapply (reset_to_zero_does_not_wake (step_clock 20) (step_clock 20) (step_clock_ok 20 ltac:(lia)) demo_polled dls 1
    (mkTimerEntry (Some 2) 0 (Some 7%nat)) 7); [exact Hr|vm_compute; reflexivity|vm_compute; reflexivity|done|done].
Defined.

Lemma timer_placement_accuracy_witness :
  exists idx expiry, calc_wheel_index 1000 (wrapping_add64 1000 500) 500 = Done (idx, expiry) /\
    valid_bucket idx /\ expiry = bucket_expiry 1000 idx /\ 1000 + 500 < expiry /\
    (expiry <= 1000 + 500 + 1 \/ 63 * (expiry - (1000 + 500)) <= 8 * 500).
Proof. apply (timer_placement_accuracy 1000 500); vm_compute; split; congruence. Defined.

(** ** Two corners of the driver *)

(** A driver that is polled while idle, when its delay has long fired,
    sets the wheel's clock to [u64::MAX]: after that a timer of 1000 ms fires
    within 320 ms. *)
Theorem idle_poll_makes_timers_early :
  let c := step_clock 20 in
  let p := (add_timer c 16;; TimerDriver_poll c 9 3;; TimerDriver_poll c 9 3;; TimerDriver_poll c 9 3;;
            t ← getS;
            no ← add_timer c 1000; TimerDriver_poll c 9 3;; TimerDriver_poll c 9 3;;
            b ← handle_is_elapsed no; mret (t_elapsed t, b)) in
  match p (Timer_new 0 : ZTimer) with
  | Done (r, t') => r = (u64_max, true) /\ c (t_clock_reads t') = ns_of_millis 320
  | Fault _ => False
  end.
Proof. vm_compute. split; reflexivity. Qed.

(** [add_timer] writes its early copy of the flags back after [now] may
    have set [LOWRES_DRIVER].  When the driver had been started by resetting
    a zero timer, the flag is lost and a second low-resolution driver is
    spawned. *)
Theorem lowres_driver_spawned_twice :
  let c := step_clock 20 in
  let p := (no ← add_timer c 0; update_timer c no 5000;; add_timer c 16;;
            LowresTimerDriver_poll c 4;; LowresTimerDriver_poll c 4;; timer_now c) in
  match p (Timer_new 0 : ZTimer) with
  | Done (_, t') => t_spawned t' = [DTimer; DLowres; DLowres]
  | Fault _ => False
  end.
Proof. vm_compute. reflexivity. Qed.

(** [query_system_time] does start a driver: with timers running, no
    cached system time and no low-resolution driver yet, it spawns one. *)
Theorem query_system_time_starts_driver {T : Type -> Type} `{!Slab T} {F : Type} `{!Bitflags F} {D : Type} `{!Delay D}
    (clock system_clock : nat -> Z) (t : Timer T F D) :
  t_lowres_stime t = None -> has_flag RUNNING t = true -> has_flag LOWRES_DRIVER t = false ->
  exists n t', query_system_time clock system_clock t = Done (n, t') /\ t_spawned t' = t_spawned t ++ [DLowres].
Proof.
  intros Hs Hr Hl. unfold query_system_time, timer_system_time, mbind, M_bind, getS, system_now. cbn.
  rewrite Hs. cbn. rewrite Hr. cbn. rewrite Hl. eexists _, _. split; reflexivity.
Qed.

(** The state of [lowres_driver_spawned_twice] before its last call. *)
Definition demo_lost_flag : ZTimer :=
  let c := step_clock 20 in
  (final tt (no ← add_timer c 0; update_timer c no 5000;; add_timer c 16;;
             LowresTimerDriver_poll c 4;; LowresTimerDriver_poll c 4)).2.

Lemma query_system_time_starts_driver_witness :
  exists n t', query_system_time (step_clock 20) (step_clock 20) demo_lost_flag = Done (n, t') /\
    t_spawned t' = t_spawned demo_lost_flag ++ [DLowres].
Proof. apply (query_system_time_starts_driver (step_clock 20) (step_clock 20) demo_lost_flag); vm_compute; reflexivity. Defined.
