(* ===== verification/Delays.v ===== *)
(** * [util::time]: futures over the timer wheel

    Models geario/src/util/time/mod.rs: [Sleep], [Deadline], [Timeout],
    [TimeoutChecked] and [Interval].  A poll returns [Some] when it is ready
    and [None] when it is pending; the future a timeout wraps is a parameter,
    its state and its poll function. *)
From Stdlib Require Import ZArith Lia.
From stdpp Require Import base numbers gmap list.
From S2P Require Import Prelude Deps Task Wheel WheelArith WheelInv WheelRun WheelTime WheelDriver WheelProps.

Record Sleep := mkSleep { sl_hnd : nat }.
Record Deadline := mkDeadline { dl_hnd : option nat }.
Record Interval := mkInterval { iv_hnd : nat; iv_period : Z }.
Record Timeout (Fu : Type) := mkTimeout { to_value : Fu; to_delay : Sleep }.
Arguments mkTimeout {Fu}.
Arguments to_value {Fu}.
Arguments to_delay {Fu}.
Inductive TimeoutChecked (Fu : Type) := CTimeout (fut : Timeout Fu) | CNoTimeout (fut : Fu).
Arguments CTimeout {Fu}.
Arguments CNoTimeout {Fu}.

Section delays.
Context {T : Type -> Type} `{!Slab T} {F : Type} `{!Bitflags F} {D : Type} `{!Delay D}.
Context (clock : nat -> Z).
Abbreviation TM := (M (Timer T F D)).

(** ** [Sleep] *)
Definition sleep_new (duration : Z) : TM Sleep := hnd ← add_timer clock (Z.max duration 1); mret (mkSleep hnd).
Definition sleep_is_elapsed (s : Sleep) : TM bool := handle_is_elapsed (sl_hnd s).
Definition sleep_elapse (s : Sleep) : TM () := remove_timer (sl_hnd s).
Definition sleep_reset (s : Sleep) (millis : Z) : TM () := update_timer clock (sl_hnd s) millis.
Definition sleep_poll_elapsed (s : Sleep) (w : waker) : TM bool := handle_poll_elapsed (sl_hnd s) w.

(** ** [Deadline] *)
Definition deadline_new (duration : Z) : TM Deadline :=
  if negb (duration =? 0) then hnd ← add_timer clock duration; mret (mkDeadline (Some hnd))
  else mret (mkDeadline None).

(** The handle that [take] returns is dropped. *)
Definition deadline_reset (d : Deadline) (millis : Z) : TM Deadline :=
  if negb (millis =? 0) then
    match dl_hnd d with
    | Some hnd => update_timer clock hnd millis;; mret d
    | None => hnd ← add_timer clock millis; mret (mkDeadline (Some hnd))
    end
  else
    match dl_hnd d with Some hnd => handle_drop hnd | None => mret tt end;;
    mret (mkDeadline None).

Definition deadline_is_elapsed (d : Deadline) : TM bool :=
  match dl_hnd d with None => mret true | Some hnd => handle_is_elapsed hnd end.
Definition deadline_poll_elapsed (d : Deadline) (w : waker) : TM bool :=
  match dl_hnd d with None => mret false | Some hnd => handle_poll_elapsed hnd w end.

(** ** [Interval] *)
Definition interval_new (period : Z) : TM Interval := hnd ← add_timer clock period; mret (mkInterval hnd period).
Definition interval_poll_tick (i : Interval) (w : waker) : TM bool :=
  ready ← handle_poll_elapsed (iv_hnd i) w;
  if (ready : bool) then update_timer clock (iv_hnd i) (iv_period i);; mret true else mret false.

(** ** [Timeout] and [TimeoutChecked] *)
Section timeout.
Context {Fu A : Type} (poll : waker -> Fu -> TM (option A * Fu)).

Definition timeout_new_with_delay (value : Fu) (delay : Sleep) : Timeout Fu := mkTimeout value delay.

Definition timeout_poll (w : waker) (s : Timeout Fu) : TM (option (A + ()) * Timeout Fu) :=
  '(r, value) ← poll w (to_value s);
  let s := mkTimeout value (to_delay s) in
  match r with
  | Some v => mret (Some (inl v), s)
  | None =>
      elapsed ← sleep_poll_elapsed (to_delay s) w;
      mret (if (elapsed : bool) then Some (inr tt) else None, s)
  end.

Definition timeout_checked_new_with_delay (value : Fu) (delay : Z) : TM (TimeoutChecked Fu) :=
  if millis_is_zero delay then mret (CNoTimeout value)
  else s ← sleep_new delay; mret (CTimeout (timeout_new_with_delay value s)).

Definition timeout_checked_poll (w : waker) (c : TimeoutChecked Fu) : TM (option (A + ()) * TimeoutChecked Fu) :=
  match c with
  | CTimeout fut => '(r, fut) ← timeout_poll w fut; mret (r, CTimeout fut)
  | CNoTimeout fut => '(r, fut) ← poll w fut; mret (inl <$> r, CNoTimeout fut)
  end.
End timeout.
End delays.

(** ** Properties *)

Section props.
Context {T : Type -> Type} `{!Slab T} `{!SlabLaws T} {F : Type} `{!Bitflags F} `{!BitflagsLaws F}.
Context {D : Type} `{!Delay D} `{!DelayLaws D}.
Context (clock system_clock : nat -> Z) (Hclock : clock_ok clock).
Implicit Types t : Timer T F D.

Lemma poll_elapsed_runs t dls hnd e w :
  reachable clock system_clock t dls -> live t hnd = true -> timers_of t !! hnd = Some e ->
  exists t', handle_poll_elapsed hnd w t = Done (bool_decide (te_bucket e = None), t') /\ TInv clock t' dls /\
    t_woken t' = t_woken t /\
    (te_bucket e <> None -> timers_of t' !! hnd = Some (mkTimerEntry (te_bucket e) (te_bucket_entry e) (Some w))) /\
    (te_bucket e = None -> timers_of t' = timers_of t).
Proof.
  intros Hr Hl He. apply live_some in Hl as [Hz _].
  destruct (poll_elapsed_spec clock t dls hnd e w (reachable_inv _ _ Hclock _ _ Hr) He Hz) as (b & t' & Hp & HT & -> & Hw & Hts).
  exists t'. split; [done|]. split; [done|]. split; [done|]. split; intros Hb.
  - rewrite bool_decide_eq_false_2 in Hts by done. by rewrite Hts, lookup_insert_eq.
  - by rewrite bool_decide_eq_true_2 in Hts.
Qed.

(** A timeout gives the value of its future whenever that is ready, and
    an error exactly when the future is pending and the timer has elapsed;
    otherwise it is pending with the task registered, so that the timer will
    wake it. *)
Theorem timeout_poll_outcome {Fu A} (poll : waker -> Fu -> M (Timer T F D) (option A * Fu))
    t dls w (s : Timeout Fu) r fu t1 e :
  poll w (to_value s) t = Done ((r, fu), t1) ->
  reachable clock system_clock t1 dls -> live t1 (sl_hnd (to_delay s)) = true ->
  timers_of t1 !! sl_hnd (to_delay s) = Some e ->
  exists t', timeout_poll poll w s t =
      Done ((match r with
             | Some v => Some (inl v)
             | None => if bool_decide (te_bucket e = None) then Some (inr tt) else None
             end, mkTimeout fu (to_delay s)), t') /\
    (r = None -> te_bucket e <> None ->
     exists e', timers_of t' !! sl_hnd (to_delay s) = Some e' /\ te_task e' = Some w /\ te_bucket e' = te_bucket e).
Proof.
  intros Hp Hr Hl He. unfold timeout_poll, mbind, M_bind. rewrite Hp. destruct r as [v|]; [by exists t1|]. cbn.
  destruct (poll_elapsed_runs t1 dls _ e w Hr Hl He) as (t' & Hx & _ & _ & Harm & _).
  unfold sleep_poll_elapsed. rewrite Hx. exists t'. split; [done|]. intros _ Hb. eexists. split; [by apply Harm|done].
Qed.

(** Polling an interval whose timer has elapsed is ready, and sets the
    timer again: the timer is armed, and its new deadline is a full period
    (within the capacity of the wheel) from the low-resolution time. *)
Theorem interval_tick_rearms t dls (i : Interval) e w :
  reachable clock system_clock t dls -> live t (iv_hnd i) = true ->
  timers_of t !! iv_hnd i = Some e -> te_bucket e = None -> 0 < iv_period i < 2 ^ 32 ->
  exists t' idx, interval_poll_tick clock i w t = Done (true, t') /\ armed t' (iv_hnd i) idx /\
    TInv clock t' (<[iv_hnd i := deadline clock t (iv_period i)]> dls).
Proof.
  intros Hr Hl He Hb Hp. apply live_some in Hl as [Hz _].
  destruct (update_timer_spec clock Hclock t dls (iv_hnd i) e (iv_period i) (reachable_inv _ _ Hclock _ _ Hr) He Hz Hp)
    as ([] & t' & Hu & HT & idx & Ha).
  exists t', idx. split; [|done]. unfold interval_poll_tick, handle_poll_elapsed, mbind, M_bind.
  rewrite (timer_at_eq t (iv_hnd i) e He), Hb. cbn. by rewrite Hu.
Qed.
End props.

(** A future that is never ready. *)
Definition never (w : waker) (u : ()) : M ZTimer (option () * ()) := mret (None, tt).

Lemma timeout_poll_outcome_witness :
  exists t', timeout_poll never 9 (mkTimeout tt (mkSleep 1)) demo_polled = Done ((None, mkTimeout tt (mkSleep 1)), t') /\
    exists e', timers_of t' !! 1%nat = Some e' /\ te_task e' = Some 9%nat /\ te_bucket e' = Some 2.
Proof.
  destruct demo_polled_reachable as [dls Hr].
  destruct (timeout_poll_outcome (step_clock 20) (step_clock 20) (step_clock_ok 20 ltac:(lia)) never demo_polled dls 9
    (mkTimeout tt (mkSleep 1)) None tt demo_polled (mkTimerEntry (Some 2) 0 (Some 7%nat))) as (t' & Hx & Hreg);
    [reflexivity|exact Hr|vm_compute; reflexivity|vm_compute; reflexivity|].
  exists t'. split; [exact Hx|]. by apply Hreg.
Defined.

(** An interval whose first period is over. *)
Definition demo_interval : ZTimer := (final None (run_op (step_clock 20) (step_clock 20) (TAdd 0))).2.

Lemma interval_tick_rearms_witness :
  exists t' idx, interval_poll_tick (step_clock 20) (mkInterval 1 250) 5 demo_interval = Done (true, t') /\
    armed t' 1 idx.
Proof.
  assert (reachable (step_clock 20) (step_clock 20) demo_interval ∅) as Hr.
  { eapply (reach_op _ _ (Timer_new 0) ∅ (TAdd 0) (Some 1%nat)); [apply reach_new|vm_compute; reflexivity..]. }
  destruct (interval_tick_rearms (step_clock 20) (step_clock 20) (step_clock_ok 20 ltac:(lia)) demo_interval ∅
    (mkInterval 1 250) (mkTimerEntry None 0 None) 5) as (t' & idx & Hx & Ha & _);
    [exact Hr|vm_compute; reflexivity|vm_compute; reflexivity|reflexivity|cbn; lia|].
  exists t', idx. split; [exact Hx|exact Ha].
Defined.

(** Other tasks read the clock [n] times. *)
Fixpoint time_passes (c : nat -> Z) (n : nat) : M ZTimer () :=
  match n with O => mret tt | S n => instant_now c;; time_passes c n end.

(** A sleep can be shorter than one tick of 16 ms.  The wheel is busy with
    a timer of 48 ms and its last tick was 13 ms ago; the low-resolution time
    is fresh.  A sleep of 0 ms then gets the bucket of the next tick, and has
    elapsed 8 ms later. *)
Theorem sleep_zero_shorter_than_tick :
  let c := step_clock 1 in
  let p := (sleep_new c 48;; LowresTimerDriver_poll c 4;; time_passes c 5;;
            LowresTimerDriver_poll c 4;; time_passes c 3;;
            before ← getsS t_clock_reads;
            s ← sleep_new c 0;
            t ← getS;
            TimerDriver_poll c 9 3;; TimerDriver_poll c 9 3;;
            b ← sleep_is_elapsed s;
            after ← getsS t_clock_reads;
            mret (bool_decide (t_lowres_time t = Some (c before)), b, c after - c before)) in
  match p (Timer_new 0 : ZTimer) with
  | Done (r, _) => r = (true, true, ns_of_millis 8)
  | Fault _ => False
  end.
Proof. vm_compute. reflexivity. Qed.
