(* ===== verification/Channels.v ===== *)
(** * [util::channel]: oneshot, mpsc, inplace and byte-stream channels

    Models geario/src/util/channel/{oneshot,mpsc,inplace,bstream}.rs.  The
    state of a channel is the shared cell together with the handles that are
    alive, which give the strong and weak counts, and the wakers woken so far.
    A poll returns [None] when it is pending. *)
From Stdlib Require Import ZArith Lia.
From stdpp Require Import base numbers list relations.
From S2P Require Import Prelude Deps Task.

Inductive Canceled := canceled.

(** ** [oneshot] *)

Record Oneshot (A : Type) := mkOneshot {
  os_value : option A;
  os_rx_task : LocalWaker;
  os_sender : bool;
  os_receiver : bool;
  os_woken : list waker;
}.
Arguments mkOneshot {A}.
Arguments os_value {A}.
Arguments os_rx_task {A}.
Arguments os_sender {A}.
Arguments os_receiver {A}.
Arguments os_woken {A}.

Section oneshot.
Context {A : Type}.
Implicit Types s : Oneshot A.

Definition os_channel : Oneshot A := mkOneshot None lw_new true true [].
Definition os_strong_count s : nat := (if os_sender s then 1 else 0) + (if os_receiver s then 1 else 0).
Definition os_wake s : Oneshot A :=
  mkOneshot (os_value s) (lw_wake (os_rx_task s)).2 (os_sender s) (os_receiver s)
    (os_woken s ++ (lw_wake (os_rx_task s)).1).

(** [Drop] for [Sender], then the release of its cell. *)
Definition os_sender_drop s : Oneshot A :=
  let s := os_wake s in mkOneshot (os_value s) (os_rx_task s) false (os_receiver s) (os_woken s).

(** [send] consumes the sender, which is dropped at its end. *)
Definition os_send (val : A) s : (() + A) * Oneshot A :=
  if (os_strong_count s =? 2)%nat then
    let s := os_wake (mkOneshot (Some val) (os_rx_task s) (os_sender s) (os_receiver s) (os_woken s)) in
    (inl tt, os_sender_drop s)
  else (inr val, os_sender_drop s).

Definition os_is_canceled s : bool := (os_strong_count s =? 1)%nat.

Definition os_poll_recv (w : waker) s : option (A + Canceled) * Oneshot A :=
  match os_value s with
  | Some val => (Some (inl val), mkOneshot None (os_rx_task s) (os_sender s) (os_receiver s) (os_woken s))
  | None =>
      if (os_strong_count s =? 1)%nat then (Some (inr canceled), s)
      else (None, mkOneshot None (lw_register w (os_rx_task s)).2 (os_sender s) (os_receiver s) (os_woken s))
  end.

Definition os_receiver_drop s : Oneshot A :=
  mkOneshot (os_value s) (os_rx_task s) (os_sender s) false (os_woken s).
End oneshot.

(** ** [mpsc] *)

Record Mpsc (A : Type) := mkMpsc {
  mp_buffer : list A;
  mp_blocked_recv : LocalWaker;
  mp_has_receiver : bool;
  mp_senders : nat;
  mp_receiver : bool;
  mp_woken : list waker;
}.
Arguments mkMpsc {A}.
Arguments mp_buffer {A}.
Arguments mp_blocked_recv {A}.
Arguments mp_has_receiver {A}.
Arguments mp_senders {A}.
Arguments mp_receiver {A}.
Arguments mp_woken {A}.

Section mpsc.
Context {A : Type}.
Implicit Types s : Mpsc A.

Definition mp_channel : Mpsc A := mkMpsc [] lw_new true 1 true [].
Definition mp_strong_count s : nat := mp_senders s + (if mp_receiver s then 1 else 0).
Definition mp_wake s : Mpsc A :=
  mkMpsc (mp_buffer s) (lw_wake (mp_blocked_recv s)).2 (mp_has_receiver s) (mp_senders s) (mp_receiver s)
    (mp_woken s ++ (lw_wake (mp_blocked_recv s)).1).
Definition mp_set_buffer b s : Mpsc A :=
  mkMpsc b (mp_blocked_recv s) (mp_has_receiver s) (mp_senders s) (mp_receiver s) (mp_woken s).
Definition mp_set_has_receiver b s : Mpsc A :=
  mkMpsc (mp_buffer s) (mp_blocked_recv s) b (mp_senders s) (mp_receiver s) (mp_woken s).
Definition mp_set_senders n s : Mpsc A :=
  mkMpsc (mp_buffer s) (mp_blocked_recv s) (mp_has_receiver s) n (mp_receiver s) (mp_woken s).

Definition mp_send (item : A) s : (() + A) * Mpsc A :=
  if negb (mp_has_receiver s) then (inr item, s)
  else (inl tt, mp_wake (mp_set_buffer (mp_buffer s ++ [item]) s)).
Definition mp_sender_close s : Mpsc A := mp_wake (mp_set_has_receiver false s).
Definition mp_is_closed s : bool := (mp_strong_count s =? 1)%nat || negb (mp_has_receiver s).
Definition mp_sender_clone s : Mpsc A := mp_set_senders (S (mp_senders s)) s.
Definition mp_sender_drop s : Mpsc A :=
  let s := if mp_has_receiver s && (mp_strong_count s =? 2)%nat then mp_wake s else s in
  mp_set_senders (pred (mp_senders s)) s.
Definition mp_receiver_sender s : Mpsc A := mp_set_senders (S (mp_senders s)) s.
Definition mp_receiver_close s : Mpsc A := mp_set_has_receiver false s.

Definition mp_poll_recv (w : waker) s : option (option A) * Mpsc A :=
  match mp_buffer s with
  | msg :: rest => (Some (Some msg), mp_set_buffer rest s)
  | [] =>
      if mp_has_receiver s then
        let s := mkMpsc (mp_buffer s) (lw_register w (mp_blocked_recv s)).2 (mp_has_receiver s)
                   (mp_senders s) (mp_receiver s) (mp_woken s) in
        if (mp_strong_count s =? 1)%nat then (Some None, s) else (None, s)
      else (Some None, s)
  end.

Definition mp_receiver_drop s : Mpsc A :=
  mkMpsc [] (mp_blocked_recv s) false (mp_senders s) false (mp_woken s).
End mpsc.

(** ** [inplace] *)

Record Inplace (A : Type) := mkInplace { ip_value : option A; ip_rx_task : LocalWaker; ip_woken : list waker }.
Arguments mkInplace {A}.
Arguments ip_value {A}.
Arguments ip_rx_task {A}.
Arguments ip_woken {A}.

Section inplace.
Context {A : Type}.
Implicit Types s : Inplace A.

Definition ip_channel : Inplace A := mkInplace None lw_new [].
Definition ip_send (val : A) s : (() + A) * Inplace A :=
  match ip_value s with
  | Some v => (inr val, mkInplace (Some v) (ip_rx_task s) (ip_woken s))
  | None => (inl tt, mkInplace (Some val) (lw_wake (ip_rx_task s)).2 (ip_woken s ++ (lw_wake (ip_rx_task s)).1))
  end.
Definition ip_poll_recv (w : waker) s : option A * Inplace A :=
  match ip_value s with
  | Some val => (Some val, mkInplace None (ip_rx_task s) (ip_woken s))
  | None => (None, mkInplace None (lw_register w (ip_rx_task s)).2 (ip_woken s))
  end.
End inplace.

(** ** [bstream] *)

Definition BS_EOF : Z := 1.
Definition BS_ERROR : Z := 2.
Definition BS_NEED_READ : Z := 4.
Definition BS_SENDER_GONE : Z := 8.
Definition MAX_BUFFER_SIZE : Z := 32768.

Inductive Status := SEof | SReady | SDropped.

(** Chunks are given by their contents. *)
Record Bstream (F E : Type) := mkBstream {
  bs_len : Z;
  bs_flags : F;
  bs_err : option E;
  bs_items : list (list Z);
  bs_max_buffer_size : Z;
  bs_recv_task : LocalWaker;
  bs_send_task : LocalWaker;
  bs_senders : nat;
  bs_receiver : bool;
  bs_woken : list waker;
}.
Arguments mkBstream {F E}.
Arguments bs_len {F E}.
Arguments bs_flags {F E}.
Arguments bs_err {F E}.
Arguments bs_items {F E}.
Arguments bs_max_buffer_size {F E}.
Arguments bs_recv_task {F E}.
Arguments bs_send_task {F E}.
Arguments bs_senders {F E}.
Arguments bs_receiver {F E}.
Arguments bs_woken {F E}.

Section bstream.
Context {F : Type} `{!Bitflags F} {E : Type}.
Implicit Types s : Bstream F E.

Definition bs_set_flags f s : Bstream F E := mkBstream (bs_len s) f (bs_err s) (bs_items s) (bs_max_buffer_size s)
  (bs_recv_task s) (bs_send_task s) (bs_senders s) (bs_receiver s) (bs_woken s).
Definition bs_set_err e s : Bstream F E := mkBstream (bs_len s) (bs_flags s) e (bs_items s) (bs_max_buffer_size s)
  (bs_recv_task s) (bs_send_task s) (bs_senders s) (bs_receiver s) (bs_woken s).
Definition bs_set_items n l s : Bstream F E := mkBstream n (bs_flags s) (bs_err s) l (bs_max_buffer_size s)
  (bs_recv_task s) (bs_send_task s) (bs_senders s) (bs_receiver s) (bs_woken s).
Definition bs_max_buffer_size_set n s : Bstream F E := mkBstream (bs_len s) (bs_flags s) (bs_err s) (bs_items s) n
  (bs_recv_task s) (bs_send_task s) (bs_senders s) (bs_receiver s) (bs_woken s).
Definition bs_set_handles n r s : Bstream F E := mkBstream (bs_len s) (bs_flags s) (bs_err s) (bs_items s) (bs_max_buffer_size s)
  (bs_recv_task s) (bs_send_task s) n r (bs_woken s).
Definition bs_register_recv (w : waker) s : Bstream F E := mkBstream (bs_len s) (bs_flags s) (bs_err s) (bs_items s)
  (bs_max_buffer_size s) (lw_register w (bs_recv_task s)).2 (bs_send_task s) (bs_senders s) (bs_receiver s) (bs_woken s).
Definition bs_register_send (w : waker) s : Bstream F E := mkBstream (bs_len s) (bs_flags s) (bs_err s) (bs_items s)
  (bs_max_buffer_size s) (bs_recv_task s) (lw_register w (bs_send_task s)).2 (bs_senders s) (bs_receiver s) (bs_woken s).
Definition bs_wake_recv s : Bstream F E := mkBstream (bs_len s) (bs_flags s) (bs_err s) (bs_items s) (bs_max_buffer_size s)
  (lw_wake (bs_recv_task s)).2 (bs_send_task s) (bs_senders s) (bs_receiver s)
  (bs_woken s ++ (lw_wake (bs_recv_task s)).1).
Definition bs_wake_send s : Bstream F E := mkBstream (bs_len s) (bs_flags s) (bs_err s) (bs_items s) (bs_max_buffer_size s)
  (bs_recv_task s) (lw_wake (bs_send_task s)).2 (bs_senders s) (bs_receiver s)
  (bs_woken s ++ (lw_wake (bs_send_task s)).1).

(** [Inner] *)
Definition bs_new (eof : bool) : Bstream F E :=
  mkBstream 0 (fl_of (if eof then BS_EOF else BS_NEED_READ)) None [] MAX_BUFFER_SIZE lw_new lw_new 1 true [].
Definition bs_channel : Bstream F E := bs_new false.
Definition bs_eof : Bstream F E := bs_new true.
Definition bs_insert_flag (bits : Z) s : Bstream F E := bs_set_flags (fl_insert (bs_flags s) (fl_of bits)) s.
Definition bs_remove_flag (bits : Z) s : Bstream F E := bs_set_flags (fl_remove (bs_flags s) (fl_of bits)) s.

Definition bs_inner_set_error (err : E) s : Bstream F E :=
  bs_wake_send (bs_wake_recv (bs_insert_flag BS_ERROR (bs_set_err (Some err) s))).
Definition bs_inner_feed_eof s : Bstream F E := bs_wake_send (bs_wake_recv (bs_insert_flag BS_EOF s)).
Definition bs_inner_feed_data (data : list Z) s : Bstream F E :=
  let len := bs_len s + zlen data in
  let s := bs_wake_recv (bs_set_items len (bs_items s ++ [data]) s) in
  if bs_max_buffer_size s <=? len then bs_remove_flag BS_NEED_READ s else s.
Definition bs_get_data s : option (list Z) * Bstream F E :=
  match bs_items s with
  | [] => (None, s)
  | data :: rest =>
      let len := bs_len s - zlen data in
      let s := bs_set_items len rest s in
      (Some data, if len <? bs_max_buffer_size s then bs_wake_send (bs_insert_flag BS_NEED_READ s) else s)
  end.
Definition bs_unread_data (data : list Z) s : Bstream F E :=
  if negb (zlen data =? 0) then bs_set_items (bs_len s + zlen data) (data :: bs_items s) s else s.

(** [empty]: a closed stream with some data. *)
Definition bs_empty (data : option (list Z)) : Bstream F E :=
  let s := bs_set_handles 0 true (bs_new true) in
  match data with Some data => bs_unread_data data s | None => s end.

(** [Receiver] *)
Definition bs_put (data : list Z) s : Bstream F E := bs_unread_data data s.
Definition bs_is_eof s : bool := fl_contains (bs_flags s) (fl_of BS_EOF).
Definition bs_poll_read (w : waker) s : option (option (list Z + E)) * Bstream F E :=
  match bs_get_data s with
  | (Some data, s) => (Some (Some (inl data)), s)
  | (None, s) =>
      match bs_err s with
      | Some err => (Some (Some (inr err)), bs_insert_flag BS_EOF (bs_set_err None s))
      | None =>
          if fl_intersects (bs_flags s) (fl_of (Z.lor BS_EOF BS_ERROR)) then (Some None, s)
          else (None, bs_register_recv w s)
      end
  end.
Definition bs_receiver_drop s : Bstream F E := bs_set_handles (bs_senders s) false (bs_wake_send s).

(** [Sender], a weak reference: it acts while the receiver is alive. *)
Definition bs_weak_count s : nat := if bs_receiver s then bs_senders s else 0.
Definition bs_upgraded (f : Bstream F E -> Bstream F E) s : Bstream F E := if bs_receiver s then f s else s.
Definition bs_sender_clone s : Bstream F E := bs_set_handles (S (bs_senders s)) (bs_receiver s) s.
Definition bs_sender_drop s : Bstream F E :=
  let s := if (bs_weak_count s =? 1)%nat
           then bs_upgraded (bs_insert_flag (Z.lor BS_EOF BS_SENDER_GONE)) s else s in
  bs_set_handles (pred (bs_senders s)) (bs_receiver s) s.
Definition bs_is_closed s : bool := negb (bs_receiver s).
Definition bs_set_error (err : E) s : Bstream F E := bs_upgraded (bs_inner_set_error err) s.
Definition bs_feed_eof s : Bstream F E := bs_upgraded bs_inner_feed_eof s.
Definition bs_feed_data (data : list Z) s : Bstream F E := bs_upgraded (bs_inner_feed_data data) s.
Definition bs_poll_ready (w : waker) s : option Status * Bstream F E :=
  if bs_receiver s then
    if fl_contains (bs_flags s) (fl_of BS_NEED_READ) then (Some SReady, s)
    else if fl_contains (bs_flags s) (fl_of (Z.lor BS_SENDER_GONE BS_ERROR)) then (Some SDropped, s)
    else if fl_intersects (bs_flags s) (fl_of BS_EOF) then (Some SEof, s)
    else (None, bs_register_send w s)
  else (Some SDropped, s).
End bstream.
