(* ===== verification/Waiters.v ===== *)
(** * [util::channel]: condition variables and pools of oneshots

    Models geario/src/util/channel/{condition,pool}.rs.  Both keep their
    entries in a slab that the handles index without a bounds check
    ([get_unchecked_mut]); an access to a vacant key is the fault
    [Undefined].  [slab.remove] of a vacant key panics. *)
From Stdlib Require Import ZArith Lia.
From stdpp Require Import base numbers gmap list.
From S2P Require Import Prelude Deps Task Channels.

(** ** [condition] *)

Record CItem (A : Type) := mkCItem { ci_val : A; ci_waker : LocalWaker }.
Arguments mkCItem {A}.
Arguments ci_val {A}.
Arguments ci_waker {A}.

Record Condition (T : Type -> Type) (A : Type) := mkCondition {
  cd_data : T (option (CItem A));
  cd_ready : bool;
  cd_count : nat;
  cd_woken : list waker;
}.
Arguments mkCondition {T A}.
Arguments cd_data {T A}.
Arguments cd_ready {T A}.
Arguments cd_count {T A}.
Arguments cd_woken {T A}.

Section condition.
Context {T : Type -> Type} `{!Slab T} {A : Type} (default_val : A).
Abbreviation CM := (M (Condition T A)).
Implicit Types s : Condition T A.

Definition cd_new : Condition T A := mkCondition slab_default false 1 [].
Definition cd_set_data d s : Condition T A := mkCondition d (cd_ready s) (cd_count s) (cd_woken s).
Definition cd_set_ready b s : Condition T A := mkCondition (cd_data s) b (cd_count s) (cd_woken s).
Definition cd_set_count n s : Condition T A := mkCondition (cd_data s) (cd_ready s) n (cd_woken s).
Definition cd_add_woken ws s : Condition T A := mkCondition (cd_data s) (cd_ready s) (cd_count s) (cd_woken s ++ ws).

Definition cd_clone : CM () := modifyS (fun s => cd_set_count (S (cd_count s)) s).

(** A new waiter: its token. *)
Definition cd_wait : CM nat :=
  s ← getS;
  let (token, d) := slab_insert None (cd_data s) in
  putS (cd_set_data d s);; mret token.
Definition waiter_clone : CM nat := cd_wait.

(** Waking the item at key [k]; [val] is stored if a waker was there. *)
Definition cd_notify_item (k : nat) : CM () := fun s =>
  match slab_get k (cd_data s) with
  | Some (Some item) =>
      let (ws, lw) := lw_wake (ci_waker item) in
      Done (tt, cd_add_woken ws (cd_set_data (slab_set k (Some (mkCItem (ci_val item) lw)) (cd_data s)) s))
  | _ => Done (tt, s)
  end.
Definition cd_notify_item_with (val : A) (k : nat) : CM () := fun s =>
  match slab_get k (cd_data s) with
  | Some (Some item) =>
      let '(woke, (ws, lw)) := lw_wake_checked (ci_waker item) in
      let v := if (woke : bool) then val else ci_val item in
      Done (tt, cd_add_woken ws (cd_set_data (slab_set k (Some (mkCItem v lw)) (cd_data s)) s))
  | _ => Done (tt, s)
  end.
Fixpoint cd_for_each (f : nat -> CM ()) (ks : list nat) : CM () :=
  match ks with [] => mret tt | k :: ks => f k;; cd_for_each f ks end.

Definition cd_notify : CM () := s ← getS; cd_for_each cd_notify_item (slab_keys (cd_data s)).
Definition cd_notify_with (val : A) : CM () := s ← getS; cd_for_each (cd_notify_item_with val) (slab_keys (cd_data s)).
Definition cd_notify_and_lock_readiness : CM () := modifyS (cd_set_ready true);; cd_notify.
Definition cd_notify_with_and_lock_readiness (val : A) : CM () := modifyS (cd_set_ready true);; cd_notify_with val.

(** [inner.count -= 1] does not underflow while a condition is alive. *)
Definition cd_drop : CM () :=
  modifyS (fun s => cd_set_count (pred (cd_count s)) s);;
  s ← getS;
  if (cd_count s =? 0)%nat then cd_notify_and_lock_readiness else mret tt.

Definition waiter_poll_ready (token : nat) (w : waker) : CM (option A) := fun s =>
  match slab_get token (cd_data s) with
  | None => Fault Undefined
  | Some None =>
      let s := cd_set_data (slab_set token (Some (mkCItem default_val (lw_register w lw_new).2)) (cd_data s)) s in
      Done (if cd_ready s then Some default_val else None, s)
  | Some (Some item) =>
      let (was_set, lw) := lw_register w (ci_waker item) in
      if negb was_set then
        Done (Some (ci_val item), cd_set_data (slab_set token (Some (mkCItem default_val lw)) (cd_data s)) s)
      else
        let s := cd_set_data (slab_set token (Some (mkCItem (ci_val item) lw)) (cd_data s)) s in
        Done (if cd_ready s then Some default_val else None, s)
  end.

Definition waiter_drop (token : nat) : CM () := fun s =>
  if slab_contains token (cd_data s) then Done (tt, cd_set_data (slab_remove token (cd_data s)) s) else Fault Panic.
End condition.

(** ** [pool] *)

Definition PL_SENDER : Z := 1.
Definition PL_RECEIVER : Z := 2.

Record PInner (F A : Type) := mkPInner {
  pi_flags : F;
  pi_value : option A;
  pi_tx_waker : LocalWaker;
  pi_rx_waker : LocalWaker;
}.
Arguments mkPInner {F A}.
Arguments pi_flags {F A}.
Arguments pi_value {F A}.
Arguments pi_tx_waker {F A}.
Arguments pi_rx_waker {F A}.

Record Pool (T : Type -> Type) (F A : Type) := mkPool { pl_slab : T (PInner F A); pl_woken : list waker }.
Arguments mkPool {T F A}.
Arguments pl_slab {T F A}.
Arguments pl_woken {T F A}.

Section pool.
Context {T : Type -> Type} `{!Slab T} {F : Type} `{!Bitflags F} {A : Type}.
Abbreviation PM := (M (Pool T F A)).
Implicit Types s : Pool T F A.

Definition pl_new : Pool T F A := mkPool slab_default [].

(** A sender and a receiver with the same token. *)
Definition pl_channel : PM nat :=
  s ← getS;
  let (token, sl) := slab_insert (mkPInner (fl_of (Z.lor PL_SENDER PL_RECEIVER)) None lw_new lw_new) (pl_slab s) in
  putS (mkPool sl (pl_woken s));; mret token.

Definition pl_get_inner (token : nat) : PM (PInner F A) := fun s =>
  match slab_get token (pl_slab s) with Some i => Done (i, s) | None => Fault Undefined end.
Definition pl_set (token : nat) (i : PInner F A) (ws : list waker) : PM () :=
  modifyS (fun s => mkPool (slab_set token i (pl_slab s)) (pl_woken s ++ ws)).
Definition pl_remove (token : nat) : PM () := fun s =>
  if slab_contains token (pl_slab s) then Done (tt, mkPool (slab_remove token (pl_slab s)) (pl_woken s)) else Fault Panic.

Definition pl_sender_drop (token : nat) : PM () :=
  i ← pl_get_inner token;
  if fl_contains (pi_flags i) (fl_of PL_RECEIVER) then
    pl_set token (mkPInner (fl_remove (pi_flags i) (fl_of PL_SENDER)) (pi_value i) (pi_tx_waker i)
                    (lw_wake (pi_rx_waker i)).2) (lw_wake (pi_rx_waker i)).1
  else pl_remove token.

(** [send] consumes the sender. *)
Definition pl_send (token : nat) (val : A) : PM (() + A) :=
  i ← pl_get_inner token;
  r ← (if fl_contains (pi_flags i) (fl_of PL_RECEIVER) then
         pl_set token (mkPInner (pi_flags i) (Some val) (pi_tx_waker i) (lw_wake (pi_rx_waker i)).2)
           (lw_wake (pi_rx_waker i)).1;;
         mret (inl tt)
       else mret (inr val));
  pl_sender_drop token;; mret r.

Definition pl_is_canceled (token : nat) : PM bool :=
  i ← pl_get_inner token; mret (negb (fl_contains (pi_flags i) (fl_of PL_RECEIVER))).

Definition pl_poll_canceled (token : nat) (w : waker) : PM bool :=
  i ← pl_get_inner token;
  if fl_contains (pi_flags i) (fl_of PL_RECEIVER) then
    pl_set token (mkPInner (pi_flags i) (pi_value i) (lw_register w (pi_tx_waker i)).2 (pi_rx_waker i)) [];;
    mret false
  else mret true.

Definition pl_poll_recv (token : nat) (w : waker) : PM (option (A + Canceled)) :=
  i ← pl_get_inner token;
  match pi_value i with
  | Some val =>
      pl_set token (mkPInner (pi_flags i) None (pi_tx_waker i) (pi_rx_waker i)) [];; mret (Some (inl val))
  | None =>
      if fl_contains (pi_flags i) (fl_of PL_SENDER) then
        pl_set token (mkPInner (pi_flags i) None (pi_tx_waker i) (lw_register w (pi_rx_waker i)).2) [];; mret None
      else mret (Some (inr canceled))
  end.

Definition pl_receiver_drop (token : nat) : PM () :=
  i ← pl_get_inner token;
  if fl_contains (pi_flags i) (fl_of PL_SENDER) then
    pl_set token (mkPInner (fl_remove (pi_flags i) (fl_of PL_RECEIVER)) (pi_value i)
                    (lw_wake (pi_tx_waker i)).2 (pi_rx_waker i)) (lw_wake (pi_tx_waker i)).1
  else pl_remove token.
End pool.
