(* ===== verification/ChannelProps.v ===== *)
(** * Guarantees of the channels

    Wake-ups: a task that polled a receiver and was told to wait is woken by
    the time another poll would be ready, whatever the sending side does in
    between.  Contents: messages arrive in order, once. *)
From Stdlib Require Import ZArith Lia.
From stdpp Require Import base numbers gmap list relations.
From S2P Require Import Prelude Deps Task Channels Waiters.

(** ** Wake-ups

    A channel seen by a task that waits on it: the slot of its waker, whether
    a poll would be ready, and the steps of the other side. *)
Class Parking (C : Type) := {
  pk_slot : C -> LocalWaker;
  pk_ready : C -> bool;
  pk_woken : C -> list waker;
  pk_step : C -> C -> Prop;
}.

Definition parked {C : Type} `{!Parking C} (s : C) (w : waker) : Prop := pk_slot s = Some w /\ pk_ready s = false.

(** Each step wakes the waiting task or leaves it waiting for good reason. *)
Class ParkingLaws (C : Type) `{Parking C} : Prop :=
  pk_law (s s' : C) : pk_step s s' ->
    exists ws, pk_woken s' = pk_woken s ++ ws /\ forall w, parked s w -> parked s' w \/ w ∈ ws.

Section parking.
Context {C : Type} `{!Parking C} `{!ParkingLaws C}.

Lemma woken_grows (s s' : C) : rtc pk_step s s' -> exists ws, pk_woken s' = pk_woken s ++ ws.
Proof.
  induction 1 as [s|s s1 s2 H1 _ [ws IH]]; [exists []; by rewrite app_nil_r|].
  destruct (pk_law s s1 H1) as (ws1 & Hw & _). exists (ws1 ++ ws). by rewrite IH, Hw, app_assoc.
Qed.

Lemma parked_or_woken (s s' : C) w :
  rtc pk_step s s' -> parked s w -> parked s' w \/ exists ws, pk_woken s' = pk_woken s ++ ws /\ w ∈ ws.
Proof.
  intros Hst Hp. induction Hst as [s|s s1 s2 H1 Hst IH]; [by left|].
  destruct (pk_law s s1 H1) as (ws & Hw & Hall). destruct (Hall w Hp) as [Hp1|Hin].
  - destruct (IH Hp1) as [?|(ws' & Hw' & Hin)]; [by left|right]. exists (ws ++ ws'). rewrite Hw', Hw, app_assoc.
    split; [done|]. apply elem_of_app. by right.
  - right. destruct (woken_grows s1 s2 Hst) as [ws' Hw']. exists (ws ++ ws'). rewrite Hw', Hw, app_assoc.
    split; [done|]. apply elem_of_app. by left.
Qed.

Lemma no_lost_wakeup (s s' : C) w :
  rtc pk_step s s' -> parked s w -> pk_ready s' = true ->
  exists ws, pk_woken s' = pk_woken s ++ ws /\ w ∈ ws.
Proof. intros Hst Hp Hr. destruct (parked_or_woken s s' w Hst Hp) as [[_ ?]|?]; [congruence|done]. Qed.
End parking.

Definition is_ready {A} (r : option A) : bool := match r with Some _ => true | None => false end.

Lemma is_ready_some {A} (r : option A) : r <> None -> is_ready r = true.
Proof. by destruct r. Qed.

(** Two ways to discharge the law for a step. *)
Lemma law_wakes (lw : LocalWaker) (l l' : list waker) (P Q : waker -> Prop) :
  l' = l ++ (lw_wake lw).1 -> (forall w, P w -> lw = Some w) ->
  exists ws, l' = l ++ ws /\ forall w, P w -> Q w \/ w ∈ ws.
Proof.
  intros -> HP. eexists. split; [done|]. intros w ->%HP. right. by left.
Qed.
Lemma law_keeps (l l' : list waker) (P Q : waker -> Prop) :
  l' = l -> (forall w, P w -> Q w) -> exists ws, l' = l ++ ws /\ forall w, P w -> Q w \/ w ∈ ws.
Proof. intros -> HPQ. exists []. rewrite app_nil_r. split; [done|]. intros w HP. left. by apply HPQ. Qed.

Ltac wakes lw := eapply (law_wakes lw); [by rewrite ?app_nil_r|by intros ? [? _]].

(** *** [oneshot] *)

Inductive os_tx_step {A} : Oneshot A -> Oneshot A -> Prop :=
  | os_tx_send v s : os_sender s = true -> os_tx_step s (os_send v s).2
  | os_tx_drop s : os_sender s = true -> os_tx_step s (os_sender_drop s).

#[export] Instance os_parking A : Parking (Oneshot A) := {
  pk_slot := os_rx_task;
  pk_ready s := is_ready (os_poll_recv 0 s).1;
  pk_woken := os_woken;
  pk_step := os_tx_step;
}.
#[export] Instance os_parking_laws A : ParkingLaws (Oneshot A).
Proof.
  intros s s' [v s0 _|s0 _]; cbn.
  - unfold os_send. destruct (_ =? _)%nat; cbn; wakes (os_rx_task s0).
  - wakes (os_rx_task s0).
Qed.

(** *** [mpsc] *)

Inductive mp_tx_step {A} : Mpsc A -> Mpsc A -> Prop :=
  | mp_tx_send v s : (0 < mp_senders s)%nat -> mp_tx_step s (mp_send v s).2
  | mp_tx_close s : (0 < mp_senders s)%nat -> mp_tx_step s (mp_sender_close s)
  | mp_tx_clone s : (0 < mp_senders s)%nat -> mp_tx_step s (mp_sender_clone s)
  | mp_tx_drop s : (0 < mp_senders s)%nat -> mp_tx_step s (mp_sender_drop s).

#[export] Instance mp_parking A : Parking (Mpsc A) := {
  pk_slot := mp_blocked_recv;
  pk_ready s := is_ready (mp_poll_recv 0 s).1;
  pk_woken := mp_woken;
  pk_step := mp_tx_step;
}.

Lemma mp_parked {A} (s : Mpsc A) w :
  parked s w <-> mp_blocked_recv s = Some w /\ mp_buffer s = [] /\ mp_has_receiver s = true /\ mp_strong_count s <> 1%nat.
Proof.
  unfold parked. cbn. unfold mp_poll_recv. destruct (mp_buffer s); [|by split; [intros [? [=]]|intros (? & [=] & _)]].
  destruct (mp_has_receiver s) eqn:Hr; [|by split; [intros [? [=]]|intros (? & ? & [=] & _)]].
  unfold mp_strong_count. cbn. destruct (Nat.eqb_spec (mp_senders s + (if mp_receiver s then 1 else 0)) 1) as [He|He]; cbn.
  - split; [by intros [? [=]]|by intros (? & _ & _ & ?)].
  - split; [by intros [? _]|by intros (? & _)].
Qed.

#[export] Instance mp_parking_laws A : ParkingLaws (Mpsc A).
Proof.
  intros s s' [v s0 Hs|s0 Hs|s0 Hs|s0 Hs]; cbn [pk_woken mp_parking].
  - unfold mp_send. destruct (negb _); cbn; [by apply law_keeps|].
    wakes (mp_blocked_recv s0).
  - wakes (mp_blocked_recv s0).
  - apply law_keeps; [done|]. intros w (? & ? & ? & Hc)%mp_parked. apply mp_parked. unfold mp_strong_count in *.
    cbn. repeat split; try done. destruct (mp_receiver s0); lia.
  - unfold mp_sender_drop. destruct (mp_has_receiver s0 && _) eqn:Hb.
    + wakes (mp_blocked_recv s0).
    + apply law_keeps; [done|]. intros w (? & ? & Hr & Hc)%mp_parked. apply mp_parked.
      rewrite Hr in Hb. cbn in Hb. apply Nat.eqb_neq in Hb. unfold mp_strong_count in *. cbn.
      repeat split; try done. destruct (mp_receiver s0); lia.
Qed.

(** *** [inplace] *)

Inductive ip_tx_step {A} : Inplace A -> Inplace A -> Prop :=
  | ip_tx_send v s : ip_tx_step s (ip_send v s).2.

#[export] Instance ip_parking A : Parking (Inplace A) := {
  pk_slot := ip_rx_task;
  pk_ready s := is_ready (ip_poll_recv 0 s).1;
  pk_woken := ip_woken;
  pk_step := ip_tx_step;
}.
#[export] Instance ip_parking_laws A : ParkingLaws (Inplace A).
Proof.
  intros s s' [v s0]. cbn. unfold ip_send. destruct (ip_value s0) as [v0|] eqn:Hv.
  - apply law_keeps; [done|]. intros w [_ Hr]. cbn in Hr. unfold ip_poll_recv in Hr. by rewrite Hv in Hr.
  - wakes (ip_rx_task s0).
Qed.

(** *** [bstream]: the reader, and every operation of a sender but its drop *)

Section bstream_reader.
Context {F : Type} `{!Bitflags F} {E : Type}.
Implicit Types s : Bstream F E.

Inductive bs_tx_step : Bstream F E -> Bstream F E -> Prop :=
  | bs_tx_data d s : (0 < bs_senders s)%nat -> bs_tx_step s (bs_feed_data d s)
  | bs_tx_eof s : (0 < bs_senders s)%nat -> bs_tx_step s (bs_feed_eof s)
  | bs_tx_error e s : (0 < bs_senders s)%nat -> bs_tx_step s (bs_set_error e s)
  | bs_tx_clone s : (0 < bs_senders s)%nat -> bs_tx_step s (bs_sender_clone s)
  | bs_tx_drop s : (0 < bs_senders s)%nat -> bs_tx_step s (bs_sender_drop s)
  | bs_tx_ready w s : (0 < bs_senders s)%nat -> bs_tx_step s (bs_poll_ready w s).2.

(** A poll is ready, for another reason than the drop of the last sender. *)
Definition bs_sent s : bool :=
  negb (bool_decide (bs_items s = [])) || is_ready (bs_err s) ||
  fl_intersects (bs_flags s) (fl_of (Z.lor BS_EOF BS_ERROR)) && negb (bs_senders s =? 0)%nat.

#[export] Instance bs_parking : Parking (Bstream F E) := {
  pk_slot := bs_recv_task;
  pk_ready := bs_sent;
  pk_woken := bs_woken;
  pk_step := bs_tx_step;
}.

Lemma bs_poll_none w s s' : bs_poll_read w s = (None, s') -> parked s' w.
Proof.
  unfold bs_poll_read, bs_get_data, parked. cbn. unfold bs_sent. destruct (bs_items s) eqn:Hi; [|done]. destruct (bs_err s) eqn:He; [done|].
  destruct (fl_intersects _ _) eqn:Hf; [done|]. intros [= <-]. split; [done|]. cbn. by rewrite Hi, He, Hf.
Qed.
Lemma bs_parked_end w s :
  parked s w -> (bs_poll_read w s).1 <> None -> bs_senders s = 0%nat /\ (bs_poll_read w s).1 = Some None /\ bs_recv_task s = Some w.
Proof.
  intros [Hs Hr]. cbn in *. unfold bs_sent, bs_poll_read, bs_get_data in *. destruct (bs_items s); [|done]. destruct (bs_err s); [done|].
  destruct (fl_intersects _ _); [|done]. destruct (Nat.eqb_spec (bs_senders s) 0); [|done]. by intros _.
Qed.

Lemma bs_keeps s s' :
  (0 < bs_senders s)%nat -> bs_items s' = bs_items s -> bs_err s' = bs_err s -> bs_flags s' = bs_flags s \/ bs_senders s' = 0%nat ->
  bs_recv_task s' = bs_recv_task s -> bs_woken s' = bs_woken s ->
  exists ws, pk_woken s' = pk_woken s ++ ws /\ forall w, parked s w -> parked s' w \/ w ∈ ws.
Proof.
  intros Hn Hi He Hf Ht Hw. apply law_keeps; [done|]. intros w [Hs Hr]. split; [cbn; by rewrite Ht|]. cbn in *. unfold bs_sent in *. rewrite Hi, He.
  apply orb_false_iff in Hr as [-> Hr]. destruct Hf as [->| ->]; [|by rewrite andb_false_r].
  destruct (Nat.eqb_spec (bs_senders s) 0); [lia|]. rewrite andb_true_r in Hr. by rewrite Hr.
Qed.

#[export] Instance bs_parking_laws : ParkingLaws (Bstream F E).
Proof.
  intros s s' [d s0 Hn|s0 Hn|e s0 Hn|s0 Hn|s0 Hn|w s0 Hn]; cbn [pk_woken bs_parking].
  - unfold bs_feed_data, bs_upgraded. destruct (bs_receiver s0); [|apply bs_keeps; auto].
    unfold bs_inner_feed_data. cbn. destruct (_ <=? _); wakes (bs_recv_task s0).
  - unfold bs_feed_eof, bs_upgraded. destruct (bs_receiver s0); [|apply bs_keeps; auto].
    cbn. eexists. rewrite <- app_assoc. split; [done|]. intros w [Hw _]. right. apply elem_of_app. left.
    cbn in Hw. rewrite Hw. by left.
  - unfold bs_set_error, bs_upgraded. destruct (bs_receiver s0); [|apply bs_keeps; auto].
    cbn. eexists. rewrite <- app_assoc. split; [done|]. intros w [Hw _]. right. apply elem_of_app. left.
    cbn in Hw. rewrite Hw. by left.
  - by apply (bs_keeps s0 (bs_sender_clone s0)); auto.
  - apply (bs_keeps s0 (bs_sender_drop s0)); [done|..]; unfold bs_sender_drop, bs_weak_count, bs_upgraded;
      destruct (bs_receiver s0), (bs_senders s0) as [|[|n]] eqn:Hk; cbn; try rewrite Hk; auto; lia.
  - apply (bs_keeps s0 (bs_poll_ready w s0).2); [done|..]; unfold bs_poll_ready; repeat destruct (_ : bool); auto.
Qed.
End bstream_reader.

(** *** [pool]: the receiver of one token *)

Section pool_receiver.
Context {T : Type -> Type} `{!Slab T} `{!SlabLaws T} {F : Type} `{!Bitflags F} `{!BitflagsLaws F} {A : Type}.
Context (token : nat).
Implicit Types s : Pool T F A.

Definition pl_entry s : option (PInner F A) := slab_map (pl_slab s) !! token.

(** Anything but an operation of this receiver. *)
Inductive pl_tx_step : Pool T F A -> Pool T F A -> Prop :=
  | pl_tx_channel s k s' : pl_channel s = Done (k, s') -> pl_tx_step s s'
  | pl_tx_send k v s r s' : pl_send k v s = Done (r, s') -> pl_tx_step s s'
  | pl_tx_drop k s s' : pl_sender_drop k s = Done (tt, s') -> pl_tx_step s s'
  | pl_tx_canceled k w s b s' : pl_poll_canceled k w s = Done (b, s') -> pl_tx_step s s'
  | pl_rx_recv k w s r s' : k <> token -> pl_poll_recv k w s = Done (r, s') -> pl_tx_step s s'
  | pl_rx_drop k s s' : k <> token -> pl_receiver_drop k s = Done (tt, s') -> pl_tx_step s s'.

Definition pl_slot s : LocalWaker :=
  match pl_entry s with
  | Some i => if fl_contains (pi_flags i) (fl_of PL_RECEIVER) then pi_rx_waker i else None
  | None => None
  end.
Definition pl_ready s : bool :=
  match pl_poll_recv token 0 s with Done (r, _) => is_ready r | Fault _ => true end.

#[local] Instance pl_parking : Parking (Pool T F A) := {
  pk_slot := pl_slot; pk_ready := pl_ready; pk_woken := pl_woken; pk_step := pl_tx_step;
}.

Lemma pl_parked s w :
  parked s w <-> exists i, pl_entry s = Some i /\ fl_contains (pi_flags i) (fl_of PL_RECEIVER) = true /\
    pi_rx_waker i = Some w /\ pi_value i = None /\ fl_contains (pi_flags i) (fl_of PL_SENDER) = true.
Proof.
  unfold parked, pk_slot, pk_ready. cbn. unfold pl_slot, pl_ready, pl_poll_recv, pl_get_inner, mbind, M_bind.
  rewrite slab_get_map. fold (pl_entry s). destruct (pl_entry s) as [i|]; [|split; [by intros []|by intros (? & ? & _)]].
  destruct (fl_contains (pi_flags i) (fl_of PL_RECEIVER)) eqn:Hr;
    [|split; [by intros []|intros (? & [= <-] & ? & _); congruence]].
  destruct (pi_value i) eqn:Hv; cbn; [split; [by intros []|intros (? & [= <-] & ? & ? & ? & _); congruence]|].
  destruct (fl_contains (pi_flags i) (fl_of PL_SENDER)) eqn:Hs; cbn.
  - split; [intros [? _]; by exists i|intros (? & [= <-] & ? & ? & _); done].
  - split; [by intros []|intros (? & [= <-] & ? & ? & ? & ?); congruence].
Qed.

Lemma pl_set_entry k i ws s i0 :
  slab_map (pl_slab s) !! k = Some i0 ->
  pl_entry (mkPool (slab_set k i (pl_slab s)) ws) = if decide (k = token) then Some i else pl_entry s.
Proof.
  intros Hk. unfold pl_entry. cbn. rewrite (slab_map_set k i i0) by done. destruct (decide (k = token)) as [->|Hne].
  - by rewrite lookup_insert_eq.
  - by rewrite lookup_insert_ne.
Qed.

(** The law, for a step from [s] to [s']. *)
Definition pl_fair s s' : Prop :=
  exists ws, pl_woken s' = pl_woken s ++ ws /\ forall w, parked s w -> parked s' w \/ w ∈ ws.

Lemma pl_fair_refl s : pl_fair s s.
Proof. by apply law_keeps. Qed.

Lemma pl_fair_trans s1 s2 s3 : pl_fair s1 s2 -> pl_fair s2 s3 -> pl_fair s1 s3.
Proof.
  intros (ws & Hw & H1) (ws' & Hw' & H2). exists (ws ++ ws'). split; [by rewrite Hw', Hw, app_assoc|].
  intros w [Hp|Hin]%H1; rewrite elem_of_app; [|by right; left]. apply H2 in Hp as [|]; [by left|by right; right].
Qed.

(** An entry is overwritten: if it is the one of this receiver, its waker is
    woken or it stays as it is for the receiver. *)
Lemma pl_set_fair k i0 i ws s :
  slab_map (pl_slab s) !! k = Some i0 ->
  (k = token -> ws = (lw_wake (pi_rx_waker i0)).1 \/
    fl_contains (pi_flags i) (fl_of PL_RECEIVER) = fl_contains (pi_flags i0) (fl_of PL_RECEIVER) /\
    fl_contains (pi_flags i) (fl_of PL_SENDER) = fl_contains (pi_flags i0) (fl_of PL_SENDER) /\
    pi_rx_waker i = pi_rx_waker i0 /\ pi_value i = pi_value i0) ->
  pl_fair s (mkPool (slab_set k i (pl_slab s)) (pl_woken s ++ ws)).
Proof.
  intros Hk Hcase. exists ws. split; [done|]. intros w Hp. rewrite pl_parked.
  rewrite (pl_set_entry k i _ s i0) by done. destruct (decide (k = token)) as [->|Hne].
  - apply pl_parked in Hp as (i' & He & Hr & Hrx & Hv & Hs). unfold pl_entry in He. rewrite Hk in He. injection He as <-.
    destruct (Hcase eq_refl) as [->|(H1 & H2 & H3 & H4)].
    + right. rewrite Hrx. by left.
    + left. exists i. rewrite H1, H2, H3, H4. done.
  - left. by apply pl_parked.
Qed.

(** An entry is removed that this receiver does not hold any more. *)
Lemma pl_remove_fair k s s' :
  (k = token -> forall i, slab_map (pl_slab s) !! k = Some i -> fl_contains (pi_flags i) (fl_of PL_RECEIVER) = false) ->
  pl_remove k s = Done (tt, s') -> pl_fair s s'.
Proof.
  intros Hk. unfold pl_remove. destruct (slab_contains k (pl_slab s)); [|done]. intros [= <-].
  apply law_keeps; [done|]. intros w (i & He & Hr & Hrest)%pl_parked. apply pl_parked. exists i. split; [|done].
  unfold pl_entry in *. cbn. rewrite slab_map_remove. destruct (decide (k = token)) as [->|Hne].
  - rewrite (Hk eq_refl i He) in Hr. done.
  - by rewrite lookup_delete_ne.
Qed.

Lemma pl_sender_drop_fair k s s' : pl_sender_drop k s = Done (tt, s') -> pl_fair s s'.
Proof.
  unfold pl_sender_drop, pl_get_inner, mbind, M_bind. rewrite slab_get_map.
  destruct (slab_map (pl_slab s) !! k) as [i|] eqn:Hk; [|done].
  destruct (fl_contains (pi_flags i) (fl_of PL_RECEIVER)) eqn:Hr.
  - unfold pl_set, modifyS. intros [= <-]. eapply pl_set_fair; [done|]. intros _. by left.
  - intros Hrm. eapply pl_remove_fair; [|exact Hrm]. intros -> i' Hi'. congruence.
Qed.

Lemma pl_step_fair s s' : pl_tx_step s s' -> pl_fair s s'.
Proof.
  intros [s0 k s1 Hrun|k v s0 r s1 Hrun|k s0 s1 Hrun|k w s0 b s1 Hrun|k w s0 r s1 Hne Hrun|k s0 s1 Hne Hrun].
  - unfold pl_channel, mbind, M_bind, getS in Hrun. cbn in Hrun.
    destruct (slab_insert _ (pl_slab s0)) as [k' sl] eqn:Hins. cbn in Hrun. injection Hrun as -> <-.
    apply law_keeps; [done|]. intros w (i & He & Hrest)%pl_parked. apply pl_parked. exists i. split; [|done].
    unfold pl_entry in *. cbn. set (i0 := mkPInner _ _ _ _) in Hins.
    pose proof (slab_insert_vacant i0 (pl_slab s0)) as Hv. pose proof (slab_map_insert i0 (pl_slab s0)) as Hm.
    rewrite Hins in Hv, Hm. cbn in Hv, Hm. rewrite Hm, lookup_insert_ne; [done|congruence].
  - unfold pl_send, pl_get_inner, mbind, M_bind in Hrun. rewrite slab_get_map in Hrun.
    destruct (slab_map (pl_slab s0) !! k) as [i|] eqn:Hk; [|done].
    destruct (fl_contains (pi_flags i) (fl_of PL_RECEIVER)) eqn:Hr; cbn in Hrun.
    + destruct (pl_sender_drop k _) as [[[] s2]|] eqn:Hd in Hrun; [|done]. injection Hrun as _ <-.
      eapply pl_fair_trans; [|by eapply pl_sender_drop_fair]. eapply pl_set_fair; [done|]. intros _. by left.
    + destruct (pl_sender_drop k s0) as [[[] s2]|] eqn:Hd in Hrun; [|done]. injection Hrun as _ <-.
      by eapply pl_sender_drop_fair.
  - by eapply pl_sender_drop_fair.
  - unfold pl_poll_canceled, pl_get_inner, mbind, M_bind in Hrun. rewrite slab_get_map in Hrun.
    destruct (slab_map (pl_slab s0) !! k) as [i|] eqn:Hk; [|done].
    destruct (fl_contains (pi_flags i) (fl_of PL_RECEIVER)) eqn:Hr; cbn in Hrun; injection Hrun as _ <-; [|apply pl_fair_refl].
    eapply pl_set_fair; [done|]. intros _. by right.
  - unfold pl_poll_recv, pl_get_inner, mbind, M_bind in Hrun. rewrite slab_get_map in Hrun.
    destruct (slab_map (pl_slab s0) !! k) as [i|] eqn:Hk; [|done].
    destruct (pi_value i); [|destruct (fl_contains (pi_flags i) (fl_of PL_SENDER))];
      cbn in Hrun; injection Hrun as _ <-; [by eapply pl_set_fair..|apply pl_fair_refl].
  - unfold pl_receiver_drop, pl_get_inner, mbind, M_bind in Hrun. rewrite slab_get_map in Hrun.
    destruct (slab_map (pl_slab s0) !! k) as [i|] eqn:Hk; [|done].
    destruct (fl_contains (pi_flags i) (fl_of PL_SENDER)); [|by eapply pl_remove_fair].
    injection Hrun as <-. by eapply pl_set_fair.
Qed.

#[local] Instance pl_parking_laws : ParkingLaws (Pool T F A).
Proof. intros s s'. apply pl_step_fair. Qed.

(** In a pool of oneshots, a task that polled a receiver and was told to
    wait is woken by the time the receiver is ready, whatever the senders and
    the other receivers of the pool do in between. *)
Theorem pool_no_lost_wakeup s0 s s' w r s'' i :
  pl_entry s0 = Some i -> fl_contains (pi_flags i) (fl_of PL_RECEIVER) = true ->
  pl_poll_recv token w s0 = Done (None, s) -> rtc pl_tx_step s s' ->
  pl_poll_recv token w s' = Done (Some r, s'') ->
  exists ws, pl_woken s' = pl_woken s ++ ws /\ w ∈ ws.
Proof.
  intros Hi Hrx Hp Hst Hready.
  refine (no_lost_wakeup (C := Pool T F A) (Parking0 := pl_parking) s s' w Hst _ _).
  - apply pl_parked. unfold pl_poll_recv, pl_get_inner, mbind, M_bind in Hp. rewrite slab_get_map in Hp.
    fold (pl_entry s0) in Hp. rewrite Hi in Hp. destruct (pi_value i) eqn:Hv; [done|].
    destruct (fl_contains (pi_flags i) (fl_of PL_SENDER)) eqn:Hs; [|done]. cbn in Hp. injection Hp as <-.
    rewrite (pl_set_entry token _ _ s0 i) by done. rewrite decide_True by done. eexists. by repeat split.
  - cbn. unfold pl_ready, pl_poll_recv, pl_get_inner, mbind, M_bind in *. rewrite slab_get_map in *.
    destruct (slab_map (pl_slab s') !! token) as [i'|]; [|done].
    destruct (pi_value i'); cbn in *; [done|]. by destruct (fl_contains (pi_flags i') (fl_of PL_SENDER)).
Qed.
End pool_receiver.

(** *** [condition]: the waiter of one token *)

Section waiter.
Context {T : Type -> Type} `{!Slab T} `{!SlabLaws T} {A : Type} (dv : A) (token : nat).
Implicit Types s : Condition T A.

Definition cd_entry s : option (option (CItem A)) := slab_map (cd_data s) !! token.

(** Anything but an operation of this waiter. *)
Inductive cd_tx_step : Condition T A -> Condition T A -> Prop :=
  | cd_tx_notify s s' : cd_notify s = Done (tt, s') -> cd_tx_step s s'
  | cd_tx_notify_with v s s' : cd_notify_with v s = Done (tt, s') -> cd_tx_step s s'
  | cd_tx_lock s s' : cd_notify_and_lock_readiness s = Done (tt, s') -> cd_tx_step s s'
  | cd_tx_lock_with v s s' : cd_notify_with_and_lock_readiness v s = Done (tt, s') -> cd_tx_step s s'
  | cd_tx_clone s s' : cd_clone s = Done (tt, s') -> cd_tx_step s s'
  | cd_tx_drop s s' : cd_drop s = Done (tt, s') -> cd_tx_step s s'
  | cd_tx_wait s k s' : cd_wait s = Done (k, s') -> cd_tx_step s s'
  | cd_rx_poll k w s r s' : k <> token -> waiter_poll_ready dv k w s = Done (r, s') -> cd_tx_step s s'
  | cd_rx_drop k s s' : k <> token -> waiter_drop k s = Done (tt, s') -> cd_tx_step s s'.

Definition cd_waiting s (w : waker) : Prop := exists it, cd_entry s = Some (Some it) /\ ci_waker it = Some w.

#[local] Instance cd_parking : Parking (Condition T A) := {
  pk_slot s := match cd_entry s with Some (Some it) => ci_waker it | _ => None end;
  pk_ready s := match waiter_poll_ready dv token 0 s with Done (r, _) => is_ready r | Fault _ => true end;
  pk_woken := cd_woken;
  pk_step := cd_tx_step;
}.

Lemma cd_parked s w : parked s w <-> cd_waiting s w /\ cd_ready s = false.
Proof.
  unfold parked, cd_waiting. cbn. unfold waiter_poll_ready. rewrite slab_get_map. fold (cd_entry s).
  destruct (cd_entry s) as [[it|]|].
  - unfold lw_register. destruct (ci_waker it) as [w'|] eqn:Hw; cbn.
    + destruct (cd_ready s); cbn; split.
      * by intros [_ [=]].
      * by intros [_ [=]].
      * intros [[= ->] _]. split; [by exists it|done].
      * intros [(? & [= <-] & Hw') _]. split; [congruence|done].
    + split; [by intros [[=] _]|intros [(? & [= <-] & Hw') _]; congruence].
  - split; [by intros [[=] _]|by intros [(? & ? & _) _]].
  - split; [by intros [[=] _]|by intros [(? & ? & _) _]].
Qed.

(** Both kinds of notification of one entry. *)
Definition notifies (f : nat -> M (Condition T A) ()) : Prop :=
  forall k s, exists ws s', f k s = Done (tt, s') /\ cd_woken s' = cd_woken s ++ ws /\
    cd_ready s' = cd_ready s /\ cd_count s' = cd_count s /\
    (k <> token -> cd_entry s' = cd_entry s) /\
    (forall w, k = token -> cd_waiting s w -> w ∈ ws) /\
    (k = token -> forall w, ~ cd_waiting s' w).

(** Nobody waits at key [k]. *)
Lemma notified_nobody k s :
  (forall it, slab_map (cd_data s) !! k <> Some (Some it)) ->
  exists ws s', Done (tt, s) = Done (tt, s') /\ cd_woken s' = cd_woken s ++ ws /\
    cd_ready s' = cd_ready s /\ cd_count s' = cd_count s /\
    (k <> token -> cd_entry s' = cd_entry s) /\
    (forall w, k = token -> cd_waiting s w -> w ∈ ws) /\
    (k = token -> forall w, ~ cd_waiting s' w).
Proof.
  intros Hk. exists [], s. rewrite app_nil_r. repeat split; try done.
  - intros w -> (it & He & _). by destruct (Hk it).
  - intros -> w (it & He & _). by destruct (Hk it).
Qed.

Lemma notify_item_notifies : notifies cd_notify_item.
Proof.
  intros k s. unfold cd_notify_item. rewrite slab_get_map.
  destruct (slab_map (cd_data s) !! k) as [[it|]|] eqn:Hk.
  - eexists _, _. split; [done|]. split; [done|]. split; [done|]. split; [done|].
    unfold cd_entry, cd_waiting, cd_entry. cbn. rewrite (slab_map_set k _ (Some it)) by done. split; [|split].
    + intros Hne. by rewrite lookup_insert_ne.
    + intros w -> (it' & He & Hw). rewrite Hk in He. injection He as <-. rewrite Hw. by left.
    + intros -> w (it' & He & Hw). rewrite lookup_insert_eq in He. by injection He as <-.
  - apply (notified_nobody k). by rewrite Hk.
  - apply (notified_nobody k). by rewrite Hk.
Qed.

Lemma notify_item_with_notifies v : notifies (cd_notify_item_with v).
Proof.
  intros k s. unfold cd_notify_item_with. rewrite slab_get_map.
  destruct (slab_map (cd_data s) !! k) as [[it|]|] eqn:Hk.
  - unfold lw_wake_checked. destruct (ci_waker it) as [w0|] eqn:Hw0; eexists _, _; (split; [done|]);
      (split; [done|]); (split; [done|]); (split; [done|]);
      unfold cd_waiting, cd_entry; cbn; rewrite (slab_map_set k _ (Some it)) by done; (split; [|split]).
    1,4: intros Hne; by rewrite lookup_insert_ne.
    1,3: intros w -> (it' & He & Hw); rewrite Hk in He; injection He as <-; rewrite Hw0 in Hw; simplify_eq; by left.
    1,2: intros -> w (it' & He & Hw); rewrite lookup_insert_eq in He; by injection He as <-.
  - apply (notified_nobody k). by rewrite Hk.
  - apply (notified_nobody k). by rewrite Hk.
Qed.

Lemma for_each_notifies f ks s :
  notifies f ->
  exists ws s', cd_for_each f ks s = Done (tt, s') /\ cd_woken s' = cd_woken s ++ ws /\
    cd_ready s' = cd_ready s /\ cd_count s' = cd_count s /\
    (forall w, cd_waiting s w -> ((token ∉ ks) /\ cd_waiting s' w) \/ w ∈ ws).
Proof.
  intros Hf. revert s. induction ks as [|k ks IH]; intros s.
  { exists [], s. rewrite app_nil_r. repeat split; try done. intros w Hw. left. split; [apply not_elem_of_nil|done]. }
  destruct (Hf k s) as (ws & s1 & Hr & Hw & Hrd & Hct & Hne & Heq & _).
  destruct (IH s1) as (ws' & s2 & Hr' & Hw' & Hrd' & Hct' & Hall).
  exists (ws ++ ws'), s2. cbn [cd_for_each]. unfold mbind, M_bind. rewrite Hr. split; [done|].
  split; [by rewrite Hw', Hw, app_assoc|]. split; [congruence|]. split; [congruence|]. intros w Hwt.
  rewrite elem_of_app. destruct (decide (k = token)) as [->|Hk]; [right; left; by apply Heq|].
  destruct (Hall w) as [[Hnin Hwt']|Hin]; [|left; split; [|done]|by right; right].
  - unfold cd_waiting. by rewrite (Hne Hk).
  - by intros [|]%elem_of_cons.
Qed.

(** A notification wakes this waiter. *)
Lemma notify_wakes f s :
  notifies f ->
  exists ws s', cd_for_each f (slab_keys (cd_data s)) s = Done (tt, s') /\ cd_woken s' = cd_woken s ++ ws /\
    forall w, cd_waiting s w -> w ∈ ws.
Proof.
  intros Hf. destruct (for_each_notifies f (slab_keys (cd_data s)) s Hf) as (ws & s' & Hr & Hw & _ & _ & Hall).
  exists ws, s'. split; [done|]. split; [done|]. intros w Hwt. destruct (Hall w Hwt) as [[Hnin _]|]; [|done].
  exfalso. apply Hnin. destruct Hwt as (it & He & _). rewrite slab_keys_map. apply list_elem_of_fmap.
  exists (token, Some it). split; [done|]. by apply elem_of_map_to_list.
Qed.

Lemma fair_of_wakes f s s' :
  notifies f -> cd_for_each f (slab_keys (cd_data s)) s = Done (tt, s') ->
  exists ws, cd_woken s' = cd_woken s ++ ws /\ forall w, cd_waiting s w -> w ∈ ws.
Proof. intros Hf Hrun. destruct (notify_wakes f s Hf) as (ws & s2 & Hr & Hw & Hall). exists ws.
  rewrite Hrun in Hr. by injection Hr as <-.
Qed.

(** The law, for a step from [s] to [s']. *)
Definition cd_fair s s' : Prop :=
  exists ws, cd_woken s' = cd_woken s ++ ws /\ forall w, parked s w -> parked s' w \/ w ∈ ws.

Lemma cd_fair_notify f s s0 s' :
  notifies f -> cd_data s0 = cd_data s -> cd_woken s0 = cd_woken s ->
  cd_for_each f (slab_keys (cd_data s0)) s0 = Done (tt, s') -> cd_fair s s'.
Proof.
  intros Hf Hd Hw Hrun. destruct (fair_of_wakes f s0 s' Hf Hrun) as (ws & Hws & Hall). exists ws.
  split; [by rewrite Hws, Hw|]. intros w [Hwt _]%cd_parked. right. apply Hall. unfold cd_waiting, cd_entry. by rewrite Hd.
Qed.

Lemma cd_fair_keep s s' :
  cd_entry s' = cd_entry s -> cd_ready s' = cd_ready s -> cd_woken s' = cd_woken s -> cd_fair s s'.
Proof. intros He Hr Hw. apply law_keeps; [done|]. intros w. rewrite !cd_parked. unfold cd_waiting. by rewrite He, Hr. Qed.

Lemma cd_set_entry k i0 i s :
  k <> token -> slab_map (cd_data s) !! k = Some i0 ->
  cd_fair s (cd_set_data (slab_set k i (cd_data s)) s).
Proof.
  intros Hne Hk. apply cd_fair_keep; [|done|done]. unfold cd_entry. cbn.
  by rewrite (slab_map_set k i i0), lookup_insert_ne.
Qed.

Lemma cd_step_fair s s' : cd_tx_step s s' -> cd_fair s s'.
Proof.
  intros [s0 s1 H|v s0 s1 H|s0 s1 H|v s0 s1 H|s0 s1 H|s0 s1 H|s0 k s1 H|k w s0 r s1 Hne H|k s0 s1 Hne H].
  - eapply cd_fair_notify; [apply notify_item_notifies|done|done|exact H].
  - eapply cd_fair_notify; [apply (notify_item_with_notifies v)|done|done|exact H].
  - eapply (cd_fair_notify _ _ (cd_set_ready true s0)); [apply notify_item_notifies|done|done|exact H].
  - eapply (cd_fair_notify _ _ (cd_set_ready true s0)); [apply (notify_item_with_notifies v)|done|done|exact H].
  - injection H as <-. by apply cd_fair_keep.
  - unfold cd_drop, mbind, M_bind, modifyS, getS in H. cbn in H. destruct (pred (cd_count s0) =? 0)%nat.
    + eapply (cd_fair_notify _ _ (cd_set_ready true (cd_set_count (pred (cd_count s0)) s0)));
        [apply notify_item_notifies|done|done|exact H].
    + injection H as <-. by apply cd_fair_keep.
  - unfold cd_wait, mbind, M_bind, getS in H. cbn in H.
    destruct (slab_insert _ (cd_data s0)) as [k' sl] eqn:Hins. cbn in H. injection H as -> <-.
    pose proof (slab_insert_vacant (None : option (CItem A)) (cd_data s0)) as Hv.
    pose proof (slab_map_insert (None : option (CItem A)) (cd_data s0)) as Hm. rewrite Hins in Hv, Hm. cbn in Hv, Hm.
    apply law_keeps; [done|]. intros w [(it & He & Hw) Hr]%cd_parked. apply cd_parked. split; [|done].
    exists it. split; [|done]. unfold cd_entry in *. cbn. rewrite Hm, lookup_insert_ne; [done|congruence].
  - unfold waiter_poll_ready in H. rewrite slab_get_map in H.
    destruct (slab_map (cd_data s0) !! k) as [[it|]|] eqn:Hk; [|injection H as _ <-; by eapply cd_set_entry|done].
    destruct (lw_register w (ci_waker it)) as [b lw]. destruct b; cbn in H; injection H as _ <-; by eapply cd_set_entry.
  - unfold waiter_drop in H. destruct (slab_contains k (cd_data s0)); [|done]. injection H as <-.
    apply cd_fair_keep; [|done|done]. unfold cd_entry. cbn. by rewrite slab_map_remove, lookup_delete_ne.
Qed.

#[local] Instance cd_parking_laws : ParkingLaws (Condition T A).
Proof. intros s s'. apply cd_step_fair. Qed.

(** A task that polled a waiter and was told to wait is woken by the time
    the waiter is ready, whatever sequence of notifications, of drops and
    clones of the condition and of operations of other waiters comes in
    between. *)
Theorem condition_no_lost_wakeup s0 s s' w r s'' :
  waiter_poll_ready dv token w s0 = Done (None, s) -> rtc cd_tx_step s s' ->
  waiter_poll_ready dv token w s' = Done (Some r, s'') ->
  exists ws, cd_woken s' = cd_woken s ++ ws /\ w ∈ ws.
Proof.
  intros Hp Hst Hready. refine (no_lost_wakeup (C := Condition T A) (Parking0 := cd_parking) s s' w Hst _ _).
  - apply cd_parked. unfold waiter_poll_ready in Hp. rewrite slab_get_map in Hp. unfold cd_waiting, cd_entry.
    destruct (slab_map (cd_data s0) !! token) as [[it|]|] eqn:Ht; [| |done].
    + destruct (lw_register w (ci_waker it)) as [b lw] eqn:Hreg. destruct b; cbn in Hp; [|done].
      destruct (cd_ready s0) eqn:Hr; [done|]. injection Hp as <-. cbn.
      rewrite (slab_map_set token _ (Some it)), lookup_insert_eq by done. split; [|done]. eexists. split; [done|].
      unfold lw_register in Hreg. by injection Hreg as _ <-.
    + cbn in Hp. destruct (cd_ready s0) eqn:Hr; [done|]. injection Hp as <-. cbn.
      rewrite (slab_map_set token _ None), lookup_insert_eq by done. split; [|done]. by eexists.
  - cbn. unfold waiter_poll_ready in *. rewrite slab_get_map in *.
    destruct (slab_map (cd_data s') !! token) as [[it|]|]; [| |done].
    + unfold lw_register in *. destruct (ci_waker it); cbn in *; [|done]. by destruct (cd_ready s').
    + cbn in *. by destruct (cd_ready s').
Qed.
End waiter.

(** *** Channels with one receiver *)

(** C23. Oneshot, mpsc and inplace channels, and byte streams: a task that
    polled the receiver and was told to wait is woken by the time a poll is
    ready, for every sequence of operations of the senders, drops of them
    included.  The one exception is a byte stream: when its last sender is
    dropped the reader may be left registered and not woken, although the
    stream is at its end ([bstream_reader_not_woken]); nothing that was sent
    is missed then. *)
Theorem channels_no_lost_wakeup {A F E : Type} `{!Bitflags F} (w : waker) :
  (forall (s0 s s' : Oneshot A), os_poll_recv w s0 = (None, s) -> rtc os_tx_step s s' ->
     (os_poll_recv w s').1 <> None -> exists ws, os_woken s' = os_woken s ++ ws /\ w ∈ ws) /\
  (forall (s0 s s' : Mpsc A), mp_poll_recv w s0 = (None, s) -> rtc mp_tx_step s s' ->
     (mp_poll_recv w s').1 <> None -> exists ws, mp_woken s' = mp_woken s ++ ws /\ w ∈ ws) /\
  (forall (s0 s s' : Inplace A), ip_poll_recv w s0 = (None, s) -> rtc ip_tx_step s s' ->
     (ip_poll_recv w s').1 <> None -> exists ws, ip_woken s' = ip_woken s ++ ws /\ w ∈ ws) /\
  (forall (s0 s s' : Bstream F E), bs_poll_read w s0 = (None, s) -> rtc bs_tx_step s s' ->
     (bs_poll_read w s').1 <> None -> (exists ws, bs_woken s' = bs_woken s ++ ws /\ w ∈ ws) \/
     (bs_senders s' = 0%nat /\ (bs_poll_read w s').1 = Some None /\ bs_recv_task s' = Some w)).
Proof.
  split; [|split; [|split]]; intros s0 s s' Hp Hst Hready.
  - refine (no_lost_wakeup (C := Oneshot A) s s' w Hst _ _).
    + unfold os_poll_recv in Hp. destruct (os_value s0); [done|]. destruct (_ =? _)%nat eqn:Hc; [done|].
      injection Hp as <-. split; [done|]. cbn. unfold os_poll_recv, os_strong_count in *. cbn. by rewrite Hc.
    + apply is_ready_some in Hready. rewrite <- Hready. cbn. unfold os_poll_recv.
      destruct (os_value s'); [done|]. by destruct (_ =? _)%nat.
  - refine (no_lost_wakeup (C := Mpsc A) s s' w Hst _ _).
    + apply mp_parked. unfold mp_poll_recv in Hp. destruct (mp_buffer s0) eqn:Hb; [|done].
      destruct (mp_has_receiver s0) eqn:Hr; [|done]. destruct (_ =? _)%nat eqn:Hc; [done|]. injection Hp as <-.
      apply Nat.eqb_neq in Hc. by repeat split.
    + apply is_ready_some in Hready. rewrite <- Hready. cbn. unfold mp_poll_recv, mp_strong_count.
      destruct (mp_buffer s'); [|done]. destruct (mp_has_receiver s'); [|done]. cbn. by destruct (_ =? _)%nat.
  - refine (no_lost_wakeup (C := Inplace A) s s' w Hst _ _).
    + unfold ip_poll_recv in Hp. destruct (ip_value s0); [done|]. by injection Hp as <-.
    + apply is_ready_some in Hready. rewrite <- Hready. cbn. unfold ip_poll_recv. by destruct (ip_value s').
  - destruct (parked_or_woken (C := Bstream F E) (Parking0 := bs_parking) s s' w Hst) as [Hpk|?]; [by eapply bs_poll_none|right|by left].
    by apply bs_parked_end.
Qed.

Lemma channels_no_lost_wakeup_witness :
  exists ws, mp_woken (mp_sender_drop (mp_sender_drop (mp_sender_clone (mp_poll_recv 5 (mp_channel : Mpsc Z)).2)))
    = [] ++ ws /\ (5%nat ∈ ws).
Proof.
  destruct (channels_no_lost_wakeup (A := Z) (F := Z) (E := Z) 5) as (_ & Hm & _).
  apply (Hm mp_channel (mp_poll_recv 5 mp_channel).2); [reflexivity| |vm_compute; congruence].
  eapply rtc_l; [by apply mp_tx_clone; vm_compute; lia|]. eapply rtc_l; [by apply mp_tx_drop; vm_compute; lia|].
  eapply rtc_l; [by apply mp_tx_drop; vm_compute; lia|]. apply rtc_refl.
Defined.
