(* ===== verification/ChannelData.v ===== *)
(** * What the channels carry

    Messages arrive in order and once; byte streams account for what they
    buffer; handles of a pool never reach a vacant slab entry, and no entry
    outlives its handles. *)
From Stdlib Require Import ZArith Lia.
From stdpp Require Import base numbers gmap list relations.
From S2P Require Import Prelude Deps Task Channels Waiters ChannelProps.

(** ** [mpsc] *)

Inductive mp_op (A : Type) :=
  | MSend (v : A) | MTxClose | MTxClone | MTxDrop | MRxSender | MRxClose | MRecv (w : waker) | MRxDrop.
Arguments MSend {A}.
Arguments MTxClose {A}.
Arguments MTxClone {A}.
Arguments MTxDrop {A}.
Arguments MRxSender {A}.
Arguments MRxClose {A}.
Arguments MRecv {A}.
Arguments MRxDrop {A}.

Section mpsc.
Context {A : Type}.
Implicit Types s : Mpsc A.

(** The messages an operation got accepted, and those it received. *)
Definition mp_exec (op : mp_op A) s : (list A * list A) * Mpsc A :=
  match op with
  | MSend v => match mp_send v s with (inl _, s') => (([v], []), s') | (inr _, s') => (([], []), s') end
  | MTxClose => (([], []), mp_sender_close s)
  | MTxClone => (([], []), mp_sender_clone s)
  | MTxDrop => (([], []), mp_sender_drop s)
  | MRxSender => (([], []), mp_receiver_sender s)
  | MRxClose => (([], []), mp_receiver_close s)
  | MRecv w => match mp_poll_recv w s with (Some (Some v), s') => (([], [v]), s') | (_, s') => (([], []), s') end
  | MRxDrop => (([], []), mp_receiver_drop s)
  end.

Fixpoint mp_run (ops : list (mp_op A)) s : (list A * list A) * Mpsc A :=
  match ops with
  | [] => (([], []), s)
  | op :: ops =>
      let '((acc, rcv), s1) := mp_exec op s in
      let '((acc', rcv'), s2) := mp_run ops s1 in
      ((acc ++ acc', rcv ++ rcv'), s2)
  end.

Definition not_rx_drop (op : mp_op A) : bool := match op with MRxDrop => false | _ => true end.

Lemma mp_exec_fifo op s acc rcv s' :
  mp_exec op s = ((acc, rcv), s') -> not_rx_drop op = true -> mp_buffer s ++ acc = rcv ++ mp_buffer s'.
Proof.
  destruct op as [v| | | | | |w| ]; cbn; intros H Hd; try done;
    try (injection H as <- <- <-; cbn; by rewrite app_nil_r).
  - unfold mp_send in H. destruct (negb _); injection H as <- <- <-; cbn; [by rewrite app_nil_r|done].
  - injection H as <- <- <-. unfold mp_sender_drop. destruct (_ && _); cbn; by rewrite app_nil_r.
  - unfold mp_poll_recv in H. destruct (mp_buffer s) as [|v rest] eqn:Hb.
    + destruct (mp_has_receiver s); [|injection H as <- <- <-; by rewrite ?Hb].
      destruct (_ =? _)%nat; injection H as <- <- <-; cbn; by rewrite ?Hb.
    + injection H as <- <- <-. cbn. by rewrite app_nil_r.
Qed.

Lemma mp_run_fifo ops s acc rcv s' :
  mp_run ops s = ((acc, rcv), s') -> forallb not_rx_drop ops = true -> mp_buffer s ++ acc = rcv ++ mp_buffer s'.
Proof.
  revert s acc rcv. induction ops as [|op ops IH]; intros s acc rcv; cbn.
  { intros [= <- <- <-] _. by rewrite app_nil_r. }
  destruct (mp_exec op s) as [[a1 r1] s1] eqn:H1. destruct (mp_run ops s1) as [[a2 r2] s2] eqn:H2.
  intros [= <- <- <-] [Hd Hds]%andb_true_iff.
  rewrite app_assoc, (mp_exec_fifo op s a1 r1 s1 H1 Hd), <- !app_assoc. f_equal. by apply IH.
Qed.

(** An mpsc channel is a queue: for every interleaving of sends, clones,
    closes and drops of senders with receives, the messages accepted so far
    are those received so far, in order, followed by the ones still buffered.
    Messages sent after a close are handed back and appear nowhere. *)
Theorem mpsc_fifo ops acc rcv s' :
  mp_run ops mp_channel = ((acc, rcv), s') -> forallb not_rx_drop ops = true -> acc = rcv ++ mp_buffer s'.
Proof. intros Hrun Hd. exact (mp_run_fifo ops mp_channel acc rcv s' Hrun Hd). Qed.
End mpsc.

Lemma mpsc_fifo_witness :
  [1; 2] = [1] ++ mp_buffer (mp_run [MSend 1; MRecv 4; MSend 2; MTxClose; MSend 3] (mp_channel : Mpsc Z)).2.
Proof.
  apply (mpsc_fifo [MSend 1; MRecv 4; MSend 2; MTxClose; MSend 3] [1; 2] [1]); reflexivity.
Defined.

(** ** [bstream] *)

Section bstream.
Context {F : Type} `{!Bitflags F} `{!BitflagsLaws F} {E : Type}.
Implicit Types s : Bstream F E.

Definition total (l : list (list Z)) : Z := zlen (concat l).

Lemma total_cons d l : total (d :: l) = zlen d + total l.
Proof. unfold total, zlen. cbn. rewrite length_app. lia. Qed.
Lemma total_snoc d l : total (l ++ [d]) = total l + zlen d.
Proof. unfold total, zlen. rewrite concat_app. cbn. rewrite app_nil_r, length_app. lia. Qed.

Inductive bs_op := BFeed (d : list Z) | BEof | BError (e : E) | BTxClone | BTxDrop | BReady (w : waker)
  | BRead (w : waker) | BPut (d : list Z) | BMax (n : Z) | BRxDrop.

Definition bs_exec (op : bs_op) s : Bstream F E :=
  match op with
  | BFeed d => bs_feed_data d s
  | BEof => bs_feed_eof s
  | BError e => bs_set_error e s
  | BTxClone => bs_sender_clone s
  | BTxDrop => bs_sender_drop s
  | BReady w => (bs_poll_ready w s).2
  | BRead w => (bs_poll_read w s).2
  | BPut d => bs_put d s
  | BMax n => bs_max_buffer_size_set n s
  | BRxDrop => bs_receiver_drop s
  end.

Lemma bs_exec_len op s : bs_len s = total (bs_items s) -> bs_len (bs_exec op s) = total (bs_items (bs_exec op s)).
Proof.
  intros Hl. destruct op as [d| |e| | |w|w|d|n| ]; cbn [bs_exec].
  - unfold bs_feed_data, bs_upgraded. destruct (bs_receiver s); [|done]. unfold bs_inner_feed_data.
    destruct (_ <=? _); cbn; rewrite total_snoc; lia.
  - unfold bs_feed_eof, bs_upgraded. by destruct (bs_receiver s).
  - unfold bs_set_error, bs_upgraded. by destruct (bs_receiver s).
  - done.
  - unfold bs_sender_drop, bs_upgraded. destruct (_ =? _)%nat; [|done]. by destruct (bs_receiver s).
  - unfold bs_poll_ready. by repeat destruct (_ : bool).
  - unfold bs_poll_read, bs_get_data. destruct (bs_items s) as [|d l] eqn:Hi.
    + destruct (bs_err s); [by cbn; rewrite Hi|]. destruct (fl_intersects _ _); cbn; by rewrite Hi.
    + rewrite total_cons in Hl. cbn. destruct (_ <? _); cbn; lia.
  - unfold bs_put, bs_unread_data. destruct (negb _); [|done]. cbn. rewrite total_cons. lia.
  - done.
  - done.
Qed.

(** The length a byte stream keeps is the number of bytes it buffers,
    whatever the two sides do; so the subtraction in a read never underflows.
    Reading takes the oldest chunk; putting a chunk back and reading gives
    that chunk again. *)
Theorem bstream_accounting ops :
  let s := fold_left (fun s op => bs_exec op s) ops (bs_channel : Bstream F E) in
  bs_len s = zlen (concat (bs_items s)) /\
  forall d w, (0 < zlen d -> (bs_poll_read w (bs_put d s)).1 = Some (Some (inl d)) /\
     bs_items (bs_poll_read w (bs_put d s)).2 = bs_items s) /\
    (forall rest, bs_items s = d :: rest -> (bs_poll_read w s).1 = Some (Some (inl d)) /\ 0 <= bs_len s - zlen d).
Proof.
  intros s. assert (bs_len s = total (bs_items s)) as Hl.
  { unfold s. clear s. enough (forall s, bs_len s = total (bs_items s) ->
      bs_len (fold_left (fun s op => bs_exec op s) ops s) = total (bs_items (fold_left (fun s op => bs_exec op s) ops s))) as He
      by (by apply He).
    induction ops as [|op ops IH]; intros s Hs; [done|]. cbn. apply IH. by apply bs_exec_len. }
  split; [done|]. intros d w. split.
  - intros Hd. unfold bs_put, bs_unread_data. rewrite (proj2 (Z.eqb_neq _ _)) by lia. cbn.
    unfold bs_poll_read, bs_get_data. cbn. destruct (_ <? _); done.
  - intros rest Hi. split.
    + unfold bs_poll_read, bs_get_data. by rewrite Hi.
    + rewrite Hl, Hi, total_cons. unfold total, zlen. lia.
Qed.

(** A byte stream does not wake its reader when the last sender is
    dropped.  The stream is at its end then, and a poll would be ready, but
    the task that was told to wait stays registered and is not woken. *)
Theorem bstream_reader_not_woken (w : waker) :
  let s := (bs_poll_read w (bs_channel : Bstream F E)).2 in
  (bs_poll_read w (bs_channel : Bstream F E)).1 = None /\
  let s' := bs_sender_drop s in
  (bs_poll_read w s').1 = Some None /\ bs_woken s' = [] /\ bs_recv_task s' = Some w.
Proof.
  assert (fl_intersects (fl_of BS_NEED_READ : F) (fl_of (Z.lor BS_EOF BS_ERROR)) = false) as H1.
  { by rewrite fl_intersects_bits, !fl_bits_of. }
  assert (fl_intersects (fl_insert (fl_of BS_NEED_READ : F) (fl_of (Z.lor BS_EOF BS_SENDER_GONE)))
    (fl_of (Z.lor BS_EOF BS_ERROR)) = true) as H2.
  { by rewrite fl_intersects_bits, fl_bits_insert, !fl_bits_of. }
  unfold bs_poll_read, bs_get_data, bs_channel, bs_new. cbn -[Z.lor]. rewrite H1. cbn -[Z.lor]. by rewrite H2.
Qed.
End bstream.

Lemma bstream_reader_not_woken_witness :
  let s := (bs_poll_read 7 (bs_channel : Bstream Z Z)).2 in
  (bs_poll_read 7 (bs_sender_drop s)).1 = Some None /\ bs_woken (bs_sender_drop s) = [].
Proof. destruct (bstream_reader_not_woken (F := Z) (E := Z) 7) as (_ & ? & ? & _). by split. Defined.

(** ** [pool] *)

Inductive pl_op (A : Type) :=
  | PChannel | PSend (k : nat) (v : A) | PTxDrop (k : nat) | PIsCanceled (k : nat) | PPollCanceled (k : nat) (w : waker)
  | PPollRecv (k : nat) (w : waker) | PRxDrop (k : nat).
Arguments PChannel {A}.
Arguments PSend {A}.
Arguments PTxDrop {A}.
Arguments PIsCanceled {A}.
Arguments PPollCanceled {A}.
Arguments PPollRecv {A}.
Arguments PRxDrop {A}.

Section pool.
Context {T : Type -> Type} `{!Slab T} `{!SlabLaws T} {F : Type} `{!Bitflags F} `{!BitflagsLaws F} {A : Type}.
Implicit Types s : Pool T F A.
Implicit Types tx rx : gset nat.

(** The token of the operation. *)
Definition pl_exec (op : pl_op A) : M (Pool T F A) nat :=
  match op with
  | PChannel => pl_channel
  | PSend k v => pl_send k v;; mret k
  | PTxDrop k => pl_sender_drop k;; mret k
  | PIsCanceled k => pl_is_canceled k;; mret k
  | PPollCanceled k w => pl_poll_canceled k w;; mret k
  | PPollRecv k w => pl_poll_recv k w;; mret k
  | PRxDrop k => pl_receiver_drop k;; mret k
  end.

(** Senders [tx] and receivers [rx] that are alive. *)
Definition pl_legal (op : pl_op A) tx rx : Prop :=
  match op with
  | PChannel => True
  | PSend k _ | PTxDrop k | PIsCanceled k | PPollCanceled k _ => k ∈ tx
  | PPollRecv k _ | PRxDrop k => k ∈ rx
  end.
Definition pl_tx_after (op : pl_op A) (k : nat) tx : gset nat :=
  match op with PChannel => {[k]} ∪ tx | PSend k _ | PTxDrop k => tx ∖ {[k]} | _ => tx end.
Definition pl_rx_after (op : pl_op A) (k : nat) rx : gset nat :=
  match op with PChannel => {[k]} ∪ rx | PRxDrop k => rx ∖ {[k]} | _ => rx end.

(** Entries and handles agree. *)
Definition pl_inv s tx rx : Prop :=
  forall k, match slab_map (pl_slab s) !! k with
  | Some i => fl_contains (pi_flags i) (fl_of PL_SENDER) = bool_decide (k ∈ tx) /\
      fl_contains (pi_flags i) (fl_of PL_RECEIVER) = bool_decide (k ∈ rx) /\ (k ∈ tx \/ k ∈ rx)
  | None => (k ∉ tx) /\ (k ∉ rx)
  end.

Lemma pl_inv_get s tx rx k :
  pl_inv s tx rx -> k ∈ tx \/ k ∈ rx ->
  exists i, slab_map (pl_slab s) !! k = Some i /\ pl_get_inner k s = Done (i, s) /\
    fl_contains (pi_flags i) (fl_of PL_SENDER) = bool_decide (k ∈ tx) /\
    fl_contains (pi_flags i) (fl_of PL_RECEIVER) = bool_decide (k ∈ rx).
Proof.
  intros HI Hk. unfold pl_get_inner. rewrite slab_get_map. specialize (HI k).
  destruct (slab_map (pl_slab s) !! k) as [i|] eqn:Hi; [|naive_solver]. exists i. naive_solver.
Qed.

(** One entry is replaced and one handle may go. *)
Lemma pl_inv_set s tx rx tx' rx' k i0 i ws :
  pl_inv s tx rx -> slab_map (pl_slab s) !! k = Some i0 ->
  (forall j, j <> k -> (j ∈ tx' <-> j ∈ tx) /\ (j ∈ rx' <-> j ∈ rx)) ->
  fl_contains (pi_flags i) (fl_of PL_SENDER) = bool_decide (k ∈ tx') ->
  fl_contains (pi_flags i) (fl_of PL_RECEIVER) = bool_decide (k ∈ rx') -> (k ∈ tx' \/ k ∈ rx') ->
  pl_inv (mkPool (slab_set k i (pl_slab s)) ws) tx' rx'.
Proof.
  intros HI Hk Hothers Hs Hr Hlive j. cbn. rewrite (slab_map_set k i i0) by done.
  destruct (decide (j = k)) as [->|Hne]; [by rewrite lookup_insert_eq|]. rewrite lookup_insert_ne by done.
  specialize (HI j). destruct (Hothers j Hne) as [Ht Hr'].
  destruct (slab_map (pl_slab s) !! j) as [i'|]; [|by rewrite Ht, Hr'].
  rewrite (bool_decide_ext _ _ Ht), (bool_decide_ext _ _ Hr'), Ht, Hr'. done.
Qed.

Lemma pl_inv_remove s tx rx tx' rx' k :
  pl_inv s tx rx -> k ∈ tx \/ k ∈ rx ->
  (forall j, j <> k -> (j ∈ tx' <-> j ∈ tx) /\ (j ∈ rx' <-> j ∈ rx)) -> k ∉ tx' -> k ∉ rx' ->
  exists s', pl_remove k s = Done (tt, s') /\ pl_inv s' tx' rx'.
Proof.
  intros HI Hk Hothers Ht Hr. destruct (pl_inv_get s tx rx k HI Hk) as (i & Hi & _).
  unfold pl_remove. rewrite slab_contains_map, Hi, bool_decide_eq_true_2 by eauto. eexists. split; [done|].
  intros j. cbn. rewrite slab_map_remove. destruct (decide (j = k)) as [->|Hne]; [by rewrite lookup_delete_eq|].
  rewrite lookup_delete_ne by done. specialize (HI j). destruct (Hothers j Hne) as [Ht' Hr'].
  destruct (slab_map (pl_slab s) !! j) as [i'|]; [|by rewrite Ht', Hr'].
  rewrite (bool_decide_ext _ _ Ht'), (bool_decide_ext _ _ Hr'), Ht', Hr'. done.
Qed.

Lemma sender_remove_sender (f : F) : fl_contains (fl_remove f (fl_of PL_SENDER)) (fl_of PL_SENDER) = false.
Proof. change PL_SENDER with (2 ^ 0). rewrite contains_remove by lia. by rewrite andb_false_r. Qed.
Lemma sender_remove_receiver (f : F) :
  fl_contains (fl_remove f (fl_of PL_SENDER)) (fl_of PL_RECEIVER) = fl_contains f (fl_of PL_RECEIVER).
Proof. change PL_SENDER with (2 ^ 0). change PL_RECEIVER with (2 ^ 1). rewrite contains_remove by lia. by rewrite andb_true_r. Qed.
Lemma receiver_remove_receiver (f : F) : fl_contains (fl_remove f (fl_of PL_RECEIVER)) (fl_of PL_RECEIVER) = false.
Proof. change PL_RECEIVER with (2 ^ 1). rewrite contains_remove by lia. by rewrite andb_false_r. Qed.
Lemma receiver_remove_sender (f : F) :
  fl_contains (fl_remove f (fl_of PL_RECEIVER)) (fl_of PL_SENDER) = fl_contains f (fl_of PL_SENDER).
Proof. change PL_SENDER with (2 ^ 0). change PL_RECEIVER with (2 ^ 1). rewrite contains_remove by lia. by rewrite andb_true_r. Qed.

Lemma others_diff (X : gset nat) k j : j <> k -> j ∈ X ∖ {[k]} <-> j ∈ X.
Proof. intros Hne. set_solver. Qed.

Lemma pl_sender_drop_spec s tx rx k :
  pl_inv s tx rx -> k ∈ tx -> exists s', pl_sender_drop k s = Done (tt, s') /\ pl_inv s' (tx ∖ {[k]}) rx.
Proof.
  intros HI Hk. destruct (pl_inv_get s tx rx k HI ltac:(by left)) as (i & Hi & Hg & Hs & Hr).
  unfold pl_sender_drop, mbind, M_bind. rewrite Hg, Hr.
  destruct (decide (k ∈ rx)) as [Hrx|Hrx]; [rewrite bool_decide_eq_true_2 by done|rewrite bool_decide_eq_false_2 by done].
  - eexists. split; [done|]. eapply pl_inv_set; [done|done| | | |by right].
    + intros j Hj. split; [|done]; by apply others_diff.
    + cbn. rewrite sender_remove_sender, bool_decide_eq_false_2; [done|set_solver].
    + cbn. by rewrite sender_remove_receiver, Hr, bool_decide_eq_true_2.
  - apply (pl_inv_remove s tx rx); [done|by left| |set_solver|done]. intros j Hj. split; [|done]; by apply others_diff.
Qed.

Lemma pl_receiver_drop_spec s tx rx k :
  pl_inv s tx rx -> k ∈ rx -> exists s', pl_receiver_drop k s = Done (tt, s') /\ pl_inv s' tx (rx ∖ {[k]}).
Proof.
  intros HI Hk. destruct (pl_inv_get s tx rx k HI ltac:(by right)) as (i & Hi & Hg & Hs & Hr).
  unfold pl_receiver_drop, mbind, M_bind. rewrite Hg, Hs.
  destruct (decide (k ∈ tx)) as [Htx|Htx]; [rewrite bool_decide_eq_true_2 by done|rewrite bool_decide_eq_false_2 by done].
  - eexists. split; [done|]. eapply pl_inv_set; [done|done| | | |by left].
    + intros j Hj. split; [done|]; by apply others_diff.
    + cbn. by rewrite receiver_remove_sender, Hs, bool_decide_eq_true_2.
    + cbn. rewrite receiver_remove_receiver, bool_decide_eq_false_2; [done|set_solver].
  - apply (pl_inv_remove s tx rx); [done|by right| |done|set_solver]. intros j Hj. split; [done|]; by apply others_diff.
Qed.

(** An entry is replaced by one with the same flags. *)
Lemma pl_inv_same s tx rx k i0 i ws :
  pl_inv s tx rx -> k ∈ tx \/ k ∈ rx -> slab_map (pl_slab s) !! k = Some i0 -> pi_flags i = pi_flags i0 ->
  pl_inv (mkPool (slab_set k i (pl_slab s)) ws) tx rx.
Proof.
  intros HI Hk Hi Hf. pose proof (HI k) as Hki. rewrite Hi in Hki. destruct Hki as (Hs & Hr & _).
  eapply pl_inv_set; [done|done|done|by rewrite Hf|by rewrite Hf|done].
Qed.

Lemma pl_channel_spec s tx rx :
  pl_inv s tx rx -> exists k s', pl_channel s = Done (k, s') /\ pl_inv s' ({[k]} ∪ tx) ({[k]} ∪ rx).
Proof.
  intros HI. unfold pl_channel, mbind, M_bind, getS. cbn. set (i0 := mkPInner _ _ _ _).
  pose proof (slab_insert_vacant i0 (pl_slab s)) as Hv. pose proof (slab_map_insert i0 (pl_slab s)) as Hm.
  destruct (slab_insert i0 (pl_slab s)) as [k sl]. cbn in *. eexists _, _. split; [done|].
  intros j. cbn. rewrite Hm. destruct (decide (j = k)) as [->|Hne].
  - rewrite lookup_insert_eq. cbn. rewrite !bool_decide_eq_true_2 by set_solver.
    change PL_SENDER with (2 ^ 0). change PL_RECEIVER with (2 ^ 1). rewrite !contains_bit, !fl_bits_of by done.
    split; [done|]. split; [done|]. left. set_solver.
  - rewrite lookup_insert_ne by done. specialize (HI j).
    assert (forall X : gset nat, j ∈ {[k]} ∪ X <-> j ∈ X) as Hj by set_solver.
    destruct (slab_map (pl_slab s) !! j); [|by rewrite !Hj].
    by rewrite (bool_decide_ext _ _ (Hj tx)), (bool_decide_ext _ _ (Hj rx)), !Hj.
Qed.

Lemma pl_send_spec s tx rx k v :
  pl_inv s tx rx -> k ∈ tx -> exists r s', pl_send k v s = Done (r, s') /\ pl_inv s' (tx ∖ {[k]}) rx.
Proof.
  intros HI Hk. destruct (pl_inv_get s tx rx k HI ltac:(by left)) as (i & Hi & Hg & _).
  unfold pl_send, mbind, M_bind. rewrite Hg. destruct (fl_contains (pi_flags i) (fl_of PL_RECEIVER)).
  - cbn. set (s1 := mkPool _ _). assert (pl_inv s1 tx rx) as HI1 by (eapply pl_inv_same; [done|by left|done|done]).
    destruct (pl_sender_drop_spec s1 tx rx k HI1 Hk) as (s' & Hd & HI'). rewrite Hd. eauto.
  - cbn. destruct (pl_sender_drop_spec s tx rx k HI Hk) as (s' & Hd & HI'). rewrite Hd. eauto.
Qed.

Lemma pl_exec_spec s tx rx op :
  pl_inv s tx rx -> pl_legal op tx rx ->
  exists k s', pl_exec op s = Done (k, s') /\ pl_inv s' (pl_tx_after op k tx) (pl_rx_after op k rx).
Proof.
  intros HI Hleg. destruct op as [|k v|k|k|k w|k w|k]; cbn [pl_exec pl_legal pl_tx_after pl_rx_after] in *;
    [by apply pl_channel_spec|unfold mbind, M_bind..].
  - destruct (pl_send_spec s tx rx k v HI Hleg) as (r & s' & -> & HI'). eauto.
  - destruct (pl_sender_drop_spec s tx rx k HI Hleg) as (s' & -> & HI'). eauto.
  - destruct (pl_inv_get s tx rx k HI ltac:(by left)) as (i & Hi & Hg & _).
    unfold pl_is_canceled, mbind, M_bind. rewrite Hg. eauto.
  - destruct (pl_inv_get s tx rx k HI ltac:(by left)) as (i & Hi & Hg & _).
    unfold pl_poll_canceled, mbind, M_bind. rewrite Hg. destruct (fl_contains _ _); [|eauto].
    eexists _, _. split; [done|]. eapply pl_inv_same; [done|by left|done|done].
  - destruct (pl_inv_get s tx rx k HI ltac:(by right)) as (i & Hi & Hg & _).
    unfold pl_poll_recv, mbind, M_bind. rewrite Hg.
    destruct (pi_value i); [|destruct (fl_contains _ _); [|eauto]]; eexists _, _;
      (split; [done|]); (eapply pl_inv_same; [done|by right|done|done]).
  - destruct (pl_receiver_drop_spec s tx rx k HI Hleg) as (s' & -> & HI'). eauto.
Qed.

(** States of a pool and its live handles. *)
Inductive pl_reachable : Pool T F A -> gset nat -> gset nat -> Prop :=
  | pl_reach_new : pl_reachable pl_new ∅ ∅
  | pl_reach_op s tx rx op k s' :
      pl_reachable s tx rx -> pl_legal op tx rx -> pl_exec op s = Done (k, s') ->
      pl_reachable s' (pl_tx_after op k tx) (pl_rx_after op k rx).

Lemma pl_reachable_inv s tx rx : pl_reachable s tx rx -> pl_inv s tx rx.
Proof.
  induction 1 as [|s tx rx op k s' _ IH Hleg Hrun].
  - intros k. cbn. rewrite slab_map_default, lookup_empty. split; apply not_elem_of_empty.
  - destruct (pl_exec_spec s tx rx op IH Hleg) as (k' & s'' & Hrun' & HI). rewrite Hrun in Hrun'. by injection Hrun' as <- <-.
Qed.

(** C24. Handles of a pool are memory safe: from every state that senders and
    receivers can reach, an operation of a live handle returns, so that the
    unchecked slab access never reaches a vacant entry and no entry is removed
    twice; and the pool holds exactly the entries some handle refers to, so
    that nothing is leaked. *)
Theorem pool_handles_safe s tx rx op :
  pl_reachable s tx rx -> pl_legal op tx rx ->
  (exists k s', pl_exec op s = Done (k, s')) /\ dom (slab_map (pl_slab s)) = tx ∪ rx.
Proof.
  intros HI%pl_reachable_inv Hleg. split.
  - destruct (pl_exec_spec s tx rx op HI Hleg) as (k & s' & Hrun & _). eauto.
  - apply set_eq. intros k. rewrite elem_of_dom, elem_of_union. specialize (HI k).
    destruct (slab_map (pl_slab s) !! k) as [i|]; [split; [intros _; apply HI|by eexists]|].
    split; [by intros []|naive_solver].
Qed.
End pool.

(** A pool whose first sender is gone. *)
Definition demo_pool_pair : Pool map_slab Z Z :=
  match pl_exec PChannel pl_new with Done (_, s) => s | Fault _ => pl_new end.
Definition demo_pool : Pool map_slab Z Z :=
  match pl_exec (PTxDrop 0) demo_pool_pair with Done (_, s) => s | Fault _ => pl_new end.

Lemma pool_handles_safe_witness :
  exists tx rx, (exists k s', pl_exec (PRxDrop 0) demo_pool = Done (k, s')) /\
    dom (slab_map (pl_slab demo_pool)) = tx ∪ rx.
Proof.
  assert (pl_reachable demo_pool_pair (pl_tx_after (A := Z) PChannel 0 ∅) (pl_rx_after (A := Z) PChannel 0 ∅)) as H1
    by (apply (pl_reach_op pl_new ∅ ∅ PChannel 0 demo_pool_pair); [apply pl_reach_new|done|reflexivity]).
  eexists _, _. eapply (pool_handles_safe demo_pool _ _ (PRxDrop 0)).
  - eapply (pl_reach_op demo_pool_pair _ _ (PTxDrop 0) 0 demo_pool H1); [|reflexivity].
    by apply elem_of_union_l, elem_of_singleton.
  - by apply elem_of_union_l, elem_of_singleton.
Defined.

(** Receiver 0 waits; its sender sends. *)
Definition demo_pool_waiting : Pool map_slab Z Z :=
  match (pl_channel;; pl_poll_recv 0 5) pl_new with Done (_, s) => s | Fault _ => pl_new end.
Definition demo_pool_sent : Pool map_slab Z Z :=
  match pl_send 0 42 demo_pool_waiting with Done (_, s) => s | Fault _ => pl_new end.

Lemma pool_no_lost_wakeup_witness :
  exists ws, pl_woken demo_pool_sent = pl_woken demo_pool_waiting ++ ws /\ (5%nat ∈ ws).
Proof.
  eapply (pool_no_lost_wakeup 0 demo_pool_pair demo_pool_waiting demo_pool_sent 5 (inl 42)); [reflexivity|reflexivity|reflexivity| |reflexivity].
  eapply rtc_l; [|apply rtc_refl]. eapply (pl_tx_send _ 0 42). reflexivity.
Defined.

(** ** [condition] *)

Section condition.
Context {T : Type -> Type} `{!Slab T} `{!SlabLaws T} {A : Type} (dv : A).
Implicit Types s : Condition T A.

Lemma notify_with_entry val ks k s s' it :
  cd_for_each (cd_notify_item_with val) ks s = Done (tt, s') -> slab_map (cd_data s) !! k = Some (Some it) ->
  slab_map (cd_data s') !! k = Some (Some (if decide (k ∈ ks) then
      match ci_waker it with Some _ => mkCItem val None | None => mkCItem (ci_val it) None end else it)) /\
  cd_ready s' = cd_ready s.
Proof.
  revert s it. induction ks as [|j ks IH]; intros s it; cbn [cd_for_each].
  { intros [= <-] Hk. by rewrite Hk, decide_False by apply not_elem_of_nil. }
  unfold mbind, M_bind. intros Hrun Hk.
  destruct (cd_notify_item_with val j s) as [[[] s1]|] eqn:Hj; [|done].
  unfold cd_notify_item_with in Hj. rewrite slab_get_map in Hj.
  destruct (decide (j = k)) as [->|Hne].
  - rewrite Hk in Hj. rewrite decide_True by (by left). unfold lw_wake_checked in Hj.
    destruct (ci_waker it) as [w|] eqn:Hw; injection Hj as <-;
      match goal with H : cd_for_each _ _ ?s2 = _ |- _ => edestruct (IH s2) as [-> ->]; [exact H| |] end;
      try (cbn; rewrite (slab_map_set k _ (Some it)) by done; by rewrite lookup_insert_eq);
      cbn; by destruct (decide (k ∈ ks)).
  - assert (slab_map (cd_data s1) !! k = Some (Some it) /\ cd_ready s1 = cd_ready s) as [Hk1 <-].
    { destruct (slab_map (cd_data s) !! j) as [[it'|]|] eqn:Hsj; [|by injection Hj as <-..].
      destruct (lw_wake_checked _) as [b [ws lw]]. injection Hj as <-. cbn.
      rewrite (slab_map_set j _ (Some it')) by done. by rewrite lookup_insert_ne. }
    destruct (IH s1 it Hrun Hk1) as [-> ->]. split; [|done]. do 2 f_equal.
    destruct (decide (k ∈ ks)) as [Hin|Hin]; [by rewrite decide_True by (by right)|].
    rewrite decide_False; [done|]. by intros [|]%elem_of_cons.
Qed.

(** [notify_with] hands the value to every waiter that was told to wait:
    the next poll of each is ready with the value, and the one after that
    waits again unless readiness was locked. *)
Theorem notify_with_delivers val token w w' w'' s s' it :
  slab_map (cd_data s) !! token = Some (Some it) -> ci_waker it = Some w -> cd_notify_with val s = Done (tt, s') ->
  exists s1 s2, waiter_poll_ready dv token w' s' = Done (Some val, s1) /\
    waiter_poll_ready dv token w'' s1 = Done (if cd_ready s then Some dv else None, s2).
Proof.
  intros Hk Hw Hn. unfold cd_notify_with, mbind, M_bind, getS in Hn.
  destruct (notify_with_entry val _ token s s' it Hn Hk) as [He Hr].
  rewrite decide_True, Hw in He.
  2:{ rewrite slab_keys_map. apply list_elem_of_fmap. exists (token, Some it). split; [done|].
      by apply elem_of_map_to_list. }
  unfold waiter_poll_ready. rewrite slab_get_map, He. cbn. eexists _, _. split; [done|].
  rewrite slab_get_map. cbn. rewrite (slab_map_set token _ (Some (mkCItem val None))) by done.
  rewrite lookup_insert_eq. cbn. by rewrite Hr.
Qed.
End condition.

(** A waiter that was told to wait, and the value 9 sent to it. *)
Definition demo_cond : Condition map_slab Z :=
  match (cd_wait;; waiter_poll_ready 0 0 5) cd_new with Done (_, s) => s | Fault _ => cd_new end.
Definition demo_notified : Condition map_slab Z :=
  match cd_notify_with 9 demo_cond with Done (_, s) => s | Fault _ => cd_new end.

Lemma notify_with_delivers_witness :
  exists s1 s2, waiter_poll_ready 0 0 6 demo_notified = Done (Some 9, s1) /\ waiter_poll_ready 0 0 6 s1 = Done (None, s2).
Proof.
  apply (notify_with_delivers 0 9 0 5 6 6 demo_cond demo_notified (mkCItem 0 (Some 5%nat))); reflexivity.
Defined.

Lemma condition_no_lost_wakeup_witness :
  exists ws, cd_woken demo_notified = cd_woken demo_cond ++ ws /\ (5%nat ∈ ws).
Proof.
  eapply (condition_no_lost_wakeup 0 0 (match (cd_wait : M (Condition map_slab Z) nat) cd_new with Done (_, s) => s | _ => cd_new end)
    demo_cond demo_notified 5 9); [reflexivity| |reflexivity].
  eapply rtc_l; [|apply rtc_refl]. apply (cd_tx_notify_with _ _ 9). reflexivity.
Defined.
