(* ===== verification/IoConfig.v ===== *)
(** * [io::cfg]: the configuration of a stream and its pool of buffers

    Models geario/src/io/cfg.rs.  The pool holds handles of [Bytes.v] on the
    memory of [Storage.v]; [resize_min] is shown to make room and to terminate
    exactly when the high watermark is not zero. *)
From Stdlib Require Import ZArith Lia.
From stdpp Require Import base numbers list.
From S2P Require Import Prelude Storage StorageInv StorageOps Bytes BytesRefine.

Definition DEFAULT_CACHE_SIZE : Z := 128.
Definition DEFAULT_HIGH : Z := 16 * 1024 - 24.
Definition DEFAULT_LOW : Z := 512 + 24.
Definition DEFAULT_HALF : Z := (16 * 1024 - 24) / 2.

Record BufConfig := mkBufConfig {
  bc_high : Z;
  bc_low : Z;
  bc_half : Z;
  bc_idx : nat;
  bc_first : bool;
  bc_cache_size : Z;
}.

Record FrameReadRate := mkFrameReadRate { fr_timeout : Z; fr_max_timeout : Z; fr_rate : Z }.

(** [IoConfig]; the page size is [BytePageSize] by its capacity. *)
Record IoConfig := mkIoConfig {
  ic_connect_timeout : Z;
  ic_keepalive_timeout : Z;
  ic_disconnect_timeout : Z;
  ic_frame_read_rate : option FrameReadRate;
  ic_read_buf : BufConfig;
  ic_write_buf : BufConfig;
  ic_write_page_size : Z;
  ic_write_buf_threshold : Z;
}.

(** [IoConfig::new], for a configuration context with id [idx]. *)
Definition io_config_new (idx : nat) (page_size half_capacity : Z) : IoConfig :=
  mkIoConfig 0 0 1 None
    (mkBufConfig DEFAULT_HIGH DEFAULT_LOW DEFAULT_HALF idx true DEFAULT_CACHE_SIZE)
    (mkBufConfig DEFAULT_HIGH DEFAULT_LOW DEFAULT_HALF idx false DEFAULT_CACHE_SIZE)
    page_size half_capacity.

Definition set_watermarks (high low cache_size : Z) (b : BufConfig) : BufConfig :=
  mkBufConfig high low (Z.shiftr high 1) (bc_idx b) (bc_first b) cache_size.
Definition set_read_buf (high low cache_size : Z) (c : IoConfig) : IoConfig :=
  mkIoConfig (ic_connect_timeout c) (ic_keepalive_timeout c) (ic_disconnect_timeout c) (ic_frame_read_rate c)
    (set_watermarks high low cache_size (ic_read_buf c)) (ic_write_buf c) (ic_write_page_size c) (ic_write_buf_threshold c).
Definition set_write_buf (high low cache_size : Z) (c : IoConfig) : IoConfig :=
  mkIoConfig (ic_connect_timeout c) (ic_keepalive_timeout c) (ic_disconnect_timeout c) (ic_frame_read_rate c)
    (ic_read_buf c) (set_watermarks high low cache_size (ic_write_buf c)) (ic_write_page_size c) (ic_write_buf_threshold c).
Definition set_write_buf_threshold (size : Z) (c : IoConfig) : IoConfig :=
  mkIoConfig (ic_connect_timeout c) (ic_keepalive_timeout c) (ic_disconnect_timeout c) (ic_frame_read_rate c)
    (ic_read_buf c) (ic_write_buf c) (ic_write_page_size c) size.
Definition set_disconnect_timeout (timeout : Z) (c : IoConfig) : IoConfig :=
  mkIoConfig (ic_connect_timeout c) (ic_keepalive_timeout c) timeout (ic_frame_read_rate c)
    (ic_read_buf c) (ic_write_buf c) (ic_write_page_size c) (ic_write_buf_threshold c).
Definition set_frame_read_rate (timeout max_timeout rate : Z) (c : IoConfig) : IoConfig :=
  mkIoConfig (ic_connect_timeout c) (ic_keepalive_timeout c) (ic_disconnect_timeout c)
    (Some (mkFrameReadRate timeout max_timeout rate))
    (ic_read_buf c) (ic_write_buf c) (ic_write_page_size c) (ic_write_buf_threshold c).

(** ** The pool *)

(** [LocalCache]: for each configuration the read and the write buffers. *)
Abbreviation LocalCache := (list (list BytesMut * list BytesMut)) (only parsing).

Record Pool := mkPool { po_mem : Mem; po_cache : LocalCache }.
Definition set_po_cache (c : LocalCache) (p : Pool) : Pool := mkPool (po_mem p) c.

Definition on_mem {A} (c : M Mem A) : M Pool A := fun p =>
  match c (po_mem p) with Done (a, m) => Done (a, mkPool m (po_cache p)) | Fault f => Fault f end.

(** [while cache.len() <= idx], a push for each missing entry. *)
Definition cache_grow (idx : nat) (c : LocalCache) : LocalCache :=
  c ++ replicate (S idx - length c) ([], []).

(** [LocalCache::with] for the vector of read or of write buffers. *)
Definition cache_vec (first : bool) (e : list BytesMut * list BytesMut) : list BytesMut := if first then e.1 else e.2.
Definition cache_put (first : bool) (v : list BytesMut) (e : list BytesMut * list BytesMut) : list BytesMut * list BytesMut :=
  if first then (v, e.2) else (e.1, v).
Definition cache_with {A} (idx : nat) (first : bool) (f : list BytesMut -> M Pool (A * list BytesMut)) : M Pool A :=
  modifyS (fun p => set_po_cache (cache_grow idx (po_cache p)) p);;
  p ← getS;
  match po_cache p !! idx with
  | None => failS Panic
  | Some e =>
      '(a, v) ← f (cache_vec first e);
      modifyS (fun p => set_po_cache (<[idx := cache_put first v e]> (po_cache p)) p);;
      mret a
  end.

(** [Vec::pop]. *)
Definition vec_pop {A} (v : list A) : option A * list A :=
  match rev v with [] => (None, v) | x :: v => (Some x, rev v) end.

Definition buf_get (b : BufConfig) : M Pool BytesMut :=
  r ← cache_with (bc_idx b) (bc_first b) (fun v => mret (vec_pop v));
  match r with Some buf => mret buf | None => on_mem (bm_with_capacity (bc_high b)) end.

(** [BufConfig::release]: a buffer that is not kept is dropped. *)
Definition buf_release (b : BufConfig) (buf : BytesMut) : M Pool () :=
  cap ← on_mem (bm_capacity buf);
  if (bc_low b <? cap) && (cap <=? bc_high b) then
    cache_with (bc_idx b) (bc_first b) (fun v =>
      if zlen v <? bc_cache_size b then on_mem (bm_clear buf);; mret (tt, v ++ [buf])
      else on_mem (bm_drop buf);; mret (tt, v))
  else on_mem (bm_drop buf).

(** The loop of [BufConfig::resize_min]: [avail] and [new_cap] grow by [high]
    until there is room. *)
Fixpoint resize_loop (fuel : nat) (high avail new_cap size : Z) : outcome Z :=
  match fuel with
  | O => Fault Diverges
  | S fuel =>
      if avail <? size then
        avail ← checked_add u64_modulus avail high;
        new_cap ← checked_add u64_modulus new_cap high;
        resize_loop fuel high avail new_cap size
      else Done new_cap
  end.

(** The loop runs at most [size] times when it ends at all. *)
Definition resize_min (b : BufConfig) (buf : BytesMut) (size : Z) : M Mem BytesMut :=
  avail ← bm_remaining_mut buf;
  if avail <? size then
    cap ← bm_capacity buf;
    new_cap ← liftS (resize_loop (S (Z.to_nat size)) (bc_high b) avail cap size);
    bm_reserve_capacity buf new_cap
  else mret buf.

Definition resize (b : BufConfig) (buf : BytesMut) : M Mem BytesMut :=
  avail ← bm_remaining_mut buf;
  if avail <? bc_low b then resize_min b buf (bc_high b) else mret buf.

(** ** Room *)

(** With a positive step the loop ends, with less than one step too much. *)
Lemma resize_loop_spec fuel high avail cap size :
  0 < high -> size - avail <= Z.of_nat fuel -> 0 <= avail <= cap ->
  Z.max avail (size + high) + (cap - avail) < u64_modulus ->
  exists k, 0 <= k /\ resize_loop (S fuel) high avail cap size = Done (cap + k * high) /\
    size <= avail + k * high /\ (0 < k -> avail + k * high < size + high).
Proof.
  revert avail cap. induction fuel as [|fuel IH]; intros avail cap Hh Hf Hc Hb.
  { exists 0. cbn. zbool. rewrite Z.mul_0_l, Z.add_0_r. split; [done|]. split; [done|]. lia. }
  remember (S fuel) as n eqn:Hn. cbn. destruct (Z.ltb_spec avail size) as [Hlt|Hge].
  - rewrite !checked_add_ok by lia. cbn. destruct (IH (avail + high) (cap + high)) as (k & Hk & He & Hs & Hu); try lia.
    exists (k + 1). split; [lia|]. split; [rewrite He; f_equal; ring|]. split; [lia|]. intros _.
    destruct (Z.eq_dec k 0) as [->|]; lia.
  - exists 0. split; [lia|]. split; [by rewrite Z.mul_0_l, Z.add_0_r|]. lia.
Qed.

(** With a zero step it never does. *)
Lemma resize_loop_diverges fuel avail cap size :
  0 <= avail < size -> 0 <= cap < u64_modulus -> size < u64_modulus -> resize_loop fuel 0 avail cap size = Fault Diverges.
Proof.
  revert avail cap. induction fuel as [|fuel IH]; intros avail cap Ha Hc Hs; [done|]. cbn.
  zbool. rewrite !checked_add_ok by lia. cbn. rewrite !Z.add_0_r. by apply IH.
Qed.

Lemma remaining_spec m l hs bs :
  Inv m (HM l :: hs) -> rep_handle m (HM l) bs -> bm_remaining_mut l m = Done (room m l, m).
Proof.
  intros HI Hr. destruct (mut_block m l hs bs HI Hr) as (sv & Hl & _).
  unfold bm_remaining_mut, sv_remain, deref, mbind, M_bind, room. by rewrite Hl.
Qed.
Lemma capacity_spec m l hs bs :
  Inv m (HM l :: hs) -> rep_handle m (HM l) bs -> bm_capacity l m = Done (window m l, m).
Proof.
  intros HI Hr. destruct (mut_block m l hs bs HI Hr) as (sv & Hl & _).
  unfold bm_capacity, sv_cap, deref, mbind, M_bind, window. by rewrite Hl.
Qed.

(** [BufConfig::resize_min] ends whenever the high watermark is positive:
    it keeps the content of the buffer, leaves room for [size] bytes, and
    enlarges the buffer by less than one watermark more than needed.  With a
    watermark of zero, which [set_read_buf] accepts, it never ends when room
    is missing. *)
Theorem resize_min_makes_room b m l hs bs size :
  Inv m (HM l :: hs) -> rep_handle m (HM l) bs -> 0 <= size ->
  0 <= bc_high b -> fits_u32 (zlen bs + Z.max (room m l) (size + bc_high b)) ->
  (0 < bc_high b ->
     runs (resize_min b l size) m (fun l' m' =>
       mut_post m hs l' bs m' /\ size <= room m' l' /\ room m' l' <= Z.max (room m l) (size + bc_high b))) /\
  (bc_high b = 0 -> room m l < size -> resize_min b l size m = Fault Diverges).
Proof.
  intros HI Hr Hs Hh Hfit. destruct (mut_room m l hs bs HI Hr) as [Hroom Hwin]. unfold fits_u32 in Hfit. zlen_pos.
  assert (u32_modulus < u64_modulus) as Hmod by done. assert (0 < METADATA_SIZE) as Hmeta by done. split.
  - intros Hpos. unfold resize_min. apply runs_bind. eapply runs_eq; [by eapply remaining_spec|].
    destruct (Z.ltb_spec (room m l) size) as [Hlt|Hge].
    + apply runs_bind. eapply runs_eq; [by eapply capacity_spec|]. apply runs_bind.
      destruct (resize_loop_spec (Z.to_nat size) (bc_high b) (room m l) (window m l) size) as (k & Hk & He & Hsz & Hup); [lia..|].
      eapply runs_lift; [exact He|]. assert (0 < k) as Hk0 by (destruct (Z.eq_dec k 0) as [->|]; lia). specialize (Hup Hk0).
      eapply runs_conseq; [apply (sv_reserve_capacity_spec m l hs bs HI Hr); [lia|unfold fits_u32; lia]|].
      cbn. intros l' m' [Hp ->]. split; [done|]. lia.
    + apply runs_ret. split; [by split; [done|split; [apply frame_refl|]]|]. lia.
  - intros Hz Hlt. unfold resize_min, mbind, M_bind. rewrite (remaining_spec m l hs bs HI Hr). zbool.
    rewrite (capacity_spec m l hs bs HI Hr). unfold liftS.
    rewrite Hz, resize_loop_diverges by lia. done.
Qed.

Definition small_config : BufConfig := mkBufConfig 16 8 8 0 true 4.

Lemma resize_min_makes_room_witness :
  (0 < bc_high small_config ->
     runs (resize_min small_config 0%nat 20) (alloc_block small_vec empty_mem) (fun l' m' =>
       mut_post (alloc_block small_vec empty_mem) [] l' [1; 2; 3] m' /\ 20 <= room m' l' /\
       room m' l' <= Z.max (room (alloc_block small_vec empty_mem) 0%nat) (20 + bc_high small_config))) /\
  (bc_high small_config = 0 -> room (alloc_block small_vec empty_mem) 0%nat < 20 ->
     resize_min small_config 0%nat 20 (alloc_block small_vec empty_mem) = Fault Diverges).
Proof. apply resize_min_makes_room; [apply small_world|apply small_world|vm_compute..]; done. Defined.

(** ** The pool holds empty buffers of its own *)

Definition cached (c : LocalCache) : list BytesMut := c ≫= fun e => e.1 ++ e.2.
Arguments cached : simpl never.

(** Every pooled buffer is empty and is a handle nobody else holds. *)
Record PoolInv (p : Pool) (hs : list handle) : Prop := {
  pi_inv : Inv (po_mem p) ((HM <$> cached (po_cache p)) ++ hs);
  pi_empty l : l ∈ cached (po_cache p) -> rep_handle (po_mem p) (HM l) [];
}.

Lemma cached_grow idx c : cached (cache_grow idx c) = cached c.
Proof.
  unfold cached, cache_grow. rewrite bind_app. set (n := (S idx - length c)%nat).
  assert (forall k, (replicate k ([] : list BytesMut, [] : list BytesMut)) ≫= (fun e => e.1 ++ e.2) = []) as ->.
  { by induction k. }
  apply app_nil_r.
Qed.

Lemma cached_insert c idx e first v :
  c !! idx = Some e ->
  cached (<[idx := cache_put first v e]> c) ++ cache_vec first e ≡ₚ cached c ++ v.
Proof.
  revert idx. induction c as [|x c IH]; intros [|idx] Hl; [done|done|..]; cbn in Hl; unfold cached; cbn; fold (cached c).
  - injection Hl as ->. destruct e as [r w], first; cbn; solve_Permutation.
  - fold (cached (<[idx := cache_put first v e]> c)). rewrite <- !app_assoc, (IH idx Hl). done.
Qed.

Lemma cached_vec c idx e first l : c !! idx = Some e -> l ∈ cache_vec first e -> l ∈ cached c.
Proof.
  intros Hl Hin. apply list_elem_of_bind. exists e. split; [|by eapply list_elem_of_lookup_2].
  destruct first; cbn in Hin; apply elem_of_app; auto.
Qed.

Lemma vec_pop_spec {A} (v : list A) :
  (v = [] /\ vec_pop v = (None, v)) \/ exists x v', v = v' ++ [x] /\ vec_pop v = (Some x, v').
Proof.
  unfold vec_pop. destruct (rev v) as [|x r] eqn:He.
  - left. split; [|done]. by rewrite <- (rev_involutive v), He.
  - right. exists x, (rev r). split; [|done]. by rewrite <- (rev_involutive v), He.
Qed.

(** Taking an entry of the cache. *)
Lemma cache_entry p idx : exists e, po_cache (set_po_cache (cache_grow idx (po_cache p)) p) !! idx = Some e.
Proof.
  destruct (lookup_lt_is_Some_2 (cache_grow idx (po_cache p)) idx) as [e He]; [|by exists e].
  unfold cache_grow. rewrite length_app, length_replicate. lia.
Qed.

Lemma PoolInv_grow p hs idx : PoolInv p hs -> PoolInv (set_po_cache (cache_grow idx (po_cache p)) p) hs.
Proof. intros [H1 H2]. by split; cbn; rewrite cached_grow. Qed.

Lemma buf_get_spec b p hs :
  PoolInv p hs -> 0 <= bc_high b -> fits_u32 (bc_high b) ->
  runs (buf_get b) p (fun l p' => PoolInv p' (HM l :: hs) /\ rep_handle (po_mem p') (HM l) [] /\ frame (po_mem p) (po_mem p') hs).
Proof.
  intros HP Hh Hfit. unfold buf_get, cache_with. apply runs_bind, runs_bind, runs_modify, runs_bind, runs_get.
  pose proof (PoolInv_grow p hs (bc_idx b) HP) as [HI He]. destruct (cache_entry p (bc_idx b)) as [e Hl]. rewrite Hl.
  set (p1 := set_po_cache _ p) in *. assert (po_mem p = po_mem p1) as Hm by done. rewrite Hm. clearbody p1.
  apply runs_bind, runs_ret.
  destruct (vec_pop_spec (cache_vec (bc_first b) e)) as [[Hv ->]|(l & v & Hv & ->)];
    (apply runs_bind, runs_modify, runs_ret); pose proof (cached_insert _ _ _ (bc_first b) (vec_pop (cache_vec (bc_first b) e)).2 Hl) as Hc.
  - rewrite Hv in *. cbn [vec_pop rev snd] in Hc. rewrite !app_nil_r in Hc.
    destruct (create_spec (po_mem p1) ((HM <$> cached (po_cache p1)) ++ hs) Unset (bc_high b) []) as (l & m' & Hcr & HI' & Hf & Hr & _);
      [done|by unfold zlen|done|by left|].
    exists l. eexists. split; [unfold on_mem, bm_with_capacity, sv_with_capacity; change (po_mem _) with (po_mem p1); by rewrite Hcr|]. cbn.
    apply frame_app in Hf as [Hf1 Hf2]. split; [|done]. split; cbn.
    + eapply Inv_perm; [|exact HI']. rewrite Hc. solve_Permutation.
    + intros k Hk. rewrite Hc in Hk. apply (Hf1 (HM k) []); [by apply list_elem_of_fmap_2|by apply He].
  - assert (vec_pop (cache_vec (bc_first b) e) = (Some l, v)) as Hpop.
    { rewrite Hv. unfold vec_pop. rewrite rev_app_distr. cbn. by rewrite rev_involutive. }
    rewrite Hpop, Hv in Hc. cbn [snd] in Hc. apply runs_ret.
    assert (l :: cached (<[bc_idx b:=cache_put (bc_first b) v e]> (po_cache p1)) ≡ₚ cached (po_cache p1)) as Hperm.
    { apply (Permutation_app_inv_r v). rewrite <- Hc. solve_Permutation. }
    assert (l ∈ cached (po_cache p1)) as Hlin by (rewrite <- Hperm; left).
    split; [|split; [by apply He|apply frame_refl]]. split; cbn.
    + eapply Inv_perm; [|exact HI]. rewrite <- Hperm. cbn. solve_Permutation.
    + intros k Hk. apply He. rewrite <- Hperm. by right.
Qed.

Lemma runs_on_mem {A} (c : M Mem A) p (Q : A -> Pool -> Prop) :
  runs c (po_mem p) (fun a m => Q a (mkPool m (po_cache p))) -> runs (on_mem c) p Q.
Proof. intros (a & m & Hc & HQ). exists a, (mkPool m (po_cache p)). unfold on_mem. by rewrite Hc. Qed.

(** Dropping a buffer that is not kept. *)
Lemma pool_drop_spec p l hs :
  PoolInv p (HM l :: hs) ->
  runs (on_mem (bm_drop l)) p (fun _ p' => PoolInv p' hs /\ po_cache p' = po_cache p /\ frame (po_mem p) (po_mem p') hs).
Proof.
  intros [HI He]. apply runs_on_mem. unfold bm_drop.
  eapply runs_conseq; [apply (release_spec _ (HM l) ((HM <$> cached (po_cache p)) ++ hs)); [|done]|].
  - eapply Inv_perm; [|exact HI]. solve_Permutation.
  - intros _ m' (HI' & [Hf1 Hf2]%frame_app & _). split; [|done]. split; [done|]. cbn. intros k Hk.
    apply (Hf1 (HM k) []); [by apply list_elem_of_fmap_2|by apply He].
Qed.

Lemma insert_same (c : LocalCache) (idx : nat) e first : c !! idx = Some e -> <[idx := cache_put first (cache_vec first e) e]> c = c.
Proof. intros Hl. apply list_insert_id. by destruct e as [r w], first. Qed.

Lemma buf_release_spec b p l hs bs :
  PoolInv p (HM l :: hs) -> rep_handle (po_mem p) (HM l) bs ->
  runs (buf_release b l) p (fun _ p' => PoolInv p' hs /\ frame (po_mem p) (po_mem p') hs).
Proof.
  intros HP Hr. pose proof HP as [HI _]. unfold buf_release.
  assert (Inv (po_mem p) (HM l :: (HM <$> cached (po_cache p)) ++ hs)) as HI1 by (eapply Inv_perm; [|exact HI]; solve_Permutation).
  apply runs_bind, runs_on_mem. eapply runs_eq; [by eapply capacity_spec|].
  replace (mkPool (po_mem p) (po_cache p)) with p by (by destruct p).
  destruct (_ && _); [|eapply runs_conseq; [by apply pool_drop_spec|]; by intros _ p' (? & _ & ?)].
  unfold cache_with. apply runs_bind, runs_modify, runs_bind, runs_get.
  pose proof (PoolInv_grow p (HM l :: hs) (bc_idx b) HP) as HP1. destruct (cache_entry p (bc_idx b)) as [e Hl]. rewrite Hl.
  set (p1 := set_po_cache _ p) in *. assert (po_mem p = po_mem p1) as Hm by done. rewrite Hm in *. clearbody p1.
  apply runs_bind. destruct (_ <? _); apply runs_bind.
  - pose proof HP1 as [HI2 He]. apply runs_on_mem. eapply runs_conseq; [apply (sv_truncate_spec (po_mem p1) l ((HM <$> cached (po_cache p1)) ++ hs) bs); [|done|done]|].
    { eapply Inv_perm; [|exact HI2]. solve_Permutation. }
    intros _ m' (HI' & [Hf1 Hf2]%frame_app & Hr'). apply runs_ret, runs_bind, runs_modify, runs_ret.
    pose proof (cached_insert _ _ _ (bc_first b) (cache_vec (bc_first b) e ++ [l]) Hl) as Hc.
    assert (cached (<[bc_idx b := cache_put (bc_first b) (cache_vec (bc_first b) e ++ [l]) e]> (po_cache p1)) ≡ₚ l :: cached (po_cache p1)) as Hperm.
    { apply (Permutation_app_inv_r (cache_vec (bc_first b) e)). rewrite Hc. solve_Permutation. }
    split; [|done]. split; cbn.
    + eapply Inv_perm; [|exact HI']. rewrite Hperm. cbn. solve_Permutation.
    + intros k Hk. rewrite Hperm in Hk. apply elem_of_cons in Hk as [->|Hk]; [done|].
      apply (Hf1 (HM k) []); [by apply list_elem_of_fmap_2|by apply He].
  - eapply runs_conseq; [by apply pool_drop_spec|]. intros _ p' (HP' & Hc & Hf). apply runs_ret, runs_bind, runs_modify, runs_ret.
    rewrite Hc, insert_same by done. split; [|done]. destruct HP' as [? ?]. rewrite Hc in *. by split.
Qed.

(** The pool of buffers: [get] returns an empty buffer that no other
    handle refers to, and [release] takes a buffer over, cleared, or frees it;
    no other handle sees a change, and the pooled buffers stay empty and
    private. *)
Theorem pooled_buffers_private b p hs :
  PoolInv p hs -> 0 <= bc_high b -> fits_u32 (bc_high b) ->
  runs (buf_get b) p (fun l p' =>
    PoolInv p' (HM l :: hs) /\ rep_handle (po_mem p') (HM l) [] /\ frame (po_mem p) (po_mem p') hs) /\
  (forall l bs hs', hs = HM l :: hs' -> rep_handle (po_mem p) (HM l) bs ->
     runs (buf_release b l) p (fun _ p' => PoolInv p' hs' /\ frame (po_mem p) (po_mem p') hs')).
Proof.
  intros HP Hh Hfit. split; [by apply buf_get_spec|]. intros l bs hs' -> Hr. by eapply buf_release_spec.
Qed.

Definition small_pool : Pool := mkPool (alloc_block small_vec empty_mem) [].

Lemma small_pool_inv : PoolInv small_pool [HM 0%nat].
Proof. split; [apply small_world|by intros l ?%not_elem_of_nil]. Qed.

Lemma pooled_buffers_private_witness :
  runs (buf_get small_config) small_pool (fun l p' =>
    PoolInv p' [HM l; HM 0%nat] /\ rep_handle (po_mem p') (HM l) [] /\ frame (po_mem small_pool) (po_mem p') [HM 0%nat]) /\
  (forall l bs hs', [HM 0%nat] = HM l :: hs' -> rep_handle (po_mem small_pool) (HM l) bs ->
     runs (buf_release small_config l) small_pool (fun _ p' => PoolInv p' hs' /\ frame (po_mem small_pool) (po_mem p') hs')).
Proof. apply (pooled_buffers_private small_config small_pool [HM 0%nat]); [apply small_pool_inv|done..]. Defined.
