(* ===== verification/IoFlags.v ===== *)
(** * [io::flags]: the state flags of an I/O stream

    Models geario/src/io/flags.rs.  The flag set is a type made by
    [bitflags!]; an operation on the cell takes the old set and returns the
    new one. *)
From Stdlib Require Import ZArith Lia.
From stdpp Require Import base numbers list.
From S2P Require Import Prelude Deps.

Definition IO_STOPPED : Z := 2 ^ 0.
Definition IO_STOPPING : Z := 2 ^ 1.
Definition IO_STOPPING_FILTERS : Z := 2 ^ 2.
Definition RD_NOTIFIED : Z := 2 ^ 3.
Definition RD_PAUSED : Z := 2 ^ 4.
Definition RD_NOTIFY : Z := 2 ^ 5.
Definition BUF_R_READY : Z := 2 ^ 6.
Definition RD_BACKPRESSURE : Z := 2 ^ 7.
Definition WR_FLUSH : Z := 2 ^ 8.
Definition WR_PAUSED : Z := 2 ^ 9.
Definition WR_NOTIFY : Z := 2 ^ 10.
Definition WR_SEND_OP : Z := 2 ^ 11.
Definition DSP_TIMEOUT : Z := 2 ^ 12.
Definition DSP_W_BACKPRESSURE : Z := 2 ^ 13.
Definition DIRECT_WR_SUP : Z := 2 ^ 15.

Section flags.
Context {F : Type} `{!Bitflags F}.
Implicit Types f : F.

Definition flags_new (direct_wr : bool) : F :=
  if direct_wr then fl_of (Z.lor WR_PAUSED DIRECT_WR_SUP) else fl_of WR_PAUSED.
Definition flags_new_stopped : F := fl_of (Z.lor (Z.lor IO_STOPPED IO_STOPPING) IO_STOPPING_FILTERS).

(** [contains], [intersects], [insert] and [remove] of the cell. *)
Definition fcontains (n : Z) f : bool := fl_contains f (fl_of n).
Definition fintersects (n : Z) f : bool := fl_intersects f (fl_of n).
Definition finsert (n : Z) f : F := fl_insert f (fl_of n).
Definition fremove (n : Z) f : F := fl_remove f (fl_of n).

Definition is_closed f : bool := fintersects (Z.lor IO_STOPPING IO_STOPPED) f.
Definition is_terminated f : bool := fcontains IO_STOPPED f.
Definition is_stopping f : bool := fcontains IO_STOPPING f.
Definition is_stopping_any f : bool := fintersects (Z.lor (Z.lor IO_STOPPED IO_STOPPING) IO_STOPPING_FILTERS) f.
Definition is_stopping_filters f : bool := fcontains IO_STOPPING_FILTERS f.
Definition is_write_notify f : bool := fcontains WR_NOTIFY f.
Definition is_write_flush f : bool := fintersects WR_FLUSH f.
Definition is_shutting_down_filters f : bool :=
  fcontains IO_STOPPING_FILTERS f && negb (fintersects (Z.lor IO_STOPPED IO_STOPPING) f).
Definition is_direct_wr_enabled f : bool := fcontains DIRECT_WR_SUP f.
Definition is_read_paused f : bool := fcontains RD_PAUSED f.
Definition is_write_paused f : bool := fcontains WR_PAUSED f.
Definition is_read_ready f : bool := fcontains BUF_R_READY f.
Definition is_read_notify f : bool := fcontains RD_NOTIFY f.
Definition is_rd_backpressure f : bool := fcontains RD_BACKPRESSURE f.
Definition is_wr_backpressure f : bool := fcontains DSP_W_BACKPRESSURE f.
Definition is_wr_send_scheduled f : bool := fcontains WR_SEND_OP f.
Definition is_read_paused_or_backpressure f : bool := fintersects (Z.lor RD_PAUSED RD_BACKPRESSURE) f.
Definition is_read_ready_and_backpressure f : bool := fcontains (Z.lor BUF_R_READY RD_BACKPRESSURE) f.

Definition set_read_paused f : F := finsert RD_PAUSED f.
Definition set_write_paused f : F := finsert WR_PAUSED f.
Definition set_write_notify f : F := finsert WR_NOTIFY f.
Definition set_wr_send_scheduled f : F := finsert WR_SEND_OP f.
Definition set_wr_backpressure f : F := finsert DSP_W_BACKPRESSURE f.
Definition set_filter_stopping f : F := finsert IO_STOPPING_FILTERS f.
Definition set_terminate f : F :=
  finsert (Z.lor (Z.lor (Z.lor IO_STOPPED IO_STOPPING) IO_STOPPING_FILTERS) BUF_R_READY) f.
Definition set_wants_write_flush f : F := finsert WR_FLUSH f.
Definition set_read_notify f : F := finsert RD_NOTIFY f.
Definition set_read_notifed f : F := finsert RD_NOTIFIED f.
Definition set_read_ready f : F := finsert BUF_R_READY f.
Definition set_read_ready_and_backpressure f : F := finsert (Z.lor (Z.lor RD_PAUSED BUF_R_READY) RD_BACKPRESSURE) f.
Definition set_filters_stopped f : F := finsert IO_STOPPING f.
Definition unset_write_paused f : F := fremove WR_PAUSED f.
Definition unset_write_notify f : F := fremove WR_NOTIFY f.
Definition unset_wr_send_scheduled f : F := fremove WR_SEND_OP f.
Definition unset_wr_backpressure f : F := fremove DSP_W_BACKPRESSURE f.
Definition unset_wr_backpressure_and_flush f : F := fremove (Z.lor DSP_W_BACKPRESSURE WR_FLUSH) f.
Definition unset_all_read_flags f : F := fremove (Z.lor BUF_R_READY RD_BACKPRESSURE) f.
Definition unset_read_ready f : F := fremove BUF_R_READY f.
Definition unset_read_paused f : F := fremove RD_PAUSED f.

(** The test-and-clear and test-and-set operations: the answer and the new
    set. *)
Definition check_read_notifed f : bool * F :=
  if fcontains RD_NOTIFIED f then (true, fremove (Z.lor RD_NOTIFY RD_NOTIFIED) f) else (false, f).
Definition check_dispatcher_timeout f : bool * F :=
  if fcontains DSP_TIMEOUT f then (true, fremove DSP_TIMEOUT f) else (false, f).
Definition check_dispatcher_timeout_unset f : bool * F :=
  if fcontains DSP_TIMEOUT f then (false, f) else (true, finsert DSP_TIMEOUT f).
End flags.

(** ** Single bits *)

Section bits.
Context {F : Type} `{!Bitflags F} `{!BitflagsLaws F}.
Implicit Types f : F.

(** Bit [k] of the set. *)
Definition has (k : Z) f : bool := Z.testbit (fl_bits f) k.

Lemma has_insert n k f : 0 <= n -> has k (finsert n f) = has k f || Z.testbit n k.
Proof. intros. unfold has, finsert. by rewrite fl_bits_insert, fl_bits_of, Z.lor_spec. Qed.

Lemma has_remove n k f : 0 <= n -> has k (fremove n f) = has k f && negb (Z.testbit n k).
Proof. intros. unfold has, fremove. by rewrite fl_bits_remove, fl_bits_of, Z.ldiff_spec. Qed.

Lemma has_of n k : 0 <= n -> has k (fl_of n : F) = Z.testbit n k.
Proof. intros. unfold has. by rewrite fl_bits_of. Qed.

Lemma contains_has k f : 0 <= k -> fcontains (2 ^ k) f = has k f.
Proof. intros. by apply contains_bit. Qed.

Lemma contains_two j k f : 0 <= j -> 0 <= k -> fcontains (Z.lor (2 ^ j) (2 ^ k)) f = has j f && has k f.
Proof.
  intros Hj Hk. rewrite <- !contains_has by done. unfold fcontains. rewrite !fl_contains_bits.
  assert (0 <= Z.lor (2 ^ j) (2 ^ k)) by (apply Z.lor_nonneg; lia). rewrite !fl_bits_of by lia.
  set (b := fl_bits f). apply eq_true_iff_eq. rewrite andb_true_iff, !Z.eqb_eq. split.
  - intros He. split; apply Z.bits_inj; intros i; apply (f_equal (fun z => Z.testbit z i)) in He; revert He;
      rewrite !Z.land_spec, !Z.lor_spec; destruct (Z.testbit b i), (Z.testbit (2 ^ j) i), (Z.testbit (2 ^ k) i); done.
  - intros [H1 H2]. by rewrite Z.land_lor_distr_r, H1, H2.
Qed.

Lemma intersects_has k f : 0 <= k -> fintersects (2 ^ k) f = has k f.
Proof.
  intros Hk. rewrite <- contains_has by done. unfold fintersects, fcontains.
  rewrite fl_intersects_bits, fl_contains_bits, fl_bits_of by lia. set (b := fl_bits f).
  assert (Z.land b (2 ^ k) = if Z.testbit b k then 2 ^ k else 0) as ->.
  { apply Z.bits_inj. intros i. rewrite Z.land_spec, testbit_pow2 by done.
    destruct (Z.eqb_spec i k) as [->|Hne]; destruct (Z.testbit b k) eqn:Hb.
    - by rewrite Z.pow2_bits_true.
    - by rewrite Z.bits_0.
    - rewrite andb_false_r, testbit_pow2 by done. by destruct (Z.eqb_spec i k).
    - by rewrite andb_false_r, Z.bits_0. }
  assert (2 ^ k <> 0) by (apply Z.pow_nonzero; lia).
  destruct (Z.testbit b k); [rewrite Z.eqb_refl|]; destruct (Z.eqb_spec 0 (2 ^ k)); destruct (Z.eqb_spec (2 ^ k) 0); try done; lia.
Qed.

Lemma intersects_lor m n f : 0 <= m -> 0 <= n -> fintersects (Z.lor m n) f = fintersects m f || fintersects n f.
Proof.
  intros. unfold fintersects. assert (0 <= Z.lor m n) by (by apply Z.lor_nonneg).
  rewrite !fl_intersects_bits, !fl_bits_of, Z.land_lor_distr_r by done. set (x := Z.land _ m). set (y := Z.land _ n).
  destruct (Z.eqb_spec (Z.lor x y) 0) as [Hxy|Hxy], (Z.eqb_spec x 0) as [Hx|Hx], (Z.eqb_spec y 0) as [Hy|Hy]; try done.
  all: try (apply Z.lor_eq_0_iff in Hxy as [? ?]; done). by rewrite Hx, Hy in Hxy.
Qed.

(** *** Tests *)

Lemma is_terminated_has f : is_terminated f = has 0 f.
Proof. by apply (contains_has 0). Qed.
Lemma is_stopping_has f : is_stopping f = has 1 f.
Proof. by apply (contains_has 1). Qed.
Lemma is_stopping_filters_has f : is_stopping_filters f = has 2 f.
Proof. by apply (contains_has 2). Qed.
Lemma is_write_notify_has f : is_write_notify f = has 10 f.
Proof. by apply (contains_has 10). Qed.
Lemma is_direct_wr_enabled_has f : is_direct_wr_enabled f = has 15 f.
Proof. by apply (contains_has 15). Qed.
Lemma is_read_paused_has f : is_read_paused f = has 4 f.
Proof. by apply (contains_has 4). Qed.
Lemma is_write_paused_has f : is_write_paused f = has 9 f.
Proof. by apply (contains_has 9). Qed.
Lemma is_read_ready_has f : is_read_ready f = has 6 f.
Proof. by apply (contains_has 6). Qed.
Lemma is_read_notify_has f : is_read_notify f = has 5 f.
Proof. by apply (contains_has 5). Qed.
Lemma is_rd_backpressure_has f : is_rd_backpressure f = has 7 f.
Proof. by apply (contains_has 7). Qed.
Lemma is_wr_backpressure_has f : is_wr_backpressure f = has 13 f.
Proof. by apply (contains_has 13). Qed.
Lemma is_wr_send_scheduled_has f : is_wr_send_scheduled f = has 11 f.
Proof. by apply (contains_has 11). Qed.
Lemma is_write_flush_has f : is_write_flush f = has 8 f.
Proof. by apply (intersects_has 8). Qed.
Lemma is_closed_has f : is_closed f = has 1 f || has 0 f.
Proof. unfold is_closed. rewrite intersects_lor by done. by rewrite (intersects_has 1), (intersects_has 0). Qed.
Lemma is_stopping_any_has f : is_stopping_any f = has 0 f || has 1 f || has 2 f.
Proof.
  unfold is_stopping_any. rewrite !intersects_lor by done. by rewrite (intersects_has 0), (intersects_has 1), (intersects_has 2).
Qed.
Lemma is_shutting_down_filters_has f : is_shutting_down_filters f = has 2 f && negb (has 0 f || has 1 f).
Proof.
  unfold is_shutting_down_filters. rewrite intersects_lor by done.
  by rewrite (contains_has 2), (intersects_has 0), (intersects_has 1).
Qed.
Lemma is_read_paused_or_backpressure_has f : is_read_paused_or_backpressure f = has 4 f || has 7 f.
Proof. unfold is_read_paused_or_backpressure. rewrite intersects_lor by done. by rewrite (intersects_has 4), (intersects_has 7). Qed.
Lemma is_read_ready_and_backpressure_has f : is_read_ready_and_backpressure f = has 6 f && has 7 f.
Proof. by apply (contains_two 6 7). Qed.

(** *** Updates *)

Lemma has_set_read_paused k f : has k (set_read_paused f) = has k f || Z.testbit 16 k.
Proof. by apply has_insert. Qed.
Lemma has_set_write_paused k f : has k (set_write_paused f) = has k f || Z.testbit 512 k.
Proof. by apply has_insert. Qed.
Lemma has_set_write_notify k f : has k (set_write_notify f) = has k f || Z.testbit 1024 k.
Proof. by apply has_insert. Qed.
Lemma has_set_wr_send_scheduled k f : has k (set_wr_send_scheduled f) = has k f || Z.testbit 2048 k.
Proof. by apply has_insert. Qed.
Lemma has_set_wr_backpressure k f : has k (set_wr_backpressure f) = has k f || Z.testbit 8192 k.
Proof. by apply has_insert. Qed.
Lemma has_set_filter_stopping k f : has k (set_filter_stopping f) = has k f || Z.testbit 4 k.
Proof. by apply has_insert. Qed.
Lemma has_set_terminate k f : has k (set_terminate f) = has k f || Z.testbit 71 k.
Proof. by apply has_insert. Qed.
Lemma has_set_wants_write_flush k f : has k (set_wants_write_flush f) = has k f || Z.testbit 256 k.
Proof. by apply has_insert. Qed.
Lemma has_set_read_notify k f : has k (set_read_notify f) = has k f || Z.testbit 32 k.
Proof. by apply has_insert. Qed.
Lemma has_set_read_notifed k f : has k (set_read_notifed f) = has k f || Z.testbit 8 k.
Proof. by apply has_insert. Qed.
Lemma has_set_read_ready k f : has k (set_read_ready f) = has k f || Z.testbit 64 k.
Proof. by apply has_insert. Qed.
Lemma has_set_read_ready_and_backpressure k f : has k (set_read_ready_and_backpressure f) = has k f || Z.testbit 208 k.
Proof. by apply has_insert. Qed.
Lemma has_set_filters_stopped k f : has k (set_filters_stopped f) = has k f || Z.testbit 2 k.
Proof. by apply has_insert. Qed.
Lemma has_unset_write_paused k f : has k (unset_write_paused f) = has k f && negb (Z.testbit 512 k).
Proof. by apply has_remove. Qed.
Lemma has_unset_write_notify k f : has k (unset_write_notify f) = has k f && negb (Z.testbit 1024 k).
Proof. by apply has_remove. Qed.
Lemma has_unset_wr_send_scheduled k f : has k (unset_wr_send_scheduled f) = has k f && negb (Z.testbit 2048 k).
Proof. by apply has_remove. Qed.
Lemma has_unset_wr_backpressure k f : has k (unset_wr_backpressure f) = has k f && negb (Z.testbit 8192 k).
Proof. by apply has_remove. Qed.
Lemma has_unset_wr_backpressure_and_flush k f : has k (unset_wr_backpressure_and_flush f) = has k f && negb (Z.testbit 8448 k).
Proof. by apply has_remove. Qed.
Lemma has_unset_all_read_flags k f : has k (unset_all_read_flags f) = has k f && negb (Z.testbit 192 k).
Proof. by apply has_remove. Qed.
Lemma has_unset_read_ready k f : has k (unset_read_ready f) = has k f && negb (Z.testbit 64 k).
Proof. by apply has_remove. Qed.
Lemma has_unset_read_paused k f : has k (unset_read_paused f) = has k f && negb (Z.testbit 16 k).
Proof. by apply has_remove. Qed.

Lemma has_new k d : has k (flags_new d : F) = Z.testbit (if d then 33280 else 512) k.
Proof. unfold flags_new. destruct d; by apply has_of. Qed.
Lemma has_new_stopped k : has k (flags_new_stopped : F) = Z.testbit 7 k.
Proof. by apply has_of. Qed.
Lemma has_check_read_notifed k f : has k (check_read_notifed f).2 = has k f && negb (has 3 f && Z.testbit 40 k).
Proof.
  unfold check_read_notifed. rewrite (contains_has 3) by done. destruct (has 3 f) eqn:H3; cbn; [|by rewrite andb_true_r].
  by apply has_remove.
Qed.
Lemma has_check_dispatcher_timeout k f : has k (check_dispatcher_timeout f).2 = has k f && negb (Z.testbit 4096 k).
Proof.
  unfold check_dispatcher_timeout. rewrite (contains_has 12) by done. destruct (has 12 f) eqn:H12; cbn; [by apply has_remove|].
  rewrite (testbit_pow2 12) by done. destruct (Z.eqb_spec k 12) as [->|]; [by rewrite H12|by rewrite andb_true_r].
Qed.
Lemma check_dispatcher_timeout_has f : (check_dispatcher_timeout f).1 = has 12 f.
Proof. unfold check_dispatcher_timeout. rewrite (contains_has 12) by done. by destruct (has 12 f). Qed.
Lemma has_check_dispatcher_timeout_unset k f : has k (check_dispatcher_timeout_unset f).2 = has k f || Z.testbit 4096 k.
Proof.
  unfold check_dispatcher_timeout_unset. rewrite (contains_has 12) by done. destruct (has 12 f) eqn:H12; cbn; [|by apply has_insert].
  rewrite (testbit_pow2 12) by done. destruct (Z.eqb_spec k 12) as [->|]; [by rewrite H12|by rewrite orb_false_r].
Qed.
Lemma check_dispatcher_timeout_unset_has f : (check_dispatcher_timeout_unset f).1 = negb (has 12 f).
Proof. unfold check_dispatcher_timeout_unset. rewrite (contains_has 12) by done. by destruct (has 12 f). Qed.
End bits.

Create Rewrite HintDb flags.
#[export] Hint Rewrite @is_terminated_has @is_stopping_has @is_stopping_filters_has @is_write_notify_has
  @is_direct_wr_enabled_has @is_read_paused_has @is_write_paused_has @is_read_ready_has @is_read_notify_has
  @is_rd_backpressure_has @is_wr_backpressure_has @is_wr_send_scheduled_has @is_write_flush_has @is_closed_has
  @is_stopping_any_has @is_shutting_down_filters_has @is_read_paused_or_backpressure_has
  @is_read_ready_and_backpressure_has @has_set_read_paused @has_set_write_paused @has_set_write_notify
  @has_set_wr_send_scheduled @has_set_wr_backpressure @has_set_filter_stopping @has_set_terminate
  @has_set_wants_write_flush @has_set_read_notify @has_set_read_notifed @has_set_read_ready
  @has_set_read_ready_and_backpressure @has_set_filters_stopped @has_unset_write_paused @has_unset_write_notify
  @has_unset_wr_send_scheduled @has_unset_wr_backpressure @has_unset_wr_backpressure_and_flush
  @has_unset_all_read_flags @has_unset_read_ready @has_unset_read_paused @has_new @has_new_stopped
  @has_check_read_notifed @has_check_dispatcher_timeout @check_dispatcher_timeout_has
  @has_check_dispatcher_timeout_unset @check_dispatcher_timeout_unset_has using typeclasses eauto : flags.

(** Reads every test of a flag as a bit, and every bit of an updated set. *)
Ltac flags := autorewrite with flags in *; cbn -[has] in *.
