(* ===== verification/IoBuf.v ===== *)
(** * [io::buf] and [io::filter]: the stack of buffers and the filter chain

    Models geario/src/io/buf.rs and filter.rs.  Buffers are the byte strings
    they hold ([PagesRefine.v] and [BytesRefine.v] relate those to the blocks
    in memory); a buffer that is taken from its cell leaves [None], and the
    [unwrap] of an empty write cell is a panic.  A filter layer is code of the
    user of the stream: it is given the four buffers around it through
    [FilterBuf], whose methods are modelled, and is a type class. *)
From Stdlib Require Import ZArith Lia String.
From stdpp Require Import base numbers list strings.
From S2P Require Import Prelude.

Abbreviation byte := Z (only parsing).

(** [io::Error]: its kind and its text, which is what the sources keep of it. *)
Inductive ErrorKind := NotConnected | TimedOut | UnexpectedEof | WriteZero | OtherKind (n : Z).
Record IoError := mkIoError { err_kind : ErrorKind; err_text : string }.

(** [io::Result]: [inl] is [Ok]. *)
Abbreviation result A := (A + IoError)%type (only parsing).

Inductive Poll (A : Type) := Pending | Ready (a : A).
Arguments Pending {A}.
Arguments Ready {A} a.

Definition poll_is_ready {A} (p : Poll A) : bool := match p with Ready _ => true | Pending => false end.

(** ** The stack *)

Record Buffer := mkBuffer { b_read : option (list byte); b_write : option (list byte) }.
Definition set_b_read (r : option (list byte)) (b : Buffer) : Buffer := mkBuffer r (b_write b).
Definition set_b_write (w : option (list byte)) (b : Buffer) : Buffer := mkBuffer (b_read b) w.

Abbreviation Stack := (list Buffer) (only parsing).

Definition new_buffer : Buffer := mkBuffer None (Some []).
Definition stack_new : Stack := [new_buffer; new_buffer].
Definition stack_add_layer (s : Stack) : Stack := new_buffer :: s.

(** [self.buffers[i]] and its update. *)
Definition stack_get (i : nat) : M Stack Buffer := fun s =>
  match s !! i with Some b => Done (b, s) | None => Fault Panic end.
Definition stack_set (i : nat) (b : Buffer) : M Stack () := modifyS (<[i := b]>).
(** [self.buffers.len() - 2]: the buffers the driver reads into and writes from. *)
Definition stack_last : M Stack nat := fun s =>
  if (2 <=? length s)%nat then Done (length s - 2, s)%nat else Fault Panic.

(** [Buffer::with_write] with a closure that only changes the buffer. *)
Definition stack_with_write {A} (i : nat) (f : list byte -> A * list byte) : M Stack A :=
  b ← stack_get i;
  match b_write b with
  | None => failS Panic
  | Some wb => let '(result, wb) := f wb in stack_set i (set_b_write (Some wb) b);; mret result
  end.
Definition stack_write_len (i : nat) : M Stack Z := stack_with_write i (fun b => (zlen b, b)).
Definition stack_is_write_empty (i : nat) : M Stack bool := stack_with_write i (fun b => (zlen b =? 0, b)).
Definition stack_read_len (i : nat) : M Stack Z :=
  b ← stack_get i; mret (match b_read b with Some rb => zlen rb | None => 0 end).

(** The lengths of two buffers in memory do not overflow a [usize]. *)
Definition write_buf_size : M Stack Z :=
  s ← getS;
  if (length s =? 2)%nat then stack_write_len 0
  else first ← stack_write_len 0; i ← stack_last; last ← stack_write_len i; mret (first + last).
Definition with_write_src {A} (f : list byte -> A * list byte) : M Stack A := stack_with_write 0 f.
Definition with_write_dst {A} (f : list byte -> A * list byte) : M Stack A := i ← stack_last; stack_with_write i f.
Definition read_dst_size : M Stack Z := stack_read_len 0.

(** [Stack::get_read_buf] and [Stack::set_read_buf]: the buffer the driver
    reads into; an empty buffer goes back to the pool. *)
Definition stack_get_read_buf : M Stack (option (list byte)) :=
  i ← stack_last; b ← stack_get i; stack_set i (set_b_read None b);; mret (b_read b).
Definition stack_set_read_buf (buf : list byte) : M Stack () :=
  i ← stack_last;
  b ← stack_get i;
  match b_read b with
  | Some first_buf => stack_set i (set_b_read (Some (first_buf ++ buf)) b)
  | None => if negb (zlen buf =? 0) then stack_set i (set_b_read (Some buf) b) else mret tt
  end.

(** ** [FilterBuf] *)

Record FilterBuf := mkFilterBuf {
  fb_curr : Buffer;
  fb_next : Buffer;
  fb_wants_write : bool;
}.

(** A buffer is put back unless it is empty. *)
Definition keep_filled (b : option (list byte)) : option (list byte) :=
  match b with Some bs => if zlen bs =? 0 then None else Some bs | None => None end.

Definition fb_with_read_src {A} (f : option (list byte) -> A * option (list byte)) : M FilterBuf A := fun fb =>
  let '(result, read_src) := f (b_read (fb_next fb)) in
  Done (result, mkFilterBuf (fb_curr fb) (set_b_read (keep_filled read_src) (fb_next fb)) (fb_wants_write fb)).

Definition fb_with_read_buffers {A}
    (f : option (list byte) -> list byte -> A * option (list byte) * list byte) : M FilterBuf A := fun fb =>
  let read_dst := match b_read (fb_curr fb) with Some b => b | None => [] end in
  let '(result, read_src, read_dst) := f (b_read (fb_next fb)) read_dst in
  Done (result, mkFilterBuf (set_b_read (keep_filled (Some read_dst)) (fb_curr fb))
                  (set_b_read (keep_filled read_src) (fb_next fb)) (fb_wants_write fb)).

Definition fb_with_write_buffers {A} (f : list byte -> list byte -> A * list byte * list byte) : M FilterBuf A := fun fb =>
  match b_write (fb_curr fb), b_write (fb_next fb) with
  | Some write_curr, Some write_next =>
      let write_len := if fb_wants_write fb then 0 else zlen write_next in
      let '(result, write_curr, write_next) := f write_curr write_next in
      let wants := if negb (fb_wants_write fb) && (write_len <? zlen write_next) then true else fb_wants_write fb in
      Done (result, mkFilterBuf (set_b_write (Some write_curr) (fb_curr fb)) (set_b_write (Some write_next) (fb_next fb)) wants)
  | _, _ => Fault Panic
  end.

(** ** Layers *)

(** [FilterLayer]: what a layer does with the buffers around it. *)
Class FilterLayer (L : Type) := {
  ly_process_read_buf : L -> M FilterBuf (result () * L);
  ly_process_write_buf : L -> M FilterBuf (result () * L);
  ly_shutdown : L -> M FilterBuf (result (Poll ()) * L);
}.

Section chain.
Context {L : Type} `{!FilterLayer L}.

(** [Layer<F, L>]: the layer and whether it was shut down.  A chain is the
    list of layers, the outermost first, above [Base]. *)
Record Layer := mkLayer { la_layer : L; la_done : bool }.

(** [FilterCtx]: the chain that is being run, the stack and the updates;
    [idx] is an argument of the operations. *)
Record FilterCtx := mkFilterCtx {
  fc_layers : list Layer;
  fc_stack : Stack;
  fc_wants_write : bool;
  fc_notify : bool;
}.
Definition set_fc_layers (ls : list Layer) (c : FilterCtx) : FilterCtx :=
  mkFilterCtx ls (fc_stack c) (fc_wants_write c) (fc_notify c).
Definition set_fc_stack (s : Stack) (c : FilterCtx) : FilterCtx :=
  mkFilterCtx (fc_layers c) s (fc_wants_write c) (fc_notify c).
Definition set_fc_wants_write (w : bool) (c : FilterCtx) : FilterCtx :=
  mkFilterCtx (fc_layers c) (fc_stack c) w (fc_notify c).

Definition on_stack {A} (c : M Stack A) : M FilterCtx A := fun ctx =>
  match c (fc_stack ctx) with Done (a, s) => Done (a, set_fc_stack s ctx) | Fault f => Fault f end.

(** The layer [self] at position [idx] of the chain. *)
Definition fc_layer (idx : nat) : M FilterCtx Layer := fun ctx =>
  match fc_layers ctx !! idx with Some la => Done (la, ctx) | None => Fault Undefined end.
Definition fc_update (idx : nat) (la : Layer) : M FilterCtx () :=
  modifyS (fun ctx => set_fc_layers (<[idx := la]> (fc_layers ctx)) ctx).

(** [FilterCtx::with_buffer] for a call of the layer at [idx]. *)
Definition fc_with_buffer {A} (idx : nat) (f : L -> M FilterBuf (A * L)) : M FilterCtx A :=
  la ← fc_layer idx;
  curr ← on_stack (stack_get idx);
  next ← on_stack (stack_get (S idx));
  wants_write ← getsS fc_wants_write;
  '(result, l, buf) ← liftS (f (la_layer la) (mkFilterBuf curr next wants_write));
  fc_update idx (mkLayer l (la_done la));;
  on_stack (stack_set idx (fb_curr buf));;
  on_stack (stack_set (S idx) (fb_next buf));;
  (if fb_wants_write buf then modifyS (set_fc_wants_write true) else mret tt);;
  mret result.
Definition fc_clear_write_buf (idx : nat) : M FilterCtx () := on_stack (stack_with_write idx (fun _ => (tt, []))).

(** [Filter] for [Layer] and [Base], [n] layers above [Base] from position
    [idx]: the chain below a layer runs before it on reads and after it on
    writes. *)
Fixpoint chain_process_read_buf (n idx : nat) : M FilterCtx (result ()) :=
  match n with
  | O => mret (inl tt)
  | S n =>
      r ← chain_process_read_buf n (S idx);
      match r with
      | inr e => mret (inr e)
      | inl _ =>
          la ← fc_layer idx;
          if la_done la then mret (inl tt) else fc_with_buffer idx ly_process_read_buf
      end
  end.

Fixpoint chain_process_write_buf (n idx : nat) : M FilterCtx (result ()) :=
  match n with
  | O => mret (inl tt)
  | S n =>
      la ← fc_layer idx;
      r ← (if la_done la then mret (inl tt) else fc_with_buffer idx ly_process_write_buf);
      match r with
      | inr e => mret (inr e)
      | inl _ => chain_process_write_buf n (S idx)
      end
  end.

Fixpoint chain_shutdown (n idx : nat) : M FilterCtx (result (Poll ())) :=
  match n with
  | O => mret (inl (Ready tt))
  | S n =>
      la ← fc_layer idx;
      if la_done la then chain_shutdown n (S idx)
      else
        r ← fc_with_buffer idx ly_shutdown;
        match r with
        | inr e => mret (inr e)
        | inl Pending => mret (inl Pending)
        | inl (Ready _) =>
            r ← chain_process_write_buf (S n) idx;
            match r with
            | inr e => mret (inr e)
            | inl _ =>
                la ← fc_layer idx;
                fc_update idx (mkLayer (la_layer la) true);;
                fc_clear_write_buf idx;;
                chain_shutdown n (S idx)
            end
        end
  end.

(** The filter of a stream: a chain, or [NullFilter] when none is set. *)
Definition Filter := option (list Layer).

(** Only [Base] passes the write buffer through. *)
Definition filter_is_transparent (f : Filter) : bool := match f with Some [] => true | _ => false end.
End chain.
Arguments Layer L : clear implicits.
Arguments FilterCtx L : clear implicits.
Arguments Filter L : clear implicits.
