(* ===== verification/IoChain.v ===== *)
(** * The filter chain keeps the stack of buffers in shape

    Facts about [IoBuf.v] for layers that keep to their contract: they return,
    leave the write buffers in their cells, and report output they add. *)
From Stdlib Require Import ZArith Lia.
From stdpp Require Import base numbers list.
From S2P Require Import Prelude IoBuf.

(** ** The stack *)

Definition wcontent (s : Stack) (i : nat) : list byte :=
  match s !! i with Some b => match b_write b with Some w => w | None => [] end | None => [] end.
Definition writable (b : Buffer) : Prop := is_Some (b_write b).
Definition out_size (s : Stack) : Z :=
  if (length s =? 2)%nat then zlen (wcontent s 0) else zlen (wcontent s 0) + zlen (wcontent s (length s - 2)).

(** At least two buffers, with every write buffer in its cell. *)
Definition stack_ok (s : Stack) : Prop := (2 <= length s)%nat /\ Forall writable s.

(** No write buffer grew. *)
Definition wle (s s' : Stack) : Prop := forall i, zlen (wcontent s' i) <= zlen (wcontent s i).

#[export] Instance wle_preorder : PreOrder wle.
Proof. split; [by intros s i|]. intros s1 s2 s3 H1 H2 i. etrans; [apply H2|apply H1]. Qed.

Lemma out_size_nonneg s : 0 <= out_size s.
Proof. unfold out_size. zlen_pos. case_match; zlia. Qed.

Lemma wle_out_size s s' : length s' = length s -> wle s s' -> out_size s' <= out_size s.
Proof.
  intros Hl Hw. unfold out_size. rewrite Hl. case_match; [apply Hw|].
  pose proof (Hw 0%nat). pose proof (Hw (length s - 2)%nat). lia.
Qed.

Lemma stack_lookup s i : stack_ok s -> (i < length s)%nat -> exists b w, s !! i = Some b /\ b_write b = Some w /\ wcontent s i = w.
Proof.
  intros [_ Hw] Hi. destruct (lookup_lt_is_Some_2 s i Hi) as [b Hb].
  destruct (proj1 (Forall_lookup _ _) Hw i b Hb) as [w Hbw]. exists b, w. unfold wcontent. by rewrite Hb, Hbw.
Qed.

Lemma stack_get_spec s i b : s !! i = Some b -> stack_get i s = Done (b, s).
Proof. intros Hb. unfold stack_get. by rewrite Hb. Qed.

Lemma stack_with_write_spec {A} s i (f : list byte -> A * list byte) b w :
  s !! i = Some b -> b_write b = Some w ->
  stack_with_write i f s = Done ((f w).1, <[i := set_b_write (Some (f w).2) b]> s).
Proof.
  intros Hb Hw. unfold stack_with_write, mbind, M_bind. rewrite (stack_get_spec s i b Hb), Hw. by destruct (f w).
Qed.

Lemma stack_read_only {A} s i (g : list byte -> A) :
  stack_ok s -> (i < length s)%nat -> stack_with_write i (fun b => (g b, b)) s = Done (g (wcontent s i), s).
Proof.
  intros Hs Hi. destruct (stack_lookup s i Hs Hi) as (b & w & Hb & Hw & ->). rewrite (stack_with_write_spec s i _ b w Hb Hw). cbn.
  do 2 f_equal. apply list_insert_id. rewrite Hb. unfold set_b_write. destruct b; cbn in *. by rewrite Hw.
Qed.

Lemma stack_last_spec s : stack_ok s -> stack_last s = Done ((length s - 2)%nat, s).
Proof. intros [Hl _]. unfold stack_last. by rewrite (proj2 (Nat.leb_le _ _)). Qed.

Lemma write_buf_size_spec s : stack_ok s -> write_buf_size s = Done (out_size s, s).
Proof.
  intros Hs. pose proof Hs as [Hl _]. unfold write_buf_size, out_size, stack_write_len, mbind, M_bind, getS.
  destruct (Nat.eqb_spec (length s) 2) as [He|He].
  - apply stack_read_only; [done|lia].
  - rewrite stack_read_only by (try done; lia). rewrite stack_last_spec by done. by rewrite stack_read_only by (try done; lia).
Qed.

(** Replacing one buffer. *)
Lemma stack_ok_insert s i b : stack_ok s -> writable b -> stack_ok (<[i := b]> s).
Proof. intros [Hl Hw] Hb. split; [by rewrite length_insert|]. by apply Forall_insert. Qed.

Lemma wcontent_insert s i b j :
  (i < length s)%nat ->
  wcontent (<[i := b]> s) j = if decide (i = j) then match b_write b with Some w => w | None => [] end else wcontent s j.
Proof.
  intros Hi. unfold wcontent. destruct (decide (i = j)) as [<-|]; [by rewrite list_lookup_insert_eq|by rewrite list_lookup_insert_ne].
Qed.

(** Changing only the input side of a buffer. *)
Lemma wcontent_insert_read s i b r j : s !! i = Some b -> wcontent (<[i := set_b_read r b]> s) j = wcontent s j.
Proof.
  intros Hb. rewrite wcontent_insert by (by eapply lookup_lt_Some). case_decide; [|done]. subst. unfold wcontent. by rewrite Hb.
Qed.

Lemma out_size_ext s s' : length s' = length s -> (forall i, wcontent s' i = wcontent s i) -> out_size s' = out_size s.
Proof. intros Hl Hw. unfold out_size. by rewrite Hl, !Hw. Qed.

(** ** Layers *)

Definition fb_writable (fb : FilterBuf) : Prop := writable (fb_curr fb) /\ writable (fb_next fb).
Definition blen (b : Buffer) : Z := match b_write b with Some w => zlen w | None => 0 end.

(** What a call of a layer promises. *)
Definition layer_call_ok {L A} (f : L -> M FilterBuf (A * L)) : Prop := forall l fb, fb_writable fb ->
  runs (f l) fb (fun _ fb' => fb_writable fb' /\
    (fb_wants_write fb' = false ->
       fb_wants_write fb = false /\ blen (fb_curr fb') <= blen (fb_curr fb) /\ blen (fb_next fb') <= blen (fb_next fb))).

Class FilterLayerLaws (L : Type) `{FilterLayer L} : Prop := {
  fl_process_read : layer_call_ok ly_process_read_buf;
  fl_process_write : layer_call_ok ly_process_write_buf;
  fl_shutdown : layer_call_ok ly_shutdown;
}.

Section chain.
Context {L : Type} `{!FilterLayer L} `{!FilterLayerLaws L}.

(** The context of a run over a chain of the right length. *)
Definition ctx_ok (c : FilterCtx L) : Prop :=
  stack_ok (fc_stack c) /\ length (fc_stack c) = (length (fc_layers c) + 2)%nat.

(** A run keeps the shape, and adds output only if it says so. *)
Definition ctx_step (c c' : FilterCtx L) : Prop :=
  ctx_ok c' /\ length (fc_layers c') = length (fc_layers c) /\ fc_notify c' = fc_notify c /\
  (fc_wants_write c' = false -> fc_wants_write c = false /\ wle (fc_stack c) (fc_stack c')).

Lemma ctx_step_refl c : ctx_ok c -> ctx_step c c.
Proof. intros Hc. by split. Qed.

Lemma ctx_step_trans c1 c2 c3 : ctx_step c1 c2 -> ctx_step c2 c3 -> ctx_step c1 c3.
Proof.
  intros (H1 & L1 & N1 & W1) (H2 & L2 & N2 & W2). split; [done|]. split; [by rewrite L2|]. split; [by rewrite N2|].
  intros [? ?]%W2. destruct (W1) as [? ?]; [done|]. split; [done|]. by etrans.
Qed.

Lemma fc_layer_spec c idx : ctx_ok c -> (idx < length (fc_layers c))%nat ->
  exists la, fc_layers c !! idx = Some la /\ fc_layer idx c = Done (la, c).
Proof.
  intros _ Hi. destruct (lookup_lt_is_Some_2 _ _ Hi) as [la Hla]. exists la. split; [done|]. unfold fc_layer. by rewrite Hla.
Qed.

Lemma on_stack_get (c : FilterCtx L) i b : fc_stack c !! i = Some b -> on_stack (stack_get i) c = Done (b, c).
Proof. intros Hb. unfold on_stack. rewrite (stack_get_spec _ _ _ Hb). by destruct c. Qed.

Lemma fc_with_buffer_spec {A} (f : L -> M FilterBuf (A * L)) c idx :
  layer_call_ok f -> ctx_ok c -> (idx < length (fc_layers c))%nat ->
  runs (fc_with_buffer idx f) c (fun _ c' => ctx_step c c').
Proof.
  intros Hf Hc Hi. pose proof Hc as [Hs Hl]. destruct (fc_layer_spec c idx Hc Hi) as (la & Hla & Hrun).
  destruct (stack_lookup (fc_stack c) idx Hs ltac:(lia)) as (b & w & Hb & Hbw & Hw).
  destruct (stack_lookup (fc_stack c) (S idx) Hs ltac:(lia)) as (b' & w' & Hb' & Hbw' & Hw').
  destruct (Hf (la_layer la) (mkFilterBuf b b' (fc_wants_write c))) as ([a l'] & fb & Hcall & [Hw1 Hw2] & Hout).
  { split; by eexists. }
  unfold fc_with_buffer. apply runs_bind. eapply runs_eq; [exact Hrun|].
  apply runs_bind. eapply runs_eq; [by apply on_stack_get|].
  apply runs_bind. eapply runs_eq; [by apply on_stack_get|].
  apply runs_bind, runs_gets, runs_bind. eapply runs_lift; [exact Hcall|]. cbn.
  apply runs_bind, runs_modify, runs_bind. eapply runs_eq; [done|]. apply runs_bind. eapply runs_eq; [done|]. cbn.
  assert (stack_ok (<[S idx := fb_next fb]> (<[idx := fb_curr fb]> (fc_stack c)))) as Hok by (apply stack_ok_insert; [by apply stack_ok_insert|done]).
  assert (wle (fc_stack c) (<[S idx := fb_next fb]> (<[idx := fb_curr fb]> (fc_stack c))) \/ fb_wants_write fb = true) as Hle.
  { destruct (fb_wants_write fb); [by right|left]. destruct (Hout eq_refl) as (_ & H1 & H2). intros i.
    rewrite !wcontent_insert by (rewrite ?length_insert; lia). unfold blen in *. cbn in *. rewrite Hbw in H1. rewrite Hbw' in H2.
    destruct (decide (S idx = i)) as [<-|]; [rewrite Hw'; by destruct Hw2 as [? He2]; rewrite He2 in *|].
    destruct (decide (idx = i)) as [<-|]; [rewrite Hw; by destruct Hw1 as [? He1]; rewrite He1 in *|done]. }
  apply runs_bind. destruct (fb_wants_write fb) eqn:Hwt.
  - apply runs_modify, runs_ret. split; [split; cbn; [done|by rewrite !length_insert]|].
    split; [cbn; by rewrite length_insert|]. by split.
  - apply runs_ret, runs_ret. split; [split; cbn; [done|by rewrite !length_insert]|].
    split; [cbn; by rewrite length_insert|]. split; [done|]. intros Hw0. split; [done|]. by destruct Hle.
Qed.

Lemma fc_update_step c idx la : ctx_ok c -> (idx < length (fc_layers c))%nat ->
  runs (fc_update idx la) c (fun _ c' => ctx_step c c' /\ fc_stack c' = fc_stack c).
Proof.
  intros [Hs Hl] Hi. apply runs_modify. split; [|done]. split; [split; cbn; [done|by rewrite length_insert]|].
  split; [cbn; by rewrite length_insert|]. by split.
Qed.

Lemma fc_clear_step c idx : ctx_ok c -> (idx < length (fc_layers c))%nat ->
  runs (fc_clear_write_buf idx) c (fun _ c' => ctx_step c c').
Proof.
  intros [Hs Hl] Hi. destruct (stack_lookup (fc_stack c) idx Hs ltac:(lia)) as (b & w & Hb & Hw & Hc).
  exists tt. eexists. split.
  { unfold fc_clear_write_buf, on_stack. by rewrite (stack_with_write_spec _ _ _ b w Hb Hw). }
  cbn. split; [split; cbn; [apply stack_ok_insert; [done|by eexists]|by rewrite length_insert]|].
  split; [done|]. split; [done|]. intros Hw0. split; [done|]. intros i. cbn. rewrite wcontent_insert by lia.
  case_decide; [|done]. cbn. zlen_pos. change (zlen []) with 0. zlia.
Qed.

(** *** Runs of the chain *)

Lemma chain_read_spec n idx c : ctx_ok c -> (idx + n = length (fc_layers c))%nat ->
  runs (chain_process_read_buf n idx) c (fun _ c' => ctx_step c c').
Proof.
  revert idx c. induction n as [|n IH]; intros idx c Hc Hn; cbn; [by apply runs_ret, ctx_step_refl|].
  apply runs_bind. eapply runs_conseq; [apply IH; [done|lia]|]. intros [[]|e] c1 H1; [|by apply runs_ret].
  pose proof H1 as (Hc1 & Hl1 & _). destruct (fc_layer_spec c1 idx Hc1) as (la & Hla & Hrun); [lia|].
  apply runs_bind. eapply runs_eq; [exact Hrun|]. destruct (la_done la); [by apply runs_ret|].
  eapply runs_conseq; [apply fc_with_buffer_spec; [apply fl_process_read|done|lia]|]. intros r c2 H2. by eapply ctx_step_trans.
Qed.

Lemma chain_write_spec n idx c : ctx_ok c -> (idx + n = length (fc_layers c))%nat ->
  runs (chain_process_write_buf n idx) c (fun _ c' => ctx_step c c').
Proof.
  revert idx c. induction n as [|n IH]; intros idx c Hc Hn; cbn; [by apply runs_ret, ctx_step_refl|].
  destruct (fc_layer_spec c idx Hc) as (la & Hla & Hrun); [lia|].
  apply runs_bind. eapply runs_eq; [exact Hrun|]. apply runs_bind.
  apply (runs_conseq _ _ (fun _ c' => ctx_step c c')).
  { destruct (la_done la); [by apply runs_ret, ctx_step_refl|]. apply fc_with_buffer_spec; [apply fl_process_write|done|lia]. }
  intros [[]|e] c1 H1; [|by apply runs_ret]. pose proof H1 as (Hc1 & Hl1 & _).
  eapply runs_conseq; [apply IH; [done|lia]|]. intros r c2 H2. by eapply ctx_step_trans.
Qed.

Lemma chain_shutdown_spec n idx c : ctx_ok c -> (idx + n = length (fc_layers c))%nat ->
  runs (chain_shutdown n idx) c (fun _ c' => ctx_step c c').
Proof.
  revert idx c. induction n as [|n IH]; intros idx c Hc Hn; cbn -[chain_process_write_buf]; [by apply runs_ret, ctx_step_refl|].
  destruct (fc_layer_spec c idx Hc) as (la & Hla & Hrun); [lia|]. apply runs_bind. eapply runs_eq; [exact Hrun|].
  destruct (la_done la); [apply IH; [done|lia]|].
  apply runs_bind. eapply runs_conseq; [apply fc_with_buffer_spec; [apply fl_shutdown|done|lia]|].
  intros [[|]|e] c1 H1; [by apply runs_ret| |by apply runs_ret]. pose proof H1 as (Hc1 & Hl1 & _).
  apply runs_bind. eapply runs_conseq; [apply (chain_write_spec (S n)); [done|lia]|].
  intros [[]|e] c2 H2; pose proof (ctx_step_trans _ _ _ H1 H2) as H12; [|by apply runs_ret]. pose proof H12 as (Hc2 & Hl2 & _).
  destruct (fc_layer_spec c2 idx Hc2) as (la2 & _ & Hrun2); [lia|]. apply runs_bind. eapply runs_eq; [exact Hrun2|].
  apply runs_bind. eapply runs_conseq; [apply fc_update_step; [done|lia]|]. intros _ c3 [H3 _].
  pose proof (ctx_step_trans _ _ _ H12 H3) as H13. pose proof H13 as (Hc3 & Hl3 & _).
  apply runs_bind. eapply runs_conseq; [apply fc_clear_step; [done|lia]|]. intros [] c4 H4.
  pose proof (ctx_step_trans _ _ _ H13 H4) as H14. destruct (H14) as [Hc4 [Hl4 _]].
  eapply runs_conseq; [apply IH; [done|lia]|]. intros r c5 H5. by eapply ctx_step_trans.
Qed.
End chain.
