(* ===== verification/IoTimers.v ===== *)
(** * [io::ops]: the timers and the deferred writes of the I/O manager

    Models geario/src/io/ops.rs.  The manager of a thread keeps the streams in
    a slab, the streams whose output is to be sent by a deferred task
    ([Iops]), and the timers of the streams ([TimerStorage]), which count in
    seconds from the creation of the manager and are driven by a task that
    ticks once a second.  The sets that are kept for reuse ([cache]) are empty
    and are not modelled; the order in which a set is drained is not
    specified by the source. *)
From Stdlib Require Import ZArith Lia.
From stdpp Require Import base numbers gmap sets list.
From S2P Require Import Prelude Deps.

(** [Id]: absent for a stream that is not registered. *)
Abbreviation Id := (option nat) (only parsing).

Definition is_set (hnd : Z) : bool := negb (hnd =? 0).

Record TimerStorage := mkTimerStorage {
  ts_running : bool;
  ts_current : Z;
  ts_notifications : gmap Z (gset Id);
  (** Timer tasks that were spawned and have not ended. *)
  ts_tasks : nat;
}.
Definition set_ts_running (r : bool) (t : TimerStorage) : TimerStorage :=
  mkTimerStorage r (ts_current t) (ts_notifications t) (ts_tasks t).
Definition set_ts_current (c : Z) (t : TimerStorage) : TimerStorage :=
  mkTimerStorage (ts_running t) c (ts_notifications t) (ts_tasks t).
Definition set_ts_notifications (n : gmap Z (gset Id)) (t : TimerStorage) : TimerStorage :=
  mkTimerStorage (ts_running t) (ts_current t) n (ts_tasks t).
Definition set_ts_tasks (n : nat) (t : TimerStorage) : TimerStorage :=
  mkTimerStorage (ts_running t) (ts_current t) (ts_notifications t) n.

Definition ts_default : TimerStorage := mkTimerStorage false 0 ∅ 0.

Definition ts_unregister (hnd : Z) (id : Id) : M TimerStorage () :=
  t ← getS;
  match ts_notifications t !! hnd with
  | Some states => putS (set_ts_notifications (<[hnd := states ∖ {[id]}]> (ts_notifications t)) t)
  | None => mret tt
  end.

Definition ts_run_timer : M TimerStorage () :=
  t ← getS;
  if ts_running t then mret tt
  else putS (set_ts_tasks (S (ts_tasks t)) (set_ts_running true t)).

(** [elapsed] is [(now() - self.base).as_secs()]. *)
Definition ts_register (elapsed timeout : Z) (id : Id) : M TimerStorage Z :=
  t ← getS;
  (if ts_running t then mret tt else modifyS (set_ts_current (as_u32 elapsed)));;
  t ← getS;
  hnd ← liftS (checked_add u32_modulus (ts_current t) timeout);
  let items := match ts_notifications t !! hnd with Some items => items | None => ∅ end in
  modifyS (set_ts_notifications (<[hnd := {[id]} ∪ items]> (ts_notifications t)));;
  ts_run_timer;;
  mret hnd.

(** [TimerHandle::update] inside [IoManager::with]. *)
Definition ts_update (self : Z) (elapsed timeout : Z) (id : Id) : M TimerStorage Z :=
  t ← getS;
  new_hnd ← liftS (checked_add u32_modulus (ts_current t) timeout);
  same ← (if self =? new_hnd then mret true
          else next ← liftS (checked_add u32_modulus new_hnd 1); mret (self =? next));
  if (same : bool) then mret self
  else ts_unregister self id;; ts_register elapsed timeout id.

(** [keys().next()] of the ordered map. *)
Definition first_key {A} (m : gmap Z A) : option Z :=
  map_fold (fun k _ (o : option Z) => match o with Some k' => Some (Z.min k k') | None => Some k end) None m.

(** The [while let] of a tick: the streams notified, in order. *)
Fixpoint ts_notify_loop (fuel : nat) (current : Z) : M TimerStorage (list Id) :=
  match fuel with
  | O => failS Diverges
  | S fuel =>
      t ← getS;
      match first_key (ts_notifications t) with
      | None => mret []
      | Some key =>
          if key <=? current then
            match ts_notifications t !! key with
            | None => failS Panic
            | Some items =>
                putS (set_ts_notifications (delete key (ts_notifications t)) t);;
                more ← ts_notify_loop fuel current;
                mret (elements items ++ more)
            end
          else mret []
      end
  end.

(** One round of the timer task after its sleep, with the end of the task and
    [Drop] of [TimerGuard] when nothing is left. *)
Definition ts_tick : M TimerStorage (list Id) :=
  t ← getS;
  let current := ts_current t in
  next ← liftS (checked_add u32_modulus current 1);
  putS (set_ts_current next t);;
  ids ← ts_notify_loop (S (size (ts_notifications t))) current;
  t ← getS;
  (if bool_decide (ts_notifications t = ∅) then
     modifyS (set_ts_running false);;
     modifyS (fun t => set_ts_tasks (pred (ts_tasks t)) (set_ts_notifications ∅ (set_ts_running false t)))
   else mret tt);;
  mret ids.

(** [Drop] of [TimerGuard] when the task is dropped with its runtime. *)
Definition timer_guard_drop : M TimerStorage () :=
  modifyS (fun t => set_ts_tasks (pred (ts_tasks t)) (set_ts_notifications ∅ (set_ts_running false t))).

(** ** [Iops] *)

Record Iops := mkIops {
  ip_running : bool;
  ip_ops : list Id;
  (** Tasks that will call [Iops::run]. *)
  ip_tasks : nat;
}.
Definition iops_default : Iops := mkIops false [] 0.

(** [Iops::schedule_write] inside [IoManager::with]. *)
Definition iops_schedule (id : Id) (i : Iops) : Iops :=
  mkIops true (ip_ops i ++ [id]) (if ip_running i then ip_tasks i else S (ip_tasks i)).

Record Mgr := mkMgr { mg_timers : TimerStorage; mg_iops : Iops }.
Definition set_mg_timers (t : TimerStorage) (m : Mgr) : Mgr := mkMgr t (mg_iops m).
Definition set_mg_iops (i : Iops) (m : Mgr) : Mgr := mkMgr (mg_timers m) i.
Definition mgr_default : Mgr := mkMgr ts_default iops_default.

(** ** [IoManager]: the streams of a thread

    What the manager calls on a stream is an interface; its operations on a
    stream are those of [IoState.v] and [IoRef.v]. *)
Class ManagedIo (I : Type) := {
  mi_ops_send_buf : I -> outcome I;
  mi_notify_timeout : I -> I;
  mi_set_id : Id -> I -> I;
  mi_id : I -> Id;
}.

Section manager.
Context {T : Type -> Type} `{!Slab T} {I : Type} `{!ManagedIo I}.

(** The slab holds references; the streams themselves are in [iom_heap]. *)
Record IoManager := mkIoManager {
  iom_heap : gmap nat I;
  iom_storage : T (option nat);
  iom_mgr : Mgr;
}.
Definition set_iom_heap (h : gmap nat I) (m : IoManager) : IoManager := mkIoManager h (iom_storage m) (iom_mgr m).
Definition set_iom_storage (s : T (option nat)) (m : IoManager) : IoManager := mkIoManager (iom_heap m) s (iom_mgr m).
Definition set_iom_mgr (g : Mgr) (m : IoManager) : IoManager := mkIoManager (iom_heap m) (iom_storage m) g.

(** [Default]: key zero is reserved, so that the others are non-zero. *)
Definition iom_default : outcome IoManager :=
  let '(k, storage) := slab_insert None slab_default in
  if (k =? 0)%nat then Done (mkIoManager ∅ storage mgr_default) else Fault Panic.

Definition iom_get (id : Id) (m : IoManager) : option nat :=
  match id with
  | Some id => match slab_get id (iom_storage m) with Some item => item | None => None end
  | None => None
  end.

(** [IoManager::register], which gives the stream at [ref] its id. *)
Definition iom_register (ref : nat) : M IoManager Id :=
  m ← getS;
  let key := slab_vacant_key (iom_storage m) in
  let id := if (key =? 0)%nat then None else Some key in
  putS (set_iom_storage (slab_insert (Some ref) (iom_storage m)).2 m);;
  modifyS (fun m => set_iom_heap (alter (mi_set_id id) ref (iom_heap m)) m);;
  mret id.

Definition iom_unregister (ref : nat) : M IoManager () :=
  m ← getS;
  match iom_heap m !! ref with
  | None => failS Undefined
  | Some io =>
      match mi_id io with
      | Some id =>
          putS (set_iom_heap (<[ref := mi_set_id None io]> (iom_heap m)) m);;
          (if slab_contains id (iom_storage m)
           then modifyS (fun m => set_iom_storage (slab_remove id (iom_storage m)) m) else mret tt)
      | None => mret tt
      end
  end.

(** A call on the stream an id stands for, if any. *)
Definition iom_call (f : I -> outcome I) (id : Id) : M IoManager () :=
  m ← getS;
  match iom_get id m with
  | Some ref =>
      match iom_heap m !! ref with
      | None => failS Undefined
      | Some io => io' ← liftS (f io); putS (set_iom_heap (<[ref := io']> (iom_heap m)) m)
      end
  | None => mret tt
  end.

Fixpoint iom_call_all (f : I -> outcome I) (ids : list Id) : M IoManager () :=
  match ids with [] => mret tt | id :: ids => iom_call f id;; iom_call_all f ids end.

(** [Iops::run]: the list is taken, and put back empty. *)
Definition iops_run : M IoManager () :=
  m ← getS;
  let ops := ip_ops (mg_iops (iom_mgr m)) in
  putS (set_iom_mgr (set_mg_iops (mkIops false [] (pred (ip_tasks (mg_iops (iom_mgr m))))) (iom_mgr m)) m);;
  iom_call_all mi_ops_send_buf ops;;
  modifyS (fun m => set_iom_mgr (set_mg_iops (mkIops (ip_running (mg_iops (iom_mgr m))) [] (ip_tasks (mg_iops (iom_mgr m)))) (iom_mgr m)) m).

(** A tick of the timer task, with the notifications of the streams. *)
Definition iom_tick : M IoManager () :=
  m ← getS;
  '(ids, t) ← liftS (ts_tick (mg_timers (iom_mgr m)));
  putS (set_iom_mgr (set_mg_timers t (iom_mgr m)) m);;
  iom_call_all (fun io => Done (mi_notify_timeout io)) ids.
End manager.
Arguments IoManager T I : clear implicits.
