(* ===== verification/IoTimerProps.v ===== *)
(** * The timers of the I/O manager are accurate

    Guarantees about [IoTimers.v]: a tick ends, and the stream that was
    registered for [n] seconds is notified at the tick after the [n]th one
    that follows, neither before nor later, whatever other streams do. *)
From Stdlib Require Import ZArith Lia.
From stdpp Require Import base numbers gmap sets list.
From S2P Require Import Prelude Deps IoTimers.

Implicit Types (t : TimerStorage) (id : Id).

(** ** The first key of the ordered map *)

Lemma first_key_spec {A} (m : gmap Z A) :
  match first_key m with
  | Some k => is_Some (m !! k) /\ forall k', is_Some (m !! k') -> k <= k'
  | None => m = ∅
  end.
Proof.
  unfold first_key.
  apply (map_fold_weak_ind (fun (o : option Z) m => match o with
    | Some k => is_Some (m !! k) /\ forall k', is_Some (m !! k') -> k <= k' | None => m = ∅ end)); [done|].
  intros k x m' [k0|] Hk IH.
  - destruct IH as [H0 Hmin]. split.
    + destruct (Z.min_spec k k0) as [[_ ->]|[_ ->]]; [rewrite lookup_insert_eq; by eexists|].
      destruct (decide (k = k0)) as [->|]; [rewrite lookup_insert_eq; by eexists|by rewrite lookup_insert_ne].
    + intros k'. destruct (decide (k = k')) as [->|]; [lia|]. rewrite lookup_insert_ne by done. intros H%Hmin. lia.
  - subst m'. split; [rewrite lookup_insert_eq; by eexists|]. intros k'.
    destruct (decide (k = k')) as [->|]; [lia|]. rewrite lookup_insert_ne, lookup_empty by done. by intros [? [=]].
Qed.

(** ** A tick *)

(** The streams due at [cur]. *)
Definition due (cur : Z) t id : Prop := exists k s, ts_notifications t !! k = Some s /\ k <= cur /\ id ∈ s.
Definition later (cur : Z) (m : gmap Z (gset Id)) : gmap Z (gset Id) := filter (fun p => cur < p.1) m.

Lemma lookup_later cur m k : later cur m !! k = if decide (cur < k) then m !! k else None.
Proof.
  unfold later. rewrite map_lookup_filter. destruct (m !! k); cbn; [|by case_decide].
  case_decide; [by rewrite option_guard_True|by rewrite option_guard_False].
Qed.

Lemma later_same cur m : (forall k, is_Some (m !! k) -> cur < k) -> later cur m = m.
Proof.
  intros Hall. apply map_eq. intros k. rewrite lookup_later. case_decide as Hd; [done|].
  destruct (m !! k) eqn:Hk; [|done]. destruct Hd. apply Hall. by rewrite Hk.
Qed.

Lemma later_delete cur m k : k <= cur -> later cur (delete k m) = later cur m.
Proof.
  intros Hk. apply map_eq. intros k'. rewrite !lookup_later. case_decide; [|done].
  rewrite lookup_delete_ne by lia. done.
Qed.

Lemma notify_loop_spec fuel cur t :
  (size (ts_notifications t) < fuel)%nat ->
  runs (ts_notify_loop fuel cur) t (fun ids t' =>
    t' = set_ts_notifications (later cur (ts_notifications t)) t /\ forall id, id ∈ ids <-> due cur t id).
Proof.
  revert t. induction fuel as [|fuel IH]; intros t Hsz; [lia|]. cbn [ts_notify_loop]. apply runs_bind, runs_get.
  pose proof (first_key_spec (ts_notifications t)) as Hf. destruct (first_key _) as [key|].
  - destruct Hf as [[items Hi] Hmin]. rewrite Hi. destruct (Z.leb_spec key cur) as [Hle|Hgt].
    + apply runs_bind, runs_put, runs_bind. eapply runs_conseq; [apply IH|].
      { cbn. rewrite map_size_delete, Hi. assert (size (ts_notifications t) <> 0%nat); [|lia].
        intros He%map_size_empty_inv. by rewrite He, lookup_empty in Hi. }
      cbn. intros ids t' [-> Hids]. apply runs_ret. split; [by rewrite later_delete|].
      intros id. rewrite elem_of_app, elem_of_elements, Hids. unfold due. cbn. split.
      * intros [Hin|(k & s & Hk & ? & ?)]; [by exists key, items|]. exists k, s. split; [|done].
        apply lookup_delete_Some in Hk. tauto.
      * intros (k & s & Hk & ? & ?). destruct (decide (key = k)) as [->|]; [left; by simplify_eq|].
        right. exists k, s. by rewrite lookup_delete_ne.
    + apply runs_ret. split.
      * rewrite later_same; [by destruct t|]. intros k Hk%Hmin. lia.
      * intros id. split; [by intros ?%not_elem_of_nil|]. intros (k & s & Hk & ? & _).
        assert (key <= k) by (apply Hmin; by rewrite Hk). lia.
  - apply runs_ret. split; [|split].
    + rewrite later_same; [by destruct t|]. rewrite Hf. by intros k [? ?%lookup_empty_Some].
    + by intros ?%not_elem_of_nil.
    + intros (k & s & Hk & _). by rewrite Hf, lookup_empty in Hk.
Qed.

(** The timer task runs exactly while something is registered, and nothing
    that is registered is due. *)
Record TInv t : Prop := {
  ti_running : ts_running t = negb (bool_decide (ts_notifications t = ∅));
  ti_tasks : ts_tasks t = if ts_running t then 1%nat else 0%nat;
  ti_later k : is_Some (ts_notifications t !! k) -> ts_current t <= k;
  ti_current : 0 <= ts_current t;
}.

Lemma ts_tick_spec t :
  TInv t -> ts_running t = true -> ts_current t + 1 < u32_modulus ->
  runs ts_tick t (fun ids t' =>
    TInv t' /\ ts_current t' = ts_current t + 1 /\ ts_notifications t' = later (ts_current t) (ts_notifications t) /\
    forall id, id ∈ ids <-> due (ts_current t) t id).
Proof.
  intros [_ Ht Hk Hc] Hrun Hov. unfold ts_tick. apply runs_bind, runs_get, runs_bind.
  eapply runs_lift; [by apply checked_add_ok|]. apply runs_bind, runs_put, runs_bind.
  eapply runs_conseq; [apply notify_loop_spec, Nat.lt_succ_diag_r|]. cbn. intros ids t' [-> Hids].
  apply runs_bind, runs_get, runs_bind. cbn.
  assert (forall k, is_Some (later (ts_current t) (ts_notifications t) !! k) -> ts_current t + 1 <= k) as Hlat.
  { intros k. rewrite lookup_later. destruct (decide (ts_current t < k)); [intros _; lia|by intros [? [=]]]. }
  case_bool_decide as He.
  - apply runs_bind, runs_modify, runs_modify, runs_ret. cbn. split; [|by rewrite He].
    split; cbn; [by rewrite bool_decide_true| |by intros k [? ?%lookup_empty_Some]|lia]. rewrite Ht, Hrun. done.
  - apply runs_ret, runs_ret. split; [|done]. split; cbn; [by rewrite bool_decide_false|by rewrite Ht, Hrun|exact Hlat|lia].
Qed.

(** ** Registration *)

Lemma TInv_default : TInv ts_default.
Proof. split; cbn; [by rewrite bool_decide_true|done|by intros k [? ?%lookup_empty_Some]|done]. Qed.

Lemma unregister_spec hnd id t :
  TInv t ->
  runs (ts_unregister hnd id) t (fun _ t' =>
    TInv t' /\ ts_current t' = ts_current t /\ ts_running t' = ts_running t /\
    (~ exists s, ts_notifications t' !! hnd = Some s /\ id ∈ s) /\
    forall k id', id' <> id \/ k <> hnd ->
      (exists s, ts_notifications t' !! k = Some s /\ id' ∈ s) <-> (exists s, ts_notifications t !! k = Some s /\ id' ∈ s)).
Proof.
  intros HT. unfold ts_unregister. apply runs_bind, runs_get.
  destruct (ts_notifications t !! hnd) as [states|] eqn:Hh.
  2:{ apply runs_ret. do 3 (split; [done|]). split; [|done]. intros (s & Hs & _). congruence. }
  apply runs_put. cbn. pose proof HT as [Hr Ht Hk Hc].
  assert (ts_running t = true) as Hrun.
  { rewrite Hr. rewrite bool_decide_false; [done|]. intros He. by rewrite He, lookup_empty in Hh. }
  split; [split; cbn|].
  - rewrite bool_decide_false; [done|]. apply insert_non_empty.
  - done.
  - intros k. destruct (decide (hnd = k)) as [->|]; [intros _; apply Hk; by rewrite Hh|rewrite lookup_insert_ne by done; apply Hk].
  - done.
  - do 2 (split; [done|]). split; [rewrite lookup_insert_eq; intros (s & [= <-] & Hin); set_solver|].
    intros k id' Hne. destruct (decide (hnd = k)) as [->|]; [|by rewrite lookup_insert_ne].
    rewrite lookup_insert_eq, Hh. split; intros (s & [= <-] & Hin); eexists; (split; [done|]); set_solver.
Qed.

Lemma register_spec elapsed timeout id t :
  TInv t -> 0 <= elapsed < u32_modulus -> 0 <= timeout ->
  Z.max elapsed (ts_current t) + timeout < u32_modulus ->
  runs (ts_register elapsed timeout id) t (fun hnd t' =>
    TInv t' /\ ts_running t' = true /\
    ts_current t' = (if ts_running t then ts_current t else elapsed) /\
    hnd = ts_current t' + timeout /\
    (exists s, ts_notifications t' !! hnd = Some s /\ id ∈ s) /\
    forall k id', id' <> id \/ k <> hnd ->
      (exists s, ts_notifications t' !! k = Some s /\ id' ∈ s) <-> (exists s, ts_notifications t !! k = Some s /\ id' ∈ s)).
Proof.
  intros HT He Hto Hov. pose proof HT as [Hr Ht Hk Hc]. unfold ts_register. apply runs_bind, runs_get, runs_bind.
  set (cur := if ts_running t then ts_current t else elapsed).
  apply (runs_conseq _ _ (fun _ t1 => t1 = set_ts_current cur t)).
  { unfold cur. destruct (ts_running t) eqn:Hrun; [by apply runs_ret; destruct t|].
    apply runs_modify. by rewrite as_u32_small. }
  intros _ t1 ->. apply runs_bind, runs_get, runs_bind. cbn.
  assert (0 <= cur /\ cur + timeout < u32_modulus) as [Hcur Hcu] by (unfold cur; destruct (ts_running t); lia).
  eapply runs_lift; [by apply checked_add_ok|]. set (hnd := cur + timeout).
  apply runs_bind, runs_modify, runs_bind. cbn. set (n := <[hnd:=_]> _).
  apply (runs_conseq _ _ (fun _ t1 => t1 = mkTimerStorage true cur n 1)).
  { unfold ts_run_timer. apply runs_bind, runs_get. cbn. destruct (ts_running t) eqn:Hrun.
    - apply runs_ret. unfold set_ts_notifications. cbn. by rewrite Hrun, Ht.
    - apply runs_put. unfold set_ts_tasks. cbn. by rewrite Ht. }
  intros _ t1 ->. apply runs_ret. cbn. split; [split; cbn|].
  - rewrite bool_decide_false; [done|]. apply insert_non_empty.
  - done.
  - intros k. unfold n. destruct (decide (hnd = k)) as [<-|]; [unfold hnd; lia|]. rewrite lookup_insert_ne by done.
    intros Hs. unfold cur. destruct (ts_running t) eqn:Hrun; [by apply Hk|].
    symmetry in Hr. apply negb_false_iff, bool_decide_eq_true in Hr. rewrite Hr, lookup_empty in Hs. by destruct Hs.
  - done.
  - do 3 (split; [done|]). unfold n. split.
    + rewrite lookup_insert_eq. eexists. split; [done|]. set_solver.
    + intros k id' Hne. destruct (decide (hnd = k)) as [<-|]; [|by rewrite lookup_insert_ne].
      rewrite lookup_insert_eq. destruct (ts_notifications t !! hnd) as [s0|] eqn:Hs.
      * split; intros (s & [= <-] & Hin); eexists; (split; [done|]); set_solver.
      * split; [intros (s & [= <-] & Hin); set_solver|by intros (? & [=] & _)].
Qed.

(** ** Programs *)

(** What happens to the timers: streams register and unregister, and the task
    of the timers ticks. *)
Inductive timer_op :=
  | TRegister (elapsed timeout : Z) (id : Id)
  | TUnregister (hnd : Z) (id : Id)
  | TTick.

(** A tick needs the task; the ids are those that were notified. *)
Definition timer_step (o : timer_op) : M TimerStorage (list Id) :=
  match o with
  | TRegister e n id => ts_register e n id;; mret []
  | TUnregister h id => ts_unregister h id;; mret []
  | TTick => t ← getS; if (ts_tasks t =? 0)%nat then mret [] else ts_tick
  end.

Fixpoint timer_exec (os : list timer_op) : M TimerStorage (list Id) :=
  match os with
  | [] => mret []
  | o :: os => ids ← timer_step o; ids' ← timer_exec os; mret (ids ++ ids')
  end.

Fixpoint ticks (os : list timer_op) : Z :=
  match os with [] => 0 | TTick :: os => 1 + ticks os | _ :: os => ticks os end.

(** Operations of other streams, with values of their types. *)
Definition op_other id (o : timer_op) : Prop :=
  match o with
  | TRegister e n id' => id' <> id /\ 0 <= e < 2 ^ 30 /\ 0 <= n < u16_modulus
  | TUnregister _ id' => id' <> id
  | TTick => True
  end.

Definition registered t (h : Z) id : Prop := exists s, ts_notifications t !! h = Some s /\ id ∈ s.

Lemma registered_running t h id : TInv t -> registered t h id -> ts_running t = true /\ ts_current t <= h.
Proof.
  intros [Hr _ Hk _] (s & Hs & _). split; [|apply Hk; by rewrite Hs].
  rewrite Hr, bool_decide_false; [done|]. intros He. by rewrite He, lookup_empty in Hs.
Qed.

Lemma ticks_nonneg os : 0 <= ticks os.
Proof. induction os as [|[] os IH]; cbn; lia. Qed.

(** A program of the others that does not tick past a registration of [id]
    leaves the registrations of [id] alone and does not notify it. *)
Lemma exec_others id os t :
  TInv t -> Forall (op_other id) os ->
  ts_current t + ticks os < 2 ^ 31 -> ticks os < 2 ^ 30 ->
  (forall k, registered t k id -> ts_current t + ticks os <= k) ->
  runs (timer_exec os) t (fun ids t' =>
    TInv t' /\ (forall k, registered t' k id <-> registered t k id) /\
    (forall k, registered t k id -> ts_current t' = ts_current t + ticks os) /\ id ∉ ids).
Proof.
  intros HT Hos. revert t HT. induction Hos as [|o os Ho Hos IH]; intros t HT Hb Hlt Hle; cbn [timer_exec].
  - apply runs_ret. cbn. do 2 (split; [done|]). split; [intros; lia|]. apply not_elem_of_nil.
  - pose proof (ticks_nonneg os) as Hnn. assert (2 ^ 31 + u16_modulus < u32_modulus /\ 0 < u16_modulus) as [Hmod Hpos] by done. apply runs_bind.
    destruct o as [e n id'|h' id'|]; cbn [timer_step op_other ticks] in *.
    + destruct Ho as (Hne & He & Hn). pose proof (ti_current t HT) as Hc0.
      apply runs_bind. eapply runs_conseq; [apply register_spec; [done|lia..]|].
      intros hnd t1 (HT1 & _ & Hc & _ & _ & Hother). apply runs_ret, runs_bind.
      assert (forall k, registered t1 k id <-> registered t k id) as Hregs by (intros k; apply Hother; auto).
      assert (forall k, registered t k id -> ts_current t1 = ts_current t) as Hcur.
      { intros k Hk. destruct (registered_running t k id HT Hk) as [Hrun _]. by rewrite Hc, Hrun. }
      eapply runs_conseq; [apply IH; [done|destruct (ts_running t); lia|done|]|].
      { intros k Hk%Hregs. rewrite (Hcur k Hk). auto. }
      intros ids t' (? & Hr' & Hc' & ?). apply runs_ret. split; [done|]. split; [intros k; by rewrite Hr'|]. split; [|done].
      intros k Hk. rewrite (Hc' k), (Hcur k) by (try done; by apply Hregs). done.
    + apply runs_bind. eapply runs_conseq; [by apply unregister_spec|].
      intros _ t1 (HT1 & Hc & _ & _ & Hother). apply runs_ret, runs_bind.
      assert (forall k, registered t1 k id <-> registered t k id) as Hregs by (intros k; apply (Hother k id); auto).
      eapply runs_conseq; [apply IH; [done|lia|done|]|].
      { intros k Hk%Hregs. rewrite Hc. auto. }
      intros ids t' (? & Hr' & Hc' & ?). apply runs_ret. split; [done|]. split; [intros k; by rewrite Hr'|]. split; [|done].
      intros k Hk. rewrite (Hc' k), Hc by (by apply Hregs). done.
    + apply runs_bind, runs_get. destruct (ts_tasks t =? 0)%nat eqn:Htask.
      * apply runs_ret, runs_bind. assert (forall k, ~ registered t k id) as Hno.
        { intros k Hk. apply Nat.eqb_eq in Htask. destruct (registered_running t k id HT Hk) as [Hrun _].
          by rewrite (ti_tasks t HT), Hrun in Htask. }
        eapply runs_conseq; [apply IH; [done|lia|lia|]|]; [intros k Hk; by destruct (Hno k)|].
        intros ids t' (? & Hr' & _ & ?). apply runs_ret. split; [done|]. split; [done|]. split; [|done].
        intros k Hk. by destruct (Hno k).
      * assert (ts_running t = true) as Hrun.
        { apply Nat.eqb_neq in Htask. rewrite (ti_tasks t HT) in Htask. by destruct (ts_running t). }
        eapply runs_conseq; [apply ts_tick_spec; [done..|lia]|]. intros ids1 t1 (HT1 & Hc & Hn & Hids). apply runs_bind.
        assert (forall k, registered t1 k id <-> registered t k id) as Hregs.
        { intros k. unfold registered. rewrite Hn, lookup_later. split.
          - intros (s & Hs & Hin). case_decide; [by exists s|done].
          - intros Hk. pose proof (Hle k Hk). rewrite decide_True by lia. done. }
        eapply runs_conseq; [apply IH; [done|lia|lia|]|].
        { intros k Hk%Hregs. pose proof (Hle k Hk). lia. }
        intros ids t' (? & Hr' & Hc' & Hni). apply runs_ret. split; [done|]. split; [intros k; by rewrite Hr'|]. split.
        { intros k Hk. rewrite (Hc' k) by (by apply Hregs). lia. }
        rewrite elem_of_app. intros [Hin|]; [|done]. apply Hids in Hin as (k & s & Hs & Hk & Hin).
        assert (ts_current t + (1 + ticks os) <= k) by (apply Hle; by exists s). lia.
Qed.

(** C35. A stream that starts a timer of [timeout] seconds is not notified by
    the first [timeout] ticks of the timer task, and is notified by the next
    one; once its timer is stopped it is not notified at all.  Meanwhile other
    streams may start and stop theirs.  The ticks are one second apart, so the
    timer is never early, and at most one tick late. *)
Theorem io_timer_on_time id elapsed timeout os t :
  TInv t -> (forall k, ~ registered t k id) -> Forall (op_other id) os ->
  0 <= elapsed < 2 ^ 30 -> 0 <= timeout < u16_modulus -> ts_current t < 2 ^ 30 -> ticks os < 2 ^ 29 ->
  runs (ts_register elapsed timeout id) t (fun hnd t1 =>
    (ticks os <= timeout -> runs (timer_exec os) t1 (fun ids t2 =>
       (id ∉ ids) /\ (ticks os = timeout -> runs ts_tick t2 (fun ids' _ => id ∈ ids')))) /\
    runs (ts_unregister hnd id;; timer_exec os) t1 (fun ids _ => id ∉ ids)).
Proof.
  intros HT Hno Hos He Hto Hcur Hti. pose proof (ticks_nonneg os) as Hnn. pose proof (ti_current t HT) as Hc0.
  assert (2 ^ 30 + u16_modulus + 2 ^ 29 + 2 < 2 ^ 31 /\ 2 ^ 31 < u32_modulus) as [Hmod Hmod'] by done.
  eapply runs_conseq; [apply register_spec; [done|lia..]|].
  intros hnd t1 (HT1 & Hrun & Hc & Hh & Hreg & Hother).
  assert (forall k, registered t1 k id -> k = hnd) as Hone.
  { intros k Hk. destruct (decide (k = hnd)) as [|Hne]; [done|]. destruct (Hno k). apply Hother; auto. }
  assert (ts_current t1 < 2 ^ 30) as Hc1 by (destruct (ts_running t); lia). split.
  - intros Hle. eapply runs_conseq; [apply (exec_others id os t1); [done..|lia|lia|]|].
    { intros k ->%Hone. lia. }
    intros ids t2 (HT2 & Hr2 & Hc2 & Hni). split; [done|]. intros Heq.
    assert (registered t2 hnd id) as Hreg2 by (by apply Hr2). destruct (registered_running _ _ _ HT2 Hreg2) as [Hrun2 _].
    specialize (Hc2 hnd Hreg). eapply runs_conseq; [apply ts_tick_spec; [done..|lia]|].
    intros ids' t3 (_ & _ & _ & Hids). apply Hids. destruct Hreg2 as (s & Hs & Hin). exists hnd, s. split; [done|]. split; [lia|done].
  - apply runs_bind. eapply runs_conseq; [by apply unregister_spec|]. intros _ t2 (HT2 & Hc2 & _ & Hgone & Hoth).
    eapply runs_conseq; [apply (exec_others id os t2); [done..|lia|lia|]|by intros ids t' (_ & _ & _ & ?)].
    intros k Hk. destruct (decide (k = hnd)) as [->|Hne]; [done|]. exfalso. apply Hne, Hone, Hoth; auto.
Qed.

Lemma io_timer_on_time_witness :
  runs (ts_register 5 2 (Some 7%nat)) ts_default (fun hnd t1 =>
    (2 <= 2 -> runs (timer_exec [TTick; TRegister 6 1 (Some 8%nat); TTick]) t1 (fun ids t2 =>
       (Some 7%nat ∉ ids) /\ (2 = 2 -> runs ts_tick t2 (fun ids' _ => Some 7%nat ∈ ids')))) /\
    runs (ts_unregister hnd (Some 7%nat);; timer_exec [TTick; TRegister 6 1 (Some 8%nat); TTick]) t1 (fun ids _ => Some 7%nat ∉ ids)).
Proof.
  apply (io_timer_on_time (Some 7%nat) 5 2 [TTick; TRegister 6 1 (Some 8%nat); TTick]); try done.
  - apply TInv_default.
  - intros k (s & Hs & _). cbn in Hs. by rewrite lookup_empty in Hs.
  - repeat constructor; done.
Defined.
