(* ===== verification/IoState.v ===== *)
(** * [io::io] and [io::ctx]: the state of a stream, and what a driver does to it

    Models geario/src/io/io.rs ([IoState]), utils.rs ([Extensions]) and the
    part of ctx.rs a driver calls to write.  A computation runs on a context
    [Cx]: the stream, the manager of the thread (absent while it is in use,
    so that a nested use panics), the state of the driver, and the wakers
    woken so far.  User callbacks around the filters are not modelled. *)
From Stdlib Require Import ZArith Lia String.
From stdpp Require Import base numbers list.
From S2P Require Import Prelude Deps Task IoConfig IoFlags IoBuf IoTimers.

(** The driver's handle of a stream, when it is dropped. *)
Class HandleDrop (D : Type) := hd_drop : D -> outcome D.

Section state.
Context {F L D : Type}.

Record IoState := mkIoState {
  io_id : Id;
  io_cfg : IoConfig;
  io_flags : F;
  io_error : option IoError;
  io_read_task : LocalWaker;
  io_write_task : LocalWaker;
  io_dispatch_task : LocalWaker;
  io_buffer : Stack;
  io_filter : Filter L;
  io_handle : bool;
  io_timeout : Z;
  (** The deadline of the sleep that bounds the shutdown of the filters. *)
  io_shutdown_timeout : option Z;
  io_disconnect : option (list LocalWaker);
}.

Record Cx := mkCx {
  cx_io : IoState;
  cx_mgr : option Mgr;
  cx_drv : D;
  cx_woken : list waker;
}.
End state.
Arguments IoState F L : clear implicits.
Arguments Cx F L D : clear implicits.

Section io.
Context {F : Type} `{!Bitflags F} {L : Type} `{!FilterLayer L} {D : Type} `{!HandleDrop D}.

Abbreviation IO A := (M (Cx F L D) A) (only parsing).

(** ** Fields *)

Definition upd_io (g : IoState F L -> IoState F L) (c : Cx F L D) : Cx F L D :=
  mkCx (g (cx_io c)) (cx_mgr c) (cx_drv c) (cx_woken c).
Definition set_flags (f : F) (s : IoState F L) : IoState F L :=
  mkIoState (io_id s) (io_cfg s) f (io_error s) (io_read_task s) (io_write_task s) (io_dispatch_task s)
    (io_buffer s) (io_filter s) (io_handle s) (io_timeout s) (io_shutdown_timeout s) (io_disconnect s).
Definition set_error (e : option IoError) (s : IoState F L) : IoState F L :=
  mkIoState (io_id s) (io_cfg s) (io_flags s) e (io_read_task s) (io_write_task s) (io_dispatch_task s)
    (io_buffer s) (io_filter s) (io_handle s) (io_timeout s) (io_shutdown_timeout s) (io_disconnect s).
Definition set_read_task (w : LocalWaker) (s : IoState F L) : IoState F L :=
  mkIoState (io_id s) (io_cfg s) (io_flags s) (io_error s) w (io_write_task s) (io_dispatch_task s)
    (io_buffer s) (io_filter s) (io_handle s) (io_timeout s) (io_shutdown_timeout s) (io_disconnect s).
Definition set_write_task (w : LocalWaker) (s : IoState F L) : IoState F L :=
  mkIoState (io_id s) (io_cfg s) (io_flags s) (io_error s) (io_read_task s) w (io_dispatch_task s)
    (io_buffer s) (io_filter s) (io_handle s) (io_timeout s) (io_shutdown_timeout s) (io_disconnect s).
Definition set_dispatch_task (w : LocalWaker) (s : IoState F L) : IoState F L :=
  mkIoState (io_id s) (io_cfg s) (io_flags s) (io_error s) (io_read_task s) (io_write_task s) w
    (io_buffer s) (io_filter s) (io_handle s) (io_timeout s) (io_shutdown_timeout s) (io_disconnect s).
Definition set_buffer (b : Stack) (f : Filter L) (s : IoState F L) : IoState F L :=
  mkIoState (io_id s) (io_cfg s) (io_flags s) (io_error s) (io_read_task s) (io_write_task s) (io_dispatch_task s)
    b f (io_handle s) (io_timeout s) (io_shutdown_timeout s) (io_disconnect s).
Definition set_handle (h : bool) (s : IoState F L) : IoState F L :=
  mkIoState (io_id s) (io_cfg s) (io_flags s) (io_error s) (io_read_task s) (io_write_task s) (io_dispatch_task s)
    (io_buffer s) (io_filter s) h (io_timeout s) (io_shutdown_timeout s) (io_disconnect s).
Definition set_timeout (t : Z) (s : IoState F L) : IoState F L :=
  mkIoState (io_id s) (io_cfg s) (io_flags s) (io_error s) (io_read_task s) (io_write_task s) (io_dispatch_task s)
    (io_buffer s) (io_filter s) (io_handle s) t (io_shutdown_timeout s) (io_disconnect s).
Definition set_shutdown_timeout (t : option Z) (s : IoState F L) : IoState F L :=
  mkIoState (io_id s) (io_cfg s) (io_flags s) (io_error s) (io_read_task s) (io_write_task s) (io_dispatch_task s)
    (io_buffer s) (io_filter s) (io_handle s) (io_timeout s) t (io_disconnect s).
Definition set_disconnect (d : option (list LocalWaker)) (s : IoState F L) : IoState F L :=
  mkIoState (io_id s) (io_cfg s) (io_flags s) (io_error s) (io_read_task s) (io_write_task s) (io_dispatch_task s)
    (io_buffer s) (io_filter s) (io_handle s) (io_timeout s) (io_shutdown_timeout s) d.
Definition set_mgr (m : option Mgr) (c : Cx F L D) : Cx F L D := mkCx (cx_io c) m (cx_drv c) (cx_woken c).
Definition set_drv (d : D) (c : Cx F L D) : Cx F L D := mkCx (cx_io c) (cx_mgr c) d (cx_woken c).
Definition add_woken (ws : list waker) (c : Cx F L D) : Cx F L D := mkCx (cx_io c) (cx_mgr c) (cx_drv c) (cx_woken c ++ ws).

Definition get_io {A} (g : IoState F L -> A) : IO A := getsS (fun c => g (cx_io c)).
Definition mod_io (g : IoState F L -> IoState F L) : IO () := modifyS (upd_io g).

(** A test of the flags, an update, and a test-and-set. *)
Definition flag (t : F -> bool) : IO bool := get_io (fun s => t (io_flags s)).
Definition upd_flags (g : F -> F) : IO () := mod_io (fun s => set_flags (g (io_flags s)) s).
Definition check_flags (g : F -> bool * F) : IO bool := fun c =>
  let '(b, f) := g (io_flags (cx_io c)) in Done (b, upd_io (set_flags f) c).

Definition on_buffer {A} (c : M Stack A) : IO A := fun s =>
  match c (io_buffer (cx_io s)) with
  | Done (a, b) => Done (a, upd_io (fun io => set_buffer b (io_filter io) io) s)
  | Fault f => Fault f
  end.

(** ** [IoState] *)

Definition wake_read_task : IO () := fun c =>
  Done (tt, add_woken (lw_wake (io_read_task (cx_io c))).1 (upd_io (set_read_task (lw_wake (io_read_task (cx_io c))).2) c)).
Definition wake_write_task : IO () := fun c =>
  Done (tt, add_woken (lw_wake (io_write_task (cx_io c))).1 (upd_io (set_write_task (lw_wake (io_write_task (cx_io c))).2) c)).
Definition wake_dispatch_task : IO () := fun c =>
  Done (tt, add_woken (lw_wake (io_dispatch_task (cx_io c))).1 (upd_io (set_dispatch_task (lw_wake (io_dispatch_task (cx_io c))).2) c)).
Definition register_read (w : waker) : IO () := mod_io (fun s => set_read_task (lw_register w (io_read_task s)).2 s).
Definition register_write (w : waker) : IO () := mod_io (fun s => set_write_task (lw_register w (io_write_task s)).2 s).
Definition register_dispatch (w : waker) : IO () := mod_io (fun s => set_dispatch_task (lw_register w (io_dispatch_task s)).2 s).

Definition io_notify_timeout : IO () :=
  b ← check_flags check_dispatcher_timeout_unset;
  if (b : bool) then wake_dispatch_task else mret tt.

(** [Extensions]. *)
Definition notify_disconnect : IO () := fun c =>
  match io_disconnect (cx_io c) with
  | Some ws => Done (tt, add_woken (ws ≫= fun lw => (lw_wake lw).1) (upd_io (set_disconnect None) c))
  | None => Done (tt, c)
  end.
Definition register_disconnect : IO nat := fun c =>
  match io_disconnect (cx_io c) with
  | Some ws => Done (length ws, upd_io (set_disconnect (Some (ws ++ [lw_new]))) c)
  | None => Done (0%nat, upd_io (set_disconnect (Some [lw_new])) c)
  end.
Definition poll_disconnect (token : nat) (w : waker) : IO (Poll ()) := fun c =>
  match io_disconnect (cx_io c) with
  | Some ws =>
      match ws !! token with
      | Some lw => Done (Pending, upd_io (set_disconnect (Some (<[token := (lw_register w lw).2]> ws))) c)
      | None => Fault Panic
      end
  | None => Done (Ready tt, c)
  end.

(** [IoState::error]: a copy stays behind. *)
Definition state_error : IO (option IoError) := get_io io_error.
Definition disconnected : IoError := mkIoError NotConnected "Disconnected".
Definition error_or_disconnected : IO IoError :=
  e ← state_error; mret (match e with Some e => e | None => disconnected end).

Definition filters_stopped : IO () :=
  wake_read_task;; wake_write_task;; wake_dispatch_task;; upd_flags set_filters_stopped.

(** [self.handle.take()], and the drop of what was there. *)
Definition drop_handle : IO () :=
  h ← get_io io_handle;
  if (h : bool) then
    mod_io (set_handle false);;
    c ← getS; d ← liftS (hd_drop (cx_drv c)); modifyS (set_drv d)
  else mret tt.

Definition terminate_connection (err : option IoError) : IO () :=
  t ← flag is_terminated;
  if (t : bool) then mret tt
  else
    (match err with Some e => mod_io (set_error (Some e)) | None => mret tt end);;
    upd_flags set_terminate;;
    wake_read_task;; wake_write_task;; wake_dispatch_task;;
    notify_disconnect;;
    drop_handle.

Definition start_shutdown : IO () :=
  t ← flag is_stopping_any;
  if (t : bool) then mret tt
  else upd_flags set_filter_stopping;; wake_read_task;; wake_write_task.

Definition is_rd_backpressure_needed (size : Z) : IO bool := get_io (fun s => bc_high (ic_read_buf (io_cfg s)) <=? size).
Definition is_wr_backpressure_needed (size : Z) : IO bool := get_io (fun s => bc_high (ic_write_buf (io_cfg s)) <=? size).
Definition should_disable_wr_backpressure (size : Z) : IO bool := get_io (fun s => size <=? bc_half (ic_write_buf (io_cfg s))).

(** ** The filters of a stream *)

(** A run of the filter chain, with [FilterUpdates] as they are at the end;
    [NullFilter] answers [null]. *)
Definition with_filters {A} (wants_write : bool) (null : A) (run : nat -> M (FilterCtx L) A) : IO (A * bool * bool) := fun c =>
  let s := cx_io c in
  match io_filter s with
  | None => Done ((null, wants_write, false), c)
  | Some ls =>
      match run (length ls) (mkFilterCtx ls (io_buffer s) wants_write false) with
      | Fault f => Fault f
      | Done (a, ctx) =>
          Done ((a, fc_wants_write ctx, fc_notify ctx), upd_io (set_buffer (fc_stack ctx) (Some (fc_layers ctx))) c)
      end
  end.

(** [Stack::process_read_buf]: the updates, unless a layer failed. *)
Definition process_read_buf : IO (result (bool * bool)) :=
  '(r, wants, notify) ← with_filters false (inl tt) (fun n => chain_process_read_buf n 0);
  mret (match r with inl _ => inl (wants, notify) | inr e => inr e end).
Definition process_write_buf_force : IO (result ()) :=
  '(r, _, _) ← with_filters true (inl tt) (fun n => chain_process_write_buf n 0); mret r.
Definition process_write_buf : IO (result ()) :=
  e ← on_buffer (stack_is_write_empty 0);
  if (e : bool) then mret (inl tt) else process_write_buf_force.
Definition process_shutdown : IO (result (Poll ())) :=
  r ← process_write_buf;
  match r with
  | inr e => mret (inr e)
  | inl _ => '(r, _, _) ← with_filters false (inl (Ready tt)) (fun n => chain_shutdown n 0); mret r
  end.

(** ** [IoContext], for writing *)

Inductive IoTaskStatus := StatusIo | StatusPause | StatusStop.

Definition ctx_stop (e : option IoError) : IO () := terminate_connection e.
Definition ctx_is_stopped : IO bool := flag is_closed.

(** [Stack::with_write_dst] with a closure that may act on the stream while
    the buffer is out of its cell. *)
Definition with_write_dst_io {A} (f : list byte -> IO (A * list byte)) : IO A :=
  i ← on_buffer stack_last;
  b ← on_buffer (stack_get i);
  match b_write b with
  | None => failS Panic
  | Some wb =>
      on_buffer (stack_set i (set_b_write None b));;
      '(r, wb) ← f wb;
      b ← on_buffer (stack_get i);
      on_buffer (stack_set i (set_b_write (Some wb) b));;
      mret r
  end.

Definition ctx_with_write_buf {A} (f : list byte -> IO (A * list byte)) : IO A :=
  r ← process_write_buf;
  (match r with inr e => terminate_connection (Some e) | inl _ => mret tt end);;
  with_write_dst_io f.

Definition ctx_update_write_status (status : result bool) : IO IoTaskStatus :=
  match status with
  | inl written =>
      len ← on_buffer write_buf_size;
      flush ← flag is_write_flush;
      (if (flush : bool) then (if len =? 0 then wake_dispatch_task else mret tt)
       else
         bp ← flag is_wr_backpressure;
         dis ← should_disable_wr_backpressure len;
         if (bp : bool) && (dis : bool) then wake_dispatch_task else mret tt);;
      notify ← flag is_write_notify;
      (if written && (notify : bool) then upd_flags unset_write_notify;; wake_read_task;; wake_write_task else mret tt);;
      closed ← flag is_closed;
      if (closed : bool) then mret StatusStop
      else if len =? 0 then
        upd_flags set_write_paused;;
        sf ← flag is_stopping_filters;
        (if (sf : bool) then wake_read_task else mret tt);;
        mret StatusPause
      else upd_flags unset_write_paused;; mret StatusIo
  | inr err => terminate_connection (Some err);; mret StatusStop
  end.

Definition ctx_notify : IO () := wake_read_task.
End io.
