(* ===== verification/IoInv.v ===== *)
(** * The invariant of a stream

    What holds of a stream between the operations of [IoState.v] and
    [IoRef.v], and the contract of a driver.  While a driver writes for
    [IoRef::call_write] the handle is out of its cell; the invariant is
    indexed by whether it is in. *)
From Stdlib Require Import ZArith Lia.
From stdpp Require Import base numbers list sets.
From S2P Require Import Prelude Deps Task IoConfig IoFlags IoBuf IoChain IoTimers IoState.

(** When output may be left unwritten: never but after a termination, once the
    filters of a stream are stopped, or at any time - which is what is left of
    a stream after a layer failed to flush.  A driver may leave output only if
    it says so. *)
Inductive waiver := WaiveNever | WaiveClosing | WaiveAlways.
Definition waived (w : waiver) (stopping : bool) : bool :=
  match w with WaiveNever => false | WaiveClosing => stopping | WaiveAlways => true end.
Lemma waived_mono w b b' : (b = true -> b' = true) -> waived w b = true -> waived w b' = true.
Proof. destruct w; cbn; auto. Qed.
Lemma waived_closing w b : w <> WaiveAlways -> waived w b = true -> b = true.
Proof. by destruct w. Qed.
Class Waive (D : Type) := waives : waiver.
#[export] Instance strict_driver (D : Type) : Waive D | 100 := WaiveNever.
Lemma strict_waives D : waives (D := D) <> WaiveAlways.
Proof. done. Qed.

(** Membership in a list of numbers. *)
Ltac mem := solve [repeat constructor].

Section inv.
Context {F : Type} `{!Bitflags F} `{!BitflagsLaws F} {L : Type} `{!FilterLayer L} `{!FilterLayerLaws L}.
Context {D : Type} `{!HandleDrop D} `{!Waive D}.

Implicit Types (c : Cx F L D) (acc : list byte).

Definition hasf (k : Z) c : bool := has k (io_flags (cx_io c)).
Definition buf_of c : Stack := io_buffer (cx_io c).
Definition filter_of c : Filter L := io_filter (cx_io c).
Definition handle_of c : bool := io_handle (cx_io c).

(** The stream is scheduled for a deferred write: its id is in the list of
    the manager, whose task is spawned. *)
Definition enqueued c : Prop :=
  exists m, cx_mgr c = Some m /\ io_id (cx_io c) ∈ ip_ops (mg_iops m) /\ ip_running (mg_iops m) = true.

Definition shape_ok c : Prop :=
  stack_ok (buf_of c) /\ forall ls, filter_of c = Some ls -> length (buf_of c) = (length ls + 2)%nat.

(** The contract of the state of a driver: [Q alive] holds while the handle
    is alive or after its drop; [sent] is what the driver has taken from the
    stream. *)
Context (Q : bool -> D -> Prop) (sent : D -> list byte).

Class DropLaws : Prop :=
  drop_ok d : Q true d -> exists d', hd_drop d = Done d' /\ Q false d'.

(** Output that is not being written is scheduled to be. *)
Definition served (hv : bool) c : Prop :=
  hasf 9 c = true -> out_size (buf_of c) = 0 \/ (hv = true /\ hasf 11 c = true).

(** A stream that is not terminated has its handle; with no layers, what the
    driver took and what is buffered make up what was written. *)
Definition live (hv : bool) acc c : Prop :=
  handle_of c = hv /\ (filter_of c = Some [] -> sent (cx_drv c) ++ wcontent (buf_of c) 0 = acc).

(** The state is well formed. *)
Record Wf (hv : bool) c : Prop := {
  g_shape : shape_ok c;
  g_flags : (hasf 0 c = true -> hasf 1 c = true) /\ (hasf 1 c = true -> hasf 2 c = true);
  g_taken : hv = false -> handle_of c = false;
  g_drv : Q (if hv then handle_of c else true) (cx_drv c);
  g_sched : hasf 11 c = true -> enqueued c;
}.
(** The invariant while an operation is under way, and between operations. *)
Definition Sound (hv : bool) acc c : Prop := Wf hv c /\ (hasf 0 c = true \/ live hv acc c).
Definition excused c : Prop := hasf 0 c = true \/ waived waives (hasf 1 c) = true.
Definition Good (hv : bool) acc c : Prop := Sound hv acc c /\ (excused c \/ served hv c).

(** ** Changes the invariant does not see *)

Record core c c' : Prop := {
  k_buf : buf_of c' = buf_of c;
  k_filter : filter_of c' = filter_of c;
  k_handle : handle_of c' = handle_of c;
  k_id : io_id (cx_io c') = io_id (cx_io c);
  k_cfg : io_cfg (cx_io c') = io_cfg (cx_io c);
  k_mgr : cx_mgr c' = cx_mgr c;
  k_drv : cx_drv c' = cx_drv c;
  k_flags k : k ∈ [0; 1; 2; 9; 11; 15] -> hasf k c' = hasf k c;
  k_timer : io_shutdown_timeout (cx_io c') = io_shutdown_timeout (cx_io c);
}.

#[export] Instance core_preorder : PreOrder core.
Proof.
  split; [by intros c|]. intros c1 c2 c3 [] []. split; try congruence.
  intros k Hk. transitivity (hasf k c2); auto.
Qed.

Lemma core_sound hv acc c c' : core c c' -> Sound hv acc c -> Sound hv acc c'.
Proof.
  intros [Kb Kf Kh Kid Kcfg Km Kd Kk] [[Hs Hfl Ht Hd Hsc] Hl]. split; [split|].
  - unfold shape_ok. by rewrite Kb, Kf.
  - by rewrite !Kk by mem.
  - by rewrite Kh.
  - by rewrite Kh, Kd.
  - rewrite Kk by mem. unfold enqueued. by rewrite Km, Kid.
  - rewrite Kk by mem. unfold live. by rewrite Kh, Kf, Kd, Kb.
Qed.

Lemma core_good hv acc c c' : core c c' -> Good hv acc c -> Good hv acc c'.
Proof.
  intros Hc [HS Hsv]. split; [by eapply core_sound|]. destruct Hc as [Kb _ _ _ _ _ _ Kk]. unfold served, excused in *.
  by rewrite Kb, !Kk by mem.
Qed.

(** An update of the flags that leaves the bits of the invariant alone. *)
Lemma core_flags c g :
  (forall k, k ∈ [0; 1; 2; 9; 11; 15] -> has k (g (io_flags (cx_io c))) = hasf k c) ->
  runs (upd_flags g) c (fun _ c' => core c c' /\ io_flags (cx_io c') = g (io_flags (cx_io c))).
Proof. intros Hg. apply runs_modify. split; [|done]. by split. Qed.

(** Operations that change neither the flags nor what the invariant sees. *)
Definition quiet (op : M (Cx F L D) ()) : Prop := forall c,
  runs op c (fun _ c' => core c c' /\ io_flags (cx_io c') = io_flags (cx_io c)).

Lemma quiet_ret : quiet (mret tt).
Proof. intros c. by apply runs_ret. Qed.
Lemma quiet_bind op1 op2 : quiet op1 -> quiet op2 -> quiet (op1;; op2).
Proof.
  intros H1 H2 c. apply runs_bind. eapply runs_conseq; [apply H1|]. intros [] c1 [K1 F1].
  eapply runs_conseq; [apply H2|]. intros [] c2 [K2 F2]. split; [by etrans|congruence].
Qed.
Lemma quiet_if (b : bool) op1 op2 : quiet op1 -> quiet op2 -> quiet (if b then op1 else op2).
Proof. by destruct b. Qed.

Ltac quiet_modify := intros ?; first [apply runs_modify|eapply runs_eq; [done|]]; split; [|done]; by split.
Lemma quiet_wake_read : quiet wake_read_task.
Proof. quiet_modify. Qed.
Lemma quiet_wake_write : quiet wake_write_task.
Proof. quiet_modify. Qed.
Lemma quiet_wake_dispatch : quiet wake_dispatch_task.
Proof. quiet_modify. Qed.
Lemma quiet_register_read w : quiet (register_read w).
Proof. quiet_modify. Qed.
Lemma quiet_register_write w : quiet (register_write w).
Proof. quiet_modify. Qed.
Lemma quiet_register_dispatch w : quiet (register_dispatch w).
Proof. quiet_modify. Qed.
Lemma quiet_set_error e : quiet (mod_io (set_error e)).
Proof. quiet_modify. Qed.
Lemma quiet_set_timeout t : quiet (mod_io (set_timeout t)).
Proof. quiet_modify. Qed.
Lemma quiet_notify_disconnect : quiet notify_disconnect.
Proof.
  intros c. unfold runs, notify_disconnect.
  destruct (io_disconnect (cx_io c)); eexists _, _; (split; [done|]); (split; [by split|done]).
Qed.

Lemma runs_quiet op c (P : () -> Cx F L D -> Prop) :
  quiet op -> (forall c', core c c' -> io_flags (cx_io c') = io_flags (cx_io c) -> P tt c') -> runs op c P.
Proof. intros Hq HP. eapply runs_conseq; [apply Hq|]. intros [] c' [? ?]. by apply HP. Qed.

Lemma quiet_good op hv acc c : quiet op -> Good hv acc c -> runs op c (fun _ c' => Good hv acc c' /\ io_flags (cx_io c') = io_flags (cx_io c)).
Proof. intros Hq HG. eapply runs_conseq; [apply Hq|]. intros [] c' [Hc ?]. split; [by eapply core_good|done]. Qed.
End inv.

Create HintDb quiet.
#[export] Hint Resolve quiet_ret quiet_bind quiet_if quiet_wake_read quiet_wake_write quiet_wake_dispatch
  quiet_register_read quiet_register_write quiet_register_dispatch quiet_set_error quiet_set_timeout
  quiet_notify_disconnect : quiet.

(** ** Each operation of a stream keeps the invariant: termination and filters

    Specifications of the operations of [IoState.v] with respect to the
    invariant of [IoInv.v]. *)

(** Runs a step that the invariant does not see. *)
Ltac qstep c K Fl := apply runs_bind, runs_quiet; [solve [eauto with quiet]|]; intros c K Fl.

(** Bits of an updated set, one by one. *)
Ltac bits := let Hk := fresh "Hin" in intros ?k Hk; unfold hasf; cbn [cx_io upd_io io_flags set_flags]; autorewrite with flags;
  repeat (apply elem_of_cons in Hk as [->|Hk]; [by rewrite ?andb_false_r, ?andb_true_r, ?orb_false_r|]); by apply not_elem_of_nil in Hk.

Ltac bit11 := unfold hasf; autorewrite with flags; by rewrite ?andb_true_r, ?orb_false_r, ?andb_false_r.

Section step.
Context {F : Type} `{!Bitflags F} `{!BitflagsLaws F} {L : Type} `{!FilterLayer L} `{!FilterLayerLaws L}.
Context {D : Type} `{!HandleDrop D} `{!Waive D} (Q : bool -> D -> Prop) (sent : D -> list byte) `{!DropLaws Q}.

Implicit Types (c : Cx F L D) (acc : list byte).
Abbreviation Wf := (Wf Q).
Abbreviation Sound := (Sound Q sent).
Abbreviation Good := (Good Q sent).

(** What no driver and no filter changes. *)
Record kept c c' : Prop := {
  kp_id : io_id (cx_io c') = io_id (cx_io c);
  kp_cfg : io_cfg (cx_io c') = io_cfg (cx_io c);
  kp_mgr : cx_mgr c' = cx_mgr c;
  (** The flags of the end of the life of a stream are not cleared. *)
  kp_life k : k ∈ [0; 1; 2] -> hasf k c = true -> hasf k c' = true;
  (** A stream with no layers gets none. *)
  kp_plain : filter_of c = Some [] -> filter_of c' = Some [];
  (** The filters are not stopped, except by a termination. *)
  kp_stop : hasf 1 c' = true -> hasf 1 c = true \/ hasf 0 c' = true;
  kp_timer : io_shutdown_timeout (cx_io c') = io_shutdown_timeout (cx_io c);
}.
#[export] Instance kept_preorder : PreOrder kept.
Proof.
  split; [intros c; split; auto|]. intros c1 c2 c3 [? ? ? ? ? S1 ?] [? ? ? L2 ? S2 ?]. split; [congruence..|auto|auto| |congruence].
  intros [H|]%S2; [|by right]. destruct (S1 H) as [|H']; [by left|right]. apply L2; [mem|done].
Qed.
Lemma core_kept c c' : core c c' -> kept c c'.
Proof.
  intros [_ Hf _ ? ? ? _ Hk ?]. split; [done..| |by rewrite Hf|rewrite !Hk by mem; auto|done]. intros k Hin <-. apply Hk.
  by repeat (apply elem_of_cons in Hin as [->|Hin]; [mem|]); apply not_elem_of_nil in Hin.
Qed.
Lemma kept_flags c c' :
  io_id (cx_io c') = io_id (cx_io c) -> io_cfg (cx_io c') = io_cfg (cx_io c) -> cx_mgr c' = cx_mgr c ->
  io_flags (cx_io c') = io_flags (cx_io c) -> filter_of c' = filter_of c ->
  io_shutdown_timeout (cx_io c') = io_shutdown_timeout (cx_io c) -> kept c c'.
Proof. intros ? ? ? Hf Hl ?. split; try done; [|by rewrite Hl|unfold hasf; rewrite Hf; auto]. intros k _. unfold hasf. by rewrite Hf. Qed.

Lemma runs_flag (t : F -> bool) c (P : bool -> Cx F L D -> Prop) : P (t (io_flags (cx_io c))) c -> runs (flag t) c P.
Proof. intros HP. by eapply runs_eq. Qed.

Lemma upd_same c : upd_io (fun io => set_buffer (io_buffer (cx_io c)) (io_filter io) io) c = c.
Proof. by destruct c as [[]]. Qed.

Lemma runs_on_buffer {A} (op : M Stack A) c a (P : A -> Cx F L D -> Prop) :
  op (buf_of c) = Done (a, buf_of c) -> P a c -> runs (on_buffer op) c P.
Proof. intros Hop HP. eapply runs_eq; [|exact HP]. unfold on_buffer. unfold buf_of in Hop. by rewrite Hop, upd_same. Qed.

Lemma runs_size c (P : Z -> Cx F L D -> Prop) :
  stack_ok (buf_of c) -> P (out_size (buf_of c)) c -> runs (on_buffer write_buf_size) c P.
Proof. intros Hs. apply runs_on_buffer. by apply write_buf_size_spec. Qed.

(** ** Termination *)

(** The effect on everything but the buffers, so that it also describes a
    termination while a write buffer is out of its cell. *)
Record ended (hv : bool) c c' : Prop := {
  en_kept : kept c c';
  en_buf : buf_of c' = buf_of c;
  en_filter : filter_of c' = filter_of c;
  en_flags : hasf 0 c' = true /\ ((hasf 0 c = true -> hasf 1 c = true) -> hasf 1 c' = true) /\
    ((hasf 0 c = true -> hasf 2 c = true) -> hasf 2 c' = true);
  en_sched : hasf 11 c' = hasf 11 c;
  en_taken : hv = false -> handle_of c' = false;
  en_drv : Q (if hv then handle_of c' else true) (cx_drv c');
}.

Lemma ended_same hv c :
  hasf 0 c = true -> (hv = false -> handle_of c = false) -> Q (if hv then handle_of c else true) (cx_drv c) -> ended hv c c.
Proof. intros H0 Ht Hd. split; try done. by split; [|split; [intros H|intros H]; auto]. Qed.

Lemma drop_handle_spec hv c :
  (hv = false -> handle_of c = false) -> Q (if hv then handle_of c else true) (cx_drv c) ->
  runs drop_handle c (fun _ c' =>
    kept c c' /\ buf_of c' = buf_of c /\ filter_of c' = filter_of c /\ io_flags (cx_io c') = io_flags (cx_io c) /\
    handle_of c' = false /\ Q (if hv then false else true) (cx_drv c')).
Proof.
  intros Ht Hd. unfold drop_handle. apply runs_bind, runs_gets. fold (handle_of c). destruct (handle_of c) eqn:Hh.
  - destruct hv; [|by discriminate Ht]. destruct (drop_ok Q (cx_drv c) Hd) as (d' & Hdrop & HQ).
    apply runs_bind, runs_modify, runs_bind, runs_get, runs_bind. eapply runs_lift; [exact Hdrop|].
    apply runs_modify. split; [by apply kept_flags|]. by repeat split.
  - apply runs_ret. split; [done|]. do 4 (split; [done|]). by destruct hv.
Qed.

Lemma terminate_raw hv e c :
  (hv = false -> handle_of c = false) -> Q (if hv then handle_of c else true) (cx_drv c) ->
  runs (terminate_connection e) c (fun _ c' => ended hv c c').
Proof.
  intros Ht Hd. unfold terminate_connection. apply runs_bind, runs_flag. rewrite is_terminated_has. fold (hasf 0 c).
  destruct (hasf 0 c) eqn:H0; [by apply runs_ret, ended_same|].
  apply runs_bind. eapply runs_conseq; [destruct e; [apply quiet_set_error|apply quiet_ret]|]. intros [] c1 [K1 F1].
  apply runs_bind, runs_modify. set (c2 := upd_io _ c1). qstep c3 K3 F3. qstep c4 K4 F4. qstep c5 K5 F5. qstep c6 K6 F6.
  assert (core c2 c6) as K26 by (do 3 (etrans; [eassumption|]); done).
  assert (io_flags (cx_io c6) = set_terminate (io_flags (cx_io c))) as Hfl by (rewrite F6, F5, F4, F3; cbn; by rewrite F1).
  destruct K1 as [Kb Kf Kh Kid Kcfg Km Kd _ Kt], K26 as [Kb' Kf' Kh' Kid' Kcfg' Km' Kd' _ Kt'].
  change (buf_of c2) with (buf_of c1) in *. change (filter_of c2) with (filter_of c1) in *.
  change (handle_of c2) with (handle_of c1) in *. cbn in Kid', Kcfg', Km', Kd', Kt'. rewrite Kh in Kh'. rewrite Kd in Kd'.
  eapply runs_conseq; [apply (drop_handle_spec hv); [by rewrite Kh'|by rewrite Kh', Kd']|].
  intros [] c7 ([Gi Gc Gm _ _ _ Gt] & Gb & Gf & Gfl & Gh & GQ).
  assert (forall k, hasf k c7 = hasf k c || Z.testbit 71 k) as Hk by (intros k; unfold hasf; rewrite Gfl, Hfl; apply has_set_terminate).
  split; rewrite ?Hk; cbn; rewrite ?orb_true_r, ?orb_false_r; try done.
  - split; [congruence..| |congruence|intros _; right; rewrite Hk; apply orb_true_r|congruence]. intros k _ H1. by rewrite Hk, H1.
  - congruence.
  - congruence.
  - by rewrite Gh; destruct hv.
Qed.

Lemma ended_good hv acc c c' : Wf hv c -> ended hv c c' -> Good hv acc c'.
Proof.
  intros [Hs [H01 H12] _ _ Hsc] [[Ki Kc Km _] Hb Hf (E0 & E1 & E2) E11 Et Ed].
  split; [|by left; left]. split; [|by left]. split; try done.
  - unfold shape_ok. by rewrite Hb, Hf.
  - split; intros _; auto.
  - rewrite E11. unfold enqueued. by rewrite Km, Ki.
Qed.

Lemma terminate_spec hv acc e c :
  Wf hv c -> runs (terminate_connection e) c (fun _ c' => Good hv acc c' /\ kept c c' /\ hasf 0 c' = true).
Proof.
  intros HW. eapply runs_conseq; [apply (terminate_raw hv); apply HW|]. intros [] c' He.
  split; [by eapply ended_good|]. destruct He as [? _ _ [? _]]. done.
Qed.

(** ** Filters *)

(** A run of the filters changes the buffers and the layers. *)
Record filtered c c' : Prop := {
  ft_kept : kept c c';
  ft_flags : io_flags (cx_io c') = io_flags (cx_io c);
  ft_handle : handle_of c' = handle_of c;
  ft_drv : cx_drv c' = cx_drv c;
}.

Lemma filtered_refl c : filtered c c.
Proof. by split. Qed.
Lemma filtered_has c c' k : filtered c c' -> hasf k c' = hasf k c.
Proof. intros [_ Hf _ _]. unfold hasf. by rewrite Hf. Qed.

Definition chain_run_ok {A} (run : nat -> M (FilterCtx L) A) : Prop :=
  (forall fc, ctx_ok fc -> runs (run (length (fc_layers fc))) fc (fun _ fc' => ctx_step fc fc')) /\
  (exists a, forall fc, run 0%nat fc = Done (a, fc)).

Lemma with_filters_spec {A} hv acc wants (null : A) run c :
  chain_run_ok run -> Sound hv acc c ->
  runs (with_filters wants null run) c (fun r c' =>
    Sound hv acc c' /\ filtered c c' /\ r.2 = false /\
    (r.1.2 = false -> out_size (buf_of c') <= out_size (buf_of c))).
Proof.
  intros [Hrun [a0 Hnil]] HS. pose proof HS as [[[Hs Hlen] Hfl Ht Hd Hsc] Hl]. unfold runs, with_filters. fold (filter_of c) (buf_of c).
  destruct (filter_of c) as [ls|] eqn:Hf; [|eexists _, _; split; [done|]; cbn; done].
  set (fc := mkFilterCtx ls (buf_of c) wants false).
  destruct (Hrun fc) as (a & fc' & He & (Hs' & Hln') & Hl' & Hn' & Hw'); [by split; [|apply Hlen]|].
  cbn [fc_layers fc] in He. rewrite He. eexists _, _. split; [done|]. cbn [fst snd].
  assert (forall k, hasf k (upd_io (set_buffer (fc_stack fc') (Some (fc_layers fc'))) c) = hasf k c) as Hk by done.
  assert (kept c (upd_io (set_buffer (fc_stack fc') (Some (fc_layers fc'))) c)) as K.
  { split; try done; [|by rewrite !Hk; left]. rewrite Hf. intros [= ->]. cbn in Hl'. cbn. by destruct (fc_layers fc'). }
  split; [split; [split|]; rewrite ?Hk; try done|split; [by split|split; [done|]]].
  - split; [done|]. cbn. by intros ls' [= <-].
  - destruct Hl as [|[Hh Hst]]; [by left|right]. split; [done|]. cbn. intros [= Hnil'].
    assert (ls = []) as -> by (destruct ls; [done|]; by rewrite Hnil' in Hl').
    cbn in He. rewrite Hnil in He. injection He as _ <-. by apply Hst.
  - cbn. intros [_ Hw]%Hw'. apply wle_out_size; [|done]. cbn. rewrite Hln', Hl'. cbn. by rewrite (Hlen ls).
Qed.

Lemma run_read_ok : chain_run_ok (fun n => chain_process_read_buf n 0).
Proof. split; [|by exists (inl tt)]. intros fc Hfc. by apply chain_read_spec. Qed.
Lemma run_write_ok : chain_run_ok (fun n => chain_process_write_buf n 0).
Proof. split; [|by exists (inl tt)]. intros fc Hfc. by apply chain_write_spec. Qed.
Lemma run_shutdown_ok : chain_run_ok (fun n => chain_shutdown n 0).
Proof. split; [|by exists (inl (Ready tt))]. intros fc Hfc. by apply chain_shutdown_spec. Qed.

(** New input: unless they say that they wrote, the layers wrote nothing. *)
Lemma process_read_buf_spec hv acc c :
  Sound hv acc c ->
  runs process_read_buf c (fun r c' =>
    Sound hv acc c' /\ filtered c c' /\
    (forall w n, r = inl (w, n) -> n = false /\ (w = false -> out_size (buf_of c') <= out_size (buf_of c)))).
Proof.
  intros HS. unfold process_read_buf. apply runs_bind. eapply runs_conseq; [by apply (with_filters_spec hv acc), HS; apply run_read_ok|].
  intros [[r w] n] c' (HS' & Hf & Hn & Hw). apply runs_ret. do 2 (split; [done|]). intros w' n' He. destruct r; [|done].
  by simplify_eq.
Qed.

Lemma process_write_buf_force_spec hv acc c :
  Sound hv acc c -> runs process_write_buf_force c (fun r c' => Sound hv acc c' /\ filtered c c').
Proof.
  intros HS. unfold process_write_buf_force. apply runs_bind. eapply runs_conseq; [by apply (with_filters_spec hv acc), HS; apply run_write_ok|].
  intros [[r w] n] c' (HS' & Hf & _). by apply runs_ret.
Qed.

Lemma out_size_first s : out_size s = 0 -> wcontent s 0 = [].
Proof. unfold out_size. intros Ho. apply zlen_0_inv. case_match; zlia. Qed.
Lemma out_size_last s : out_size s = 0 -> wcontent s (length s - 2) = [].
Proof.
  intros Ho. apply zlen_0_inv. unfold out_size in Ho. destruct (Nat.eqb_spec (length s) 2) as [He|]; [by rewrite He|zlia].
Qed.

Lemma process_write_buf_spec hv acc c :
  Sound hv acc c ->
  runs process_write_buf c (fun r c' =>
    Sound hv acc c' /\ filtered c c' /\ (out_size (buf_of c) = 0 -> c' = c /\ r = inl tt)).
Proof.
  intros HS. pose proof (g_shape _ _ _ (proj1 HS)) as [Hs _]. unfold process_write_buf. apply runs_bind.
  eapply runs_on_buffer; [unfold stack_is_write_empty; apply stack_read_only; [done|destruct Hs; lia]|].
  destruct (Z.eqb_spec (zlen (wcontent (buf_of c) 0)) 0) as [He|Hne].
  - apply runs_ret. split; [done|]. split; [apply filtered_refl|done].
  - eapply runs_conseq; [by apply process_write_buf_force_spec|]. intros r c' [HS' Hf]. split; [done|]. split; [done|].
    intros H0%out_size_first. rewrite H0 in Hne. done.
Qed.

Lemma filtered_served hv c c' :
  filtered c c' -> (out_size (buf_of c) = 0 -> out_size (buf_of c') = 0) -> served hv c -> served hv c'.
Proof. intros Hf H0 Hs. unfold served in *. rewrite !(filtered_has c c') by done. intros [?|?]%Hs; auto. Qed.

Lemma process_write_buf_good hv acc c :
  Good hv acc c ->
  runs process_write_buf c (fun r c' => Good hv acc c' /\ filtered c c' /\ (out_size (buf_of c) = 0 -> c' = c /\ r = inl tt)).
Proof.
  intros [HS Hsv]. eapply runs_conseq; [by apply process_write_buf_spec|]. intros r c' (HS' & Hf & H0). split; [|done].
  split; [done|]. unfold excused in *. rewrite !(filtered_has c c') by done. destruct Hsv as [|Hsv]; [by left|right].
  eapply filtered_served; [done| |done]. intros He. by destruct (H0 He) as [-> _].
Qed.

Lemma process_shutdown_spec hv acc c :
  Sound hv acc c -> runs process_shutdown c (fun r c' => Sound hv acc c' /\ filtered c c').
Proof.
  intros HS. unfold process_shutdown. apply runs_bind. eapply runs_conseq; [by apply process_write_buf_spec|].
  intros [[]|e] c1 (HS1 & [K1 F1 H1 D1] & _); [|by apply runs_ret].
  apply runs_bind. eapply runs_conseq; [by apply (with_filters_spec hv acc), HS1; apply run_shutdown_ok|].
  intros [[r w] n] c2 (HS2 & [K2 F2 H2 D2] & _). apply runs_ret. split; [done|]. split; [by etrans|congruence..].
Qed.

(** ** Writing, for a driver *)

(** The buffer of the driver is out of its cell while [f] runs. *)
Definition dst (c : Cx F L D) : nat := (length (buf_of c) - 2)%nat.
Definition put_buf (s : Stack) (c : Cx F L D) : Cx F L D := upd_io (fun io => set_buffer s (io_filter io) io) c.

Lemma with_write_dst_spec {A} (f : list byte -> M (Cx F L D) (A * list byte)) c b wb (P : A -> Cx F L D -> Prop) :
  shape_ok c -> buf_of c !! dst c = Some b -> b_write b = Some wb ->
  runs (f wb) (put_buf (<[dst c := set_b_write None b]> (buf_of c)) c) (fun r c2 =>
    buf_of c2 = <[dst c := set_b_write None b]> (buf_of c) /\
    P r.1 (put_buf (<[dst c := set_b_write (Some r.2) b]> (buf_of c)) c2)) ->
  runs (with_write_dst_io f) c P.
Proof.
  intros [Hs _] Hb Hw Hf. pose proof (lookup_lt_Some _ _ _ Hb) as Hlt.
  unfold with_write_dst_io. apply runs_bind. eapply runs_on_buffer; [by apply stack_last_spec|]. fold (dst c).
  apply runs_bind. eapply runs_on_buffer; [by apply stack_get_spec|]. rewrite Hw.
  apply runs_bind. eapply runs_eq; [done|]. apply runs_bind.
  eapply runs_conseq; [exact Hf|]. intros [r wb'] c2 [Hb2 HP]. apply runs_bind.
  eapply runs_on_buffer; [apply stack_get_spec; rewrite Hb2; by apply list_lookup_insert_eq|].
  apply runs_bind. eapply runs_eq; [done|]. apply runs_ret. cbn in HP.
  unfold put_buf in HP. unfold buf_of in Hb2 at 1. rewrite Hb2, list_insert_insert_eq. exact HP.
Qed.

(** An update of the flags that keeps those of the life cycle. *)
Lemma runs_set_flags g hv acc c (P : () -> Cx F L D -> Prop) :
  Sound hv acc c -> (forall k, k ∈ [0; 1; 2] -> has k (g (io_flags (cx_io c))) = hasf k c) ->
  (has 11 (g (io_flags (cx_io c))) = true -> hasf 11 c = true) ->
  (forall c', Sound hv acc c' -> kept c c' -> buf_of c' = buf_of c -> handle_of c' = handle_of c ->
     io_flags (cx_io c') = g (io_flags (cx_io c)) -> P tt c') ->
  runs (upd_flags g) c P.
Proof.
  intros [[Hs Hfl Ht Hd Hsc] Hl] Hg Hg11 HP. set (c' := upd_io (fun s => set_flags (g (io_flags s)) s) c).
  assert (forall k, k ∈ [0; 1; 2] -> hasf k c' = hasf k c) as Hk by done.
  apply runs_modify, HP; try done; [|split; try done; [intros k Hin; by rewrite <- Hk|rewrite !Hk by mem; auto]].
  split; [split|]; rewrite ?Hk by mem; try done. intros H11. by apply Hsc, Hg11.
Qed.

(** [update_write_status]: a failure terminates the stream, whatever became
    of the output. *)
Lemma update_write_status_err hv acc e c :
  Wf hv c -> runs (ctx_update_write_status (inr e)) c (fun _ c' => Good hv acc c' /\ kept c c').
Proof.
  intros HW. cbn. apply runs_bind. eapply runs_conseq; [by apply (terminate_spec hv acc)|]. intros [] c' (HG & HK & _). by apply runs_ret.
Qed.

Lemma update_write_status_sound hv acc written c :
  Sound hv acc c -> (is_closed (io_flags (cx_io c)) = true -> Good hv acc c) ->
  runs (ctx_update_write_status (inl written)) c (fun r c' =>
    Good hv acc c' /\ kept c c' /\ (out_size (buf_of c) = 0 \/ hasf 1 c = true -> r <> StatusIo)).
Proof.
  intros HS HG. pose proof HS as [HW _]. pose proof (g_shape _ _ _ HW) as [Hs _].
  cbn -[hasf]. apply runs_bind, runs_size; [done|]. set (len := out_size (buf_of c)).
  apply runs_bind, runs_flag, runs_bind.
  apply (runs_conseq _ _ (fun _ c1 => core c c1 /\ io_flags (cx_io c1) = io_flags (cx_io c))).
  { destruct (is_write_flush _); [destruct (len =? 0); [apply quiet_wake_dispatch|by apply quiet_ret]|].
    apply runs_bind, runs_flag, runs_bind, runs_gets. destruct (_ && _); [apply quiet_wake_dispatch|by apply quiet_ret]. }
  intros [] c1 [K1 F1]. apply runs_bind, runs_flag, runs_bind.
  apply (runs_conseq _ _ (fun _ c2 => core c1 c2)).
  { destruct (written && _); [|by apply runs_ret]. apply runs_bind. eapply runs_conseq; [apply core_flags|].
    { bits. }
    intros [] c2 [K2 _]. qstep c3 K3 F3. apply runs_quiet; [auto with quiet|]. intros c4 K4 _. by do 2 (etrans; [done|]). }
  intros [] c2 K2. assert (core c c2) as K02 by (by etrans). clear c1 K1 F1 K2.
  pose proof (core_sound _ _ _ _ _ _ K02 HS) as HS2. assert (out_size (buf_of c2) = len) as Hlen by (by rewrite (k_buf _ _ K02)).
  pose proof (core_kept _ _ K02) as Kp2. apply runs_bind, runs_flag. destruct (is_closed (io_flags (cx_io c2))) eqn:Hcl.
  { apply runs_ret. split; [|done]. eapply core_good; [exact K02|]. apply HG. rewrite is_closed_has in *.
    destruct K02 as [_ _ _ _ _ _ _ Kk _]. fold (hasf 1 c) (hasf 0 c). by rewrite <- !Kk by mem. }
  destruct (Z.eqb_spec len 0) as [H0|Hne]; apply runs_bind.
  - eapply runs_set_flags; [done|bits|bit11|]. intros c3 HS3 Kp3 Hb3 _ Hf3. apply runs_bind, runs_flag, runs_bind.
    assert (Good hv acc c3) as HG3 by (split; [done|]; right; intros _; left; by rewrite Hb3, Hlen).
    apply runs_quiet; [auto with quiet|]. intros c4 K4 _. apply runs_ret. split; [by eapply core_good|].
    split; [|done]. do 2 (etrans; [done|]). by apply core_kept.
  - eapply runs_set_flags; [done|bits|bit11|]. intros c3 HS3 Kp3 Hb3 _ Hf3. apply runs_ret. split; [|split; [by etrans|]].
    2:{ rewrite is_closed_has in Hcl. apply orb_false_iff in Hcl as [Hcl _]. pose proof (k_flags _ _ K02 1 ltac:(mem)) as H1. unfold hasf in *. intros [?|?]; [done|]; congruence. }
    split; [done|]. right. intros H9. unfold hasf in H9. rewrite Hf3, has_unset_write_paused, andb_false_r in H9. done.
Qed.
Lemma update_write_status_ok hv acc written c :
  Good hv acc c -> runs (ctx_update_write_status (inl written)) c (fun _ c' => Good hv acc c' /\ kept c c').
Proof.
  intros HG. eapply runs_conseq; [apply update_write_status_sound; [apply HG|done]|]. by intros r c' (? & ? & _).
Qed.
End step.
