(* ===== verification/IoRef.v ===== *)
(** * [io::ioref], [io::io] and [io::ctx]: the operations on a stream

    Models geario/src/io/ioref.rs, the polling operations of io.rs, and the
    part of ctx.rs a driver calls to read and to shut down.  The handle of the
    driver is a type class; [Polling.v] gives the one of the poll based
    driver. *)
From Stdlib Require Import ZArith Lia String.
From stdpp Require Import base numbers list.
From S2P Require Import Prelude Deps Task IoConfig IoFlags IoBuf IoTimers IoState.

(** [Handle]. *)
Class Handle (F L D : Type) := {
  hd_write : M (Cx F L D) ();
  hd_write_bufs : list (list byte) -> M (Cx F L D) (option (result Z));
  hd_notify : M (Cx F L D) ();
}.

Inductive WakeWriteTask := WakeYes | WakeNo.

(** [Decoder]: the item, if there is one, or an error, and the rest. *)
Definition Decoder (Item Err : Type) := list byte -> (option Item + Err) * list byte.

Record Decoded (Item : Type) := mkDecoded { dc_item : option Item; dc_remains : Z; dc_consumed : Z }.
Arguments mkDecoded {Item}.
Arguments dc_item {Item}.
Arguments dc_remains {Item}.
Arguments dc_consumed {Item}.

Inductive IoStatusUpdate := UpdKeepAlive | UpdWriteBackpressure | UpdPeerGone (e : option IoError).

Inductive RecvError (Err : Type) :=
  | RecvKeepAlive
  | RecvWriteBackpressure
  | RecvDecoder (e : Err)
  | RecvPeerGone (e : option IoError).
Arguments RecvKeepAlive {Err}.
Arguments RecvWriteBackpressure {Err}.
Arguments RecvDecoder {Err} e.
Arguments RecvPeerGone {Err} e.

Inductive Readiness := RdyReady | RdyShutdown | RdyTerminate.

#[export] Instance readiness_eq_dec : EqDecision Readiness.
Proof. solve_decision. Defined.

(** [Readiness::merge]. *)
Definition readiness_merge (val1 val2 : Poll Readiness) : Poll Readiness :=
  match val1 with
  | Pending => Pending
  | Ready RdyReady => val2
  | Ready RdyTerminate => Ready RdyTerminate
  | Ready RdyShutdown =>
      match val2 with Ready RdyTerminate => Ready RdyTerminate | _ => Ready RdyShutdown end
  end.

Section ioref.
Context {F : Type} `{!Bitflags F} {L : Type} `{!FilterLayer L} {D : Type} `{!HandleDrop D} `{!Handle F L D}.

Abbreviation IO A := (M (Cx F L D) A) (only parsing).

(** ** The manager *)

(** [IoManager::with]. *)
Definition mgr_with {A} (f : Mgr -> outcome (A * Mgr)) : IO A := fun c =>
  match cx_mgr c with
  | None => Fault Panic
  | Some m => match f m with Done (a, m) => Done (a, set_mgr (Some m) c) | Fault e => Fault e end
  end.
Definition on_timers {A} (c : M TimerStorage A) (m : Mgr) : outcome (A * Mgr) :=
  match c (mg_timers m) with Done (a, t) => Done (a, set_mg_timers t m) | Fault f => Fault f end.

Definition schedule_write (id : Id) : IO () := mgr_with (fun m => Done (tt, set_mg_iops (iops_schedule id (mg_iops m)) m)).

(** ** Writing *)

Definition call_write : IO WakeWriteTask :=
  h ← get_io io_handle;
  (if (h : bool) then
     mod_io (set_handle false);; upd_flags unset_write_paused;; hd_write;; mod_io (set_handle true)
   else mret tt);;
  p ← flag is_write_paused;
  mret (if (p : bool) then WakeNo else WakeYes).

Definition call_notify : IO () :=
  h ← get_io io_handle;
  if (h : bool) then mod_io (set_handle false);; hd_notify;; mod_io (set_handle true) else mret tt.

Definition schedule : IO () :=
  s ← flag is_wr_send_scheduled;
  if (s : bool) then mret tt
  else upd_flags set_wr_send_scheduled;; id ← get_io io_id; schedule_write id.

Definition consolidate_write_state (force : bool) : IO () :=
  size ← on_buffer write_buf_size;
  paused ← flag is_write_paused;
  (if (0 <? size) && (paused : bool) then
     direct ← flag is_direct_wr_enabled;
     threshold ← get_io (fun s => ic_write_buf_threshold (io_cfg s));
     if (direct : bool) && (force || (threshold <=? size)) then
       w ← call_write;
       match w with WakeYes => schedule | WakeNo => upd_flags unset_wr_send_scheduled end
     else schedule
   else mret tt);;
  bp ← flag is_wr_backpressure;
  need ← is_wr_backpressure_needed size;
  if negb bp && (need : bool) then upd_flags set_wr_backpressure;; wake_dispatch_task else mret tt.

Definition closing : IoError := mkIoError (OtherKind 0) "I/O stream is closing".

Definition with_write_buf {A} (f : list byte -> A * list byte) : IO (result A) :=
  any ← flag is_stopping_any;
  if (any : bool) then
    closed ← flag is_closed;
    if (closed : bool) then e ← error_or_disconnected; mret (inr e) else mret (inr closing)
  else
    r ← on_buffer (with_write_src f);
    consolidate_write_state false;;
    mret (inl r).

(** [encode]: what a codec appends, unless it fails. *)
Definition encode {E} (encodev : list byte -> (() + E) * list byte) : IO (() + E) :=
  r ← with_write_buf encodev;
  mret (match r with inl r => r | inr _ => inl tt end).
Definition encode_slice (src : list byte) : IO (result ()) := with_write_buf (fun b => (tt, b ++ src)).

(** [with_buf]: the buffers of the outermost layer. *)
Definition with_buf {A} (f : M FilterBuf A) : IO A :=
  r ← on_buffer (
    curr ← stack_get 0;
    next ← stack_get 1;
    '(r, buf) ← liftS (f (mkFilterBuf curr next false));
    stack_set 0 (fb_curr buf);;
    stack_set 1 (fb_next buf);;
    mret r);
  consolidate_write_state false;;
  mret r.

Definition send_buf : IO (result ()) :=
  consolidate_write_state true;;
  any ← flag is_stopping_any;
  if (any : bool) then
    e ← get_io io_error;
    mod_io (set_error None);;
    match e with Some err => mret (inr err) | None => mret (inl tt) end
  else mret (inl tt).

Definition ops_send_buf : IO () :=
  s ← flag is_wr_send_scheduled;
  if (s : bool) then
    upd_flags unset_wr_send_scheduled;;
    p ← flag is_write_paused;
    if (p : bool) then
      w ← call_write;
      match w with WakeYes => wake_write_task;; upd_flags unset_write_paused | WakeNo => mret tt end
    else wake_write_task
  else mret tt.

Definition try_write_vectored (bufs : list (list byte)) : IO (result Z) :=
  any ← flag is_stopping_any;
  if (any : bool) then mret (inl 0)
  else
    size ← on_buffer write_buf_size;
    transparent ← get_io (fun s => filter_is_transparent (io_filter s));
    if negb (size =? 0) || negb (transparent : bool) then mret (inl 0)
    else
      h ← get_io io_handle;
      if (h : bool) then
        mod_io (set_handle false);;
        res ← hd_write_bufs bufs;
        mod_io (set_handle true);;
        mret (match res with Some res => res | None => inl 0 end)
      else mret (inl 0).

(** ** Closing *)

Definition close : IO () := start_shutdown.
Definition terminate : IO () := terminate_connection None.

(** [close_with], of builds with TLS: [self.0.error.take()] empties the cell. *)
Definition close_with (err : IoError) : IO () :=
  e ← get_io io_error;
  mod_io (set_error None);;
  (match e with
   | None => mod_io (set_error (Some err))
   | Some _ => e ← get_io io_error; mod_io (set_error None);; mod_io (set_error e)
   end);;
  start_shutdown.

(** ** Reading *)

Definition update_read_destination (buf : list byte) : IO () :=
  bp ← flag is_rd_backpressure;
  need ← is_rd_backpressure_needed (zlen buf);
  if (bp : bool) && (need : bool) then mret tt
  else
    (if (bp : bool) then upd_flags unset_all_read_flags else upd_flags unset_read_ready);;
    p ← flag is_read_paused;
    if (p : bool) then wake_read_task;; upd_flags unset_read_paused else mret tt.

(** [Buffer::with_read] of the first buffer: it is out of its cell while [f]
    runs, and what [f] put there meanwhile is discarded. *)
Definition with_read_dst {A} (f : list byte -> IO (A * list byte)) : IO A :=
  b ← on_buffer (stack_get 0);
  on_buffer (stack_set 0 (set_b_read None b));;
  '(result, rb) ← f (match b_read b with Some rb => rb | None => [] end);
  b ← on_buffer (stack_get 0);
  on_buffer (stack_set 0 (set_b_read None b));;
  (match b_read b with Some _ => terminate | None => mret tt end);;
  (if zlen rb =? 0 then mret tt
   else b ← on_buffer (stack_get 0); on_buffer (stack_set 0 (set_b_read (Some rb) b)));;
  mret result.

Section codec.
Context {Item Err : Type} (codec : Decoder Item Err).

Definition decode : IO (option Item + Err) :=
  with_read_dst (fun buf =>
    let '(res, buf) := codec buf in
    upd_flags unset_read_ready;;
    update_read_destination buf;;
    mret (res, buf)).

Definition decode_item : IO (Decoded Item + Err) :=
  with_read_dst (fun buf =>
    let len := zlen buf in
    let '(res, buf) := codec buf in
    res ← (match res with
           | inl item => consumed ← liftS (checked_sub len (zlen buf)); mret (inl (mkDecoded item (zlen buf) consumed))
           | inr e => mret (inr e)
           end);
    upd_flags unset_read_ready;;
    update_read_destination buf;;
    mret (res, buf)).
End codec.

Definition with_read_buf {A} (f : list byte -> A * list byte) : IO A :=
  with_read_dst (fun buf => let '(res, buf) := f buf in update_read_destination buf;; mret (res, buf)).

Definition pause : IO () :=
  p ← flag is_read_paused;
  if (p : bool) then mret tt else wake_read_task;; upd_flags set_read_paused.

Definition poll_read_ready (w : waker) : IO (Poll (result (option ()))) :=
  closed ← flag is_closed;
  if (closed : bool) then mret (Ready (inl None))
  else
    ready ← flag is_read_ready;
    pb ← flag is_read_paused_or_backpressure;
    if (pb : bool) then
      upd_flags unset_all_read_flags;;
      upd_flags unset_read_paused;;
      wake_read_task;;
      if (ready : bool) then mret (Ready (inl (Some tt))) else register_dispatch w;; mret Pending
    else if (ready : bool) then mret (Ready (inl (Some tt)))
    else
      p ← flag is_read_paused;
      (if (p : bool) then wake_read_task;; upd_flags unset_read_paused else mret tt);;
      register_dispatch w;;
      mret Pending.

Definition poll_read_notify (w : waker) : IO (Poll (result (option ()))) :=
  st ← flag is_stopping;
  if (st : bool) then mret (Ready (inl None))
  else
    n ← check_flags check_read_notifed;
    if (n : bool) then mret (Ready (inl (Some tt)))
    else
      upd_flags set_read_notify;;
      r ← poll_read_ready w;
      (if poll_is_ready r then register_dispatch w else mret tt);;
      register_dispatch w;;
      mret Pending.

Definition poll_recv_decode {Item Err} (codec : Decoder Item Err) (w : waker) : IO (Decoded Item + RecvError Err) :=
  upd_flags unset_read_ready;;
  r ← decode_item codec;
  match r with
  | inr err => mret (inr (RecvDecoder err))
  | inl decoded =>
      match dc_item decoded with
      | Some _ => mret (inl decoded)
      | None =>
          st ← flag is_stopping;
          if (st : bool) then e ← state_error; mret (inr (RecvPeerGone e))
          else
            t ← check_flags check_dispatcher_timeout;
            if (t : bool) then mret (inr RecvKeepAlive)
            else
              bp ← flag is_wr_backpressure;
              if (bp : bool) then mret (inr RecvWriteBackpressure)
              else
                r ← poll_read_ready w;
                match r with
                | Pending | Ready (inl (Some _)) => mret (inl decoded)
                | Ready (inr e) => mret (inr (RecvPeerGone (Some e)))
                | Ready (inl None) => mret (inr (RecvPeerGone None))
                end
      end
  end.

Definition poll_recv {Item Err} (codec : Decoder Item Err) (w : waker) : IO (Poll (Item + RecvError Err)) :=
  r ← poll_recv_decode codec w;
  mret (match r with
        | inr e => Ready (inr e)
        | inl decoded => match dc_item decoded with Some item => Ready (inl item) | None => Pending end
        end).

(** ** Flushing and shutting down *)

Definition poll_flush (w : waker) (full : bool) : IO (Poll (result ())) :=
  r ← process_write_buf_force;
  match r with
  | inr e => mret (Ready (inr e))
  | inl _ =>
      consolidate_write_state false;;
      len ← on_buffer write_buf_size;
      closed ← flag is_closed;
      need ← is_wr_backpressure_needed len;
      flush ← flag is_write_flush;
      if (0 <? len) && (closed : bool) then e ← error_or_disconnected; mret (Ready (inr e))
      else if (0 <? len) && full then upd_flags set_wants_write_flush;; register_dispatch w;; mret Pending
      else if (0 <? len) && (need : bool) then upd_flags set_wr_backpressure;; register_dispatch w;; mret Pending
      else if (closed : bool) && negb flush then e ← error_or_disconnected; mret (Ready (inr e))
      else upd_flags unset_wr_backpressure_and_flush;; mret (Ready (inl tt))
  end.

Definition poll_shutdown (w : waker) : IO (Poll (result ())) :=
  st ← flag is_stopping;
  if (st : bool) then
    e ← state_error; mret (Ready (match e with Some err => inr err | None => inl tt end))
  else
    sf ← flag is_stopping_filters;
    (if (sf : bool) then mret tt else start_shutdown);;
    upd_flags unset_all_read_flags;;
    upd_flags unset_read_paused;;
    wake_read_task;;
    register_dispatch w;;
    mret Pending.

Definition poll_status_update (w : waker) : IO (Poll IoStatusUpdate) :=
  register_dispatch w;;
  closed ← flag is_closed;
  if (closed : bool) then e ← state_error; mret (Ready (UpdPeerGone e))
  else
    t ← check_flags check_dispatcher_timeout;
    if (t : bool) then mret (Ready UpdKeepAlive)
    else
      bp ← flag is_wr_backpressure;
      if (bp : bool) then
        size ← on_buffer write_buf_size;
        dis ← should_disable_wr_backpressure size;
        (if (dis : bool) then upd_flags unset_wr_backpressure else mret tt);;
        mret (Ready UpdWriteBackpressure)
      else mret Pending.

Definition poll_read_pause (w : waker) : IO (Poll IoStatusUpdate) := pause;; poll_status_update w.
Definition poll_dispatch (w : waker) : IO () := register_dispatch w.

(** [OnDisconnect]: the token, absent for a stream that was disconnected. *)
Definition on_disconnect : IO (option nat) :=
  st ← flag is_stopping;
  if (st : bool) then mret None else token ← register_disconnect; mret (Some token).
Definition on_disconnect_poll (token : option nat) (w : waker) : IO (Poll ()) :=
  st ← flag is_stopping;
  match token with
  | None => mret (Ready tt)
  | Some token => if (st : bool) then mret (Ready tt) else poll_disconnect token w
  end.

(** ** Timers *)

Definition start_timer (elapsed timeout : Z) : IO Z :=
  cur_hnd ← get_io io_timeout;
  id ← get_io io_id;
  if timeout =? 0 then
    (if is_set cur_hnd then mod_io (set_timeout 0);; mgr_with (on_timers (ts_unregister cur_hnd id)) else mret tt);;
    mret 0
  else if is_set cur_hnd then
    hnd ← mgr_with (on_timers (ts_update cur_hnd elapsed timeout id));
    (if negb (hnd =? cur_hnd) then mod_io (set_timeout hnd) else mret tt);;
    mret hnd
  else
    hnd ← mgr_with (on_timers (ts_register elapsed timeout id));
    mod_io (set_timeout hnd);;
    mret hnd.

Definition stop_timer : IO () :=
  hnd ← get_io io_timeout;
  id ← get_io io_id;
  if is_set hnd then mod_io (set_timeout 0);; mgr_with (on_timers (ts_unregister hnd id)) else mret tt.

(** ** The filters *)

(** [add_filter]: the buffered output passes the old chain, the buffered
    input the new one; the updates of the latter are not looked at. *)
Definition add_filter (nf : L) : IO () :=
  r ← process_write_buf;
  (match r with inr e => terminate_connection (Some e) | inl _ => mret tt end);;
  s ← get_io (fun s => s);
  match io_filter s with
  | None => failS Panic
  | Some ls =>
      mod_io (set_buffer (stack_add_layer (io_buffer s)) (Some (mkLayer nf false :: ls)));;
      r ← process_read_buf;
      match r with inr e => terminate_connection (Some e) | inl _ => mret tt end
  end.

(** ** [IoContext], for reading and shutting down *)

(** [Base] and [NullFilter]; a layer asks the chain below it. *)
Definition filter_poll_read_ready (w : waker) : IO (Poll Readiness) :=
  f ← get_io io_filter;
  match f with
  | None => mret (Ready RdyTerminate)
  | Some _ =>
      closed ← flag is_closed;
      if (closed : bool) then mret (Ready RdyTerminate)
      else
        register_read w;;
        sf ← flag is_stopping_filters;
        if (sf : bool) then mret (Ready RdyReady)
        else
          pb ← flag is_read_paused_or_backpressure;
          if (pb : bool) then mret Pending else mret (Ready RdyReady)
  end.

Definition filter_poll_write_ready (w : waker) : IO (Poll Readiness) :=
  f ← get_io io_filter;
  match f with
  | None => mret (Ready RdyTerminate)
  | Some _ =>
      closed ← flag is_closed;
      if (closed : bool) then mret (Ready RdyTerminate)
      else
        register_write w;;
        st ← flag is_stopping;
        if (st : bool) then mret (Ready RdyShutdown)
        else p ← flag is_write_paused; if (p : bool) then mret Pending else mret (Ready RdyReady)
  end.

(** [now] is the time at which the shutdown timer is polled. *)
Definition shutdown_filters (now : Z) : IO () :=
  sd ← flag is_shutting_down_filters;
  if negb sd then mret tt
  else
    r ← process_shutdown;
    match r with
    | inr err => terminate_connection (Some err)
    | inl p =>
        let ready := poll_is_ready p in
        consolidate_write_state true;;
        wp ← flag is_write_paused;
        sched ← flag is_wr_send_scheduled;
        rp ← flag is_read_paused;
        rrb ← flag is_read_ready_and_backpressure;
        if ready && (wp : bool) && negb sched then filters_stopped
        else if negb ready && ((rp : bool) || (rrb : bool)) then filters_stopped
        else
          t ← get_io io_shutdown_timeout;
          disc ← get_io (fun s => ic_disconnect_timeout (io_cfg s));
          mod_io (set_shutdown_timeout None);;
          let deadline := match t with Some d => d | None => now + Z.max (millis_from_seconds disc) 1 end in
          if deadline <=? now then filters_stopped else mod_io (set_shutdown_timeout (Some deadline))
    end.

Definition ctx_poll_read_ready (now : Z) (w : waker) : IO (Poll Readiness) :=
  shutdown_filters now;; filter_poll_read_ready w.
Definition ctx_poll_write_ready (w : waker) : IO (Poll Readiness) := filter_poll_write_ready w.

Definition ctx_shutdown (flush : bool) (w : waker) : IO (Poll ()) :=
  st ← flag is_stopping;
  closed ← flag is_closed;
  wp ← flag is_write_paused;
  if flush && negb st then
    if (wp : bool) then mret (Ready tt)
    else upd_flags set_write_notify;; register_read w;; register_write w;; mret Pending
  else if negb closed then register_read w;; register_write w;; mret Pending
  else mret (Ready tt).

(** The content of the buffer the driver reads behind; the room is made by
    [IoConfig.resize]. *)
Definition ctx_get_read_buf : IO (list byte) :=
  r ← flag is_read_ready;
  if (r : bool) then mret []
  else b ← on_buffer stack_get_read_buf; mret (match b with Some buf => buf | None => [] end).

(** The dispatcher is told of new input. *)
Definition read_announce (orig : Z) : IO () :=
  size ← on_buffer read_dst_size;
  (if orig <? size then
     need ← is_rd_backpressure_needed size;
     (if (need : bool) then upd_flags set_read_ready_and_backpressure else upd_flags set_read_ready);;
     wake_dispatch_task
   else mret tt);;
  rn ← flag is_read_notify;
  if (rn : bool) then wake_dispatch_task;; upd_flags set_read_notifed else mret tt.

Definition ctx_update_read_status (buf : list byte) (status : result Z) : IO IoTaskStatus :=
  orig ← on_buffer read_dst_size;
  on_buffer (stack_set_read_buf buf);;
  r ← (match status with
       | inr e => mret (inr e)
       | inl nbytes =>
           if nbytes =? 0 then mret (inl tt)
           else
             r ← process_read_buf;
             match r with
             | inr e => mret (inr e)
             | inl (wants_write, notify) =>
                 read_announce orig;;
                 (if (wants_write : bool) then
                    r ← process_write_buf_force;
                    match r with
                    | inr err => terminate_connection (Some err)
                    | inl _ => consolidate_write_state false
                    end
                  else mret tt);;
                 (if (notify : bool) then call_notify else mret tt);;
                 mret (inl tt)
             end
       end);
  match r with
  | inr err => terminate_connection (Some err);; mret StatusStop
  | inl _ =>
      closed ← flag is_closed;
      if (closed : bool) then mret StatusStop
      else
        pb ← flag is_read_paused_or_backpressure;
        if (pb : bool) then mret StatusPause else mret StatusIo
  end.

(** ** The life of a stream *)

(** [Drop] of [Io]; [IoTimers.iom_unregister] gives the id back. *)
Definition io_drop : IO () :=
  stop_timer;;
  f ← get_io io_filter;
  match f with
  | Some _ => terminate_connection None;; mod_io (fun s => set_buffer (io_buffer s) None s)
  | None => mret tt
  end.
End ioref.

(** [Io::new], for the id the manager gave and a driver that was started. *)
Definition io_new {F L : Type} `{!Bitflags F} (id : Id) (cfg : IoConfig) : IoState F L :=
  mkIoState id cfg (flags_new (0 <? ic_write_buf_threshold cfg)) None lw_new lw_new lw_new
    stack_new (Some []) true 0 None None.
(** [IoRef::create_empty]. *)
Definition io_create_empty {F L : Type} `{!Bitflags F} (cfg : IoConfig) : IoState F L :=
  mkIoState None cfg flags_new_stopped None lw_new lw_new lw_new stack_new None false 0 None None.
