(* ===== verification/IoKeeps.v ===== *)
(** * Each operation of a stream keeps the invariant: [IoRef] and [Io]

    The contract of a driver's handle, and the specifications of the
    operations of [IoRef.v] against it. *)
From Stdlib Require Import ZArith Lia.
From stdpp Require Import base numbers list sets.
From S2P Require Import Prelude Deps Task IoConfig IoFlags IoBuf IoChain IoTimers IoState IoInv IoRef.

(** What a stream expects of the handle of its driver. *)
Class HandleLaws {F L D : Type} `{!Bitflags F} `{!HandleDrop D} `{!Waive D} `{!Handle F L D}
    (Q : bool -> D -> Prop) (sent : D -> list byte) : Prop := {
  hl_drop : DropLaws Q;
  (** A write keeps the invariant of a stream whose handle is in use. *)
  hl_write acc (c : Cx F L D) :
    Good Q sent false acc c -> runs hd_write c (fun _ c' => Good Q sent false acc c' /\ kept c c');
  (** A direct write takes a prefix of the bytes. *)
  hl_write_bufs acc bufs (c : Cx F L D) :
    Good Q sent false acc c -> hasf 2 c = false -> filter_of c = Some [] -> out_size (buf_of c) = 0 ->
    runs (hd_write_bufs bufs) c (fun r c' => kept c c' /\
      match r with
      | Some (inl n) => 0 <= n <= zlen (concat bufs) /\ Good Q sent false (acc ++ ztake n (concat bufs)) c'
      | _ => Good Q sent false acc c'
      end);
}.
#[export] Existing Instance hl_drop.

Section ioref.
Context {F : Type} `{!Bitflags F} `{!BitflagsLaws F} {L : Type} `{!FilterLayer L} `{!FilterLayerLaws L}.
Context {D : Type} `{!HandleDrop D} `{!Waive D} `{!Handle F L D} (Q : bool -> D -> Prop) (sent : D -> list byte) `{!HandleLaws Q sent}.

Implicit Types (c : Cx F L D) (acc : list byte).
Abbreviation Wf := (Wf Q).
Abbreviation Sound := (Sound Q sent).
Abbreviation Good := (Good Q sent).

(** What the operations of the stream itself keep: the manager is there. *)
Record held c c' : Prop := {
  hd_id : io_id (cx_io c') = io_id (cx_io c);
  hd_cfg : io_cfg (cx_io c') = io_cfg (cx_io c);
  hd_mgr : is_Some (cx_mgr c) -> is_Some (cx_mgr c');
  hd_life k : k ∈ [0; 1; 2] -> hasf k c = true -> hasf k c' = true;
  hd_plain : filter_of c = Some [] -> filter_of c' = Some [];
  hd_timers : mg_timers <$> cx_mgr c' = mg_timers <$> cx_mgr c;
}.
#[export] Instance held_preorder : PreOrder held.
Proof. split; [by intros c|]. intros c1 c2 c3 [] []. split; [congruence..|auto|auto|auto|congruence]. Qed.
Lemma kept_held c c' : kept c c' -> held c c'.
Proof. intros [? ? Hm ? ? _]. split; [done..|by rewrite Hm|done|done|by rewrite Hm]. Qed.

(** ** The handle in and out of its cell *)

Lemma sound_take acc c :
  Sound true acc c -> handle_of c = true -> Sound false acc (upd_io (set_handle false) c).
Proof.
  intros [[Hs Hfl Ht Hd Hsc] Hl] Hh. rewrite Hh in Hd.
  split; [split; done|]. destruct Hl as [|[_ Hst]]; [by left|right]. by split.
Qed.

Lemma sound_give acc c : Sound false acc c -> Sound true acc (upd_io (set_handle true) c).
Proof.
  intros [[Hs Hfl Ht Hd Hsc] Hl].
  split; [split; done|]. destruct Hl as [|[_ Hst]]; [by left|right]. by split.
Qed.

Lemma call_write_spec acc c :
  Sound true acc c ->
  runs call_write c (fun w c' =>
    Sound true acc c' /\ kept c c' /\ (excused c' \/ (hasf 9 c' = true -> out_size (buf_of c') = 0)) /\
    w = if hasf 9 c' then WakeNo else WakeYes).
Proof.
  intros HS. unfold call_write. apply runs_bind, runs_gets. fold (handle_of c). apply runs_bind.
  apply (runs_conseq _ _ (fun _ c' => Sound true acc c' /\ kept c c' /\ (excused c' \/ (hasf 9 c' = true -> out_size (buf_of c') = 0)))).
  - destruct (handle_of c) eqn:Hh.
    + apply runs_bind, runs_modify, runs_bind. eapply (runs_set_flags Q sent _ false acc); [by apply sound_take|bits|bit11|].
      intros c2 HS2 K2 _ _ F2. apply runs_bind. eapply runs_conseq; [apply (hl_write acc)|].
      { split; [done|]. right. intros H9. unfold hasf in H9. by rewrite F2, has_unset_write_paused, andb_false_r in H9. }
      intros [] c3 [[HS3 Hsv] K3]. apply runs_modify. split; [by apply sound_give|].
      split.
      { transitivity (upd_io (set_handle false) c); [by apply kept_flags|]. transitivity c2; [done|].
        transitivity c3; [done|by apply kept_flags]. }
      destruct Hsv as [|Hsv]; [by left|right]. intros H9. by destruct (Hsv H9) as [|[? _]].
    + apply runs_ret. split; [done|]. split; [done|]. left. left. destruct HS as [_ [|[Hl _]]]; [done|congruence].
  - intros [] c' (HS' & K & Hsv). apply runs_bind, runs_flag, runs_ret. rewrite is_write_paused_has. done.
Qed.

(** ** Scheduling *)

Lemma schedule_spec acc c :
  Sound true acc c -> is_Some (cx_mgr c) ->
  runs schedule c (fun _ c' => Sound true acc c' /\ held c c' /\ hasf 11 c' = true).
Proof.
  intros [HW Hl] [m Hm]. unfold schedule. apply runs_bind, runs_flag. rewrite is_wr_send_scheduled_has. fold (hasf 11 c).
  destruct (hasf 11 c) eqn:H11; [by apply runs_ret|].
  apply runs_bind, runs_modify, runs_bind, runs_gets. set (c1 := upd_io _ c).
  assert (forall k, k ∈ [0; 1; 2] -> hasf k c1 = hasf k c) as Hk by (unfold c1; bits).
  assert (hasf 11 c1 = true) as Hk11 by (unfold c1, hasf; cbn [cx_io upd_io io_flags set_flags]; by rewrite has_set_wr_send_scheduled, orb_true_r).
  eapply runs_eq; [unfold schedule_write, mgr_with; cbn; by rewrite Hm|]. set (c2 := set_mgr _ _).
  assert (forall k, hasf k c2 = hasf k c1) as Hk2 by done. destruct HW as [Hs Hfl Ht Hd Hsc].
  split; [split; [split|]|split; [split; try done|by rewrite Hk2]]; rewrite ?Hk2, ?Hk by mem; try done.
  2:{ intros k Hin H. by rewrite Hk2, Hk. }
  2:{ cbn. by rewrite Hm. }
  intros _. exists (set_mg_iops (iops_schedule (io_id (cx_io c)) (mg_iops m)) m). split; [done|]. cbn. split; [|done].
  apply elem_of_app. right. by left.
Qed.

Lemma consolidate_spec force acc c :
  Sound true acc c -> is_Some (cx_mgr c) ->
  runs (consolidate_write_state force) c (fun _ c' => Good true acc c' /\ held c c').
Proof.
  intros HS Hm. pose proof HS as [[Hsh _ _ _ _] _]. pose proof Hsh as [Hs _]. unfold consolidate_write_state.
  apply runs_bind, runs_size; [done|]. set (size := out_size (buf_of c)).
  apply runs_bind, runs_flag. rewrite is_write_paused_has. fold (hasf 9 c). apply runs_bind.
  apply (runs_conseq _ _ (fun _ c' => Good true acc c' /\ held c c')).
  - destruct ((0 <? size) && hasf 9 c) eqn:Hc.
    + apply runs_bind, runs_flag, runs_bind, runs_gets. destruct (is_direct_wr_enabled _ && _).
      * apply runs_bind. eapply runs_conseq; [by apply (call_write_spec acc)|]. intros w c1 (HS1 & K1 & Hsv & ->).
        destruct (hasf 9 c1) eqn:H9.
        { eapply (runs_set_flags Q sent unset_wr_send_scheduled true acc); [done|bits|bit11|].
          intros c2 HS2 K2 B2 _ F2. assert (forall k, k ∈ [0; 1; 9] -> hasf k c2 = hasf k c1) as Hk.
          { unfold hasf. rewrite F2. bits. }
          split; [|etrans; apply kept_held; done]. split; [done|]. unfold excused in *. rewrite !Hk by mem.
          destruct Hsv as [|Hsv]; [by left|right]. intros _. left. rewrite B2. auto. }
        eapply runs_conseq; [apply (schedule_spec acc); [done|by rewrite (kp_mgr _ _ K1)]|]. intros [] c2 (HS2 & K2 & H11).
        split; [|etrans; [by apply kept_held|done]]. split; [done|]. right. intros _. by right.
      * eapply runs_conseq; [by apply (schedule_spec acc)|]. intros [] c1 (HS1 & K1 & H11).
        split; [|done]. split; [done|]. right. intros _. by right.
    + apply runs_ret. split; [|done]. split; [done|]. right. intros H9. left. rewrite H9, andb_true_r in Hc.
      apply Z.ltb_ge in Hc. pose proof (out_size_nonneg (buf_of c)). unfold size in Hc. lia.
  - intros [] c1 [HG1 K1]. apply runs_bind, runs_flag, runs_bind, runs_gets. destruct (negb _ && _); [|by apply runs_ret].
    apply runs_bind. eapply runs_conseq; [apply core_flags; bits|]. intros [] c2 [K2 _].
    apply runs_quiet; [auto with quiet|]. intros c3 K3 _. assert (core c1 c3) as K13 by (by etrans).
    split; [by eapply core_good|]. etrans; [done|]. by apply kept_held, core_kept.
Qed.
End ioref.

(** ** The operations of a stream that keep its invariant

    The operations of [IoRef.v] that do not add output, one by one; most are
    sequences of steps that keep the invariant each. *)

Section keeps.
Context {F : Type} `{!Bitflags F} `{!BitflagsLaws F} {L : Type} `{!FilterLayer L} `{!FilterLayerLaws L}.
Context {D : Type} `{!HandleDrop D} `{!Waive D} `{!Handle F L D} (Q : bool -> D -> Prop) (sent : D -> list byte) `{!HandleLaws Q sent}.

Implicit Types (c : Cx F L D) (acc : list byte).
Abbreviation Sound := (Sound Q sent).
Abbreviation Good := (Good Q sent).

Definition keeps {A} (op : M (Cx F L D) A) : Prop := forall acc c,
  Good true acc c -> is_Some (cx_mgr c) -> runs op c (fun _ c' => Good true acc c' /\ held c c').

(** ** Composition *)

Lemma keeps_ret {A} (a : A) : keeps (mret a).
Proof. intros acc c HG _. by apply runs_ret. Qed.

Lemma keeps_bind {A B} (op : M (Cx F L D) A) (k : A -> M (Cx F L D) B) :
  keeps op -> (forall a, keeps (k a)) -> keeps (op ≫= k).
Proof.
  intros H1 H2 acc c HG Hm. apply runs_bind. eapply runs_conseq; [by apply H1|]. intros a c1 [HG1 K1].
  eapply runs_conseq; [apply H2; [done|by apply K1]|]. intros b c2 [HG2 K2]. split; [done|by etrans].
Qed.

(** Steps that read the state. *)
Definition reads {A} (op : M (Cx F L D) A) : Prop := forall acc c, Good true acc c -> exists a, op c = Done (a, c).
Lemma keeps_reads {A} (op : M (Cx F L D) A) : reads op -> keeps op.
Proof. intros Hr acc c HG _. destruct (Hr acc c HG) as [a He]. by eapply runs_eq. Qed.
Lemma reads_get {A} (g : IoState F L -> A) : reads (get_io g).
Proof. intros acc c _. by eexists. Qed.
Lemma reads_flag (t : F -> bool) : reads (flag t).
Proof. intros acc c _. by eexists. Qed.
Lemma reads_rd_needed n : reads (is_rd_backpressure_needed n).
Proof. intros acc c _. by eexists. Qed.
Lemma reads_wr_needed n : reads (is_wr_backpressure_needed n).
Proof. intros acc c _. by eexists. Qed.
Lemma reads_wr_disable n : reads (should_disable_wr_backpressure n).
Proof. intros acc c _. by eexists. Qed.
Lemma reads_state_error : reads state_error.
Proof. intros acc c _. by eexists. Qed.
Lemma reads_size : reads (on_buffer write_buf_size).
Proof.
  intros acc c HG. destruct (runs_size c (fun a c' => c' = c)) as (a & c' & He & ->); [apply HG|done|]. by exists a.
Qed.
Lemma reads_error_or_disconnected : reads error_or_disconnected.
Proof. intros acc c _. by eexists. Qed.

Lemma keeps_quiet op : quiet op -> keeps op.
Proof.
  intros Hq acc c HG _. apply runs_quiet; [done|]. intros c' K _. split; [by eapply core_good|]. by apply kept_held, core_kept.
Qed.

(** Updates of flags the invariant does not mention. *)
Definition harmless (g : F -> F) : Prop := forall f k, k ∈ [0; 1; 2; 9; 11; 15] -> has k (g f) = has k f.
Lemma keeps_flags g : harmless g -> keeps (upd_flags g).
Proof.
  intros Hg acc c HG _. eapply runs_conseq; [apply core_flags; intros k Hk; by apply Hg|]. intros [] c' [K _].
  split; [by eapply core_good|]. by apply kept_held, core_kept.
Qed.
Lemma keeps_check g : harmless (fun f => (g f).2) -> keeps (check_flags g).
Proof.
  intros Hg acc c HG _. unfold runs, check_flags. destruct (g (io_flags (cx_io c))) as [b f] eqn:He. eexists _, _. split; [done|].
  assert (core c (upd_io (set_flags f) c)) as K.
  { split; try done. intros k Hk. specialize (Hg (io_flags (cx_io c)) k Hk). cbn beta in Hg. by rewrite He in Hg. }
  split; [by eapply core_good|]. by apply kept_held, core_kept.
Qed.

Lemma keeps_terminate e : keeps (terminate_connection e).
Proof.
  intros acc c [[HW _] _] _. eapply runs_conseq; [by apply (terminate_spec Q sent true acc)|]. intros [] c' (HG & K & _).
  split; [done|by apply kept_held].
Qed.
Lemma keeps_consolidate force : keeps (consolidate_write_state force).
Proof. intros acc c [HS _] Hm. by apply consolidate_spec. Qed.

(** ** The input side of the first buffer *)

Lemma read_side_good acc c i b r :
  Good true acc c -> buf_of c !! i = Some b -> Good true acc (put_buf (<[i := set_b_read r b]> (buf_of c)) c).
Proof.
  intros [[[[Hs Hlen] Hfl Ht Hd Hsc] Hl] Hsv] Hb.
  assert (writable b) as Hw by (destruct Hs as [_ Hs]; by eapply Forall_lookup_1).
  assert (forall j, wcontent (<[i := set_b_read r b]> (buf_of c)) j = wcontent (buf_of c) j) as Hwc by (intros; by apply wcontent_insert_read).
  split; [split; [split|]|].
  - split; [by apply stack_ok_insert|]. intros ls Hf. cbn. rewrite length_insert. by apply Hlen.
  - done.
  - done.
  - done.
  - done.
  - destruct Hl as [|[Hh Hst]]; [by left|right]. split; [done|]. cbn. intros Hf. rewrite Hwc. by apply Hst.
  - destruct Hsv as [|Hsv]; [by left|right]. unfold served. cbn. rewrite (out_size_ext (buf_of c)); [done|by rewrite length_insert|done].
Qed.

Lemma keeps_set_read {A} i (r : Buffer -> option (list byte)) (k : Buffer -> M (Cx F L D) A) :
  (forall c, stack_ok (buf_of c) -> (i c < length (buf_of c))%nat) -> (forall b, keeps (k b)) ->
  forall acc c, Good true acc c -> is_Some (cx_mgr c) ->
  runs (b ← on_buffer (stack_get (i c)); on_buffer (stack_set (i c) (set_b_read (r b) b));; k b) c (fun _ c' => Good true acc c' /\ held c c').
Proof.
  intros Hi Hk acc c HG Hm. destruct (stack_lookup (buf_of c) (i c)) as (b & w & Hb & _); [apply HG|apply Hi, HG|].
  apply runs_bind. eapply runs_on_buffer; [by apply stack_get_spec|]. apply runs_bind. eapply runs_eq; [done|].
  pose proof (read_side_good acc c (i c) b (r b) HG Hb) as HG1.
  eapply runs_conseq; [apply Hk; [exact HG1|done]|]. intros a c2 [HG2 K2]. split; [done|]. etrans; [|exact K2]. by apply kept_held, kept_flags.
Qed.

Lemma keeps_set_first {A} (r : Buffer -> option (list byte)) (k : Buffer -> M (Cx F L D) A) :
  (forall b, keeps (k b)) -> keeps (b ← on_buffer (stack_get 0); on_buffer (stack_set 0 (set_b_read (r b) b));; k b).
Proof.
  intros Hk acc c HG Hm. apply (keeps_set_read (fun _ => 0%nat) r k); [|done..]. intros c' [? _]. lia.
Qed.

Lemma keeps_set_first_end (r : Buffer -> option (list byte)) :
  keeps (b ← on_buffer (stack_get 0); on_buffer (stack_set 0 (set_b_read (r b) b))).
Proof.
  intros acc c HG Hm. destruct (stack_lookup (buf_of c) 0) as (b & w & Hb & _); [apply HG| |].
  { destruct HG as [[[[[Hl _] _] _ _ _ _] _] _]. lia. }
  apply runs_bind. eapply runs_on_buffer; [by apply stack_get_spec|]. eapply runs_eq; [done|].
  split; [by apply read_side_good|]. by apply kept_held, kept_flags.
Qed.
End keeps.

Create HintDb keeps.
#[export] Hint Resolve keeps_ret keeps_reads reads_get reads_flag reads_rd_needed reads_wr_needed reads_wr_disable
  reads_state_error reads_size reads_error_or_disconnected keeps_quiet keeps_flags keeps_check keeps_terminate
  keeps_consolidate keeps_set_first keeps_set_first_end : keeps.
#[export] Hint Extern 0 (harmless _) => intros ?f; bits : keeps.

(** An operation made of steps that keep the invariant. *)
Ltac keep :=
  lazymatch goal with
  | |- forall _, _ => intros; keep
  | |- keeps _ _ (match ?x with _ => _ end) => destruct x; keep
  | |- keeps _ _ (on_buffer (stack_get 0) ≫= _) => first [solve [eauto with keeps]|apply keeps_set_first; keep]
  | |- keeps _ _ (_ ≫= _) => apply keeps_bind; [keep|intros; keep]
  | |- keeps _ _ _ => solve [eauto with keeps quiet]
  end.

Section operations.
Context {F : Type} `{!Bitflags F} `{!BitflagsLaws F} {L : Type} `{!FilterLayer L} `{!FilterLayerLaws L}.
Context {D : Type} `{!HandleDrop D} `{!Waive D} `{!Handle F L D} (Q : bool -> D -> Prop) (sent : D -> list byte) `{!HandleLaws Q sent}.

Implicit Types (c : Cx F L D) (acc : list byte).
Abbreviation Good := (Good Q sent).
Abbreviation keeps := (keeps (F := F) (L := L) Q sent).

(** ** Reading *)

Lemma keeps_with_read_dst {A} (f : list byte -> M (Cx F L D) (A * list byte)) :
  (forall buf, keeps (f buf)) -> keeps (with_read_dst f).
Proof.
  intros Hf. unfold with_read_dst. apply keeps_set_first. intros b. apply keeps_bind; [done|]. intros [result rb].
  apply keeps_set_first. intros b'. unfold terminate. keep.
Qed.

Lemma keeps_update_read_destination buf : keeps (update_read_destination buf).
Proof. unfold update_read_destination. keep. Qed.
#[local] Hint Resolve keeps_update_read_destination : keeps.

(** A codec consumes from the front, at most all. *)
Definition decoder_ok {Item Err} (codec : Decoder Item Err) : Prop := forall buf, zlen (codec buf).2 <= zlen buf.

Lemma keeps_decode {Item Err} (codec : Decoder Item Err) : keeps (decode codec).
Proof. unfold decode. apply keeps_with_read_dst. intros buf. destruct (codec buf) as [res rest]. keep. Qed.

Lemma keeps_decode_item {Item Err} (codec : Decoder Item Err) : decoder_ok codec -> keeps (decode_item codec).
Proof.
  intros Hok. unfold decode_item. apply keeps_with_read_dst. intros buf. specialize (Hok buf).
  destruct (codec buf) as [res rest]. cbn in Hok. apply keeps_bind; [|keep]. destruct res; [|keep].
  apply keeps_bind; [|keep]. intros acc c HG _. by eapply runs_lift; [by apply checked_sub_ok|].
Qed.

Lemma keeps_with_read_buf {A} (f : list byte -> A * list byte) : keeps (with_read_buf f).
Proof. unfold with_read_buf. apply keeps_with_read_dst. intros buf. destruct (f buf). keep. Qed.

Lemma keeps_pause : keeps pause.
Proof. unfold pause. keep. Qed.
Lemma keeps_poll_read_ready w : keeps (poll_read_ready w).
Proof. unfold poll_read_ready. keep. Qed.
#[local] Hint Resolve keeps_poll_read_ready keeps_decode_item keeps_pause : keeps.
Lemma keeps_poll_read_notify w : keeps (poll_read_notify w).
Proof. unfold poll_read_notify. keep. Qed.
Lemma keeps_poll_recv_decode {Item Err} (codec : Decoder Item Err) w : decoder_ok codec -> keeps (poll_recv_decode codec w).
Proof. intros Hok. unfold poll_recv_decode. keep. Qed.
#[local] Hint Resolve keeps_poll_recv_decode : keeps.
Lemma keeps_poll_recv {Item Err} (codec : Decoder Item Err) w : decoder_ok codec -> keeps (poll_recv codec w).
Proof. intros Hok. unfold poll_recv. keep. Qed.
Lemma keeps_poll_status_update w : keeps (poll_status_update w).
Proof. unfold poll_status_update. keep. Qed.
#[local] Hint Resolve keeps_poll_status_update : keeps.
Lemma keeps_poll_read_pause w : keeps (poll_read_pause w).
Proof. unfold poll_read_pause. keep. Qed.
Lemma keeps_notify_timeout : keeps io_notify_timeout.
Proof. unfold io_notify_timeout. keep. Qed.
Lemma keeps_send_buf : keeps send_buf.
Proof. unfold send_buf. keep. Qed.
Lemma keeps_poll_write_ready w : keeps (ctx_poll_write_ready w).
Proof. unfold ctx_poll_write_ready, filter_poll_write_ready. keep. Qed.
Lemma keeps_filter_poll_read_ready w : keeps (filter_poll_read_ready w).
Proof. unfold filter_poll_read_ready. keep. Qed.
Lemma keeps_ctx_shutdown flush w : keeps (ctx_shutdown flush w).
Proof. unfold ctx_shutdown. keep. Qed.

(** ** The end of the life of a stream *)

(** Setting the flags of the end of life, in their order. *)
Lemma keeps_life g :
  (forall f k, k ∈ [0; 9; 11] -> has k (g f) = has k f) ->
  (forall f k, k ∈ [1; 2] -> has k f = true -> has k (g f) = true) ->
  forall acc c, Good true acc c -> (has 1 (g (io_flags (cx_io c))) = true -> has 2 (g (io_flags (cx_io c))) = true) ->
  runs (upd_flags g) c (fun _ c' => Good true acc c' /\ held c c').
Proof.
  intros Hsame Hmono acc c [[[Hs [H01 _] Ht Hd Hsc] Hl] Hsv] H12. set (c' := upd_io (fun s => set_flags (g (io_flags s)) s) c).
  assert (forall k, k ∈ [0; 9; 11] -> hasf k c' = hasf k c) as Hk by (intros; by apply Hsame).
  apply runs_modify. fold c'. split; [split; [split; [split|]|]|]; unfold served, excused; rewrite ?Hk by mem; try done.
  - split; [|done]. intros H0. apply Hmono; [mem|by apply H01].
  - destruct Hsv as [[|H1]|]; [by left; left|left; right|right; by rewrite !Hk by mem].
    eapply waived_mono; [|exact H1]. by apply Hmono; mem.
  - split; try done. intros k Hin Hk1. apply elem_of_cons in Hin as [->|Hin]; [by rewrite Hk by mem|by apply Hmono].
Qed.

Lemma keeps_start_shutdown : keeps start_shutdown.
Proof.
  unfold start_shutdown. apply keeps_bind; [keep|]. intros []; [keep|]. apply keeps_bind; [|keep].
  intros acc c HG _. apply keeps_life; [|intros ? ? _ H|done|].
  - intros f. bits.
  - by rewrite has_set_filter_stopping, H.
  - intros _. by rewrite has_set_filter_stopping, orb_true_r.
Qed.
#[local] Hint Resolve keeps_start_shutdown : keeps.

Lemma keeps_close_with err : keeps (close_with err).
Proof. unfold close_with. keep. Qed.
Lemma keeps_poll_shutdown w : keeps (poll_shutdown w).
Proof. unfold poll_shutdown. keep. Qed.

Lemma filters_stopped_spec acc c :
  Good true acc c -> hasf 2 c = true -> runs filters_stopped c (fun _ c' => Good true acc c' /\ held c c').
Proof.
  intros HG H2. unfold filters_stopped. qstep c1 K1 F1. qstep c2 K2 F2. qstep c3 K3 F3.
  assert (core c c3) as K by (do 2 (etrans; [done|]); done).
  eapply runs_conseq; [apply (keeps_life set_filters_stopped)|].
  - intros f. bits.
  - intros f k _ Hk. by rewrite has_set_filters_stopped, Hk.
  - by eapply core_good.
  - intros _. rewrite has_set_filters_stopped. change (has 2 (io_flags (cx_io c3))) with (hasf 2 c3).
    by rewrite (k_flags _ _ K), H2 by mem.
  - intros [] c4 [HG4 K4]. split; [done|]. etrans; [by apply kept_held, core_kept|done].
Qed.

Lemma filtered_kept c c' : filtered c c' -> held c c'.
Proof. intros [K _ _ _]. by apply kept_held. Qed.

(** The timer of the shutdown is no part of the invariant. *)
Lemma set_timer_good t acc c : Good true acc c -> Good true acc (upd_io (set_shutdown_timeout t) c) /\ held c (upd_io (set_shutdown_timeout t) c).
Proof. intros [[[Hs Hfl Ht Hd Hsc] Hl] Hsv]. split; [by split; [split; [split|]|]|by split]. Qed.

Lemma keeps_shutdown_filters now : keeps (shutdown_filters now).
Proof.
  intros acc c HG Hm. unfold shutdown_filters. apply runs_bind, runs_flag. rewrite is_shutting_down_filters_has. fold (hasf 2 c).
  destruct (hasf 2 c) eqn:H2; cbn; [|by apply runs_ret]. destruct (negb (negb _)); cbn; [by apply runs_ret|].
  apply runs_bind. eapply runs_conseq; [apply (process_shutdown_spec Q sent true acc), HG|]. intros r c1 [HS1 K1].
  assert (is_Some (cx_mgr c1)) as Hm1 by (by apply (filtered_kept _ _ K1)).
  destruct r as [p|e].
  2:{ eapply runs_conseq; [apply (terminate_spec Q sent true acc), HS1|]. intros [] c2 (HG2 & K2 & _). split; [done|].
      etrans; [by apply filtered_kept|by apply kept_held]. }
  apply runs_bind. eapply runs_conseq; [by apply (consolidate_spec Q sent true acc)|]. intros [] c2 [HG2 K2].
  assert (held c c2) as K02 by (etrans; [by apply filtered_kept|done]).
  assert (hasf 2 c2 = true) as H22 by (apply K02; [mem|done]).
  do 4 (apply runs_bind, runs_flag).
  assert (runs filters_stopped c2 (fun _ c' => Good true acc c' /\ held c c')) as Hstop.
  { eapply runs_conseq; [by apply filters_stopped_spec|]. intros [] c3 [? ?]. split; [done|by etrans]. }
  destruct (_ && _ && _); [done|]. destruct (negb _ && _); [done|]. do 2 (apply runs_bind, runs_gets).
  apply runs_bind, runs_modify. destruct (set_timer_good None acc c2 HG2) as [HG3 K3]. set (c3 := upd_io _ c2) in *.
  assert (held c c3) as K03 by (by etrans). destruct (_ <=? now).
  - eapply runs_conseq; [apply filters_stopped_spec; [done|by apply K03; [mem|]]|]. intros [] c4 [? ?]. split; [done|by etrans].
  - apply runs_modify. match goal with |- context [set_shutdown_timeout ?t] => destruct (set_timer_good t acc c3 HG3) end.
    split; [done|by etrans].
Qed.
#[local] Hint Resolve keeps_shutdown_filters keeps_filter_poll_read_ready : keeps.
Lemma keeps_ctx_poll_read_ready now w : keeps (ctx_poll_read_ready now w).
Proof. unfold ctx_poll_read_ready. keep. Qed.
End operations.
