(* ===== verification/IoOutput.v ===== *)
(** * Input from the driver, and output

    The operations of a stream that run the filters on new input, or that
    accept output: their effect on the invariant and on the accepted bytes. *)
From Stdlib Require Import ZArith Lia.
From stdpp Require Import base numbers list sets.
From S2P Require Import Prelude Deps Task IoConfig IoFlags IoBuf IoChain IoTimers IoState IoInv IoRef IoKeeps.

Section output.
Context {F : Type} `{!Bitflags F} `{!BitflagsLaws F} {L : Type} `{!FilterLayer L} `{!FilterLayerLaws L}.
Context {D : Type} `{!HandleDrop D} `{!Waive D} `{!Handle F L D} (Q : bool -> D -> Prop) (sent : D -> list byte) `{!HandleLaws Q sent}.

Implicit Types (c : Cx F L D) (acc : list byte).
Abbreviation Sound := (Sound Q sent).
Abbreviation Good := (Good Q sent).
Abbreviation keeps := (keeps (F := F) (L := L) Q sent).

(** ** Input *)

Lemma read_dst_size_spec c : stack_ok (buf_of c) -> exists n, on_buffer read_dst_size c = Done (n, c).
Proof.
  intros Hs. destruct (stack_lookup (buf_of c) 0 Hs) as (b & w & Hb & _); [destruct Hs; lia|].
  destruct (runs_on_buffer read_dst_size c (match b_read b with Some rb => zlen rb | None => 0 end) (fun _ c' => c' = c)) as (n & c' & He & ->);
    [|done|by exists n].
  unfold read_dst_size, stack_read_len, mbind, M_bind. by rewrite (stack_get_spec _ _ _ Hb).
Qed.

Lemma set_read_buf_keeps buf : keeps (on_buffer (stack_set_read_buf buf)).
Proof.
  intros acc c HG _. pose proof HG as [[[[Hs _] _ _ _ _] _] _]. destruct (stack_lookup (buf_of c) (dst c) Hs) as (b & w & Hb & _).
  { unfold dst. destruct Hs. lia. }
  assert (forall r, on_buffer (stack_set (dst c) (set_b_read r b)) c = Done (tt, put_buf (<[dst c := set_b_read r b]> (buf_of c)) c)) as Hset by done.
  unfold runs, on_buffer. fold (buf_of c). unfold stack_set_read_buf, mbind, M_bind.
  rewrite stack_last_spec by done. fold (dst c). rewrite (stack_get_spec _ _ _ Hb).
  destruct (b_read b); [|destruct (negb _)].
  - eexists _, _. split; [done|]. split; [by apply read_side_good|by apply kept_held, kept_flags].
  - eexists _, _. split; [done|]. split; [by apply read_side_good|by apply kept_held, kept_flags].
  - exists tt, c. split; [exact (f_equal (fun x => Done (tt, x)) (upd_same c))|done].
Qed.

Lemma get_read_buf_keeps : keeps ctx_get_read_buf.
Proof.
  unfold ctx_get_read_buf. apply keeps_bind; [keep|]. intros []; [keep|]. apply keeps_bind; [|keep].
  intros acc c HG _. pose proof HG as [[[[Hs _] _ _ _ _] _] _]. destruct (stack_lookup (buf_of c) (dst c) Hs) as (b & w & Hb & _).
  { unfold dst. destruct Hs. lia. }
  unfold runs, on_buffer. fold (buf_of c). unfold stack_get_read_buf, mbind, M_bind.
  rewrite stack_last_spec by done. fold (dst c). rewrite (stack_get_spec _ _ _ Hb). eexists _, _. split; [done|].
  split; [by apply read_side_good|by apply kept_held, kept_flags].
Qed.

(** The part of [update_read_status] that runs the filters. *)
Lemma served_le hv c c' : filtered c c' -> out_size (buf_of c') <= out_size (buf_of c) -> served hv c -> served hv c'.
Proof.
  intros Hf Hle. apply filtered_served; [done|]. intros H0. pose proof (out_size_nonneg (buf_of c')). lia.
Qed.

(** Steps that change nothing the invariant sees. *)
Definition hushed {A} (op : M (Cx F L D) A) : Prop := forall c, stack_ok (buf_of c) -> runs op c (fun _ c' => core c c').

Lemma hushed_ret {A} (a : A) : hushed (mret a).
Proof. intros c _. by apply runs_ret. Qed.
Lemma hushed_get {A} (g : IoState F L -> A) : hushed (get_io g).
Proof. intros c _. by eapply runs_eq. Qed.
Lemma hushed_bind {A B} (op : M (Cx F L D) A) (k : A -> M (Cx F L D) B) : hushed op -> (forall a, hushed (k a)) -> hushed (op ≫= k).
Proof.
  intros H1 H2 c Hs. apply runs_bind. eapply runs_conseq; [by apply H1|]. intros a c1 K1.
  eapply runs_conseq; [apply H2; by rewrite (k_buf _ _ K1)|]. intros b c2 K2. by transitivity c1.
Qed.
Lemma hushed_quiet op : quiet op -> hushed op.
Proof. intros Hq c _. apply runs_quiet; [done|]. by intros. Qed.
Lemma hushed_flags g : harmless g -> hushed (upd_flags g).
Proof. intros Hg c _. eapply runs_conseq; [apply core_flags; intros k Hk; by apply Hg|]. by intros [] c' [K _]. Qed.
Lemma hushed_read_dst_size : hushed (on_buffer read_dst_size).
Proof. intros c Hs. destruct (read_dst_size_spec c Hs) as [n Hn]. by eapply runs_eq. Qed.

(** New input is announced to the dispatcher. *)
Lemma hushed_announce orig : hushed (read_announce orig).
Proof.
  unfold read_announce. apply hushed_bind; [apply hushed_read_dst_size|]. intros size. apply hushed_bind; intros.
  - destruct (orig <? size); [|apply hushed_ret]. apply hushed_bind; [apply hushed_get|]. intros need.
    apply hushed_bind; [|intros; apply hushed_quiet; auto with quiet].
    destruct need; apply hushed_flags; intros f; bits.
  - apply hushed_bind; [apply hushed_get|]. intros []; [|apply hushed_ret].
    apply hushed_bind; [apply hushed_quiet; auto with quiet|]. intros []. apply hushed_flags. intros f. bits.
Qed.

Lemma update_read_status_keeps buf status : keeps (ctx_update_read_status buf status).
Proof.
  intros acc c HG Hm. unfold ctx_update_read_status. apply runs_bind.
  destruct (read_dst_size_spec c) as [orig Horig]; [apply HG|]. eapply runs_eq; [exact Horig|]. apply runs_bind.
  eapply runs_conseq; [by apply set_read_buf_keeps|]. intros [] c0 [HG0 K0]. assert (is_Some (cx_mgr c0)) as Hm0 by (by apply K0).
  apply runs_bind. apply (runs_conseq _ _ (fun r c1 => held c c1 /\ match r with inl _ => Good true acc c1 | inr _ => Sound true acc c1 end)).
  2:{ intros [[]|e] c1 [K1 H1].
      - assert (is_Some (cx_mgr c1)) as Hm1 by (by apply K1). assert (keeps (
          closed ← flag is_closed; if (closed : bool) then mret StatusStop else
          pb ← flag is_read_paused_or_backpressure; if (pb : bool) then mret StatusPause else mret StatusIo)) as Hk by keep.
        eapply runs_conseq; [by apply Hk|]. intros r c2 [? ?]. split; [done|by etrans].
      - apply runs_bind. eapply runs_conseq; [apply (terminate_spec Q sent true acc), H1|]. intros [] c2 (HG2 & K2 & _).
        apply runs_ret. split; [done|]. etrans; [done|by apply kept_held]. }
  destruct status as [nbytes|e]; [|by apply runs_ret; split; [|apply HG0]]. destruct (nbytes =? 0); [by apply runs_ret|].
  apply runs_bind. eapply runs_conseq; [apply (process_read_buf_spec Q sent true acc), HG0|]. intros r c1 (HS1 & K1 & Hw).
  assert (held c c1) as K01 by (etrans; [done|by apply filtered_kept]).
  destruct r as [[wants notify]|e]; [|by apply runs_ret]. destruct (Hw wants notify eq_refl) as [-> Hsz].
  apply runs_bind. eapply runs_conseq; [apply hushed_announce, HS1|]. intros [] c2 K2.
  pose proof (core_sound _ _ _ _ _ _ K2 HS1) as HS2. assert (held c c2) as K02 by (etrans; [done|by apply kept_held, core_kept]).
  assert (is_Some (cx_mgr c2)) as Hm2 by (by apply K02). apply runs_bind.
  apply (runs_conseq _ _ (fun _ c3 => Good true acc c3 /\ held c c3)).
  2:{ intros [] c3 [? ?]. apply runs_bind, runs_ret, runs_ret. done. }
  destruct wants.
  - apply runs_bind. eapply runs_conseq; [by apply (process_write_buf_force_spec Q sent true acc)|]. intros r c3 [HS3 K3].
    assert (held c c3) as K03 by (etrans; [done|by apply filtered_kept]). destruct r as [[]|e].
    + eapply runs_conseq; [apply (consolidate_spec Q sent false acc); [done|by apply K03]|]. intros [] c4 [? ?]. split; [done|by etrans].
    + eapply runs_conseq; [apply (terminate_spec Q sent true acc), HS3|]. intros [] c4 (? & ? & _).
      split; [done|]. etrans; [done|by apply kept_held].
  - apply runs_ret. split; [|done]. eapply core_good; [exact K2|]. split; [done|]. unfold excused. rewrite !(filtered_has c0 c1) by done.
    destruct HG0 as [_ [|Hsv]]; [by left|right]. eapply served_le; [done|by apply Hsz|done].
Qed.

(** ** Output *)

(** A write through the stream: accepted bytes come after all others. *)
Lemma append_sound acc c b w bs :
  Sound true acc c -> hasf 0 c = false -> buf_of c !! 0%nat = Some b -> b_write b = Some w ->
  Sound true (acc ++ bs) (put_buf (<[0%nat := set_b_write (Some (w ++ bs)) b]> (buf_of c)) c).
Proof.
  intros [[[Hs Hlen] Hfl Ht Hd Hsc] Hl] H0 Hb Hw. destruct Hl as [|[Hh Hst]]; [congruence|].
  split; [split|]; try done.
  - split; [apply stack_ok_insert; [done|by eexists]|]. intros ls Hf. cbn. rewrite length_insert. by apply Hlen.
  - right. split; [done|]. cbn. intros Hf. specialize (Hst Hf). rewrite wcontent_insert by (by eapply lookup_lt_Some).
    rewrite decide_True by done. cbn. unfold wcontent in Hst. rewrite Hb, Hw in Hst. by rewrite app_assoc, Hst.
Qed.

Lemma with_write_buf_spec {A} (f : list byte -> A * list byte) bs acc c :
  (forall b, (f b).2 = b ++ bs) -> Good true acc c -> is_Some (cx_mgr c) ->
  runs (with_write_buf f) c (fun r c' =>
    Good true (match r with inl _ => acc ++ bs | inr _ => acc end) c' /\ held c c').
Proof.
  intros Hf HG Hm. unfold with_write_buf. apply runs_bind, runs_flag. rewrite is_stopping_any_has. fold (hasf 0 c).
  destruct (hasf 0 c) eqn:H0; cbn [orb].
  - apply runs_bind, runs_flag. destruct (is_closed _); [|by apply runs_ret]. apply runs_bind, runs_bind, runs_gets, runs_ret. by apply runs_ret.
  - destruct (_ || _).
    + apply runs_bind, runs_flag. destruct (is_closed _); [|by apply runs_ret]. apply runs_bind, runs_bind, runs_gets, runs_ret. by apply runs_ret.
    + apply runs_bind. pose proof HG as [HS _]. pose proof HS as [[[Hs _] _ _ _ _] _].
      destruct (stack_lookup (buf_of c) 0 Hs) as (b & w & Hb & Hw & _); [destruct Hs; lia|].
      eapply runs_eq.
      { unfold on_buffer. fold (buf_of c). unfold with_write_src. by rewrite (stack_with_write_spec _ _ _ b w Hb Hw). }
      rewrite Hf. apply runs_bind.
      eapply runs_conseq; [apply (consolidate_spec Q sent false (acc ++ bs)); [by apply append_sound|done]|].
      intros [] c2 [HG2 K2]. apply runs_ret. split; [done|]. etrans; [|exact K2]. by apply kept_held, kept_flags.
Qed.

(** A direct write: what the driver took is accepted. *)
Lemma try_write_vectored_spec bufs acc c :
  Good true acc c -> is_Some (cx_mgr c) ->
  runs (try_write_vectored bufs) c (fun r c' => held c c' /\
    match r with
    | inl n => 0 <= n <= zlen (concat bufs) /\ (filter_of c = Some [] -> Good true (acc ++ ztake n (concat bufs)) c') /\
        (filter_of c <> Some [] -> n = 0 /\ Good true acc c')
    | inr _ => Good true acc c'
    end).
Proof.
  intros HG Hm. assert (Good true (acc ++ ztake 0 (concat bufs)) c) as HG0 by (by rewrite ztake_le0, app_nil_r).
  assert (0 <= 0 <= zlen (concat bufs)) as Hz by zlia. unfold try_write_vectored.
  apply runs_bind, runs_flag. rewrite is_stopping_any_has. destruct (_ || _ || _) eqn:Hany; [by apply runs_ret|].
  apply orb_false_iff in Hany as [[H0 _]%orb_false_iff H2]. fold (hasf 0 c) in H0. fold (hasf 2 c) in H2.
  pose proof HG as [HS Hsv]. pose proof HS as [HW Hl]. apply runs_bind, runs_size; [apply HW|].
  apply runs_bind, runs_gets. fold (filter_of c).
  destruct (Z.eqb_spec (out_size (buf_of c)) 0) as [Hz0|]; [|by apply runs_ret].
  destruct (filter_of c) as [[|la ls]|] eqn:Hf; cbn [negb orb filter_is_transparent]; [|by apply runs_ret..].
  apply runs_bind, runs_gets. fold (handle_of c). destruct (handle_of c) eqn:Hh; [|by apply runs_ret].
  apply runs_bind, runs_modify, runs_bind. set (c1 := upd_io (set_handle false) c).
  assert (Good false acc c1) as HG1.
  { split; [by apply sound_take|]. right. intros _. by left. }
  eapply runs_conseq; [by apply (hl_write_bufs acc bufs c1)|]. intros r c2 [K2 H]. apply runs_bind, runs_modify, runs_ret.
  assert (held c (upd_io (set_handle true) c2)) as K.
  { transitivity c1; [by apply kept_held, kept_flags|]. transitivity c2; [by apply kept_held|by apply kept_held, kept_flags]. }
  assert (forall a, Good false a c2 -> Good true a (upd_io (set_handle true) c2)) as Hgive.
  { intros a [HSa Hsva]. split; [by apply sound_give|]. destruct Hsva as [|Hsva]; [by left|right].
    intros H9. destruct (Hsva H9) as [|[? _]]; [by left|done]. }
  split; [done|]. destruct r as [[n|e]|].
  - destruct H as [Hn HGn]. split; [done|]. split; [|done]. intros _. by apply Hgive.
  - by apply Hgive.
  - split; [done|]. split; [|done]. intros _. rewrite ztake_le0, app_nil_r by lia. by apply Hgive.
Qed.

Lemma force_plain c : filter_of c = Some [] -> process_write_buf_force c = Done (inl tt, upd_io (set_buffer (buf_of c) (Some [])) c).
Proof. intros Hf. unfold process_write_buf_force, with_filters, mbind, M_bind. fold (filter_of c). by rewrite Hf. Qed.

(** Flushing; a layer that fails leaves the stream as it is. *)
Lemma poll_flush_spec w full acc c :
  Good true acc c -> is_Some (cx_mgr c) ->
  runs (poll_flush w full) c (fun r c' => held c c' /\ Sound true acc c' /\
    (Good true acc c' \/ exists e c1, process_write_buf_force c = Done (inr e, c1))).
Proof.
  intros HG Hm. unfold poll_flush. apply runs_bind. destruct (process_write_buf_force_spec Q sent true acc c) as (r & c1 & He & HS1 & K1%filtered_kept); [apply HG|].
  exists r, c1. split; [done|]. destruct r as [[]|e].
  2:{ apply runs_ret. split; [done|]. split; [done|]. right. by exists e, c1. }
  apply runs_bind. eapply runs_conseq; [apply (consolidate_spec Q sent false acc); [done|by apply K1]|]. intros [] c2 [HG2 K2].
  assert (held c c2) as K by (by etrans). assert (is_Some (cx_mgr c2)) as Hm2 by (by apply K).
  assert (keeps (
    len ← on_buffer write_buf_size; closed ← flag is_closed; need ← is_wr_backpressure_needed len; flush ← flag is_write_flush;
    if (0 <? len) && (closed : bool) then e ← error_or_disconnected; mret (Ready (inr e))
    else if (0 <? len) && full then upd_flags set_wants_write_flush;; register_dispatch w;; mret Pending
    else if (0 <? len) && (need : bool) then upd_flags set_wr_backpressure;; register_dispatch w;; mret Pending
    else if (closed : bool) && negb flush then e ← error_or_disconnected; mret (Ready (inr e))
    else upd_flags unset_wr_backpressure_and_flush;; mret (Ready (inl tt)))) as Hk by keep.
  eapply runs_conseq; [by apply Hk|]. intros r c3 [HG3 K3]. split; [by etrans|]. split; [apply HG3|by left].
Qed.

(** The deferred write, which runs while the manager is in use. *)
Lemma ops_send_buf_spec acc m c :
  Good true acc (set_mgr m c) ->
  runs ops_send_buf c (fun _ c' => Good true acc c' /\ kept c c').
Proof.
  intros HG. unfold ops_send_buf. apply runs_bind, runs_flag. rewrite is_wr_send_scheduled_has. fold (hasf 11 c).
  assert (hasf 11 c = false -> Good true acc c) as Hnot.
  { intros H11. destruct HG as [[[Hs Hfl Ht Hd Hsc] Hl] Hsv]. split; [split; [split|]|]; try done. by rewrite H11. }
  destruct (hasf 11 c) eqn:H11; [|apply runs_ret; split; [auto|done]].
  apply runs_bind, runs_modify. set (c1 := upd_io _ c).
  assert (forall k, k ∈ [0; 1; 2; 9] -> hasf k c1 = hasf k c) as Hk by (unfold c1; bits).
  assert (hasf 11 c1 = false) as Hk11 by (unfold c1, hasf; cbn [cx_io upd_io io_flags set_flags]; by rewrite has_unset_wr_send_scheduled, andb_false_r).
  assert (kept c c1) as K1.
  { split; try done; [|rewrite !Hk by mem; auto]. intros k Hin. rewrite Hk; [done|]. repeat (apply elem_of_cons in Hin as [->|Hin]; [mem|]). by apply not_elem_of_nil in Hin. }
  assert (Sound true acc c1) as HS1.
  { destruct HG as [[[Hs Hfl Ht Hd Hsc] Hl] Hsv]. split; [split|]; rewrite ?Hk by mem; try done. by rewrite Hk11. }
  apply runs_bind, runs_flag. rewrite is_write_paused_has. fold (hasf 9 c1). destruct (hasf 9 c1) eqn:H9.
  - apply runs_bind. eapply runs_conseq; [by apply (call_write_spec Q sent acc)|]. intros w c2 (HS2 & K2 & Hsv2 & ->).
    destruct (hasf 9 c2) eqn:H92.
    + apply runs_ret. split; [|by etrans]. split; [done|]. destruct Hsv2 as [|Hsv2]; [by left|right]. intros _. left. by apply Hsv2.
    + qstep c3 K3 F3. eapply (runs_set_flags Q sent unset_write_paused true acc); [by eapply core_sound|bits|bit11|].
      intros c4 HS4 K4 _ _ F4. split; [|do 2 (etrans; [done|]); etrans; [by apply core_kept|done]].
      split; [done|]. right. intros H94. unfold hasf in H94. by rewrite F4, has_unset_write_paused, andb_false_r in H94.
  - assert (Good true acc c1) as HG1 by (split; [done|]; right; intros ?; congruence).
    apply runs_quiet; [auto with quiet|]. intros c2 K2 _. split; [by eapply core_good|]. etrans; [done|by apply core_kept].
Qed.
End output.

(** ** The graceful end of a stream

    [IoContext::shutdown_filters] of a stream without layers: the filters are
    stopped only after the output has been sent. *)

Lemma runs_and {St A} (op : M St A) s (P P' : A -> St -> Prop) :
  runs op s P -> runs op s P' -> runs op s (fun a s' => P a s' /\ P' a s').
Proof. intros (a & s' & He & HP) (a' & s'' & He' & HP'). rewrite He in He'. injection He' as <- <-. by exists a, s'. Qed.

Section close.
Context {F : Type} `{!Bitflags F} `{!BitflagsLaws F} {L : Type} `{!FilterLayer L} `{!FilterLayerLaws L}.
Context {D : Type} `{!HandleDrop D} `{!Waive D} `{!Handle F L D} (Q : bool -> D -> Prop) (sent : D -> list byte) `{!HandleLaws Q sent}.

Implicit Types (c : Cx F L D) (acc : list byte).
Abbreviation Sound := (Sound Q sent).
Abbreviation Good := (Good Q sent).

(** The filters were not stopped, except by a termination, nor the timer
    touched. *)
Definition calm c c' : Prop :=
  (hasf 1 c' = true -> hasf 1 c = true \/ hasf 0 c' = true) /\
  io_shutdown_timeout (cx_io c') = io_shutdown_timeout (cx_io c).

Lemma calm_kept c c' : kept c c' -> calm c c'.
Proof. by intros [? ? ? ? ? ? ?]. Qed.
Lemma calm_refl c : calm c c.
Proof. by apply calm_kept. Qed.
Lemma calm_flags c c1 c2 :
  calm c c1 -> (forall k, k ∈ [0; 1] -> hasf k c2 = hasf k c1) -> io_shutdown_timeout (cx_io c2) = io_shutdown_timeout (cx_io c1) -> calm c c2.
Proof. intros [Hs Ht] Hk Ht'. split; [rewrite !Hk by mem; done|congruence]. Qed.

(** A flag that has nothing to do with the end of the stream. *)
Lemma calm_upd g c0 c :
  (forall f k, k ∈ [0; 1] -> has k (g f) = has k f) -> calm c0 c -> runs (upd_flags g) c (fun _ c' => calm c0 c').
Proof. intros Hg Hc. apply runs_modify. eapply calm_flags; [done| |done]. intros k Hk. by apply Hg. Qed.

Lemma calm_schedule c0 c : calm c0 c -> is_Some (cx_mgr c) -> runs schedule c (fun _ c' => calm c0 c').
Proof.
  intros Hc [m Hm]. unfold schedule. apply runs_bind, runs_flag. destruct (is_wr_send_scheduled _); [by apply runs_ret|].
  apply runs_bind, runs_modify, runs_bind, runs_gets. eapply runs_eq; [unfold schedule_write, mgr_with; cbn; by rewrite Hm|].
  eapply (calm_flags c0 c); [done| |done]. change (forall k, k ∈ [0; 1] -> has k (set_wr_send_scheduled (io_flags (cx_io c))) = hasf k c). bits.
Qed.

Lemma consolidate_calm force acc c :
  Sound true acc c -> is_Some (cx_mgr c) -> runs (consolidate_write_state force) c (fun _ c' => calm c c').
Proof.
  intros HS Hm. pose proof HS as [[[Hs _] _ _ _ _] _]. pose proof (calm_refl c) as Hc0.
  unfold consolidate_write_state. apply runs_bind, runs_size; [done|]. apply runs_bind, runs_flag, runs_bind.
  apply (runs_conseq _ _ (fun _ c' => calm c c')).
  - destruct (_ && _); [|by apply runs_ret]. apply runs_bind, runs_flag, runs_bind, runs_gets. destruct (_ && _); [|by apply calm_schedule].
    apply runs_bind. eapply runs_conseq; [by apply (call_write_spec Q sent acc)|]. intros w c1 (_ & K1 & _).
    pose proof (calm_kept _ _ K1) as Hc1. destruct w; [apply calm_schedule; [done|by rewrite (kp_mgr _ _ K1)]|].
    apply calm_upd; [|done]. intros f. bits.
  - intros [] c1 Hc1. apply runs_bind, runs_flag, runs_bind, runs_gets. destruct (_ && _); [|by apply runs_ret].
    apply runs_bind. eapply runs_conseq; [apply (calm_upd set_wr_backpressure c c1); [intros f; bits|done]|]. intros [] c2 Hc2.
    apply runs_quiet; [auto with quiet|]. intros c3 K3 _. eapply calm_flags; [done| |by apply K3].
    intros k Hk. apply (k_flags _ _ K3). by repeat (apply elem_of_cons in Hk as [->|Hk]; [mem|]); apply not_elem_of_nil in Hk.
Qed.

(** Without layers there is nothing to shut down. *)
Lemma process_shutdown_plain c :
  stack_ok (buf_of c) -> filter_of c = Some [] -> runs process_shutdown c (fun r c' => r = inl (Ready tt) /\ calm c c').
Proof.
  intros Hs Hf. pose proof (calm_refl c) as Hc0. unfold process_shutdown, process_write_buf. apply runs_bind.
  apply (runs_conseq _ _ (fun r c1 => r = inl tt /\ filter_of c1 = Some [] /\ calm c c1)).
  - apply runs_bind. eapply runs_on_buffer; [unfold stack_is_write_empty; apply stack_read_only; [done|destruct Hs; lia]|].
    destruct (_ =? _); [by apply runs_ret|]. unfold process_write_buf_force. apply runs_bind. unfold with_filters, runs. fold (filter_of c).
    rewrite Hf. cbn. eexists _, _. split; [done|]. eexists _, _. split; [done|]. split; [done|]. split; [done|]. by eapply calm_flags.
  - intros r c1 (-> & Hf1 & Hc1). apply runs_bind. unfold with_filters, runs. fold (filter_of c1). rewrite Hf1. cbn.
    eexists _, _. split; [done|]. eexists _, _. split; [done|]. split; [done|]. by eapply calm_flags.
Qed.

Lemma filters_stopped_buf c : runs filters_stopped c (fun _ c' => buf_of c' = buf_of c /\ hasf 9 c' = hasf 9 c).
Proof.
  unfold filters_stopped. qstep c1 K1 F1. qstep c2 K2 F2. qstep c3 K3 F3. apply runs_modify.
  assert (core c c3) as [Kb _ _ _ _ _ _ Kk _] by (do 2 (etrans; [done|]); done). split; [exact Kb|].
  unfold hasf at 1. cbn [cx_io upd_io io_flags set_flags]. rewrite has_set_filters_stopped, orb_false_r. apply (Kk 9); mem.
Qed.

Lemma shutdown_filters_plain now acc c :
  waives <> WaiveAlways -> Good true acc c -> is_Some (cx_mgr c) -> filter_of c = Some [] -> hasf 1 c = false ->
  (forall d, io_shutdown_timeout (cx_io c) = Some d -> now < d) ->
  runs (shutdown_filters now) c (fun _ c' =>
    hasf 1 c' = true -> hasf 0 c' = false -> sent (cx_drv c') = acc /\ out_size (buf_of c') = 0 /\ hasf 9 c' = true).
Proof.
  intros Hwv HG Hm Hf H1 Ht. pose proof HG as [HS _]. pose proof HS as [[[Hs _] _ _ _ _] _].
  unfold shutdown_filters. apply runs_bind, runs_flag. rewrite is_shutting_down_filters_has.
  fold (hasf 2 c). destruct (hasf 2 c) eqn:H2; [|apply runs_ret; congruence]. destruct (negb _); [apply runs_ret; congruence|]. apply runs_bind.
  eapply runs_conseq; [apply runs_and; [by apply (process_shutdown_spec Q sent true acc)|by apply process_shutdown_plain]|].
  intros r c1 ([HS1 K1] & -> & [Hc1 Ht1]). cbn [poll_is_ready]. apply filtered_kept in K1 as K1'.
  assert (is_Some (cx_mgr c1)) as Hm1 by (by apply K1'). apply runs_bind.
  eapply runs_conseq; [apply runs_and; [by apply (consolidate_spec Q sent true acc)|by apply (consolidate_calm true acc)]|].
  intros [] c2 ([HG2 K2] & [Hc2 Ht2]). assert (filter_of c2 = Some []) as Hf2 by (by apply K2, K1').
  assert (hasf 1 c2 = true -> hasf 0 c2 = true) as Hstop.
  { intros [H|]%Hc2; [|done]. rewrite (filtered_has _ _ 1 K1) in H. congruence. }
  do 4 (apply runs_bind, runs_flag). rewrite is_write_paused_has, is_wr_send_scheduled_has. fold (hasf 9 c2) (hasf 11 c2). cbn [negb andb].
  destruct (hasf 9 c2 && negb (hasf 11 c2)) eqn:Hdone.
  - apply andb_true_iff in Hdone as [H9 H11%negb_true_iff].
    eapply runs_conseq; [apply runs_and; [apply (filters_stopped_spec Q sent acc); [done|]|apply filters_stopped_buf]|].
    + apply K2; [mem|]. by rewrite (filtered_has _ _ 2 K1).
    + intros [] c3 ([HG3 K3] & Hb3 & H93) _ Hz. destruct HG3 as [[_ [|[_ Hst]]] _]; [congruence|].
      assert (out_size (buf_of c2) = 0) as Ho.
      { destruct HG2 as [_ [Hx|Hsv]]; [assert (hasf 0 c2 = true) by (destruct Hx as [|?%waived_closing]; auto); by rewrite (hd_life _ _ K3) in Hz by (done || mem)|]. by destruct (Hsv H9) as [|[_ ?]]; [|congruence]. }
      rewrite Hb3, H93. split; [|done]. rewrite <- Hst by (by apply K3). rewrite Hb3, (out_size_first _ Ho). by rewrite app_nil_r.
  - do 2 (apply runs_bind, runs_gets). apply runs_bind, runs_modify.
    assert (forall d, io_shutdown_timeout (cx_io c2) = Some d -> now < d) as Hd by (intros d; rewrite Ht2, Ht1; apply Ht).
    rewrite (proj2 (Z.leb_gt _ _)) by (destruct (io_shutdown_timeout (cx_io c2)) as [d|]; [specialize (Hd d eq_refl)|]; lia).
    apply runs_modify. intros Hx Hy. change (hasf 1 c2 = true) in Hx. change (hasf 0 c2 = false) in Hy. apply Hstop in Hx. congruence.
Qed.
End close.

(** ** The buffer of a driver, for any driver *)
Section buffer.
Context {F : Type} `{!Bitflags F} `{!BitflagsLaws F} {L : Type} `{!FilterLayer L} `{!FilterLayerLaws L}.
Context {D : Type} `{!HandleDrop D} `{!Waive D} (Q : bool -> D -> Prop) `{!DropLaws Q}.
Implicit Types (c : Cx F L D) (acc : list byte) (sent : D -> list byte).

(** A change of the state of the driver. *)
Lemma sound_change (Q' : bool -> D -> Prop) sent sent' hv acc c d' :
  Sound Q sent hv acc c -> (forall a, Q a (cx_drv c) -> Q' a d') -> sent' d' = sent (cx_drv c) -> Sound Q' sent' hv acc (set_drv d' c).
Proof.
  intros [[Hs Hfl Ht Hd Hsc] Hl] HQ Hst. split; [split|]; try done; [by apply HQ|].
  destruct Hl as [|[Hh Hst0]]; [by left|right]. split; [done|]. cbn. by rewrite Hst.
Qed.
Lemma driver_change (Q' : bool -> D -> Prop) sent sent' hv acc c d' :
  Good Q sent hv acc c -> (forall a, Q a (cx_drv c) -> Q' a d') -> sent' d' = sent (cx_drv c) ->
  Good Q' sent' hv acc (set_drv d' c).
Proof. intros [HS Hsv] HQ Hst. by split; [eapply sound_change|]. Qed.

Lemma good_sent sent sent' hv acc c : sent' (cx_drv c) = sent (cx_drv c) -> Good Q sent hv acc c -> Good Q sent' hv acc c.
Proof.
  intros Hst [[HW Hl] Hsv]. split; [|done]. split; [done|]. destruct Hl as [|[Hh Hst0]]; [by left|right]. split; [done|]. by rewrite Hst.
Qed.

(** A change of the output behind the layers, and of what counts as taken. *)
Lemma dst_change sent sent' hv acc c b wb wb' :
  Good Q sent hv acc c -> buf_of c !! dst c = Some b -> b_write b = Some wb ->
  (forall d, sent' d ++ wb' = sent d ++ wb) -> (hasf 9 c = true -> wb = [] -> wb' = []) ->
  Good Q sent' hv acc (put_buf (<[dst c := set_b_write (Some wb') b]> (buf_of c)) c).
Proof.
  intros [[[[Hs Hlen] Hfl Ht Hd Hsc] Hl] Hsv] Hb Hw Hst Hnil. pose proof (lookup_lt_Some _ _ _ Hb) as Hlt.
  assert (wcontent (buf_of c) (dst c) = wb) as Hwb by (unfold wcontent; by rewrite Hb, Hw).
  split; [split; [split|]|]; try done.
  - split; [apply stack_ok_insert; [done|by eexists]|]. intros ls Hf. cbn. rewrite length_insert. by apply Hlen.
  - destruct Hl as [|[Hh Hst0]]; [by left|right]. split; [done|]. cbn. intros Hf. specialize (Hst0 Hf).
    assert (dst c = 0%nat) as Hd0 by (unfold dst; by rewrite (Hlen [] Hf)). rewrite Hd0 in *. rewrite wcontent_insert by done.
    rewrite decide_True by done. cbn. rewrite Hst, <- Hst0. by rewrite <- Hwb.
  - destruct Hsv as [|Hsv]; [by left|right]. intros H9. destruct (Hsv H9) as [Hz0|]; [left|by right].
    rewrite <- Hz0. cbn. apply out_size_ext; [by rewrite length_insert|]. intros i. rewrite wcontent_insert by done.
    case_decide as Hi; [|done]. subst i. cbn. apply out_size_last in Hz0. fold (dst c) in Hz0. rewrite Hz0. apply Hnil; [done|congruence].
Qed.

Lemma write_buf_spec {A} (f : list byte -> A * list byte) sent hv acc c :
  Good Q sent hv acc c ->
  runs (ctx_with_write_buf (fun w => mret (f w))) c (fun r c' => kept c c' /\ exists wb, r = (f wb).1 /\
    forall sent', (forall d, sent' d ++ (f wb).2 = sent d ++ wb) -> (hasf 9 c = true -> wb = [] -> (f wb).2 = []) ->
      Good Q sent' hv acc c').
Proof.
  intros HG. unfold ctx_with_write_buf. apply runs_bind. eapply runs_conseq; [by apply (process_write_buf_good Q sent)|].
  intros r c0 (HG0 & [K0 F0 _ _] & _). apply runs_bind.
  apply (runs_conseq _ _ (fun _ c1 => Good Q sent hv acc c1 /\ kept c c1 /\ (hasf 0 c1 = true \/ hasf 9 c1 = hasf 9 c))).
  { destruct r; [apply runs_ret; split; [done|]; split; [done|right; unfold hasf; by rewrite F0]|].
    eapply runs_conseq; [apply (terminate_spec Q sent hv acc), HG0|]. intros [] c1 (? & ? & ?). split; [done|]. split; [by etrans|by left]. }
  clear r c0 HG0 K0 F0. intros [] c1 (HG1 & K1 & H9). pose proof HG1 as [[[Hsh _ _ _ _] _] _]. pose proof Hsh as [Hs _].
  destruct (stack_lookup (buf_of c1) (dst c1) Hs) as (b & wb & Hb & Hw & Hwc); [unfold dst; destruct Hs; lia|].
  eapply with_write_dst_spec; [done|done|done|]. apply runs_ret. split; [done|].
  set (c2 := put_buf _ (put_buf _ c1)). assert (c2 = put_buf (<[dst c1 := set_b_write (Some (f wb).2) b]> (buf_of c1)) c1) as -> by done.
  split; [etrans; [exact K1|by apply kept_flags]|]. exists wb. split; [done|]. intros sent' Hst Hnil.
  destruct H9 as [H0|H9].
  - pose proof HG1 as [[HW _] _]. split; [split|]; [|by left|by left; left]. destruct HW as [_ Hfl Ht Hd Hsc]. split; try done.
    destruct Hsh as [_ Hlen]. split; [apply stack_ok_insert; [done|by eexists]|]. intros ls Hf. cbn. rewrite length_insert. by apply Hlen.
  - apply (dst_change sent sent' hv acc c1 b wb); try done. by rewrite H9.
Qed.
(** A change of the output and of the state of the driver, while an operation
    is under way. *)
Lemma dst_driver_change (Q' : bool -> D -> Prop) sent sent' hv acc c b wb wb' d' :
  Sound Q sent hv acc c -> buf_of c !! dst c = Some b -> b_write b = Some wb ->
  (forall a, Q a (cx_drv c) -> Q' a d') -> sent' d' ++ wb' = sent (cx_drv c) ++ wb ->
  Sound Q' sent' hv acc (put_buf (<[dst c := set_b_write (Some wb') b]> (buf_of c)) (set_drv d' c)).
Proof.
  intros [[[Hs Hlen] Hfl Ht Hd Hsc] Hl] Hb Hw Hd' Hst. pose proof (lookup_lt_Some _ _ _ Hb) as Hlt.
  assert (wcontent (buf_of c) (dst c) = wb) as Hwb by (unfold wcontent; by rewrite Hb, Hw).
  split; [split|]; try done.
  - split; [apply stack_ok_insert; [done|by eexists]|]. intros ls Hf. cbn. rewrite length_insert. by apply Hlen.
  - by apply Hd'.
  - destruct Hl as [|[Hh Hst0]]; [by left|right]. split; [done|]. cbn. intros Hf. specialize (Hst0 Hf).
    assert (dst c = 0%nat) as Hd0 by (unfold dst; by rewrite (Hlen [] Hf)). rewrite Hd0 in *. rewrite wcontent_insert by done.
    rewrite decide_True by done. cbn. rewrite Hst, <- Hst0. by rewrite <- Hwb.
Qed.

(** A change of the output by a closure that does nothing else. *)
Lemma write_buf_sound {A} (g : list byte -> M (Cx F L D) (A * list byte)) (f : list byte -> A * list byte) sent sent' hv acc c :
  (forall w, g w = mret (f w)) -> (forall w d, sent' d ++ (f w).2 = sent d ++ w) -> Sound Q sent hv acc c ->
  runs (ctx_with_write_buf g) c (fun r c' => kept c c' /\ (exists w, r = (f w).1) /\ Sound Q sent' hv acc c').
Proof.
  intros Hg Hf HS. unfold ctx_with_write_buf. apply runs_bind. eapply runs_conseq; [by apply (process_write_buf_spec Q sent)|].
  intros r c0 (HS0 & [K0 _ _ _] & _). apply runs_bind. apply (runs_conseq _ _ (fun _ c1 => Sound Q sent hv acc c1 /\ kept c c1)).
  { destruct r; [by apply runs_ret|]. eapply runs_conseq; [apply (terminate_spec Q sent hv acc), HS0|]. intros [] c1 ([? _] & ? & _).
    split; [done|by etrans]. }
  clear r c0 HS0 K0. intros [] c1 [HS1 K1]. pose proof HS1 as [[Hsh _ _ _ _] _]. pose proof Hsh as [Hs _].
  destruct (stack_lookup (buf_of c1) (dst c1) Hs) as (b & wb & Hb & Hw & _); [unfold dst; destruct Hs; lia|].
  eapply with_write_dst_spec; [done|done|done|]. rewrite Hg. apply runs_ret. split; [done|]. split; [etrans; [exact K1|by apply kept_flags]|].
  split; [by exists wb|]. by apply (dst_driver_change Q sent sent' hv acc c1 b wb (f wb).2 (cx_drv c1)).
Qed.

Lemma put_same c : put_buf (buf_of c) c = c.
Proof. by destruct c as [[]]. Qed.

(** A change of the output of a stream that was terminated meanwhile. *)
Lemma dst_ended (Q0 : bool -> D -> Prop) sent hv acc c b x wb' c2 :
  Wf Q0 hv c -> buf_of c !! dst c = Some b -> ended Q hv x c2 ->
  kept c x -> buf_of x = <[dst c := set_b_write None b]> (buf_of c) -> filter_of x = filter_of c -> io_flags (cx_io x) = io_flags (cx_io c) ->
  Good Q sent hv acc (put_buf (<[dst c := set_b_write (Some wb') b]> (buf_of c)) c2).
Proof.
  intros [[Hs Hlen] [H01 H12] _ _ Hsc] Hb [[Ki Kc Km _] Hb2 Hf2 (E0 & E1 & E2) E11 Et Ed] [Ki' Kc' Km' _] Hbx Hfx Hflx.
  assert (forall k, hasf k x = hasf k c) as Hk by (intros k; unfold hasf; by rewrite Hflx). rewrite !Hk in *.
  set (c3 := put_buf _ c2). assert (forall k, hasf k c3 = hasf k c2) as Hk3 by done.
  split; [|by left; left]. split; [|by left]. split; rewrite ?Hk3.
  - split; [apply stack_ok_insert; [done|by eexists]|]. intros ls Hf. cbn. rewrite length_insert. apply Hlen.
    by rewrite <- Hfx, <- Hf2.
  - split; intros _; auto.
  - done.
  - done.
  - rewrite E11. intros H11. destruct (Hsc H11) as (m & Hm & Hin & Hr). exists m. cbn. rewrite Km, Km', Ki, Ki'. done.
Qed.
End buffer.
