(* ===== verification/Polling.v ===== *)
(** * [net::polling]: the poll based driver of a stream

    Models geario/src/net/polling/stream.rs and the task of io.rs, for one
    stream of the reactor: its slot of the slab, the queue of what is done
    when the slab is free again, and what the poller was asked to report.
    The socket is an interface: what a system call returns.  [syscall!] turns
    [EWOULDBLOCK] into [Pending] and repeats interrupted calls. *)
From Stdlib Require Import ZArith Lia String.
From stdpp Require Import base numbers list.
From S2P Require Import Prelude Deps Task IoConfig IoFlags IoBuf IoTimers IoState IoRef.

Definition MAX_WRITE_SIZE : Z := 64 * 1024.
Definition MAX_WRITE_ITEMS : Z := 16.

Definition RD : Z := 2 ^ 0.
Definition WR : Z := 2 ^ 1.
Definition ARM_RD : Z := 2 ^ 2.
Definition ARM_WR : Z := 2 ^ 3.
Definition DROPPED_PRI : Z := 2 ^ 4.
Definition DROPPED_SEC : Z := 2 ^ 5.

(** [write], [writev] and [read] on a non-blocking socket.  [so_sent] is what
    the socket has taken so far. *)
Class Socket (S : Type) := {
  so_write : list byte -> S -> Poll (result Z) * S;
  so_read : S -> Poll (result (list byte)) * S;
  so_sent : S -> list byte;
}.
(** A write takes a prefix of what it is offered, or nothing. *)
Class SocketLaws (S : Type) `{Socket S} : Prop := {
  so_write_ok (bs : list byte) s n s' : so_write bs s = (Ready (inl n), s') -> 0 <= n <= zlen bs /\ so_sent s' = so_sent s ++ ztake n bs;
  so_write_err (bs : list byte) s r s' : so_write bs s = (r, s') -> (forall n, r <> Ready (inl n)) -> so_sent s' = so_sent s;
  so_read_sent s : so_sent (so_read s).2 = so_sent s;
}.

(** The pages [BytePages::take] hands out one by one; [PagesRefine.v] shows
    that they make up the content.  The law that none is empty leaves out one
    case: [take] can hand out a current page to which nothing was written. *)
Class PageSplit := pages_of : list byte -> list (list byte).
Class PageSplitLaws `{PageSplit} : Prop := {
  pages_concat bs : concat (pages_of bs) = bs;
  pages_filled bs p : p ∈ pages_of bs -> p <> [];
}.

Inductive IdType := DelayedStream | DelayedWeak | DelayedWrite.

#[export] Instance id_type_eq_dec : EqDecision IdType.
Proof. solve_decision. Defined.

Section stream.
Context {G : Type} {S : Type}.

Record StreamItem := mkStreamItem {
  si_io : S;
  si_flags : G;
}.

(** The slab is present unless it is in use; the slot is empty once the
    stream is removed.  [pd_interest] is what the poller reports on, when the
    descriptor is attached; [pd_closes] counts the calls of [close]. *)
Record PollDrv := mkPollDrv {
  pd_streams : bool;
  pd_item : option StreamItem;
  pd_delayed_feed : list IdType;
  pd_interest : option (bool * bool);
  pd_closes : nat;
  pd_modified : bool;
}.
End stream.
Arguments StreamItem G S : clear implicits.
Arguments PollDrv G S : clear implicits.

Section fields.
Context {G : Type} {S : Type}.
Definition set_si_flags (f : G) (i : StreamItem G S) : StreamItem G S := mkStreamItem (si_io i) f.
Definition set_si_io (s : S) (i : StreamItem G S) : StreamItem G S := mkStreamItem s (si_flags i).
Definition set_pd_streams (b : bool) (d : PollDrv G S) : PollDrv G S :=
  mkPollDrv b (pd_item d) (pd_delayed_feed d) (pd_interest d) (pd_closes d) (pd_modified d).
Definition set_pd_item (i : option (StreamItem G S)) (d : PollDrv G S) : PollDrv G S :=
  mkPollDrv (pd_streams d) i (pd_delayed_feed d) (pd_interest d) (pd_closes d) (pd_modified d).
Definition set_pd_delayed (q : list IdType) (d : PollDrv G S) : PollDrv G S :=
  mkPollDrv (pd_streams d) (pd_item d) q (pd_interest d) (pd_closes d) (pd_modified d).
Definition set_pd_interest (i : option (bool * bool)) (d : PollDrv G S) : PollDrv G S :=
  mkPollDrv (pd_streams d) (pd_item d) (pd_delayed_feed d) i (pd_closes d) (pd_modified d).
Definition set_pd_closes (n : nat) (d : PollDrv G S) : PollDrv G S :=
  mkPollDrv (pd_streams d) (pd_item d) (pd_delayed_feed d) (pd_interest d) n (pd_modified d).
Definition set_pd_modified (b : bool) (d : PollDrv G S) : PollDrv G S :=
  mkPollDrv (pd_streams d) (pd_item d) (pd_delayed_feed d) (pd_interest d) (pd_closes d) b.
Definition push_delayed (i : IdType) (d : PollDrv G S) : PollDrv G S := set_pd_delayed (pd_delayed_feed d ++ [i]) d.
End fields.

(** ** Writing pages *)

(** The [while] loop of [StreamItem::write]: the pages it takes, given how
    many it has and their size, and the ones it leaves. *)
Fixpoint take_pages (num size : Z) (pages : list (list byte)) : list (list byte) * list (list byte) :=
  match pages with
  | [] => ([], [])
  | page :: pages =>
      let size := size + zlen page in
      let num := num + 1 in
      if (num =? MAX_WRITE_ITEMS) || (MAX_WRITE_SIZE <=? size) then ([page], pages)
      else let '(taken, rest) := take_pages num size pages in (page :: taken, rest)
  end.

(** The loop that removes written bytes. *)
Fixpoint advance_pages (written : Z) (pages : list (list byte)) : list (list byte) :=
  match pages with
  | [] => []
  | page :: pages =>
      let len := Z.min (zlen page) written in
      let page := zdrop len page in
      let written := written - len in
      if written =? 0 then page :: pages else page :: advance_pages written pages
  end.

Section polling.
Context {F : Type} `{!Bitflags F} {L : Type} `{!FilterLayer L} {G : Type} `{!Bitflags G} {S : Type} `{!Socket S} `{!PageSplit}.

Abbreviation Drv := (PollDrv G S) (only parsing).

Definition gcontains (n : Z) (g : G) : bool := fl_contains g (fl_of n).
Definition ginsert (n : Z) (g : G) : G := fl_insert g (fl_of n).
Definition gremove (n : Z) (g : G) : G := fl_remove g (fl_of n).

(** ** Dropping *)

(** [StreamOpsInner::drop_weak_stream]; the close of the descriptor is
    spawned. *)
Definition drop_weak_stream (d : Drv) : outcome Drv :=
  match pd_item d with
  | None => Fault Panic
  | Some item =>
      if gcontains DROPPED_PRI (si_flags item) then Done (set_pd_closes (Datatypes.S (pd_closes d)) (set_pd_item None d))
      else Done (set_pd_item (Some (set_si_flags (ginsert DROPPED_SEC (si_flags item)) item)) d)
  end.

(** [Drop] of [WeakStreamCtl], which [HandleWrapper] holds. *)
Definition weak_drop (d : Drv) : outcome Drv :=
  if pd_streams d then drop_weak_stream d else Done (push_delayed DelayedWeak d).
#[export] Instance polling_drop : HandleDrop Drv := weak_drop.

Abbreviation IO A := (M (Cx F L Drv) A) (only parsing).

Definition get_drv {A} (g : Drv -> A) : IO A := getsS (fun c => g (cx_drv c)).
Definition mod_drv (g : Drv -> Drv) : IO () := modifyS (fun c => set_drv (g (cx_drv c)) c).
Definition upd_item (g : StreamItem G S -> StreamItem G S) : IO () :=
  mod_drv (fun d => set_pd_item (g <$> pd_item d) d).

(** [streams[id]]. *)
Definition item : IO (StreamItem G S) :=
  i ← get_drv pd_item; match i with Some i => mret i | None => failS Panic end.

(** A system call on the socket of the stream. *)
Definition syscall {A} (f : S -> A * S) : IO A :=
  i ← item;
  let '(a, s) := f (si_io i) in
  upd_item (set_si_io s);; mret a.

(** ** [StreamItem] *)

Definition item_write : IO IoTaskStatus :=
  res ← ctx_with_write_buf (fun wrt =>
    let '(pages, rest) := take_pages 0 0 (pages_of wrt) in
    match pages with
    | [] => mret (inl false, wrt)
    | _ =>
        res ← syscall (so_write (concat pages));
        match res with
        | Ready (inr e) => mret (inr e, concat rest)
        | Ready (inl n) =>
            (if n =? 0 then ctx_stop None else mret tt);;
            mret (inl (0 <? n), concat (advance_pages n pages) ++ concat rest)
        | Pending => mret (inl false, concat pages ++ concat rest)
        end
    end);
  ctx_update_write_status res.

Definition item_write_bufs (bufs : list (list byte)) : IO (result Z) :=
  let bufs := take 16 bufs in
  match bufs with
  | [] => mret (inl 0)
  | _ =>
      res ← syscall (so_write (concat bufs));
      match res with
      | Ready (inr e) => mret (inr e)
      | Ready (inl n) => if n =? 0 then ctx_stop None;; mret (inr (mkIoError WriteZero "write zero")) else mret (inl n)
      | Pending => mret (inl 0)
      end
  end.

(** [StreamItem::arm]: the poller is asked only for a change. *)
Definition arm (readable writable : bool) : IO () :=
  i ← item;
  let armed := Z.lor (if readable then ARM_RD else 0) (if writable then ARM_WR else 0) in
  if Z.land (fl_bits (si_flags i)) (Z.lor ARM_RD ARM_WR) =? armed then mret tt
  else
    upd_item (fun i => set_si_flags (fl_insert (gremove (Z.lor ARM_RD ARM_WR) (si_flags i)) (fl_of armed)) i);;
    mod_drv (set_pd_interest (Some (readable, writable))).

(** ** [StreamOpsInner] *)

(** [with]: the slab is taken, and put back. *)
Definition streams_with {A} (f : IO A) : IO A :=
  s ← get_drv pd_streams;
  if negb s then failS Panic
  else mod_drv (set_pd_streams false);; r ← f; mod_drv (set_pd_streams true);; mret r.

Definition write_stream : IO () :=
  s ← get_drv pd_streams;
  if (s : bool) then
    mod_drv (set_pd_streams false);;
    i ← get_drv pd_item;
    (match i with Some _ => item_write;; mret tt | None => mret tt end);;
    mod_drv (set_pd_streams true)
  else mod_drv (push_delayed DelayedWrite).

Definition weak_write_bufs (bufs : list (list byte)) : IO (option (result Z)) :=
  s ← get_drv pd_streams;
  if (s : bool) then
    mod_drv (set_pd_streams false);;
    i ← get_drv pd_item;
    stopped ← ctx_is_stopped;
    res ← (match i with
           | Some _ => if (stopped : bool) then mret None else r ← item_write_bufs bufs; mret (Some r)
           | None => mret None
           end);
    mod_drv (set_pd_streams true);;
    mret res
  else mret None.

#[export] Instance polling_handle : Handle F L Drv := {
  hd_write := write_stream;
  hd_write_bufs := weak_write_bufs;
  hd_notify := ctx_notify;
}.

Definition item_read : IO IoTaskStatus :=
  buf ← ctx_get_read_buf;
  result ← syscall so_read;
  '(buf, st) ← (match result with
                | Ready (inl []) => ctx_stop None;; mret (buf, inl 0)
                | Ready (inl bs) => mret (buf ++ bs, inl (zlen bs))
                | Ready (inr err) => mret (buf, inr err)
                | Pending => mret (buf, inl 0)
                end);
  ctx_update_read_status buf st.

Definition drop_stream : IO () :=
  i ← item;
  stopped ← ctx_is_stopped;
  (if (stopped : bool) then mret tt else ctx_stop None);;
  mod_drv (set_pd_interest None);;
  i ← item;
  if gcontains DROPPED_SEC (si_flags i) then mod_drv (fun d => set_pd_closes (Datatypes.S (pd_closes d)) (set_pd_item None d))
  else upd_item (fun i => set_si_flags (ginsert DROPPED_PRI (si_flags i)) i).

(** [Drop] of [StreamCtl]. *)
Definition stream_ctl_drop : IO () :=
  s ← get_drv pd_streams;
  if (s : bool) then mod_drv (set_pd_streams false);; drop_stream;; mod_drv (set_pd_streams true)
  else mod_drv (push_delayed DelayedStream).

(** The loop of [check_delayed_feed]; it ends when the queue is empty. *)
Definition delayed_one (id : IdType) : IO () :=
  match id with
  | DelayedStream => drop_stream
  | DelayedWeak => c ← getS; d ← liftS (drop_weak_stream (cx_drv c)); modifyS (set_drv d)
  | DelayedWrite =>
      i ← get_drv pd_item;
      stopped ← ctx_is_stopped;
      match i with
      | Some _ => if (stopped : bool) then mret tt else item_write;; mret tt
      | None => mret tt
      end
  end.
Fixpoint delayed_loop (fuel : nat) : IO () :=
  match fuel with
  | O => failS Diverges
  | Datatypes.S fuel =>
      q ← get_drv pd_delayed_feed;
      match q with
      | [] => mret tt
      | id :: q =>
          mod_drv (set_pd_delayed q);;
          delayed_one id;;
          delayed_loop fuel
      end
  end.

Definition check_delayed_feed (fuel : nat) : IO () :=
  q ← get_drv pd_delayed_feed;
  s ← get_drv pd_streams;
  match q with
  | [] => mret tt
  | _ => if (s : bool) then mod_drv (set_pd_streams false);; delayed_loop fuel;; mod_drv (set_pd_streams true) else mret tt
  end.

Definition set_rd (b : bool) : IO () :=
  upd_item (fun i => set_si_flags (if b then ginsert RD (si_flags i) else gremove RD (si_flags i)) i).
Definition set_wr (b : bool) : IO () :=
  upd_item (fun i => set_si_flags (if b then ginsert WR (si_flags i) else gremove WR (si_flags i)) i).
Definition status_is_io (s : IoTaskStatus) : bool := match s with StatusIo => true | _ => false end.

(** [Handler::event]. *)
Definition event (readable writable interrupt : bool) : IO () :=
  streams_with (
    i ← get_drv pd_item;
    match i with
    | None => mret tt
    | Some _ =>
        rd ← (if readable then st ← item_read; set_rd (status_is_io st);; mret (status_is_io st)
              else i ← item; mret (gcontains RD (si_flags i)));
        wr ← (if writable then st ← item_write; set_wr (status_is_io st);; mret (status_is_io st)
              else i ← item; mret (gcontains WR (si_flags i)));
        if interrupt then ctx_stop None else arm rd wr
    end).

Definition event_error (err : IoError) : IO () :=
  streams_with (
    i ← get_drv pd_item;
    match i with
    | None => mret tt
    | Some _ => stopped ← ctx_is_stopped; if (stopped : bool) then mret tt else ctx_stop (Some err)
    end).

(** [StreamOpsInner::interest]; the pair is the interest, and whether it has
    to be announced. *)
Definition interest_read (rd : bool) : IO (bool * bool) :=
  i ← item;
  let on := gcontains RD (si_flags i) in
  if rd then
    if on then mret (true, false)
    else
      st ← item_read;
      if status_is_io st then set_rd true;; mret (true, true) else mret (false, false)
  else if on then set_rd false;; mret (false, true)
  else mret (false, false).
Definition interest_write (wr : bool) : IO (bool * bool) :=
  i ← item;
  let on := gcontains WR (si_flags i) in
  if wr then
    if on then mret (true, false)
    else
      st ← item_write;
      if status_is_io st then set_wr true;; mret (true, true) else mret (false, false)
  else if on then set_wr false;; mret (false, true)
  else mret (false, false).
Definition interest (rd wr : bool) : IO () :=
  streams_with (
    '(readable, want_read) ← interest_read rd;
    '(writable, want_write) ← interest_write wr;
    if (want_read : bool) || (want_write : bool) then arm readable writable else mret tt).

(** ** The reactor's turn, for this stream *)

(** An event that was reported marks the handler; its [tick] runs only then. *)
Definition reactor_event (readable writable interrupt : bool) : IO () :=
  mod_drv (set_pd_modified true);; event readable writable interrupt.
Definition reactor_tick (fuel : nat) : IO () :=
  m ← get_drv pd_modified;
  if (m : bool) then mod_drv (set_pd_modified false);; check_delayed_feed fuel else mret tt.

(** ** The task of the stream *)

Inductive RunStatus := RunShutdown | RunTerminate.

(** One poll of the first future of [run]. *)
Definition run_poll (now : Z) (w : waker) : IO (Poll RunStatus) :=
  r ← ctx_poll_read_ready now w;
  let '(modify_r, readable, read_ready) := match r with
    | Ready RdyReady => (true, true, false)
    | Ready _ => (false, false, true)
    | Pending => (true, false, false)
    end in
  r ← ctx_poll_write_ready w;
  let '(modify_w, writable, write) := match r with
    | Ready RdyReady => (true, true, Pending)
    | Ready RdyShutdown => (false, false, Ready RunShutdown)
    | Ready RdyTerminate => (false, false, Ready RunTerminate)
    | Pending => (true, false, Pending)
    end in
  (if modify_r || modify_w then interest readable writable else mret tt);;
  mret (if negb read_ready && negb (poll_is_ready write) then Pending
        else if poll_is_ready write then write else Ready RunTerminate).

(** One poll of the second future, for [flush]. *)
Definition run_flush_poll (flush : bool) (w : waker) : IO (Poll ()) := interest true true;; ctx_shutdown flush w.

(** The end of [run], with the result of the shutdown of the socket; the
    control of the stream is moved into [StreamCtl::shutdown], and dropped when
    that returns. *)
Definition run_finish (result : option IoError) : IO () :=
  stream_ctl_drop;;
  stopped ← ctx_is_stopped;
  if (stopped : bool) then mret tt else ctx_stop result.
End polling.

(** [StreamOps::register]. *)
Definition stream_register {G S : Type} `{!Bitflags G} (io : S) : PollDrv G S :=
  mkPollDrv true (Some (mkStreamItem io fl_empty)) [] (Some (false, false)) 0 false.
