(* ===== verification/PollingSpec.v ===== *)
(** * The poll based driver keeps its contract

    [StreamItem::write] hands the socket a prefix of the buffered output and
    keeps the rest, so that [Polling.v] meets the contract of [IoKeeps.v],
    while the slab is in use and while it is not. *)
From Stdlib Require Import ZArith Lia.
From stdpp Require Import base numbers list sets.
From S2P Require Import Prelude Deps Task IoConfig IoFlags IoBuf IoChain IoTimers IoState IoInv IoRef IoKeeps IoOutput Polling.

(** ** Pages *)

Lemma take_pages_concat num size pages :
  concat (take_pages num size pages).1 ++ concat (take_pages num size pages).2 = concat pages.
Proof.
  revert num size. induction pages as [|page pages IH]; intros num size; [done|]. cbn.
  destruct (_ || _); cbn; [by rewrite app_nil_r|].
  specialize (IH (num + 1) (size + zlen page)). destruct (take_pages _ _ pages) as [t r]. cbn in *. by rewrite <- app_assoc, IH.
Qed.

Lemma take_pages_nil num size pages : (take_pages num size pages).1 = [] -> pages = [].
Proof.
  destruct pages as [|page pages]; [done|]. cbn. destruct (_ || _); [done|]. by destruct (take_pages _ _ pages).
Qed.

Lemma advance_pages_concat n pages : 0 <= n <= zlen (concat pages) -> concat (advance_pages n pages) = zdrop n (concat pages).
Proof.
  revert n. induction pages as [|page pages IH]; intros n Hn; cbn in *; [by unfold zdrop; rewrite drop_nil|].
  rewrite zlen_app in Hn. zlen_pos. destruct (Z.eqb_spec (n - Z.min (zlen page) n) 0) as [He|Hne]; cbn.
  - rewrite zdrop_app_le by lia. by replace (Z.min (zlen page) n) with n by lia.
  - rewrite IH by lia. replace (Z.min (zlen page) n) with (zlen page) by lia.
    rewrite (zdrop_all (zlen page) page) by lia. cbn. rewrite zdrop_app_ge by lia. done.
Qed.

Section spec.
Context {F : Type} `{!Bitflags F} `{!BitflagsLaws F} {L : Type} `{!FilterLayer L} `{!FilterLayerLaws L}.
Context {G : Type} `{!Bitflags G} `{!BitflagsLaws G} {S : Type} `{!Socket S} `{!SocketLaws S} `{!PageSplit} `{!PageSplitLaws} `{!Waive (PollDrv G S)}.

Abbreviation Drv := (PollDrv G S) (only parsing).
Implicit Types (c : Cx F L Drv) (acc : list byte) (d : Drv).

Definition poll_sent d : list byte := match pd_item d with Some i => so_sent (si_io i) | None => [] end.

(** ** The two owners of the descriptor

    The task of the stream and its handle own the descriptor together.  Each
    is alive, or its drop is queued, or was recorded in the item; when both
    were, the item is removed and the descriptor closed. *)
Definition queued (t : IdType) d : nat := length (filter (fun x => x = t) (pd_delayed_feed d)).
Definition dropped (n : Z) d : bool := match pd_item d with Some i => has n (si_flags i) | None => true end.
Definition one (b : bool) : nat := if b then 1 else 0.

Record owners (ctl alive : bool) d : Prop := {
  ow_task : (one ctl + queued DelayedStream d + one (dropped 4 d) = 1)%nat;
  ow_handle : (one alive + queued DelayedWeak d + one (dropped 5 d) = 1)%nat;
  ow_closed : pd_closes d = one (match pd_item d with None => true | Some _ => false end);
  ow_removed : is_Some (pd_item d) -> dropped 4 d && dropped 5 d = false;
}.

Lemma owners_item ctl alive d : owners ctl alive d -> ctl = true \/ alive = true -> is_Some (pd_item d).
Proof.
  intros [Ht Hh _ _] Ha. unfold dropped in *. destruct (pd_item d); [by eexists|]. destruct Ha as [-> | ->]; cbn in *; lia.
Qed.

Lemma queued_zero t d : queued t d = 0%nat <-> t ∉ pd_delayed_feed d.
Proof.
  unfold queued. split.
  - intros Hq%length_zero_iff_nil Hin. apply not_elem_of_nil with t. rewrite <- Hq. by apply list_elem_of_filter.
  - intros Hni. destruct (filter _ _) as [|x q] eqn:Hq; [done|]. destruct Hni.
    assert (x ∈ filter (fun x => x = t) (pd_delayed_feed d)) as [-> ?]%list_elem_of_filter by (rewrite Hq; by left). done.
Qed.

Lemma owners_closed ctl alive d :
  owners ctl alive d -> pd_closes d = 1%nat <->
  ctl = false /\ alive = false /\ queued DelayedStream d = 0%nat /\ queued DelayedWeak d = 0%nat.
Proof.
  intros [Ht Hh Hc Hr]. unfold dropped in *. destruct (pd_item d) as [i|]; cbn in Hc.
  - split; [lia|]. intros (-> & -> & Hq & Hw). destruct (has 4 _), (has 5 _); cbn in *; try lia. by discriminate Hr.
  - split; [|done]. intros _. destruct ctl, alive; cbn in *; lia.
Qed.

(** The same item, up to flags that do not matter here, and the same queue. *)
Lemma owners_same ctl alive d d' :
  queued DelayedStream d' = queued DelayedStream d -> queued DelayedWeak d' = queued DelayedWeak d ->
  dropped 4 d' = dropped 4 d -> dropped 5 d' = dropped 5 d ->
  pd_closes d' = pd_closes d -> (is_Some (pd_item d') <-> is_Some (pd_item d)) -> owners ctl alive d -> owners ctl alive d'.
Proof.
  intros Hs Hw H4 H5 Hc Hi [? ? Hcl ?]. split; rewrite ?Hs, ?Hw, ?H4, ?H5, ?Hc; try done; [|tauto].
  rewrite Hcl. destruct (pd_item d), (pd_item d'); try done; exfalso; [destruct Hi as [_ Hi]; destruct Hi; [by eexists|done]|].
  destruct Hi as [Hi _]; destruct Hi; [by eexists|done].
Qed.

(** ** Writing

    For any condition on the driver that a write to the socket keeps. *)
Section writing.
Context (Qx : bool -> Drv -> Prop) `{!DropLaws Qx}.
Hypothesis Qx_item : forall a d, Qx a d -> is_Some (pd_item d).
Hypothesis Qx_io : forall a d i s, Qx a d -> pd_item d = Some i -> Qx a (set_pd_item (Some (set_si_io s i)) d).

Abbreviation GoodX := (Good Qx poll_sent).

(** ** A change of the output of the driver and of what it took *)

Lemma set_dst_good hv acc c b wb wb' d' :
  GoodX hv acc c -> buf_of c !! dst c = Some b -> b_write b = Some wb ->
  (forall a, Qx a (cx_drv c) -> Qx a d') -> poll_sent d' ++ wb' = poll_sent (cx_drv c) ++ wb -> (wb = [] -> wb' = []) ->
  GoodX hv acc (put_buf (<[dst c := set_b_write (Some wb') b]> (buf_of c)) (set_drv d' c)).
Proof.
  intros [[[[Hs Hlen] Hfl Ht Hd Hsc] Hl] Hsv] Hb Hw Hd' Hst Hnil. pose proof (lookup_lt_Some _ _ _ Hb) as Hlt.
  assert (wcontent (buf_of c) (dst c) = wb) as Hwb by (unfold wcontent; by rewrite Hb, Hw).
  split; [split; [split|]|]; try done.
  - split; [apply stack_ok_insert; [done|by eexists]|]. intros ls Hf. cbn. rewrite length_insert. by apply Hlen.
  - by apply Hd'.
  - destruct Hl as [|[Hh Hst0]]; [by left|right]. split; [done|]. cbn. intros Hf. specialize (Hst0 Hf).
    assert (dst c = 0%nat) as Hd0 by (unfold dst; by rewrite (Hlen [] Hf)). rewrite Hd0 in *. rewrite wcontent_insert by done.
    rewrite decide_True by done. cbn. rewrite Hst, <- Hst0. by rewrite <- Hwb.
  - destruct Hsv as [|Hsv]; [by left|right]. intros H9. destruct (Hsv H9) as [Hz0|]; [left|by right].
    rewrite <- Hz0. cbn. apply out_size_ext; [by rewrite length_insert|]. intros i. rewrite wcontent_insert by done.
    case_decide as Hi; [|done]. subst i. cbn. apply out_size_last in Hz0. fold (dst c) in Hz0. rewrite Hz0. apply Hnil. congruence.
Qed.

(** A system call on the socket, while the slab is in use. *)
Lemma syscall_spec {A} (f : S -> A * S) c i (P : A -> Cx F L Drv -> Prop) :
  pd_item (cx_drv c) = Some i -> P (f (si_io i)).1 (set_drv (set_pd_item (Some (set_si_io (f (si_io i)).2 i)) (cx_drv c)) c) ->
  runs (syscall f) c P.
Proof.
  intros Hi HP. unfold syscall, item. apply runs_bind, runs_bind, runs_gets. rewrite Hi. apply runs_ret.
  destruct (f (si_io i)) as [a s]. apply runs_bind, runs_modify, runs_ret. by rewrite Hi.
Qed.

Lemma pages_nil bs : pages_of bs = [] -> bs = [].
Proof. intros He. by rewrite <- (pages_concat bs), He. Qed.
Lemma pages_of_nil : pages_of [] = [].
Proof.
  destruct (pages_of []) as [|p ps] eqn:He; [done|]. assert (concat (p :: ps) = []) as Hc by (rewrite <- He; apply pages_concat).
  cbn in Hc. apply app_eq_nil in Hc as [-> _]. by destruct (pages_filled [] []); [rewrite He; left|].
Qed.

(** What one round of writing leaves: the invariant, except that a failure of
    the socket has lost the pages it was offered. *)
Definition wrote hv acc (r : result bool) c : Prop :=
  match r with inl _ => GoodX hv acc c | inr _ => Wf Qx hv c end.

Lemma item_write_spec hv acc c : GoodX hv acc c -> runs item_write c (fun _ c' => GoodX hv acc c' /\ kept c c').
Proof.
  intros HG. unfold item_write. apply runs_bind.
  apply (runs_conseq _ _ (fun r c' => wrote hv acc r c' /\ kept c c')).
  2:{ intros [b|e] c1 [H1 K1]; [eapply runs_conseq; [by apply (update_write_status_ok Qx poll_sent hv acc)|]
        |eapply runs_conseq; [by apply (update_write_status_err Qx poll_sent hv acc)|]]; intros r c2 [? ?]; (split; [done|by etrans]). }
  unfold ctx_with_write_buf. apply runs_bind. eapply runs_conseq; [by apply (process_write_buf_good Qx poll_sent)|].
  intros r c0 (HG0 & [K0 _ _ _] & _). apply runs_bind.
  apply (runs_conseq _ _ (fun _ c1 => GoodX hv acc c1 /\ kept c c1)).
  { destruct r; [by apply runs_ret|]. eapply runs_conseq; [apply (terminate_spec Qx poll_sent hv acc), HG0|].
    intros [] c1 (? & ? & _). split; [done|by etrans]. }
  clear r c0 HG0 K0. intros [] c1 [HG1 K1]. pose proof HG1 as [[HW Hl] Hsv]. pose proof HW as [[Hs Hlen] Hfl Ht HB Hsc].
  destruct (Qx_item _ _ HB) as [i Hi]. destruct (stack_lookup (buf_of c1) (dst c1) Hs) as (b & wb & Hb & Hw & Hwc); [unfold dst; destruct Hs; lia|].
  eapply with_write_dst_spec; [by split|done|done|]. set (cx := put_buf _ c1).
  destruct (take_pages 0 0 (pages_of wb)) as [pages rest] eqn:Htp.
  pose proof (take_pages_concat 0 0 (pages_of wb)) as Hcat. rewrite Htp, pages_concat in Hcat. cbn [fst snd] in Hcat.
  destruct pages as [|p ps].
  { assert (wb = []) as Hwb by (apply pages_nil, (take_pages_nil 0 0); by rewrite Htp).
    apply runs_ret. split; [done|]. cbn [fst snd].
    replace (put_buf _ cx) with c1; [by split|]. unfold cx. symmetry. transitivity (put_buf (buf_of c1) c1); [|apply put_same].
    unfold put_buf, upd_io, set_buffer. cbn. do 2 f_equal. apply list_insert_id. rewrite Hb. f_equal. destruct b; cbn in *. by rewrite Hw. }
  set (pages := p :: ps) in *. apply runs_bind. apply (syscall_spec _ _ i); [done|].
  destruct (so_write (concat pages) (si_io i)) as [res s'] eqn:Hwr. cbn [fst snd].
  set (d' := set_pd_item _ _). assert (forall a, Qx a (cx_drv c1) -> Qx a d') as Hd' by (intros; by apply Qx_io).
  assert (poll_sent (cx_drv c1) = so_sent (si_io i)) as Hsent by (unfold poll_sent; by rewrite Hi).
  assert (wb <> []) as Hne.
  { intros ->. pose proof pages_of_nil as Hn. rewrite Hn in Htp. discriminate. }
  destruct res as [|[n|e]].
  - assert (so_sent s' = so_sent (si_io i)) as Hss by (eapply so_write_err; [done|by intros ? [=]]).
    apply runs_ret. split; [done|]. cbn [fst snd]. split; [|etrans; [exact K1|by apply kept_flags]].
    apply (set_dst_good hv acc c1 b wb); [done..| |done]. rewrite Hsent. unfold poll_sent. cbn. by rewrite Hss, <- Hcat.
  - destruct (so_write_ok _ _ _ _ Hwr) as [Hn Hss].
    assert (poll_sent d' ++ concat (advance_pages n pages) ++ concat rest = poll_sent (cx_drv c1) ++ wb) as Hstream.
    { rewrite Hsent, advance_pages_concat by done. change (poll_sent d') with (so_sent s'). rewrite Hss, <- Hcat, <- !app_assoc.
      f_equal. by rewrite app_assoc, ztake_zdrop. }
    apply runs_bind. destruct (Z.eqb_spec n 0) as [->|Hn0].
    + unfold ctx_stop. eapply runs_conseq; [apply (terminate_raw Qx hv None); [done|by apply Hd']|].
      intros [] c2 He. apply runs_ret. split; [by rewrite (en_buf _ _ _ _ He)|]. cbn [fst snd]. split.
      * eapply (dst_ended Qx Qx poll_sent hv acc c1 b); try done. by apply kept_flags.
      * etrans; [exact K1|]. transitivity (set_drv d' cx); [by apply kept_flags|]. etrans; [apply He|by apply kept_flags].
    + apply runs_ret, runs_ret. split; [done|]. cbn [fst snd]. split; [|etrans; [exact K1|by apply kept_flags]].
      by apply (set_dst_good hv acc c1 b wb).
  - apply runs_ret. split; [done|]. cbn [fst snd]. split; [|etrans; [exact K1|by apply kept_flags]].
    split; try done; [|by apply Hd'].
    split; [apply stack_ok_insert; [done|by eexists]|]. intros ls Hf. cbn. rewrite length_insert. by apply Hlen.
Qed.

End writing.

Variable ctl : bool.

(** The driver while the slab is in use, and while it is not. *)
Definition busy (alive : bool) d : Prop := pd_streams d = false /\ is_Some (pd_item d) /\ owners ctl alive d.
Definition free (alive : bool) d : Prop := pd_streams d = true /\ owners ctl alive d.

Definition same_id (x t : IdType) : bool :=
  match x, t with DelayedStream, DelayedStream | DelayedWeak, DelayedWeak | DelayedWrite, DelayedWrite => true | _, _ => false end.
Lemma queued_push t x d : queued t (push_delayed x d) = (queued t d + one (same_id x t))%nat.
Proof.
  unfold queued, push_delayed, same_id. cbn [pd_delayed_feed set_pd_delayed]. rewrite filter_app, length_app, filter_cons, filter_nil.
  by destruct (decide (x = t)), x, t.
Qed.
Lemma queued_pop t x q d :
  pd_delayed_feed d = x :: q -> queued t d = (one (same_id x t) + queued t (set_pd_delayed q d))%nat.
Proof. intros Hq. unfold queued, same_id. rewrite Hq, filter_cons. by destruct (decide (x = t)), x, t. Qed.

Lemma busy_drop_spec d : owners ctl true d -> owners ctl false (push_delayed DelayedWeak d).
Proof.
  intros [Ht Hh Hc Hr]. assert (forall k, dropped k (push_delayed DelayedWeak d) = dropped k d) as Hd by done.
  split; rewrite ?queued_push, ?Hd; cbn in *; try done; lia.
Qed.

Lemma has_ginsert n k (g : G) : 0 <= n -> has k (ginsert n g) = has k g || Z.testbit n k.
Proof. intros. unfold has, ginsert. by rewrite fl_bits_insert, fl_bits_of, Z.lor_spec. Qed.
Lemma has_gremove n k (g : G) : 0 <= n -> has k (gremove n g) = has k g && negb (Z.testbit n k).
Proof. intros. unfold has, gremove. by rewrite fl_bits_remove, fl_bits_of, Z.ldiff_spec. Qed.
Lemma gcontains_has k (g : G) : 0 <= k -> gcontains (2 ^ k) g = has k g.
Proof. intros. by apply contains_bit. Qed.

(** [drop_weak_stream], of a handle that was not dropped before. *)
Lemma drop_weak_stream_spec d : owners ctl true d -> exists d', drop_weak_stream d = Done d' /\ owners ctl false d' /\
  pd_streams d' = pd_streams d /\ pd_delayed_feed d' = pd_delayed_feed d.
Proof.
  intros Ho. destruct (owners_item _ _ _ Ho) as [i Hi]; [by right|]. destruct Ho as [Ht Hh Hc Hr].
  unfold drop_weak_stream. rewrite Hi, (gcontains_has 4) by done. unfold dropped in *. rewrite Hi in *.
  destruct (has 4 (si_flags i)) eqn:H4; (eexists; split; [done|]; split; [split|done]; unfold dropped; cbn -[queued has] in *);
    unfold queued in *; cbn -[has] in *; rewrite ?(has_ginsert DROPPED_SEC), ?H4 by done; cbn; try done; try lia.
  all: rewrite ?orb_true_r; cbn; lia.
Qed.

#[export] Instance busy_drop : DropLaws busy.
Proof.
  intros d (Hs & Hi & Ho). exists (push_delayed DelayedWeak d). unfold hd_drop, polling_drop, weak_drop. rewrite Hs.
  split; [done|]. split; [done|]. split; [done|]. by apply busy_drop_spec.
Qed.
#[export] Instance free_drop : DropLaws free.
Proof.
  intros d [Hs Ho]. unfold hd_drop, polling_drop, weak_drop. rewrite Hs.
  destruct (drop_weak_stream_spec d Ho) as (d' & Hd & Ho' & Hs' & _). exists d'. split; [done|]. split; [congruence|done].
Qed.

Abbreviation GoodB := (Good busy poll_sent).

(** Changes of the item that its owners do not see. *)
Lemma busy_item a d i i' :
  busy a d -> pd_item d = Some i -> has 4 (si_flags i') = has 4 (si_flags i) -> has 5 (si_flags i') = has 5 (si_flags i) ->
  busy a (set_pd_item (Some i') d).
Proof.
  intros (Hs & _ & Ho) Hi H4 H5. split; [done|]. split; [by eexists|].
  eapply owners_same; [..|exact Ho]; unfold dropped; cbn -[has]; rewrite ?Hi; done.
Qed.

Lemma item_write_busy hv acc c : GoodB hv acc c -> runs item_write c (fun _ c' => GoodB hv acc c' /\ kept c c').
Proof.
  apply (item_write_spec busy); [by intros a d (_ & ? & _)|]. intros a d i s Hb Hi. by eapply busy_item.
Qed.

(** ** The contract *)

(** A change of the driver's state that keeps what was sent. *)
Lemma drv_good (Q Q' : bool -> Drv -> Prop) hv acc c d' :
  Good Q poll_sent hv acc c -> (forall a, Q a (cx_drv c) -> Q' a d') -> poll_sent d' = poll_sent (cx_drv c) ->
  Good Q' poll_sent hv acc (set_drv d' c).
Proof.
  intros [[[Hs Hfl Ht Hd Hsc] Hl] Hsv] HQ Hst. split; [split; [split|]|]; try done.
  - by apply HQ.
  - destruct Hl as [|[Hh Hst0]]; [by left|right]. split; [done|]. cbn. by rewrite Hst.
Qed.

#[export] Instance polling_busy_laws : HandleLaws (F := F) (L := L) busy poll_sent.
Proof.
  split; [apply busy_drop|..].
  - intros acc c HG. pose proof HG as [[[_ _ _ (Hs & Hi & _) _] _] _]. cbn. unfold write_stream. apply runs_bind, runs_gets. rewrite Hs.
    apply runs_modify. split; [|by apply kept_flags]. eapply drv_good; [done| |done].
    intros a (? & ? & Ho). do 2 (split; [done|]). eapply owners_same; [..|exact Ho]; rewrite ?queued_push; cbn; done.
  - intros acc bufs c HG H2 Hf Ho. pose proof HG as [[[_ _ _ (Hs & Hi & _) _] _] _]. cbn. unfold weak_write_bufs.
    apply runs_bind, runs_gets. rewrite Hs. by apply runs_ret.
Qed.

(** A direct write, in a stream that has nothing buffered. *)
Lemma item_write_bufs_spec bufs acc c :
  GoodB false acc c -> hasf 0 c = false -> filter_of c = Some [] -> out_size (buf_of c) = 0 ->
  runs (item_write_bufs bufs) c (fun r c' => kept c c' /\
    match r with
    | inl n => 0 <= n <= zlen (concat bufs) /\ GoodB false (acc ++ ztake n (concat bufs)) c'
    | inr _ => GoodB false acc c'
    end).
Proof.
  intros HG Hrun Hf Ho. pose proof HG as [[HW Hl] Hsv]. pose proof HW as [[Hs Hlen] Hfl Ht HB Hsc].
  pose proof HB as (Hbz & [i Hi] & Hown). assert (zlen (concat (take 16 bufs)) <= zlen (concat bufs)) as Hle.
  { rewrite <- (take_drop 16 bufs) at 2. rewrite concat_app, zlen_app. zlen_pos. zlia. }
  unfold item_write_bufs. destruct (take 16 bufs) as [|p ps] eqn:Htk.
  { apply runs_ret. split; [done|]. split; [zlia|]. by rewrite ztake_le0, app_nil_r by lia. }
  apply runs_bind, (syscall_spec _ _ i); [done|]. set (ps' := p :: ps) in *.
  destruct (so_write (concat ps') (si_io i)) as [res s'] eqn:Hwr. cbn [fst snd]. set (d' := set_pd_item _ _).
  assert (forall a : bool, busy a (cx_drv c) -> busy a d') as Hd' by (intros; by eapply busy_item).
  destruct res as [|[n|e]].
  - assert (so_sent s' = so_sent (si_io i)) as Hss by (eapply so_write_err; [done|by intros ? [=]]).
    apply runs_ret. split; [by apply kept_flags|]. split; [zlia|]. rewrite ztake_le0, app_nil_r by lia.
    eapply drv_good; [done|done|]. unfold poll_sent. cbn. by rewrite Hi.
  - destruct (so_write_ok _ _ _ _ Hwr) as [Hn Hss]. destruct (Z.eqb_spec n 0) as [->|Hn0].
    + apply runs_bind. eapply runs_conseq; [apply (terminate_spec busy poll_sent false acc)|].
      { split; try done. by apply Hd'. }
      intros [] c2 (HG2 & K2 & _). apply runs_ret. split; [|done]. etrans; [|exact K2]. by apply kept_flags.
    + apply runs_ret. split; [by apply kept_flags|]. split; [lia|].
      assert (ztake n (concat bufs) = ztake n (concat ps')) as ->.
      { rewrite <- (take_drop 16 bufs), concat_app, Htk. apply ztake_app_le. lia. }
      destruct Hl as [|[Hh Hst]]; [congruence|]. split; [split; [split|]|]; try done; [by apply Hd'|].
      right. split; [done|]. intros _. specialize (Hst Hf).
      change (buf_of (set_drv d' c)) with (buf_of c). change (poll_sent (cx_drv (set_drv d' c))) with (so_sent s').
      rewrite (out_size_first _ Ho), app_nil_r in *. rewrite <- Hst. unfold poll_sent. by rewrite Hi.
  - assert (so_sent s' = so_sent (si_io i)) as Hss by (eapply so_write_err; [done|by intros ? [=]]).
    apply runs_ret. split; [by apply kept_flags|]. eapply drv_good; [done|done|]. unfold poll_sent. cbn. by rewrite Hi.
Qed.

(** The slab is taken, and given back. *)
Lemma take_slab hv acc c : Good free poll_sent hv acc c -> is_Some (pd_item (cx_drv c)) ->
  GoodB hv acc (set_drv (set_pd_streams false (cx_drv c)) c).
Proof.
  intros HG Hi. eapply (drv_good free); [done| |done]. intros a [_ Ho]. split; [done|]. split; [done|].
  by eapply owners_same; [..|exact Ho].
Qed.
Lemma give_slab hv acc c : GoodB hv acc c -> Good free poll_sent hv acc (set_drv (set_pd_streams true (cx_drv c)) c).
Proof.
  intros HG. eapply (drv_good busy); [done| |done]. intros a (_ & _ & Ho). split; [done|]. by eapply owners_same; [..|exact Ho].
Qed.

#[export] Instance polling_free_laws : HandleLaws (F := F) (L := L) free poll_sent.
Proof.
  split; [apply free_drop|..].
  - intros acc c HG. pose proof HG as [[[_ _ _ [Hs Ho] _] _] _].
    destruct (owners_item _ _ _ Ho) as [i Hit]; [by right|].
    cbn. unfold write_stream. apply runs_bind, runs_gets. rewrite Hs.
    apply runs_bind, runs_modify, runs_bind, runs_gets. cbn. rewrite Hit. apply runs_bind, runs_bind.
    eapply runs_conseq; [apply (item_write_busy false acc), take_slab; [done|by eexists]|]. intros st c2 [HG2 K2]. apply runs_ret, runs_modify.
    split; [by apply give_slab|]. transitivity c2; [|by apply kept_flags]. etrans; [|exact K2]. by apply kept_flags.
  - intros acc bufs c HG H2 Hf Ho. pose proof HG as [[[_ [H01 H12] _ [Hs Hown] _] _] _].
    destruct (owners_item _ _ _ Hown) as [i Hit]; [by right|].
    assert (hasf 1 c = false) as H1 by (destruct (hasf 1 c); [by rewrite H12 in H2|done]).
    assert (hasf 0 c = false) as Hz by (destruct (hasf 0 c); [by rewrite H01 in H1|done]).
    cbn. unfold weak_write_bufs. apply runs_bind, runs_gets. rewrite Hs.
    apply runs_bind, runs_modify, runs_bind, runs_gets. cbn. rewrite Hit. apply runs_bind, runs_flag. cbn [cx_io set_drv].
    rewrite is_closed_has. fold (hasf 1 c) (hasf 0 c). rewrite H1, Hz. cbn [orb]. apply runs_bind, runs_bind.
    eapply runs_conseq; [apply (item_write_bufs_spec bufs acc); [by apply take_slab; [|eexists]|done..]|].
    intros r c2 [K2 Hr]. apply runs_ret, runs_bind, runs_modify, runs_ret.
    assert (kept c (set_drv (set_pd_streams true (cx_drv c2)) c2)) as K.
    { transitivity c2; [|by apply kept_flags]. etrans; [|exact K2]. by apply kept_flags. }
    destruct r as [n|e]; [destruct Hr as [Hn HGn]; split; [done|]; split; [done|]; by apply give_slab|].
    split; [done|by apply give_slab].
Qed.
End spec.
