(* ===== verification/PollingSteps.v ===== *)
(** * The events of the poll based driver

    [Handler::event], the task of a stream, the queue of delayed work and the
    end of a stream, with respect to the invariant of [IoInv.v] and to the
    owners of the descriptor. *)
From Stdlib Require Import ZArith Lia.
From stdpp Require Import base numbers list sets.
From S2P Require Import Prelude Deps Task IoConfig IoFlags IoBuf IoChain IoTimers IoState IoInv IoRef IoKeeps IoOutput Polling PollingSpec.

Section steps.
Context {F : Type} `{!Bitflags F} `{!BitflagsLaws F} {L : Type} `{!FilterLayer L} `{!FilterLayerLaws L}.
Context {G : Type} `{!Bitflags G} `{!BitflagsLaws G} {S : Type} `{!Socket S} `{!SocketLaws S} `{!PageSplit} `{!PageSplitLaws} `{!Waive (PollDrv G S)}.

Abbreviation Drv := (PollDrv G S) (only parsing).
Implicit Types (c : Cx F L Drv) (acc : list byte) (d : Drv).

Section fixed.
Variable ctl : bool.
Abbreviation keepsB := (keeps (F := F) (L := L) (busy (G := G) (S := S) ctl) poll_sent).
Abbreviation keepsF := (keeps (F := F) (L := L) (free (G := G) (S := S) ctl) poll_sent).

(** ** Steps while the slab is in use *)

Lemma keeps_item_write : keepsB item_write.
Proof.
  intros acc c HG _. eapply runs_conseq; [by apply (item_write_busy ctl true acc)|]. intros r c' [? ?]. split; [done|by apply kept_held].
Qed.

Lemma busy_some acc c : Good (busy ctl) poll_sent true acc c -> exists i, pd_item (cx_drv c) = Some i.
Proof. by intros [[[_ _ _ (_ & [i Hi] & _) _] _] _]; exists i. Qed.

Lemma keeps_item : keepsB item.
Proof.
  intros acc c HG _. destruct (busy_some acc c HG) as [i Hi]. unfold item. apply runs_bind, runs_gets. rewrite Hi. by apply runs_ret.
Qed.
Lemma keeps_get_drv {A} (Q : bool -> Drv -> Prop) (g : Drv -> A) : keeps (F := F) (L := L) Q poll_sent (get_drv g).
Proof. intros acc c HG _. by eapply runs_eq. Qed.

Lemma keeps_upd_item g :
  (forall i, so_sent (si_io (g i)) = so_sent (si_io i) /\ has 4 (si_flags (g i)) = has 4 (si_flags i) /\ has 5 (si_flags (g i)) = has 5 (si_flags i)) ->
  keepsB (upd_item g).
Proof.
  intros Hg acc c HG _. destruct (busy_some acc c HG) as [i Hi]. destruct (Hg i) as (Hs & H4 & H5). apply runs_modify.
  rewrite Hi. cbn. split; [|by apply kept_held, kept_flags]. eapply drv_good; [done| |].
  - intros a Hb. by eapply busy_item.
  - unfold poll_sent. cbn. by rewrite Hi.
Qed.

Lemma keeps_set_rd b : keepsB (set_rd b).
Proof.
  apply keeps_upd_item. intros i. split; [done|]. cbn -[has]. destruct b; rewrite ?(has_ginsert RD), ?(has_gremove RD) by done; cbn;
    by rewrite ?orb_false_r, ?andb_true_r.
Qed.
Lemma keeps_set_wr b : keepsB (set_wr b).
Proof.
  apply keeps_upd_item. intros i. split; [done|]. cbn -[has]. destruct b; rewrite ?(has_ginsert WR), ?(has_gremove WR) by done; cbn;
    by rewrite ?orb_false_r, ?andb_true_r.
Qed.

Lemma keeps_read_call : keepsB (syscall so_read).
Proof.
  intros acc c HG _. destruct (busy_some acc c HG) as [i Hi]. apply (syscall_spec _ _ i); [done|].
  split; [|by apply kept_held, kept_flags]. eapply drv_good; [done| |].
  - intros a Hb. by eapply busy_item.
  - unfold poll_sent. cbn. by rewrite Hi, so_read_sent.
Qed.

Lemma keeps_set_interest x : keepsB (mod_drv (set_pd_interest x)).
Proof.
  intros acc c HG _. apply runs_modify. split; [|by apply kept_held, kept_flags]. eapply drv_good; [done| |done].
  intros a (? & ? & Ho). do 2 (split; [done|]). by eapply owners_same; [..|exact Ho].
Qed.

Lemma keeps_item_read : keepsB item_read.
Proof.
  unfold item_read. apply keeps_bind; [apply get_read_buf_keeps; apply _|]. intros buf. apply keeps_bind; [apply keeps_read_call|].
  intros res. apply keeps_bind; [|intros [b st]; apply update_read_status_keeps; apply _].
  destruct res as [|[[|x xs]|e]]; [keep| |keep..]. apply keeps_bind; [apply keeps_terminate; apply _|keep].
Qed.

Lemma keeps_arm readable writable : keepsB (arm readable writable).
Proof.
  unfold arm. apply keeps_bind; [apply keeps_item|]. intros i. destruct (_ =? _); [keep|].
  apply keeps_bind; [|intros; apply keeps_set_interest]. apply keeps_upd_item. intros i'. split; [done|]. cbn -[has].
  unfold has. rewrite !fl_bits_insert, !fl_bits_of by (by destruct readable, writable). rewrite !Z.lor_spec.
  change (Z.testbit (fl_bits (gremove ?n ?g)) ?k) with (has k (gremove n g)). rewrite !has_gremove by done.
  split; destruct readable, writable; cbn; by rewrite ?orb_false_r, ?andb_true_r.
Qed.

(** ** The slab taken for an operation *)

Lemma streams_with_spec {A} (f : M (Cx F L Drv) A) acc c :
  Good (free ctl) poll_sent true acc c -> is_Some (cx_mgr c) -> is_Some (pd_item (cx_drv c)) -> keepsB f ->
  runs (streams_with f) c (fun _ c' => Good (free ctl) poll_sent true acc c' /\ held c c').
Proof.
  intros HG Hm Hi Hf. pose proof HG as [[[_ _ _ [Hs _] _] _] _]. unfold streams_with. apply runs_bind, runs_gets. rewrite Hs.
  apply runs_bind, runs_modify, runs_bind. eapply runs_conseq; [apply Hf; [by apply take_slab|done]|]. intros r c2 [HG2 K2].
  apply runs_bind, runs_modify, runs_ret. split; [by apply give_slab|].
  etrans; [|etrans; [exact K2|]]; by apply kept_held, kept_flags.
Qed.

(** An operation that does nothing on a stream that was removed. *)
Lemma streams_with_opt {A} (a : A) (f : M (Cx F L Drv) A) :
  keepsB f -> keepsF (streams_with (i ← get_drv pd_item; match i with None => mret a | Some _ => f end)).
Proof.
  intros Hf acc c HG Hm. destruct (pd_item (cx_drv c)) as [i|] eqn:Hi.
  - apply streams_with_spec; [done|done|by eexists|]. apply keeps_bind; [apply keeps_get_drv|]. intros []; [done|keep].
  - pose proof HG as [[[_ _ _ [Hs _] _] _] _]. unfold streams_with. apply runs_bind, runs_gets. rewrite Hs.
    apply runs_bind, runs_modify, runs_bind, runs_bind, runs_gets. cbn. rewrite Hi. apply runs_ret, runs_bind, runs_modify, runs_ret.
    split; [|by apply kept_held, kept_flags].
    change (Good (free ctl) poll_sent true acc (set_drv (set_pd_streams true (cx_drv c)) c)).
    eapply drv_good; [done| |done]. intros a' [? Ho]. split; [done|]. by eapply owners_same; [..|exact Ho].
Qed.

Lemma keeps_event readable writable interrupt : keepsF (event readable writable interrupt).
Proof.
  unfold event. apply streams_with_opt. apply keeps_bind; [|intros rd; apply keeps_bind; [|intros wr]].
  - destruct readable; (apply keeps_bind; [first [apply keeps_item_read|apply keeps_item]|]; intros st); [|keep].
    apply keeps_bind; [apply keeps_set_rd|keep].
  - destruct writable; (apply keeps_bind; [first [apply keeps_item_write|apply keeps_item]|]; intros st); [|keep].
    apply keeps_bind; [apply keeps_set_wr|keep].
  - destruct interrupt; [apply keeps_terminate; apply _|apply keeps_arm].
Qed.

Lemma keeps_event_error err : keepsF (event_error err).
Proof.
  unfold event_error. apply streams_with_opt. apply keeps_bind; [unfold ctx_is_stopped; keep|]. intros []; [keep|].
  apply keeps_terminate; apply _.
Qed.

Lemma keeps_mod_drv (Q : bool -> Drv -> Prop) g :
  (forall a d, Q a d -> Q a (g d)) -> (forall d, poll_sent (g d) = poll_sent d) -> keeps (F := F) (L := L) Q poll_sent (mod_drv g).
Proof.
  intros HQ Hs acc c HG _. apply runs_modify. split; [|by apply kept_held, kept_flags]. eapply drv_good; [done|intros a; apply HQ|apply Hs].
Qed.

Lemma keeps_reactor_event readable writable interrupt : keepsF (reactor_event readable writable interrupt).
Proof.
  unfold reactor_event. apply keeps_bind; [|intros; apply keeps_event]. apply keeps_mod_drv; [|done].
  intros a d [? Ho]. split; [done|]. by eapply owners_same; [..|exact Ho].
Qed.
End fixed.

(** ** The task of the stream *)

Abbreviation keepsT := (keeps (F := F) (L := L) (free (G := G) (S := S) true) poll_sent).

Lemma keeps_interest rd wr : keepsT (interest rd wr).
Proof.
  intros acc c HG Hm. pose proof HG as [[[_ _ _ [_ Ho] _] _] _]. apply streams_with_spec; [done|done|apply (owners_item _ _ _ Ho); by left|].
  apply keeps_bind; [|intros [readable want_read]; apply keeps_bind; [|intros [writable want_write]]].
  - unfold interest_read. apply keeps_bind; [apply keeps_item|]. intros i. destruct rd, (gcontains RD _); [keep| | |keep].
    + apply keeps_bind; [apply keeps_item_read|]. intros st. destruct (status_is_io st); [|keep].
      apply keeps_bind; [apply keeps_set_rd|keep].
    + apply keeps_bind; [apply keeps_set_rd|keep].
  - unfold interest_write. apply keeps_bind; [apply keeps_item|]. intros i. destruct wr, (gcontains WR _); [keep| | |keep].
    + apply keeps_bind; [apply keeps_item_write|]. intros st. destruct (status_is_io st); [|keep].
      apply keeps_bind; [apply keeps_set_wr|keep].
    + apply keeps_bind; [apply keeps_set_wr|keep].
  - destruct (_ || _); [apply keeps_arm|keep].
Qed.

Lemma keeps_run_poll now w : keepsT (run_poll now w).
Proof.
  unfold run_poll. apply keeps_bind; [apply keeps_ctx_poll_read_ready; apply _|]. intros r.
  destruct (match r with Ready RdyReady => _ | Ready _ => _ | Pending => _ end) as [[modify_r readable] read_ready].
  apply keeps_bind; [apply keeps_poll_write_ready|]. intros r'.
  destruct (match r' with Ready RdyReady => _ | Ready RdyShutdown => _ | Ready RdyTerminate => _ | Pending => _ end) as [[modify_w writable] write].
  apply keeps_bind; [|keep]. destruct (_ || _); [apply keeps_interest|keep].
Qed.

Lemma keeps_run_flush_poll flush w : keepsT (run_flush_poll flush w).
Proof. unfold run_flush_poll. apply keeps_bind; [apply keeps_interest|]. intros []. apply keeps_ctx_shutdown. Qed.

(** ** Delayed work *)

(** While the queue is worked off: the item may be gone, and at most [n]
    entries are left to come. *)
Definition mid (ctl : bool) (n : nat) (alive : bool) d : Prop :=
  pd_streams d = false /\ owners ctl alive d /\ (length (pd_delayed_feed d) + one alive <= n)%nat.
Definition midi (ctl : bool) (n : nat) (alive : bool) d : Prop := mid ctl n alive d /\ is_Some (pd_item d).

#[local] Instance midi_drop ctl n : DropLaws (midi ctl n).
Proof.
  intros d [(Hs & Ho & Hn) Hi]. exists (push_delayed DelayedWeak d). unfold hd_drop, polling_drop, weak_drop. rewrite Hs.
  split; [done|]. split; [|done]. split; [done|]. split; [by apply busy_drop_spec|]. cbn in *. rewrite length_app. cbn. lia.
Qed.

Lemma midi_item ctl n a d i i' :
  midi ctl n a d -> pd_item d = Some i -> has 4 (si_flags i') = has 4 (si_flags i) -> has 5 (si_flags i') = has 5 (si_flags i) ->
  midi ctl n a (set_pd_item (Some i') d).
Proof.
  intros [(Hs & Ho & Hn) _] Hi H4 H5. split; [|by eexists]. split; [done|]. split; [|done].
  eapply owners_same; [..|exact Ho]; unfold dropped; cbn -[has]; rewrite ?Hi; done.
Qed.

(** What happens to the state of a stream whose driver changes. *)
Lemma drv_change (Q Q' : bool -> Drv -> Prop) acc c d' :
  Good Q poll_sent true acc c -> Q' (handle_of c) d' -> (handle_of c = true -> poll_sent d' = poll_sent (cx_drv c)) ->
  Good Q' poll_sent true acc (set_drv d' c).
Proof.
  intros [[[Hs Hfl Ht Hd Hsc] Hl] Hsv] HQ Hst. split; [split; [split|]|]; try done.
  destruct Hl as [|[Hh Hst0]]; [by left|right]. split; [done|]. cbn. by rewrite Hst.
Qed.

Lemma drop_stream_spec n acc c :
  Good (midi true n) poll_sent true acc c ->
  runs drop_stream c (fun _ c' => Good (mid false n) poll_sent true acc c' /\ kept c c').
Proof.
  intros HG. pose proof HG as [[[_ _ _ [_ [i0 Hi0]] _] _] _]. unfold drop_stream, item.
  apply runs_bind, runs_bind, runs_gets. rewrite Hi0. apply runs_ret, runs_bind, runs_flag, runs_bind.
  apply (runs_conseq _ _ (fun _ c1 => Good (midi true n) poll_sent true acc c1 /\ kept c c1)).
  { destruct (is_closed _); [by apply runs_ret|]. eapply runs_conseq; [apply (terminate_spec (midi true n) poll_sent true acc), HG|].
    by intros [] c1 (? & ? & _). }
  intros [] c1 [HG1 K1]. apply runs_bind, runs_modify. set (d1 := set_pd_interest None (cx_drv c1)).
  pose proof HG1 as [[[_ _ _ [(Hs & Ho & Hn) [i Hi]] _] Hl] _]. destruct Ho as [Ht Hh Hc Hr].
  apply runs_bind, runs_bind, runs_gets. cbn. rewrite Hi. apply runs_ret. rewrite (gcontains_has 5) by done.
  assert (kept c (set_drv d1 c1)) as K by (etrans; [exact K1|by apply kept_flags]). unfold dropped in *. rewrite Hi in *.
  cbn in Ht. destruct (has 5 (si_flags i)) eqn:H5.
  - assert (handle_of c1 = false) as Hhf by (destruct (handle_of c1); cbn in *; [lia|done]).
    apply runs_modify. split; [|etrans; [exact K|by apply kept_flags]]. cbn.
    change (Good (mid false n) poll_sent true acc (set_drv (set_pd_closes (Datatypes.S (pd_closes d1)) (set_pd_item None d1)) c1)).
    eapply drv_change; [done| |congruence]. split; [done|]. split; [|done].
    rewrite Hhf in *. split; [..|by intros [? [=]]].
    + change (0 + queued DelayedStream (cx_drv c1) + 1 = 1)%nat. lia.
    + change (0 + queued DelayedWeak (cx_drv c1) + 1 = 1)%nat. cbn in Hh. lia.
    + cbn. by rewrite Hc.
  - apply runs_modify. split; [|etrans; [exact K|by apply kept_flags]]. cbn. rewrite Hi. cbn.
    set (i' := set_si_flags _ i). change (Good (mid false n) poll_sent true acc (set_drv (set_pd_item (Some i') d1) c1)).
    eapply drv_change; [done| |unfold poll_sent; cbn; by rewrite Hi]. split; [done|]. split; [|done].
    assert (has 4 (si_flags i') = true) as H4' by (subst i'; unfold set_si_flags, si_flags; by rewrite (has_ginsert DROPPED_PRI), orb_true_r).
    assert (has 5 (si_flags i') = false) as H5' by (subst i'; unfold set_si_flags, si_flags; rewrite (has_ginsert DROPPED_PRI) by done; by fold (si_flags i); rewrite H5).
    split; unfold dropped; cbn [pd_item set_pd_item]; rewrite ?H4', ?H5'; [|done|done|done].
    change (0 + queued DelayedStream (cx_drv c1) + 1 = 1)%nat. lia.
Qed.

Lemma pop_spec ctl n x q alive d :
  mid ctl n alive d -> pd_delayed_feed d = x :: q ->
  let d' := set_pd_delayed q d in
  match x with
  | DelayedStream => ctl = false /\ midi true (pred n) alive d'
  | DelayedWeak => alive = false /\ owners ctl true d' /\ (length q <= pred n)%nat
  | DelayedWrite => mid ctl (pred n) alive d'
  end.
Proof.
  intros (Hs & Ho & Hn) Hq d'. pose proof Ho as [Ht Hh Hc Hr]. rewrite Hq in Hn. cbn in Hn.
  assert (forall k, dropped k d' = dropped k d) as Hd by done.
  rewrite (queued_pop _ _ _ _ Hq) in Ht. rewrite (queued_pop _ _ _ _ Hq) in Hh. fold d' in Ht, Hh.
  assert (length (pd_delayed_feed d') = length q) as Hlq by done. destruct x; cbn in Ht, Hh.
  - destruct ctl; [cbn in *; lia|]. split; [done|]. assert (owners true alive d') as Ho' by (split; rewrite ?Hd; cbn; try done; lia).
    split; [|apply (owners_item _ _ _ Ho'); by left]. split; [done|]. split; [done|]. rewrite Hlq. lia.
  - destruct alive; [cbn in *; lia|]. split; [done|]. split; [|lia]. split; rewrite ?Hd; cbn; try done; lia.
  - split; [done|]. split; [split; rewrite ?Hd; cbn; try done; lia|]. rewrite Hlq. lia.
Qed.

Lemma good_mono (Q Q' : bool -> Drv -> Prop) acc c :
  Good Q poll_sent true acc c -> Q' (handle_of c) (cx_drv c) -> Good Q' poll_sent true acc c.
Proof. intros [[[Hs Hfl Ht Hd Hsc] Hl] Hsv] HQ. by split; [split; [split|]|]. Qed.

(** One entry of the queue; the handle is the driver's other owner. *)
Lemma delayed_one_spec ctl n x q acc c :
  Good (mid ctl n) poll_sent true acc c -> pd_delayed_feed (cx_drv c) = x :: q ->
  runs (delayed_one x) (set_drv (set_pd_delayed q (cx_drv c)) c) (fun _ c' =>
    Good (mid ctl (pred n)) poll_sent true acc c' /\ kept c c').
Proof.
  intros HG Hq. pose proof HG as [[[_ _ _ Hmid _] Hl] _]. pose proof (pop_spec ctl n x q _ _ Hmid Hq) as Hpop.
  set (d' := set_pd_delayed q (cx_drv c)) in *. assert (kept c (set_drv d' c)) as K by by apply kept_flags.
  destruct x; cbn [delayed_one].
  - destruct Hpop as [-> Hm]. eapply runs_conseq; [apply (drop_stream_spec (pred n) acc); by eapply drv_change|].
    intros [] c1 [HG1 K1]. split; [done|by etrans].
  - destruct Hpop as (Ha & Ho & Hn). destruct (drop_weak_stream_spec ctl d' Ho) as (d2 & Hd2 & Ho2 & Hs2 & Hq2).
    apply runs_bind, runs_get, runs_bind. eapply runs_lift; [exact Hd2|]. apply runs_modify.
    split; [|etrans; [exact K|by apply kept_flags]]. change (Good (mid ctl (pred n)) poll_sent true acc (set_drv d2 c)).
    eapply drv_change; [done| |congruence]. rewrite Ha. split; [by rewrite Hs2; apply Hmid|]. split; [done|]. rewrite Hq2. cbn. lia.
  - assert (Good (mid ctl (pred n)) poll_sent true acc (set_drv d' c)) as HG' by by eapply drv_change.
    apply runs_bind, runs_gets, runs_bind, runs_flag. cbn [cx_drv set_drv]. change (pd_item d') with (pd_item (cx_drv c)).
    destruct (pd_item (cx_drv c)) as [i|] eqn:Hi; [|by apply runs_ret]. destruct (is_closed _); [by apply runs_ret|].
    apply runs_bind. eapply runs_conseq; [apply (item_write_spec (midi ctl (pred n)) (fun a d H => proj2 H)) with (hv := true) (acc := acc)|].
    + intros a d i' s Hm Hi'. by eapply midi_item.
    + eapply good_mono; [exact HG'|]. split; [exact Hpop|by eexists].
    + intros st c2 [HG2 K2]. apply runs_ret. split; [|by etrans]. eapply good_mono; [exact HG2|]. by destruct HG2 as [[[_ _ _ [? _] _] _] _].
Qed.

Lemma delayed_loop_spec fuel ctl n acc c :
  Good (mid ctl n) poll_sent true acc c -> (n < fuel)%nat ->
  runs (delayed_loop fuel) c (fun _ c' =>
    Good (mid ctl n) poll_sent true acc c' /\ pd_delayed_feed (cx_drv c') = [] /\ kept c c').
Proof.
  revert n c. induction fuel as [|fuel IH]; intros n c HG Hf; [lia|]. cbn [delayed_loop]. apply runs_bind, runs_gets.
  destruct (pd_delayed_feed (cx_drv c)) as [|x q] eqn:Hq; [by apply runs_ret|].
  assert (n <> 0)%nat as Hn0 by (destruct HG as [[[_ _ _ (_ & _ & Hn) _] _] _]; rewrite Hq in Hn; cbn in Hn; lia).
  apply runs_bind, runs_modify, runs_bind. eapply runs_conseq; [by apply delayed_one_spec|].
  intros [] c1 [HG1 K1]. eapply runs_conseq; [apply (IH (pred n)); [done|lia]|]. intros [] c2 (HG2 & Hq2 & K2).
  split; [|split; [done|by etrans]]. eapply good_mono; [exact HG2|]. destruct HG2 as [[[_ _ _ (? & ? & ?) _] _] _]. split; [done|]. split; [done|lia].
Qed.

(** Taking the slab for the work, and putting it back. *)
Lemma mid_of_free ctl n acc c :
  Good (free ctl) poll_sent true acc c -> (length (pd_delayed_feed (cx_drv c)) + one (handle_of c) <= n)%nat ->
  Good (mid ctl n) poll_sent true acc (set_drv (set_pd_streams false (cx_drv c)) c).
Proof.
  intros HG Hn. eapply drv_change; [done| |done]. destruct HG as [[[_ _ _ [_ Ho] _] _] _]. split; [done|]. split; [|done].
  by eapply owners_same; [..|exact Ho].
Qed.
Lemma free_of_mid ctl n acc c :
  Good (mid ctl n) poll_sent true acc c -> Good (free ctl) poll_sent true acc (set_drv (set_pd_streams true (cx_drv c)) c).
Proof.
  intros HG. eapply drv_change; [done| |done]. destruct HG as [[[_ _ _ (_ & Ho & _) _] _] _]. split; [done|].
  by eapply owners_same; [..|exact Ho].
Qed.

Lemma check_delayed_feed_spec fuel ctl acc c :
  Good (free ctl) poll_sent true acc c -> (length (pd_delayed_feed (cx_drv c)) + 1 < fuel)%nat ->
  runs (check_delayed_feed fuel) c (fun _ c' =>
    Good (free ctl) poll_sent true acc c' /\ pd_delayed_feed (cx_drv c') = [] /\ kept c c').
Proof.
  intros HG Hf. pose proof HG as [[[_ _ _ [Hs Ho] _] _] _]. unfold check_delayed_feed.
  apply runs_bind, runs_gets, runs_bind, runs_gets. destruct (pd_delayed_feed (cx_drv c)) as [|x q] eqn:Hq; [by apply runs_ret|].
  rewrite Hs. apply runs_bind, runs_modify, runs_bind. pose proof (mid_of_free ctl _ acc c HG (le_n _)) as HM. rewrite Hq in HM.
  eapply runs_conseq; [apply (delayed_loop_spec _ _ _ _ _ HM)|].
  { destruct (handle_of c); cbn in *; lia. }
  intros [] c1 (HG1 & Hq1 & K1). apply runs_modify. split; [by eapply free_of_mid|]. split; [done|].
  transitivity c1; [|by apply kept_flags]. etrans; [|exact K1]. by apply kept_flags.
Qed.

Lemma stream_ctl_drop_spec acc c :
  Good (free true) poll_sent true acc c ->
  runs stream_ctl_drop c (fun _ c' => Good (free false) poll_sent true acc c' /\ kept c c').
Proof.
  intros HG. pose proof HG as [[[_ _ _ [Hs Ho] _] _] _]. unfold stream_ctl_drop. apply runs_bind, runs_gets. rewrite Hs.
  apply runs_bind, runs_modify, runs_bind. pose proof (mid_of_free true _ acc c HG (le_n _)) as HM. set (n := (_ + _)%nat) in HM.
  eapply runs_conseq; [apply (drop_stream_spec n acc)|].
  - eapply good_mono; [exact HM|]. split; [by destruct HM as [[[_ _ _ ? _] _] _]|]. apply (owners_item _ _ _ Ho). by left.
  - intros [] c1 [HG1 K1]. apply runs_modify. split; [by eapply free_of_mid|].
    transitivity c1; [|by apply kept_flags]. etrans; [|exact K1]. by apply kept_flags.
Qed.

Lemma run_finish_spec r acc c :
  Good (free true) poll_sent true acc c ->
  runs (run_finish r) c (fun _ c' => Good (free false) poll_sent true acc c' /\ kept c c').
Proof.
  intros HG. unfold run_finish. apply runs_bind. eapply runs_conseq; [by apply stream_ctl_drop_spec|]. intros [] c1 [HG1 K1].
  apply runs_bind, runs_flag. destruct (is_closed _); [by apply runs_ret|].
  eapply runs_conseq; [apply (terminate_spec (free false) poll_sent true acc), HG1|]. intros [] c2 (? & ? & _). split; [done|by etrans].
Qed.

Lemma reactor_tick_spec fuel ctl acc c :
  Good (free ctl) poll_sent true acc c -> (length (pd_delayed_feed (cx_drv c)) + 1 < fuel)%nat ->
  runs (reactor_tick fuel) c (fun _ c' => Good (free ctl) poll_sent true acc c' /\ kept c c' /\
    (pd_modified (cx_drv c) = true -> pd_delayed_feed (cx_drv c') = [])).
Proof.
  intros HG Hf. unfold reactor_tick. apply runs_bind, runs_gets. destruct (pd_modified (cx_drv c)) eqn:Hm; [|by apply runs_ret].
  apply runs_bind, runs_modify. set (c1 := set_drv _ c).
  assert (Good (free ctl) poll_sent true acc c1) as HG1.
  { eapply drv_change; [done| |done]. destruct HG as [[[_ _ _ [? Ho] _] _] _]. split; [done|]. by eapply owners_same; [..|exact Ho]. }
  eapply runs_conseq; [by apply (check_delayed_feed_spec fuel ctl acc)|]. intros [] c2 (HG2 & Hq & K2).
  split; [done|]. split; [|done]. etrans; [|exact K2]. by apply kept_flags.
Qed.

End steps.
