(* ===== verification/IoSystem.v ===== *)
(** * A stream with its driver, its task and the scheduler of writes

    [geario]'s event loop runs one step after the other on one thread: calls
    of the owner of the stream ([IoRef.v]), polls of the task of the driver
    (geario/src/net/polling/io.rs, [run]), events of the reactor, and the runs
    of the scheduled writes (geario/src/io/ops.rs, [Iops::run]).  A program is
    a sequence of such steps. *)
From Stdlib Require Import ZArith Lia.
From stdpp Require Import base numbers list.
From S2P Require Import Prelude Deps Task IoConfig IoFlags IoBuf IoTimers IoState IoRef Polling.

(** ** The task of a driver *)

(** Where [run] waits: for the first future, for the second one, for the
    shutdown of the socket, or it has returned. *)
Inductive TaskState := TaskRun | TaskFlush (flush : bool) | TaskShut | TaskDone.

#[export] Instance task_state_eq_dec : EqDecision TaskState.
Proof. solve_decision. Defined.

Definition task_alive (t : TaskState) : bool := match t with TaskDone => false | _ => true end.

Section owner.
Context {F : Type} `{!Bitflags F} {L : Type} `{!FilterLayer L} {D : Type} `{!HandleDrop D} `{!Handle F L D}.
Context {Item Err : Type}.

Abbreviation Io := (Cx F L D) (only parsing).
Abbreviation IO A := (M Io A) (only parsing).

(** ** [Iops::run], for this stream

    The manager is borrowed while the scheduled streams send. *)
Fixpoint send_scheduled (ids : list Id) : IO () :=
  match ids with
  | [] => mret tt
  | id :: ids =>
      own ← get_io io_id;
      (if bool_decide (id = own) then ops_send_buf else mret tt);;
      send_scheduled ids
  end.
Definition iops_run_stream : IO () :=
  m ← getsS cx_mgr;
  match m with
  | None => failS Panic
  | Some m =>
      let i := mg_iops m in
      modifyS (set_mgr None);;
      send_scheduled (ip_ops i);;
      modifyS (set_mgr (Some (set_mg_iops (mkIops false [] (pred (ip_tasks i))) m)))
  end.

(** ** Steps *)

Inductive io_op :=
  | OpWrite (src : list byte)
  | OpWriteVectored (bufs : list (list byte))
  | OpSendBuf
  | OpFlush (w : waker) (full : bool)
  | OpRecv (codec : Decoder Item Err) (w : waker)
  | OpDecode (codec : Decoder Item Err)
  | OpWithReadBuf (f : list byte -> list byte)
  | OpPause
  | OpReadReady (w : waker)
  | OpReadNotify (w : waker)
  | OpReadPause (w : waker)
  | OpStatusUpdate (w : waker)
  | OpNotifyTimeout
  | OpOnDisconnect (w : waker)
  | OpClose
  | OpCloseWith (e : IoError)
  | OpTerminate
  | OpShutdown (w : waker)
  | OpSendScheduled
  | OpEvent (readable writable interrupt : bool)
  | OpEventError (e : IoError)
  | OpTick
  | OpTaskPoll (now : Z) (w : waker)
  | OpTaskFinish (result : option IoError).

(** The state of the system; [sy_acc] is the output that was accepted, and
    [sy_failed] tells that a layer has failed to flush in a [poll_flush], whose
    error was returned to the owner of the stream. *)
Record Sys := mkSys { sy_io : Io; sy_task : TaskState; sy_acc : list byte; sy_failed : bool }.

Definition sys_call {A} (op : IO A) (k : A -> Io -> Sys) (s : Sys) : outcome Sys :=
  match op (sy_io s) with Done (a, c) => Done (k a c) | Fault f => Fault f end.
(** Calls that accept no output. *)
Definition plain {A} (op : IO A) (s : Sys) : outcome Sys := sys_call op (fun _ c => mkSys c (sy_task s) (sy_acc s) (sy_failed s)) s.
(** Whether a layer fails when the filters are flushed. *)
Definition layer_fails (s : Sys) : bool := match process_write_buf_force (sy_io s) with Done (inr _, _) => true | _ => false end.

(** The steps of the owner of the stream and of the scheduled writes, for any
    driver; the other steps are those of a driver. *)
Definition owner_step (op : io_op) (s : Sys) : outcome Sys :=
  match op with
  | OpWrite src =>
      sys_call (encode_slice src)
        (fun r c => mkSys c (sy_task s) (match r with inl _ => sy_acc s ++ src | inr _ => sy_acc s end) (sy_failed s)) s
  | OpWriteVectored bufs =>
      sys_call (try_write_vectored bufs)
        (fun r c => mkSys c (sy_task s) (match r with inl n => sy_acc s ++ ztake n (concat bufs) | inr _ => sy_acc s end) (sy_failed s)) s
  | OpSendBuf => plain send_buf s
  | OpFlush w full =>
      sys_call (poll_flush w full)
        (fun _ c => mkSys c (sy_task s) (sy_acc s) (sy_failed s || layer_fails s)) s
  | OpRecv codec w => plain (poll_recv codec w) s
  | OpDecode codec => plain (decode codec) s
  | OpWithReadBuf f => plain (with_read_buf (fun b => (tt, f b))) s
  | OpPause => plain pause s
  | OpReadReady w => plain (poll_read_ready w) s
  | OpReadNotify w => plain (poll_read_notify w) s
  | OpReadPause w => plain (poll_read_pause w) s
  | OpStatusUpdate w => plain (poll_status_update w) s
  | OpNotifyTimeout => plain io_notify_timeout s
  | OpOnDisconnect w => plain (t ← on_disconnect; on_disconnect_poll t w) s
  | OpClose => plain close s
  | OpCloseWith e => plain (close_with e) s
  | OpTerminate => plain terminate s
  | OpShutdown w => plain (poll_shutdown w) s
  | OpSendScheduled => plain iops_run_stream s
  | _ => Done s
  end.
End owner.
Arguments io_op : clear implicits.
Arguments Sys F L D : clear implicits.

Section system.
Context {F : Type} `{!Bitflags F} {L : Type} `{!FilterLayer L} {G : Type} `{!Bitflags G} {S : Type} `{!Socket S} `{!PageSplit}.
Context {Item Err : Type}.

Abbreviation IO A := (M (Cx F L (PollDrv G S)) A) (only parsing).
Abbreviation PSys := (Sys F L (PollDrv G S)) (only parsing).

Definition task_flush (flush : bool) (w : waker) : IO TaskState :=
  r ← run_flush_poll flush w;
  mret (match r with Ready _ => TaskShut | Pending => TaskFlush flush end).

(** A poll of the task, at the time [now]. *)
Definition task_poll (now : Z) (w : waker) (t : TaskState) : IO TaskState :=
  match t with
  | TaskRun =>
      r ← run_poll now w;
      match r with
      | Pending => mret TaskRun
      | Ready st =>
          stopped ← ctx_is_stopped;
          if (stopped : bool) then mret TaskShut
          else task_flush (match st with RunShutdown => true | RunTerminate => false end) w
      end
  | TaskFlush flush => task_flush flush w
  | t => mret t
  end.

(** The shutdown of the socket is over, and the task goes on. *)
Definition task_finish (result : option IoError) (t : TaskState) : IO TaskState :=
  match t with TaskShut => run_finish result;; mret TaskDone | t => mret t end.

(** ** Steps with the poll based driver *)

Definition sys_step (op : io_op Item Err) (s : PSys) : outcome PSys :=
  match op with
  | OpEvent r w i => plain (reactor_event r w i) s
  | OpEventError e => plain (event_error e) s
  | OpTick => plain (reactor_tick (2 + length (pd_delayed_feed (cx_drv (sy_io s))))) s
  | OpTaskPoll now w => sys_call (task_poll now w (sy_task s)) (fun t c => mkSys c t (sy_acc s) (sy_failed s)) s
  | OpTaskFinish r => sys_call (task_finish r (sy_task s)) (fun t c => mkSys c t (sy_acc s) (sy_failed s)) s
  | op => owner_step op s
  end.

Fixpoint sys_exec (ops : list (io_op Item Err)) (s : PSys) : outcome PSys :=
  match ops with
  | [] => Done s
  | op :: ops => s' ← sys_step op s; sys_exec ops s'
  end.

(** A stream that was just made, with its driver. *)
Definition sys_new (id : Id) (cfg : IoConfig) (socket : S) (m : Mgr) : PSys :=
  mkSys (mkCx (io_new id cfg) (Some m) (stream_register socket) []) TaskRun [] false.
End system.
