(* ===== verification/IoOwner.v ===== *)
(** * The steps of the owner of a stream keep its invariant

    For any driver that meets the contract of [IoKeeps.v]: each step of
    [IoSystem.owner_step] returns, and keeps the invariant of [IoInv.v]. *)
From Stdlib Require Import ZArith Lia.
From stdpp Require Import base numbers list sets.
From S2P Require Import Prelude Deps Task IoConfig IoFlags IoBuf IoChain IoTimers IoState IoInv IoRef IoKeeps IoOutput IoSystem.

Section owner.
Context {F : Type} `{!Bitflags F} `{!BitflagsLaws F} {L : Type} `{!FilterLayer L} `{!FilterLayerLaws L}.
Context {D : Type} `{!HandleDrop D} `{!Waive D} `{!Handle F L D} (Q : bool -> D -> Prop) (sent : D -> list byte) `{!HandleLaws (F := F) (L := L) Q sent}.
Context {Item Err : Type}.

Implicit Types (c : Cx F L D) (acc : list byte) (s : Sys F L D).
Abbreviation Good := (Good (F := F) (L := L) Q sent true).

(** ** The scheduled writes *)

Lemma good_mgr acc m c : Good acc (set_mgr m c) -> hasf 11 c = false -> forall m', Good acc (set_mgr m' c).
Proof.
  intros [[[Hs Hfl Ht Hd Hsc] Hl] Hsv] H11 m'. split; [split; [split|]|]; try done.
  intros Hx. change (hasf 11 c = true) in Hx. congruence.
Qed.

Lemma set_mgr_same c m : cx_mgr c = m -> set_mgr m c = c.
Proof. by destruct c; cbn; intros ->. Qed.

Lemma good_no_mgr acc c : Good acc c -> cx_mgr c = None -> hasf 11 c = false.
Proof.
  intros [[[_ _ _ _ Hsc] _] _] Hm. destruct (hasf 11 c); [|done]. destruct (Hsc eq_refl) as (m & ? & _). congruence.
Qed.

Lemma send_scheduled_spec ids acc m c :
  Good acc (set_mgr m c) -> cx_mgr c = None -> (hasf 11 c = true -> io_id (cx_io c) ∈ ids) ->
  runs (send_scheduled ids) c (fun _ c' => Good acc c' /\ kept c c').
Proof.
  revert m c. induction ids as [|id ids IH]; intros m c HG Hm Hin; cbn [send_scheduled].
  - apply runs_ret. split; [|done]. rewrite <- (set_mgr_same c None Hm). eapply good_mgr; [exact HG|].
    destruct (hasf 11 c); [|done]. by apply elem_of_nil in Hin.
  - apply runs_bind, runs_gets, runs_bind. case_bool_decide as Hid.
    + eapply runs_conseq; [by apply (ops_send_buf_spec Q sent acc m)|]. intros [] c1 [HG1 K1].
      assert (cx_mgr c1 = None) as Hm1 by (rewrite (kp_mgr _ _ K1); done).
      eapply runs_conseq; [apply (IH None)|]; [by rewrite set_mgr_same|done| |].
      * by rewrite (good_no_mgr acc c1).
      * intros [] c2 [HG2 K2]. split; [done|by etrans].
    + apply runs_ret. apply (IH m); [done|done|]. intros H11. by apply Hin, elem_of_cons in H11 as [|].
Qed.

Lemma iops_run_stream_spec acc c :
  Good acc c -> is_Some (cx_mgr c) -> runs iops_run_stream c (fun _ c' => Good acc c' /\ held c c').
Proof.
  intros HG [m Hm]. unfold iops_run_stream. apply runs_bind, runs_gets. rewrite Hm. apply runs_bind, runs_modify, runs_bind.
  eapply runs_conseq; [apply (send_scheduled_spec (ip_ops (mg_iops m)) acc (Some m))|].
  - change (Good acc (set_mgr (Some m) c)). by rewrite set_mgr_same.
  - done.
  - intros H11. destruct HG as [[[_ _ _ _ Hsc] _] _]. destruct (Hsc H11) as (m' & Hm' & Hin & _). cbn. congruence.
  - intros [] c1 [HG1 [K1 K2 K3 K4]]. apply runs_modify. split; [|split; try done; first [by eexists|by rewrite Hm]].
    apply (good_mgr acc None); [by rewrite set_mgr_same|by eapply good_no_mgr].
Qed.

(** ** Waiting for the end *)

Lemma keeps_on_disconnect w :
  keeps (F := F) (L := L) Q sent (t ← on_disconnect; on_disconnect_poll t w).
Proof.
  intros acc c HG Hm. assert (forall ws, Good acc (upd_io (set_disconnect ws) c) /\ held c (upd_io (set_disconnect ws) c)) as Hd.
  { intros ws. split; [|by split]. destruct HG as [[[Hs Hfl Ht Hd Hsc] Hl] Hsv]. by split; [split; [split|]|]. }
  unfold on_disconnect, on_disconnect_poll. apply runs_bind, runs_bind, runs_flag. destruct (is_stopping _) eqn:Hst.
  - apply runs_ret, runs_bind, runs_flag. by apply runs_ret.
  - apply runs_bind. unfold register_disconnect at 1. unfold runs at 1.
    destruct (io_disconnect (cx_io c)) as [ws|]; (eexists _, _; split; [done|]; apply runs_ret, runs_bind, runs_flag; cbn; rewrite Hst;
      unfold poll_disconnect, runs; cbn; rewrite ?list_lookup_middle by done; eexists _, _; split; [done|]; apply Hd).
Qed.

(** ** Steps *)

Definition op_ok (op : io_op Item Err) : Prop :=
  match op with OpRecv codec _ => decoder_ok codec | _ => True end.

(** The invariant of the system; after a layer failed to flush, output may be
    left that nobody sends. *)
Definition sys_good s : Prop :=
  Sound Q sent true (sy_acc s) (sy_io s) /\ is_Some (cx_mgr (sy_io s)) /\
  (sy_failed s = false -> Good (sy_acc s) (sy_io s)).

Lemma good_sys_good c t acc : Good acc c -> is_Some (cx_mgr c) -> sys_good (mkSys c t acc false).
Proof. intros HG Hm. split; [apply HG|]. done. Qed.

(** What a step does to a state that is in order: it stays so, unless a layer
    fails to flush. *)
Record step_good s s' : Prop := {
  sg_sound : Sound Q sent true (sy_acc s') (sy_io s');
  sg_good : sy_failed s' = false -> Good (sy_acc s') (sy_io s');
  sg_failed : sy_failed s = true -> sy_failed s' = true;
  sg_held : held (sy_io s) (sy_io s');
}.

Definition owner_ok s (o : outcome (Sys F L D)) : Prop := exists s', o = Done s' /\ step_good s s' /\ sy_task s' = sy_task s.

(** Calls that keep the invariant for what they accept. *)
Lemma owner_call {A} (op : M (Cx F L D) A) s (acc : A -> list byte) :
  runs op (sy_io s) (fun a c => Good (acc a) c /\ held (sy_io s) c) ->
  owner_ok s (sys_call op (fun a c => mkSys c (sy_task s) (acc a) (sy_failed s)) s).
Proof.
  intros (a & c & He & HG & K). unfold sys_call, owner_ok. rewrite He. eexists. split; [done|].
  split; [|done]. split; [apply HG|done..].
Qed.

Lemma owner_plain {A} (op : M (Cx F L D) A) s :
  keeps Q sent op -> Good (sy_acc s) (sy_io s) -> is_Some (cx_mgr (sy_io s)) -> owner_ok s (plain op s).
Proof. intros Hk HG Hm. apply (owner_call op s (fun _ => sy_acc s)). by apply Hk. Qed.

(** Without layers none fails. *)
Lemma owner_step_plain (op : io_op Item Err) s s' : filter_of (sy_io s) = Some [] -> owner_step op s = Done s' -> sy_failed s' = sy_failed s.
Proof.
  intros Hf. assert (layer_fails s = false) as Hl by (unfold layer_fails; by rewrite (force_plain _ Hf)).
  destruct op; cbn [owner_step]; unfold plain, sys_call; rewrite ?Hl, ?orb_false_r; try (by intros [= <-]);
    (match goal with |- (match ?x with _ => _ end) = _ -> _ => destruct x as [[]|] end; [by intros [= <-]|done]).
Qed.

Lemma owner_step_good op s :
  op_ok op -> Good (sy_acc s) (sy_io s) -> is_Some (cx_mgr (sy_io s)) -> owner_ok s (owner_step op s).
Proof.
  intros Hop HG Hm.
  destruct op; cbn [owner_step]; try (exists s; split; [done|]; split; [|done]; split; [apply HG|done..]);
    try (apply owner_plain; [|done|done]; first
      [by apply keeps_send_buf|by apply keeps_poll_recv|by apply keeps_decode|by apply keeps_with_read_buf|by apply keeps_pause
      |by apply keeps_poll_read_ready|by apply keeps_poll_read_notify|by apply keeps_poll_read_pause|by apply keeps_poll_status_update
      |by apply keeps_notify_timeout|by apply keeps_on_disconnect|by apply keeps_start_shutdown|by apply keeps_close_with|by apply keeps_terminate
      |by apply keeps_poll_shutdown|intros acc c ??; by apply iops_run_stream_spec]).
  - apply owner_call. by apply (with_write_buf_spec _ _ _ src).
  - apply owner_call. eapply runs_conseq; [by apply try_write_vectored_spec|].
    intros r c [K HG']. split; [|done]. destruct r as [n|e]; [|done]. destruct HG' as (_ & H1 & H2).
    destruct (filter_of (sy_io s)) as [[|l ls]|]; [by apply H1|..]; (destruct H2 as [-> ?]; [done|]; by rewrite ztake_le0, app_nil_r).
  - destruct (poll_flush_spec Q sent w full _ _ HG Hm) as (r & c & He & K & HS & HG').
    unfold sys_call, owner_ok. rewrite He. eexists. split; [done|]. split; [|done]. split; [done| |cbn; by intros ->|done]. cbn [sy_failed].
    intros [_ Hr]%orb_false_iff. destruct HG' as [|(e & c1 & He1)]; [done|]. unfold layer_fails in Hr. by rewrite He1 in Hr.
Qed.
End owner.

(** ** Steps after a layer failed

    The driver keeps its contract when output need not be sent, and the
    invariant is then the well-formedness of the stream alone: the steps of a
    program go on after a layer failed to flush. *)
Definition forgiving (D : Type) : Waive D := WaiveAlways.

Section failed.
Context {F : Type} {L : Type} {D : Type} `{!Bitflags F} `{!HandleDrop D} `{!Waive D} `{!Handle F L D}.
Context (Q : Sys F L D -> bool -> D -> Prop) (sent : D -> list byte).
Implicit Types (s : Sys F L D).

(** A step that is in order for the driver as it is and for one that may leave
    output keeps the invariant of the system. *)
Lemma step_good_sys s (P : Sys F L D -> Prop) (o : outcome (Sys F L D)) :
  sys_good (Q s) sent s ->
  (Good (Q s) sent true (sy_acc s) (sy_io s) -> is_Some (cx_mgr (sy_io s)) -> exists s', o = Done s' /\ step_good (Q s') sent s s' /\ P s') ->
  (Good (Waive0 := forgiving D) (Q s) sent true (sy_acc s) (sy_io s) -> is_Some (cx_mgr (sy_io s)) ->
   exists s', o = Done s' /\ step_good (Waive0 := forgiving D) (Q s') sent s s' /\ P s') ->
  exists s', o = Done s' /\ sys_good (Q s') sent s' /\ held (sy_io s) (sy_io s') /\ P s'.
Proof.
  intros (HS & Hm & HG) H1 H2. destruct (sy_failed s) eqn:Hf.
  - destruct H2 as (s' & -> & [HS' _ Hf' K] & HP); [|done|]; [split; [done|]; left; by right|]. exists s'. split; [done|].
    split; [|done]. split; [done|]. split; [by apply K|]. by rewrite Hf'.
  - destruct H1 as (s' & -> & [HS' HG' _ K] & HP); [by apply HG|done|]. exists s'. split; [done|].
    split; [|done]. split; [done|]. split; [by apply K|done].
Qed.
End failed.
