(* ===== verification/IoExample.v ===== *)
(** * Concrete streams

    A socket, a layer and a page split that meet the contracts of [Polling.v]
    and [IoChain.v]. *)
From Stdlib Require Import ZArith Lia.
From stdpp Require Import base numbers list.
From S2P Require Import Prelude Deps Task IoConfig IoFlags IoBuf IoChain IoTimers IoState IoRef Polling IoSystem.

(** A socket takes at most [tk_room] bytes per call, and has some input. *)
Record TestSocket := mkTestSocket { tk_sent : list byte; tk_room : Z; tk_input : list (list byte) }.

#[export] Instance test_socket : Socket TestSocket := {
  so_write bs s :=
    let n := Z.min (Z.max 0 (tk_room s)) (zlen bs) in
    if n =? 0 then (Pending, s) else (Ready (inl n), mkTestSocket (tk_sent s ++ ztake n bs) (tk_room s) (tk_input s));
  so_read s :=
    match tk_input s with
    | [] => (Pending, s)
    | bs :: rest => (Ready (inl bs), mkTestSocket (tk_sent s) (tk_room s) rest)
    end;
  so_sent := tk_sent;
}.
#[export] Instance test_socket_laws : SocketLaws TestSocket.
Proof.
  split.
  - intros bs s n s'. cbn. zlen_pos. destruct (_ =? 0) eqn:Hn; [done|]. intros [= <- <-]. split; [lia|done].
  - intros bs s r s'. cbn. destruct (_ =? 0); intros [= <- <-]; [done|]. intros Hn. by destruct (Hn _ eq_refl).
  - intros s. cbn. by destruct (tk_input s).
Qed.

(** One page. *)
#[export] Instance one_page : PageSplit := fun bs => match bs with [] => [] | _ => [bs] end.
#[export] Instance one_page_laws : PageSplitLaws.
Proof.
  split; [intros [|b bs]; [done|]; cbn; by rewrite app_nil_r|]. intros [|b bs] p; [by intros ?%not_elem_of_nil|]. by intros ->%list_elem_of_singleton.
Qed.

(** Layers: one passes the data on, the other one also greets when it is asked
    for input. *)
Inductive TestLayer := Copy | Greet (hello : list byte).

Definition copy_read : M FilterBuf (result ()) :=
  fb_with_read_buffers (fun src dst => (inl tt, None, dst ++ match src with Some bs => bs | None => [] end)).
Definition copy_write : M FilterBuf (result ()) := fb_with_write_buffers (fun curr next => (inl tt, [], next ++ curr)).

#[export] Instance test_layer : FilterLayer TestLayer := {
  ly_process_read_buf l :=
    r ← copy_read;
    match l with
    | Copy => mret (r, l)
    | Greet hello => fb_with_write_buffers (fun curr next => (tt, curr, next ++ hello));; mret (r, Copy)
    end;
  ly_process_write_buf l := r ← copy_write; mret (r, l);
  ly_shutdown l := mret (inl (Ready tt), l);
}.

Lemma write_buffers_spec {A} (f : list byte -> list byte -> A * list byte * list byte) fb (P : A -> FilterBuf -> Prop) :
  fb_writable fb -> (forall w w', zlen (f w w').1.2 <= zlen w) ->
  (forall a fb', fb_writable fb' -> (fb_wants_write fb' = false ->
      fb_wants_write fb = false /\ blen (fb_curr fb') <= blen (fb_curr fb) /\ blen (fb_next fb') <= blen (fb_next fb)) -> P a fb') ->
  runs (fb_with_write_buffers f) fb P.
Proof.
  intros [[w Hw] [w' Hw']] Hf HP. unfold runs, fb_with_write_buffers. rewrite Hw, Hw'. specialize (Hf w w').
  destruct (f w w') as [[a v] v'] eqn:He. eexists _, _. split; [done|]. apply HP; [split; by eexists|].
  cbn. unfold blen. cbn in *. rewrite Hw, Hw'. destruct (fb_wants_write fb); [done|]. cbn. destruct (Z.ltb_spec (zlen w') (zlen v')); [done|]. intros _. lia.
Qed.

#[export] Instance test_layer_laws : FilterLayerLaws TestLayer.
Proof.
  assert (forall fb, fb_writable fb -> runs copy_read fb (fun _ fb' => fb_writable fb' /\ fb_wants_write fb' = fb_wants_write fb /\
    blen (fb_curr fb') = blen (fb_curr fb) /\ blen (fb_next fb') = blen (fb_next fb))) as Hread.
  { intros fb [Hw Hw']. eexists _, _. split; [done|]. split; [by split|]. done. }
  split; intros l fb Hfb; cbn [ly_process_read_buf ly_process_write_buf ly_shutdown test_layer].
  - apply runs_bind. eapply runs_conseq; [by apply Hread|]. intros r fb1 (Hfb1 & Hw1 & Hc1 & Hn1).
    destruct l; [apply runs_ret; split; [done|]; rewrite Hw1, Hc1, Hn1; by intros ->|]. apply runs_bind.
    apply write_buffers_spec; [done|done|]. intros a fb2 Hfb2 Ho. apply runs_ret. split; [done|]. rewrite <- Hw1, <- Hc1, <- Hn1. done.
  - apply runs_bind, write_buffers_spec; [done| |]; [intros w w'; cbn [fst snd]; zlia|]. intros a fb2 Hfb2 Ho. by apply runs_ret.
  - by apply runs_ret.
Qed.

Definition ex_cfg : IoConfig := io_config_new 0 65536 1024.
Definition ex_mgr : Mgr := mgr_default.
Definition ex_sys (cfg : IoConfig) (room : Z) (input : list (list byte)) : Sys Z TestLayer (PollDrv Z TestSocket) :=
  sys_new (Some 1%nat) cfg (mkTestSocket [] room input) ex_mgr.
