(* ===== verification/IoProps.v ===== *)
(** * Properties of streams on the readiness driver

    Each step of [IoSystem.v] returns, and keeps the invariant of [IoInv.v]
    with the two owners of the descriptor of [PollingSpec.v]; then the
    properties that follow for the programs of [IoSystem.v]. *)
From Stdlib Require Import ZArith Lia String.
From stdpp Require Import base numbers list sets.
From S2P Require Import Prelude Deps Task IoConfig IoFlags IoBuf IoChain IoTimers IoState IoInv IoRef IoKeeps IoOutput Polling PollingSpec PollingSteps IoSystem IoOwner IoExample.

Section inv.
Context {F : Type} `{!Bitflags F} `{!BitflagsLaws F} {L : Type} `{!FilterLayer L} `{!FilterLayerLaws L}.
Context {G : Type} `{!Bitflags G} `{!BitflagsLaws G} {S : Type} `{!Socket S} `{!SocketLaws S} `{!PageSplit} `{!PageSplitLaws}.
Context `{!Waive (PollDrv G S)} {Item Err : Type}.

Abbreviation Drv := (PollDrv G S) (only parsing).
Implicit Types (c : Cx F L Drv) (acc : list byte) (t : TaskState).

Abbreviation GoodF ctl := (Good (F := F) (L := L) (free (G := G) (S := S) ctl) poll_sent true).

(** ** The task *)

Abbreviation keepsT := (keeps (F := F) (L := L) (free (G := G) (S := S) true) poll_sent).

Definition keeps_task (op : M (Cx F L Drv) TaskState) acc c : Prop :=
  runs op c (fun t c' => GoodF (task_alive t) acc c' /\ held c c').

Lemma task_flush_spec flush w acc c : GoodF true acc c -> is_Some (cx_mgr c) -> keeps_task (task_flush flush w) acc c.
Proof.
  intros HG Hm. apply runs_bind. eapply runs_conseq; [by apply keeps_run_flush_poll|]. intros r c1 [HG1 K1]. apply runs_ret.
  by destruct r.
Qed.

Lemma task_poll_spec now w t acc c : GoodF (task_alive t) acc c -> is_Some (cx_mgr c) -> keeps_task (task_poll now w t) acc c.
Proof.
  intros HG Hm. destruct t as [|flush| |]; cbn [task_poll]; [|by apply task_flush_spec|by apply runs_ret..].
  apply runs_bind. eapply runs_conseq; [by apply keeps_run_poll|]. intros r c1 [HG1 K1].
  destruct r as [|st]; [by apply runs_ret|]. apply runs_bind, runs_flag. destruct (is_closed _); [by apply runs_ret|].
  eapply runs_conseq; [apply task_flush_spec; [done|by apply K1]|]. intros t' c2 [HG2 K2]. split; [done|by etrans].
Qed.

Lemma task_finish_spec r t acc c : GoodF (task_alive t) acc c -> is_Some (cx_mgr c) -> keeps_task (task_finish r t) acc c.
Proof.
  intros HG Hm. destruct t; cbn [task_finish]; try by apply runs_ret. apply runs_bind.
  eapply runs_conseq; [by apply run_finish_spec|]. intros [] c1 [HG1 K1]. apply runs_ret. split; [done|by apply kept_held].
Qed.

(** ** Steps *)

Definition step_ok (s : Sys F L (PollDrv G S)) (o : outcome (Sys F L (PollDrv G S))) : Prop :=
  exists s', o = Done s' /\ step_good (free (task_alive (sy_task s'))) poll_sent s s'.

(** Calls that keep the invariant for what they accept. *)
Lemma keep_call {A} (op : M (Cx F L Drv) A) s (t : A -> TaskState) (acc : A -> list byte) :
  runs op (sy_io s) (fun a c => GoodF (task_alive (t a)) (acc a) c /\ held (sy_io s) c) ->
  step_ok s (sys_call op (fun a c => mkSys c (t a) (acc a) (sy_failed s)) s).
Proof.
  intros (a & c & He & HG & K). unfold sys_call, step_ok. rewrite He. eexists. split; [done|].
  split; [apply HG|done..].
Qed.

Lemma sys_step_good op s :
  op_ok (Item := Item) (Err := Err) op -> GoodF (task_alive (sy_task s)) (sy_acc s) (sy_io s) -> is_Some (cx_mgr (sy_io s)) ->
  step_ok s (sys_step op s).
Proof.
  intros Hop HG Hm. destruct (owner_step_good (free (task_alive (sy_task s))) poll_sent op s Hop HG Hm) as (s' & He & Hs' & Ht).
  assert (step_ok s (owner_step op s)) as Hown by (exists s'; by rewrite Ht).
  destruct op; cbn [sys_step]; try exact Hown; clear Hown He Hs' Ht.
  - apply (keep_call _ s (fun _ => sy_task s) (fun _ => sy_acc s)). by apply keeps_reactor_event.
  - apply (keep_call _ s (fun _ => sy_task s) (fun _ => sy_acc s)). by apply keeps_event_error.
  - apply (keep_call _ s (fun _ => sy_task s)). eapply runs_conseq; [apply reactor_tick_spec; [done|lia]|].
    intros r c (HG' & K & _). split; [done|by apply kept_held].
  - apply (keep_call _ s (fun t => t) (fun _ => sy_acc s)). by apply task_poll_spec.
  - apply (keep_call _ s (fun t => t) (fun _ => sy_acc s)). by apply task_finish_spec.
Qed.
End inv.

(** ** Programs *)

Section programs.
Context {F : Type} `{!Bitflags F} `{!BitflagsLaws F} {L : Type} `{!FilterLayer L} `{!FilterLayerLaws L}.
Context {G : Type} `{!Bitflags G} `{!BitflagsLaws G} {S : Type} `{!Socket S} `{!SocketLaws S} `{!PageSplit} `{!PageSplitLaws}.
Context {Item Err : Type}.
Abbreviation GoodF ctl := (Good (F := F) (L := L) (free (G := G) (S := S) ctl) poll_sent true).
Implicit Types (s : Sys F L (PollDrv G S)).

Definition sys_ok s : Prop := sys_good (free (task_alive (sy_task s))) poll_sent s.

Lemma sys_ok_good s : sy_failed s = false -> sys_ok s -> GoodF (task_alive (sy_task s)) (sy_acc s) (sy_io s) /\ is_Some (cx_mgr (sy_io s)).
Proof. intros Hf (_ & ? & HG). auto. Qed.
Lemma good_sys_ok c t acc : GoodF (task_alive t) acc c -> is_Some (cx_mgr c) -> sys_ok (mkSys c t acc false).
Proof. intros HG Hm. split; [apply HG|]. done. Qed.

Lemma step_ok_all (op : io_op Item Err) s :
  op_ok op -> sys_ok s -> exists s', sys_step op s = Done s' /\ sys_ok s' /\ held (sy_io s) (sy_io s').
Proof.
  intros Hop Hs. destruct (step_good_sys (fun s => free (task_alive (sy_task s))) poll_sent s (fun _ => True) (sys_step op s) Hs)
    as (s' & He & Hs' & K & _); [intros HG Hm; by destruct (sys_step_good op s Hop HG Hm) as (s' & ? & ?); exists s'..|by exists s'].
Qed.

Lemma exec_ok (ops : list (io_op Item Err)) s :
  Forall op_ok ops -> sys_ok s -> exists s', sys_exec ops s = Done s' /\ sys_ok s' /\ held (sy_io s) (sy_io s').
Proof.
  intros Hops. revert s. induction Hops as [|op ops Hop _ IH]; intros s Hs; [by exists s|]. cbn [sys_exec].
  destruct (step_ok_all op s Hop Hs) as (s1 & He1 & Hs1 & K1). rewrite He1. cbn.
  destruct (IH s1 Hs1) as (s2 & He & Hs2 & K2). exists s2. split; [done|]. split; [done|by etrans].
Qed.

Lemma new_ok id cfg (socket : S) m : so_sent socket = [] -> sys_ok (sys_new id cfg socket m).
Proof.
  intros Hso. apply good_sys_ok; [|by eexists]. set (c := mkCx _ _ _ _).
  assert (forall k, hasf k c = Z.testbit (if 0 <? ic_write_buf_threshold cfg then 33280 else 512) k) as Hk by (intros k; apply has_new).
  split; [split; [split|]|]; rewrite ?Hk.
  - split; [|by intros ls [= <-]]. split; [cbn; lia|]. repeat constructor; by eexists.
  - by destruct (0 <? _).
  - done.
  - split; [done|]. assert (forall k, has k (fl_empty : G) = false) as He by (intros k; unfold has; by rewrite fl_bits_empty, Z.bits_0).
    split; unfold dropped; cbn [pd_item cx_drv c stream_register si_flags]; by rewrite ?He.
  - by destruct (0 <? _).
  - right. split; [done|]. intros _. cbn. by rewrite Hso.
  - right. intros _. by left.
Qed.

(** What the invariant says of an event of its own. *)
Lemma sys_ok_owners s : sys_ok s -> owners (task_alive (sy_task s)) (handle_of (sy_io s)) (cx_drv (sy_io s)) /\ pd_streams (cx_drv (sy_io s)) = true.
Proof. by intros [[[_ _ _ [? ?] _] _] _]. Qed.
End programs.

(** ** Properties of streams

    What programs over a stream with the poll based driver guarantee: they
    return, keep the stream well formed, and deliver the accepted output in
    order; the descriptor is closed once; a graceful close sends everything
    first. *)

Section props.
Context {F : Type} `{!Bitflags F} `{!BitflagsLaws F} {L : Type} `{!FilterLayer L} `{!FilterLayerLaws L}.
Context {G : Type} `{!Bitflags G} `{!BitflagsLaws G} {S : Type} `{!Socket S} `{!SocketLaws S} `{!PageSplit} `{!PageSplitLaws}.
Context {Item Err : Type}.

Implicit Types (ops : list (io_op Item Err)) (s : Sys F L (PollDrv G S)) (c : Cx F L (PollDrv G S)) (socket : S).

Definition terminated s : bool := is_terminated (io_flags (cx_io (sy_io s))).
(** What the socket took, and what is buffered for it. *)
Definition sys_sent s : list byte := poll_sent (cx_drv (sy_io s)).
Definition sys_buffered s : list byte := wcontent (io_buffer (cx_io (sy_io s))) 0.

(** C8. Every step of a stream - writes, reads, polls, closing, the events of
    the reactor, the polls of the driver's task, the scheduled writes - in any
    order returns without a panic and keeps the stream well formed: the
    buffers are in their cells, one per layer, a stopped stream is stopping,
    its handle and its task own the descriptor, a scheduled write is queued,
    and the output adds up; a new stream is well formed. *)
Theorem stream_steps_keep_invariant :
  (forall id cfg socket m, so_sent socket = [] -> sys_ok (F := F) (L := L) (G := G) (sys_new id cfg socket m)) /\
  (forall ops s, Forall op_ok ops -> sys_ok s -> exists s', sys_exec ops s = Done s' /\ sys_ok s').
Proof.
  split; [intros; by apply new_ok|]. intros ops s Hops Hs. destruct (exec_ok ops s Hops Hs) as (s' & ? & ? & _). by exists s'.
Qed.

(** C1. The socket receives the output in the order in which it was accepted,
    nothing twice and nothing left out: whatever is done to a stream without
    layers, until it is terminated, what the socket took followed by what is
    buffered is what was accepted. *)
Theorem output_in_order id cfg socket m ops :
  so_sent socket = [] -> Forall op_ok ops ->
  exists s, sys_exec ops (sys_new id cfg socket m) = Done s /\
    (terminated s = false -> sys_sent s ++ sys_buffered s = sy_acc s).
Proof.
  intros Hso Hops. destruct (exec_ok ops _ Hops (new_ok (F := F) (L := L) (G := G) id cfg socket m Hso)) as (s & He & Hs & K).
  exists s. split; [done|]. unfold terminated. rewrite is_terminated_has. intros Hz.
  destruct Hs as [[_ [|[_ Hst]]] _]; [unfold hasf in *; congruence|]. by apply Hst, K.
Qed.

(** C7. Output is not stranded: after every step, for any layers, when the
    driver waits for no event to write ([WR_PAUSED]) and there is output, the
    stream is queued for [Iops::run], which has been started.  Two cases are
    excepted: a stream that is terminated, and one of which a layer has failed
    to flush in a [poll_flush] ([sy_failed]), which returns the error to its
    caller and leaves what is buffered unscheduled; such a stream goes on, and
    its steps keep it well formed ([stream_steps_keep_invariant]). *)
Theorem output_not_stranded ops s :
  Forall op_ok ops -> sys_ok s ->
  exists s', sys_exec ops s = Done s' /\
    (sy_failed s' = false -> terminated s' = false -> is_write_paused (io_flags (cx_io (sy_io s'))) = true ->
     out_size (io_buffer (cx_io (sy_io s'))) = 0 \/
     exists m, cx_mgr (sy_io s') = Some m /\ io_id (cx_io (sy_io s')) ∈ ip_ops (mg_iops m) /\ ip_running (mg_iops m) = true).
Proof.
  intros Hops Hs. destruct (exec_ok ops s Hops Hs) as (s' & He & (_ & _ & HG) & _). exists s'. split; [done|].
  intros Hf Hz H9. unfold terminated in Hz. rewrite is_terminated_has in Hz. rewrite is_write_paused_has in H9.
  destruct (HG Hf) as [[[_ _ _ _ Hsc] _] [[|?]|Hsv]]; [unfold hasf in *; congruence|done|].
  destruct (Hsv H9) as [|[_ H11]]; [by left|right]. by apply Hsc.
Qed.

(** C25. The descriptor is closed at most once, and exactly when both of its
    owners are gone: the task of the stream has returned, the handle was
    dropped, and neither drop waits in the queue. *)
Theorem descriptor_closed_once id cfg socket m ops :
  so_sent socket = [] -> Forall op_ok ops ->
  exists s, sys_exec ops (sys_new id cfg socket m) = Done s /\
    let d := cx_drv (sy_io s) in
    (pd_closes d <= 1)%nat /\
    (pd_closes d = 1%nat <->
     sy_task s = TaskDone /\ io_handle (cx_io (sy_io s)) = false /\
     (DelayedStream ∉ pd_delayed_feed d) /\ (DelayedWeak ∉ pd_delayed_feed d)).
Proof.
  intros Hso Hops. destruct (exec_ok ops _ Hops (new_ok (F := F) (L := L) (G := G) id cfg socket m Hso)) as (s & He & Hs & _).
  exists s. split; [done|]. destruct (sys_ok_owners s Hs) as [Ho _]. split.
  - rewrite (ow_closed _ _ _ Ho). destruct (pd_item _); cbn; lia.
  - rewrite (owners_closed _ _ _ Ho), !queued_zero. fold (handle_of (sy_io s)).
    assert (task_alive (sy_task s) = false <-> sy_task s = TaskDone) as -> by (by destruct (sy_task s)). tauto.
Qed.

(** A state that a program reaches from a new stream. *)
Definition reached s : Prop := exists id cfg socket m ops,
  so_sent socket = [] /\ Forall op_ok ops /\ sys_exec ops (sys_new id cfg socket m) = Done s.

Lemma reached_ok s : reached s -> sys_ok s /\ filter_of (sy_io s) = Some [].
Proof.
  intros (id & cfg & socket & m & ops & Hso & Hops & He).
  destruct (exec_ok ops _ Hops (new_ok (F := F) (L := L) (G := G) id cfg socket m Hso)) as (s' & He' & Hs & K).
  rewrite He in He'. injection He' as <-. split; [done|]. by apply K.
Qed.

(** Working off the delayed work of the reactor ends, although an entry may
    add another one: from every reachable state, with as many rounds as there
    are entries and two more, the queue is empty afterwards. *)
Theorem delayed_feed_terminates fuel s :
  reached s -> sy_failed s = false -> (2 + length (pd_delayed_feed (cx_drv (sy_io s))) <= fuel)%nat ->
  exists c', check_delayed_feed fuel (sy_io s) = Done (tt, c') /\ pd_delayed_feed (cx_drv c') = [].
Proof.
  intros [Hs _]%reached_ok Hf Hfuel. destruct (sys_ok_good s Hf Hs) as [HG _].
  destruct (check_delayed_feed_spec fuel _ _ _ HG) as ([] & c' & He & _ & Hq & _); [lia|]. by exists c'.
Qed.

(** C26. A graceful close sends everything first: when the filters of a stream
    without layers are shut down before the timeout, and the stream is stopped
    by that, the socket has taken all the accepted output and nothing is
    buffered. *)
Theorem graceful_close_sends_all now s :
  reached s -> sy_failed s = false -> is_stopping (io_flags (cx_io (sy_io s))) = false ->
  (forall deadline, io_shutdown_timeout (cx_io (sy_io s)) = Some deadline -> now < deadline) ->
  exists c', shutdown_filters now (sy_io s) = Done (tt, c') /\
    (is_stopping (io_flags (cx_io c')) = true -> is_terminated (io_flags (cx_io c')) = false ->
     poll_sent (cx_drv c') = sy_acc s /\ out_size (io_buffer (cx_io c')) = 0).
Proof.
  intros [Hs Hpl]%reached_ok Hf H1 Ht. destruct (sys_ok_good s Hf Hs) as [HG Hm]. rewrite is_stopping_has in H1.
  destruct (shutdown_filters_plain _ poll_sent now _ _ (strict_waives _) HG Hm Hpl H1 Ht) as ([] & c' & He & Hc'). exists c'. split; [done|].
  rewrite is_stopping_has, is_terminated_has. intros Hx Hy. by destruct (Hc' Hx Hy) as (? & ? & _).
Qed.

(** What a caller of [try_write_vectored] does: the rest is buffered. *)
Definition write_direct (bufs : list (list byte)) : M (Cx F L (PollDrv G S)) (result ()) :=
  r ← try_write_vectored bufs;
  match r with inr e => mret (inr e) | inl n => encode_slice (zdrop n (concat bufs)) end.

(** C31. Writing straight to the socket and buffering the rest is equivalent to
    buffering everything: in every reachable state both return, and when they
    succeed the same bytes follow each other in the socket and the buffer. *)
Theorem direct_write_same_stream bufs s :
  reached s -> sy_failed s = false ->
  exists r1 c1 r2 c2,
    write_direct bufs (sy_io s) = Done (r1, c1) /\ encode_slice (concat bufs) (sy_io s) = Done (r2, c2) /\
    (r1 = inl tt -> r2 = inl tt ->
     is_terminated (io_flags (cx_io c1)) = false -> is_terminated (io_flags (cx_io c2)) = false ->
     poll_sent (cx_drv c1) ++ wcontent (io_buffer (cx_io c1)) 0 = sy_acc s ++ concat bufs /\
     poll_sent (cx_drv c1) ++ wcontent (io_buffer (cx_io c1)) 0 = poll_sent (cx_drv c2) ++ wcontent (io_buffer (cx_io c2)) 0).
Proof.
  intros [Hs Hpl]%reached_ok Hf. destruct (sys_ok_good s Hf Hs) as [HG Hm].
  set (P := fun (r : result ()) c' => (r = inl tt -> is_terminated (io_flags (cx_io c')) = false ->
    poll_sent (cx_drv c') ++ wcontent (io_buffer (cx_io c')) 0 = sy_acc s ++ concat bufs)).
  assert (forall acc c bs, Good (free (task_alive (sy_task s))) poll_sent true acc c -> is_Some (cx_mgr c) -> filter_of c = Some [] ->
    acc ++ bs = sy_acc s ++ concat bufs -> runs (encode_slice bs) c P) as Henc.
  { intros acc c bs HG' Hm' Hpl' Hacc. eapply runs_conseq; [by apply (with_write_buf_spec (free (task_alive (sy_task s))) poll_sent (fun b => (tt, b ++ bs)) bs acc)|].
    intros r c' [HGc K] -> Hz. rewrite is_terminated_has in Hz. destruct HGc as [[_ [|[_ Hst]]] _]; [unfold hasf in *; congruence|].
    rewrite <- Hacc. by apply Hst, K. }
  destruct (Henc _ _ (concat bufs) HG Hm Hpl eq_refl) as (r2 & c2 & He2 & HP2).
  assert (runs (write_direct bufs) (sy_io s) P) as (r1 & c1 & He1 & HP1).
  { apply runs_bind. eapply runs_conseq; [by apply (try_write_vectored_spec (free (task_alive (sy_task s))) poll_sent bufs (sy_acc s))|].
    intros [n|e] c [K Hr]; [|by apply runs_ret]. destruct Hr as (Hn & HG' & _). eapply (Henc (sy_acc s ++ ztake n (concat bufs)));
      [by apply HG'|by apply K|by apply K|]. by rewrite <- app_assoc, ztake_zdrop. }
  exists r1, c1, r2, c2. do 2 (split; [done|]). intros Hr1 Hr2 Hz1 Hz2. split; [by apply HP1|]. rewrite HP1, HP2; done.
Qed.

(** ** Where the code does something else *)

(** [close_with] loses the reason it is meant to keep: called on a stream
    that has an error, it leaves none, although the first reason should
    stand. *)
Theorem close_with_loses_reason first err c :
  io_error (cx_io c) = Some first ->
  exists c', close_with err c = Done (tt, c') /\ io_error (cx_io c') = None.
Proof.
  intros He. assert (runs (close_with err) c (fun _ c' => io_error (cx_io c') = None)) as ([] & c' & ? & ?); [|by exists c'].
  unfold close_with. apply runs_bind, runs_gets, runs_bind, runs_modify. rewrite He.
  apply runs_bind, runs_bind, runs_gets, runs_bind, runs_modify, runs_modify, runs_bind, runs_flag. cbn [cx_io upd_io set_error io_flags].
  destruct (is_stopping_any _); [by apply runs_ret|]. by apply runs_bind, runs_modify, runs_bind, runs_modify, runs_modify.
Qed.

(** The end of the task of a stream that is closed changes the driver only. *)
Lemma finish_closed r acc c :
  Good (free true) poll_sent true acc c -> is_closed (io_flags (cx_io c)) = true ->
  runs (run_finish r) c (fun _ c' => cx_io c' = cx_io c /\ cx_woken c' = cx_woken c).
Proof.
  intros [[[_ _ _ [Hs Ho] _] _] _] Hcl. destruct (owners_item _ _ _ Ho) as [i Hi]; [by left|].
  unfold run_finish. apply runs_bind. apply (runs_conseq _ _ (fun _ c' => cx_io c' = cx_io c /\ cx_woken c' = cx_woken c)).
  2:{ intros [] c' [Hio Hw]. apply runs_bind, runs_flag. rewrite Hio, Hcl. by apply runs_ret. }
  unfold stream_ctl_drop. apply runs_bind, runs_gets. rewrite Hs. apply runs_bind, runs_modify, runs_bind.
  unfold drop_stream, item. apply runs_bind, runs_bind, runs_gets. cbn. rewrite Hi. apply runs_ret, runs_bind, runs_flag. cbn. rewrite Hcl.
  apply runs_bind, runs_ret, runs_bind, runs_modify, runs_bind, runs_bind, runs_gets. cbn. rewrite Hi. apply runs_ret.
  destruct (gcontains _ _); by apply runs_modify, runs_modify.
Qed.

(** After a graceful close nobody is told of the end: when the stream was
    stopped by the shutdown of its filters, the end of the driver's task wakes
    none of the tasks that wait for the disconnect, and their wakers stay
    registered. *)
Theorem graceful_close_wakes_no_waiter r s :
  reached s -> sy_failed s = false -> sy_task s = TaskShut -> is_stopping (io_flags (cx_io (sy_io s))) = true ->
  exists c', task_finish r (sy_task s) (sy_io s) = Done (TaskDone, c') /\
    io_disconnect (cx_io c') = io_disconnect (cx_io (sy_io s)) /\ cx_woken c' = cx_woken (sy_io s).
Proof.
  intros [Hs Hpl]%reached_ok Hf Ht H1. destruct (sys_ok_good s Hf Hs) as [HG _]. rewrite Ht in *.
  destruct (finish_closed r _ _ HG) as ([] & c' & He & Hio & Hw).
  { rewrite is_stopping_has in H1. rewrite is_closed_has, H1. by rewrite ?orb_true_r. }
  exists c'. split; [|by rewrite Hio]. unfold task_finish, mbind, M_bind. by rewrite He.
Qed.
End props.

(** ** Concrete programs *)

Definition ex_new : Sys Z TestLayer (PollDrv Z TestSocket) := ex_sys ex_cfg 2 [].
(** A task waits for the end, three bytes are sent in two calls of the socket,
    and the stream is closed. *)
Definition ex_send : list (io_op () ()) :=
  [OpOnDisconnect 3; OpWrite [1; 2; 3]; OpTaskPoll 0 7; OpSendScheduled; OpTaskPoll 0 7; OpEvent false true false].
Definition ex_close : list (io_op () ()) := ex_send ++ [OpClose; OpTaskPoll 0 7; OpTaskPoll 1 7].

Definition ex_state (ops : list (io_op () ())) : Sys Z TestLayer (PollDrv Z TestSocket) :=
  match sys_exec ops ex_new with Done s => s | Fault _ => ex_new end.

Lemma ex_state_eq ops s : sys_exec ops ex_new = Done s -> s = ex_state ops.
Proof. intros He. unfold ex_state. by rewrite He. Qed.

Ltac ex_ops := repeat constructor.
Ltac ex_eval := vm_compute; reflexivity.
(** That the state of an example is reached. *)
Ltac ex_reached ops :=
  exists (Some 1%nat), ex_cfg, (mkTestSocket [] 2 []), ex_mgr, ops; split; [reflexivity|split; [ex_ops|ex_eval]].

Lemma stream_steps_keep_invariant_witness : sys_ok ex_new /\ exists s', sys_exec ex_close ex_new = Done s' /\ sys_ok s'.
Proof.
  destruct (stream_steps_keep_invariant (F := Z) (L := TestLayer) (G := Z) (S := TestSocket) (Item := ()) (Err := ())) as [Hnew Hrun].
  assert (sys_ok ex_new) as Hok by (apply Hnew; reflexivity). split; [exact Hok|]. apply Hrun; [ex_ops|exact Hok].
Defined.

Lemma output_in_order_witness : exists s, sys_exec ex_send ex_new = Done s /\
  (terminated s = false -> sys_sent s ++ sys_buffered s = sy_acc s) /\ terminated s = false /\ sy_acc s = [1; 2; 3].
Proof.
  destruct (output_in_order (F := Z) (L := TestLayer) (G := Z) (Some 1%nat) ex_cfg (mkTestSocket [] 2 []) ex_mgr ex_send) as (s & He & Hs);
    [reflexivity|ex_ops|]. exists s. split; [exact He|]. split; [exact Hs|].
  rewrite (ex_state_eq ex_send s He). split; ex_eval.
Defined.

Lemma output_not_stranded_witness : exists s', sys_exec ex_send ex_new = Done s' /\
  (sy_failed s' = false -> terminated s' = false -> is_write_paused (io_flags (cx_io (sy_io s'))) = true ->
   out_size (io_buffer (cx_io (sy_io s'))) = 0 \/
   exists m, cx_mgr (sy_io s') = Some m /\ io_id (cx_io (sy_io s')) ∈ ip_ops (mg_iops m) /\ ip_running (mg_iops m) = true).
Proof. apply (output_not_stranded ex_send ex_new); [ex_ops|]. apply new_ok. reflexivity. Defined.

(** The program that ends with both owners gone. *)
Definition ex_end : list (io_op () ()) := ex_close ++ [OpTaskFinish None; OpTerminate].

Lemma descriptor_closed_once_witness : exists s, sys_exec ex_end ex_new = Done s /\ pd_closes (cx_drv (sy_io s)) = 1%nat.
Proof.
  destruct (descriptor_closed_once (F := Z) (L := TestLayer) (G := Z) (Some 1%nat) ex_cfg (mkTestSocket [] 2 []) ex_mgr ex_end)
    as (s & He & _ & Hs); [reflexivity|ex_ops|]. exists s. split; [exact He|]. apply Hs.
  rewrite (ex_state_eq ex_end s He).
  assert (pd_delayed_feed (cx_drv (sy_io (ex_state ex_end))) = []) as -> by ex_eval.
  split; [ex_eval|]. split; [ex_eval|]. split; apply not_elem_of_nil.
Defined.

Lemma delayed_feed_terminates_witness : exists c', check_delayed_feed 2 (sy_io (ex_state ex_close)) = Done (tt, c') /\
  pd_delayed_feed (cx_drv c') = [].
Proof. apply (delayed_feed_terminates (Item := ()) (Err := ()) 2 (ex_state ex_close)); [ex_reached ex_close|ex_eval|vm_compute; lia]. Defined.

Definition ex_closing : list (io_op () ()) := ex_send ++ [OpClose].
Lemma graceful_close_sends_all_witness : exists c', shutdown_filters 0 (sy_io (ex_state ex_closing)) = Done (tt, c') /\
  (is_stopping (io_flags (cx_io c')) = true -> is_terminated (io_flags (cx_io c')) = false ->
   poll_sent (cx_drv c') = sy_acc (ex_state ex_closing) /\ out_size (io_buffer (cx_io c')) = 0).
Proof.
  apply (graceful_close_sends_all (Item := ()) (Err := ()) 0 (ex_state ex_closing)); [ex_reached ex_closing|ex_eval|ex_eval|].
  intros d Hd. vm_compute in Hd. discriminate.
Defined.

Lemma direct_write_same_stream_witness : exists r1 c1 r2 c2,
  write_direct [[4; 5]; [6]] (sy_io (ex_state ex_send)) = Done (r1, c1) /\
  encode_slice [4; 5; 6] (sy_io (ex_state ex_send)) = Done (r2, c2) /\
  (r1 = inl tt -> r2 = inl tt ->
   is_terminated (io_flags (cx_io c1)) = false -> is_terminated (io_flags (cx_io c2)) = false ->
   poll_sent (cx_drv c1) ++ wcontent (io_buffer (cx_io c1)) 0 = sy_acc (ex_state ex_send) ++ [4; 5; 6] /\
   poll_sent (cx_drv c1) ++ wcontent (io_buffer (cx_io c1)) 0 = poll_sent (cx_drv c2) ++ wcontent (io_buffer (cx_io c2)) 0).
Proof.
  apply (direct_write_same_stream (Item := ()) (Err := ()) [[4; 5]; [6]] (ex_state ex_send)); [ex_reached ex_send|ex_eval].
Defined.

Lemma close_with_loses_reason_witness :
  let c := upd_io (set_error (Some closing)) (sy_io ex_new) in
  exists c', close_with disconnected c = Done (tt, c') /\ io_error (cx_io c') = None.
Proof. apply (close_with_loses_reason closing). reflexivity. Defined.

Lemma graceful_close_wakes_no_waiter_witness : exists c',
  task_finish None TaskShut (sy_io (ex_state ex_close)) = Done (TaskDone, c') /\
  io_disconnect (cx_io c') = Some [Some 3%nat] /\ cx_woken c' = [7; 7; 7]%nat.
Proof.
  destruct (graceful_close_wakes_no_waiter (Item := ()) (Err := ()) None (ex_state ex_close)) as (c' & He & Hd & Hw);
    [ex_reached ex_close|ex_eval|ex_eval|ex_eval|].
  exists c'. split; [rewrite <- He; f_equal; ex_eval|]. split; [rewrite Hd; ex_eval|rewrite Hw; ex_eval].
Defined.
