(* ===== verification/Dispatcher.v ===== *)
(** * [dispatcher]: frames from a stream to a service

    Models geario/src/dispatcher/mod.rs.  The dispatcher decodes frames from
    its stream and passes them to the service, a pipeline over code of the
    user, which is a type class: it may be asked for readiness, called, and
    shut down, and what it does may change the stream, to which it has a
    reference.  A call is a future; the first one that is not ready at once is
    kept in the dispatcher, the others are spawned. *)
From Stdlib Require Import ZArith Lia.
From stdpp Require Import base numbers list.
From S2P Require Import Prelude Deps Task IoConfig IoFlags IoBuf IoTimers IoState IoRef.

Definition READY_ERR : Z := 1.
Definition IO_ERR : Z := 2.
Definition KA_ENABLED : Z := 4.
Definition KA_TIMEOUT : Z := 8.
Definition READ_TIMEOUT : Z := 16.
Definition IDLE : Z := 32.

Inductive Control := WBackPressureEnabled | WBackPressureDisabled.
Inductive DispatcherState := Processing | Backpressure | Stop | Shutdown.

Section types.
Context {Item EncErr DecErr Err : Type}.

Inductive Reason :=
  | ReasonIo (e : option IoError)
  | ReasonEncoder (e : EncErr)
  | ReasonDecoder (e : DecErr)
  | KeepAliveTimeout
  | ReadTimeout.

Inductive DispatchItem := DispItem (item : Item) | DispControl (c : Control) | DispStop (r : Reason).

Inductive DispatcherError := ErrEncoder (e : EncErr) | ErrService (e : Err).

Inductive PollService := PsItem (item : DispatchItem) | PsItemWait (item : DispatchItem) | PsContinue | PsReady.
End types.
Arguments Reason : clear implicits.
Arguments DispatchItem : clear implicits.
Arguments DispatcherError : clear implicits.
Arguments PollService : clear implicits.

(** What the dispatcher works on: the stream and the service. *)
Record World (F L D V : Type) := mkWorld { wd_io : Cx F L D; wd_sv : V }.
Arguments mkWorld {F L D V}.
Arguments wd_io {F L D V}.
Arguments wd_sv {F L D V}.

(** [Pipeline] and the futures of its calls, of type [C].  [nowait] tells
    [call_nowait] from [call_static]. *)
Class Service (W C I R Err : Type) := {
  sv_poll_ready : waker -> M W (Poll (() + Err));
  sv_call : bool -> I -> M W C;
  sv_poll : waker -> C -> M W (Poll (option R + Err) * C);
  sv_poll_shutdown : waker -> M W (Poll ());
}.

Section dispatcher.
Context {F : Type} `{!Bitflags F} {L : Type} `{!FilterLayer L} {D : Type} `{!HandleDrop D} `{!Handle F L D}.
Context {Item Resp EncErr DecErr Err : Type} {V C : Type} {H : Type} `{!Bitflags H}.

Abbreviation DItem := (DispatchItem Item EncErr DecErr) (only parsing).

Context `{!Service (World F L D V) C DItem Resp Err}.

(** The codec. *)
Variable (codec : Decoder Item DecErr) (encodev : Resp -> list byte -> (() + EncErr) * list byte).

(** [DispatcherInner] and [DispatcherShared]; [dp_spawned] are the calls that
    run in tasks of their own. *)
Record Disp := mkDisp {
  dp_st : DispatcherState;
  dp_error : option Err;
  dp_response : option C;
  dp_read_remains : Z;
  dp_read_remains_prev : Z;
  dp_read_max_timeout : Z;
  dp_flags : H;
  dp_shared_error : option (DispatcherError EncErr Err);
  dp_inflight : Z;
  dp_spawned : list C;
  dp_world : World F L D V;
}.
Definition set_dp_st (x : DispatcherState) (d : Disp) : Disp :=
  mkDisp x (dp_error d) (dp_response d) (dp_read_remains d) (dp_read_remains_prev d) (dp_read_max_timeout d)
    (dp_flags d) (dp_shared_error d) (dp_inflight d) (dp_spawned d) (dp_world d).
Definition set_dp_error (x : option Err) (d : Disp) : Disp :=
  mkDisp (dp_st d) x (dp_response d) (dp_read_remains d) (dp_read_remains_prev d) (dp_read_max_timeout d)
    (dp_flags d) (dp_shared_error d) (dp_inflight d) (dp_spawned d) (dp_world d).
Definition set_dp_response (x : option C) (d : Disp) : Disp :=
  mkDisp (dp_st d) (dp_error d) x (dp_read_remains d) (dp_read_remains_prev d) (dp_read_max_timeout d)
    (dp_flags d) (dp_shared_error d) (dp_inflight d) (dp_spawned d) (dp_world d).
Definition set_dp_read (remains prev max : Z) (d : Disp) : Disp :=
  mkDisp (dp_st d) (dp_error d) (dp_response d) remains prev max
    (dp_flags d) (dp_shared_error d) (dp_inflight d) (dp_spawned d) (dp_world d).
Definition set_dp_flags (x : H) (d : Disp) : Disp :=
  mkDisp (dp_st d) (dp_error d) (dp_response d) (dp_read_remains d) (dp_read_remains_prev d) (dp_read_max_timeout d)
    x (dp_shared_error d) (dp_inflight d) (dp_spawned d) (dp_world d).
Definition set_dp_shared_error (x : option (DispatcherError EncErr Err)) (d : Disp) : Disp :=
  mkDisp (dp_st d) (dp_error d) (dp_response d) (dp_read_remains d) (dp_read_remains_prev d) (dp_read_max_timeout d)
    (dp_flags d) x (dp_inflight d) (dp_spawned d) (dp_world d).
Definition set_dp_inflight (x : Z) (d : Disp) : Disp :=
  mkDisp (dp_st d) (dp_error d) (dp_response d) (dp_read_remains d) (dp_read_remains_prev d) (dp_read_max_timeout d)
    (dp_flags d) (dp_shared_error d) x (dp_spawned d) (dp_world d).
Definition set_dp_spawned (x : list C) (d : Disp) : Disp :=
  mkDisp (dp_st d) (dp_error d) (dp_response d) (dp_read_remains d) (dp_read_remains_prev d) (dp_read_max_timeout d)
    (dp_flags d) (dp_shared_error d) (dp_inflight d) x (dp_world d).
Definition set_dp_world (x : World F L D V) (d : Disp) : Disp :=
  mkDisp (dp_st d) (dp_error d) (dp_response d) (dp_read_remains d) (dp_read_remains_prev d) (dp_read_max_timeout d)
    (dp_flags d) (dp_shared_error d) (dp_inflight d) (dp_spawned d) x.

Abbreviation DM A := (M Disp A) (only parsing).

(** Calls of the stream and of the service. *)
Definition on_world {A} (c : M (World F L D V) A) : DM A := fun d =>
  match c (dp_world d) with Done (a, w) => Done (a, set_dp_world w d) | Fault f => Fault f end.
Definition on_stream {A} (c : M (Cx F L D) A) : M (World F L D V) A := fun w =>
  match c (wd_io w) with Done (a, s) => Done (a, mkWorld s (wd_sv w)) | Fault f => Fault f end.
Definition on_io {A} (c : M (Cx F L D) A) : DM A := on_world (on_stream c).

(** [DispatcherShared::contains], which tests for any of the flags. *)
Definition dp_contains (n : Z) : DM bool := getsS (fun d => fl_intersects (dp_flags d) (fl_of n)).
Definition insert_flags (n : Z) : DM () := modifyS (fun d => set_dp_flags (fl_insert (dp_flags d) (fl_of n)) d).
Definition remove_flags (n : Z) : DM bool :=
  b ← dp_contains n;
  (if (b : bool) then modifyS (fun d => set_dp_flags (fl_remove (dp_flags d) (fl_of n)) d) else mret tt);;
  mret b.

Definition handle_result (item : option Resp + Err) (wake : bool) : DM () :=
  (match item with
   | inl (Some val) =>
       r ← on_io (encode (encodev val));
       match r with inr err => modifyS (set_dp_shared_error (Some (ErrEncoder err))) | inl _ => mret tt end
   | inr err => modifyS (set_dp_shared_error (Some (ErrService err)))
   | inl None => mret tt
   end);;
  n ← getsS dp_inflight;
  inflight ← liftS (checked_sub n 1);
  modifyS (set_dp_inflight inflight);;
  (if inflight =? 0 then insert_flags IDLE else mret tt);;
  (if wake then on_io wake_dispatch_task else mret tt).

Definition call_service (w : waker) (item : DItem) (nowait : bool) : DM () :=
  fut ← on_world (sv_call nowait item);
  n ← getsS dp_inflight;
  inflight ← liftS (checked_add u32_modulus n 1);
  modifyS (set_dp_inflight inflight);;
  (if inflight =? 1 then remove_flags IDLE;; mret tt else mret tt);;
  resp ← getsS dp_response;
  match resp with
  | None =>
      '(r, fut) ← on_world (sv_poll w fut);
      match r with
      | Ready result => handle_result result false
      | Pending => modifyS (set_dp_response (Some fut))
      end
  | Some _ => modifyS (fun d => set_dp_spawned (dp_spawned d ++ [fut]) d)
  end.

Definition check_error : DM (PollService Item EncErr DecErr) :=
  e ← getsS dp_shared_error;
  match e with
  | Some err =>
      modifyS (set_dp_shared_error None);;
      modifyS (set_dp_st Stop);;
      match err with
      | ErrEncoder err => mret (PsItem (DispStop (ReasonEncoder err)))
      | ErrService err => modifyS (set_dp_error (Some err));; mret PsContinue
      end
  | None => mret PsReady
  end.

Definition poll_service (w : waker) : DM (Poll (PollService Item EncErr DecErr)) :=
  r ← on_world (sv_poll_ready w);
  match r with
  | Ready (inl _) => ps ← check_error; mret (Ready ps)
  | Pending =>
      remove_flags (Z.lor (Z.lor KA_TIMEOUT READ_TIMEOUT) IDLE);;
      on_io stop_timer;;
      r ← on_io (poll_read_pause w);
      match r with
      | Pending => mret Pending
      | Ready UpdKeepAlive =>
          ka ← dp_contains KA_ENABLED;
          if (ka : bool) then modifyS (set_dp_st Stop);; mret (Ready (PsItemWait (DispStop KeepAliveTimeout)))
          else mret (Ready PsContinue)
      | Ready (UpdPeerGone err) =>
          modifyS (set_dp_st Stop);; mret (Ready (PsItemWait (DispStop (ReasonIo err))))
      | Ready UpdWriteBackpressure =>
          modifyS (set_dp_st Backpressure);; mret (Ready (PsItemWait (DispControl WBackPressureEnabled)))
      end
  | Ready (inr err) =>
      modifyS (set_dp_st Stop);;
      modifyS (set_dp_error (Some err));;
      insert_flags READY_ERR;;
      mret (Ready PsContinue)
  end.

(** The timers; [elapsed] is the clock of the timers of streams. *)
Definition update_timer (elapsed : Z) (decoded : Decoded Item) : DM () :=
  d ← getsS (fun d => d);
  cfg ← on_io (get_io io_cfg);
  match dc_item decoded with
  | Some _ =>
      modifyS (set_dp_read 0 (dp_read_remains_prev d) (dp_read_max_timeout d));;
      remove_flags (Z.lor (Z.lor KA_TIMEOUT READ_TIMEOUT) IDLE);; mret tt
  | None =>
      rt ← dp_contains READ_TIMEOUT;
      if (rt : bool) then modifyS (set_dp_read (as_u32 (dc_remains decoded)) (dp_read_remains_prev d) (dp_read_max_timeout d))
      else if (dp_read_remains d =? 0) && (dc_remains decoded =? 0) then
        ke ← dp_contains KA_ENABLED;
        kt ← dp_contains KA_TIMEOUT;
        if (ke : bool) && negb kt then insert_flags KA_TIMEOUT;; on_io (start_timer elapsed (ic_keepalive_timeout cfg));; mret tt
        else mret tt
      else
        match ic_frame_read_rate cfg with
        | Some params =>
            insert_flags READ_TIMEOUT;;
            modifyS (set_dp_read (as_u32 (dc_remains decoded)) 0 (fr_max_timeout params));;
            on_io (start_timer elapsed (fr_timeout params));; mret tt
        | None => mret tt
        end
  end.

Definition handle_timeout (elapsed : Z) : DM (() + Reason EncErr DecErr) :=
  d ← getsS (fun d => d);
  rt ← dp_contains READ_TIMEOUT;
  if (rt : bool) then
    cfg ← on_io (get_io io_cfg);
    match ic_frame_read_rate cfg with
    | Some params =>
        total ← liftS (checked_sub (dp_read_remains d) (dp_read_remains_prev d));
        if fr_rate params <? total then
          let max := if fr_max_timeout params =? 0 then dp_read_max_timeout d
                     else Z.max 0 (dp_read_max_timeout d - fr_timeout params) in
          modifyS (set_dp_read 0 (dp_read_remains d) max);;
          if (fr_max_timeout params =? 0) || negb (max =? 0) then
            on_io (start_timer elapsed (fr_timeout params));; mret (inl tt)
          else mret (inr ReadTimeout)
        else mret (inr ReadTimeout)
    | None => mret (inl tt)
    end
  else
    k ← dp_contains (Z.lor KA_TIMEOUT IDLE);
    if (k : bool) then mret (inr KeepAliveTimeout) else mret (inl tt).

(** ** The future *)

(** One round of the loop of [poll]: [None] is another round. *)
Definition round_processing (elapsed : Z) (w : waker) : DM (option (Poll (() + Err))) :=
  r ← poll_service w;
  match r with
  | Pending => mret (Some Pending)
  | Ready PsReady =>
      r ← on_io (poll_recv_decode codec w);
      match r with
      | inl decoded =>
          update_timer elapsed decoded;;
          match dc_item decoded with
          | Some el => call_service w (DispItem el) true;; mret None
          | None => mret (Some Pending)
          end
      | inr RecvKeepAlive =>
          r ← handle_timeout elapsed;
          match r with
          | inr ctl => modifyS (set_dp_st Stop);; call_service w (DispStop ctl) true;; mret None
          | inl _ => mret None
          end
      | inr RecvWriteBackpressure =>
          modifyS (set_dp_st Backpressure);; call_service w (DispControl WBackPressureEnabled) true;; mret None
      | inr (RecvDecoder err) => modifyS (set_dp_st Stop);; call_service w (DispStop (ReasonDecoder err)) true;; mret None
      | inr (RecvPeerGone err) => modifyS (set_dp_st Stop);; call_service w (DispStop (ReasonIo err)) true;; mret None
      end
  | Ready (PsItem item) => call_service w item true;; mret None
  | Ready (PsItemWait item) => call_service w item false;; mret None
  | Ready PsContinue => mret None
  end.

(** The end of the round in back-pressure, after the service was polled. *)
Definition round_flush (w : waker) : DM (option (Poll (() + Err))) :=
  r ← on_io (poll_flush w false);
  match r with
  | Pending => mret (Some Pending)
  | Ready (inr err) => modifyS (set_dp_st Stop);; call_service w (DispStop (ReasonIo (Some err))) false;; mret None
  | Ready (inl _) =>
      modifyS (set_dp_st Processing);; call_service w (DispControl WBackPressureDisabled) false;; mret None
  end.
Definition round_backpressure (w : waker) : DM (option (Poll (() + Err))) :=
  r ← poll_service w;
  match r with
  | Pending => mret (Some Pending)
  | Ready PsReady | Ready (PsItemWait (DispControl WBackPressureEnabled)) => round_flush w
  | Ready (PsItem item) => call_service w item true;; round_flush w
  | Ready (PsItemWait item) => call_service w item false;; round_flush w
  | Ready PsContinue => mret None
  end.

(** The end of the round that stops: without calls in flight, and with some. *)
Definition round_stop_idle (w : waker) : DM (option (Poll (() + Err))) :=
  r ← on_io (poll_shutdown w);
  match r with
  | Ready _ => modifyS (set_dp_st Shutdown);; mret None
  | Pending => mret (Some Pending)
  end.
Definition round_stop_busy (w : waker) : DM (option (Poll (() + Err))) :=
  ioerr ← dp_contains IO_ERR;
  if negb ioerr then
    r ← on_io (poll_status_update w);
    match r with
    | Pending => mret (Some Pending)
    | Ready (UpdPeerGone _) | Ready UpdKeepAlive => insert_flags IO_ERR;; mret None
    | Ready UpdWriteBackpressure =>
        r ← on_io (poll_flush w true);
        match r with
        | Pending => mret (Some Pending)
        | Ready (inr _) => insert_flags IO_ERR;; mret None
        | Ready (inl _) => mret None
        end
    end
  else on_io (poll_dispatch w);; mret (Some Pending).
Definition round_stop (w : waker) : DM (option (Poll (() + Err))) :=
  on_io stop_timer;;
  re ← dp_contains READY_ERR;
  (if (re : bool) then mret tt
   else
     r ← on_world (sv_poll_ready w);
     match r with Ready (inr _) => insert_flags READY_ERR | _ => mret tt end);;
  n ← getsS dp_inflight;
  if n =? 0 then round_stop_idle w else round_stop_busy w.

Definition round_shutdown (w : waker) : DM (option (Poll (() + Err))) :=
  r ← on_world (sv_poll_shutdown w);
  match r with
  | Ready _ =>
      e ← getsS dp_error;
      modifyS (set_dp_error None);;
      mret (Some (Ready (match e with Some err => inr err | None => inl tt end)))
  | Pending => mret (Some Pending)
  end.

Definition dispatcher_round (elapsed : Z) (w : waker) : DM (option (Poll (() + Err))) :=
  st ← getsS dp_st;
  match st with
  | Processing => round_processing elapsed w
  | Backpressure => round_backpressure w
  | Stop => round_stop w
  | Shutdown => round_shutdown w
  end.

Fixpoint dispatcher_loop (fuel : nat) (elapsed : Z) (w : waker) : DM (Poll (() + Err)) :=
  match fuel with
  | O => failS Diverges
  | S fuel =>
      r ← dispatcher_round elapsed w;
      match r with Some p => mret p | None => dispatcher_loop fuel elapsed w end
  end.

(** The call that is kept is polled first. *)
Definition poll_response (w : waker) : DM () :=
  resp ← getsS dp_response;
  match resp with
  | None => mret tt
  | Some fut =>
      '(r, fut) ← on_world (sv_poll w fut);
      match r with
      | Ready item => handle_result item false;; modifyS (set_dp_response None)
      | Pending => modifyS (set_dp_response (Some fut))
      end
  end.

Definition dispatcher_poll (fuel : nat) (elapsed : Z) (w : waker) : DM (Poll (() + Err)) :=
  poll_response w;; dispatcher_loop fuel elapsed w.

(** A poll of the task of the [i]-th spawned call. *)
Definition spawned_poll (i : nat) (w : waker) : DM () :=
  calls ← getsS dp_spawned;
  match calls !! i with
  | None => mret tt
  | Some fut =>
      '(r, fut) ← on_world (sv_poll w fut);
      match r with
      | Ready result => modifyS (fun d => set_dp_spawned (delete i (dp_spawned d)) d);; handle_result result true
      | Pending => modifyS (fun d => set_dp_spawned (<[i := fut]> (dp_spawned d)) d)
      end
  end.

(** [Dispatcher::new]. *)
Definition dispatcher_new (world : World F L D V) : Disp :=
  mkDisp Processing None None 0 0 0
    (if ic_keepalive_timeout (io_cfg (cx_io (wd_io world))) =? 0 then fl_empty else fl_of KA_ENABLED) None 0 [] world.
End dispatcher.
Arguments Disp F L D EncErr Err V C H : clear implicits.
