(* ===== verification/DispatcherInv.v ===== *)
(** * The dispatcher keeps its books and its stream

    Each round of the dispatcher of [Dispatcher.v] returns, keeps the
    invariant of its stream, and counts its calls right. *)
From Stdlib Require Import ZArith Lia.
From stdpp Require Import base numbers gmap list sets.
From S2P Require Import Prelude Deps Task IoConfig IoFlags IoBuf IoChain IoTimers IoState IoInv IoRef IoKeeps IoOutput.
From S2P Require Import Dispatcher.

(** Room for a timeout of 16 bits on the clock of 32 bits of the timers. *)
Definition clock_max : Z := u32_modulus - 65538.
Definition clock_ok (t : TimerStorage) : Prop := 0 <= ts_current t <= clock_max.

Section stream.
Context {F : Type} `{!Bitflags F} `{!BitflagsLaws F} {L : Type} `{!FilterLayer L} `{!FilterLayerLaws L}.
Context {D : Type} `{!HandleDrop D} `{!Waive D} `{!Handle F L D} (Q : bool -> D -> Prop) (sent : D -> list byte) `{!HandleLaws Q sent}.
Implicit Types (c : Cx F L D).

(** ** The stream of a dispatcher *)

Definition stream_ok c : Prop :=
  filter_of c = Some [] /\ (exists m, cx_mgr c = Some m /\ clock_ok (mg_timers m)) /\ exists acc, Good Q sent true acc c.

(** What does not change: the configuration, and the end of the stream. *)
Definition life c c' : Prop := io_cfg (cx_io c') = io_cfg (cx_io c) /\ forall k, k ∈ [0; 1; 2] -> hasf k c = true -> hasf k c' = true.
#[export] Instance life_preorder : PreOrder life.
Proof. split; [by intros c|]. intros c1 c2 c3 [E1 L1] [E2 L2]. split; [congruence|auto]. Qed.

Definition safe {A} (op : M (Cx F L D) A) : Prop := forall c, stream_ok c -> runs op c (fun _ c' => stream_ok c' /\ life c c').

Lemma held_safe acc c c' : stream_ok c -> held c c' -> Good Q sent true acc c' -> stream_ok c' /\ life c c'.
Proof.
  intros (Hf & (m & Hm & Hc) & _) [Hid Hcfg Hmgr Hlife Hpl Ht] HG. split; [|by split]. split; [auto|]. split; [|by exists acc].
  destruct Hmgr as [m' Hm']; [by eexists|]. rewrite Hm, Hm' in Ht. injection Ht as Ht. exists m'. split; [done|]. by rewrite Ht.
Qed.

Lemma safe_keeps {A} (op : M (Cx F L D) A) : keeps Q sent op -> safe op.
Proof.
  intros Hk c Hc. pose proof Hc as (_ & (m & Hm & _) & acc & HG). eapply runs_conseq; [apply Hk; [done|by eexists]|].
  intros a c' [HG' K]. by eapply held_safe.
Qed.

Lemma safe_encode {E} (f : list byte -> (() + E) * list byte) : (exists bs, forall b, (f b).2 = b ++ bs) -> safe (encode f).
Proof.
  intros [bs Hf] c Hc. pose proof Hc as (_ & (m & Hm & _) & acc & HG). unfold encode. apply runs_bind.
  eapply runs_conseq; [apply (with_write_buf_spec Q sent f bs acc); [done|done|by eexists]|]. intros r c' [HG' K]. apply runs_ret.
  by eapply held_safe.
Qed.

(** A stream without layers has none that fails to flush. *)
Lemma safe_flush w full : safe (poll_flush w full).
Proof.
  intros c Hc. pose proof Hc as (Hf & (m & Hm & _) & acc & HG).
  eapply runs_conseq; [apply (poll_flush_spec Q sent w full acc); [done|by eexists]|].
  intros r c' (K & _ & [HG'|(e & c1 & He)]); [by eapply held_safe|]. by rewrite (force_plain c Hf) in He.
Qed.

(** ** Timers *)

Lemma good_timers acc m t c :
  Good Q sent true acc c -> cx_mgr c = Some m -> Good Q sent true acc (set_mgr (Some (set_mg_timers t m)) c).
Proof.
  intros [[[Hs Hfl Ht Hd Hsc] Hl] Hsv] Hm. split; [split; [split|]|]; try done.
  intros Hx. destruct (Hsc Hx) as (m' & Hm' & Hin & Hr). rewrite Hm in Hm'. injection Hm' as <-. by exists (set_mg_timers t m).
Qed.

Lemma safe_timers {A} (ts : M TimerStorage A) : (forall t, clock_ok t -> runs ts t (fun _ t' => clock_ok t')) -> safe (mgr_with (on_timers ts)).
Proof.
  intros Hts c (Hf & (m & Hm & Hc) & acc & HG). destruct (Hts _ Hc) as (a & t' & He & Hc').
  exists a, (set_mgr (Some (set_mg_timers t' m)) c). split; [unfold mgr_with, on_timers; by rewrite Hm, He|].
  split; [|by split]. split; [done|]. split; [by eexists|]. exists acc. by apply good_timers.
Qed.

Lemma clock_unregister hnd id t : clock_ok t -> runs (ts_unregister hnd id) t (fun _ t' => clock_ok t').
Proof. intros Hc. unfold ts_unregister. apply runs_bind, runs_get. case_match; [by apply runs_put|by apply runs_ret]. Qed.

Lemma clock_register elapsed timeout id t :
  clock_ok t -> 0 <= elapsed <= clock_max -> 0 <= timeout < u16_modulus -> runs (ts_register elapsed timeout id) t (fun _ t' => clock_ok t').
Proof.
  intros Hc He Ht. unfold clock_ok, clock_max in *. pose proof (eq_refl : u16_modulus = 65536). pose proof (eq_refl : u32_modulus = 4294967296).
  unfold ts_register. apply runs_bind, runs_get, runs_bind.
  apply (runs_conseq _ _ (fun _ t' => 0 <= ts_current t' <= u32_modulus - 65538)).
  { destruct (ts_running t); [by apply runs_ret|]. apply runs_modify. cbn. rewrite as_u32_small; lia. }
  intros [] t1 Hc1. apply runs_bind, runs_get, runs_bind. eapply runs_lift; [apply checked_add_ok; lia|].
  apply runs_bind, runs_modify, runs_bind. apply runs_bind, runs_get. destruct (ts_running _); [by apply runs_ret, runs_ret|by apply runs_put, runs_ret].
Qed.

Lemma clock_update hnd elapsed timeout id t :
  clock_ok t -> 0 <= elapsed <= clock_max -> 0 <= timeout < u16_modulus -> runs (ts_update hnd elapsed timeout id) t (fun _ t' => clock_ok t').
Proof.
  intros Hc He Ht. pose proof (eq_refl : u16_modulus = 65536). pose proof (eq_refl : u32_modulus = 4294967296).
  unfold ts_update. apply runs_bind, runs_get, runs_bind. eapply runs_lift; [apply checked_add_ok; unfold clock_ok, clock_max in *; lia|].
  apply runs_bind. apply (runs_conseq _ _ (fun _ t' => t' = t)).
  { destruct (_ =? _); [by apply runs_ret|]. apply runs_bind. eapply runs_lift; [apply checked_add_ok; unfold clock_ok, clock_max in *; lia|]. by apply runs_ret. }
  intros [] t1 ->; [by apply runs_ret|]. apply runs_bind. eapply runs_conseq; [by apply clock_unregister|]. intros [] t2 Hc2. by apply clock_register.
Qed.

(** ** Composition *)

Lemma safe_ret {A} (a : A) : safe (mret a).
Proof. intros c Hc. by apply runs_ret. Qed.
Lemma safe_bind {A B} (op : M (Cx F L D) A) (k : A -> M (Cx F L D) B) : safe op -> (forall a, safe (k a)) -> safe (op ≫= k).
Proof.
  intros H1 H2 c Hc. apply runs_bind. eapply runs_conseq; [by apply H1|]. intros a c1 [Hc1 K1].
  eapply runs_conseq; [by apply H2|]. intros b c2 [Hc2 K2]. split; [done|by etrans].
Qed.
Lemma safe_get {A} (g : IoState F L -> A) : safe (get_io g).
Proof. apply safe_keeps, keeps_reads, reads_get. Qed.
Lemma safe_set_timeout t : safe (mod_io (set_timeout t)).
Proof. apply safe_keeps, keeps_quiet. auto with quiet. Qed.

Lemma safe_start_timer elapsed timeout : 0 <= elapsed <= clock_max -> 0 <= timeout < u16_modulus -> safe (start_timer elapsed timeout).
Proof.
  intros He Ht. unfold start_timer. apply safe_bind; [apply safe_get|]. intros hnd. apply safe_bind; [apply safe_get|]. intros id.
  destruct (timeout =? 0); [|destruct (is_set hnd)].
  - apply safe_bind; [|intros; apply safe_ret]. destruct (is_set hnd); [|apply safe_ret].
    apply safe_bind; [apply safe_set_timeout|]. intros. apply safe_timers. intros. by apply clock_unregister.
  - apply safe_bind; [apply safe_timers; intros; by apply clock_update|]. intros h. apply safe_bind; [|intros; apply safe_ret].
    destruct (negb _); [apply safe_set_timeout|apply safe_ret].
  - apply safe_bind; [apply safe_timers; intros; by apply clock_register|]. intros h. apply safe_bind; [apply safe_set_timeout|intros; apply safe_ret].
Qed.
Lemma safe_stop_timer : safe stop_timer.
Proof.
  unfold stop_timer. apply safe_bind; [apply safe_get|]. intros hnd. apply safe_bind; [apply safe_get|]. intros id.
  destruct (is_set hnd); [|apply safe_ret]. apply safe_bind; [apply safe_set_timeout|]. intros. apply safe_timers. intros. by apply clock_unregister.
Qed.

Lemma bind_last {St A B} (c : M St A) (k : A -> M St B) s b s' : (c ≫= k) s = Done (b, s') -> exists a s1, k a s1 = Done (b, s').
Proof. unfold mbind, M_bind. destruct (c s) as [[a s1]|]; [|done]. by exists a, s1. Qed.

(** A stream is shut down when it is stopping. *)
Lemma shutdown_ready w c : stream_ok c -> runs (poll_shutdown w) c (fun r c' => stream_ok c' /\ life c c' /\ (r = Pending \/ hasf 1 c' = true)).
Proof.
  intros Hc. destruct (safe_keeps _ (keeps_poll_shutdown Q sent w) c Hc) as (r & c' & He & Hc' & K). exists r, c'. split; [done|]. split; [done|]. split; [done|].
  destruct (hasf 1 c) eqn:H1; [right; apply K; [mem|done]|left]. unfold hasf in H1. rewrite <- is_stopping_has in H1.
  unfold poll_shutdown in He. unfold mbind at 1, M_bind at 1 in He. change (flag is_stopping c) with (Done (is_stopping (io_flags (cx_io c)), c)) in He. cbv beta iota in He. rewrite H1 in He.
  do 6 (apply bind_last in He as (? & ? & He)). by injection He.
Qed.
End stream.

(** ** Loops *)

(** The computation returns, or it panics and [bad] holds. *)
Definition runs_or {St A} (bad : Prop) (c : M St A) (s : St) (P : A -> St -> Prop) : Prop := (c s = Fault Panic /\ bad) \/ runs c s P.
Lemma or_bind {St A B} bad (c : M St A) (k : A -> M St B) s (P : A -> St -> Prop) (P' : B -> St -> Prop) :
  runs_or bad c s P -> (forall a s', c s = Done (a, s') -> P a s' -> runs_or bad (k a) s' P') -> runs_or bad (c ≫= k) s P'.
Proof.
  unfold runs_or at 3, runs, mbind, M_bind. intros [[-> ?]|(a & s' & He & HP)] Hk; [by left|]. rewrite He. by apply Hk.
Qed.
Lemma or_conseq {St A} (bad bad' : Prop) (c : M St A) s (P P' : A -> St -> Prop) :
  runs_or bad c s P -> (bad -> bad') -> (forall a s', P a s' -> P' a s') -> runs_or bad' c s P'.
Proof. intros [[? ?]|Hr] Hb HP; [left; auto|right]. by eapply runs_conseq. Qed.

(** The loop returns, or panics, or has run out of the rounds it was given. *)
Definition runs_within {St A} (bad : Prop) (c : M St A) (s : St) (P : A -> St -> Prop) : Prop := c s = Fault Diverges \/ runs_or bad c s P.
Lemma within_bind {St A B} bad (c : M St A) (k : A -> M St B) s (P : A -> St -> Prop) (P' : B -> St -> Prop) :
  runs_or bad c s P -> (forall a s', c s = Done (a, s') -> P a s' -> runs_within bad (k a) s' P') -> runs_within bad (c ≫= k) s P'.
Proof.
  unfold runs_within at 2, runs_or at 2, runs, mbind, M_bind. intros [[-> ?]|(a & s' & He & HP)] Hk; [by right; left|]. rewrite He. by apply Hk.
Qed.
Lemma within_conseq {St A} (bad bad' : Prop) (c : M St A) s (P P' : A -> St -> Prop) :
  runs_within bad c s P -> (bad -> bad') -> (forall a s', P a s' -> P' a s') -> runs_within bad' c s P'.
Proof. intros [Hf|Hr] Hb HP; [by left|right]. by eapply or_conseq. Qed.

(** ** The dispatcher *)

Section dispatcher.
Context {F : Type} `{!Bitflags F} `{!BitflagsLaws F} {L : Type} `{!FilterLayer L} `{!FilterLayerLaws L}.
Context {D : Type} `{!HandleDrop D} `{!Waive D} `{!Handle F L D} (Q : bool -> D -> Prop) (sent : D -> list byte) `{!HandleLaws Q sent}.
Context {Item Resp EncErr DecErr Err : Type} {V C : Type} {H : Type} `{!Bitflags H}.
Context `{!Service (World F L D V) C (DispatchItem Item EncErr DecErr) Resp Err}.

Implicit Types (d : Disp F L D EncErr Err V C H).
Abbreviation DM A := (M (Disp F L D EncErr Err V C H) A) (only parsing).

(** What is asked of a service: its operations return, and treat the stream
    as its own operations do; [VI] is an invariant of its own. *)
Variable VI : V -> Prop.
Definition world_ok (w : World F L D V) : Prop := stream_ok Q sent (wd_io w) /\ VI (wd_sv w).
Definition behaves {A} (op : M (World F L D V) A) : Prop :=
  forall w : World F L D V, world_ok w -> runs op w (fun _ w' => world_ok w' /\ life (wd_io w) (wd_io w')).
Class ServiceLaws : Prop := {
  kind_poll_ready wk : behaves (sv_poll_ready wk);
  kind_call nowait i : behaves (sv_call nowait i);
  kind_poll wk c : behaves (sv_poll wk c);
  kind_poll_shutdown wk : behaves (sv_poll_shutdown wk);
}.
Context `{!ServiceLaws}.

Variable (codec : Decoder Item DecErr) (encodev : Resp -> list byte -> (() + EncErr) * list byte).
Hypothesis codec_ok : decoder_ok codec.
Hypothesis encodev_ok : forall r, exists bs, forall b, (encodev r b).2 = b ++ bs.

(** The timeouts of the configuration have 16 bits. *)
Definition cfg_ok (cfg : IoConfig) : Prop :=
  0 <= ic_keepalive_timeout cfg < u16_modulus /\ forall r, ic_frame_read_rate cfg = Some r -> 0 <= fr_timeout r < u16_modulus.

(** The calls that are outstanding: the one that is kept and the spawned
    ones, and [k] more while one is being started or finished; [n] more may
    be started. *)
Definition outstanding d : Z := (if dp_response d is Some _ then 1 else 0) + zlen (dp_spawned d).
Record DI (k n : Z) d : Prop := {
  di_world : world_ok (dp_world d);
  di_cfg : cfg_ok (io_cfg (cx_io (wd_io (dp_world d))));
  di_inflight : dp_inflight d = outstanding d + k;
  di_room : dp_inflight d + n < u32_modulus;
  di_shutdown : dp_st d = Shutdown -> dp_inflight d = 0 /\ hasf 1 (wd_io (dp_world d)) = true;
  di_error : dp_error d <> None -> dp_st d = Stop \/ dp_st d = Shutdown;
}.

Lemma di_weaken k n n' d : DI k n d -> n' <= n -> DI k n' d.
Proof. intros [? ? ? ? ? ?] Hn. split; try done. lia. Qed.

(** A step of the world changes nothing else. *)
Lemma world_step {A} (op : M (World F L D V) A) k n d (P : A -> Disp F L D EncErr Err V C H -> Prop) :
  behaves op -> DI k n d -> (forall a w', DI k n (set_dp_world w' d) -> P a (set_dp_world w' d)) -> runs (on_world op) d P.
Proof.
  intros Hop [Hw Hcfg Hi Hr Hs Her] HP. destruct (Hop _ Hw) as (a & w' & He & Hw' & [Kc Kl]). exists a, (set_dp_world w' d).
  split; [unfold on_world; by rewrite He|]. apply HP. split; try done; [by cbn; rewrite Kc|].
  change (dp_st (set_dp_world w' d)) with (dp_st d). intros [? ?]%Hs. split; [done|]. apply (Kl 1); [mem|done].
Qed.

Lemma kind_stream {A} (op : M (Cx F L D) A) : safe Q sent op -> behaves (on_stream op).
Proof.
  intros Hop w [Hc Hv]. destruct (Hop _ Hc) as (a & c' & He & Hc' & K). exists a, (mkWorld c' (wd_sv w)).
  split; [unfold on_stream; by rewrite He|]. done.
Qed.
Lemma io_step {A} (op : M (Cx F L D) A) k n d (P : A -> Disp F L D EncErr Err V C H -> Prop) :
  safe Q sent op -> DI k n d -> (forall a w', DI k n (set_dp_world w' d) -> P a (set_dp_world w' d)) -> runs (on_io op) d P.
Proof. intros Hop. apply world_step. by apply kind_stream. Qed.

(** Changes of fields the invariant does not see. *)
Lemma di_same k n d d' :
  DI k n d -> dp_world d' = dp_world d -> dp_inflight d' = dp_inflight d -> dp_response d' = dp_response d -> dp_spawned d' = dp_spawned d ->
  dp_st d' = dp_st d -> dp_error d' = dp_error d -> DI k n d'.
Proof.
  intros [? ? Ho ? ? ?] Hw Hi Hr Hs Hst He. split; unfold outstanding in *; rewrite ?Hw, ?Hi, ?Hr, ?Hs, ?Hst, ?He; auto.
Qed.

(** What most steps leave alone. *)
Definition same_st d d' : Prop := dp_st d' = dp_st d /\ dp_error d' = dp_error d.
#[local] Instance same_st_preorder : PreOrder same_st.
Proof. split; [by intros d|]. intros d1 d2 d3 [] []. split; congruence. Qed.

Lemma insert_flags_spec b k n d (P : () -> Disp F L D EncErr Err V C H -> Prop) :
  DI k n d -> (forall d', DI k n d' -> same_st d d' -> P tt d') -> runs (insert_flags b) d P.
Proof. intros Hd HP. apply runs_modify, HP; [|done]. by apply (di_same _ _ _ _ Hd). Qed.
Lemma remove_flags_spec b k n d (P : bool -> Disp F L D EncErr Err V C H -> Prop) :
  DI k n d -> (forall r d', DI k n d' -> same_st d d' -> dp_response d' = dp_response d -> P r d') -> runs (remove_flags b) d P.
Proof.
  intros Hd HP. unfold remove_flags. apply runs_bind. eapply runs_eq; [done|]. apply runs_bind.
  destruct (fl_intersects _ _); [apply runs_modify|apply runs_ret]; apply runs_ret; (apply HP; [|done|done]; by apply (di_same _ _ _ _ Hd)).
Qed.

Lemma handle_result_spec r wake k n d :
  DI k n d -> 1 <= dp_inflight d ->
  runs (handle_result encodev r wake) d (fun _ d' => DI (k - 1) (n + 1) d' /\ same_st d d' /\ dp_response d' = dp_response d).
Proof.
  intros Hd H1. unfold handle_result. apply runs_bind.
  apply (runs_conseq _ _ (fun _ d' => DI k n d' /\ dp_inflight d' = dp_inflight d /\ same_st d d' /\ dp_response d' = dp_response d)).
  { destruct r as [[val|]|err]; [|by apply runs_ret|apply runs_modify; split; [by apply (di_same _ _ _ _ Hd)|done]].
    apply runs_bind. eapply io_step; [by apply safe_encode|done|]. intros [u|err] w' Hd'; [by apply runs_ret|].
    apply runs_modify. split; [by apply (di_same _ _ _ _ Hd')|done]. }
  intros [] d1 (Hd1 & Hf1 & Hst1 & Hr1). apply runs_bind, runs_gets, runs_bind. eapply runs_lift; [apply checked_sub_ok; lia|].
  apply runs_bind, runs_modify.
  assert (DI (k - 1) (n + 1) (set_dp_inflight (dp_inflight d1 - 1) d1)) as Hd2.
  { destruct Hd1 as [Hw Hc Hi Hr Hs He]. split; try done; cbn; [unfold outstanding in *; cbn; lia|lia|]. intros [? ?]%Hs. lia. }
  set (d2 := set_dp_inflight _ d1) in *. assert (same_st d d2 /\ dp_response d2 = dp_response d) as [Hst2 Hr2] by done.
  apply runs_bind. apply (runs_conseq _ _ (fun _ d' => DI (k - 1) (n + 1) d' /\ same_st d d' /\ dp_response d' = dp_response d)).
  { destruct (_ =? 0); [|by apply runs_ret]. apply runs_modify. split; [by apply (di_same _ _ _ _ Hd2)|done]. }
  intros [] d3 (Hd3 & Hst3 & Hr3). destruct wake; [|by apply runs_ret].
  eapply io_step; [|done|]; [apply safe_keeps, keeps_quiet; auto with quiet|]. by intros [] w' Hd'.
Qed.

Lemma outstanding_pos d : 0 <= outstanding d.
Proof. unfold outstanding, zlen. destruct (dp_response d); lia. Qed.

(** One more call. *)
Lemma call_service_spec w item nowait n d :
  DI 0 n d -> 1 <= n -> dp_st d <> Shutdown ->
  runs (call_service encodev w item nowait) d (fun _ d' => DI 0 (n - 1) d' /\ same_st d d').
Proof.
  intros Hd Hn Hst. unfold call_service. apply runs_bind. eapply world_step; [apply kind_call|done|]. intros fut w1 Hd1.
  apply runs_bind, runs_gets, runs_bind. pose proof (outstanding_pos (set_dp_world w1 d)) as Hpos. pose proof (di_inflight _ _ _ Hd1) as Hin.
  pose proof (di_room _ _ _ Hd1) as Hroom. set (d1 := set_dp_world w1 d) in *.
  eapply runs_lift; [apply checked_add_ok; lia|]. apply runs_bind, runs_modify.
  assert (DI 1 (n - 1) (set_dp_inflight (dp_inflight d1 + 1) d1)) as Hd2.
  { destruct Hd1 as [? ? ? ? ? ?]. split; try done; cbn; unfold outstanding in *; cbn in *; lia. }
  assert (same_st d (set_dp_inflight (dp_inflight d1 + 1) d1)) as Hs2 by done.
  assert (1 <= dp_inflight (set_dp_inflight (dp_inflight d1 + 1) d1)) as Hp2 by (cbn in *; lia).
  set (d2 := set_dp_inflight _ d1) in *. clearbody d2. clear Hd1 Hin Hroom Hpos.
  apply runs_bind. apply (runs_conseq _ _ (fun _ d' => DI 1 (n - 1) d' /\ same_st d d')).
  { destruct (_ =? 1); [|by apply runs_ret]. apply runs_bind. eapply remove_flags_spec; [done|]. intros r d' Hd' Hs' _. apply runs_ret.
    split; [done|by etrans]. }
  intros [] d3 [Hd3 Hs3]. apply runs_bind, runs_gets. destruct (dp_response d3) as [c|] eqn:Hresp.
  - apply runs_modify. split; [|done]. destruct Hd3 as [? ? Hi ? ? ?]. split; try done. unfold outstanding, zlen in *. cbn. rewrite length_app. cbn. lia.
  - apply runs_bind. eapply world_step; [apply kind_poll|done|]. intros [[|result] fut'] w4 Hd4; cbn [fst snd].
    + apply runs_modify. split; [|done]. destruct Hd4 as [? ? Hi ? ? ?]. split; try done. unfold outstanding in *. cbn in *. rewrite Hresp in Hi. lia.
    + eapply runs_conseq; [apply (handle_result_spec result false 1 (n - 1) _ Hd4)|].
      { pose proof (di_inflight _ _ _ Hd4). pose proof (outstanding_pos (set_dp_world w4 d3)). lia. }
      intros [] d5 (Hd5 & Hs5 & _). split; [by eapply di_weaken; [done|lia]|by etrans].
Qed.

(** ** The rounds *)

Definition live d : Prop := dp_st d = Processing \/ dp_st d = Backpressure.
Lemma live_error k n d : DI k n d -> live d -> dp_error d = None.
Proof. intros Hd Hl. destruct (dp_error d) eqn:He; [|done]. destruct (di_error _ _ _ Hd), Hl; congruence. Qed.

Lemma di_stop k n d e : DI k n d -> DI k n (set_dp_error e (set_dp_st Stop d)).
Proof. intros [? ? ? ? ? ?]. split; try done. by left. Qed.
Lemma di_stop_st k n d : DI k n d -> DI k n (set_dp_st Stop d).
Proof. intros [? ? ? ? ? ?]. split; try done. by left. Qed.
Lemma di_st k n d st : DI k n d -> dp_error d = None -> st <> Shutdown -> DI k n (set_dp_st st d).
Proof. intros [? ? ? ? ? ?] He Hst. by split. Qed.

Definition unended d : Prop := dp_st d <> Shutdown.
Lemma live_unended d : live d -> unended d.
Proof. unfold unended. intros [->| ->]; done. Qed.

(** The error of the service that a round meets: the one that the service
    answers when it is asked for readiness, or the one of a call that is on
    record when the service is ready. *)
Definition heard (w : waker) d : option Err :=
  match sv_poll_ready w (dp_world d) with
  | Done (Ready (inr err), _) => Some err
  | Done (Ready (inl _), _) => match dp_shared_error d with Some (ErrService err) => Some err | _ => None end
  | _ => None
  end.

(** After a poll of the service, an error is on record only if the round ends. *)
Definition served n e (r : Poll (PollService Item EncErr DecErr)) d : Prop :=
  DI 0 n d /\ unended d /\ dp_error d = e /\ (r = Ready PsContinue \/ e = None).

Lemma check_error_spec n d :
  DI 0 n d -> live d ->
  runs check_error d (fun r d' => served n (match dp_shared_error d with Some (ErrService err) => Some err | _ => None end) (Ready r) d').
Proof.
  intros Hd Hl. pose proof (live_error _ _ _ Hd Hl) as He. pose proof (live_unended _ Hl) as Hu.
  unfold check_error. apply runs_bind, runs_gets. destruct (dp_shared_error d) as [err|]; [|by apply runs_ret; split_and!; auto].
  apply runs_bind, runs_modify, runs_bind, runs_modify.
  assert (DI 0 n (set_dp_shared_error None d)) as Hd1 by by apply (di_same _ _ _ _ Hd).
  destruct err as [err|err].
  - apply runs_ret. split_and!; [by apply di_stop_st|done|done|by right].
  - apply runs_bind, runs_modify, runs_ret. split_and!; [by apply di_stop|done|done|by left].
Qed.

Lemma poll_service_spec w n d : DI 0 n d -> live d -> runs (poll_service w) d (fun r d' => served n (heard w d) r d').
Proof.
  intros Hd Hl. unfold poll_service.
  destruct (world_step _ 0 n d (fun r d' => exists w', d' = set_dp_world w' d /\ DI 0 n d') (kind_poll_ready w) Hd) as (r & d1 & He & w1 & -> & Hd1);
    [by intros r w'; eexists|]. unfold runs, mbind at 1, M_bind at 1. rewrite He. unfold heard. unfold on_world in He.
  destruct (sv_poll_ready w (dp_world d)) as [[r' w']|]; [|done]. injection He as -> Hw1; subst w'. change (dp_shared_error d) with (dp_shared_error (set_dp_world w1 d)).
  destruct r as [|[[]|err]]; set (d1 := set_dp_world w1 d) in *; assert (live d1) as Hl1 by done; clearbody d1; clear d Hd Hl;
    match goal with |- exists a s, ?c ?d = Done (a, s) /\ @?P a s => change (runs c d P) end.
  - apply runs_bind. eapply remove_flags_spec; [done|]. intros _ d2 Hd2 [Hs2 He2] _. assert (live d2) as Hl2 by (by unfold live; rewrite Hs2).
    pose proof (live_error _ _ _ Hd2 Hl2) as He. pose proof (live_unended _ Hl2) as Hu.
    apply runs_bind. eapply io_step; [apply safe_stop_timer|done|]. intros [] w3 Hd3.
    apply runs_bind. eapply io_step; [apply safe_keeps, keeps_poll_read_pause|done|]. intros [|upd] w4 Hd4; [apply runs_ret; split_and!; auto|].
    destruct upd as [| |err].
    + apply runs_bind. eapply runs_eq; [done|]. destruct (fl_intersects _ _).
      * apply runs_bind, runs_modify, runs_ret. split_and!; [by apply di_stop_st|done|done|by right].
      * apply runs_ret. split_and!; auto.
    + apply runs_bind, runs_modify, runs_ret. split_and!; [by apply di_st|done|done|by right].
    + apply runs_bind, runs_modify, runs_ret. split_and!; [by apply di_stop_st|done|done|by right].
  - apply runs_bind. eapply runs_conseq; [by apply check_error_spec|]. intros r d' Hs. by apply runs_ret.
  - apply runs_bind, runs_modify, runs_bind, runs_modify, runs_bind. eapply insert_flags_spec; [by apply di_stop|].
    intros d' Hd' [Hs He']. apply runs_ret. split_and!; [done| |by rewrite He'|by left]. unfold unended. by rewrite Hs.
Qed.

Lemma disp_update_timer_spec elapsed (decoded : Decoded Item) n d :
  DI 0 n d -> 0 <= elapsed <= clock_max -> runs (update_timer elapsed decoded) d (fun _ d' => DI 0 n d' /\ same_st d d').
Proof.
  intros Hd He. unfold update_timer. apply runs_bind, runs_gets, runs_bind.
  eapply runs_eq; [unfold on_io, on_world, on_stream; reflexivity|]. destruct (di_cfg _ _ _ Hd) as [Hka Hrate]. cbn [dp_world wd_io set_dp_world].
  set (d1 := set_dp_world _ d). assert (d1 = d) as ->. { subst d1. by destruct d as [? ? ? ? ? ? ? ? ? ? []]. }
  destruct (dc_item decoded).
  - apply runs_bind, runs_modify, runs_bind. eapply (remove_flags_spec _ 0 n); [by apply (di_same _ _ _ _ Hd)|].
    intros r d' Hd' Hs _. by apply runs_ret.
  - apply runs_bind. eapply runs_eq; [done|]. destruct (fl_intersects _ _).
    { apply runs_modify. split; [by apply (di_same _ _ _ _ Hd)|done]. }
    destruct (_ && _).
    2: { destruct (ic_frame_read_rate _) as [params|] eqn:Hp; [|by apply runs_ret]. apply runs_bind. eapply insert_flags_spec; [done|].
      intros d' Hd' Hs. apply runs_bind, runs_modify, runs_bind. eapply (io_step _ 0 n); [by apply safe_start_timer, (Hrate params)|by apply (di_same _ _ _ _ Hd')|].
      intros r w' Hd2. by apply runs_ret. }
    apply runs_bind. eapply runs_eq; [done|]. apply runs_bind. eapply runs_eq; [done|]. destruct (_ && _); [|by apply runs_ret].
    apply runs_bind. eapply insert_flags_spec; [done|]. intros d' Hd' Hs. apply runs_bind.
    eapply io_step; [by apply safe_start_timer|done|]. intros r w' Hd2. by apply runs_ret.
Qed.

(** The subtraction of [handle_timeout] that underflows: the reads of a frame
    are timed, and the bytes that remain are less than those that remained. *)
Definition underflow d : Prop :=
  fl_intersects (dp_flags d) (fl_of READ_TIMEOUT) = true /\ is_Some (ic_frame_read_rate (io_cfg (cx_io (wd_io (dp_world d))))) /\
  dp_read_remains d < dp_read_remains_prev d.

Lemma handle_timeout_spec elapsed n d :
  DI 0 n d -> 0 <= elapsed <= clock_max ->
  runs_or (underflow d) (handle_timeout (DecErr := DecErr) elapsed) d (fun _ d' => DI 0 n d' /\ same_st d d').
Proof.
  intros Hd He. unfold handle_timeout. destruct (di_cfg _ _ _ Hd) as [_ Hrate].
  apply (or_bind _ _ _ _ (fun x d' => x = d /\ d' = d)); [right; by apply runs_gets|]. intros ? ? _ [-> ->].
  apply (or_bind _ _ _ _ (fun x d' => x = fl_intersects (dp_flags d) (fl_of READ_TIMEOUT) /\ d' = d)); [right; by apply runs_gets|]. intros ? ? _ [-> ->].
  destruct (fl_intersects _ _) eqn:Hrt.
  2: { clear Hrt. right. apply runs_bind. eapply runs_eq; [done|]. destruct (fl_intersects _ _); by apply runs_ret. }
  apply (or_bind _ _ _ _ (fun x d' => x = io_cfg (cx_io (wd_io (dp_world d))) /\ d' = d)).
  { right. eexists _, _. split; [reflexivity|]. split; [done|]. by destruct d as [? ? ? ? ? ? ? ? ? ? []]. }
  intros ? ? _ [-> ->]. destruct (ic_frame_read_rate _) as [params|] eqn:Hp; [|right; by apply runs_ret].
  apply (or_bind _ _ _ _ (fun _ d' => d' = d)).
  { destruct (Z.leb_spec (dp_read_remains_prev d) (dp_read_remains d)); [right; eapply runs_lift; [by apply checked_sub_ok|done]|left].
    split; [|by split_and!]. unfold liftS, checked_sub. by rewrite (proj2 (Z.leb_gt _ _)). }
  intros total ? _ ->. right. destruct (_ <? total); [|by apply runs_ret]. cbv zeta. apply runs_bind, runs_modify. destruct (_ || _); [|apply runs_ret; split; [by apply (di_same _ _ _ _ Hd)|done]].
  apply runs_bind. eapply (io_step _ 0 n); [by apply safe_start_timer, (Hrate params)|by apply (di_same _ _ _ _ Hd)|]. intros r w' Hd2. by apply runs_ret.
Qed.

Lemma call_end w item nowait n d (r : option (Poll (() + Err))) :
  DI 0 n d -> 1 <= n -> unended d ->
  runs (call_service encodev w item nowait;; mret r) d (fun r' d' => DI 0 (n - 1) d' /\ same_st d d' /\ r' = r).
Proof.
  intros Hd Hn Hu. apply runs_bind. eapply runs_conseq; [by apply call_service_spec|]. intros [] d' [Hd' Hs]. by apply runs_ret.
Qed.

Definition open_end (r : option (Poll (() + Err))) : Prop := r = None \/ r = Some Pending.

(** The end of a round that does not end the poll; [e] is the error on record. *)
Definition went n e (r : option (Poll (() + Err))) d : Prop := DI 0 n d /\ dp_error d = e /\ open_end r.

Lemma stop_call_end w item nowait n d :
  DI 0 n d -> 1 <= n -> runs (modifyS (set_dp_st Stop);; call_service encodev w item nowait;; mret None) d (went (n - 1) (dp_error d)).
Proof.
  intros Hd Hn. apply runs_bind, runs_modify. eapply runs_conseq; [apply call_end; [by apply di_stop_st|done|done]|].
  intros r d' (Hd' & [_ He] & ->). split_and!; [done|done|by left].
Qed.

(** A round in which a timer fires and the subtraction underflows. *)
Definition round_underflows (w : waker) d : Prop :=
  dp_st d = Processing /\ exists d1 d2,
    poll_service (Item := Item) (DecErr := DecErr) w d = Done (Ready PsReady, d1) /\
    on_io (poll_recv_decode codec w) d1 = Done (inr RecvKeepAlive, d2) /\ underflow d2.

Lemma received_spec elapsed w n d (r : Decoded Item + RecvError DecErr) :
  DI 0 n d -> 1 <= n -> 0 <= elapsed <= clock_max -> dp_error d = None -> unended d ->
  runs_or (r = inr RecvKeepAlive /\ underflow d)
    (match r with
     | inl decoded =>
         update_timer elapsed decoded;;
         match dc_item decoded with
         | Some el => call_service encodev w (DispItem el) true;; mret None
         | None => mret (Some Pending)
         end
     | inr RecvKeepAlive =>
         r ← handle_timeout elapsed;
         match r with
         | inr ctl => modifyS (set_dp_st Stop);; call_service encodev w (DispStop ctl) true;; mret None
         | inl _ => mret None
         end
     | inr RecvWriteBackpressure =>
         modifyS (set_dp_st Backpressure);; call_service encodev w (DispControl WBackPressureEnabled) true;; mret None
     | inr (RecvDecoder err) => modifyS (set_dp_st Stop);; call_service encodev w (DispStop (ReasonDecoder err)) true;; mret None
     | inr (RecvPeerGone err) => modifyS (set_dp_st Stop);; call_service encodev w (DispStop (ReasonIo err)) true;; mret None
     end) d (went (n - 1) None).
Proof.
  intros Hd Hn He Her Hu. destruct r as [decoded|[| |err|err]].
  - right. apply runs_bind. eapply runs_conseq; [by apply (disp_update_timer_spec _ _ n)|]. intros [] d3 [Hd3 [Hs3 He3]]. destruct (dc_item decoded).
    + eapply runs_conseq; [apply (call_end _ _ _ n); [done|done|]|]; [unfold unended; by rewrite Hs3|]. intros r d' (Hd' & [_ ?] & ->).
      split_and!; [done|congruence|by left].
    + apply runs_ret. split_and!; [by eapply di_weaken; [done|lia]|congruence|by right].
  - eapply or_bind; [eapply or_conseq; [by apply (handle_timeout_spec _ n)|done|exact (fun _ _ H => H)]|].
    intros [[]|ctl] d3 _ [Hd3 [_ He3]]; right; [|rewrite <- Her, <- He3; by apply stop_call_end].
    apply runs_ret. split_and!; [by eapply di_weaken; [done|lia]|congruence|by left].
  - right. apply runs_bind, runs_modify. eapply runs_conseq; [apply (call_end _ _ _ n); [by apply di_st|done|done]|].
    intros r d' (Hd' & [_ ?] & ->). split_and!; [done|by rewrite <- Her|by left].
  - right. rewrite <- Her. by apply stop_call_end.
  - right. rewrite <- Her. by apply stop_call_end.
Qed.

Lemma round_processing_spec elapsed w n d :
  DI 0 n d -> 1 <= n -> 0 <= elapsed <= clock_max -> dp_st d = Processing ->
  runs_or (round_underflows w d) (round_processing codec encodev elapsed w) d (went (n - 1) (heard w d)).
Proof.
  intros Hd Hn He Hst. unfold round_processing. eapply or_bind; [right; apply (poll_service_spec w n); [done|by left]|].
  intros r d1 Hps (Hd1 & Hu1 & Eh & Her). assert (DI 0 (n - 1) d1) as Hd1' by (eapply di_weaken; [done|lia]). rewrite <- Eh in *.
  destruct r as [|[item|item| |]]; [right; apply runs_ret; split_and!; [done|done|by right]| | |right; apply runs_ret; split_and!; [done|done|by left]|];
    [right; eapply runs_conseq; [by apply (call_end _ _ _ n)|]; intros r d' (Hd' & [_ ?] & ->); split_and!; [done|done|by left]..|].
  destruct Her as [?|Her]; [done|].
  eapply (or_bind _ _ _ _ (fun _ d' => DI 0 n d' /\ same_st d1 d')).
  { right. eapply io_step; [by apply safe_keeps, keeps_poll_recv_decode|exact Hd1|]. by intros r w' ?. }
  intros r d2 Hrecv [Hd2 [Hs2 He2]]. rewrite Her in *. eapply or_conseq; [apply (received_spec elapsed w n d2 r); [done|done|done|done|]| |done].
  - unfold unended. by rewrite Hs2.
  - intros [-> Hun]. split; [done|]. by exists d1, d2.
Qed.

Lemma round_flush_spec w n d : DI 0 n d -> 1 <= n -> dp_error d = None -> runs (round_flush encodev w) d (went (n - 1) None).
Proof.
  intros Hd Hn He. unfold round_flush. apply runs_bind. eapply io_step; [by apply safe_flush|done|]. intros [|[[]|err]] w1 Hd1.
  - apply runs_ret. split_and!; [by eapply di_weaken; [done|lia]|done|by right].
  - apply runs_bind, runs_modify. eapply runs_conseq; [apply (call_end _ _ _ n); [by apply di_st|done|done]|].
    intros r d' (Hd' & [_ ?] & ->). split_and!; [done|by rewrite <- He|by left].
  - rewrite <- He. change (dp_error d) with (dp_error (set_dp_world w1 d)). by apply stop_call_end.
Qed.

Lemma round_backpressure_spec w n d :
  DI 0 n d -> 2 <= n -> live d -> runs (round_backpressure encodev w) d (went (n - 2) (heard w d)).
Proof.
  intros Hd Hn Hl. unfold round_backpressure. apply runs_bind. eapply runs_conseq; [by apply poll_service_spec|].
  intros r d1 (Hd1 & Hu1 & <- & Her). assert (DI 0 (n - 2) d1) as Hd1' by (eapply di_weaken; [done|lia]).
  assert (runs (round_flush encodev w) d1 (went (n - 2) (dp_error d1)) \/ r = Ready PsContinue) as Hfl.
  { destruct Her as [->|Her]; [by right|left]. rewrite Her. replace (n - 2) with (n - 1 - 1) by lia. apply round_flush_spec; [|lia|done]. eapply di_weaken; [exact Hd1|lia]. }
  assert (forall item nowait, dp_error d1 = None ->
    runs (call_service encodev w item nowait;; round_flush encodev w) d1 (went (n - 2) (dp_error d1))) as Hcall.
  { intros item nowait He. apply runs_bind. eapply runs_conseq; [apply (call_service_spec _ _ _ n); [done|lia|done]|]. intros [] d2 [Hd2 [_ He2]].
    rewrite He. replace (n - 2) with (n - 1 - 1) by lia. apply round_flush_spec; [done|lia|congruence]. }
  destruct r as [|[item|item| |]]; [apply runs_ret; split_and!; [done|done|by right]| | |apply runs_ret; split_and!; [done|done|by left]|];
    destruct Her as [?|Her]; try done; destruct Hfl as [Hfl|?]; try done; [by apply Hcall|].
  destruct item as [el|[]|reason]; [by apply Hcall|done|by apply Hcall|by apply Hcall].
Qed.

Lemma stop_idle_spec w n d :
  DI 0 n d -> dp_st d = Stop -> dp_inflight d = 0 ->
  runs (round_stop_idle w) d (fun r d' => DI 0 n d' /\ dp_error d' = dp_error d /\ open_end r).
Proof.
  intros [[Hc Hv] Hcfg Hi Hr Hs He] Hst Hz. unfold round_stop_idle. apply runs_bind. destruct (shutdown_ready Q sent w _ Hc) as (r & c' & Hrun & Hc' & [Kc Kl] & Hend).
  eapply runs_eq; [unfold on_io, on_world, on_stream; by rewrite Hrun|].
  assert (DI 0 n (set_dp_world (mkWorld c' (wd_sv (dp_world d))) d)) as Hd1.
  { split; try done; [by cbn; rewrite Kc|]. cbn. congruence. }
  destruct r as [|r]; [apply runs_ret; split_and!; [done|done|by right]|]. destruct Hend as [?|Hend]; [done|].
  apply runs_bind, runs_modify, runs_ret. split_and!; [|done|by left]. destruct Hd1 as [? ? ? ? ? ?]. split; try done. by right.
Qed.

Lemma stop_busy_spec w n d :
  DI 0 n d ->
  runs (round_stop_busy w) d (fun r d' => DI 0 n d' /\ dp_error d' = dp_error d /\ open_end r).
Proof.
  intros Hd. assert (forall d1, DI 0 n d1 -> dp_error d1 = dp_error d ->
    runs (insert_flags IO_ERR;; mret None) d1 (fun r d' => DI 0 n d' /\ dp_error d' = dp_error d /\ open_end r)) as Hins.
  { intros d1 Hd1 E. apply runs_bind. eapply insert_flags_spec; [done|]. intros d' Hd' [_ ?]. apply runs_ret. split_and!; [done|congruence|by left]. }
  unfold round_stop_busy. apply runs_bind. eapply runs_eq; [done|]. destruct (negb _).
  - apply runs_bind. eapply io_step; [apply safe_keeps, keeps_poll_status_update|done|].
    intros [|[| |err]] w1 Hd1; [apply runs_ret; split_and!; [done|done|by right]|by apply Hins| |by apply Hins].
    apply runs_bind. eapply io_step; [by apply safe_flush|done|].
    intros [|[[]|err]] w2 Hd2; [apply runs_ret; split_and!; [done|done|by right]|apply runs_ret; split_and!; [done|done|by left]|by apply Hins].
  - apply runs_bind. eapply io_step; [apply safe_keeps; unfold poll_dispatch; keep|done|]. intros [] w1 Hd1. apply runs_ret. split_and!; [done|done|by right].
Qed.

Lemma round_stop_spec w n d :
  DI 0 n d -> dp_st d = Stop -> runs (round_stop w) d (fun r d' => DI 0 n d' /\ dp_error d' = dp_error d /\ open_end r).
Proof.
  intros Hd Hst. unfold round_stop. apply runs_bind. eapply io_step; [apply safe_stop_timer|done|]. intros [] w1 Hd1.
  apply runs_bind. eapply runs_eq; [done|]. apply runs_bind.
  apply (runs_conseq _ _ (fun _ d' => DI 0 n d' /\ same_st d d')).
  { destruct (fl_intersects _ _); [by apply runs_ret|]. apply runs_bind. eapply world_step; [apply kind_poll_ready|done|].
    intros [|[[]|err]] w2 Hd2; [by apply runs_ret..|]. eapply insert_flags_spec; [done|]. intros d' Hd' Hs. by split. }
  intros [] d2 [Hd2 [Hs2 He2]]. assert (dp_st d2 = Stop) as Hst2 by (rewrite Hs2; done). rewrite <- He2.
  apply runs_bind, runs_gets. destruct (Z.eqb_spec (dp_inflight d2) 0) as [Hz|Hz]; [by apply stop_idle_spec|by apply stop_busy_spec].
Qed.

(** The state is [Shutdown] only when nothing is in flight and the stream is
    stopping; the error on record is kept until it is reported. *)
Definition report (e : option Err) : () + Err := match e with Some err => inr err | None => inl tt end.
(** The error on record after a round. *)
Definition next_error (w : waker) d : option Err := match dp_st d with Processing | Backpressure => heard w d | _ => dp_error d end.
Definition round_end (w : waker) (d d' : Disp F L D EncErr Err V C H) (r : option (Poll (() + Err))) : Prop :=
  match r with
  | Some (Ready p) => dp_st d = Shutdown /\ p = report (dp_error d) /\ dp_inflight d' = 0 /\ hasf 1 (wd_io (dp_world d')) = true
  | _ => dp_error d' = next_error w d
  end.

Lemma round_shutdown_spec w n d :
  DI 0 n d -> dp_st d = Shutdown -> runs (round_shutdown w) d (fun r d' => DI 0 n d' /\ round_end w d d' r).
Proof.
  intros Hd Hst. unfold round_shutdown. apply runs_bind. eapply world_step; [apply kind_poll_shutdown|done|].
  intros [|r] w1 Hd1; [apply runs_ret; split; [done|]; cbn; unfold next_error; by rewrite Hst|].
  apply runs_bind, runs_gets, runs_bind, runs_modify, runs_ret. destruct (di_shutdown _ _ _ Hd1 Hst) as [Hz Hs]. split; [|done].
  destruct Hd1 as [? ? ? ? ? ?]. by split.
Qed.

Lemma dispatcher_round_spec elapsed w n d :
  DI 0 n d -> 2 <= n -> 0 <= elapsed <= clock_max ->
  runs_or (round_underflows w d) (dispatcher_round codec encodev elapsed w) d (fun r d' => DI 0 (n - 2) d' /\ round_end w d d' r).
Proof.
  intros Hd Hn He. unfold dispatcher_round. eapply (or_bind _ _ _ _ (fun st d' => st = dp_st d /\ d' = d)); [right; by apply runs_gets|].
  intros ? ? _ [-> ->].
  assert (forall n' r d', n - 2 <= n' -> went n' (next_error w d) r d' -> DI 0 (n - 2) d' /\ round_end w d d' r) as Hend
    by (intros n' r d' Hle (? & ? & [->| ->]); (split; [by eapply di_weaken|done])).
  unfold next_error in Hend. destruct (dp_st d) eqn:Hst.
  - eapply or_conseq; [by apply (round_processing_spec _ _ n); [|lia|..]|done|]. intros r d' Hr. eapply Hend; [|exact Hr]. lia.
  - right. eapply runs_conseq; [apply (round_backpressure_spec _ n); [done|lia|by right]|]. intros r d' Hr. by eapply Hend; [|exact Hr].
  - right. eapply runs_conseq; [by apply (round_stop_spec _ n)|]. intros r d' Hr. eapply Hend; [|exact Hr]. lia.
  - right. eapply runs_conseq; [by apply (round_shutdown_spec _ n)|]. intros r d' [Hd' Hr]. split; [eapply di_weaken; [done|lia]|done].
Qed.

(** ** The futures *)

(** The states in which the rounds of a poll begin. *)
Inductive in_loop (elapsed : Z) (w : waker) : Disp F L D EncErr Err V C H -> Disp F L D EncErr Err V C H -> Prop :=
  | in_loop_here d : in_loop elapsed w d d
  | in_loop_next d d1 d2 :
      dispatcher_round codec encodev elapsed w d = Done (None, d1) -> in_loop elapsed w d1 d2 -> in_loop elapsed w d d2.
Definition in_poll elapsed w d d' : Prop := exists d0, poll_response encodev w d = Done (tt, d0) /\ in_loop elapsed w d0 d'.

(** A round meets the error [err] of the service. *)
Definition meets w d (err : Err) : Prop := live d /\ heard w d = Some err.
Lemma meets_next n w d err : DI 0 n d -> next_error w d = Some err <-> dp_error d = Some err \/ meets w d err.
Proof.
  intros Hd. assert (live d -> dp_error d = None) as Hnone by (by eapply live_error). unfold next_error, meets, live in *.
  destruct (dp_st d); split; intros Hx; try rewrite Hnone in Hx by auto; naive_solver.
Qed.

(** The result of a loop. *)
Definition loop_end elapsed w d (r : Poll (() + Err)) (d' : Disp F L D EncErr Err V C H) : Prop :=
  match r with
  | Ready p =>
      (forall err, p = inr err <-> dp_error d = Some err \/ exists d1, in_loop elapsed w d d1 /\ meets w d1 err) /\
      dp_inflight d' = 0 /\ hasf 1 (wd_io (dp_world d')) = true
  | Pending => True
  end.
Definition loop_underflows elapsed w d : Prop := exists d1, in_loop elapsed w d d1 /\ round_underflows w d1.

Lemma in_loop_last elapsed w d d1 : dp_st d = Shutdown -> in_loop elapsed w d d1 -> d1 = d.
Proof.
  intros Hst Hin. destruct Hin as [|d d1 d2 Hr Hin]; [done|]. unfold dispatcher_round, mbind at 1, M_bind at 1 in Hr. cbn in Hr. rewrite Hst in Hr.
  apply bind_done in Hr as (r & d3 & _ & He). destruct r; [done|]. by apply bind_done in He as (? & ? & _ & (? & ? & _ & [=])%bind_done).
Qed.
Lemma in_loop_step elapsed w d d1 d2 :
  dispatcher_round codec encodev elapsed w d = Done (None, d1) -> in_loop elapsed w d d2 -> d2 = d \/ in_loop elapsed w d1 d2.
Proof. intros Hr Hin. destruct Hin as [|d d1' d2 Hr' Hin]; [by left|right]. rewrite Hr in Hr'. by injection Hr' as ->. Qed.

Lemma loop_end_last elapsed w d d' :
  dp_st d = Shutdown -> dp_inflight d' = 0 -> hasf 1 (wd_io (dp_world d')) = true -> loop_end elapsed w d (Ready (report (dp_error d))) d'.
Proof.
  intros Hst Hz Hs. split; [|done]. intros err. unfold report. split.
  - destruct (dp_error d); [|done]. intros [= ->]. by left.
  - intros [->|(d1 & Hin & [Hl _])]; [done|]. apply in_loop_last in Hin as ->; [|done]. destruct Hl; congruence.
Qed.
Lemma loop_end_next n elapsed w d d1 r d' :
  DI 0 n d -> dispatcher_round codec encodev elapsed w d = Done (None, d1) -> dp_error d1 = next_error w d ->
  loop_end elapsed w d1 r d' -> loop_end elapsed w d r d'.
Proof.
  intros Hd Hr He. destruct r as [|p]; [done|]. intros [Hp Hend]. split; [|done]. intros err. rewrite Hp, He, (meets_next n _ _ _ Hd). split.
  - intros [[?|?]|(d2 & Hin & Hm)]; [by left|right; exists d; split; [constructor|done]|right; exists d2; split; [by econstructor|done]].
  - intros [?|(d2 & Hin & Hm)]; [by left; left|]. apply (in_loop_step _ _ _ _ _ Hr) in Hin as [->|Hin]; [by left; right|right; by exists d2].
Qed.

Lemma dispatcher_loop_spec fuel elapsed w n d :
  DI 0 n d -> 2 * Z.of_nat fuel <= n -> 0 <= elapsed <= clock_max ->
  runs_within (loop_underflows elapsed w d) (dispatcher_loop codec encodev fuel elapsed w) d
    (fun r d' => DI 0 (n - 2 * Z.of_nat fuel) d' /\ loop_end elapsed w d r d').
Proof.
  revert n d. induction fuel as [|fuel IH]; intros n d Hd Hn He; [by left|]. cbn [dispatcher_loop].
  eapply within_bind; [eapply or_conseq; [apply (dispatcher_round_spec elapsed w n d Hd); [lia|done]| |exact (fun _ _ H => H)]|].
  { intros Hun. exists d. split; [constructor|done]. }
  intros [[|p]|] d1 Hr [Hd1 Hend].
  - right; right. apply runs_ret. split; [eapply di_weaken; [done|lia]|done].
  - right; right. apply runs_ret. split; [eapply di_weaken; [done|lia]|]. destruct Hend as (Hst & -> & Hz & Hs). by apply loop_end_last.
  - eapply within_conseq; [apply (IH (n - 2)); [done|lia|done]| |].
    + intros (d2 & Hin & Hun). exists d2. split; [by econstructor|done].
    + intros r d2 [Hd2 Hr2]. split; [eapply di_weaken; [done|lia]|]. by eapply loop_end_next.
Qed.

Lemma poll_response_spec w n d : DI 0 n d -> runs (poll_response encodev w) d (fun _ d' => DI 0 n d' /\ same_st d d').
Proof.
  intros Hd. unfold poll_response. apply runs_bind, runs_gets. destruct (dp_response d) as [fut|] eqn:Hresp; [|by apply runs_ret].
  apply runs_bind. eapply world_step; [apply kind_poll|done|]. intros [[|item] fut'] w1 Hd1.
  - apply runs_modify. split; [|done]. destruct Hd1 as [? ? Hi ? ? ?]. split; try done. unfold outstanding in *. cbn in *. by rewrite Hresp in Hi.
  - assert (1 <= dp_inflight (set_dp_world w1 d)) as H1.
    { rewrite (di_inflight _ _ _ Hd1). unfold outstanding, zlen. cbn. rewrite Hresp. lia. }
    apply runs_bind. eapply runs_conseq; [by apply (handle_result_spec item false 0 n)|]. intros [] d2 (Hd2 & Hs2 & Hr2).
    apply runs_modify. split; [|done]. destruct Hd2 as [? ? Hi ? ? ?]. split; try done; [|cbn; lia].
    unfold outstanding in *. cbn in *. rewrite Hr2, Hresp in Hi. lia.
Qed.

(** The result of a poll, and the one panic of it. *)
Definition poll_end elapsed w d (r : Poll (() + Err)) (d' : Disp F L D EncErr Err V C H) : Prop :=
  match r with
  | Ready p =>
      (forall err, p = inr err <-> dp_error d = Some err \/ exists d1, in_poll elapsed w d d1 /\ meets w d1 err) /\
      dp_inflight d' = 0 /\ hasf 1 (wd_io (dp_world d')) = true
  | Pending => True
  end.
Definition poll_underflows elapsed w d : Prop := exists d1, in_poll elapsed w d d1 /\ round_underflows w d1.

Lemma dispatcher_poll_spec fuel elapsed w n d :
  DI 0 n d -> 2 * Z.of_nat fuel <= n -> 0 <= elapsed <= clock_max ->
  runs_within (poll_underflows elapsed w d) (dispatcher_poll codec encodev fuel elapsed w) d
    (fun r d' => DI 0 (n - 2 * Z.of_nat fuel) d' /\ poll_end elapsed w d r d').
Proof.
  intros Hd Hn He. unfold dispatcher_poll. eapply within_bind; [right; by apply (poll_response_spec w n)|]. intros [] d1 Hr [Hd1 [_ Hs]].
  eapply within_conseq; [by apply (dispatcher_loop_spec fuel elapsed w n d1)| |].
  - intros (d2 & Hin & Hun). exists d2. split; [by exists d1|done].
  - intros [|p] d2 [Hd2 Hr2]; (split; [done|]); [done|]. destruct Hr2 as [Hp Hend]. split; [|done]. intros err. rewrite Hp, Hs. clear -Hr. split.
    + intros [?|(x & Hin & Hm)]; [by left|right]. exists x. split; [by exists d1|done].
    + intros [?|(x & (d0 & Hr0 & Hin) & Hm)]; [by left|right]. rewrite Hr in Hr0. injection Hr0 as <-. by exists x.
Qed.

Lemma spawned_poll_spec i w n d : DI 0 n d -> runs (spawned_poll encodev i w) d (fun _ d' => DI 0 n d' /\ same_st d d').
Proof.
  intros Hd. unfold spawned_poll. apply runs_bind, runs_gets. destruct (dp_spawned d !! i) as [fut|] eqn:Hi; [|by apply runs_ret].
  apply runs_bind. eapply world_step; [apply kind_poll|done|]. intros [[|result] fut'] w1 Hd1.
  - apply runs_modify. split; [|done]. destruct Hd1 as [? ? Ho ? ? ?]. split; try done. unfold outstanding, zlen in *. cbn in *. by rewrite length_insert.
  - apply runs_bind, runs_modify. set (d2 := set_dp_spawned _ _). apply lookup_lt_Some in Hi as Hlt.
    assert (zlen (dp_spawned d2) = zlen (dp_spawned d) - 1) as Hlen by (unfold zlen; cbn; rewrite length_delete by done; lia).
    assert (DI 1 n d2) as Hd2. { destruct Hd1 as [? ? Ho ? ? ?]. split; try done. unfold outstanding in *. rewrite Hlen. cbn in *. lia. }
    eapply runs_conseq; [apply (handle_result_spec result true 1 n _ Hd2)|].
    { pose proof (di_inflight _ _ _ Hd2). pose proof (outstanding_pos d2). lia. }
    intros [] d3 (Hd3 & Hs3 & _). split; [by eapply di_weaken; [done|lia]|by etrans].
Qed.

Lemma dispatcher_new_spec n (wd : World F L D V) :
  world_ok wd -> cfg_ok (io_cfg (cx_io (wd_io wd))) -> n < u32_modulus -> DI 0 n (dispatcher_new wd).
Proof. intros Hw Hc Hn. by split. Qed.
End dispatcher.
