(* ===== verification/DispatcherTerm.v ===== *)
(** * A poll of the dispatcher returns

    A poll of the dispatcher of [Dispatcher.v] ends after a number of rounds
    that the input at hand bounds, for a service that leaves the stream alone
    and a decoder that consumes what it returns. *)
From Stdlib Require Import ZArith Lia.
From stdpp Require Import base numbers gmap list sets.
From S2P Require Import Prelude Deps Task IoConfig IoFlags IoBuf IoChain IoTimers IoState IoInv IoRef IoKeeps IoOutput Polling.
From S2P Require Import Dispatcher DispatcherInv.

Definition rd_stack (s : Stack) : list byte := match s !! 0%nat with Some b => default [] (b_read b) | None => [] end.
Lemma rd_with_write {A} i (f : list byte -> A * list byte) s a s' : stack_with_write i f s = Done (a, s') -> rd_stack s' = rd_stack s.
Proof.
  unfold stack_with_write. intros (b & s1 & He & Hk)%bind_done. unfold stack_get in He. destruct (s !! i) as [b0|] eqn:Hb; [|done].
  injection He as -> <-. destruct (b_write b) as [wb|]; [|done]. destruct (f wb) as [r wb']. injection Hk as _ <-.
  unfold rd_stack. destruct i; [|by rewrite list_lookup_insert_ne]. destruct s; [done|]. by injection Hb as ->.
Qed.

Section input.
Context {F : Type} `{!Bitflags F} `{!BitflagsLaws F} {L : Type} `{!FilterLayer L} `{!FilterLayerLaws L}.
Context {D : Type} `{!HandleDrop D}.
Implicit Types (c : Cx F L D) (ks : list Z).

(** ** Operations that leave the input of a stream alone *)

Definition rd_of c : list byte := rd_stack (buf_of c).
Record sees ks c c' : Prop := {
  se_rd : rd_of c' = rd_of c;
  se_filter : filter_of c' = filter_of c;
  se_flags : forall k, k ∈ ks -> hasf k c' = hasf k c;
}.
#[export] Instance sees_preorder ks : PreOrder (sees ks).
Proof.
  split; [by split|]. intros c1 c2 c3 [R1 F1 K1] [R2 F2 K2]. split; [congruence..|]. intros k Hk. by rewrite K2, K1.
Qed.

Definition leaves ks {A} (op : M (Cx F L D) A) : Prop :=
  forall c a c', filter_of c = Some [] -> op c = Done (a, c') -> sees ks c c'.

Lemma leaves_ret ks {A} (a : A) : leaves ks (mret a).
Proof. by intros c ? ? _ [= _ <-]. Qed.
Lemma leaves_fail ks {A} f : leaves ks (failS f : M (Cx F L D) A).
Proof. by intros c. Qed.
Lemma leaves_bind ks {A B} (op : M (Cx F L D) A) (k : A -> M (Cx F L D) B) :
  leaves ks op -> (forall a, leaves ks (k a)) -> leaves ks (op ≫= k).
Proof.
  intros H1 H2 c b c' Hf (a & c1 & He & Hk)%bind_done. pose proof (H1 _ _ _ Hf He) as K1.
  etrans; [exact K1|]. eapply H2; [|done]. by rewrite (se_filter _ _ _ K1).
Qed.
Lemma leaves_lift ks {A} (o : outcome A) : leaves ks (liftS o).
Proof. intros c a c' _. unfold liftS. destruct o; [|done]. by intros [= _ <-]. Qed.
Lemma leaves_get ks {A} (g : IoState F L -> A) : leaves ks (get_io g).
Proof. by intros c a c' _ [= _ <-]. Qed.
Lemma leaves_getS ks : leaves ks (getS : M (Cx F L D) _).
Proof. by intros c a c' _ [= _ <-]. Qed.

(** Fields other than the flags, the buffers and the filter. *)
Lemma leaves_mod ks g :
  (forall s, io_flags (g s) = io_flags s) -> (forall s, io_buffer (g s) = io_buffer s) -> (forall s, io_filter (g s) = io_filter s) ->
  leaves ks (mod_io g : M (Cx F L D) ()).
Proof.
  intros Hfl Hb Hf c a c' _ [= _ <-]. split; [unfold rd_of, buf_of; cbn; by rewrite Hb|unfold filter_of; cbn; by rewrite Hf|].
  intros k _. unfold hasf. cbn. by rewrite Hfl.
Qed.
Lemma leaves_flags ks g : (forall f k, k ∈ ks -> has k (g f) = has k f) -> leaves ks (upd_flags g : M (Cx F L D) ()).
Proof. intros Hg c a c' _ [= _ <-]. split; [done|done|]. intros k Hk. by apply Hg. Qed.
Lemma leaves_outside ks {A} (op : M (Cx F L D) A) :
  (forall c a c', op c = Done (a, c') ->
    io_flags (cx_io c') = io_flags (cx_io c) /\ io_buffer (cx_io c') = io_buffer (cx_io c) /\ io_filter (cx_io c') = io_filter (cx_io c)) -> leaves ks op.
Proof.
  intros Hop c a c' _ (Hfl & Hb & Hf)%Hop. split; [unfold rd_of, buf_of; by rewrite Hb|by unfold filter_of; rewrite Hf|].
  intros k _. unfold hasf. by rewrite Hfl.
Qed.
Lemma leaves_wake_read ks : leaves ks (wake_read_task : M (Cx F L D) ()).
Proof. apply leaves_outside. by intros c a c' [= _ <-]. Qed.
Lemma leaves_wake_write ks : leaves ks (wake_write_task : M (Cx F L D) ()).
Proof. apply leaves_outside. by intros c a c' [= _ <-]. Qed.
Lemma leaves_wake_dispatch ks : leaves ks (wake_dispatch_task : M (Cx F L D) ()).
Proof. apply leaves_outside. by intros c a c' [= _ <-]. Qed.
Lemma leaves_notify_disconnect ks : leaves ks (notify_disconnect : M (Cx F L D) ()).
Proof. apply leaves_outside. intros c a c'. unfold notify_disconnect. destruct (io_disconnect _); by intros [= _ <-]. Qed.
Lemma leaves_mgr ks {A} (f : Mgr -> outcome (A * Mgr)) : leaves ks (mgr_with f : M (Cx F L D) A).
Proof.
  apply leaves_outside. intros c a c'. unfold mgr_with. destruct (cx_mgr c) as [m|]; [|done]. destruct (f m) as [[? ?]|]; [|done]. by intros [= _ <-].
Qed.
Lemma leaves_set_drv ks d : leaves ks (modifyS (set_drv d) : M (Cx F L D) ()).
Proof. apply leaves_outside. by intros c a c' [= _ <-]. Qed.

(** The buffers: what leaves the input of the first one alone. *)
Lemma leaves_buffer ks {A} (op : M Stack A) : (forall s a s', op s = Done (a, s') -> rd_stack s' = rd_stack s) -> leaves ks (on_buffer op : M (Cx F L D) A).
Proof.
  intros Hop c a c' _. unfold on_buffer. destruct (op _) as [[r s]|] eqn:He; [|done]. apply Hop in He. intros [= _ <-]. by split.
Qed.
Lemma leaves_with_write ks {A} i (f : list byte -> A * list byte) : leaves ks (on_buffer (stack_with_write i f) : M (Cx F L D) A).
Proof. apply leaves_buffer, rd_with_write. Qed.
Lemma leaves_size ks : leaves ks (on_buffer write_buf_size : M (Cx F L D) Z).
Proof.
  apply leaves_buffer. intros s n s'. unfold write_buf_size. intros (s0 & s1 & [= <- <-] & He)%bind_done.
  destruct (length s =? 2)%nat; [by eapply rd_with_write|].
  apply bind_done in He as (a1 & s1 & He1 & (i & s2 & He2 & (a3 & s3 & He3 & [= _ <-])%bind_done)%bind_done).
  unfold stack_last in He2. destruct (2 <=? length s1)%nat; [|done]. injection He2 as <- <-. apply rd_with_write in He1, He3. congruence.
Qed.
Lemma leaves_stack_last ks : leaves ks (on_buffer stack_last : M (Cx F L D) nat).
Proof. apply leaves_buffer. intros s i s'. unfold stack_last. destruct (2 <=? length s)%nat; [|done]. by intros [= _ <-]. Qed.

(** The output buffer a driver writes from is out of its cell meanwhile. *)
Lemma leaves_with_write_dst ks {A} (f : list byte -> M (Cx F L D) (A * list byte)) : (forall b, leaves ks (f b)) -> leaves ks (with_write_dst_io f).
Proof.
  intros Hf. unfold with_write_dst_io. apply leaves_bind; [apply leaves_stack_last|]. intros i c a c' Hfc (b & c1 & He & Hk)%bind_done.
  assert (forall c b c1, on_buffer (stack_get i) c = Done (b, c1) -> buf_of c !! i = Some b /\ sees ks c c1 /\ buf_of c1 = buf_of c) as Hget.
  { intros c0 b0 c0'. unfold on_buffer, stack_get. fold (buf_of c0). destruct (buf_of c0 !! i) eqn:Hl; [|done]. intros [= <- <-]. by split. }
  assert (forall c b w, buf_of c !! i = Some b -> sees ks c (upd_io (fun io => set_buffer (<[i := set_b_write w b]> (buf_of c)) (io_filter io) io) c)) as Hset.
  { intros c0 b0 w0 Hl. split; [|done|done]. unfold rd_of, rd_stack. cbn. destruct i; [|by rewrite list_lookup_insert_ne].
    destruct (buf_of c0); [done|]. by injection Hl as ->. }
  apply Hget in He as (Hb & K1 & E1). destruct (b_write b) as [wb|]; [|done].
  apply bind_done in Hk as ([] & c2 & [= <-] & ([r wb'] & c3 & He3 & (b4 & c4 & (Hb4 & K4 & E4)%Hget & ([] & c5 & [= <-] & [= _ <-])%bind_done)%bind_done)%bind_done).
  etrans; [exact K1|]. rewrite <- E1 in Hb. pose proof (Hset _ _ None Hb) as K2.
  etrans; [exact K2|]. etrans; [eapply Hf; [|done]|]; [by rewrite (se_filter _ _ _ K2), (se_filter _ _ _ K1)|].
  etrans; [exact K4|]. apply Hset. by rewrite E4.
Qed.

Lemma leaves_force ks : leaves ks (process_write_buf_force : M (Cx F L D) _).
Proof. intros c a c' Hf. rewrite (force_plain c Hf). intros [= _ <-]. by split. Qed.
End input.

Create HintDb leaves.
#[export] Hint Resolve leaves_ret leaves_fail leaves_lift leaves_get leaves_getS leaves_wake_read leaves_wake_write leaves_wake_dispatch
  leaves_notify_disconnect leaves_mgr leaves_set_drv leaves_with_write leaves_size leaves_stack_last leaves_force : leaves.
#[export] Hint Extern 1 (leaves _ (mod_io _)) => apply leaves_mod; done : leaves.
#[export] Hint Extern 1 (leaves _ (flag _)) => apply leaves_get : leaves.
#[export] Hint Extern 1 (leaves _ state_error) => apply leaves_get : leaves.
#[export] Hint Extern 1 (leaves _ (is_rd_backpressure_needed _)) => apply leaves_get : leaves.
#[export] Hint Extern 1 (leaves _ (is_wr_backpressure_needed _)) => apply leaves_get : leaves.
#[export] Hint Extern 1 (leaves _ (should_disable_wr_backpressure _)) => apply leaves_get : leaves.
#[export] Hint Extern 1 (leaves _ (upd_flags _)) => apply leaves_flags; intros ?f; bits : leaves.

(** An operation made of such steps. *)
Ltac leave :=
  lazymatch goal with
  | |- forall _, _ => intros; leave
  | |- leaves _ (match ?x with _ => _ end) => destruct x; leave
  | |- leaves _ (_ ≫= _) => apply leaves_bind; [leave|intros; leave]
  | |- leaves _ (with_write_dst_io _) => apply leaves_with_write_dst; leave
  | |- leaves _ _ => solve [auto with leaves nocore]
  end.

Section steps.
Context {F : Type} `{!Bitflags F} `{!BitflagsLaws F} {L : Type} `{!FilterLayer L} `{!FilterLayerLaws L}.
Context {D : Type} `{!HandleDrop D}.
Implicit Types (c : Cx F L D) (ks : list Z).

Lemma leaves_register_dispatch w : leaves [12; 13] (register_dispatch w : M (Cx F L D) ()).
Proof. unfold register_dispatch. leave. Qed.
Lemma leaves_terminate e : leaves [12; 13] (terminate_connection e : M (Cx F L D) ()).
Proof. unfold terminate_connection, drop_handle. leave. Qed.
Lemma leaves_subset ks ks' {A} (op : M (Cx F L D) A) : ks' ⊆ ks -> leaves ks op -> leaves ks' op.
Proof. intros Hk Hop c a c' Hf He. destruct (Hop _ _ _ Hf He). split; auto. Qed.
End steps.
#[export] Hint Resolve leaves_register_dispatch leaves_terminate : leaves.
#[export] Hint Extern 5 (leaves [12] (terminate_connection _)) => apply (leaves_subset [12; 13]); [set_solver|apply leaves_terminate] : leaves.

(** What is asked of a handle: a write leaves the input alone, and raises no
    timeout. *)
Class HandleInput {F L D : Type} `{!Bitflags F} `{!Handle F L D} : Prop := hi_write : leaves [12] hd_write.
#[export] Hint Extern 1 (leaves [12] hd_write) => apply hi_write : leaves.

(** The handle of the poll based driver does. *)
Section polling.
Context {F : Type} `{!Bitflags F} `{!BitflagsLaws F} {L : Type} `{!FilterLayer L} `{!FilterLayerLaws L}.
Context {G : Type} `{!Bitflags G} {S : Type} `{!Socket S} `{!PageSplit}.

#[export] Instance polling_input : HandleInput (F := F) (L := L) (D := PollDrv G S).
Proof.
  assert (forall g, leaves [12] (mod_drv g : M (Cx F L (PollDrv G S)) ())) as Hmod by (intros g; apply leaves_outside; by intros c a c' [= _ <-]).
  assert (forall A (g : PollDrv G S -> A), leaves [12] (get_drv g : M (Cx F L (PollDrv G S)) A)) as Hget
    by (intros A g; apply leaves_outside; by intros c a c' [= _ <-]).
  unfold HandleInput. cbn [hd_write polling_handle]. unfold write_stream, item_write, ctx_with_write_buf, ctx_update_write_status, process_write_buf, stack_is_write_empty, ctx_stop, syscall, item, upd_item.
  leave.
Qed.
End polling.

Section stream.
Context {F : Type} `{!Bitflags F} `{!BitflagsLaws F} {L : Type} `{!FilterLayer L} `{!FilterLayerLaws L}.
Context {D : Type} `{!HandleDrop D} `{!Handle F L D} `{!HandleInput (F := F) (L := L) (D := D)}.
Implicit Types (c : Cx F L D).

Lemma leaves_consolidate force : leaves [12] (consolidate_write_state force : M (Cx F L D) ()).
Proof. unfold consolidate_write_state, call_write, schedule, schedule_write. leave. Qed.
Lemma leaves_encode {E} (f : list byte -> (() + E) * list byte) : leaves [12] (encode f : M (Cx F L D) (() + E)).
Proof.
  pose proof leaves_consolidate. unfold encode, with_write_buf, error_or_disconnected, with_write_src. leave.
Qed.

(** Timers, and the state of the stream. *)
Lemma leaves_start_timer elapsed timeout : leaves [12; 13] (start_timer elapsed timeout : M (Cx F L D) Z).
Proof. unfold start_timer. leave. Qed.
Lemma leaves_stop_timer : leaves [12; 13] (stop_timer : M (Cx F L D) ()).
Proof. unfold stop_timer. leave. Qed.
Lemma leaves_pause : leaves [12; 13] (pause : M (Cx F L D) ()).
Proof. unfold pause. leave. Qed.
Lemma leaves_read_ready w : leaves [12; 13] (poll_read_ready w : M (Cx F L D) _).
Proof. unfold poll_read_ready. leave. Qed.
Lemma leaves_update_destination buf : leaves [12; 13] (update_read_destination buf : M (Cx F L D) ()).
Proof. unfold update_read_destination. leave. Qed.

(** ** What the polls of the stream tell *)

Definition tmo c : Z := if hasf 12 c then 1 else 0.
Lemma tmo_sees c c' : sees [12] c c' -> tmo c' = tmo c.
Proof. intros [_ _ K]. unfold tmo. by rewrite K by mem. Qed.
Lemma sees_12 c c' : sees [12; 13] c c' -> sees [12] c c'.
Proof. intros [? ? K]. split; [done|done|]. intros k Hk. apply K. set_solver. Qed.

Definition drained c c' : Prop := hasf 12 c = true /\ hasf 12 c' = false /\ hasf 13 c' = hasf 13 c.
Definition calmer c c' : Prop := filter_of c' = filter_of c /\ tmo c' <= tmo c.

Lemma check_timeout_result c b c' :
  check_flags check_dispatcher_timeout c = Done (b, c') ->
  rd_of c' = rd_of c /\ filter_of c' = filter_of c /\ b = hasf 12 c /\ hasf 12 c' = false /\ hasf 13 c' = hasf 13 c.
Proof.
  unfold check_flags. pose proof (fun k => has_check_dispatcher_timeout k (io_flags (cx_io c))) as Hk.
  pose proof (check_dispatcher_timeout_has (io_flags (cx_io c))) as Hb.
  destruct (check_dispatcher_timeout _) as [b0 f]. cbn [fst snd] in *. intros [= <- <-]. split_and!; [done|done|done| |].
  - unfold hasf. cbn [cx_io upd_io io_flags set_flags]. by rewrite Hk, andb_false_r.
  - unfold hasf. cbn [cx_io upd_io io_flags set_flags]. by rewrite Hk, andb_true_r.
Qed.

Definition status_fact (r : Poll IoStatusUpdate) c c' : Prop :=
  rd_of c' = rd_of c /\ calmer c c' /\
  match r with
  | Ready UpdKeepAlive => drained c c'
  | Ready UpdWriteBackpressure => hasf 13 c = true
  | _ => True
  end.
Lemma status_result w c r c' : filter_of c = Some [] -> poll_status_update w c = Done (r, c') -> status_fact r c c'.
Proof.
  intros Hf He. unfold poll_status_update in He. apply bind_done in He as ([] & c1 & He1 & He).
  apply leaves_register_dispatch in He1 as K1; [|done]. pose proof (tmo_sees _ _ (sees_12 _ _ K1)) as T1. destruct K1 as [R1 F1 K1].
  apply bind_done in He as (closed & c2 & [= <- <-] & He). destruct (is_closed _).
  { apply bind_done in He as (e & c3 & [= _ <-] & [= <- <-]). split; [done|]. split; [|done]. split; [done|lia]. }
  apply bind_done in He as (t & c3 & (R3 & F3 & -> & H12 & H13)%check_timeout_result & He).
  assert (rd_of c3 = rd_of c /\ calmer c c3) as [R F'].
  { split; [congruence|]. split; [congruence|]. unfold tmo. rewrite H12. by destruct (hasf 12 c). }
  destruct (hasf 12 c1) eqn:E12.
  { injection He as <- <-. split_and!; [done|apply F'..|]. split_and!; [|done|]; [rewrite <- E12; symmetry; apply K1; mem|rewrite H13; apply K1; mem]. }
  apply bind_done in He as (bp & c4 & [= <- <-] & He). rewrite is_wr_backpressure_has in He. fold (hasf 13 c3) in He.
  destruct (hasf 13 c3) eqn:E13; [|injection He as <- <-; by split_and!; [|apply F'..|]].
  apply bind_done in He as (size & c5 & He5 & (dis & c6 & [= <- <-] & ([] & c7 & He7 & [= <- <-])%bind_done)%bind_done).
  apply (leaves_size [12; 13]) in He5 as K5; [|by rewrite F3, F1].
  assert (sees [12] c5 c7) as K7.
  { destruct (_ <=? _); [|by injection He7 as <-]. apply (leaves_flags [12] unset_wr_backpressure) in He7; [done| |].
    - intros f. bits.
    - by rewrite (se_filter _ _ _ K5), F3, F1. }
  assert (sees [12] c3 c7) as K by (etrans; [by apply sees_12|done]). split; [by rewrite (se_rd _ _ _ K)|]. split.
  - destruct F' as [F' T']. split; [by rewrite (se_filter _ _ _ K)|by rewrite (tmo_sees _ _ K)].
  - change (hasf 13 c = true). rewrite <- (K1 13), <- H13 by mem. done.
Qed.
Lemma read_pause_result w c r c' : filter_of c = Some [] -> poll_read_pause w c = Done (r, c') -> status_fact r c c'.
Proof.
  intros Hf ([] & c1 & He1 & He)%bind_done. apply leaves_pause in He1 as K; [|done].
  apply status_result in He as (R & [F1 T1] & Hr); [|by rewrite (se_filter _ _ _ K)]. split; [by rewrite R, (se_rd _ _ _ K)|].
  split; [split; [by rewrite F1, (se_filter _ _ _ K)|by rewrite <- (tmo_sees _ _ (sees_12 _ _ K))]|].
  destruct K as [_ _ K]. destruct r as [|[| |]]; [done| | |done]; [|by rewrite <- K by mem].
  destruct Hr as (? & ? & ?). split_and!; [by rewrite <- K by mem|done|by rewrite <- (K 13) by mem].
Qed.

Lemma flush_result w full c r c' :
  filter_of c = Some [] -> poll_flush w full c = Done (r, c') -> sees [12] c c' /\ (r = Ready (inl tt) -> hasf 13 c' = false).
Proof.
  intros Hf He. split.
  - assert (leaves [12] (poll_flush w full : M (Cx F L D) _)) as Hl; [|by eapply Hl]. pose proof leaves_consolidate.
    unfold poll_flush, error_or_disconnected, register_dispatch. leave.
  - intros ->. unfold poll_flush in He. apply bind_done in He as (r0 & c0 & He0 & He). rewrite (force_plain c Hf) in He0. injection He0 as <- <-.
    apply bind_done in He as ([] & c1 & _ & (len & c2 & _ & (closed & c3 & _ & (need & c4 & _ & (flush & c5 & _ & He)%bind_done)%bind_done)%bind_done)%bind_done).
    destruct (_ && closed); [by apply bind_done in He as (? & ? & _ & [=])|].
    destruct (_ && full); [by apply bind_done in He as (? & ? & _ & (? & ? & _ & [=])%bind_done)|].
    destruct (_ && need); [by apply bind_done in He as (? & ? & _ & (? & ? & _ & [=])%bind_done)|].
    destruct (closed && _); [by apply bind_done in He as (? & ? & _ & [=])|].
    apply bind_done in He as ([] & c6 & [= <-] & [= <-]). unfold hasf. cbn [cx_io upd_io io_flags set_flags].
    by rewrite has_unset_wr_backpressure_and_flush, andb_false_r.
Qed.

(** ** Decoding *)

(** The flags and the filter, whatever the input. *)
Definition stays c c' : Prop := filter_of c' = filter_of c /\ forall k, k ∈ [12; 13] -> hasf k c' = hasf k c.
#[local] Instance stays_preorder : PreOrder stays.
Proof. split; [by intros c|]. intros c1 c2 c3 [F1 K1] [F2 K2]. split; [congruence|]. intros k Hk. by rewrite K2, K1. Qed.
Lemma sees_stays c c' : sees [12; 13] c c' -> stays c c'.
Proof. by intros []. Qed.

Lemma get_first c b c1 : on_buffer (stack_get 0) c = Done (b, c1) -> rd_of c = default [] (b_read b) /\ stays c c1 /\ buf_of c1 = buf_of c /\ is_Some (buf_of c !! 0%nat).
Proof.
  unfold on_buffer, stack_get, rd_of, rd_stack. fold (buf_of c). destruct (buf_of c !! 0%nat) eqn:Hl; [|done]. intros [= -> <-]. split_and!; [done|done|done|by eexists].
Qed.
Lemma set_first c b u c1 :
  on_buffer (stack_set 0 b) c = Done (u, c1) -> is_Some (buf_of c !! 0%nat) -> rd_of c1 = default [] (b_read b) /\ stays c c1 /\ is_Some (buf_of c1 !! 0%nat).
Proof.
  intros [= _ <-] Hl%lookup_lt_is_Some. unfold rd_of, rd_stack, buf_of in *. cbn. rewrite list_lookup_insert_eq by done. split_and!; [done|done|by eexists].
Qed.

Lemma read_dst_result {A} (f : list byte -> M (Cx F L D) (A * list byte)) c a c' :
  (forall b, leaves [12; 13] (f b)) -> filter_of c = Some [] -> with_read_dst f c = Done (a, c') ->
  stays c c' /\ exists c1 c2, f (rd_of c) c1 = Done ((a, rd_of c'), c2).
Proof.
  intros Hf Hfc (b & c1 & (Hb & K1 & E1 & L1)%get_first & (u & c2 & He2 & ([r rb] & c3 & He3 & He)%bind_done)%bind_done)%bind_done.
  apply set_first in He2 as (R2 & K2 & L2); [|by rewrite E1]. assert (stays c c2) as K12 by by etrans.
  assert (f (rd_of c) c2 = Done ((r, rb), c3)) as He3' by (rewrite Hb; exact He3).
  apply Hf, sees_stays in He3; [|by rewrite (proj1 K12)].
  apply bind_done in He as (b4 & c4 & (Hb4 & K4 & E4 & L4)%get_first & (u5 & c5 & He5 & (u6 & c6 & He6 & (u7 & c7 & He7 & [= <- <-])%bind_done)%bind_done)%bind_done).
  apply set_first in He5 as (R5 & K5 & L5); [|by rewrite E4]. assert (stays c c5) as K by (etrans; [exact K12|]; do 2 (etrans; [done|]); done).
  assert (stays c5 c6 /\ rd_of c6 = []) as [K6 R6].
  { destruct (b_read b4); [|by injection He6 as _ <-]. apply leaves_terminate in He6 as [R6 F6 K6]; [|by rewrite (proj1 K)].
    split; [done|by rewrite R6, R5]. }
  destruct (Z.eqb_spec (zlen rb) 0) as [Hz|Hz].
  - injection He7 as _ <-. split; [by etrans|]. exists c2, c3. rewrite R6. by rewrite (nil_length_inv rb) in He3' by (unfold zlen in Hz; lia).
  - apply bind_done in He7 as (b8 & c8 & (_ & K8 & E8 & L8)%get_first & He9). apply set_first in He9 as (R9 & K9 & _); [|by rewrite E8].
    split; [do 3 (etrans; [done|]); done|]. exists c2, c3. by rewrite R9.
Qed.

Lemma decode_item_result {Item Err} (codec : Decoder Item Err) c r c' :
  filter_of c = Some [] -> decode_item codec c = Done (r, c') ->
  stays c c' /\ rd_of c' = (codec (rd_of c)).2 /\ forall dec it, r = inl dec -> dc_item dec = Some it -> (codec (rd_of c)).1 = inl (Some it).
Proof.
  intros Hf He. apply read_dst_result in He as (K & c1 & c2 & He); [| |done].
  - split; [done|]. destruct (codec (rd_of c)) as [res rest]. cbn [fst snd].
    apply bind_done in He as (r1 & c3 & He1 & (? & ? & _ & (? & ? & _ & [= -> -> _])%bind_done)%bind_done). split; [done|]. intros dec it -> Hi.
    destruct res as [item|e]; [|done]. apply bind_done in He1 as (n & c4 & _ & [= <- _]). cbn in Hi. by subst.
  - intros b. cbn beta zeta. pose proof leaves_update_destination. destruct (codec b) as [res rest]. leave.
Qed.

Definition recv_fact {Item Err} (r : Decoded Item + RecvError Err) c c' : Prop :=
  calmer c c' /\ zlen (rd_of c') <= zlen (rd_of c) /\
  match r with
  | inl dec => dc_item dec <> None -> zlen (rd_of c') < zlen (rd_of c)
  | inr RecvKeepAlive => drained c c'
  | inr RecvWriteBackpressure => hasf 13 c = true
  | _ => True
  end.

(** What a decoder returns it has consumed. *)
Definition decoder_consumes {Item Err} (codec : Decoder Item Err) : Prop :=
  forall buf it rest, codec buf = (inl (Some it), rest) -> zlen rest < zlen buf.

Lemma stays_calmer c c' : stays c c' -> calmer c c'.
Proof. intros [Hf K]. split; [done|]. unfold tmo. by rewrite K by mem. Qed.

Lemma recv_result {Item Err} (codec : Decoder Item Err) w c r c' :
  decoder_ok codec -> decoder_consumes codec -> filter_of c = Some [] -> poll_recv_decode codec w c = Done (r, c') -> recv_fact r c c'.
Proof.
  unfold recv_fact. intros Hok Hcons Hf ([] & c1 & He1 & (res & c2 & He2 & He)%bind_done)%bind_done.
  apply (leaves_flags [12; 13] unset_read_ready) in He1 as K1; [|intros f; bits|done].
  apply decode_item_result in He2 as (K2 & R2 & Hit); [|by rewrite (se_filter _ _ _ K1)]. rewrite (se_rd _ _ _ K1) in R2, Hit.
  assert (stays c c2) as K by (etrans; [by apply sees_stays|done]). pose proof (Hok (rd_of c)) as Hlen. rewrite <- R2 in Hlen.
  assert (forall c3, stays c2 c3 -> rd_of c3 = rd_of c2 -> calmer c c3 /\ zlen (rd_of c3) <= zlen (rd_of c)) as Hend.
  { intros c3 K3 ->. split; [apply stays_calmer; by etrans|done]. }
  destruct res as [dec|err]; [|injection He as <- <-; destruct (Hend c2); by try split_and!].
  destruct (dc_item dec) as [it|] eqn:Hdec.
  { injection He as <- <-. destruct (Hend c2); [done|done|]. split; [done|split; [done|]]. intros _. rewrite R2. eapply (Hcons _ it).
    rewrite <- (Hit dec it) by done. by destruct (codec (rd_of c)). }
  apply bind_done in He as (st & c3 & [= <- <-] & He).
  destruct (is_stopping _). { apply bind_done in He as (e & c4 & [= _ <-] & [= <- <-]). destruct (Hend c2); by try split_and!. }
  apply bind_done in He as (t & c3 & (R3 & F3 & -> & H12 & H13)%check_timeout_result & He).
  assert (calmer c c3) as Hc3. { split; [by rewrite F3, (proj1 K)|]. unfold tmo. rewrite H12. by destruct (hasf 12 c). }
  assert (zlen (rd_of c3) <= zlen (rd_of c)) as Hl3 by by rewrite R3.
  destruct (hasf 12 c2) eqn:E12.
  { injection He as <- <-. split; [done|split; [done|]]. destruct K as [_ K]. split_and!; [by rewrite <- (K 12) by mem|done|by rewrite H13, K by mem]. }
  apply bind_done in He as (bp & c4 & [= <- <-] & He). rewrite is_wr_backpressure_has in He. fold (hasf 13 c3) in He.
  destruct (hasf 13 c3) eqn:E13.
  { injection He as <- <-. split; [done|split; [done|]]. destruct K as [_ K]. change (hasf 13 c = true). by rewrite <- (K 13), <- H13 by mem. }
  apply bind_done in He as (rr & c5 & He5 & He). apply leaves_read_ready in He5 as K5; [|by rewrite (proj1 Hc3)].
  assert (calmer c c5 /\ zlen (rd_of c5) <= zlen (rd_of c)) as [Hc5 Hl5].
  { rewrite (se_rd _ _ _ K5). split; [|done]. destruct Hc3 as [F' T']. split; [by rewrite (se_filter _ _ _ K5)|by rewrite (tmo_sees _ _ (sees_12 _ _ K5))]. }
  assert (c' = c5 /\ (r = inl dec \/ exists e, r = inr (RecvPeerGone e))) as [-> Hr] by (by destruct rr as [|[[|]|]]; injection He as <- <-; eauto).
  split; [done|split; [done|]]. destruct Hr as [->|[e ->]]; [by rewrite Hdec|done].
Qed.
End stream.

(** ** The dispatcher *)

Section dispatcher.
Context {F : Type} `{!Bitflags F} `{!BitflagsLaws F} {L : Type} `{!FilterLayer L} `{!FilterLayerLaws L}.
Context {D : Type} `{!HandleDrop D} `{!Handle F L D} `{!HandleInput (F := F) (L := L) (D := D)}.
Context {Item Resp EncErr DecErr Err : Type} {V C : Type} {H : Type} `{!Bitflags H} `{!BitflagsLaws H}.
Context `{!Service (World F L D V) C (DispatchItem Item EncErr DecErr) Resp Err}.

Abbreviation Disp' := (Disp F L D EncErr Err V C H) (only parsing).
Abbreviation DM A := (M (Disp F L D EncErr Err V C H) A) (only parsing).
Implicit Types (d : Disp F L D EncErr Err V C H).

(** A service that leaves the stream to the dispatcher, and has nothing to
    send when it hears that back-pressure is over. *)
Class QuietService : Prop := {
  qs_ready wk (w : World F L D V) r w' : sv_poll_ready wk w = Done (r, w') -> wd_io w' = wd_io w;
  qs_call nowait i (w : World F L D V) c w' : sv_call nowait i w = Done (c, w') -> wd_io w' = wd_io w;
  qs_poll wk c (w : World F L D V) r w' : sv_poll wk c w = Done (r, w') -> wd_io w' = wd_io w;
  qs_silent nowait wk (w w1 w2 : World F L D V) c r c' :
    sv_call nowait (DispControl WBackPressureDisabled) w = Done (c, w1) -> sv_poll wk c w1 = Done ((Ready (inl (Some r)), c'), w2) -> False;
}.
Context `{!QuietService}.

Variable (codec : Decoder Item DecErr) (encodev : Resp -> list byte -> (() + EncErr) * list byte).
Hypothesis codec_ok : decoder_ok codec.
Hypothesis codec_consumes : decoder_consumes codec.

Definition io_of d : Cx F L D := wd_io (dp_world d).

Definition dcalm ks {A} (op : DM A) : Prop := forall d a d',
  filter_of (io_of d) = Some [] -> op d = Done (a, d') -> sees ks (io_of d) (io_of d') /\ dp_st d' = dp_st d.

Lemma dcalm_ret ks {A} (a : A) : dcalm ks (mret a).
Proof. by intros d ? ? _ [= _ <-]. Qed.
Lemma dcalm_bind ks {A B} (op : DM A) (k : A -> DM B) : dcalm ks op -> (forall a, dcalm ks (k a)) -> dcalm ks (op ≫= k).
Proof.
  intros H1 H2 d b d' Hf (a & d1 & He & Hk)%bind_done. apply H1 in He as [K1 S1]; [|done].
  apply H2 in Hk as [K2 S2]; [|by rewrite (se_filter _ _ _ K1)]. split; [by etrans|congruence].
Qed.
Lemma dcalm_gets ks {A} (g : Disp' -> A) : dcalm ks (getsS g).
Proof. by intros d ? ? _ [= _ <-]. Qed.
Lemma dcalm_lift ks {A} (o : outcome A) : dcalm ks (liftS o).
Proof. intros d a d' _. unfold liftS. destruct o; [|done]. by intros [= _ <-]. Qed.
Lemma dcalm_modify ks (g : Disp' -> Disp') : (forall d, dp_world (g d) = dp_world d) -> (forall d, dp_st (g d) = dp_st d) -> dcalm ks (modifyS g).
Proof. intros Hw Hs d ? ? _ [= _ <-]. unfold io_of. by rewrite Hw. Qed.
Lemma dcalm_io ks {A} (op : M (Cx F L D) A) : leaves ks op -> dcalm ks (on_io op).
Proof.
  intros Hop d a d' Hf. unfold on_io, on_world, on_stream. fold (io_of d). destruct (op (io_of d)) as [[r c]|] eqn:He; [|done].
  intros [= _ <-]. split; [by eapply Hop|done].
Qed.
Lemma dcalm_world ks {A} (op : M (World F L D V) A) : (forall w a w', op w = Done (a, w') -> wd_io w' = wd_io w) -> dcalm ks (on_world op).
Proof.
  intros Hop d a d' _. unfold on_world. destruct (op (dp_world d)) as [[r w]|] eqn:He; [|done]. apply Hop in He. intros [= _ <-].
  split; [|done]. unfold io_of. cbn. by rewrite He.
Qed.
End dispatcher.

Create HintDb dcalm.
#[export] Hint Resolve dcalm_ret dcalm_gets dcalm_lift : dcalm.
#[export] Hint Extern 1 (dcalm _ (modifyS _)) => apply dcalm_modify; done : dcalm.
#[export] Hint Extern 1 (dcalm _ (dp_contains _)) => apply dcalm_gets : dcalm.
#[export] Hint Extern 1 (dcalm _ (insert_flags _)) => apply dcalm_modify; done : dcalm.
#[export] Hint Extern 1 (dcalm _ (on_world (sv_poll _ _))) => apply dcalm_world; apply qs_poll : dcalm.
#[export] Hint Extern 1 (dcalm _ (on_world (sv_call _ _))) => apply dcalm_world; apply qs_call : dcalm.
#[export] Hint Extern 1 (dcalm _ (on_world (sv_poll_ready _))) => apply dcalm_world; apply qs_ready : dcalm.

Ltac dcalm :=
  lazymatch goal with
  | |- forall _, _ => intros; dcalm
  | |- dcalm _ (match ?x with _ => _ end) => destruct x; dcalm
  | |- dcalm _ (_ ≫= _) => apply dcalm_bind; [dcalm|intros; dcalm]
  | |- dcalm _ (remove_flags _) => unfold remove_flags; dcalm
  | |- dcalm _ (on_io _) => apply dcalm_io; auto with leaves nocore
  | |- dcalm _ _ => solve [auto with dcalm nocore]
  end.
#[export] Hint Resolve leaves_encode leaves_start_timer leaves_stop_timer leaves_pause leaves_read_ready : leaves.

Section rounds.
Context {F : Type} `{!Bitflags F} `{!BitflagsLaws F} {L : Type} `{!FilterLayer L} `{!FilterLayerLaws L}.
Context {D : Type} `{!HandleDrop D} `{!Handle F L D} `{!HandleInput (F := F) (L := L) (D := D)}.
Context {Item Resp EncErr DecErr Err : Type} {V C : Type} {H : Type} `{!Bitflags H} `{!BitflagsLaws H}.
Context `{!Service (World F L D V) C (DispatchItem Item EncErr DecErr) Resp Err} `{!QuietService (Item := Item) (Resp := Resp) (EncErr := EncErr) (DecErr := DecErr) (Err := Err) (V := V) (C := C)}.
Implicit Types (d : Disp F L D EncErr Err V C H).
Abbreviation DM A := (M (Disp F L D EncErr Err V C H) A) (only parsing).

Variable (codec : Decoder Item DecErr) (encodev : Resp -> list byte -> (() + EncErr) * list byte).
Hypothesis codec_ok : decoder_ok codec.
Hypothesis codec_consumes : decoder_consumes codec.

Lemma handle_result_calm r wake : dcalm [12] (handle_result encodev r wake : DM ()).
Proof. unfold handle_result. dcalm. Qed.
Lemma handle_result_silent r wake : (forall x, r <> inl (Some x)) -> dcalm [12; 13] (handle_result encodev r wake : DM ()).
Proof. intros Hr. unfold handle_result. destruct r as [[x|]|e]; [by destruct (Hr x)|dcalm..]. Qed.
Lemma call_service_calm w item nowait : dcalm [12] (call_service encodev w item nowait : DM ()).
Proof. pose proof handle_result_calm. unfold call_service. dcalm. Qed.

Lemma remove_flags_world n d a d' : remove_flags n d = Done (a, d') -> dp_world d' = dp_world d.
Proof.
  unfold remove_flags. intros (b & d1 & [= <- <-] & ([] & d2 & He & [= _ <-])%bind_done)%bind_done. destruct (fl_intersects _ _); by injection He as <-.
Qed.
Lemma call_silent w nowait : dcalm [12; 13] (call_service encodev w (DispControl WBackPressureDisabled) nowait : DM ()).
Proof.
  intros d [] d' Hf He. unfold call_service in He. apply bind_done in He as (fut & d1 & He1 & He).
  assert (exists w1, sv_call nowait (DispControl WBackPressureDisabled) (dp_world d) = Done (fut, w1) /\ d1 = set_dp_world w1 d) as (w1 & Hcall & ->).
  { unfold on_world in He1. destruct (sv_call _ _ _) as [[? w1]|]; [|done]. injection He1 as -> <-. by exists w1. }
  apply bind_done in He as (n & d2 & [= <- <-] & (n' & d2 & He2 & ([] & d3 & [= <-] & ([] & d4 & He4 & (resp & d5 & [= <- <-] & He)%bind_done)%bind_done)%bind_done)%bind_done).
  assert (d2 = set_dp_world w1 d) as ->. { unfold liftS in He2. destruct (checked_add _ _ _); [|done]. by injection He2. }
  assert (dp_world d4 = w1) as Hw4.
  { destruct (n' =? 1); [|by injection He4 as <-]. apply bind_done in He4 as (? & ? & He4%remove_flags_world & [= <-]). by rewrite He4. }
  assert (wd_io w1 = io_of d) as Hio by by eapply qs_call.
  assert (dp_st d4 = dp_st d) as Hs4.
  { assert (dcalm [12] ((if n' =? 1 then remove_flags IDLE;; mret tt else mret tt) : DM ())) as Hc by dcalm.
    apply Hc in He4 as [_ ->]; [done|]. unfold io_of at 1. cbn. by rewrite Hio. }
  assert (sees [12; 13] (io_of d) (io_of d4)) as K4 by (unfold io_of at 2; by rewrite Hw4, Hio).
  destruct (dp_response d4); [by injection He as <-|].
  apply bind_done in He as ([r fut'] & d6 & He6 & He). pose proof He6 as He6'.
  apply (dcalm_world [12; 13] _ (qs_poll _ _)) in He6 as [K6 S6]; [|by rewrite (se_filter _ _ _ K4)].
  destruct r as [|result]; [injection He as <-; split; [by etrans|by rewrite <- Hs4, <- S6]|].
  apply handle_result_silent in He as [K7 S7].
  - split; [by etrans; [|etrans]|congruence].
  - intros x ->. unfold on_world in He6'. rewrite Hw4 in He6'. destruct (sv_poll w fut w1) as [[? ?]|] eqn:Hpoll; [|done].
    injection He6' as -> _. by eapply qs_silent.
  - by rewrite (se_filter _ _ _ K6), (se_filter _ _ _ K4).
Qed.

Lemma on_io_done {A} (op : M (Cx F L D) A) d a d' :
  on_io op d = Done (a, d') -> exists c', op (io_of d) = Done (a, c') /\ d' = set_dp_world (mkWorld c' (wd_sv (dp_world d))) d.
Proof.
  unfold on_io, on_world, on_stream. fold (io_of d). destruct (op (io_of d)) as [[r c']|]; [|done]. intros [= -> <-]. by exists c'.
Qed.

(** ** The measure of a poll *)

Definition unlayered d : Prop := filter_of (io_of d) = Some [].
Definition mu d : Z := 3 * zlen (rd_of (io_of d)) + tmo (io_of d).
Definition wbp d : Z := if hasf 13 (io_of d) then 1 else 0.
Definition noerr d : Z := if fl_intersects (dp_flags d) (fl_of IO_ERR) then 0 else 1.
Definition rank d : Z :=
  match dp_st d with
  | Shutdown => 0
  | Stop => 1 + 2 * noerr d + wbp d
  | Backpressure => 6 + mu d
  | Processing => 5 + mu d + 2 * wbp d
  end.
Definition lower d d' : Prop := unlayered d' /\ rank d' < rank d.

Lemma mu_pos d : 0 <= mu d.
Proof. unfold mu, tmo, zlen. case_match; lia. Qed.
Lemma mu_calm d d' : sees [12] (io_of d) (io_of d') -> mu d' = mu d.
Proof. intros K. unfold mu. by rewrite (se_rd _ _ _ K), (tmo_sees _ _ K). Qed.
Lemma rank_stop d d' : dp_st d' = Stop -> live d -> rank d' < rank d.
Proof.
  intros Hs Hl. pose proof (mu_pos d). unfold rank. rewrite Hs. unfold noerr, wbp. destruct Hl as [->| ->]; repeat case_match; lia.
Qed.

Definition service_fact (r : Poll (PollService Item EncErr DecErr)) d d' : Prop :=
  rd_of (io_of d') = rd_of (io_of d) /\ calmer (io_of d) (io_of d') /\
  match r with
  | Pending => True
  | Ready PsReady => sees [12; 13] (io_of d) (io_of d') /\ dp_st d' = dp_st d
  | Ready PsContinue => dp_st d' = Stop \/ (dp_st d' = dp_st d /\ drained (io_of d) (io_of d'))
  | Ready (PsItem _) => dp_st d' = Stop
  | Ready (PsItemWait _) => dp_st d' = Stop \/ (dp_st d' = Backpressure /\ hasf 13 (io_of d) = true)
  end.

Lemma check_error_result d r d' : check_error d = Done (r, d') -> service_fact (Ready r) d d'.
Proof.
  unfold check_error. intros (e & d1 & [= <- <-] & He)%bind_done. destruct (dp_shared_error d) as [err|]; [|by injection He as <- <-].
  apply bind_done in He as ([] & d1 & [= <-] & ([] & d2 & [= <-] & He)%bind_done).
  destruct err as [err|err]; [by injection He as <- <-|]. apply bind_done in He as ([] & d3 & [= <-] & [= <- <-]). split; [done|split; [done|by left]].
Qed.

Lemma poll_service_result w d r d' : unlayered d -> poll_service w d = Done (r, d') -> service_fact r d d'.
Proof.
  intros Hp (rd & d1 & He1 & He)%bind_done. apply (dcalm_world [12; 13] _ (qs_ready _)) in He1 as [K1 S1]; [|done].
  assert (forall r d', service_fact r d1 d' -> service_fact r d d') as Hfrom.
  { intros r0 d0 (R & [Hf Ht] & Hr). split; [by rewrite R, (se_rd _ _ _ K1)|].
    split; [split; [by rewrite Hf, (se_filter _ _ _ K1)|by rewrite <- (tmo_sees _ _ (sees_12 _ _ K1))]|].
    unfold drained in *. pose proof (se_flags _ _ _ K1 12) as K12. pose proof (se_flags _ _ _ K1 13) as K13.
    rewrite K12, K13, S1 in Hr by mem. destruct r0 as [|[]]; try done. destruct Hr. split; [by etrans|done]. }
  apply Hfrom. assert (unlayered d1) as Hp1 by (unfold unlayered; by rewrite (se_filter _ _ _ K1)). clear Hfrom K1 S1 Hp.
  destruct rd as [|[[]|err]].
  - apply bind_done in He as (b & d2 & He2 & ([] & d3 & He3 & (upd & d4 & (c4 & He4 & ->)%on_io_done & He)%bind_done)%bind_done).
    assert (dcalm [12; 13] (remove_flags (Z.lor (Z.lor KA_TIMEOUT READ_TIMEOUT) IDLE) : DM bool)) as Hrm by dcalm.
    apply Hrm in He2 as [K2 S2]; [|done]. apply (dcalm_io [12; 13] _ leaves_stop_timer) in He3 as [K3 S3]; [|by rewrite (se_filter _ _ _ K2)].
    assert (sees [12; 13] (io_of d1) (io_of d3)) as K by (by etrans). apply read_pause_result in He4 as (R4 & [F4 T4] & Hu); [|by rewrite (se_filter _ _ _ K)].
    rewrite (se_rd _ _ _ K) in R4. rewrite (se_filter _ _ _ K) in F4. rewrite (tmo_sees _ _ (sees_12 _ _ K)) in T4.
    set (d4 := set_dp_world _ d3) in *. assert (dp_st d4 = dp_st d1) as S4 by (by rewrite <- S2, <- S3).
    assert (forall d5, io_of d5 = c4 -> rd_of (io_of d5) = rd_of (io_of d1) /\ calmer (io_of d1) (io_of d5)) as Hend by (by intros d5 ->).
    destruct upd as [|[| |err]].
    + injection He as <- <-. by destruct (Hend d4).
    + destruct Hu as (U1 & U2 & U3). rewrite (se_flags _ _ _ K) in U1, U3 by mem.
      apply bind_done in He as (ka & d5 & [= <- <-] & He). destruct (fl_intersects _ _); [|injection He as <- <-; destruct (Hend d4); [done|]; split; [done|split; [done|by right]]].
      apply bind_done in He as ([] & d5 & [= <-] & [= <- <-]). destruct (Hend (set_dp_st Stop d4)); [done|]. split; [done|split; [done|by left]].
    + apply bind_done in He as ([] & d5 & [= <-] & [= <- <-]). destruct (Hend (set_dp_st Backpressure d4)); [done|]. split; [done|split; [done|right]].
      split; [done|]. by rewrite <- (se_flags _ _ _ K) by mem.
    + apply bind_done in He as ([] & d5 & [= <-] & [= <- <-]). destruct (Hend (set_dp_st Stop d4)); [done|]. split; [done|split; [done|by left]].
  - apply bind_done in He as (ps & d2 & He2 & [= <- <-]). by apply check_error_result.
  - apply bind_done in He as ([] & d2 & [= <-] & ([] & d3 & [= <-] & ([] & d4 & [= <-] & [= <- <-])%bind_done)%bind_done). split; [done|split; [done|by left]].
Qed.

(** ** The rounds lower the measure *)

Lemma call_after w item nowait d d' (r : option (Poll (() + Err))) : unlayered d -> (call_service encodev w item nowait;; mret r) d = Done (None, d') ->
  unlayered d' /\ mu d' = mu d /\ dp_st d' = dp_st d.
Proof.
  intros Hp ([] & d1 & He & [= _ <-])%bind_done. apply call_service_calm in He as [K S]; [|done].
  split; [unfold unlayered; by rewrite (se_filter _ _ _ K)|]. split; [by apply mu_calm|done].
Qed.
Lemma stop_after w item nowait d d1 d' :
  live d -> unlayered d1 -> (modifyS (set_dp_st Stop);; call_service encodev w item nowait;; mret None) d1 = Done (None : option (Poll (() + Err)), d') -> lower d d'.
Proof.
  intros Hl Hp ([] & d2 & [= <-] & He)%bind_done. apply call_after in He as (Hp' & _ & Hs); [|done]. split; [done|]. by apply rank_stop.
Qed.
Lemma drained_mu d d' : rd_of (io_of d') = rd_of (io_of d) -> drained (io_of d) (io_of d') -> mu d' = mu d - 1 /\ wbp d' = wbp d.
Proof. intros R (H1 & H2 & H3). unfold mu, wbp, tmo. rewrite R, H1, H2, H3. lia. Qed.

Lemma dcalm_update_timer elapsed (dec : Decoded Item) : dcalm [12] (update_timer elapsed dec : DM ()).
Proof.
  assert (forall e t, leaves [12] (start_timer e t : M (Cx F L D) Z)) by (intros e t; unfold start_timer; leave). unfold update_timer. dcalm.
Qed.
Lemma dcalm_handle_timeout elapsed : dcalm [12; 13] (handle_timeout (DecErr := DecErr) elapsed : DM _).
Proof. unfold handle_timeout. cbv zeta. dcalm. Qed.

Lemma service_plain r d d' : unlayered d -> service_fact r d d' -> unlayered d' /\ mu d' <= mu d.
Proof. intros Hp (R & [Hf Ht] & _). split; [unfold unlayered; by rewrite Hf|]. unfold mu. rewrite R. lia. Qed.
Lemma drained_lower d d' : live d -> unlayered d' -> dp_st d' = dp_st d -> mu d' < mu d -> wbp d' = wbp d -> lower d d'.
Proof. intros Hl Hp Hs Hm Hw. split; [done|]. unfold rank. rewrite Hs, Hw. destruct Hl as [->| ->]; lia. Qed.
(** The end of a round that polled the service. *)
Lemma service_continue d d' : live d -> unlayered d -> service_fact (Ready PsContinue) d d' -> lower d d'.
Proof.
  intros Hl Hp Hf. destruct (service_plain _ _ _ Hp Hf) as [Hp' Hm]. destruct Hf as (R & _ & [Hs|[Hs Hdr]]).
  - split; [done|by apply rank_stop].
  - destruct (drained_mu _ _ R Hdr) as [? ?]. apply drained_lower; [done..|lia|done].
Qed.

Lemma processing_lower elapsed w d d' :
  dp_st d = Processing -> unlayered d -> round_processing codec encodev elapsed w d = Done (None, d') -> lower d d'.
Proof.
  intros Hst Hp (r & d1 & Hr%poll_service_result & He)%bind_done; [|done]. assert (live d) as Hl by by left.
  destruct (service_plain _ _ _ Hp Hr) as [Hp1 Hm1]. destruct r as [|[item|item| |]]; [done| | |by injection He as <-; apply service_continue|].
  - destruct Hr as (_ & _ & Hs). apply call_after in He as (Hp' & _ & Hs'); [|done]. split; [done|]. apply rank_stop; [congruence|done].
  - apply call_after in He as (Hp' & Hm' & Hs'); [|done]. split; [done|]. destruct Hr as (_ & _ & [Hs|[Hs Hw]]); [apply rank_stop; [congruence|done]|].
    unfold rank. rewrite Hs', Hs, Hst. unfold wbp. rewrite Hw. lia.
  - destruct Hr as (_ & _ & K1 & S1). apply bind_done in He as (r & d2 & (c2 & He2 & ->)%on_io_done & He).
    apply recv_result in He2 as ([Hf2 Ht2] & Hl2 & Hr2); [|done|done|done]. set (d2 := set_dp_world _ d1) in *.
    assert (unlayered d2) as Hp2 by (unfold unlayered; cbn; by rewrite Hf2). pose proof (mu_calm _ _ (sees_12 _ _ K1)) as Hm.
    assert (mu d2 <= mu d1) as Hm2 by (unfold mu; cbn [io_of d2 dp_world wd_io set_dp_world] in *; lia).
    assert (wbp d1 = wbp d) as Hw1 by (unfold wbp; by rewrite (se_flags _ _ _ K1) by mem).
    destruct r as [dec|[| |err|err]]; [| | |by eapply stop_after..].
    + apply bind_done in He as ([] & d3 & He3 & He). apply dcalm_update_timer in He3 as [K3 S3]; [|done].
      destruct (dc_item dec) as [el|]; [|done]. assert (unlayered d3) as Hp3 by (unfold unlayered; by rewrite (se_filter _ _ _ K3)).
      apply call_after in He as (Hp' & Hm' & Hs'); [|done]. split; [done|].
      assert (mu d2 <= mu d1 - 3) as Hm3. { specialize (Hr2 ltac:(done)). unfold mu. cbn [io_of d2 dp_world wd_io set_dp_world] in *. lia. }
      apply mu_calm in K3. unfold rank. rewrite Hs', S3. change (dp_st d2) with (dp_st d1). rewrite S1, Hst.
      unfold wbp. repeat case_match; lia.
    + apply bind_done in He as (res & d3 & He3 & He). apply dcalm_handle_timeout in He3 as [K3 S3]; [|done].
      assert (unlayered d3) as Hp3 by (unfold unlayered; by rewrite (se_filter _ _ _ K3)). destruct res as [[]|ctl]; [injection He as <-|by eapply stop_after].
      destruct Hr2 as (U1 & U2 & U3). apply drained_lower; [done|done|by rewrite S3, <- S1| |].
      * rewrite (mu_calm _ _ (sees_12 _ _ K3)), <- Hm. unfold mu, tmo. cbn [io_of d2 dp_world wd_io set_dp_world]. fold (io_of d1). rewrite U1, U2. lia.
      * rewrite <- Hw1. unfold wbp. rewrite (se_flags _ _ _ K3) by mem. change (io_of d2) with c2. by rewrite U3.
    + apply bind_done in He as ([] & d3 & [= <-] & He). apply call_after in He as (Hp' & Hm' & Hs'); [|done]. split; [done|].
      assert (dp_st d' = Backpressure) as Hs by by rewrite Hs'. assert (mu d' = mu d2) as Hm3 by exact Hm'. unfold rank. rewrite Hs, Hst.
      change (hasf 13 (io_of d1) = true) in Hr2. assert (wbp d1 = 1) by (unfold wbp; by rewrite Hr2). lia.
Qed.

Lemma flush_lower w d d1 d' :
  dp_st d = Backpressure -> unlayered d1 -> mu d1 <= mu d -> round_flush encodev w d1 = Done (None, d') -> lower d d'.
Proof.
  intros Hst Hp1 Hm1 (r & d2 & (c2 & He2 & ->)%on_io_done & He)%bind_done. apply flush_result in He2 as (K2 & Hok); [|done]. set (d2 := set_dp_world _ d1) in *.
  assert (unlayered d2) as Hp2 by (unfold unlayered; cbn; by rewrite (se_filter _ _ _ K2)). assert (mu d2 = mu d1) as Hm2 by by apply mu_calm.
  destruct r as [|[[]|err]]; [done| |by eapply stop_after; [right|..]].
  apply bind_done in He as ([] & d3 & [= <-] & ([] & d4 & He4 & [= <-])%bind_done). apply call_silent in He4 as [K4 S4]; [|done].
  split; [unfold unlayered; by rewrite (se_filter _ _ _ K4)|]. unfold rank. rewrite Hst, S4. change (dp_st (set_dp_st Processing d2)) with Processing.
  rewrite (mu_calm _ _ (sees_12 _ _ K4)). change (mu (set_dp_st Processing d2)) with (mu d2). unfold wbp. rewrite (se_flags _ _ _ K4) by mem.
  change (io_of (set_dp_st Processing d2)) with c2. rewrite Hok by done. lia.
Qed.

Lemma backpressure_lower w d d' : dp_st d = Backpressure -> unlayered d -> round_backpressure encodev w d = Done (None, d') -> lower d d'.
Proof.
  intros Hst Hp (r & d1 & Hr%poll_service_result & He)%bind_done; [|done]. assert (live d) as Hl by by right.
  destruct (service_plain _ _ _ Hp Hr) as [Hp1 Hm1].
  assert (forall item nowait, (call_service encodev w item nowait;; round_flush encodev w) d1 = Done (None, d') -> lower d d') as Hcall.
  { intros item nowait ([] & d2 & He2 & Hfl)%bind_done. apply call_service_calm in He2 as [K S]; [|done]. eapply flush_lower; [done| | |done].
    - unfold unlayered. by rewrite (se_filter _ _ _ K).
    - by rewrite (mu_calm _ _ K). }
  destruct r as [|[item|item| |]]; [done|by eapply Hcall| |by injection He as <-; apply service_continue|by eapply flush_lower].
  destruct item as [el|[]|reason]; [by eapply Hcall|by eapply flush_lower|by eapply Hcall|by eapply Hcall].
Qed.

(** The flag of the dispatcher that says that the stream failed. *)
Lemma noerr_has d : noerr d = if has 1 (dp_flags d) then 0 else 1.
Proof. unfold noerr. change (fl_intersects (dp_flags d) (fl_of IO_ERR)) with (fintersects (2 ^ 1) (dp_flags d)). by rewrite intersects_has. Qed.
Lemma noerr_insert n d : 0 <= n -> noerr (set_dp_flags (fl_insert (dp_flags d) (fl_of n)) d) = if Z.testbit n 1 then 0 else noerr d.
Proof.
  intros Hn. rewrite !noerr_has. cbn [dp_flags set_dp_flags]. change (fl_insert (dp_flags d) (fl_of n)) with (finsert n (dp_flags d)).
  rewrite has_insert by done. by destruct (has 1 (dp_flags d)), (Z.testbit n 1).
Qed.

Lemma stop_idle_lower w d d' : dp_st d = Stop -> unlayered d -> round_stop_idle w d = Done (None : option (Poll (() + Err)), d') -> lower d d'.
Proof.
  intros Hst Hp (r & d1 & (c1 & He1 & ->)%on_io_done & He)%bind_done. destruct r as [|r]; [done|]. apply bind_done in He as ([] & d2 & [= <-] & [= <-]).
  assert (leaves [12; 13] (poll_shutdown w : M (Cx F L D) _)) as Hl by (unfold poll_shutdown, start_shutdown; leave).
  apply Hl in He1 as K1; [|done]. split; [unfold unlayered; cbn; by rewrite (se_filter _ _ _ K1)|].
  unfold rank. cbn [dp_st set_dp_st]. rewrite Hst. unfold noerr, wbp. repeat case_match; lia.
Qed.

Lemma stop_busy_lower w d d' : dp_st d = Stop -> unlayered d -> round_stop_busy w d = Done (None : option (Poll (() + Err)), d') -> lower d d'.
Proof.
  intros Hst Hp (b & d1 & [= <- <-] & He)%bind_done. destruct (fl_intersects _ _) eqn:Hio; cbn [negb] in He.
  { apply bind_done in He as ([] & d1 & _ & He). done. }
  assert (noerr d = 1) as Hn by (unfold noerr; by rewrite Hio). assert (0 <= wbp d) as Hw by (unfold wbp; case_match; lia).
  assert (forall d1, dp_st d1 = Stop -> unlayered d1 -> (insert_flags IO_ERR;; mret None) d1 = Done (None : option (Poll (() + Err)), d') -> lower d d') as Hins.
  { intros d1 Hs1 Hp1 ([] & d2 & [= <-] & [= <-])%bind_done. split; [done|]. unfold rank. cbn [dp_st set_dp_flags]. rewrite Hs1, Hst, noerr_insert, Hn by done.
    change (wbp (set_dp_flags _ d1)) with (wbp d1). cbn. unfold wbp in *. repeat case_match; lia. }
  apply bind_done in He as (upd & d1 & (c1 & He1 & ->)%on_io_done & He). apply status_result in He1 as (R1 & [F1 T1] & Hu); [|done].
  set (d1 := set_dp_world _ d) in *. assert (unlayered d1) as Hp1 by (unfold unlayered; cbn; by rewrite F1).
  destruct upd as [|[| |err]]; [done|by apply (Hins d1)| |by apply (Hins d1)].
  apply bind_done in He as (r & d2 & (c2 & He2 & ->)%on_io_done & He). apply flush_result in He2 as [K2 Hok]; [|done].
  set (d2 := set_dp_world _ d1) in *. assert (unlayered d2) as Hp2 by (unfold unlayered; cbn; by rewrite (se_filter _ _ _ K2)).
  destruct r as [|[[]|err]]; [done| |by apply (Hins d2)]. injection He as <-. split; [done|]. unfold rank. change (dp_st d2) with (dp_st d). rewrite Hst.
  change (noerr d2) with (noerr d). unfold wbp. change (io_of d2) with c2. rewrite Hok by done. change (hasf 13 (io_of d) = true) in Hu. rewrite Hu. lia.
Qed.

Lemma stop_lower w d d' : dp_st d = Stop -> unlayered d -> round_stop w d = Done (None, d') -> lower d d'.
Proof.
  intros Hst Hp ([] & d1 & He1 & (re & d2 & [= <- <-] & ([] & d3 & He3 & (n & d4 & [= <- <-] & He)%bind_done)%bind_done)%bind_done)%bind_done.
  pose proof (on_io_done _ _ _ _ He1) as (c1 & _ & E1). apply (dcalm_io [12; 13] _ leaves_stop_timer) in He1 as [K1 S1]; [|done].
  assert (noerr d1 = noerr d) as N1 by (by rewrite E1).
  assert (sees [12; 13] (io_of d1) (io_of d3) /\ dp_st d3 = dp_st d1 /\ noerr d3 = noerr d1) as (K3 & S3 & N3).
  { destruct (fl_intersects _ _); [by injection He3 as <-|]. apply bind_done in He3 as (r & d2 & He2 & He3).
    assert (noerr d2 = noerr d1 /\ dp_flags d2 = dp_flags d1) as [N2 _].
    { unfold on_world in He2. destruct (sv_poll_ready _ _) as [[? ?]|]; [|done]. by injection He2 as _ <-. }
    apply (dcalm_world [12; 13] _ (qs_ready _)) in He2 as [K2 S2]; [|unfold unlayered in *; by rewrite (se_filter _ _ _ K1)].
    destruct r as [|[[]|err]]; injection He3 as <-; [done|done|]. split_and!; [done|done|]. by rewrite noerr_insert, N2. }
  assert (sees [12; 13] (io_of d) (io_of d3)) as K by by etrans. assert (unlayered d3) as Hp3 by (unfold unlayered; by rewrite (se_filter _ _ _ K)).
  assert (rank d3 = rank d) as Hrank.
  { unfold rank. rewrite S3, S1, Hst, N3, N1. unfold wbp. by rewrite (se_flags _ _ _ K) by mem. }
  assert (dp_st d3 = Stop) as Hst3 by congruence. unfold lower. rewrite <- Hrank.
  destruct (dp_inflight d3 =? 0); [by eapply stop_idle_lower|by eapply stop_busy_lower].
Qed.

(** ** Termination *)

Lemma round_lower elapsed w d d' : unlayered d -> dispatcher_round codec encodev elapsed w d = Done (None, d') -> lower d d'.
Proof.
  intros Hp (st & d1 & [= <- <-] & He)%bind_done. destruct (dp_st d) eqn:Hst;
    [by eapply processing_lower|by eapply backpressure_lower|by eapply stop_lower|].
  apply bind_done in He as (r & d1 & _ & He). destruct r; [done|]. by apply bind_done in He as (? & ? & _ & (? & ? & _ & [=])%bind_done).
Qed.

Lemma rank_pos d : 0 <= rank d.
Proof. unfold rank, noerr, wbp. pose proof (mu_pos d). repeat case_match; lia. Qed.

Lemma poll_response_calm w : dcalm [12] (poll_response encodev w : DM ()).
Proof. pose proof handle_result_calm. unfold poll_response. dcalm. Qed.

(** With as many rounds as the measure, the loop does not run out of them. *)
Context (Q : bool -> D -> Prop) (sent : D -> list byte) `{!HandleLaws Q sent} (VI : V -> Prop).
Context `{!ServiceLaws (Item := Item) (Resp := Resp) (EncErr := EncErr) (DecErr := DecErr) (Err := Err) Q sent VI}.
Hypothesis encodev_ok : forall r, exists bs, forall b, (encodev r b).2 = b ++ bs.
Abbreviation DI := (DI Q sent VI).

Lemma di_plain k n d : DI k n d -> unlayered d.
Proof. intros [[[Hf _] _] _ _ _ _ _]. done. Qed.

Lemma loop_returns fuel elapsed w n d :
  DI 0 n d -> 2 * Z.of_nat fuel <= n -> 0 <= elapsed <= clock_max -> rank d < Z.of_nat fuel ->
  dispatcher_loop codec encodev fuel elapsed w d <> Fault Diverges.
Proof.
  revert n d. induction fuel as [|fuel IH]; intros n d Hd Hn He Hr; [pose proof (rank_pos d); lia|]. cbn [dispatcher_loop].
  destruct (dispatcher_round_spec Q sent VI codec encodev codec_ok encodev_ok elapsed w n d) as [[Hrun _]|([r|] & d1 & Hrun & Hd1 & _)]; [done|lia|done|..];
    unfold mbind, M_bind; rewrite Hrun; [done|done|].
  apply round_lower in Hrun as [_ Hl]; [|by eapply di_plain]. apply (IH (n - 2)); [done|lia|done|lia].
Qed.

Lemma poll_returns fuel elapsed w n d :
  DI 0 n d -> 2 * Z.of_nat fuel <= n -> 0 <= elapsed <= clock_max -> 3 * zlen (rd_of (io_of d)) + 8 < Z.of_nat fuel ->
  dispatcher_poll codec encodev fuel elapsed w d <> Fault Diverges.
Proof.
  intros Hd Hn He Hf. unfold dispatcher_poll.
  destruct (poll_response_spec Q sent VI encodev encodev_ok w n d) as ([] & d1 & Hrun & Hd1 & _); [done|]. unfold mbind, M_bind. rewrite Hrun.
  apply (loop_returns _ _ _ n); [done|done|done|]. apply poll_response_calm in Hrun as [K _]; [|by eapply di_plain].
  pose proof (mu_calm _ _ K) as Hm. pose proof (mu_pos d1). unfold rank, wbp, noerr, mu, tmo in *. repeat case_match; lia.
Qed.
End rounds.
