(* ===== verification/DispatcherProps.v ===== *)
(** * A concrete dispatcher

    A service that echoes bytes and keeps a log, codecs, and a dispatcher for
    a stream of the poll based driver. *)
From Stdlib Require Import ZArith Lia.
From stdpp Require Import base numbers list.
From stdpp Require Import base numbers gmap list sets.
From S2P Require Import Prelude Deps Task IoConfig IoFlags IoBuf IoChain IoTimers IoState IoInv IoRef IoKeeps IoOutput Polling PollingSpec PollingSteps IoSystem IoExample IoProps Dispatcher DispatcherInv DispatcherTerm.

Abbreviation TestItem := (DispatchItem Z () ()).
Abbreviation TestDrv := (PollDrv Z TestSocket).

(** The calls stay pending while the service is busy. *)
Record TestService := mkTestService { tv_ready : Poll (() + ()); tv_busy : bool; tv_log : list TestItem }.
Abbreviation TestWorld := (World Z TestLayer TestDrv TestService).

Definition on_service {A} (f : TestService -> A * TestService) : M TestWorld A := fun w =>
  let '(a, v) := f (wd_sv w) in Done (a, mkWorld (wd_io w) v).

#[export] Instance test_service : Service TestWorld (option Z) TestItem Z () := {
  sv_poll_ready _ := on_service (fun v => (tv_ready v, v));
  sv_call _ i := on_service (fun v =>
    (match i with DispItem b => Some b | _ => None end, mkTestService (tv_ready v) (tv_busy v) (tv_log v ++ [i])));
  sv_poll _ c := on_service (fun v => (if tv_busy v then Pending else Ready (inl c), c, v));
  sv_poll_shutdown _ := on_service (fun v => (Ready tt, v));
}.

Definition set_busy (busy : bool) : M TestWorld () := on_service (fun v => (tt, mkTestService (tv_ready v) busy (tv_log v))).

Section laws.
Context (ctl : bool).
Abbreviation ok := (behaves (free (G := Z) (S := TestSocket) ctl) poll_sent (fun _ : TestService => True)).

Lemma kind_on_service {A} (f : TestService -> A * TestService) : ok (on_service f).
Proof. intros w [Hw _]. unfold runs, on_service. destruct (f (wd_sv w)) as [a v]. by exists a, (mkWorld (wd_io w) v). Qed.

#[export] Instance test_service_laws :
  ServiceLaws (Item := Z) (Resp := Z) (EncErr := ()) (DecErr := ()) (Err := ()) (free (G := Z) (S := TestSocket) ctl) poll_sent (fun _ : TestService => True).
Proof. split; intros; apply kind_on_service. Qed.

Lemma kind_keeps {A} (op : M (Cx Z TestLayer TestDrv) A) : keeps (free ctl) poll_sent op -> ok (on_stream (op;; mret tt)).
Proof.
  intros Hk. apply kind_stream. apply safe_bind; [by apply safe_keeps|]. intros _. apply safe_ret.
Qed.
End laws.

#[export] Instance test_service_quiet : QuietService (F := Z) (L := TestLayer) (D := TestDrv) (V := TestService) (C := option Z)
  (Item := Z) (Resp := Z) (EncErr := ()) (DecErr := ()) (Err := ()).
Proof.
  split.
  - by intros wk w r w' [= _ <-].
  - by intros nw i w c w' [= _ <-].
  - by intros wk c w r w' [= _ <-].
  - intros nw wk w w1 w2 c r c' [= <- <-]. cbn. destruct (tv_busy _); [done|]. by intros [=].
Qed.

(** Each byte is an item; the byte 0 cannot be sent. *)
Definition byte_codec : Decoder Z () := fun buf => match buf with [] => (inl None, []) | b :: rest => (inl (Some b), rest) end.
Lemma byte_codec_ok : decoder_ok byte_codec.
Proof. intros [|b rest]; [done|]. unfold zlen. cbn. lia. Qed.
Lemma byte_codec_consumes : decoder_consumes byte_codec.
Proof. intros [|b buf] it rest; [done|]. intros [= _ <-]. unfold zlen. cbn. lia. Qed.

Definition byte_encode (r : Z) (b : list byte) : (() + ()) * list byte := if r =? 0 then (inr tt, b) else (inl tt, b ++ [r]).
Lemma byte_encode_ok r : exists bs, forall b, (byte_encode r b).2 = b ++ bs.
Proof. unfold byte_encode. destruct (r =? 0); [exists []; intros b; by rewrite app_nil_r|by exists [r]]. Qed.

(** Frames of four bytes. *)
Definition frame_codec : Decoder Z () := fun buf => match buf with a :: b :: c :: d :: rest => (inl (Some a), rest) | _ => (inl None, buf) end.

(** A stream of the driver, and a dispatcher on it. *)
Definition ex_world (cfg : IoConfig) (room : Z) (input : list (list byte)) : TestWorld :=
  mkWorld (sy_io (ex_sys cfg room input)) (mkTestService (Ready (inl tt)) false []).
Definition ex_disp (cfg : IoConfig) (room : Z) (input : list (list byte)) : Disp Z TestLayer TestDrv () () TestService (option Z) Z :=
  dispatcher_new (ex_world cfg room input).

Lemma ex_world_ok cfg room input : world_ok (free true) poll_sent (fun _ => True) (ex_world cfg room input).
Proof.
  split; [|done]. split; [done|]. split; [by exists ex_mgr|]. exists []. apply (sys_ok_good (ex_sys cfg room input)); [done|]. by apply new_ok.
Qed.

(** ** The dispatcher: the properties

    Programs of polls of the dispatcher, polls of the tasks of its calls, and
    steps of the driver and of the service, in any order. *)

(** ** Programs *)

Inductive disp_op (W : Type) := DoPoll (elapsed : Z) (w : waker) | DoSpawned (i : nat) (w : waker) | DoWorld (op : M W ()).
Arguments DoPoll {W}.
Arguments DoSpawned {W}.
Arguments DoWorld {W}.

Section program.
Context {F : Type} `{!Bitflags F} `{!BitflagsLaws F} {L : Type} `{!FilterLayer L} `{!FilterLayerLaws L}.
Context {D : Type} `{!HandleDrop D} `{!Handle F L D}.
Context {Item Resp EncErr DecErr Err : Type} {V C : Type} {H : Type} `{!Bitflags H} `{!BitflagsLaws H}.
Context `{!Service (World F L D V) C (DispatchItem Item EncErr DecErr) Resp Err}.
Variable (codec : Decoder Item DecErr) (encodev : Resp -> list byte -> (() + EncErr) * list byte).
Implicit Types (d : Disp F L D EncErr Err V C H).

(** A program, with [fuel] rounds for each poll. *)
Fixpoint disp_exec (fuel : nat) (ops : list (disp_op (World F L D V))) : M (Disp F L D EncErr Err V C H) () :=
  match ops with
  | [] => mret tt
  | DoPoll elapsed w :: ops => dispatcher_poll codec encodev fuel elapsed w;; disp_exec fuel ops
  | DoSpawned i w :: ops => spawned_poll encodev i w;; disp_exec fuel ops
  | DoWorld op :: ops => on_world op;; disp_exec fuel ops
  end.

Section laws.
Context (Q : bool -> D -> Prop) (sent : D -> list byte) `{!HandleLaws Q sent} (VI : V -> Prop).
Context `{!ServiceLaws (Item := Item) (Resp := Resp) (EncErr := EncErr) (DecErr := DecErr) (Err := Err) Q sent VI}.
Hypothesis codec_ok : decoder_ok codec.
Hypothesis encodev_ok : forall r, exists bs, forall b, (encodev r b).2 = b ++ bs.
Abbreviation DI := (DI Q sent VI).

Definition disp_op_ok (op : disp_op (World F L D V)) : Prop :=
  match op with DoPoll elapsed _ => 0 <= elapsed <= clock_max | DoSpawned _ _ => True | DoWorld op => behaves Q sent VI op end.

(** The counts of a dispatcher are right, and so is its stream. *)
Definition books (d : Disp F L D EncErr Err V C H) : Prop :=
  dp_inflight d = outstanding d /\ (dp_st d = Shutdown -> outstanding d = 0) /\ world_ok Q sent VI (dp_world d).

(** How a poll with [fuel] rounds can fail: the subtraction of the timer
    underflows, or the rounds were not enough; for a service that leaves the
    stream to the dispatcher, nine rounds and three per byte of input are. *)
Definition poll_fails (fuel : nat) elapsed w d (f : fault) : Prop :=
  dispatcher_poll codec encodev fuel elapsed w d = Fault f /\
  match f with
  | Panic => poll_underflows codec encodev elapsed w d
  | Diverges =>
      HandleInput (F := F) (L := L) (D := D) ->
      QuietService (Item := Item) (Resp := Resp) (EncErr := EncErr) (DecErr := DecErr) (Err := Err) (V := V) (C := C) ->
      decoder_consumes codec -> Z.of_nat fuel <= 3 * zlen (rd_of (io_of d)) + 8
  | Undefined => False
  end.

(** A program returns, or a poll of it fails. *)
Definition fails_at (fuel : nat) (ops : list (disp_op (World F L D V))) d (P : Disp F L D EncErr Err V C H -> Prop) : Prop :=
  exists ops1 elapsed w ops2 d1 f, ops = ops1 ++ DoPoll elapsed w :: ops2 /\ disp_exec fuel ops1 d = Done (tt, d1) /\ P d1 /\
    poll_fails fuel elapsed w d1 f /\ disp_exec fuel ops d = Fault f.

Lemma poll_outcome fuel elapsed w n d :
  DI 0 n d -> 2 * Z.of_nat fuel <= n -> 0 <= elapsed <= clock_max ->
  (exists f, poll_fails fuel elapsed w d f) \/
  runs (dispatcher_poll codec encodev fuel elapsed w) d (fun r d' => DI 0 (n - 2 * Z.of_nat fuel) d' /\ poll_end codec encodev elapsed w d r d').
Proof.
  intros Hd Hn He. destruct (dispatcher_poll_spec Q sent VI codec encodev codec_ok encodev_ok fuel elapsed w n d) as [Hf|[[Hf Hu]|Hr]]; [done..| | |by right].
  - left. exists Diverges. split; [done|]. intros Hi Hq Hc. destruct (Z.le_gt_cases (Z.of_nat fuel) (3 * zlen (rd_of (io_of d)) + 8)) as [|Hgt]; [done|].
    by apply (poll_returns codec encodev codec_ok Hc Q sent VI encodev_ok fuel elapsed w n d) in Hf.
  - left. by exists Panic.
Qed.

Lemma disp_exec_spec fuel ops n d :
  Forall disp_op_ok ops -> 0 <= n -> DI 0 (2 * Z.of_nat fuel * zlen ops + n) d ->
  runs (disp_exec fuel ops) d (fun _ d' => DI 0 n d') \/ fails_at fuel ops d (DI 0 0).
Proof.
  intros Hops Hn. revert d. induction Hops as [|op ops Hop _ IH]; intros d Hd; [left; apply runs_ret; eapply di_weaken; [done|unfold zlen; lia]|].
  assert (2 * Z.of_nat fuel * zlen (op :: ops) = 2 * Z.of_nat fuel + 2 * Z.of_nat fuel * zlen ops) as Hz by (unfold zlen; cbn; lia).
  rewrite Hz in Hd. assert (0 <= 2 * Z.of_nat fuel * zlen ops) as H0 by (unfold zlen; lia). set (m := 2 * Z.of_nat fuel * zlen ops) in *.
  assert (forall (c : M (Disp F L D EncErr Err V C H) ()) d1, (forall k, disp_exec fuel (op :: k) d = (c;; disp_exec fuel k) d) -> c d = Done (tt, d1) -> DI 0 (m + n) d1 ->
    runs (disp_exec fuel (op :: ops)) d (fun _ d' => DI 0 n d') \/ fails_at fuel (op :: ops) d (DI 0 0)) as Hnext.
  { intros c d1 Hk Hc Hd1. destruct (IH d1 Hd1) as [([] & d2 & Hr & Hd2)|(ops1 & e & w & ops2 & d2 & f & Ho & He & Hi & Hp & Hx)].
    - left. exists tt, d2. split; [|done]. rewrite Hk. unfold mbind, M_bind. by rewrite Hc.
    - right. exists (op :: ops1), e, w, ops2, d2, f. split_and!; [by rewrite Ho| |done|done|]; rewrite Hk; unfold mbind, M_bind; by rewrite Hc. }
  assert (DI 0 (m + n) d) as Hd' by (eapply di_weaken; [done|lia]).
  destruct op as [elapsed w|i w|op].
  - destruct (poll_outcome fuel elapsed w (2 * Z.of_nat fuel + (m + n)) d) as [[f Hf]|(r & d1 & Hr & Hd1 & _)]; [eapply di_weaken; [exact Hd|lia]|lia|done| |].
    + right. exists [], elapsed, w, ops, d, f. split_and!; [done|done|eapply di_weaken; [done|lia]|done|]. cbn [disp_exec]. unfold mbind, M_bind. by rewrite (proj1 Hf).
    + apply (Hnext (dispatcher_poll codec encodev fuel elapsed w;; mret tt) d1); [| |eapply di_weaken; [done|lia]].
      * intros k. cbn [disp_exec]. unfold mbind, M_bind. by rewrite Hr.
      * unfold mbind, M_bind. by rewrite Hr.
  - destruct (spawned_poll_spec Q sent VI encodev encodev_ok i w (m + n) d Hd') as ([] & d1 & Hr & Hd1 & _). by apply (Hnext _ d1 (fun _ => eq_refl) Hr).
  - destruct (world_step Q sent VI op 0 (m + n) d (fun _ d1 => DI 0 (m + n) d1) Hop Hd') as ([] & d1 & Hr & Hd1); [by intros [] w' ?|].
    by apply (Hnext _ d1 (fun _ => eq_refl) Hr).
Qed.

Context (fuel : nat) (ops : list (disp_op (World F L D V))) (wd : World F L D V).
Hypothesis (Hwd : world_ok Q sent VI wd) (Hcfg : cfg_ok (io_cfg (cx_io (wd_io wd)))) (Hops : Forall disp_op_ok ops).

Lemma disp_reached n d :
  0 <= n -> 2 * Z.of_nat fuel * zlen ops + n < u32_modulus -> disp_exec fuel ops (dispatcher_new wd) = Done (tt, d) -> DI 0 n d.
Proof.
  intros Hn Hlt He. destruct (disp_exec_spec fuel ops n (dispatcher_new wd)) as [([] & d' & He' & Hd)|(? & ? & ? & ? & ? & ? & _ & _ & _ & _ & Hf)];
    [done|done|by apply dispatcher_new_spec|congruence..].
Qed.
Lemma di_books n d : DI 0 n d -> books d.
Proof. intros [Hw _ Hi _ Hs _]. split_and!; [lia| |done]. intros [? _]%Hs. lia. Qed.

(** C9. A dispatcher on a stream without filter layers, with any configuration,
    runs in any order with the tasks of its calls, its driver and its service,
    which return and treat the stream as the operations of the stream do; the
    clock of the timers is short of its 136 years, and the calls that the
    program can start fit a counter of 32 bits.  No counter overflows, the
    number of calls in flight is the number of calls that are outstanding,
    none is when the dispatcher has shut down, and the invariant of the
    stream holds.  Only a poll can fail, and in two ways.  It panics when the
    timer of a frame fires and the count of the bytes that remain is less than
    at the last firing ([read_rate_underflows] has such a run), which takes a
    configuration with a frame read rate.  Or it needs more rounds than it
    was given: not with nine and three per byte of input, if the decoder
    consumes what it returns, the driver's writes leave the input alone, and
    the service leaves the stream to the dispatcher and sends nothing when
    back-pressure ends. *)
Theorem dispatcher_keeps_books :
  2 * Z.of_nat fuel * zlen ops < u32_modulus ->
  (exists d, disp_exec fuel ops (dispatcher_new wd) = Done (tt, d) /\ books d) \/ fails_at fuel ops (dispatcher_new wd) books.
Proof.
  intros Hlt. destruct (disp_exec_spec fuel ops 0 (dispatcher_new wd)) as [([] & d & He & Hd)|(ops1 & e & w & ops2 & d & f & Ho & He & Hd & Hp & Hf)];
    [done|done|apply dispatcher_new_spec; [done|done|lia]| |].
  - left. exists d. split; [done|]. by eapply di_books.
  - right. exists ops1, e, w, ops2, d, f. split_and!; [done|done|by eapply di_books|done|done].
Qed.



Context `{!HandleInput (F := F) (L := L) (D := D)}.
Context `{!QuietService (Item := Item) (Resp := Resp) (EncErr := EncErr) (DecErr := DecErr) (Err := Err) (V := V) (C := C)}.
Hypothesis codec_consumes : decoder_consumes codec.

(** C11. A poll of a dispatcher on a stream without filter layers returns:
    with a decoder that consumes what it returns, a service that leaves the
    stream to the dispatcher and sends nothing when back-pressure ends, and a
    driver whose writes leave the input alone, the loop of the poll ends after
    at most three rounds per byte of input, and nine.  The one exception is a
    configuration with a frame read rate: then the poll may panic, in the
    subtraction of a round in which the timer of a frame fires. *)
Theorem dispatcher_poll_terminates fuel' elapsed w d :
  2 * Z.of_nat fuel * zlen ops + 2 * Z.of_nat fuel' < u32_modulus -> 0 <= elapsed <= clock_max ->
  disp_exec fuel ops (dispatcher_new wd) = Done (tt, d) -> 3 * zlen (rd_of (io_of d)) + 8 < Z.of_nat fuel' ->
  (exists r d', dispatcher_poll codec encodev fuel' elapsed w d = Done (r, d')) \/
  (dispatcher_poll codec encodev fuel' elapsed w d = Fault Panic /\ poll_underflows codec encodev elapsed w d).
Proof.
  intros Hlt He Hex Hf. apply (disp_reached (2 * Z.of_nat fuel')) in Hex; [|lia..].
  destruct (poll_outcome fuel' elapsed w _ d Hex) as [(f & Hp & Hx)|(r & d' & Hr & _)]; [lia|done| |left; by exists r, d'].
  destruct f; [by right|done|]. specialize (Hx _ _ codec_consumes). lia.
Qed.
End laws.
End program.

(** ** Concrete programs *)

(** A step of the driver, or of another owner of the stream. *)
Definition io {A} (op : M (Cx Z TestLayer TestDrv) A) : disp_op TestWorld := DoWorld (on_stream (op;; mret tt)).

(** Output of four bytes makes back-pressure; reads of a frame are timed. *)
Definition small_cfg : IoConfig := set_write_buf 4 2 1 (io_config_new 0 65536 0).
Definition rated_cfg : IoConfig := set_frame_read_rate 1 10 1 small_cfg.


(** A byte is received, and a call is made, and answered later. *)
Definition echo_prog : list (disp_op TestWorld) :=
  [io (reactor_event true false false); DoWorld (set_busy true); DoPoll 0 1; DoWorld (set_busy false); DoPoll 0 1].
Lemma echo_prog_ok : Forall (disp_op_ok (free true) poll_sent (fun _ => True)) echo_prog.
Proof.
  assert (0 <= 0 <= clock_max) by (unfold clock_max; pose proof (eq_refl : u32_modulus = 4294967296); lia).
  repeat constructor; try done; try apply kind_on_service. apply kind_keeps, keeps_reactor_event.
Qed.

Lemma dispatcher_keeps_books_witness :
  (exists d, disp_exec byte_codec byte_encode 50 echo_prog (ex_disp small_cfg 100 [[7]; [9]]) = Done (tt, d) /\
    books (free true) poll_sent (fun _ => True) d) \/
  fails_at byte_codec byte_encode 50 echo_prog (ex_disp small_cfg 100 [[7]; [9]]) (books (free true) poll_sent (fun _ => True)).
Proof.
  apply (dispatcher_keeps_books byte_codec byte_encode (free true) poll_sent (fun _ => True) byte_codec_ok byte_encode_ok 50 echo_prog).
  - apply ex_world_ok.
  - done.
  - apply echo_prog_ok.
  - done.
Defined.

Definition ex_run (ops : list (disp_op TestWorld)) : Disp Z TestLayer TestDrv () () TestService (option Z) Z :=
  match disp_exec byte_codec byte_encode 50 ops (ex_disp small_cfg 100 [[7]; [9]]) with Done (_, d) => d | Fault _ => ex_disp small_cfg 100 [] end.



Lemma dispatcher_poll_terminates_witness :
  (exists r d', dispatcher_poll byte_codec byte_encode 12 0 1%nat (ex_run [io (reactor_event true false false)]) = Done (r, d')) \/
  (dispatcher_poll byte_codec byte_encode 12 0 1%nat (ex_run [io (reactor_event true false false)]) = Fault Panic /\
   poll_underflows byte_codec byte_encode 0 1%nat (ex_run [io (reactor_event true false false)])).
Proof.
  apply (dispatcher_poll_terminates byte_codec byte_encode (free true) poll_sent (fun _ => True) byte_codec_ok byte_encode_ok 50
    [io (reactor_event true false false)] (ex_world small_cfg 100 [[7]; [9]])).
  - apply ex_world_ok.
  - done.
  - repeat constructor. apply kind_keeps, keeps_reactor_event.
  - apply polling_input.
  - apply test_service_quiet.
  - apply byte_codec_consumes.
  - done.
  - unfold clock_max. pose proof (eq_refl : u32_modulus = 4294967296). lia.
  - vm_compute. reflexivity.
  - vm_compute. reflexivity.
Defined.

(** A byte that is not answered yet, and output that is over the mark: the
    dispatcher waits for the output.  The output is sent, the answer cannot be
    encoded, and another byte arrives. *)
Definition stop_prog : list (disp_op TestWorld) :=
  [io (reactor_event true false false); DoWorld (set_busy true); DoPoll 0 1; io (encode_slice [1; 2; 3; 4; 5]); DoPoll 0 1;
   io iops_run_stream; DoWorld (set_busy false); io (reactor_event true false false); DoPoll 0 1].

(** A dispatcher that is in back-pressure and has told its service to stop
    does not stop if the output was flushed meanwhile: the flush makes it
    process input again, and the service is called with an item after it was
    told that the dispatcher stops. *)
Theorem stop_undone_by_flush :
  exists d, disp_exec byte_codec byte_encode 50 stop_prog (ex_disp small_cfg 100 [[0]; [9]]) = Done (tt, d) /\ dp_st d = Processing /\
    tv_log (wd_sv (dp_world d)) =
      [DispItem 0; DispControl WBackPressureEnabled; DispStop (ReasonEncoder tt); DispControl WBackPressureDisabled; DispItem 9].
Proof. eexists. split; [vm_compute; reflexivity|]. split; vm_compute; reflexivity. Qed.

(** A part of a frame arrives, output is over the mark, and the timer of the
    frame fires; then the output is sent, and the timer fires again. *)
Definition rate_prog : list (disp_op TestWorld) :=
  [io (reactor_event true false false); DoPoll 0 1; io (encode_slice [1; 2; 3; 4; 5]); io io_notify_timeout; DoPoll 0 1;
   io iops_run_stream; io io_notify_timeout; DoPoll 0 1].

(** The dispatcher that times the reads of frames subtracts the bytes of
    the last period from a count that was reset: if the timer fires twice with
    back-pressure between, the unsigned subtraction underflows. *)
Theorem read_rate_underflows :
  disp_exec frame_codec byte_encode 50 rate_prog (ex_disp rated_cfg 100 [[1; 2; 3]]) = Fault Panic.
Proof. vm_compute. reflexivity. Qed.
