(* ===== verification/Pipeline.v ===== *)
(** * [service::ctx], [service::pl_inner] and [service::pipeline]

    The container of a service: its readiness is checked by one task at a
    time, and the tasks that wait for it share the result.  Models
    [WaitersRef], [ReadyCall] and [Ctx] of geario/src/service/ctx.rs,
    [PipelineInner] and [CheckReadiness] of pl_inner.rs, and [Pipeline],
    [PipelineBinding] and [PipelineCall] of pipeline.rs.

    A future is its state, with a function that polls it and one that drops
    it.  The service is code of the user, a class: its functions act on a
    world that holds the container.  The container is reference counted; what
    touches it after it was freed is undefined. *)
From Stdlib Require Import ZArith Lia.
From stdpp Require Import base numbers gmap list.
From S2P Require Import Prelude Deps Task IoBuf.

(** ** [WaitersRef]

    [u32::MAX], for no owner, is [None]: a slab has fewer entries. *)
Record Waiters (T : Type -> Type) := mkWaiters {
  wt_cur : option nat;
  wt_running : bool;
  wt_shutdown : bool;
  wt_wakers : list nat;
  wt_indexes : T (option waker);
  (** The wakers that were woken. *)
  wt_woken : list waker;
}.
Arguments mkWaiters {T}.
Arguments wt_cur {T}.
Arguments wt_running {T}.
Arguments wt_shutdown {T}.
Arguments wt_wakers {T}.
Arguments wt_indexes {T}.
Arguments wt_woken {T}.

Section waiters.
Context {T : Type -> Type} `{!Slab T}.
Implicit Types s : Waiters T.

Definition set_cur (x : option nat) s := mkWaiters x (wt_running s) (wt_shutdown s) (wt_wakers s) (wt_indexes s) (wt_woken s).
Definition set_running (x : bool) s := mkWaiters (wt_cur s) x (wt_shutdown s) (wt_wakers s) (wt_indexes s) (wt_woken s).
Definition push_waker (idx : nat) s :=
  mkWaiters (wt_cur s) (wt_running s) (wt_shutdown s) (wt_wakers s ++ [idx]) (wt_indexes s) (wt_woken s).
Definition set_index (idx : nat) (x : option waker) s :=
  mkWaiters (wt_cur s) (wt_running s) (wt_shutdown s) (wt_wakers s) (slab_set idx x (wt_indexes s)) (wt_woken s).

(** [new]: index 0 is the one of the pipeline. *)
Definition waiters_new : Waiters T := mkWaiters None false false [] (slab_insert None slab_default).2 [].

Definition waiters_insert : M (Waiters T) nat := fun s =>
  let '(idx, indexes) := slab_insert None (wt_indexes s) in
  Done (idx, mkWaiters (wt_cur s) (wt_running s) (wt_shutdown s) (wt_wakers s) indexes (wt_woken s)).

(** The loop of [notify] over the drained wakers. *)
Fixpoint wake_indexes (wakers : list nat) (indexes : T (option waker)) (woken : list waker) : T (option waker) * list waker :=
  match wakers with
  | [] => (indexes, woken)
  | idx :: wakers =>
      match slab_get idx indexes with
      | Some (Some w) => wake_indexes wakers (slab_set idx None indexes) (woken ++ [w])
      | _ => wake_indexes wakers indexes woken
      end
  end.
Definition waiters_notify s : Waiters T :=
  let '(indexes, woken) := wake_indexes (wt_wakers s) (wt_indexes s) (wt_woken s) in
  mkWaiters None (wt_running s) (wt_shutdown s) [] indexes woken.

(** [remove]: [Slab::remove] panics for a vacant index. *)
Definition waiters_remove (idx : nat) : M (Waiters T) () := fun s =>
  if slab_contains idx (wt_indexes s) then
    let s := mkWaiters (wt_cur s) (wt_running s) (wt_shutdown s) (wt_wakers s) (slab_remove idx (wt_indexes s)) (wt_woken s) in
    Done (tt, if bool_decide (wt_cur s = Some idx) then waiters_notify s else s)
  else Fault Panic.

Definition waiters_shutdown s := mkWaiters (wt_cur s) (wt_running s) true (wt_wakers s) (wt_indexes s) (wt_woken s).

(** The waker of the owner of the check, with which [poll_once] and [poll_fn]
    run their closure; the main task is to be woken as well. *)
Definition ctx_poll_once : M (Waiters T) (option waker) := fun s =>
  let w := match wt_cur s with Some idx => match slab_get idx (wt_indexes s) with Some w => w | None => None end | None => None end in
  Done (w, if bool_decide (wt_cur s = Some 0%nat) then s else push_waker 0 s).
End waiters.

(** ** [PipelineInner] *)

(** The future of [CheckReadiness] and the one of the shutdown are made when
    they are polled first. *)
Inductive RuntimeState (RF SF : Type) := RtNew | RtReadiness (fut : option RF) | RtShutdown (fut : option SF) | RtDone.
Arguments RtNew {RF SF}.
Arguments RtReadiness {RF SF}.
Arguments RtShutdown {RF SF}.
Arguments RtDone {RF SF}.

(** The reference count, the waiters and the state of the runtime. *)
Record PlInner (T : Type -> Type) (RF SF : Type) := mkPlInner { pn_refs : nat; pn_waiters : Waiters T; pn_rt : RuntimeState RF SF }.
Arguments mkPlInner {T RF SF}.
Arguments pn_refs {T RF SF}.
Arguments pn_waiters {T RF SF}.
Arguments pn_rt {T RF SF}.

(** A world with a container, until it is freed. *)
Class HasPipeline (T : Type -> Type) (RF SF W : Type) := { hp_get : W -> option (PlInner T RF SF); hp_set : option (PlInner T RF SF) -> W -> W }.
Class HasPipelineLaws (T : Type -> Type) (RF SF W : Type) `{!HasPipeline T RF SF W} : Prop := {
  hp_get_set p (w : W) : hp_get (hp_set p w) = p;
  hp_set_set p q (w : W) : hp_set p (hp_set q w) = hp_set p w;
  hp_set_get (w : W) : hp_set (hp_get w) w = w;
}.

(** The service of the user: the futures it makes for a context of the given
    index. *)
Class UserService (W Req Res Err RF CF SF : Type) := {
  us_ready : nat -> M W RF;
  us_ready_poll : waker -> RF -> M W (Poll (() + Err) * RF);
  us_ready_drop : RF -> M W ();
  us_call : nat -> Req -> M W CF;
  us_call_poll : waker -> CF -> M W (Poll (Res + Err) * CF);
  us_call_drop : CF -> M W ();
  us_shutdown : nat -> M W SF;
  us_shutdown_poll : waker -> SF -> M W (Poll () * SF);
  us_shutdown_drop : SF -> M W ();
}.

(** ** Access to the container *)

Section access.
Context {T : Type -> Type} `{!Slab T} {W PRF PSF : Type} `{!HasPipeline T PRF PSF W}.

(** Access through a reference. *)
Definition on_inner {A} (c : M (PlInner T PRF PSF) A) : M W A := fun w =>
  match hp_get w with
  | None => Fault Undefined
  | Some p => match c p with Done (a, p) => Done (a, hp_set (Some p) w) | Fault f => Fault f end
  end.
Definition on_waiters {A} (c : M (Waiters T) A) : M W A := on_inner (fun p =>
  match c (pn_waiters p) with Done (a, s) => Done (a, mkPlInner (pn_refs p) s (pn_rt p)) | Fault f => Fault f end).
Definition set_rt (rt : RuntimeState PRF PSF) : M W () := on_inner (modifyS (fun p => mkPlInner (pn_refs p) (pn_waiters p) rt)).
Definition get_rt : M W (RuntimeState PRF PSF) := on_inner (getsS pn_rt).

(** [WaitersRef::run]: [f] is the check; [dflt] is what it leaves as it is when it
    does not run. *)
Definition waiters_run {R X} (idx : nat) (w : waker) (dflt : X) (f : M W (Poll R * X)) : M W (Poll R * X) :=
  ok ← on_waiters (getsS (fun s => slab_contains idx (wt_indexes s)));
  if negb ok then failS Panic
  else
    on_waiters (modifyS (set_index idx (Some w)));;
    cur ← on_waiters (getsS wt_cur);
    can_check ← (if bool_decide (cur = Some idx) then mret true
                 else match cur with
                      | None => on_waiters (modifyS (set_cur (Some idx)));; mret true
                      | Some _ => mret false
                      end);
    if (can_check : bool) then
      running ← on_waiters (getsS wt_running);
      (if (running : bool) then mret tt else on_waiters (modifyS (set_running true)));;
      '(r, x) ← f;
      (if (running : bool) then mret tt
       else
         on_waiters (modifyS (match r with Pending => push_waker idx | Ready _ => waiters_notify end));;
         on_waiters (modifyS (set_running false)));;
      mret (r, x)
    else
      on_waiters (modifyS (push_waker idx));;
      mret (Pending, dflt).

End access.

(** ** [ReadyCall] and [Ctx]

    The service need not be the one of the container: a service checks and
    calls the ones it is made of in the same context. *)

Section ctx.
Context {T : Type -> Type} `{!Slab T} {W PRF PSF Req Res Err RF CF SF : Type} `{!HasPipeline T PRF PSF W} `{!UserService W Req Res Err RF CF SF}.

Record ReadyCall := mkReadyCall { rc_completed : bool; rc_fut : RF; rc_idx : nat }.

Definition ready_call_poll (w : waker) (c : ReadyCall) : M W (Poll (() + Err) * ReadyCall) :=
  waiters_run (rc_idx c) w c (
    '(r, fut) ← us_ready_poll w (rc_fut c);
    mret (r, mkReadyCall (rc_completed c || poll_is_ready r) fut (rc_idx c))).

(** [Drop] of [ReadyCall], then of its field. *)
Definition ready_call_drop (c : ReadyCall) : M W () :=
  (if rc_completed c then mret tt
   else
     cur ← on_waiters (getsS wt_cur);
     if bool_decide (cur = Some (rc_idx c)) then on_waiters (modifyS waiters_notify) else mret tt);;
  us_ready_drop (rc_fut c).

(** [Ctx::ready]: the future of the async function. *)
Inductive ReadyFut := RdStart | RdWait (c : ReadyCall) | RdDone.

Definition ready_await (w : waker) (c : ReadyCall) : M W (Poll (() + Err) * ReadyFut) :=
  '(r, c) ← ready_call_poll w c;
  match r with
  | Pending => mret (Pending, RdWait c)
  | Ready x => ready_call_drop c;; mret (Ready x, RdDone)
  end.
Definition ctx_ready_poll (idx : nat) (w : waker) (st : ReadyFut) : M W (Poll (() + Err) * ReadyFut) :=
  match st with
  | RdStart => fut ← us_ready idx; ready_await w (mkReadyCall false fut idx)
  | RdWait c => ready_await w c
  | RdDone => failS Panic
  end.
Definition ready_fut_drop (st : ReadyFut) : M W () :=
  match st with RdWait c => ready_call_drop c | _ => mret tt end.

(** [Ctx::call] and [Ctx::call_nowait]. *)
Inductive CallFut := CsReady (st : ReadyFut) (req : Req) | CsStart (req : Req) | CsRun (fut : CF) | CsDone.

Definition call_await (w : waker) (fut : CF) : M W (Poll (Res + Err) * CallFut) :=
  '(r, fut) ← us_call_poll w fut;
  match r with
  | Pending => mret (Pending, CsRun fut)
  | Ready x => us_call_drop fut;; mret (Ready x, CsDone)
  end.
Definition ctx_call_poll (idx : nat) (w : waker) (st : CallFut) : M W (Poll (Res + Err) * CallFut) :=
  match st with
  | CsReady rd req =>
      '(r, rd) ← ctx_ready_poll idx w rd;
      match r with
      | Pending => mret (Pending, CsReady rd req)
      | Ready (inr err) => mret (Ready (inr err), CsDone)
      | Ready (inl _) => fut ← us_call idx req; call_await w fut
      end
  | CsStart req => fut ← us_call idx req; call_await w fut
  | CsRun fut => call_await w fut
  | CsDone => failS Panic
  end.
Definition call_fut_drop (st : CallFut) : M W () :=
  match st with CsReady rd _ => ready_fut_drop rd | CsRun fut => us_call_drop fut | _ => mret tt end.

(** [Ctx::shutdown]. *)
Inductive ShutdownFut := ShStart | ShRun (fut : SF) | ShDone.

Definition shutdown_await (w : waker) (fut : SF) : M W (Poll () * ShutdownFut) :=
  '(r, fut) ← us_shutdown_poll w fut;
  match r with
  | Pending => mret (Pending, ShRun fut)
  | Ready _ => us_shutdown_drop fut;; mret (Ready tt, ShDone)
  end.
Definition ctx_shutdown_poll (idx : nat) (w : waker) (st : ShutdownFut) : M W (Poll () * ShutdownFut) :=
  match st with
  | ShStart => fut ← us_shutdown idx; shutdown_await w fut
  | ShRun fut => shutdown_await w fut
  | ShDone => failS Panic
  end.
Definition shutdown_fut_drop (st : ShutdownFut) : M W () :=
  match st with ShRun fut => us_shutdown_drop fut | _ => mret tt end.
End ctx.
Arguments ReadyCall RF : clear implicits.
Arguments ReadyFut RF : clear implicits.
Arguments CallFut Req RF CF : clear implicits.
Arguments ShutdownFut SF : clear implicits.

Section pipeline.
Context {T : Type -> Type} `{!Slab T} {W Req Res Err RF CF SF : Type} `{!HasPipeline T RF SF W} `{!UserService W Req Res Err RF CF SF}.

(** ** [PipelineInternalApi] for [PipelineInner] *)

Definition api_reg : M W nat := on_waiters waiters_insert.
Definition api_unreg (idx : nat) : M W () := on_waiters (waiters_remove idx).

(** [CheckReadiness::poll] and its [Drop]. *)
Definition check_poll (w : waker) (fut : option RF) : M W (Poll (() + Err)) :=
  '(r, _) ← waiters_run 0 w tt (
    f ← match fut with Some f => mret f | None => us_ready 0 end;
    '(r, f) ← us_ready_poll w f;
    (if poll_is_ready r then us_ready_drop f;; set_rt (RtReadiness None) else set_rt (RtReadiness (Some f)));;
    mret (r, tt));
  mret r.
Definition check_drop (fut : option RF) : M W () :=
  match fut with Some f => on_waiters (modifyS waiters_notify);; us_ready_drop f | None => mret tt end.

Definition pl_poll_ready (w : waker) : M W (Poll (() + Err)) :=
  rt ← get_rt;
  match rt with
  | RtNew => set_rt (RtReadiness None);; check_poll w None
  | RtReadiness fut => check_poll w fut
  | RtShutdown _ | RtDone => mret (Ready (inl tt))
  end.

Definition shutdown_poll (w : waker) (fut : option SF) : M W (Poll ()) :=
  f ← match fut with Some f => mret f | None => us_shutdown 0 end;
  '(r, f) ← us_shutdown_poll w f;
  (if poll_is_ready r then us_shutdown_drop f;; set_rt RtDone else set_rt (RtShutdown (Some f)));;
  mret r.
Definition pl_poll_shutdown (w : waker) : M W (Poll ()) :=
  rt ← get_rt;
  match rt with
  | RtNew | RtReadiness _ =>
      check_drop (match rt with RtReadiness fut => fut | _ => None end);;
      set_rt (RtShutdown None);;
      on_waiters (modifyS waiters_shutdown);;
      shutdown_poll w None
  | RtShutdown fut => shutdown_poll w fut
  | RtDone => mret (Ready tt)
  end.

(** ** Ownership: the [Rc] of [PipelineApi] *)

Definition api_clone : M W () := on_inner (modifyS (fun p => mkPlInner (S (pn_refs p)) (pn_waiters p) (pn_rt p))).
(** The last reference drops the fields in their order: the state of the
    runtime before the waiters. *)
Definition api_drop : M W () :=
  n ← on_inner (getsS pn_refs);
  on_inner (modifyS (fun p => mkPlInner (pred n) (pn_waiters p) (pn_rt p)));;
  if (n <=? 1)%nat then
    rt ← get_rt;
    (match rt with
     | RtReadiness fut => check_drop fut
     | RtShutdown (Some f) => us_shutdown_drop f
     | _ => mret tt
     end);;
    modifyS (hp_set None)
  else mret tt.

(** ** [Pipeline], [PipelineBinding] and [PipelineCall] *)

Definition pipeline_new : PlInner T RF SF := mkPlInner 1 waiters_new RtNew.
Definition pipeline_drop : M W () := api_unreg 0;; api_drop.

Definition pl_bind : M W nat := idx ← api_reg; api_clone;; mret idx.
Definition binding_drop (idx : nat) : M W () := api_unreg idx;; api_drop.

Record PipelineCall := mkPipelineCall { pc_idx : nat; pc_fut : CallFut Req RF CF }.

(** [call_static] and [call_nowait]. *)
Definition pl_call (ready : bool) (req : Req) : M W PipelineCall :=
  idx ← pl_bind; mret (mkPipelineCall idx (if ready then CsReady RdStart req else CsStart req)).
Definition pipeline_call_poll (w : waker) (c : PipelineCall) : M W (Poll (Res + Err) * PipelineCall) :=
  '(r, fut) ← ctx_call_poll (pc_idx c) w (pc_fut c); mret (r, mkPipelineCall (pc_idx c) fut).
(** The binding is the first field, and is dropped before the future that
    borrows from what it refers to. *)
Definition pipeline_call_drop (c : PipelineCall) : M W () := binding_drop (pc_idx c);; call_fut_drop (pc_fut c).
End pipeline.
Arguments PipelineCall Req RF CF : clear implicits.
