(* ===== verification/PipelineInv.v ===== *)
(** * Waiting for the readiness of a service

    What the operations of a context of [Pipeline.v] do to the waiters, and
    the contract of a service. *)
From Stdlib Require Import ZArith Lia.
From stdpp Require Import base numbers gmap list relations.
From S2P Require Import Prelude Deps Task IoBuf Pipeline.

Section waiters.
Context {T : Type -> Type} `{!Slab T} `{!SlabLaws T}.
Implicit Types (s : Waiters T) (i j : nat) (wk : option waker).

Definition entry s i : option (option waker) := slab_map (wt_indexes s) !! i.
Definition registered s i : Prop := is_Some (entry s i).

(** ** [notify] *)

(** Each queued waiter with a waker is woken, and the others are left. *)
Lemma wake_indexes_spec wakers (ix : T (option waker)) woken :
  (forall i, is_Some (slab_map (wake_indexes wakers ix woken).1 !! i) <-> is_Some (slab_map ix !! i)) /\
  (exists l, (wake_indexes wakers ix woken).2 = woken ++ l /\
    forall i w, slab_map ix !! i = Some (Some w) ->
      (i ∈ wakers -> w ∈ l) /\ (w ∈ l \/ slab_map (wake_indexes wakers ix woken).1 !! i = Some (Some w))).
Proof.
  revert ix woken. induction wakers as [|k wakers IH]; intros ix woken; cbn.
  { split; [done|]. exists []. split; [by rewrite app_nil_r|]. intros i w Hi. split; [by intros ?%not_elem_of_nil|by right]. }
  rewrite slab_get_map. destruct (slab_map ix !! k) as [[w0|]|] eqn:Hk.
  - destruct (IH (slab_set k None ix) (woken ++ [w0])) as (Hd & l & Hl & Hw).
    assert (slab_map (slab_set k None ix) = <[k := None]> (slab_map ix)) as Hset by (by eapply slab_map_set).
    split. { intros i. rewrite Hd, Hset. destruct (decide (i = k)) as [->|]; [by rewrite lookup_insert_eq, Hk; split; eexists|by rewrite lookup_insert_ne]. }
    exists (w0 :: l). split; [by rewrite Hl, <- app_assoc|]. intros i w Hi. destruct (decide (i = k)) as [->|Hne].
    { rewrite Hk in Hi. injection Hi as ->. split; [|left]; constructor. }
    destruct (Hw i w) as [H1 H2]; [by rewrite Hset, lookup_insert_ne|]. split.
    + intros [->|?]%elem_of_cons; [done|]. apply elem_of_cons. auto.
    + destruct H2; [left; apply elem_of_cons; auto|by right].
  - destruct (IH ix woken) as (Hd & l & Hl & Hw). split; [done|]. exists l. split; [done|]. intros i w Hi. destruct (Hw i w Hi) as [H1 H2].
    split; [|done]. intros [->|?]%elem_of_cons; [congruence|auto].
  - destruct (IH ix woken) as (Hd & l & Hl & Hw). split; [done|]. exists l. split; [done|]. intros i w Hi. destruct (Hw i w Hi) as [H1 H2].
    split; [|done]. intros [->|?]%elem_of_cons; [congruence|auto].
Qed.

Lemma notify_spec s :
  (forall i, registered (waiters_notify s) i <-> registered s i) /\ wt_cur (waiters_notify s) = None /\
  (exists l, wt_woken (waiters_notify s) = wt_woken s ++ l /\
    forall i w, entry s i = Some (Some w) -> (i ∈ wt_wakers s -> w ∈ l) /\ (w ∈ l \/ entry (waiters_notify s) i = Some (Some w))).
Proof.
  destruct (wake_indexes_spec (wt_wakers s) (wt_indexes s) (wt_woken s)) as (Hd & Hl). unfold waiters_notify, registered, entry.
  destruct (wake_indexes _ _ _) as [ix wo]. done.
Qed.

(** ** What a context may do *)

(** The operations of a context of index [i], polled with the waker [wk]; a
    future that is dropped takes no part in the check. *)
Inductive ctx_step i wk : Waiters T -> Waiters T -> Prop :=
  | cs_push j s : j = 0%nat \/ j = i -> ctx_step i wk s (push_waker j s)
  | cs_set w s : wk = Some w -> registered s i -> ctx_step i wk s (set_index i (Some w) s)
  | cs_acquire w s : wk = Some w -> wt_cur s = None -> ctx_step i wk s (set_cur (Some i) s)
  | cs_release s : wt_cur s = None \/ wt_cur s = Some i -> ctx_step i wk s (waiters_notify s).
Definition ctx_steps i wk : relation (Waiters T) := rtc (ctx_step i wk).

Lemma entry_set i k w s : registered s i -> entry (set_index i w s) k = if bool_decide (k = i) then Some w else entry s k.
Proof.
  intros [b Hb]. unfold entry, set_index. cbn. rewrite (slab_map_set i w b) by done.
  case_bool_decide as Hk; [by rewrite Hk, lookup_insert_eq|by rewrite lookup_insert_ne].
Qed.

(** What does not depend on the steps of a context. *)
Record steady i wk s s' : Prop := {
  sd_reg j : registered s' j <-> registered s j;
  sd_running : wt_running s' = wt_running s;
  sd_cur j : wt_cur s' = Some j -> wt_cur s = Some j \/ (j = i /\ is_Some wk);
  sd_woken : exists l, wt_woken s' = wt_woken s ++ l;
}.
#[export] Instance steady_preorder i wk : PreOrder (steady i wk).
Proof.
  split; [intros s; split; [done|done|by left|exists []; by rewrite app_nil_r]|].
  intros s1 s2 s3 [R1 U1 C1 [l1 W1]] [R2 U2 C2 [l2 W2]]. split.
  - intros j. by rewrite R2, R1.
  - congruence.
  - intros j [?|?]%C2; [by apply C1|by right].
  - exists (l1 ++ l2). by rewrite W2, W1, app_assoc.
Qed.

Lemma steps_steady i wk s s' : ctx_steps i wk s s' -> steady i wk s s'.
Proof.
  intros Hs. induction Hs as [s|s s1 s2 H1 _ IH]; [done|]. etrans; [|exact IH]. clear IH s2.
  destruct H1 as [j s Hj|w s -> Hr|w s -> Hc|s Hc].
  - split; [done|done|by left|exists []; by rewrite app_nil_r].
  - split; [|done|by left|exists []; by rewrite app_nil_r].
    intros j. unfold registered. rewrite entry_set by done. case_bool_decide as Hj; [|done]. subst. split; [done|by eexists].
  - split; [done|done| |exists []; by rewrite app_nil_r]. intros j [= <-]. right. split; [done|by eexists].
  - destruct (notify_spec s) as (Hr & Hn & l & Hl & _). split; [done|unfold waiters_notify; by destruct (wake_indexes _ _ _)|by rewrite Hn|by exists l].
Qed.

(** ** Waiting *)

(** A task waits at index [i] since the wakers of number [n] were woken, with
    the waker [w]; [ran] tells that it has polled the service itself. *)
Definition claim i (x : waker * nat * bool) s : Prop :=
  let '(w, n, ran) := x in
  (n <= length (wt_woken s))%nat /\
  (w ∈ drop n (wt_woken s) \/
   (entry s i = Some (Some w) /\ i ∈ wt_wakers s /\ (ran = true \/ exists j, wt_cur s = Some j /\ j <> i))).

Lemma drop_more {A} n (l l' : list A) x : (n <= length l)%nat -> x ∈ drop n l -> x ∈ drop n (l ++ l').
Proof. intros Hn Hx. rewrite drop_app_le by done. apply elem_of_app. by left. Qed.

Lemma notify_claim i x s : claim i x s -> claim i x (waiters_notify s).
Proof.
  destruct x as [[w n] ran]. intros [Hn Hx]. destruct (notify_spec s) as (_ & _ & l & Hl & Hw). unfold claim. rewrite Hl, length_app.
  split; [lia|]. left. destruct Hx as [Hx|(He & Hi & _)]; [by apply drop_more|].
  destruct (Hw i w He) as [Hw' _]. rewrite drop_app_le by done. apply elem_of_app. right. auto.
Qed.

Lemma steps_claim i wk i' x s s' : ctx_steps i wk s s' -> i' <> i \/ wk = None -> claim i' x s -> claim i' x s'.
Proof.
  intros Hs Hne. induction Hs as [s|s s1 s2 H1 _ IH]; [done|]. intros Hc. apply IH. clear IH s2.
  destruct H1 as [j s Hj|w s -> Hr|w s -> Hcur|s Hcur]; [..|by apply notify_claim]; destruct x as [[w' n] ran]; destruct Hc as [Hn Hc]; (split; [done|]);
    (destruct Hc as [Hc|(He & Hi & Ho)]; [by left|right]).
  - split; [done|]. split; [|done]. apply elem_of_app. by left.
  - destruct Hne as [Hne|?]; [|done]. split; [|done]. rewrite entry_set by done. by case_bool_decide.
  - split; [done|]. split; [done|]. destruct Ho as [?|(j & Hj & _)]; [by left|congruence].
Qed.

(** The waker a task was polled with stays in its place, or was woken. *)
Lemma steps_entry i w n s s' :
  ctx_steps i (Some w) s s' -> (n <= length (wt_woken s))%nat -> w ∈ drop n (wt_woken s) \/ entry s i = Some (Some w) ->
  (n <= length (wt_woken s'))%nat /\ (w ∈ drop n (wt_woken s') \/ entry s' i = Some (Some w)).
Proof.
  intros Hs. induction Hs as [s|s s1 s2 H1 _ IH]; [done|]. intros Hn Hc. apply IH; clear IH s2.
  - destruct H1 as [|w0 s E Hr| |s Hcur]; [done..|]. destruct (notify_spec s) as (_ & _ & l & -> & _). rewrite length_app. lia.
  - destruct H1 as [|w0 s [= <-] Hr| |s Hcur]; [done| |done|].
    + right. rewrite entry_set by done. by rewrite bool_decide_true.
    + destruct (notify_spec s) as (_ & _ & l & -> & Hw). rewrite drop_app_le by done. destruct Hc as [Hc|He]; [left; apply elem_of_app; by left|].
      destruct (Hw i w He) as [_ [?|?]]; [left; apply elem_of_app; by right|by right].
Qed.

Lemma notify_set_running b s : waiters_notify (set_running b s) = set_running b (waiters_notify s).
Proof. unfold waiters_notify. cbn. by destruct (wake_indexes _ _ _). Qed.
Lemma steps_set_running b i wk s s' : ctx_steps i wk s s' -> ctx_steps i wk (set_running b s) (set_running b s').
Proof.
  intros Hs. induction Hs as [s|s s1 s2 H1 _ IH]; [done|]. eapply rtc_l; [|exact IH]. destruct H1.
  - by apply (cs_push _ _ _ (set_running b s)).
  - by eapply (cs_set _ _ _ (set_running b s)).
  - by eapply (cs_acquire _ _ _ (set_running b s)).
  - rewrite <- notify_set_running. by apply cs_release.
Qed.
Lemma steps_none i wk s s' : ctx_steps i None s s' -> ctx_steps i wk s s'.
Proof.
  intros Hs. induction Hs as [s|s s1 s2 H1 _ IH]; [done|]. eapply rtc_l; [|exact IH]. destruct H1; [by apply cs_push|done|done|by apply cs_release].
Qed.
End waiters.

(** ** The contract of a service *)

Section contract.
Context {T : Type -> Type} `{!Slab T} `{!SlabLaws T} {W PRF PSF Req Res Err RF CF SF : Type}.
Context `{!HasPipeline T PRF PSF W} `{!HasPipelineLaws T PRF PSF W} `{!UserService W Req Res Err RF CF SF}.

(** An operation of the context of index [i] returns, leaves the container
    alone, and does to the waiters what a context may do. *)
Definition moves {A} (WI : W -> Prop) i wk (op : M W A) (P : A -> Waiters T -> Prop) (w : W) : Prop :=
  forall p, WI w -> hp_get w = Some p -> runs op w (fun a w' => WI w' /\
    exists s', hp_get w' = Some (mkPlInner (pn_refs p) s' (pn_rt p)) /\ ctx_steps i wk (pn_waiters p) s' /\ P a s').
(** The index is in use, and a check is running or not. *)
Definition in_use i (b : bool) (w : W) : Prop := forall p, hp_get w = Some p -> registered (pn_waiters p) i /\ wt_running (pn_waiters p) = b.

(** The index owns the check only if [o] allows it. *)
Definition held_only i (o : bool) (w : W) : Prop := forall p, hp_get w = Some p -> wt_cur (pn_waiters p) = Some i -> o = true.

(** [RI], [CI] and [SI] are invariants of the futures for a context of index
    [i], of one that can be polled again ([true]) and of one that has answered
    and is only to be dropped ([false]).  A call may check the readiness of
    other services meanwhile; the second flag of [CI] says that it gives the
    check up when it is dropped. *)
Class UserServiceLaws (WI : W -> Prop) (RI : nat -> bool -> RF -> Prop) (CI : nat -> bool -> bool -> CF -> Prop) (SI : bool -> SF -> Prop) : Prop := {
  ul_world w p : WI w -> WI (hp_set p w);
  ul_ready i w : moves WI i None (us_ready i) (fun f _ => RI i true f) w;
  ul_ready_poll i wk f w : RI i true f -> in_use i true w ->
    moves WI i (Some wk) (us_ready_poll wk f) (fun a _ => RI i (negb (poll_is_ready a.1)) a.2) w;
  ul_ready_drop i l f w : RI i l f -> moves WI i None (us_ready_drop f) (fun _ _ => True) w;
  ul_call i r w : moves WI i None (us_call i r) (fun f _ => CI i true false f) w;
  ul_call_poll i o wk f w : CI i true o f -> in_use i false w -> held_only i o w ->
    moves WI i (Some wk) (us_call_poll wk f) (fun a s => exists o, CI i (negb (poll_is_ready a.1)) o a.2 /\ (wt_cur s = Some i -> o = true)) w;
  ul_call_drop i l o f w : CI i l o f -> moves WI i None (us_call_drop f) (fun _ s => o = true -> wt_cur s <> Some i) w;
  ul_shutdown w : moves WI 0 None (us_shutdown 0) (fun f _ => SI true f) w;
  ul_shutdown_poll wk f w : SI true f -> moves WI 0 None (us_shutdown_poll wk f) (fun a _ => SI (negb (poll_is_ready a.1)) a.2) w;
  ul_shutdown_drop l f w : SI l f -> moves WI 0 None (us_shutdown_drop f) (fun _ _ => True) w;
}.

(** ** Access *)

Lemma on_waiters_spec {A} (c : M (Waiters T) A) w p a s' (P : A -> W -> Prop) :
  hp_get w = Some p -> c (pn_waiters p) = Done (a, s') -> P a (hp_set (Some (mkPlInner (pn_refs p) s' (pn_rt p))) w) -> runs (on_waiters c) w P.
Proof. intros Hw Hc HP. unfold on_waiters, on_inner. eapply runs_eq; [by rewrite Hw, Hc|done]. Qed.
Lemma on_waiters_gets {A} (g : Waiters T -> A) w p (P : A -> W -> Prop) :
  hp_get w = Some p -> P (g (pn_waiters p)) w -> runs (on_waiters (getsS g)) w P.
Proof.
  intros Hw HP. eapply on_waiters_spec; [done|done|]. replace (hp_set _ w) with w; [done|]. rewrite <- (hp_set_get w) at 1. rewrite Hw. by destruct p.
Qed.
Lemma on_waiters_modify g w p (P : () -> W -> Prop) :
  hp_get w = Some p -> P tt (hp_set (Some (mkPlInner (pn_refs p) (g (pn_waiters p)) (pn_rt p))) w) -> runs (on_waiters (modifyS g)) w P.
Proof. intros Hw HP. by eapply on_waiters_spec. Qed.
Lemma set_rt_spec rt w p (P : () -> W -> Prop) :
  hp_get w = Some p -> P tt (hp_set (Some (mkPlInner (pn_refs p) (pn_waiters p) rt)) w) -> runs (set_rt rt) w P.
Proof. intros Hw HP. unfold set_rt, on_inner. eapply runs_eq; [by rewrite Hw|done]. Qed.
Lemma get_rt_spec w p (P : RuntimeState PRF PSF -> W -> Prop) : hp_get w = Some p -> P (pn_rt p) w -> runs get_rt w P.
Proof.
  intros Hw HP. unfold get_rt, on_inner. eapply runs_eq; [rewrite Hw; done|]. replace (hp_set _ w) with w; [done|]. by rewrite <- Hw, hp_set_get.
Qed.

(** ** [WaitersRef::run] *)

Definition can_check i (s : Waiters T) : bool := match wt_cur s with None => true | Some j => bool_decide (j = i) end.
(** The waiters when the check starts, and when it has ended. *)
Definition run_start i wk (s : Waiters T) : Waiters T := set_running true (set_cur (Some i) (set_index i (Some wk) s)).
Definition run_end {R} (running : bool) i (r : Poll R) (s : Waiters T) : Waiters T :=
  if running then s else set_running false (match r with Pending => push_waker i s | Ready _ => waiters_notify s end).
Definition with_waiters (p : PlInner T PRF PSF) (s : Waiters T) : PlInner T PRF PSF := mkPlInner (pn_refs p) s (pn_rt p).

Lemma with_waiters_same p : with_waiters p (pn_waiters p) = p.
Proof. by destruct p. Qed.

Lemma run_check_spec {R X} i wk (x : X) (f : M W (Poll R * X)) w p (P : Poll R * X -> W -> Prop) :
  hp_get w = Some p -> registered (pn_waiters p) i -> can_check i (pn_waiters p) = true ->
  runs f (hp_set (Some (with_waiters p (run_start i wk (pn_waiters p)))) w) (fun a w' => exists p', hp_get w' = Some p' /\
    P a (hp_set (Some (with_waiters p' (run_end (wt_running (pn_waiters p)) i a.1 (pn_waiters p')))) w')) ->
  runs (waiters_run i wk x f) w P.
Proof.
  intros Hw Hr Hc Hf. unfold waiters_run. apply runs_bind. eapply on_waiters_gets; [done|].
  rewrite slab_contains_map, bool_decide_true by done. cbn [negb]. apply runs_bind. eapply on_waiters_modify; [done|].
  fold (with_waiters p (set_index i (Some wk) (pn_waiters p))). apply runs_bind. eapply on_waiters_gets; [apply hp_get_set|].
  cbn [with_waiters pn_waiters set_index wt_cur]. apply runs_bind.
  set (s1 := set_cur (Some i) (set_index i (Some wk) (pn_waiters p))).
  apply (runs_conseq _ _ (fun b w1 => b = true /\ w1 = hp_set (Some (with_waiters p s1)) w)).
  { unfold can_check in Hc. destruct (wt_cur (pn_waiters p)) as [j|] eqn:Hcur.
    - apply bool_decide_eq_true in Hc as ->. rewrite bool_decide_true by done. apply runs_ret. split; [done|]. subst s1. unfold set_cur. cbn. by rewrite <- Hcur.
    - rewrite bool_decide_false by done. apply runs_bind. eapply on_waiters_modify; [apply hp_get_set|]. apply runs_ret. split; [done|]. by rewrite hp_set_set. }
  intros b w1 [-> ->]. apply runs_bind. eapply on_waiters_gets; [apply hp_get_set|]. change (wt_running (pn_waiters (with_waiters p s1))) with (wt_running (pn_waiters p)).
  apply runs_bind. apply (runs_conseq _ _ (fun _ w2 => w2 = hp_set (Some (with_waiters p (run_start i wk (pn_waiters p)))) w)).
  { destruct (wt_running (pn_waiters p)) eqn:Hrun; [|eapply on_waiters_modify; [apply hp_get_set|]; by rewrite hp_set_set].
    apply runs_ret. subst s1. unfold run_start, set_running. cbn. by rewrite <- Hrun. }
  intros [] w2 ->. apply runs_bind. eapply runs_conseq; [exact Hf|]. intros [r y] w3 (p' & Hp' & HP). apply runs_bind.
  apply (runs_conseq _ _ (fun _ w4 => w4 = hp_set (Some (with_waiters p' (run_end (wt_running (pn_waiters p)) i r (pn_waiters p')))) w3)).
  { destruct (wt_running (pn_waiters p)); [apply runs_ret; cbn; by rewrite with_waiters_same, <- Hp', hp_set_get|].
    apply runs_bind. eapply on_waiters_modify; [done|]. eapply on_waiters_modify; [apply hp_get_set|]. rewrite hp_set_set. by destruct r. }
  intros [] w4 ->. by apply runs_ret.
Qed.

Lemma run_wait_spec {R X} i wk (x : X) (f : M W (Poll R * X)) w p (P : Poll R * X -> W -> Prop) :
  hp_get w = Some p -> registered (pn_waiters p) i -> can_check i (pn_waiters p) = false ->
  P (Pending, x) (hp_set (Some (with_waiters p (push_waker i (set_index i (Some wk) (pn_waiters p))))) w) ->
  runs (waiters_run i wk x f) w P.
Proof.
  intros Hw Hr Hc HP. unfold waiters_run. apply runs_bind. eapply on_waiters_gets; [done|].
  rewrite slab_contains_map, bool_decide_true by done. cbn [negb]. apply runs_bind. eapply on_waiters_modify; [done|].
  apply runs_bind. eapply on_waiters_gets; [apply hp_get_set|]. cbn [pn_waiters set_index wt_cur]. apply runs_bind.
  unfold can_check in Hc. destruct (wt_cur (pn_waiters p)) as [j|] eqn:Hcur; [|done]. apply bool_decide_eq_false in Hc.
  rewrite bool_decide_false by congruence. apply runs_ret, runs_bind. eapply on_waiters_modify; [apply hp_get_set|]. apply runs_ret. by rewrite hp_set_set.
Qed.

(** The result of a poll of the check, by a task with the waker [wk]. *)
Definition polled {R} i wk (s : Waiters T) (r : Poll R) (s' : Waiters T) : Prop :=
  match r with Pending => claim i (wk, length (wt_woken s), can_check i s) s' | Ready _ => wt_cur s' = None end.

Lemma set_running_same (s : Waiters T) : set_running (wt_running s) s = s.
Proof. by destruct s. Qed.
Lemma set_running_twice b b' (s : Waiters T) : set_running b (set_running b' s) = set_running b s.
Proof. done. Qed.

Lemma run_steps {R} i wk (r : Poll R) (s s2 : Waiters T) :
  registered s i -> can_check i s = true -> ctx_steps i (Some wk) (run_start i wk s) s2 ->
  ctx_steps i (Some wk) s (run_end (wt_running s) i r s2) /\ (wt_running s = false -> polled i wk s r (run_end (wt_running s) i r s2)).
Proof.
  intros Hr Hc Hs. pose proof (steps_steady _ _ _ _ Hs) as [Hreg Hrun Hcur Hwo].
  assert (wt_cur s2 = None \/ wt_cur s2 = Some i) as Hown.
  { destruct (wt_cur s2) as [j|]; [right|by left]. destruct (Hcur j eq_refl) as [[= <-]|[-> _]]; done. }
  assert (ctx_steps i (Some wk) s (set_running (wt_running s) s2)) as Hto.
  { eapply rtc_l; [by apply (cs_set _ _ wk)|]. apply (steps_set_running (wt_running s)) in Hs.
    change (set_running (wt_running s) (run_start i wk s)) with (set_cur (Some i) (set_index i (Some wk) s)) in Hs.
    unfold can_check in Hc. destruct (wt_cur s) as [j|] eqn:E.
    - apply bool_decide_eq_true in Hc as ->. unfold set_cur in Hs. cbn in Hs. rewrite <- E in Hs. exact Hs.
    - eapply rtc_l; [|exact Hs]. by apply (cs_acquire _ _ wk). }
  destruct (wt_running s) eqn:Hb.
  - split; [|done]. cbn. change true with (wt_running (run_start i wk s)) in Hto. by rewrite <- Hrun, set_running_same in Hto.
  - split.
    + eapply rtc_r; [exact Hto|]. cbn. destruct r; [by apply (cs_push _ _ i (set_running false s2)); right|].
      rewrite <- notify_set_running. by apply cs_release.
    + intros _. destruct r; [|cbn; by destruct (notify_spec s2) as (_ & -> & _)].
      destruct (steps_entry i wk (length (wt_woken s)) (run_start i wk s) s2 Hs) as [Hn He]; [done| |].
      { right. change (entry (set_index i (Some wk) s) i = Some (Some wk)). rewrite entry_set by done. by rewrite bool_decide_true. }
      cbn. rewrite Hc. split; [done|]. destruct He as [He|He]; [by left|right]. split; [done|]. split; [apply elem_of_app; right; constructor|by left].
Qed.

Lemma wait_steps i wk (s : Waiters T) :
  registered s i -> can_check i s = false ->
  ctx_steps i (Some wk) s (push_waker i (set_index i (Some wk) s)) /\ polled (R := ()) i wk s Pending (push_waker i (set_index i (Some wk) s)).
Proof.
  intros Hr Hc. split.
  - eapply rtc_l; [by apply (cs_set _ _ wk)|]. eapply rtc_once, cs_push. by right.
  - cbn. rewrite Hc. split; [done|]. right. split; [change (entry (set_index i (Some wk) s) i = Some (Some wk)); rewrite entry_set by done; by rewrite bool_decide_true|].
    split; [apply elem_of_app; right; constructor|right]. unfold can_check in Hc. destruct (wt_cur s) as [j|] eqn:E; [|done]. exists j. split; [done|].
    by apply bool_decide_eq_false in Hc.
Qed.
End contract.

(** ** The steps of a pipeline

    The futures of a context, for any service that meets its contract. *)

Section ctx.
Context {T : Type -> Type} `{!Slab T} `{!SlabLaws T} {W PRF PSF Req Res Err RF CF SF : Type}.
Context `{!HasPipeline T PRF PSF W} `{!HasPipelineLaws T PRF PSF W} `{!UserService W Req Res Err RF CF SF}.
Context (WI : W -> Prop) (RI : nat -> bool -> RF -> Prop) (CI : nat -> bool -> bool -> CF -> Prop) (SI : bool -> SF -> Prop) `{!UserServiceLaws (T := T) (PRF := PRF) (PSF := PSF) WI RI CI SI}.
Implicit Types (i : nat) (wk : option waker) (w : W) (s : Waiters T).
Abbreviation moves := (moves (T := T) (PRF := PRF) (PSF := PSF) WI).
Abbreviation held_only := (held_only (T := T) (PRF := PRF) (PSF := PSF)).
Abbreviation in_use := (in_use (T := T) (PRF := PRF) (PSF := PSF)).

(** ** Composition *)

Lemma moves_ret {A} i wk (a : A) (P : A -> Waiters T -> Prop) w :
  (forall p, hp_get w = Some p -> P a (pn_waiters p)) -> moves i wk (mret a) P w.
Proof. intros HP p Hw Hp. apply runs_ret. split; [done|]. exists (pn_waiters p). split; [by destruct p|]. split; [done|by apply HP]. Qed.

Lemma moves_bind {A B} i wk (op : M W A) (k : A -> M W B) (P : A -> Waiters T -> Prop) (Q : B -> Waiters T -> Prop) w :
  moves i wk op P w ->
  (forall a w' p s, hp_get w = Some p -> ctx_steps i wk (pn_waiters p) s -> hp_get w' = Some (with_waiters p s) -> P a s -> moves i wk (k a) Q w') ->
  moves i wk (op ≫= k) Q w.
Proof.
  intros H1 H2 p Hw Hp. apply runs_bind. eapply runs_conseq; [by apply H1|]. intros a w1 (Hw1 & s1 & Hp1 & Hs1 & HP1).
  eapply runs_conseq; [by eapply H2|]. intros b w2 (Hw2 & s2 & Hp2 & Hs2 & HQ). split; [done|]. exists s2. split; [done|]. split; [by etrans|done].
Qed.
Lemma moves_conseq {A} i wk (op : M W A) (P Q : A -> Waiters T -> Prop) w :
  moves i wk op P w -> (forall a p s, hp_get w = Some p -> ctx_steps i wk (pn_waiters p) s -> P a s -> Q a s) -> moves i wk op Q w.
Proof.
  intros H1 H2 p Hw Hp. eapply runs_conseq; [by apply H1|]. intros a w1 (Hw1 & s1 & Hp1 & Hs1 & HP1). split; [done|]. exists s1. split_and!; eauto.
Qed.
Lemma moves_none {A} i wk (op : M W A) (P : A -> Waiters T -> Prop) w p :
  moves i None op P w -> hp_get w = Some p -> moves i wk op (fun a s => P a s /\ ctx_steps i None (pn_waiters p) s) w.
Proof.
  intros H1 Hp q Hw Hq. rewrite Hp in Hq. injection Hq as <-. eapply runs_conseq; [by apply H1|]. intros a w1 (Hw1 & s1 & Hp1 & Hs1 & HP1).
  split; [done|]. exists s1. split_and!; [done|by apply steps_none|done|done].
Qed.
Lemma moves_modify i wk (g : Waiters T -> Waiters T) w (P : () -> Waiters T -> Prop) :
  (forall p, hp_get w = Some p -> ctx_steps i wk (pn_waiters p) (g (pn_waiters p)) /\ P tt (g (pn_waiters p))) -> moves i wk (on_waiters (modifyS g)) P w.
Proof.
  intros HP p Hw Hp. eapply on_waiters_modify; [done|]. destruct (HP p Hp). split; [by apply ul_world|]. eexists. by rewrite hp_get_set.
Qed.

Lemma in_use_steps i b wk w w' p s :
  in_use i b w -> hp_get w = Some p -> ctx_steps i wk (pn_waiters p) s -> hp_get w' = Some (with_waiters p s) -> in_use i b w'.
Proof.
  intros Hu Hp Hs Hw' p' Hp'. rewrite Hw' in Hp'. injection Hp' as <-. destruct (Hu p Hp) as [Hr Hb]. apply steps_steady in Hs as [Hreg Hrun _ _].
  cbn. split; [by apply Hreg|congruence].
Qed.
Lemma steps_none_cur i s s' : ctx_steps i None s s' -> forall j, wt_cur s' = Some j -> wt_cur s = Some j.
Proof. intros Hs j Hj. apply steps_steady in Hs as [_ _ Hc _]. destruct (Hc j Hj) as [?|[_ [? ?]]]; done. Qed.
Lemma steps_can_check i wk s s' : ctx_steps i wk s s' -> can_check i s = true -> can_check i s' = true.
Proof.
  intros Hs Hc. apply steps_steady in Hs as [_ _ Hcur _]. unfold can_check in *. destruct (wt_cur s') as [j|]; [|done].
  destruct (Hcur j eq_refl) as [E|[-> _]]; [by rewrite E in Hc|by rewrite bool_decide_true].
Qed.
(** Nobody else takes the check away. *)
Lemma steps_other i wk s s' j : ctx_steps i wk s s' -> wt_cur s = Some j -> j <> i -> wt_cur s' = Some j.
Proof.
  intros Hs. induction Hs as [s|s s1 s2 H1 _ IH]; [done|]. intros Hj Hne. apply IH; [|done]. destruct H1 as [| |w0 s E Hn|s [Hn|Hn]]; [done..| | |]; congruence.
Qed.
Lemma steps_can_check_eq i wk s s' : ctx_steps i wk s s' -> can_check i s' = can_check i s.
Proof.
  intros Hs. destruct (can_check i s) eqn:Hc; [by eapply steps_can_check|]. unfold can_check in *. destruct (wt_cur s) as [j|] eqn:E; [|done].
  apply bool_decide_eq_false in Hc. rewrite (steps_other _ _ _ _ j Hs) by done. by apply bool_decide_eq_false.
Qed.
Lemma claim_earlier i x n n' b s : (n <= n')%nat -> claim i (x, n', b) s -> claim i (x, n, b) s.
Proof.
  intros Hn [H1 H2]. split; [lia|]. destruct H2 as [H2|H2]; [left|by right]. replace n' with (n + (n' - n))%nat in H2 by lia.
  rewrite <- drop_drop in H2. apply list_elem_of_lookup_1 in H2 as [k Hk]. rewrite lookup_drop in Hk. by apply list_elem_of_lookup_2 in Hk.
Qed.
Lemma polled_earlier {R} i x s0 s (r : Poll R) s' : ctx_steps i None s0 s -> polled i x s r s' -> polled i x s0 r s'.
Proof.
  intros Hs. destruct r; [|done]. cbn. rewrite (steps_can_check_eq _ _ _ _ Hs). apply claim_earlier.
  apply steps_steady in Hs as [_ _ _ [l ->]]. rewrite length_app. lia.
Qed.

(** ** [ReadyCall] *)

Definition rc_ok i (c : ReadyCall RF) : Prop := rc_idx c = i /\ RI i (negb (rc_completed c)) (rc_fut c).

Lemma ready_call_poll_spec i b x c w p :
  rc_ok i c -> rc_completed c = false -> in_use i b w -> hp_get w = Some p ->
  moves i (Some x) (ready_call_poll x c) (fun a s => rc_ok i a.2 /\ rc_completed a.2 = poll_is_ready a.1 /\
    (b = false -> polled i x (pn_waiters p) a.1 s)) w.
Proof.
  intros [<- Hf] Hl Hu Hp q Hw Hq. rewrite Hl in Hf. rewrite Hp in Hq. injection Hq as <-. destruct (Hu p Hp) as [Hr Hb]. unfold ready_call_poll.
  destruct (can_check (rc_idx c) (pn_waiters p)) eqn:Hc.
  - eapply run_check_spec; [done|done|done|]. apply runs_bind. set (w1 := hp_set _ w).
    assert (hp_get w1 = Some (with_waiters p (run_start (rc_idx c) x (pn_waiters p)))) as Hp1 by apply hp_get_set.
    eapply runs_conseq; [apply (ul_ready_poll (rc_idx c) x (rc_fut c) w1 Hf); [|by apply ul_world|exact Hp1]|].
    { intros p1 E. rewrite Hp1 in E. injection E as <-. cbn. split; [|done]. change (registered (set_index (rc_idx c) (Some x) (pn_waiters p)) (rc_idx c)).
      unfold registered. rewrite entry_set by done. rewrite bool_decide_true by done. by eexists. }
    intros [r f] w2 (Hw2 & s2 & Hp2 & Hs2 & HR). apply runs_ret. eexists. split; [done|]. split; [by apply ul_world|].
    eexists. split; [by rewrite hp_get_set|]. destruct (run_steps (rc_idx c) x r (pn_waiters p) s2 Hr Hc Hs2) as [Hs Hpo].
    rewrite Hl. split; [exact Hs|]. split; [done|]. split; [done|]. intros ->. by apply Hpo.
  - eapply run_wait_spec; [done|done|done|]. split; [by apply ul_world|]. eexists. split; [by rewrite hp_get_set|].
    destruct (wait_steps (rc_idx c) x (pn_waiters p) Hr Hc) as [Hs Hpo]. split; [done|]. split; [split; [done|]; cbn [snd]; by rewrite Hl|]. split; [exact Hl|done].
Qed.

Lemma ready_call_drop_spec i c w :
  rc_ok i c -> moves i None (ready_call_drop c) (fun _ s => rc_completed c = false -> wt_cur s <> Some i) w.
Proof.
  intros [Hi Hf]. unfold ready_call_drop. apply (moves_bind _ _ _ _ (fun _ s => rc_completed c = false -> wt_cur s <> Some i)).
  - destruct (rc_completed c); [by apply moves_ret|]. intros p Hw Hp. apply runs_bind. eapply on_waiters_gets; [done|]. rewrite Hi.
    case_bool_decide as Hc; [|by apply (moves_ret i None tt); [intros ? [= <-]%(eq_trans (eq_sym Hp))|..]].
    apply (moves_modify i None); [|done|done]. intros p' Hp'. rewrite Hp in Hp'. injection Hp' as <-. split; [eapply rtc_once, cs_release; by right|].
    intros _. by destruct (notify_spec (pn_waiters p)) as (_ & -> & _).
  - intros [] w' p s Hp Hs Hw' HP. eapply moves_conseq; [by apply (ul_ready_drop i _ _ w' Hf)|]. intros [] p' s' Hp' Hs' _ Hc E.
    rewrite Hw' in Hp'. injection Hp' as <-. apply (HP Hc). by eapply steps_none_cur.
Qed.

(** ** [Ctx::ready] *)

Definition rd_ok i (st : ReadyFut RF) : Prop :=
  match st with RdStart => True | RdWait c => rc_ok i c /\ rc_completed c = false | RdDone => False end.

Lemma ready_await_spec i b x c w p :
  rc_ok i c -> rc_completed c = false -> in_use i b w -> hp_get w = Some p ->
  moves i (Some x) (ready_await x c) (fun a s =>
    match a.1 with Pending => (exists c', a.2 = RdWait c') /\ rd_ok i a.2 | Ready _ => a.2 = RdDone end /\
    (b = false -> polled i x (pn_waiters p) a.1 s)) w.
Proof.
  intros Hc Hcomp Hu Hp. unfold ready_await. eapply moves_bind; [by apply (ready_call_poll_spec i b x c w p)|].
  intros [r c'] w' p' s Hp' Hs Hw' (Hc' & Hcomp' & Hpo). cbn [fst snd] in *. destruct r as [|res].
  - apply moves_ret. intros q Hq. rewrite Hw' in Hq. injection Hq as <-. split; [|done]. split; [by eexists|done].
  - eapply moves_bind; [apply (moves_none i (Some x)); [by apply ready_call_drop_spec|exact Hw']|]. intros [] w2 p2 s2 Hp2 Hs2 Hw2 [_ Hn].
    apply moves_ret. intros q Hq. rewrite Hw2 in Hq. injection Hq as <-. split; [done|]. intros Hb. specialize (Hpo Hb). cbn in *.
    destruct (wt_cur s2) as [j|] eqn:E; [|done]. apply (steps_none_cur _ _ _ Hn) in E. congruence.
Qed.

Lemma ctx_ready_poll_spec i b x st w p :
  rd_ok i st -> in_use i b w -> hp_get w = Some p ->
  moves i (Some x) (ctx_ready_poll i x st) (fun a s =>
    match a.1 with Pending => (exists c', a.2 = RdWait c') /\ rd_ok i a.2 | Ready _ => a.2 = RdDone end /\
    (b = false -> polled i x (pn_waiters p) a.1 s)) w.
Proof.
  intros Hst Hu Hp. destruct st as [|c|]; cbn [ctx_ready_poll]; [|by apply ready_await_spec; [apply Hst..|done|done]|done].
  eapply moves_bind; [apply (moves_none i (Some x)); [by apply ul_ready|exact Hp]|]. intros f w1 p1 s1 Hp1 Hs1 Hw1 [Hf Hn].
  rewrite Hp in Hp1. injection Hp1 as <-. eapply moves_conseq; [apply (ready_await_spec i b x (mkReadyCall false f i)); [done|done|by eapply in_use_steps|exact Hw1]|].
  intros a p2 s2 Hp2 Hs2 [Ha Hpo]. split; [done|]. intros Hb. eapply polled_earlier; [exact Hn|]. by apply Hpo.
Qed.

Lemma ready_fut_drop_spec i st w : rd_ok i st -> moves i None (ready_fut_drop st) (fun _ s => (exists c, st = RdWait c) -> wt_cur s <> Some i) w.
Proof.
  intros Hst. destruct st as [|c|]; [apply moves_ret; by intros p _ [? ?]| |done]. destruct Hst as [Hc Hcomp].
  eapply moves_conseq; [by apply ready_call_drop_spec|]. intros [] p s _ _ HP _. by apply HP.
Qed.

(** ** [Ctx::call] *)

(** The future of a call; [o] tells that it gives the check up when it is
    dropped. *)
Definition call_ok i (o : bool) (st : CallFut Req RF CF) : Prop :=
  match st with
  | CsReady (RdWait c) _ => o = true /\ rd_ok i (RdWait c)
  | CsReady RdStart _ | CsStart _ | CsDone => o = false
  | CsReady RdDone _ => False
  | CsRun f => CI i true o f
  end.
Definition call_waits (st : CallFut Req RF CF) : Prop := exists c r, st = CsReady (RdWait c) r.

(** After a poll: the call holds the check only if it gives it up. *)
Definition called i x s0 (st : CallFut Req RF CF) s : Prop :=
  (exists o, call_ok i o st /\ (wt_cur s = Some i -> o = true)) /\ (call_waits st -> claim i (x, length (wt_woken s0), can_check i s0) s).

(** The future is done when it has answered. *)
Definition settled (a : Poll (Res + Err) * CallFut Req RF CF) : Prop := match a.1 with Pending => a.2 <> CsDone | Ready _ => a.2 = CsDone end.

Lemma call_await_spec i o x f w p :
  CI i true o f -> in_use i false w -> held_only i o w -> hp_get w = Some p ->
  moves i (Some x) (call_await x f) (fun a s => called i x (pn_waiters p) a.2 s /\ (forall c r, a.2 <> CsReady c r) /\ settled a) w.
Proof.
  intros Hf Hu Hh Hp. unfold call_await. eapply moves_bind; [by apply (ul_call_poll i o)|]. intros [r f'] w1 p1 s1 Hp1 Hs1 Hw1 (o' & Hf' & Ho). cbn [fst snd] in *.
  destruct r as [|res].
  - apply moves_ret. intros q Hq. rewrite Hw1 in Hq. injection Hq as <-. split; [|done]. split; [by exists o'|]. by intros (? & ? & ?).
  - eapply moves_bind; [apply (moves_none i (Some x)); [by apply (ul_call_drop i _ o' _ _ Hf')|exact Hw1]|]. intros [] w2 p2 s2 Hp2 Hs2 Hw2 [Hd Hn].
    apply moves_ret. intros q Hq. rewrite Hw2 in Hq. injection Hq as <-. split; [|done]. split; [|by intros (? & ? & ?)]. exists false. split; [done|]. intros E. cbn in E.
    apply (steps_none_cur _ _ _ Hn) in E as E1. cbn in E1. destruct (Hd (Ho E1)); done.
Qed.

Lemma held_only_none i o w w' p s :
  held_only i o w -> hp_get w = Some p -> ctx_steps i None (pn_waiters p) s -> hp_get w' = Some (with_waiters p s) -> held_only i o w'.
Proof. intros Hh Hp Hs Hw' p' Hp' E. rewrite Hw' in Hp'. injection Hp' as <-. apply (Hh p Hp). by eapply steps_none_cur. Qed.

Lemma call_start_spec i x r w p :
  in_use i false w -> held_only i false w -> hp_get w = Some p ->
  moves i (Some x) (f ← us_call i r; call_await x f) (fun a s => (exists o, call_ok i o a.2 /\ (wt_cur s = Some i -> o = true)) /\ ~ call_waits a.2 /\ settled a) w.
Proof.
  intros Hu Hh Hp. eapply moves_bind; [apply (moves_none i (Some x)); [by apply ul_call|exact Hp]|]. intros f w1 p1 s1 Hp1 Hs1 Hw1 [Hf Hn].
  rewrite Hp in Hp1. injection Hp1 as <-.
  eapply moves_conseq; [eapply (call_await_spec i false x f w1); [done|by eapply in_use_steps|by eapply held_only_none|done]|].
  intros a p2 s2 _ _ [[Ho _] [Hno Hse]]. split; [done|]. split; [|done]. intros (c & q & E). by destruct (Hno (RdWait c) q).
Qed.

Lemma ctx_call_poll_spec i o x st w p :
  call_ok i o st -> st <> CsDone -> in_use i false w -> held_only i o w -> hp_get w = Some p ->
  moves i (Some x) (ctx_call_poll i x st) (fun a s => called i x (pn_waiters p) a.2 s /\ settled a) w.
Proof.
  intros Hst Hnd Hu Hh Hp. destruct st as [rd r|r|f|]; cbn [ctx_call_poll]; [|cbn in Hst; subst o| |done].
  2:{ eapply moves_conseq; [by apply (call_start_spec i x r w p)|]. intros a q s _ _ (? & ? & ?). by split. }
  - assert (rd_ok i rd) as Hrd by (destruct rd; [done|by destruct Hst|done]).
    eapply moves_bind; [by apply (ctx_ready_poll_spec i false x rd w p)|]. intros [res rd'] w1 p1 s1 Hp1 Hs1 Hw1 [Ha Hpo]. cbn [fst snd] in *.
    rewrite Hp in Hp1. injection Hp1 as <-. specialize (Hpo eq_refl). destruct res as [|[[]|err]].
    + apply moves_ret. intros q Hq. rewrite Hw1 in Hq. injection Hq as <-. destruct Ha as [[c' ->] Hok]. split; [|done]. split; [by exists true|done].
    + eapply moves_conseq; [eapply (call_start_spec i x r w1); [by eapply in_use_steps| |exact Hw1]|].
      * intros q Hq E. rewrite Hw1 in Hq. injection Hq as <-. cbn in *. congruence.
      * intros a p2 s2 _ _ (Ho & Hcl & ?). by split.
    + apply moves_ret. intros q Hq. rewrite Hw1 in Hq. injection Hq as <-. split; [|done]. split; [|by intros (? & ? & ?)]. exists false. split; [done|]. cbn in *. congruence.
  - eapply moves_conseq; [by apply (call_await_spec i o x f w p)|]. intros a p2 s2 _ _ (? & _ & ?). by split.
Qed.

Lemma call_fut_drop_spec i o st w : call_ok i o st -> moves i None (call_fut_drop st) (fun _ s => o = true -> wt_cur s <> Some i) w.
Proof.
  intros Hst. destruct st as [rd r|r|f|]; cbn [call_fut_drop].
  - destruct rd as [|c|]; [|destruct Hst as [-> Hc]|done]; [apply moves_ret; cbn in Hst; by subst|].
    eapply moves_conseq; [by apply (ready_fut_drop_spec i (RdWait c))|]. intros [] p s _ _ HP _. apply HP. by eexists.
  - apply moves_ret. cbn in Hst. by subst.
  - by apply (ul_call_drop i true o).
  - apply moves_ret. cbn in Hst. by subst.
Qed.

(** ** [Ctx::shutdown] *)

Definition sh_ok (st : ShutdownFut SF) : Prop := match st with ShStart => True | ShRun f => SI true f | ShDone => False end.

Lemma shutdown_await_spec x f w :
  SI true f -> moves 0 None (shutdown_await x f) (fun a _ => match a.1 with Pending => sh_ok a.2 | Ready _ => a.2 = ShDone end) w.
Proof.
  intros Hf. unfold shutdown_await. eapply moves_bind; [by apply ul_shutdown_poll|]. intros [r f'] w1 p1 s1 _ _ _ Hf'. cbn [fst snd] in *.
  destruct r; [by apply moves_ret|]. eapply moves_bind; [by apply (ul_shutdown_drop false)|]. intros [] w2 p2 s2 _ _ _ _. by apply moves_ret.
Qed.
Lemma ctx_shutdown_poll_spec x st w :
  sh_ok st -> moves 0 None (ctx_shutdown_poll 0 x st) (fun a _ => match a.1 with Pending => sh_ok a.2 | Ready _ => a.2 = ShDone end) w.
Proof.
  intros Hst. destruct st as [|f|]; cbn [ctx_shutdown_poll]; [|by apply shutdown_await_spec|done].
  eapply moves_bind; [apply ul_shutdown|]. intros f w1 p1 s1 _ _ _ Hf. by apply shutdown_await_spec.
Qed.
Lemma shutdown_fut_drop_spec st w : sh_ok st -> moves 0 None (shutdown_fut_drop st) (fun _ _ => True) w.
Proof. intros Hst. destruct st as [|f|]; cbn [shutdown_fut_drop]; [by apply moves_ret|by apply (ul_shutdown_drop true)|by apply moves_ret]. Qed.
End ctx.
