(* ===== verification/PipelineSystem.v ===== *)
(** * A pipeline with its calls

    The tasks that use a pipeline ([Pipeline.v]): one polls its readiness and
    its shutdown, others hold calls.  A program is a sequence of polls and
    drops, and of changes of the service by its environment. *)
From Stdlib Require Import ZArith Lia.
From stdpp Require Import base numbers gmap list relations.
From Stdlib Require Import ZArith.
From stdpp Require Import base numbers gmap list.
From S2P Require Import Prelude Deps Task IoBuf Pipeline PipelineInv.

Section system.
Context {T : Type -> Type} `{!Slab T} {W Req Res Err RF CF SF : Type} `{!HasPipeline T RF SF W} `{!UserService W Req Res Err RF CF SF}.

Inductive pl_op :=
  | PoReady (x : waker)
  | PoShutdown (x : waker)
  | PoCall (ready : bool) (r : Req)
  | PoPoll (i : nat) (x : waker)
  | PoDrop (i : nat)
  | PoWorld (op : M W ()).

(** The last poll of a task: the waker it was polled with, the number of
    wakers that had been woken, and whether it could check the readiness. *)
Definition poll_info : Type := waker * nat * bool.

(** The calls by their index, with their last poll; and the last poll of the
    readiness, if it was pending. *)
Record PlSys := mkPlSys { ps_world : W; ps_calls : gmap nat (CallFut Req RF CF * option poll_info); ps_main : option poll_info }.

Definition info_of (i : nat) (x : waker) (w : W) : option poll_info :=
  match hp_get w with Some p => Some (x, length (wt_woken (pn_waiters p)), can_check i (pn_waiters p)) | None => None end.

Definition pl_step (op : pl_op) (s : PlSys) : outcome PlSys :=
  let w := ps_world s in
  match op with
  | PoReady x =>
      match pl_poll_ready x w with
      | Done (r, w') => Done (mkPlSys w' (ps_calls s) (match r with Pending => info_of 0 x w | Ready _ => None end))
      | Fault f => Fault f
      end
  | PoShutdown x =>
      match pl_poll_shutdown x w with Done (_, w') => Done (mkPlSys w' (ps_calls s) (ps_main s)) | Fault f => Fault f end
  | PoCall ready r =>
      match pl_call ready r w with
      | Done (c, w') => Done (mkPlSys w' (<[pc_idx c := (pc_fut c, None)]> (ps_calls s)) (ps_main s))
      | Fault f => Fault f
      end
  | PoPoll i x =>
      match ps_calls s !! i with
      | None | Some (CsDone, _) => Done s
      | Some (st, _) =>
          match pipeline_call_poll x (mkPipelineCall i st) w with
          | Done ((_, c), w') => Done (mkPlSys w' (<[i := (pc_fut c, info_of i x w)]> (ps_calls s)) (ps_main s))
          | Fault f => Fault f
          end
      end
  | PoDrop i =>
      match ps_calls s !! i with
      | None => Done s
      | Some (st, _) =>
          match pipeline_call_drop (mkPipelineCall i st) w with
          | Done (_, w') => Done (mkPlSys w' (delete i (ps_calls s)) (ps_main s))
          | Fault f => Fault f
          end
      end
  | PoWorld op => match op w with Done (_, w') => Done (mkPlSys w' (ps_calls s) (ps_main s)) | Fault f => Fault f end
  end.

Fixpoint pl_exec (ops : list pl_op) (s : PlSys) : outcome PlSys :=
  match ops with [] => Done s | op :: ops => s ← pl_step op s; pl_exec ops s end.

(** A new pipeline, in the given world. *)
Definition pl_sys (w : W) : PlSys := mkPlSys (hp_set (Some pipeline_new) w) ∅ None.
End system.
Arguments pl_op W Req : clear implicits.
Arguments PlSys W Req RF CF : clear implicits.

Section inv.
Context {T : Type -> Type} `{!Slab T} `{!SlabLaws T} {W Req Res Err RF CF SF : Type}.
Context `{!HasPipeline T RF SF W} `{!HasPipelineLaws T RF SF W} `{!UserService W Req Res Err RF CF SF}.
Context (WI : W -> Prop) (RI : nat -> bool -> RF -> Prop) (CI : nat -> bool -> bool -> CF -> Prop) (SI : bool -> SF -> Prop) `{!UserServiceLaws (T := T) (PRF := RF) (PSF := SF) WI RI CI SI}.
Implicit Types (i k : nat) (w : W) (s : Waiters T) (calls : gmap nat (CallFut Req RF CF * option poll_info)) (main : option poll_info).

(** ** The invariant *)

Definition rt_ok (rt : RuntimeState RF SF) : Prop :=
  match rt with RtReadiness (Some f) => RI 0 true f | RtShutdown (Some f) => SI true f | _ => True end.

(** What holds of the task with index [k]. *)
Definition call_task (c : option (CallFut Req RF CF * option poll_info)) k s : Prop :=
  match c with
  | None => wt_cur s <> Some k
  | Some (st, g) =>
      (exists o, call_ok RI CI k o st /\ (wt_cur s = Some k -> o = true)) /\
      (call_waits st -> exists x, g = Some x /\ claim k x s) /\
      (wt_cur s = Some k -> exists x n, g = Some (x, n, true))
  end.
Definition task_ok calls main (rt : RuntimeState RF SF) k s : Prop :=
  if (k =? 0)%nat then
    (forall x, main = Some x -> claim 0 x s) /\
    (wt_cur s = Some 0%nat -> (exists f, rt = RtReadiness (Some f)) /\ exists x n, main = Some (x, n, true))
  else call_task (calls !! k) k s.
Lemma task_ok_ne calls main rt k s : k <> 0%nat -> task_ok calls main rt k s = call_task (calls !! k) k s.
Proof. intros Hk. unfold task_ok. by rewrite (proj2 (Nat.eqb_neq _ _)). Qed.

Record pl_inv (y : PlSys W Req RF CF) (p : PlInner T RF SF) : Prop := {
  pv_world : WI (ps_world y);
  pv_get : hp_get (ps_world y) = Some p;
  pv_refs : pn_refs p = S (size (ps_calls y));
  pv_zero : ps_calls y !! 0%nat = None;
  pv_reg k : registered (pn_waiters p) k <-> k = 0%nat \/ is_Some (ps_calls y !! k);
  pv_running : wt_running (pn_waiters p) = false;
  pv_rt : rt_ok (pn_rt p);
  pv_task k : task_ok (ps_calls y) (ps_main y) (pn_rt p) k (pn_waiters p);
}.

Lemma task_mono calls main rt k s s' :
  (forall x, claim k x s -> claim k x s') -> (wt_cur s' = Some k -> wt_cur s = Some k) -> task_ok calls main rt k s -> task_ok calls main rt k s'.
Proof.
  intros Hcl Hc. unfold task_ok. destruct (Nat.eqb_spec k 0) as [->|]; [intros [H1 H2]; split; auto|]. unfold call_task.
  destruct (calls !! k) as [[st g]|]; [|auto]. intros ((o & Ho & Ho') & Hw & Hg). split_and!; [exists o; auto| |auto].
  intros Hwt. destruct (Hw Hwt) as (x & Hx & Hclx). eauto.
Qed.
Lemma task_steps calls main rt k i wk s s' :
  ctx_steps i wk s s' -> k <> i \/ wk = None -> task_ok calls main rt k s -> task_ok calls main rt k s'.
Proof.
  intros Hs Hk. apply task_mono; [intros x; by eapply steps_claim|]. intros E. apply steps_steady in Hs as [_ _ Hc _].
  destruct (Hc k E) as [?|[-> [? ?]]]; [done|]. destruct Hk; congruence.
Qed.
Lemma task_notify calls main rt k s : task_ok calls main rt k s -> task_ok calls main rt k (waiters_notify s).
Proof. apply task_mono; [intros x; apply notify_claim|]. by destruct (notify_spec s) as (_ & -> & _). Qed.

Lemma reg_steps i wk s s' k : ctx_steps i wk s s' -> registered s' k <-> registered s k.
Proof. intros Hs. by apply steps_steady in Hs as [? _ _ _]. Qed.
Lemma running_steps i wk s s' : ctx_steps i wk s s' -> wt_running s' = wt_running s.
Proof. intros Hs. by apply steps_steady in Hs as [_ ? _ _]. Qed.

Lemma inv_in_use y p k : pl_inv y p -> k = 0%nat \/ is_Some (ps_calls y !! k) -> in_use (T := T) (PRF := RF) (PSF := SF) k false (ps_world y).
Proof. intros Hy Hk p' Hp'. rewrite (pv_get _ _ Hy) in Hp'. injection Hp' as <-. split; [by apply (pv_reg _ _ Hy)|apply Hy]. Qed.
Lemma inv_info y p k x : pl_inv y p -> info_of k x (ps_world y) = Some (x, length (wt_woken (pn_waiters p)), can_check k (pn_waiters p)).
Proof. intros Hy. unfold info_of. by rewrite (pv_get _ _ Hy). Qed.

Lemma owner_can_check i x s s' : ctx_steps i (Some x) s s' -> wt_cur s' = Some i -> can_check i s = true.
Proof.
  intros Hs E. destruct (can_check i s) eqn:Hcc; [done|]. unfold can_check in Hcc. destruct (wt_cur s) as [j|] eqn:Ej; [|done].
  apply bool_decide_eq_false in Hcc. pose proof (steps_other _ _ _ _ j Hs Ej Hcc). congruence.
Qed.

(** ** Calls *)

Definition goes (o : outcome (PlSys W Req RF CF)) : Prop := exists y p, o = Done y /\ pl_inv y p.

Lemma insert_entry (ix : T (option waker)) k : k <> (slab_insert None ix).1 -> slab_map (slab_insert None ix).2 !! k = slab_map ix !! k.
Proof. intros Hk. rewrite slab_map_insert. by rewrite lookup_insert_ne. Qed.

Lemma step_call ready r y p : pl_inv y p -> goes (pl_step (PoCall ready r) y).
Proof.
  intros Hy. destruct y as [w calls main]. cbn [pl_step ps_world ps_calls ps_main]. pose proof (pv_get _ _ Hy) as Hp. cbn in Hp.
  unfold pl_call, pl_bind, api_reg, api_clone, on_waiters, on_inner, mbind, M_bind. rewrite Hp. unfold waiters_insert.
  destruct (slab_insert None (wt_indexes (pn_waiters p))) as [i ix] eqn:Hins. rewrite hp_get_set. cbn [modifyS mret M_ret pc_idx pc_fut pn_refs pn_waiters pn_rt].
  rewrite hp_set_set. set (s := mkWaiters _ _ _ _ ix _).
  assert (slab_map (wt_indexes (pn_waiters p)) !! i = None) as Hvac. { pose proof (slab_insert_vacant None (wt_indexes (pn_waiters p))) as Hv. by rewrite Hins in Hv. }
  assert (slab_map ix = <[i := None]> (slab_map (wt_indexes (pn_waiters p)))) as Hix. { pose proof (slab_map_insert None (wt_indexes (pn_waiters p))) as Hm. by rewrite Hins in Hm. }
  assert (i <> 0%nat /\ calls !! i = None) as [Hi0 Hci].
  { assert (~ registered (pn_waiters p) i) as Hn by (intros [? ?]; unfold entry in *; congruence). rewrite (pv_reg _ _ Hy) in Hn. cbn in Hn.
    split; [intros ->; apply Hn; by left|]. apply eq_None_not_Some. intros ?. apply Hn. by right. }
  assert (forall k, k <> i -> entry s k = entry (pn_waiters p) k) as Hent by (intros k Hk; unfold entry; cbn; rewrite Hix; by rewrite lookup_insert_ne).
  eexists _, (mkPlInner (S (pn_refs p)) s (pn_rt p)). split; [done|]. split; cbn [ps_world ps_calls ps_main pn_refs pn_waiters pn_rt].
  - apply ul_world, Hy.
  - apply hp_get_set.
  - rewrite (pv_refs _ _ Hy). cbn. by rewrite map_size_insert_None.
  - rewrite lookup_insert_ne by done. apply Hy.
  - intros k. destruct (decide (k = i)) as [->|Hk].
    + rewrite lookup_insert_eq. unfold registered, entry. cbn. rewrite Hix, lookup_insert_eq. split; [right; by eexists|by eexists].
    + rewrite lookup_insert_ne by done. unfold registered. rewrite Hent by done. apply (pv_reg _ _ Hy).
  - apply Hy.
  - apply Hy.
  - intros k. pose proof (pv_task _ _ Hy k) as Hk. destruct (decide (k = i)) as [->|Hne].
    + rewrite task_ok_ne in Hk |- * by done. cbn [ps_calls] in Hk. rewrite Hci in Hk. rewrite lookup_insert_eq.
      split_and!; [exists false; split; [by destruct ready|done]|intros (c & q & E); by destruct ready|done].
    + apply (task_mono _ _ _ _ (pn_waiters p) s) in Hk; [..|done].
      * unfold task_ok in *. by rewrite lookup_insert_ne.
      * intros [[x n] ran]. unfold claim. by rewrite Hent.
Qed.

Lemma step_poll i x y p : pl_inv y p -> goes (pl_step (PoPoll i x) y).
Proof.
  intros Hy. cbn [pl_step]. destruct (ps_calls y !! i) as [[st g]|] eqn:Hi; [|by exists y, p].
  assert (st = CsDone \/ st <> CsDone) as [->|Hnd] by (destruct st; [by right..|by left]); [by exists y, p|].
  assert (i <> 0%nat) as Hi0. { intros ->. pose proof (pv_zero _ _ Hy). congruence. }
  pose proof (pv_task _ _ Hy i) as Ht. rewrite task_ok_ne, Hi in Ht by done. destruct Ht as ((o & Ho & Hoc) & _).
  destruct (ctx_call_poll_spec WI RI CI SI i o x st (ps_world y) p Ho Hnd) with (p := p) as ([r st'] & w' & He & Hw' & s' & Hp' & Hs & Hc & _);
    [by apply (inv_in_use y p); [|right; eexists]|intros q Hq; rewrite (pv_get _ _ Hy) in Hq; by injection Hq as <-|apply Hy|apply Hy|apply Hy|].
  assert (pl_step (PoPoll i x) y = Done (mkPlSys w' (<[i := (st', info_of i x (ps_world y))]> (ps_calls y)) (ps_main y))) as Hstep.
  { cbn [pl_step]. rewrite Hi. unfold pipeline_call_poll, mbind, M_bind. cbn [pc_idx pc_fut]. rewrite He. by destruct st. }
  cbn [pl_step] in Hstep. rewrite Hi in Hstep. eexists _, (with_waiters p s'). split; [exact Hstep|].
  rewrite (inv_info _ _ i x Hy). split; cbn [ps_world ps_calls ps_main with_waiters pn_refs pn_waiters pn_rt]; [done|done|..].
  - rewrite map_size_insert_Some by (by eexists). apply Hy.
  - rewrite lookup_insert_ne by done. apply Hy.
  - intros k. rewrite (reg_steps _ _ _ _ _ Hs), (pv_reg _ _ Hy). destruct (decide (k = i)) as [->|]; [rewrite lookup_insert_eq, Hi; naive_solver|by rewrite lookup_insert_ne].
  - rewrite (running_steps _ _ _ _ Hs). apply Hy.
  - apply Hy.
  - intros k. destruct (decide (k = i)) as [->|Hne].
    + rewrite task_ok_ne, lookup_insert_eq by done. destruct Hc as [Ho' Hcl]. split_and!; [done|intros Hwt; eauto|].
      intros E. rewrite (owner_can_check _ _ _ _ Hs E). by eauto.
    + pose proof (pv_task _ _ Hy k) as Hk. apply (task_steps _ _ _ k i (Some x) _ s' Hs) in Hk; [|by left]. unfold task_ok in *. by rewrite lookup_insert_ne.
Qed.

(** The waiters without the index [i]. *)
Lemma remove_spec i s :
  registered s i -> exists s', waiters_remove i s = Done (tt, s') /\ (forall k, registered s' k <-> registered s k /\ k <> i) /\
    wt_running s' = wt_running s /\ wt_cur s' <> Some i /\ (forall k x, k <> i -> claim k x s -> claim k x s') /\
    (forall k, wt_cur s' = Some k -> wt_cur s = Some k).
Proof.
  intros Hr. unfold waiters_remove. rewrite slab_contains_map, bool_decide_true by done. eexists. split; [done|].
  set (s1 := mkWaiters _ _ _ _ (slab_remove _ _) _).
  assert (forall k, k <> i -> entry s1 k = entry s k) as Hent by (intros k Hk; unfold entry; cbn; rewrite slab_map_remove; by rewrite lookup_delete_ne).
  assert (entry s1 i = None) as Hi by (unfold entry; cbn; by rewrite slab_map_remove, lookup_delete_eq).
  assert (forall k, registered s1 k <-> registered s k /\ k <> i) as Hreg.
  { intros k. unfold registered. destruct (decide (k = i)) as [->|Hk]; [rewrite Hi; split; [by intros [? ?]|by intros [_ ?]]|rewrite Hent by done; naive_solver]. }
  assert (forall k x, k <> i -> claim k x s -> claim k x s1) as Hcl by (intros k [[x n] ran] Hk; unfold claim; by rewrite Hent).
  case_bool_decide as Hc.
  - destruct (notify_spec s1) as (Hr1 & Hn & _). split_and!; [intros k; by rewrite Hr1|unfold waiters_notify; by destruct (wake_indexes _ _ _)|by rewrite Hn| |by rewrite Hn].
    intros k x Hk Hx. by apply notify_claim, Hcl.
  - split_and!; done.
Qed.

Lemma pl_step_drop i y p : pl_inv y p -> goes (pl_step (PoDrop i) y).
Proof.
  intros Hy. cbn [pl_step]. destruct (ps_calls y !! i) as [[st g]|] eqn:Hi; [|by exists y, p].
  assert (i <> 0%nat) as Hi0. { intros ->. pose proof (pv_zero _ _ Hy). congruence. }
  pose proof (pv_task _ _ Hy i) as Ht. rewrite task_ok_ne, Hi in Ht by done. destruct Ht as ((o & Ho & _) & _).
  destruct (remove_spec i (pn_waiters p)) as (s1 & Hrm & Hreg & Hrun & Hcur & Hcl & Hkeep); [apply (pv_reg _ _ Hy); right; by eexists|].
  set (w1 := hp_set (Some (mkPlInner (pred (pn_refs p)) s1 (pn_rt p))) (ps_world y)).
  assert (size (ps_calls y) = S (size (delete i (ps_calls y)))) as Hsz by (rewrite map_size_delete_Some by (by eexists); assert (size (ps_calls y) <> 0%nat); [apply map_size_ne_0_lookup; by exists i|lia]).
  assert (binding_drop i (ps_world y) = Done (tt, w1)) as Hb.
  { unfold binding_drop, api_unreg, api_drop, on_waiters, on_inner, mbind, M_bind. rewrite (pv_get _ _ Hy), Hrm, hp_get_set. cbn. rewrite hp_get_set. cbn.
    rewrite (pv_refs _ _ Hy), Hsz. cbn. rewrite !hp_set_set. subst w1. by rewrite (pv_refs _ _ Hy), Hsz. }
  destruct (call_fut_drop_spec WI RI CI SI i o st w1 Ho (mkPlInner (pred (pn_refs p)) s1 (pn_rt p))) as ([] & w2 & He & Hw2 & s2 & Hp2 & Hs2 & _);
    [apply ul_world, Hy|apply hp_get_set|].
  unfold pipeline_call_drop, mbind, M_bind. cbn [pc_idx pc_fut]. rewrite Hb, He. eexists _, _. split; [done|].
  split; cbn [ps_world ps_calls ps_main pn_refs pn_waiters pn_rt]; [done|exact Hp2|cbn..].
  - rewrite (pv_refs _ _ Hy), Hsz. done.
  - rewrite lookup_delete_ne by done. apply Hy.
  - intros k. rewrite (reg_steps _ _ _ _ _ Hs2). cbn. rewrite Hreg, (pv_reg _ _ Hy). destruct (decide (k = i)) as [->|]; [rewrite lookup_delete_eq|rewrite lookup_delete_ne by done; naive_solver].
    split; [by intros [_ ?]|]. by intros [->|[? ?]].
  - rewrite (running_steps _ _ _ _ Hs2). cbn. rewrite Hrun. apply Hy.
  - apply Hy.
  - intros k. apply (task_steps _ _ _ k i None _ s2 Hs2); [by right|]. cbn. destruct (decide (k = i)) as [->|Hne].
    + rewrite task_ok_ne, lookup_delete_eq by done. done.
    + pose proof (pv_task _ _ Hy k) as Hk. apply (task_mono _ _ _ _ (pn_waiters p) s1) in Hk; [|auto|auto]. unfold task_ok in *. by rewrite lookup_delete_ne.
Qed.

Definition env_ok (op : M W ()) : Prop := forall w, WI w -> runs op w (fun _ w' => WI w' /\ hp_get w' = hp_get w).
Lemma step_world op y p : env_ok op -> pl_inv y p -> goes (pl_step (PoWorld op) y).
Proof.
  intros Hop Hy. cbn [pl_step]. destruct (Hop (ps_world y)) as ([] & w' & He & Hw' & Hg); [apply Hy|]. rewrite He. eexists _, p. split; [done|].
  destruct Hy. split; try done. cbn. by rewrite Hg.
Qed.

(** ** The readiness of the pipeline *)

Lemma check_future_spec x fut w p :
  WI w -> hp_get w = Some p -> rt_ok (RtReadiness fut) -> in_use (T := T) (PRF := RF) (PSF := SF) 0 true w ->
  runs (f ← match fut with Some f => mret f | None => us_ready 0 end;
        '(r, f) ← us_ready_poll x f;
        (if poll_is_ready r then us_ready_drop f;; set_rt (RtReadiness None) else set_rt (RtReadiness (Some f)));;
        mret (r, tt)) w (fun a w' => WI w' /\ exists s' fut', hp_get w' = Some (mkPlInner (pn_refs p) s' (RtReadiness fut')) /\
    ctx_steps 0 (Some x) (pn_waiters p) s' /\ rt_ok (RtReadiness fut') /\ (a.1 = Pending -> is_Some fut')).
Proof.
  intros Hw Hp Hrt Hu.
  assert (moves (T := T) (PRF := RF) (PSF := SF) WI 0 (Some x) (f ← match fut with Some f => mret f | None => us_ready 0 end; us_ready_poll x f)
    (fun a _ => RI 0 (negb (poll_is_ready a.1)) a.2) w) as Hm.
  { apply (moves_bind _ _ _ _ _ (fun f _ => RI 0 true f)).
    - destruct fut as [f|]; [by apply moves_ret|]. eapply moves_conseq; [apply (moves_none _ 0 (Some x)); [apply ul_ready|exact Hp]|]. by intros f p' s' _ _ [? _].
    - intros f w' p' s' Hp' Hs' Hw' Hf. apply ul_ready_poll; [done|]. by eapply in_use_steps. }
  destruct (Hm p Hw Hp) as ([r f] & w1 & He & Hw1 & s1 & Hp1 & Hs1 & Hf). cbn [snd] in Hf. apply bind_done in He as (f0 & w0 & He0 & He1).
  apply runs_bind. eapply runs_eq; [exact He0|]. apply runs_bind. eapply runs_eq; [exact He1|]. apply runs_bind. destruct r as [|res]; cbn [poll_is_ready].
  - eapply set_rt_spec; [exact Hp1|]. apply runs_ret. split; [by apply ul_world|]. eexists _, (Some f). split; [by rewrite hp_get_set|]. split; [done|]. split; [done|by eexists].
  - apply runs_bind. destruct (ul_ready_drop 0 _ f w1 Hf _ Hw1 Hp1) as ([] & w2 & He2 & Hw2 & s2 & Hp2 & Hs2 & _). eapply runs_eq; [exact He2|].
    eapply set_rt_spec; [exact Hp2|]. apply runs_ret. split; [by apply ul_world|]. eexists _, None. split; [by rewrite hp_get_set|].
    split; [etrans; [exact Hs1|by apply steps_none]|done].
Qed.

Lemma check_poll_spec x fut w p :
  WI w -> hp_get w = Some p -> pn_rt p = RtReadiness fut -> rt_ok (RtReadiness fut) -> in_use (T := T) (PRF := RF) (PSF := SF) 0 false w ->
  runs (check_poll x fut) w (fun r w' => WI w' /\ exists s' fut', hp_get w' = Some (mkPlInner (pn_refs p) s' (RtReadiness fut')) /\
    ctx_steps 0 (Some x) (pn_waiters p) s' /\ rt_ok (RtReadiness fut') /\ polled 0 x (pn_waiters p) r s' /\
    (r = Pending -> can_check 0 (pn_waiters p) = true -> is_Some fut')).
Proof.
  intros Hw Hp Hrt Hok Hu. unfold check_poll. destruct (Hu p Hp) as [Hr Hb]. apply runs_bind. destruct (can_check 0 (pn_waiters p)) eqn:Hc.
  - eapply run_check_spec; [done|done|done|]. set (w1 := hp_set _ w).
    assert (hp_get w1 = Some (with_waiters p (run_start 0 x (pn_waiters p)))) as Hp1 by apply hp_get_set.
    eapply runs_conseq; [eapply (check_future_spec x fut w1); [by apply ul_world|exact Hp1|done|]|].
    { intros p1 E. rewrite Hp1 in E. injection E as <-. cbn. split; [|done]. change (registered (set_index 0 (Some x) (pn_waiters p)) 0).
      unfold registered. rewrite entry_set by done. rewrite bool_decide_true by done. by eexists. }
    intros [r []] w2 (Hw2 & s2 & fut' & Hp2 & Hs2 & Hf' & Hpend). eexists. split; [exact Hp2|]. apply runs_ret. split; [by apply ul_world|].
    eexists _, fut'. split; [by rewrite hp_get_set|]. destruct (run_steps 0 x r (pn_waiters p) s2 Hr Hc Hs2) as [Hs Hpo]. split_and!; [exact Hs|done|by apply Hpo|].
    intros E _. by apply Hpend.
  - eapply run_wait_spec; [done|done|done|]. apply runs_ret. split; [by apply ul_world|]. destruct (wait_steps 0 x (pn_waiters p) Hr Hc) as [Hs Hpo].
    eexists _, fut. split; [rewrite hp_get_set; unfold with_waiters; by rewrite Hrt|]. split_and!; done.
Qed.

(** What a poll of the readiness comes to: nothing after the shutdown. *)
Definition readied x w (p : PlInner T RF SF) (r : Poll (() + Err)) w' : Prop :=
  (r = Ready (inl tt) /\ w' = w /\ forall f, pn_rt p <> RtReadiness f) \/
  (WI w' /\ exists s' fut', hp_get w' = Some (mkPlInner (pn_refs p) s' (RtReadiness fut')) /\
    ctx_steps 0 (Some x) (pn_waiters p) s' /\ rt_ok (RtReadiness fut') /\ polled 0 x (pn_waiters p) r s' /\
    (r = Pending -> can_check 0 (pn_waiters p) = true -> is_Some fut')).
Lemma poll_ready_spec x w p :
  WI w -> hp_get w = Some p -> rt_ok (pn_rt p) -> in_use (T := T) (PRF := RF) (PSF := SF) 0 false w -> runs (pl_poll_ready x) w (readied x w p).
Proof.
  intros Hw Hp Hok Hu. unfold pl_poll_ready. apply runs_bind. eapply get_rt_spec; [done|]. destruct (pn_rt p) as [|fut|fut|] eqn:Hrt.
  - apply runs_bind. eapply set_rt_spec; [done|]. set (p1 := mkPlInner (pn_refs p) (pn_waiters p) (RtReadiness None)).
    eapply runs_conseq; [apply (check_poll_spec x None _ p1); [by apply ul_world|apply hp_get_set|done|done|]|].
    { intros q Hq. rewrite hp_get_set in Hq. injection Hq as <-. by apply (Hu p). }
    intros r w' Hr. by right.
  - eapply runs_conseq; [by apply (check_poll_spec x fut w p)|]. intros r w' Hr. by right.
  - apply runs_ret. left. split; [done|]. split; [done|]. congruence.
  - apply runs_ret. left. split; [done|]. split; [done|]. congruence.
Qed.

Lemma step_ready x y p : pl_inv y p -> goes (pl_step (PoReady x) y).
Proof.
  intros Hy. destruct y as [w calls main]. pose proof (pv_get _ _ Hy) as Hp. cbn in Hp.
  destruct (poll_ready_spec x w p) as (r & w' & He & Hr); [apply Hy|done|apply Hy|apply (inv_in_use _ p 0 Hy); by left|].
  cbn [pl_step ps_world ps_calls ps_main]. rewrite He. destruct Hr as [(-> & -> & Hnr)|(Hw' & s' & fut' & Hp' & Hs & Hf' & Hpo & Hpend)].
  - eexists _, p. split; [done|]. destruct Hy as [? ? ? ? ? ? ? Ht]. split; try done. intros k. specialize (Ht k). cbn in *. destruct k as [|k]; [|done].
    split; [done|]. intros E. destruct Ht as [_ Ht]. destruct (Ht E) as [[f Hf] _]. by destruct (Hnr (Some f)).
  - eexists _, (mkPlInner (pn_refs p) s' (RtReadiness fut')). split; [done|]. destruct Hy as [? ? Hrefs ? Hreg Hrun ? Ht].
    split; cbn [ps_world ps_calls ps_main pn_refs pn_waiters pn_rt]; try done.
    + intros k. rewrite (reg_steps _ _ _ _ _ Hs). apply Hreg.
    + rewrite (running_steps _ _ _ _ Hs). done.
    + intros k. destruct (decide (k = 0%nat)) as [->|Hk].
      * cbn. destruct r as [|res]; [|split; [done|cbn in Hpo; by rewrite Hpo]]. unfold info_of. rewrite Hp. split; [by intros ? [= <-]|]. intros E.
        pose proof (owner_can_check _ _ _ _ Hs E) as Hcc. destruct Hpend as [f ->]; [done|done|]. rewrite Hcc. by eauto 6.
      * specialize (Ht k). cbn in Ht. apply (task_steps _ _ _ k 0 (Some x) _ s' Hs) in Ht; [|by left]. by rewrite task_ok_ne in Ht |- * by done.
Qed.

(** ** Shutdown *)

Lemma task_rt calls main rt rt' k s : wt_cur s <> Some 0%nat -> task_ok calls main rt k s -> task_ok calls main rt' k s.
Proof. intros Hc. unfold task_ok. destruct (k =? 0)%nat; [|done]. intros [H1 _]. split; [done|]. by intros. Qed.

Lemma shutdown_poll_spec x fut w p :
  WI w -> hp_get w = Some p -> rt_ok (RtShutdown fut) ->
  runs (shutdown_poll x fut) w (fun _ w' => WI w' /\ exists s' rt', hp_get w' = Some (mkPlInner (pn_refs p) s' rt') /\
    ctx_steps 0 None (pn_waiters p) s' /\ rt_ok rt').
Proof.
  intros Hw Hp Hok. unfold shutdown_poll. apply runs_bind.
  apply (runs_conseq _ _ (fun f w1 => SI true f /\ WI w1 /\ exists s1, hp_get w1 = Some (with_waiters p s1) /\ ctx_steps 0 None (pn_waiters p) s1)).
  { destruct fut as [f|]; [apply runs_ret; split_and!; [done..|]; exists (pn_waiters p); by rewrite with_waiters_same|].
    eapply runs_conseq; [by apply ul_shutdown|]. intros f w1 (Hw1 & s1 & Hp1 & Hs1 & Hf). split_and!; [done..|]. by exists s1. }
  intros f w1 (Hf & Hw1 & s1 & Hp1 & Hs1). apply runs_bind. eapply runs_conseq; [by apply (ul_shutdown_poll x f w1)|].
  intros [r f'] w2 (Hw2 & s2 & Hp2 & Hs2 & Hf'). cbn in *. apply runs_bind. destruct (poll_is_ready r).
  - apply runs_bind. eapply runs_conseq; [by apply (ul_shutdown_drop false f' w2)|]. intros [] w3 (Hw3 & s3 & Hp3 & Hs3 & _). eapply set_rt_spec; [exact Hp3|]. apply runs_ret.
    split; [by apply ul_world|]. eexists _, RtDone. rewrite hp_get_set. split; [done|]. split; [|done]. etrans; [exact Hs1|]. by etrans.
  - eapply set_rt_spec; [exact Hp2|]. apply runs_ret. split; [by apply ul_world|]. eexists _, (RtShutdown (Some f')). rewrite hp_get_set. split; [done|]. split; [by etrans|done].
Qed.

Lemma check_drop_spec fut w p :
  WI w -> hp_get w = Some p -> rt_ok (RtReadiness fut) ->
  runs (check_drop fut) w (fun _ w' => WI w' /\ exists s', hp_get w' = Some (with_waiters p s') /\
    (forall k, registered s' k <-> registered (pn_waiters p) k) /\ wt_running s' = wt_running (pn_waiters p) /\
    (forall k x, claim k x (pn_waiters p) -> claim k x s') /\ (forall k, wt_cur s' = Some k -> wt_cur (pn_waiters p) = Some k /\ fut = None)).
Proof.
  intros Hw Hp Hok. destruct fut as [f|]; cbn [check_drop].
  - apply runs_bind. eapply on_waiters_modify; [done|].
    destruct (notify_spec (pn_waiters p)) as (Hreg & Hcur & _).
    eapply runs_conseq; [apply (ul_ready_drop 0 true f); [done|by apply ul_world|apply hp_get_set]|]. intros [] w2 (Hw2 & s2 & Hp2 & Hs2 & _).
    split; [done|]. exists s2. split; [done|]. cbn in Hs2. split_and!.
    + intros k. by rewrite (reg_steps _ _ _ _ _ Hs2), Hreg.
    + rewrite (running_steps _ _ _ _ Hs2). unfold waiters_notify. by destruct (wake_indexes _ _ _).
    + intros k x Hx. eapply steps_claim; [exact Hs2|by right|]. by apply notify_claim.
    + intros k E. apply (steps_none_cur _ _ _ Hs2) in E. congruence.
  - apply runs_ret. split; [done|]. exists (pn_waiters p). rewrite with_waiters_same. by split_and!.
Qed.

Lemma task_shutdown calls main rt k s : task_ok calls main rt k s -> task_ok calls main rt k (waiters_shutdown s).
Proof. apply task_mono; [|done]. by intros [[x n] ran]. Qed.

(** The end of a poll of the shutdown. *)
Lemma shutdown_end x fut calls main w p rt0 :
  WI w -> hp_get w = Some p -> rt_ok (RtShutdown fut) -> pn_refs p = S (size calls) -> calls !! 0%nat = None ->
  (forall k, registered (pn_waiters p) k <-> k = 0%nat \/ is_Some (calls !! k)) -> wt_running (pn_waiters p) = false ->
  wt_cur (pn_waiters p) <> Some 0%nat -> (forall k, task_ok calls main rt0 k (pn_waiters p)) ->
  exists r y p', shutdown_poll x fut w = Done (r, ps_world y) /\ y = mkPlSys (ps_world y) calls main /\ pl_inv y p'.
Proof.
  intros Hw Hp Hok Hrefs Hz Hreg Hrun Hcur Ht. destruct (shutdown_poll_spec x fut w p) as (r & w' & He & Hw' & s' & rt' & Hp' & Hs & Hrt'); [done..|].
  eexists r, (mkPlSys w' calls main), _. split; [done|]. split; [done|]. split; cbn [ps_world ps_calls ps_main]; [done|exact Hp'|cbn..]; [done|done| | |done|].
  - intros k. by rewrite (reg_steps _ _ _ _ _ Hs).
  - by rewrite (running_steps _ _ _ _ Hs).
  - intros k. apply (task_rt _ _ rt0); [intros E; by apply (steps_none_cur _ _ _ Hs) in E|]. eapply task_steps; [exact Hs|by right|done].
Qed.

Lemma step_shutdown x y p : pl_inv y p -> goes (pl_step (PoShutdown x) y).
Proof.
  intros Hy. destruct y as [w calls main]. destruct Hy as [Hw Hp Hrefs Hz Hreg Hrun Hrt Ht]. cbn in *. unfold goes.
  assert (runs (pl_poll_shutdown x) w (fun _ w' => exists p', pl_inv (mkPlSys w' calls main) p')) as (r & w' & -> & p' & Hp'); [|by exists (mkPlSys w' calls main), p'].
  unfold pl_poll_shutdown. apply runs_bind. eapply get_rt_spec; [done|].
  assert (forall fut, rt_ok (RtReadiness fut) -> (wt_cur (pn_waiters p) = Some 0%nat -> is_Some fut) ->
    runs (check_drop fut;; set_rt (RtShutdown None);; on_waiters (modifyS waiters_shutdown);; shutdown_poll x None) w
      (fun _ w' => exists p', pl_inv (mkPlSys w' calls main) p')) as Hstart.
  { intros fut Hfut Hc0. apply runs_bind. eapply runs_conseq; [by apply (check_drop_spec fut w p)|]. intros [] w1 (Hw1 & s1 & Hp1 & Hreg1 & Hrun1 & Hcl1 & Hcur1).
    apply runs_bind. eapply set_rt_spec; [exact Hp1|]. apply runs_bind. eapply on_waiters_modify; [apply hp_get_set|]. rewrite hp_set_set.
    set (p2 := mkPlInner _ _ _). destruct (shutdown_end x None calls main (hp_set (Some p2) w1) p2 (pn_rt p)) as (r & y & p' & He & Ey & Hy');
      [by apply ul_world|apply hp_get_set|done|done|done|intros k; change (registered s1 k <-> k = 0%nat \/ is_Some (calls !! k)); by rewrite Hreg1|cbn; by rewrite Hrun1| | |].
    - cbn. intros E. destruct (Hcur1 _ E) as [E' ->]. by destruct (Hc0 E').
    - intros k. cbn. apply task_shutdown. apply (task_mono _ _ _ _ (pn_waiters p)); [auto|intros E; by apply Hcur1|done].
    - exists r, (ps_world y). split; [done|]. exists p'. by rewrite <- Ey. }
  destruct (pn_rt p) as [|fut|fut|] eqn:Ert.
  - apply Hstart; [done|]. intros E. destruct (Ht 0%nat) as [_ H0]. destruct (H0 E) as [[f Hf] _]. done.
  - apply Hstart; [done|]. intros E. destruct (Ht 0%nat) as [_ H0]. destruct (H0 E) as [[f [= ->]] _]. by eexists.
  - destruct (shutdown_end x fut calls main w p (RtShutdown fut)) as (r & y & p' & He & Ey & Hy'); [done..| |done|].
    + intros E. destruct (Ht 0%nat) as [_ H0]. by destruct (H0 E) as [[f ?] _].
    + exists r, (ps_world y). split; [done|]. exists p'. by rewrite <- Ey.
  - apply runs_ret. exists p. split; try done; cbn; by rewrite Ert.
Qed.
End inv.

(** ** A concrete service in a pipeline

    The instances of [HasPipeline] and [UserService] with which the theorems
    about pipelines and about services made of services are evaluated. *)

(** ** A concrete service *)

(** It is ready when its gate is open, and answers at once; its futures have
    no state, but for the argument of a call. *)
Record GateWorld (RF SF : Type) := mkGateWorld { gw_open : bool; gw_pl : option (PlInner map_slab RF SF) }.
Arguments mkGateWorld {RF SF}.
Arguments gw_open {RF SF}.
Arguments gw_pl {RF SF}.

Section gate.
Context {RF SF : Type}.
Implicit Types w : GateWorld RF SF.

#[export] Instance gate_pipeline : HasPipeline map_slab RF SF (GateWorld RF SF) := { hp_get := gw_pl; hp_set p w := mkGateWorld (gw_open w) p }.
#[export] Instance gate_pipeline_laws : HasPipelineLaws map_slab RF SF (GateWorld RF SF).
Proof. split; [done|done|by intros []]. Qed.

#[export] Instance gate_service : UserService (GateWorld RF SF) Z Z () () Z () := {
  us_ready _ := mret tt;
  us_ready_poll _ f := o ← getsS gw_open; mret (if (o : bool) then Ready (inl tt) else Pending, f);
  us_ready_drop _ := mret tt;
  us_call _ r := mret r;
  us_call_poll _ r := mret (Ready (inl r), r);
  us_call_drop _ := mret tt;
  us_shutdown _ := mret tt;
  us_shutdown_poll _ f := mret (Ready tt, f);
  us_shutdown_drop _ := mret tt;
}.

Lemma gate_moves {A} i wk (op : M (GateWorld RF SF) A) (P : A -> Waiters map_slab -> Prop) w :
  (exists a, op w = Done (a, w) /\ forall s, P a s) -> moves (T := map_slab) (PRF := RF) (PSF := SF) (fun _ => True) i wk op P w.
Proof. intros (a & He & HP) p _ Hp. exists a, w. split; [done|]. split; [done|]. exists (pn_waiters p). split; [by destruct p|done]. Qed.

#[export] Instance gate_laws : UserServiceLaws (T := map_slab) (PRF := RF) (PSF := SF) (fun _ : GateWorld RF SF => True) (fun _ _ _ => True) (fun _ _ o _ => o = false) (fun _ _ => True).
Proof.
  split; [done|..]; try (intros; apply gate_moves; by eexists).
  - intros i o wk f w -> Hu Hh p _ Hp. eexists _, w. split; [done|]. split; [done|]. exists (pn_waiters p). split; [by destruct p|]. split; [done|].
    exists false. split; [done|]. by apply Hh.
  - intros i l o f w ->. apply gate_moves. by eexists.
Qed.

Definition gate (o : bool) : M (GateWorld RF SF) () := modifyS (fun w => mkGateWorld o (gw_pl w)).
Lemma gate_ok o : env_ok (fun _ => True) (gate o).
Proof. intros w _. apply runs_modify. done. Qed.
End gate.
