(* ===== verification/PipelineProps.v ===== *)
(** * Pipelines: the properties

    Programs of [PipelineSystem.v] for any service that meets its contract,
    and concrete ones. *)
From Stdlib Require Import ZArith Lia.
From stdpp Require Import base numbers gmap list relations.
From S2P Require Import Prelude Deps Task IoBuf Pipeline PipelineInv PipelineSystem.

Section props.
Context {T : Type -> Type} `{!Slab T} `{!SlabLaws T} {W Req Res Err RF CF SF : Type}.
Context `{!HasPipeline T RF SF W} `{!HasPipelineLaws T RF SF W} `{!UserService W Req Res Err RF CF SF}.
Context (WI : W -> Prop) (RI : nat -> bool -> RF -> Prop) (CI : nat -> bool -> bool -> CF -> Prop) (SI : bool -> SF -> Prop) `{!UserServiceLaws (T := T) (PRF := RF) (PSF := SF) WI RI CI SI}.
Implicit Types (y : PlSys W Req RF CF) (p : PlInner T RF SF).

Definition pl_op_ok (op : pl_op W Req) : Prop := match op with PoWorld op => env_ok WI op | _ => True end.

Lemma pl_new_inv w : WI w -> exists p, pl_inv WI RI CI SI (pl_sys w : PlSys W Req RF CF) p.
Proof.
  intros Hw. exists pipeline_new. split; cbn [ps_world ps_calls ps_main pl_sys]; [by apply ul_world|apply hp_get_set|done|done| |done|done|].
  - intros k. unfold registered, entry. cbn [wt_indexes pn_waiters pipeline_new waiters_new]. rewrite slab_map_insert, slab_insert_default, slab_map_default.
    destruct (decide (k = 0%nat)) as [->|Hk]; [rewrite lookup_insert_eq; split; [by left|by eexists]|].
    rewrite lookup_insert_ne by done. rewrite !lookup_empty. split; [by intros [? ?]|]. by intros [?|[? ?]].
  - intros k. unfold task_ok. destruct (k =? 0)%nat; [by split|]. by rewrite lookup_empty.
Qed.

Lemma pl_step_inv op y p : pl_op_ok op -> pl_inv WI RI CI SI y p -> goes WI RI CI SI (pl_step op y).
Proof.
  intros Hop Hy. destruct op; [by eapply step_ready|by eapply step_shutdown|by eapply step_call|by eapply step_poll|by eapply pl_step_drop|by eapply step_world].
Qed.
Lemma pl_exec_inv ops y p : Forall pl_op_ok ops -> pl_inv WI RI CI SI y p -> goes WI RI CI SI (pl_exec ops y).
Proof.
  intros Hops. revert y p. induction Hops as [|op ops Hop _ IH]; intros y p Hy; [by exists y, p|]. cbn [pl_exec].
  destruct (pl_step_inv op y p Hop Hy) as (y1 & p1 & -> & Hy1). by eapply IH.
Qed.

(** A task whose last poll checked the readiness of the service itself. *)
Definition checks y (j : nat) : Prop :=
  (j = 0%nat /\ exists x n, ps_main y = Some (x, n, true)) \/ exists st x n, ps_calls y !! j = Some (st, Some (x, n, true)).
(** A pending task was woken since its last poll; or it waits in the queue,
    and it checked the readiness itself, or another task does that did. *)
Definition attended y p (i : nat) (g : poll_info) : Prop :=
  let '(x, n, ran) := g in
  x ∈ drop n (wt_woken (pn_waiters p)) \/
  (i ∈ wt_wakers (pn_waiters p) /\ (ran = true \/ exists j, wt_cur (pn_waiters p) = Some j /\ j <> i /\ checks y j)).

Lemma owner_checks y p j : pl_inv WI RI CI SI y p -> wt_cur (pn_waiters p) = Some j -> checks y j.
Proof.
  intros Hy Hj. pose proof (pv_task _ _ _ _ _ _ Hy j) as Ht. destruct (decide (j = 0%nat)) as [->|Hne].
  - left. split; [done|]. destruct Ht as [_ Ht]. by apply Ht.
  - right. rewrite task_ok_ne in Ht by done. destruct (ps_calls y !! j) as [[st g]|]; [|done]. destruct Ht as (_ & _ & Hg). destruct (Hg Hj) as (x & n & ->). by exists st, x, n.
Qed.
Lemma claim_attended y p i g : pl_inv WI RI CI SI y p -> claim i g (pn_waiters p) -> attended y p i g.
Proof.
  intros Hy. destruct g as [[x n] ran]. intros [_ [Hx|(_ & Hq & Hr)]]; [by left|right]. split; [done|].
  destruct Hr as [|(j & Hj & Hne)]; [by left|right]. exists j. split_and!; [done|done|by eapply owner_checks].
Qed.

(** C12. Whatever the order in which the tasks of a pipeline poll it, make,
    poll and drop calls, and shut it down, with a service that keeps to its
    context: no step panics or touches freed memory, and no wake-up is lost.
    Each task that waits for the readiness of the service was woken since it
    was polled last, or is queued to be woken by the end of the check, and
    then either it made the check itself or the task that owns the check is
    alive and did. *)
Theorem pipeline_no_lost_wakeup ops w :
  WI w -> Forall pl_op_ok ops ->
  exists y p, pl_exec ops (pl_sys w) = Done y /\ hp_get (ps_world y) = Some p /\
    (forall i st g, ps_calls y !! i = Some (st, g) -> call_waits st -> exists x, g = Some x /\ attended y p i x) /\
    (forall x, ps_main y = Some x -> attended y p 0 x).
Proof.
  intros Hw Hops. destruct (pl_new_inv w Hw) as [p0 H0]. destruct (pl_exec_inv ops _ p0 Hops H0) as (y & p & He & Hy). exists y, p.
  split; [done|]. split; [apply Hy|]. split.
  - intros i st g Hi Hwt. pose proof (pv_task _ _ _ _ _ _ Hy i) as Ht. rewrite task_ok_ne, Hi in Ht.
    + destruct Ht as (_ & Hg & _). destruct (Hg Hwt) as (x & -> & Hx). exists x. split; [done|by apply claim_attended].
    + intros ->. pose proof (pv_zero _ _ _ _ _ _ Hy). congruence.
  - intros x Hx. destruct (pv_task _ _ _ _ _ _ Hy 0) as [Hc _]. by apply claim_attended, Hc.
Qed.
End props.

(** ** Examples *)

(** Two calls and the pipeline wait for the gate; the owner of the check is
    dropped, and the others go on. *)
Definition gate_prog : list (pl_op (GateWorld () ()) Z) :=
  [PoCall true 7; PoCall true 8; PoPoll 1 11; PoPoll 2 12; PoReady 10; PoDrop 1; PoPoll 2 12; PoWorld (gate true); PoReady 10; PoPoll 2 12; PoShutdown 10].
Lemma gate_prog_ok : Forall (pl_op_ok (fun _ : GateWorld () () => True)) gate_prog.
Proof. repeat (constructor; [done || apply gate_ok|]). constructor. Qed.

Definition gate_run (ops : list (pl_op (GateWorld () ()) Z)) : outcome (PlSys (GateWorld () ()) Z () Z) := pl_exec ops (pl_sys (mkGateWorld false None)).

Lemma pipeline_no_lost_wakeup_witness :
  exists y p, gate_run gate_prog = Done y /\ hp_get (ps_world y) = Some p /\
    (forall i st g, ps_calls y !! i = Some (st, g) -> call_waits st -> exists x, g = Some x /\ attended y p i x) /\
    (forall x, ps_main y = Some x -> attended y p 0 x).
Proof.
  apply (pipeline_no_lost_wakeup (fun _ : GateWorld () () => True) (fun _ _ _ => True) (fun _ _ o _ => o = false) (fun _ _ => True) gate_prog (mkGateWorld false None)).
  - exact I.
  - apply gate_prog_ok.
Defined.

(** A call that waits for the readiness of the service outlives the pipeline:
    [drop_order] drops it. *)
Definition last_call (drop_order : PipelineCall Z () Z -> M (GateWorld () ()) ()) : M (GateWorld () ()) () :=
  c ← pl_call true 7;
  '(_, c) ← pipeline_call_poll 1%nat c;
  pipeline_drop;;
  drop_order c.

(** A [PipelineCall] drops its binding before its future.  If the binding
    is the last reference to the container, the container is freed first, and
    the future of a call that still waits for readiness reads it when it is
    dropped: undefined behaviour.  Dropping the future first is sound. *)
Theorem pipeline_call_dropped_last :
  last_call pipeline_call_drop (mkGateWorld false (Some pipeline_new)) = Fault Undefined /\
  last_call (fun c => call_fut_drop (pc_fut c);; binding_drop (pc_idx c)) (mkGateWorld false (Some pipeline_new)) = Done (tt, mkGateWorld false None).
Proof. split; vm_compute; reflexivity. Qed.
