(* ===== verification/ServiceComb.v ===== *)
(** * Services made of services

    The combinators of geario/src/service: [AndThen] (and_then.rs, with
    [ready] and [shutdown] of util.rs), [Map] (map.rs) and [MapErr]
    (map_err.rs, with the macros of macros.rs).  A combinator is an instance
    of [UserService]: it checks, calls and shuts down the services it is made
    of in the context it was given.  The futures of the async functions start
    when they are polled first, and drop what they hold in the reverse of the
    order of its declaration. *)
From Stdlib Require Import ZArith.
From stdpp Require Import base numbers gmap list.
From S2P Require Import Prelude Deps Task IoBuf Pipeline.

(** ** [util::ready] and [util::shutdown] *)

(** Two futures that are polled until both have answered. *)
Inductive pair_fut (A B : Type) := PfStart (idx : nat) | PfRun (idx : nat) (fut1 : A) (fut2 : B) (ready1 ready2 : bool) | PfDone.
Arguments PfStart {A B}.
Arguments PfRun {A B}.
Arguments PfDone {A B}.

Section pair.
Context {T : Type -> Type} `{!Slab T} {W PRF PSF Req1 Res1 RF1 CF1 SF1 Req2 Res2 RF2 CF2 SF2 Err : Type} `{!HasPipeline T PRF PSF W}.
Context `{A : !UserService W Req1 Res1 Err RF1 CF1 SF1} `{B : !UserService W Req2 Res2 Err RF2 CF2 SF2}.
Abbreviation ready_fut := (pair_fut (ReadyFut RF1) (ReadyFut RF2)).
Abbreviation shutdown_fut := (pair_fut (ShutdownFut SF1) (ShutdownFut SF2)).

Definition pair_ready_leave (fut1 : ReadyFut RF1) (fut2 : ReadyFut RF2) (r : () + Err) : M W (Poll (() + Err) * ready_fut) :=
  ready_fut_drop fut2;; ready_fut_drop fut1;; mret (Ready r, PfDone).

Definition pair_ready_run (idx : nat) (w : waker) (fut1 : ReadyFut RF1) (fut2 : ReadyFut RF2) (ready1 ready2 : bool) :
    M W (Poll (() + Err) * ready_fut) :=
  '(r, fut1) ← (if ready1 then mret (Ready (inl tt), fut1) else ctx_ready_poll idx w fut1);
  match r with
  | Ready (inr e) => pair_ready_leave fut1 fut2 (inr e)
  | _ =>
      let ready1 := poll_is_ready r in
      '(r, fut2) ← (if ready2 then mret (Ready (inl tt), fut2) else ctx_ready_poll idx w fut2);
      match r with
      | Ready (inr e) => pair_ready_leave fut1 fut2 (inr e)
      | _ =>
          let ready2 := poll_is_ready r in
          if ready1 && ready2 then pair_ready_leave fut1 fut2 (inl tt)
          else mret (Pending, PfRun idx fut1 fut2 ready1 ready2)
      end
  end.
Definition pair_ready_poll (w : waker) (st : ready_fut) : M W (Poll (() + Err) * ready_fut) :=
  match st with
  | PfStart idx => pair_ready_run idx w RdStart RdStart false false
  | PfRun idx fut1 fut2 ready1 ready2 => pair_ready_run idx w fut1 fut2 ready1 ready2
  | PfDone => failS Panic
  end.
Definition pair_ready_drop (st : ready_fut) : M W () :=
  match st with PfRun _ fut1 fut2 _ _ => ready_fut_drop fut2;; ready_fut_drop fut1 | _ => mret tt end.

Definition pair_shutdown_run (idx : nat) (w : waker) (fut1 : ShutdownFut SF1) (fut2 : ShutdownFut SF2) (ready1 ready2 : bool) :
    M W (Poll () * shutdown_fut) :=
  '(r1, fut1) ← (if ready1 then mret (Ready tt, fut1) else ctx_shutdown_poll idx w fut1);
  '(r2, fut2) ← (if ready2 then mret (Ready tt, fut2) else ctx_shutdown_poll idx w fut2);
  if poll_is_ready r1 && poll_is_ready r2 then shutdown_fut_drop fut2;; shutdown_fut_drop fut1;; mret (Ready tt, PfDone)
  else mret (Pending, PfRun idx fut1 fut2 (poll_is_ready r1) (poll_is_ready r2)).
Definition pair_shutdown_poll (w : waker) (st : shutdown_fut) : M W (Poll () * shutdown_fut) :=
  match st with
  | PfStart idx => pair_shutdown_run idx w ShStart ShStart false false
  | PfRun idx fut1 fut2 ready1 ready2 => pair_shutdown_run idx w fut1 fut2 ready1 ready2
  | PfDone => failS Panic
  end.
Definition pair_shutdown_drop (st : shutdown_fut) : M W () :=
  match st with PfRun _ fut1 fut2 _ _ => shutdown_fut_drop fut2;; shutdown_fut_drop fut1 | _ => mret tt end.
End pair.

(** ** [AndThen] *)

Inductive and_then_fut (A B : Type) := AtFirst (idx : nat) (fut : A) | AtSecond (idx : nat) (fut : B) | AtDone.
Arguments AtFirst {A B}.
Arguments AtSecond {A B}.
Arguments AtDone {A B}.

Section and_then.
Context {T : Type -> Type} `{!Slab T} {W PRF PSF Req Mid Res RF1 CF1 SF1 RF2 CF2 SF2 Err : Type} `{!HasPipeline T PRF PSF W}.
Context (A : UserService W Req Mid Err RF1 CF1 SF1) (B : UserService W Mid Res Err RF2 CF2 SF2).
Abbreviation call_fut := (and_then_fut (CallFut Req RF1 CF1) (CallFut Mid RF2 CF2)).

Definition and_then_second (idx : nat) (w : waker) (fut : CallFut Mid RF2 CF2) : M W (Poll (Res + Err) * call_fut) :=
  '(r, fut) ← ctx_call_poll idx w fut;
  match r with Pending => mret (Pending, AtSecond idx fut) | Ready x => mret (Ready x, AtDone) end.
Definition and_then_poll (w : waker) (st : call_fut) : M W (Poll (Res + Err) * call_fut) :=
  match st with
  | AtFirst idx fut =>
      '(r, fut) ← ctx_call_poll idx w fut;
      match r with
      | Pending => mret (Pending, AtFirst idx fut)
      | Ready (inr e) => mret (Ready (inr e), AtDone)
      | Ready (inl result) => and_then_second idx w (CsReady RdStart result)
      end
  | AtSecond idx fut => and_then_second idx w fut
  | AtDone => failS Panic
  end.
Definition and_then_drop (st : call_fut) : M W () :=
  match st with AtFirst _ fut => call_fut_drop fut | AtSecond _ fut => call_fut_drop fut | AtDone => mret tt end.

Definition AndThen : UserService W Req Res Err (pair_fut (ReadyFut RF1) (ReadyFut RF2)) call_fut (pair_fut (ShutdownFut SF1) (ShutdownFut SF2)) := {|
  us_ready idx := mret (PfStart idx);
  us_ready_poll := pair_ready_poll;
  us_ready_drop := pair_ready_drop;
  us_call idx req := mret (AtFirst idx (CsReady RdStart req));
  us_call_poll := and_then_poll;
  us_call_drop := and_then_drop;
  us_shutdown idx := mret (PfStart idx);
  us_shutdown_poll := pair_shutdown_poll;
  us_shutdown_drop := pair_shutdown_drop;
|}.
End and_then.

(** ** [Map] and [MapErr] *)

(** A future of the context, with the index of the context. *)
Record fwd_fut (A : Type) := mkFwd { fw_idx : nat; fw_fut : A }.
Arguments mkFwd {A}.
Arguments fw_idx {A}.
Arguments fw_fut {A}.

Definition result_map {A B E} (f : A -> B) (r : A + E) : B + E := match r with inl a => inl (f a) | inr e => inr e end.
Definition result_map_err {A E F} (f : E -> F) (r : A + E) : A + F := match r with inl a => inl a | inr e => inr (f e) end.

(** The code after an [await]. *)
Definition poll_map {A B} (f : A -> B) (r : Poll A) : Poll B := match r with Pending => Pending | Ready a => Ready (f a) end.

Section map.
Context {T : Type -> Type} `{!Slab T} {W PRF PSF Req Res Err RF CF SF : Type} `{!HasPipeline T PRF PSF W}.
Context (A : UserService W Req Res Err RF CF SF).

(** [ctx.ready(&self.svc).await.map_err(f)], and the like for a call. *)
Definition fwd_ready_poll {E} (f : Err -> E) (w : waker) (st : fwd_fut (ReadyFut RF)) : M W (Poll (() + E) * fwd_fut (ReadyFut RF)) :=
  '(r, fut) ← ctx_ready_poll (fw_idx st) w (fw_fut st); mret (poll_map (result_map_err f) r, mkFwd (fw_idx st) fut).
Definition fwd_call_poll {R E} (f : Res + Err -> R + E) (w : waker) (st : fwd_fut (CallFut Req RF CF)) : M W (Poll (R + E) * fwd_fut (CallFut Req RF CF)) :=
  '(r, fut) ← ctx_call_poll (fw_idx st) w (fw_fut st); mret (poll_map f r, mkFwd (fw_idx st) fut).
Definition fwd_shutdown_poll (w : waker) (st : fwd_fut (ShutdownFut SF)) : M W (Poll () * fwd_fut (ShutdownFut SF)) :=
  '(r, fut) ← ctx_shutdown_poll (fw_idx st) w (fw_fut st); mret (r, mkFwd (fw_idx st) fut).

(** A call whose answer goes through [f], with the readiness and the shutdown
    of [self.svc]; [g] is for the error of the readiness. *)
Definition fwd_service {R E} (f : Res + Err -> R + E) (g : Err -> E) :
    UserService W Req R E (fwd_fut (ReadyFut RF)) (fwd_fut (CallFut Req RF CF)) (fwd_fut (ShutdownFut SF)) := {|
  us_ready idx := mret (mkFwd idx RdStart);
  us_ready_poll := fwd_ready_poll g;
  us_ready_drop st := ready_fut_drop (fw_fut st);
  us_call idx req := mret (mkFwd idx (CsReady RdStart req));
  us_call_poll := fwd_call_poll f;
  us_call_drop st := call_fut_drop (fw_fut st);
  us_shutdown idx := mret (mkFwd idx ShStart);
  us_shutdown_poll := fwd_shutdown_poll;
  us_shutdown_drop st := shutdown_fut_drop (fw_fut st);
|}.

(** [forward_ready!] of [Map] converts the error into itself. *)
Definition Map {R} (f : Res -> R) := fwd_service (result_map f) id.
Definition MapErr {E} (f : Err -> E) := fwd_service (result_map_err f) f.
End map.
