(* ===== verification/ServiceCombProps.v ===== *)
(** * Services made of services keep the contract

    The combinators meet the contract of a service if the services they are
    made of meet it. *)
From Stdlib Require Import ZArith Lia.
From stdpp Require Import base numbers gmap list relations.
From S2P Require Import Prelude Deps Task IoBuf Pipeline PipelineInv PipelineSystem ServiceComb.

(** ** One service *)

Section part.
Context {T : Type -> Type} `{!Slab T} `{!SlabLaws T} {W PRF PSF Req Res Err RF CF SF : Type}.
Context `{!HasPipeline T PRF PSF W} `{!HasPipelineLaws T PRF PSF W} `{!UserService W Req Res Err RF CF SF}.
Context (WI : W -> Prop) (RI : nat -> bool -> RF -> Prop) (CI : nat -> bool -> bool -> CF -> Prop) (SI : bool -> SF -> Prop) `{!UserServiceLaws (T := T) (PRF := PRF) (PSF := PSF) WI RI CI SI}.
Abbreviation moves := (moves (T := T) (PRF := PRF) (PSF := PSF) WI).

(** A future of the context that may have answered. *)
Definition rd_left i (answered : bool) (st : ReadyFut RF) : Prop := if answered then st = RdDone else rd_ok RI i st.
Definition sh_left (answered : bool) (st : ShutdownFut SF) : Prop := if answered then st = ShDone else sh_ok SI st.

Lemma ready_part_spec i x (answered : bool) st w :
  rd_left i answered st -> in_use (T := T) (PRF := PRF) (PSF := PSF) i true w ->
  moves i (Some x) (if answered then mret (Ready (inl tt), st) else ctx_ready_poll i x st) (fun a _ => rd_left i (poll_is_ready a.1) a.2) w.
Proof.
  intros Hst Hu. destruct answered; [by apply moves_ret|]. intros p Hw Hp.
  eapply (moves_conseq WI); [by apply (ctx_ready_poll_spec WI RI CI SI i true x st w p)| |done|done].
  intros [r st'] q s _ _ [Ha _]. destruct r; [apply Ha|done].
Qed.
Lemma ready_left_drop i answered st w : rd_left i answered st -> moves i None (ready_fut_drop st) (fun _ _ => True) w.
Proof.
  destruct answered; [intros ->; by apply moves_ret|]. intros Hst. eapply moves_conseq; [by apply (ready_fut_drop_spec WI RI CI SI i st)|done].
Qed.
Lemma shutdown_part_spec x (answered : bool) st w :
  sh_left answered st ->
  moves 0 None (if answered then mret (Ready tt, st) else ctx_shutdown_poll 0 x st) (fun a _ => sh_left (poll_is_ready a.1) a.2) w.
Proof.
  intros Hst. destruct answered; [by apply moves_ret|]. eapply moves_conseq; [by apply (ctx_shutdown_poll_spec WI RI CI SI x st)|].
  intros [[|] st'] q s _ _ Ha; done.
Qed.
Lemma shutdown_left_drop answered st w : sh_left answered st -> moves 0 None (shutdown_fut_drop st) (fun _ _ => True) w.
Proof. destruct answered; [intros ->; by apply moves_ret|]. intros Hst. by apply (shutdown_fut_drop_spec WI RI CI SI). Qed.

(** A call of the service within a call. *)
Definition call_part i o (st : CallFut Req RF CF) : Prop := call_ok RI CI i o st /\ st <> CsDone.
Lemma call_part_spec i o x st w :
  call_part i o st -> in_use (T := T) (PRF := PRF) (PSF := PSF) i false w -> held_only (T := T) (PRF := PRF) (PSF := PSF) i o w ->
  moves i (Some x) (ctx_call_poll i x st) (fun a s =>
    match a.1 with Pending => exists o, call_part i o a.2 /\ (wt_cur s = Some i -> o = true) | Ready _ => a.2 = CsDone /\ wt_cur s <> Some i end) w.
Proof.
  intros [Hst Hnd] Hu Hh p Hw Hp. eapply (moves_conseq WI); [by apply (ctx_call_poll_spec WI RI CI SI i o x st w p)| |done|done].
  intros [r st'] q s _ _ [[(o' & Ho & Hc) _] Hse]. destruct r; cbn in *; [by exists o'|]. subst st'. split; [done|]. cbn in Ho. subst. naive_solver.
Qed.
Lemma call_part_drop i o st w : call_part i o st -> moves i None (call_fut_drop st) (fun _ s => o = true -> wt_cur s <> Some i) w.
Proof. intros [Hst _]. by apply (call_fut_drop_spec WI RI CI SI). Qed.
End part.

(** ** Two services *)

Section pair.
Context {T : Type -> Type} `{!Slab T} `{!SlabLaws T} {W PRF PSF Req Mid Res Err RF1 CF1 SF1 RF2 CF2 SF2 : Type}.
Context `{!HasPipeline T PRF PSF W} `{!HasPipelineLaws T PRF PSF W}.
Context (A : UserService W Req Mid Err RF1 CF1 SF1) (B : UserService W Mid Res Err RF2 CF2 SF2) (WI : W -> Prop).
Context (RI1 : nat -> bool -> RF1 -> Prop) (CI1 : nat -> bool -> bool -> CF1 -> Prop) (SI1 : bool -> SF1 -> Prop) `{!UserServiceLaws (T := T) (PRF := PRF) (PSF := PSF) WI RI1 CI1 SI1}.
Context (RI2 : nat -> bool -> RF2 -> Prop) (CI2 : nat -> bool -> bool -> CF2 -> Prop) (SI2 : bool -> SF2 -> Prop) `{!UserServiceLaws (T := T) (PRF := PRF) (PSF := PSF) WI RI2 CI2 SI2}.
Abbreviation moves := (moves (T := T) (PRF := PRF) (PSF := PSF) WI).
Abbreviation in_use := (in_use (T := T) (PRF := PRF) (PSF := PSF)).

Definition pair_ready_ok i (l : bool) (st : pair_fut (ReadyFut RF1) (ReadyFut RF2)) : Prop :=
  match st with
  | PfStart j => l = true /\ j = i
  | PfRun j f1 f2 r1 r2 => l = true /\ j = i /\ rd_left RI1 i r1 f1 /\ rd_left RI2 i r2 f2
  | PfDone => l = false
  end.
Definition pair_shutdown_ok (l : bool) (st : pair_fut (ShutdownFut SF1) (ShutdownFut SF2)) : Prop :=
  match st with
  | PfStart j => l = true /\ j = 0%nat
  | PfRun j f1 f2 r1 r2 => l = true /\ j = 0%nat /\ sh_left SI1 r1 f1 /\ sh_left SI2 r2 f2
  | PfDone => l = false
  end.
Definition and_then_ok i (l o : bool) (st : and_then_fut (CallFut Req RF1 CF1) (CallFut Mid RF2 CF2)) : Prop :=
  match st with
  | AtFirst j f => l = true /\ j = i /\ call_part RI1 CI1 i o f
  | AtSecond j f => l = true /\ j = i /\ call_part RI2 CI2 i o f
  | AtDone => l = false /\ o = false
  end.

Lemma pair_drop_spec i r1 r2 f1 f2 w :
  rd_left RI1 i r1 f1 -> rd_left RI2 i r2 f2 -> moves i None (ready_fut_drop f2;; ready_fut_drop f1) (fun _ _ => True) w.
Proof.
  intros H1 H2. eapply moves_bind; [by apply (ready_left_drop WI RI2 CI2 SI2 i r2)|]. intros [] w' p s _ _ _ _. by apply (ready_left_drop WI RI1 CI1 SI1 i r1).
Qed.
Lemma pair_ready_leave_spec i x r1 r2 f1 f2 r w :
  rd_left RI1 i r1 f1 -> rd_left RI2 i r2 f2 ->
  moves i (Some x) (pair_ready_leave f1 f2 r) (fun a _ => pair_ready_ok i (negb (poll_is_ready a.1)) a.2) w.
Proof.
  intros H1 H2 p Hw Hp. unfold pair_ready_leave.
  eapply moves_bind; [apply (moves_none WI i (Some x)); [by apply (ready_left_drop WI RI2 CI2 SI2 i r2)|exact Hp]| |done|done]. intros [] w1 p1 s1 _ _ Hp1 _.
  eapply moves_bind; [apply (moves_none WI i (Some x)); [by apply (ready_left_drop WI RI1 CI1 SI1 i r1)|exact Hp1]|]. intros [] w2 p2 s2 _ _ _ _. by apply moves_ret.
Qed.

Lemma pair_ready_run_spec i x r1 r2 f1 f2 w :
  rd_left RI1 i r1 f1 -> rd_left RI2 i r2 f2 -> in_use i true w ->
  moves i (Some x) (pair_ready_run i x f1 f2 r1 r2) (fun a _ => pair_ready_ok i (negb (poll_is_ready a.1)) a.2) w.
Proof.
  intros H1 H2 Hu. unfold pair_ready_run. eapply moves_bind; [by apply (ready_part_spec WI RI1 CI1 SI1 i x r1)|].
  intros [a f1'] w1 p1 s1 Hp1 Hs1 Hw1 H1'. cbn [fst snd] in *.
  assert (forall ready1, rd_left RI1 i ready1 f1' ->
    moves i (Some x) ('(r, fut2) ← (if r2 then mret (Ready (inl tt), f2) else ctx_ready_poll i x f2);
      match r with
      | Ready (inr e) => pair_ready_leave f1' fut2 (inr e)
      | _ => if ready1 && poll_is_ready r then pair_ready_leave f1' fut2 (inl tt) else mret (Pending, PfRun i f1' fut2 ready1 (poll_is_ready r))
      end) (fun a _ => pair_ready_ok i (negb (poll_is_ready a.1)) a.2) w1) as Hrest.
  { clear H1' a. intros ready1 H1'. eapply moves_bind; [apply (ready_part_spec WI RI2 CI2 SI2 i x r2); [done|by eapply in_use_steps]|].
    intros [b f2'] w2 p2 s2 Hp2 Hs2 Hw2 H2'. cbn [fst snd] in *.
    destruct b as [|[[]|e]]; cbn [poll_is_ready] in *; [|destruct ready1|by eapply pair_ready_leave_spec]; cbn [andb]; [|by eapply pair_ready_leave_spec|by apply moves_ret].
    rewrite andb_false_r. by apply moves_ret. }
  destruct a as [|[[]|e]]; [by apply Hrest|by apply Hrest|by eapply pair_ready_leave_spec].
Qed.

Lemma pair_shutdown_run_spec x r1 r2 f1 f2 w :
  sh_left SI1 r1 f1 -> sh_left SI2 r2 f2 ->
  moves 0 None (pair_shutdown_run 0 x f1 f2 r1 r2) (fun a _ => pair_shutdown_ok (negb (poll_is_ready a.1)) a.2) w.
Proof.
  intros H1 H2. unfold pair_shutdown_run. eapply moves_bind; [by apply (shutdown_part_spec WI RI1 CI1 SI1 x r1)|].
  intros [a f1'] w1 p1 s1 _ _ _ H1'. eapply moves_bind; [by apply (shutdown_part_spec WI RI2 CI2 SI2 x r2)|]. intros [b f2'] w2 p2 s2 _ _ _ H2'. cbn [fst snd] in *.
  destruct (poll_is_ready a && poll_is_ready b) eqn:E; [|by apply moves_ret].
  eapply moves_bind; [by eapply (shutdown_left_drop WI RI2 CI2 SI2)|]. intros [] w3 p3 s3 _ _ _ _.
  eapply moves_bind; [by eapply (shutdown_left_drop WI RI1 CI1 SI1)|]. intros [] w4 p4 s4 _ _ _ _. by apply moves_ret.
Qed.

Lemma and_then_second_spec i o x f w :
  call_part RI2 CI2 i o f -> in_use i false w -> held_only (T := T) (PRF := PRF) (PSF := PSF) i o w ->
  moves i (Some x) (and_then_second B i x f) (fun a s => exists o, and_then_ok i (negb (poll_is_ready a.1)) o a.2 /\ (wt_cur s = Some i -> o = true)) w.
Proof.
  intros Hf Hu Hh. unfold and_then_second. eapply moves_bind; [by apply (call_part_spec WI RI2 CI2 SI2 i o)|].
  intros [r f'] w1 p1 s1 Hp1 Hs1 Hw1 Hr. cbn [fst snd] in *. destruct r; apply moves_ret; intros q Hq; rewrite Hw1 in Hq; injection Hq as <-; cbn in *.
  - destruct Hr as (o' & Hf' & Ho). by exists o'.
  - destruct Hr as [_ Hn]. by exists false.
Qed.

Lemma and_then_poll_spec i o x st w :
  and_then_ok i true o st -> in_use i false w -> held_only (T := T) (PRF := PRF) (PSF := PSF) i o w ->
  moves i (Some x) (and_then_poll A B x st) (fun a s => exists o, and_then_ok i (negb (poll_is_ready a.1)) o a.2 /\ (wt_cur s = Some i -> o = true)) w.
Proof.
  intros Hst Hu Hh. destruct st as [j f|j f|]; cbn [and_then_poll]; [|destruct Hst as (_ & -> & Hf); by apply (and_then_second_spec i o)|by destruct Hst].
  destruct Hst as (_ & -> & Hf). eapply moves_bind; [by apply (call_part_spec WI RI1 CI1 SI1 i o)|].
  intros [r f'] w1 p1 s1 Hp1 Hs1 Hw1 Hr. cbn [fst snd] in *. destruct r as [|[res|e]].
  - apply moves_ret. intros q Hq. rewrite Hw1 in Hq. injection Hq as <-. destruct Hr as (o' & Hf' & Ho). by exists o'.
  - destruct Hr as [_ Hn]. apply (and_then_second_spec i false); [done|by eapply in_use_steps|]. intros q Hq E. rewrite Hw1 in Hq. by injection Hq as <-.
  - apply moves_ret. intros q Hq. rewrite Hw1 in Hq. injection Hq as <-. destruct Hr as [_ Hn]. by exists false.
Qed.

Lemma AndThen_laws : UserServiceLaws (T := T) (PRF := PRF) (PSF := PSF) (UserService0 := AndThen A B) WI pair_ready_ok and_then_ok pair_shutdown_ok.
Proof.
  split; cbn [us_ready us_ready_poll us_ready_drop us_call us_call_poll us_call_drop us_shutdown us_shutdown_poll us_shutdown_drop AndThen].
  - intros w p. apply (ul_world (UserServiceLaws := UserServiceLaws0)).
  - intros i w. by apply moves_ret.
  - intros i x [j|j f1 f2 r1 r2|] w Hst Hu; [|by destruct Hst as (_ & -> & ? & ?); apply pair_ready_run_spec|done].
    destruct Hst as [_ ->]. by apply pair_ready_run_spec.
  - intros i l [j|j f1 f2 r1 r2|] w Hst; [by apply moves_ret| |by apply moves_ret]. destruct Hst as (_ & -> & H1 & H2). by eapply pair_drop_spec.
  - intros i r w. by apply moves_ret.
  - intros i o x st w. apply and_then_poll_spec.
  - intros i l o [j f|j f|] w Hst; [destruct Hst as (_ & _ & Hf)..|destruct Hst as [_ ->]; by apply moves_ret].
    + by apply (call_part_drop WI RI1 CI1 SI1).
    + by apply (call_part_drop WI RI2 CI2 SI2).
  - intros w. by apply moves_ret.
  - intros x [j|j f1 f2 r1 r2|] w Hst; [|by destruct Hst as (_ & -> & ? & ?); apply pair_shutdown_run_spec|done].
    destruct Hst as [_ ->]. by apply pair_shutdown_run_spec.
  - intros l [j|j f1 f2 r1 r2|] w Hst; [by apply moves_ret| |by apply moves_ret]. destruct Hst as (_ & _ & H1 & H2). cbn [pair_shutdown_drop].
    eapply moves_bind; [by eapply (shutdown_left_drop WI RI2 CI2 SI2)|]. intros [] w' p s _ _ _ _. by eapply (shutdown_left_drop WI RI1 CI1 SI1).
Qed.
End pair.

(** ** [Map] and [MapErr] *)

Section map.
Context {T : Type -> Type} `{!Slab T} `{!SlabLaws T} {W PRF PSF Req Res Err RF CF SF : Type}.
Context `{!HasPipeline T PRF PSF W} `{!HasPipelineLaws T PRF PSF W} (A : UserService W Req Res Err RF CF SF).
Context (WI : W -> Prop) (RI : nat -> bool -> RF -> Prop) (CI : nat -> bool -> bool -> CF -> Prop) (SI : bool -> SF -> Prop) `{!UserServiceLaws (T := T) (PRF := PRF) (PSF := PSF) WI RI CI SI}.
Abbreviation moves := (moves (T := T) (PRF := PRF) (PSF := PSF) WI).

Definition fwd_ready_ok i (l : bool) (st : fwd_fut (ReadyFut RF)) : Prop := fw_idx st = i /\ rd_left RI i (negb l) (fw_fut st).
Definition fwd_call_ok i (l o : bool) (st : fwd_fut (CallFut Req RF CF)) : Prop :=
  fw_idx st = i /\ if l then call_part RI CI i o (fw_fut st) else fw_fut st = CsDone /\ o = false.
Definition fwd_shutdown_ok (l : bool) (st : fwd_fut (ShutdownFut SF)) : Prop := fw_idx st = 0%nat /\ sh_left SI (negb l) (fw_fut st).

Lemma poll_map_ready {X Y} (f : X -> Y) (r : Poll X) : poll_is_ready (poll_map f r) = poll_is_ready r.
Proof. by destruct r. Qed.

Lemma fwd_ready_spec {E} (f : Err -> E) i x st w :
  fwd_ready_ok i true st -> in_use (T := T) (PRF := PRF) (PSF := PSF) i true w ->
  moves i (Some x) (fwd_ready_poll A f x st) (fun a _ => fwd_ready_ok i (negb (poll_is_ready a.1)) a.2) w.
Proof.
  intros [<- Hst] Hu. unfold fwd_ready_poll. eapply moves_bind; [by apply (ready_part_spec WI RI CI SI _ x false)|].
  intros [r fut] w1 p1 s1 _ _ _ Hr. apply moves_ret. intros p _. split; [done|]. cbn [fst snd fw_fut]. by rewrite poll_map_ready, negb_involutive.
Qed.
Lemma fwd_call_spec {R E} (f : Res + Err -> R + E) i o x st w :
  fwd_call_ok i true o st -> in_use (T := T) (PRF := PRF) (PSF := PSF) i false w -> held_only (T := T) (PRF := PRF) (PSF := PSF) i o w ->
  moves i (Some x) (fwd_call_poll A f x st) (fun a s => exists o, fwd_call_ok i (negb (poll_is_ready a.1)) o a.2 /\ (wt_cur s = Some i -> o = true)) w.
Proof.
  intros [<- Hst] Hu Hh. unfold fwd_call_poll. eapply moves_bind; [by apply (call_part_spec WI RI CI SI _ o)|].
  intros [r fut] w1 p1 s1 _ _ Hw1 Hr. apply moves_ret. intros q Hq. rewrite Hw1 in Hq. injection Hq as <-. cbn [fst snd] in *. rewrite poll_map_ready.
  destruct r; cbn in *; [destruct Hr as (o' & ? & ?); by exists o'|]. destruct Hr. by exists false.
Qed.
Lemma fwd_shutdown_spec x st w :
  fwd_shutdown_ok true st -> moves 0 None (fwd_shutdown_poll A x st) (fun a _ => fwd_shutdown_ok (negb (poll_is_ready a.1)) a.2) w.
Proof.
  intros [E Hst]. unfold fwd_shutdown_poll. rewrite E. eapply moves_bind; [by apply (shutdown_part_spec WI RI CI SI x false)|].
  intros [r fut] w1 p1 s1 _ _ _ Hr. apply moves_ret. intros p _. split; [done|]. cbn [fst snd fw_fut]. by rewrite negb_involutive.
Qed.
Lemma fwd_call_drop_spec i l o st w : fwd_call_ok i l o st -> moves i None (call_fut_drop (fw_fut st)) (fun _ s => o = true -> wt_cur s <> Some i) w.
Proof.
  intros [_ Hst]. destruct l; [by apply (call_part_drop WI RI CI SI)|]. destruct Hst as [-> ->]. by apply moves_ret.
Qed.

Lemma fwd_laws {R E} (f : Res + Err -> R + E) (g : Err -> E) :
  UserServiceLaws (T := T) (PRF := PRF) (PSF := PSF) (UserService0 := fwd_service A f g) WI fwd_ready_ok fwd_call_ok fwd_shutdown_ok.
Proof.
  split; cbn [us_ready us_ready_poll us_ready_drop us_call us_call_poll us_call_drop us_shutdown us_shutdown_poll us_shutdown_drop fwd_service].
  - intros w p. apply (ul_world (UserServiceLaws := UserServiceLaws0)).
  - intros i w. by apply moves_ret.
  - intros i x st w. apply fwd_ready_spec.
  - intros i l st w [_ Hst]. by eapply (ready_left_drop WI RI CI SI).
  - intros i r w. by apply moves_ret.
  - intros i o x st w. apply fwd_call_spec.
  - intros i l o st w. apply fwd_call_drop_spec.
  - intros w. by apply moves_ret.
  - intros x st w. apply fwd_shutdown_spec.
  - intros l st w [_ Hst]. by eapply (shutdown_left_drop WI RI CI SI).
Qed.
End map.

(** ** What the services answer *)

(** [cr r f]: [f] is a call of [r]; the successful answers to [r] are among
    [ans r]. *)
Class Answers {W Req Res Err RF CF SF} (A : UserService W Req Res Err RF CF SF) (cr : Req -> CF -> Prop) (ans : Req -> Res -> Prop) : Prop := {
  an_call i r w f w' : us_call i r w = Done (f, w') -> cr r f;
  an_poll x r f w p f' w' : cr r f -> us_call_poll x f w = Done (p, f', w') -> cr r f' /\ forall v, p = Ready (inl v) -> ans r v;
}.

Section answers.
Context {T : Type -> Type} `{!Slab T} {W PRF PSF Req Res Err RF CF SF : Type} `{!HasPipeline T PRF PSF W}.
Context (A : UserService W Req Res Err RF CF SF) (cr : Req -> CF -> Prop) (ans : Req -> Res -> Prop) `{!Answers A cr ans}.

Definition fut_of (r : Req) (st : CallFut Req RF CF) : Prop :=
  match st with CsReady _ q => q = r | CsStart q => q = r | CsRun f => cr r f | CsDone => True end.

Lemma call_await_answers x r f w p st w' :
  cr r f -> call_await x f w = Done (p, st, w') -> fut_of r st /\ forall v, p = Ready (inl v) -> ans r v.
Proof.
  intros Hf H. unfold call_await in H. apply bind_done in H as ([q f'] & w1 & Hp & H). destruct (an_poll x r f w q f' w1 Hf Hp) as [Hf' Ha].
  destruct q as [|a]; [by injection H as <- <- <-|]. apply bind_done in H as ([] & w2 & Hd & H). by injection H as <- <- <-.
Qed.
Lemma call_start_answers i x r w p st w' :
  (f ← us_call i r; call_await x f) w = Done (p, st, w') -> fut_of r st /\ forall v, p = Ready (inl v) -> ans r v.
Proof. intros H. apply bind_done in H as (f & w1 & Hc & H). eapply call_await_answers; [by eapply an_call|done]. Qed.
Lemma ctx_call_answers i x r st w p st' w' :
  fut_of r st -> ctx_call_poll i x st w = Done (p, st', w') -> fut_of r st' /\ forall v, p = Ready (inl v) -> ans r v.
Proof.
  intros Hst H. destruct st as [rd q|q|f|]; cbn [ctx_call_poll fut_of] in *; [subst q|subst q|..].
  - apply bind_done in H as ([a rd'] & w1 & Hr & H). destruct a as [|[[]|e]]; [by injection H as <- <- <-|by eapply call_start_answers|by injection H as <- <- <-].
  - by eapply call_start_answers.
  - by eapply call_await_answers.
  - done.
Qed.
End answers.

(** ** What the service combinators promise *)

Section answers.
Context {T : Type -> Type} `{!Slab T} {W PRF PSF Req Mid Res Err RF1 CF1 SF1 RF2 CF2 SF2 : Type} `{!HasPipeline T PRF PSF W}.
Context (A : UserService W Req Mid Err RF1 CF1 SF1) (crA : Req -> CF1 -> Prop) (ansA : Req -> Mid -> Prop) `{!Answers A crA ansA}.
Context (B : UserService W Mid Res Err RF2 CF2 SF2) (crB : Mid -> CF2 -> Prop) (ansB : Mid -> Res -> Prop) `{!Answers B crB ansB}.

Definition and_then_of (r : Req) (st : and_then_fut (CallFut Req RF1 CF1) (CallFut Mid RF2 CF2)) : Prop :=
  match st with
  | AtFirst _ f => fut_of crA r f
  | AtSecond _ f => exists m, ansA r m /\ fut_of crB m f
  | AtDone => True
  end.
Definition and_then_ans (r : Req) (v : Res) : Prop := exists m, ansA r m /\ ansB m v.

Lemma and_then_second_answers i x r m f w p st w' :
  ansA r m -> fut_of crB m f -> and_then_second (RF1 := RF1) (CF1 := CF1) B i x f w = Done (p, st, w') -> and_then_of r st /\ forall v, p = Ready (inl v) -> and_then_ans r v.
Proof.
  intros Hm Hf H. unfold and_then_second in H. apply bind_done in H as ([q f'] & w1 & Hc & H).
  apply (ctx_call_answers B crB ansB _ _ m) in Hc as [Hf' Ha]; [|done]. destruct q as [|a]; injection H as <- <- <-.
  - split; [by exists m|done].
  - split; [done|]. intros v [= ->]. exists m. auto.
Qed.

Lemma AndThen_answers : Answers (AndThen A B) and_then_of and_then_ans.
Proof.
  split; cbn [us_call us_call_poll AndThen].
  - by intros i r w f w' [= <- <-].
  - intros x r st w p st' w' Hst H. destruct st as [i f|i f|]; cbn [and_then_poll] in H; [|destruct Hst as (m & Hm & Hf); by apply (and_then_second_answers _ _ _ m _ _ _ _ _ Hm Hf H)|done].
    apply bind_done in H as ([q f'] & w1 & Hc & H). apply (ctx_call_answers A crA ansA _ _ r) in Hc as [Hf' Ha]; [|done].
    destruct q as [|[m|e]]; [by injection H as <- <- <-| |by injection H as <- <- <-]. eapply (and_then_second_answers _ _ _ m); [by apply Ha| |exact H]. done.
Qed.

Lemma fwd_answers {R E} (f : Mid + Err -> R + E) (g : Err -> E) (ans : Req -> R -> Prop) :
  (forall r a v, f a = inl v -> exists m, a = inl m /\ (ansA r m -> ans r v)) ->
  Answers (fwd_service A f g) (fun r st => fut_of crA r (fw_fut st)) ans.
Proof.
  intros Hf. split; cbn [us_call us_call_poll fwd_service].
  - by intros i r w st w' [= <- <-].
  - intros x r st w p st' w' Hst H. unfold fwd_call_poll in H. apply bind_done in H as ([q f'] & w1 & Hc & H).
    apply (ctx_call_answers A crA ansA _ _ r) in Hc as [Hf' Ha]; [|done]. injection H as <- <- <-. split; [done|].
    intros v Hv. destruct q as [|a]; [done|]. injection Hv as Hv. destruct (Hf r a v Hv) as (m & -> & Hm). by apply Hm, Ha.
Qed.

(** The answers of the combinators: a call of [a.and_then(b)] succeeds
    only with an answer of [b] to a request that [a] answered, one of
    [a.map(f)] with the image of an answer of [a], and one of [a.map_err(g)]
    with an answer of [a]; whatever the order in which the tasks run. *)
Theorem service_combinators_answer :
  (exists cr, Answers (AndThen A B) cr (fun r v => exists m, ansA r m /\ ansB m v)) /\
  (forall R (f : Mid -> R), exists cr, Answers (Map A f) cr (fun r v => exists m, ansA r m /\ v = f m)) /\
  (forall E (g : Err -> E), exists cr, Answers (MapErr A g) cr ansA).
Proof.
  split; [by exists and_then_of; apply AndThen_answers|]. split; intros ? f; (eexists; apply fwd_answers); intros r [m|e] v [= <-]; exists m; split; eauto.
Qed.
End answers.

Section contract.
Context {T : Type -> Type} `{!Slab T} `{!SlabLaws T} {W PRF PSF Req Mid Res Err RF1 CF1 SF1 RF2 CF2 SF2 : Type}.
Context `{!HasPipeline T PRF PSF W} `{!HasPipelineLaws T PRF PSF W} (WI : W -> Prop).

(** C22. Services made by [and_then], [map] and [map_err] of services that meet
    the contract of a service meet it as well: their futures never panic,
    they poll no future again that has answered, they leave the check of
    other contexts alone, and they give the check up when they are dropped.
    What holds for the pipeline of a service holds for theirs. *)
Theorem service_combinators_keep_contract
    (A : UserService W Req Mid Err RF1 CF1 SF1) RI1 CI1 SI1 (B : UserService W Mid Res Err RF2 CF2 SF2) RI2 CI2 SI2 :
  UserServiceLaws (T := T) (PRF := PRF) (PSF := PSF) (UserService0 := A) WI RI1 CI1 SI1 ->
  UserServiceLaws (T := T) (PRF := PRF) (PSF := PSF) (UserService0 := B) WI RI2 CI2 SI2 ->
  UserServiceLaws (T := T) (PRF := PRF) (PSF := PSF) (UserService0 := AndThen A B) WI
    (pair_ready_ok RI1 RI2) (and_then_ok RI1 CI1 RI2 CI2) (pair_shutdown_ok SI1 SI2) /\
  (forall R (f : Mid -> R), UserServiceLaws (T := T) (PRF := PRF) (PSF := PSF) (UserService0 := Map A f) WI
    (fwd_ready_ok RI1) (fwd_call_ok RI1 CI1) (fwd_shutdown_ok SI1)) /\
  (forall E (g : Err -> E), UserServiceLaws (T := T) (PRF := PRF) (PSF := PSF) (UserService0 := MapErr A g) WI
    (fwd_ready_ok RI1) (fwd_call_ok RI1 CI1) (fwd_shutdown_ok SI1)).
Proof. intros HA HB. split; [by apply AndThen_laws|]. split; intros; by apply fwd_laws. Qed.
End contract.

(** ** Examples *)

Abbreviation comb_world := (GateWorld (pair_fut (ReadyFut (fwd_fut (ReadyFut ()))) (ReadyFut ())) (pair_fut (ShutdownFut (fwd_fut (ShutdownFut ()))) (ShutdownFut ()))).
Definition gate_map : UserService comb_world Z Z () _ _ _ := Map gate_service Z.succ.

Lemma gate_answers : Answers (gate_service : UserService comb_world Z Z () () Z ()) (fun r f => f = r) (fun r v => v = r).
Proof. split; [by intros i r w f w' [= <- <-]|]. intros x r f w p f' w' -> [= <- <- <-]. split; [done|]. by intros v [= ->]. Qed.

Lemma service_combinators_answer_witness :
  exists cr, Answers (AndThen (gate_service : UserService comb_world Z Z () () Z ()) gate_service) cr (fun r v => exists m, m = r /\ v = m).
Proof. refine (proj1 (service_combinators_answer gate_service (fun r f => f = r) (fun r v => v = r) gate_service (fun r f => f = r) (fun r v => v = r))); apply gate_answers. Defined.

Definition comb_service : UserService comb_world Z Z () _ _ _ := AndThen gate_map gate_service.
(** The call waits while the gate is closed, and answers when it is open. *)
Definition comb_run : M comb_world (Poll (Z + ()) * Poll (Z + ())) :=
  c ← pl_call true 7;
  '(r1, c) ← pipeline_call_poll (UserService0 := comb_service) 1%nat c;
  gate true;;
  '(r2, c) ← pipeline_call_poll (UserService0 := comb_service) 1%nat c;
  pipeline_call_drop (UserService0 := comb_service) c;;
  mret (r1, r2).

Lemma service_combinators_keep_contract_witness :
  UserServiceLaws (T := map_slab) (UserService0 := comb_service) (fun _ => True)
    (pair_ready_ok (fwd_ready_ok (fun _ _ _ => True)) (fun _ _ _ => True))
    (and_then_ok (fwd_ready_ok (fun _ _ _ => True)) (fwd_call_ok (fun _ _ _ => True) (fun _ _ o _ => o = false)) (fun _ _ _ => True) (fun _ _ o _ => o = false))
    (pair_shutdown_ok (fwd_shutdown_ok (fun _ _ => True)) (fun _ _ => True)) /\
  exists w, comb_run (mkGateWorld false (Some pipeline_new)) = Done (Pending, Ready (inl 8), w).
Proof.
  split; [|eexists; vm_compute; reflexivity].
  refine (proj1 (service_combinators_keep_contract (fun _ => True) gate_map _ _ _ gate_service _ _ _ _ gate_laws)). apply fwd_laws, gate_laws.
Defined.
