(* ===== verification/PollFds.v ===== *)
(** * The registry of the [poll] backend

    Models the descriptors of a [Poller] of geario-polling/src/poll.rs: [Fds],
    the bodies of [add], [modify] and [delete], and the part of
    [wait_deadline] that stores the events; with [Event] and [PollMode] of
    geario-polling/src/lib.rs.

    A [HashMap] is a finite map; the order in which it is iterated is an
    argument.  The bits of [PollFlags] belong to the system and are a class. *)
From Stdlib Require Import ZArith Lia.
From stdpp Require Import base numbers gmap list.
From S2P Require Import Prelude.

Class PollAbi := { POLLIN : Z; POLLPRI : Z; POLLOUT : Z; POLLERR : Z; POLLHUP : Z; POLLRDNORM : Z; POLLWRBAND : Z }.

Definition RawFd := Z.

Record Event := mkEvent { ev_key : Z; ev_readable : bool; ev_writable : bool; ev_extra : Z }.
Inductive PollMode := Oneshot | Level | Edge | EdgeOneshot.

(** [std::io::ErrorKind], as far as the poller names it. *)
Inductive io_kind := InvalidInput | AlreadyExists | NotFound | Unsupported | WouldBlock | Interrupted.
#[export] Instance io_kind_eq_dec : EqDecision io_kind.
Proof. solve_decision. Defined.

Definition event_new (key : Z) (readable writable : bool) : Event := mkEvent key readable writable 0.

Record PollFd := mkPollFd { pf_fd : RawFd; pf_events : Z; pf_revents : Z }.
Definition from_borrowed_fd (fd : RawFd) (events : Z) : PollFd := mkPollFd fd events 0.

Record FdData := mkFdData { poll_fds_index : nat; fd_key : Z; fd_remove : bool }.
Record Fds := mkFds { poll_fds : list PollFd; fd_data : gmap RawFd FdData }.

Section fds.
Context {abi : PollAbi}.

Definition intersects (flags other : Z) : bool := negb (Z.land flags other =? 0).

Definition poll_events (ev : Event) : Z :=
  Z.lor (if ev_readable ev then Z.lor POLLIN POLLPRI else 0) (if ev_writable ev then Z.lor POLLOUT POLLWRBAND else 0).
Definition read_events : Z := Z.lor POLLIN (Z.lor POLLPRI (Z.lor POLLHUP POLLERR)).
Definition write_events : Z := Z.lor POLLOUT (Z.lor POLLWRBAND (Z.lor POLLHUP POLLERR)).

Definition cvt_mode_as_remove (mode : PollMode) : bool + io_kind :=
  match mode with Oneshot => inl true | Level => inl false | Edge | EdgeOneshot => inr Unsupported end.

(** [Poller::new]: the notification pipe is the first descriptor. *)
Definition fds_new (notify_fd : RawFd) : Fds := mkFds [from_borrowed_fd notify_fd POLLRDNORM] ∅.

(** ** The closures of [add], [modify] and [delete] *)

Definition fds_add (fd : RawFd) (ev : Event) (mode : PollMode) : M Fds (() + io_kind) := fun s =>
  match fd_data s !! fd with
  | Some _ => Done (inr AlreadyExists, s)
  | None =>
      match cvt_mode_as_remove mode with
      | inr e => Done (inr e, s)
      | inl remove =>
          let data := mkFdData (length (poll_fds s)) (ev_key ev) remove in
          Done (inl tt, mkFds (poll_fds s ++ [from_borrowed_fd fd (poll_events ev)]) (<[fd := data]> (fd_data s)))
      end
  end.

(** Indexing a vector, which panics out of range. *)
Definition set_poll_fd (i : nat) (p : PollFd) (l : list PollFd) : outcome (list PollFd) :=
  if bool_decide (i < length l)%nat then Done (<[i := p]> l) else Fault Panic.

Definition fds_modify (fd : RawFd) (ev : Event) (mode : PollMode) : M Fds (() + io_kind) := fun s =>
  match fd_data s !! fd with
  | None => Done (inr NotFound, s)
  | Some data =>
      match set_poll_fd (poll_fds_index data) (from_borrowed_fd fd (poll_events ev)) (poll_fds s) with
      | Fault f => Fault f
      | Done l =>
          let put remove := mkFds l (<[fd := mkFdData (poll_fds_index data) (ev_key ev) remove]> (fd_data s)) in
          match cvt_mode_as_remove mode with
          | inr e => Done (inr e, put (fd_remove data))
          | inl remove => Done (inl tt, put remove)
          end
      end
  end.

(** [Vec::swap_remove] panics out of range. *)
Definition swap_remove {A} (i : nat) (l : list A) : outcome (list A) :=
  match last l with
  | Some x => if bool_decide (i < length l)%nat then Done (take (pred (length l)) (<[i := x]> l)) else Fault Panic
  | None => Fault Panic
  end.

Definition fds_delete (fd : RawFd) : M Fds (() + io_kind) := fun s =>
  match fd_data s !! fd with
  | None => Done (inr NotFound, s)
  | Some data =>
      let m := delete fd (fd_data s) in
      match swap_remove (poll_fds_index data) (poll_fds s) with
      | Fault f => Fault f
      | Done l =>
          match l !! poll_fds_index data with
          | None => Done (inl tt, mkFds l m)
          | Some swapped =>
              match m !! pf_fd swapped with
              | None => Fault Panic
              | Some d => Done (inl tt, mkFds l (<[pf_fd swapped := mkFdData (poll_fds_index data) (fd_key d) (fd_remove d)]> m))
              end
          end
      end
  end.

(** ** The events of a poll *)

(** What the system call leaves: the events of each descriptor, and the number
    of descriptors that have any. *)
Definition set_revents (rev : RawFd -> Z) (l : list PollFd) : list PollFd := (fun p => mkPollFd (pf_fd p) (pf_events p) (rev (pf_fd p))) <$> l.
Definition num_events (l : list PollFd) : nat := length (filter (fun p => pf_revents p <> 0) l).

(** [notified] and [num_fd_events] of [wait_deadline], with the descriptors as
    the call left them; without the notification pipe the index panics. *)
Definition poll_result (rev : RawFd -> Z) : M Fds (bool * nat) := fun s =>
  let l := set_revents rev (poll_fds s) in
  match l !! 0%nat with
  | None => Fault Panic
  | Some p =>
      let notified := negb (pf_revents p =? 0) in
      let n := num_events l in
      if notified && (n =? 0)%nat then Fault Panic
      else Done (notified, if notified then pred n else n, mkFds l (fd_data s))
  end.

(** The loop over [fd_data.values_mut()]. *)
Fixpoint store_events (num_fd_events : nat) (order : list RawFd) (events : list Event) : M Fds (list Event) := fun s =>
  match order with
  | [] => Done (events, s)
  | fd :: order =>
      match fd_data s !! fd with
      | None => store_events num_fd_events order events s
      | Some data =>
          match poll_fds s !! poll_fds_index data with
          | None => Fault Panic
          | Some p =>
              if pf_revents p =? 0 then store_events num_fd_events order events s
              else
                let ev := mkEvent (fd_key data) (intersects (pf_revents p) read_events) (intersects (pf_revents p) write_events) (pf_revents p) in
                let events := events ++ [ev] in
                let s := if fd_remove data then mkFds (<[poll_fds_index data := from_borrowed_fd (pf_fd p) 0]> (poll_fds s)) (fd_data s) else s in
                if bool_decide (length events = num_fd_events) then Done (events, s) else store_events num_fd_events order events s
          end
      end
  end.
End fds.
