(* ===== verification/PollFdsSpec.v ===== *)
(** * The registry of the [poll] backend refines a map

    The descriptors of a poller are, for a client, a map from descriptors to
    their key, the events they wait for, and whether one event disarms them. *)
From Stdlib Require Import ZArith Lia.
From stdpp Require Import base numbers gmap list.
From S2P Require Import Prelude PollFds.

(** ** The map *)

Record Reg := mkReg { rg_key : Z; rg_events : Z; rg_oneshot : bool }.
Abbreviation registry_map := (gmap RawFd Reg).

Inductive fd_op := FdAdd (fd : RawFd) (ev : Event) (mode : PollMode) | FdModify (fd : RawFd) (ev : Event) (mode : PollMode) | FdDelete (fd : RawFd).
Definition fd_of (op : fd_op) : RawFd := match op with FdAdd fd _ _ | FdModify fd _ _ | FdDelete fd => fd end.

Section spec.
Context {abi : PollAbi}.
Implicit Types (s : Fds) (fd : RawFd) (r : registry_map).

Definition fds_op (op : fd_op) : M Fds (() + io_kind) :=
  match op with FdAdd fd ev mode => fds_add fd ev mode | FdModify fd ev mode => fds_modify fd ev mode | FdDelete fd => fds_delete fd end.

(** A mode that is not supported is refused; but [modify] has changed the key
    and the events by then. *)
Definition reg_op (op : fd_op) r : (() + io_kind) * registry_map :=
  match op with
  | FdAdd fd ev mode =>
      match r !! fd, cvt_mode_as_remove mode with
      | Some _, _ => (inr AlreadyExists, r)
      | None, inr e => (inr e, r)
      | None, inl b => (inl tt, <[fd := mkReg (ev_key ev) (poll_events ev) b]> r)
      end
  | FdModify fd ev mode =>
      match r !! fd, cvt_mode_as_remove mode with
      | None, _ => (inr NotFound, r)
      | Some g, inr e => (inr e, <[fd := mkReg (ev_key ev) (poll_events ev) (rg_oneshot g)]> r)
      | Some _, inl b => (inl tt, <[fd := mkReg (ev_key ev) (poll_events ev) b]> r)
      end
  | FdDelete fd => match r !! fd with None => (inr NotFound, r) | Some _ => (inl tt, delete fd r) end
  end.

(** ** The invariant *)

Record fds_ok (nfd : RawFd) s : Prop := {
  fo_notify : exists p, poll_fds s !! 0%nat = Some p /\ pf_fd p = nfd;
  fo_index fd d : fd_data s !! fd = Some d -> (0 < poll_fds_index d)%nat /\ exists p, poll_fds s !! poll_fds_index d = Some p /\ pf_fd p = fd;
  fo_data i p : poll_fds s !! i = Some p -> (0 < i)%nat -> exists d, fd_data s !! pf_fd p = Some d /\ poll_fds_index d = i;
}.

Definition registry s : registry_map :=
  omap (fun d => p ← poll_fds s !! poll_fds_index d; Some (mkReg (fd_key d) (pf_events p) (fd_remove d))) (fd_data s).

Lemma registry_lookup s fd :
  registry s !! fd = d ← fd_data s !! fd; p ← poll_fds s !! poll_fds_index d; Some (mkReg (fd_key d) (pf_events p) (fd_remove d)).
Proof. apply lookup_omap. Qed.
Lemma registry_data nfd s fd d :
  fds_ok nfd s -> fd_data s !! fd = Some d ->
  exists p, poll_fds s !! poll_fds_index d = Some p /\ pf_fd p = fd /\ registry s !! fd = Some (mkReg (fd_key d) (pf_events p) (fd_remove d)).
Proof.
  intros Hs Hd. destruct (fo_index _ _ Hs fd d Hd) as (_ & p & Hp & Hf). exists p. split; [done|]. split; [done|].
  rewrite registry_lookup, Hd. cbn. by rewrite Hp.
Qed.
Lemma registry_none nfd s fd : fds_ok nfd s -> registry s !! fd = None <-> fd_data s !! fd = None.
Proof.
  intros Hs. destruct (fd_data s !! fd) as [d|] eqn:E.
  - destruct (registry_data nfd s fd d Hs E) as (p & _ & _ & ->). done.
  - by rewrite registry_lookup, E.
Qed.

Lemma index_inj nfd s fd fd' d d' :
  fds_ok nfd s -> fd_data s !! fd = Some d -> fd_data s !! fd' = Some d' -> poll_fds_index d = poll_fds_index d' -> fd = fd'.
Proof.
  intros Hs H H' E. destruct (fo_index _ _ Hs _ _ H) as (_ & p & Hp & <-). destruct (fo_index _ _ Hs _ _ H') as (_ & p' & Hp' & <-).
  rewrite E, Hp' in Hp. by injection Hp as <-.
Qed.

Lemma fds_new_ok nfd : fds_ok nfd (fds_new nfd).
Proof. split; [by eexists|done|]. intros [|[]] p; cbn; [lia|done|done]. Qed.

(** ** [add] *)

Lemma fds_add_spec nfd fd ev mode s :
  fds_ok nfd s -> runs (fds_add fd ev mode) s (fun a s' => fds_ok nfd s' /\ (a, registry s') = reg_op (FdAdd fd ev mode) (registry s)).
Proof.
  intros Hs. unfold fds_add. cbn [reg_op]. destruct (fd_data s !! fd) as [d|] eqn:Hd.
  { destruct (registry_data nfd s fd d Hs Hd) as (p & _ & _ & Hr). eapply runs_eq; [by rewrite Hd|]. by rewrite Hr. }
  assert (registry s !! fd = None) as Hn by by apply (registry_none nfd). rewrite Hn.
  destruct (cvt_mode_as_remove mode) as [b|e]; [|eapply runs_eq; [by rewrite Hd|done]].
  eapply runs_eq; [by rewrite Hd|]. assert (poll_fds s <> []) as Hne. { destruct (fo_notify _ _ Hs) as (p & Hp & _). by destruct (poll_fds s). }
  split; [split; cbn [poll_fds fd_data]|].
  - destruct (fo_notify _ _ Hs) as (p & Hp & Hf). exists p. split; [by apply lookup_app_l_Some|done].
  - intros fd' d'. rewrite lookup_insert. case_decide as E.
    + subst fd'. intros [= <-]. cbn. split; [destruct (poll_fds s); [done|cbn; lia]|]. eexists. by rewrite list_lookup_middle.
    + intros H'. destruct (fo_index _ _ Hs fd' d' H') as (H0 & p & Hp & Hf). split; [done|]. exists p. split; [by apply lookup_app_l_Some|done].
  - intros i p Hp Hi. apply lookup_app_Some in Hp as [Hp|[Hle Hp]].
    + destruct (fo_data _ _ Hs i p Hp Hi) as (d' & Hd' & <-). exists d'. split; [|done]. rewrite lookup_insert_ne; [done|]. congruence.
    + apply list_lookup_singleton_Some in Hp as [Hi' <-]. cbn. rewrite lookup_insert_eq. eexists. split; [done|]. cbn. lia.
  - f_equal. apply map_eq. intros fd'. rewrite registry_lookup. cbn [poll_fds fd_data]. destruct (decide (fd = fd')) as [<-|E].
    + rewrite !lookup_insert_eq. cbn [mbind option_bind poll_fds_index fd_key fd_remove]. by rewrite (list_lookup_middle (poll_fds s) [] _ _ eq_refl).
    + rewrite !lookup_insert_ne by done. rewrite registry_lookup. destruct (fd_data s !! fd') as [d'|] eqn:Hd'; [|done]. cbn.
      destruct (fo_index _ _ Hs fd' d' Hd') as (_ & p & Hp & _). by rewrite Hp, (lookup_app_l_Some _ _ _ _ Hp).
Qed.

(** ** [modify] *)

(** Overwriting the entry of a descriptor, in place. *)
Lemma put_entry_ok nfd s fd d p' k b :
  fds_ok nfd s -> fd_data s !! fd = Some d -> pf_fd p' = fd ->
  let s' := mkFds (<[poll_fds_index d := p']> (poll_fds s)) (<[fd := mkFdData (poll_fds_index d) k b]> (fd_data s)) in
  fds_ok nfd s' /\ registry s' = <[fd := mkReg k (pf_events p') b]> (registry s).
Proof.
  intros Hs Hd Hf s'. destruct (fo_index _ _ Hs fd d Hd) as (H0 & p & Hp & Hpf). pose proof (lookup_lt_Some _ _ _ Hp) as Hlt.
  split; [split; cbn [poll_fds fd_data s']|].
  - destruct (fo_notify _ _ Hs) as (q & Hq & Hqf). exists q. split; [|done]. rewrite list_lookup_insert_ne by lia. done.
  - intros fd' d'. destruct (decide (fd = fd')) as [<-|E].
    + rewrite lookup_insert_eq. intros [= <-]. cbn. split; [done|]. exists p'. split; [by apply list_lookup_insert_eq|done].
    + rewrite lookup_insert_ne by done. intros Hd'. destruct (fo_index _ _ Hs fd' d' Hd') as (H0' & q & Hq & Hqf). split; [done|]. exists q. split; [|done].
      rewrite list_lookup_insert_ne; [done|]. intros Ei. by apply E, (index_inj nfd s fd fd' d d').
  - intros i q Hq Hi. destruct (decide (i = poll_fds_index d)) as [->|Ei].
    + rewrite list_lookup_insert_eq in Hq by done. injection Hq as <-. rewrite Hf, lookup_insert_eq. by eexists.
    + rewrite list_lookup_insert_ne in Hq by done. destruct (fo_data _ _ Hs i q Hq Hi) as (d' & Hd' & <-). exists d'. split; [|done].
      rewrite lookup_insert_ne; [done|]. intros E. rewrite <- E, Hd in Hd'. congruence.
  - apply map_eq. intros fd'. rewrite registry_lookup. cbn [poll_fds fd_data s']. destruct (decide (fd = fd')) as [<-|E].
    + rewrite !lookup_insert_eq. cbn. by rewrite list_lookup_insert_eq.
    + rewrite !lookup_insert_ne by done. rewrite registry_lookup. destruct (fd_data s !! fd') as [d'|] eqn:Hd'; [|done]. cbn.
      rewrite list_lookup_insert_ne; [done|]. intros Ei. by apply E, (index_inj nfd s fd fd' d d').
Qed.

Lemma fds_modify_spec nfd fd ev mode s :
  fds_ok nfd s -> runs (fds_modify fd ev mode) s (fun a s' => fds_ok nfd s' /\ (a, registry s') = reg_op (FdModify fd ev mode) (registry s)).
Proof.
  intros Hs. unfold fds_modify. cbn [reg_op]. destruct (fd_data s !! fd) as [d|] eqn:Hd.
  2:{ eapply runs_eq; [by rewrite Hd|]. split; [done|]. apply (registry_none nfd) in Hd; [|done]. by rewrite Hd. }
  destruct (registry_data nfd s fd d Hs Hd) as (p & Hp & _ & ->). pose proof (lookup_lt_Some _ _ _ Hp) as Hlt.
  assert (set_poll_fd (poll_fds_index d) (from_borrowed_fd fd (poll_events ev)) (poll_fds s) = Done (<[poll_fds_index d := from_borrowed_fd fd (poll_events ev)]> (poll_fds s))) as He.
  { unfold set_poll_fd. by rewrite bool_decide_true. }
  destruct (cvt_mode_as_remove mode) as [b|e]; (eapply runs_eq; [by rewrite Hd, He|]).
  - destruct (put_entry_ok nfd s fd d (from_borrowed_fd fd (poll_events ev)) (ev_key ev) b Hs Hd eq_refl) as [Hok Hr]. split; [exact Hok|]. by rewrite Hr.
  - destruct (put_entry_ok nfd s fd d (from_borrowed_fd fd (poll_events ev)) (ev_key ev) (fd_remove d) Hs Hd eq_refl) as [Hok Hr]. split; [exact Hok|]. by rewrite Hr.
Qed.

(** ** [delete] *)

Lemma swap_remove_spec {A} i (l : list A) :
  (i < length l)%nat -> exists x l', last l = Some x /\ swap_remove i l = Done l' /\ length l' = pred (length l) /\
    forall j, l' !! j = if bool_decide (j < pred (length l))%nat then (if bool_decide (j = i) then Some x else l !! j) else None.
Proof.
  intros Hi. unfold swap_remove. destruct (last l) as [x|] eqn:Hl; [|apply last_None in Hl; subst; cbn in Hi; lia].
  rewrite bool_decide_true by done. eexists x, _. split; [done|]. split; [done|]. split; [rewrite length_take, length_insert; lia|].
  intros j. case_bool_decide as Hj; [rewrite lookup_take_lt by done|by rewrite lookup_take_ge by lia].
  case_bool_decide as E; [subst; by apply list_lookup_insert_eq|by rewrite list_lookup_insert_ne].
Qed.

(** The entry that takes the place of the deleted one. *)
Lemma delete_moved_ok nfd s fd d q dq l :
  fds_ok nfd s -> fd_data s !! fd = Some d -> fd_data s !! pf_fd q = Some dq -> poll_fds_index dq = pred (length (poll_fds s)) -> pf_fd q <> fd ->
  length l = pred (length (poll_fds s)) ->
  (forall j, l !! j = if bool_decide (j < pred (length (poll_fds s)))%nat then (if bool_decide (j = poll_fds_index d) then Some q else poll_fds s !! j) else None) ->
  poll_fds s !! pred (length (poll_fds s)) = Some q ->
  let s' := mkFds l (<[pf_fd q := mkFdData (poll_fds_index d) (fd_key dq) (fd_remove dq)]> (delete fd (fd_data s))) in
  fds_ok nfd s' /\ registry s' = delete fd (registry s).
Proof.
  intros Hs Hd Hdq Hiq Hne Hlen Hl Hq s'. destruct (fo_index _ _ Hs _ _ Hd) as (H0 & p & Hp & Hpf). pose proof (lookup_lt_Some _ _ _ Hp) as Hlt.
  assert (poll_fds_index d <> pred (length (poll_fds s))) as Hnl. { intros E. apply Hne, (index_inj nfd s _ _ dq d); [done..|]. congruence. }
  assert (forall fd' d', fd_data s !! fd' = Some d' -> fd' <> fd -> fd' <> pf_fd q -> l !! poll_fds_index d' = poll_fds s !! poll_fds_index d') as Hsame.
  { intros fd' d' Hd' Hn1 Hn2. rewrite Hl. destruct (fo_index _ _ Hs _ _ Hd') as (_ & p' & Hp' & _). apply lookup_lt_Some in Hp'.
    rewrite bool_decide_true, bool_decide_false; [done|intros E; by apply Hn1, (index_inj nfd s _ _ d' d)|].
    assert (poll_fds_index d' <> pred (length (poll_fds s))); [|lia]. intros E. apply Hn2, (index_inj nfd s _ _ d' dq); congruence. }
  assert (l !! poll_fds_index d = Some q) as Hmv. { rewrite Hl, bool_decide_true, bool_decide_true by lia. done. }
  split; [split; cbn [poll_fds fd_data s']|].
  - destruct (fo_notify _ _ Hs) as (n & Hn & Hnf). exists n. split; [|done]. rewrite Hl, bool_decide_true, bool_decide_false by lia. done.
  - intros fd' d'. destruct (decide (pf_fd q = fd')) as [<-|E].
    + rewrite lookup_insert_eq. intros [= <-]. cbn. split; [done|]. by exists q.
    + rewrite lookup_insert_ne by done. intros [Hn Hd']%lookup_delete_Some. destruct (fo_index _ _ Hs _ _ Hd') as (H0' & p' & Hp' & Hpf').
      split; [done|]. exists p'. split; [|done]. by rewrite (Hsame fd' d').
  - intros j p' Hp' Hj. rewrite Hl in Hp'. case_bool_decide as Hjl; [|done]. case_bool_decide as Hji.
    + injection Hp' as <-. rewrite lookup_insert_eq. by eexists.
    + destruct (fo_data _ _ Hs j p' Hp' Hj) as (d' & Hd' & Hi'). exists d'. split; [|done]. rewrite lookup_insert_ne.
      * rewrite lookup_delete_ne; [done|]. intros E. rewrite <- E in Hd'. congruence.
      * intros E. rewrite <- E in Hd'. rewrite Hdq in Hd'. injection Hd' as <-. lia.
  - apply map_eq. intros fd'. rewrite registry_lookup. cbn [poll_fds fd_data s']. destruct (decide (pf_fd q = fd')) as [<-|E].
    + rewrite lookup_insert_eq. cbn. rewrite Hmv. cbn. rewrite lookup_delete_ne by done. rewrite registry_lookup, Hdq. cbn. by rewrite Hiq, Hq.
    + rewrite lookup_insert_ne by done. destruct (decide (fd = fd')) as [<-|E']; [by rewrite !lookup_delete_eq|]. rewrite !lookup_delete_ne by done.
      rewrite registry_lookup. destruct (fd_data s !! fd') as [d'|] eqn:Hd'; [|done]. cbn. by rewrite (Hsame fd' d').
Qed.
(** The last entry is deleted. *)
Lemma delete_last_ok nfd s fd d l :
  fds_ok nfd s -> fd_data s !! fd = Some d -> poll_fds_index d = pred (length (poll_fds s)) ->
  (forall j, l !! j = if bool_decide (j < poll_fds_index d)%nat then poll_fds s !! j else None) ->
  let s' := mkFds l (delete fd (fd_data s)) in
  fds_ok nfd s' /\ registry s' = delete fd (registry s).
Proof.
  intros Hs Hd Hi Hl s'. destruct (fo_index _ _ Hs _ _ Hd) as (H0 & p & Hp & Hpf).
  assert (forall fd' d', fd_data s !! fd' = Some d' -> fd <> fd' -> l !! poll_fds_index d' = poll_fds s !! poll_fds_index d') as Hsame.
  { intros fd' d' Hd' Hn. rewrite Hl. destruct (fo_index _ _ Hs _ _ Hd') as (_ & p' & Hp' & _). apply lookup_lt_Some in Hp'.
    rewrite bool_decide_true; [done|]. assert (poll_fds_index d' <> poll_fds_index d); [|lia]. intros E. by apply Hn, (index_inj nfd s _ _ d d'). }
  split; [split; cbn [poll_fds fd_data s']|].
  - destruct (fo_notify _ _ Hs) as (n & Hn & Hnf). exists n. split; [|done]. by rewrite Hl, bool_decide_true.
  - intros fd' d' [Hn Hd']%lookup_delete_Some. destruct (fo_index _ _ Hs _ _ Hd') as (H0' & p' & Hp' & Hpf'). split; [done|]. exists p'. by rewrite (Hsame fd' d').
  - intros j p' Hp' Hj. rewrite Hl in Hp'. case_bool_decide as Hji; [|done]. destruct (fo_data _ _ Hs j p' Hp' Hj) as (d' & Hd' & Hi'). exists d'. split; [|done].
    rewrite lookup_delete_ne; [done|]. intros E. rewrite <- E, Hd in Hd'. injection Hd' as <-. lia.
  - apply map_eq. intros fd'. rewrite registry_lookup. cbn [poll_fds fd_data s']. destruct (decide (fd = fd')) as [<-|E]; [by rewrite !lookup_delete_eq|].
    rewrite !lookup_delete_ne by done. rewrite registry_lookup. destruct (fd_data s !! fd') as [d'|] eqn:Hd'; [|done]. cbn. by rewrite (Hsame fd' d').
Qed.

Lemma fds_delete_spec nfd fd s :
  fds_ok nfd s -> runs (fds_delete fd) s (fun a s' => fds_ok nfd s' /\ (a, registry s') = reg_op (FdDelete fd) (registry s)).
Proof.
  intros Hs. unfold fds_delete. cbn [reg_op]. destruct (fd_data s !! fd) as [d|] eqn:Hd.
  2:{ eapply runs_eq; [by rewrite Hd|]. split; [done|]. apply (registry_none nfd) in Hd; [|done]. by rewrite Hd. }
  destruct (registry_data nfd s fd d Hs Hd) as (p & Hp & Hpf & ->). pose proof (lookup_lt_Some _ _ _ Hp) as Hlt.
  destruct (fo_index _ _ Hs _ _ Hd) as (H0 & _). destruct (swap_remove_spec _ _ Hlt) as (q & l & Hq & He & Hlen & Hl). rewrite last_lookup in Hq.
  destruct (decide (poll_fds_index d = pred (length (poll_fds s)))) as [Hi|Hi].
  - assert (l !! poll_fds_index d = None) as Hn by (rewrite Hl, bool_decide_false by lia; done).
    eapply runs_eq; [by rewrite Hd, He, Hn|]. destruct (delete_last_ok nfd s fd d l Hs Hd Hi) as [Hok Hr]; [|split; [exact Hok|by rewrite Hr]].
    intros j. rewrite Hl, <- Hi. case_bool_decide; [|done]. rewrite bool_decide_false by lia. done.
  - assert (l !! poll_fds_index d = Some q) as Hsw by (rewrite Hl, bool_decide_true, bool_decide_true by lia; done).
    destruct (fo_data _ _ Hs _ _ Hq) as (dq & Hdq & Hiq); [lia|].
    assert (pf_fd q <> fd) as Hne. { intros E. rewrite E, Hd in Hdq. injection Hdq as <-. lia. }
    eapply runs_eq; [by rewrite Hd, He, Hsw, lookup_delete_ne, Hdq|]. destruct (delete_moved_ok nfd s fd d q dq l Hs Hd Hdq Hiq Hne Hlen Hl Hq) as [Hok Hr].
    split; [exact Hok|by rewrite Hr].
Qed.

Lemma fds_op_spec nfd op s : fds_ok nfd s -> runs (fds_op op) s (fun a s' => fds_ok nfd s' /\ (a, registry s') = reg_op op (registry s)).
Proof. intros Hs. destruct op; [by apply fds_add_spec|by apply fds_modify_spec|by apply fds_delete_spec]. Qed.

(** ** The events *)

Definition entry_of s fd : option (FdData * PollFd) := d ← fd_data s !! fd; p ← poll_fds s !! poll_fds_index d; Some (d, p).
Definition ready_fd s fd : bool := match entry_of s fd with Some (_, p) => negb (pf_revents p =? 0) | None => false end.
Definition event_of s fd : Event :=
  match entry_of s fd with
  | Some (d, p) => mkEvent (fd_key d) (intersects (pf_revents p) read_events) (intersects (pf_revents p) write_events) (pf_revents p)
  | None => event_new 0 false false
  end.
(** A descriptor that gave an event is disarmed. *)
Definition reg_fired (fds : list RawFd) r : registry_map :=
  map_imap (fun fd g => Some (if rg_oneshot g && bool_decide (fd ∈ fds) then mkReg (rg_key g) 0 true else g)) r.

Definition disarm s fd : Fds :=
  match entry_of s fd with
  | Some (d, p) => if fd_remove d then mkFds (<[poll_fds_index d := from_borrowed_fd (pf_fd p) 0]> (poll_fds s)) (fd_data s) else s
  | None => s
  end.

Lemma entry_of_data nfd s fd d : fds_ok nfd s -> fd_data s !! fd = Some d -> exists p, entry_of s fd = Some (d, p) /\ poll_fds s !! poll_fds_index d = Some p /\ pf_fd p = fd.
Proof. intros Hs Hd. destruct (fo_index _ _ Hs _ _ Hd) as (_ & p & Hp & Hf). exists p. unfold entry_of. rewrite Hd. cbn. by rewrite Hp. Qed.

Lemma disarm_ok nfd s fd :
  fds_ok nfd s -> fds_ok nfd (disarm s fd) /\ registry (disarm s fd) = reg_fired [fd] (registry s) /\ (forall fd', fd' <> fd -> entry_of (disarm s fd) fd' = entry_of s fd').
Proof.
  intros Hs. assert (forall g, registry s !! fd = g -> (forall x, g = Some x -> rg_oneshot x = false) -> registry s = reg_fired [fd] (registry s)) as Hsame.
  { intros g Hg Ho. apply map_eq. intros fd'. unfold reg_fired. rewrite map_lookup_imap. destruct (registry s !! fd') as [x|] eqn:Hx; [|done]. cbn.
    case_bool_decide as E; [|by rewrite andb_false_r]. apply list_elem_of_singleton in E. subst fd'. rewrite Hg in Hx. by rewrite (Ho x Hx). }
  unfold disarm. destruct (fd_data s !! fd) as [d|] eqn:Hd.
  2:{ assert (entry_of s fd = None) as -> by (unfold entry_of; by rewrite Hd). split; [done|]. split; [|done]. eapply Hsame; [done|]. intros x Hx.
      apply (registry_none nfd) in Hd; [|done]. congruence. }
  destruct (entry_of_data nfd s fd d Hs Hd) as (p & -> & Hp & Hf). destruct (registry_data nfd s fd d Hs Hd) as (p' & Hp' & _ & Hr).
  destruct (fd_remove d) eqn:Hrm. 2:{ split; [done|]. split; [|done]. eapply Hsame; [exact Hr|]. by intros x [= <-]. }
  destruct (put_entry_ok nfd s fd d (from_borrowed_fd (pf_fd p) 0) (fd_key d) (fd_remove d) Hs Hd Hf) as [Hok Hreg].
  assert (<[fd := mkFdData (poll_fds_index d) (fd_key d) (fd_remove d)]> (fd_data s) = fd_data s) as Eid. { destruct d. by apply insert_id. }
  rewrite Eid in Hok, Hreg. split; [exact Hok|]. split.
  - rewrite Hreg. apply map_eq. intros fd'. unfold reg_fired. rewrite map_lookup_imap. destruct (decide (fd = fd')) as [<-|E].
    + rewrite lookup_insert_eq, Hr. cbn. rewrite Hrm, bool_decide_true by set_solver. done.
    + rewrite lookup_insert_ne by done. destruct (registry s !! fd') as [x|]; [|done]. cbn. rewrite bool_decide_false by set_solver. by rewrite andb_false_r.
  - intros fd' Hne. unfold entry_of. cbn [poll_fds fd_data]. destruct (fd_data s !! fd') as [d'|] eqn:Hd'; [|done]. cbn.
    rewrite list_lookup_insert_ne; [done|]. intros E. by apply Hne, (index_inj nfd s fd' fd d' d).
Qed.

Definition ready_list s (order : list RawFd) : list RawFd := filter (fun fd => ready_fd s fd) order.

Lemma reg_fired_app l1 l2 r : reg_fired l2 (reg_fired l1 r) = reg_fired (l1 ++ l2) r.
Proof.
  apply map_eq. intros fd. unfold reg_fired. rewrite !map_lookup_imap. destruct (r !! fd) as [g|]; [|done]. cbn. f_equal.
  destruct (rg_oneshot g) eqn:Ho; cbn; [|by rewrite Ho].
  destruct (bool_decide (fd ∈ l1)) eqn:E1, (bool_decide (fd ∈ l2)) eqn:E2; cbn; rewrite ?Ho; cbn;
    rewrite ?bool_decide_eq_true, ?bool_decide_eq_false in *; repeat case_bool_decide; set_solver.
Qed.
Lemma reg_fired_nil r : reg_fired [] r = r.
Proof.
  apply map_eq. intros fd. unfold reg_fired. rewrite map_lookup_imap. destruct (r !! fd) as [g|]; [|done]. cbn. rewrite bool_decide_false by set_solver. by rewrite andb_false_r.
Qed.

Lemma ready_list_other s s' order :
  (forall fd, fd ∈ order -> entry_of s' fd = entry_of s fd) -> ready_list s' order = ready_list s order /\ (event_of s' <$> ready_list s order) = (event_of s <$> ready_list s order).
Proof.
  intros He. induction order as [|fd order IH]; [done|]. destruct IH as [IH1 IH2]; [set_solver|]. unfold ready_list in *.
  rewrite !filter_cons. assert (ready_fd s' fd = ready_fd s fd) as -> by (unfold ready_fd; rewrite He; set_solver). rewrite IH1. split; [done|].
  case_decide; [|done]. rewrite !fmap_cons, IH2. f_equal. unfold event_of. rewrite He; set_solver.
Qed.

Lemma store_events_spec nfd num order events s :
  fds_ok nfd s -> NoDup order -> (length events + length (ready_list s order))%nat = num ->
  runs (store_events num order events) s (fun evs s' => fds_ok nfd s' /\ evs = events ++ (event_of s <$> ready_list s order) /\
    registry s' = reg_fired (ready_list s order) (registry s)).
Proof.
  revert events s. induction order as [|fd order IH]; intros events s Hs Hnd Hnum.
  { eapply runs_eq; [done|]. cbn. by rewrite app_nil_r, reg_fired_nil. }
  apply NoDup_cons in Hnd as [Hfd Hnd]. cbn [store_events]. destruct (fd_data s !! fd) as [d|] eqn:Hd.
  2:{ assert (ready_list s (fd :: order) = ready_list s order) as E. { unfold ready_list. rewrite filter_cons, decide_False; [done|]. unfold ready_fd, entry_of. rewrite Hd. by intros []. }
      rewrite E in *. destruct (IH events s Hs Hnd Hnum) as (a & s' & He & HQ). eapply runs_eq; [rewrite Hd; exact He|exact HQ]. }
  destruct (entry_of_data nfd s fd d Hs Hd) as (p & Hen & Hp & Hf). destruct (pf_revents p =? 0) eqn:Hr.
  { assert (ready_list s (fd :: order) = ready_list s order) as E. { unfold ready_list. rewrite filter_cons, decide_False; [done|]. unfold ready_fd. rewrite Hen, Hr. by intros []. }
    rewrite E in *. destruct (IH events s Hs Hnd Hnum) as (a & s' & He & HQ). eapply runs_eq; [rewrite Hd, Hp, Hr; exact He|exact HQ]. }
  assert (ready_list s (fd :: order) = fd :: ready_list s order) as E. { unfold ready_list. rewrite filter_cons, decide_True; [done|]. unfold ready_fd. by rewrite Hen, Hr. }
  rewrite E in *. cbn [length] in Hnum. destruct (disarm_ok nfd s fd Hs) as (Hok & Hreg & Hoth).
  assert (disarm s fd = if fd_remove d then mkFds (<[poll_fds_index d := from_borrowed_fd (pf_fd p) 0]> (poll_fds s)) (fd_data s) else s) as Hdis by (unfold disarm; by rewrite Hen).
  assert (event_of s fd = mkEvent (fd_key d) (intersects (pf_revents p) read_events) (intersects (pf_revents p) write_events) (pf_revents p)) as Hev by (unfold event_of; by rewrite Hen).
  rewrite fmap_cons, Hev, cons_middle, app_assoc. set (ev := mkEvent _ _ _ _). change (fd :: ready_list s order) with ([fd] ++ ready_list s order).
  rewrite <- reg_fired_app, <- Hreg. destruct (ready_list_other s (disarm s fd) order) as [Hl Hevs]; [intros fd' Hin; apply Hoth; set_solver|].
  destruct (decide (length (events ++ [ev]) = num)) as [Hfull|Hmore].
  - assert (ready_list s order = []) as -> by (apply length_zero_iff_nil; rewrite length_app in Hfull; cbn in Hfull; lia).
    eapply runs_eq; [rewrite Hd, Hp, Hr, <- Hdis, bool_decide_true by done; reflexivity|]. split; [done|]. cbn. by rewrite app_nil_r, reg_fired_nil.
  - destruct (IH (events ++ [ev]) (disarm s fd) Hok Hnd) as (a & s' & He & Hok' & Ha & Hreg'); [rewrite Hl, length_app; cbn; lia|].
    eapply runs_eq; [rewrite Hd, Hp, Hr, <- Hdis, bool_decide_false by done; exact He|]. rewrite Hl in *. rewrite Hevs in Ha. done.
Qed.

(** Whatever the number of events, the loop keeps the invariant. *)
Lemma store_events_ok nfd num order events s : fds_ok nfd s -> runs (store_events num order events) s (fun _ s' => fds_ok nfd s').
Proof.
  revert events s. induction order as [|fd order IH]; intros events s Hs; [by eapply runs_eq|]. cbn [store_events].
  destruct (fd_data s !! fd) as [d|] eqn:Hd; [|destruct (IH events s Hs) as (a & s' & He & ?); eapply runs_eq; [rewrite Hd; exact He|done]].
  destruct (entry_of_data nfd s fd d Hs Hd) as (p & Hen & Hp & Hf).
  destruct (pf_revents p =? 0) eqn:Hr; [destruct (IH events s Hs) as (a & s' & He & ?); eapply runs_eq; [rewrite Hd, Hp, Hr; exact He|done]|].
  destruct (disarm_ok nfd s fd Hs) as (Hok & _). unfold disarm in Hok. rewrite Hen in Hok. set (s1 := if fd_remove d then _ else _) in *. pose (ev := mkEvent (fd_key d) (intersects (pf_revents p) read_events) (intersects (pf_revents p) write_events) (pf_revents p)).
  destruct (decide (length (events ++ [ev]) = num)) as [E|E].
  - eapply runs_eq; [rewrite Hd, Hp, Hr; fold s1; rewrite bool_decide_true by exact E; reflexivity|done].
  - destruct (IH (events ++ [ev]) s1 Hok) as (a & s' & He & ?).
    eapply runs_eq; [rewrite Hd, Hp, Hr; fold s1; rewrite bool_decide_false by exact E; exact He|done].
Qed.

(** ** The system call *)

Lemma set_revents_ok nfd rev s :
  fds_ok nfd s -> fds_ok nfd (mkFds (set_revents rev (poll_fds s)) (fd_data s)) /\ registry (mkFds (set_revents rev (poll_fds s)) (fd_data s)) = registry s.
Proof.
  intros Hs. unfold set_revents. split; [split; cbn [poll_fds fd_data]|].
  - destruct (fo_notify _ _ Hs) as (p & Hp & Hf). rewrite list_lookup_fmap, Hp. by eexists.
  - intros fd d Hd. destruct (fo_index _ _ Hs _ _ Hd) as (H0 & p & Hp & Hf). split; [done|]. rewrite list_lookup_fmap, Hp. by eexists.
  - intros i p Hp Hi. rewrite list_lookup_fmap in Hp. destruct (poll_fds s !! i) as [q|] eqn:Hq; [|done]. injection Hp as <-. by apply (fo_data _ _ Hs i q).
  - apply map_eq. intros fd. rewrite !registry_lookup. cbn [poll_fds fd_data]. destruct (fd_data s !! fd) as [d|]; [|done]. cbn. rewrite list_lookup_fmap.
    by destruct (poll_fds s !! poll_fds_index d).
Qed.

(** The descriptors in the vector, after the first, are those of the map. *)
Lemma fds_listed nfd s order :
  fds_ok nfd s -> NoDup order -> (forall fd, fd ∈ order <-> is_Some (fd_data s !! fd)) -> order ≡ₚ pf_fd <$> tail (poll_fds s).
Proof.
  intros Hs Hnd Hdom. assert (forall i p, tail (poll_fds s) !! i = Some p <-> poll_fds s !! S i = Some p) as Ht by (intros; by destruct (poll_fds s)).
  apply NoDup_Permutation; [done| |].
  - apply NoDup_alt. intros i j fd Hi Hj. rewrite list_lookup_fmap in Hi, Hj.
    destruct (tail (poll_fds s) !! i) as [p|] eqn:Hp; [|done]. destruct (tail (poll_fds s) !! j) as [q|] eqn:Hq; [|done]. injection Hi as <-. injection Hj as Hj.
    apply Ht in Hp, Hq. destruct (fo_data _ _ Hs _ _ Hp) as (d & Hd & Hi); [lia|]. destruct (fo_data _ _ Hs _ _ Hq) as (e & He & Hj'); [lia|]. rewrite Hj, Hd in He.
    injection He as <-. lia.
  - intros fd. rewrite Hdom, list_elem_of_fmap. split.
    + intros [d Hd]. destruct (fo_index _ _ Hs _ _ Hd) as (H0 & p & Hp & <-). exists p. split; [done|]. apply list_elem_of_lookup. exists (pred (poll_fds_index d)).
      apply Ht. by rewrite Nat.succ_pred by lia.
    + intros (p & -> & [i Hi]%list_elem_of_lookup). apply Ht in Hi. destruct (fo_data _ _ Hs _ _ Hi) as (d & Hd & _); [lia|]. by eexists.
Qed.

Lemma ready_count nfd s order :
  fds_ok nfd s -> NoDup order -> (forall fd, fd ∈ order <-> is_Some (fd_data s !! fd)) -> length (ready_list s order) = num_events (tail (poll_fds s)).
Proof.
  intros Hs Hnd Hdom. unfold ready_list. rewrite (fds_listed nfd s order Hs Hnd Hdom). unfold num_events.
  assert (forall p, p ∈ tail (poll_fds s) -> ready_fd s (pf_fd p) = negb (pf_revents p =? 0)) as Hr.
  { intros p [i Hi]%list_elem_of_lookup. assert (poll_fds s !! S i = Some p) as Hp by (by destruct (poll_fds s)).
    destruct (fo_data _ _ Hs _ _ Hp) as (d & Hd & Hx); [lia|]. unfold ready_fd, entry_of. rewrite Hd. cbn. by rewrite Hx, Hp. }
  induction (tail (poll_fds s)) as [|p l IH]; [done|]. rewrite fmap_cons, !filter_cons, Hr by set_solver.
  destruct (Z.eqb_spec (pf_revents p) 0); cbn [negb]; [rewrite decide_False, decide_False by (by intros []); apply IH; set_solver|].
  rewrite decide_True, decide_True by done. cbn. f_equal. apply IH. set_solver.
Qed.

Lemma poll_result_spec nfd rev s :
  fds_ok nfd s ->
  let s' := mkFds (set_revents rev (poll_fds s)) (fd_data s) in
  poll_result rev s = Done (negb (rev nfd =? 0), num_events (tail (poll_fds s')), s').
Proof.
  intros Hs s'. destruct (fo_notify _ _ Hs) as (p & Hp & Hf). unfold poll_result. subst s'. cbn [poll_fds].
  assert (poll_fds s = p :: tail (poll_fds s)) as E by (destruct (poll_fds s); [done|]; by injection Hp as ->). rewrite E. cbn [set_revents fmap list_fmap lookup list_lookup pf_revents tail].
  rewrite Hf. unfold num_events. rewrite filter_cons. cbn [pf_revents]. destruct (Z.eqb_spec (rev nfd) 0) as [E0|E0]; cbn [negb andb].
  - by rewrite decide_False by auto.
  - by rewrite decide_True by auto.
Qed.
End spec.
