(* ===== verification/PollSys.v ===== *)
(** * The threads of a [Poller]

    The [poll] backend of geario-polling/src/poll.rs under [Poller] of
    geario-polling/src/lib.rs: a thread that waits, threads that change the
    registry ([modify_fds]) and threads that notify, in any interleaving of
    their accesses to what they share: the mutex of the descriptors, the
    condition variable, the atomics and the notification pipe.

    A thread is the point it has reached; [ps_step] takes one thread to its
    next point, or is not enabled ([None]).  A write to the pipe succeeds, and
    a read of the empty pipe fails with [WouldBlock].  What a thread does last
    before it gives the mutex up, and giving it up, are one step. *)
From Stdlib Require Import ZArith Lia.
From stdpp Require Import base numbers gmap list.
From S2P Require Import Prelude PollFds PollFdsSpec.

Definition NOTIFY_KEY : Z := 2 ^ 64 - 1.

(** The thread in [wait_impl], which holds the lock of [Poller] there. *)
Inductive waiter :=
| WIdle
(** [self.fds.lock()]. *)
| WLock
(** The inner loop: the flag, then the number of operations. *)
| WCheck
| WCheckOps
(** In [operations_complete.wait], notified or not. *)
| WSleep (woken : bool)
(** In [poll]; and after it. *)
| WPoll
| WPolled (notified : bool) (num_fd_events : nat)
| WSwap (notified : bool) (num_fd_events : nat)
| WStore (num_fd_events : nat)
(** [return self.notify.pop_notification()]. *)
| WPop
(** Back in [wait_impl], with the result. *)
| WRet (r : () + io_kind)
| WDone (r : nat + io_kind).

(** A thread in [modify_fds]. *)
Inductive op_phase := OpWrite | OpLock | OpPop | OpApply | OpSub (r : () + io_kind) | OpWake (r : () + io_kind) | OpDone (r : () + io_kind).

(** A thread in [notify]. *)
Inductive ntf_phase := NtSwap | NtWrite | NtWake | NtDone.

(** The thread that holds the mutex. *)
Inductive holder := HWaiter | HOp (i : nat).
#[export] Instance holder_eq_dec : EqDecision holder.
Proof. solve_decision. Defined.

Record Poller := mkPoller {
  po_fds : Fds;
  po_lock : option holder;
  po_pipe : nat;
  (** [notified] of the backend, and of [Poller]. *)
  po_notified : bool;
  po_outer : bool;
  po_waiting : nat;
  po_events : list Event;
  po_waiter : waiter;
  po_ops : gmap nat (fd_op * op_phase);
  po_ntfs : gmap nat ntf_phase;
}.

Section updates.
Implicit Types y : Poller.
Definition set_fds x y := mkPoller x (po_lock y) (po_pipe y) (po_notified y) (po_outer y) (po_waiting y) (po_events y) (po_waiter y) (po_ops y) (po_ntfs y).
Definition set_lock x y := mkPoller (po_fds y) x (po_pipe y) (po_notified y) (po_outer y) (po_waiting y) (po_events y) (po_waiter y) (po_ops y) (po_ntfs y).
Definition set_pipe x y := mkPoller (po_fds y) (po_lock y) x (po_notified y) (po_outer y) (po_waiting y) (po_events y) (po_waiter y) (po_ops y) (po_ntfs y).
Definition set_notified x y := mkPoller (po_fds y) (po_lock y) (po_pipe y) x (po_outer y) (po_waiting y) (po_events y) (po_waiter y) (po_ops y) (po_ntfs y).
Definition set_outer x y := mkPoller (po_fds y) (po_lock y) (po_pipe y) (po_notified y) x (po_waiting y) (po_events y) (po_waiter y) (po_ops y) (po_ntfs y).
Definition set_waiting x y := mkPoller (po_fds y) (po_lock y) (po_pipe y) (po_notified y) (po_outer y) x (po_events y) (po_waiter y) (po_ops y) (po_ntfs y).
Definition set_events x y := mkPoller (po_fds y) (po_lock y) (po_pipe y) (po_notified y) (po_outer y) (po_waiting y) x (po_waiter y) (po_ops y) (po_ntfs y).
Definition set_waiter x y := mkPoller (po_fds y) (po_lock y) (po_pipe y) (po_notified y) (po_outer y) (po_waiting y) (po_events y) x (po_ops y) (po_ntfs y).
Definition set_op i x y := mkPoller (po_fds y) (po_lock y) (po_pipe y) (po_notified y) (po_outer y) (po_waiting y) (po_events y) (po_waiter y) (<[i := x]> (po_ops y)) (po_ntfs y).
Definition set_ntf j x y := mkPoller (po_fds y) (po_lock y) (po_pipe y) (po_notified y) (po_outer y) (po_waiting y) (po_events y) (po_waiter y) (po_ops y) (<[j := x]> (po_ntfs y)).
End updates.

(** [notify_one] of the condition variable. *)
Definition notify_one (y : Poller) : Poller := match po_waiter y with WSleep _ => set_waiter (WSleep true) y | _ => y end.

(** [len] of [Events] leaves the notification out. *)
Definition events_len (evs : list Event) : nat := length (filter (fun ev => ev_key ev <> NOTIFY_KEY) evs).

(** What happens next; the environment chooses what [poll] returns, and the
    order in which the map is iterated. *)
Inductive ps_act :=
| AWait (evs : list Event)
| AWaiter
| APoll (r : (RawFd -> Z) + io_kind)
| AStore (order : list RawFd)
| ASpurious
| AOp (i : nat) (op : fd_op)
| AOpStep (i : nat)
| ANotify (j : nat)
| ANtfStep (j : nat).

Section poller.
Context {abi : PollAbi} (read_fd write_fd : RawFd).

Definition poller_new : Poller := mkPoller (fds_new read_fd) None 0 false false 0 [] WIdle ∅ ∅.

Definition has_fd (fd : RawFd) : bool := bool_decide (read_fd = fd) || bool_decide (write_fd = fd).
(** [add_with_mode] and [modify_with_mode] refuse the key of the notification. *)
Definition op_refused (op : fd_op) : bool :=
  match op with FdAdd _ ev _ | FdModify _ ev _ => ev_key ev =? NOTIFY_KEY | FdDelete _ => false end || has_fd (fd_of op).

Definition unlock_ret (r : () + io_kind) (y : Poller) : Poller := set_waiter (WRet r) (set_lock None y).

(** [wait_impl]: a call that finds the lock of [Poller] taken returns at once;
    and what a call does with the result of [wait_deadline]. *)
Definition wait_call (evs : list Event) (y : Poller) : Poller :=
  match po_waiter y with WIdle | WDone _ => set_waiter WLock (set_events evs y) | _ => y end.
Definition wait_return (r : () + io_kind) (y : Poller) : Poller :=
  match r with
  | inr Interrupted => set_waiter WLock (set_events [] y)
  | inr e => set_waiter (WDone (inr e)) y
  | inl _ => set_waiter (WDone (inl (events_len (po_events y)))) (set_outer false y)
  end.

(** [wait_deadline], but for [poll] and the events. *)
Definition waiter_step (y : Poller) : option Poller :=
  match po_waiter y with
  | WLock => match po_lock y with None => Some (set_waiter WCheck (set_lock (Some HWaiter) y)) | Some _ => None end
  | WCheck => Some (if po_notified y then set_waiter WPop (set_notified false y) else set_waiter WCheckOps y)
  | WCheckOps => Some (if (po_waiting y =? 0)%nat then set_waiter WPoll y else set_waiter (WSleep false) (set_lock None y))
  | WSleep true => match po_lock y with None => Some (set_waiter WCheck (set_lock (Some HWaiter) y)) | Some _ => None end
  | WPolled notified n => Some (set_waiter (WSwap notified n) (if notified then set_pipe 0 y else y))
  | WSwap notified n =>
      let y' := set_notified false y in
      Some (set_waiter (if negb (po_notified y) && (n =? 0)%nat && notified then WCheck else WStore n) y')
  | WPop => Some (if (po_pipe y =? 0)%nat then unlock_ret (inr WouldBlock) y else unlock_ret (inl tt) (set_pipe (pred (po_pipe y)) y))
  | WRet r => Some (wait_return r y)
  | WIdle | WSleep false | WPoll | WStore _ | WDone _ => None
  end.

(** [poll] returns; the pipe is readable when it holds a byte. *)
Definition poll_step (r : (RawFd -> Z) + io_kind) (y : Poller) : option (outcome Poller) :=
  match po_waiter y with
  | WPoll =>
      match r with
      | inr e => Some (Done (unlock_ret (inr e) y))
      | inl rev =>
          if bool_decide (rev read_fd = 0 <-> po_pipe y = 0%nat) then
            Some (match poll_result rev (po_fds y) with
                  | Done (notified, n, s) => Done (set_waiter (WPolled notified n) (set_fds s y))
                  | Fault f => Fault f
                  end)
          else None
      end
  | _ => None
  end.

(** The events are stored, in the order of the map. *)
Definition store_step (order : list RawFd) (y : Poller) : option (outcome Poller) :=
  match po_waiter y with
  | WStore n =>
      if bool_decide (NoDup order /\ list_to_set order =@{gset RawFd} dom (fd_data (po_fds y))) then
        Some (if (n =? 0)%nat then Done (unlock_ret (inl tt) y)
              else match store_events n order (po_events y) (po_fds y) with
                   | Done (evs, s) => Done (unlock_ret (inl tt) (set_events evs (set_fds s y)))
                   | Fault f => Fault f
                   end)
      else None
  | _ => None
  end.

(** [modify_fds], of the call and of its thread. *)
Definition op_call (i : nat) (op : fd_op) (y : Poller) : option Poller :=
  match po_ops y !! i with
  | Some _ => None
  | None => Some (if op_refused op then set_op i (op, OpDone (inr InvalidInput)) y else set_op i (op, OpWrite) (set_waiting (S (po_waiting y)) y))
  end.
Definition op_step (i : nat) (y : Poller) : option (outcome Poller) :=
  match po_ops y !! i with
  | None | Some (_, OpDone _) => None
  | Some (op, OpWrite) => Some (Done (set_op i (op, OpLock) (set_pipe (S (po_pipe y)) y)))
  | Some (op, OpLock) => match po_lock y with None => Some (Done (set_op i (op, OpPop) (set_lock (Some (HOp i)) y))) | Some _ => None end
  | Some (op, OpPop) => Some (Done (set_op i (op, OpApply) (set_pipe (pred (po_pipe y)) y)))
  | Some (op, OpApply) =>
      Some (match fds_op op (po_fds y) with Done (r, s) => Done (set_op i (op, OpSub r) (set_fds s y)) | Fault f => Fault f end)
  | Some (op, OpSub r) =>
      let y' := set_waiting (pred (po_waiting y)) y in
      Some (Done (if (po_waiting y =? 1)%nat then set_op i (op, OpWake r) y' else set_op i (op, OpDone r) (set_lock None y')))
  | Some (op, OpWake r) => Some (Done (set_op i (op, OpDone r) (set_lock None (notify_one y))))
  end.

(** [notify] of [Poller], then of the backend. *)
Definition notify_call (j : nat) (y : Poller) : option Poller :=
  match po_ntfs y !! j with
  | Some _ => None
  | None => Some (if po_outer y then set_ntf j NtDone y else set_ntf j NtSwap (set_outer true y))
  end.
Definition ntf_step (j : nat) (y : Poller) : option Poller :=
  match po_ntfs y !! j with
  | None | Some NtDone => None
  | Some NtSwap => Some (if po_notified y then set_ntf j NtDone y else set_ntf j NtWrite (set_notified true y))
  | Some NtWrite => Some (set_ntf j NtWake (set_pipe (S (po_pipe y)) y))
  | Some NtWake => Some (set_ntf j NtDone (notify_one y))
  end.

(** The scheduler.  A condition variable may wake its thread for no reason. *)
Definition ps_step (a : ps_act) (y : Poller) : option (outcome Poller) :=
  match a with
  | AWait evs => Some (Done (wait_call evs y))
  | AWaiter => Done <$> waiter_step y
  | APoll r => poll_step r y
  | AStore order => store_step order y
  | ASpurious => match po_waiter y with WSleep false => Some (Done (set_waiter (WSleep true) y)) | _ => None end
  | AOp i op => Done <$> op_call i op y
  | AOpStep i => op_step i y
  | ANotify j => Done <$> notify_call j y
  | ANtfStep j => Done <$> ntf_step j y
  end.

(** Running a schedule; [None] if a step of it was not enabled. *)
Fixpoint ps_exec (acts : list ps_act) (y : Poller) : option (outcome Poller) :=
  match acts with
  | [] => Some (Done y)
  | a :: acts => match ps_step a y with Some (Done y) => ps_exec acts y | o => o end
  end.
End poller.
