(* ===== verification/PollSysInv.v ===== *)
(** * The invariant of the threads of a [Poller]

    Every step of every thread keeps it. *)
From Stdlib Require Import ZArith Lia.
From stdpp Require Import base numbers gmap list.
From S2P Require Import Prelude PollFds PollFdsSpec PollSys.

(** ** Counting the operations *)

(** The operation is counted by [waiting_operations]. *)
Definition op_busy (ph : op_phase) : bool := match ph with OpWake _ | OpDone _ => false | _ => true end.
Definition busy_ops (ops : gmap nat (fd_op * op_phase)) : nat := size (filter (fun x => op_busy x.2.2 = true) ops).
Definition busy_at (x : option (fd_op * op_phase)) : nat := match x with Some (_, ph) => if op_busy ph then 1 else 0 | None => 0 end.

Lemma busy_ops_delete i ops : busy_ops ops = (busy_ops (delete i ops) + busy_at (ops !! i))%nat.
Proof.
  unfold busy_ops. rewrite map_filter_delete. set (F := filter _ ops). destruct (ops !! i) as [[op ph]|] eqn:Hi; cbn.
  - destruct (op_busy ph) eqn:Hb.
    + assert (F !! i = Some (op, ph)) as Hf by (by apply map_lookup_filter_Some).
      rewrite map_size_delete_Some by (by eexists). assert (size F <> 0)%nat; [|lia]. apply map_size_ne_0_lookup. by exists i, (op, ph).
    + rewrite delete_id; [lia|]. apply map_lookup_filter_None. right. intros x Hx. rewrite Hi in Hx. injection Hx as <-. cbn. by rewrite Hb.
  - rewrite delete_id; [lia|]. apply map_lookup_filter_None. by left.
Qed.
Lemma busy_ops_insert i x ops : busy_ops (<[i := x]> ops) = (busy_ops (delete i ops) + busy_at (Some x))%nat.
Proof. by rewrite (busy_ops_delete i), delete_insert_eq, lookup_insert_eq. Qed.
Lemma busy_ops_pos ops : (0 < busy_ops ops)%nat -> exists i op ph, ops !! i = Some (op, ph) /\ op_busy ph = true.
Proof.
  intros H. assert (busy_ops ops <> 0)%nat as H' by lia. apply map_size_ne_0_lookup in H' as (i & [[op ph] Hi]). apply map_lookup_filter_Some in Hi as [Hi Hb]. by exists i, op, ph.
Qed.

(** ** The invariant *)

Definition waiter_holds (w : waiter) : bool :=
  match w with WCheck | WCheckOps | WPoll | WPolled _ _ | WSwap _ _ | WStore _ | WPop => true | _ => false end.
Definition op_holds (ph : op_phase) : bool := match ph with OpPop | OpApply | OpSub _ | OpWake _ => true | _ => false end.

(** The waiter is about to poll, or polls. *)
Definition waiter_polls (w : waiter) : bool := match w with WCheckOps | WPoll => true | _ => false end.

Section inv.
Context {abi : PollAbi} (read_fd write_fd : RawFd).

Record ps_inv (y : Poller) : Prop := {
  pi_fds : fds_ok read_fd (po_fds y);
  (** The mutex excludes. *)
  pi_waiter : po_lock y = Some HWaiter <-> waiter_holds (po_waiter y) = true;
  pi_op i : po_lock y = Some (HOp i) <-> exists op ph, po_ops y !! i = Some (op, ph) /\ op_holds ph = true;
  pi_waiting : po_waiting y = busy_ops (po_ops y);
  (** An operation that waits for the mutex while the waiter polls has left a
      byte in the pipe. *)
  pi_poll : po_waiter y = WPoll -> forall i op, po_ops y !! i = Some (op, OpLock) -> (0 < po_pipe y)%nat;
  (** So has a notification, or its thread is about to. *)
  pi_flag : waiter_polls (po_waiter y) = true -> po_notified y = true -> (0 < po_pipe y)%nat \/ exists j, po_ntfs y !! j = Some NtWrite;
  (** The waiter sleeps only if an operation is going to wake it. *)
  pi_sleep : po_waiter y = WSleep false -> (0 < po_waiting y)%nat \/ exists i op r, po_ops y !! i = Some (op, OpWake r);
}.

Lemma new_ps_inv : ps_inv (poller_new read_fd).
Proof.
  split; cbn; [apply fds_new_ok|done|..]; try done. intros i. split; [done|]. intros (op & ph & H & _). done.
Qed.

(** ** The waiter *)

(** The waiter moves on with the mutex, or gives it up. *)
Lemma waiter_moves y w l pipe notified outer evs s :
  ps_inv y -> fds_ok read_fd s -> (forall i, po_lock y <> Some (HOp i)) -> l = (if waiter_holds w then Some HWaiter else None) -> w <> WPoll ->
  (waiter_polls w = true -> notified = false) -> (w = WSleep false -> (0 < po_waiting y)%nat) ->
  ps_inv (mkPoller s l pipe notified outer (po_waiting y) evs w (po_ops y) (po_ntfs y)).
Proof.
  intros Hy Hs Hl -> Hw Hf Hsl. split; cbn; [done|by destruct (waiter_holds w)| |apply Hy|done| |].
  - intros i. split; [by destruct (waiter_holds w)|]. intros H. apply (pi_op _ Hy) in H. by destruct (Hl i).
  - intros Hp Hn. rewrite (Hf Hp) in Hn. done.
  - intros Hx. left. by apply Hsl.
Qed.

Lemma waiter_alone y : ps_inv y -> waiter_holds (po_waiter y) = true \/ po_lock y = None -> forall i, po_lock y <> Some (HOp i).
Proof. intros Hy [H|H] i; [apply (pi_waiter _ Hy) in H|]; congruence. Qed.

Lemma waiter_locked y : ps_inv y -> waiter_holds (po_waiter y) = true -> po_lock y = Some HWaiter.
Proof. intros Hy. by apply pi_waiter. Qed.

Ltac waiter_moves y Hl := apply (waiter_moves y); [done|try done|by auto|cbn; by rewrite ?Hl|done|done|try done].

(** The waiter moves on without the mutex. *)
Lemma waiter_away y w outer evs :
  ps_inv y -> waiter_holds (po_waiter y) = false -> waiter_holds w = false -> w <> WSleep false ->
  ps_inv (mkPoller (po_fds y) (po_lock y) (po_pipe y) (po_notified y) outer (po_waiting y) evs w (po_ops y) (po_ntfs y)).
Proof.
  intros Hy H1 H2 H3. split; cbn; [apply Hy|by rewrite (pi_waiter _ Hy), H1, H2|apply Hy|apply Hy|by intros ->|by destruct w|done].
Qed.

Lemma waiter_step_inv y y' : ps_inv y -> waiter_step y = Some y' -> ps_inv y'.
Proof.
  intros Hy H. unfold waiter_step in H. pose proof (waiter_alone y Hy) as Ha. pose proof (waiter_locked y Hy) as Hk. pose proof (pi_fds _ Hy) as Hs.
  destruct (po_waiter y) as [| | | |[]| |b n|b n|n| |[[]|e]|r] eqn:Hw; try done; cbn [waiter_holds] in *.
  - destruct (po_lock y) eqn:Hl; [done|]. injection H as <-. rewrite <- Hl in *. waiter_moves y Hl.
  - specialize (Hk eq_refl). injection H as <-. destruct (po_notified y) eqn:Hn; waiter_moves y Hk.
  - specialize (Hk eq_refl). injection H as <-. destruct (Nat.eqb_spec (po_waiting y) 0) as [E|E]; [|waiter_moves y Hk; intros _; lia].
    split; cbn; [done|by rewrite (pi_waiter _ Hy), Hw|apply Hy|apply Hy| |intros _; apply Hy; by rewrite Hw|done].
    intros _ i op Hi. pose proof (pi_waiting _ Hy) as Hc. rewrite (busy_ops_delete i), Hi in Hc. cbn in Hc. lia.
  - destruct (po_lock y) eqn:Hl; [done|]. injection H as <-. rewrite <- Hl in *. waiter_moves y Hl.
  - specialize (Hk eq_refl). injection H as <-. destruct b; waiter_moves y Hk.
  - specialize (Hk eq_refl). injection H as <-. destruct (negb (po_notified y) && (n =? 0)%nat && b); waiter_moves y Hk.
  - specialize (Hk eq_refl). injection H as <-. destruct (po_pipe y =? 0)%nat; waiter_moves y Hk.
  - injection H as <-. by apply (waiter_away y); rewrite ?Hw.
  - injection H as <-. destruct e; by apply (waiter_away y); rewrite ?Hw.
Qed.

(** ** The operations *)

Definition op_lock (i : nat) (ph ph' : op_phase) (l l' : option holder) : Prop :=
  if op_holds ph' then (op_holds ph = true \/ l = None) /\ l' = Some (HOp i) else if op_holds ph then l' = None else l' = l.

Lemma op_moves y i op ph ph' s l pipe n w :
  ps_inv y -> po_ops y !! i = Some (op, ph) -> fds_ok read_fd s -> op_lock i ph ph' (po_lock y) l ->
  (n + busy_at (Some (op, ph)) = po_waiting y + busy_at (Some (op, ph')))%nat ->
  w = po_waiter y \/ ((exists b, po_waiter y = WSleep b) /\ w = WSleep true) ->
  (waiter_holds (po_waiter y) = true -> (po_pipe y <= pipe)%nat) -> (ph' = OpLock -> (0 < pipe)%nat) ->
  (w = WSleep false -> (0 < n)%nat \/ exists i' op' r, <[i := (op, ph')]> (po_ops y) !! i' = Some (op', OpWake r)) ->
  ps_inv (mkPoller s l pipe (po_notified y) (po_outer y) n (po_events y) w (<[i := (op, ph')]> (po_ops y)) (po_ntfs y)).
Proof.
  intros Hy Hi Hs Hl Hn Hw Hp Hk Hsl. assert (waiter_holds w = waiter_holds (po_waiter y)) as Ew by (destruct Hw as [->|[[b ->] ->]]; done).
  assert (waiter_polls w = true -> w = po_waiter y) as Ep by (destruct Hw as [->|[_ ->]]; done).
  assert (op_holds ph = true -> po_lock y = Some (HOp i)) as Hheld. { intros H. apply (pi_op _ Hy). eauto. }
  split; cbn; [done| | | | | |done].
  - rewrite Ew, <- (pi_waiter _ Hy). unfold op_lock in Hl. destruct (op_holds ph') eqn:E'; [|destruct (op_holds ph) eqn:E; subst l; [by rewrite Hheld|done]].
    destruct Hl as [[E| ->] ->]; [by rewrite Hheld|done].
  - intros k. destruct (decide (i = k)) as [<-|Hne].
    + rewrite lookup_insert_eq. unfold op_lock in Hl. split.
      * intros E. exists op, ph'. split; [done|]. destruct (op_holds ph') eqn:E'; [done|]. destruct (op_holds ph) eqn:E1; [congruence|]. subst l.
        apply (pi_op _ Hy) in E as (? & ? & E & ?). rewrite Hi in E. injection E as <- <-. congruence.
      * intros (? & ? & [= <- <-] & E). rewrite E in Hl. by destruct Hl as [_ ->].
    + rewrite lookup_insert_ne by done. rewrite <- (pi_op _ Hy). unfold op_lock in Hl.
      destruct (op_holds ph') eqn:E'; [|destruct (op_holds ph) eqn:E; subst l; [rewrite Hheld by done; naive_solver|done]].
      destruct Hl as [[E| ->] ->]; [rewrite Hheld by done; naive_solver|naive_solver].
  - rewrite busy_ops_insert. pose proof (pi_waiting _ Hy) as Hc. rewrite (busy_ops_delete i), Hi in Hc. lia.
  - intros -> k op'. assert (po_waiter y = WPoll) as Hwp by (symmetry; by apply Ep). assert (po_pipe y <= pipe)%nat as Hle by (apply Hp; by rewrite Hwp).
    rewrite lookup_insert. case_decide; [intros [= _ E]; by apply Hk|]. intros H'. pose proof (pi_poll _ Hy Hwp k op' H'). lia.
  - intros H1 H2. specialize (Ep H1). rewrite Ep in H1. destruct (pi_flag _ Hy H1 H2) as [H3|H3]; [left|by right].
    assert (po_pipe y <= pipe)%nat; [|lia]. apply Hp. by destruct (po_waiter y).
Qed.

(** Another operation goes on waking the sleeper. *)
Lemma sleep_other y i op ph ph' :
  ps_inv y -> po_ops y !! i = Some (op, ph) -> (forall r, ph <> OpWake r) -> po_waiter y = WSleep false ->
  (0 < po_waiting y)%nat \/ exists i' op' r, <[i := (op, ph')]> (po_ops y) !! i' = Some (op', OpWake r).
Proof.
  intros Hy Hi Hne Hw. destruct (pi_sleep _ Hy Hw) as [H|(k & op' & r & Hk)]; [by left|]. right. exists k, op', r. rewrite lookup_insert_ne; [done|].
  intros ->. rewrite Hi in Hk. injection Hk as <- ->. by destruct (Hne r).
Qed.

Lemma op_step_inv i y o : ps_inv y -> op_step i y = Some o -> exists y', o = Done y' /\ ps_inv y'.
Proof.
  intros Hy H. unfold op_step in H. destruct (po_ops y !! i) as [[op ph]|] eqn:Hi; [|done]. pose proof (pi_fds _ Hy) as Hs.
  assert (op_holds ph = true -> waiter_holds (po_waiter y) = false /\ po_lock y = Some (HOp i)) as Hx.
  { intros Hh. assert (po_lock y = Some (HOp i)) as Hl by (apply (pi_op _ Hy); eauto). split; [|done].
    destruct (waiter_holds (po_waiter y)) eqn:E; [|done]. apply (pi_waiter _ Hy) in E. congruence. }
  destruct ph as [| | | |r|r|r]; cbn [op_holds] in Hx; try done.
  - injection H as <-. eexists. split; [done|]. apply (op_moves y i op OpWrite OpLock); [done|done|done|done|cbn; lia|by left|cbn; lia|cbn; lia|]. intros Hw. by apply (sleep_other y i op OpWrite OpLock).
  - destruct (po_lock y) eqn:Hl; [done|]. injection H as <-. eexists. split; [done|].
    apply (op_moves y i op OpLock OpPop); [done|done|done|cbn; rewrite ?Hl; by auto|cbn; lia|by left|cbn; lia|done|]. intros Hw. by apply (sleep_other y i op OpLock OpPop).
  - destruct (Hx eq_refl) as [Hx' Hl]. injection H as <-. eexists. split; [done|].
    apply (op_moves y i op OpPop OpApply); [done|done|done|cbn; rewrite ?Hl; by auto|cbn; lia|by left|by rewrite Hx'|done|]. intros Hw. by apply (sleep_other y i op OpPop OpApply).
  - destruct (Hx eq_refl) as [Hx' Hl]. destruct (fds_op_spec read_fd op (po_fds y) Hs) as (r & s & He & Hok & _). rewrite He in H. injection H as <-. eexists. split; [done|].
    apply (op_moves y i op OpApply (OpSub r)); [done|done|done|cbn; rewrite ?Hl; by auto|cbn; lia|by left|by rewrite Hx'|done|]. intros Hw. by apply (sleep_other y i op OpApply (OpSub r)).
  - destruct (Hx eq_refl) as [Hx' Hl]. injection H as <-. eexists. split; [done|].
    assert (0 < po_waiting y)%nat as Hpos. { rewrite (pi_waiting _ Hy), (busy_ops_delete i), Hi. cbn. lia. }
    destruct (Nat.eqb_spec (po_waiting y) 1) as [E|E].
    + apply (op_moves y i op (OpSub r) (OpWake r)); [done|done|done|cbn; rewrite ?Hl; by auto|cbn; lia|by left|by rewrite Hx'|done|]. intros _. right. exists i, op, r. apply lookup_insert_eq.
    + apply (op_moves y i op (OpSub r) (OpDone r)); [done|done|done|cbn; rewrite ?Hl; by auto|cbn; lia|by left|by rewrite Hx'|done|]. intros _. left. cbn. lia.
  - destruct (Hx eq_refl) as [Hx' Hl]. injection H as <-. eexists. split; [done|]. unfold notify_one. destruct (po_waiter y) eqn:Hw;
      (apply (op_moves y i op (OpWake r) (OpDone r)); [done|done|done|cbn; rewrite ?Hl; by auto|cbn; lia|cbn; rewrite Hw; eauto|cbn; by rewrite Hw|done|cbn; by rewrite ?Hw]).
Qed.

(** ** The notifications *)

Lemma ntf_moves y j ph ph' pipe notified outer w :
  ps_inv y -> po_ntfs y !! j = ph -> w = po_waiter y \/ ((exists b, po_waiter y = WSleep b) /\ w = WSleep true) -> (po_pipe y <= pipe)%nat ->
  (notified = true -> po_notified y = true \/ ph' = NtWrite) -> (ph = Some NtWrite -> (0 < pipe)%nat) ->
  ps_inv (mkPoller (po_fds y) (po_lock y) pipe notified outer (po_waiting y) (po_events y) w (po_ops y) (<[j := ph']> (po_ntfs y))).
Proof.
  intros Hy Hj Hw Hp Hn Hk. assert (waiter_holds w = waiter_holds (po_waiter y)) as Ew by (destruct Hw as [->|[[b ->] ->]]; done).
  assert (waiter_polls w = true -> w = po_waiter y) as Ep by (destruct Hw as [->|[_ ->]]; done).
  split; cbn; [apply Hy|by rewrite Ew, (pi_waiter _ Hy)|apply Hy|apply Hy| | |].
  - intros -> i op Hi. rewrite (Ep eq_refl) in *. pose proof (pi_poll _ Hy (eq_sym (Ep eq_refl)) i op Hi). lia.
  - intros H1 H2. specialize (Ep H1). rewrite Ep in H1. destruct (Hn H2) as [H3| ->]; [|right; exists j; apply lookup_insert_eq].
    destruct (pi_flag _ Hy H1 H3) as [H4|[k H4]]; [left; lia|]. destruct (decide (j = k)) as [<-|Hne]; [left; apply Hk; congruence|].
    right. exists k. by rewrite lookup_insert_ne.
  - intros ->. destruct Hw as [E|[_ E]]; [|done]. by apply Hy.
Qed.

Lemma ntf_step_inv j y y' : ps_inv y -> ntf_step j y = Some y' -> ps_inv y'.
Proof.
  intros Hy H. unfold ntf_step in H. destruct (po_ntfs y !! j) as [ph|] eqn:Hj; [|done]. destruct ph; try done; injection H as <-.
  - destruct (po_notified y) eqn:Hn; by apply (ntf_moves y j (Some NtSwap)); auto.
  - apply (ntf_moves y j (Some NtWrite)); cbn; auto; lia.
  - unfold notify_one. destruct (po_waiter y) eqn:Hw; (by apply (ntf_moves y j (Some NtWake)); cbn; rewrite ?Hw; eauto).
Qed.

(** ** Every step *)

Lemma start_op_inv y i op ph n :
  ps_inv y -> po_ops y !! i = None -> (ph = OpWrite /\ n = S (po_waiting y)) \/ ((exists r, ph = OpDone r) /\ n = po_waiting y) ->
  ps_inv (mkPoller (po_fds y) (po_lock y) (po_pipe y) (po_notified y) (po_outer y) n (po_events y) (po_waiter y) (<[i := (op, ph)]> (po_ops y)) (po_ntfs y)).
Proof.
  intros Hy Hi Hph. assert (op_holds ph = false /\ ph <> OpLock) as [Hh Hl] by (destruct Hph as [[-> _]|[[r ->] _]]; done).
  split; cbn; [apply Hy|apply Hy| | | |apply Hy|].
  - intros k. rewrite (pi_op _ Hy), lookup_insert. case_decide; [subst k|done]. rewrite Hi. naive_solver.
  - rewrite busy_ops_insert. pose proof (pi_waiting _ Hy) as Hc. rewrite (busy_ops_delete i), Hi in Hc. cbn in Hc.
    destruct Hph as [[-> ->]|[[r ->] ->]]; cbn; lia.
  - intros Hw k op'. rewrite lookup_insert. case_decide; [naive_solver|]. by apply Hy.
  - intros Hw. destruct (pi_sleep _ Hy Hw) as [H|(k & op' & r & Hk)]; [left; destruct Hph as [[_ ->]|[_ ->]]; lia|].
    right. exists k, op', r. rewrite lookup_insert_ne; [done|]. congruence.
Qed.

Lemma poll_step_inv r y o : ps_inv y -> ps_step read_fd write_fd (APoll r) y = Some o -> exists y', o = Done y' /\ ps_inv y'.
Proof.
  intros Hy H. cbn [ps_step] in H. unfold poll_step in H. destruct (po_waiter y) eqn:Hw; try done. pose proof (pi_fds _ Hy) as Hs.
  assert (po_lock y = Some HWaiter) as Hl by (apply (pi_waiter _ Hy); by rewrite Hw). assert (forall i, po_lock y <> Some (HOp i)) as Ha by congruence.
  destruct r as [rev|e]; [|injection H as <-; eexists; split; [done|]; waiter_moves y Hl].
  case_bool_decide; [|done]. rewrite (poll_result_spec read_fd) in H by done. injection H as <-. eexists. split; [done|]. waiter_moves y Hl. by apply set_revents_ok.
Qed.
Lemma store_step_inv order y o : ps_inv y -> ps_step read_fd write_fd (AStore order) y = Some o -> exists y', o = Done y' /\ ps_inv y'.
Proof.
  intros Hy H. cbn [ps_step] in H. unfold store_step in H. destruct (po_waiter y) as [| | | | | | | |n| | |] eqn:Hw; try done. pose proof (pi_fds _ Hy) as Hs.
  assert (po_lock y = Some HWaiter) as Hl by (apply (pi_waiter _ Hy); by rewrite Hw). assert (forall i, po_lock y <> Some (HOp i)) as Ha by congruence.
  case_bool_decide; [|done]. destruct (n =? 0)%nat; [injection H as <-; eexists; split; [done|]; waiter_moves y Hl|].
  destruct (store_events_ok read_fd n order (po_events y) (po_fds y) Hs) as (evs & s & He & Hok). rewrite He in H. injection H as <-. eexists. split; [done|]. waiter_moves y Hl.
Qed.

Lemma ps_step_inv a y o : ps_inv y -> ps_step read_fd write_fd a y = Some o -> exists y', o = Done y' /\ ps_inv y'.
Proof.
  intros Hy H. destruct a as [evs| |r|order| |i op|i|j|j].
  - injection H as <-. eexists. split; [done|]. unfold wait_call. destruct (po_waiter y) eqn:Hw; try done; by apply (waiter_away y); rewrite ?Hw.
  - cbn in H. destruct (waiter_step y) eqn:E; [|done]. injection H as <-. eexists. split; [done|]. by eapply waiter_step_inv.
  - by eapply poll_step_inv.
  - by eapply store_step_inv.
  - cbn in H. destruct (po_waiter y) as [| | | |[]| | | | | | |] eqn:Hw; try done. injection H as <-. eexists. split; [done|]. by apply (waiter_away y); rewrite ?Hw.
  - cbn in H. unfold op_call in H. destruct (po_ops y !! i) eqn:Hi; [done|]. injection H as <-. eexists. split; [done|].
    destruct (op_refused read_fd write_fd op); apply (start_op_inv y i op); eauto.
  - by eapply op_step_inv.
  - cbn in H. unfold notify_call in H. destruct (po_ntfs y !! j) eqn:Hj; [done|]. injection H as <-. eexists. split; [done|].
    destruct (po_outer y) eqn:Ho; by apply (ntf_moves y j None); cbn; auto.
  - cbn in H. destruct (ntf_step j y) eqn:E; [|done]. injection H as <-. eexists. split; [done|]. by eapply ntf_step_inv.
Qed.

Lemma ps_exec_inv acts y o : ps_inv y -> ps_exec read_fd write_fd acts y = Some o -> exists y', o = Done y' /\ ps_inv y'.
Proof.
  revert y. induction acts as [|a acts IH]; intros y Hy H; [injection H as <-; by eexists|]. cbn in H.
  destruct (ps_step read_fd write_fd a y) as [[y1|f]|] eqn:E; [|by injection H as <-; apply (ps_step_inv _ _ _ Hy) in E as (? & ? & _)|done].
  apply (ps_step_inv _ _ _ Hy) in E as (y2 & [= <-] & Hy1). by apply (IH y1).
Qed.
End inv.
