(* ===== verification/PollProps.v ===== *)
(** * What the [poll] backend promises *)
From Stdlib Require Import ZArith Lia.
From stdpp Require Import base numbers gmap list.
From S2P Require Import Prelude PollFds PollFdsSpec PollSys PollSysInv.

(** The bits of Linux. *)
#[export] Instance linux_abi : PollAbi := { POLLIN := 1; POLLPRI := 2; POLLOUT := 4; POLLERR := 8; POLLHUP := 16; POLLRDNORM := 64; POLLWRBAND := 512 }.

(** ** The registry *)

Lemma list_filter_ext_in {A} (P Q : A -> Prop) `{!forall x, Decision (P x)} `{!forall x, Decision (Q x)} (l : list A) : (forall x, x ∈ l -> P x <-> Q x) -> filter P l = filter Q l.
Proof.
  induction l as [|x l IH]; [done|]. intros HPQ. rewrite !filter_cons, IH by set_solver. destruct (HPQ x) as [H1 H2]; [set_solver|].
  destruct (decide (P x)), (decide (Q x)); tauto.
Qed.

(** A change of the registry, or a poll whose events are taken: what the
    system reports for each descriptor, and the order of the iteration.  The
    list of events is empty before a poll, as it is in the examples of
    [Poller]; the code compares its length with the number of events. *)
Inductive reg_act := RaOp (op : fd_op) | RaPoll (rev : RawFd -> Z) (order : list RawFd).
Definition reg_result : Type := (() + io_kind) + list Event.

Section registry.
Context {abi : PollAbi}.

Definition fds_act (a : reg_act) : M Fds reg_result :=
  match a with
  | RaOp op => r ← fds_op op; mret (inl r)
  | RaPoll rev order =>
      '(notified, n) ← poll_result rev;
      evs ← (if (n =? 0)%nat then mret [] else store_events n order []);
      mret (inr evs)
  end.
Fixpoint fds_exec (acts : list reg_act) : M Fds (list reg_result) :=
  match acts with [] => mret [] | a :: acts => r ← fds_act a; rs ← fds_exec acts; mret (r :: rs) end.

(** On the map: the armed descriptors the system reports give one event each,
    and those in one-shot mode are disarmed. *)
Definition reg_event (rev : RawFd -> Z) (r : registry_map) (fd : RawFd) : Event :=
  match r !! fd with
  | Some g => mkEvent (rg_key g) (intersects (rev fd) read_events) (intersects (rev fd) write_events) (rev fd)
  | None => event_new 0 false false
  end.
Definition reg_act_step (a : reg_act) (r : registry_map) : option (reg_result * registry_map) :=
  match a with
  | RaOp op => let '(x, r') := reg_op op r in Some (inl x, r')
  | RaPoll rev order =>
      if bool_decide (NoDup order /\ list_to_set order =@{gset RawFd} dom r) then
        let fired := filter (fun fd => rev fd <> 0) order in
        Some (inr (reg_event rev r <$> fired), reg_fired fired r)
      else None
  end.
Fixpoint reg_exec (acts : list reg_act) (r : registry_map) : option (list reg_result * registry_map) :=
  match acts with
  | [] => Some ([], r)
  | a :: acts => '(x, r) ← reg_act_step a r; '(xs, r) ← reg_exec acts r; Some (x :: xs, r)
  end.

Lemma poll_act_spec nfd rev order s x r' :
  fds_ok nfd s -> reg_act_step (RaPoll rev order) (registry s) = Some (x, r') -> runs (fds_act (RaPoll rev order)) s (fun a s' => fds_ok nfd s' /\ a = x /\ registry s' = r').
Proof.
  intros Hs H. cbn [reg_act_step] in H. case_bool_decide as Ho; [|done]. destruct Ho as [Hnd Hdom]. injection H as <- <-.
  destruct (set_revents_ok nfd rev s Hs) as [Hok Hreg]. set (s1 := mkFds (set_revents rev (poll_fds s)) (fd_data s)) in *.
  assert (forall fd, fd ∈ order <-> is_Some (fd_data s1 !! fd)) as Hin.
  { intros fd. assert (fd ∈ order <-> is_Some (registry s !! fd)) as -> by (rewrite <- elem_of_dom, <- Hdom; set_solver).
    rewrite <- !not_eq_None_Some. by rewrite (registry_none nfd s fd Hs). }
  assert (forall fd, fd ∈ order -> ready_fd s1 fd = negb (rev fd =? 0) /\ event_of s1 fd = reg_event rev (registry s) fd) as Hfd.
  { intros fd [d Hd]%Hin. destruct (entry_of_data nfd s1 fd d Hok Hd) as (p & He & Hp & Hf). destruct (registry_data nfd s1 fd d Hok Hd) as (q & Hq & _ & Hr).
    unfold ready_fd, event_of, reg_event. rewrite He, <- Hreg, Hr. cbn [s1 poll_fds] in Hp. unfold set_revents in Hp. rewrite list_lookup_fmap in Hp.
    destruct (poll_fds s !! poll_fds_index d) as [p0|]; [|done]. injection Hp as <-. cbn [pf_revents pf_fd] in *. by subst fd. }
  assert (ready_list s1 order = filter (fun fd => rev fd <> 0) order) as Hrl.
  { unfold ready_list. apply list_filter_ext_in. intros fd Hx. destruct (Hfd fd Hx) as [-> _]. destruct (Z.eqb_spec (rev fd) 0); cbn; naive_solver. }
  cbn [fds_act]. apply runs_bind. eapply runs_eq; [by apply (poll_result_spec nfd)|]. fold s1. cbv beta iota. rewrite <- (ready_count nfd s1 order Hok Hnd Hin). apply runs_bind.
  eapply (runs_conseq _ _ (fun evs s' => fds_ok nfd s' /\ evs = event_of s1 <$> ready_list s1 order /\ registry s' = reg_fired (ready_list s1 order) (registry s1))).
  - destruct (Nat.eqb_spec (length (ready_list s1 order)) 0) as [E|E]; [|by apply (store_events_spec nfd _ order [] s1)].
    apply length_zero_iff_nil in E. rewrite E. apply runs_ret. by rewrite reg_fired_nil.
  - intros evs s' (Hok' & -> & Hr). apply runs_ret. split; [done|]. rewrite Hr, Hreg, Hrl. split; [|done]. f_equal. apply list_fmap_ext.
    intros i fd Hi. apply list_elem_of_lookup_2, list_elem_of_filter in Hi as [_ Hi]. by apply Hfd.
Qed.

Lemma fds_exec_spec nfd acts s xs r' :
  fds_ok nfd s -> reg_exec acts (registry s) = Some (xs, r') -> runs (fds_exec acts) s (fun a s' => fds_ok nfd s' /\ a = xs /\ registry s' = r').
Proof.
  revert s xs. induction acts as [|a acts IH]; intros s xs Hs H; [injection H as <- <-; by apply runs_ret|]. cbn [reg_exec] in H.
  destruct (reg_act_step a (registry s)) as [[x r1]|] eqn:Ha; [|done]. cbn in H. destruct (reg_exec acts r1) as [[ys r2]|] eqn:Hr; [|done]. injection H as <- <-.
  cbn [fds_exec]. apply runs_bind. eapply (runs_conseq _ _ (fun b s' => fds_ok nfd s' /\ b = x /\ registry s' = r1)).
  - destruct a as [op|rev order]; [|by eapply poll_act_spec]. cbn [reg_act_step] in Ha. cbn [fds_act]. apply runs_bind. eapply runs_conseq; [by apply (fds_op_spec nfd)|].
    intros b s' [Hok Hb]. destruct (reg_op op (registry s)) as [b' r']. injection Ha as <- <-. injection Hb as <- <-. by apply runs_ret.
  - intros b s1 (Hok & -> & <-). apply runs_bind. eapply runs_conseq; [by apply (IH s1 ys)|]. intros b s2 (Hok2 & -> & <-). by apply runs_ret.
Qed.

(** C17. The registry of the [poll] backend is a map from descriptors to their
    key, events and mode: whatever the sequence of [add], [modify] and
    [delete] calls and of polls, the vector of [pollfd]s and the hash map give
    the same results and errors as the map, nothing panics, a poll that starts
    with an empty list of events reports each descriptor that has events once,
    and one-shot descriptors are disarmed by their event. *)
Theorem poll_registry_refines nfd acts xs r :
  reg_exec acts ∅ = Some (xs, r) -> runs (fds_exec acts) (fds_new nfd) (fun a s' => fds_ok nfd s' /\ a = xs /\ registry s' = r).
Proof. intros H. apply fds_exec_spec; [apply fds_new_ok|]. by rewrite <- H. Qed.
End registry.

Lemma poll_registry_refines_witness :
  exists xs r,
    runs (fds_exec [RaOp (FdAdd 5 (event_new 50 true false) Level); RaOp (FdAdd 6 (event_new 60 true true) Oneshot); RaOp (FdAdd 5 (event_new 51 true true) Level);
                    RaPoll (fun fd => if decide (fd = 6) then 1 else 0) [6; 5]; RaOp (FdDelete 5); RaPoll (fun _ => 0) [6]; RaOp (FdDelete 5)]) (fds_new 3)
      (fun a s' => fds_ok 3 s' /\ a = xs /\ registry s' = r) /\
    xs = [inl (inl tt); inl (inl tt); inl (inr AlreadyExists); inr [mkEvent 60 true false 1]; inl (inl tt); inr []; inl (inr NotFound)] /\ r = {[ 6 := mkReg 60 0 true ]}.
Proof. eexists _, _. split; [apply poll_registry_refines; vm_compute; reflexivity|]. split; vm_compute; reflexivity. Defined.

(** ** The threads *)

Section threads.
Context {abi : PollAbi} (read_fd write_fd : RawFd).

(** A step of a thread that is under way: no new call, no event of a
    descriptor, no timeout and no spurious wake-up. *)
Definition own_step (a : ps_act) : Prop :=
  match a with
  | AWaiter | AStore _ | AOpStep _ | ANtfStep _ => True
  | APoll (inl rev) => rev read_fd <> 0 /\ forall fd, fd <> read_fd -> rev fd = 0
  | _ => False
  end.
(** All calls have returned, but for a [wait] that was not notified. *)
Definition at_rest (y : Poller) : Prop :=
  (forall i op ph, po_ops y !! i = Some (op, ph) -> exists r, ph = OpDone r) /\ (forall j ph, po_ntfs y !! j = Some ph -> ph = NtDone) /\
  match po_waiter y with WIdle | WDone _ => True | WPoll => po_pipe y = 0%nat /\ po_notified y = false | _ => False end.
Definition goes_on (y : Poller) : Prop := exists a, own_step a /\ is_Some (ps_step read_fd write_fd a y).

Lemma op_goes_on y i op ph :
  po_ops y !! i = Some (op, ph) -> (forall r, ph <> OpDone r) -> ph <> OpLock \/ po_lock y = None -> goes_on y.
Proof.
  intros Hi Hd Hl. exists (AOpStep i). split; [done|]. cbn. unfold op_step. rewrite Hi. destruct ph as [| | | |r|r|r]; [by eexists| |by eexists..|by destruct (Hd r)].
  destruct Hl as [?| ->]; [done|by eexists].
Qed.
Lemma ntf_goes_on y j ph : po_ntfs y !! j = Some ph -> ph <> NtDone -> goes_on y.
Proof. intros Hj Hd. exists (ANtfStep j). split; [done|]. cbn. unfold ntf_step. rewrite Hj. by destruct ph; [eexists..|]. Qed.
Lemma waiter_goes_on y : is_Some (waiter_step y) -> goes_on y.
Proof. intros [y' H]. exists AWaiter. split; [done|]. cbn. rewrite H. by eexists. Qed.

(** The waiter goes on, unless it polls, sleeps or waits for the mutex. *)
Lemma waiter_progress y :
  waiter_step y = None -> goes_on y \/ po_waiter y = WIdle \/ (exists r, po_waiter y = WDone r) \/ po_waiter y = WPoll \/ po_waiter y = WSleep false \/ po_lock y <> None /\ waiter_holds (po_waiter y) = false.
Proof.
  intros H. unfold waiter_step in H. destruct (po_waiter y) as [| | | |[]| |b n|b n|n| |[[]|e]|r] eqn:Hw; try done; eauto 8; try (destruct (po_lock y) eqn:Hl; [by eauto 8|done]).
  - left. exists (AStore (elements (dom (fd_data (po_fds y))))). split; [done|]. cbn. unfold store_step. rewrite Hw, bool_decide_true; [by eexists|].
    split; [apply NoDup_elements|set_solver].
Qed.

Lemma poll_goes_on y : po_waiter y = WPoll -> (0 < po_pipe y)%nat -> goes_on y.
Proof.
  intros Hw Hp. exists (APoll (inl (fun fd => if decide (fd = read_fd) then 1 else 0))). split; [cbn; rewrite decide_True by done; split; [done|]; intros fd Hf; by rewrite decide_False|].
  cbn. unfold poll_step. rewrite Hw, bool_decide_true; [by eexists|]. rewrite decide_True by done. lia.
Qed.

(** Every thread has returned, or waits for the mutex. *)
Definition op_blocked (ph : op_phase) : bool := match ph with OpDone _ | OpLock => true | _ => false end.
Definition op_done (ph : op_phase) : bool := match ph with OpDone _ => true | _ => false end.
Definition ntf_done (ph : ntf_phase) : bool := match ph with NtDone => true | _ => false end.
Definition ops_blocked (y : Poller) : Prop := map_Forall (fun _ x => op_blocked x.2 = true) (po_ops y).
Definition ntfs_done (y : Poller) : Prop := map_Forall (fun _ ph => ntf_done ph = true) (po_ntfs y).

Lemma ntfs_progress y : goes_on y \/ ntfs_done y.
Proof.
  destruct (decide (map_Forall (fun _ ph => ntf_done ph = true) (po_ntfs y))) as [H|H]; [by right|]. left. apply map_not_Forall in H as (j & ph & Hj & Hph); [|apply _].
  eapply ntf_goes_on; [done|]. by intros ->.
Qed.
Lemma ops_progress y : goes_on y \/ ops_blocked y.
Proof.
  destruct (decide (map_Forall (fun _ x => op_blocked x.2 = true) (po_ops y))) as [H|H]; [by right|]. left. apply map_not_Forall in H as (i & [op ph] & Hi & Hph); [|apply _].
  eapply op_goes_on; [done|by intros r ->|]. left. by intros ->.
Qed.
Lemma blocked_lock y : ps_inv read_fd y -> ops_blocked y -> po_lock y = None \/ po_lock y = Some HWaiter.
Proof.
  intros Hy Hb. destruct (po_lock y) as [[|i]|] eqn:Hl; [by right| |by left]. apply (pi_op _ _ Hy) in Hl as (op & ph & Hi & Hh).
  specialize (Hb i _ Hi). by destruct ph.
Qed.
Lemma lock_progress y : ops_blocked y -> po_lock y = None -> goes_on y \/ forall i op ph, po_ops y !! i = Some (op, ph) -> exists r, ph = OpDone r.
Proof.
  intros Hb Hl. destruct (decide (map_Forall (fun _ x => op_done x.2 = true) (po_ops y))) as [H|H].
  - right. intros i op ph Hi. specialize (H i _ Hi). destruct ph; try done. by eexists.
  - left. apply map_not_Forall in H as (i & [op ph] & Hi & Hph); [|apply _]. eapply op_goes_on; [done|by intros r ->|by right].
Qed.

Lemma ps_progress y : ps_inv read_fd y -> goes_on y \/ at_rest y.
Proof.
  intros Hy. destruct (ntfs_progress y) as [?|Hn]; [by left|]. assert (forall j ph, po_ntfs y !! j = Some ph -> ph = NtDone) as Hnd by (intros j ph Hj; specialize (Hn j ph Hj); by destruct ph).
  destruct (ops_progress y) as [?|Hb]; [by left|].
  destruct (waiter_step y) as [y'|] eqn:Hs; [left; apply waiter_goes_on; by eexists|]. apply waiter_progress in Hs.
  destruct (blocked_lock y Hy Hb) as [Hl|Hl].
  - destruct (lock_progress y Hb Hl) as [?|Hd]; [by left|]. assert (po_waiter y <> WPoll) as Hnp. { intros E. pose proof (proj2 (pi_waiter _ _ Hy)) as H. rewrite E in H. specialize (H eq_refl). congruence. }
    destruct Hs as [?|[E|[[r E]|[?|[E|[? _]]]]]]; [by left|right|right|done| |done]; [by split_and!; [done|done|rewrite E]..|].
    destruct (pi_sleep _ _ Hy E) as [H|(i & op & r & Hi)]; [|by destruct (Hd i _ _ Hi)]. rewrite (pi_waiting _ _ Hy) in H.
    apply busy_ops_pos in H as (i & op & ph & Hi & Hbusy). by destruct (Hd i _ _ Hi) as [r ->].
  - apply (pi_waiter _ _ Hy) in Hl as Hh. destruct Hs as [?|[E|[[r E]|[E|[E|[_ E]]]]]]; [by left|by rewrite E in Hh..| |by rewrite E in Hh|congruence].
    destruct (decide (0 < po_pipe y)%nat) as [Hp|Hp]; [left; by apply poll_goes_on|right]. split; [|split; [done|]].
    + intros i op ph Hi. specialize (Hb i _ Hi). destruct ph; try done; [|by eexists]. by pose proof (pi_poll _ _ Hy E i op Hi).
    + rewrite E. split; [lia|]. destruct (po_notified y) eqn:Hf; [|done]. destruct (pi_flag _ _ Hy) as [?|[j Hj]]; [by rewrite E|done|lia|]. specialize (Hn j _ Hj). discriminate.
Qed.

(** C16. The threads of a [Poller] on the [poll] backend, in any interleaving:
    no step panics, the number of waiting operations is the number of calls of
    [modify_fds] that are under way, the mutex excludes, and there is no
    deadlock and no lost wake-up inside the backend: some thread that is
    under way can go on, by itself, until every call of [add], [modify],
    [delete] and [notify] has returned, and a [wait] that is left has polled
    with an empty pipe after every notification the backend was given. *)
Theorem poller_never_stuck acts o :
  ps_exec read_fd write_fd acts (poller_new read_fd) = Some o ->
  exists y, o = Done y /\ po_waiting y = busy_ops (po_ops y) /\
    (forall a o', ps_step read_fd write_fd a y = Some o' -> exists y', o' = Done y') /\
    (goes_on y \/ at_rest y).
Proof.
  intros H. apply ps_exec_inv in H as (y & -> & Hy); [|apply new_ps_inv]. exists y. split; [done|]. split; [by apply (pi_waiting read_fd)|]. split; [|by apply ps_progress].
  intros a o' Ha. apply (ps_step_inv _ _ _ _ _ Hy) in Ha as (y' & -> & _). by eexists.
Qed.
End threads.

(** An operation interrupts a poll; the waiter sleeps until it has ended. *)
Definition poller_prog : list ps_act :=
  [AWait []; AWaiter; AWaiter; AWaiter; AOp 1 (FdAdd 5 (event_new 50 true false) Oneshot); AOpStep 1; APoll (inl (fun fd => if decide (fd = 3) then 64 else 0));
   AWaiter; AWaiter; AWaiter; AWaiter; AOpStep 1; AOpStep 1; AOpStep 1; AOpStep 1; AOpStep 1; AWaiter; ANotify 7; ANtfStep 7; ANtfStep 7].

Lemma poller_never_stuck_witness :
  exists y, ps_exec 3 4 poller_prog (poller_new 3) = Some (Done y) /\ po_waiter y = WCheck /\ po_waiting y = 0%nat /\ (goes_on 3 4 y \/ at_rest y).
Proof.
  destruct (ps_exec 3 4 poller_prog (poller_new 3)) as [o|] eqn:E; [|exfalso; vm_compute in E; discriminate].
  destruct (poller_never_stuck 3 4 poller_prog o E) as (y & -> & Hw & _ & Hg). exists y. split; [done|].
  assert (po_waiter y = WCheck /\ po_waiting y = 0%nat) as [? ?]; [|done]. vm_compute in E. injection E as <-. split; reflexivity.
Defined.

(** ** A notification that is lost *)

Lemma at_rest_check y :
  bool_decide (map_Forall (fun _ x => op_done x.2 = true) (po_ops y)) && bool_decide (map_Forall (fun _ ph => ntf_done ph = true) (po_ntfs y)) &&
  match po_waiter y with WIdle | WDone _ => true | WPoll => (po_pipe y =? 0)%nat && negb (po_notified y) | _ => false end = true -> at_rest y.
Proof.
  rewrite !andb_true_iff, !bool_decide_eq_true. intros [[H1 H2] H3]. split; [|split].
  - intros i op ph Hi. specialize (H1 i _ Hi). destruct ph; try done. by eexists.
  - intros j ph Hj. specialize (H2 j _ Hj). by destruct ph.
  - destruct (po_waiter y); try done. apply andb_true_iff in H3 as [E1 E2]. split; [by apply Nat.eqb_eq|by apply negb_true_iff].
Qed.
Lemma at_rest_ntf j y : at_rest y -> at_rest (set_ntf j NtDone y).
Proof.
  intros (H1 & H2 & H3). split; [done|]. split; [|done]. intros k ph. cbn. rewrite lookup_insert. case_decide; [by intros [= <-]|apply H2].
Qed.

(** The waiter sees the flag before the byte is in the pipe, and fails. *)
Definition lost_prog : list ps_act :=
  [AWait []; AWaiter; ANotify 1; ANtfStep 1; AWaiter; AWaiter; AWaiter].
(** The notification ends, and the next [wait] drops its byte. *)
Definition lost_prog2 : list ps_act :=
  [ANtfStep 1; ANtfStep 1; AWait []; AWaiter; AWaiter; AWaiter; APoll (inl (fun fd => if decide (fd = 3) then 64 else 0)); AWaiter; AWaiter; AWaiter; AWaiter].

(** [wait] can fail with [WouldBlock] although nothing is wrong: [notify]
    sets the flag before it writes to the pipe, and a waiter that sees the
    flag in between reads the empty pipe and returns that error.  [wait_impl]
    then returns without clearing the flag of [Poller], so that from then on
    [notify] returns successfully and does nothing: the next [wait] blocks,
    and calls of [notify] do not wake it. *)
Theorem notify_race_loses_wakeups :
  exists y1 y2, ps_exec 3 4 lost_prog (poller_new 3) = Some (Done y1) /\ po_waiter y1 = WDone (inr WouldBlock) /\
    ps_exec 3 4 lost_prog2 y1 = Some (Done y2) /\ po_waiter y2 = WPoll /\ at_rest y2 /\
    forall j, po_ntfs y2 !! j = None -> ps_step 3 4 (ANotify j) y2 = Some (Done (set_ntf j NtDone y2)) /\ at_rest (set_ntf j NtDone y2).
Proof.
  eexists _, _. split; [vm_compute; reflexivity|]. split; [reflexivity|]. split; [vm_compute; reflexivity|]. split; [reflexivity|].
  match goal with |- at_rest ?y /\ _ => assert (at_rest y) as Hr by (apply at_rest_check; vm_compute; reflexivity) end.
  split; [exact Hr|]. intros j Hj. split; [|by apply at_rest_ntf]. cbn [ps_step]. unfold notify_call. rewrite Hj. reflexivity.
Qed.
