(* ===== verification/UringReactor.v ===== *)
(** * [net::uring::reactor]: the submission queue and the completions

    Models geario/src/net/uring/reactor.rs.  Entries that do not fit in the
    submission queue of the ring wait in [changes], a [VecDeque], whose ring
    buffer is modelled as the standard library has it: what [as_slices]
    returns depends on where the buffer begins.  The kernel takes entries from
    the queue, and what it reports goes to the handler it belongs to.  A
    handler is an interface: what it does to its state, and what it submits. *)
From Stdlib Require Import ZArith Lia.
From stdpp Require Import base numbers list.
From S2P Require Import Prelude.

(** ** [std::collections::VecDeque] *)

Record Deque (A : Type) := mkDeque { dq_cap : nat; dq_head : nat; dq_items : list A }.
Arguments mkDeque {A} dq_cap dq_head dq_items.
Arguments dq_cap {A} d.
Arguments dq_head {A} d.
Arguments dq_items {A} d.

Section deque.
Context {A : Type}.
Implicit Types (d : Deque A).

Definition dq_with_capacity (n : nat) : Deque A := mkDeque n 0 [].
Definition dq_len d : nat := length (dq_items d).

(** [grow] and [handle_capacity_increase]: the buffer doubles; a part that was
    wrapped around moves behind the other one, or the other one to the end. *)
Definition dq_grow d : Deque A :=
  let old := dq_cap d in
  let new := Nat.max 4 (2 * old) in
  if (dq_head d <=? old - dq_len d)%nat then mkDeque new (dq_head d) (dq_items d)
  else
    let head_len := (old - dq_head d)%nat in
    let tail_len := (dq_len d - head_len)%nat in
    if (tail_len <? head_len)%nat && (tail_len <=? new - old)%nat then mkDeque new (dq_head d) (dq_items d)
    else mkDeque new (new - head_len) (dq_items d).
Definition dq_push_back (a : A) d : Deque A :=
  let d := if (dq_len d =? dq_cap d)%nat then dq_grow d else d in
  mkDeque (dq_cap d) (dq_head d) (dq_items d ++ [a]).

(** The part up to the end of the buffer, and the part at its beginning. *)
Definition dq_as_slices d : list A * list A :=
  (take (dq_cap d - dq_head d) (dq_items d), drop (dq_cap d - dq_head d) (dq_items d)).

(** [drain(0..n)]. *)
Definition dq_drain (n : nat) d : Deque A :=
  let items := drop n (dq_items d) in
  match items with
  | [] => mkDeque (dq_cap d) 0 []
  | _ =>
      let head := (dq_head d + n)%nat in
      mkDeque (dq_cap d) (if (dq_cap d <=? head)%nat then head - dq_cap d else head) items
  end.
End deque.

(** ** The reactor *)

Definition NOTIFY : Z := 2 ^ 64 - 1.
Definition CANCEL : Z := 2 ^ 64 - 2.
Definition BATCH : Z := 48.
Definition BATCH_MASK : Z := 0xFFFF000000000000.
Definition DATA_MASK : Z := 0x0000FFFFFFFFFFFF.
Definition ECANCELED : Z := 125.

(** An entry of the submission queue, with the operation the handler built. *)
Inductive SOp (E : Type) := SHandler (e : E) | SAsyncCancel (user_data : Z) | SNotifier.
Arguments SHandler {E} e.
Arguments SAsyncCancel {E} user_data.
Arguments SNotifier {E}.
Record SEntry (E : Type) := mkSEntry { se_op : SOp E; se_user_data : Z }.
Arguments mkSEntry {E} se_op se_user_data.
Arguments se_op {E} s.
Arguments se_user_data {E} s.

(** An entry of the completion queue. *)
Record CEntry := mkCEntry { ce_user_data : Z; ce_flags : Z; ce_result : Z }.
(** [IORING_CQE_F_MORE]. *)
Definition cq_flag_more (flags : Z) : bool := Z.testbit flags 1.

(** What a handler asks the reactor for. *)
Inductive Request (E : Type) := ReqSubmit (id : Z) (e : E) | ReqCancel (id : Z).
Arguments ReqSubmit {E} id e.
Arguments ReqCancel {E} id.

(** [Handler]. *)
Class ReactorHandler (E H : Type) := {
  hn_completed : Z -> Z -> Z + Z -> H -> H * list (Request E);
  hn_canceled : Z -> H -> H * list (Request E);
  hn_tick : H -> H * list (Request E);
}.

Section reactor.
Context {E H : Type} `{!ReactorHandler E H}.

Record HandlerItem := mkHandlerItem { hi_hnd : H; hi_modified : bool }.
(** [rx_capacity] is the size of the submission queue, [rx_sq] what it holds
    that the kernel has not taken, [rx_taken] what the kernel took, and
    [rx_requested] what handlers asked for so far. *)
Record Reactor := mkReactor {
  rx_capacity : nat;
  rx_sq : list (SEntry E);
  rx_changes : Deque (SEntry E);
  rx_handlers : list HandlerItem;
  rx_taken : list (SEntry E);
  rx_requested : list (SEntry E);
}.
Definition set_rx_sq (q : list (SEntry E)) (r : Reactor) : Reactor :=
  mkReactor (rx_capacity r) q (rx_changes r) (rx_handlers r) (rx_taken r) (rx_requested r).
Definition set_rx_changes (c : Deque (SEntry E)) (r : Reactor) : Reactor :=
  mkReactor (rx_capacity r) (rx_sq r) c (rx_handlers r) (rx_taken r) (rx_requested r).
Definition set_rx_handlers (h : list HandlerItem) (r : Reactor) : Reactor :=
  mkReactor (rx_capacity r) (rx_sq r) (rx_changes r) h (rx_taken r) (rx_requested r).
Definition log_request (e : SEntry E) (r : Reactor) : Reactor :=
  mkReactor (rx_capacity r) (rx_sq r) (rx_changes r) (rx_handlers r) (rx_taken r) (rx_requested r ++ [e]).

(** [Reactor::new]; the notifier is the first entry. *)
Definition rx_notifier : SEntry E := mkSEntry SNotifier NOTIFY.
Definition rx_new (capacity : nat) : Reactor := mkReactor capacity [rx_notifier] (dq_with_capacity 32) [] [] [].
(** [register]. *)
Definition rx_register (h : H) (r : Reactor) : Reactor := set_rx_handlers (rx_handlers r ++ [mkHandlerItem h false]) r.

(** [SubmissionQueue::push] and [push_multiple]: refused when there is no room. *)
Definition sq_push_multiple (es : list (SEntry E)) (r : Reactor) : outcome Reactor :=
  if (length (rx_sq r) + length es <=? rx_capacity r)%nat then Done (set_rx_sq (rx_sq r ++ es) r) else Fault Panic.

(** ** [ReactorApi] *)

Definition submit_inner (e : SEntry E) (r : Reactor) : outcome Reactor :=
  let r := log_request e r in
  if negb (dq_len (rx_changes r) =? 0)%nat || (length (rx_sq r) =? rx_capacity r)%nat
  then Done (set_rx_changes (dq_push_back e (rx_changes r)) r)
  else sq_push_multiple [e] r.

(** The batch of the handler at [i]. *)
Definition api_batch (i : nat) : Z := Z.shiftl (Z.of_nat i) BATCH.
Definition user_data (batch id : Z) : Z := Z.lor id batch.
Definition api_request (batch : Z) (q : Request E) (r : Reactor) : outcome Reactor :=
  match q with
  | ReqSubmit id e => submit_inner (mkSEntry (SHandler e) (user_data batch id)) r
  | ReqCancel id => submit_inner (mkSEntry (SAsyncCancel (user_data batch id)) CANCEL) r
  end.
Fixpoint api_requests (batch : Z) (qs : list (Request E)) (r : Reactor) : outcome Reactor :=
  match qs with [] => Done r | q :: qs => r ← api_request batch q r; api_requests batch qs r end.

(** ** [apply_changes] *)

Definition apply_changes (r : Reactor) : outcome (bool * Reactor) :=
  let changes := rx_changes r in
  if (dq_len changes =? 0)%nat then Done (false, r)
  else
    let num := Nat.min (dq_len changes) (rx_capacity r - length (rx_sq r)) in
    let '(s1, s2) := dq_as_slices changes in
    let s1_num := Nat.min (length s1) num in
    r ← (if (0 <? s1_num)%nat then sq_push_multiple (take s1_num s1) r
         else match s2 with
              | [] => Done r
              | _ =>
                  let s2_num := Nat.min (length s2) (num - s1_num) in
                  if (0 <? s2_num)%nat then sq_push_multiple (take s2_num s2) r else Done r
              end);
    let changes := dq_drain num changes in
    Done (negb (dq_len changes =? 0)%nat, set_rx_changes changes r).

(** The kernel takes the first entries of the queue. *)
Definition rx_submit (n : nat) (r : Reactor) : Reactor :=
  mkReactor (rx_capacity r) (drop n (rx_sq r)) (rx_changes r) (rx_handlers r) (rx_taken r ++ take n (rx_sq r)) (rx_requested r).

(** ** [poll_completions] *)

(** A call of the handler at [i], and its requests. *)
Definition rx_call (i : nat) (f : H -> H * list (Request E)) (modified : bool) (r : Reactor) : outcome Reactor :=
  match rx_handlers r !! i with
  | None => Fault Panic
  | Some h =>
      let '(h, qs) := f (hi_hnd h) in
      api_requests (api_batch i) qs (set_rx_handlers (<[i := mkHandlerItem h modified]> (rx_handlers r)) r)
  end.

Definition rx_completion (c : CEntry) (r : Reactor) : outcome Reactor :=
  if ce_user_data c =? CANCEL then Done r
  else if ce_user_data c =? NOTIFY then
    if cq_flag_more (ce_flags c) then Done r else sq_push_multiple [rx_notifier] r
  else
    let batch := Z.to_nat (Z.shiftr (Z.land (ce_user_data c) BATCH_MASK) BATCH) in
    let id := Z.land (ce_user_data c) DATA_MASK in
    if ce_result c =? - ECANCELED then rx_call batch (hn_canceled id) true r
    else
      let result := if ce_result c <? 0 then inr (- ce_result c) else inl (ce_result c) in
      rx_call batch (hn_completed id (ce_flags c) result) true r.

Fixpoint rx_completions (cq : list CEntry) (r : Reactor) : outcome Reactor :=
  match cq with [] => Done r | c :: cq => r ← rx_completion c r; rx_completions cq r end.

(** [HandlerItem::tick] of the handlers from [i] on. *)
Fixpoint rx_ticks (n i : nat) (r : Reactor) : outcome Reactor :=
  match n with
  | O => Done r
  | S n =>
      r ← (match rx_handlers r !! i with
           | Some h => if hi_modified h then rx_call i hn_tick false r else Done r
           | None => Done r
           end);
      rx_ticks n (S i) r
  end.

Definition poll_completions (cq : list CEntry) (r : Reactor) : outcome Reactor :=
  match cq with
  | [] => Done r
  | _ => r ← rx_completions cq r; rx_ticks (length (rx_handlers r)) 0 r
  end.

(** ** Steps of [run]

    A round polls the completions, runs tasks, which may use the interfaces of
    handlers, applies the changes and submits. *)
Inductive rx_op :=
  | RxRequest (batch : nat) (q : Request E)
  | RxPoll (cq : list CEntry)
  | RxApply
  | RxSubmit (n : nat).
Definition rx_step (op : rx_op) (r : Reactor) : outcome Reactor :=
  match op with
  | RxRequest b q => api_request (api_batch b) q r
  | RxPoll cq => poll_completions cq r
  | RxApply => '(_, r) ← apply_changes r; Done r
  | RxSubmit n => Done (rx_submit n r)
  end.
Fixpoint rx_exec (ops : list rx_op) (r : Reactor) : outcome Reactor :=
  match ops with [] => Done r | op :: ops => r ← rx_step op r; rx_exec ops r end.
End reactor.
Arguments HandlerItem H : clear implicits.
Arguments Reactor E H : clear implicits.
Arguments rx_op E : clear implicits.
