(* ===== verification/UringReactorProps.v ===== *)
(** * Properties of the io_uring reactor

    Completions reach the handler they belong to, entries reach the kernel in
    the order in which they were submitted as long as the queue of changes has
    not wrapped around, and are lost when it has. *)
From Stdlib Require Import ZArith Lia.
From stdpp Require Import base numbers list.
From S2P Require Import Prelude UringReactor.

(** ** User data *)

Lemma user_data_bits (i : nat) id k : Z.of_nat i < 2 ^ 16 -> 0 <= id < 2 ^ 32 -> 0 <= k ->
  Z.testbit (user_data (api_batch i) id) k = Z.testbit id k || Z.testbit (Z.of_nat i) (k - 48).
Proof. intros Hi Hid Hk. unfold user_data, api_batch, BATCH. by rewrite Z.lor_spec, Z.shiftl_spec. Qed.

Lemma bits_above n m k : 0 <= n < 2 ^ m -> 0 <= m <= k -> Z.testbit n k = false.
Proof.
  intros Hn Hk. destruct (decide (n = 0)) as [->|]; [apply Z.testbit_0_l|]. apply Z.bits_above_log2; [lia|].
  apply Z.lt_le_trans with m; [|lia]. apply Z.log2_lt_pow2; lia.
Qed.

Lemma mask_data k : 0 <= k -> Z.testbit DATA_MASK k = (k <? 48).
Proof. intros Hk. change DATA_MASK with (Z.ones 48). rewrite Z.testbit_ones_nonneg by lia. done. Qed.
Lemma mask_batch k : 0 <= k -> Z.testbit BATCH_MASK k = (48 <=? k) && (k <? 64).
Proof.
  intros Hk. change BATCH_MASK with (Z.shiftl (Z.ones 16) 48). rewrite Z.shiftl_spec by lia.
  destruct (Z.leb_spec 48 k); cbn; [|by rewrite Z.testbit_neg_r by lia]. rewrite Z.testbit_ones_nonneg by lia.
  destruct (Z.ltb_spec (k - 48) 16), (Z.ltb_spec k 64); lia.
Qed.

Lemma user_data_id (i : nat) id : Z.of_nat i < 2 ^ 16 -> 0 <= id < 2 ^ 32 -> Z.land (user_data (api_batch i) id) DATA_MASK = id.
Proof.
  intros Hi Hid. apply Z.bits_inj'. intros k Hk. rewrite Z.land_spec, user_data_bits, mask_data by done.
  destruct (Z.ltb_spec k 48).
  - rewrite (Z.testbit_neg_r _ (k - 48)) by lia. by rewrite orb_false_r, andb_true_r.
  - rewrite andb_false_r. symmetry. apply (bits_above _ 32); lia.
Qed.
Lemma user_data_batch (i : nat) id : Z.of_nat i < 2 ^ 16 -> 0 <= id < 2 ^ 32 ->
  Z.to_nat (Z.shiftr (Z.land (user_data (api_batch i) id) BATCH_MASK) BATCH) = i.
Proof.
  intros Hi Hid. rewrite <- (Nat2Z.id i) at 2. f_equal. apply Z.bits_inj'. intros k Hk.
  rewrite Z.shiftr_spec, Z.land_spec by done. unfold BATCH. rewrite user_data_bits, mask_batch by lia.
  rewrite (bits_above id 32) by lia. replace (k + 48 - 48) with k by lia. rewrite (proj2 (Z.leb_le 48 (k + 48))) by lia. cbn.
  destruct (Z.ltb_spec (k + 48) 64); [by rewrite andb_true_r|]. rewrite andb_false_r. symmetry. apply (bits_above _ 16); lia.
Qed.
(** The markers of the reactor are no data of a handler. *)
Lemma user_data_markers (i : nat) id : Z.of_nat i < 2 ^ 16 -> 0 <= id < 2 ^ 32 ->
  (user_data (api_batch i) id =? CANCEL) = false /\ (user_data (api_batch i) id =? NOTIFY) = false.
Proof.
  intros Hi Hid. pose proof (user_data_id i id Hi Hid) as Hd. split; apply Z.eqb_neq; intros He; rewrite He in Hd; vm_compute in Hd; lia.
Qed.

Section props.
Context {E H : Type} `{!ReactorHandler E H}.
Implicit Types (r : Reactor E H) (e : SEntry E) (c : CEntry).

(** ** The queue *)

Definition is_request e : bool := match se_op e with SNotifier => false | _ => true end.
Definition requests (es : list (SEntry E)) : list (SEntry E) := filter (fun e => is_request e = true) es.
(** What is under way to the kernel. *)
Definition under_way r : list (SEntry E) := rx_sq r ++ dq_items (rx_changes r).

Ltac rx_cbn := unfold under_way in *; cbn [rx_capacity rx_taken rx_sq rx_changes rx_handlers rx_requested set_rx_changes set_rx_sq set_rx_handlers log_request rx_submit] in *.

(** What was asked for has been taken by the kernel, or is under way to it, in
    the order of the requests. *)
Record rx_inv r : Prop := {
  ri_room : (length (rx_sq r) <= rx_capacity r)%nat;
  ri_order : requests (rx_taken r) ++ requests (under_way r) = rx_requested r;
}.

Lemma requests_app es es' : requests (es ++ es') = requests es ++ requests es'.
Proof. apply filter_app. Qed.
Lemma push_back_items e (d : Deque (SEntry E)) : dq_items (dq_push_back e d) = dq_items d ++ [e].
Proof. unfold dq_push_back, dq_grow. by repeat case_match. Qed.

(** An entry of a request is queued behind the others. *)
Lemma submit_inner_spec e r : rx_inv r -> is_request e = true -> exists r', submit_inner e r = Done r' /\ rx_inv r' /\
  rx_requested r' = rx_requested r ++ [e] /\ rx_handlers r' = rx_handlers r /\ rx_taken r' = rx_taken r.
Proof.
  intros [Hr Ho] He. assert (requests [e] = [e]) as Hre by (unfold requests; rewrite filter_cons, filter_nil, decide_True; done).
  unfold submit_inner. cbn [log_request rx_changes rx_sq rx_capacity]. destruct (negb _ || _) eqn:Hf.
  - eexists. split; [done|]. split; [|done]. split; [done|]. rx_cbn. rewrite push_back_items, <- Ho, !requests_app, Hre.
    by rewrite !app_assoc.
  - apply orb_false_iff in Hf as [Hc%negb_false_iff%Nat.eqb_eq Hs%Nat.eqb_neq]. unfold sq_push_multiple. cbn [log_request rx_sq rx_capacity length].
    rewrite (proj2 (Nat.leb_le _ _)) by lia. eexists. split; [done|]. split; [|done]. unfold dq_len in Hc. apply length_zero_iff_nil in Hc.
    split; [cbn; rewrite length_app; cbn; lia|]. rx_cbn. rewrite Hc, !app_nil_r in *.
    rewrite requests_app, Hre, app_assoc. by rewrite Ho.
Qed.

Lemma api_request_spec b q r : rx_inv r -> exists r', api_request b q r = Done r' /\ rx_inv r' /\ rx_handlers r' = rx_handlers r.
Proof.
  intros Hi. destruct q; cbn [api_request];
    match goal with |- context [submit_inner ?e r] => destruct (submit_inner_spec e r Hi) as (r' & He & ? & _ & ? & _); [done|by exists r'] end.
Qed.
Lemma api_requests_spec b qs r : rx_inv r -> exists r', api_requests b qs r = Done r' /\ rx_inv r' /\ rx_handlers r' = rx_handlers r.
Proof.
  revert r. induction qs as [|q qs IH]; intros r Hi; [by exists r|]. cbn [api_requests].
  destruct (api_request_spec b q r Hi) as (r1 & -> & Hi1 & Hh1). cbn. destruct (IH r1 Hi1) as (r2 & ? & ? & ?). exists r2. by split_and!; [..|congruence].
Qed.

(** ** Changes that are applied *)

(** What is pushed is in the first slice. *)
Definition rx_fits r : bool :=
  (Nat.min (dq_len (rx_changes r)) (rx_capacity r - length (rx_sq r)) <=? length (dq_as_slices (rx_changes r)).1)%nat.

Lemma drain_items n (d : Deque (SEntry E)) : dq_items (dq_drain n d) = drop n (dq_items d).
Proof. unfold dq_drain. by destruct (drop n (dq_items d)). Qed.

Lemma apply_changes_spec r : rx_inv r -> rx_fits r = true -> exists b r', apply_changes r = Done (b, r') /\ rx_inv r' /\
  under_way r' = under_way r /\ b = negb (dq_len (rx_changes r') =? 0)%nat /\ rx_handlers r' = rx_handlers r.
Proof.
  intros [Hr Ho] Hf%Nat.leb_le. unfold apply_changes. destruct (Nat.eqb_spec (dq_len (rx_changes r)) 0) as [Hz|Hnz].
  { exists false, r. rewrite Hz. by split_and!. }
  set (num := Nat.min _ _) in *. cbn [dq_as_slices fst] in *. set (k := (dq_cap _ - dq_head _)%nat) in *.
  set (items := dq_items (rx_changes r)) in *. rewrite (Nat.min_r _ num) by done.
  assert (take num (take k items) = take num items) as Htk.
  { rewrite take_take. f_equal. rewrite length_take in Hf. lia. }
  assert (length (rx_sq r) + num <= rx_capacity r)%nat as Hroom by lia.
  assert ((if (0 <? num)%nat then sq_push_multiple (take num (take k items)) r
    else match drop k items with [] => Done r | _ :: _ => if (0 <? Nat.min (length (drop k items)) (num - num))%nat
      then sq_push_multiple (take (Nat.min (length (drop k items)) (num - num)) (drop k items)) r else Done r end)
    = Done (set_rx_sq (rx_sq r ++ take num items) r)) as ->.
  { destruct (Nat.ltb_spec 0 num) as [Hn|Hn].
    - unfold sq_push_multiple. rewrite Htk, length_take, (proj2 (Nat.leb_le _ _)) by lia. done.
    - assert (num = 0%nat) as -> by lia. rewrite Nat.sub_diag, Nat.min_0_r, take_0, app_nil_r. destruct r. by destruct (drop k items). }
  unfold mbind, outcome_bind. eexists _, _. split; [done|].
  assert (rx_sq r ++ take num items ++ drop num items = under_way r) as Hu by (by rewrite take_drop).
  assert (under_way (set_rx_changes (dq_drain num (rx_changes r)) (set_rx_sq (rx_sq r ++ take num items) r)) = under_way r) as Hw.
  { rx_cbn. by rewrite drain_items, <- app_assoc. }
  split_and!; try done. split; [cbn; rewrite length_app, length_take; lia|]. by rewrite Hw.
Qed.

Lemma rx_submit_inv n r : rx_inv r -> rx_inv (rx_submit n r).
Proof.
  intros [Hr Ho]. split; [cbn; rewrite length_drop; lia|]. rx_cbn. rewrite <- Ho, !requests_app, <- !app_assoc. f_equal.
  rewrite app_assoc, <- requests_app. by rewrite take_drop.
Qed.

(** ** Completions *)

Lemma rx_call_spec i f m r h : rx_inv r -> rx_handlers r !! i = Some h -> exists r', rx_call i f m r = Done r' /\ rx_inv r' /\
  rx_handlers r' = <[i := mkHandlerItem (f (hi_hnd h)).1 m]> (rx_handlers r).
Proof.
  intros Hi Hh. unfold rx_call. rewrite Hh. destruct (f (hi_hnd h)) as [h' qs]. cbn [fst].
  destruct (api_requests_spec (api_batch i) qs (set_rx_handlers (<[i := mkHandlerItem h' m]> (rx_handlers r)) r)) as (r' & He & Hi' & Hh');
    [by destruct Hi|]. by exists r'.
Qed.

(** The handler a completion is for, and the call it leads to. *)
Definition ce_batch c : nat := Z.to_nat (Z.shiftr (Z.land (ce_user_data c) BATCH_MASK) BATCH).
Definition ce_for (i : nat) c : bool :=
  negb (ce_user_data c =? CANCEL) && negb (ce_user_data c =? NOTIFY) && (ce_batch c =? i)%nat.
Definition ce_call c : H -> H * list (Request E) :=
  let id := Z.land (ce_user_data c) DATA_MASK in
  if ce_result c =? - ECANCELED then hn_canceled id
  else hn_completed id (ce_flags c) (if ce_result c <? 0 then inr (- ce_result c) else inl (ce_result c)).
(** What a handler does with the completions that are for it. *)
Definition own (i : nat) (cq : list CEntry) (h : H) : H := foldl (fun h c => (ce_call c h).1) h (filter (fun c => ce_for i c = true) cq).
Definition has_own (i : nat) (cq : list CEntry) : bool := existsb (ce_for i) cq.

(** A completion of one of [n] handlers, or one the reactor keeps for itself. *)
Definition ce_ok (n : nat) c : Prop :=
  (exists i id, (i < n)%nat /\ Z.of_nat i < 2 ^ 16 /\ 0 <= id < 2 ^ 32 /\ ce_user_data c = user_data (api_batch i) id) \/
  ce_user_data c = CANCEL \/ ce_user_data c = NOTIFY.

(** The poll of the notifier has ended, and there is no room for the entry
    that arms it again. *)
Definition rearm_blocked c r : Prop :=
  ce_user_data c = NOTIFY /\ cq_flag_more (ce_flags c) = false /\ length (rx_sq r) = rx_capacity r.

Lemma rearm_spec r : rx_inv r ->
  (sq_push_multiple [rx_notifier] r = Fault Panic /\ length (rx_sq r) = rx_capacity r) \/
  exists r', sq_push_multiple [rx_notifier] r = Done r' /\ rx_inv r' /\ rx_handlers r' = rx_handlers r.
Proof.
  intros [Hr Ho]. unfold sq_push_multiple. cbn [length]. destruct (Nat.leb_spec (length (rx_sq r) + 1) (rx_capacity r)); [right|left; split; [done|lia]].
  eexists. split; [done|]. split; [|done]. split; [cbn; rewrite length_app; cbn; lia|]. rx_cbn. by rewrite <- Ho, !requests_app, app_nil_r.
Qed.

Lemma rx_completion_spec c r : rx_inv r -> ce_ok (length (rx_handlers r)) c ->
  (rx_completion c r = Fault Panic /\ rearm_blocked c r) \/
  exists r', rx_completion c r = Done r' /\ rx_inv r' /\ length (rx_handlers r') = length (rx_handlers r) /\
  forall i h m, rx_handlers r !! i = Some (mkHandlerItem h m) ->
    rx_handlers r' !! i = Some (if ce_for i c then mkHandlerItem (ce_call c h).1 true else mkHandlerItem h m).
Proof.
  intros Hi Hc. unfold rx_completion, ce_for, rearm_blocked. destruct Hc as [(i & id & Hn & Hi16 & Hid & Hud)|[Hud|Hud]].
  - right. unfold ce_batch, ce_call. rewrite Hud. destruct (user_data_markers i id Hi16 Hid) as [-> ->]. rewrite user_data_id, user_data_batch by done. cbn [negb andb].
    destruct (lookup_lt_is_Some_2 _ _ Hn) as [h Hh].
    assert (forall f, exists r', rx_call i f true r = Done r' /\ rx_inv r' /\ length (rx_handlers r') = length (rx_handlers r) /\
      forall j h0 m, rx_handlers r !! j = Some (mkHandlerItem h0 m) ->
        rx_handlers r' !! j = Some (if (i =? j)%nat then mkHandlerItem (f h0).1 true else mkHandlerItem h0 m)) as Hcall.
    { intros f. destruct (rx_call_spec i f true r h Hi Hh) as (r' & He & Hi' & Hh'). exists r'. rewrite Hh', length_insert. split_and!; try done.
      intros j h0 m Hj. destruct (Nat.eqb_spec i j) as [->|Hne]; [|by rewrite list_lookup_insert_ne].
      rewrite list_lookup_insert_eq by done. rewrite Hj in Hh. by injection Hh as <-. }
    destruct (ce_result c =? - ECANCELED); apply Hcall.
  - right. rewrite Hud. exists r. by split_and!.
  - rewrite Hud. change (NOTIFY =? CANCEL) with false. change (NOTIFY =? NOTIFY) with true. cbn [negb andb].
    destruct (cq_flag_more (ce_flags c)); [right; exists r; by split_and!|].
    destruct (rearm_spec r Hi) as [[-> Hl]|(r' & -> & Hi' & Hh')]; [by left|right]. exists r'. rewrite Hh'. by split_and!.
Qed.

(** What the handlers have been called with. *)
Definition routed (cq : list CEntry) r r' : Prop :=
  forall i h m, rx_handlers r !! i = Some (mkHandlerItem h m) -> rx_handlers r' !! i = Some (mkHandlerItem (own i cq h) (has_own i cq || m)).
(** A completion of the notifier finds no room; those before it were handled. *)
Definition poll_blocked (cq : list CEntry) r : Prop :=
  exists cq1 c cq2 r1, cq = cq1 ++ c :: cq2 /\ rx_completions cq1 r = Done r1 /\ routed cq1 r r1 /\ rearm_blocked c r1.

Lemma routed_cons c cq r r1 r2 :
  (forall i h m, rx_handlers r !! i = Some (mkHandlerItem h m) ->
    rx_handlers r1 !! i = Some (if ce_for i c then mkHandlerItem (ce_call c h).1 true else mkHandlerItem h m)) ->
  routed cq r1 r2 -> routed (c :: cq) r r2.
Proof.
  intros Hh1 Hh2 i h m Hh. specialize (Hh1 i h m Hh). unfold own in *. cbn [has_own existsb]. rewrite filter_cons. destruct (ce_for i c) eqn:Hf.
  - rewrite (Hh2 _ _ _ Hh1). unfold own. rewrite decide_True by done. by rewrite orb_true_r.
  - rewrite (Hh2 _ _ _ Hh1). unfold own. by rewrite decide_False.
Qed.

Lemma routed_nil r : routed [] r r.
Proof. by intros i h m Hh. Qed.

Lemma rx_completions_spec cq r : rx_inv r -> Forall (ce_ok (length (rx_handlers r))) cq ->
  (rx_completions cq r = Fault Panic /\ poll_blocked cq r) \/
  exists r', rx_completions cq r = Done r' /\ rx_inv r' /\ length (rx_handlers r') = length (rx_handlers r) /\ routed cq r r'.
Proof.
  intros Hi Hc. remember (length (rx_handlers r)) as n eqn:Hn. revert r Hi Hn. induction Hc as [|c cq Hc _ IH]; intros r Hi Hn.
  { right. exists r. split_and!; [done|done|done|apply routed_nil]. }
  cbn [rx_completions]. rewrite Hn in Hc. destruct (rx_completion_spec c r Hi Hc) as [[Hf Hb]|(r1 & He & Hi1 & Hl1 & Hh1)].
  { left. rewrite Hf. split; [done|]. exists [], c, cq, r. split_and!; [done|done|apply routed_nil|done]. }
  rewrite He. cbn [mbind outcome_bind]. destruct (IH r1 Hi1) as [[Hf (cq1 & c' & cq2 & r2 & -> & He2 & Hr2 & Hb)]|(r2 & He2 & Hi2 & Hl2 & Hh2)]; [lia|left|right].
  - split; [done|]. exists (c :: cq1), c', cq2, r2. cbn [rx_completions]. rewrite He. split_and!; [done|done|by eapply routed_cons|done].
  - exists r2. split_and!; [done|done|lia|by eapply routed_cons].
Qed.

Lemma rx_ticks_spec n i r : rx_inv r -> exists r', rx_ticks n i r = Done r' /\ rx_inv r' /\
  forall j h m, rx_handlers r !! j = Some (mkHandlerItem h m) ->
    rx_handlers r' !! j = Some (if ((i <=? j) && (j <? i + n))%nat && m then mkHandlerItem (hn_tick h).1 false else mkHandlerItem h m).
Proof.
  revert i r. induction n as [|n IH]; intros i r Hi.
  { exists r. split_and!; [done|done|]. intros j h m Hj. rewrite Hj. by destruct (Nat.leb_spec i j), (Nat.ltb_spec j (i + 0)); try lia. }
  cbn [rx_ticks].
  assert (exists r1, match rx_handlers r !! i with Some h => if hi_modified h then rx_call i hn_tick false r else Done r | None => Done r end = Done r1 /\
    rx_inv r1 /\ forall j h m, rx_handlers r !! j = Some (mkHandlerItem h m) ->
      rx_handlers r1 !! j = Some (if (i =? j)%nat && m then mkHandlerItem (hn_tick h).1 false else mkHandlerItem h m)) as (r1 & -> & Hi1 & Hh1).
  { destruct (rx_handlers r !! i) as [[h0 [|]]|] eqn:Hh; cbn [hi_modified].
    - destruct (rx_call_spec i hn_tick false r _ Hi Hh) as (r1 & He & Hi1 & Hh1). exists r1. split_and!; try done. intros j h m Hj. rewrite Hh1.
      destruct (Nat.eqb_spec i j) as [->|Hne]; [|by rewrite list_lookup_insert_ne]. rewrite Hj in Hh. injection Hh as -> ->.
      by rewrite list_lookup_insert_eq by (by eapply lookup_lt_Some).
    - exists r. split_and!; try done. intros j h m Hj. destruct (Nat.eqb_spec i j) as [->|]; [|done]. rewrite Hj in Hh. by injection Hh as -> ->.
    - exists r. split_and!; try done. intros j h m Hj. destruct (Nat.eqb_spec i j) as [->|]; [|done]. congruence. }
  cbn [mbind outcome_bind]. destruct (IH (S i) r1 Hi1) as (r2 & He & Hi2 & Hh2). exists r2. split_and!; try done. intros j h m Hj. specialize (Hh1 j h m Hj).
  destruct (Nat.eqb_spec i j) as [->|Hne].
  - destruct m; cbn in Hh1; rewrite (Hh2 _ _ _ Hh1);
      destruct (Nat.leb_spec (S j) j), (Nat.leb_spec j j), (Nat.ltb_spec j (j + S n)); try lia; done.
  - rewrite (Hh2 _ _ _ Hh1).
    destruct (Nat.leb_spec (S i) j), (Nat.leb_spec i j), (Nat.ltb_spec j (S i + n)), (Nat.ltb_spec j (i + S n)); try lia; done.
Qed.

Lemma own_none i cq h : has_own i cq = false -> own i cq h = h.
Proof.
  intros Ho. unfold own. replace (filter (fun c => ce_for i c = true) cq) with (@nil CEntry); [done|]. symmetry. induction cq as [|x q IH]; [done|].
  cbn in Ho. apply orb_false_iff in Ho as [Hx Hq]. rewrite filter_cons, decide_False by congruence. by apply IH.
Qed.

Lemma poll_completions_spec cq r : rx_inv r -> Forall (ce_ok (length (rx_handlers r))) cq ->
  (poll_completions cq r = Fault Panic /\ poll_blocked cq r) \/
  exists r', poll_completions cq r = Done r' /\ rx_inv r' /\
  forall i h, rx_handlers r !! i = Some (mkHandlerItem h false) ->
    rx_handlers r' !! i = Some (mkHandlerItem (if has_own i cq then (hn_tick (own i cq h)).1 else h) false).
Proof.
  intros Hi Hc. unfold poll_completions. destruct cq as [|c cq]; [right; exists r; by split_and!|]. set (cq' := c :: cq) in *.
  destruct (rx_completions_spec cq' r Hi Hc) as [[-> Hb]|(r1 & -> & Hi1 & Hl1 & Hh1)]; [by left|right]. cbn [mbind outcome_bind].
  destruct (rx_ticks_spec (length (rx_handlers r1)) 0 r1 Hi1) as (r2 & He & Hi2 & Hh2). exists r2. split_and!; try done.
  intros i h Hh. specialize (Hh1 i h false Hh). rewrite (Hh2 _ _ _ Hh1), orb_false_r. pose proof (lookup_lt_Some _ _ _ Hh1) as Hlt.
  rewrite (proj2 (Nat.ltb_lt _ _)), (proj2 (Nat.leb_le 0 i)) by lia. cbn [andb]. destruct (has_own i cq') eqn:Ho; [done|]. by rewrite own_none.
Qed.

(** C30. Each completion reaches the handler it belongs to: with the user data
    that [submit] and [cancel] write, a poll of the completions returns, each
    handler is called with its own completions in their order and no others,
    and ticks once exactly when it had some.  The one exception is a completion
    that ends the poll of the notifier (one without [F_MORE]) when the
    submission queue is full: the reactor panics
    ([notifier_rearm_panics]), after it has handled the completions before. *)
Theorem reactor_routes_completions cq r :
  rx_inv r -> Forall (ce_ok (length (rx_handlers r))) cq ->
  (poll_completions cq r = Fault Panic /\ poll_blocked cq r) \/
  exists r', poll_completions cq r = Done r' /\
    forall i h, rx_handlers r !! i = Some (mkHandlerItem h false) ->
      rx_handlers r' !! i = Some (mkHandlerItem (if has_own i cq then (hn_tick (own i cq h)).1 else h) false).
Proof. intros Hi Hc. destruct (poll_completions_spec cq r Hi Hc) as [?|(r' & He & _ & Hh)]; [by left|right]. by exists r'. Qed.

(** Programs of the reactor: completions are valid, and changes that are
    applied fit in the first slice. *)
Definition rx_op_ok (op : rx_op E) r : Prop :=
  match op with RxPoll cq => Forall (ce_ok (length (rx_handlers r))) cq | RxApply => rx_fits r = true | _ => True end.
Fixpoint rx_valid (ops : list (rx_op E)) r : Prop :=
  match ops with [] => True | op :: ops => rx_op_ok op r /\ forall r', rx_step op r = Done r' -> rx_valid ops r' end.

Definition step_blocked (op : rx_op E) r : Prop := match op with RxPoll cq => poll_blocked cq r | _ => False end.

Lemma rx_step_inv op r : rx_inv r -> rx_op_ok op r ->
  (rx_step op r = Fault Panic /\ step_blocked op r) \/ exists r', rx_step op r = Done r' /\ rx_inv r'.
Proof.
  intros Hi Hop. destruct op as [b q|cq| |n]; cbn [rx_step].
  - right. destruct (api_request_spec (api_batch b) q r Hi) as (r' & ? & ? & _). by exists r'.
  - destruct (poll_completions_spec cq r Hi Hop) as [?|(r' & ? & ? & _)]; [by left|right]. by exists r'.
  - right. destruct (apply_changes_spec r Hi Hop) as (b & r' & -> & ? & _). by exists r'.
  - right. eexists. split; [done|]. by apply rx_submit_inv.
Qed.

(** What was asked for is what the kernel took, followed by what is in the
    submission queue and in the queue of changes. *)
Definition in_order r : Prop :=
  requests (rx_taken r) ++ requests (rx_sq r ++ dq_items (rx_changes r)) = rx_requested r /\ (length (rx_sq r) <= rx_capacity r)%nat.

Lemma rx_exec_spec ops r :
  rx_inv r -> rx_valid ops r ->
  (exists r', rx_exec ops r = Done r' /\ rx_inv r') \/
  exists ops1 op ops2 r1, ops = ops1 ++ op :: ops2 /\ rx_exec ops1 r = Done r1 /\ rx_inv r1 /\ step_blocked op r1 /\ rx_exec ops r = Fault Panic.
Proof.
  revert r. induction ops as [|op ops IH]; intros r Hi Hv; [by left; exists r|]. destruct Hv as [Hop Hv]. cbn [rx_exec].
  destruct (rx_step_inv op r Hi Hop) as [[Hf Hb]|(r1 & He & Hi1)].
  { right. exists [], op, ops, r. rewrite Hf. by split_and!. }
  rewrite He. destruct (IH r1 Hi1 (Hv r1 He)) as [?|(ops1 & op' & ops2 & r2 & -> & He2 & Hi2 & Hb & Hf)]; [by left|right].
  exists (op :: ops1), op', ops2, r2. cbn [rx_exec app]. rewrite He. by split_and!.
Qed.

(** C29. As long as the changes that are applied lie in the first slice of the
    queue, every entry a handler submits reaches the kernel, in the order of
    the submissions: what was asked for is what the kernel took, followed by
    what is in the submission queue and in the queue of changes.  The
    completions carry the user data that [submit] and [cancel] write, or the
    marks of the reactor.  No step panics but one: a poll of the completions in
    which the poll of the notifier ends while the submission queue is full
    ([notifier_rearm_panics]); the order holds up to it. *)
Theorem reactor_submits_in_order ops r :
  rx_inv r -> rx_valid ops r ->
  (exists r', rx_exec ops r = Done r' /\ in_order r') \/
  exists ops1 cq ops2 r1, ops = ops1 ++ RxPoll cq :: ops2 /\ rx_exec ops1 r = Done r1 /\ in_order r1 /\ poll_blocked cq r1 /\
    rx_exec ops r = Fault Panic.
Proof.
  intros Hi Hv. destruct (rx_exec_spec ops r Hi Hv) as [(r' & He & [Hl Ho])|(ops1 & op & ops2 & r1 & Hops & He & [Hl Ho] & Hb & Hf)];
    [left; by exists r'|right]. destruct op as [|cq| |]; try done. by exists ops1, cq, ops2, r1.
Qed.
End props.

(** ** Concrete reactors *)

(** A handler that counts, and asks for a read after each completion. *)
#[export] Instance count_handler : ReactorHandler Z Z := {
  hn_completed id flags res h := (h + 1, [ReqSubmit id (h + 1)]);
  hn_canceled id h := (h, []);
  hn_tick h := (h + 100, []);
}.

Definition rxe_new : Reactor Z Z := rx_register 10 (rx_register 0 (rx_new 8)).
Definition rxe_cq : list CEntry :=
  [mkCEntry (user_data (api_batch 1) 7) 0 5; mkCEntry CANCEL 0 0; mkCEntry (user_data (api_batch 1) 9) 0 (- ECANCELED); mkCEntry NOTIFY 0 1].
Lemma rxe_inv : rx_inv rxe_new.
Proof. split; [cbn; lia|done]. Qed.
Lemma rxe_cq_ok : Forall (ce_ok 2) rxe_cq.
Proof.
  constructor; [|constructor; [|constructor; [|constructor; [|constructor]]]]; unfold ce_ok; cbn [ce_user_data ce_flags].
  - left. exists 1%nat, 7. repeat split; lia.
  - by right; left.
  - left. exists 1%nat, 9. repeat split; lia.
  - by right; right.
Qed.

Lemma reactor_routes_completions_witness : exists r', poll_completions rxe_cq rxe_new = Done r' /\
  rx_handlers r' !! 0%nat = Some (mkHandlerItem 0 false) /\ rx_handlers r' !! 1%nat = Some (mkHandlerItem 111 false).
Proof.
  destruct (reactor_routes_completions rxe_cq rxe_new) as [[Hf _]|(r' & He & Hh)]; [exact rxe_inv|exact rxe_cq_ok|by vm_compute in Hf|].
  exists r'. split; [exact He|]. split; [exact (Hh 0%nat 0 eq_refl)|exact (Hh 1%nat 10 eq_refl)].
Defined.

Definition rxe_ops : list (rx_op Z) := [RxPoll rxe_cq; RxRequest 0 (ReqSubmit 3 0); RxApply; RxSubmit 8].
Lemma reactor_submits_in_order_witness : exists r', rx_exec rxe_ops rxe_new = Done r' /\ in_order r'.
Proof.
  destruct (reactor_submits_in_order rxe_ops rxe_new) as [H|(ops1 & cq & ops2 & r1 & _ & _ & _ & _ & Hf)]; [exact rxe_inv| |exact H|by vm_compute in Hf].
  split; [exact rxe_cq_ok|].
  intros r1 [= <-]. split; [exact I|]. intros r2 [= <-]. split; [reflexivity|]. intros r3 [= <-]. split; [exact I|]. intros r4 _. exact I.
Defined.

(** Requests of the first handler, with consecutive ids. *)
Definition rxe_requests (n : nat) (first : Z) : list (rx_op Z) := (fun k => RxRequest 0 (ReqSubmit (first + Z.of_nat k) 0)) <$> seq 0 n.
Definition rxe_ids (es : list (SEntry Z)) : list Z := (fun e => Z.land (se_user_data e) DATA_MASK) <$> requests es.

(** The queue of the ring is full and twenty entries wait; the kernel, which
    stops at an entry that fails, takes five of them once, and all of them in
    each of the later rounds. *)
Definition rxe_wrap : list (rx_op Z) :=
  rxe_requests 27 0 ++ [RxApply; RxSubmit 5; RxApply; RxSubmit 8] ++ rxe_requests 14 27 ++
  [RxApply; RxSubmit 8; RxApply; RxSubmit 8; RxApply; RxSubmit 8; RxApply; RxSubmit 8; RxApply; RxSubmit 8].

(** C39. Entries are lost when the queue of changes has wrapped around:
    [apply_changes] drains as many entries as there is room for, but pushes
    only those of the first slice.  In a run without errors the last two
    requests never reach the kernel, although every queue is empty. *)
Theorem apply_changes_loses_entries : exists r,
  rx_exec rxe_wrap rxe_new = Done r /\ rx_sq r = [] /\ dq_items (rx_changes r) = [] /\
  rxe_ids (rx_requested r) = Z.of_nat <$> seq 0 41 /\ rxe_ids (rx_taken r) = Z.of_nat <$> seq 0 39.
Proof. eexists. split; [vm_compute; reflexivity|]. do 3 (split; [vm_compute; reflexivity|]). vm_compute. reflexivity. Qed.

(** The notifier's poll ends in a round in which handlers fill the queue. *)
Definition rxe_full : list CEntry := (fun k => mkCEntry (user_data (api_batch 0) (Z.of_nat k)) 0 1) <$> seq 0 7.

(** The reactor panics when the poll of its notifier ends in a round in
    which the handlers have filled the submission queue: the entry that arms it
    again is pushed without a look at the room that is left. *)
Theorem notifier_rearm_panics :
  poll_completions (rxe_full ++ [mkCEntry NOTIFY 0 1]) rxe_new = Fault Panic.
Proof. vm_compute. reflexivity. Qed.
