(* ===== verification/UringStream.v ===== *)
(** * [net::uring]: the io_uring driver of a stream

    Models geario/src/net/uring/stream.rs and the task of io.rs, for one
    stream of the reactor: its slot of the slab of streams, its operations in
    the slab of operations, the queue of what is done when the storage is free
    again, and the log of what was submitted to the ring.  What the kernel
    answers is an argument of the handlers.  The counters for tests and the
    vectors that point into the pages of an operation are left out; keys of
    the slab are taken to fit in 32 bits. *)
From Stdlib Require Import ZArith Lia String.
From stdpp Require Import base numbers list.
From S2P Require Import Prelude Deps Task IoConfig IoFlags IoBuf IoTimers IoState IoRef Polling IoSystem.

Definition RD_CANCELING : Z := 2 ^ 0.
Definition RD_REISSUE : Z := 2 ^ 1.
Definition RD_MORE : Z := 2 ^ 2.
Definition WR_CANCELING : Z := 2 ^ 3.
Definition WR_REISSUE : Z := 2 ^ 4.
Definition NO_ZC : Z := 2 ^ 5.
Definition UR_DROPPED_PRI : Z := 2 ^ 6.
Definition UR_DROPPED_SEC : Z := 2 ^ 7.

(** The variables [GEARIO_URING_ZC_SIZE] and [GEARIO_URING_MAX_WRITE_ITEMS],
    where they are set to a number. *)
Class UringEnv := { env_zc_size : option Z; env_max_write_items : option Z }.
Definition zc_size `{!UringEnv} : Z := default 1536 env_zc_size.
Definition UR_MAX_WRITE_ITEMS : Z := 16.
Definition max_write_items `{!UringEnv} : Z :=
  match env_max_write_items with Some n => if 1 <=? n then n else UR_MAX_WRITE_ITEMS | None => UR_MAX_WRITE_ITEMS end.

(** A send of the ring: the socket takes the bytes the kernel reports. *)
Class RingSocket (S : Type) `{Socket S} := so_ring : list byte -> S -> S.
Class RingSocketLaws (S : Type) `{RingSocket S} : Prop :=
  so_ring_sent (bs : list byte) s : so_sent (so_ring bs s) = so_sent s ++ bs.

Inductive Operation :=
  | UrRecv (buf : list byte)
  | UrSend (buf : list byte) (result : option (result Z))
  | UrWritev (pages : list (list byte))
  | UrPoll
  | UrShutdown
  | UrClose
  | UrNop.

Inductive UrIdType := UrStream | UrWeak.
#[export] Instance ur_id_type_eq_dec : EqDecision UrIdType.
Proof. solve_decision. Defined.

(** Entries of the submission queue. *)
Inductive Sqe :=
  | SqRecv (poll_first : bool)
  | SqSend (zc : bool)
  | SqWritev (iovecs : nat)
  | SqPollAdd
  | SqShutdown
  | SqClose
  | SqCancel.

(** A completion: the flags of the entry, the result, and what was read. *)
Record Cqe := mkCqe {
  cq_sock_nonempty : bool;
  cq_notif : bool;
  cq_more : bool;
  cq_res : result Z;
  cq_data : list byte;
}.

Section stream.
Context {G S : Type} {T : Type -> Type}.

Record UrItem := mkUrItem {
  ui_io : S;
  ui_flags : G;
  ui_rd_op : option nat;
  ui_wr_op : option nat;
}.

(** The storage is present unless it is in use; the slot is empty once the
    stream is removed. *)
Record UrDrv := mkUrDrv {
  ur_storage : bool;
  ur_ops : T (option Operation);
  ur_item : option UrItem;
  ur_delayed_feed : list UrIdType;
  ur_sq : list (nat * Sqe);
}.
End stream.
Arguments UrItem G S : clear implicits.
Arguments UrDrv G S T : clear implicits.

Section fields.
Context {G S : Type} {T : Type -> Type}.
Definition set_ui_io (s : S) (i : UrItem G S) : UrItem G S := mkUrItem s (ui_flags i) (ui_rd_op i) (ui_wr_op i).
Definition set_ui_flags (f : G) (i : UrItem G S) : UrItem G S := mkUrItem (ui_io i) f (ui_rd_op i) (ui_wr_op i).
Definition set_ui_rd_op (o : option nat) (i : UrItem G S) : UrItem G S := mkUrItem (ui_io i) (ui_flags i) o (ui_wr_op i).
Definition set_ui_wr_op (o : option nat) (i : UrItem G S) : UrItem G S := mkUrItem (ui_io i) (ui_flags i) (ui_rd_op i) o.
Definition set_ur_storage (b : bool) (d : UrDrv G S T) : UrDrv G S T :=
  mkUrDrv b (ur_ops d) (ur_item d) (ur_delayed_feed d) (ur_sq d).
Definition set_ur_ops (o : T (option Operation)) (d : UrDrv G S T) : UrDrv G S T :=
  mkUrDrv (ur_storage d) o (ur_item d) (ur_delayed_feed d) (ur_sq d).
Definition set_ur_item (i : option (UrItem G S)) (d : UrDrv G S T) : UrDrv G S T :=
  mkUrDrv (ur_storage d) (ur_ops d) i (ur_delayed_feed d) (ur_sq d).
Definition set_ur_delayed (q : list UrIdType) (d : UrDrv G S T) : UrDrv G S T :=
  mkUrDrv (ur_storage d) (ur_ops d) (ur_item d) q (ur_sq d).
(** [ReactorApi::submit], [submit_inline] and [cancel]. *)
Definition ur_submit (k : nat) (e : Sqe) (d : UrDrv G S T) : UrDrv G S T :=
  mkUrDrv (ur_storage d) (ur_ops d) (ur_item d) (ur_delayed_feed d) (ur_sq d ++ [(k, e)]).
End fields.

(** [NonZeroU32::new]. *)
Definition non_zero (k : nat) : option nat := match k with O => None | _ => Some k end.

(** Kinds that the model does not name are the numbers of the system. *)
Definition EAGAIN : Z := 11.
Definition EINPROGRESS : Z := 115.
Definition would_block (res : result Z) : bool :=
  match res with
  | inr e => match err_kind e with OtherKind n => (n =? EAGAIN) || (n =? EINPROGRESS) | _ => false end
  | inl _ => false
  end.

Section uring.
Context {F : Type} `{!Bitflags F} {L : Type} `{!FilterLayer L} {G : Type} `{!Bitflags G}.
Context {S : Type} `{!Socket S} `{!PageSplit} `{!UringEnv} {T : Type -> Type} `{!Slab T}.

Abbreviation Drv := (UrDrv G S T) (only parsing).

(** ** Dropping *)

Definition ur_drop_stream (d : Drv) : outcome Drv :=
  match ur_item d with
  | None => Fault Panic
  | Some _ =>
      let '(op_id, ops) := slab_insert (Some UrClose) (ur_ops d) in
      Done (ur_submit op_id SqClose (set_ur_ops ops d))
  end.

Definition ur_drop_weak_stream (d : Drv) : outcome Drv :=
  match ur_item d with
  | None => Fault Panic
  | Some item =>
      if gcontains UR_DROPPED_PRI (ui_flags item) then Done (set_ur_item None d)
      else Done (set_ur_item (Some (set_ui_flags (ginsert UR_DROPPED_SEC (ui_flags item)) item)) d)
  end.

(** [Drop] of [StreamCtl] and of [WeakStreamCtl]. *)
Definition ur_ctl_drop (d : Drv) : outcome Drv :=
  if ur_storage d then ur_drop_stream d else Done (set_ur_delayed (ur_delayed_feed d ++ [UrStream]) d).
Definition ur_weak_drop (d : Drv) : outcome Drv :=
  if ur_storage d then ur_drop_weak_stream d else Done (set_ur_delayed (ur_delayed_feed d ++ [UrWeak]) d).
#[export] Instance uring_drop : HandleDrop Drv := ur_weak_drop.

(** [check_delayed_feed], which [tick] calls; no entry adds another one. *)
Fixpoint ur_feed (q : list UrIdType) (d : Drv) : outcome Drv :=
  match q with
  | [] => Done d
  | id :: q =>
      d ← (match id with UrStream => ur_drop_stream | UrWeak => ur_drop_weak_stream end) (set_ur_delayed q d);
      ur_feed q d
  end.
Definition ur_check_delayed_feed (d : Drv) : outcome Drv :=
  if ur_storage d then
    d ← ur_feed (ur_delayed_feed d) (set_ur_storage false d);
    Done (set_ur_storage true d)
  else Done d.

Abbreviation IO A := (M (Cx F L Drv) A) (only parsing).

Definition ur_get {A} (g : Drv -> A) : IO A := getsS (fun c => g (cx_drv c)).
Definition ur_mod (g : Drv -> Drv) : IO () := modifyS (fun c => set_drv (g (cx_drv c)) c).
Definition ur_lift (g : Drv -> outcome Drv) : IO () := c ← getS; d ← liftS (g (cx_drv c)); modifyS (set_drv d).
Definition ur_upd_item (g : UrItem G S -> UrItem G S) : IO () := ur_mod (fun d => set_ur_item (g <$> ur_item d) d).
Definition ur_set_flag (n : Z) : IO () := ur_upd_item (fun i => set_ui_flags (ginsert n (ui_flags i)) i).
Definition ur_unset_flag (n : Z) : IO () := ur_upd_item (fun i => set_ui_flags (gremove n (ui_flags i)) i).

(** [streams[id]]. *)
Definition ur_index : IO (UrItem G S) :=
  i ← ur_get ur_item; match i with Some i => mret i | None => failS Panic end.

(** [add_operation], and the submission of its entry. *)
Definition ur_insert (op : Operation) : IO nat := fun c =>
  let '(k, ops) := slab_insert (Some op) (ur_ops (cx_drv c)) in Done (k, set_drv (set_ur_ops ops (cx_drv c)) c).
Definition submit (k : nat) (e : Sqe) : IO () := ur_mod (ur_submit k e).

(** ** [StreamItem::write_bufs] *)

Definition ur_item_write_bufs (bufs : list (list byte)) : IO (result Z) :=
  match bufs with
  | [] => mret (inl 0)
  | _ =>
      i ← ur_index;
      let '(res, s) := so_write (concat bufs) (ui_io i) in
      ur_upd_item (set_ui_io s);;
      match res with
      | Ready (inr e) => mret (inr e)
      | Ready (inl n) => if n =? 0 then ctx_stop None;; mret (inr (mkIoError WriteZero "write zero")) else mret (inl n)
      | Pending => mret (inl 0)
      end
  end.

Definition ur_write_bufs (bufs : list (list byte)) : IO (option (result Z)) :=
  s ← ur_get ur_storage;
  if (s : bool) then
    ur_mod (set_ur_storage false);;
    i ← ur_get ur_item;
    stopped ← ctx_is_stopped;
    res ← (match i with
           | Some item =>
               if bool_decide (ui_wr_op item = None) && negb (gcontains WR_CANCELING (ui_flags item)) && negb stopped
               then r ← ur_item_write_bufs bufs; mret (Some r)
               else mret None
           | None => mret None
           end);
    ur_mod (set_ur_storage true);;
    mret res
  else mret None.

(** [HandleWrapper]; [write] and [notify] are those of the trait. *)
#[export] Instance uring_handle : Handle F L Drv := {
  hd_write := mret tt;
  hd_write_bufs := ur_write_bufs;
  hd_notify := ctx_notify;
}.

(** ** [StreamOpsStorage] *)

Definition submit_recv (buf : list byte) (poll_first : bool) : IO () :=
  op_id ← ur_insert (UrRecv buf);
  ur_upd_item (set_ui_rd_op (non_zero op_id));;
  submit op_id (SqRecv poll_first).

(** Bytes the consumer has not taken yet stay where it can reach them. *)
Definition recv (poll_first : bool) : IO () :=
  i ← ur_get ur_item;
  match i with
  | None => mret tt
  | Some item =>
      match ui_rd_op item with
      | None =>
          buf ← ctx_get_read_buf;
          match buf with
          | [] => submit_recv [] poll_first
          | _ => ctx_update_read_status buf (inl 0);; submit_recv [] poll_first
          end
      | Some _ => if gcontains RD_CANCELING (ui_flags item) then ur_set_flag RD_REISSUE else mret tt
      end
  end.

Definition recv_more (buf : list byte) : IO () :=
  i ← ur_get ur_item;
  match i with None => mret tt | Some _ => submit_recv buf false end.

(** The pages behind the first one that [send] takes: [n] of them are taken,
    [size] bytes with the first page. *)
Fixpoint gather_pages (size n : Z) (pages : list (list byte)) : list (list byte) * list (list byte) :=
  match pages with
  | [] => ([], [])
  | page :: rest =>
      if (size <? MAX_WRITE_SIZE) && (n + 1 <? max_write_items) then
        let '(taken, rest) := gather_pages (size + zlen page) (n + 1) rest in (page :: taken, rest)
      else ([], pages)
  end.

Definition submit_write (op : Operation) (e : Sqe) : IO () :=
  op_id ← ur_insert op;
  ur_upd_item (set_ui_wr_op (non_zero op_id));;
  submit op_id e.

Definition send : IO () :=
  i ← ur_get ur_item;
  match i with
  | None => mret tt
  | Some item =>
      match ui_wr_op item with
      | Some _ => if gcontains WR_CANCELING (ui_flags item) then ur_set_flag WR_REISSUE else mret tt
      | None =>
          pages ← ctx_with_write_buf (fun wrt =>
            mret (match pages_of wrt with
                  | [] => ([], wrt)
                  | first :: pages => let '(taken, rest) := gather_pages (zlen first) 0 pages in (first :: taken, concat rest)
                  end));
          match pages with
          | [] => mret tt
          | [buf] => submit_write (UrSend buf None) (SqSend (negb (gcontains NO_ZC (ui_flags item) || (zlen buf <=? zc_size))))
          | pages => submit_write (UrWritev pages) (SqWritev (length pages))
          end
      end
  end.

Definition ur_pause_read : IO () :=
  item ← ur_index;
  match ui_rd_op item with
  | Some rd_op =>
      if gcontains RD_CANCELING (ui_flags item) then mret tt
      else ur_set_flag RD_CANCELING;; submit rd_op SqCancel
  | None => mret tt
  end.

(** ** [StreamOpsInner::with] *)
Definition ur_with {A} (f : IO A) : IO A :=
  s ← ur_get ur_storage;
  if negb s then failS Panic
  else ur_mod (set_ur_storage false);; r ← f; ur_mod (set_ur_storage true);; mret r.

(** ** The handler of completions *)

(** Prepends the pages that are not empty, the last one first. *)
Definition prepend_pages (pages : list (list byte)) (wrt : list byte) : list byte :=
  foldr (fun page wrt => if zlen page =? 0 then wrt else page ++ wrt) wrt pages.
Definition requeue_pages (pages : list (list byte)) : IO () :=
  ctx_with_write_buf (fun wrt => mret (tt, prepend_pages pages wrt)).

Definition requeue_unsent (buf : list byte) (res : result Z) : IO () :=
  let sent := Z.min (match res with inl n => n | inr _ => 0 end) (zlen buf) in
  if sent =? zlen buf then mret tt
  else ctx_with_write_buf (fun pages => mret (tt, zdrop sent buf ++ pages)).

(** [res.map(..)]: a send of nothing stops the stream. *)
Definition written (res : result Z) : IO (result bool) :=
  match res with
  | inl n => (if n =? 0 then ctx_stop None else mret tt);; mret (inl (0 <? n))
  | inr e => mret (inr e)
  end.
Definition write_done (res : result Z) : IO () :=
  res ← written res;
  st ← ctx_update_write_status res;
  if status_is_io st then send else mret tt.

(** The end of a canceled write. *)
Definition write_canceled : IO () :=
  ur_upd_item (set_ui_wr_op None);;
  ur_unset_flag WR_CANCELING;;
  res ← ctx_update_write_status (inl false);
  item ← ur_index;
  if gcontains WR_REISSUE (ui_flags item) || status_is_io res then ur_unset_flag WR_REISSUE;; send else mret tt.

(** [st.ops.remove(user_data).unwrap()]. *)
Definition remove_op (k : nat) : IO Operation := fun c =>
  match slab_get k (ur_ops (cx_drv c)) with
  | Some (Some op) => Done (op, set_drv (set_ur_ops (slab_remove k (ur_ops (cx_drv c))) (cx_drv c)) c)
  | _ => Fault Panic
  end.

Definition canceled (k : nat) : IO () :=
  ur_with (
    op ← remove_op k;
    i ← ur_get ur_item;
    match op, i with
    | UrRecv buf, Some _ =>
        ur_upd_item (set_ui_rd_op None);;
        ur_unset_flag RD_CANCELING;;
        res ← ctx_update_read_status buf (inl 0);
        item ← ur_index;
        if gcontains RD_REISSUE (ui_flags item) || status_is_io res then ur_unset_flag RD_REISSUE;; recv false else mret tt
    | UrSend buf _, Some _ => ctx_with_write_buf (fun pages => mret (tt, buf ++ pages));; write_canceled
    | UrWritev pages, Some _ => requeue_pages pages;; write_canceled
    | _, _ => mret tt
    end).

Definition completed_recv (is_new : bool) (cq : Cqe) (buf : list byte) : IO () :=
  ur_upd_item (set_ui_rd_op None);;
  if would_block (cq_res cq) then recv_more buf
  else
    buf ← (match cq_res cq with
           | inl size => if 0 <? size then mret (buf ++ cq_data cq) else ctx_stop None;; mret buf
           | inr _ => mret buf
           end);
    if cq_sock_nonempty cq && match cq_res cq with inl n => 0 <? n | inr _ => false end then
      ur_set_flag RD_MORE;; recv_more buf
    else
      ur_unset_flag RD_MORE;;
      st ← ctx_update_read_status buf (cq_res cq);
      if status_is_io st then recv is_new else mret tt.

(** The result tells whether the operation waits for another completion. *)
Definition completed_send (k : nat) (cq : Cqe) (buf : list byte) (result : option (result Z)) : IO bool :=
  if cq_notif cq then
    let res := match result with Some res => res | None => cq_res cq end in
    requeue_unsent buf res;;
    write_done res;;
    mret false
  else if cq_more cq then
    ur_upd_item (set_ui_wr_op None);;
    (if match cq_res cq with inl n => zlen buf <=? n | inr _ => false end then send else mret tt);;
    ur_mod (fun d => set_ur_ops (slab_set k (Some (UrSend buf (Some (cq_res cq)))) (ur_ops d)) d);;
    mret true
  else
    ur_upd_item (set_ui_wr_op None);;
    requeue_unsent buf (cq_res cq);;
    write_done (cq_res cq);;
    mret false.

Definition completed_writev (cq : Cqe) (pages : list (list byte)) : IO () :=
  ur_upd_item (set_ui_wr_op None);;
  requeue_pages (match cq_res cq with inl n => advance_pages n pages | inr _ => pages end);;
  write_done (cq_res cq).

Definition completed_poll (cq : Cqe) (item : UrItem G S) : IO () :=
  stopped ← ctx_is_stopped;
  if negb (gcontains RD_MORE (ui_flags item)) && negb stopped
  then ctx_stop (match cq_res cq with inr e => Some e | inl _ => None end) else mret tt.

Definition completed_close : IO () :=
  item ← ur_index;
  if gcontains UR_DROPPED_SEC (ui_flags item) then ur_mod (set_ur_item None) else ur_set_flag UR_DROPPED_PRI.

(** [st.ops[user_data].take().unwrap()]. *)
Definition take_op (k : nat) : IO Operation := fun c =>
  match slab_get k (ur_ops (cx_drv c)) with
  | Some (Some op) => Done (op, set_drv (set_ur_ops (slab_set k None (ur_ops (cx_drv c))) (cx_drv c)) c)
  | _ => Fault Panic
  end.

Definition completed (is_new : bool) (k : nat) (cq : Cqe) : IO () :=
  ur_with (
    op ← take_op k;
    i ← ur_get ur_item;
    more ← (match op, i with
            | UrRecv buf, Some _ => completed_recv is_new cq buf;; mret false
            | UrSend buf result, Some _ => completed_send k cq buf result
            | UrWritev pages, Some _ => completed_writev cq pages;; mret false
            | UrPoll, Some item => completed_poll cq item;; mret false
            | UrClose, _ => completed_close;; mret false
            | _, _ => mret false
            end);
    if (more : bool) then mret tt else ur_mod (fun d => set_ur_ops (slab_remove k (ur_ops d)) d)).

(** ** The task of the stream *)

Definition ur_poll_readiness (now : Z) (w : waker) : IO (Poll RunStatus) :=
  r ← ctx_poll_read_ready now w;
  read ← (match r with
          | Ready RdyReady => ur_with (recv false);; mret false
          | Ready _ => mret true
          | Pending => ur_with ur_pause_read;; mret false
          end);
  r ← ctx_poll_write_ready w;
  write ← (match r with
           | Ready RdyReady => ur_with send;; mret Pending
           | Ready RdyShutdown => mret (Ready RunShutdown)
           | Ready RdyTerminate => mret (Ready RunTerminate)
           | Pending => mret Pending
           end);
  mret (if negb read && negb (poll_is_ready write) then Pending
        else if poll_is_ready write then write else Ready RunTerminate).

(** [StreamCtl::shutdown], up to the wait for its result. *)
Definition ur_ctl_shutdown : IO () :=
  ur_with (
    ur_pause_read;;
    ur_index;;
    op_id ← ur_insert UrShutdown;
    submit op_id SqShutdown).

Definition ur_task_flush (flush : bool) (now : Z) (w : waker) : IO TaskState :=
  ur_poll_readiness now w;;
  r ← ctx_shutdown flush w;
  match r with Ready _ => ur_ctl_shutdown;; mret TaskShut | Pending => mret (TaskFlush flush) end.

(** A poll of [run]. *)
Definition ur_task_poll (now : Z) (w : waker) (t : TaskState) : IO TaskState :=
  match t with
  | TaskRun =>
      r ← ur_poll_readiness now w;
      match r with
      | Pending => mret TaskRun
      | Ready st =>
          stopped ← ctx_is_stopped;
          if (stopped : bool) then ur_ctl_shutdown;; mret TaskShut
          else ur_task_flush (match st with RunShutdown => true | RunTerminate => false end) now w
      end
  | TaskFlush flush => ur_task_flush flush now w
  | t => mret t
  end.

(** The end of [run], with the result of the shutdown. *)
Definition ur_task_finish (result : option IoError) (t : TaskState) : IO TaskState :=
  match t with
  | TaskShut =>
      stopped ← ctx_is_stopped;
      (if (stopped : bool) then mret tt else ctx_stop result);;
      ur_lift ur_ctl_drop;;
      mret TaskDone
  | t => mret t
  end.
End uring.

(** [StreamOps::get], on a kernel with the operations it requires, and
    [register]; [zc] tells whether the kernel and the kind of the socket allow
    zero-copy sends. *)
Definition ur_register {G S : Type} `{!Bitflags G} {T : Type -> Type} `{!Slab T} (io : S) (zc : bool) : UrDrv G S T :=
  let ops := (slab_insert (Some UrNop) slab_default).2 in
  let item := mkUrItem io (if zc then fl_empty else fl_of NO_ZC) None None in
  let '(op_id, ops) := slab_insert (Some UrPoll) ops in
  ur_submit op_id SqPollAdd (mkUrDrv true ops (Some item) [] []).

(** ** A stream with the io_uring driver

    The steps of a program over a stream whose driver is [UringStream.v]: the
    owner's, those of the task and of the handler, and the completions of the
    kernel.  A completion belongs to an operation that was submitted and is
    not over; a send takes a prefix of what it is offered, and only a
    zero-copy send announces another completion. *)

(** What was last submitted under a key. *)
Fixpoint last_sqe (k : nat) (sq : list (nat * Sqe)) (e : option Sqe) : option Sqe :=
  match sq with
  | [] => e
  | (j, SqCancel) :: sq => last_sqe k sq e
  | (j, x) :: sq => last_sqe k sq (if (j =? k)%nat then Some x else e)
  end.
Definition sent_zc (k : nat) (sq : list (nat * Sqe)) : bool :=
  match last_sqe k sq None with Some (SqSend zc) => zc | _ => false end.

(** A send of [bs] can have this result. *)
Definition takes (res : result Z) (bs : list byte) : bool :=
  match res with inl n => (0 <=? n) && (n <=? zlen bs) | inr _ => true end.

(** The bytes of an operation that the kernel has not reported on. *)
Definition op_bytes (op : Operation) : list byte :=
  match op with UrSend buf None => buf | UrWritev pages => concat pages | _ => [] end.

Section kernel.
Context {G S : Type} `{!Socket S} `{!RingSocket S} {T : Type -> Type} `{!Slab T}.
Implicit Types d : UrDrv G S T.

Definition op_at (k : nat) d : option Operation := match slab_get k (ur_ops d) with Some o => o | None => None end.

Definition cqe_ok (k : nat) (cq : Cqe) d : bool :=
  match op_at k d with
  | Some (UrRecv _) =>
      negb (cq_notif cq) && negb (cq_more cq) && match cq_res cq with inl n => n =? zlen (cq_data cq) | inr _ => true end
  | Some (UrSend buf None) => negb (cq_notif cq) && (negb (cq_more cq) || sent_zc k (ur_sq d)) && takes (cq_res cq) buf
  | Some (UrSend _ (Some _)) => cq_notif cq
  | Some (UrWritev pages) => negb (cq_notif cq) && negb (cq_more cq) && takes (cq_res cq) (concat pages)
  | Some UrNop | None => false
  | Some _ => true
  end.
Definition cancel_ok (k : nat) d : bool :=
  match op_at k d with Some (UrSend _ (Some _)) | Some UrNop | None => false | Some _ => true end.

(** The socket takes what the kernel reports. *)
Definition kernel_took (k : nat) (cq : Cqe) d : UrDrv G S T :=
  match op_at k d, cq_res cq with
  | Some op, inl n => set_ur_item ((fun i => set_ui_io (so_ring (ztake n (op_bytes op)) (ui_io i)) i) <$> ur_item d) d
  | _, _ => d
  end.
End kernel.

Section system.
Context {F : Type} `{!Bitflags F} {L : Type} `{!FilterLayer L} {G : Type} `{!Bitflags G}.
Context {S : Type} `{!Socket S} `{!RingSocket S} `{!PageSplit} `{!UringEnv} {T : Type -> Type} `{!Slab T}.
Context {Item Err : Type}.

Abbreviation Drv := (UrDrv G S T) (only parsing).
Abbreviation IO A := (M (Cx F L Drv) A) (only parsing).
Abbreviation USys := (Sys F L Drv) (only parsing).

Definition ur_complete (is_new : bool) (k : nat) (cq : Cqe) : IO () :=
  ok ← ur_get (cqe_ok k cq);
  if (ok : bool) then ur_mod (kernel_took k cq);; completed is_new k cq else mret tt.
Definition ur_cancel (k : nat) : IO () :=
  ok ← ur_get (cancel_ok k);
  if (ok : bool) then canceled k else mret tt.

Inductive ur_op :=
  | UrOwner (op : io_op Item Err)
  | UrComplete (is_new : bool) (k : nat) (cq : Cqe)
  | UrCancel (k : nat)
  | UrTick
  | UrTaskPoll (now : Z) (w : waker)
  | UrTaskFinish (result : option IoError).

Definition ur_step (op : ur_op) (s : USys) : outcome USys :=
  match op with
  | UrOwner op => owner_step op s
  | UrComplete is_new k cq => plain (ur_complete is_new k cq) s
  | UrCancel k => plain (ur_cancel k) s
  | UrTick => plain (ur_lift ur_check_delayed_feed) s
  | UrTaskPoll now w => sys_call (ur_task_poll now w (sy_task s)) (fun t c => mkSys c t (sy_acc s) (sy_failed s)) s
  | UrTaskFinish r => sys_call (ur_task_finish r (sy_task s)) (fun t c => mkSys c t (sy_acc s) (sy_failed s)) s
  end.

Fixpoint ur_exec (ops : list ur_op) (s : USys) : outcome USys :=
  match ops with
  | [] => Done s
  | op :: ops => s' ← ur_step op s; ur_exec ops s'
  end.

(** A stream that was just made, with its driver. *)
Definition ur_new (id : Id) (cfg : IoConfig) (socket : S) (zc : bool) (m : Mgr) : USys :=
  mkSys (mkCx (io_new id cfg) (Some m) (ur_register socket zc) []) TaskRun [] false.
End system.
Arguments ur_op : clear implicits.
