(* ===== verification/UringFrame.v ===== *)
(** * What the owner of a stream leaves to the io_uring driver

    The driver tells that it writes no more by [WR_PAUSED], and it alone holds
    the operation that writes.  No operation of [IoState.v] and [IoRef.v],
    except for the report of a write, sets the flag, and none starts a write:
    so a write that is under way is never taken for paused. *)
From Stdlib Require Import ZArith Lia.
From stdpp Require Import base numbers list sets.
From S2P Require Import Prelude Deps Task IoConfig IoFlags IoBuf IoTimers IoState IoInv IoRef Polling IoSystem UringStream.

Section frame.
Context {F : Type} `{!Bitflags F} `{!BitflagsLaws F} {L : Type} `{!FilterLayer L} {G : Type} `{!Bitflags G}.
Context {S : Type} `{!Socket S} `{!PageSplit} `{!UringEnv} {T : Type -> Type} `{!Slab T}.

Abbreviation Drv := (UrDrv G S T) (only parsing).
Abbreviation IO A := (M (Cx F L Drv) A) (only parsing).
Implicit Types (c : Cx F L Drv) (d : Drv).

(** No operation writes. *)
Definition idle d : Prop := forall i, ur_item d = Some i -> ui_wr_op i = None.

Definition rests c c' : Prop :=
  (hasf 9 c' = true -> hasf 9 c = true) /\ (idle (cx_drv c) -> idle (cx_drv c')).
#[export] Instance rests_preorder : PreOrder rests.
Proof. split; [by split|]. intros c1 c2 c3 [] []. split; auto. Qed.

(** While the driver writes, it is not paused. *)
Definition awake c : Prop := idle (cx_drv c) \/ hasf 9 c = false.
Lemma rests_awake c c' : rests c c' -> awake c -> awake c'.
Proof. intros [H9 Hi] [|Hf]; [by left; apply Hi|right]. destruct (hasf 9 c'); [by rewrite H9 in Hf|done]. Qed.

Definition stays {A} (op : IO A) : Prop := forall c a c', op c = Done (a, c') -> rests c c'.

Lemma runs_stays {A} (op : IO A) c P : runs op c P -> stays op -> runs op c (fun a c' => P a c' /\ rests c c').
Proof. intros (a & c' & He & HP) Hs. exists a, c'. split; [done|]. split; [done|by eapply Hs]. Qed.

(** ** Composition *)

Lemma stays_ret {A} (a : A) : stays (mret a).
Proof. by intros c a' c' [= <- <-]. Qed.
Lemma stays_fail {A} f : stays (failS f : IO A).
Proof. by intros c a c'. Qed.
Lemma stays_bind {A B} (op : IO A) (k : A -> IO B) : stays op -> (forall a, stays (k a)) -> stays (op ≫= k).
Proof.
  intros H1 H2 c b c'. unfold mbind, M_bind. destruct (op c) as [[a c1]|f] eqn:He; [|done]. intros Hk.
  etrans; [by eapply H1|by eapply H2].
Qed.
Lemma stays_if {A} (b : bool) (op1 op2 : IO A) : stays op1 -> stays op2 -> stays (if b then op1 else op2).
Proof. by destruct b. Qed.

(** ** Steps *)

Lemma stays_same {A} (op : IO A) :
  (forall c a c', op c = Done (a, c') -> io_flags (cx_io c') = io_flags (cx_io c) /\ cx_drv c' = cx_drv c) -> stays op.
Proof. intros Hop c a c' [Hf Hd]%Hop. split; [unfold hasf; by rewrite Hf|by rewrite Hd]. Qed.
Lemma stays_gets {A} (g : Cx F L Drv -> A) : stays (getsS g).
Proof. by apply stays_same; intros c a c' [= <- <-]. Qed.
Lemma stays_getS : stays getS.
Proof. by apply stays_same; intros c a c' [= <- <-]. Qed.
Lemma stays_lift {A} (o : outcome A) : stays (liftS o).
Proof. apply stays_same. intros c a c'. unfold liftS. by destruct o as [x|]; [intros [= <- <-]|]. Qed.
Lemma stays_mod_io g : (forall s, io_flags (g s) = io_flags s) -> stays (mod_io g).
Proof. intros Hg. apply stays_same. intros c a c' [= <- <-]. split; [apply Hg|done]. Qed.
Lemma stays_set_mgr m : stays (modifyS (set_mgr m)).
Proof. by apply stays_same; intros c a c' [= <- <-]. Qed.

Definition keeps9 (g : F -> F) : Prop := forall f, has 9 (g f) = true -> has 9 f = true.
Lemma stays_flags g : keeps9 g -> stays (upd_flags g).
Proof. intros Hg c a c' [= <- <-]. split; [|done]. apply Hg. Qed.
Lemma stays_check (g : F -> bool * F) : keeps9 (fun f => (g f).2) -> stays (check_flags g).
Proof.
  intros Hg c a c'. unfold check_flags. specialize (Hg (io_flags (cx_io c))). cbn beta in Hg.
  destruct (g (io_flags (cx_io c))) as [b f]. intros [= <- <-]. split; [apply Hg|done].
Qed.
Lemma stays_on_buffer {A} (op : M Stack A) : stays (on_buffer op).
Proof. apply stays_same. intros c a c'. unfold on_buffer. by destruct (op _) as [[x b]|]; [intros [= <- <-]|]. Qed.
Lemma stays_mgr_with {A} (f : Mgr -> outcome (A * Mgr)) : stays (mgr_with f).
Proof. apply stays_same. intros c a c'. unfold mgr_with. destruct (cx_mgr c); [|done]. by destruct (f _) as [[]|]; [intros [= <- <-]|]. Qed.
Lemma stays_with_filters {A} w (null : A) run : stays (with_filters w null run).
Proof.
  apply stays_same. intros c a c'. unfold with_filters. destruct (io_filter _); [|by intros [= <- <-]].
  by destruct (run _ _) as [[]|]; [intros [= <- <-]|].
Qed.
Ltac same := by apply stays_same; intros ??? [= <- <-].
Lemma stays_wake_read : stays wake_read_task.
Proof. same. Qed.
Lemma stays_wake_write : stays wake_write_task.
Proof. same. Qed.
Lemma stays_wake_dispatch : stays wake_dispatch_task.
Proof. same. Qed.
Lemma stays_notify_disconnect : stays notify_disconnect.
Proof. apply stays_same. intros c a c'. unfold notify_disconnect. by destruct (io_disconnect _); intros [= <- <-]. Qed.
Lemma stays_register_disconnect : stays register_disconnect.
Proof. apply stays_same. intros c a c'. unfold register_disconnect. by destruct (io_disconnect _); intros [= <- <-]. Qed.
Lemma stays_poll_disconnect t w : stays (poll_disconnect t w).
Proof.
  apply stays_same. intros c a c'. unfold poll_disconnect. destruct (io_disconnect _) as [ws|]; [|by intros [= <- <-]].
  by destruct (ws !! t); [intros [= <- <-]|].
Qed.

(** A drop leaves the operations alone. *)
Lemma stays_drop_handle : stays drop_handle.
Proof.
  intros c a c'. unfold drop_handle, mbind, M_bind. cbn. destruct (io_handle (cx_io c)); [|by intros [= <- <-]]. cbn.
  unfold liftS. destruct (hd_drop (cx_drv c)) as [d|] eqn:Hd; [|done]. intros [= <- <-]. split; [done|]. cbn.
  revert Hd. unfold hd_drop, uring_drop, ur_weak_drop, ur_drop_weak_stream, idle.
  destruct (ur_storage (cx_drv c)); [|intros [= <-]; auto]. destruct (ur_item (cx_drv c)) as [i|]; [|done].
  destruct (gcontains _ _); intros [= <-]; [done|]. intros Hi j [= <-]. exact (Hi i eq_refl).
Qed.
Lemma stays_mod_drv g : (forall d, idle d -> idle (g d)) -> stays (ur_mod g).
Proof. intros Hg c a c' [= <- <-]. split; [done|]. apply Hg. Qed.
Lemma stays_upd_item g : (forall i, ui_wr_op i = None -> ui_wr_op (g i) = None) -> stays (ur_upd_item g).
Proof.
  intros Hg. apply stays_mod_drv. intros d Hd j. cbn. destruct (ur_item d) as [i|] eqn:Hi; [|done].
  intros [= <-]. by apply Hg, Hd.
Qed.
Lemma stays_insert op : stays (ur_insert op).
Proof. intros c a c'. unfold ur_insert. destruct (slab_insert _ _) as [k o]. by intros [= <- <-]. Qed.
End frame.

Create HintDb stays.
#[export] Hint Resolve stays_ret stays_fail stays_if stays_gets stays_getS stays_lift stays_set_mgr stays_on_buffer stays_mgr_with
  stays_with_filters stays_wake_read stays_wake_write stays_wake_dispatch stays_notify_disconnect stays_register_disconnect
  stays_poll_disconnect stays_drop_handle stays_insert : stays.
#[export] Hint Extern 1 (stays (upd_flags _)) => apply stays_flags : stays.
#[export] Hint Extern 1 (stays (check_flags _)) => apply stays_check : stays.
#[export] Hint Extern 1 (stays (mod_io _)) => apply stays_mod_io; done : stays.
#[export] Hint Extern 1 (stays (get_io _)) => apply stays_gets : stays.
#[export] Hint Extern 1 (stays (flag _)) => apply stays_gets : stays.
#[export] Hint Extern 1 (stays (ur_get _)) => apply stays_gets : stays.
#[export] Hint Extern 1 (stays (ur_set_flag _)) => apply stays_upd_item; done : stays.
#[export] Hint Extern 1 (stays (ur_unset_flag _)) => apply stays_upd_item; done : stays.
#[export] Hint Extern 1 (stays (ur_upd_item _)) => apply stays_upd_item; done : stays.
#[export] Hint Extern 1 (stays (submit _ _)) => apply stays_mod_drv; done : stays.
#[export] Hint Extern 1 (keeps9 _) => intros ?f; cbn beta; autorewrite with flags; by rewrite ?andb_false_r, ?orb_false_r, ?andb_true_r : stays.

(** Goes through the steps of an operation. *)
Ltac stays_step := first
  [solve [eauto 2 with stays]
  |progress intros
  |apply stays_bind
  |match goal with |- stays (match ?x with _ => _ end) => destruct x end].
Ltac stays_all := repeat stays_step.

Section operations.
Context {F : Type} `{!Bitflags F} `{!BitflagsLaws F} {L : Type} `{!FilterLayer L} {G : Type} `{!Bitflags G}.
Context {S : Type} `{!Socket S} `{!PageSplit} `{!UringEnv} {T : Type -> Type} `{!Slab T}.

Abbreviation Drv := (UrDrv G S T) (only parsing).
Abbreviation IO A := (M (Cx F L Drv) A) (only parsing).
Abbreviation stays := (stays (F := F) (L := L) (G := G) (S := S) (T := T)).

(** ** Operations of the stream *)

Lemma stays_terminate e : stays (terminate_connection e).
Proof. unfold terminate_connection. stays_all. Qed.
#[local] Hint Resolve stays_terminate : stays.
Lemma stays_start_shutdown : stays start_shutdown.
Proof. unfold start_shutdown. stays_all. Qed.
Lemma stays_filters_stopped : stays filters_stopped.
Proof. unfold filters_stopped. stays_all. Qed.
Lemma stays_write_force : stays process_write_buf_force.
Proof. unfold process_write_buf_force. stays_all. Qed.
#[local] Hint Resolve stays_start_shutdown stays_filters_stopped stays_write_force : stays.
Lemma stays_process_write : stays process_write_buf.
Proof. unfold process_write_buf. stays_all. Qed.
Lemma stays_process_read : stays process_read_buf.
Proof. unfold process_read_buf. stays_all. Qed.
#[local] Hint Resolve stays_process_write stays_process_read : stays.
Lemma stays_process_shutdown : stays process_shutdown.
Proof. unfold process_shutdown. stays_all. Qed.
Lemma stays_call_write : stays call_write.
Proof. unfold call_write. cbn [hd_write uring_handle]. stays_all. Qed.
Lemma stays_call_notify : stays call_notify.
Proof. unfold call_notify. cbn [hd_notify uring_handle]. unfold ctx_notify. stays_all. Qed.
Lemma stays_schedule : stays schedule.
Proof. unfold schedule, schedule_write. stays_all. Qed.
#[local] Hint Resolve stays_process_shutdown stays_call_write stays_call_notify stays_schedule : stays.
Lemma stays_consolidate force : stays (consolidate_write_state force).
Proof. unfold consolidate_write_state, is_wr_backpressure_needed. stays_all. Qed.
#[local] Hint Resolve stays_consolidate : stays.

Lemma stays_upd g : (forall d, idle (g d) <-> idle d) -> stays (ur_mod g).
Proof. intros Hg. apply stays_mod_drv. intros d. apply Hg. Qed.
Lemma stays_index : stays ur_index.
Proof. unfold ur_index. stays_all. Qed.
#[local] Hint Resolve stays_index : stays.
#[local] Hint Extern 1 (UringFrame.stays (ur_mod _)) => apply stays_upd; done : stays.
Lemma stays_write_bufs bufs : stays (ur_write_bufs bufs).
Proof. unfold ur_write_bufs, ur_item_write_bufs, ctx_stop, ctx_is_stopped. stays_all. Qed.
#[local] Hint Resolve stays_write_bufs : stays.

Lemma stays_with_write_buf {A} (f : list byte -> A * list byte) : stays (with_write_buf f).
Proof. unfold with_write_buf, error_or_disconnected, state_error. stays_all. Qed.
Lemma stays_send_buf : stays send_buf.
Proof. unfold send_buf. stays_all. Qed.
Lemma stays_ops_send_buf : stays ops_send_buf.
Proof. unfold ops_send_buf. stays_all. Qed.
Lemma stays_try_write_vectored bufs : stays (try_write_vectored bufs).
Proof. unfold try_write_vectored. cbn [hd_write_bufs uring_handle]. stays_all. Qed.
Lemma stays_close_with e : stays (close_with e).
Proof. unfold close_with. stays_all. Qed.
Lemma stays_update_read_destination buf : stays (update_read_destination buf).
Proof. unfold update_read_destination, is_rd_backpressure_needed. stays_all. Qed.
#[local] Hint Resolve stays_update_read_destination : stays.
Lemma stays_with_read_dst {A} (f : list byte -> IO (A * list byte)) : (forall b, stays (f b)) -> stays (with_read_dst f).
Proof. intros Hf. unfold with_read_dst, terminate. stays_all. Qed.
Lemma stays_decode {Item Err} (codec : Decoder Item Err) : stays (decode codec).
Proof. unfold decode. apply stays_with_read_dst. intros buf. destruct (codec buf). stays_all. Qed.
Lemma stays_decode_item {Item Err} (codec : Decoder Item Err) : stays (decode_item codec).
Proof. unfold decode_item. apply stays_with_read_dst. intros buf. destruct (codec buf). stays_all. Qed.
Lemma stays_with_read_buf {A} (f : list byte -> A * list byte) : stays (with_read_buf f).
Proof. unfold with_read_buf. apply stays_with_read_dst. intros buf. destruct (f buf). stays_all. Qed.
#[local] Hint Resolve stays_decode_item : stays.
Lemma stays_pause : stays pause.
Proof. unfold pause. stays_all. Qed.
Lemma stays_poll_read_ready w : stays (poll_read_ready w).
Proof. unfold poll_read_ready, register_dispatch. stays_all. Qed.
#[local] Hint Resolve stays_pause stays_poll_read_ready : stays.
Lemma stays_poll_read_notify w : stays (poll_read_notify w).
Proof. unfold poll_read_notify, register_dispatch. stays_all. Qed.
Lemma stays_poll_recv {Item Err} (codec : Decoder Item Err) w : stays (poll_recv codec w).
Proof. unfold poll_recv, poll_recv_decode, state_error. stays_all. Qed.
Lemma stays_poll_flush w full : stays (poll_flush w full).
Proof. unfold poll_flush, register_dispatch, error_or_disconnected, state_error, is_wr_backpressure_needed. stays_all. Qed.
Lemma stays_poll_shutdown w : stays (poll_shutdown w).
Proof. unfold poll_shutdown, register_dispatch, state_error. stays_all. Qed.
Lemma stays_poll_status_update w : stays (poll_status_update w).
Proof. unfold poll_status_update, register_dispatch, state_error, should_disable_wr_backpressure. stays_all. Qed.
Lemma stays_on_disconnect w : stays (t ← on_disconnect; on_disconnect_poll t w).
Proof. unfold on_disconnect, on_disconnect_poll. stays_all. Qed.
Lemma stays_notify_timeout : stays io_notify_timeout.
Proof. unfold io_notify_timeout. stays_all. Qed.
Lemma stays_read_announce n : stays (read_announce n).
Proof. unfold read_announce, is_rd_backpressure_needed. stays_all. Qed.
#[local] Hint Resolve stays_read_announce : stays.
Lemma stays_update_read_status buf st : stays (ctx_update_read_status buf st).
Proof. unfold ctx_update_read_status. stays_all. Qed.
Lemma stays_shutdown_filters now : stays (shutdown_filters now).
Proof. unfold shutdown_filters. stays_all. Qed.
Lemma stays_poll_write_ready w : stays (ctx_poll_write_ready w).
Proof. unfold ctx_poll_write_ready, filter_poll_write_ready, register_write. stays_all. Qed.
Lemma stays_ctx_shutdown flush w : stays (ctx_shutdown flush w).
Proof. unfold ctx_shutdown, register_read, register_write. stays_all. Qed.
Lemma stays_get_read_buf : stays ctx_get_read_buf.
Proof. unfold ctx_get_read_buf. stays_all. Qed.
End operations.

#[export] Hint Resolve stays_terminate stays_start_shutdown stays_filters_stopped stays_write_force stays_process_write
  stays_process_read stays_process_shutdown stays_call_write stays_call_notify stays_schedule stays_consolidate
  stays_index stays_write_bufs stays_with_write_buf stays_send_buf stays_ops_send_buf stays_try_write_vectored
  stays_close_with stays_update_read_destination stays_decode stays_decode_item stays_with_read_buf stays_pause
  stays_poll_read_ready stays_poll_read_notify stays_poll_recv stays_poll_flush stays_poll_shutdown
  stays_poll_status_update stays_on_disconnect stays_notify_timeout stays_read_announce stays_update_read_status
  stays_shutdown_filters stays_poll_write_ready stays_ctx_shutdown stays_get_read_buf : stays.
#[export] Hint Extern 2 (stays (ur_mod _)) => apply stays_upd; done : stays.
#[export] Hint Extern 1 (stays close) => apply stays_start_shutdown : stays.
#[export] Hint Extern 1 (stays terminate) => apply stays_terminate : stays.
#[export] Hint Extern 1 (stays (ctx_stop _)) => apply stays_terminate : stays.
#[export] Hint Extern 1 (stays ctx_is_stopped) => apply stays_gets : stays.
#[export] Hint Extern 1 (stays (encode_slice _)) => apply stays_with_write_buf : stays.

Section steps.
Context {F : Type} `{!Bitflags F} `{!BitflagsLaws F} {L : Type} `{!FilterLayer L} {G : Type} `{!Bitflags G}.
Context {S : Type} `{!Socket S} `{!PageSplit} `{!UringEnv} {T : Type -> Type} `{!Slab T}.
Context {Item Err : Type}.

Abbreviation Drv := (UrDrv G S T) (only parsing).
Abbreviation stays := (stays (F := F) (L := L) (G := G) (S := S) (T := T)).

(** ** The steps of the owner *)

Lemma stays_send_scheduled ids : stays (send_scheduled ids).
Proof. induction ids; cbn [send_scheduled]; stays_all. Qed.
Lemma stays_iops_run : stays iops_run_stream.
Proof. unfold iops_run_stream. pose proof stays_send_scheduled. stays_all. Qed.

Lemma stays_call {A} (op : M (Cx F L Drv) A) k s s' :
  stays op -> (forall a c, sy_io (k a c) = c) -> sys_call op k s = Done s' -> rests (sy_io s) (sy_io s').
Proof.
  intros Hop Hk. unfold sys_call. destruct (op (sy_io s)) as [[a c]|] eqn:He; [|done]. intros [= <-]. rewrite Hk. by eapply Hop.
Qed.
Lemma owner_rests (op : io_op Item Err) (s s' : Sys F L Drv) : owner_step op s = Done s' -> rests (sy_io s) (sy_io s').
Proof.
  pose proof stays_iops_run. destruct op; cbn [owner_step]; try (by intros [= <-]); apply stays_call; try done; stays_all.
Qed.

(** ** Reading *)

Lemma stays_submit_recv buf pf : stays (submit_recv buf pf).
Proof. unfold submit_recv. stays_all. Qed.
#[local] Hint Resolve stays_submit_recv : stays.
Lemma stays_recv pf : stays (recv pf).
Proof. unfold recv. stays_all. Qed.
Lemma stays_recv_more buf : stays (recv_more buf).
Proof. unfold recv_more. stays_all. Qed.
Lemma stays_pause_read : stays ur_pause_read.
Proof. unfold ur_pause_read. stays_all. Qed.
Lemma stays_ctl_shutdown : stays ur_ctl_shutdown.
Proof. unfold ur_ctl_shutdown, ur_with. pose proof stays_pause_read. stays_all. Qed.
Lemma stays_poll_read now w : stays (ctx_poll_read_ready now w).
Proof. unfold ctx_poll_read_ready, filter_poll_read_ready, register_read. stays_all. Qed.
Lemma stays_with {A} (f : M (Cx F L Drv) A) : stays f -> stays (ur_with f).
Proof. intros Hf. unfold ur_with. stays_all. Qed.
Lemma stays_completed_recv b cq buf : stays (completed_recv b cq buf).
Proof. unfold completed_recv. pose proof stays_recv. pose proof stays_recv_more. stays_all. Qed.
Lemma stays_ctx_write_buf {A} (f : list byte -> A * list byte) : stays (ctx_with_write_buf (fun w => mret (f w))).
Proof. unfold ctx_with_write_buf, with_write_dst_io. stays_all. Qed.
Lemma stays_written res : stays (written res).
Proof. unfold written. stays_all. Qed.
Lemma stays_completed_poll cq i : stays (completed_poll cq i).
Proof. unfold completed_poll. stays_all. Qed.

(** ** The report of a write *)

Lemma update_write_status_rests st c r c' :
  ctx_update_write_status (F := F) (L := L) (D := Drv) st c = Done (r, c') ->
  (r = StatusIo -> hasf 9 c' = false) /\ (idle (cx_drv c) -> idle (cx_drv c')).
Proof.
  assert (forall op : M (Cx F L Drv) (), stays op -> forall c1 c2, op c1 = Done (tt, c2) -> idle (cx_drv c1) -> idle (cx_drv c2)) as Hst.
  { intros op Hop c1 c2 He. by apply (Hop _ _ _ He). }
  unfold ctx_update_write_status. destruct st as [w|e].
  2:{ intros ([] & c1 & H1 & [= <- <-])%bind_done. split; [done|]. by apply (Hst _ (stays_terminate (Some e))). }
  intros (len & c1 & H1 & (flush & c2 & H2 & ([] & c3 & H3 & (nt & c4 & H4 & ([] & c5 & H5 & (cl & c6 & H6 & Hend)%bind_done)%bind_done)%bind_done)%bind_done)%bind_done)%bind_done.
  assert (idle (cx_drv c) -> idle (cx_drv c6)) as Hid.
  { intros Hi. apply (stays_on_buffer _ _ _ _ H1) in Hi. apply (stays_gets _ _ _ _ H2) in Hi.
    eapply Hst in Hi; [|..|exact H3]; [|unfold should_disable_wr_backpressure; stays_all]. apply (stays_gets _ _ _ _ H4) in Hi.
    eapply Hst in Hi; [|..|exact H5]; [|stays_all]. by apply (stays_gets _ _ _ _ H6) in Hi. }
  destruct cl; [by injection Hend as <- <-|]. destruct (len =? 0).
  - apply bind_done in Hend as ([] & c7 & [= <-] & Hend). apply bind_done in Hend as (sf & c8 & [= <- <-] & Hend).
    apply bind_done in Hend as ([] & c9 & H9 & [= <- <-]). split; [done|]. intros Hi. eapply Hst; [..|exact H9|by apply Hid]. stays_all.
  - apply bind_done in Hend as ([] & c7 & [= <-] & [= <- <-]). split; [|done]. intros _. unfold hasf. cbn [cx_io upd_io io_flags set_flags].
    by rewrite has_unset_write_paused, andb_false_r.
Qed.
End steps.
