(* ===== verification/UringInv.v ===== *)
(** * The invariant of the io_uring driver

    For a stream without zero-copy sends: one operation at most writes, it is
    the one the item names, and what it holds has been taken from the stream
    but not been sent.  The task and the handle own the slot of the stream
    together, and the descriptor is closed once. *)
From Stdlib Require Import ZArith Lia.
From stdpp Require Import base numbers list sets gmap.
From S2P Require Import Prelude Deps Task IoConfig IoFlags IoBuf IoChain IoTimers IoState IoInv IoRef IoKeeps IoOutput Polling PollingSpec IoSystem UringStream UringFrame.

Definition writes (op : Operation) : bool := match op with UrSend _ _ | UrWritev _ => true | _ => false end.
Definition is_close (e : nat * Sqe) : bool := match e.2 with SqClose => true | _ => false end.

(** The log only has what was submitted. *)
Lemma last_sqe_in k sq e x : last_sqe k sq e = Some x -> (k, x) ∈ sq \/ e = Some x.
Proof.
  revert e. induction sq as [|[j y] sq IH]; intros e; [by right|]. cbn [last_sqe].
  assert (forall z, last_sqe k sq (if (j =? k)%nat then Some z else e) = Some x -> y = z -> (k, x) ∈ (j, y) :: sq \/ e = Some x) as Hz.
  { intros z [Hin|He]%IH ->; [left; by right|]. destruct (Nat.eqb_spec j k) as [->|]; [|by right]. injection He as ->. left. by left. }
  destruct y; try (intros Hx; by apply (Hz _ Hx)). intros [Hin|]%IH; [left; by right|by right].
Qed.

Section inv.
Context {G : Type} `{!Bitflags G} `{!BitflagsLaws G}.
Context {S : Type} `{!Socket S} {T : Type -> Type} `{!Slab T} `{!SlabLaws T}.

Abbreviation Drv := (UrDrv G S T) (only parsing).
Implicit Types (d : Drv) (i : UrItem G S).

Definition pending (k : nat) d : option Operation := match slab_map (ur_ops d) !! k with Some o => o | None => None end.
Definition inflight d : list byte :=
  match ur_item d with
  | Some i => match ui_wr_op i with Some k => match pending k d with Some op => op_bytes op | None => [] end | None => [] end
  | None => []
  end.
Definition ur_sent d : list byte := match ur_item d with Some i => so_sent (ui_io i) ++ inflight d | None => [] end.

(** ** Operations *)

Record ops_ok d : Prop := {
  uo_nop : pending 0 d = Some UrNop;
  uo_write i k op : ur_item d = Some i -> pending k d = Some op -> writes op = true ->
    ui_wr_op i = Some k /\ (forall buf r, op <> UrSend buf (Some r));
  uo_flags i : ur_item d = Some i -> has 3 (ui_flags i) = false /\ has 4 (ui_flags i) = false /\ has 5 (ui_flags i) = true;
  uo_sq k zc : (k, SqSend zc) ∈ ur_sq d -> zc = false;
}.

(** ** Owners *)

Definition uqueued (t : UrIdType) d : nat := length (filter (fun x => x = t) (ur_delayed_feed d)).
Definition udropped (n : Z) d : bool := match ur_item d with Some i => has n (ui_flags i) | None => true end.
(** How often the descriptor was closed. *)
Definition closes d : nat := length (filter (fun e => is_close e = true) (ur_sq d)).

Record uowners (ctl alive : bool) d : Prop := {
  uw_task : (one ctl + uqueued UrStream d + closes d = 1)%nat;
  uw_closed : udropped 6 d = true -> closes d = 1%nat;
  uw_close k : pending k d = Some UrClose ->
    closes d = 1%nat /\ udropped 6 d = false /\ (forall j, pending j d = Some UrClose -> j = k);
  uw_handle : (one alive + uqueued UrWeak d + one (udropped 7 d) = 1)%nat;
  uw_removed : is_Some (ur_item d) -> udropped 6 d && udropped 7 d = false;
}.

Lemma uowners_item ctl alive d : uowners ctl alive d -> ctl = true \/ alive = true -> is_Some (ur_item d).
Proof.
  intros [Ht Hc _ Hh _] Ha. unfold udropped in *. destruct (ur_item d); [by eexists|]. specialize (Hc eq_refl).
  destruct Ha as [-> | ->]; cbn in *; lia.
Qed.

(** ** Changes *)

(** Fewer operations. *)
Definition fewer d d' : Prop := forall k op, pending k d' = Some op -> pending k d = Some op.
(** What the invariant sees of an item. *)
Definition alike i i' : Prop :=
  ui_wr_op i' = ui_wr_op i /\ forall k, k ∈ [3; 4; 5; 6; 7] -> has k (ui_flags i') = has k (ui_flags i).

Lemma ops_ok_fewer d d' :
  ops_ok d -> fewer d d' -> pending 0 d' = Some UrNop -> ur_item d' = ur_item d -> ur_sq d' = ur_sq d -> ops_ok d'.
Proof.
  intros [H0 Hw Hf Hs] Hl Hn Hi Hq. split; rewrite ?Hi, ?Hq; try done. intros i k op Hit Hp. apply Hw; [done|by apply Hl].
Qed.
Lemma uowners_fewer ctl alive d d' :
  uowners ctl alive d -> fewer d d' -> ur_item d' = ur_item d -> ur_sq d' = ur_sq d -> ur_delayed_feed d' = ur_delayed_feed d ->
  uowners ctl alive d'.
Proof.
  intros [Ht Hc Hk Hh Hr] Hl Hi Hs Hq. unfold uqueued, closes, udropped in *.
  split; unfold uqueued, closes, udropped; rewrite ?Hi, ?Hs, ?Hq; try done.
  intros k Hp%Hl. destruct (Hk k Hp) as (? & ? & Hu). do 2 (split; [done|]). intros j Hj%Hl. by apply Hu.
Qed.

Lemma ops_ok_item d i i' : ops_ok d -> ur_item d = Some i -> alike i i' -> ops_ok (set_ur_item (Some i') d).
Proof.
  intros [H0 Hw Hf Hs] Hi [Ho Hk]. split; try done.
  - intros j k op [= <-] Hp Hop. rewrite Ho. by apply (Hw i).
  - intros j [= <-]. rewrite !Hk by mem. by apply Hf.
Qed.
Lemma uowners_item_alike ctl alive d i i' :
  uowners ctl alive d -> ur_item d = Some i -> alike i i' -> uowners ctl alive (set_ur_item (Some i') d).
Proof.
  intros [Ht Hc Hk Hh Hr] Hi [_ Ha]. unfold udropped in *. rewrite Hi in *.
  split; unfold udropped; cbn [ur_item set_ur_item]; rewrite ?Ha by mem; try done. intros _. by apply Hr.
Qed.

(** The slab. *)
Lemma pending_get k d : pending k d = op_at k d.
Proof. unfold pending, op_at. by rewrite slab_get_map. Qed.
Lemma pending_insert op d k : let r := slab_insert (Some op) (ur_ops d) in
  pending k (set_ur_ops r.2 d) = if decide (k = r.1) then Some op else pending k d.
Proof.
  cbn. unfold pending. cbn [ur_ops set_ur_ops]. rewrite slab_map_insert. case_decide as Hk; [subst; by rewrite lookup_insert_eq|].
  by rewrite lookup_insert_ne by congruence.
Qed.
Lemma insert_vacant op d : pending (slab_insert (Some op) (ur_ops d)).1 d = None.
Proof. unfold pending. by rewrite slab_insert_vacant. Qed.
Lemma insert_nonzero op d : ops_ok d -> exists k, (slab_insert (Some op) (ur_ops d)).1 = Datatypes.S k.
Proof.
  intros [H0 _ _ _]. destruct (slab_insert (Some op) (ur_ops d)).1 as [|k] eqn:Hk; [|by exists k].
  pose proof (insert_vacant op d) as Hv. rewrite Hk in Hv. congruence.
Qed.
Lemma pending_remove k j d : pending j (set_ur_ops (slab_remove k (ur_ops d)) d) = if decide (j = k) then None else pending j d.
Proof.
  unfold pending. cbn [ur_ops set_ur_ops]. rewrite slab_map_remove. case_decide as Hk; [subst; by rewrite lookup_delete_eq|].
  by rewrite lookup_delete_ne by congruence.
Qed.
Lemma pending_take k j d o : slab_map (ur_ops d) !! k = Some o ->
  pending j (set_ur_ops (slab_set k None (ur_ops d)) d) = if decide (j = k) then None else pending j d.
Proof.
  intros Ho. unfold pending. cbn [ur_ops set_ur_ops]. rewrite (slab_map_set _ _ _ _ Ho).
  case_decide as Hk; [subst; by rewrite lookup_insert_eq|]. by rewrite lookup_insert_ne by congruence.
Qed.
End inv.

(** ** The io_uring driver keeps the contract of a handle

    [UringStream.v] meets the contract of [IoKeeps.v], while the storage is
    in use and while it is not; what the driver took from the stream is what
    the socket took and what the operation in flight holds. *)

Section spec.
Context {F : Type} `{!Bitflags F} `{!BitflagsLaws F} {L : Type} `{!FilterLayer L} `{!FilterLayerLaws L}.
Context {G : Type} `{!Bitflags G} `{!BitflagsLaws G} {S : Type} `{!Socket S} `{!SocketLaws S} `{!PageSplit} `{!PageSplitLaws}.
Context `{!UringEnv} {T : Type -> Type} `{!Slab T} `{!SlabLaws T} `{!Waive (UrDrv G S T)}.

Abbreviation Drv := (UrDrv G S T) (only parsing).
Implicit Types (c : Cx F L Drv) (acc : list byte) (d : Drv).

Variable ctl : bool.

(** The driver while the storage is in use, with an entry of an operation that
    is being completed, and while it is not in use. *)
Definition ubusy (hole : option nat) (alive : bool) d : Prop :=
  ur_storage d = false /\ is_Some (ur_item d) /\ ops_ok d /\ uowners ctl alive d /\
  (forall k, hole = Some k -> slab_map (ur_ops d) !! k = Some None).
Definition ufree (alive : bool) d : Prop := ur_storage d = true /\ ops_ok d /\ uowners ctl alive d.

(** ** Drops *)

Lemma uqueued_push t x d :
  uqueued t (set_ur_delayed (ur_delayed_feed d ++ [x]) d) = (uqueued t d + one (bool_decide (x = t)))%nat.
Proof.
  unfold uqueued. cbn [ur_delayed_feed set_ur_delayed]. rewrite filter_app, length_app, filter_cons, filter_nil.
  by destruct (decide (x = t)), x, t.
Qed.

Lemma push_weak d : uowners ctl true d -> uowners ctl false (set_ur_delayed (ur_delayed_feed d ++ [UrWeak]) d).
Proof.
  intros [Ht Hc Hk Hh Hr]. set (d' := set_ur_delayed _ d).
  assert (forall k, udropped k d' = udropped k d) as Hd by done. assert (closes d' = closes d) as Hcl by done.
  split; unfold d' at 1; rewrite ?uqueued_push, ?Hd, ?Hcl, ?bool_decide_eq_false_2, ?bool_decide_eq_true_2 by done; cbn in *; try done; lia.
Qed.

Lemma drop_weak_spec d : ops_ok d -> uowners ctl true d -> exists d', ur_drop_weak_stream d = Done d' /\
  ops_ok d' /\ uowners ctl false d' /\ ur_storage d' = ur_storage d /\ ur_delayed_feed d' = ur_delayed_feed d.
Proof.
  intros Hops Ho. destruct (uowners_item _ _ _ Ho) as [i Hi]; [by right|]. destruct Ho as [Ht Hc Hk Hh Hr], Hops as [Hn Hw Hf Hs].
  unfold ur_drop_weak_stream. rewrite Hi, (gcontains_has 6) by done. unfold udropped in *. rewrite Hi in *.
  specialize (Hr ltac:(by eexists)).
  destruct (has 6 (ui_flags i)) eqn:H6.
  - eexists. split; [done|]. split; [by split|]. split; [|done]. specialize (Hc eq_refl). rewrite andb_true_l in Hr. rewrite Hr in Hh.
    split; unfold udropped; cbn [ur_item set_ur_item]; try done.
    change (uqueued UrWeak (set_ur_item None d)) with (uqueued UrWeak d). cbn in *. lia.
  - eexists. split; [done|]. set (i' := set_ui_flags _ i). assert (forall k, has k (ui_flags i') = has k (ui_flags i) || Z.testbit 128 k) as Hi'.
    { intros k. by apply (has_ginsert UR_DROPPED_SEC). }
    destruct (has 7 (ui_flags i)) eqn:H7; [cbn in Hh; lia|].
    split; [split; try done|split; [|done]].
    + intros j k op [= <-]. exact (Hw i k op eq_refl).
    + intros j [= <-]. rewrite !Hi'. cbn. rewrite !orb_false_r. exact (Hf i eq_refl).
    + split; unfold udropped; cbn [ur_item set_ur_item]; rewrite ?Hi', ?H6, ?H7; cbn; try done.
      unfold uqueued in Hh. cbn in Hh. lia.
Qed.

#[export] Instance ubusy_drop hole : DropLaws (ubusy hole).
Proof.
  intros d (Hs & Hi & Hops & Ho & Hh). exists (set_ur_delayed (ur_delayed_feed d ++ [UrWeak]) d).
  unfold hd_drop, uring_drop, ur_weak_drop. rewrite Hs. split; [done|]. split; [done|]. split; [done|].
  split; [by destruct Hops|]. split; [by apply push_weak|done].
Qed.
#[export] Instance ufree_drop : DropLaws ufree.
Proof.
  intros d (Hs & Hops & Ho). unfold hd_drop, uring_drop, ur_weak_drop. rewrite Hs.
  destruct (drop_weak_spec d Hops Ho) as (d' & Hd & Hops' & Ho' & Hs' & _). exists d'. split; [done|]. split; [congruence|done].
Qed.

(** ** Changes of the driver while the storage is in use *)

Section fixed.
Variable hole : option nat.
Abbreviation GoodB := (Good (F := F) (L := L) (ubusy hole) ur_sent).

Lemma ubusy_item a d i i' : ubusy hole a d -> ur_item d = Some i -> alike i i' -> ubusy hole a (set_ur_item (Some i') d).
Proof.
  intros (Hs & _ & Hops & Ho & Hh) Hi Ha. split; [done|]. split; [by eexists|]. split; [by eapply ops_ok_item|].
  split; [by eapply uowners_item_alike|done].
Qed.
Lemma ur_sent_item d i i' :
  ur_item d = Some i -> ui_wr_op i' = ui_wr_op i -> ui_io i' = ui_io i -> ur_sent (set_ur_item (Some i') d) = ur_sent d.
Proof. intros Hi Hw Hio. unfold ur_sent, inflight. cbn [ur_item set_ur_item]. by rewrite Hi, Hw, Hio. Qed.

Lemma ubusy_some acc hv c : GoodB hv acc c -> exists i, ur_item (cx_drv c) = Some i.
Proof. by intros [[[_ _ _ (_ & [i Hi] & _) _] _] _]; exists i. Qed.

(** A direct write, in a stream that has nothing buffered or in flight. *)
Lemma ur_item_write_bufs_spec bufs acc c i :
  GoodB false acc c -> hasf 0 c = false -> filter_of c = Some [] -> out_size (buf_of c) = 0 ->
  ur_item (cx_drv c) = Some i -> ui_wr_op i = None ->
  runs (ur_item_write_bufs bufs) c (fun r c' => kept c c' /\
    match r with
    | inl n => 0 <= n <= zlen (concat bufs) /\ GoodB false (acc ++ ztake n (concat bufs)) c'
    | inr _ => GoodB false acc c'
    end).
Proof.
  intros HG Hrun Hf Ho Hi Hidle. unfold ur_item_write_bufs. destruct bufs as [|p ps].
  { apply runs_ret. split; [done|]. split; [zlia|]. by rewrite ztake_le0, app_nil_r by lia. }
  set (bufs := p :: ps). apply runs_bind. unfold ur_index at 1. apply runs_bind, runs_gets. rewrite Hi. apply runs_ret.
  destruct (so_write (concat bufs) (ui_io i)) as [res s'] eqn:Hwr. apply runs_bind, runs_modify. rewrite Hi. cbn [fmap option_fmap option_map].
  set (d' := set_ur_item _ _). assert (forall a : bool, ubusy hole a (cx_drv c) -> ubusy hole a d') as Hd' by (intros; by eapply ubusy_item).
  assert (ur_sent (cx_drv c) = so_sent (ui_io i)) as Hsent by (unfold ur_sent, inflight; by rewrite Hi, Hidle, app_nil_r).
  assert (ur_sent d' = so_sent s') as Hsent' by (unfold ur_sent, inflight; cbn; by rewrite Hidle, app_nil_r).
  assert ((forall n, res <> Ready (inl n)) -> GoodB false acc (set_drv d' c)) as Hsame.
  { intros Hn. apply (driver_change (ubusy hole) (ubusy hole) ur_sent); [done..|]. rewrite Hsent, Hsent'. by eapply so_write_err. }
  destruct res as [|[n|e]].
  - apply runs_ret. split; [by apply kept_flags|]. split; [zlia|]. rewrite ztake_le0, app_nil_r by lia. by apply Hsame.
  - destruct (so_write_ok _ _ _ _ Hwr) as [Hn Hss]. pose proof HG as [[HW Hl] Hsv]. pose proof HW as [Hsh Hfl Ht HB Hsc].
    destruct (Z.eqb_spec n 0) as [->|Hn0].
    + apply runs_bind. eapply runs_conseq; [apply (terminate_spec (ubusy hole) ur_sent false acc)|].
      { split; try done. by apply Hd'. }
      intros [] c2 (HG2 & K2 & _). apply runs_ret. split; [|done]. etrans; [|exact K2]. by apply kept_flags.
    + apply runs_ret. split; [by apply kept_flags|]. split; [lia|]. destruct Hl as [|[Hh Hst]]; [congruence|].
      split; [split; [split|]|]; try done; [by apply Hd'|]. right. split; [done|]. intros _. specialize (Hst Hf).
      change (buf_of (set_drv d' c)) with (buf_of c). change (cx_drv (set_drv d' c)) with d'.
      rewrite (out_size_first _ Ho), app_nil_r in *. by rewrite Hsent', Hss, <- Hst, Hsent.
  - apply runs_ret. split; [by apply kept_flags|]. by apply Hsame.
Qed.

#[export] Instance ubusy_laws : HandleLaws (F := F) (L := L) (ubusy hole) ur_sent.
Proof.
  split; [apply ubusy_drop|..].
  - intros acc c HG. by apply runs_ret.
  - intros acc bufs c HG H2 Hf Ho. pose proof HG as [[[_ _ _ (Hs & Hi & _) _] _] _]. cbn. unfold ur_write_bufs.
    apply runs_bind, runs_gets. rewrite Hs. by apply runs_ret.
Qed.
End fixed.

(** ** The storage is taken, and given back *)

Lemma ops_ok_storage b d : ops_ok d -> ops_ok (set_ur_storage b d).
Proof. by intros []. Qed.
Lemma uowners_storage b k alive d : uowners k alive d -> uowners k alive (set_ur_storage b d).
Proof. by intros []. Qed.

Lemma take_storage sent hv acc c :
  (forall d, sent (set_ur_storage false d) = sent d) ->
  Good ufree sent hv acc c -> is_Some (ur_item (cx_drv c)) -> Good (ubusy None) sent hv acc (set_drv (set_ur_storage false (cx_drv c)) c).
Proof.
  intros Hst HG Hi. apply (driver_change ufree _ sent); [done| |done]. intros a (_ & Hops & Ho). split; [done|]. split; [done|].
  split; [by apply ops_ok_storage|]. split; [by apply uowners_storage|done].
Qed.
Lemma give_storage hole hv acc c :
  Good (ubusy hole) ur_sent hv acc c -> Good ufree ur_sent hv acc (set_drv (set_ur_storage true (cx_drv c)) c).
Proof.
  intros HG. apply (driver_change (ubusy hole) _ ur_sent); [done| |done]. intros a (_ & _ & Hops & Ho & _). split; [done|].
  split; [by apply ops_ok_storage|by apply uowners_storage].
Qed.

#[export] Instance ufree_laws : HandleLaws (F := F) (L := L) ufree ur_sent.
Proof.
  split; [apply ufree_drop|..].
  - intros acc c HG. by apply runs_ret.
  - intros acc bufs c HG H2 Hf Ho. pose proof HG as [[[_ [H01 H12] _ (Hs & Hops & Hown) _] _] _].
    destruct (uowners_item _ _ _ Hown) as [i Hit]; [by right|].
    assert (hasf 1 c = false) as Hf1 by (destruct (hasf 1 c); [by rewrite H12 in H2|done]).
    assert (hasf 0 c = false) as Hf0 by (destruct (hasf 0 c); [by rewrite H01 in Hf1|done]).
    cbn. unfold ur_write_bufs. apply runs_bind, runs_gets. rewrite Hs.
    apply runs_bind, runs_modify, runs_bind, runs_gets. cbn. rewrite Hit. apply runs_bind, runs_flag, runs_bind.
    assert (GoodB : Good (ubusy None) ur_sent false acc (set_drv (set_ur_storage false (cx_drv c)) c)) by (apply take_storage; [done|done|by eexists]).
    apply (runs_conseq _ _ (fun r c2 => kept c c2 /\ match r with
      | Some (inl n) => 0 <= n <= zlen (concat bufs) /\ Good (ubusy None) ur_sent false (acc ++ ztake n (concat bufs)) c2
      | _ => Good (ubusy None) ur_sent false acc c2 end)).
    + assert (kept c (set_drv (set_ur_storage false (cx_drv c)) c)) as K0 by (by apply kept_flags).
      case_bool_decide as Hw; [|by apply runs_ret]. destruct (_ && _); [|by apply runs_ret]. apply runs_bind.
      eapply runs_conseq; [by apply (ur_item_write_bufs_spec None bufs acc _ i)|]. intros r c2 [K2 Hr]. apply runs_ret.
      split; [by etrans|]. by destruct r.
    + intros r c2 [K2 Hr]. apply runs_bind, runs_modify, runs_ret.
      split; [etrans; [exact K2|by apply kept_flags]|]. destruct r as [[n|e]|]; [split; [by apply Hr|]|..]; by apply (give_storage None); apply Hr.
Qed.
End spec.
