(* ===== verification/UringSteps.v ===== *)
(** * The operations of the io_uring driver keep its invariant

    Reading, sending, completions and cancellations, while the storage is in
    use.  A send that took only a part of its bytes puts the rest back in front
    of the buffered output. *)
From Stdlib Require Import ZArith Lia.
From stdpp Require Import base numbers list sets gmap.
From S2P Require Import Prelude Deps Task IoConfig IoFlags IoBuf IoChain IoTimers IoState IoInv IoRef IoKeeps IoOutput.
From S2P Require Import Polling PollingSpec IoSystem UringStream UringFrame UringInv.

Section steps.
Context {F : Type} `{!Bitflags F} `{!BitflagsLaws F} {L : Type} `{!FilterLayer L} `{!FilterLayerLaws L}.
Context {G : Type} `{!Bitflags G} `{!BitflagsLaws G} {S : Type} `{!Socket S} `{!SocketLaws S} `{!PageSplit} `{!PageSplitLaws}.
Context `{!UringEnv} {T : Type -> Type} `{!Slab T} `{!SlabLaws T} `{!Waive (UrDrv G S T)}.

Abbreviation Drv := (UrDrv G S T) (only parsing).
Implicit Types (c : Cx F L Drv) (acc : list byte) (d : Drv).

Variable ctl : bool.
Variable hole : option nat.
Abbreviation busy := (ubusy (G := G) (S := S) (T := T) ctl hole).
Abbreviation GoodB := (Good (F := F) (L := L) busy ur_sent).
Abbreviation keepsB := (keeps (F := F) (L := L) busy ur_sent).

(** ** Steps that only change the driver *)

Lemma keeps_mod g :
  (forall a d, busy a d -> busy a (g d)) -> (forall d, busy true d \/ busy false d -> ur_sent (g d) = ur_sent d) -> keepsB (ur_mod g).
Proof.
  intros Hb Hs acc c HG _. apply runs_modify. split; [|by apply kept_held, kept_flags].
  apply (driver_change busy busy ur_sent); [done|by intros; apply Hb|]. apply Hs. destruct HG as [[[_ _ _ Hd _] _] _].
  destruct (handle_of c); [by left|by right].
Qed.
Lemma keeps_ur_get {A} (g : Drv -> A) : keepsB (ur_get g).
Proof. intros acc c HG _. by eapply runs_eq. Qed.
Lemma keeps_index : keepsB ur_index.
Proof.
  intros acc c HG _. destruct (ubusy_some ctl hole acc true c HG) as [i Hi]. unfold ur_index. apply runs_bind, runs_gets. rewrite Hi. by apply runs_ret.
Qed.

Lemma ur_keeps_upd_item g : (forall i, alike i (g i) /\ ui_io (g i) = ui_io i) -> keepsB (ur_upd_item g).
Proof.
  intros Hg. apply keeps_mod.
  - intros a d Hb. pose proof Hb as (_ & [i Hi] & _). rewrite Hi. cbn. eapply ubusy_item; [done..|]. apply Hg.
  - intros d Hb. assert (exists i, ur_item d = Some i) as [i Hi] by (by destruct Hb as [(_ & [i Hi] & _)|(_ & [i Hi] & _)]; exists i).
    rewrite Hi. cbn. destruct (Hg i) as [[Hw _] Hio]. by apply (ur_sent_item d i).
Qed.
Lemma keeps_set_flag n : 0 <= n -> (forall k, k ∈ [3; 4; 5; 6; 7] -> Z.testbit n k = false) -> keepsB (ur_set_flag n).
Proof. intros Hn Hk. apply ur_keeps_upd_item. intros i. split; [|done]. split; [done|]. intros k Hin. cbn -[has]. by rewrite has_ginsert, Hk, orb_false_r. Qed.
(** The flags of canceled writes are never set. *)
Lemma keeps_unset_flag n : 0 <= n -> (forall k, k ∈ [5; 6; 7] -> Z.testbit n k = false) -> keepsB (ur_unset_flag n).
Proof.
  intros Hn Hk. apply keeps_mod.
  - intros a d Hb. pose proof Hb as (_ & [i Hi] & Hops & _). destruct (uo_flags _ Hops i Hi) as (H3 & H4 & _). rewrite Hi. cbn.
    eapply ubusy_item; [done..|]. split; [done|]. intros k Hin. cbn -[has]. rewrite has_gremove by done.
    apply elem_of_cons in Hin as [->|Hin]; [by rewrite H3|]. apply elem_of_cons in Hin as [->|Hin]; [by rewrite H4|].
    by rewrite Hk, andb_true_r.
  - intros d Hb. assert (exists i, ur_item d = Some i) as [i Hi] by (by destruct Hb as [(_ & [i Hi] & _)|(_ & [i Hi] & _)]; exists i).
    rewrite Hi. by apply (ur_sent_item d i (set_ui_flags (gremove n (ui_flags i)) i)).
Qed.

(** An operation that neither writes nor closes. *)
Lemma keeps_insert op : writes op = false -> op <> UrClose -> keepsB (ur_insert op).
Proof.
  intros Hw Hc acc c HG _. unfold runs, ur_insert. destruct (slab_insert (Some op) (ur_ops (cx_drv c))) as [k ops] eqn:He.
  eexists _, _. split; [done|]. split; [|by apply kept_held, kept_flags].
  pose proof (pending_insert op (cx_drv c)) as Hp. rewrite He in Hp. cbn [fst snd] in Hp.
  pose proof (insert_vacant op (cx_drv c)) as Hv. rewrite He in Hv. cbn [fst] in Hv.
  pose proof HG as [[[_ _ _ (_ & _ & Hops0 & _) _] _] _].
  assert (k <> 0%nat) as Hk0 by (intros ->; by rewrite (uo_nop _ Hops0) in Hv).
  apply (driver_change busy busy ur_sent); [done|..].
  - intros a (Hs & Hi & [Hn Hwr Hf Hq] & [Ht Hcl Hk Hh Hr] & Ho). split; [done|]. split; [done|]. split; [|split; [split; try done|]].
    + split; rewrite ?Hp; try done; [by rewrite decide_False|].
      intros i j op' Hi'. rewrite Hp. case_decide; [intros [= <-]; congruence|]. by apply Hwr.
    + intros j. rewrite Hp. case_decide; [congruence|]. intros Hj. destruct (Hk j Hj) as (? & ? & Hu). do 2 (split; [done|]).
      intros j'. rewrite Hp. case_decide; [congruence|]. apply Hu.
    + intros j Hj. specialize (Ho j Hj). cbn. pose proof (slab_map_insert (Some op) (ur_ops (cx_drv c))) as Hm.
      pose proof (slab_insert_vacant (Some op) (ur_ops (cx_drv c))) as Hva. rewrite He in Hm, Hva. cbn in Hm, Hva. rewrite Hm.
      rewrite lookup_insert_ne by congruence. done.
  - unfold ur_sent, inflight. cbn [ur_item set_ur_ops]. destruct (ur_item (cx_drv c)) as [i|]; [|done]. f_equal.
    destruct (ui_wr_op i) as [j|]; [|done]. rewrite Hp. case_decide as Hj; [|done]. subst j. rewrite Hv. by destruct op.
Qed.

(** An entry other than those of [drop_stream] and of a zero-copy send. *)
Lemma keeps_submit k e : e <> SqClose -> e <> SqSend true -> keepsB (submit k e).
Proof.
  intros Hc Hz. apply keeps_mod; [|by intros []].
  intros a d (Hs & Hi & [Hn Hwr Hf Hq] & [Ht Hcl Hk Hh Hr] & Ho). split; [done|]. split; [done|].
  assert (closes (ur_submit k e d) = closes d) as He.
  { unfold closes. cbn. rewrite filter_app, length_app. destruct e; cbn; first [done|lia]. }
  split; [split; try done|split; [split; rewrite ?He; try done|done]].
  intros j zc Hin. cbn in Hin. apply elem_of_app in Hin as [Hin|Hin%list_elem_of_singleton]; [by eapply Hq|]. injection Hin as _ <-.
  by destruct zc.
Qed.

(** ** Reading *)

#[local] Hint Resolve keeps_ur_get keeps_index : keeps.
#[local] Hint Extern 1 (keeps _ _ (ur_set_flag _)) => apply keeps_set_flag; [done|]; intros ?k Hin; set_unfold; naive_solver : keeps.
#[local] Hint Extern 1 (keeps _ _ (ur_unset_flag _)) => apply keeps_unset_flag; [done|]; intros ?k Hin; set_unfold; naive_solver : keeps.
#[local] Hint Extern 1 (keeps _ _ (ur_insert _)) => apply keeps_insert; done : keeps.
#[local] Hint Extern 1 (keeps _ _ (submit _ _)) => apply keeps_submit; done : keeps.
#[local] Hint Extern 1 (keeps _ _ (ur_upd_item (set_ui_rd_op _))) => apply ur_keeps_upd_item; done : keeps.
#[local] Hint Extern 1 (keeps _ _ (ctx_stop _)) => apply keeps_terminate; apply _ : keeps.
#[local] Hint Extern 1 (keeps _ _ (ctx_update_read_status _ _)) => apply update_read_status_keeps; apply _ : keeps.
#[local] Hint Extern 1 (keeps _ _ ctx_get_read_buf) => apply get_read_buf_keeps; apply _ : keeps.
#[local] Hint Extern 1 (keeps _ _ ctx_is_stopped) => apply keeps_reads, reads_flag : keeps.

Lemma keeps_submit_recv buf pf : keepsB (submit_recv buf pf).
Proof. unfold submit_recv. keep. Qed.
#[local] Hint Resolve keeps_submit_recv : keeps.
Lemma keeps_recv pf : keepsB (recv pf).
Proof. unfold recv. keep. Qed.
Lemma keeps_recv_more buf : keepsB (recv_more buf).
Proof. unfold recv_more. keep. Qed.
Lemma keeps_pause_read : keepsB ur_pause_read.
Proof. unfold ur_pause_read. keep. Qed.
#[local] Hint Resolve keeps_recv keeps_recv_more keeps_pause_read : keeps.
Lemma keeps_completed_recv is_new cq buf : keepsB (completed_recv is_new cq buf).
Proof. unfold completed_recv. keep. Qed.
Lemma keeps_completed_poll cq i : keepsB (completed_poll cq i).
Proof. unfold completed_poll. keep. Qed.

(** ** Sending *)

Lemma submit_write_spec op e acc c i :
  Good (F := F) (L := L) busy (fun d => ur_sent d ++ op_bytes op) true acc c ->
  ur_item (cx_drv c) = Some i -> ui_wr_op i = None ->
  writes op = true -> (forall buf r, op <> UrSend buf (Some r)) -> e <> SqClose -> e <> SqSend true ->
  runs (submit_write op e) c (fun _ c' => GoodB true acc c' /\ held c c' /\ hasf 9 c' = hasf 9 c).
Proof.
  intros HG Hi Hidle Hop Hres He1 He2. pose proof HG as [[[_ _ _ (_ & _ & Hops0 & _) _] _] _].
  unfold submit_write. apply runs_bind. unfold ur_insert at 1, runs at 1.
  destruct (slab_insert (Some op) (ur_ops (cx_drv c))) as [k ops] eqn:He. eexists _, _. split; [done|].
  pose proof (pending_insert op (cx_drv c)) as Hp. rewrite He in Hp. cbn [fst snd] in Hp.
  destruct (insert_nonzero op (cx_drv c) Hops0) as [k' Hk']. rewrite He in Hk'. cbn [fst] in Hk'.
  apply runs_bind, runs_modify. cbn [cx_drv set_drv]. cbn [ur_item set_ur_ops]. rewrite Hi. cbn [fmap option_fmap option_map].
  apply runs_modify. cbn [cx_drv set_drv]. rewrite Hk'. cbn [non_zero]. rewrite <- Hk'. set (d1 := set_ur_ops ops (cx_drv c)) in *.
  set (i' := set_ui_wr_op (Some k) i). set (d2 := set_ur_item (Some i') d1).
  split; [|split; [by apply kept_held, kept_flags|done]].
  apply (driver_change busy busy (fun d => ur_sent d ++ op_bytes op) ur_sent true acc c (ur_submit k e d2)); [done|..].
  - intros a (Hs & _ & [Hn Hwr Hf Hq] & [Ht Hcl Hk Hh Hr] & Ho).
    assert (closes (ur_submit k e d2) = closes (cx_drv c)) as Hce.
    { unfold closes. cbn. rewrite filter_app, length_app. destruct e; cbn; first [done|lia]. }
    assert (forall n, udropped n (ur_submit k e d2) = udropped n (cx_drv c)) as Hud by (intros n; unfold udropped; cbn; by rewrite Hi).
    assert (forall j, pending j (ur_submit k e d2) = pending j d1) as Hpd by done.
    split; [done|]. split; [by eexists|]. split; [split|split; [split; rewrite ?Hce, ?Hud; try done|]].
    + rewrite Hpd, Hp, decide_False; [done|lia].
    + intros j n o [= <-]. rewrite Hpd, Hp. case_decide as Hj; [subst n; by intros [= <-] _|].
      intros Ho' Hw'. destruct (Hwr i n o Hi Ho' Hw') as [? _]. congruence.
    + intros j [= <-]. exact (Hf i Hi).
    + intros j zc Hin. cbn in Hin. apply elem_of_app in Hin as [Hin|Hin%list_elem_of_singleton]; [by eapply Hq|]. injection Hin as _ <-.
      by destruct zc.
    + intros n. rewrite Hpd, Hp. case_decide; [intros [= Hx]; by rewrite Hx in Hop|]. intros Hn'. destruct (Hk n Hn') as (? & ? & Hu). do 2 (split; [done|]).
      intros j. rewrite Hpd, Hp. case_decide; [intros [= Hx]; by rewrite Hx in Hop|]. apply Hu.
    + intros _. apply Hr. by rewrite Hi.
    + intros j Hj. specialize (Ho j Hj). cbn. pose proof (slab_map_insert (Some op) (ur_ops (cx_drv c))) as Hm.
      pose proof (slab_insert_vacant (Some op) (ur_ops (cx_drv c))) as Hva. rewrite He in Hm, Hva. cbn in Hm, Hva. rewrite Hm.
      rewrite lookup_insert_ne by congruence. done.
  - unfold ur_sent, inflight. cbn [ur_item ur_submit d2 set_ur_item i' ui_wr_op set_ui_wr_op ui_io]. rewrite Hi, Hidle, app_nil_r.
    f_equal. change (pending k (ur_submit k e d2)) with (pending k d1). by rewrite Hp, decide_True.
Qed.

Lemma gather_concat size n pages : concat (gather_pages size n pages).1 ++ concat (gather_pages size n pages).2 = concat pages.
Proof.
  revert size n. induction pages as [|page pages IH]; intros size n; [done|]. cbn [gather_pages]. destruct (_ && _); [|done].
  specialize (IH (size + zlen page) (n + 1)). destruct (gather_pages _ _ pages) as [t r]. cbn in *. by rewrite <- app_assoc, IH.
Qed.

(** What [send] takes from the buffer. *)
Definition taken (wrt : list byte) : list (list byte) * list byte :=
  match pages_of wrt with
  | [] => ([], wrt)
  | first :: pages => let '(taken, rest) := gather_pages (zlen first) 0 pages in (first :: taken, concat rest)
  end.
Lemma taken_concat wrt : concat (taken wrt).1 ++ (taken wrt).2 = wrt.
Proof.
  unfold taken. pose proof (pages_concat wrt) as Hc. destruct (pages_of wrt) as [|p ps]; [done|].
  pose proof (gather_concat (zlen p) 0 ps) as Hg. destruct (gather_pages _ _ ps) as [t r]. cbn in *. by rewrite <- app_assoc, Hg.
Qed.

Lemma send_spec acc c : GoodB true acc c -> is_Some (cx_mgr c) -> hasf 9 c = false ->
  runs send c (fun _ c' => GoodB true acc c' /\ held c c' /\ hasf 9 c' = false).
Proof.
  intros HG Hm H9. destruct (ubusy_some ctl hole acc true c HG) as [i Hi]. unfold send. apply runs_bind, runs_gets. rewrite Hi.
  pose proof HG as [[[_ _ _ (_ & _ & Hops & _) _] _] _]. destruct (uo_flags _ Hops i Hi) as (H3 & _ & H5).
  destruct (ui_wr_op i) as [k|] eqn:Hw.
  { rewrite (gcontains_has 3), H3 by done. by apply runs_ret. }
  apply runs_bind. fold taken.
  eapply runs_conseq; [apply runs_stays; [by apply (write_buf_spec busy taken ur_sent true acc)|apply stays_ctx_write_buf]|].
  intros pages c1 [(K1 & wb & -> & HG1) [R9 Ri]].
  assert (hasf 9 c1 = false) as H91 by (destruct (hasf 9 c1); [by rewrite R9 in H9|done]).
  assert (idle (cx_drv c1)) as Hid by (apply Ri; intros j Hj; congruence).
  pose proof (taken_concat wb) as Hcat. specialize (HG1 (fun d => ur_sent d ++ concat (taken wb).1)).
  assert (Good busy (fun d => ur_sent d ++ concat (taken wb).1) true acc c1) as HG1'.
  { apply HG1; [intros d; by rewrite <- app_assoc, Hcat|congruence]. }
  clear HG1 Hcat. pose proof HG1' as [[[_ _ _ (_ & [j Hj] & _) _] _] _]. pose proof (Hid j Hj) as Hjw.
  assert (forall op e, concat (taken wb).1 = op_bytes op -> writes op = true -> (forall buf r, op <> UrSend buf (Some r)) ->
    e <> SqClose -> e <> SqSend true -> runs (submit_write op e) c1 (fun _ c' => GoodB true acc c' /\ held c c' /\ hasf 9 c' = false)) as Hsub.
  { intros op e Hop ????. rewrite Hop in HG1'. eapply runs_conseq; [by apply (submit_write_spec op e acc c1 j)|].
    intros [] c2 (HG2 & K2 & E9). split; [done|]. split; [etrans; [by apply kept_held|done]|congruence]. }
  destruct (taken wb).1 as [|p [|q ps]] eqn:Ht.
  - apply runs_ret. split; [|by split; [apply kept_held|]]. eapply good_sent; [|exact HG1']. cbn. by rewrite app_nil_r.
  - apply Hsub; try done; [cbn; by rewrite app_nil_r|]. by rewrite (gcontains_has 5), H5.
  - by apply Hsub.
Qed.

(** ** The end of a write *)

(** What was taken and not sent goes back in front of the output. *)
Lemma requeue_spec (Q : bool -> Drv -> Prop) `{!DropLaws Q} (f : list byte -> list byte) B acc c :
  Good (F := F) (L := L) Q (fun d => ur_sent d ++ B) true acc c -> hasf 9 c = false -> (forall w, f w = B ++ w) ->
  runs (ctx_with_write_buf (fun w => mret (tt, f w))) c (fun _ c' => Good Q ur_sent true acc c' /\ held c c' /\ rests c c').
Proof.
  intros HG H9 Hf. eapply runs_conseq; [apply runs_stays; [by apply (write_buf_spec Q (fun w => (tt, f w)) (fun d => ur_sent d ++ B) true acc)|apply stays_ctx_write_buf]|].
  intros [] c1 [(K1 & wb & _ & HG1) R]. split; [|split; [by apply kept_held|done]].
  apply HG1; cbn [snd]; [|congruence]. intros d. by rewrite Hf, app_assoc.
Qed.

Lemma prepend_pages_concat pages w : prepend_pages pages w = concat pages ++ w.
Proof.
  induction pages as [|p ps IH]; [done|]. unfold prepend_pages in *. cbn. destruct (Z.eqb_spec (zlen p) 0) as [Hp%zlen_0_inv|]; rewrite IH; [by rewrite Hp|by rewrite app_assoc].
Qed.

Definition sent_of (res : result Z) : Z := match res with inl n => n | inr _ => 0 end.
Lemma requeue_unsent_spec buf res acc c :
  Good (F := F) (L := L) busy (fun d => ur_sent d ++ zdrop (sent_of res) buf) true acc c -> hasf 9 c = false -> takes res buf = true ->
  runs (requeue_unsent buf res) c (fun _ c' => GoodB true acc c' /\ held c c' /\ rests c c').
Proof.
  intros HG H9 Ht. assert (0 <= sent_of res <= zlen buf) as Hn by (zlen_pos; destruct res; cbn in *; lia).
  unfold requeue_unsent. fold (sent_of res). replace (Z.min _ _) with (sent_of res) by lia. destruct (Z.eqb_spec (sent_of res) (zlen buf)) as [He|Hne].
  - apply runs_ret. split; [|done]. eapply good_sent; [|exact HG]. cbn beta. by rewrite He, zdrop_all, app_nil_r by lia.
  - by apply (requeue_spec busy (fun w => zdrop (sent_of res) buf ++ w) (zdrop (sent_of res) buf)).
Qed.

(** The status of a write, and the next one. *)
Lemma status_send (st : result bool) acc c :
  GoodB true acc c -> is_Some (cx_mgr c) -> idle (cx_drv c) ->
  runs (r ← ctx_update_write_status st; if status_is_io r then send else mret tt) c (fun _ c' => GoodB true acc c' /\ held c c' /\ awake c').
Proof.
  intros HG Hm Hid. apply runs_bind.
  assert (runs (ctx_update_write_status st) c (fun _ c' => GoodB true acc c' /\ kept c c')) as (r & c1 & He & HG1 & K1).
  { destruct st; [by apply update_write_status_ok|destruct HG as [[HW _] _]; by apply (update_write_status_err busy ur_sent true acc)]. }
  destruct (update_write_status_rests _ _ _ _ He) as [H9 Hid1]. exists r, c1. split; [done|].
  destruct r; cbn [status_is_io]; [|by apply runs_ret; split; [|split; [apply kept_held|left; apply Hid1]]..].
  eapply runs_conseq; [apply send_spec; [done|by rewrite (kp_mgr _ _ K1)|by apply H9]|]. intros [] c2 (HG2 & K2 & H92).
  split; [done|]. split; [etrans; [by apply kept_held|done]|by right].
Qed.

Lemma write_done_spec res acc c :
  GoodB true acc c -> is_Some (cx_mgr c) -> idle (cx_drv c) ->
  runs (write_done res) c (fun _ c' => GoodB true acc c' /\ held c c' /\ awake c').
Proof.
  intros HG Hm Hid. unfold write_done. apply runs_bind.
  assert (keepsB (written res)) as Hk by (unfold written; keep).
  eapply runs_conseq; [apply runs_stays; [by apply Hk|apply stays_written]|]. intros st c1 [[HG1 K1] [_ Hid1]].
  eapply runs_conseq; [apply status_send; [done|by apply K1|by apply Hid1]|]. intros [] c2 (? & ? & ?). split; [done|]. split; [by etrans|done].
Qed.
End steps.
