(* ===== verification/UringEvents.v ===== *)
(** * Completions and cancellations

    The handler of the reactor, the task of the stream and the delayed drops,
    from a driver whose storage is free to one whose storage is free again. *)
From Stdlib Require Import ZArith Lia.
From stdpp Require Import base numbers list sets gmap.
From S2P Require Import Prelude Deps Task IoConfig IoFlags IoBuf IoChain IoTimers IoState IoInv IoRef IoKeeps IoOutput.
From S2P Require Import Polling PollingSpec IoSystem UringStream UringFrame UringInv UringSteps.

Lemma runs_assoc {St A} (a b d : M St ()) (e : M St A) s P : runs (a;; b;; d;; e) s P -> runs ((a;; b;; d);; e) s P.
Proof. unfold runs, mbind, M_bind. destruct (a s) as [[? s1]|]; [|done]. by destruct (b s1) as [[? s2]|]. Qed.

Section events.
Context {F : Type} `{!Bitflags F} `{!BitflagsLaws F} {L : Type} `{!FilterLayer L} `{!FilterLayerLaws L}.
Context {G : Type} `{!Bitflags G} `{!BitflagsLaws G} {S : Type} `{!Socket S} `{!SocketLaws S} `{!RingSocket S} `{!RingSocketLaws S}.
Context `{!PageSplit} `{!PageSplitLaws} `{!UringEnv} {T : Type -> Type} `{!Slab T} `{!SlabLaws T} `{!Waive (UrDrv G S T)}.

Abbreviation Drv := (UrDrv G S T) (only parsing).
Implicit Types (c : Cx F L Drv) (acc : list byte) (d : Drv) (i : UrItem G S).

Variable ctl : bool.
Abbreviation free := (ufree (G := G) (S := S) (T := T) ctl).
Abbreviation GoodF := (Good (F := F) (L := L) free ur_sent true).

(** ** The entry of an operation is emptied, and removed *)

Lemma take_fewer k o d : slab_map (ur_ops d) !! k = Some o -> fewer d (set_ur_ops (slab_set k None (ur_ops d)) d).
Proof. intros Ho j op. rewrite (pending_take k j d o Ho). by case_decide. Qed.
Lemma remove_fewer k d : fewer d (set_ur_ops (slab_remove k (ur_ops d)) d).
Proof. intros j op. rewrite pending_remove. by case_decide. Qed.
Lemma pending_some k op d : pending k d = Some op -> slab_map (ur_ops d) !! k = Some (Some op).
Proof. unfold pending. by destruct (_ !! k); [intros ->|]. Qed.

(** The item after a kernel's report, when its operation is over. *)
Definition reported op i i' : Prop :=
  (ui_wr_op i' = ui_wr_op i \/ (writes op = true /\ ui_wr_op i' = None)) /\
  forall n, n ∈ [3; 4; 5; 6; 7] -> has n (ui_flags i') = has n (ui_flags i).

Lemma ops_ok_reported k op d d1 i i' :
  ops_ok d -> ur_item d = Some i -> pending k d = Some op -> op <> UrNop -> reported op i i' ->
  fewer d d1 -> pending k d1 = None -> (forall j, j <> k -> pending j d1 = pending j d) -> ur_sq d1 = ur_sq d ->
  ops_ok (set_ur_item (Some i') d1).
Proof.
  intros [Hn Hw Hf Hs] Hi Hp Hop [Hwr Hfl] Hl Hk Hne Hsq. split.
  - change (pending 0 d1 = Some UrNop). rewrite Hne; [done|]. intros <-. congruence.
  - intros j n o [= <-] Ho Ho'. change (pending n d1 = Some o) in Ho. destruct (Hw i n o Hi (Hl _ _ Ho) Ho') as [Hwn Hr]. split; [|done].
    destruct Hwr as [->|[Hwo _]]; [done|]. exfalso. destruct (Hw i k op Hi Hp Hwo) as [Hwk _]. congruence.
  - intros j [= <-]. rewrite !Hfl by mem. exact (Hf i Hi).
  - cbn. by rewrite Hsq.
Qed.

Lemma uowners_reported alive d d1 op i i' :
  uowners ctl alive d -> ur_item d = Some i -> reported op i i' -> fewer d d1 ->
  ur_sq d1 = ur_sq d -> ur_delayed_feed d1 = ur_delayed_feed d -> uowners ctl alive (set_ur_item (Some i') d1).
Proof.
  intros [Ht Hc Hk Hh Hr] Hi [_ Hfl] Hl Hs Hq. unfold udropped, uqueued, closes in *. rewrite Hi in *.
  split; unfold udropped, uqueued, closes; cbn [ur_item set_ur_item ur_delayed_feed ur_sq]; rewrite ?Hs, ?Hq, ?Hfl by mem; try done.
  - intros k Hp%Hl. destruct (Hk k Hp) as (? & ? & Hu). do 2 (split; [done|]). intros j Hj%Hl. by apply Hu.
  - intros _. by apply Hr.
Qed.

Lemma finish_op k acc c :
  Good (ubusy ctl (Some k)) ur_sent true acc c ->
  GoodF acc (set_drv (set_ur_storage true (set_ur_ops (slab_remove k (ur_ops (cx_drv c))) (cx_drv c))) c).
Proof.
  intros HG. apply (driver_change (ubusy ctl (Some k)) free ur_sent ur_sent true acc c); [done|..].
  - intros a (_ & _ & Hops & Ho & Hh). specialize (Hh k eq_refl). split; [done|].
    split; [apply ops_ok_storage|apply uowners_storage; by eapply uowners_fewer; [done|apply remove_fewer|..]].
    eapply ops_ok_fewer; [done|apply remove_fewer| |done..]. rewrite pending_remove.
    case_decide as Hk; [|by apply Hops]. subst k. pose proof (uo_nop _ Hops) as Hn. unfold pending in Hn. by rewrite Hh in Hn.
  - destruct HG as [[[_ _ _ (_ & _ & _ & _ & Hh) _] _] _]. specialize (Hh k eq_refl). unfold ur_sent, inflight. cbn [ur_item set_ur_storage set_ur_ops].
    destruct (ur_item (cx_drv c)) as [i|]; [|done]. f_equal. destruct (ui_wr_op i) as [j|]; [|done].
    change (pending j (set_ur_storage true ?d)) with (pending j d). rewrite pending_remove. case_decide as Hj; [|done]. subst j.
    unfold pending. by rewrite Hh.
Qed.

(** ** The beginning of a completion *)

Definition took op (cq : Cqe) i : UrItem G S :=
  match cq_res cq with inl n => set_ui_io (so_ring (ztake n (op_bytes op)) (ui_io i)) i | inr _ => i end.
Lemma kernel_took_item k cq op d i :
  pending k d = Some op -> ur_item d = Some i -> kernel_took k cq d = set_ur_item (Some (took op cq i)) d.
Proof.
  rewrite pending_get. intros Hp Hi. unfold kernel_took, took. rewrite Hp. destruct (cq_res cq); [by rewrite Hi|]. destruct d. cbn in *. by subst.
Qed.
Lemma took_sent op cq i : so_sent (ui_io (took op cq i)) = so_sent (ui_io i) ++ ztake (sent_of (cq_res cq)) (op_bytes op).
Proof. unfold took. destruct (cq_res cq) as [n|e]; cbn; [apply so_ring_sent|]. by rewrite ztake_le0, app_nil_r. Qed.

(** The driver when the handler has taken the operation. *)
Definition begun (k : nat) i d : Drv := set_ur_item (Some i) (set_ur_ops (slab_set k None (ur_ops d)) (set_ur_storage false d)).

Lemma begin_op k op acc c i i' B :
  GoodF acc c -> ur_item (cx_drv c) = Some i -> pending k (cx_drv c) = Some op -> op <> UrNop -> reported op i i' ->
  ur_sent (begun k i' (cx_drv c)) ++ B = ur_sent (cx_drv c) ->
  Good (ubusy ctl (Some k)) (fun d => ur_sent d ++ B) true acc (set_drv (begun k i' (cx_drv c)) c).
Proof.
  intros HG Hi Hp Hn Hr Hs. apply (driver_change free _ ur_sent); [done| |done]. intros a (_ & Hops & Ho).
  set (d := cx_drv c) in *. pose proof (pending_some _ _ _ Hp) as Hsl.
  set (d1 := set_ur_ops (slab_set k None (ur_ops d)) (set_ur_storage false d)).
  assert (forall j, pending j d1 = if decide (j = k) then None else pending j d) as Hp1 by (intros j; exact (pending_take k j d _ Hsl)).
  assert (fewer d d1) as Hl by (intros j o; rewrite Hp1; by case_decide).
  split; [done|]. split; [by eexists|]. split; [|split; [by eapply (uowners_reported a d d1)|]].
  - apply (ops_ok_reported k op d d1 i i'); try done; [by rewrite Hp1, decide_True|]. intros j Hj. by rewrite Hp1, decide_False.
  - intros j [= <-]. cbn. by rewrite (slab_map_set _ _ _ _ Hsl), lookup_insert_eq.
Qed.

(** What is in flight in the other operations stays so. *)
Lemma begun_sent_same k op d i i' :
  ops_ok d -> ur_item d = Some i -> pending k d = Some op -> writes op = false ->
  ui_wr_op i' = ui_wr_op i -> so_sent (ui_io i') = so_sent (ui_io i) -> ur_sent (begun k i' d) ++ [] = ur_sent d.
Proof.
  intros Hops Hi Hp Hw Hwr Hso. rewrite app_nil_r. unfold ur_sent, inflight. cbn [begun ur_item set_ur_item]. rewrite Hi, Hwr, Hso. f_equal.
  destruct (ui_wr_op i) as [j|]; [|done]. change (pending j (begun k i' d)) with (pending j (set_ur_ops (slab_set k None (ur_ops d)) d)).
  rewrite (pending_take k j d _ (pending_some _ _ _ Hp)). case_decide as Hj; [|done]. subst j. rewrite Hp. by destruct op.
Qed.
(** The operation that writes is over. *)
Lemma begun_sent_write k op cq d i :
  ops_ok d -> ur_item d = Some i -> pending k d = Some op -> writes op = true -> takes (cq_res cq) (op_bytes op) = true ->
  ur_sent (begun k (set_ui_wr_op None (took op cq i)) d) ++ zdrop (sent_of (cq_res cq)) (op_bytes op) = ur_sent d.
Proof.
  intros Hops Hi Hp Hw Ht. destruct (uo_write _ Hops i k op Hi Hp Hw) as [Hwk _].
  unfold ur_sent, inflight. cbn [begun ur_item set_ur_item ui_wr_op set_ui_wr_op ui_io]. rewrite Hi, Hwk, Hp, app_nil_r.
  change (ui_io (set_ui_wr_op None ?x)) with (ui_io x). rewrite took_sent, <- app_assoc. f_equal. apply ztake_zdrop.
Qed.

(** What [completed] does to an operation of a stream that is there. *)
Definition complete_op (is_new : bool) (k : nat) (cq : Cqe) (op : Operation) i : M (Cx F L Drv) () :=
  more ← (match op with
          | UrRecv buf => completed_recv is_new cq buf;; mret false
          | UrSend buf result => completed_send k cq buf result
          | UrWritev pages => completed_writev cq pages;; mret false
          | UrPoll => completed_poll cq i;; mret false
          | UrClose => completed_close;; mret false
          | _ => mret false
          end);
  if (more : bool) then mret tt else ur_mod (fun d => set_ur_ops (slab_remove k (ur_ops d)) d).

Lemma complete_run is_new k cq op i c (P : () -> Cx F L Drv -> Prop) :
  ur_storage (cx_drv c) = true -> pending k (cx_drv c) = Some op -> ur_item (cx_drv c) = Some i ->
  runs (complete_op is_new k cq op (took op cq i)) (set_drv (begun k (took op cq i) (cx_drv c)) c)
    (fun _ c' => P tt (set_drv (set_ur_storage true (cx_drv c')) c')) ->
  runs (ur_mod (kernel_took k cq);; completed is_new k cq) c P.
Proof.
  intros Hs Hp Hi HP. apply runs_bind, runs_modify. rewrite (kernel_took_item k cq op _ i) by done. unfold completed, ur_with.
  apply runs_bind, runs_gets. cbn [cx_drv set_drv ur_storage set_ur_item]. rewrite Hs. cbn [negb]. apply runs_bind, runs_modify, runs_bind, runs_bind.
  eapply runs_eq; [unfold take_op; cbn [cx_drv set_drv ur_ops set_ur_storage set_ur_item]; by rewrite slab_get_map, (pending_some _ _ _ Hp)|].
  apply runs_bind, runs_gets. cbn [cx_drv set_drv ur_item set_ur_ops set_ur_storage set_ur_item].
  unfold complete_op in HP. eapply runs_conseq; [destruct op; exact HP|]. intros [] c' H'. by apply runs_bind, runs_modify, runs_ret.
Qed.

(** The end of [complete_op], when nothing more is awaited. *)
Lemma complete_finish k (op : M (Cx F L Drv) bool) acc c0 c :
  runs op c (fun more c' => more = false /\ Good (ubusy ctl (Some k)) ur_sent true acc c' /\ held c0 c' /\ awake c') ->
  runs (more ← op; if (more : bool) then mret tt else ur_mod (fun d => set_ur_ops (slab_remove k (ur_ops d)) d)) c
    (fun _ c' => GoodF acc (set_drv (set_ur_storage true (cx_drv c')) c') /\
      held c0 (set_drv (set_ur_storage true (cx_drv c')) c') /\ awake (set_drv (set_ur_storage true (cx_drv c')) c')).
Proof.
  intros Hr. apply runs_bind. eapply runs_conseq; [exact Hr|]. intros more c1 (-> & HG & K & Ha). apply runs_modify.
  split; [exact (finish_op k acc c1 HG)|]. split; [|done]. etrans; [exact K|]. by apply kept_held, kept_flags.
Qed.

(** An operation that keeps the invariant of the driver, and lets it be awake. *)
Lemma complete_keeps k (op : M (Cx F L Drv) ()) acc c0 c :
  keeps (ubusy ctl (Some k)) ur_sent op -> stays op ->
  Good (ubusy ctl (Some k)) ur_sent true acc c -> is_Some (cx_mgr c) -> held c0 c -> awake c ->
  runs (op;; mret false) c (fun more c' => more = false /\ Good (ubusy ctl (Some k)) ur_sent true acc c' /\ held c0 c' /\ awake c').
Proof.
  intros Hk Hst HG Hm K Ha. apply runs_bind. eapply runs_conseq; [apply runs_stays; [by apply Hk|done]|]. intros [] c1 [[HG1 K1] R].
  apply runs_ret. split; [done|]. split; [done|]. split; [by etrans|]. by eapply rests_awake.
Qed.

(** ** Completions, by operation *)

Lemma took_reported op cq i : reported op i (took op cq i).
Proof. unfold took. split; [left|]; by destruct (cq_res cq). Qed.
Lemma took_wr_op op cq i : ui_wr_op (took op cq i) = ui_wr_op i.
Proof. unfold took. by destruct (cq_res cq). Qed.

(** The outcome of a completion, from the state in which the handler holds it. *)
Definition completes is_new k cq op i acc c0 c : Prop :=
  runs (complete_op is_new k cq op i) c (fun _ c' => GoodF acc (set_drv (set_ur_storage true (cx_drv c')) c') /\
    held c0 (set_drv (set_ur_storage true (cx_drv c')) c') /\ awake (set_drv (set_ur_storage true (cx_drv c')) c')).

Section one_op.
Variables (is_new : bool) (k : nat) (cq : Cqe) (op : Operation) (i : UrItem G S) (acc : list byte) (c : Cx F L Drv).
Hypothesis HG : GoodF acc c.
Hypothesis Hm : is_Some (cx_mgr c).
Hypothesis Ha : awake c.
Hypothesis Hi : ur_item (cx_drv c) = Some i.
Hypothesis Hp : pending k (cx_drv c) = Some op.
Let c1 := set_drv (begun k (took op cq i) (cx_drv c)) c.

Lemma one_ops : ops_ok (cx_drv c).
Proof. by destruct HG as [[[_ _ _ (_ & ? & _) _] _] _]. Qed.

(** Operations that do not write. *)
Lemma complete_quiet (f : M (Cx F L Drv) ()) :
  writes op = false -> op <> UrNop -> keeps (ubusy ctl (Some k)) ur_sent f -> stays f ->
  runs (f;; mret false) c1 (fun more c' => more = false /\ Good (ubusy ctl (Some k)) ur_sent true acc c' /\ held c c' /\ awake c').
Proof.
  intros Hw Hn Hk Hst. pose proof one_ops as Hops. apply complete_keeps; [done|done| |done|by apply kept_held, kept_flags|].
  - eapply good_sent; [|apply (begin_op k op acc c i _ []); [done..|apply took_reported|]]; [cbn beta; by rewrite app_nil_r|].
    eapply begun_sent_same; [done..|apply took_wr_op|]. rewrite took_sent. destruct op; try done; cbn; unfold ztake; by rewrite take_nil, app_nil_r.
  - destruct Ha as [Hid|]; [left|by right]. intros j [= <-]. rewrite took_wr_op. by apply Hid.
Qed.

(** The operation that writes. *)
Lemma write_state : writes op = true -> takes (cq_res cq) (op_bytes op) = true -> op <> UrNop ->
  let c2 := set_drv (begun k (set_ui_wr_op None (took op cq i)) (cx_drv c)) c in
  Good (ubusy ctl (Some k)) (fun d => ur_sent d ++ zdrop (sent_of (cq_res cq)) (op_bytes op)) true acc c2 /\
  held c c2 /\ idle (cx_drv c2) /\ hasf 9 c2 = false.
Proof.
  intros Hw Ht Hn c2. pose proof one_ops as Hops. split; [|split; [by apply kept_held, kept_flags|split]].
  - apply (begin_op k op acc c i); try done; [|by apply begun_sent_write]. split; [by right|]. intros n Hin. by apply took_reported.
  - by intros j [= <-].
  - destruct Ha as [Hid|]; [|done]. destruct (uo_write _ Hops i k op Hi Hp Hw) as [Hwk _]. rewrite (Hid i Hi) in Hwk. done.
Qed.

Lemma complete_write (f : M (Cx F L Drv) ()) :
  writes op = true -> takes (cq_res cq) (op_bytes op) = true -> op <> UrNop ->
  (forall acc' c', Good (ubusy ctl (Some k)) (fun d => ur_sent d ++ zdrop (sent_of (cq_res cq)) (op_bytes op)) true acc' c' -> hasf 9 c' = false ->
     runs f c' (fun _ c2 => Good (ubusy ctl (Some k)) ur_sent true acc' c2 /\ held c' c2 /\ rests c' c2)) ->
  runs (ur_upd_item (set_ui_wr_op None);; f;; write_done (cq_res cq);; mret false) c1
    (fun more c' => more = false /\ Good (ubusy ctl (Some k)) ur_sent true acc c' /\ held c c' /\ awake c').
Proof.
  intros Hw Ht Hn Hf. destruct (write_state Hw Ht Hn) as (HG2 & K2 & Hid & H9).
  apply runs_bind, runs_modify. change (runs (f;; write_done (cq_res cq);; mret false) (set_drv (begun k (set_ui_wr_op None (took op cq i)) (cx_drv c)) c)
    (fun more c' => more = false /\ Good (ubusy ctl (Some k)) ur_sent true acc c' /\ held c c' /\ awake c')).
  set (c2 := set_drv _ c) in *. apply runs_bind. eapply runs_conseq; [by apply (Hf acc)|]. intros [] c3 (HG3 & K3 & [_ Hid3]). apply runs_bind.
  eapply runs_conseq; [apply (write_done_spec ctl (Some k) _ acc); [done|by apply K3, K2|by apply Hid3]|]. intros [] c4 (HG4 & K4 & Ha4).
  apply runs_ret. split; [done|]. split; [done|]. split; [|done]. by do 2 (etrans; [done|]).
Qed.
End one_op.

(** A terminated stream: what was sent does not matter any more. *)
Lemma drv_ended (Q Q' : bool -> Drv -> Prop) acc c d' :
  Good (F := F) (L := L) Q ur_sent true acc c -> hasf 0 c = true -> (forall a, Q a (cx_drv c) -> Q' a d') -> Good Q' ur_sent true acc (set_drv d' c).
Proof. intros [[[Hs Hfl Ht Hd Hsc] _] _] Hz HQ. split; [split; [split|]|]; try done; [by apply HQ|by left|by left; left]. Qed.

(** The driver when the descriptor is closed. *)
Definition closed (k : nat) (o : option (UrItem G S)) d : Drv :=
  set_ur_storage true (set_ur_ops (slab_remove k (slab_set k None (ur_ops d))) (set_ur_item o d)).
Lemma pending_closed k o d j : is_Some (slab_map (ur_ops d) !! k) -> pending j (closed k o d) = if decide (j = k) then None else pending j d.
Proof.
  intros [x Hx]. unfold pending. cbn. rewrite slab_map_remove, (slab_map_set _ _ _ _ Hx), delete_insert_eq.
  case_decide as Hj; [subst; by rewrite lookup_delete_eq|]. by rewrite lookup_delete_ne by congruence.
Qed.

Lemma close_free a d i k o :
  free a d -> ur_item d = Some i -> pending k d = Some UrClose ->
  (match o with
   | None => has 7 (ui_flags i) = true
   | Some i' => ui_wr_op i' = ui_wr_op i /\ has 7 (ui_flags i) = false /\ has 6 (ui_flags i') = true /\
       forall n, n ∈ [3; 4; 5; 7] -> has n (ui_flags i') = has n (ui_flags i)
   end) -> free a (closed k o d).
Proof.
  intros (_ & [Hn Hw Hf Hs] & [Ht Hc Hk Hh Hr]) Hi Hp Ho. destruct (Hk k Hp) as (Hc1 & H6 & Hu).
  assert (forall j, pending j (closed k o d) = if decide (j = k) then None else pending j d) as Hpd.
  { intros j. apply pending_closed. rewrite (pending_some _ _ _ Hp). by eexists. }
  assert (pending 0 (closed k o d) = Some UrNop) as Hn'.
  { rewrite Hpd. case_decide as Hk0; [|done]. subst k. congruence. }
  assert (closes (closed k o d) = closes d) as Hce by done. assert (forall t, uqueued t (closed k o d) = uqueued t d) as Hqe by done.
  split; [done|]. split; [split; try done|].
  - intros j n op Hj. rewrite Hpd. case_decide; [done|]. intros Hn1 Hn2. destruct (Hw i n op Hi Hn1 Hn2) as [Hwn ?]. split; [|done].
    cbn in Hj. subst o. destruct Ho as [-> _]. done.
  - intros j Hj. cbn in Hj. subst o. destruct Ho as (_ & _ & _ & Hfl). rewrite !Hfl by mem. exact (Hf i Hi).
  - unfold udropped in Hh, H6. rewrite Hi in Hh, H6. split; rewrite ?Hce, ?Hqe; try done.
    + intros j. rewrite Hpd. case_decide; [done|]. by intros ?%Hu.
    + unfold udropped. cbn [ur_item closed set_ur_storage set_ur_ops set_ur_item]. destruct o as [i'|]; [|by rewrite Ho in Hh].
      destruct Ho as (_ & _ & _ & Hfl). by rewrite Hfl by mem.
    + unfold udropped. cbn [ur_item closed set_ur_storage set_ur_ops set_ur_item]. intros [i' ->]. destruct Ho as (_ & H7 & _ & Hfl).
      rewrite (Hfl 7), H7 by mem. apply andb_false_r.
Qed.

Lemma complete_close is_new k cq i acc c :
  GoodF acc c -> ur_item (cx_drv c) = Some i -> pending k (cx_drv c) = Some UrClose -> awake c ->
  completes is_new k cq UrClose (took UrClose cq i) acc c (set_drv (begun k (took UrClose cq i) (cx_drv c)) c).
Proof.
  intros HG Hi Hp Ha. unfold completes, complete_op, completed_close, ur_index. pose proof HG as [[[_ _ _ (_ & Hops0 & Ho0) _] Hl] _].
  set (i1 := took UrClose cq i). assert (reported UrClose i i1) as [_ Hfl] by apply took_reported.
  do 4 apply runs_bind. apply runs_gets, runs_ret. rewrite (gcontains_has 7), (Hfl 7) by (done || mem).
  destruct (has 7 (ui_flags i)) eqn:H7; apply runs_modify, runs_ret, runs_modify.
  - split; [|split; [by apply kept_held, kept_flags|by left]].
    apply (drv_ended free free acc c (closed k None (cx_drv c))); [done| |by intros a Hfr; apply (close_free a _ i)].
    destruct Hl as [|[Hh _]]; [done|]. exfalso.
    pose proof (uw_handle _ _ _ Ho0) as Hx. unfold udropped in Hx. rewrite Hi, H7, Hh in Hx. cbn in Hx. lia.
  - set (i2 := set_ui_flags (ginsert UR_DROPPED_PRI (ui_flags i1)) i1).
    assert (forall n, has n (ui_flags i2) = has n (ui_flags i1) || Z.testbit 64 n) as Hi2 by (intros n; by apply (has_ginsert UR_DROPPED_PRI)).
    assert (ui_wr_op i2 = ui_wr_op i) as Hw2 by apply took_wr_op.
    split; [|split; [by apply kept_held, kept_flags|]].
    + apply (driver_change free free ur_sent ur_sent true acc c (closed k (Some i2) (cx_drv c))); [done|..].
      * intros a Hfr. apply (close_free a _ i); try done. split; [done|]. split; [done|]. split; [rewrite Hi2; apply orb_true_r|].
        intros n Hin. rewrite Hi2, Hfl; [|set_solver]. set_unfold. naive_solver (by rewrite ?orb_false_r).
      * unfold ur_sent, inflight. cbn [ur_item closed set_ur_storage set_ur_ops set_ur_item]. rewrite Hi, Hw2.
        change (ui_io i2) with (ui_io i1). unfold i1. rewrite took_sent. cbn [op_bytes]. unfold ztake. rewrite take_nil, app_nil_r. f_equal.
        destruct (ui_wr_op i) as [j|]; [|done]. change (pending j (set_ur_storage true ?x)) with (pending j (closed k (Some i2) (cx_drv c))).
        rewrite pending_closed by (rewrite (pending_some _ _ _ Hp); by eexists). case_decide as Hj; [|done]. subst j. by rewrite Hp.
    + destruct Ha as [Hid|]; [left|by right]. intros j [= <-]. change (ui_wr_op i2 = None). rewrite Hw2. by apply Hid.
Qed.

(** A stream that was removed: only the entry goes. *)
Lemma complete_gone is_new k cq op acc c :
  GoodF acc c -> awake c -> ur_item (cx_drv c) = None -> pending k (cx_drv c) = Some op -> op <> UrNop ->
  runs (ur_mod (kernel_took k cq);; completed is_new k cq) c (fun _ c' => GoodF acc c' /\ held c c' /\ awake c').
Proof.
  intros HG Ha Hi Hp Hn. pose proof HG as [[[_ _ _ (Hs & Hops & Ho) _] _] _].
  assert (op <> UrClose) as Hc.
  { intros ->. destruct (uw_close _ _ _ Ho k Hp) as (_ & H6 & _). unfold udropped in H6. by rewrite Hi in H6. }
  assert (kernel_took k cq (cx_drv c) = cx_drv c) as Hk.
  { unfold kernel_took. rewrite Hi. destruct (op_at _ _), (cq_res cq); try done. destruct (cx_drv c). cbn in *. by subst. }
  apply runs_bind, runs_modify. rewrite Hk. unfold completed, ur_with.
  apply runs_bind, runs_gets. cbn [cx_drv set_drv]. rewrite Hs. cbn [negb]. apply runs_bind, runs_modify, runs_bind, runs_bind.
  eapply runs_eq; [unfold take_op; cbn [cx_drv set_drv ur_ops set_ur_storage]; by rewrite slab_get_map, (pending_some _ _ _ Hp)|].
  apply runs_bind, runs_gets. cbn [cx_drv set_drv ur_item set_ur_ops set_ur_storage]. rewrite Hi. apply runs_bind.
  eapply (runs_conseq _ _ (fun more c' => more = false /\ c' = _)); [destruct op; try done; by apply runs_ret|]. intros more c' [-> ->].
  apply runs_modify, runs_bind, runs_modify, runs_ret. split; [|split; [by apply kept_held, kept_flags|]].
  - apply (driver_change free free ur_sent ur_sent true acc c (closed k (ur_item (cx_drv c)) (cx_drv c))); [done|..].
    + intros a (_ & Hops' & Ho'). split; [done|]. assert (fewer (cx_drv c) (closed k (ur_item (cx_drv c)) (cx_drv c))) as Hl.
      { intros j o. rewrite pending_closed by (rewrite (pending_some _ _ _ Hp); by eexists). by case_decide. }
      split; [|by eapply uowners_fewer]. eapply ops_ok_fewer; [done|done| |done..].
      rewrite pending_closed by (rewrite (pending_some _ _ _ Hp); by eexists). case_decide as Hj; [|by apply Hops'].
      subst k. pose proof (uo_nop _ Hops'). congruence.
    + unfold ur_sent. cbn [ur_item closed set_ur_storage set_ur_ops set_ur_item]. by rewrite Hi.
  - left. intros j Hj. cbn in Hj. congruence.
Qed.

Lemma ur_complete_spec is_new k cq acc c :
  GoodF acc c -> is_Some (cx_mgr c) -> awake c ->
  runs (ur_complete is_new k cq) c (fun _ c' => GoodF acc c' /\ held c c' /\ awake c').
Proof.
  intros HG Hm Ha. pose proof HG as [[[_ _ _ (Hs & Hops & _) _] _] _]. unfold ur_complete. apply runs_bind, runs_gets.
  destruct (cqe_ok k cq (cx_drv c)) eqn:Hok; [|by apply runs_ret].
  unfold cqe_ok in Hok. rewrite <- pending_get in Hok. destruct (pending k (cx_drv c)) as [op|] eqn:Hp; [|done].
  assert (op <> UrNop) as Hn by (by intros ->). destruct (ur_item (cx_drv c)) as [i|] eqn:Hi; [|by eapply complete_gone].
  apply (complete_run is_new k cq op i); [done..|]. destruct op as [buf|buf r|pages| | | |]; try done.
  - apply complete_finish. by apply complete_quiet; [..|apply keeps_completed_recv|apply stays_completed_recv].
  - destruct (uo_write _ Hops i k _ Hi Hp eq_refl) as [_ Hr]. destruct r as [r|]; [by destruct (Hr buf r)|].
    apply andb_true_iff in Hok as [[Hnt%negb_true_iff Hmr]%andb_true_iff Ht].
    assert (cq_more cq = false) as Hmf.
    { destruct (cq_more cq); [|done]. cbn in Hmr. unfold sent_zc in Hmr. destruct (last_sqe k (ur_sq (cx_drv c)) None) as [[]|] eqn:Hq; try done.
      subst zc. by apply last_sqe_in in Hq as [Hq|]; [apply (uo_sq _ Hops) in Hq|]. }
    unfold complete_op, completed_send. rewrite Hnt, Hmf. apply complete_finish, complete_write; try done.
    intros acc' c' HG' H9. by apply requeue_unsent_spec.
  - apply andb_true_iff in Hok as [_ Ht]. apply complete_finish. unfold completed_writev. apply runs_assoc, complete_write; try done.
    intros acc' c' HG' H9. apply (requeue_spec (ubusy ctl (Some k)) _ (zdrop (sent_of (cq_res cq)) (concat pages))); [done|done|].
    intros w. rewrite prepend_pages_concat. revert Ht. destruct (cq_res cq) as [n|e]; cbn [sent_of takes]; [|done]. intros Ht. rewrite advance_pages_concat; [done|lia].
  - apply complete_finish. by apply complete_quiet; [..|apply keeps_completed_poll|apply stays_completed_poll].
  - apply complete_finish. exact (complete_quiet k cq UrShutdown i acc c HG Hm Ha Hi Hp (mret tt) eq_refl Hn (keeps_ret _ _ tt) (stays_ret tt)).
  - by apply complete_close.
Qed.

(** ** Cancellations *)

(** The driver when the handler has removed the operation. *)
Definition dropped_op (k : nat) d : Drv := set_ur_ops (slab_remove k (ur_ops d)) (set_ur_storage false d).

(** No operation writes, although the item may still name one. *)
Definition unwritten (a : bool) d : Prop :=
  ubusy ctl None a d /\ forall j op, pending j d = Some op -> writes op = false.
#[local] Instance unwritten_drop : DropLaws unwritten.
Proof.
  intros d [Hb Hw]. destruct (ubusy_drop ctl None d Hb) as (d' & He & Hb'). exists d'. split; [done|]. split; [done|].
  revert He. unfold hd_drop, uring_drop, ur_weak_drop. destruct Hb as (-> & _). by intros [= <-].
Qed.
Lemma unwritten_inflight a d : unwritten a d -> inflight d = [].
Proof.
  intros [_ Hw]. unfold inflight. destruct (ur_item d) as [i|]; [|done]. destruct (ui_wr_op i) as [j|]; [|done].
  destruct (pending j d) as [op|] eqn:Hp; [|done]. specialize (Hw j op Hp). by destruct op.
Qed.

Lemma dropped_busy a k op d :
  free a d -> is_Some (ur_item d) -> pending k d = Some op -> op <> UrNop -> ubusy ctl None a (dropped_op k d).
Proof.
  intros (_ & Hops & Ho) Hi Hp Hn. split; [done|]. split; [done|].
  assert (fewer d (dropped_op k d)) as Hl by exact (remove_fewer k d).
  split; [|split; [by eapply uowners_fewer|done]]. eapply ops_ok_fewer; [done|done| |done..].
  change (pending 0 (set_ur_ops (slab_remove k (ur_ops d)) d) = Some UrNop). rewrite pending_remove. case_decide as Hk; [|by apply Hops].
  subst k. pose proof (uo_nop _ Hops). congruence.
Qed.
Lemma dropped_unwritten a k op d i :
  free a d -> ur_item d = Some i -> pending k d = Some op -> op <> UrNop -> writes op = true -> unwritten a (dropped_op k d).
Proof.
  intros Hf Hi Hp Hn Hw. split; [by eapply dropped_busy|]. destruct Hf as (_ & Hops & _). intros j o Hj.
  change (pending j (set_ur_ops (slab_remove k (ur_ops d)) d) = Some o) in Hj. rewrite pending_remove in Hj. case_decide as Hk; [done|].
  destruct (writes o) eqn:Ho; [|done]. exfalso.
  destruct (uo_write _ Hops i j o Hi Hj Ho) as [H1' _], (uo_write _ Hops i k op Hi Hp Hw) as [H2' _]. congruence.
Qed.
Lemma dropped_sent a k op d i :
  free a d -> ur_item d = Some i -> pending k d = Some op -> op <> UrNop -> cancel_ok k d = true -> ur_sent (dropped_op k d) ++ op_bytes op = ur_sent d.
Proof.
  intros Hf Hi Hp Hn Hc. destruct (writes op) eqn:Hw.
  - pose proof (unwritten_inflight _ _ (dropped_unwritten a k op d i Hf Hi Hp Hn Hw)) as Hin. destruct Hf as (_ & Hops & _).
    destruct (uo_write _ Hops i k op Hi Hp Hw) as [Hwk _]. unfold ur_sent. rewrite Hin. cbn [dropped_op ur_item set_ur_ops set_ur_storage].
    rewrite Hi, app_nil_r. unfold inflight. by rewrite Hi, Hwk, Hp.
  - assert (op_bytes op = []) as -> by (by destruct op). rewrite app_nil_r. unfold ur_sent, inflight. cbn [dropped_op ur_item set_ur_ops set_ur_storage].
    rewrite Hi. f_equal. destruct (ui_wr_op i) as [j|]; [|done].
    change (pending j (dropped_op k d)) with (pending j (set_ur_ops (slab_remove k (ur_ops d)) d)). rewrite pending_remove.
    case_decide as Hj; [|done]. subst j. rewrite Hp. by destruct op.
Qed.

(** The item names no operation any more. *)
Lemma forget_write a d : unwritten a d -> ubusy ctl None a (set_ur_item (set_ui_wr_op None <$> ur_item d) d) /\
  ur_sent (set_ur_item (set_ui_wr_op None <$> ur_item d) d) = ur_sent d.
Proof.
  intros Hu. pose proof (unwritten_inflight _ _ Hu) as Hin. destruct Hu as [(Hs & [i Hi] & [Hn Hw Hf Hq] & Ho & _) Hnw]. rewrite Hi. cbn.
  split.
  - split; [done|]. split; [by eexists|]. split; [split; try done|split; [|done]].
    + intros j n o [= <-] Hpo Hwo. change (pending n d = Some o) in Hpo. by rewrite (Hnw n o Hpo) in Hwo.
    + intros j [= <-]. exact (Hf i Hi).
    + apply (uowners_reported a d d (UrWritev []) i); [done|done|by split; [right|]|by intros ??|done..].
  - unfold ur_sent. by rewrite Hin, Hi.
Qed.

Lemma write_canceled_spec acc c :
  Good unwritten ur_sent true acc c -> is_Some (cx_mgr c) ->
  runs write_canceled c (fun _ c' => Good (F := F) (L := L) (ubusy ctl None) ur_sent true acc c' /\ held c c' /\ awake c').
Proof.
  intros HG Hm. unfold write_canceled. apply runs_bind, runs_modify.
  assert (Good (ubusy ctl None) ur_sent true acc (set_drv (set_ur_item (set_ui_wr_op None <$> ur_item (cx_drv c)) (cx_drv c)) c)) as HG1.
  { apply (driver_change unwritten _ ur_sent); [done|by intros a Hu; apply forget_write|]. destruct HG as [[[_ _ _ Hd _] _] _]. by eapply forget_write. }
  set (c1 := set_drv _ c) in *. assert (idle (cx_drv c1)) as Hid1.
  { intros i. cbn. destruct (ur_item (cx_drv c)); [|done]. by intros [= <-]. }
  assert (held c c1) as K1 by (by apply kept_held, kept_flags). apply runs_bind.
  eapply runs_conseq; [apply runs_stays; [apply (keeps_unset_flag ctl None WR_CANCELING); [done| |done|done]|eauto with stays]|].
  { intros k Hin. set_unfold. naive_solver. }
  intros [] c2 [[HG2 K2] [_ Hid2]]. specialize (Hid2 Hid1). apply runs_bind.
  destruct (update_write_status_ok (ubusy ctl None) ur_sent true acc false c2 HG2) as (r & c3 & He & HG3 & K3).
  destruct (update_write_status_rests _ _ _ _ He) as [H9 Hid3]. specialize (Hid3 Hid2). exists r, c3. split; [done|].
  destruct (ubusy_some ctl None acc true c3 HG3) as [i Hi]. apply runs_bind. unfold ur_index at 1. apply runs_bind, runs_gets. rewrite Hi. apply runs_ret.
  assert (held c c3) as K13 by (etrans; [done|]; etrans; [done|by apply kept_held]).
  pose proof HG3 as [[[_ _ _ (_ & _ & Hops & _) _] _] _]. destruct (uo_flags _ Hops i Hi) as (_ & H4 & _). rewrite (gcontains_has 4), H4 by done.
  destruct r; cbn [status_is_io orb]; [|by apply runs_ret; split; [|split; [|left]]..]. apply runs_bind.
  eapply runs_conseq; [apply runs_stays; [apply (keeps_unset_flag ctl None WR_REISSUE); [done| |done|by apply K13]|eauto with stays]|].
  { intros k Hin. set_unfold. naive_solver. }
  intros [] c4 [[HG4 K4] [R9 _]]. eapply runs_conseq; [apply (send_spec ctl None acc c4); [done|by apply K4, K13|]|].
  { specialize (H9 eq_refl). destruct (hasf 9 c4); [by rewrite R9 in H9|done]. }
  intros [] c5 (HG5 & K5 & H95). split; [done|]. split; [|by right]. by do 2 (etrans; [done|]).
Qed.

(** The storage is given back. *)
Lemma give_back acc c0 c : Good (ubusy ctl None) ur_sent true acc c -> held c0 c -> awake c ->
  let c' := set_drv (set_ur_storage true (cx_drv c)) c in GoodF acc c' /\ held c0 c' /\ awake c'.
Proof.
  intros HG K Ha c'. split; [by eapply give_storage|]. split; [|done]. etrans; [exact K|]. by apply kept_held, kept_flags.
Qed.

Lemma cancel_write (f : M (Cx F L Drv) ()) k op i acc c :
  GoodF acc c -> is_Some (cx_mgr c) -> awake c -> ur_item (cx_drv c) = Some i -> pending k (cx_drv c) = Some op -> op <> UrNop ->
  writes op = true -> cancel_ok k (cx_drv c) = true ->
  (forall c', Good unwritten (fun d => ur_sent d ++ op_bytes op) true acc c' -> hasf 9 c' = false ->
     runs f c' (fun _ c2 => Good unwritten ur_sent true acc c2 /\ held c' c2 /\ rests c' c2)) ->
  runs (f;; write_canceled) (set_drv (dropped_op k (cx_drv c)) c)
    (fun _ c' => Good (F := F) (L := L) (ubusy ctl None) ur_sent true acc c' /\ held c c' /\ awake c').
Proof.
  intros HG Hm Ha Hi Hp Hn Hw Hc Hf. pose proof HG as [[[_ _ _ Hfr _] _] _]. pose proof Hfr as (_ & Hops & _).
  assert (Good unwritten (fun d => ur_sent d ++ op_bytes op) true acc (set_drv (dropped_op k (cx_drv c)) c)) as HG1.
  { apply (driver_change free _ ur_sent); [done| |by eapply dropped_sent]. intros a Hfa. by eapply dropped_unwritten. }
  assert (hasf 9 c = false) as H9.
  { destruct Ha as [Hid|]; [|done]. destruct (uo_write _ Hops i k op Hi Hp Hw) as [Hwk _]. by rewrite (Hid i Hi) in Hwk. }
  apply runs_bind. eapply runs_conseq; [by apply Hf|]. intros [] c2 (HG2 & K2 & _).
  assert (held c c2) as K12 by (etrans; [|exact K2]; by apply kept_held, kept_flags).
  eapply runs_conseq; [apply (write_canceled_spec acc); [done|by apply K12]|]. intros [] c3 (? & ? & ?). split; [done|]. split; [by etrans|done].
Qed.

(** An operation that does not write is dropped. *)
Lemma cancel_quiet (f : M (Cx F L Drv) ()) k op i acc c :
  GoodF acc c -> is_Some (cx_mgr c) -> awake c -> ur_item (cx_drv c) = Some i -> pending k (cx_drv c) = Some op -> op <> UrNop ->
  writes op = false -> cancel_ok k (cx_drv c) = true -> keeps (ubusy ctl None) ur_sent f -> stays f ->
  runs f (set_drv (dropped_op k (cx_drv c)) c)
    (fun _ c' => Good (F := F) (L := L) (ubusy ctl None) ur_sent true acc c' /\ held c c' /\ awake c').
Proof.
  intros HG Hm Ha Hi Hp Hn Hw Hc Hk Hst. set (c1 := set_drv _ c).
  assert (Good (ubusy ctl None) ur_sent true acc c1) as HG1.
  { apply (driver_change free _ ur_sent); [done|intros a Hfa; by eapply dropped_busy|]. destruct HG as [[[_ _ _ Hfr _] _] _].
    rewrite <- (dropped_sent _ k op _ i Hfr Hi Hp Hn Hc). assert (op_bytes op = []) as -> by (by destruct op). by rewrite app_nil_r. }
  eapply runs_conseq; [apply runs_stays; [by apply Hk|done]|]. intros [] c2 [[HG2 K2] R].
  split; [done|]. split; [etrans; [|exact K2]; by apply kept_held, kept_flags|]. eapply rests_awake; [exact R|].
  destruct Ha as [Hid|]; [by left|by right].
Qed.

Lemma keeps_recv_canceled buf : keeps (F := F) (L := L) (ubusy ctl None) ur_sent (
  ur_upd_item (set_ui_rd_op None);;
  ur_unset_flag RD_CANCELING;;
  res ← ctx_update_read_status buf (inl 0);
  item ← ur_index;
  if gcontains RD_REISSUE (ui_flags item) || status_is_io res then ur_unset_flag RD_REISSUE;; recv false else mret tt).
Proof.
  apply keeps_bind; [by apply ur_keeps_upd_item|]. intros []. apply keeps_bind; [apply keeps_unset_flag; [done|]; intros k Hin; set_unfold; naive_solver|].
  intros []. apply keeps_bind; [apply update_read_status_keeps; apply _|]. intros r. apply keeps_bind; [apply keeps_index|]. intros item.
  destruct (_ || _); [|apply keeps_ret]. apply keeps_bind; [apply keeps_unset_flag; [done|]; intros k Hin; set_unfold; naive_solver|].
  intros []. apply keeps_recv.
Qed.
Lemma stays_recv_canceled buf : stays (F := F) (L := L) (G := G) (S := S) (T := T) (
  ur_upd_item (set_ui_rd_op None);;
  ur_unset_flag RD_CANCELING;;
  res ← ctx_update_read_status buf (inl 0);
  item ← ur_index;
  if gcontains RD_REISSUE (ui_flags item) || status_is_io res then ur_unset_flag RD_REISSUE;; recv false else mret tt).
Proof. pose proof (stays_recv (F := F) (L := L) (G := G) (S := S) (T := T)). stays_all. Qed.

Lemma ur_cancel_spec k acc c :
  GoodF acc c -> is_Some (cx_mgr c) -> awake c -> runs (ur_cancel k) c (fun _ c' => GoodF acc c' /\ held c c' /\ awake c').
Proof.
  intros HG Hm Ha. pose proof HG as [[[_ _ _ Hfr _] _] _]. pose proof Hfr as (Hs & Hops & _). unfold ur_cancel. apply runs_bind, runs_gets.
  destruct (cancel_ok k (cx_drv c)) eqn:Hok; [|by apply runs_ret]. pose proof Hok as Hok'.
  unfold cancel_ok in Hok'. rewrite <- pending_get in Hok'. destruct (pending k (cx_drv c)) as [op|] eqn:Hp; [|done].
  assert (op <> UrNop) as Hn by (by intros ->). unfold canceled, ur_with.
  apply runs_bind, runs_gets. rewrite Hs. cbn [negb]. apply runs_bind, runs_modify, runs_bind, runs_bind.
  eapply runs_eq; [unfold remove_op; cbn [cx_drv set_drv ur_ops set_ur_storage]; by rewrite slab_get_map, (pending_some _ _ _ Hp)|].
  apply runs_bind, runs_gets. cbn [cx_drv set_drv ur_item set_ur_ops set_ur_storage]. destruct (ur_item (cx_drv c)) as [i|] eqn:Hi.
  - eapply (runs_conseq _ _ (fun _ c' => Good (ubusy ctl None) ur_sent true acc c' /\ held c c' /\ awake c')).
    2:{ intros [] c1 (HG1 & K1 & Ha1). apply runs_bind, runs_modify, runs_ret. by apply give_back. }
    match goal with |- runs ?m _ ?P => change (runs m (set_drv (dropped_op k (cx_drv c)) c) P) end.
    destruct op as [buf|buf r|pages| | | |]; try done.
    + by apply (cancel_quiet _ k (UrRecv buf) i); [..|apply keeps_recv_canceled|apply stays_recv_canceled].
    + destruct r; [done|]. apply (cancel_write _ k (UrSend buf None) i); try done. intros c' HG' H9.
      by apply (requeue_spec unwritten (fun w => buf ++ w) buf).
    + apply (cancel_write _ k (UrWritev pages) i); try done. intros c' HG' H9.
      apply (requeue_spec unwritten _ (concat pages)); [done|done|]. intros w. apply prepend_pages_concat.
    + by apply (cancel_quiet (mret tt) k UrPoll i); [..|apply keeps_ret|apply stays_ret].
    + by apply (cancel_quiet (mret tt) k UrShutdown i); [..|apply keeps_ret|apply stays_ret].
    + by apply (cancel_quiet (mret tt) k UrClose i); [..|apply keeps_ret|apply stays_ret].
  - eapply (runs_conseq _ _ (fun _ c' => c' = _)); [destruct op; by apply runs_ret|]. intros [] c1 ->.
    apply runs_bind, runs_modify, runs_ret. split; [|split; [by apply kept_held, kept_flags|]].
    + apply (driver_change free free ur_sent ur_sent true acc c (set_ur_ops (slab_remove k (ur_ops (cx_drv c))) (set_ur_storage true (cx_drv c)))).
      * done.
      * intros a (_ & Hops' & Ho'). split; [done|]. assert (fewer (cx_drv c) (set_ur_ops (slab_remove k (ur_ops (cx_drv c))) (set_ur_storage true (cx_drv c)))) as Hl by exact (remove_fewer k (cx_drv c)).
        split; [|by eapply uowners_fewer]. eapply ops_ok_fewer; [done|done| |done..].
        change (pending 0 (set_ur_ops (slab_remove k (ur_ops (cx_drv c))) (cx_drv c)) = Some UrNop). rewrite pending_remove.
        case_decide as Hj; [|by apply Hops']. subst k. pose proof (uo_nop _ Hops'). congruence.
      * unfold ur_sent. by cbn; rewrite Hi.
    + left. intros j Hj. cbn in Hj. congruence.
Qed.
End events.
