(* ===== verification/UringProps.v ===== *)
(** * Properties of streams on io_uring

    The polls of the task, the drop of its control and the delayed drops keep
    the invariant of the driver; then the properties that follow for the
    programs of [UringStream.v]. *)
From Stdlib Require Import ZArith Lia.
From stdpp Require Import base numbers list sets gmap.
From S2P Require Import Prelude Deps Task IoConfig IoFlags IoBuf IoChain IoTimers IoState IoInv IoRef IoKeeps IoOutput Polling PollingSpec PollingSteps IoSystem IoOwner IoExample UringStream UringFrame UringInv UringSteps UringEvents.

Section task.
Context {F : Type} `{!Bitflags F} `{!BitflagsLaws F} {L : Type} `{!FilterLayer L} `{!FilterLayerLaws L}.
Context {G : Type} `{!Bitflags G} `{!BitflagsLaws G} {S : Type} `{!Socket S} `{!SocketLaws S}.
Context `{!PageSplit} `{!PageSplitLaws} `{!UringEnv} {T : Type -> Type} `{!Slab T} `{!SlabLaws T} `{!Waive (UrDrv G S T)}.

Abbreviation Drv := (UrDrv G S T) (only parsing).
Implicit Types (c : Cx F L Drv) (acc : list byte) (d : Drv) (i : UrItem G S).
Abbreviation GoodF ctl := (Good (F := F) (L := L) (ufree (G := G) (S := S) (T := T) ctl) ur_sent true).

(** Keeps the invariant of a stream whose task is there, and lets the driver
    be awake. *)
Definition tends {A} (op : M (Cx F L Drv) A) : Prop := forall acc c,
  GoodF true acc c -> is_Some (cx_mgr c) -> awake c -> runs op c (fun _ c' => GoodF true acc c' /\ held c c' /\ awake c').

Lemma tends_keeps {A} (op : M (Cx F L Drv) A) : keeps (ufree true) ur_sent op -> stays op -> tends op.
Proof.
  intros Hk Hst acc c HG Hm Ha. eapply runs_conseq; [apply runs_stays; [by apply Hk|done]|]. intros a c1 [[HG1 K1] R].
  split; [done|]. split; [done|]. by eapply rests_awake.
Qed.
Lemma tends_bind {A B} (op : M (Cx F L Drv) A) (k : A -> M (Cx F L Drv) B) : tends op -> (forall a, tends (k a)) -> tends (op ≫= k).
Proof.
  intros H1' H2' acc c HG Hm Ha. apply runs_bind. eapply runs_conseq; [by apply H1'|]. intros a c1 (HG1 & K1 & Ha1).
  eapply runs_conseq; [apply H2'; [done|by apply K1|done]|]. intros b c2 (? & ? & ?). split; [done|]. split; [by etrans|done].
Qed.
Lemma tends_ret {A} (a : A) : tends (mret a).
Proof. intros acc c HG Hm Ha. by apply runs_ret. Qed.

(** ** The storage taken for an operation *)

Lemma with_run {A} (f : M (Cx F L Drv) A) acc c :
  GoodF true acc c -> awake c ->
  runs f (set_drv (set_ur_storage false (cx_drv c)) c) (fun _ c' => Good (ubusy true None) ur_sent true acc c' /\
    held (set_drv (set_ur_storage false (cx_drv c)) c) c' /\ awake c') ->
  runs (ur_with f) c (fun _ c' => GoodF true acc c' /\ held c c' /\ awake c').
Proof.
  intros HG Ha Hf. pose proof HG as [[[_ _ _ (Hs & _) _] _] _]. unfold ur_with. apply runs_bind, runs_gets. rewrite Hs.
  apply runs_bind, runs_modify, runs_bind. eapply runs_conseq; [exact Hf|]. intros a c2 (HG2 & K2 & Ha2).
  apply runs_bind, runs_modify, runs_ret. apply give_back; [done| |done]. etrans; [|exact K2]. by apply kept_held, kept_flags.
Qed.
Lemma with_good acc c : GoodF true acc c -> Good (ubusy true None) ur_sent true acc (set_drv (set_ur_storage false (cx_drv c)) c).
Proof.
  intros HG. pose proof HG as [[[_ _ _ (_ & _ & Ho) _] _] _]. apply take_storage; [done|done|]. eapply uowners_item; [done|by left].
Qed.

Lemma tends_with {A} (f : M (Cx F L Drv) A) : keeps (ubusy true None) ur_sent f -> stays f -> tends (ur_with f).
Proof.
  intros Hk Hst acc c HG Hm Ha. apply with_run; [done|done|].
  eapply runs_conseq; [apply runs_stays; [by apply Hk; [apply with_good|]|done]|]. intros a c1 [[HG1 K1] R]. split; [done|]. split; [done|].
  eapply rests_awake; [exact R|]. destruct Ha; [by left|by right].
Qed.
Lemma with_send acc c : GoodF true acc c -> is_Some (cx_mgr c) -> awake c -> hasf 9 c = false ->
  runs (ur_with send) c (fun _ c' => GoodF true acc c' /\ held c c' /\ awake c').
Proof.
  intros HG Hm Ha H9. apply with_run; [done|done|]. eapply runs_conseq; [apply (send_spec true None acc); [by apply with_good|done|done]|].
  intros [] c1 (? & ? & ?). split; [done|]. split; [done|by right].
Qed.

(** ** Polls of the task *)

Lemma poll_write_ready_awake w c c' :
  ctx_poll_write_ready (F := F) (L := L) (D := Drv) w c = Done (Ready RdyReady, c') -> hasf 9 c' = false.
Proof.
  unfold ctx_poll_write_ready, filter_poll_write_ready. intros (f & c1 & [= <- <-] & Hend)%bind_done. destruct (io_filter (cx_io c)); [|done].
  apply bind_done in Hend as (cl & c2 & [= <- <-] & Hend). destruct (is_closed _); [done|]. apply bind_done in Hend as ([] & c3 & H3 & Hend).
  apply bind_done in Hend as (st & c4 & [= <- <-] & Hend). destruct (is_stopping _); [done|].
  apply bind_done in Hend as (p & c5 & [= <- <-] & Hend). rewrite is_write_paused_has in Hend. unfold hasf.
  destruct (has 9 (io_flags (cx_io c3))) eqn:H9; [done|]. by injection Hend as <-.
Qed.

Lemma tends_poll_readiness now w : tends (ur_poll_readiness now w).
Proof.
  unfold ur_poll_readiness. apply tends_bind; [apply tends_keeps; [apply keeps_ctx_poll_read_ready; apply _|apply stays_poll_read]|]. intros r.
  apply tends_bind.
  { destruct r as [|[]]; try apply tends_ret; apply tends_bind; try (intros; apply tends_ret);
      apply tends_with; first [apply keeps_pause_read|apply stays_pause_read|apply keeps_recv|apply stays_recv]. }
  intros rd acc c HG Hm Ha. apply runs_bind.
  assert (keeps (ufree true) ur_sent (ctx_poll_write_ready (F := F) (L := L) (D := Drv) w)) as Hk by (unfold ctx_poll_write_ready, filter_poll_write_ready; keep).
  destruct (Hk acc c HG Hm) as (r' & c1 & He & HG1 & K1). exists r', c1. split; [done|].
  assert (awake c1) as Ha1 by (eapply rests_awake; [exact (stays_poll_write_ready w _ _ _ He)|done]).
  destruct r' as [|[]].
  2:{ apply runs_bind, runs_bind. eapply runs_conseq; [apply with_send; [done|by apply K1|done|by eapply poll_write_ready_awake]|].
      intros [] c2 (? & ? & ?). apply runs_ret, runs_ret. split; [done|]. split; [by etrans|done]. }
  all: by apply runs_bind, runs_ret, runs_ret.
Qed.

Lemma tends_ctl_shutdown : tends ur_ctl_shutdown.
Proof.
  unfold ur_ctl_shutdown. apply tends_with.
  - apply keeps_bind; [apply keeps_pause_read|]. intros []. apply keeps_bind; [apply keeps_index|]. intros i.
    apply keeps_bind; [by apply keeps_insert|]. intros k. by apply keeps_submit.
  - pose proof (stays_pause_read (F := F) (L := L) (G := G) (S := S) (T := T)). stays_all.
Qed.

Lemma tends_task_flush flush now w : tends (ur_task_flush flush now w).
Proof.
  unfold ur_task_flush. apply tends_bind; [apply tends_poll_readiness|]. intros _.
  apply tends_bind; [apply tends_keeps; [unfold ctx_shutdown; keep|apply stays_ctx_shutdown]|]. intros []; [apply tends_ret|].
  apply tends_bind; [apply tends_ctl_shutdown|]. intros. apply tends_ret.
Qed.

Lemma tends_task_poll now w t : t <> TaskDone -> tends (ur_task_poll now w t).
Proof.
  intros Ht. destruct t as [|flush| |]; cbn [ur_task_poll]; [|apply tends_task_flush|apply tends_ret|done].
  apply tends_bind; [apply tends_poll_readiness|]. intros []; [apply tends_ret|].
  apply tends_bind; [apply tends_keeps; [apply keeps_reads, reads_flag|eauto with stays]|]. intros [].
  - apply tends_bind; [apply tends_ctl_shutdown|]. intros. apply tends_ret.
  - apply tends_task_flush.
Qed.

(** A task that is alive stays so in a poll. *)
Lemma task_flush_alive flush now w c t c' : ur_task_flush (F := F) (L := L) (G := G) (S := S) (T := T) flush now w c = Done (t, c') -> t <> TaskDone.
Proof.
  unfold ur_task_flush. intros (? & c1 & _ & (r & c2 & _ & Hend)%bind_done)%bind_done. destruct r; [by injection Hend as <- _|].
  by apply bind_done in Hend as (? & c3 & _ & [= <- _]).
Qed.
Lemma task_poll_alive now w t0 c t c' :
  ur_task_poll (F := F) (L := L) (G := G) (S := S) (T := T) now w t0 c = Done (t, c') -> t0 <> TaskDone -> t <> TaskDone.
Proof.
  destruct t0 as [|flush| |]; cbn [ur_task_poll]; [|by intros ?%task_flush_alive|by intros [= <- _]|done].
  intros (r & c1 & _ & Hend)%bind_done _. destruct r; [by injection Hend as <- _|].
  apply bind_done in Hend as (st & c2 & _ & Hend). destruct st; [by apply bind_done in Hend as (? & c3 & _ & [= <- _])|]. by eapply task_flush_alive.
Qed.

(** ** The drop of the control *)

Lemma ur_drop_stream_spec alive d : ops_ok d -> uowners true alive d -> exists d', ur_drop_stream d = Done d' /\
  ops_ok d' /\ uowners false alive d' /\ ur_storage d' = ur_storage d /\ ur_delayed_feed d' = ur_delayed_feed d /\
  ur_item d' = ur_item d /\ ur_sent d' = ur_sent d.
Proof.
  intros Hops Ho. destruct (uowners_item _ _ _ Ho) as [i Hi]; [by left|]. unfold ur_drop_stream. rewrite Hi.
  destruct (slab_insert (Some UrClose) (ur_ops d)) as [k ops] eqn:He.
  pose proof (pending_insert UrClose d) as Hp. rewrite He in Hp. cbn [fst snd] in Hp.
  destruct (insert_nonzero UrClose d Hops) as [k' Hk']. pose proof (insert_vacant UrClose d) as Hv. rewrite He in Hk', Hv. cbn [fst] in Hk', Hv.
  destruct Hops as [Hn Hw Hf Hq], Ho as [Ht Hc Hk Hh Hr]. eexists. split; [done|]. set (d' := ur_submit k SqClose _).
  assert (forall j, pending j d' = if decide (j = k) then Some UrClose else pending j d) as Hpd by exact Hp.
  assert (closes d' = Datatypes.S (closes d)) as Hce by (unfold closes; cbn; rewrite filter_app, length_app; apply Nat.add_1_r).
  assert (closes d = 0%nat /\ uqueued UrStream d = 0%nat) as [Hc0 Hq0] by (cbn in Ht; lia).
  assert (udropped 6 d = false) as H6 by (destruct (udropped 6 d); [specialize (Hc eq_refl); lia|done]).
  assert (forall n, udropped n d' = udropped n d) as Hud by done. assert (forall t, uqueued t d' = uqueued t d) as Hqe by done.
  split; [split; try done|split; [split; rewrite ?Hce, ?Hud, ?Hqe; try done|do 3 (split; [done|])]].
  - rewrite Hpd, decide_False; [done|lia].
  - intros j n op Hj. rewrite Hpd. case_decide; [intros [= <-]; done|]. by apply Hw.
  - intros n zc Hin. cbn in Hin. apply elem_of_app in Hin as [Hin|Hin%list_elem_of_singleton]; [by eapply Hq|done].
  - cbn. lia.
  - congruence.
  - assert (forall j, pending j d = Some UrClose -> False) as Hno by (intros j Hj; destruct (Hk j Hj); lia).
    intros n. rewrite Hpd. case_decide; [|by intros ?%Hno]. intros _. split; [lia|]. split; [done|]. intros j. rewrite Hpd.
    case_decide; [congruence|by intros ?%Hno].
  - unfold ur_sent, inflight. change (ur_item d') with (ur_item d). rewrite Hi. f_equal. destruct (ui_wr_op i) as [j|]; [|done].
    rewrite Hpd. case_decide as Hj; [|done]. subst j. by rewrite Hv.
Qed.

Lemma ur_task_finish_spec r t acc c :
  GoodF (task_alive t) acc c -> is_Some (cx_mgr c) -> awake c ->
  runs (ur_task_finish r t) c (fun t' c' => GoodF (task_alive t') acc c' /\ held c c' /\ awake c').
Proof.
  intros HG Hm Ha. destruct t; cbn [ur_task_finish]; try by apply runs_ret. apply runs_bind, runs_flag, runs_bind.
  assert (tends (if is_closed (io_flags (cx_io c)) then mret tt else ctx_stop r)) as Hs.
  { destruct (is_closed _); [apply tends_ret|]. apply tends_keeps; [apply keeps_terminate; apply _|eauto with stays]. }
  eapply runs_conseq; [by apply Hs|]. intros [] c1 (HG1 & K1 & Ha1). pose proof HG1 as [[[_ _ _ (Hst & Hops & Ho) _] _] _].
  destruct (ur_drop_stream_spec _ _ Hops Ho) as (d' & Hd & _ & _ & _ & _ & Hi' & Hsent).
  apply runs_bind. unfold ur_lift. apply runs_bind, runs_get, runs_bind.
  eapply runs_lift; [unfold ur_ctl_drop; rewrite Hst; exact Hd|]. apply runs_modify, runs_ret. split; [|split].
  - apply (driver_change (ufree true) _ ur_sent); [done| |done]. intros a (Hst' & Hops' & Ho').
    destruct (ur_drop_stream_spec _ _ Hops' Ho') as (d2 & Hd2 & Hops2 & Ho2 & Hst2 & _). rewrite Hd in Hd2. injection Hd2 as <-. split; [congruence|done].
  - etrans; [exact K1|]. by apply kept_held, kept_flags.
  - destruct Ha1 as [Hid|]; [left|by right]. intros i. cbn. rewrite Hi'. apply Hid.
Qed.

(** ** The delayed drops *)

Definition ur_same (x t : UrIdType) : bool := match x, t with UrStream, UrStream | UrWeak, UrWeak => true | _, _ => false end.
Lemma uqueued_pop t x q d : ur_delayed_feed d = x :: q ->
  uqueued t d = (one (ur_same x t) + uqueued t (set_ur_delayed q d))%nat.
Proof. intros Hq. unfold uqueued. rewrite Hq, filter_cons. by destruct (decide (x = t)), x, t. Qed.

(** An owner whose drop was queued is about to drop. *)
Lemma pop_stream ctl alive d q : ur_delayed_feed d = UrStream :: q -> uowners ctl alive d -> ctl = false /\ uowners true alive (set_ur_delayed q d).
Proof.
  intros Hq [Ht Hc Hk Hh Hr]. pose proof (uqueued_pop UrStream _ _ _ Hq) as Qs. pose proof (uqueued_pop UrWeak _ _ _ Hq) as Qw.
  rewrite Qs in Ht. rewrite Qw in Hh.
  assert (ctl = false) as -> by (destruct ctl; [cbn in Ht; lia|done]). split; [done|]. split; try done; cbn in *; lia.
Qed.
Lemma pop_weak ctl alive d q : ur_delayed_feed d = UrWeak :: q -> uowners ctl alive d -> alive = false /\ uowners ctl true (set_ur_delayed q d).
Proof.
  intros Hq [Ht Hc Hk Hh Hr]. pose proof (uqueued_pop UrStream _ _ _ Hq) as Qs. pose proof (uqueued_pop UrWeak _ _ _ Hq) as Qw.
  rewrite Qs in Ht. rewrite Qw in Hh.
  assert (alive = false) as -> by (destruct alive; [cbn in Hh; lia|done]). split; [done|]. split; try done; cbn in *; lia.
Qed.

Lemma drop_weak_idle d d' : ur_drop_weak_stream d = Done d' -> idle d -> idle d'.
Proof.
  unfold ur_drop_weak_stream, idle. destruct (ur_item d) as [i|]; [|done]. destruct (gcontains _ _); intros [= <-]; [done|].
  intros Hi j [= <-]. exact (Hi i eq_refl).
Qed.

Lemma feed_spec q ctl alive d : ur_delayed_feed d = q -> ops_ok d -> uowners ctl alive d -> exists d', ur_feed q d = Done d' /\
  ops_ok d' /\ uowners ctl alive d' /\ ur_delayed_feed d' = [] /\ (alive = true -> ur_sent d' = ur_sent d) /\ (idle d -> idle d').
Proof.
  revert d. induction q as [|id q IH]; intros d Hq Hops Ho; [by exists d|]. cbn [ur_feed].
  assert (ops_ok (set_ur_delayed q d)) as Hops1 by (by destruct Hops). destruct id.
  - destruct (pop_stream _ _ _ _ Hq Ho) as [-> Ho1].
    destruct (ur_drop_stream_spec _ _ Hops1 Ho1) as (d1 & -> & Hops2 & Ho2 & _ & Hq2 & Hi2 & Hs2). cbn.
    destruct (IH d1 Hq2 Hops2 Ho2) as (d' & He & ? & ? & ? & Hs & Hid). exists d'. do 4 (split; [done|]). split.
    + intros Ha. by rewrite (Hs Ha), Hs2.
    + intros Hi. apply Hid. intros i. rewrite Hi2. apply Hi.
  - destruct (pop_weak _ _ _ _ Hq Ho) as [-> Ho1].
    destruct (drop_weak_spec ctl _ Hops1 Ho1) as (d1 & He1 & Hops2 & Ho2 & _ & Hq2). rewrite He1. cbn.
    destruct (IH d1 Hq2 Hops2 Ho2) as (d' & He & ? & ? & ? & Hs & Hid). exists d'. do 4 (split; [done|]). split; [done|].
    intros Hi. apply Hid. by eapply drop_weak_idle.
Qed.

Lemma ur_tick_spec ctl acc c :
  GoodF ctl acc c -> is_Some (cx_mgr c) -> awake c ->
  runs (ur_lift ur_check_delayed_feed) c (fun _ c' => GoodF ctl acc c' /\ held c c' /\ awake c' /\ ur_delayed_feed (cx_drv c') = []).
Proof.
  intros HG Hm Ha. pose proof HG as [[[_ _ _ (Hst & Hops & Ho) _] Hl] _].
  destruct (feed_spec (ur_delayed_feed (cx_drv c)) ctl (handle_of c) (set_ur_storage false (cx_drv c)) eq_refl) as (d' & He & Hops' & Ho' & Hq' & Hs & Hid);
    [by apply ops_ok_storage|by apply uowners_storage|].
  unfold ur_lift. apply runs_bind, runs_get, runs_bind. eapply runs_lift; [unfold ur_check_delayed_feed; rewrite Hst, He; done|]. apply runs_modify.
  set (d2 := set_ur_storage true d').
  assert (forall a, ufree ctl a (cx_drv c) -> ufree ctl a d2) as HQ.
  { intros a (_ & Hops2 & Ho2).
    destruct (feed_spec (ur_delayed_feed (cx_drv c)) ctl a (set_ur_storage false (cx_drv c)) eq_refl) as (d3 & He3 & Hops3 & Ho3 & _);
      [by apply ops_ok_storage|by apply uowners_storage|]. rewrite He in He3. injection He3 as <-.
    split; [done|]. split; [by apply ops_ok_storage|by apply uowners_storage]. }
  split; [|split; [by apply kept_held, kept_flags|split; [|done]]].
  - destruct (hasf 0 c) eqn:Hz; [by apply (drv_ended (ufree ctl))|]. destruct Hl as [|[Hh _]]; [done|].
    apply (driver_change (ufree ctl) _ ur_sent); [done|done|]. exact (Hs Hh).
  - destruct Ha as [Hi|]; [left|by right]. exact (Hid Hi).
Qed.
End task.

(** ** The steps of a stream on io_uring *)

Section steps.
Context {F : Type} `{!Bitflags F} `{!BitflagsLaws F} {L : Type} `{!FilterLayer L} `{!FilterLayerLaws L}.
Context {G : Type} `{!Bitflags G} `{!BitflagsLaws G} {S : Type} `{!Socket S} `{!SocketLaws S} `{!RingSocket S} `{!RingSocketLaws S}.
Context `{!PageSplit} `{!PageSplitLaws} `{!UringEnv} {T : Type -> Type} `{!Slab T} `{!SlabLaws T} `{!Waive (UrDrv G S T)}.
Context {Item Err : Type}.

Abbreviation USys := (Sys F L (UrDrv G S T)) (only parsing).
Implicit Types (ops : list (ur_op Item Err)) (s : Sys F L (UrDrv G S T)) (c : Cx F L (UrDrv G S T)) (d : UrDrv G S T) (socket : S).

Definition ur_op_ok (op : ur_op Item Err) : Prop := match op with UrOwner op => op_ok op | _ => True end.

Definition ur_step_good s (o : outcome USys) : Prop :=
  exists s', o = Done s' /\ step_good (ufree (task_alive (sy_task s'))) ur_sent s s' /\ awake (sy_io s').

Lemma ur_call {A} (op : M (Cx F L (UrDrv G S T)) A) s (t : A -> TaskState) :
  runs op (sy_io s) (fun a c => Good (ufree (task_alive (t a))) ur_sent true (sy_acc s) c /\ held (sy_io s) c /\ awake c) ->
  ur_step_good s (sys_call op (fun a c => mkSys c (t a) (sy_acc s) (sy_failed s)) s).
Proof.
  intros (a & c & He & HG & K & Ha). unfold sys_call, ur_step_good. rewrite He. eexists. split; [done|].
  split; [|done]. split; [apply HG|done..].
Qed.

Lemma ur_step_all op s :
  ur_op_ok op -> awake (sy_io s) -> Good (ufree (task_alive (sy_task s))) ur_sent true (sy_acc s) (sy_io s) -> is_Some (cx_mgr (sy_io s)) ->
  ur_step_good s (ur_step op s).
Proof.
  intros Hop Ha HG Hm. destruct op as [op|is_new k cq|k| |now w|r]; cbn [ur_step].
  - destruct (owner_step_good (ufree (task_alive (sy_task s))) ur_sent op s Hop HG Hm) as (s' & He & Hs' & Ht).
    exists s'. split; [done|]. split; [by rewrite Ht|]. eapply rests_awake; [by eapply owner_rests|done].
  - apply (ur_call _ s (fun _ => sy_task s)). by apply ur_complete_spec.
  - apply (ur_call _ s (fun _ => sy_task s)). by apply ur_cancel_spec.
  - apply (ur_call _ s (fun _ => sy_task s)). eapply runs_conseq; [by apply ur_tick_spec|]. by intros [] c (? & ? & ? & _).
  - apply (ur_call _ s (fun t => t)). destruct (decide (sy_task s = TaskDone)) as [Ht|Ht].
    { rewrite Ht in *. cbn. by apply runs_ret. }
    assert (task_alive (sy_task s) = true) as Hal by (by destruct (sy_task s)). rewrite Hal in HG.
    destruct (tends_task_poll now w (sy_task s) Ht (sy_acc s) (sy_io s) HG Hm Ha) as (t & c & He & HG' & K & Ha'). exists t, c. split; [done|].
    apply task_poll_alive in He; [|done]. split; [|done]. assert (task_alive t = true) as -> by (by destruct t). done.
  - apply (ur_call _ s (fun t => t)). by apply ur_task_finish_spec.
Qed.
End steps.

(** ** Properties of streams on io_uring

    Without zero-copy sends, programs over a stream return, keep it well
    formed and deliver the accepted output in order; a graceful close sends
    everything first, and the descriptor is closed once.  With zero-copy sends
    they do not. *)

Section props.
Context {F : Type} `{!Bitflags F} `{!BitflagsLaws F} {L : Type} `{!FilterLayer L} `{!FilterLayerLaws L}.
Context {G : Type} `{!Bitflags G} `{!BitflagsLaws G} {S : Type} `{!Socket S} `{!SocketLaws S} `{!RingSocket S} `{!RingSocketLaws S}.
Context `{!PageSplit} `{!PageSplitLaws} `{!UringEnv} {T : Type -> Type} `{!Slab T} `{!SlabLaws T}.
Context {Item Err : Type}.

Abbreviation USys := (Sys F L (UrDrv G S T)) (only parsing).
Implicit Types (ops : list (ur_op Item Err)) (s : Sys F L (UrDrv G S T)) (c : Cx F L (UrDrv G S T)) (d : UrDrv G S T) (socket : S).

(** The invariant of the system. *)
Definition ur_ok s : Prop := sys_good (ufree (task_alive (sy_task s))) ur_sent s /\ awake (sy_io s).
Definition ur_step_ok s (o : outcome USys) : Prop := exists s', o = Done s' /\ ur_ok s' /\ held (sy_io s) (sy_io s').

Lemma ur_step_ok_all (op : ur_op Item Err) s : ur_op_ok op -> ur_ok s -> ur_step_ok s (ur_step op s).
Proof.
  intros Hop [Hs Ha]. destruct (step_good_sys (fun s => ufree (task_alive (sy_task s))) ur_sent s (fun s => awake (sy_io s)) (ur_step op s) Hs)
    as (s' & He & Hs' & K & Ha'); [intros HG Hm; by apply ur_step_all..|by exists s'].
Qed.

Lemma ur_exec_ok ops s : Forall ur_op_ok ops -> ur_ok s -> ur_step_ok s (ur_exec ops s).
Proof.
  intros Hops. revert s. induction Hops as [|op ops Hop _ IH]; intros s Hs; [by exists s|]. cbn [ur_exec].
  destruct (ur_step_ok_all op s Hop Hs) as (s1 & He1 & Hs1 & K1). rewrite He1. cbn.
  destruct (IH s1 Hs1) as (s2 & He & Hs2 & K2). exists s2. split; [done|]. split; [done|by etrans].
Qed.

Lemma ur_register_ok socket : ufree true true (ur_register (G := G) (T := T) socket false).
Proof.
  unfold ur_register. set (nop := slab_insert (Some UrNop) slab_default).
  assert (slab_map nop.2 = <[0%nat := Some UrNop]> ∅) as Hn.
  { unfold nop. by rewrite slab_map_insert, slab_insert_default, slab_map_default. }
  destruct (slab_insert (Some UrPoll) nop.2) as [k ops] eqn:He.
  pose proof (slab_map_insert (Some UrPoll) nop.2) as Hm. pose proof (slab_insert_vacant (Some UrPoll) nop.2) as Hv. rewrite He, Hn in Hm, Hv. cbn in Hm, Hv.
  assert (k <> 0%nat) as Hk by (intros ->; by rewrite lookup_insert_eq in Hv).
  set (d := ur_submit _ _ _). assert (forall j, pending j d = if decide (j = 0%nat) then Some UrNop else if decide (j = k) then Some UrPoll else None) as Hp.
  { intros j. unfold pending. cbn. rewrite Hm. destruct (decide (j = 0%nat)) as [->|]; [by rewrite lookup_insert_ne, lookup_insert_eq by done|].
    case_decide as Hj; [subst; by rewrite lookup_insert_eq|]. by rewrite !lookup_insert_ne, lookup_empty by congruence. }
  assert (forall n, has n (fl_of NO_ZC : G) = Z.testbit 32 n) as Hfl by (intros n; unfold has; by rewrite fl_bits_of).
  split; [done|]. split; split; try done.
  - intros i j op _. rewrite Hp. repeat case_decide; by intros [= <-].
  - intros i [= <-]. cbn [ui_flags]. by rewrite !Hfl.
  - intros j zc Hin%list_elem_of_singleton. done.
  - unfold udropped. cbn [d ur_item ur_submit ui_flags]. by rewrite Hfl.
  - intros j. rewrite Hp. by repeat case_decide.
  - unfold udropped. cbn [d ur_item ur_submit ui_flags]. by rewrite Hfl.
  - intros _. unfold udropped. cbn [d ur_item ur_submit ui_flags]. by rewrite Hfl.
Qed.

Lemma ur_new_ok id cfg socket m : so_sent socket = [] -> ur_ok (ur_new id cfg socket false m).
Proof.
  intros Hso. set (c := mkCx (io_new id cfg) (Some m) (ur_register socket false) [] : Cx F L (UrDrv G S T)).
  assert (ur_item (cx_drv c) = Some (mkUrItem socket (fl_of NO_ZC) None None)) as Hi by (unfold c, ur_register; cbn; by destruct (slab_insert _ _)).
  assert (idle (cx_drv c)) as Hid by (intros i; rewrite Hi; by intros [= <-]).
  split; [|by left]. apply good_sys_good; [|by eexists]. fold c.
  assert (forall k, hasf k c = Z.testbit (if 0 <? ic_write_buf_threshold cfg then 33280 else 512) k) as Hk by (intros k; apply has_new).
  split; [split; [split|]|]; rewrite ?Hk.
  - split; [|by intros ls [= <-]]. split; [cbn; lia|]. repeat constructor; by eexists.
  - by destruct (0 <? _).
  - done.
  - apply ur_register_ok.
  - by destruct (0 <? _).
  - right. split; [done|]. intros _. unfold ur_sent, inflight. rewrite Hi. cbn. by rewrite Hso.
  - right. intros _. by left.
Qed.

(** What the socket took. *)
Definition ur_socket d : list byte := match ur_item d with Some i => so_sent (ui_io i) | None => [] end.
Definition ur_terminated s : bool := is_terminated (io_flags (cx_io (sy_io s))).

(** A state that a program reaches from a new stream without zero-copy. *)
Definition ur_reached s : Prop := exists id cfg socket m ops,
  so_sent socket = [] /\ Forall ur_op_ok ops /\ ur_exec ops (ur_new id cfg socket false m) = Done s.

Lemma ur_reached_ok s : ur_reached s -> ur_ok s /\ filter_of (sy_io s) = Some [].
Proof.
  intros (id & cfg & socket & m & ops & Hso & Hops & He).
  destruct (ur_exec_ok ops _ Hops (ur_new_ok id cfg socket m Hso)) as (s' & He' & Hs & K).
  rewrite He in He'. injection He' as <-. split; [done|]. by apply K.
Qed.
Lemma ur_ok_good s : sy_failed s = false -> ur_ok s -> Good (ufree (task_alive (sy_task s))) ur_sent true (sy_acc s) (sy_io s) /\ is_Some (cx_mgr (sy_io s)).
Proof. intros Hf [(_ & ? & HG) _]. auto. Qed.
Lemma ur_ok_owners s : ur_ok s -> ops_ok (cx_drv (sy_io s)) /\ uowners (task_alive (sy_task s)) (handle_of (sy_io s)) (cx_drv (sy_io s)).
Proof. by intros [[[[_ _ _ (_ & ? & ?) _] _] _] _]. Qed.
Lemma ur_sent_socket d : ur_sent d = ur_socket d ++ inflight d.
Proof. unfold ur_sent, ur_socket, inflight. by destruct (ur_item d). Qed.

(** C13. On io_uring without zero-copy sends, every program over a stream -
    calls of the owner, completions in any order with short and failed sends,
    cancellations, polls of the task, drops - returns without a panic, and the
    socket receives the output in the order in which it was accepted: until
    the stream is terminated, what the socket took, what the operation in
    flight holds and what is buffered make up what was accepted. *)
Theorem uring_output_in_order id cfg socket m ops :
  so_sent socket = [] -> Forall ur_op_ok ops ->
  exists s, ur_exec ops (ur_new (F := F) (L := L) (G := G) (T := T) id cfg socket false m) = Done s /\
    (ur_terminated s = false ->
     ur_socket (cx_drv (sy_io s)) ++ inflight (cx_drv (sy_io s)) ++ wcontent (io_buffer (cx_io (sy_io s))) 0 = sy_acc s).
Proof.
  intros Hso Hops. destruct (ur_exec_ok ops _ Hops (ur_new_ok id cfg socket m Hso)) as (s & He & [Hs _] & K).
  exists s. split; [done|]. unfold ur_terminated. rewrite is_terminated_has. intros Hz.
  destruct Hs as [[_ [|[_ Hst]]] _]; [unfold hasf in *; congruence|]. rewrite app_assoc, <- ur_sent_socket. by apply Hst, K.
Qed.

(** C27. On io_uring without zero-copy sends a graceful close waits for the
    kernel: when the filters of a stream without layers are shut down before
    the timeout, and the stream is stopped by that, the socket has taken all
    the accepted output, and nothing is in flight or buffered. *)
Theorem uring_close_sends_all now s :
  ur_reached s -> sy_failed s = false -> is_stopping (io_flags (cx_io (sy_io s))) = false ->
  (forall deadline, io_shutdown_timeout (cx_io (sy_io s)) = Some deadline -> now < deadline) ->
  exists c', shutdown_filters now (sy_io s) = Done (tt, c') /\
    (is_stopping (io_flags (cx_io c')) = true -> is_terminated (io_flags (cx_io c')) = false ->
     ur_socket (cx_drv c') = sy_acc s /\ inflight (cx_drv c') = [] /\ out_size (io_buffer (cx_io c')) = 0).
Proof.
  intros [Hs Hpl]%ur_reached_ok Hf Hst Ht. destruct (ur_ok_good s Hf Hs) as [HG Hm]. rewrite is_stopping_has in Hst.
  destruct (shutdown_filters_plain _ ur_sent now _ _ (strict_waives _) HG Hm Hpl Hst Ht) as ([] & c' & He & Hc'). exists c'. split; [done|].
  rewrite is_stopping_has, is_terminated_has. intros Hx Hy. destruct (Hc' Hx Hy) as (Hsent & Ho & H9).
  assert (awake c') as [Hid|]; [by eapply rests_awake; [eapply stays_shutdown_filters|apply Hs]| |congruence].
  assert (inflight (cx_drv c') = []) as Hin.
  { unfold inflight. destruct (ur_item (cx_drv c')) as [i|] eqn:Hi; [|done]. by rewrite (Hid i Hi). }
  split; [|done]. by rewrite ur_sent_socket, Hin, app_nil_r in Hsent.
Qed.

(** On io_uring the descriptor of a stream is closed at most once, and
    the slot of a stream is freed only when it was closed, the task of the
    stream has returned, its handle was dropped and no drop is queued; the
    next tick of the reactor works off the drops that are queued. *)
Theorem uring_slot_freed_last s :
  ur_reached s -> sy_failed s = false ->
  let d := cx_drv (sy_io s) in
  (closes d <= 1)%nat /\
  (ur_item d = None -> closes d = 1%nat /\ sy_task s = TaskDone /\ io_handle (cx_io (sy_io s)) = false /\ ur_delayed_feed d = []) /\
  (exists d', ur_check_delayed_feed d = Done d' /\ ur_delayed_feed d' = []).
Proof.
  intros [Hs _]%ur_reached_ok Hf d. destruct (ur_ok_owners s Hs) as [Hops Ho]. destruct (ur_ok_good s Hf Hs) as [HG Hm]. split; [|split].
  - pose proof (uw_task _ _ _ Ho). unfold d. lia.
  - intros Hi. destruct Ho as [Ht Hc _ Hh _]. fold d in Ht, Hc, Hh. unfold udropped in Hc, Hh. rewrite Hi in Hc, Hh. specialize (Hc eq_refl).
    split; [done|]. split; [destruct (sy_task s); cbn in Ht; (lia || done)|]. fold (handle_of (sy_io s)).
    split; [destruct (handle_of (sy_io s)); [cbn in Hh; lia|done]|]. destruct (ur_delayed_feed d) as [|x q] eqn:Hq; [done|].
    rewrite (uqueued_pop UrStream _ _ _ Hq) in Ht. rewrite (uqueued_pop UrWeak _ _ _ Hq) in Hh. destruct x; cbn in Ht, Hh; lia.
  - destruct (ur_tick_spec (task_alive (sy_task s)) (sy_acc s) (sy_io s) HG Hm (proj2 Hs)) as ([] & c' & He & _ & _ & _ & Hq).
    unfold ur_lift in He. apply bind_done in He as (x & c1 & [= <- <-] & He). apply bind_done in He as (d' & c2 & Hl & [= <-]).
    unfold liftS in Hl. fold d in Hl. destruct (ur_check_delayed_feed d) as [d2|] eqn:Hd; [|done]. injection Hl as -> <-. by exists d'.
Qed.
End props.

(** ** Concrete programs *)

#[export] Instance test_ring : RingSocket TestSocket := fun bs s => mkTestSocket (tk_sent s ++ bs) (tk_room s) (tk_input s).
#[export] Instance test_ring_laws : RingSocketLaws TestSocket.
Proof. by intros bs s. Qed.
(** The defaults of the environment. *)
#[export] Instance test_env : UringEnv := {| env_zc_size := None; env_max_write_items := None |}.

Abbreviation ExSys := (Sys Z TestLayer (UrDrv Z TestSocket map_slab)) (only parsing).
Definition uex_new (zc : bool) : ExSys := ur_new (Some 1%nat) ex_cfg (mkTestSocket [] 16 []) zc ex_mgr.
Definition uex_state (zc : bool) (ops : list (ur_op () ())) : ExSys :=
  match ur_exec ops (uex_new zc) with Done s => s | Fault _ => uex_new zc end.

Lemma uex_state_eq zc ops s : ur_exec ops (uex_new zc) = Done s -> s = uex_state zc ops.
Proof. intros He. unfold uex_state. by rewrite He. Qed.

Definition cq_sent (n : Z) : Cqe := mkCqe false false false (inl n) [].
(** Three bytes are sent; the kernel takes two of them, and then the third. *)
Definition uex_send : list (ur_op () ()) :=
  [UrTaskPoll 0 7; UrOwner (OpWrite [1; 2; 3]); UrOwner OpSendScheduled; UrTaskPoll 0 7; UrComplete false 3 (cq_sent 2)].
Definition uex_closing : list (ur_op () ()) := uex_send ++ [UrComplete false 4 (cq_sent 1); UrOwner OpClose].
Definition uex_end : list (ur_op () ()) :=
  uex_closing ++ [UrTaskPoll 0 7; UrTaskFinish None; UrOwner OpTerminate; UrTick; UrComplete false 4 (cq_sent 0)].

Ltac uex_reached ops :=
  exists (Some 1%nat), ex_cfg, (mkTestSocket [] 16 []), ex_mgr, ops; split; [reflexivity|split; [repeat constructor|vm_compute; reflexivity]].

Lemma uring_output_in_order_witness : exists s, ur_exec uex_send (uex_new false) = Done s /\
  (ur_terminated s = false ->
   ur_socket (cx_drv (sy_io s)) ++ inflight (cx_drv (sy_io s)) ++ wcontent (io_buffer (cx_io (sy_io s))) 0 = sy_acc s) /\
  ur_terminated s = false /\ ur_socket (cx_drv (sy_io s)) = [1; 2] /\ inflight (cx_drv (sy_io s)) = [3].
Proof.
  destruct (uring_output_in_order (F := Z) (L := TestLayer) (G := Z) (T := map_slab) (Some 1%nat) ex_cfg (mkTestSocket [] 16 []) ex_mgr uex_send)
    as (s & He & Hs); [reflexivity|repeat constructor|]. exists s. split; [exact He|]. split; [exact Hs|].
  rewrite (uex_state_eq false uex_send s He).
  split; [vm_compute; reflexivity|]. split; vm_compute; reflexivity.
Defined.

Lemma uring_close_sends_all_witness : exists c', shutdown_filters 0 (sy_io (uex_state false uex_closing)) = Done (tt, c') /\
  (is_stopping (io_flags (cx_io c')) = true -> is_terminated (io_flags (cx_io c')) = false ->
   ur_socket (cx_drv c') = sy_acc (uex_state false uex_closing) /\ inflight (cx_drv c') = [] /\ out_size (io_buffer (cx_io c')) = 0).
Proof.
  apply (uring_close_sends_all (Item := ()) (Err := ()) 0 (uex_state false uex_closing));
    [uex_reached uex_closing|vm_compute; reflexivity|vm_compute; reflexivity|]. intros d Hd. vm_compute in Hd. discriminate.
Defined.

Lemma uring_slot_freed_last_witness :
  let d := cx_drv (sy_io (uex_state false uex_end)) in
  (closes d <= 1)%nat /\ sy_task (uex_state false uex_end) = TaskDone /\ (exists d', ur_check_delayed_feed d = Done d' /\ ur_delayed_feed d' = []).
Proof.
  destruct (uring_slot_freed_last (Item := ()) (Err := ()) (uex_state false uex_end)) as (Hc & Hf & Hq);
    [uex_reached uex_end|vm_compute; reflexivity|]. split; [exact Hc|]. split; [|exact Hq]. apply Hf. vm_compute. reflexivity.
Defined.

(** ** Zero-copy sends *)

Definition cq_zc (notif : bool) (n : Z) : Cqe := mkCqe false notif (negb notif) (inl n) [].
(** The kernel takes a part of a page without copying it, and announces
    another completion; before that the owner writes another byte. *)
Definition uex_short : list (ur_op () ()) :=
  [UrTaskPoll 0 7; UrOwner (OpWrite (replicate 2000 1)); UrOwner OpSendScheduled; UrTaskPoll 0 7; UrComplete false 3 (cq_zc false 1500);
   UrOwner (OpWriteVectored [[2]])].

(** With zero-copy sends the output is reordered: after a send that took
    a part of its page, and before its notification, the item names no
    operation, so that bytes written then reach the socket ahead of the rest
    of the page. *)
Theorem uring_zero_copy_reorders : exists s,
  ur_exec uex_short (uex_new true) = Done s /\ ur_terminated s = false /\
  sy_acc s = replicate 2000 1 ++ [2] /\ ur_socket (cx_drv (sy_io s)) = replicate 1500 1 ++ [2].
Proof. exists (uex_state true uex_short). do 3 (split; [vm_compute; reflexivity|]). vm_compute. reflexivity. Qed.

(** A page is sent without copying it, the next byte is in flight when the
    notification of the page arrives, and the owner closes the stream. *)
Definition uex_late : list (ur_op () ()) :=
  [UrTaskPoll 0 7; UrOwner (OpWrite (replicate 2000 1)); UrOwner OpSendScheduled; UrTaskPoll 0 7; UrOwner (OpWrite [2]);
   UrComplete false 3 (cq_zc false 2000); UrComplete false 3 (cq_zc true 0); UrOwner OpClose; UrTaskPoll 0 7].

(** With zero-copy sends a graceful close does not wait for the kernel:
    the notification of an earlier page marks the driver as paused while a
    later byte is in flight, and the socket is shut down. *)
Theorem uring_zero_copy_close_early : exists s,
  ur_exec uex_late (uex_new true) = Done s /\ ur_terminated s = false /\ sy_task s = TaskShut /\
  inflight (cx_drv (sy_io s)) = [2] /\ sy_acc s = replicate 2000 1 ++ [2] /\ ur_socket (cx_drv (sy_io s)) = replicate 2000 1.
Proof. exists (uex_state true uex_late). do 5 (split; [vm_compute; reflexivity|]). vm_compute. reflexivity. Qed.
