(* ===== verification/WinStream.v ===== *)
(** * [net::iocp]: the driver of a stream on a completion port

    Models geario/src/net/iocp/stream.rs, ops.rs, the completions of
    reactor.rs and the task of io.rs, for one stream: its slot of the slab,
    its two overlapped operations, the queue of what is done when the storage
    is free again, and the kernel's side, which holds the operations in
    flight.  What the calls of the system return is a list of answers for
    each of [WSARecv], [WSASend] and [CancelIoEx]; a call that finds no answer
    is pending, or a cancellation that was accepted.  The socket is attached
    so that a call that succeeds at once posts no completion.  A completion
    reaches the operation through its address: once the slot is freed this is
    a use of freed memory. *)
From Stdlib Require Import ZArith Lia String.
From stdpp Require Import base numbers list.
From S2P Require Import Prelude Deps Task IoConfig IoFlags IoBuf IoTimers IoState IoRef Polling IoSystem.

(** Flags of an operation, and of a stream. *)
Definition WAITING : Z := 2 ^ 0.
Definition CLOSING : Z := 2 ^ 1.
Definition WIN_CLOSED : Z := 2 ^ 5.
Definition WIN_DROPPED_PRI : Z := 2 ^ 6.
Definition WIN_DROPPED_SEC : Z := 2 ^ 7.
Definition MAX_WRITE_BUFS : nat := 16.

(** ** Errors of the system *)

Definition ERROR_HANDLE_EOF : Z := 38.
Definition ERROR_NETNAME_DELETED : Z := 64.
Definition ERROR_BROKEN_PIPE : Z := 109.
Definition ERROR_NO_DATA : Z := 232.
Definition ERROR_PIPE_NOT_CONNECTED : Z := 233.
Definition ERROR_MORE_DATA : Z := 234.
Definition ERROR_PIPE_CONNECTED : Z := 535.
Definition ERROR_OPERATION_ABORTED : Z := 995.
Definition ERROR_IO_INCOMPLETE : Z := 996.
Definition ERROR_IO_PENDING : Z := 997.
Definition ERROR_NOT_FOUND : Z := 1168.

(** [io::Error::from_raw_os_error] and [raw_os_error]. *)
Definition win_error (code : Z) : IoError := mkIoError (OtherKind code) "".
Definition raw_os_error (e : IoError) : option Z := match err_kind e with OtherKind n => Some n | _ => None end.

(** Failures that are taken for the end of the stream. *)
Definition is_eof_error (code : Z) : bool :=
  bool_decide (code ∈ [ERROR_IO_INCOMPLETE; ERROR_NETNAME_DELETED; ERROR_HANDLE_EOF; ERROR_BROKEN_PIPE; ERROR_PIPE_CONNECTED;
                       ERROR_PIPE_NOT_CONNECTED; ERROR_NO_DATA; ERROR_MORE_DATA]).

Definition winapi_result (code : Z) : Poll (result ()) :=
  if code =? ERROR_IO_PENDING then Pending
  else if is_eof_error code then Ready (inl tt)
  else Ready (inr (win_error code)).

(** What a call returns: a value, or the code of [GetLastError]. *)
Abbreviation answer A := (A + Z)%type (only parsing).
Definition winsock_result {A} (a : answer A) : Poll (result ()) :=
  match a with inl _ => Ready (inl tt) | inr code => winapi_result code end.

(** The result of a completion, as [Reactor::poll_completions] reads it. *)
Definition completion_result {A} (none : A) (a : answer A) : result A :=
  match a with
  | inl x => inl x
  | inr code => if is_eof_error code then inl none else inr (win_error code)
  end.

(** ** State *)

Inductive WinIdType := WinStream | WinWeak.
#[export] Instance win_id_type_eq_dec : EqDecision WinIdType.
Proof. solve_decision. Defined.

(** What is left to a thread that may block: the end of [StreamCtl::shutdown],
    of the handler of completions, and of the drop of a stream. *)
Inductive WinJob := JobShutdown | JobClose | JobDrop.

(** The kernel: what the socket took, the operations in flight, the blocking
    calls that were left to a thread and those that ran (whether they closed
    the socket), and what the next calls return. *)
Record WinKernel := mkWinKernel {
  wk_sent : list byte;
  wk_rd : bool;
  wk_wr : option (list byte);
  wk_jobs : list WinJob;
  wk_log : list bool;
  wk_recvs : list (answer (list byte));
  wk_sends : list (answer Z);
  wk_cancels : list (option Z);
}.

Section state.
Context {G : Type}.

(** [ReadOperation] and [WriteOperation], and whether [close] is set. *)
Record WinOps := mkWinOps {
  wo_rd_flags : G;
  wo_rd_buf : option (list byte);
  wo_wr_flags : G;
  wo_pages : list (option (list byte));
  wo_close : bool;
}.
Record WinItem := mkWinItem { wi_flags : G; wi_ops : WinOps }.

(** [wd_done] is the result of [StreamCtl::shutdown], once there is one. *)
Record WinDrv := mkWinDrv {
  wd_storage : bool;
  wd_item : option WinItem;
  wd_delayed_feed : list WinIdType;
  wd_done : option (option IoError);
  wd_kernel : WinKernel;
}.
End state.
Arguments WinOps G : clear implicits.
Arguments WinItem G : clear implicits.
Arguments WinDrv G : clear implicits.

Section fields.
Context {G : Type}.
Implicit Types (o : WinOps G) (d : WinDrv G) (k : WinKernel).
Definition set_wo_rd (f : G) (b : option (list byte)) o : WinOps G := mkWinOps f b (wo_wr_flags o) (wo_pages o) (wo_close o).
Definition set_wo_wr (f : G) (p : list (option (list byte))) o : WinOps G := mkWinOps (wo_rd_flags o) (wo_rd_buf o) f p (wo_close o).
Definition set_wo_close (b : bool) o : WinOps G := mkWinOps (wo_rd_flags o) (wo_rd_buf o) (wo_wr_flags o) (wo_pages o) b.
Definition set_wi_ops (o : WinOps G) (i : WinItem G) : WinItem G := mkWinItem (wi_flags i) o.
Definition set_wi_flags (f : G) (i : WinItem G) : WinItem G := mkWinItem f (wi_ops i).
Definition set_wd_storage (b : bool) d : WinDrv G := mkWinDrv b (wd_item d) (wd_delayed_feed d) (wd_done d) (wd_kernel d).
Definition set_wd_item (i : option (WinItem G)) d : WinDrv G := mkWinDrv (wd_storage d) i (wd_delayed_feed d) (wd_done d) (wd_kernel d).
Definition set_wd_delayed (q : list WinIdType) d : WinDrv G := mkWinDrv (wd_storage d) (wd_item d) q (wd_done d) (wd_kernel d).
Definition set_wd_done (r : option (option IoError)) d : WinDrv G := mkWinDrv (wd_storage d) (wd_item d) (wd_delayed_feed d) r (wd_kernel d).
Definition set_wd_kernel (k : WinKernel) d : WinDrv G := mkWinDrv (wd_storage d) (wd_item d) (wd_delayed_feed d) (wd_done d) k.

Definition set_wk_sent (s : list byte) k : WinKernel :=
  mkWinKernel s (wk_rd k) (wk_wr k) (wk_jobs k) (wk_log k) (wk_recvs k) (wk_sends k) (wk_cancels k).
Definition set_wk_rd (b : bool) k : WinKernel :=
  mkWinKernel (wk_sent k) b (wk_wr k) (wk_jobs k) (wk_log k) (wk_recvs k) (wk_sends k) (wk_cancels k).
Definition set_wk_wr (w : option (list byte)) k : WinKernel :=
  mkWinKernel (wk_sent k) (wk_rd k) w (wk_jobs k) (wk_log k) (wk_recvs k) (wk_sends k) (wk_cancels k).
Definition set_wk_jobs (j : list WinJob) (l : list bool) k : WinKernel :=
  mkWinKernel (wk_sent k) (wk_rd k) (wk_wr k) j l (wk_recvs k) (wk_sends k) (wk_cancels k).
Definition set_wk_recvs (r : list (answer (list byte))) k : WinKernel :=
  mkWinKernel (wk_sent k) (wk_rd k) (wk_wr k) (wk_jobs k) (wk_log k) r (wk_sends k) (wk_cancels k).
Definition set_wk_sends (r : list (answer Z)) k : WinKernel :=
  mkWinKernel (wk_sent k) (wk_rd k) (wk_wr k) (wk_jobs k) (wk_log k) (wk_recvs k) r (wk_cancels k).
Definition set_wk_cancels (r : list (option Z)) k : WinKernel :=
  mkWinKernel (wk_sent k) (wk_rd k) (wk_wr k) (wk_jobs k) (wk_log k) (wk_recvs k) (wk_sends k) r.
(** [spawn_blocking]. *)
Definition spawn_job (j : WinJob) k : WinKernel := set_wk_jobs (wk_jobs k ++ [j]) (wk_log k) k.
End fields.

(** ** Pages of a send *)

(** The loop that removes written bytes. *)
Fixpoint win_advance (sent : Z) (pages : list (option (list byte))) : list (option (list byte)) :=
  match pages with
  | [] => []
  | None :: pages => None :: pages
  | Some page :: pages =>
      let len := Z.min (zlen page) sent in
      let page := zdrop len page in
      let slot := if zlen page =? 0 then None else Some page in
      let sent := sent - len in
      if sent =? 0 then slot :: pages else slot :: win_advance sent pages
  end.

(** The loops that return unwritten pages, the last page first: up to a page
    that was written, and for all pages.  The result is the buffer, and what
    is left in the slots. *)
Fixpoint return_until (rev_pages : list (option (list byte))) (wrt : list byte) : list byte * list (option (list byte)) :=
  match rev_pages with
  | Some page :: rest => let '(wrt, rest) := return_until rest (page ++ wrt) in (wrt, None :: rest)
  | _ => (wrt, rev_pages)
  end.
Definition return_unwritten (pages : list (option (list byte))) (wrt : list byte) : list byte * list (option (list byte)) :=
  let '(wrt, rest) := return_until (reverse pages) wrt in (wrt, reverse rest).
Definition return_all (pages : list (list byte)) (wrt : list byte) : list byte := foldr app wrt pages.

Section driver.
Context {F : Type} `{!Bitflags F} {L : Type} `{!FilterLayer L} {G : Type} `{!Bitflags G} `{!PageSplit}.

Abbreviation Drv := (WinDrv G) (only parsing).

(** ** Dropping *)

(** The slot is freed; the socket is closed unless it was. *)
Definition win_remove (item : WinItem G) (d : Drv) : Drv :=
  let d := set_wd_item None d in
  if gcontains WIN_CLOSED (wi_flags item) then d else set_wd_kernel (spawn_job JobDrop (wd_kernel d)) d.

Definition win_drop_stream (d : Drv) : outcome Drv :=
  match wd_item d with
  | None => Fault Panic
  | Some item =>
      if gcontains WIN_DROPPED_SEC (wi_flags item) then Done (win_remove item d)
      else Done (set_wd_item (Some (set_wi_flags (ginsert WIN_DROPPED_PRI (wi_flags item)) item)) d)
  end.
Definition win_drop_weak_stream (d : Drv) : outcome Drv :=
  match wd_item d with
  | None => Fault Panic
  | Some item =>
      if gcontains WIN_DROPPED_PRI (wi_flags item) then Done (win_remove item d)
      else Done (set_wd_item (Some (set_wi_flags (ginsert WIN_DROPPED_SEC (wi_flags item)) item)) d)
  end.

(** [Drop] of [StreamCtl] and of [WeakStreamCtl]. *)
Definition win_ctl_drop (d : Drv) : outcome Drv :=
  if wd_storage d then win_drop_stream d else Done (set_wd_delayed (wd_delayed_feed d ++ [WinStream]) d).
Definition win_weak_drop (d : Drv) : outcome Drv :=
  if wd_storage d then win_drop_weak_stream d else Done (set_wd_delayed (wd_delayed_feed d ++ [WinWeak]) d).
#[export] Instance win_drop : HandleDrop Drv := win_weak_drop.

Fixpoint win_feed (q : list WinIdType) (d : Drv) : outcome Drv :=
  match q with
  | [] => Done d
  | id :: q =>
      d ← (match id with WinStream => win_drop_stream | WinWeak => win_drop_weak_stream end) (set_wd_delayed q d);
      win_feed q d
  end.
Definition win_check_delayed_feed (d : Drv) : outcome Drv :=
  match wd_delayed_feed d with
  | [] => Done d
  | q =>
      if wd_storage d then
        d ← win_feed q (set_wd_storage false d);
        Done (set_wd_storage true d)
      else Done d
  end.

Abbreviation IO A := (M (Cx F L Drv) A) (only parsing).

(** [HandleWrapper] has the methods of the trait [Handle]. *)
#[export] Instance win_handle : Handle F L Drv := {
  hd_write := mret tt;
  hd_write_bufs := fun _ => mret None;
  hd_notify := ctx_notify;
}.

Definition win_get {A} (g : Drv -> A) : IO A := getsS (fun c => g (cx_drv c)).
Definition win_mod (g : Drv -> Drv) : IO () := modifyS (fun c => set_drv (g (cx_drv c)) c).
Definition win_lift (g : Drv -> outcome Drv) : IO () := c ← getS; d ← liftS (g (cx_drv c)); modifyS (set_drv d).
Definition win_kernel (g : WinKernel -> WinKernel) : IO () := win_mod (fun d => set_wd_kernel (g (wd_kernel d)) d).
Definition win_upd_ops (g : WinOps G -> WinOps G) : IO () :=
  win_mod (fun d => set_wd_item ((fun i => set_wi_ops (g (wi_ops i)) i) <$> wd_item d) d).
(** The operations of the stream, through a reference to them. *)
Definition win_self : IO (WinOps G) :=
  i ← win_get wd_item; match i with Some i => mret (wi_ops i) | None => failS Undefined end.

(** ** Calls of the system *)

Definition WSARecv : IO (Poll (result (list byte))) :=
  q ← win_get (fun d => wk_recvs (wd_kernel d));
  let a := match q with a :: _ => a | [] => inr ERROR_IO_PENDING end in
  win_kernel (set_wk_recvs (tl q));;
  match winsock_result a with
  | Pending => win_kernel (set_wk_rd true);; mret Pending
  | Ready (inl _) => mret (Ready (inl (match a with inl bs => bs | inr _ => [] end)))
  | Ready (inr e) => mret (Ready (inr e))
  end.

(** The socket takes a prefix of what it is offered. *)
Definition prefix_len (n : Z) (bs : list byte) : Z := Z.max 0 (Z.min n (zlen bs)).
Definition WSASend (bs : list byte) : IO (Poll (result Z)) :=
  q ← win_get (fun d => wk_sends (wd_kernel d));
  let a := match q with a :: _ => a | [] => inr ERROR_IO_PENDING end in
  win_kernel (set_wk_sends (tl q));;
  match winsock_result a with
  | Pending => win_kernel (set_wk_wr (Some bs));; mret Pending
  | Ready (inl _) =>
      let n := match a with inl n => prefix_len n bs | inr _ => 0 end in
      win_kernel (fun k => set_wk_sent (wk_sent k ++ ztake n bs) k);; mret (Ready (inl n))
  | Ready (inr e) => mret (Ready (inr e))
  end.

(** [CancelIoEx], with the error it returns. *)
Definition CancelIoEx : IO (option IoError) :=
  q ← win_get (fun d => wk_cancels (wd_kernel d));
  win_kernel (set_wk_cancels (tl q));;
  mret (match q with Some code :: _ => Some (win_error code) | _ => None end).
(** Errors that tell that the operation is over. *)
Definition cancel_is_over (e : IoError) : bool :=
  bool_decide (raw_os_error e = Some ERROR_NOT_FOUND) || bool_decide (raw_os_error e = Some ERROR_OPERATION_ABORTED).

(** ** [ReadOperation] *)

Definition rd_set_flags (g : G -> G) : IO () := win_upd_ops (fun o => set_wo_rd (g (wo_rd_flags o)) (wo_rd_buf o) o).
Definition rd_set_buf (b : option (list byte)) : IO () := win_upd_ops (fun o => set_wo_rd (wo_rd_flags o) b o).

Definition rd_pause (closing : bool) : IO bool :=
  rd ← win_self;
  if gcontains WAITING (wo_rd_flags rd) then
    r ← CancelIoEx;
    match r with
    | Some err =>
        if cancel_is_over err then (if closing then rd_set_flags (ginsert CLOSING) else mret tt);; mret false
        else
          match wo_rd_buf rd with
          | None => failS Panic
          | Some buf => rd_set_buf None;; ctx_update_read_status buf (inr err);; mret true
          end
    | None => (if closing then rd_set_flags (ginsert CLOSING) else mret tt);; mret false
    end
  else mret true.

Fixpoint rd_read_loop (fuel : nat) : IO () :=
  match fuel with
  | O => failS Diverges
  | S fuel =>
      buf ← ctx_get_read_buf;
      r ← WSARecv;
      match r with
      | Ready (inl data) =>
          (if zlen data =? 0 then ctx_stop None else mret tt);;
          st ← ctx_update_read_status (buf ++ data) (inl (zlen data));
          if status_is_io st && negb (zlen data =? 0) then rd_read_loop fuel else mret tt
      | Ready (inr err) => ctx_update_read_status buf (inr err);; mret tt
      | Pending => rd_set_buf (Some buf);; rd_set_flags (ginsert WAITING)
      end
  end.
(** Each round uses an answer of the system, until there is none. *)
Definition rd_read : IO () :=
  rd ← win_self;
  if gcontains WAITING (wo_rd_flags rd) then mret tt
  else n ← win_get (fun d => length (wk_recvs (wd_kernel d))); rd_read_loop (S n).

(** The result tells whether the stream is being closed. *)
Definition rd_completed (res : result (list byte)) : IO bool :=
  win_self;;
  rd_set_flags (gremove WAITING);;
  rd ← win_self;
  match wo_rd_buf rd with
  | Some buf =>
      rd_set_buf None;;
      st ← (match res with
            | inl data =>
                (if zlen data =? 0 then ctx_stop None else mret tt);;
                ctx_update_read_status (buf ++ data) (inl (zlen data))
            | inr err =>
                if bool_decide (raw_os_error err = Some ERROR_OPERATION_ABORTED) then ctx_update_read_status buf (inl 0)
                else ctx_update_read_status buf (inr err)
            end);
      rd ← win_self;
      if gcontains CLOSING (wo_rd_flags rd) then mret true
      else (if status_is_io st then rd_read else mret tt);; mret false
  | None => mret (gcontains CLOSING (wo_rd_flags rd))
  end.

(** ** [WriteOperation] *)

Definition wr_set_flags (g : G -> G) : IO () := win_upd_ops (fun o => set_wo_wr (g (wo_wr_flags o)) (wo_pages o) o).
Definition wr_set_pages (p : list (option (list byte))) : IO () := win_upd_ops (fun o => set_wo_wr (wo_wr_flags o) p o).

Definition wr_pause : IO bool :=
  wr ← win_self;
  if gcontains WAITING (wo_wr_flags wr) then
    r ← CancelIoEx;
    match r with
    | Some err => if cancel_is_over err then wr_set_flags (ginsert CLOSING);; mret false else mret true
    | None => wr_set_flags (ginsert CLOSING);; mret false
    end
  else mret true.

(** The closure of [write]: the pages it takes, and the send. *)
Definition wr_send (wrt : list byte) : IO (result bool * list byte) :=
  let pages := take MAX_WRITE_BUFS (pages_of wrt) in
  let wrt := concat (drop MAX_WRITE_BUFS (pages_of wrt)) in
  match pages with
  | [] => mret (inl false, wrt)
  | _ =>
      r ← WSASend (concat pages);
      match r with
      | Ready (inl sent) =>
          (if sent =? 0 then ctx_stop None else mret tt);;
          mret (inl true, (return_unwritten (win_advance sent (Some <$> pages)) wrt).1)
      | Ready (inr err) => mret (inr err, return_all pages wrt)
      | Pending => wr_set_pages (Some <$> pages);; wr_set_flags (ginsert WAITING);; mret (inl false, wrt)
      end
  end.

Fixpoint wr_write_loop (fuel : nat) : IO () :=
  match fuel with
  | O => failS Diverges
  | S fuel =>
      wr ← win_self;
      if gcontains WAITING (wo_wr_flags wr) then mret tt
      else
        st ← ctx_with_write_buf wr_send;
        st ← ctx_update_write_status st;
        if status_is_io st then wr_write_loop fuel else mret tt
  end.
Definition wr_write : IO () :=
  n ← win_get (fun d => length (wk_sends (wd_kernel d))); wr_write_loop (S (S n)).

Definition wr_completed (res : result Z) : IO bool :=
  win_self;;
  wr_set_flags (gremove WAITING);;
  st ← (match res with
        | inl sent =>
            (if sent =? 0 then ctx_stop None else mret tt);;
            wr ← win_self;
            wr_set_pages (win_advance sent (wo_pages wr));;
            mret (inl true)
        | inr err => mret (inr err)
        end);
  wr ← win_self;
  rest ← ctx_with_write_buf (fun wrt => let '(wrt, rest) := return_unwritten (wo_pages wr) wrt in mret (rest, wrt));
  wr_set_pages rest;;
  wr ← win_self;
  if gcontains CLOSING (wo_wr_flags wr) then mret true
  else
    st ← ctx_update_write_status st;
    (if status_is_io st then wr_write else mret tt);; mret false.

(** ** [StreamOpsInner::with], and the handler of completions *)

Definition win_with {A} (f : IO A) : IO A :=
  s ← win_get wd_storage;
  if negb s then failS Panic
  else win_mod (set_wd_storage false);; r ← f; win_mod (set_wd_storage true);; mret r.

Definition win_set_flag (n : Z) : IO () :=
  win_mod (fun d => set_wd_item ((fun i => set_wi_flags (ginsert n (wi_flags i)) i) <$> wd_item d) d).

(** [rd_op.pause(true) && wr_op.pause()]: no operation is in flight. *)
Definition win_pause_all : IO bool := r ← rd_pause true; if (r : bool) then wr_pause else mret false.

(** The end of an operation of a stream that is being closed. *)
Definition win_closing : IO () :=
  win_with (
    i ← win_get wd_item;
    match i with
    | None => mret tt
    | Some item =>
        if gcontains WIN_CLOSED (wi_flags item) then mret tt
        else
          idle ← win_pause_all;
          if (idle : bool) then
            o ← win_self;
            if wo_close o then
              win_upd_ops (set_wo_close false);;
              win_set_flag WIN_CLOSED;;
              win_mod (set_wd_done (Some None));;
              win_kernel (spawn_job JobClose)
            else mret tt
          else mret tt
    end).

(** [StreamOpsHandler::completed], for the two operations. *)
Definition win_rd_done (res : result (list byte)) : IO () :=
  closing ← rd_completed res; if (closing : bool) then win_closing else mret tt.
Definition win_wr_done (res : result Z) : IO () :=
  closing ← wr_completed res; if (closing : bool) then win_closing else mret tt.

(** ** [StreamCtl] *)

Definition win_ctl_read : IO () := win_with (i ← win_get wd_item; match i with Some _ => rd_read | None => mret tt end).
Definition win_ctl_write : IO () := win_with (i ← win_get wd_item; match i with Some _ => wr_write | None => mret tt end).
Definition win_ctl_pause : IO () :=
  win_with (i ← win_get wd_item; match i with Some _ => rd_pause false;; mret tt | None => mret tt end).

(** [StreamCtl::shutdown], up to the wait for its result. *)
Definition win_ctl_shutdown : IO () :=
  win_with (
    i ← win_get wd_item;
    match i with
    | None => win_mod (set_wd_done (Some None))
    | Some item =>
        if gcontains WIN_CLOSED (wi_flags item) then win_mod (set_wd_done (Some None))
        else
          idle ← win_pause_all;
          if (idle : bool) then win_set_flag WIN_CLOSED;; win_kernel (spawn_job JobShutdown)
          else win_upd_ops (set_wo_close true)
    end).

(** ** The task of the stream *)

Definition win_poll_readiness (now : Z) (w : waker) : IO (Poll RunStatus) :=
  r ← ctx_poll_read_ready now w;
  read ← (match r with
          | Ready RdyReady => win_ctl_read;; mret false
          | Ready _ => mret true
          | Pending => win_ctl_pause;; mret false
          end);
  r ← ctx_poll_write_ready w;
  write ← (match r with
           | Ready RdyReady => win_ctl_write;; mret Pending
           | Ready RdyShutdown => mret (Ready RunShutdown)
           | Ready RdyTerminate => mret (Ready RunTerminate)
           | Pending => mret Pending
           end);
  mret (if negb read && negb (poll_is_ready write) then Pending
        else if poll_is_ready write then write else Ready RunTerminate).

(** The end of [run], once there is a result. *)
Definition win_task_finish : IO TaskState :=
  r ← win_get wd_done;
  match r with
  | None => mret TaskShut
  | Some err =>
      stopped ← ctx_is_stopped;
      (if (stopped : bool) then mret tt else ctx_stop err);;
      win_lift win_ctl_drop;;
      mret TaskDone
  end.
Definition win_task_flush (flush : bool) (now : Z) (w : waker) : IO TaskState :=
  win_poll_readiness now w;;
  r ← ctx_shutdown flush w;
  match r with Ready _ => win_ctl_shutdown;; win_task_finish | Pending => mret (TaskFlush flush) end.

(** A poll of [run]. *)
Definition win_task_poll (now : Z) (w : waker) (t : TaskState) : IO TaskState :=
  match t with
  | TaskRun =>
      r ← win_poll_readiness now w;
      match r with
      | Pending => mret TaskRun
      | Ready st =>
          stopped ← ctx_is_stopped;
          if (stopped : bool) then win_ctl_shutdown;; win_task_finish
          else win_task_flush (match st with RunShutdown => true | RunTerminate => false end) now w
      end
  | TaskFlush flush => win_task_flush flush now w
  | TaskShut => win_task_finish
  | TaskDone => mret TaskDone
  end.

(** ** [Reactor::poll_completions] *)

(** What is taken from the port: a notification, or a completion, with what
    was received or how much was sent. *)
Inductive WinEvent :=
  | EvNotify
  | EvRead (a : answer (list byte))
  | EvWrite (a : answer Z).

(** Only an operation that is in flight completes; the socket takes what the
    completion of a send tells. *)
Definition win_deliver (ev : WinEvent) : IO () :=
  k ← win_get wd_kernel;
  match ev with
  | EvNotify => mret tt
  | EvRead a => if wk_rd k then win_kernel (set_wk_rd false);; win_rd_done (completion_result [] a) else mret tt
  | EvWrite a =>
      match wk_wr k with
      | None => mret tt
      | Some bs =>
          let res := match completion_result 0 a with inl n => inl (prefix_len n bs) | inr e => inr e end in
          win_kernel (fun k => set_wk_wr None (set_wk_sent (wk_sent k ++ ztake (match res with inl n => n | inr _ => 0 end) bs) k));;
          win_wr_done res
      end
  end.
Fixpoint win_deliver_all (evs : list WinEvent) : IO () :=
  match evs with [] => mret tt | ev :: evs => win_deliver ev;; win_deliver_all evs end.
Definition win_poll_completions (evs : list WinEvent) : IO () :=
  win_deliver_all evs;; win_lift win_check_delayed_feed.

(** A thread runs the next blocking call: [shutdown] and [closesocket] of the
    socket, with the errors they return.  [JobClose] looks at neither. *)
Definition run_job (shut close : option IoError) : IO () :=
  k ← win_get wd_kernel;
  match wk_jobs k with
  | [] => mret tt
  | j :: jobs =>
      let closed := match j with JobClose => true | _ => match shut with None => true | Some _ => false end end in
      win_kernel (set_wk_jobs jobs (wk_log k ++ [closed]));;
      match j with
      | JobShutdown => win_mod (set_wd_done (Some (match shut with Some e => Some e | None => close end)))
      | _ => mret tt
      end
  end.
End driver.

(** [StreamOps::register]. *)
Definition win_register {G : Type} `{!Bitflags G} : WinDrv G :=
  mkWinDrv true (Some (mkWinItem fl_empty (mkWinOps fl_empty None fl_empty [] false))) [] None (mkWinKernel [] false None [] [] [] [] []).

(** ** A stream with this driver *)

Section system.
Context {F : Type} `{!Bitflags F} {L : Type} `{!FilterLayer L} {G : Type} `{!Bitflags G} `{!PageSplit}.
Context {Item Err : Type}.
Abbreviation WSys := (Sys F L (WinDrv G)) (only parsing).

Inductive win_op :=
  | WinOwner (op : io_op Item Err)
  | WinEvents (evs : list WinEvent)
  | WinTaskPoll (now : Z) (w : waker)
  | WinThread (shut close : option IoError)
  | WinAnswers (recvs : list (answer (list byte))) (sends : list (answer Z)) (cancels : list (option Z)).

Definition win_step (op : win_op) (s : WSys) : outcome WSys :=
  match op with
  | WinOwner op => owner_step op s
  | WinEvents evs => plain (win_poll_completions evs) s
  | WinTaskPoll now w => sys_call (win_task_poll now w (sy_task s)) (fun t c => mkSys c t (sy_acc s) (sy_failed s)) s
  | WinThread shut close => plain (run_job shut close) s
  | WinAnswers r sd cn => plain (win_kernel (fun k => set_wk_recvs r (set_wk_sends sd (set_wk_cancels cn k)))) s
  end.
Fixpoint win_exec (ops : list win_op) (s : WSys) : outcome WSys :=
  match ops with
  | [] => Done s
  | op :: ops => s' ← win_step op s; win_exec ops s'
  end.
Definition win_new (id : Id) (cfg : IoConfig) (m : Mgr) : WSys :=
  mkSys (mkCx (io_new id cfg) (Some m) win_register []) TaskRun [] false.
End system.
Arguments win_op : clear implicits.
