(* ===== verification/WinInv.v ===== *)
(** * The invariant of the driver on a completion port

    What a stream has in flight is what its flags say, and what the kernel
    holds of the output was taken from the stream; the task and the handle own
    the slot together, which is freed when nothing is in flight; the close of
    the socket is asked for once.  The operations of a stream touch the driver
    only by the drop of the handle, so they keep everything else of it: a
    driver is pinned to a view of its state. *)
From Stdlib Require Import ZArith Lia.
From stdpp Require Import base numbers list sets.
From S2P Require Import Prelude Deps Task IoConfig IoFlags IoBuf IoChain IoTimers IoState IoInv IoRef IoKeeps IoOutput.
From S2P Require Import Polling PollingSpec IoSystem WinStream.

(** Once the filters are stopped, the driver may cancel what is in flight. *)
#[export] Instance win_waive (G : Type) : Waive (WinDrv G) := WaiveClosing.

(** ** Views *)

Section inv.
Context {G : Type} `{!Bitflags G} `{!BitflagsLaws G}.
Implicit Types (d : WinDrv G) (o : WinOps G) (k : WinKernel).

(** The driver but for its storage and the drops of its owners. *)
Record WinView := mkWinView { v_ops : WinOps G; v_closed : bool; v_done : option (option IoError); v_kernel : WinKernel }.
Implicit Types v : WinView.
Definition view_of d : option WinView :=
  (fun i => mkWinView (wi_ops i) (has 5 (wi_flags i)) (wd_done d) (wd_kernel d)) <$> wd_item d.
Definition set_v_ops o v : WinView := mkWinView o (v_closed v) (v_done v) (v_kernel v).
Definition set_v_kernel k v : WinView := mkWinView (v_ops v) (v_closed v) (v_done v) k.

Definition rd_waits v : bool := has 0 (wo_rd_flags (v_ops v)).
Definition rd_closing v : bool := has 1 (wo_rd_flags (v_ops v)).
Definition wr_waits v : bool := has 0 (wo_wr_flags (v_ops v)).
Definition wr_closing v : bool := has 1 (wo_wr_flags (v_ops v)).
Definition v_close v : bool := wo_close (v_ops v).

(** What was taken from the stream: what the socket took, and what a send in
    flight holds. *)
Definition k_sent k : list byte := wk_sent k ++ default [] (wk_wr k).
Definition win_sent d : list byte := k_sent (wd_kernel d).

(** An answer of [CancelIoEx] that the operation is canceled, or over. *)
Definition benign (a : option Z) : Prop := match a with None => True | Some code => cancel_is_over (win_error code) = true end.

Record vok v : Prop := {
  vk_rd : wk_rd (v_kernel v) = rd_waits v;
  vk_buf : rd_waits v = true -> is_Some (wo_rd_buf (v_ops v));
  vk_wr : match wk_wr (v_kernel v) with
          | Some bs => wr_waits v = true /\ exists pages, wo_pages (v_ops v) = Some <$> pages /\ concat pages = bs /\ Forall (fun p => p <> []) pages
          | None => wr_waits v = false
          end;
  vk_cancels : Forall benign (wk_cancels (v_kernel v));
  vk_closed : v_closed v = true -> rd_waits v = false /\ wr_waits v = false /\ v_close v = false;
  vk_closing : rd_closing v || wr_closing v = true -> v_closed v || v_close v = true;
  vk_done : v_done v <> None -> v_closed v = true;
  vk_job : v_closed v = true -> v_done v = None -> JobShutdown ∈ wk_jobs (v_kernel v);
}.

(** A close that is under way waits for an operation that was canceled. *)
Definition vwait v : Prop :=
  v_close v = true -> rd_waits v && rd_closing v || negb (rd_waits v) && wr_waits v && wr_closing v = true.

(** Where the task of the stream is. *)
Definition vphase (t : TaskState) v : Prop :=
  match t with
  | TaskRun | TaskFlush _ => v_closed v = false /\ v_close v = false
  | TaskShut => v_closed v || v_close v = true
  | TaskDone => v_closed v = true
  end.

(** ** Owners *)

Definition wqueued (t : WinIdType) d : nat := length (filter (fun x => x = t) (wd_delayed_feed d)).
Definition wdropped (n : Z) d : bool := match wd_item d with Some i => has n (wi_flags i) | None => true end.

Record wowners (ctl alive : bool) d : Prop := {
  ww_task : (one ctl + wqueued WinStream d + one (wdropped 6 d) = 1)%nat;
  ww_handle : (one alive + wqueued WinWeak d + one (wdropped 7 d) = 1)%nat;
  ww_jobs : (length (wk_jobs (wd_kernel d)) + length (wk_log (wd_kernel d)) = one (wdropped 5 d))%nat;
  ww_removed : is_Some (wd_item d) -> wdropped 6 d && wdropped 7 d = false;
}.

Lemma wowners_item ctl alive d : wowners ctl alive d -> ctl = true \/ alive = true -> is_Some (wd_item d).
Proof.
  intros [Ht Hh _ _] Ha. unfold wdropped in *. destruct (wd_item d); [by eexists|]. destruct Ha as [-> | ->]; cbn in *; lia.
Qed.

(** ** The two forms of the invariant *)

(** The task is there, and the driver has this view. *)
Definition pinned (b : bool) v (alive : bool) d : Prop := wd_storage d = b /\ view_of d = Some v /\ wowners true alive d.

(** The driver between the steps of a program. *)
Definition wcore (t : TaskState) d : Prop :=
  (forall v, view_of d = Some v -> vok v /\ vwait v /\ vphase t v) /\
  (wd_item d = None -> wk_rd (wd_kernel d) = false /\ wk_wr (wd_kernel d) = None).
Definition wfree (t : TaskState) (alive : bool) d : Prop := wd_storage d = true /\ wowners (task_alive t) alive d /\ wcore t d.

Lemma wfree_pinned t a d : wfree t a d -> task_alive t = true -> exists v, pinned true v a d /\ vok v /\ vwait v /\ vphase t v.
Proof.
  intros (Hs & Ho & Hv & _) Ht. rewrite Ht in Ho. destruct (wowners_item _ _ _ Ho) as [i Hi]; [by left|].
  eexists. unfold pinned. unfold view_of in *. rewrite Hi in *. cbn in *. split; [done|]. by apply Hv.
Qed.
Lemma pinned_wfree t v a d : pinned true v a d -> task_alive t = true -> vok v -> vwait v -> vphase t v -> wfree t a d.
Proof.
  intros (Hs & Hv & Ho) Ht Hok Hwt Hph. split; [done|]. rewrite Ht. split; [done|]. unfold wcore. rewrite Hv. split; [by intros ? [= <-]|].
  intros Hi. unfold view_of in Hv. by rewrite Hi in Hv.
Qed.

(** ** Drops of the handle *)

Lemma wqueued_push t x d : wqueued t (set_wd_delayed (wd_delayed_feed d ++ [x]) d) = (wqueued t d + one (bool_decide (x = t)))%nat.
Proof.
  unfold wqueued. cbn [wd_delayed_feed set_wd_delayed]. rewrite filter_app, length_app, filter_cons, filter_nil. by destruct (decide (x = t)), x, t.
Qed.
Lemma wpush_weak ctl d : wowners ctl true d -> wowners ctl false (set_wd_delayed (wd_delayed_feed d ++ [WinWeak]) d).
Proof.
  intros [Ht Hh Hj Hr]. set (d' := set_wd_delayed _ d). assert (forall n, wdropped n d' = wdropped n d) as Hd by done.
  split; unfold d' at 1; rewrite ?wqueued_push, ?Hd, ?bool_decide_eq_false_2, ?bool_decide_eq_true_2 by done; cbn in *; try done; lia.
Qed.

(** The flags of an owner leave the view alone. *)
Lemma view_flags d i n : wd_item d = Some i -> 0 <= n -> Z.testbit n 5 = false ->
  view_of (set_wd_item (Some (set_wi_flags (ginsert n (wi_flags i)) i)) d) = view_of d.
Proof. intros Hi Hn H5. unfold view_of. rewrite Hi. cbn -[has]. by rewrite has_ginsert, H5, orb_false_r. Qed.
Lemma view_item d i : wd_item d = Some i -> view_of d = Some (mkWinView (wi_ops i) (has 5 (wi_flags i)) (wd_done d) (wd_kernel d)).
Proof. intros Hi. unfold view_of. by rewrite Hi. Qed.
Lemma view_some d v : view_of d = Some v -> exists i, wd_item d = Some i /\ v = mkWinView (wi_ops i) (has 5 (wi_flags i)) (wd_done d) (wd_kernel d).
Proof. unfold view_of. destruct (wd_item d) as [i|]; [|done]. intros [= <-]. by exists i. Qed.

(** The drop of an owner, which may free the slot of a stream that was closed. *)
Definition drops d d' : Prop :=
  wd_storage d' = wd_storage d /\ wd_kernel d' = wd_kernel d /\ wd_done d' = wd_done d /\ wd_delayed_feed d' = wd_delayed_feed d /\
  (view_of d' = view_of d \/ wdropped 5 d = true /\ wd_item d' = None).

Lemma wdrop_weak_spec ctl d : wowners ctl true d -> (wdropped 6 d = true -> wdropped 5 d = true) ->
  exists d', win_drop_weak_stream d = Done d' /\ wowners ctl false d' /\ drops d d'.
Proof.
  intros Ho H65. destruct (wowners_item _ _ _ Ho) as [i Hi]; [by right|]. destruct Ho as [Ht Hh Hj Hr].
  unfold win_drop_weak_stream, win_remove. rewrite Hi, (gcontains_has 6) by done. unfold drops, wdropped in *. rewrite Hi in *. specialize (Hr ltac:(by eexists)).
  destruct (has 6 (wi_flags i)) eqn:H6.
  - rewrite (gcontains_has 5), H65 in * by done. eexists. split; [done|]. rewrite andb_true_l in Hr. rewrite Hr in Hh. split; [|repeat (split; [done|]); by right].
    split; unfold wdropped; cbn [wd_item set_wd_item]; try done. unfold wqueued in *. cbn in *. lia.
  - eexists. split; [done|]. split; [|repeat (split; [done|]); left; by apply view_flags].
    destruct (has 7 (wi_flags i)) eqn:H7; [cbn in Hh; lia|].
    split; unfold wdropped; cbn [wd_item set_wd_item wi_flags set_wi_flags]; rewrite ?(has_ginsert 128), ?H6, ?H7 by done; cbn -[has]; try done;
      rewrite ?orb_false_r; unfold wqueued in *; cbn -[has] in *; lia.
Qed.
Lemma wdrop_stream_spec alive d : wowners true alive d -> wdropped 5 d = true ->
  exists d', win_drop_stream d = Done d' /\ wowners false alive d' /\ drops d d'.
Proof.
  intros Ho H5. destruct (wowners_item _ _ _ Ho) as [i Hi]; [by left|]. destruct Ho as [Ht Hh Hj Hr].
  unfold win_drop_stream, win_remove. rewrite Hi, (gcontains_has 7) by done. unfold drops, wdropped in *. rewrite Hi in *. specialize (Hr ltac:(by eexists)).
  destruct (has 6 (wi_flags i)) eqn:H6; [cbn in Ht; lia|]. destruct (has 7 (wi_flags i)) eqn:H7.
  - rewrite (gcontains_has 5), H5 by done. eexists. split; [done|]. split; [|repeat (split; [done|]); by right].
    split; unfold wdropped; cbn [wd_item set_wd_item]; rewrite ?H5 in *; try done. unfold wqueued in *. cbn in *. lia.
  - eexists. split; [done|]. split; [|repeat (split; [done|]); left; by apply view_flags].
    split; unfold wdropped; cbn [wd_item set_wd_item wi_flags set_wi_flags]; rewrite ?(has_ginsert 64), ?H6, ?H7 by done; cbn -[has]; try done;
      rewrite ?orb_false_r; unfold wqueued in *; cbn -[has] in *; lia.
Qed.

(** A stream whose task has returned has nothing in flight. *)
Lemma closed_idle v : vok v -> v_closed v = true -> wk_rd (v_kernel v) = false /\ wk_wr (v_kernel v) = None.
Proof.
  intros Hok Hcl. destruct (vk_closed _ Hok Hcl) as (Hr & Hw & _). rewrite (vk_rd _ Hok). split; [done|].
  pose proof (vk_wr _ Hok) as Hwr. destruct (wk_wr (v_kernel v)) as [bs|]; [|done]. by destruct Hwr as [? _]; congruence.
Qed.
Lemma wcore_drops t d d' : wcore t d -> is_Some (wd_item d) -> drops d d' -> wcore t d'.
Proof.
  intros [Hv Hn] [i Hi] (_ & Hk & _ & _ & [Hv'|[H5 Hi']]).
  - unfold wcore. rewrite Hv'. split; [done|]. intros Hx. unfold view_of in Hv'. by rewrite Hx, Hi in Hv'.
  - unfold wcore, view_of. rewrite Hi', Hk. split; [done|]. intros _. pose proof (view_item d i Hi) as Hvi. destruct (Hv _ Hvi) as (Hok & _ & _).
    unfold wdropped in H5. rewrite Hi in H5. by destruct (closed_idle _ Hok H5).
Qed.

Lemma pinned_weak_drop b v d : pinned b v true d -> exists d', win_weak_drop d = Done d' /\ pinned b v false d'.
Proof.
  intros (Hs & Hv & Ho). unfold win_weak_drop. destruct (wd_storage d) eqn:Hst.
  - assert (wdropped 6 d = false) as H6 by (destruct Ho as [Ht _ _ _]; destruct (wdropped 6 d); [cbn in Ht; lia|done]).
    destruct (wdrop_weak_spec true d Ho) as (d' & Hd & Ho' & Hs' & _ & _ & _ & Hv'); [by rewrite H6|].
    exists d'. split; [done|]. split; [by rewrite Hs', Hst|]. split; [|done]. destruct Hv' as [->|[_ Hx]]; [done|].
    destruct (wowners_item _ _ _ Ho') as [i Hi]; [by left|]. congruence.
  - eexists. split; [done|]. split; [cbn; congruence|]. split; [done|]. by apply wpush_weak.
Qed.
Lemma wfree_weak_drop t d : wfree t true d -> exists d', win_weak_drop d = Done d' /\ wfree t false d'.
Proof.
  intros (Hs & Ho & Hc). unfold win_weak_drop. rewrite Hs. destruct (wowners_item _ _ _ Ho) as [i Hi]; [by right|].
  destruct (wdrop_weak_spec _ d Ho) as (d' & Hd & Ho' & Hdr).
  { intros H6. destruct (proj1 Hc _ (view_item d i Hi)) as (_ & _ & Hph). destruct Ho as [Ht _ _ _]. rewrite H6 in Ht.
    unfold wdropped. rewrite Hi. by destruct t; cbn in Ht; (lia || apply Hph). }
  exists d'. split; [done|]. split; [|split; [done|by eapply wcore_drops]]. destruct Hdr as [-> _]. done.
Qed.
#[export] Instance pinned_drop b v : DropLaws (pinned b v).
Proof. intros d Hd. by apply pinned_weak_drop. Qed.
#[export] Instance wfree_drop t : DropLaws (wfree t).
Proof. intros d Hd. by apply wfree_weak_drop. Qed.
End inv.
Arguments WinView G : clear implicits.

(** ** Steps of a stream whose driver is pinned *)

Section steps.
Context {F : Type} `{!Bitflags F} `{!BitflagsLaws F} {L : Type} `{!FilterLayer L} `{!FilterLayerLaws L}.
Context {G : Type} `{!Bitflags G} `{!BitflagsLaws G} `{!PageSplit} `{!PageSplitLaws}.

Abbreviation Drv := (WinDrv G) (only parsing).
Implicit Types (c : Cx F L Drv) (acc : list byte) (d : Drv) (v : WinView G) (b : bool).

#[export] Instance pinned_laws b v : HandleLaws (F := F) (L := L) (pinned (G := G) b v) win_sent.
Proof. split; [apply pinned_drop|by intros; apply runs_ret|]. intros acc bufs c HG _ _ _. by apply runs_ret. Qed.
#[export] Instance wfree_laws t : HandleLaws (F := F) (L := L) (wfree (G := G) t) win_sent.
Proof. split; [apply wfree_drop|by intros; apply runs_ret|]. intros acc bufs c HG _ _ _. by apply runs_ret. Qed.

Definition viewed b v acc c0 c : Prop := Good (pinned b v) win_sent true acc c /\ held c0 c /\ is_Some (cx_mgr c).

Lemma viewed_drv b v acc c0 c : viewed b v acc c0 c -> exists a, pinned b v a (cx_drv c).
Proof. intros [[[[_ _ _ Hd _] _] _] _]. by eexists. Qed.
Lemma pinned_kernel b v a d : pinned b v a d -> wd_kernel d = v_kernel v.
Proof. by intros (_ & (i & _ & ->)%view_some & _). Qed.

Lemma viewed_keeps {A} b v acc c0 c (op : M (Cx F L Drv) A) (P : A -> Cx F L Drv -> Prop) :
  keeps (pinned b v) win_sent op -> viewed b v acc c0 c -> (forall a c', viewed b v acc c0 c' -> P a c') -> runs op c P.
Proof.
  intros Hk (HG & Hh & Hm) HP. eapply runs_conseq; [by apply Hk|]. intros a c' [HG' K]. apply HP. split; [done|]. split; [by etrans|by apply K].
Qed.

(** The driver changes, and with it its view. *)
Lemma viewed_change b v b' v' acc c0 c d' :
  viewed b v acc c0 c -> (forall a, pinned b v a (cx_drv c) -> pinned b' v' a d') ->
  k_sent (v_kernel v') = k_sent (v_kernel v) -> viewed b' v' acc c0 (set_drv d' c).
Proof.
  intros Hvw Hp Hs. destruct (viewed_drv _ _ _ _ _ Hvw) as [a Ha]. destruct Hvw as (HG & Hh & Hm).
  split; [|split; [|done]]; [|etrans; [done|by apply kept_held, kept_flags]].
  apply (driver_change (pinned b v) _ win_sent); [done|done|]. unfold win_sent.
  by rewrite (pinned_kernel _ _ _ _ (Hp a Ha)), (pinned_kernel _ _ _ _ Ha).
Qed.

Lemma pinned_ops b v a d g :
  pinned b v a d -> pinned b (set_v_ops (g (v_ops v)) v) a (set_wd_item ((fun i => set_wi_ops (g (wi_ops i)) i) <$> wd_item d) d).
Proof.
  intros (Hs & (i & Hi & ->)%view_some & [Ht Hh Hj Hr]). rewrite Hi. split; [done|]. split; [done|].
  unfold wdropped in *. rewrite Hi in *. split; unfold wdropped; cbn [wd_item set_wd_item fmap option_fmap option_map wi_flags set_wi_ops]; try done.
  intros _. by apply Hr.
Qed.
Lemma pinned_set_kernel b v a d k :
  pinned b v a d -> length (wk_jobs k) = length (wk_jobs (v_kernel v)) -> length (wk_log k) = length (wk_log (v_kernel v)) ->
  pinned b (set_v_kernel k v) a (set_wd_kernel k d).
Proof.
  intros (Hs & (i & Hi & ->)%view_some & [Ht Hh Hj Hr]) E1 E2. split; [done|]. split; [unfold view_of; cbn; by rewrite Hi|].
  split; try done. cbn in *. by rewrite E1, E2.
Qed.
Lemma pinned_storage b b' v a d : pinned b v a d -> pinned b' v a (set_wd_storage b' d).
Proof. intros (Hs & Hv & [? ? ? ?]). by split; [|split]. Qed.

Lemma runs_upd_ops b v acc c0 c g (P : () -> Cx F L Drv -> Prop) :
  viewed b v acc c0 c -> (forall c', viewed b (set_v_ops (g (v_ops v)) v) acc c0 c' -> P tt c') -> runs (win_upd_ops g) c P.
Proof. intros Hv HP. apply runs_modify, HP. eapply viewed_change; [done| |done]. intros a. apply pinned_ops. Qed.
Lemma runs_kernel b v acc c0 c g (P : () -> Cx F L Drv -> Prop) :
  viewed b v acc c0 c -> wk_jobs (g (v_kernel v)) = wk_jobs (v_kernel v) -> wk_log (g (v_kernel v)) = wk_log (v_kernel v) ->
  k_sent (g (v_kernel v)) = k_sent (v_kernel v) ->
  (forall c', viewed b (set_v_kernel (g (v_kernel v)) v) acc c0 c' -> P tt c') -> runs (win_kernel g) c P.
Proof.
  intros Hv E1 E2 Es HP. apply runs_modify, HP. eapply viewed_change; [done| |done]. intros a Ha. rewrite (pinned_kernel _ _ _ _ Ha).
  apply pinned_set_kernel; [done|by rewrite E1|by rewrite E2].
Qed.
Lemma runs_self b v acc c0 c (P : WinOps G -> Cx F L Drv -> Prop) : viewed b v acc c0 c -> P (v_ops v) c -> runs win_self c P.
Proof.
  intros (a & _ & (i & Hi & ->)%view_some & _)%viewed_drv HP. apply runs_bind, runs_gets. rewrite Hi. by apply runs_ret.
Qed.
Lemma runs_get_kernel {A} b v acc c0 c (g : WinKernel -> A) (P : A -> Cx F L Drv -> Prop) :
  viewed b v acc c0 c -> P (g (v_kernel v)) c -> runs (win_get (fun d => g (wd_kernel d))) c P.
Proof. intros [a Ha]%viewed_drv HP. apply runs_gets. by rewrite (pinned_kernel _ _ _ _ Ha). Qed.

#[local] Hint Extern 1 (keeps _ _ (ctx_stop _)) => apply keeps_terminate; apply _ : keeps.
#[local] Hint Extern 1 (keeps _ _ (ctx_update_read_status _ _)) => apply update_read_status_keeps; apply _ : keeps.
#[local] Hint Extern 1 (keeps _ _ ctx_get_read_buf) => apply get_read_buf_keeps; apply _ : keeps.
#[local] Hint Extern 1 (keeps _ _ ctx_is_stopped) => apply keeps_reads, reads_flag : keeps.

(** ** Reading *)

(** What the operations of a stream leave alone. *)
Definition same_end v v' : Prop :=
  v_closed v' = v_closed v /\ v_done v' = v_done v /\ v_close v' = v_close v /\
  rd_closing v' = rd_closing v /\ wr_closing v' = wr_closing v /\
  wk_jobs (v_kernel v') = wk_jobs (v_kernel v).
#[export] Instance same_end_preorder : PreOrder same_end.
Proof. split; [by repeat split|]. intros v1 v2 v3 (?&?&?&?&?&?) (?&?&?&?&?&?). repeat split; congruence. Qed.
Lemma same_end_phase t v v' : same_end v v' -> vphase t v -> vphase t v'.
Proof. intros (E1 & _ & E2 & _). unfold vphase. by rewrite E1, E2. Qed.

Lemma wsarecv_spec b v acc c0 c (P : Poll (result (list byte)) -> Cx F L Drv -> Prop) :
  viewed b v acc c0 c ->
  let k := set_wk_recvs (tl (wk_recvs (v_kernel v))) (v_kernel v) in
  (forall r c', viewed b (set_v_kernel k v) acc c0 c' -> wk_recvs (v_kernel v) <> [] -> P (Ready r) c') ->
  (forall c', viewed b (set_v_kernel (set_wk_rd true k) v) acc c0 c' -> P Pending c') -> runs WSARecv c P.
Proof.
  intros Hv k HR HP. unfold WSARecv. apply runs_bind, (runs_get_kernel b v acc c0 c); [done|].
  apply runs_bind. apply (runs_kernel b v acc c0 c); [done..|]. fold k. intros c1 Hv1.
  assert (runs (win_kernel (set_wk_rd true);; mret Pending) c1 P) as Hpend.
  { apply runs_bind. apply (runs_kernel b _ acc c0 c1 _ _ Hv1); [done..|]. intros c2 Hv2. by apply runs_ret, HP. }
  destruct (wk_recvs (v_kernel v)) as [|[bs|code] q] eqn:Hq; [done|by apply runs_ret, HR|].
  cbn [winsock_result]. unfold winapi_result. destruct (code =? ERROR_IO_PENDING); [done|]. destruct (is_eof_error code); by apply runs_ret, HR.
Qed.

Lemma vok_recvs q v : vok v -> vok (set_v_kernel (set_wk_recvs q (v_kernel v)) v).
Proof. by intros []. Qed.
(** A receive is in flight. *)
Definition rd_started buf v : WinView G :=
  set_v_kernel (set_wk_rd true (v_kernel v)) (set_v_ops (set_wo_rd (ginsert WAITING (wo_rd_flags (v_ops v))) (Some buf) (v_ops v)) v).
Lemma vok_rd_started buf v : vok v -> v_closed v = false -> vok (rd_started buf v) /\ same_end v (rd_started buf v).
Proof.
  intros [Hrd Hbuf Hwr Hcn Hcl Hclosing Hdn Hj] Hc0.
  assert (rd_waits (rd_started buf v) = true) as Hw by (unfold rd_waits, rd_started; cbn -[has]; rewrite (has_ginsert WAITING) by done; apply orb_true_r).
  assert (rd_closing (rd_started buf v) = rd_closing v) as Hk by (unfold rd_closing, rd_started; cbn -[has]; rewrite (has_ginsert WAITING) by done; apply orb_false_r).
  split; [|by repeat split]. split; rewrite ?Hw, ?Hk; try done. intros Hx. change (v_closed v = true) in Hx. congruence.
Qed.

Lemma rd_loop_spec n b v acc c0 c :
  viewed b v acc c0 c -> vok v -> v_closed v = false -> (length (wk_recvs (v_kernel v)) < n)%nat ->
  runs (rd_read_loop n) c (fun _ c' => exists v', viewed b v' acc c0 c' /\ vok v' /\ same_end v v').
Proof.
  revert v c. induction n as [|n IH]; intros v c Hv Hok Hcl Hn; [lia|]. cbn [rd_read_loop]. apply runs_bind.
  eapply (viewed_keeps b v); [apply get_read_buf_keeps; apply _|exact Hv|]. intros buf c1 Hv1. apply runs_bind.
  apply (wsarecv_spec b v acc c0 c1); [done|..].
  - set (v' := set_v_kernel _ v). assert (vok v') as Hok' by (by apply vok_recvs). assert (same_end v v') as Hse by (by repeat split).
    intros [data|e] c2 Hv2 Hne.
    + apply runs_bind. apply (viewed_keeps b v' acc c0); [|done|].
      { keep. }
      intros [] c3 Hv3. apply runs_bind. eapply (viewed_keeps b v'); [apply update_read_status_keeps; apply _|exact Hv3|]. intros st c4 Hv4.
      destruct (_ && _); [|by apply runs_ret; exists v'].
      eapply runs_conseq; [apply (IH v'); [done..|]|].
      { cbn. destruct (wk_recvs (v_kernel v)); [done|]. cbn in *. lia. }
      intros [] c5 (v'' & Hv'' & Hok'' & Hse''). exists v''. split; [done|]. split; [done|by etrans].
    + apply runs_bind. eapply (viewed_keeps b v'); [apply update_read_status_keeps; apply _|exact Hv2|]. intros st c3 Hv3.
      apply runs_ret. by exists v'.
  - intros c2 Hv2. apply runs_bind. eapply runs_upd_ops; [exact Hv2|]. intros c3 Hv3. eapply runs_upd_ops; [exact Hv3|]. intros c4 Hv4.
    set (v1 := set_v_kernel (set_wk_recvs (tl (wk_recvs (v_kernel v))) (v_kernel v)) v).
    exists (rd_started buf v1). split; [exact Hv4|]. destruct (vok_rd_started buf v1) as [? ?]; [by apply vok_recvs|done..].
Qed.

Lemma rd_read_spec b v acc c0 c :
  viewed b v acc c0 c -> vok v -> v_closed v = false ->
  runs rd_read c (fun _ c' => exists v', viewed b v' acc c0 c' /\ vok v' /\ same_end v v').
Proof.
  intros Hv Hok Hcl. unfold rd_read. apply runs_bind, (runs_self b v acc c0 c); [done|].
  destruct (gcontains _ _); [apply runs_ret; by exists v|]. apply runs_bind, (runs_get_kernel b v acc c0 c (fun k => length (wk_recvs k))); [done|].
  by apply rd_loop_spec; try done; lia.
Qed.

(** ** Cancellations *)

Definition popped v : WinView G := set_v_kernel (set_wk_cancels (tl (wk_cancels (v_kernel v))) (v_kernel v)) v.
Definition rd_marked v : WinView G :=
  set_v_ops (set_wo_rd (ginsert CLOSING (wo_rd_flags (v_ops v))) (wo_rd_buf (v_ops v)) (v_ops v)) v.
Definition wr_marked v : WinView G :=
  set_v_ops (set_wo_wr (ginsert CLOSING (wo_wr_flags (v_ops v))) (wo_pages (v_ops v)) (v_ops v)) v.

Lemma cancel_spec b v acc c0 c (P : option IoError -> Cx F L Drv -> Prop) :
  viewed b v acc c0 c -> vok v ->
  (forall r c', viewed b (popped v) acc c0 c' -> (forall e, r = Some e -> cancel_is_over e = true) -> P r c') -> runs CancelIoEx c P.
Proof.
  intros Hv Hok HP. unfold CancelIoEx. apply runs_bind, (runs_get_kernel b v acc c0 c); [done|].
  apply runs_bind. apply (runs_kernel b v acc c0 c); [done..|]. intros c1 Hv1. apply runs_ret, HP; [done|].
  pose proof (vk_cancels _ Hok) as Hcn. destruct Hcn as [|[code|] q Hb _]; [done| |done]. by intros e [= <-].
Qed.

Lemma rd_pause_spec closing b v acc c0 c :
  viewed b v acc c0 c -> vok v ->
  runs (rd_pause closing) c (fun r c' => r = negb (rd_waits v) /\
    viewed b (if rd_waits v then (if closing then rd_marked (popped v) else popped v) else v) acc c0 c').
Proof.
  intros Hv Hok. unfold rd_pause. apply runs_bind, (runs_self b v acc c0 c); [done|]. rewrite (gcontains_has 0) by done. fold (rd_waits v).
  destruct (rd_waits v); [|by apply runs_ret]. apply runs_bind. apply (cancel_spec b v acc c0 c); [done..|]. intros r c1 Hv1 Hr.
  assert (runs ((if closing then rd_set_flags (ginsert CLOSING) else mret tt);; mret false) c1
    (fun r c' => r = negb true /\ viewed b (if closing then rd_marked (popped v) else popped v) acc c0 c')) as Hmark.
  { apply runs_bind. destruct closing; [|by apply runs_ret, runs_ret]. eapply runs_upd_ops; [exact Hv1|]. intros c2 Hv2. by apply runs_ret. }
  destruct r as [e|]; [rewrite (Hr e eq_refl)|]; done.
Qed.
Lemma wr_pause_spec b v acc c0 c :
  viewed b v acc c0 c -> vok v ->
  runs wr_pause c (fun r c' => r = negb (wr_waits v) /\ viewed b (if wr_waits v then wr_marked (popped v) else v) acc c0 c').
Proof.
  intros Hv Hok. unfold wr_pause. apply runs_bind, (runs_self b v acc c0 c); [done|]. rewrite (gcontains_has 0) by done. fold (wr_waits v).
  destruct (wr_waits v); [|by apply runs_ret]. apply runs_bind. apply (cancel_spec b v acc c0 c); [done..|]. intros r c1 Hv1 Hr.
  assert (runs (wr_set_flags (ginsert CLOSING);; mret false) c1 (fun r c' => r = negb true /\ viewed b (wr_marked (popped v)) acc c0 c')) as Hmark.
  { apply runs_bind. eapply runs_upd_ops; [exact Hv1|]. intros c2 Hv2. by apply runs_ret. }
  destruct r as [e|]; [rewrite (Hr e eq_refl)|]; done.
Qed.

(** What is canceled when the stream is closed. *)
Definition halted v : WinView G :=
  if rd_waits v then rd_marked (popped v) else if wr_waits v then wr_marked (popped v) else v.
Lemma pause_all_spec b v acc c0 c :
  viewed b v acc c0 c -> vok v ->
  runs win_pause_all c (fun r c' => r = negb (rd_waits v || wr_waits v) /\ viewed b (halted v) acc c0 c').
Proof.
  intros Hv Hok. unfold win_pause_all, halted. apply runs_bind. eapply runs_conseq; [by apply (rd_pause_spec true b v acc c0)|].
  intros r c1 [-> Hv1]. destruct (rd_waits v); [by apply runs_ret|]. by apply wr_pause_spec.
Qed.

(** ** Closing *)

Definition with_close (x : bool) v : WinView G := set_v_ops (set_wo_close x (v_ops v)) v.

(** An operation in flight was canceled, and the close waits for it. *)
Lemma vok_halted v : vok v -> v_closed v = false -> rd_waits v || wr_waits v = true -> vok (with_close true (halted v)) /\ vwait (with_close true (halted v)).
Proof.
  intros [Hrd Hbuf Hwr Hcn Hcl Hclosing Hdn Hj] Hc Hw.
  assert (v_done v = None) as Hnone by (destruct (v_done v); [|done]; by rewrite Hdn in Hc).
  assert (Forall benign (tl (wk_cancels (v_kernel v)))) as Hcn' by (by destruct Hcn).
  unfold halted. destruct (rd_waits v) eqn:Hr; [|destruct (wr_waits v) eqn:Hwt; [|done]].
  - assert (rd_waits (with_close true (rd_marked (popped v))) = true) as Er
      by (unfold rd_waits in *; cbn -[has]; by rewrite (has_ginsert CLOSING), Hr by done).
    assert (rd_closing (with_close true (rd_marked (popped v))) = true) as Ec
      by (unfold rd_closing; cbn -[has]; rewrite (has_ginsert CLOSING) by done; apply orb_true_r).
    split; [|by unfold vwait; rewrite Er, Ec]. split; rewrite ?Er, ?Ec; try done; cbn -[has] in *; try congruence. by rewrite orb_true_r.
  - assert (wr_waits (with_close true (wr_marked (popped v))) = true) as Er
      by (unfold wr_waits in *; cbn -[has]; by rewrite (has_ginsert CLOSING), Hwt by done).
    assert (wr_closing (with_close true (wr_marked (popped v))) = true) as Ec
      by (unfold wr_closing; cbn -[has]; rewrite (has_ginsert CLOSING) by done; apply orb_true_r).
    assert (rd_waits (with_close true (wr_marked (popped v))) = false) as Ed by (exact Hr).
    split; [|by unfold vwait; rewrite Er, Ec, Ed].
    split; rewrite ?Er, ?Ec, ?Ed; try done; cbn -[has] in *; try congruence. by rewrite !orb_true_r.
Qed.

Lemma runs_get_item b v acc c0 c (P : option (WinItem G) -> Cx F L Drv -> Prop) :
  viewed b v acc c0 c -> (forall i, wi_ops i = v_ops v -> has 5 (wi_flags i) = v_closed v -> P (Some i) c) -> runs (win_get wd_item) c P.
Proof. intros (a & _ & (i & Hi & ->)%view_some & _)%viewed_drv HP. apply runs_gets. rewrite Hi. by apply HP. Qed.

Lemma win_with_spec {A} v acc c0 c (f : M (Cx F L Drv) A) (R : A -> WinView G -> Prop) :
  viewed true v acc c0 c ->
  (forall c1, viewed false v acc c0 c1 -> runs f c1 (fun a c2 => exists v', viewed false v' acc c0 c2 /\ R a v')) ->
  runs (win_with f) c (fun a c' => exists v', viewed true v' acc c0 c' /\ R a v').
Proof.
  intros Hv Hf. destruct (viewed_drv _ _ _ _ _ Hv) as (a & Hs & _). unfold win_with. apply runs_bind, runs_gets. rewrite Hs.
  apply runs_bind, runs_modify, runs_bind. eapply runs_conseq; [apply Hf|].
  { eapply viewed_change; [exact Hv|intros; by eapply pinned_storage|done]. }
  intros r c1 (v' & Hv' & HR). apply runs_bind, runs_modify, runs_ret. exists v'. split; [|done].
  eapply viewed_change; [exact Hv'|intros; by eapply pinned_storage|done].
Qed.
End steps.
