(* ===== verification/WinSteps.v ===== *)
(** * The operations of the driver on a completion port keep its invariant

    The end of a stream, sends, completions, and the task of the stream. *)
From Stdlib Require Import ZArith Lia.
From stdpp Require Import base numbers list sets.
From S2P Require Import Prelude Deps Task IoConfig IoFlags IoBuf IoChain IoTimers IoState IoInv IoRef IoKeeps IoOutput.
From S2P Require Import Polling PollingSpec IoSystem WinStream WinInv.

(** ** Pages *)

Definition slots (pages : list (option (list byte))) : list byte := concat (default [] <$> pages).
(** Written pages, then pages with something to write. *)
Definition tidy (pages : list (option (list byte))) : Prop :=
  exists n ps, pages = replicate n None ++ (Some <$> ps) /\ Forall (fun p => p <> []) ps.

Lemma slots_some ps : slots (Some <$> ps) = concat ps.
Proof. unfold slots. rewrite <- list_fmap_compose. f_equal. induction ps as [|p ps IH]; [done|]. cbn. by f_equal. Qed.

Lemma win_advance_spec n ps :
  Forall (fun p => p <> []) ps -> 0 <= n <= zlen (concat ps) ->
  tidy (win_advance n (Some <$> ps)) /\ slots (win_advance n (Some <$> ps)) = zdrop n (concat ps).
Proof.
  intros Hps. revert n. induction Hps as [|p ps Hp Hps IH]; intros n Hn.
  { split; [by exists 0%nat, []|]. cbn. unfold zdrop. by rewrite drop_nil. }
  rewrite fmap_cons. cbn [win_advance concat] in *. rewrite zlen_app in Hn. zlen_pos. assert (0 < zlen p) as Hpos by (destruct p; [done|]; rewrite zlen_cons; zlia).
  destruct (Z.eqb_spec (zlen (zdrop (Z.min (zlen p) n) p)) 0) as [Hz|Hz]; rewrite zlen_zdrop in Hz.
  - destruct (Z.eqb_spec (n - Z.min (zlen p) n) 0) as [He|He].
    + split; [by exists 1%nat, ps|]. change (slots (None :: (Some <$> ps))) with (slots (Some <$> ps)). rewrite slots_some, zdrop_app_ge by lia.
      by replace (n - zlen p) with 0 by lia.
    + destruct (IH (n - Z.min (zlen p) n)) as [(m & qs & Hq & Hf) Hs]; [lia|]. split.
      * exists (S m), qs. by rewrite Hq.
      * change (slots (None :: ?x)) with (slots x). rewrite Hs, zdrop_app_ge by lia. by replace (Z.min (zlen p) n) with (zlen p) by lia.
  - rewrite (proj2 (Z.eqb_eq _ _)) by lia. replace (Z.min (zlen p) n) with n in * by lia. split.
    + exists 0%nat, (zdrop n p :: ps). split; [done|]. constructor; [|done]. intros E. apply (f_equal zlen) in E. rewrite zlen_zdrop in E. change (zlen []) with 0 in E. lia.
    + change (slots (Some ?x :: ?y)) with (x ++ slots y). by rewrite slots_some, zdrop_app_le by lia.
Qed.

Lemma return_until_spec qs rest wrt :
  (forall p q, rest <> Some p :: q) ->
  return_until ((Some <$> qs) ++ rest) wrt = (concat (reverse qs) ++ wrt, replicate (length qs) None ++ rest).
Proof.
  intros Hr. revert wrt. induction qs as [|q qs IH]; intros wrt.
  - destruct rest as [|[p|] rest]; [done|by destruct (Hr p rest)|done].
  - rewrite fmap_cons, <- app_comm_cons. cbn [return_until]. rewrite IH, reverse_cons, concat_app. cbn. by rewrite app_nil_r, <- app_assoc.
Qed.
Lemma return_unwritten_spec pages wrt : tidy pages ->
  (return_unwritten pages wrt).1 = slots pages ++ wrt /\ (return_unwritten pages wrt).2 = replicate (length pages) None.
Proof.
  intros (n & ps & -> & _). unfold return_unwritten. rewrite reverse_app, <- fmap_reverse, reverse_replicate.
  rewrite return_until_spec by (by destruct n). cbn. rewrite length_reverse, reverse_involutive. split.
  - unfold slots. rewrite fmap_app, concat_app, fmap_replicate. cbn. fold (slots (Some <$> ps)). rewrite slots_some.
    f_equal. assert (concat (replicate n ([] : list byte)) = []) as -> by (by induction n). done.
  - rewrite <- replicate_add, reverse_replicate, length_app, length_replicate, length_fmap. f_equal. lia.
Qed.
Lemma return_all_concat pages wrt : return_all pages wrt = concat pages ++ wrt.
Proof. unfold return_all. induction pages as [|p ps IH]; [done|]. cbn. by rewrite IH, app_assoc. Qed.

Section steps.
Context {F : Type} `{!Bitflags F} `{!BitflagsLaws F} {L : Type} `{!FilterLayer L} `{!FilterLayerLaws L}.
Context {G : Type} `{!Bitflags G} `{!BitflagsLaws G} `{!PageSplit} `{!PageSplitLaws}.

Abbreviation Drv := (WinDrv G) (only parsing).
Implicit Types (c : Cx F L Drv) (acc : list byte) (d : Drv) (v : WinView G) (b : bool).

(** ** The end of a stream *)

(** The socket is left to a thread that closes it. *)
Definition shut_view (r : option (option IoError)) (j : WinJob) v : WinView G :=
  mkWinView (set_wo_close false (v_ops v)) true r (spawn_job j (v_kernel v)).
Definition shut_drv (o : WinOps G) (r : option (option IoError)) (j : WinJob) (i : WinItem G) d : Drv :=
  mkWinDrv (wd_storage d) (Some (mkWinItem (ginsert WIN_CLOSED (wi_flags i)) o)) (wd_delayed_feed d) r (spawn_job j (wd_kernel d)).

Lemma pinned_shut b v a d i r j :
  pinned b v a d -> v_closed v = false -> wd_item d = Some i -> pinned b (shut_view r j v) a (shut_drv (set_wo_close false (wi_ops i)) r j i d).
Proof.
  intros (Hs & (i' & Hi & ->)%view_some & [Ht Hh Hj Hr]) Hcl Hi'. rewrite Hi in Hi'. injection Hi' as ->. cbn [v_closed] in Hcl.
  assert (forall n, n ∈ [6; 7] -> has n (ginsert WIN_CLOSED (wi_flags i)) = has n (wi_flags i)) as Hn.
  { intros n Hn. rewrite (has_ginsert WIN_CLOSED) by done. set_unfold in Hn. by destruct Hn as [-> |[-> |[]]]; apply orb_false_r. }
  assert (has 5 (ginsert WIN_CLOSED (wi_flags i)) = true) as H5 by (rewrite (has_ginsert WIN_CLOSED) by done; apply orb_true_r).
  split; [done|]. split; [unfold view_of; cbn -[has]; by rewrite H5|]. unfold wdropped in *. rewrite Hi in *.
  split; unfold wdropped; cbn [shut_drv wd_item wi_flags wd_kernel spawn_job set_wk_jobs wk_jobs wk_log]; rewrite ?Hn by mem; try done.
  - rewrite H5, length_app. rewrite Hcl in Hj. cbn in *. lia.
  - intros _. by apply Hr.
Qed.

Lemma vok_shut r j v :
  vok v -> v_closed v = false -> rd_waits v || wr_waits v = false -> (r = None -> j = JobShutdown) -> vok (shut_view r j v).
Proof.
  intros [Hrd Hbuf Hwr Hcn Hcl Hclosing Hdn Hj] Hc [Hr Hw]%orb_false_iff Hrj.
  split; cbn -[has] in *; try done. intros _ ->. rewrite Hrj by done. apply elem_of_app. right. by left.
Qed.

Lemma runs_set_drv c d (P : () -> Cx F L Drv -> Prop) g : g (cx_drv c) = d -> P tt (set_drv d c) -> runs (win_mod g) c P.
Proof. intros <- HP. by apply runs_modify. Qed.

Lemma with_close_same v x : v_close v = x -> with_close x v = v.
Proof. destruct v as [[? ? ? ? ?] ? ? ?]. by intros <-. Qed.

Lemma vwait_open v : v_close v = false -> vwait v.
Proof. unfold vwait. congruence. Qed.

(** The close is under way; it is done when nothing was in flight. *)
Definition closing_from v v' : Prop :=
  vok v' /\ vwait v' /\ vphase TaskShut v' /\ (rd_waits v' = rd_waits v /\ wr_waits v' = wr_waits v) /\
  (rd_waits v || wr_waits v = false -> v_close v = true -> v_done v' = Some None).

Lemma closing_spec v acc c0 c :
  viewed true v acc c0 c -> vok v -> v_closed v || v_close v = true ->
  runs win_closing c (fun _ c' => exists v', viewed true v' acc c0 c' /\ closing_from v v').
Proof.
  intros Hv Hok Hph. unfold win_closing. apply (win_with_spec v acc c0 c _ (fun _ v' => closing_from v v')); [done|]. intros c1 Hv1. apply runs_bind.
  apply (runs_get_item false v acc c0 c1); [done|]. intros i Hio Hicl. rewrite (gcontains_has 5), Hicl by done.
  destruct (v_closed v) eqn:Hcl.
  { apply runs_ret. exists v. split; [done|]. destruct (vk_closed _ Hok Hcl) as (_ & _ & Hx).
    split; [done|]. split; [by apply vwait_open|]. split; [by cbn; rewrite Hcl|]. split; [done|]. congruence. }
  cbn in Hph. apply runs_bind. eapply runs_conseq; [by apply (pause_all_spec false v acc c0 c1)|]. intros r c2 [-> Hv2].
  destruct (rd_waits v || wr_waits v) eqn:Hw; cbn [negb].
  - apply runs_ret. exists (halted v). assert (with_close true (halted v) = halted v) as He.
    { apply with_close_same. rewrite <- Hph. unfold halted. by destruct (rd_waits v), (wr_waits v). }
    split; [done|]. destruct (vok_halted v Hok Hcl Hw) as [Hok' Hwt']. rewrite He in Hok', Hwt'.
    split; [done|]. split; [done|]. split; [|split; [|by rewrite Hw]].
    + rewrite <- He. apply orb_true_r.
    + unfold halted. destruct (rd_waits v) eqn:Hr; [|destruct (wr_waits v) eqn:Hwr; [|done]]; unfold rd_waits, wr_waits in *; cbn -[has];
        rewrite (has_ginsert CLOSING) by done; rewrite ?Hr, ?Hwr; done.
  - assert (halted v = v) as He by (unfold halted; by apply orb_false_iff in Hw as [-> ->]). rewrite He in Hv2.
    apply runs_bind, (runs_self false v acc c0 c2); [done|]. fold (v_close v). rewrite Hph.
    destruct (viewed_drv _ _ _ _ _ Hv2) as (a & Ha). pose proof Ha as (_ & (j & Hj & Hve)%view_some & _).
    do 3 apply runs_bind, runs_modify. eapply (runs_set_drv _ (shut_drv (set_wo_close false (wi_ops j)) (Some None) JobClose j (cx_drv c2))).
    { cbn. by rewrite Hj. }
    exists (shut_view (Some None) JobClose v). split; [|split; [by apply vok_shut|by repeat split]].
    apply (viewed_change false v false _ acc c0 c2 _ Hv2); [|done]. intros a' Ha'. by apply pinned_shut.
Qed.

Lemma shutdown_spec v acc c0 c :
  viewed true v acc c0 c -> vok v -> vphase TaskRun v ->
  runs win_ctl_shutdown c (fun _ c' => exists v', viewed true v' acc c0 c' /\ vok v' /\ vwait v' /\ vphase TaskShut v').
Proof.
  intros Hv Hok [Hcl Hclose]. unfold win_ctl_shutdown. apply (win_with_spec v acc c0 c _ (fun _ v' => vok v' /\ vwait v' /\ vphase TaskShut v')); [done|]. intros c1 Hv1. apply runs_bind.
  apply (runs_get_item false v acc c0 c1); [done|]. intros i Hio Hicl. rewrite (gcontains_has 5), Hicl, Hcl by done.
  apply runs_bind. eapply runs_conseq; [by apply (pause_all_spec false v acc c0 c1)|]. intros r c2 [-> Hv2].
  destruct (rd_waits v || wr_waits v) eqn:Hw; cbn [negb].
  - eapply runs_upd_ops; [exact Hv2|]. intros c3 Hv3. exists (with_close true (halted v)). split; [exact Hv3|].
    destruct (vok_halted v Hok Hcl Hw) as [??]. do 2 (split; [done|]). apply orb_true_r.
  - assert (halted v = v) as He by (unfold halted; by apply orb_false_iff in Hw as [-> ->]). rewrite He in Hv2.
    destruct (viewed_drv _ _ _ _ _ Hv2) as (a & Ha). pose proof Ha as (_ & (j & Hj & Hve)%view_some & _).
    assert (set_wo_close false (wi_ops j) = wi_ops j) as Ho by (rewrite Hve in Hclose; destruct (wi_ops j); cbn in *; by rewrite Hclose).
    apply runs_bind, runs_modify. eapply (runs_set_drv _ (shut_drv (set_wo_close false (wi_ops j)) None JobShutdown j (cx_drv c2))).
    { cbn. rewrite Hj, Ho. unfold shut_drv, set_wd_kernel, set_wd_item. cbn. f_equal. transitivity (v_done v); [by rewrite Hve|].
      destruct (v_done v) eqn:Hd; [|done]. by rewrite (vk_done _ Hok) in Hcl by (by rewrite Hd). }
    exists (shut_view None JobShutdown v). split; [|split; [by apply vok_shut|by split; [apply vwait_open|]]].
    apply (viewed_change false v false _ acc c0 c2 _ Hv2); [|done]. intros a' Ha'. by apply pinned_shut.
Qed.

(** ** Sending *)

Lemma wsasend_spec bs c k (P : Poll (result Z) -> Cx F L Drv -> Prop) :
  wd_kernel (cx_drv c) = k -> let k1 := set_wk_sends (tl (wk_sends k)) k in
  (forall n, 0 <= n <= zlen bs -> wk_sends k <> [] ->
     P (Ready (inl n)) (set_drv (set_wd_kernel (set_wk_sent (wk_sent k ++ ztake n bs) k1) (cx_drv c)) c)) ->
  (forall e, wk_sends k <> [] -> P (Ready (inr e)) (set_drv (set_wd_kernel k1 (cx_drv c)) c)) ->
  P Pending (set_drv (set_wd_kernel (set_wk_wr (Some bs) k1) (cx_drv c)) c) -> runs (WSASend bs) c P.
Proof.
  intros Hk k1 HR HE HP. unfold WSASend. apply runs_bind, runs_gets. rewrite Hk. apply runs_bind, runs_modify. rewrite Hk. fold k1.
  assert (0 <= 0 <= zlen bs) as H00 by zlia.
  destruct (wk_sends k) as [|[n|code] q] eqn:Hq.
  - apply runs_bind, runs_modify, runs_ret. exact HP.
  - cbn [winsock_result]. apply runs_bind, runs_modify, runs_ret. apply HR; [|done]. unfold prefix_len. zlen_pos. lia.
  - cbn [winsock_result]. unfold winapi_result. destruct (code =? ERROR_IO_PENDING); [apply runs_bind, runs_modify, runs_ret; exact HP|].
    destruct (is_eof_error code); [apply runs_bind, runs_modify, runs_ret; by apply HR|]. by apply runs_ret, HE.
Qed.

(** A send is in flight. *)
Definition wr_started (pages : list (list byte)) (bs : list byte) v : WinView G :=
  set_v_kernel (set_wk_wr (Some bs) (v_kernel v))
    (set_v_ops (set_wo_wr (ginsert WAITING (wo_wr_flags (v_ops v))) (Some <$> pages) (v_ops v)) v).

Lemma vok_sends q s v : vok v -> vok (set_v_kernel (set_wk_sent s (set_wk_sends q (v_kernel v))) v).
Proof. by intros []. Qed.
Lemma vok_wr_started pages v :
  vok v -> v_closed v = false -> Forall (fun p => p <> []) pages ->
  vok (wr_started pages (concat pages) v) /\ same_end v (wr_started pages (concat pages) v).
Proof.
  intros [Hrd Hbuf Hwr Hcn Hcl Hclosing Hdn Hj] Hc Hp. set (v' := wr_started _ _ v).
  assert (wr_waits v' = true) as Hw by (unfold wr_waits, v', wr_started; cbn -[has]; rewrite (has_ginsert WAITING) by done; apply orb_true_r).
  assert (wr_closing v' = wr_closing v) as Hk by (unfold wr_closing, v', wr_started; cbn -[has]; rewrite (has_ginsert WAITING) by done; apply orb_false_r).
  split; [|by repeat split]. split; rewrite ?Hw, ?Hk; try done.
  - cbn. split; [done|]. by exists pages.
  - intros Hx. change (v_closed v = true) in Hx. congruence.
Qed.

(** What one round of [write] leaves. *)
Definition win_wrote b v acc c0 c' v' : Prop :=
  Sound (pinned b v') win_sent true acc c' /\ held c0 c' /\ is_Some (cx_mgr c') /\ vok v' /\ same_end v v' /\ rd_waits v' = rd_waits v /\
  (wr_waits v' = true \/ (wr_waits v' = false /\ (length (wk_sends (v_kernel v')) < length (wk_sends (v_kernel v)))%nat) \/
   (v' = v /\ out_size (buf_of c') = 0)).

Lemma plain_size c : stack_ok (buf_of c) -> (forall ls, filter_of c = Some ls -> length (buf_of c) = (length ls + 2)%nat) ->
  filter_of c = Some [] -> out_size (buf_of c) = zlen (wcontent (buf_of c) (dst c)).
Proof. intros Hs Hl Hf. unfold out_size, dst. by rewrite (Hl [] Hf). Qed.

(** *** A round, whose buffer is out of its cell *)

Section round.
Context (b : bool) (v : WinView G) (acc : list byte) (c0 c : Cx F L Drv) (bf : Buffer) (wb : list byte).
Hypothesis HG : Good (pinned b v) win_sent true acc c.
Hypothesis Hheld : held c0 c.
Hypothesis Hmgr : is_Some (cx_mgr c).
Hypothesis Hok : vok v.
Hypothesis Hidle : wr_waits v = false.
Hypothesis Hbuf : buf_of c !! dst c = Some bf.
Hypothesis Hwb : b_write bf = Some wb.

Definition taken_out : Cx F L Drv := put_buf (<[dst c := set_b_write None bf]> (buf_of c)) c.
Definition put_back (w : list byte) (c2 : Cx F L Drv) : Cx F L Drv := put_buf (<[dst c := set_b_write (Some w) bf]> (buf_of c)) c2.
Definition offered : list (list byte) := take MAX_WRITE_BUFS (pages_of wb).
Definition left_over : list byte := concat (drop MAX_WRITE_BUFS (pages_of wb)).
Definition popped_send : WinKernel := set_wk_sends (tl (wk_sends (v_kernel v))) (v_kernel v).

Lemma offered_all : concat offered ++ left_over = wb.
Proof. unfold offered, left_over. rewrite <- concat_app, take_drop. apply pages_concat. Qed.
Lemma offered_filled : Forall (fun p => p <> []) offered.
Proof. apply Forall_take, Forall_forall. intros p Hp. by eapply pages_filled. Qed.
Lemma idle_kernel : wk_wr (v_kernel v) = None.
Proof. pose proof (vk_wr _ Hok) as Hx. destruct (wk_wr _); [destruct Hx; congruence|done]. Qed.
Lemma kernel_now : wd_kernel (cx_drv c) = v_kernel v.
Proof. destruct HG as [[[_ _ _ Hd _] _] _]. by eapply pinned_kernel. Qed.
Lemma pinned_send a k :
  wk_jobs k = wk_jobs (v_kernel v) -> wk_log k = wk_log (v_kernel v) ->
  pinned b v a (cx_drv c) -> pinned b (set_v_kernel k v) a (set_wd_kernel k (cx_drv c)).
Proof. intros E1 E2 Hp. apply pinned_set_kernel; [done|by rewrite E1|by rewrite E2]. Qed.
Lemma popped_less : wk_sends (v_kernel v) <> [] -> (length (wk_sends popped_send) < length (wk_sends (v_kernel v)))%nat.
Proof. unfold popped_send. cbn. destruct (wk_sends (v_kernel v)); cbn; [done|lia]. Qed.

(** The send changed the driver, and leaves [w] in the buffer. *)
Lemma wrote_change v' d' w :
  (forall a, pinned b v a (cx_drv c) -> pinned b v' a d') -> win_sent d' ++ w = win_sent (cx_drv c) ++ wb ->
  vok v' -> same_end v v' -> rd_waits v' = rd_waits v ->
  wr_waits v' = true \/ (wr_waits v' = false /\ (length (wk_sends (v_kernel v')) < length (wk_sends (v_kernel v)))%nat) ->
  win_wrote b v acc c0 (put_back w (set_drv d' taken_out)) v'.
Proof.
  intros Hp Hs Hok' Hse Hr Hpr. split; [by apply (dst_driver_change (pinned b v) _ win_sent _ true acc c bf wb); [apply HG|..]|].
  split; [etrans; [done|by apply kept_held, kept_flags]|]. do 4 (split; [done|]). destruct Hpr; auto.
Qed.

Lemma nothing_offered : filter_of c = Some [] -> offered = [] -> win_wrote b v acc c0 (put_back left_over taken_out) v.
Proof.
  intros Hpl Hoff. assert (wb = []) as Hnil.
  { rewrite <- (pages_concat wb). unfold offered in Hoff. destruct (pages_of wb); [done|]. by cbn in Hoff. }
  assert (left_over = wb) as -> by (pose proof offered_all as He; by rewrite Hoff in He).
  replace (put_back wb taken_out) with c.
  2:{ unfold put_back, taken_out. transitivity (put_buf (buf_of c) c); [by rewrite put_same|]. unfold put_buf, upd_io, set_buffer. cbn. do 2 f_equal.
      symmetry. apply list_insert_id. rewrite Hbuf. f_equal. destruct bf; cbn in *. by rewrite Hwb. }
  pose proof HG as [HS _]. pose proof HS as [[[Hs Hlen] _ _ _ _] _].
  do 6 (split; [done|]). right. right. split; [done|]. rewrite plain_size by done. unfold wcontent. by rewrite Hbuf, Hwb, Hnil.
Qed.

(** Nothing was taken at once: the stream is stopped. *)
Lemma sent_nothing w c2 : let k := set_wk_sent (wk_sent (v_kernel v) ++ ztake 0 (concat offered)) popped_send in
  wk_sends (v_kernel v) <> [] -> ended (pinned b (set_v_kernel k v)) true (set_drv (set_wd_kernel k (cx_drv c)) taken_out) c2 ->
  win_wrote b v acc c0 (put_back w c2) (set_v_kernel k v).
Proof.
  intros k Hne He. pose proof HG as [[HW _] _].
  assert (kept c (put_back w c2)) as K.
  { transitivity (set_drv (set_wd_kernel k (cx_drv c)) taken_out); [by apply kept_flags|]. etrans; [apply He|by apply kept_flags]. }
  split; [apply (dst_ended (pinned b (set_v_kernel k v)) (pinned b v) win_sent true acc c bf _ w c2 HW Hbuf He); [by apply kept_flags|done..]|].
  split; [etrans; [done|by apply kept_held]|]. split; [by rewrite (kp_mgr _ _ K)|]. split; [by apply vok_sends|].
  split; [by repeat split|]. split; [done|]. right. left. split; [done|by apply popped_less].
Qed.
Lemma sent_some n : let k := set_wk_sent (wk_sent (v_kernel v) ++ ztake n (concat offered)) popped_send in
  wk_sends (v_kernel v) <> [] -> 0 <= n <= zlen (concat offered) ->
  win_wrote b v acc c0 (put_back (return_unwritten (win_advance n (Some <$> offered)) left_over).1 (set_drv (set_wd_kernel k (cx_drv c)) taken_out))
    (set_v_kernel k v).
Proof.
  intros k Hne Hn. destruct (win_advance_spec n offered offered_filled Hn) as [Htd Hsl]. destruct (return_unwritten_spec _ left_over Htd) as [Hret _].
  apply wrote_change; [by intros a; apply pinned_send| |by apply vok_sends|by repeat split|done|right; split; [done|by apply popped_less]].
  unfold win_sent. rewrite kernel_now, Hret, Hsl. unfold k_sent. cbn [wd_kernel set_wd_kernel k wk_sent wk_wr set_wk_sent popped_send set_wk_sends].
  rewrite idle_kernel, !app_nil_r, <- !app_assoc. f_equal. rewrite app_assoc, ztake_zdrop. apply offered_all.
Qed.
Lemma send_failed : wk_sends (v_kernel v) <> [] ->
  win_wrote b v acc c0 (put_back (return_all offered left_over) (set_drv (set_wd_kernel popped_send (cx_drv c)) taken_out)) (set_v_kernel popped_send v).
Proof.
  intros Hne. apply wrote_change; [by intros a; apply pinned_send| |by destruct Hok|by repeat split|done|right; split; [done|by apply popped_less]].
  unfold win_sent. cbn [wd_kernel set_wd_kernel]. by rewrite kernel_now, return_all_concat, offered_all.
Qed.

Lemma wr_send_spec : v_closed v = false -> filter_of c = Some [] ->
  runs (wr_send wb) taken_out (fun r c2 => buf_of c2 = buf_of taken_out /\ exists v', win_wrote b v acc c0 (put_back r.2 c2) v').
Proof.
  intros Hwv Hpl. unfold wr_send. fold offered left_over. destruct offered as [|p ps] eqn:Hoff.
  { apply runs_ret. split; [done|]. exists v. by apply nothing_offered. }
  rewrite <- Hoff. apply runs_bind. apply (wsasend_spec (concat offered) taken_out (v_kernel v)); [apply kernel_now|..]; fold popped_send.
  - intros n Hn Hne. set (k := set_wk_sent _ popped_send). apply runs_bind. destruct (Z.eqb_spec n 0) as [->|Hn0].
    + eapply runs_conseq; [apply (terminate_raw (pinned b (set_v_kernel k v)) true None); [done|apply pinned_send; [done..|apply HG]]|].
      intros [] c2 He. apply runs_ret. split; [by rewrite (en_buf _ _ _ _ He)|]. eexists. by apply sent_nothing.
    + apply runs_ret, runs_ret. split; [done|]. eexists. by apply sent_some.
  - intros e Hne. apply runs_ret. split; [done|]. eexists. by apply send_failed.
  - set (v1 := set_v_kernel popped_send v). destruct (vok_wr_started offered v1) as [Hok' Hse]; [by destruct Hok|done|apply offered_filled|].
    do 2 apply runs_bind, runs_modify. apply runs_ret. split; [done|]. exists (wr_started offered (concat offered) v1). cbn [snd].
    apply wrote_change; [| |done|done|done|].
    + intros a Ha. pose proof (pinned_send a (set_wk_wr (Some (concat offered)) popped_send) eq_refl eq_refl Ha) as Hp1.
      exact (pinned_ops _ _ _ _ (fun o => set_wo_wr (ginsert WAITING (wo_wr_flags o)) (wo_pages o) o)
               (pinned_ops _ _ _ _ (fun o => set_wo_wr (wo_wr_flags o) (Some <$> offered) o) Hp1)).
    + unfold win_sent. rewrite kernel_now. unfold k_sent at 2. rewrite idle_kernel, app_nil_r. unfold k_sent.
      rewrite <- app_assoc. f_equal. apply offered_all.
    + left. unfold wr_waits. cbn -[has]. rewrite (has_ginsert WAITING) by done. apply orb_true_r.
Qed.
End round.

(** *** Rounds until the send waits or there is nothing left *)

Lemma wr_round_spec b v acc c0 c :
  viewed b v acc c0 c -> filter_of c0 = Some [] -> vok v -> v_closed v = false -> wr_waits v = false ->
  runs (ctx_with_write_buf wr_send) c (fun _ c' => exists v', win_wrote b v acc c0 c' v').
Proof.
  intros (HG & Hh & Hm) Hpl Hok Hcl Hidle. unfold ctx_with_write_buf. apply runs_bind.
  eapply runs_conseq; [by apply (process_write_buf_good (pinned b v) win_sent)|]. intros r c1 (HG1 & [K1 _ _ _] & _). apply runs_bind.
  apply (runs_conseq _ _ (fun _ c2 => viewed b v acc c0 c2)).
  { destruct r.
    - apply runs_ret. split; [done|]. split; [etrans; [done|by apply kept_held]|by rewrite (kp_mgr _ _ K1)].
    - eapply runs_conseq; [apply (terminate_spec (pinned b v) win_sent true acc), HG1|]. intros [] c2 (HG2 & K2 & _).
      split; [done|]. split; [do 2 (etrans; [|by apply kept_held]); done|]. by rewrite (kp_mgr _ _ K2), (kp_mgr _ _ K1). }
  clear r c1 HG1 K1. intros [] c1 (HG1 & Hh1 & Hm1). pose proof HG1 as [[[Hsh _ _ _ _] _] _]. pose proof Hsh as [Hs _].
  destruct (stack_lookup (buf_of c1) (dst c1) Hs) as (bf & wb & Hb & Hw & _); [unfold dst; destruct Hs; lia|].
  eapply with_write_dst_spec; [done|done|done|]. eapply runs_conseq; [by apply (wr_send_spec b v acc c0 c1 bf wb); try done; apply Hh1|].
  by intros r c2 [Hb2 Hv2].
Qed.

(** A status is reported while the invariant may not hold yet. *)
Lemma status_spec b v acc c0 c (st : result bool) :
  Sound (pinned b v) win_sent true acc c -> held c0 c -> is_Some (cx_mgr c) ->
  runs (ctx_update_write_status st) c (fun r c' => viewed b v acc c0 c' /\ (out_size (buf_of c) = 0 \/ hasf 1 c = true -> r <> StatusIo)).
Proof.
  intros HS Hh Hm. destruct st as [written|e].
  - eapply runs_conseq; [apply (update_write_status_sound (pinned b v) win_sent true acc written c HS)|].
    + rewrite is_closed_has. fold (hasf 1 c) (hasf 0 c). intros Hcl. split; [done|]. left. right. change (hasf 1 c = true).
      destruct HS as [[_ [H01 _] _ _ _] _]. by apply orb_true_iff in Hcl as [|?]; auto.
    + intros r c' (HG & K & Hr). split; [|done]. split; [done|]. split; [etrans; [done|by apply kept_held]|by rewrite (kp_mgr _ _ K)].
  - cbn. apply runs_bind. eapply runs_conseq; [apply (terminate_spec (pinned b v) win_sent true acc), HS|]. intros [] c' (HG & K & _).
    apply runs_ret. split; [|done]. split; [done|]. split; [etrans; [done|by apply kept_held]|by rewrite (kp_mgr _ _ K)].
Qed.

(** The write operation moves on; nothing else of the view does. *)
Definition moves v v' : Prop := vok v' /\ same_end v v' /\ rd_waits v' = rd_waits v.

Lemma wr_loop_spec n b v acc c0 c :
  viewed b v acc c0 c -> filter_of c0 = Some [] -> vok v -> v_closed v = false ->
  (if wr_waits v then 1 <= n else length (wk_sends (v_kernel v)) + 2 <= n)%nat ->
  runs (wr_write_loop n) c (fun _ c' => exists v', viewed b v' acc c0 c' /\ moves v v').
Proof.
  revert v c. induction n as [|n IH]; intros v c Hv Hpl Hok Hcl Hn; [destruct (wr_waits v); lia|]. cbn [wr_write_loop].
  apply runs_bind, (runs_self b v acc c0 c); [done|]. rewrite (gcontains_has 0) by done. fold (wr_waits v). destruct (wr_waits v) eqn:Hidle.
  { apply runs_ret. by exists v. }
  apply runs_bind. eapply runs_conseq; [by apply (wr_round_spec b v acc c0)|]. intros st c1 (v1 & HS1 & Hh1 & Hm1 & Hok1 & Hse1 & Hr1 & Hpr).
  apply runs_bind. eapply runs_conseq; [by apply status_spec|]. intros r c2 [Hv2 Hio].
  assert (v_closed v1 = false) as Hcl1 by (by destruct Hse1 as [-> _]).
  destruct (status_is_io r) eqn:Hst; [|apply runs_ret; by exists v1].
  eapply runs_conseq; [apply (IH v1); [done..|]|].
  - destruct Hpr as [-> |[[-> Hless]|[-> Hz]]]; [lia|lia|]. by destruct (Hio (or_introl Hz)); destruct r.
  - intros [] c3 (v3 & Hv3 & Hok3 & Hse3 & Hr3). exists v3. split; [done|]. split; [done|]. split; [by etrans|congruence].
Qed.
Lemma wr_write_spec b v acc c0 c :
  viewed b v acc c0 c -> filter_of c0 = Some [] -> vok v -> v_closed v = false ->
  runs wr_write c (fun _ c' => exists v', viewed b v' acc c0 c' /\ moves v v').
Proof.
  intros Hv Hpl Hok Hcl. unfold wr_write. apply runs_bind, (runs_get_kernel b v acc c0 c (fun k => length (wk_sends k))); [done|].
  apply wr_loop_spec; try done. destruct (wr_waits v); lia.
Qed.

(** ** Completions *)

#[local] Hint Extern 1 (keeps _ _ (ctx_stop _)) => apply keeps_terminate; apply _ : keeps.
#[local] Hint Extern 1 (keeps _ _ (ctx_update_read_status _ _)) => apply update_read_status_keeps; apply _ : keeps.

(** No receive is in flight any more. *)
Definition rd_over v : WinView G :=
  set_v_kernel (set_wk_rd false (v_kernel v)) (set_v_ops (set_wo_rd (gremove WAITING (wo_rd_flags (v_ops v))) None (v_ops v)) v).
Lemma vok_rd_over v : vok v -> vok (rd_over v) /\ same_end v (rd_over v) /\ rd_waits (rd_over v) = false.
Proof.
  intros [Hrd Hbuf Hwr Hcn Hcl Hclosing Hdn Hj].
  assert (rd_waits (rd_over v) = false) as Hw by (unfold rd_waits, rd_over; cbn -[has]; rewrite (has_gremove WAITING) by done; apply andb_false_r).
  assert (rd_closing (rd_over v) = rd_closing v) as Hk by (unfold rd_closing, rd_over; cbn -[has]; rewrite (has_gremove WAITING) by done; apply andb_true_r).
  split; [|by repeat split]. split; rewrite ?Hw, ?Hk; try done. intros Hx. destruct (Hcl Hx) as (_ & ? & ?). done.
Qed.

Lemma rd_completed_spec res v acc c0 c :
  viewed true (set_v_kernel (set_wk_rd false (v_kernel v)) v) acc c0 c -> vok v -> rd_waits v = true ->
  runs (rd_completed res) c (fun r c' => r = rd_closing v /\ exists v', viewed true v' acc c0 c' /\ vok v' /\ same_end v v' /\
    (r = true -> v' = rd_over v)).
Proof.
  intros Hv Hok Hw. destruct (vok_rd_over v Hok) as (Hok' & Hse & Hr'). destruct (vk_buf _ Hok Hw) as [buf Hbuf].
  assert (v_closed v = false) as Hcl by (destruct (v_closed v) eqn:Hx; [destruct (vk_closed _ Hok Hx); congruence|done]).
  unfold rd_completed. apply runs_bind. apply (runs_self true _ acc c0 c _ Hv). apply runs_bind. apply (runs_upd_ops true _ acc c0 c _ _ Hv).
  intros c1 Hv1. apply runs_bind. apply (runs_self true _ acc c0 c1 _ Hv1). cbn [v_ops set_v_ops set_v_kernel wo_rd_buf set_wo_rd]. rewrite Hbuf.
  apply runs_bind. apply (runs_upd_ops true _ acc c0 c1 _ _ Hv1). intros c2 Hv2. change (viewed true (rd_over v) acc c0 c2) in Hv2.
  apply runs_bind. apply (viewed_keeps true (rd_over v) acc c0 c2); [keep|done|]. intros st c3 Hv3.
  apply runs_bind. apply (runs_self true _ acc c0 c3 _ Hv3). rewrite (gcontains_has 1) by done. fold (rd_closing (rd_over v)).
  assert (rd_closing (rd_over v) = rd_closing v) as -> by apply Hse. destruct (rd_closing v).
  { apply runs_ret. split; [done|]. by exists (rd_over v). }
  apply runs_bind. destruct (status_is_io st); [|apply runs_ret, runs_ret; split; [done|]; by exists (rd_over v)].
  eapply runs_conseq; [by apply (rd_read_spec true (rd_over v) acc c0)|]. intros [] c4 (v' & Hv' & Hok4 & Hse4). apply runs_ret.
  split; [done|]. exists v'. split; [done|]. split; [done|]. split; [by etrans|done].
Qed.

(** The pages of a send that completed are in nobody's hands: neither sent nor
    buffered. *)
Definition seen (B : list byte) v acc c0 c : Prop :=
  Good (pinned true v) (fun d => win_sent d ++ B) true acc c /\ held c0 c /\ is_Some (cx_mgr c).

Lemma seen_self B v acc c0 c (P : WinOps G -> Cx F L Drv -> Prop) : seen B v acc c0 c -> P (v_ops v) c -> runs win_self c P.
Proof.
  intros [[[[_ _ _ (_ & (i & Hi & ->)%view_some & _) _] _] _] _] HP. apply runs_bind, runs_gets. rewrite Hi. by apply runs_ret.
Qed.
Lemma seen_upd_ops B v acc c0 c g (P : () -> Cx F L Drv -> Prop) :
  seen B v acc c0 c -> (forall c', seen B (set_v_ops (g (v_ops v)) v) acc c0 c' -> P tt c') -> runs (win_upd_ops g) c P.
Proof.
  intros (HG & Hh & Hm) HP. apply runs_modify, HP. split; [|split; [|done]]; [|etrans; [done|by apply kept_held, kept_flags]].
  apply (driver_change (pinned true v) _ (fun d => win_sent d ++ B)); [done|intros a; apply pinned_ops|done].
Qed.
Lemma seen_stop B v acc c0 c e (P : () -> Cx F L Drv -> Prop) :
  seen B v acc c0 c -> (forall c', seen B v acc c0 c' -> P tt c') -> runs (ctx_stop e) c P.
Proof.
  intros (HG & Hh & Hm) HP. eapply runs_conseq; [apply (terminate_spec (pinned true v) (fun d => win_sent d ++ B) true acc), HG|].
  intros [] c' (HG' & K & _). apply HP. split; [done|]. split; [etrans; [done|by apply kept_held]|by rewrite (kp_mgr _ _ K)].
Qed.

(** No send is in flight any more. *)
Definition wr_over s v : WinView G :=
  set_v_kernel (set_wk_wr None (set_wk_sent s (v_kernel v)))
    (set_v_ops (set_wo_wr (gremove WAITING (wo_wr_flags (v_ops v))) (wo_pages (v_ops v)) (v_ops v)) v).
Definition with_pages pages v : WinView G := set_v_ops (set_wo_wr (wo_wr_flags (v_ops v)) pages (v_ops v)) v.
Lemma vok_wr_over s pages v : vok v ->
  let v' := with_pages pages (wr_over s v) in moves v v' /\ wr_waits v' = false.
Proof.
  intros [Hrd Hbuf Hwr Hcn Hcl Hclosing Hdn Hj] v'.
  assert (wr_waits v' = false) as Hw by (unfold wr_waits, v', wr_over; cbn -[has]; rewrite (has_gremove WAITING) by done; apply andb_false_r).
  assert (wr_closing v' = wr_closing v) as Hk by (unfold wr_closing, v', wr_over; cbn -[has]; rewrite (has_gremove WAITING) by done; apply andb_true_r).
  split; [|done]. split; [|by repeat split]. split; rewrite ?Hw, ?Hk; try done. intros Hx. destruct (Hcl Hx) as (? & _ & ?). done.
Qed.

(** What a send leaves of its pages. *)
Definition unsent (res : result Z) (ps : list (list byte)) : list byte :=
  match res with inl n => zdrop n (concat ps) | inr _ => concat ps end.

(** The unsent pages go back to the buffer, and the status is reported unless
    the stream is being closed. *)
Lemma wr_returned_spec pages s v acc c0 c (st : result bool) (stopped : bool) :
  seen (slots pages) (with_pages pages (wr_over s v)) acc c0 c -> tidy pages -> vok v -> wr_waits v = true -> filter_of c0 = Some [] ->
  (wr_closing v = true -> hasf 1 c = true) -> (stopped = true -> hasf 1 c = true) ->
  runs (wr ← win_self;
        rest ← ctx_with_write_buf (fun wrt => let '(wrt, rest) := return_unwritten (wo_pages wr) wrt in mret (rest, wrt));
        wr_set_pages rest;;
        wr ← win_self;
        if gcontains CLOSING (wo_wr_flags wr) then mret true
        else st ← ctx_update_write_status st; (if status_is_io st then wr_write else mret tt);; mret false) c
    (fun r c' => r = wr_closing v /\ exists v', viewed true v' acc c0 c' /\ moves v v' /\ (r = true \/ stopped = true -> wr_waits v' = false)).
Proof.
  intros Hv Htd Hok Hw Hpl H1 Hsp. apply runs_bind, (seen_self _ _ acc c0 c _ Hv). destruct Hv as ([HS _] & Hh & Hm). set (v1 := with_pages _ _) in HS.
  apply runs_bind. eapply runs_conseq; [apply (write_buf_sound (pinned true v1) _ (fun w => ((return_unwritten pages w).2, (return_unwritten pages w).1))
    (fun d => win_sent d ++ slots pages) win_sent true acc c)|]; [by intros w; cbn; destruct (return_unwritten pages w)| |done|].
  { intros w d. cbn [snd]. destruct (return_unwritten_spec pages w Htd) as [-> _]. by rewrite app_assoc. }
  intros rest c1 (K1 & [w ->] & HS1). cbn [fst]. set (rest := (return_unwritten pages w).2). apply runs_bind, runs_modify.
  set (c2 := set_drv _ c1). set (v2 := with_pages rest v1). destruct (vok_wr_over s rest v Hok) as [Hmv Hw2].
  change (with_pages rest (wr_over s v)) with v2 in Hmv, Hw2. pose proof Hmv as (Hok2 & Hse2 & _).
  assert (Sound (pinned true v2) win_sent true acc c2) as HS2.
  { apply (sound_change (pinned true v1) _ win_sent); [done| |done]. intros a Ha.
    exact (pinned_ops true v1 a _ (fun o => set_wo_wr (wo_wr_flags o) rest o) Ha). }
  assert (held c0 c2) as Hh2.
  { transitivity c; [done|]. transitivity c1; [by apply kept_held|by apply kept_held, kept_flags]. }
  assert (is_Some (cx_mgr c2)) as Hm2 by (change (is_Some (cx_mgr c1)); by rewrite (kp_mgr _ _ K1)).
  apply runs_bind. unfold win_self. apply runs_bind, runs_gets. pose proof HS2 as [[_ _ _ Hd2 _] _].
  pose proof Hd2 as (_ & (i & Hi & Hvi)%view_some & _). rewrite Hi. apply runs_ret.
  assert (gcontains CLOSING (wo_wr_flags (wi_ops i)) = wr_closing v) as ->.
  { rewrite (gcontains_has 1) by done. transitivity (wr_closing v2); [by rewrite Hvi|]. apply Hse2. }
  destruct (wr_closing v) eqn:Hc.
  - apply runs_ret. split; [done|]. exists v2. split; [|done]. split; [|done]. split; [done|]. left. right.
    change (hasf 1 c1 = true). apply (hd_life _ _ (kept_held _ _ K1)); [mem|]. by apply H1.
  - apply runs_bind. eapply runs_conseq; [by apply (status_spec true v2 acc c0 c2)|]. intros r c3 [Hv3 Hio]. apply runs_bind.
    assert (status_is_io r = true -> stopped = false) as Hst.
    { intros Hr. destruct stopped; [|done]. destruct Hio; [right|by destruct r]. change (hasf 1 c1 = true). by apply (hd_life _ _ (kept_held _ _ K1)); [mem|auto]. }
    destruct (status_is_io r); [rewrite (Hst eq_refl)|apply runs_ret, runs_ret; split; [done|]; by exists v2].
    assert (v_closed v2 = false) as Hcl2.
    { destruct Hse2 as [-> _]. destruct (v_closed v) eqn:Hx; [|done]. destruct (vk_closed _ Hok Hx) as (_ & ? & _). congruence. }
    eapply runs_conseq; [by apply (wr_write_spec true v2 acc c0)|]. intros [] c4 (v4 & Hv4 & Hok4 & Hse4 & Hr4). apply runs_ret.
    split; [done|]. exists v4. split; [done|]. split; [|by intros [?|?]]. split; [done|]. split; [by etrans|]. rewrite Hr4. apply Hmv.
Qed.

Lemma wr_completed_spec res s ps v acc c0 c :
  seen (unsent res ps) (set_v_kernel (set_wk_wr None (set_wk_sent s (v_kernel v))) v) acc c0 c ->
  wo_pages (v_ops v) = Some <$> ps -> Forall (fun p => p <> []) ps -> (forall n, res = inl n -> 0 <= n <= zlen (concat ps)) ->
  vok v -> wr_waits v = true -> filter_of c0 = Some [] -> (wr_closing v = true -> hasf 1 c = true) ->
  runs (wr_completed res) c (fun r c' => r = wr_closing v /\ exists v', viewed true v' acc c0 c' /\ moves v v' /\ (r = true \/ hasf 1 c = true -> wr_waits v' = false)).
Proof.
  intros Hv Hp Hps Hn Hok Hw Hpl H1. unfold wr_completed. apply runs_bind, (seen_self _ _ acc c0 c _ Hv).
  assert (forall c', held c c' -> (wr_closing v = true -> hasf 1 c' = true) /\ (hasf 1 c = true -> hasf 1 c' = true)) as H1'
    by (intros c' K; split; intros Hx; (apply (hd_life _ _ K); [mem|auto])).
  apply runs_bind, runs_modify. set (c1 := set_drv _ c). assert (held c c1) as K1 by (by apply kept_held, kept_flags).
  assert (seen (unsent res ps) (wr_over s v) acc c0 c1) as Hv1.
  { destruct Hv as (HG & Hh & Hm). split; [|split; [|done]]; [|by etrans].
    apply (driver_change (pinned true (set_v_kernel (set_wk_wr None (set_wk_sent s (v_kernel v))) v)) _ (fun d => win_sent d ++ unsent res ps)); [done| |done].
    intros a Ha. exact (pinned_ops _ _ _ _ (fun o => set_wo_wr (gremove WAITING (wo_wr_flags o)) (wo_pages o) o) Ha). }
  apply runs_bind. destruct res as [n|e].
  - destruct (win_advance_spec n ps Hps (Hn n eq_refl)) as [Htd Hsl]. apply runs_bind.
    apply (runs_conseq _ _ (fun _ c' => seen (unsent (inl n) ps) (wr_over s v) acc c0 c' /\ held c c')).
    { destruct (n =? 0); [|by apply runs_ret]. destruct Hv1 as (HG & Hh & Hm).
      eapply runs_conseq; [apply (terminate_spec (pinned true (wr_over s v)) (fun d => win_sent d ++ unsent (inl n) ps) true acc), HG|].
      intros [] c' (HG' & K & _). apply kept_held in K as K'. split; [|by etrans]. split; [done|]. split; [by etrans|by rewrite (kp_mgr _ _ K)]. }
    intros [] c2 [Hv2 K2]. apply runs_bind, (seen_self _ _ acc c0 c2 _ Hv2). change (wo_pages (v_ops (wr_over s v))) with (wo_pages (v_ops v)).
    rewrite Hp. apply runs_bind, runs_modify. set (c3 := set_drv _ c2). apply runs_ret.
    apply (wr_returned_spec (win_advance n (Some <$> ps)) s v acc c0 c3 _ (hasf 1 c)); try done.
    + destruct Hv2 as (HG2 & Hh2 & Hm2). split; [|split; [|done]]; [|etrans; [done|by apply kept_held, kept_flags]]. rewrite Hsl.
      apply (driver_change (pinned true (wr_over s v)) _ (fun d => win_sent d ++ unsent (inl n) ps)); [done| |done].
      intros a Ha. exact (pinned_ops _ _ _ _ (fun o => set_wo_wr (wo_wr_flags o) (win_advance n (Some <$> ps)) o) Ha).
    + apply (H1' c3). etrans; [exact K2|by apply kept_held, kept_flags].
    + apply (H1' c3). etrans; [exact K2|by apply kept_held, kept_flags].
  - apply runs_ret. apply (wr_returned_spec (Some <$> ps) s v acc c0 c1 _ (hasf 1 c)); try done; [|by exists 0%nat, ps].
    rewrite slots_some. assert (with_pages (Some <$> ps) (wr_over s v) = wr_over s v) as ->; [|done].
    unfold with_pages, wr_over. cbn. by rewrite Hp.
Qed.
End steps.
