(* ===== verification/WinProps.v ===== *)
(** * Properties of streams on a completion port

    The reactor, the task of a stream and the programs over it keep the
    invariant of [WinInv.v]; what follows for the output, for the memory of
    the operations in flight, and for the end of a stream. *)
From Stdlib Require Import ZArith Lia.
From stdpp Require Import base numbers list sets.
From S2P Require Import Prelude Deps Task IoConfig IoFlags IoBuf IoChain IoTimers IoState IoInv IoRef IoKeeps IoOutput IoOwner IoExample.
From S2P Require Import Polling PollingSpec IoSystem WinStream WinInv WinSteps.

Section task.
Context {F : Type} `{!Bitflags F} `{!BitflagsLaws F} {L : Type} `{!FilterLayer L} `{!FilterLayerLaws L}.
Context {G : Type} `{!Bitflags G} `{!BitflagsLaws G} `{!PageSplit} `{!PageSplitLaws}.

Abbreviation Drv := (WinDrv G) (only parsing).
Implicit Types (c : Cx F L Drv) (acc : list byte) (d : Drv) (v : WinView G).
Abbreviation GoodF t := (Good (F := F) (L := L) (wfree (G := G) t) win_sent true).

(** ** Between the steps *)

Definition rests_at t v : Prop := vok v /\ vwait v /\ vphase t v.

Lemma pin t acc c : GoodF t acc c -> is_Some (cx_mgr c) -> task_alive t = true -> exists v, viewed true v acc c c /\ rests_at t v.
Proof.
  intros HG Hm Ht. pose proof HG as [[[_ _ _ Hd _] _] _]. destruct (wfree_pinned _ _ _ Hd Ht) as (v & (Hs & Hv & Ho) & Hr).
  exists v. split; [|done]. split; [|done].
  assert (set_drv (cx_drv c) c = c) as He by (by destruct c). rewrite <- He. apply (driver_change (wfree t) _ win_sent); [done| |done].
  intros a (Hs' & Ho' & _). split; [done|]. split; [done|]. by rewrite Ht in Ho'.
Qed.
Lemma unpin t v acc c0 c : viewed true v acc c0 c -> rests_at t v -> task_alive t = true -> GoodF t acc c /\ held c0 c.
Proof.
  intros (HG & Hh & _) (Hok & Hwt & Hph) Ht. split; [|done].
  assert (set_drv (cx_drv c) c = c) as He by (by destruct c). rewrite <- He. apply (driver_change (pinned true v) _ win_sent); [done| |done].
  intros a Ha. by eapply pinned_wfree.
Qed.

(** ** Completions *)

(** What the completion of a receive or of a send does to a stream whose task
    waits for the end of the socket: the one is over, and the socket is closed
    unless the other is in flight. *)
Definition shut_after (ev : WinEvent) v v' : Prop :=
  match ev with
  | EvRead _ => (v_closed v' = true \/ rd_waits v' = false) /\ (wr_waits v = false -> v_closed v' = true)
  | EvWrite _ => (v_closed v' = true \/ rd_waits v = true) /\ wr_waits v' = false
  | _ => True
  end.

Lemma deliver_read_spec a t v acc c :
  viewed true v acc c c -> rests_at t v -> task_alive t = true ->
  runs (win_deliver (EvRead a)) c (fun _ c' => exists v', viewed true v' acc c c' /\ rests_at t v' /\
    (t = TaskShut -> shut_after (EvRead a) v v')).
Proof.
  intros Hv (Hok & Hwt & Hph) Ht. unfold win_deliver. apply runs_bind, (runs_get_kernel true v acc c c (fun k => k)); [done|].
  rewrite (vk_rd _ Hok). destruct (rd_waits v) eqn:Hr; [|apply runs_ret; exists v; split; [done|]; split; [done|]; intros ->; split; [by right|]].
  2:{ intros Hw. destruct (v_closed v) eqn:Hcl; [done|]. cbn in Hph. rewrite Hcl in Hph. specialize (Hwt Hph). by rewrite Hr, Hw in Hwt. }
  apply runs_bind, (runs_kernel true v acc c c); [done..|]. intros c1 Hv1. unfold win_rd_done. apply runs_bind.
  eapply runs_conseq; [by apply (rd_completed_spec _ v acc c c1)|]. intros r c2 [-> (v2 & Hv2 & Hok2 & Hse2 & Hov)].
  destruct (rd_closing v) eqn:Hc.
  - rewrite (Hov eq_refl) in *. assert (v_closed v || v_close v = true) as Hcl by (apply (vk_closing _ Hok); by rewrite Hc).
    assert (t = TaskShut) as -> by (destruct t; cbn in *; try done; destruct Hph as [E1 E2]; by rewrite E1, E2 in Hcl).
    eapply runs_conseq; [apply (closing_spec (rd_over v) acc c c2); [done|done|exact Hcl]|]. intros [] c3 (v3 & Hv3 & Hok3 & Hwt3 & Hph3 & [Hr3 _] & Hd3).
    exists v3. split; [done|]. split; [done|]. intros _. destruct (vok_rd_over v Hok) as (_ & _ & Hro). split; [right; by rewrite Hr3|].
    intros Hw. apply (vk_done _ Hok3). rewrite Hd3; [done|by rewrite Hro|]. change (v_close v = true). destruct (v_closed v) eqn:Hx; [|done].
    destruct (vk_closed _ Hok Hx) as (? & _). congruence.
  - apply runs_ret. exists v2. split; [done|]. assert (v_close v = false) as Hcl.
    { destruct (v_close v) eqn:Hx; [|done]. specialize (Hwt Hx). by rewrite Hr, Hc in Hwt. }
    split; [|intros ->].
    + split; [done|]. split; [|by eapply same_end_phase]. apply vwait_open. destruct Hse2 as (_ & _ & -> & _). done.
    + exfalso. cbn in Hph. rewrite Hcl, orb_false_r in Hph. destruct (vk_closed _ Hok Hph). congruence.
Qed.

Lemma deliver_write_spec a t v acc c :
  viewed true v acc c c -> rests_at t v -> task_alive t = true -> filter_of c = Some [] -> (t = TaskShut -> hasf 1 c = true) ->
  runs (win_deliver (EvWrite a)) c (fun _ c' => exists v', viewed true v' acc c c' /\ rests_at t v' /\
    (t = TaskShut -> shut_after (EvWrite a) v v')).
Proof.
  intros Hv (Hok & Hwt & Hph) Ht Hpl H1. unfold win_deliver. apply runs_bind, (runs_get_kernel true v acc c c (fun k => k)); [done|].
  pose proof (vk_wr _ Hok) as Hwr. destruct (wk_wr (v_kernel v)) as [bs|] eqn:Hk.
  2:{ apply runs_ret. exists v. split; [done|]. split; [done|]. intros ->. split; [|done]. destruct (v_closed v) eqn:Hcl; [by left|right]. cbn in Hph. rewrite Hcl in Hph.
      specialize (Hwt Hph). rewrite Hwr, andb_false_r, orb_false_r in Hwt. by destruct (rd_waits v). }
  destruct Hwr as (Hw & ps & Hp & Hbs & Hps). set (res := match completion_result 0 a with inl n => inl (prefix_len n bs) | inr e => inr e end).
  set (n := match res with inl n => n | inr _ => 0 end). apply runs_bind, runs_modify. set (c1 := set_drv _ c).
  assert (0 <= n <= zlen bs) as Hn by (subst n res; unfold prefix_len; zlen_pos; destruct (completion_result 0 a); lia).
  assert (forall m, res = inl m -> 0 <= m <= zlen (concat ps)) as Hres by (intros m Hm; unfold n in Hn; rewrite Hm in Hn; by rewrite Hbs).
  destruct (viewed_drv _ _ _ _ _ Hv) as (a0 & Ha0). pose proof (pinned_kernel _ _ _ _ Ha0) as Hke.
  assert (seen (unsent res ps) (set_v_kernel (set_wk_wr None (set_wk_sent (wk_sent (v_kernel v) ++ ztake n bs) (v_kernel v))) v) acc c c1) as Hv1.
  { destruct Hv as (HG & Hh & Hm). split; [|split; [by apply kept_held, kept_flags|done]].
    apply (driver_change (pinned true v) _ win_sent); [done|intros a' Ha'; rewrite Hke; by apply pinned_set_kernel|].
    unfold win_sent. rewrite Hke. unfold k_sent. rewrite Hk. cbn. rewrite app_nil_r, <- app_assoc. f_equal. unfold unsent, n. rewrite Hbs.
    destruct res; [apply ztake_zdrop|by rewrite ztake_le0]. }
  unfold win_wr_done. apply runs_bind. eapply runs_conseq; [apply (wr_completed_spec res _ ps v acc c c1 Hv1); try done|].
  { intros Hx. change (hasf 1 c = true). apply H1. assert (v_closed v || v_close v = true) as Hcl by (apply (vk_closing _ Hok); by rewrite Hx, orb_true_r).
    destruct t; cbn in *; try done; destruct Hph as [E1 E2]; by rewrite E1, E2 in Hcl. }
  intros r c2 [-> (v2 & Hv2 & (Hok2 & Hse2 & Hr2) & Hov)]. destruct (wr_closing v) eqn:Hc.
  - assert (v_closed v || v_close v = true) as Hcl by (apply (vk_closing _ Hok); by rewrite Hc, orb_true_r).
    assert (t = TaskShut) as -> by (destruct t; cbn in *; try done; destruct Hph as [E1 E2]; by rewrite E1, E2 in Hcl).
    pose proof Hse2 as (E1 & _ & E2 & _). eapply runs_conseq; [apply (closing_spec v2 acc c c2); [done|done|by rewrite E1, E2]|].
    intros [] c3 (v3 & Hv3 & Hok3 & Hwt3 & Hph3 & [_ Hw3] & Hd3). exists v3. split; [done|]. split; [done|]. intros _. split; [|rewrite Hw3; auto].
    destruct (rd_waits v) eqn:Hrd; [by right|left]. apply (vk_done _ Hok3). rewrite Hd3; [done|by rewrite Hr2, Hov by auto|].
    rewrite E2. destruct (v_closed v) eqn:Hx; [|done]. destruct (vk_closed _ Hok Hx) as (_ & ? & _). congruence.
  - apply runs_ret. exists v2. split; [done|]. assert (v_close v = true -> rd_waits v && rd_closing v = true) as Hcw.
    { intros Hx. specialize (Hwt Hx). by rewrite Hc, andb_false_r, orb_false_r in Hwt. }
    assert (vwait v2) as Hwt2. { unfold vwait. destruct Hse2 as (_ & _ & -> & -> & _). rewrite Hr2. intros Hx. by rewrite (Hcw Hx). }
    split; [by split; [|split; [|eapply same_end_phase]]|]. intros ->. split; [right|by apply Hov; right; apply H1]. cbn in Hph. destruct (v_closed v) eqn:Hx.
    { destruct (vk_closed _ Hok Hx) as (_ & ? & _). congruence. }
    specialize (Hcw Hph). by apply andb_true_iff in Hcw as [? _].
Qed.

(** Where the task waits for the end of the socket, the filters are stopped. *)
Definition stopped_at t c : Prop := match t with TaskRun | TaskFlush false => True | _ => hasf 1 c = true end.
Lemma stopped_held t c c' : stopped_at t c -> held c c' -> stopped_at t c'.
Proof. intros Hs K. destruct t as [|[|]| |]; try done; by apply (hd_life _ _ K); [mem|]. Qed.

(** Keeps the invariant of a stream without layers, at a state of its task. *)
Definition minds t {A} (op : M (Cx F L Drv) A) : Prop := forall acc c,
  GoodF t acc c -> is_Some (cx_mgr c) -> stopped_at t c -> filter_of c = Some [] -> runs op c (fun _ c' => GoodF t acc c' /\ held c c').

Lemma minds_bind t {A B} (op : M (Cx F L Drv) A) (k : A -> M (Cx F L Drv) B) : minds t op -> (forall a, minds t (k a)) -> minds t (op ≫= k).
Proof.
  intros H1 H2 acc c HG Hm Hs Hpl. apply runs_bind. eapply runs_conseq; [by apply H1|]. intros a c1 [HG1 K1].
  eapply runs_conseq; [apply H2; [done|by apply K1|by eapply stopped_held|by apply K1]|]. intros b c2 [HG2 K2]. split; [done|by etrans].
Qed.
Lemma minds_ret t {A} (a : A) : minds t (mret a).
Proof. intros acc c HG Hm _ _. by apply runs_ret. Qed.

Lemma done_idle a d : wfree TaskDone a d -> wk_rd (wd_kernel d) = false /\ wk_wr (wd_kernel d) = None.
Proof.
  intros (_ & _ & Hv & Hn). destruct (wd_item d) as [i|] eqn:Hi; [|by apply Hn]. destruct (Hv _ (view_item d i Hi)) as (Hok & _ & Hph).
  by apply (closed_idle _ Hok).
Qed.
Lemma minds_deliver t ev : minds t (win_deliver ev).
Proof.
  intros acc c HG Hm Hs Hpl. destruct (task_alive t) eqn:Ht.
  - destruct (pin t acc c HG Hm Ht) as (v & Hv & Hr).
    apply (runs_conseq _ _ (fun _ c' => exists v', viewed true v' acc c c' /\ rests_at t v')).
    2:{ intros [] c' (v' & Hv' & Hr'). by apply (unpin t v'). }
    destruct ev as [|a|a].
    + apply runs_bind, runs_gets, runs_ret. by exists v.
    + eapply runs_conseq; [by apply (deliver_read_spec a t v)|]. intros [] c' (v' & ? & ? & _). by exists v'.
    + eapply runs_conseq; [apply (deliver_write_spec a t v); try done; by intros ->|]. intros [] c' (v' & ? & ? & _). by exists v'.
  - destruct t; try done. pose proof HG as [[[_ _ _ Hd _] _] _]. destruct (done_idle _ _ Hd) as [Hr Hw].
    unfold win_deliver. apply runs_bind, runs_gets. rewrite Hr, Hw. destruct ev; by apply runs_ret.
Qed.
Lemma minds_deliver_all t evs : minds t (win_deliver_all evs).
Proof. induction evs as [|ev evs IH]; [apply minds_ret|]. apply minds_bind; [apply minds_deliver|done]. Qed.

(** ** Drops that waited *)

Lemma wowners_pop ctl a x q d : wd_delayed_feed d = x :: q -> wowners ctl a d ->
  match x with
  | WinStream => ctl = false /\ wowners true a (set_wd_delayed q d)
  | WinWeak => a = false /\ wowners ctl true (set_wd_delayed q d)
  end.
Proof.
  intros Hq [Ht Hh Hj Hr]. unfold wqueued in Ht, Hh. rewrite Hq, !filter_cons in Ht, Hh.
  assert (forall n, wdropped n (set_wd_delayed q d) = wdropped n d) as Hd by done.
  destruct x; rewrite decide_True, decide_False in * by done; cbn [length] in Ht, Hh.
  - destruct ctl; [cbn in Ht; lia|]. split; [done|]. split; rewrite ?Hd; unfold wqueued; cbn; (done || lia).
  - destruct a; [cbn in Hh; lia|]. split; [done|]. split; rewrite ?Hd; unfold wqueued; cbn; (done || lia).
Qed.

Lemma win_feed_spec t a q d : wd_delayed_feed d = q -> wowners (task_alive t) a d -> wcore t d ->
  exists d', win_feed q d = Done d' /\ wowners (task_alive t) a d' /\ wcore t d' /\ wd_kernel d' = wd_kernel d /\
    (wd_item d' = None \/ view_of d' = view_of d).
Proof.
  revert d. induction q as [|x q IH]; intros d Hq Ho Hc; [exists d; repeat (split; [done|]); by right|]. cbn [win_feed].
  pose proof (wowners_pop _ _ _ _ _ Hq Ho) as Hp. set (d1 := set_wd_delayed q d) in *. assert (wcore t d1) as Hc1 by done.
  assert (exists d2, (match x with WinStream => win_drop_stream | WinWeak => win_drop_weak_stream end) d1 = Done d2 /\
    wowners (task_alive t) a d2 /\ drops d1 d2) as (d2 & Hd2 & Ho2 & Hdr).
  { assert (is_Some (wd_item d1)) as [i Hi] by (by destruct x, Hp as [_ Hp]; apply (wowners_item _ _ _ Hp); [left|right]).
    destruct (proj1 Hc1 _ (view_item d1 i Hi)) as (Hok & _ & Hph). destruct x; destruct Hp as [He Hp].
    - rewrite He. apply wdrop_stream_spec; [done|]. unfold wdropped. rewrite Hi. by destruct t.
    - rewrite He. apply wdrop_weak_spec; [done|]. intros H6. unfold wdropped. rewrite Hi. destruct (task_alive t) eqn:Ht; [|by destruct t].
      destruct Hp as [Hx _ _ _]. rewrite H6 in Hx. cbn in Hx. lia. }
  rewrite Hd2. cbn [mbind outcome_bind]. destruct (IH d2) as (d3 & Hd3 & Ho3 & Hc3 & Hk3 & Hv3).
  - by destruct Hdr as (_ & _ & _ & -> & _).
  - done.
  - eapply wcore_drops; [exact Hc1| |done]. destruct x; destruct Hp as [_ Hp]; apply (wowners_item _ _ _ Hp); auto.
  - exists d3. split; [done|]. do 2 (split; [done|]). destruct Hdr as (_ & Hk2 & _ & _ & Hv2). rewrite Hk3. split; [done|].
    destruct Hv3 as [?|Hv3]; [by left|]. destruct Hv2 as [Hv2|[_ Hi2]]; [right; by rewrite Hv3, Hv2|left].
    unfold view_of in Hv3. rewrite Hi2 in Hv3. by destruct (wd_item d3).
Qed.

Lemma win_tick_spec t acc c : GoodF t acc c ->
  runs (win_lift win_check_delayed_feed) c (fun _ c' => GoodF t acc c' /\ held c c' /\ (task_alive t = true -> view_of (cx_drv c') = view_of (cx_drv c))).
Proof.
  intros HG. unfold win_lift. apply runs_bind, runs_get, runs_bind. pose proof HG as [[[_ _ _ Hd _] _] _].
  assert (forall a, wfree t a (cx_drv c) -> exists d', win_check_delayed_feed (cx_drv c) = Done d' /\ wfree t a d' /\ wd_kernel d' = wd_kernel (cx_drv c) /\
    (task_alive t = true -> view_of d' = view_of (cx_drv c))) as Hfeed.
  { intros a (Hs & Ho & Hc). unfold win_check_delayed_feed. destruct (wd_delayed_feed (cx_drv c)) as [|x q] eqn:Hq; [by exists (cx_drv c)|]. rewrite Hs.
    destruct (win_feed_spec t a (x :: q) (set_wd_storage false (cx_drv c))) as (d' & He & Ho' & Hc' & Hk' & Hv'); [done|by destruct Ho|done|].
    rewrite He. cbn. eexists. split; [done|]. split; [split; [done|by split; [destruct Ho'|]]|]. split; [done|]. intros Ht.
    destruct Hv' as [Hi|Hv']; [|exact Hv']. rewrite Ht in Ho'. destruct (wowners_item _ _ _ Ho') as [i Hi']; [by left|]. congruence. }
  destruct (Hfeed _ Hd) as (d' & He & _ & Hk & Hv). eapply runs_lift; [exact He|]. apply runs_modify. split; [|split; [by apply kept_held, kept_flags|done]].
  apply (driver_change (wfree t) _ win_sent); [done| |unfold win_sent; by rewrite Hk]. intros a Ha. destruct (Hfeed a Ha) as (d2 & He2 & Hf & _).
  rewrite He in He2. by injection He2 as <-.
Qed.
Lemma minds_tick t : minds t (win_lift win_check_delayed_feed).
Proof. intros acc c HG Hm _ _. eapply runs_conseq; [by apply win_tick_spec|]. by intros [] c' (? & ? & _). Qed.
Lemma minds_poll_completions t evs : minds t (win_poll_completions evs).
Proof. apply minds_bind; [apply minds_deliver_all|]. intros []. apply minds_tick. Qed.

(** One completion, and what it does to the view. *)
Lemma one_event_spec ev t v acc c (R : WinView G -> Prop) :
  viewed true v acc c c -> task_alive t = true ->
  runs (win_deliver ev) c (fun _ c' => exists v', viewed true v' acc c c' /\ rests_at t v' /\ R v') ->
  runs (win_poll_completions [ev]) c (fun _ c' => GoodF t acc c' /\ held c c' /\ exists v', view_of (cx_drv c') = Some v' /\ R v').
Proof.
  intros Hv Ht Hd. unfold win_poll_completions. cbn [win_deliver_all]. do 2 apply runs_bind. eapply runs_conseq; [exact Hd|].
  intros [] c1 (v1 & Hv1 & Hr1 & HR). apply runs_ret. destruct (unpin t v1 acc c c1 Hv1 Hr1 Ht) as [HG1 K1].
  eapply runs_conseq; [by apply win_tick_spec|]. intros [] c2 (HG2 & K2 & Hv2). split; [done|]. split; [by etrans|]. exists v1. split; [|done].
  rewrite (Hv2 Ht). by destruct (viewed_drv _ _ _ _ _ Hv1) as (a & _ & ? & _).
Qed.

(** ** The task *)

Lemma run_same v v' : rests_at TaskRun v -> vok v' -> same_end v v' -> rests_at TaskRun v'.
Proof.
  intros (_ & _ & Hph) Hok' Hse. pose proof (same_end_phase _ _ _ Hse Hph) as Hph'. split; [done|]. split; [|done]. by apply vwait_open, Hph'.
Qed.

(** A call of [StreamCtl] that takes the storage. *)
Lemma ctl_call v acc c0 c (f : M (Cx F L Drv) ()) :
  viewed true v acc c0 c -> rests_at TaskRun v ->
  (forall c1, viewed false v acc c0 c1 -> runs f c1 (fun _ c2 => exists v', viewed false v' acc c0 c2 /\ vok v' /\ same_end v v')) ->
  runs (win_with (i ← win_get wd_item; match i with Some _ => f | None => mret tt end)) c
    (fun _ c' => exists v', viewed true v' acc c0 c' /\ rests_at TaskRun v').
Proof.
  intros Hv Hr Hf. apply (win_with_spec v acc c0 c _ (fun _ v' => rests_at TaskRun v')); [done|]. intros c1 Hv1. apply runs_bind.
  apply (runs_get_item false v acc c0 c1); [done|]. intros i _ _. eapply runs_conseq; [by apply Hf|]. intros [] c2 (v' & Hv' & Hok & Hse).
  exists v'. split; [done|]. by eapply run_same.
Qed.
Lemma ctl_read_spec v acc c0 c : viewed true v acc c0 c -> rests_at TaskRun v ->
  runs win_ctl_read c (fun _ c' => exists v', viewed true v' acc c0 c' /\ rests_at TaskRun v').
Proof. intros Hv Hr. apply (ctl_call v acc c0 c _ Hv Hr). intros c1 Hv1. destruct Hr as (? & _ & ? & _). by apply rd_read_spec. Qed.
Lemma ctl_write_spec v acc c0 c : viewed true v acc c0 c -> rests_at TaskRun v -> filter_of c0 = Some [] ->
  runs win_ctl_write c (fun _ c' => exists v', viewed true v' acc c0 c' /\ rests_at TaskRun v').
Proof.
  intros Hv Hr Hpl. apply (ctl_call v acc c0 c _ Hv Hr). intros c1 Hv1. destruct Hr as (? & _ & ? & _).
  eapply runs_conseq; [by apply (wr_write_spec false v acc c0)|]. intros [] c2 (v' & ? & ? & ? & _). by exists v'.
Qed.
Lemma ctl_pause_spec v acc c0 c : viewed true v acc c0 c -> rests_at TaskRun v ->
  runs win_ctl_pause c (fun _ c' => exists v', viewed true v' acc c0 c' /\ rests_at TaskRun v').
Proof.
  intros Hv Hr. apply (ctl_call v acc c0 c _ Hv Hr). intros c1 Hv1. pose proof Hr as (Hok & _). apply runs_bind.
  eapply runs_conseq; [by apply (rd_pause_spec false false v acc c0)|]. intros r c2 [_ Hv2]. apply runs_ret. eexists. split; [exact Hv2|].
  destruct (rd_waits v); [|done]. split; [|by repeat split]. destruct Hok as [? ? ? Hcn ? ? ? ?]. split; try done. cbn. by destruct Hcn.
Qed.

Lemma poll_write_shutdown w c c' :
  ctx_poll_write_ready (F := F) (L := L) (D := Drv) w c = Done (Ready RdyShutdown, c') -> hasf 1 c' = true.
Proof.
  unfold ctx_poll_write_ready, filter_poll_write_ready. intros (f & c1 & [= <- <-] & Hend)%bind_done. destruct (io_filter (cx_io c)); [|done].
  apply bind_done in Hend as (cl & c2 & [= <- <-] & Hend). destruct (is_closed _); [done|]. apply bind_done in Hend as ([] & c3 & H3 & Hend).
  apply bind_done in Hend as (st & c4 & [= <- <-] & Hend). rewrite is_stopping_has in Hend. unfold hasf.
  destruct (has 1 (io_flags (cx_io c3))) eqn:Hs; [by injection Hend as <-|]. apply bind_done in Hend as (p & c5 & [= <- <-] & Hend).
  by destruct (is_write_paused _).
Qed.

Lemma poll_readiness_spec now w v acc c0 c :
  viewed true v acc c0 c -> rests_at TaskRun v -> filter_of c0 = Some [] ->
  runs (win_poll_readiness now w) c (fun r c' => exists v', viewed true v' acc c0 c' /\ rests_at TaskRun v' /\ (r = Ready RunShutdown -> hasf 1 c' = true)).
Proof.
  intros Hv Hr Hpl. unfold win_poll_readiness. apply runs_bind.
  eapply (viewed_keeps true v acc c0); [apply keeps_ctx_poll_read_ready; apply _|exact Hv|]. intros rd c1 Hv1. apply runs_bind.
  apply (runs_conseq _ _ (fun _ c' => exists v', viewed true v' acc c0 c' /\ rests_at TaskRun v')).
  { assert (forall (f : M (Cx F L Drv) ()) (x : bool), runs f c1 (fun _ c' => exists v', viewed true v' acc c0 c' /\ rests_at TaskRun v') ->
      runs (f;; mret x) c1 (fun _ c' => exists v', viewed true v' acc c0 c' /\ rests_at TaskRun v')) as Hret.
    { intros f x Hf. apply runs_bind. eapply runs_conseq; [exact Hf|]. intros [] c2 Hx. by apply runs_ret. }
    destruct rd as [|[]]; [apply Hret; by eapply ctl_pause_spec|apply Hret; by eapply ctl_read_spec|..]; apply runs_ret; by exists v. }
  intros read c2 (v2 & Hv2 & Hr2). apply runs_bind.
  assert (runs (ctx_poll_write_ready w) c2 (fun _ c' => viewed true v2 acc c0 c')) as (wr & c3 & He & Hv3).
  { eapply (viewed_keeps true v2 acc c0); [apply keeps_poll_write_ready; apply _|exact Hv2|done]. }
  exists wr, c3. split; [done|]. apply runs_bind. destruct wr as [|[]].
  - apply runs_ret, runs_ret. exists v2. do 2 (split; [done|]). by destruct read.
  - apply runs_bind. eapply runs_conseq; [by apply (ctl_write_spec v2 acc c0)|]. intros [] c4 (v4 & Hv4 & Hr4). apply runs_ret, runs_ret.
    exists v4. do 2 (split; [done|]). by destruct read.
  - apply runs_ret, runs_ret. exists v2. do 2 (split; [done|]). intros _. by eapply poll_write_shutdown.
  - apply runs_ret, runs_ret. exists v2. do 2 (split; [done|]). by destruct read.
Qed.

Lemma viewed_self c0 b v acc c : viewed b v acc c0 c -> viewed b v acc c c.
Proof. by intros (? & _ & ?). Qed.

(** What a poll of the task leaves. *)
Definition polled acc c0 t c : Prop := GoodF t acc c /\ held c0 c /\ stopped_at t c.

(** The task drops its control of a stream that was closed. *)
Lemma ctl_drop_spec v acc c0 c :
  viewed true v acc c0 c -> vok v -> v_closed v = true -> runs (win_lift win_ctl_drop) c (fun _ c' => GoodF TaskDone acc c' /\ held c0 c').
Proof.
  intros Hv Hok Hcl. destruct (viewed_drv _ _ _ _ _ Hv) as (a & Ha). destruct Hv as (HG & Hh & Hm).
  assert (forall a, pinned true v a (cx_drv c) -> exists d', win_ctl_drop (cx_drv c) = Done d' /\ wfree TaskDone a d' /\ wd_kernel d' = wd_kernel (cx_drv c)) as Hdrop.
  { intros a' (Hs & Hvw & Ho). unfold win_ctl_drop. rewrite Hs. destruct (view_some _ _ Hvw) as (i & Hi & Hve).
    destruct (wdrop_stream_spec a' (cx_drv c) Ho) as (d' & Hd & Ho' & Hdr); [unfold wdropped; rewrite Hi; by rewrite Hve in Hcl|].
    exists d'. split; [done|]. pose proof Hdr as (Hs' & Hk' & _). split; [|done]. split; [by rewrite Hs'|]. split; [done|].
    eapply (wcore_drops TaskDone (cx_drv c)); [|by eexists|done]. split; [|by rewrite Hi]. rewrite Hvw. intros ? [= <-].
    split; [done|]. split; [|done]. by apply vwait_open, (vk_closed _ Hok Hcl). }
  unfold win_lift. apply runs_bind, runs_get, runs_bind. destruct (Hdrop a Ha) as (d' & He & _ & Hk). eapply runs_lift; [exact He|].
  apply runs_modify. split; [|etrans; [done|by apply kept_held, kept_flags]].
  apply (driver_change (pinned true v) _ win_sent); [done| |unfold win_sent; by rewrite Hk]. intros a' Ha'. destruct (Hdrop a' Ha') as (d2 & He2 & Hf & _).
  rewrite He in He2. by injection He2 as <-.
Qed.

Lemma win_task_finish_spec v acc c0 c :
  viewed true v acc c0 c -> rests_at TaskShut v -> hasf 1 c = true ->
  runs win_task_finish c (fun t c' => polled acc c0 t c' /\ (v_done v <> None -> t = TaskDone)).
Proof.
  intros Hv Hr H1. pose proof Hr as (Hok & _). destruct (viewed_drv _ _ _ _ _ Hv) as (a & _ & (i & Hi & Hve)%view_some & _).
  assert (wd_done (cx_drv c) = v_done v) as Hdn by (by rewrite Hve).
  unfold win_task_finish. apply runs_bind, runs_gets. rewrite Hdn. destruct (v_done v) as [err|] eqn:Hd.
  2:{ apply runs_ret. split; [|done]. destruct (unpin TaskShut v acc c0 c Hv Hr eq_refl) as [??]. by split. }
  assert (v_closed v = true) as Hcl by (apply (vk_done _ Hok); by rewrite Hd).
  apply runs_bind, runs_flag. rewrite is_closed_has. fold (hasf 1 c). rewrite H1. apply runs_bind, runs_ret, runs_bind.
  eapply runs_conseq; [by apply (ctl_drop_spec v acc c); [apply (viewed_self c0)|..]|]. intros [] c' [HG' K']. apply runs_ret. split; [|done].
  split; [done|]. split; [destruct Hv as (_ & ? & _); by etrans|]. by apply (hd_life _ _ K'); [mem|].
Qed.

(** [StreamCtl::shutdown], and the wait for its result. *)
Lemma shut_spec v acc c0 c :
  viewed true v acc c0 c -> rests_at TaskRun v -> hasf 1 c = true -> runs (win_ctl_shutdown;; win_task_finish) c (fun t c' => polled acc c0 t c').
Proof.
  intros Hv Hr H1. apply runs_bind. pose proof Hr as (Hok & _ & Hph). eapply runs_conseq; [by apply (shutdown_spec v acc c); [apply (viewed_self c0)|..]|].
  intros [] c1 (v1 & Hv1 & Hr1). assert (held c c1) as K1 by apply Hv1. assert (hasf 1 c1 = true) as H11 by (by apply (hd_life _ _ K1); [mem|]).
  eapply runs_conseq; [by apply (win_task_finish_spec v1 acc c)|]. intros t c2 [(HG2 & K2 & Hs2) _]. split; [done|]. split; [|done].
  destruct Hv as (_ & ? & _). by etrans.
Qed.

Lemma ctx_shutdown_ready flush w c c' :
  ctx_shutdown (F := F) (L := L) (D := Drv) flush w c = Done (Ready tt, c') -> (flush = true -> hasf 1 c = true) ->
  (hasf 0 c = true -> hasf 1 c = true) -> hasf 1 c' = true.
Proof.
  intros (st & c1 & [= <- <-] & Hend)%bind_done Hf H01. apply bind_done in Hend as (cl & c2 & [= <- <-] & Hend).
  apply bind_done in Hend as (wp & c3 & [= <- <-] & Hend). rewrite is_stopping_has, is_closed_has in Hend. fold (hasf 1 c) (hasf 0 c) in Hend.
  destruct (hasf 1 c) eqn:H1.
  - rewrite andb_false_r in Hend. by injection Hend as <-.
  - destruct flush; [by discriminate Hf|]. destruct (hasf 0 c); [by discriminate H01|]. cbn in Hend.
    apply bind_done in Hend as ([] & c4 & _ & Hend). by apply bind_done in Hend as ([] & c5 & _ & [=]).
Qed.

Lemma win_task_flush_spec flush now w v acc c0 c :
  viewed true v acc c0 c -> rests_at TaskRun v -> filter_of c0 = Some [] -> (flush = true -> hasf 1 c = true) ->
  runs (win_task_flush flush now w) c (fun t c' => polled acc c0 t c').
Proof.
  intros Hv Hr Hpl Hfl. unfold win_task_flush. apply runs_bind.
  eapply runs_conseq; [apply (poll_readiness_spec now w v acc c); [by apply (viewed_self c0)|done|by apply Hv]|]. intros r c1 (v1 & Hv1 & Hr1 & _).
  assert (held c c1) as K1 by apply Hv1. assert (flush = true -> hasf 1 c1 = true) as Hfl1 by (intros Hx; apply (hd_life _ _ K1); [mem|auto]).
  assert (held c0 c) as K0 by apply Hv. apply runs_bind.
  assert (runs (ctx_shutdown flush w) c1 (fun _ c' => viewed true v1 acc c c')) as (r2 & c2 & He & Hv2).
  { eapply (viewed_keeps true v1 acc c); [apply keeps_ctx_shutdown; apply _|exact Hv1|done]. }
  exists r2, c2. split; [done|]. destruct r2 as [|[]].
  - apply runs_ret. destruct (unpin (TaskFlush flush) v1 acc c c2 Hv2 Hr1 eq_refl) as [HG2 K2]. split; [done|]. split; [by etrans|].
    destruct flush; [|done]. apply (hd_life _ _ K2); [mem|auto].
  - assert (hasf 1 c2 = true) as H12.
    { eapply ctx_shutdown_ready; [exact He|done|]. destruct Hv1 as [[[[_ [? _] _ _ _] _] _] _]. done. }
    eapply runs_conseq; [by apply (shut_spec v1 acc c)|]. intros t c3 (HG3 & K3 & Hs3). split; [done|]. split; [by etrans|done].
Qed.

Lemma win_task_poll_spec now w t acc c :
  GoodF t acc c -> is_Some (cx_mgr c) -> stopped_at t c -> filter_of c = Some [] -> runs (win_task_poll now w t) c (fun t' c' => polled acc c t' c').
Proof.
  intros HG Hm Hs Hpl. destruct (task_alive t) eqn:Ht; [|destruct t; try done; by apply runs_ret].
  destruct (pin t acc c HG Hm Ht) as (v & Hv & Hr). destruct t as [|flush| |]; cbn [win_task_poll]; [| | |done].
  - apply runs_bind. eapply runs_conseq; [by apply (poll_readiness_spec now w v acc c)|]. intros r c1 (v1 & Hv1 & Hr1 & Hrs).
    destruct r as [|st]; [apply runs_ret; by destruct (unpin TaskRun v1 acc c c1 Hv1 Hr1 eq_refl)|].
    apply runs_bind, runs_flag. destruct (is_closed (io_flags (cx_io c1))) eqn:Hcl.
    + apply (shut_spec v1 acc c); [done..|]. rewrite is_closed_has in Hcl. fold (hasf 1 c1) (hasf 0 c1) in Hcl.
      destruct Hv1 as [[[[_ [H01 _] _ _ _] _] _] _]. by apply orb_true_iff in Hcl as [|]; auto.
    + apply (win_task_flush_spec _ now w v1 acc c); [done..|]. destruct st; [by intros _; apply Hrs|done].
  - apply (win_task_flush_spec flush now w v acc c); [done..|]. by intros ->.
  - eapply runs_conseq; [by apply (win_task_finish_spec v acc c)|]. by intros t c' [? _].
Qed.

(** ** Threads, and answers of the system *)

Lemma run_job_wfree t a d j jobs x r :
  wfree t a d -> wk_jobs (wd_kernel d) = j :: jobs -> (r = None -> j <> JobShutdown) ->
  let k := set_wk_jobs jobs (wk_log (wd_kernel d) ++ [x]) (wd_kernel d) in
  wfree t a (match r with Some r => set_wd_done (Some r) (set_wd_kernel k d) | None => set_wd_kernel k d end).
Proof.
  intros (Hs & [Ht Hh Hj Hr] & Hv & Hn) Hjobs Hrn k. set (d' := match r with Some _ => _ | None => _ end).
  assert (wd_storage d' = wd_storage d /\ wd_item d' = wd_item d /\ wd_delayed_feed d' = wd_delayed_feed d /\ wd_kernel d' = k) as (E1 & E2 & E3 & E4)
    by (by destruct r).
  split; [congruence|]. split; [|split].
  - unfold wqueued, wdropped in *. split; unfold wqueued, wdropped; rewrite ?E2, ?E3, ?E4; try done.
    rewrite Hjobs in Hj. cbn in *. rewrite length_app. cbn. lia.
  - intros v' (i & Hi & ->)%view_some. rewrite E2 in Hi. destruct (Hv _ (view_item d i Hi)) as (Hok & Hwt & Hph).
    assert (has 5 (wi_flags i) = true) as Hcl.
    { unfold wdropped in Hj. rewrite Hi, Hjobs in Hj. destruct (has 5 (wi_flags i)); [done|]. cbn in Hj. lia. }
    rewrite E4. destruct Hok as [Hrd Hbuf Hwr Hcn Hclo Hclosing Hdn Hjo]. split; [|by destruct t]. split; try done. cbn.
    intros _ Hx. assert (r = None) as -> by (by destruct r). cbn in Hjo. specialize (Hjo Hcl Hx). rewrite Hjobs in Hjo.
    apply elem_of_cons in Hjo as [<-|?]; [by destruct Hrn|done].
  - rewrite E2, E4. done.
Qed.

Lemma run_job_spec t shut close acc c :
  GoodF t acc c -> runs (run_job shut close) c (fun _ c' => GoodF t acc c' /\ held c c' /\
    (forall v, view_of (cx_drv c) = Some v -> v_closed v = true ->
       exists v', view_of (cx_drv c') = Some v' /\ v_done v' <> None)).
Proof.
  intros HG. pose proof HG as [[[_ _ _ Hd _] _] _]. unfold run_job. apply runs_bind, runs_gets.
  assert (forall d', wd_kernel d' = wd_kernel (cx_drv c) \/ (exists j l, wd_kernel d' = set_wk_jobs j l (wd_kernel (cx_drv c))) ->
    (forall a, wfree t a (cx_drv c) -> wfree t a d') -> GoodF t acc (set_drv d' c) /\ held c (set_drv d' c)) as Hch.
  { intros d' Hk Hf. split; [|by apply kept_held, kept_flags]. apply (driver_change (wfree t) _ win_sent); [done|done|].
    unfold win_sent. by destruct Hk as [-> |(j & l & ->)]. }
  destruct (wk_jobs (wd_kernel (cx_drv c))) as [|j jobs] eqn:Hj.
  { apply runs_ret. split; [done|]. split; [done|]. intros v Hv Hcl. exists v. split; [done|]. intros Hn. destruct Hd as (_ & _ & Hc & _).
    destruct (Hc v Hv) as (Hok & _). pose proof (vk_job _ Hok Hcl Hn) as Hin. apply view_some in Hv as (i & _ & ->). cbn in Hin. rewrite Hj in Hin. by apply not_elem_of_nil in Hin. }
  apply runs_bind, runs_modify. set (k := set_wk_jobs _ _ _).
  assert (forall r, (r = None -> j <> JobShutdown) -> (forall v, view_of (cx_drv c) = Some v -> v_closed v = true -> r = None -> v_done v <> None) ->
    let d' := match r with Some r => set_wd_done (Some r) (set_wd_kernel k (cx_drv c)) | None => set_wd_kernel k (cx_drv c) end in
    GoodF t acc (set_drv d' c) /\ held c (set_drv d' c) /\
    (forall v, view_of (cx_drv c) = Some v -> v_closed v = true -> exists v', view_of d' = Some v' /\ v_done v' <> None)) as Hjob.
  { intros r Hr Hdn d'. destruct (Hch d') as [??]; [right; eexists _, _; by destruct r|intros a Ha; by apply (run_job_wfree t a (cx_drv c) j jobs)|].
    split; [done|]. split; [done|]. intros v Hv Hcl. pose proof (Hdn v Hv Hcl) as Hx. apply view_some in Hv as (i & Hi & ->).
    exists (mkWinView (wi_ops i) (has 5 (wi_flags i)) (wd_done d') (wd_kernel d')). split; [unfold view_of; destruct r; cbn; by rewrite Hi|].
    destruct r; [done|]. by apply Hx. }
  assert (forall v, view_of (cx_drv c) = Some v -> v_closed v = true -> j <> JobShutdown -> v_done v <> None) as Hother.
  { intros v Hv Hcl Hjs Hn. destruct Hd as (_ & [_ _ Hl _] & Hc & _). destruct (Hc v Hv) as (Hok & _). pose proof (vk_job _ Hok Hcl Hn) as Hin.
    apply view_some in Hv as (i & Hi & ->). cbn in Hin. rewrite Hj in Hin, Hl. unfold wdropped in Hl. rewrite Hi in Hl. cbn [v_closed] in Hcl. rewrite Hcl in Hl.
    destruct jobs; [|cbn in Hl; lia]. by apply list_elem_of_singleton in Hin as <-. }
  destruct j.
  - apply runs_modify. by apply (Hjob (Some _)).
  - apply runs_ret. by apply (Hjob None); [|intros; by apply Hother].
  - apply runs_ret. by apply (Hjob None); [|intros; by apply Hother].
Qed.

Lemma answers_spec t r sd cn acc c : Forall benign cn -> GoodF t acc c ->
  runs (win_kernel (fun k => set_wk_recvs r (set_wk_sends sd (set_wk_cancels cn k)))) c (fun _ c' => GoodF t acc c' /\ held c c').
Proof.
  intros Hcn HG. apply runs_modify. split; [|by apply kept_held, kept_flags]. apply (driver_change (wfree t) _ win_sent); [done| |done].
  intros a (Hs & [Ht Hh Hj Hr] & Hv & Hn). split; [done|]. split; [done|]. split; [|done].
  intros v (i & Hi & ->)%view_some. destruct (Hv _ (view_item (cx_drv c) i Hi)) as ([Hrd Hbuf Hwr _ Hclo Hclosing Hdn Hjo] & Hwt & Hph). by split.
Qed.
End task.

(** ** Programs *)

Section props.
Context {F : Type} `{!Bitflags F} `{!BitflagsLaws F} {L : Type} `{!FilterLayer L} `{!FilterLayerLaws L}.
Context {G : Type} `{!Bitflags G} `{!BitflagsLaws G} `{!PageSplit} `{!PageSplitLaws}.
Context {Item Err : Type}.

Abbreviation Drv := (WinDrv G) (only parsing).
Implicit Types (s : Sys F L (WinDrv G)) (op : win_op Item Err) (d : WinDrv G).

(** Cancellations that are refused only because the operation is over. *)
Definition win_op_ok op : Prop :=
  match op with WinOwner op => op_ok op | WinAnswers _ _ cancels => Forall benign cancels | _ => True end.

(** The invariant of the system; the stream has no layers. *)
Definition win_ok s : Prop :=
  sys_good (wfree (sy_task s)) win_sent s /\ stopped_at (sy_task s) (sy_io s) /\ filter_of (sy_io s) = Some [] /\ sy_failed s = false.
Definition win_step_ok s (o : outcome (Sys F L (WinDrv G))) : Prop := exists s', o = Done s' /\ win_ok s' /\ held (sy_io s) (sy_io s').

Lemma win_ok_good s : win_ok s ->
  Good (wfree (sy_task s)) win_sent true (sy_acc s) (sy_io s) /\ is_Some (cx_mgr (sy_io s)).
Proof. intros [(_ & ? & HG) (_ & _ & Hf)]. auto. Qed.
Lemma win_call {A} (op : M (Cx F L Drv) A) s (t : A -> TaskState) :
  runs op (sy_io s) (fun a c => polled (sy_acc s) (sy_io s) (t a) c) -> win_ok s ->
  win_step_ok s (sys_call op (fun a c => mkSys c (t a) (sy_acc s) (sy_failed s)) s).
Proof.
  intros (a & c & He & HG & K & Hs) Hok. destruct (win_ok_good s Hok) as [_ Hm]. destruct Hok as (_ & _ & Hpl & ->).
  unfold sys_call, win_step_ok. rewrite He. eexists. split; [done|]. split; [|done].
  split; [by apply good_sys_good; [|apply K]|]. split; [done|]. split; [by apply K|done].
Qed.
Lemma win_plain {A} (op : M (Cx F L Drv) A) s :
  runs op (sy_io s) (fun _ c => Good (wfree (sy_task s)) win_sent true (sy_acc s) c /\ held (sy_io s) c) ->
  win_ok s -> win_step_ok s (plain op s).
Proof.
  intros Hr Hok. apply (win_call op s (fun _ => sy_task s)); [|done]. eapply runs_conseq; [exact Hr|].
  intros a c [HG K]. split; [done|]. split; [done|]. eapply stopped_held; [apply Hok|done].
Qed.

Lemma win_step_all op s : win_op_ok op -> win_ok s -> win_step_ok s (win_step op s).
Proof.
  intros Hop Hs. destruct (win_ok_good s Hs) as [HG Hm]. pose proof Hs as (Hg & Hst & Hpl & Hf). destruct op; cbn [win_step].
  - destruct (owner_step_good (wfree (sy_task s)) win_sent op s Hop HG Hm) as (s' & He & [HS' HG' _ K] & Ht).
    exists s'. split; [done|]. split; [|done]. unfold win_ok. rewrite Ht. split; [split; [done|]; split; [by apply K|done]|].
    split; [by eapply stopped_held|]. split; [by apply K|]. by rewrite (owner_step_plain op s s' Hpl He).
  - apply win_plain; [|done]. by apply minds_poll_completions.
  - apply (win_call _ s (fun t => t)); [|done]. by apply win_task_poll_spec.
  - apply win_plain; [|done]. eapply runs_conseq; [by apply run_job_spec|]. by intros a c (? & ? & _).
  - apply win_plain; [|done]. by apply answers_spec.
Qed.
Lemma win_exec_ok (ops : list (win_op Item Err)) s : Forall win_op_ok ops -> win_ok s -> win_step_ok s (win_exec ops s).
Proof.
  intros Hops. revert s. induction Hops as [|op ops Hop _ IH]; intros s Hs; [by exists s|]. cbn [win_exec].
  destruct (win_step_all op s Hop Hs) as (s1 & He1 & Hs1 & K1). rewrite He1. cbn.
  destruct (IH s1 Hs1) as (s2 & He & Hs2 & K2). exists s2. split; [done|]. split; [done|by etrans].
Qed.

Lemma win_exec_step op ops s s1 : win_step op s = Done s1 -> win_exec (op :: ops) s = win_exec ops s1.
Proof. intros He. cbn [win_exec]. by rewrite He. Qed.

Lemma win_new_ok id cfg m : win_ok (win_new id cfg m).
Proof.
  split; [|done]. apply good_sys_good; [|by eexists]. set (c := mkCx _ _ _ _).
  assert (forall k, hasf k c = Z.testbit (if 0 <? ic_write_buf_threshold cfg then 33280 else 512) k) as Hk by (intros k; apply has_new).
  assert (forall k, has k (fl_empty : G) = false) as He by (intros k; unfold has; by rewrite fl_bits_empty, Z.bits_0).
  split; [split; [split|]|]; rewrite ?Hk.
  - split; [|by intros ls [= <-]]. split; [cbn; lia|]. repeat constructor; by eexists.
  - by destruct (0 <? _).
  - done.
  - split; [done|]. split.
    + split; unfold wdropped; cbn [wd_item cx_drv c win_register wi_flags]; by rewrite ?He.
    + split; [|done]. intros v (i & [= <-] & ->)%view_some. split; [|split; [done|split; [apply He|done]]].
      split; unfold rd_waits, wr_waits, rd_closing, wr_closing, v_close; cbn -[has]; by rewrite ?He.
  - by destruct (0 <? _).
  - by right.
  - right. intros _. by left.
Qed.

Definition win_terminated s : bool := is_terminated (io_flags (cx_io (sy_io s))).
Definition win_reached s : Prop := exists id cfg m ops, Forall win_op_ok ops /\ win_exec (Item := Item) (Err := Err) ops (win_new id cfg m) = Done s.
Lemma win_reached_ok s : win_reached s -> win_ok s.
Proof.
  intros (id & cfg & m & ops & Hops & He). destruct (win_exec_ok ops _ Hops (win_new_ok id cfg m)) as (s' & He' & Hs & _).
  rewrite He in He'. by injection He' as <-.
Qed.

(** C14. On a completion port, every program over a stream - calls of the
    owner, completions in any order with short and failed sends, polls of the
    task, threads that close the socket - returns without a panic and without
    touching an operation whose slot was freed, as long as a cancellation is
    refused only because the operation is over; and until the stream is
    terminated, what the socket took, what the send in flight holds and what
    is buffered make up what was accepted, in order. *)
Theorem win_output_in_order id cfg m ops :
  Forall win_op_ok ops ->
  exists s, win_exec ops (win_new (F := F) (L := L) (G := G) id cfg m) = Done s /\
    (win_terminated s = false ->
     let k := wd_kernel (cx_drv (sy_io s)) in
     wk_sent k ++ default [] (wk_wr k) ++ wcontent (io_buffer (cx_io (sy_io s))) 0 = sy_acc s).
Proof.
  intros Hops. destruct (win_exec_ok ops _ Hops (win_new_ok id cfg m)) as (s & He & [Hs (_ & Hpl & _)] & _).
  exists s. split; [done|]. unfold win_terminated. rewrite is_terminated_has. intros Hz.
  destruct Hs as [[_ [|[_ Hst]]] _]; [unfold hasf in *; congruence|]. rewrite app_assoc. by apply Hst.
Qed.

Lemma win_driver s : win_ok s -> wfree (sy_task s) (handle_of (sy_io s)) (cx_drv (sy_io s)).
Proof. by intros [[[[_ _ _ Hd _] _] _] _]. Qed.

(** C15. On a completion port the slot of a stream, which holds the memory of
    its operations, is freed only when the kernel has returned both, the task
    of the stream is over, its handle was dropped and no drop waits; and the
    socket is closed at most once, and never while an operation is in flight.
    This holds in every state that a program reaches in which cancellations
    are refused only because the operation is over ([win_op_ok], as in
    [win_output_in_order]); [win_failed_cancel_uses_freed] shows what follows
    from another refusal. *)
Theorem win_slot_freed_last s :
  win_reached s ->
  let d := cx_drv (sy_io s) in let k := wd_kernel d in
  (wd_item d = None -> wk_rd k = false /\ wk_wr k = None /\ sy_task s = TaskDone /\ io_handle (cx_io (sy_io s)) = false /\ wd_delayed_feed d = []) /\
  (length (wk_jobs k) + length (wk_log k) <= 1)%nat /\
  (wk_jobs k <> [] \/ wk_log k <> [] -> wk_rd k = false /\ wk_wr k = None).
Proof.
  intros Hs%win_reached_ok d k. destruct (win_driver s Hs) as (_ & Ho & Hv & Hn). pose proof Ho as [Ht Hh Hj Hr]. fold d in Ht, Hh, Hj, Hr, Hv, Hn. fold k in Hj, Hn. split; [|split].
  - intros Hi. destruct (Hn Hi) as [? ?]. do 2 (split; [done|]). unfold wdropped in *. rewrite Hi in *. fold (handle_of (sy_io s)).
    split; [destruct (sy_task s); cbn in Ht; (lia || done)|]. split; [destruct (handle_of (sy_io s)); [cbn in Hh; lia|done]|].
    destruct (wd_delayed_feed d) as [|x q] eqn:Hq; [done|]. exfalso. pose proof (wowners_pop _ _ x q d Hq Ho) as Hp.
    assert (is_Some (wd_item (set_wd_delayed q d))) as [i Hx] by (destruct x, Hp as [_ Hp]; apply (wowners_item _ _ _ Hp); auto). cbn in Hx. congruence.
  - rewrite Hj. destruct (wdropped 5 d); cbn; lia.
  - intros Hjl. assert (wdropped 5 d = true) as H5.
    { destruct (wdropped 5 d); [done|]. cbn in Hj. destruct Hjl as [Hx|Hx]; [destruct (wk_jobs k)|destruct (wk_log k)]; cbn in Hj; (done || lia). }
    unfold wdropped in H5. destruct (wd_item d) as [i|] eqn:Hi; [|by apply Hn]. destruct (Hv _ (view_item d i Hi)) as (Hok & _). by destruct (closed_idle _ Hok H5).
Qed.

(** One completion, while the task waits for the end of the socket. *)
Lemma shut_event (ev : WinEvent) v acc (c : Cx F L Drv) :
  Good (wfree TaskShut) win_sent true acc c -> is_Some (cx_mgr c) -> hasf 1 c = true -> filter_of c = Some [] -> view_of (cx_drv c) = Some v ->
  vok v /\ runs (win_poll_completions [ev]) c (fun _ c' =>
    Good (wfree TaskShut) win_sent true acc c' /\ held c c' /\ exists v', view_of (cx_drv c') = Some v' /\ shut_after ev v v').
Proof.
  intros HG Hm H1 Hpl Hvw. destruct (pin TaskShut acc c HG Hm eq_refl) as (v' & Hv & Hr).
  assert (v' = v) as -> by (destruct (viewed_drv _ _ _ _ _ Hv) as (? & _ & Hx & _); congruence). split; [apply Hr|].
  apply (one_event_spec ev TaskShut v acc c (shut_after ev v)); [done|done|]. destruct ev as [|a|a].
  - apply runs_bind, runs_gets, runs_ret. by exists v.
  - eapply runs_conseq; [by apply (deliver_read_spec a TaskShut v)|]. intros [] c' (v' & ? & ? & HR). exists v'. auto.
  - eapply runs_conseq; [by apply (deliver_write_spec a TaskShut v)|]. intros [] c' (v' & ? & ? & HR). exists v'. auto.
Qed.

(** Both completions, in either order, close the socket. *)
Lemma both_close a b ev1 ev2 v v1 v2 :
  [ev1; ev2] ≡ₚ [EvRead a; EvWrite b] -> vok v1 -> shut_after (G := G) ev1 v v1 -> shut_after ev2 v1 v2 -> v_closed v2 = true.
Proof.
  intros Hp Hok. assert (ev1 = EvRead a /\ ev2 = EvWrite b \/ ev1 = EvWrite b /\ ev2 = EvRead a) as [[-> ->]|[-> ->]]; cbn [shut_after].
  { apply Permutation_length_2 in Hp as [[? ?]|[? ?]]; auto. }
  - intros [Hr _] [[|Hx] _]; [done|]. destruct Hr as [Hc|]; [|congruence]. destruct (vk_closed _ Hok Hc). congruence.
  - intros [_ Hw] [_ HR]. auto.
Qed.

Lemma win_exec_plain {A} (op : win_op Item Err) (f : M (Cx F L Drv) A) ops s a c :
  (forall s, win_step op s = plain f s) -> f (sy_io s) = Done (a, c) ->
  win_exec (op :: ops) s = win_exec ops (mkSys c (sy_task s) (sy_acc s) (sy_failed s)).
Proof. intros Hop He. apply win_exec_step. rewrite Hop. unfold plain, sys_call. by rewrite He. Qed.

(** C28. A stream on a completion port is closed as soon as the kernel has
    returned what was in flight: from every state that a program reaches in
    which cancellations are refused only because the operation is over
    ([win_op_ok], as in [win_output_in_order]) and in which the task waits for
    the end of the socket, the completions of the receive and of the send in
    either order, then a thread that closes the socket, and the next poll ends
    the task, whatever the calls return. *)
Theorem win_close_completes a b evs shut close now w s :
  win_reached s -> sy_task s = TaskShut -> evs ≡ₚ [EvRead a; EvWrite b] ->
  exists s', win_exec (Item := Item) (Err := Err) (((fun ev => WinEvents [ev]) <$> evs) ++ [WinThread shut close; WinTaskPoll now w]) s = Done s' /\
    sy_task s' = TaskDone.
Proof.
  intros Hs%win_reached_ok Ht Hp. destruct (win_ok_good s Hs) as [HG Hm]. destruct Hs as (_ & Hst & Hpl & _). rewrite Ht in HG, Hst. cbn in Hst.
  pose proof (Permutation_length Hp) as Hlen. destruct evs as [|ev1 [|ev2 [|]]]; try done. cbn [fmap list_fmap app].
  destruct s as [c t acc f]. cbn in Ht, HG, Hm, Hst, Hpl. subst t.
  destruct (pin TaskShut acc c HG Hm eq_refl) as (v & Hv & _). destruct (viewed_drv _ _ _ _ _ Hv) as (? & _ & Hvw & _).
  destruct (shut_event ev1 v acc c HG Hm Hst Hpl Hvw) as (_ & [] & c1 & He1 & HG1 & K1 & v1 & Hv1 & HR1).
  destruct (shut_event ev2 v1 acc c1 HG1) as (Hok1 & [] & c2 & He2 & HG2 & K2 & v2 & Hv2 & HR2);
    [by apply K1|by apply (hd_life _ _ K1); [mem|]|by apply K1|done|].
  pose proof (both_close a b ev1 ev2 v v1 v2 Hp Hok1 HR1 HR2) as Hcl.
  destruct (run_job_spec TaskShut shut close acc c2 HG2) as ([] & c3 & He3 & HG3 & K3 & Hdone). destruct (Hdone v2 Hv2 Hcl) as (v3 & Hv3 & Hd3).
  assert (held c c3) as K by (do 2 (etrans; [done|]); done).
  destruct (pin TaskShut acc c3 HG3) as (v3' & Hv3' & Hr3); [by apply K|done|].
  assert (v3' = v3) as -> by (destruct (viewed_drv _ _ _ _ _ Hv3') as (? & _ & Hx & _); congruence).
  destruct (win_task_finish_spec v3 acc c3 c3 Hv3' Hr3) as (t & c4 & He4 & _ & Ht4); [by apply (hd_life _ _ K); [mem|]|].
  exists (mkSys c4 t acc f). split; [|by apply Ht4].
  erewrite win_exec_plain by done. erewrite win_exec_plain by done. erewrite win_exec_plain by done.
  erewrite win_exec_step; [done|]. cbn [win_step]. unfold sys_call. cbn [sy_io sy_task win_task_poll]. by rewrite He4.
Qed.
End props.

(** ** Concrete programs *)

Definition wex_new : Sys Z TestLayer (WinDrv Z) := win_new (Some 1%nat) ex_cfg ex_mgr.
Definition wex_state (ops : list (win_op () ())) : Sys Z TestLayer (WinDrv Z) :=
  match win_exec ops wex_new with Done s => s | Fault _ => wex_new end.
Lemma wex_state_eq ops s : win_exec ops wex_new = Done s -> s = wex_state ops.
Proof. unfold wex_state. by intros ->. Qed.

(** The owner writes three bytes and the task starts to send them. *)
Definition wex_start : list (win_op () ()) :=
  [WinTaskPoll 0 7; WinOwner (OpWrite [1; 2; 3]); WinOwner OpSendScheduled; WinTaskPoll 0 7].
(** The socket takes two of them, and the owner writes another one. *)
Definition wex_send : list (win_op () ()) := wex_start ++ [WinOwner (OpWrite [4]); WinEvents [EvWrite (inl 2)]].
(** The owner closes the stream while the send is in flight. *)
Definition wex_closing : list (win_op () ()) := wex_start ++ [WinOwner OpClose; WinTaskPoll 0 7].
Definition wex_end : list (win_op () ()) :=
  wex_closing ++ [WinEvents [EvRead (inr 995); EvWrite (inr 995)]; WinThread None None; WinTaskPoll 0 7].
Definition wex_benign : list (win_op () ()) := WinAnswers [] [] [Some ERROR_NOT_FOUND] :: wex_end.

Ltac wex_reached ops :=
  exists (Some 1%nat), ex_cfg, ex_mgr, ops; split; [repeat constructor|vm_compute; reflexivity].

Lemma win_output_in_order_witness : exists s, win_exec wex_send wex_new = Done s /\
  (win_terminated s = false ->
   let k := wd_kernel (cx_drv (sy_io s)) in
   wk_sent k ++ default [] (wk_wr k) ++ wcontent (io_buffer (cx_io (sy_io s))) 0 = sy_acc s) /\
  win_terminated s = false /\ wk_sent (wd_kernel (cx_drv (sy_io s))) = [1; 2] /\ wk_wr (wd_kernel (cx_drv (sy_io s))) = Some [3; 4].
Proof.
  destruct (win_output_in_order (F := Z) (L := TestLayer) (G := Z) (Some 1%nat) ex_cfg ex_mgr wex_send) as (s & He & Hs); [repeat constructor|].
  exists s. split; [exact He|]. split; [exact Hs|]. rewrite (wex_state_eq wex_send s He).
  split; [vm_compute; reflexivity|]. split; vm_compute; reflexivity.
Defined.

Lemma win_slot_freed_last_witness :
  let k := wd_kernel (cx_drv (sy_io (wex_state wex_benign))) in
  wk_log k = [true] /\ wk_rd k = false /\ wk_wr k = None /\ (length (wk_jobs k) + length (wk_log k) <= 1)%nat.
Proof.
  destruct (win_slot_freed_last (Item := ()) (Err := ()) (wex_state wex_benign)) as (_ & Hn & Hk); [wex_reached wex_benign|].
  split; [vm_compute; reflexivity|]. destruct Hk as [Hr Hw]; [right; vm_compute; discriminate|]. split; [exact Hr|]. split; [exact Hw|exact Hn].
Defined.

Lemma win_close_completes_witness : exists s',
  win_exec (Item := ()) (Err := ()) [WinEvents [EvWrite (inl 2)]; WinEvents [EvRead (inr 995)]; WinThread None None; WinTaskPoll 0 7] (wex_state wex_closing) = Done s' /\
  sy_task s' = TaskDone.
Proof.
  apply (win_close_completes (Item := ()) (Err := ()) (inr 995) (inl 2) [EvWrite (inl 2); EvRead (inr 995)] None None 0 7 (wex_state wex_closing));
    [wex_reached wex_closing|vm_compute; reflexivity|apply perm_swap].
Defined.

(** ** What the driver gets wrong *)

(** C40. On a completion port a graceful close loses output: a send that is
    pending is reported as nothing left to write, so that the close does not
    wait for it but cancels it; the socket is closed with three accepted
    bytes unsent, and the stream reports no error. *)
Theorem win_close_drops_output : exists s,
  win_exec wex_end wex_new = Done s /\ win_terminated s = false /\ sy_task s = TaskDone /\
  wk_log (wd_kernel (cx_drv (sy_io s))) = [true] /\ wd_done (cx_drv (sy_io s)) = Some None /\
  sy_acc s = [1; 2; 3] /\ wk_sent (wd_kernel (cx_drv (sy_io s))) = [].
Proof. exists (wex_state wex_end). do 6 (split; [vm_compute; reflexivity|]). vm_compute. reflexivity. Qed.

(** The owner closes the stream, and neither operation can be cancelled; the
    socket is closed, the task ends and the queue of drops is worked off. *)
Definition wex_refused : list (win_op () ()) :=
  wex_start ++ [WinOwner OpClose; WinAnswers [] [] [Some 6; Some 6]; WinTaskPoll 0 7; WinThread None None; WinTaskPoll 0 7; WinEvents []].

(** A cancellation that fails is taken for an operation that is over: the
    slot, with the memory of the operations, is freed while the kernel holds
    both, and the completion of the send uses freed memory. *)
Theorem win_failed_cancel_uses_freed : exists s,
  win_exec wex_refused wex_new = Done s /\
  (let d := cx_drv (sy_io s) in wd_item d = None /\ wk_rd (wd_kernel d) = true /\ wk_wr (wd_kernel d) = Some [1; 2; 3]) /\
  win_exec (Item := ()) (Err := ()) [WinEvents [EvWrite (inl 3)]] s = Fault Undefined.
Proof.
  exists (wex_state wex_refused). split; [vm_compute; reflexivity|]. split; [|vm_compute; reflexivity].
  do 2 (split; [vm_compute; reflexivity|]). vm_compute. reflexivity.
Qed.

(** After a failed cancellation the buffer of the receive is gone, and the
    next one that fails panics: here those of two polls of a paused stream. *)
Theorem win_failed_cancel_panics :
  win_exec (Item := ()) (Err := ()) [WinTaskPoll 0 7; WinOwner OpPause; WinAnswers [] [] [Some 6; Some 6]; WinTaskPoll 0 7; WinTaskPoll 0 7] wex_new = Fault Panic.
Proof. vm_compute. reflexivity. Qed.

(** The peer resets the connection; shutting the socket down fails because it
    is not connected any more. *)
Definition wex_reset : list (win_op () ()) :=
  [WinTaskPoll 0 7; WinEvents [EvRead (inr ERROR_NETNAME_DELETED)]; WinTaskPoll 0 7; WinThread (Some (win_error 10057)) None; WinTaskPoll 0 7; WinEvents []].

(** A connection that was reset leaks its socket: [closesocket] is skipped
    when [shutdown] fails, and the slot is freed. *)
Theorem win_failed_shutdown_leaks : exists s,
  win_exec wex_reset wex_new = Done s /\ sy_task s = TaskDone /\
  wk_log (wd_kernel (cx_drv (sy_io s))) = [false] /\ wk_jobs (wd_kernel (cx_drv (sy_io s))) = [] /\ wd_item (cx_drv (sy_io s)) = None.
Proof. exists (wex_state wex_reset). do 4 (split; [vm_compute; reflexivity|]). vm_compute. reflexivity. Qed.
