(* ===== verification/Iocp.v ===== *)
(** * The poller on completion ports

    Models geario-polling/src/iocp/mod.rs with [Afd] and [IoStatusBlock] of
    afd.rs and [IoCompletionPort] of port.rs: the packets of sockets and of
    waitable handles, the queue of pending updates, and the completion port.

    A packet is an address in [ip_packets]; what owns a reference to it is
    written out (the map of sources, the queue, the port, a poll that is in
    flight).  The calls of the system are the class [NtKernel]; a poll that was
    accepted stays in flight until the system completes it. *)
From Stdlib Require Import ZArith Lia.
From stdpp Require Import base numbers gmap list.
From S2P Require Import Prelude PollFds.

(** ** Masks *)

Definition AFD_RECEIVE : Z := 0x001.
Definition AFD_RECEIVE_EXPEDITED : Z := 0x002.
Definition AFD_SEND : Z := 0x004.
Definition AFD_DISCONNECT : Z := 0x008.
Definition AFD_ABORT : Z := 0x010.
Definition AFD_LOCAL_CLOSE : Z := 0x020.
Definition AFD_ACCEPT : Z := 0x080.
Definition AFD_CONNECT_FAIL : Z := 0x100.

Definition AFD_ERRORS : Z := Z.lor AFD_ABORT AFD_CONNECT_FAIL.
Definition AFD_READABLE : Z := Z.lor (Z.lor (Z.lor AFD_RECEIVE AFD_ACCEPT) AFD_DISCONNECT) AFD_RECEIVE_EXPEDITED.

(** [AfdPollMask::set], and the accessors of [EventExtra]. *)
Definition mask_set (other : Z) (value : bool) (mask : Z) : Z :=
  if value then Z.lor mask other else Z.ldiff mask other.
Definition set_hup (active : bool) (ev : Event) : Event :=
  mkEvent (ev_key ev) (ev_readable ev) (ev_writable ev) (mask_set AFD_ABORT active (ev_extra ev)).
Definition set_pri (active : bool) (ev : Event) : Event :=
  mkEvent (ev_key ev) (ev_readable ev) (ev_writable ev) (mask_set AFD_RECEIVE_EXPEDITED active (ev_extra ev)).

Definition event_properties_to_afd_mask (readable writable error : bool) : Z :=
  Z.lor (Z.lor (if error || readable || writable then AFD_ERRORS else 0) (if readable then AFD_READABLE else 0))
        (if writable then AFD_SEND else 0).
Definition event_to_afd_mask (ev : Event) (error : bool) : Z :=
  Z.lor (event_properties_to_afd_mask (ev_readable ev) (ev_writable ev) error) (ev_extra ev).
Definition afd_mask_to_event (mask : Z) : bool * bool :=
  let readable := intersects mask AFD_READABLE in
  let writable := intersects mask AFD_SEND in
  if intersects mask AFD_ERRORS then (true, true) else (readable, writable).

(** [Event::none]. *)
Definition event_none (key : Z) : Event := event_new key false false.

(** ** Timeouts

    [INFINITE] is the largest [u32]; a duration is its seconds and its
    nanoseconds. *)
Definition INFINITE : Z := u32_max.
Definition opt_u64 (x : Z) : option Z := if x <? u64_modulus then Some x else None.
Definition dur2timeout (secs nanos : Z) : Z :=
  match ms ← opt_u64 (secs * 1000);
        ms ← opt_u64 (ms + nanos / 1000000);
        ms ← (if 0 <? nanos mod 1000000 then opt_u64 (ms + 1) else Some ms);
        if ms <? u32_modulus then Some ms else None
  with Some ms => ms | None => INFINITE end.

(** ** Packets *)

Inductive SocketStatus := SkIdle | SkPolling (flags : Z) | SkCancelled.
Record SocketState := mkSocketState {
  ss_socket : Z;
  ss_base_socket : Z;
  ss_interest : Event;
  ss_interest_error : bool;
  ss_mode : PollMode;
  ss_afd : nat;
  ss_waiting_on_delete : bool;
  ss_status : SocketStatus;
}.
Inductive WaitableStatus := WtIdle | WtWaiting | WtCancelled.
Record WaitableState := mkWaitableState {
  ws_handle : Z;
  ws_interest : Event;
  ws_mode : PollMode;
  ws_status : WaitableStatus;
}.
Inductive PacketInner :=
  | PkSocket (s : SocketState)
  | PkWaitable (w : WaitableState)
  | PkCustom (e : Event)
  | PkWakeup.

(** [IoStatusBlock]; the status and the [AfdPollInfo] are what the system
    reads and writes while a poll is in flight. *)
Record Packet := mkPacket {
  pk_in_use : bool;
  pk_iosb : Z;
  pk_handle_count : Z;
  pk_events : Z;
  pk_data : PacketInner;
}.
Definition packet_new (d : PacketInner) : Packet := mkPacket false 0 0 0 d.
Definition set_pk_in_use (b : bool) (k : Packet) : Packet := mkPacket b (pk_iosb k) (pk_handle_count k) (pk_events k) (pk_data k).
Definition set_pk_data (d : PacketInner) (k : Packet) : Packet := mkPacket (pk_in_use k) (pk_iosb k) (pk_handle_count k) (pk_events k) d.
Definition set_pk_info (status count events : Z) (k : Packet) : Packet := mkPacket (pk_in_use k) status count events (pk_data k).
Definition set_ss_status (x : SocketStatus) (s : SocketState) : SocketState :=
  mkSocketState (ss_socket s) (ss_base_socket s) (ss_interest s) (ss_interest_error s) (ss_mode s) (ss_afd s) (ss_waiting_on_delete s) x.
Definition set_ss_interest (ev : Event) (error : bool) (mode : PollMode) (s : SocketState) : SocketState :=
  mkSocketState (ss_socket s) (ss_base_socket s) ev error mode (ss_afd s) (ss_waiting_on_delete s) (ss_status s).
Definition set_ss_waiting (s : SocketState) : SocketState :=
  mkSocketState (ss_socket s) (ss_base_socket s) (ss_interest s) (ss_interest_error s) (ss_mode s) (ss_afd s) true (ss_status s).
Definition set_ws_status (x : WaitableStatus) (w : WaitableState) : WaitableState :=
  mkWaitableState (ws_handle w) (ws_interest w) (ws_mode w) x.
Definition set_ws_interest (ev : Event) (mode : PollMode) (w : WaitableState) : WaitableState :=
  mkWaitableState (ws_handle w) ev mode (ws_status w).
Definition ss_mask (s : SocketState) : Z := event_to_afd_mask (ss_interest s) (ss_interest_error s).

Definition STATUS_SUCCESS : Z := 0.
Definition STATUS_PENDING : Z := 0x103.
Definition STATUS_CANCELLED : Z := 0xC0000120 - 2 ^ 32.
Definition ERROR_INVALID_HANDLE : Z := 6.
Definition ERROR_IO_PENDING : Z := 997.
Definition WSAEWOULDBLOCK : Z := 10035.

Inductive ip_err := IpKind (k : io_kind) | IpOs (code : Z) | IpOther.

(** What the system answers: a request for a poll, a cancellation, a wait for
    a handle, an [Afd] device, the base of a socket.  A failure comes with its
    error code. *)
Inductive nt_answer := NtSuccess | NtPending | NtFail (code : Z).
Class NtKernel (K : Type) := {
  nt_poll : nat -> Z -> Z -> K -> nt_answer * K;
  nt_cancel : nat -> K -> option Z * K;
  nt_register_wait : Z -> K -> option Z * K;
  nt_create_afd : K -> option Z * K;
  nt_base_socket : Z -> K -> (Z + ip_err) * K;
}.

(** A thread in [add], [modify], [delete] or their variants for handles: about
    to set the events, in [update_packet] before it looks at [polling] or
    after, about to run [begin_delete], or in the callback of a wait. *)
Inductive ip_phase :=
  | IpSet (p : nat) (ev : Event) (mode : PollMode)
  | IpUpdate (p : nat)
  | IpPush (p : nat)
  | IpDelete (p : nat)
  | IpCallback (p : nat)
  | IpRet (r : () + ip_err).

(** The thread in [wait_deadline]: about to drain the queue, blocked on the
    port, or at the completions it took. *)
Inductive ip_waiter :=
  | IwIdle
  | IwEnter (notified : bool)
  | IwDrain (notified : bool)
  | IwBlocked (notified : bool)
  | IwFeed (notified : bool) (new_events : nat) (zero : bool) (entries : list nat).

(** [ip_inflight] are the polls the system has accepted and not completed,
    [ip_waits] the handles it waits for, [ip_leaked] the references that no
    one owns any more.  [ip_log] collects the events in the order of their
    delivery, and [ip_failed] tells whether a poll, a cancellation or a wait was refused. *)
Record Iocp (K : Type) := mkIocp {
  ip_packets : gmap nat Packet;
  ip_next : nat;
  ip_afd : list nat;
  ip_sources : gmap Z nat;
  ip_waitables : gmap Z nat;
  ip_pending : list nat;
  ip_polling : bool;
  ip_port : list nat;
  ip_inflight : list nat;
  ip_waits : list nat;
  ip_leaked : list nat;
  ip_threads : gmap nat ip_phase;
  ip_waiter_at : ip_waiter;
  ip_log : list (nat * Event);
  ip_failed : bool;
  ip_kernel : K;
}.
Arguments mkIocp {K}.
Arguments ip_packets {K}. Arguments ip_next {K}. Arguments ip_afd {K}. Arguments ip_sources {K}. Arguments ip_waitables {K}.
Arguments ip_pending {K}. Arguments ip_polling {K}. Arguments ip_port {K}. Arguments ip_inflight {K}. Arguments ip_waits {K}.
Arguments ip_leaked {K}. Arguments ip_threads {K}. Arguments ip_waiter_at {K}. Arguments ip_log {K}. Arguments ip_failed {K}. Arguments ip_kernel {K}.

Section updates.
Context {K : Type}.
Implicit Types y : Iocp K.
Definition set_packets x y := mkIocp x (ip_next y) (ip_afd y) (ip_sources y) (ip_waitables y) (ip_pending y) (ip_polling y) (ip_port y) (ip_inflight y) (ip_waits y) (ip_leaked y) (ip_threads y) (ip_waiter_at y) (ip_log y) (ip_failed y) (ip_kernel y).
Definition set_next x y := mkIocp (ip_packets y) x (ip_afd y) (ip_sources y) (ip_waitables y) (ip_pending y) (ip_polling y) (ip_port y) (ip_inflight y) (ip_waits y) (ip_leaked y) (ip_threads y) (ip_waiter_at y) (ip_log y) (ip_failed y) (ip_kernel y).
Definition set_afd x y := mkIocp (ip_packets y) (ip_next y) x (ip_sources y) (ip_waitables y) (ip_pending y) (ip_polling y) (ip_port y) (ip_inflight y) (ip_waits y) (ip_leaked y) (ip_threads y) (ip_waiter_at y) (ip_log y) (ip_failed y) (ip_kernel y).
Definition set_sources x y := mkIocp (ip_packets y) (ip_next y) (ip_afd y) x (ip_waitables y) (ip_pending y) (ip_polling y) (ip_port y) (ip_inflight y) (ip_waits y) (ip_leaked y) (ip_threads y) (ip_waiter_at y) (ip_log y) (ip_failed y) (ip_kernel y).
Definition set_waitables x y := mkIocp (ip_packets y) (ip_next y) (ip_afd y) (ip_sources y) x (ip_pending y) (ip_polling y) (ip_port y) (ip_inflight y) (ip_waits y) (ip_leaked y) (ip_threads y) (ip_waiter_at y) (ip_log y) (ip_failed y) (ip_kernel y).
Definition set_pending x y := mkIocp (ip_packets y) (ip_next y) (ip_afd y) (ip_sources y) (ip_waitables y) x (ip_polling y) (ip_port y) (ip_inflight y) (ip_waits y) (ip_leaked y) (ip_threads y) (ip_waiter_at y) (ip_log y) (ip_failed y) (ip_kernel y).
Definition set_polling x y := mkIocp (ip_packets y) (ip_next y) (ip_afd y) (ip_sources y) (ip_waitables y) (ip_pending y) x (ip_port y) (ip_inflight y) (ip_waits y) (ip_leaked y) (ip_threads y) (ip_waiter_at y) (ip_log y) (ip_failed y) (ip_kernel y).
Definition set_port x y := mkIocp (ip_packets y) (ip_next y) (ip_afd y) (ip_sources y) (ip_waitables y) (ip_pending y) (ip_polling y) x (ip_inflight y) (ip_waits y) (ip_leaked y) (ip_threads y) (ip_waiter_at y) (ip_log y) (ip_failed y) (ip_kernel y).
Definition set_inflight x y := mkIocp (ip_packets y) (ip_next y) (ip_afd y) (ip_sources y) (ip_waitables y) (ip_pending y) (ip_polling y) (ip_port y) x (ip_waits y) (ip_leaked y) (ip_threads y) (ip_waiter_at y) (ip_log y) (ip_failed y) (ip_kernel y).
Definition set_waits x y := mkIocp (ip_packets y) (ip_next y) (ip_afd y) (ip_sources y) (ip_waitables y) (ip_pending y) (ip_polling y) (ip_port y) (ip_inflight y) x (ip_leaked y) (ip_threads y) (ip_waiter_at y) (ip_log y) (ip_failed y) (ip_kernel y).
Definition set_leaked x y := mkIocp (ip_packets y) (ip_next y) (ip_afd y) (ip_sources y) (ip_waitables y) (ip_pending y) (ip_polling y) (ip_port y) (ip_inflight y) (ip_waits y) x (ip_threads y) (ip_waiter_at y) (ip_log y) (ip_failed y) (ip_kernel y).
Definition set_thread t x y := mkIocp (ip_packets y) (ip_next y) (ip_afd y) (ip_sources y) (ip_waitables y) (ip_pending y) (ip_polling y) (ip_port y) (ip_inflight y) (ip_waits y) (ip_leaked y) (<[t := x]> (ip_threads y)) (ip_waiter_at y) (ip_log y) (ip_failed y) (ip_kernel y).
Definition set_waiter_at x y := mkIocp (ip_packets y) (ip_next y) (ip_afd y) (ip_sources y) (ip_waitables y) (ip_pending y) (ip_polling y) (ip_port y) (ip_inflight y) (ip_waits y) (ip_leaked y) (ip_threads y) x (ip_log y) (ip_failed y) (ip_kernel y).
Definition set_log x y := mkIocp (ip_packets y) (ip_next y) (ip_afd y) (ip_sources y) (ip_waitables y) (ip_pending y) (ip_polling y) (ip_port y) (ip_inflight y) (ip_waits y) (ip_leaked y) (ip_threads y) (ip_waiter_at y) x (ip_failed y) (ip_kernel y).
Definition set_failed y := mkIocp (ip_packets y) (ip_next y) (ip_afd y) (ip_sources y) (ip_waitables y) (ip_pending y) (ip_polling y) (ip_port y) (ip_inflight y) (ip_waits y) (ip_leaked y) (ip_threads y) (ip_waiter_at y) (ip_log y) true (ip_kernel y).
Definition set_kernel (x : K) y := mkIocp (ip_packets y) (ip_next y) (ip_afd y) (ip_sources y) (ip_waitables y) (ip_pending y) (ip_polling y) (ip_port y) (ip_inflight y) (ip_waits y) (ip_leaked y) (ip_threads y) (ip_waiter_at y) (ip_log y) (ip_failed y) x.
Definition upd_packet p g y : Iocp K := set_packets (alter g p (ip_packets y)) y.
End updates.

Section iocp.
Context {K : Type} `{!NtKernel K}.
Abbreviation IP A := (M (Iocp K) A) (only parsing).
Abbreviation res A := (A + ip_err)%type (only parsing).

(** The address of the notifier, and [Poller::new]. *)
Definition NOTIFIER : nat := 0.
Definition iocp_new (k : K) : Iocp K :=
  mkIocp {[ NOTIFIER := packet_new PkWakeup ]} 1 [] ∅ ∅ [] false [] [] [] [] ∅ IwIdle [] false k.

Definition pending_capacity : nat := 1024.

(** A pointer to a packet is always valid: an address without a packet cannot
    be dereferenced. *)
Definition deref (p : nat) : IP Packet := fun y =>
  match ip_packets y !! p with Some k => Done (k, y) | None => Fault Undefined end.
Definition pk_put (p : nat) (g : Packet -> Packet) : IP () := modifyS (upd_packet p g).
Definition alloc (d : PacketInner) : IP nat := fun y =>
  Done (ip_next y, set_next (S (ip_next y)) (set_packets (<[ip_next y := packet_new d]> (ip_packets y)) y)).
Definition kcall {A} (g : K -> A * K) : IP A := fun y => let '(a, k) := g (ip_kernel y) in Done (a, set_kernel k y).

(** ** [Afd::poll] and [Afd::cancel] *)

Definition afd_poll (p afd : nat) (base_socket mask : Z) : IP (res ()) :=
  k ← deref p;
  if pk_in_use k then mret (inr (IpKind WouldBlock))
  else
    pk_put p (set_pk_in_use true);;
    pk_put p (set_pk_info STATUS_PENDING 1 mask);;
    r ← kcall (nt_poll afd base_socket mask);
    match r with
    | NtSuccess => modifyS (fun y => set_inflight (ip_inflight y ++ [p]) y);; mret (inl tt)
    | NtPending => modifyS (fun y => set_inflight (ip_inflight y ++ [p]) y);; mret (inr (IpKind WouldBlock))
    | NtFail code => modifyS (fun y => set_leaked (ip_leaked y ++ [p]) y);; modifyS set_failed;; mret (inr (IpOs code))
    end.

Definition afd_cancel (p : nat) : IP (res ()) :=
  k ← deref p;
  if negb (pk_iosb k =? STATUS_PENDING) then mret (inl tt)
  else
    r ← kcall (nt_cancel p);
    match r with None => mret (inl tt) | Some code => modifyS set_failed;; mret (inr (IpOs code)) end.

(** ** [PacketUnwrapped] *)

(** [cancel], which is called with the lock of the socket held. *)
Definition pk_cancel (p : nat) (s : SocketState) : IP (res ()) :=
  assertS (match ss_status s with SkPolling _ => true | _ => false end);;
  r ← afd_cancel p;
  match r with
  | inr e => mret (inr e)
  | inl _ => pk_put p (set_pk_data (PkSocket (set_ss_status SkCancelled s)));; mret (inl tt)
  end.

Definition pk_set_events (p : nat) (interest : Event) (mode : PollMode) : IP bool :=
  k ← deref p;
  match pk_data k with
  | PkSocket s =>
      let s := set_ss_interest interest true mode s in
      pk_put p (set_pk_data (PkSocket s));;
      mret (match ss_status s with SkPolling flags => negb (ss_mask s =? flags) | _ => true end)
  | PkWaitable w =>
      pk_put p (set_pk_data (PkWaitable (set_ws_interest interest mode w)));;
      mret (match ws_status w with WtIdle => true | _ => false end)
  | _ => mret true
  end.

(** Errors that mean that the poll is pending. *)
Definition is_pending (e : ip_err) : bool :=
  match e with
  | IpKind k => bool_decide (k = WouldBlock)
  | IpOs code => (code =? ERROR_IO_PENDING) || (code =? WSAEWOULDBLOCK)
  | IpOther => false
  end.
Definition is_invalid_handle (e : ip_err) : bool :=
  match e with IpOs code => code =? ERROR_INVALID_HANDLE | _ => false end.

Definition update_waitable (p : nat) (w : WaitableState) : IP (res ()) :=
  if negb (ev_readable (ws_interest w)) && negb (ev_writable (ws_interest w)) then mret (inl tt)
  else match ws_status w with
  | WtIdle =>
      r ← kcall (nt_register_wait (ws_handle w));
      match r with
      | Some code => modifyS set_failed;; mret (inr (IpOs code))
      | None =>
          modifyS (fun y => set_waits (ip_waits y ++ [p]) y);;
          pk_put p (set_pk_data (PkWaitable (set_ws_status WtWaiting w)));;
          mret (inl tt)
      end
  | _ => mret (inl tt)
  end.

Definition update_socket (p : nat) (s : SocketState) : IP (res ()) :=
  if ss_waiting_on_delete s then mret (inl tt)
  else match ss_status s with
  | SkPolling flags => if ss_mask s =? flags then mret (inl tt) else pk_cancel p s
  | SkCancelled => mret (inl tt)
  | SkIdle =>
      r ← afd_poll p (ss_afd s) (ss_base_socket s) (ss_mask s);
      match r with
      | inr e =>
          if is_pending e || is_invalid_handle e then
            pk_put p (set_pk_data (PkSocket (set_ss_status (SkPolling (ss_mask s)) s)));; mret (inl tt)
          else mret (inr e)
      | inl _ => pk_put p (set_pk_data (PkSocket (set_ss_status (SkPolling (ss_mask s)) s)));; mret (inl tt)
      end
  end.

Definition pk_update (p : nat) : IP (res ()) :=
  k ← deref p;
  match pk_data k with
  | PkSocket s => update_socket p s
  | PkWaitable w => update_waitable p w
  | _ => mret (inr IpOther)
  end.

(** The wait handle of a status that is overwritten is dropped, which ends the
    wait unless its callback has begun. *)
Definition drop_wait (p : nat) : IP () := modifyS (fun y => set_waits (filter (fun q => q <> p) (ip_waits y)) y).

Definition begin_delete (p : nat) : IP (res ()) :=
  k ← deref p;
  match pk_data k with
  | PkSocket s =>
      if ss_waiting_on_delete s then mret (inl tt)
      else
        let s := set_ss_waiting s in
        pk_put p (set_pk_data (PkSocket s));;
        match ss_status s with SkPolling _ => pk_cancel p s | _ => mret (inl tt) end
  | PkWaitable w =>
      drop_wait p;;
      pk_put p (set_pk_data (PkWaitable (set_ws_status WtCancelled w)));;
      mret (inl tt)
  | _ => failS Panic
  end.

(** ** The queue of updates *)

(** [drain_update_queue]: the first error ends it. *)
Fixpoint drain_queue (max : nat) : IP (res ()) := fun y =>
  match max, ip_pending y with
  | O, _ | _, [] => Done (inl tt, y)
  | S max, p :: rest =>
      (r ← pk_update p; match r with inr e => mret (inr e) | inl _ => drain_queue max end) (set_pending rest y)
  end.
(** Without a limit, and with the capacity of the queue as the limit. *)
Definition drain_update_queue (limit : bool) : IP (res ()) := fun y =>
  drain_queue (if limit then pending_capacity else length (ip_pending y)) y.

(** A round of the loop of [update_packet] from its look at [polling] on, and
    the rest of it: [None] when it starts over. *)
Definition update_check (p : nat) : IP (option (res ())) :=
  b ← getsS ip_polling;
  if (b : bool) then r ← pk_update p; mret (Some r) else mret None.
Definition update_push (p : nat) : IP (option (res ())) :=
  q ← getsS ip_pending;
  if bool_decide (length q < pending_capacity)%nat then modifyS (set_pending (q ++ [p]));; mret (Some (inl tt))
  else
    r ← drain_update_queue true;
    match r with inr e => mret (Some (inr e)) | inl _ => mret None end.
Fixpoint update_packet (fuel : nat) (p : nat) : IP (res ()) :=
  match fuel with
  | O => failS Diverges
  | S fuel =>
      r ← update_check p;
      match r with
      | Some r => mret r
      | None =>
          r ← update_push p;
          match r with Some r => mret r | None => update_packet fuel p end
      end
  end.

(** ** [feed_event] *)

Inductive FeedEventResult := NoEvent | FeedEvent (e : Event) | Notified.

(** The event of a poll of a socket, from the status and from what [Afd]
    reports; [None] when the socket was closed. *)
Definition poll_event (k : Packet) (s : SocketState) : option Event :=
  let key := ev_key (ss_interest s) in
  if pk_iosb k =? STATUS_CANCELLED then Some (event_none key)
  else if pk_iosb k <? 0 then Some (mkEvent key true true 0)
  else if 1 <=? pk_handle_count k then
    if intersects (pk_events k) AFD_LOCAL_CLOSE then None
    else let '(readable, writable) := afd_mask_to_event (pk_events k) in Some (mkEvent key readable writable (pk_events k))
  else Some (event_none key).

(** Only what the user asked for. *)
Definition filter_event (s : SocketState) (e : Event) : Event :=
  mkEvent (ev_key e) (ev_readable e && ev_readable (ss_interest s)) (ev_writable e && ev_writable (ss_interest s)) (ev_extra e).
Definition event_wanted (s : SocketState) (e : Event) : bool :=
  ev_readable e || ev_writable e || intersects (ev_extra e) (ev_extra (ss_interest s)).
Definition is_oneshot (mode : PollMode) : bool := match mode with Oneshot => true | _ => false end.

(** The source that is removed when [Afd] reports a local close.  Its lock is
    taken by [begin_delete]; the lock of [p] is held, and is not reentrant. *)
Definition feed_closed (p : nat) (s : SocketState) : IP (res FeedEventResult) :=
  m ← getsS ip_sources;
  match m !! ss_socket s with
  | None => failS Panic
  | Some source =>
      modifyS (set_sources (delete (ss_socket s) m));;
      if (source =? p)%nat then failS Diverges
      else r ← begin_delete source; match r with inr e => mret (inr e) | inl _ => mret (inl NoEvent) end
  end.

(** The rounds that [update_packet] needs when nobody else uses the queue. *)
Definition update_rounds : nat := 2.

Definition feed_socket (p : nat) (k : Packet) (s : SocketState) : IP (res FeedEventResult) :=
  let s := set_ss_status SkIdle s in
  pk_put p (set_pk_data (PkSocket s));;
  if ss_waiting_on_delete s then mret (inl NoEvent)
  else match poll_event k s with
  | None => feed_closed p s
  | Some event =>
      let event := filter_event s event in
      let wanted := event_wanted s event in
      (if wanted && is_oneshot (ss_mode s)
       then pk_put p (set_pk_data (PkSocket (set_ss_interest (event_none (ev_key (ss_interest s))) false (ss_mode s) s)))
       else mret tt);;
      r ← update_packet update_rounds p;
      match r with inr e => mret (inr e) | inl _ => mret (inl (if wanted then FeedEvent event else NoEvent)) end
  end.

Definition feed_waitable (p : nat) (w : WaitableState) : IP (res FeedEventResult) :=
  (if is_oneshot (ws_mode w)
   then pk_put p (set_pk_data (PkWaitable (set_ws_interest (event_none (ev_key (ws_interest w))) (ws_mode w) w)))
   else mret tt);;
  r ← update_packet update_rounds p;
  match r with inr e => mret (inr e) | inl _ => mret (inl (FeedEvent (ws_interest w))) end.

Definition feed_event (p : nat) : IP (res FeedEventResult) :=
  k ← deref p;
  match pk_data k with
  | PkSocket s => feed_socket p k s
  | PkCustom event => mret (inl (FeedEvent event))
  | PkWakeup => mret (inl Notified)
  | PkWaitable w => feed_waitable p w
  end.

(** [OverlappedEntry::into_packet]. *)
Definition into_packet (p : nat) : IP () := pk_put p (set_pk_in_use false).

(** ** [afd_handle]

    The references that are left to a packet, and the number of sockets that
    hold an [Afd]. *)
Definition phase_packet (x : ip_phase) : list nat :=
  match x with
  | IpSet p _ _ | IpUpdate p | IpPush p | IpDelete p | IpCallback p => [p]
  | IpRet _ => []
  end.
Definition waiter_packets (w : ip_waiter) : list nat := match w with IwFeed _ _ _ l => l | _ => [] end.
Definition packet_refs (y : Iocp K) : list nat :=
  (map_to_list (ip_sources y)).*2 ++ ip_pending y ++ ip_inflight y ++ ip_port y ++ waiter_packets (ip_waiter_at y)
  ++ ip_leaked y ++ mjoin (phase_packet <$> (map_to_list (ip_threads y)).*2).
Definition packet_afd (y : Iocp K) (p : nat) : option nat :=
  match ip_packets y !! p with Some k => match pk_data k with PkSocket s => Some (ss_afd s) | _ => None end | None => None end.
Definition afd_users (y : Iocp K) (afd : nat) : list nat :=
  filter (fun p => packet_afd y p = Some afd) (remove_dups (packet_refs y)).
Definition strong_count (y : Iocp K) (afd : nat) : nat := length (afd_users y afd).

Definition AFD_MAX_SIZE : nat := 32.
Fixpoint afd_search (count : nat -> nat) (fuel i : nat) (l : list nat) : outcome (option nat * list nat) :=
  match l !! i, fuel with
  | None, _ => Done (None, l)
  | Some _, O => Fault Diverges
  | Some afd, S fuel =>
      if (count afd =? 0)%nat then l ← swap_remove i l; afd_search count fuel i l
      else if (AFD_MAX_SIZE <=? count afd)%nat then afd_search count fuel (S i) l
      else Done (Some afd, l)
  end.
(** A device that is created, and registered with the port, gets the next
    address. *)
Definition afd_create : IP (res nat) :=
  r ← kcall nt_create_afd;
  match r with
  | Some code => mret (inr (IpOs code))
  | None =>
      afd ← getsS ip_next;
      modifyS (fun y => set_next (S afd) (set_afd (ip_afd y ++ [afd]) y));;
      mret (inl afd)
  end.
Definition afd_handle : IP (res nat) :=
  y ← getS;
  r ← liftS (afd_search (strong_count y) (length (ip_afd y)) 0 (ip_afd y));
  modifyS (set_afd r.2);;
  match r.1 with Some afd => mret (inl afd) | None => afd_create end.

(** ** The calls

    Each returns where its thread continues. *)

Definition is_edge (mode : PollMode) : bool := match mode with Edge | EdgeOneshot => true | _ => false end.
Definition ret_err (e : ip_err) : ip_phase := IpRet (inr e).

Definition iocp_add (socket : Z) (interest : Event) (mode : PollMode) : IP ip_phase :=
  if is_edge mode then mret (ret_err (IpKind InvalidInput))
  else
    r ← kcall (nt_base_socket socket);
    match r with
    | inr e => mret (ret_err e)
    | inl base =>
        r ← afd_handle;
        match r with
        | inr e => mret (ret_err e)
        | inl afd =>
            m ← getsS ip_sources;
            match m !! socket with
            | Some _ => mret (ret_err (IpKind AlreadyExists))
            | None =>
                p ← alloc (PkSocket (mkSocketState socket base interest true mode afd false SkIdle));
                modifyS (set_sources (<[socket := p]> m));;
                mret (IpUpdate p)
            end
        end
    end.

Definition iocp_modify (socket : Z) (interest : Event) (mode : PollMode) : IP ip_phase :=
  if is_edge mode then mret (ret_err (IpKind InvalidInput))
  else
    m ← getsS ip_sources;
    mret (match m !! socket with None => ret_err (IpKind NotFound) | Some p => IpSet p interest mode end).

Definition iocp_delete (socket : Z) : IP ip_phase :=
  m ← getsS ip_sources;
  match m !! socket with
  | None => mret (IpRet (inl tt))
  | Some p => modifyS (set_sources (delete socket m));; mret (IpDelete p)
  end.

Definition add_waitable (handle : Z) (interest : Event) (mode : PollMode) : IP ip_phase :=
  if is_edge mode then mret (ret_err (IpKind InvalidInput))
  else
    m ← getsS ip_waitables;
    match m !! handle with
    | Some _ => mret (ret_err (IpKind AlreadyExists))
    | None =>
        p ← alloc (PkWaitable (mkWaitableState handle interest mode WtIdle));
        modifyS (set_waitables (<[handle := p]> m));;
        mret (IpUpdate p)
    end.
Definition modify_waitable (handle : Z) (interest : Event) (mode : PollMode) : IP ip_phase :=
  if is_edge mode then mret (ret_err (IpKind InvalidInput))
  else
    m ← getsS ip_waitables;
    mret (match m !! handle with None => ret_err (IpKind NotFound) | Some p => IpSet p interest mode end).
Definition remove_waitable (handle : Z) : IP ip_phase :=
  m ← getsS ip_waitables;
  match m !! handle with
  | None => mret (IpRet (inl tt))
  | Some p => modifyS (set_waitables (delete handle m));; mret (IpDelete p)
  end.

(** [notify], and [post] of a packet of the user. *)
Definition port_post (p : nat) : IP () := modifyS (fun y => set_port (ip_port y ++ [p]) y).
Definition iocp_notify : IP ip_phase := port_post NOTIFIER;; mret (IpRet (inl tt)).
Definition iocp_post (ev : Event) : IP ip_phase := p ← alloc (PkCustom ev); port_post p;; mret (IpRet (inl tt)).

(** The callback of a wait. *)
Definition wait_callback (p : nat) : IP () :=
  k ← deref p;
  match pk_data k with
  | PkWaitable w => drop_wait p;; pk_put p (set_pk_data (PkWaitable (set_ws_status WtIdle w)));; port_post p
  | _ => failS Panic
  end.

(** A step of a thread from where it is. *)
Definition phase_step (x : ip_phase) : IP ip_phase :=
  match x with
  | IpSet p ev mode =>
      b ← pk_set_events p ev mode;
      mret (if (b : bool) then IpUpdate p else IpRet (inl tt))
  | IpUpdate p => r ← update_check p; mret (match r with Some r => IpRet r | None => IpPush p end)
  | IpPush p => r ← update_push p; mret (match r with Some r => IpRet r | None => IpUpdate p end)
  | IpDelete p => r ← begin_delete p; mret (IpRet r)
  | IpCallback p => wait_callback p;; mret (IpRet (inl tt))
  | IpRet r => mret (IpRet r)
  end.

(** ** [wait_deadline] *)

(** From a round to the next one: [polling] is set, the queue is drained, the
    port is waited for, and the completions are fed. *)
Definition wait_enter (notified : bool) : IP ip_waiter := modifyS (set_polling true);; mret (IwDrain notified).
Definition wait_drain (notified : bool) : IP ip_waiter :=
  r ← drain_update_queue false;
  match r with
  | inr e => modifyS (set_polling false);; mret IwIdle
  | inl _ => mret (IwBlocked notified)
  end.
(** The port gives the first [n] completions; [zero] tells whether the timeout
    of the round was zero. *)
Definition wait_take (notified zero : bool) (n : nat) : IP ip_waiter :=
  q ← getsS ip_port;
  modifyS (set_port (drop n q));;
  modifyS (set_polling false);;
  mret (IwFeed notified 0 zero (take n q)).
(** An error drops the entries that are left, which gives up their packets. *)
Fixpoint drop_entries (l : list nat) : IP () :=
  match l with [] => mret tt | p :: l => into_packet p;; drop_entries l end.
Definition wait_feed (notified : bool) (new_events : nat) (zero : bool) (entries : list nat) : IP ip_waiter :=
  match entries with
  | [] => mret (if notified || (0 <? new_events)%nat || zero then IwIdle else IwEnter notified)
  | p :: entries =>
      into_packet p;;
      modifyS (set_waiter_at (IwFeed notified new_events zero entries));;
      r ← feed_event p;
      match r with
      | inr e => drop_entries entries;; mret IwIdle
      | inl NoEvent => mret (IwFeed notified new_events zero entries)
      | inl (FeedEvent ev) =>
          modifyS (fun y => set_log (ip_log y ++ [(p, ev)]) y);;
          mret (IwFeed notified (S new_events) zero entries)
      | inl Notified => mret (IwFeed true new_events zero entries)
      end
  end.

(** ** Steps

    The system completes a poll that is in flight, with a final status and
    with events that were asked for, and runs the callback of a wait. *)
Inductive ip_call :=
  | CallAdd (socket : Z) (interest : Event) (mode : PollMode)
  | CallModify (socket : Z) (interest : Event) (mode : PollMode)
  | CallDelete (socket : Z)
  | CallAddWaitable (handle : Z) (interest : Event) (mode : PollMode)
  | CallModifyWaitable (handle : Z) (interest : Event) (mode : PollMode)
  | CallRemoveWaitable (handle : Z)
  | CallNotify
  | CallPost (ev : Event).
Definition run_call (c : ip_call) : IP ip_phase :=
  match c with
  | CallAdd socket ev mode => iocp_add socket ev mode
  | CallModify socket ev mode => iocp_modify socket ev mode
  | CallDelete socket => iocp_delete socket
  | CallAddWaitable handle ev mode => add_waitable handle ev mode
  | CallModifyWaitable handle ev mode => modify_waitable handle ev mode
  | CallRemoveWaitable handle => remove_waitable handle
  | CallNotify => iocp_notify
  | CallPost ev => iocp_post ev
  end.

Inductive ip_op :=
  | IpCall (t : nat) (c : ip_call)
  | IpThread (t : nat)
  | IpWait
  | IpTake (zero : bool) (n : nat)
  | IpComplete (p : nat) (status count events : Z)
  | IpFire (t p : nat).

Definition complete_ok (p : nat) (status events : Z) (y : Iocp K) : bool :=
  bool_decide (p ∈ ip_inflight y) && negb (status =? STATUS_PENDING)
  && match ip_packets y !! p with Some k => Z.ldiff events (pk_events k) =? 0 | None => false end.

(** The thread [t] is not in a call. *)
Definition thread_free (t : nat) (y : Iocp K) : bool := match ip_threads y !! t with None | Some (IpRet _) => true | _ => false end.
Definition thread_goes (t : nat) (c : IP ip_phase) : IP () := x ← c; modifyS (set_thread t x).
Definition waiter_goes (c : IP ip_waiter) : IP () := x ← c; modifyS (set_waiter_at x).

Definition iocp_step (op : ip_op) : IP () :=
  y ← getS;
  match op with
  | IpCall t c => if thread_free t y then thread_goes t (run_call c) else mret tt
  | IpThread t => match ip_threads y !! t with Some x => thread_goes t (phase_step x) | None => mret tt end
  | IpWait =>
      match ip_waiter_at y with
      | IwIdle => modifyS (set_waiter_at (IwEnter false))
      | IwEnter notified => waiter_goes (wait_enter notified)
      | IwDrain notified => waiter_goes (wait_drain notified)
      | IwBlocked _ => mret tt
      | IwFeed notified new_events zero entries => waiter_goes (wait_feed notified new_events zero entries)
      end
  | IpTake zero n =>
      match ip_waiter_at y with IwBlocked notified => waiter_goes (wait_take notified zero n) | _ => mret tt end
  | IpComplete p status count events =>
      if complete_ok p status events y then
        pk_put p (set_pk_info status count events);;
        modifyS (fun y => set_inflight (filter (fun q => q <> p) (ip_inflight y)) y);;
        port_post p
      else mret tt
  | IpFire t p =>
      if thread_free t y && bool_decide (p ∈ ip_waits y) then
        modifyS (set_waits (filter (fun q => q <> p) (ip_waits y)));;
        modifyS (set_thread t (IpCallback p))
      else mret tt
  end.
Fixpoint iocp_exec (ops : list ip_op) : IP () :=
  match ops with [] => mret tt | op :: ops => iocp_step op;; iocp_exec ops end.
End iocp.
