(* ===== verification/IocpInv.v ===== *)
(** * The invariant of the poller on completion ports

    Addresses lead to packets of the right kind, and a socket that is
    registered is not forgotten: unless the system refused something, its
    status says whether the system holds its packet, and a socket that is not
    polled for its interest is on its way to an update. *)
From Stdlib Require Import ZArith Lia.
From stdpp Require Import base numbers gmap list.
From S2P Require Import Prelude PollFds Iocp.

Inductive pk_kind := KSocket | KWaitable | KCustom | KWakeup.
Definition kind_of (d : PacketInner) : pk_kind :=
  match d with PkSocket _ => KSocket | PkWaitable _ => KWaitable | PkCustom _ => KCustom | PkWakeup => KWakeup end.

(** Only [set_hup] and [set_pri] change the flags of an event. *)
Definition extra_ok (ev : Event) : Prop := Z.land (ev_extra ev) AFD_LOCAL_CLOSE = 0.
Definition packet_ok (k : Packet) : Prop :=
  Z.land (pk_events k) AFD_LOCAL_CLOSE = 0 /\
  match pk_data k with PkSocket s => extra_ok (ss_interest s) | _ => True end.

(** The system polls for the interest of the socket, or is about to return
    the packet. *)
Definition settled (s : SocketState) : Prop :=
  match ss_status s with SkIdle => False | SkPolling f => f = ss_mask s | SkCancelled => True end.

Section inv.
Context {K : Type}.
Implicit Types y : Iocp K.

Definition kind_at y (p : nat) : option pk_kind := (fun k => kind_of (pk_data k)) <$> ip_packets y !! p.
Definition updatable y (p : nat) : Prop := kind_at y p = Some KSocket \/ kind_at y p = Some KWaitable.

(** The packets that the system and the port hold. *)
Definition held y : list nat := ip_inflight y ++ ip_port y ++ waiter_packets (ip_waiter_at y).
Definition occ y (p : nat) : nat := count_occ Nat.eq_dec (held y) p.
Definition queued y (p : nat) : Prop :=
  p ∈ ip_pending y \/ exists t, ip_threads y !! t = Some (IpUpdate p) \/ ip_threads y !! t = Some (IpPush p).

Definition phase_updates (p : nat) (x : ip_phase) : bool := match x with IpUpdate q | IpPush q => (q =? p)%nat | _ => false end.
#[export] Instance queued_dec y p : Decision (queued y p).
Proof.
  destruct (decide (p ∈ ip_pending y)) as [|Hp]; [by left; left|].
  destruct (decide (map_Exists (fun _ x => phase_updates p x = true) (ip_threads y))) as [He|He]; [left; right|right].
  - destruct He as (t & x & Ht & Hx). exists t. destruct x; cbn in Hx; try done; apply Nat.eqb_eq in Hx as ->; auto.
  - intros [?|(t & [Ht|Ht])]; [done| |]; apply He; exists t; eexists; (split; [exact Ht|cbn; apply Nat.eqb_refl]).
Qed.

(** [e] are packets that are being updated. *)
Record packet_inv (e : list nat) y (p : nat) (k : Packet) (s : SocketState) : Prop := mkPacketInv {
  pi_occ : occ y p = Nat.b2n (pk_in_use k);
  pi_idle : ss_status s = SkIdle <-> pk_in_use k = false;
  pi_mask : forall f, ss_status s = SkPolling f -> p ∈ ip_inflight y -> pk_events k = f;
  pi_settled : ss_waiting_on_delete s = false -> p ∉ e -> ~ queued y p -> settled s;
}.

Definition phase_ok y (x : ip_phase) : Prop :=
  match x with
  | IpSet p ev mode => updatable y p /\ extra_ok ev
  | IpUpdate p | IpPush p => updatable y p
  | IpDelete p => updatable y p /\ forall s, ip_sources y !! s <> Some p
  | IpCallback p => kind_at y p = Some KWaitable
  | IpRet _ => True
  end.
Definition polls (w : ip_waiter) : bool := match w with IwDrain _ | IwBlocked _ => true | _ => false end.

Record Inv (e : list nat) y : Prop := mkInv {
  iv_ok : map_Forall (fun _ k => packet_ok k) (ip_packets y);
  iv_next : forall p k, ip_packets y !! p = Some k -> (p < ip_next y)%nat;
  iv_notifier : kind_at y NOTIFIER = Some KWakeup;
  iv_sources : forall socket p, ip_sources y !! socket = Some p -> exists k s,
    ip_packets y !! p = Some k /\ pk_data k = PkSocket s /\ ss_socket s = socket /\ ss_waiting_on_delete s = false;
  iv_waitables : forall h p, ip_waitables y !! h = Some p -> kind_at y p = Some KWaitable;
  iv_pending : Forall (updatable y) (ip_pending y);
  iv_inflight : Forall (fun p => kind_at y p = Some KSocket) (ip_inflight y);
  iv_port : Forall (fun p => is_Some (kind_at y p)) (ip_port y ++ waiter_packets (ip_waiter_at y));
  iv_waits : Forall (fun p => kind_at y p = Some KWaitable) (ip_waits y);
  iv_threads : forall t x, ip_threads y !! t = Some x -> phase_ok y x;
  iv_polling : ip_polling y = polls (ip_waiter_at y);
  iv_length : (length (ip_pending y) <= pending_capacity)%nat;
  iv_sockets : ip_failed y = false -> forall p k s,
    ip_packets y !! p = Some k -> pk_data k = PkSocket s -> packet_inv e y p k s;
}.

Lemma kind_lookup y p c : kind_at y p = Some c -> exists k, ip_packets y !! p = Some k /\ kind_of (pk_data k) = c.
Proof. unfold kind_at. intros (k & Hk & ->)%fmap_Some. by exists k. Qed.
Lemma kind_fresh e y : Inv e y -> kind_at y (ip_next y) = None.
Proof.
  intros Hi. unfold kind_at. destruct (ip_packets y !! ip_next y) as [k|] eqn:E; [|done].
  pose proof (iv_next _ _ Hi _ _ E). lia.
Qed.
Lemma updatable_lookup y p : updatable y p -> exists k, ip_packets y !! p = Some k /\ kind_of (pk_data k) ∈ [KSocket; KWaitable].
Proof. intros [H|H]; apply kind_lookup in H as (k & ? & E); exists k; rewrite E; split; auto; set_solver. Qed.
Lemma updatable_some y p : updatable y p -> is_Some (kind_at y p).
Proof. intros [->| ->]; eauto. Qed.

(** ** Changes of a packet *)

Lemma kind_at_insert y p k k' q :
  ip_packets y !! p = Some k -> kind_of (pk_data k') = kind_of (pk_data k) ->
  kind_at (set_packets (<[p := k']> (ip_packets y)) y) q = kind_at y q.
Proof.
  intros Hp Hk. unfold kind_at. cbn. destruct (decide (q = p)) as [->|]; simplify_map_eq; [by rewrite Hk|done].
Qed.

Lemma packet_inv_frame e y y' p k s :
  held y' = held y -> ip_inflight y' = ip_inflight y -> (queued y p -> queued y' p) ->
  packet_inv e y p k s -> packet_inv e y' p k s.
Proof.
  intros Hh Hi Hq [H1 H2 H3 H4]. split; unfold occ in *; rewrite ?Hh, ?Hi; auto.
Qed.
Lemma packet_inv_except e e' y p k s : (p ∈ e -> p ∈ e') -> packet_inv e y p k s -> packet_inv e' y p k s.
Proof. intros He [H1 H2 H3 H4]. split; auto. Qed.

Lemma phase_ok_frame y y' x :
  (forall p c, kind_at y p = Some c -> kind_at y' p = Some c) ->
  (forall s p, is_Some (kind_at y p) -> ip_sources y' !! s = Some p -> ip_sources y !! s = Some p) ->
  phase_ok y x -> phase_ok y' x.
Proof.
  intros Hk Hs. unfold phase_ok, updatable. destruct x; naive_solver.
Qed.
Lemma updatable_frame y y' p :
  (forall p c, kind_at y p = Some c -> kind_at y' p = Some c) -> updatable y p -> updatable y' p.
Proof. unfold updatable. naive_solver. Qed.

(** What a change of the packet [p], and of what is held and queued, has to
    show: other sockets are held and queued as before. *)
Record change (e e' : list nat) y y' (p : nat) (k k' : Packet) : Prop := mkChange {
  ch_old : ip_packets y !! p = Some k;
  ch_new : ip_packets y' = <[p := k']> (ip_packets y);
  ch_kind : kind_of (pk_data k') = kind_of (pk_data k);
  ch_ok : packet_ok k';
  ch_next : ip_next y' = ip_next y;
  ch_sources : ip_sources y' = ip_sources y;
  ch_waitables : ip_waitables y' = ip_waitables y;
  ch_threads : ip_threads y' = ip_threads y;
  ch_source : forall s s' so, pk_data k = PkSocket s -> pk_data k' = PkSocket s' ->
    ss_socket s' = ss_socket s /\ (ip_sources y !! so = Some p -> ss_waiting_on_delete s' = ss_waiting_on_delete s);
  ch_pending : forall q, q ∈ ip_pending y' -> q ∈ ip_pending y \/ updatable y q;
  ch_inflight : forall q, q ∈ ip_inflight y' -> q ∈ ip_inflight y \/ kind_at y q = Some KSocket;
  ch_port : forall q, q ∈ ip_port y' ++ waiter_packets (ip_waiter_at y') -> q ∈ held y \/ is_Some (kind_at y q);
  ch_waits : forall q, q ∈ ip_waits y' -> q ∈ ip_waits y \/ kind_at y q = Some KWaitable;
  ch_polling : ip_polling y' = polls (ip_waiter_at y');
  ch_length : (length (ip_pending y') <= pending_capacity)%nat;
  ch_failed : ip_failed y' = false -> ip_failed y = false;
  ch_occ : forall q, q <> p -> kind_at y q = Some KSocket -> occ y' q = occ y q;
  ch_inf : forall q, q <> p -> q ∈ ip_inflight y' -> q ∈ ip_inflight y;
  ch_queued : forall q, q <> p -> queued y q -> queued y' q;
  ch_except : forall q, q <> p -> q ∈ e -> q ∈ e';
  ch_inv : forall s s', pk_data k = PkSocket s -> pk_data k' = PkSocket s' -> ip_failed y' = false ->
    packet_inv e y p k s -> packet_inv e' y' p k' s';
}.

Lemma kind_at_change e e' y y' p k k' q : change e e' y y' p k k' -> kind_at y' q = kind_at y q.
Proof.
  intros H. unfold kind_at. rewrite (ch_new _ _ _ _ _ _ _ H). destruct (decide (q = p)) as [->|]; simplify_map_eq; [|done].
  by rewrite (ch_old _ _ _ _ _ _ _ H), (ch_kind _ _ _ _ _ _ _ H).
Qed.

Lemma change_sources e e' y y' p k k' socket q :
  Inv e y -> change e e' y y' p k k' -> ip_sources y' !! socket = Some q -> exists k s,
    ip_packets y' !! q = Some k /\ pk_data k = PkSocket s /\ ss_socket s = socket /\ ss_waiting_on_delete s = false.
Proof.
  intros Hi H Hq. rewrite (ch_sources _ _ _ _ _ _ _ H) in Hq.
  destruct (iv_sources _ _ Hi _ _ Hq) as (kq & s & Hk & Hd & Hs & Hw).
  rewrite (ch_new _ _ _ _ _ _ _ H). destruct (decide (q = p)) as [->|]; simplify_map_eq; [|eauto 6].
  rewrite (ch_old _ _ _ _ _ _ _ H) in Hk. injection Hk as <-.
  pose proof (ch_kind _ _ _ _ _ _ _ H) as Hc. rewrite Hd in Hc. destruct (pk_data k') as [s'| | |] eqn:Hd'; try done.
  destruct (ch_source _ _ _ _ _ _ _ H s s' (ss_socket s) Hd Hd') as [Ha Hb]. exists k', s'. rewrite Hb by done. auto.
Qed.

Lemma change_sockets e e' y y' p k k' q kq s :
  Inv e y -> change e e' y y' p k k' -> ip_failed y' = false ->
  ip_packets y' !! q = Some kq -> pk_data kq = PkSocket s -> packet_inv e' y' q kq s.
Proof.
  intros Hi H Hf Hq Hd. pose proof (iv_sockets _ _ Hi (ch_failed _ _ _ _ _ _ _ H Hf)) as HS.
  rewrite (ch_new _ _ _ _ _ _ _ H) in Hq. destruct (decide (q = p)) as [->|Hn]; simplify_map_eq.
  - pose proof (ch_kind _ _ _ _ _ _ _ H) as Hc. rewrite Hd in Hc. destruct (pk_data k) as [s0| | |] eqn:Hd0; try done.
    apply (ch_inv _ _ _ _ _ _ _ H s0); auto. apply HS; [|done]. apply (ch_old _ _ _ _ _ _ _ H).
  - destruct (HS q kq s Hq Hd) as [H1 H2 H3 H4].
    assert (Hk : kind_at y q = Some KSocket) by (unfold kind_at; by rewrite Hq; cbn; rewrite Hd).
    split; [by rewrite (ch_occ _ _ _ _ _ _ _ H q Hn Hk)|done| |].
    + intros f Hs Hin. apply H3; [done|]. by apply (ch_inf _ _ _ _ _ _ _ H q Hn).
    + intros Hw He Hnq. apply H4; [done| |].
      * intros E. apply He. by apply (ch_except _ _ _ _ _ _ _ H q Hn).
      * intros E. apply Hnq. by apply (ch_queued _ _ _ _ _ _ _ H q Hn).
Qed.

Lemma held_some e y q : Inv e y -> q ∈ held y -> is_Some (kind_at y q).
Proof.
  intros Hi. unfold held. rewrite elem_of_app. intros [Hq|Hq].
  - pose proof (iv_inflight _ _ Hi) as Hf. rewrite Forall_forall in Hf. rewrite (Hf q Hq). eauto.
  - pose proof (iv_port _ _ Hi) as Hf. rewrite Forall_forall in Hf. auto.
Qed.

Lemma inv_change e e' y y' p k k' : Inv e y -> change e e' y y' p k k' -> Inv e' y'.
Proof.
  intros Hi H. pose proof (fun q => kind_at_change _ _ _ _ _ _ _ q H) as HK.
  assert (HU : forall q, updatable y q -> updatable y' q) by (intros q; unfold updatable; by rewrite HK).
  split.
  - rewrite (ch_new _ _ _ _ _ _ _ H). apply map_Forall_insert_2; [apply (ch_ok _ _ _ _ _ _ _ H)|apply (iv_ok _ _ Hi)].
  - intros q kq Hq. rewrite (ch_next _ _ _ _ _ _ _ H). apply kind_fresh in Hi as Hfr.
    assert (Hs : is_Some (kind_at y' q)) by (unfold kind_at; rewrite Hq; eauto). rewrite HK in Hs.
    destruct Hs as [c Hs]. apply kind_lookup in Hs as (k0 & Hk0 & _). by apply (iv_next _ _ Hi q k0).
  - rewrite HK. apply (iv_notifier _ _ Hi).
  - intros socket q. by apply (change_sources e e' y y' p k k').
  - intros h q. rewrite (ch_waitables _ _ _ _ _ _ _ H), HK. apply (iv_waitables _ _ Hi).
  - apply Forall_forall. intros q Hq. apply HU. destruct (ch_pending _ _ _ _ _ _ _ H q Hq) as [Hq'|Hq']; [|done].
    pose proof (iv_pending _ _ Hi) as Hf. rewrite Forall_forall in Hf. auto.
  - apply Forall_forall. intros q Hq. rewrite HK. destruct (ch_inflight _ _ _ _ _ _ _ H q Hq) as [Hq'|Hq']; [|done].
    pose proof (iv_inflight _ _ Hi) as Hf. rewrite Forall_forall in Hf. auto.
  - apply Forall_forall. intros q Hq. rewrite HK. destruct (ch_port _ _ _ _ _ _ _ H q Hq) as [Hq'|Hq']; [|done].
    by apply (held_some e).
  - apply Forall_forall. intros q Hq. rewrite HK. destruct (ch_waits _ _ _ _ _ _ _ H q Hq) as [Hq'|Hq']; [|done].
    pose proof (iv_waits _ _ Hi) as Hf. rewrite Forall_forall in Hf. auto.
  - intros t x. rewrite (ch_threads _ _ _ _ _ _ _ H). intros Hx. apply (phase_ok_frame y); [|intros so q _|by apply (iv_threads _ _ Hi t)].
    + intros q c. by rewrite HK.
    + by rewrite (ch_sources _ _ _ _ _ _ _ H).
  - apply (ch_polling _ _ _ _ _ _ _ H).
  - apply (ch_length _ _ _ _ _ _ _ H).
  - intros Hf q kq s. by apply (change_sockets e e' y y' p k k').
Qed.
End inv.

(** ** The operations keep the invariant

    Total specifications of the updates of packets, of the queue, of
    [feed_event] and of [afd_handle] ([Iocp.v]): they return, and keep [Inv]. *)

(** ** Masks without [LOCAL_CLOSE] *)

Lemma land_lor_0 a b m : Z.land a m = 0 -> Z.land b m = 0 -> Z.land (Z.lor a b) m = 0.
Proof. intros Ha Hb. by rewrite Z.land_lor_distr_l, Ha, Hb. Qed.
Lemma mask_no_close ev error : extra_ok ev -> Z.land (event_to_afd_mask ev error) AFD_LOCAL_CLOSE = 0.
Proof.
  intros He. apply land_lor_0; [|done]. unfold event_properties_to_afd_mask.
  destruct (ev_readable ev), (ev_writable ev), error; reflexivity.
Qed.
Lemma ldiff_land_0 a b m : Z.ldiff a b = 0 -> Z.land b m = 0 -> Z.land a m = 0.
Proof.
  intros Hd Hm. apply Z.bits_inj'. intros n Hn. rewrite Z.land_spec, Z.bits_0.
  assert (H1 : Z.testbit (Z.ldiff a b) n = false) by (by rewrite Hd, Z.bits_0).
  assert (H2 : Z.testbit (Z.land b m) n = false) by (by rewrite Hm, Z.bits_0).
  rewrite Z.ldiff_spec in H1. rewrite Z.land_spec in H2. destruct (Z.testbit a n), (Z.testbit b n), (Z.testbit m n); done.
Qed.
Lemma set_hup_ok b ev : extra_ok ev -> extra_ok (set_hup b ev).
Proof.
  unfold extra_ok, set_hup, mask_set. cbn. intros H. destruct b; [by apply land_lor_0|].
  apply (ldiff_land_0 _ (ev_extra ev)); [|done]. by rewrite Z.ldiff_ldiff_l, Z.lor_comm, <- Z.ldiff_ldiff_l, Z.ldiff_diag.
Qed.
Lemma set_pri_ok b ev : extra_ok ev -> extra_ok (set_pri b ev).
Proof.
  unfold extra_ok, set_pri, mask_set. cbn. intros H. destruct b; [by apply land_lor_0|].
  apply (ldiff_land_0 _ (ev_extra ev)); [|done]. by rewrite Z.ldiff_ldiff_l, Z.lor_comm, <- Z.ldiff_ldiff_l, Z.ldiff_diag.
Qed.
Lemma extra_ok_none key : extra_ok (event_none key).
Proof. reflexivity. Qed.

(** The data of the packet are known by the equation [Hd]. *)
Ltac quiet_put Hd :=
  try done; (cbn; rewrite ?Hd; first [done|intros ? [= <-]; eexists; (split; [first [reflexivity|exact Hd]|done])]).

Section steps.
Context {K : Type} `{!NtKernel K}.
Implicit Types y : Iocp K.

Lemma put_done y p g k : ip_packets y !! p = Some k -> pk_put p g y = Done (tt, set_packets (<[p := g k]> (ip_packets y)) y).
Proof.
  intros Hk. unfold pk_put, modifyS, upd_packet. do 3 f_equal. apply map_eq. intros q.
  destruct (decide (q = p)) as [->|]; simplify_map_eq; done.
Qed.
Lemma deref_done y p k : ip_packets y !! p = Some k -> deref p y = Done (k, y).
Proof. intros Hk. unfold deref. by rewrite Hk. Qed.

(** The socket was deleted. *)
Definition doomed y (p : nat) : Prop := exists k s, ip_packets y !! p = Some k /\ pk_data k = PkSocket s /\ ss_waiting_on_delete s = true.
Lemma doomed_same y y' p : ip_packets y' = ip_packets y -> doomed y p -> doomed y' p.
Proof. unfold doomed. by intros ->. Qed.
Lemma doomed_insert y y' p k k' q :
  ip_packets y !! p = Some k -> ip_packets y' = <[p := k']> (ip_packets y) ->
  (forall s, pk_data k = PkSocket s -> exists s', pk_data k' = PkSocket s' /\ (ss_waiting_on_delete s = true -> ss_waiting_on_delete s' = true)) ->
  doomed y q -> doomed y' q.
Proof.
  intros Hk Hp Hs (kq & s & Hq & Hd & Hw). unfold doomed. rewrite Hp. destruct (decide (q = p)) as [->|]; [|exists kq, s; by simplify_map_eq].
  rewrite Hk in Hq. injection Hq as <-. destruct (Hs s Hd) as (s' & Hd' & Hw'). exists k', s'. simplify_map_eq. auto.
Qed.

(** What an update of a packet leaves alone. *)
Record quiet y y' : Prop := mkQuiet {
  qt_pending : ip_pending y' = ip_pending y;
  qt_threads : ip_threads y' = ip_threads y;
  qt_waiter : ip_waiter_at y' = ip_waiter_at y;
  qt_port : ip_port y' = ip_port y;
  qt_sources : ip_sources y' = ip_sources y;
  qt_waitables : ip_waitables y' = ip_waitables y;
  qt_polling : ip_polling y' = ip_polling y;
  qt_log : ip_log y' = ip_log y;
  qt_failed : ip_failed y' = false -> ip_failed y = false;
  qt_kind : forall q, kind_at y' q = kind_at y q;
  qt_doomed : forall q, doomed y q -> doomed y' q;
}.
Lemma quiet_refl y : quiet y y.
Proof. by split. Qed.
Lemma quiet_trans y1 y2 y3 : quiet y1 y2 -> quiet y2 y3 -> quiet y1 y3.
Proof. intros [] []. split; try congruence; auto. Qed.

(** The packet needs no further update. *)
Definition done_at y (p : nat) : Prop := ip_failed y = false -> forall k s,
  ip_packets y !! p = Some k -> pk_data k = PkSocket s -> ss_waiting_on_delete s = false -> settled s.
Definition upd_post e y (p : nat) (r : () + ip_err) y' : Prop :=
  Inv e y' /\ done_at y' p /\ quiet y y' /\ (forall e, r = inr e -> ip_failed y' = true).

Lemma inv_weaken e e' y : e ⊆ e' -> Inv e y -> Inv e' y.
Proof.
  intros He Hi. split; try (by destruct Hi). intros Hf p k s Hk Hd. apply (packet_inv_except e); [apply He|]. by apply (iv_sockets _ _ Hi).
Qed.

(** Once something was refused nothing is claimed of sockets. *)
Lemma inv_failed e e' y : Inv e y -> ip_failed y = true -> Inv e' y.
Proof. intros Hi Hf. split; try (by destruct Hi). congruence. Qed.

(** ** Changes of the data of a packet *)

Lemma queued_quiet y y' p : ip_pending y' = ip_pending y -> ip_threads y' = ip_threads y -> queued y p -> queued y' p.
Proof. unfold queued. by intros -> ->. Qed.

(** The packet changes, and nothing else. *)
Lemma change_put e e' y p k k' :
  Inv e y -> ip_packets y !! p = Some k -> kind_of (pk_data k') = kind_of (pk_data k) -> packet_ok k' ->
  (forall s s' so, pk_data k = PkSocket s -> pk_data k' = PkSocket s' ->
    ss_socket s' = ss_socket s /\ (ip_sources y !! so = Some p -> ss_waiting_on_delete s' = ss_waiting_on_delete s)) ->
  (forall q, q <> p -> q ∈ e -> q ∈ e') ->
  (forall s s', pk_data k = PkSocket s -> pk_data k' = PkSocket s' -> ip_failed y = false ->
    packet_inv e y p k s -> packet_inv e' y p k' s') ->
  change e e' y (set_packets (<[p := k']> (ip_packets y)) y) p k k'.
Proof.
  intros Hi Hk Hc Ho Hs He Hp. split; cbn; auto.
  - intros q Hq. right. apply (held_some e y q Hi). unfold held. rewrite elem_of_app. by right.
  - apply (iv_polling _ _ Hi).
  - apply (iv_length _ _ Hi).
  - intros s s' Hd Hd' Hf HI. specialize (Hp s s' Hd Hd' Hf HI). destruct Hp as [H1 H2 H3 H4]. by split.
Qed.

Lemma inv_same e y y' :
  Inv e y -> ip_packets y' = ip_packets y -> (ip_next y <= ip_next y')%nat -> ip_sources y' = ip_sources y ->
  ip_waitables y' = ip_waitables y -> ip_pending y' = ip_pending y -> ip_inflight y' = ip_inflight y -> ip_port y' = ip_port y ->
  ip_waits y' = ip_waits y -> ip_threads y' = ip_threads y -> ip_waiter_at y' = ip_waiter_at y -> ip_polling y' = ip_polling y ->
  (ip_failed y' = false -> ip_failed y = false) -> Inv e y'.
Proof.
  intros Hi Ha Hb Hc Hd He Hf Hg Hh Hj Hk Hl Hm.
  assert (HK : forall q, kind_at y' q = kind_at y q) by (intros; unfold kind_at; by rewrite Ha).
  assert (HU : forall q, updatable y q -> updatable y' q) by (intros q; unfold updatable; by rewrite HK).
  split; rewrite ?Ha, ?Hc, ?Hd, ?He, ?Hf, ?Hg, ?Hh, ?Hj, ?Hk, ?Hl, ?HK; try (by destruct Hi).
  - intros p k Hp. pose proof (iv_next _ _ Hi p k Hp). lia.
  - intros h p. rewrite HK. apply (iv_waitables _ _ Hi).
  - eapply Forall_impl; [apply (iv_pending _ _ Hi)|done].
  - eapply Forall_impl; [apply (iv_inflight _ _ Hi)|intros q; by rewrite HK].
  - eapply Forall_impl; [apply (iv_port _ _ Hi)|intros q; by rewrite HK].
  - eapply Forall_impl; [apply (iv_waits _ _ Hi)|intros q; by rewrite HK].
  - intros t x Hx. apply (phase_ok_frame y); [intros q c; by rewrite HK|intros so q _; by rewrite Hc|by apply (iv_threads _ _ Hi t)].
  - intros Hfa p k s Hp Hs. apply (packet_inv_frame e y); [unfold held; by rewrite Hf, Hg, Hk|done| |by apply (iv_sockets _ _ Hi (Hm Hfa))].
    by apply queued_quiet.
Qed.

Lemma inv_done e y p : Inv (p :: e) y -> done_at y p -> Inv e y.
Proof.
  intros Hi Hd. split; try (by destruct Hi). intros Hf q k s Hq Hs.
  destruct (iv_sockets _ _ Hi Hf q k s Hq Hs) as [H1 H2 H3 H4]. split; try done.
  intros Hw He Hn. destruct (decide (q = p)) as [->|Hne]; [by apply (Hd Hf k)|apply H4; [done| |done]]. set_solver.
Qed.

(** ** [update] *)

Lemma alter_some (m : gmap nat Packet) p k g : m !! p = Some k -> alter g p m = <[p := g k]> m.
Proof. intros Hk. apply map_eq. intros q. destruct (decide (q = p)) as [->|]; by simplify_map_eq. Qed.

(** The status of a socket that the system keeps holding. *)
Lemma inv_status e y p k s st :
  Inv (p :: e) y -> ip_packets y !! p = Some k -> pk_data k = PkSocket s ->
  ss_status s <> SkIdle -> st <> SkIdle ->
  (forall f, st = SkPolling f -> f = ss_mask s /\ pk_events k = f) ->
  Inv e (set_packets (<[p := set_pk_data (PkSocket (set_ss_status st s)) k]> (ip_packets y)) y).
Proof.
  intros Hi Hk Hd Hst Hst' Hf. apply (inv_change (p :: e) e y _ p k (set_pk_data (PkSocket (set_ss_status st s)) k) Hi).
  apply change_put; try done.
  - cbn. by rewrite Hd.
  - destruct (iv_ok _ _ Hi p k Hk) as [Ho1 Ho2]. split; [done|]. by rewrite Hd in Ho2.
  - intros s0 s' so Hd0 [= <-]. rewrite Hd in Hd0. injection Hd0 as <-. done.
  - set_solver.
  - intros s0 s' Hd0 [= <-] _ [H1 H2 H3 H4]. rewrite Hd in Hd0. injection Hd0 as <-. split; cbn; try done.
    + split; [done|]. intros Hu. by apply H2 in Hu.
    + intros f Hs' _. by apply Hf.
    + intros _ _ _. unfold settled. cbn. destruct st; [done| |done]. by destruct (Hf flags eq_refl).
Qed.

Lemma afd_cancel_spec y p k : ip_packets y !! p = Some k -> runs (afd_cancel p) y (fun r y' =>
  (exists k', y' = set_kernel k' y /\ r = inl tt) \/ (exists k', y' = set_failed (set_kernel k' y) /\ is_Some (maybe inr r))).
Proof.
  intros Hk. unfold afd_cancel, runs, mbind, M_bind. rewrite (deref_done y p k Hk). unfold kcall.
  destruct (negb _); cbn [mret M_ret].
  - exists (inl tt), y. split; [done|]. left. exists (ip_kernel y). by destruct y.
  - destruct (nt_cancel p (ip_kernel y)) as [[code|] k'].
    + exists (inr (IpOs code)), (set_failed (set_kernel k' y)). split; [done|]. right. exists k'. eauto.
    + exists (inl tt), (set_kernel k' y). split; [done|]. left. eauto.
Qed.

Lemma quiet_insert y y' p k k' :
  ip_packets y !! p = Some k -> kind_of (pk_data k') = kind_of (pk_data k) -> ip_packets y' = <[p := k']> (ip_packets y) ->
  ip_pending y' = ip_pending y -> ip_threads y' = ip_threads y -> ip_waiter_at y' = ip_waiter_at y -> ip_port y' = ip_port y ->
  ip_sources y' = ip_sources y -> ip_waitables y' = ip_waitables y -> ip_polling y' = ip_polling y -> ip_log y' = ip_log y ->
  (ip_failed y' = false -> ip_failed y = false) ->
  (forall s, pk_data k = PkSocket s -> exists s', pk_data k' = PkSocket s' /\ (ss_waiting_on_delete s = true -> ss_waiting_on_delete s' = true)) ->
  quiet y y'.
Proof.
  intros Hk Hc Hp. split; try done; [|intros q; by apply (doomed_insert y y' p k k')]. intros q. unfold kind_at. rewrite Hp.
  destruct (decide (q = p)) as [->|]; simplify_map_eq; [by rewrite Hc|done].
Qed.
Lemma quiet_same y y' :
  ip_packets y' = ip_packets y ->
  ip_pending y' = ip_pending y -> ip_threads y' = ip_threads y -> ip_waiter_at y' = ip_waiter_at y -> ip_port y' = ip_port y ->
  ip_sources y' = ip_sources y -> ip_waitables y' = ip_waitables y -> ip_polling y' = ip_polling y -> ip_log y' = ip_log y ->
  (ip_failed y' = false -> ip_failed y = false) -> quiet y y'.
Proof. intros Hp. split; try done; [intros q; unfold kind_at; by rewrite Hp|intros q; by apply doomed_same]. Qed.

(** Something was refused. *)
Lemma upd_refused e0 e y y' p r : Inv e0 y' -> ip_failed y' = true -> quiet y y' -> upd_post e y p r y'.
Proof. intros Hi Hf Hq. split_and!; [by apply (inv_failed e0)|intros Hf'; congruence|done|done]. Qed.

Lemma pk_cancel_spec e y p k s f :
  Inv (p :: e) y -> ip_packets y !! p = Some k -> pk_data k = PkSocket s -> ss_status s = SkPolling f ->
  runs (pk_cancel p s) y (upd_post e y p).
Proof.
  intros Hi Hk Hd Hs. unfold pk_cancel. apply runs_bind, runs_assert; [by rewrite Hs|]. apply runs_bind.
  eapply runs_conseq; [by apply (afd_cancel_spec y p k)|]. intros r y' [(k' & -> & ->)|(k' & -> & [x Hr])].
  - apply runs_bind. eapply runs_eq; [by apply (put_done _ p _ k)|]. apply runs_ret.
    assert (Hi' : Inv (p :: e) (set_kernel k' y)) by (by apply (inv_same (p :: e) y)).
    split_and!.
    + apply (inv_status e (set_kernel k' y) p k s SkCancelled Hi' Hk Hd); [by rewrite Hs|done|done].
    + intros _ k0 s0. cbn. rewrite lookup_insert_eq. intros [= <-] [= <-] _. done.
    + apply (quiet_insert y _ p k (set_pk_data (PkSocket (set_ss_status SkCancelled s)) k)); quiet_put Hd.
    + done.
  - destruct r as [[]|e0]; [done|]. apply runs_ret. apply (upd_refused (p :: e)); [by apply (inv_same (p :: e) y)|done|by apply quiet_same].
Qed.

(** A poll that is started: the packet is locked, and in flight when the
    system accepts it. *)
Definition polled (m : Z) (k : Packet) : Packet := set_pk_info STATUS_PENDING 1 m (set_pk_in_use true k).
Lemma afd_poll_spec y p k afd base m :
  ip_packets y !! p = Some k -> pk_in_use k = false -> runs (afd_poll p afd base m) y (fun r y' => exists k',
    let y1 := set_kernel k' (set_packets (<[p := polled m k]> (ip_packets y)) y) in
    (y' = set_inflight (ip_inflight y ++ [p]) y1 /\ (r = inl tt \/ r = inr (IpKind WouldBlock))) \/
    (y' = set_failed (set_leaked (ip_leaked y ++ [p]) y1) /\ exists code, r = inr (IpOs code))).
Proof.
  intros Hk Hu. unfold afd_poll. apply runs_bind. eapply runs_eq; [by apply deref_done|]. rewrite Hu.
  apply runs_bind. eapply runs_eq; [by apply (put_done y p _ k)|].
  apply runs_bind. eapply runs_eq; [apply (put_done _ p _ (set_pk_in_use true k)); by simplify_map_eq|].
  cbn [ip_packets set_packets]. rewrite insert_insert_eq. unfold kcall, runs, mbind, M_bind. cbn [ip_kernel set_packets].
  destruct (nt_poll afd base m (ip_kernel y)) as [[| |code] k'].
  - exists (inl tt). eexists. split; [reflexivity|]. exists k'. left. auto.
  - exists (inr (IpKind WouldBlock)). eexists. split; [reflexivity|]. exists k'. left. auto.
  - exists (inr (IpOs code)). eexists. split; [reflexivity|]. exists k'. right. eauto.
Qed.

Lemma held_inflight y p q : occ (set_inflight (ip_inflight y ++ [p]) y) q = (occ y q + (if Nat.eq_dec p q then 1 else 0))%nat.
Proof. unfold occ, held. cbn. rewrite !count_occ_app. cbn. destruct (Nat.eq_dec p q); lia. Qed.

Lemma inv_polled e y p k s k' :
  Inv (p :: e) y -> ip_packets y !! p = Some k -> pk_data k = PkSocket s ->
  ss_status s = SkIdle ->
  Inv e (set_inflight (ip_inflight y ++ [p]) (set_kernel k' (set_packets
    (<[p := set_pk_data (PkSocket (set_ss_status (SkPolling (ss_mask s)) s)) (polled (ss_mask s) k)]> (ip_packets y)) y))).
Proof.
  intros Hi Hk Hd Hs.
  assert (Hkind : kind_at y p = Some KSocket) by (unfold kind_at; rewrite Hk; cbn; by rewrite Hd).
  eapply (inv_change (p :: e) e y _ p k _ Hi). split; cbn; try done.
  - by rewrite Hd.
  - destruct (iv_ok _ _ Hi p k Hk) as [Ho1 Ho2]. rewrite Hd in Ho2. split; [|done]. by apply mask_no_close.
  - intros s0 s' so Hd0 [= <-]. rewrite Hd in Hd0. by injection Hd0 as <-.
  - auto.
  - intros q [Hq|Hq%list_elem_of_singleton]%elem_of_app; [auto|subst; auto].
  - intros q Hq. left. unfold held. rewrite elem_of_app. by right.
  - auto.
  - apply (iv_polling _ _ Hi).
  - apply (iv_length _ _ Hi).
  - intros q Hq _. pose proof (held_inflight y p q) as Ho. unfold occ, held in *. cbn in *. rewrite Ho. by destruct (Nat.eq_dec p q); [subst|lia].
  - intros q Hq. rewrite elem_of_app, list_elem_of_singleton. naive_solver.
  - set_solver.
  - intros s0 s' Hd0 [= <-] _ [H1 H2 H3 H4]. rewrite Hd in Hd0. injection Hd0 as <-.
    rewrite (proj1 H2 Hs) in H1. pose proof (held_inflight y p p) as Ho. rewrite H1 in Ho.
    split; cbn; [|done|by intros f [= <-]|done].
    unfold occ, held in *. cbn in *. rewrite Ho. by destruct (Nat.eq_dec p p).
Qed.

(** Any change of the state of a socket, once something was refused. *)
Lemma inv_socket_failed e e' y p k k' s s' :
  Inv e y -> ip_failed y = true -> ip_packets y !! p = Some k -> pk_data k = PkSocket s -> pk_data k' = PkSocket s' -> packet_ok k' ->
  ss_socket s' = ss_socket s -> ss_waiting_on_delete s' = ss_waiting_on_delete s ->
  Inv e' (set_packets (<[p := k']> (ip_packets y)) y).
Proof.
  intros Hi Hf Hk Hd Hd' Ho Hs Hw. apply (inv_failed e); [|done]. apply (inv_change e e y _ p k k' Hi). apply change_put; try done.
  - by rewrite Hd, Hd'.
  - intros s0 s1 so H0 H1. rewrite Hd in H0. rewrite Hd' in H1. by injection H0 as <-; injection H1 as <-.
  - intros; congruence.
Qed.

(** The end of an update that has started a poll. *)
Definition now_polling (s : SocketState) : SocketState := set_ss_status (SkPolling (ss_mask s)) s.
Definition end_update (p : nat) (s : SocketState) : M (Iocp K) (() + ip_err) := pk_put p (set_pk_data (PkSocket (now_polling s)));; mret (inl tt).

Lemma polled_ok e y p k s : Inv e y -> ip_packets y !! p = Some k -> pk_data k = PkSocket s -> packet_ok (polled (ss_mask s) k) /\ extra_ok (ss_interest s).
Proof.
  intros Hi Hk Hd. destruct (iv_ok _ _ Hi p k Hk) as [Ho1 Ho2]. rewrite Hd in Ho2. split; [|done].
  split; cbn; [by apply mask_no_close|by rewrite Hd].
Qed.

Lemma end_update_failed e0 e y p k s :
  Inv e0 y -> ip_failed y = true -> ip_packets y !! p = Some k -> pk_data k = PkSocket s -> runs (end_update p s) y (upd_post e y p).
Proof.
  intros Hi Hf Hk Hd. destruct (iv_ok _ _ Hi p k Hk) as [Ho1 Ho2]. rewrite Hd in Ho2.
  apply runs_bind. eapply runs_eq; [by apply (put_done y p _ k)|]. apply runs_ret.
  apply (upd_refused e); [by eapply (inv_socket_failed e0 e y p k)|done|].
  apply (quiet_insert y _ p k (set_pk_data (PkSocket (now_polling s)) k)); quiet_put Hd.
Qed.

Lemma end_update_polled e y p k s k' :
  Inv (p :: e) y -> ip_packets y !! p = Some k -> pk_data k = PkSocket s -> ss_status s = SkIdle ->
  runs (end_update p s) (set_inflight (ip_inflight y ++ [p]) (set_kernel k' (set_packets (<[p := polled (ss_mask s) k]> (ip_packets y)) y))) (upd_post e y p).
Proof.
  intros Hi Hk Hd Hs. apply runs_bind. eapply runs_eq; [apply (put_done _ p _ (polled (ss_mask s) k)); by simplify_map_eq|].
  apply runs_ret. cbn. rewrite insert_insert_eq. split_and!; [by apply (inv_polled e)|intros _ k0 s0| |done].
  - cbn. rewrite lookup_insert_eq. intros [= <-] [= <-] _. done.
  - apply (quiet_insert y _ p k (set_pk_data (PkSocket (now_polling s)) (polled (ss_mask s) k))); quiet_put Hd.
Qed.

Lemma poll_refused e e' y p k s k' :
  Inv e y -> ip_packets y !! p = Some k -> pk_data k = PkSocket s ->
  let y' := set_failed (set_leaked (ip_leaked y ++ [p]) (set_kernel k' (set_packets (<[p := polled (ss_mask s) k]> (ip_packets y)) y))) in
  Inv e' y' /\ quiet y y'.
Proof.
  intros Hi Hk Hd. destruct (polled_ok e y p k s Hi Hk Hd) as [Ho _]. split.
  - apply (inv_same e' (set_packets (<[p := polled (ss_mask s) k]> (ip_packets (set_failed y))) (set_failed y))); try done.
    apply (inv_socket_failed e e' (set_failed y) p k (polled (ss_mask s) k) s s); try done. by apply (inv_same e y).
  - apply (quiet_insert y _ p k (polled (ss_mask s) k)); quiet_put Hd.
Qed.

Lemma update_idle_spec e y p k s :
  Inv (p :: e) y -> ip_packets y !! p = Some k -> pk_data k = PkSocket s ->
  ss_waiting_on_delete s = false -> ss_status s = SkIdle -> runs (update_socket p s) y (upd_post e y p).
Proof.
  intros Hi Hk Hd Hw Hs. unfold update_socket. rewrite Hw, Hs. fold (now_polling s). fold (end_update p s). apply runs_bind.
  destruct (pk_in_use k) eqn:Hu.
  - assert (Hf : ip_failed y = true).
    { destruct (ip_failed y) eqn:Hf; [done|]. pose proof (pi_idle _ _ _ _ _ (iv_sockets _ _ Hi Hf p k s Hk Hd)). naive_solver congruence. }
    eapply runs_eq; [unfold afd_poll, mbind, M_bind; rewrite (deref_done y p k Hk), Hu; reflexivity|].
    by apply (end_update_failed (p :: e) e y p k s).
  - eapply runs_conseq; [by apply (afd_poll_spec y p k)|]. intros r y' (k' & [[-> Hr]|[-> [code ->]]]).
    + destruct Hr as [->| ->]; by apply (end_update_polled e).
    + destruct (poll_refused (p :: e) e y p k s k' Hi Hk Hd) as [Hi1 Hq]. cbv zeta in Hi1, Hq. destruct (_ || _).
      * eapply runs_conseq; [eapply (end_update_failed e e); [done|done|apply lookup_insert_eq|done]|].
        intros r' y' (H1 & H2 & H3 & H4). split_and!; [done|done|by eapply quiet_trans|done].
      * apply runs_ret. by apply (upd_refused e).
Qed.

Lemma update_socket_spec e y p k s :
  Inv (p :: e) y -> ip_packets y !! p = Some k -> pk_data k = PkSocket s -> runs (update_socket p s) y (upd_post e y p).
Proof.
  intros Hi Hk Hd.
  assert (Hnop : (ss_waiting_on_delete s = false -> settled s) -> upd_post e y p (inl tt) y).
  { intros Hs. assert (Hda : done_at y p) by (intros _ k0 s0 Hk0 Hd0; rewrite Hk in Hk0; injection Hk0 as <-; rewrite Hd in Hd0; by injection Hd0 as <-).
    split_and!; [by apply (inv_done e y p)|done|apply quiet_refl|done]. }
  destruct (ss_waiting_on_delete s) eqn:Hw; [unfold update_socket; rewrite Hw; by apply runs_ret, Hnop|].
  destruct (ss_status s) as [|f|] eqn:Hs; [by eapply (update_idle_spec e)| |].
  - unfold update_socket. rewrite Hw, Hs. destruct (ss_mask s =? f) eqn:Hm; [|by eapply (pk_cancel_spec e)].
    apply Z.eqb_eq in Hm. apply runs_ret, Hnop. intros _. unfold settled. by rewrite Hs.
  - unfold update_socket. rewrite Hw, Hs. apply runs_ret, Hnop. intros _. unfold settled. by rewrite Hs.
Qed.

(** A packet that is no socket changes. *)
Lemma inv_other e e' y y' p k k' :
  Inv e y -> ip_packets y !! p = Some k -> kind_of (pk_data k') = kind_of (pk_data k) -> kind_of (pk_data k) <> KSocket ->
  packet_ok k' -> (forall q, q <> p -> q ∈ e -> q ∈ e') ->
  ip_packets y' = <[p := k']> (ip_packets y) -> ip_next y' = ip_next y -> ip_sources y' = ip_sources y ->
  ip_waitables y' = ip_waitables y -> ip_threads y' = ip_threads y -> ip_pending y' = ip_pending y -> ip_inflight y' = ip_inflight y ->
  ip_port y' = ip_port y -> ip_waiter_at y' = ip_waiter_at y -> ip_polling y' = ip_polling y ->
  (forall q, q ∈ ip_waits y' -> q ∈ ip_waits y \/ kind_at y q = Some KWaitable) ->
  (ip_failed y' = false -> ip_failed y = false) -> Inv e' y'.
Proof.
  intros Hi Hk Hc Hs Ho He H1 H2 H3 H4 H5 H6 H7 H8 H9 H10 H11 H12.
  apply (inv_change e e' y y' p k k' Hi). split; try done.
  - intros s s' so Hd. by rewrite Hd in Hs.
  - rewrite H6. auto.
  - rewrite H7. auto.
  - rewrite H8, H9. intros q Hq. left. unfold held. rewrite elem_of_app. auto.
  - rewrite H9, H10. apply (iv_polling _ _ Hi).
  - rewrite H6. apply (iv_length _ _ Hi).
  - intros q _ _. unfold occ, held. by rewrite H7, H8, H9.
  - rewrite H7. auto.
  - intros q _. by apply queued_quiet.
  - intros s s' Hd. by rewrite Hd in Hs.
Qed.

Lemma update_waitable_spec e y p k w :
  Inv (p :: e) y -> ip_packets y !! p = Some k -> pk_data k = PkWaitable w ->
  runs (update_waitable p w) y (upd_post e y p).
Proof.
  intros Hi Hk Hd.
  assert (Hda : forall y', ip_packets y' !! p = Some k -> done_at y' p) by (intros y' Hk' _ k0 s0 Hk0 Hd0; congruence).
  assert (Hi0 : Inv e y).
  { apply (inv_other (p :: e) e y y p k k); try done; [by rewrite Hd|exact (iv_ok _ _ Hi p k Hk)| |by rewrite insert_id|auto].
    set_solver. }
  assert (Hnop : upd_post e y p (inl tt) y) by (split_and!; [done|by apply Hda|apply quiet_refl|done]).
  unfold update_waitable. destruct (_ && _); [by apply runs_ret|]. destruct (ws_status w); [|by apply runs_ret..].
  apply runs_bind. unfold kcall at 1, runs at 1. destruct (nt_register_wait _ _) as [[code|] k'].
  - eexists _, _. split; [reflexivity|]. apply runs_bind, runs_modify, runs_ret.
    apply (upd_refused e); [by apply (inv_same e y)|done|by apply quiet_same].
  - eexists _, _. split; [reflexivity|]. apply runs_bind, runs_modify, runs_bind.
    eapply runs_eq; [by apply (put_done _ p _ k)|]. apply runs_ret.
    set (k1 := set_pk_data _ k). assert (Hkk : kind_of (pk_data k1) = kind_of (pk_data k)) by (cbn; by rewrite Hd).
    split_and!.
    + apply (inv_other e e y _ p k k1); try done; [by rewrite Hd|split; [exact (proj1 (iv_ok _ _ Hi p k Hk))|done]|].
      cbn. intros q. rewrite elem_of_app, list_elem_of_singleton. intros [Hq| ->]; [auto|]. right. unfold kind_at. rewrite Hk. cbn. by rewrite Hd.
    + intros _ k0 s0. cbn. rewrite lookup_insert_eq. by intros [= <-].
    + apply (quiet_insert y _ p k k1); quiet_put Hd.
    + done.
Qed.

Lemma pk_update_spec e y p : Inv (p :: e) y -> updatable y p -> runs (pk_update p) y (upd_post e y p).
Proof.
  intros Hi Hu. destruct (updatable_lookup y p Hu) as (k & Hk & Hc). apply runs_bind. eapply runs_eq; [by apply deref_done|].
  destruct (pk_data k) as [s|w| |] eqn:Hd; [by apply (update_socket_spec e y p k)| |set_solver..].
  by apply (update_waitable_spec e y p k).
Qed.
End steps.
