(* ===== verification/IocpRun.v ===== *)
(** * The calls of the poller on completion ports keep the invariant

    The queue of updates, [feed_event], the calls and the steps of
    [wait_deadline] ([Iocp.v]). *)
From Stdlib Require Import ZArith Lia.
From stdpp Require Import base numbers gmap list.
From S2P Require Import Prelude PollFds Iocp IocpInv.

Section run.
Context {K : Type} `{!NtKernel K}.
Implicit Types y : Iocp K.

(** [quiet], but for the queue. *)
Record calm y y' : Prop := mkCalm {
  cm_threads : ip_threads y' = ip_threads y;
  cm_waiter : ip_waiter_at y' = ip_waiter_at y;
  cm_port : ip_port y' = ip_port y;
  cm_sources : ip_sources y' = ip_sources y;
  cm_waitables : ip_waitables y' = ip_waitables y;
  cm_polling : ip_polling y' = ip_polling y;
  cm_log : ip_log y' = ip_log y;
  cm_failed : ip_failed y' = false -> ip_failed y = false;
  cm_kind : forall q, kind_at y' q = kind_at y q;
  cm_doomed : forall q, doomed y q -> doomed y' q;
}.
Lemma ip_calm_refl y : calm y y.
Proof. by split. Qed.
Lemma calm_trans y1 y2 y3 : calm y1 y2 -> calm y2 y3 -> calm y1 y3.
Proof. intros [] []. split; try congruence; auto. Qed.
Lemma quiet_calm y y' : quiet y y' -> calm y y'.
Proof. intros []. by split. Qed.
(** Events are not delivered, and deleted sockets stay deleted. *)
Definition tame y y' : Prop := ip_log y' = ip_log y /\ forall q, doomed y q -> doomed y' q.
Lemma tame_same y y' : ip_packets y' = ip_packets y -> ip_log y' = ip_log y -> tame y y'.
Proof. intros Hp Hl. split; [done|]. intros q. by apply doomed_same. Qed.
Lemma tame_trans y1 y2 y3 : tame y1 y2 -> tame y2 y3 -> tame y1 y3.
Proof. intros [H1 H2] [H3 H4]. split; [congruence|auto]. Qed.
Lemma calm_tame y y' : calm y y' -> tame y y'.
Proof. intros []. by split. Qed.
Lemma quiet_tame y y' : quiet y y' -> tame y y'.
Proof. intros []. by split. Qed.
Lemma calm_updatable y y' p : calm y y' -> updatable y p -> updatable y' p.
Proof. intros H. unfold updatable. by rewrite (cm_kind _ _ H). Qed.

(** ** The queue *)

Lemma inv_pop e y p rest : Inv e y -> ip_pending y = p :: rest -> Inv (p :: e) (set_pending rest y) /\ updatable (set_pending rest y) p.
Proof.
  intros Hi Hp. pose proof (iv_pending _ _ Hi) as HF. rewrite Hp in HF. apply Forall_cons_1 in HF as [Hu HF].
  split; [|done]. destruct (updatable_lookup y p Hu) as (k & Hk & _).
  apply (inv_change e (p :: e) y _ p k k Hi). split; cbn; try done.
  - by rewrite insert_id.
  - exact (iv_ok _ _ Hi p k Hk).
  - intros s s' so H1 H2. rewrite H1 in H2. by injection H2 as <-.
  - intros q Hq. left. rewrite Hp. set_solver.
  - auto.
  - intros q Hq. left. unfold held. rewrite elem_of_app. auto.
  - auto.
  - apply (iv_polling _ _ Hi).
  - pose proof (iv_length _ _ Hi) as Hl. rewrite Hp in Hl. cbn in Hl. lia.
  - intros q Hq [Hin|Ht]; [left|by right]. rewrite Hp in Hin. set_solver.
  - set_solver.
  - intros s s' H1 H2 _ [P1 P2 P3 P4]. rewrite H1 in H2. injection H2 as <-. split; try done. set_solver.
Qed.

Definition drain_post e y (n : nat) (r : () + ip_err) y' : Prop :=
  Inv e y' /\ calm y y' /\ (r = inl tt -> ip_pending y' = drop n (ip_pending y)) /\ (forall x, r = inr x -> ip_failed y' = true).

Lemma drain_queue_spec n e y : Inv e y -> runs (drain_queue n) y (drain_post e y n).
Proof.
  revert y. induction n as [|n IH]; intros y Hi.
  - exists (inl tt), y. split; [done|]. split_and!; [done|apply ip_calm_refl|done|done].
  - destruct (ip_pending y) as [|p rest] eqn:Hp.
    + exists (inl tt), y. cbn. rewrite Hp. split; [done|]. split_and!; [done|apply ip_calm_refl|by rewrite Hp|done].
    + destruct (inv_pop e y p rest Hi Hp) as [Hi1 Hu].
      destruct (pk_update_spec e _ p Hi1 Hu) as (r & y1 & He & Hi2 & _ & Hq & Hf).
      assert (Hc : calm y y1) by (apply (calm_trans _ (set_pending rest y)); [by split|by apply quiet_calm]).
      unfold runs. cbn. rewrite Hp. unfold mbind, M_bind. rewrite He. destruct r as [[]|x].
      * destruct (IH y1 Hi2) as (r & y2 & He2 & Hi3 & Hc2 & Hd & Hf2). exists r, y2. split; [done|]. split_and!; [done|by apply (calm_trans _ y1)| |done].
        intros Hr. rewrite (Hd Hr), (qt_pending _ _ Hq), Hp. done.
      * exists (inr x), y1. split; [done|]. split_and!; [done|done|done|by eapply Hf].
Qed.

Lemma drain_update_queue_spec limit e y : Inv e y -> runs (drain_update_queue limit) y (fun r y' =>
  Inv e y' /\ calm y y' /\ (r = inl tt -> ip_pending y' = []) /\ (forall x, r = inr x -> ip_failed y' = true)).
Proof.
  intros Hi. destruct (drain_queue_spec (if limit then pending_capacity else length (ip_pending y)) e y Hi) as (r & y' & He & H1 & H2 & H3 & H4).
  exists r, y'. split; [done|]. split_and!; [done|done| |done]. intros Hr. rewrite (H3 Hr). apply drop_ge.
  pose proof (iv_length _ _ Hi). destruct limit; lia.
Qed.

(** ** [update_packet] *)

Lemma update_check_spec e y p : Inv (p :: e) y -> updatable y p -> runs (update_check p) y (fun r y' =>
  quiet y y' /\ match r with
  | Some r => ip_polling y = true /\ upd_post e y p r y'
  | None => ip_polling y = false /\ y' = y
  end).
Proof.
  intros Hi Hu. apply runs_bind, runs_gets. destruct (ip_polling y) eqn:Hp.
  - apply runs_bind. eapply runs_conseq; [by apply (pk_update_spec e)|]. intros r y' Hr. apply runs_ret. split; [apply Hr|done].
  - apply runs_ret. split; [apply quiet_refl|done].
Qed.

Lemma inv_push e y p :
  Inv (p :: e) y -> updatable y p -> (length (ip_pending y) < pending_capacity)%nat -> Inv e (set_pending (ip_pending y ++ [p]) y).
Proof.
  intros Hi Hu Hl. destruct (updatable_lookup y p Hu) as (k & Hk & _).
  apply (inv_change (p :: e) e y _ p k k Hi). split; cbn; try done.
  - by rewrite insert_id.
  - exact (iv_ok _ _ Hi p k Hk).
  - intros s s' so H1 H2. rewrite H1 in H2. by injection H2 as <-.
  - intros q. rewrite elem_of_app, list_elem_of_singleton. intros [Hq| ->]; auto.
  - auto.
  - intros q Hq. left. unfold held. rewrite elem_of_app. auto.
  - auto.
  - apply (iv_polling _ _ Hi).
  - rewrite length_app. cbn. lia.
  - intros q Hq [Hin|Ht]; [left|by right]. cbn. set_solver.
  - set_solver.
  - intros s s' H1 H2 _ [P1 P2 P3 P4]. rewrite H1 in H2. injection H2 as <-. split; try done.
    intros _ _ Hn. destruct Hn. left. cbn. set_solver.
Qed.

Lemma update_push_spec e y p : Inv (p :: e) y -> updatable y p -> runs (update_push p) y (fun r y' =>
  calm y y' /\ match r with
  | Some (inl _) => Inv e y' /\ p ∈ ip_pending y'
  | Some (inr x) => Inv e y' /\ ip_failed y' = true
  | None => Inv (p :: e) y' /\ ip_pending y' = []
  end).
Proof.
  intros Hi Hu. apply runs_bind, runs_gets. case_bool_decide as Hl.
  - apply runs_bind, runs_modify, runs_ret. split; [by split|]. split; [by apply inv_push|]. cbn. set_solver.
  - apply runs_bind. eapply runs_conseq; [by apply (drain_update_queue_spec true (p :: e))|].
    intros [[]|x] y' (H1 & H2 & H3 & H4); apply runs_ret; (split; [done|]); [auto|].
    split; [|by eapply H4]. eapply inv_failed; [done|by eapply H4].
Qed.

(** Two rounds are enough for the thread that waits. *)
Lemma update_packet_spec e y p : Inv (p :: e) y -> updatable y p -> ip_polling y = false ->
  runs (update_packet update_rounds p) y (fun r y' =>
    Inv e y' /\ calm y y' /\ match r with inl _ => p ∈ ip_pending y' | inr _ => ip_failed y' = true end).
Proof.
  intros Hi Hu Hp. unfold update_rounds. cbn. apply runs_bind. eapply runs_conseq; [by apply (update_check_spec e)|].
  intros [r|] y' (_ & Hr); [destruct Hr; congruence|]. destruct Hr as [_ ->]. apply runs_bind.
  eapply runs_conseq; [by apply (update_push_spec e)|]. intros [[[]|x]|] y1 [Hc Hr].
  - apply runs_ret. split_and!; [apply Hr|done|apply Hr].
  - apply runs_ret. split_and!; [apply Hr|done|apply Hr].
  - destruct Hr as [Hi1 Hn]. pose proof (calm_updatable _ _ _ Hc Hu) as Hu1. apply runs_bind. eapply runs_conseq; [by apply (update_check_spec e)|].
    intros [r|] y2 (_ & Hr); [destruct Hr; rewrite (cm_polling _ _ Hc) in *; congruence|]. destruct Hr as [_ ->].
    unfold update_push. apply runs_bind, runs_bind, runs_gets. rewrite Hn. cbn.
    apply runs_bind, runs_modify, runs_ret, runs_ret. split_and!; [|by apply (calm_trans _ y1); [done|split]|cbn; set_solver].
    assert (Hl : (length (ip_pending y1) < pending_capacity)%nat) by (rewrite Hn; cbn; unfold pending_capacity; lia).
    pose proof (inv_push e y1 p Hi1 Hu1 Hl) as Hpu. by rewrite Hn in Hpu.
Qed.

(** ** Deleting and setting events *)

Lemma inv_drop_wait e y p : Inv e y -> Inv e (set_waits (filter (fun q => q <> p) (ip_waits y)) y).
Proof.
  intros Hi. destruct (kind_lookup y _ _ (iv_notifier _ _ Hi)) as (k & Hk & Hkk).
  apply (inv_other e e y _ NOTIFIER k k); try done; [by rewrite Hkk|exact (iv_ok _ _ Hi _ k Hk)|by rewrite insert_id|].
  intros q. cbn. rewrite list_elem_of_filter. tauto.
Qed.

Lemma begin_delete_spec y p :
  Inv [] y -> updatable y p -> (forall so, ip_sources y !! so <> Some p) -> runs (begin_delete p) y (fun r y' => Inv [] y' /\ quiet y y').
Proof.
  intros Hi Hu Hso. destruct (updatable_lookup y p Hu) as (k & Hk & Hc). pose proof (iv_ok _ _ Hi p k Hk) as [Ho1 Ho2].
  apply runs_bind. eapply runs_eq; [by apply deref_done|]. destruct (pk_data k) as [s|w| |] eqn:Hd; [| |set_solver..].
  - destruct (ss_waiting_on_delete s) eqn:Hw; [apply runs_ret; split; [done|apply quiet_refl]|].
    set (k1 := set_pk_data (PkSocket (set_ss_waiting s)) k).
    assert (Hi1 : Inv [] (set_packets (<[p := k1]> (ip_packets y)) y)).
    { apply (inv_change [] [] y _ p k k1 Hi). apply change_put; try done.
      - cbn. by rewrite Hd.
      - intros s0 s' so Hd0 [= <-]. rewrite Hd in Hd0. injection Hd0 as <-. split; [done|]. by intros ?%Hso.
      - intros s0 s' Hd0 [= <-] _ [H1 H2 H3 H4]. rewrite Hd in Hd0. injection Hd0 as <-. by split. }
    assert (Hq1 : quiet y (set_packets (<[p := k1]> (ip_packets y)) y)) by (apply (quiet_insert y _ p k k1); quiet_put Hd).
    apply runs_bind. eapply runs_eq; [by apply (put_done y p _ k)|]. cbn [ss_status set_ss_waiting].
    destruct (ss_status s) as [|f|] eqn:Hs; [by apply runs_ret| |by apply runs_ret].
    eapply runs_conseq; [apply (pk_cancel_spec [] _ p k1 (set_ss_waiting s) f); [apply (inv_weaken []); [set_solver|exact Hi1]|by simplify_map_eq|done|done]|].
    intros r y' (H1 & _ & H3 & _). split; [done|by eapply quiet_trans].
  - apply runs_bind, runs_modify, runs_bind. eapply runs_eq; [by apply (put_done _ p _ k)|]. apply runs_ret.
    set (k1 := set_pk_data _ k). assert (Hkk : kind_of (pk_data k1) = kind_of (pk_data k)) by (cbn; by rewrite Hd).
    split; [|apply (quiet_insert y _ p k k1); quiet_put Hd].
    apply (inv_other [] [] _ _ p k k1 (inv_drop_wait [] y p Hi)); try done; [by rewrite Hd|auto].
Qed.

Lemma pk_set_events_spec y p ev mode : Inv [] y -> updatable y p -> extra_ok ev ->
  runs (pk_set_events p ev mode) y (fun r y' => (if (r : bool) then Inv [p] y' else Inv [] y') /\ quiet y y').
Proof.
  intros Hi Hu Hev. destruct (updatable_lookup y p Hu) as (k & Hk & Hc). pose proof (iv_ok _ _ Hi p k Hk) as [Ho1 Ho2].
  apply runs_bind. eapply runs_eq; [by apply deref_done|]. destruct (pk_data k) as [s|w| |] eqn:Hd; [| |set_solver..].
  - apply runs_bind. eapply runs_eq; [by apply (put_done y p _ k)|]. apply runs_ret.
    set (s1 := set_ss_interest ev true mode s). set (k1 := set_pk_data (PkSocket s1) k).
    split; [|apply (quiet_insert y _ p k k1); quiet_put Hd].
    set (b := match ss_status s1 with SkPolling flags => _ | _ => true end).
    assert (Hi1 : Inv (if b then [p] else []) (set_packets (<[p := k1]> (ip_packets y)) y)); [|by destruct b].
    apply (inv_change [] (if b then [p] else []) y _ p k k1 Hi). apply change_put; try done.
    + cbn. by rewrite Hd.
    + intros s0 s' so Hd0 [= <-]. rewrite Hd in Hd0. by injection Hd0 as <-.
    + set_solver.
    + intros s0 s' Hd0 [= <-] _ [H1 H2 H3 H4]. rewrite Hd in Hd0. injection Hd0 as <-. split; try done.
      intros _ Hb _. unfold b in Hb. unfold settled. cbn in *. destruct (ss_status s) as [|f|]; [set_solver| |set_solver].
      destruct (Z.eqb_spec (ss_mask s1) f); [done|]. set_solver.
  - apply runs_bind. eapply runs_eq; [by apply (put_done y p _ k)|]. apply runs_ret.
    set (k1 := set_pk_data _ k). assert (Hkk : kind_of (pk_data k1) = kind_of (pk_data k)) by (cbn; by rewrite Hd).
    split; [|apply (quiet_insert y _ p k k1); quiet_put Hd].
    assert (Hi1 : Inv [] (set_packets (<[p := k1]> (ip_packets y)) y)).
    { apply (inv_other [] [] y _ p k k1); try done; [by rewrite Hd|auto]. }
    destruct (ws_status w); [by apply (inv_weaken []); [set_solver|]|done|done].
Qed.

(** ** Feeding an entry

    The packet leaves the entries and is unlocked; a socket is idle then. *)

Definition popped (p : nat) (k' : Packet) (w : ip_waiter) y : Iocp K := set_waiter_at w (set_packets (<[p := k']> (ip_packets y)) y).

Lemma occ_popped y p k' n ne z entries q :
  ip_waiter_at y = IwFeed n ne z (p :: entries) ->
  (occ (popped p k' (IwFeed n ne z entries) y) q + (if Nat.eq_dec p q then 1 else 0))%nat = occ y q.
Proof. intros Hw. unfold occ, held. rewrite Hw. cbn. rewrite !count_occ_app. cbn. destruct (Nat.eq_dec p q); lia. Qed.

Lemma inv_popped e' y p k k' n ne z entries :
  Inv [] y -> ip_waiter_at y = IwFeed n ne z (p :: entries) -> ip_packets y !! p = Some k ->
  kind_of (pk_data k') = kind_of (pk_data k) -> packet_ok k' -> pk_in_use k' = false ->
  (forall s s', pk_data k = PkSocket s -> pk_data k' = PkSocket s' ->
    ss_socket s' = ss_socket s /\ ss_waiting_on_delete s' = ss_waiting_on_delete s /\ ss_status s' = SkIdle /\
    (p ∈ e' \/ ss_waiting_on_delete s = true)) ->
  Inv e' (popped p k' (IwFeed n ne z entries) y).
Proof.
  intros Hi Hw Hk Hc Ho Hu Hs. pose proof (fun q => occ_popped y p k' n ne z entries q Hw) as Hoc.
  assert (Hoc1 : forall q, q <> p -> occ (popped p k' (IwFeed n ne z entries) y) q = occ y q).
  { intros q Hq. rewrite <- Hoc. destruct (Nat.eq_dec p q); [congruence|lia]. }
  assert (Hoc2 : S (occ (popped p k' (IwFeed n ne z entries) y) p) = occ y p).
  { rewrite <- Hoc. destruct (Nat.eq_dec p p); [lia|done]. }
  apply (inv_change [] e' y _ p k k' Hi). split; try done.
  - intros s s' so Hd Hd'. destruct (Hs s s' Hd Hd') as (H1 & H2 & _). auto.
  - auto.
  - auto.
  - intros q Hq. left. unfold held. rewrite Hw. cbn. rewrite !elem_of_app, elem_of_cons. rewrite elem_of_app in Hq. tauto.
  - auto.
  - cbn. rewrite (iv_polling _ _ Hi), Hw. done.
  - apply (iv_length _ _ Hi).
  - auto.
  - set_solver.
  - intros s s' Hd Hd' Hf [H1 H2 H3 H4]. destruct (Hs s s' Hd Hd') as (_ & Hwd & Hst & He).
    assert (Hb : (Nat.b2n (pk_in_use k) <= 1)%nat) by (destruct (pk_in_use k); cbn; lia).
    split; [rewrite Hu; cbn [Nat.b2n]; lia|by rewrite Hst, Hu|by rewrite Hst|].
    intros Hwf Hpe. destruct He as [He|He]; [done|congruence].
Qed.

(** What [feed_event] returns for a socket. *)
Definition feed_result (k : Packet) (s : SocketState) : FeedEventResult :=
  if ss_waiting_on_delete s then NoEvent
  else match poll_event k s with
  | None => NoEvent
  | Some e => let e := filter_event s e in if event_wanted s e then FeedEvent e else NoEvent
  end.

(** The entry [p] was fed; unless that failed, the packet of a socket that was not deleted is queued. *)
Definition fed y (p : nat) (w : ip_waiter) (r : FeedEventResult + ip_err) y' : Prop :=
  Inv [] y' /\ ip_waiter_at y' = w /\ ip_threads y' = ip_threads y /\ tame y y' /\
  match r with
  | inr _ => ip_failed y' = true
  | inl R => forall k s, ip_packets y !! p = Some k -> pk_data k = PkSocket s ->
      R = feed_result k s /\ (ss_waiting_on_delete s = false -> p ∈ ip_pending y')
  end.

Lemma poll_event_some k s : packet_ok k -> is_Some (poll_event k s).
Proof.
  intros [Ho _]. unfold poll_event. destruct (_ =? _); [eauto|]. destruct (_ <? 0); [eauto|]. destruct (1 <=? _); [|eauto].
  unfold intersects at 1. rewrite Ho. cbn. destruct (afd_mask_to_event _). eauto.
Qed.

Lemma kind_popped y p k k2 w q :
  ip_packets y !! p = Some k -> kind_of (pk_data k2) = kind_of (pk_data k) -> kind_at (popped p k2 w y) q = kind_at y q.
Proof.
  intros Hk Hk2. unfold kind_at, popped. cbn. destruct (decide (q = p)) as [->|]; simplify_map_eq; [by rewrite Hk2|done].
Qed.
Lemma put_popped p g k1 w y : pk_put p g (popped p k1 w y) = Done (tt, popped p (g k1) w y).
Proof. rewrite (put_done _ p g k1); [|apply lookup_insert_eq]. unfold popped. cbn. by rewrite insert_insert_eq. Qed.

Lemma tame_popped y p k k2 w :
  ip_packets y !! p = Some k ->
  (forall s, pk_data k = PkSocket s -> exists s', pk_data k2 = PkSocket s' /\ (ss_waiting_on_delete s = true -> ss_waiting_on_delete s' = true)) ->
  tame y (popped p k2 w y).
Proof. intros Hk Hs. split; [done|]. intros q. by apply (doomed_insert y _ p k k2). Qed.

(** The end of [feed_event], with the packet in the queue again. *)
Lemma feed_update_spec y p k k2 w R :
  ip_packets y !! p = Some k -> kind_of (pk_data k2) = kind_of (pk_data k) -> updatable y p -> polls w = false ->
  Inv [p] (popped p k2 w y) -> tame y (popped p k2 w y) -> (forall s, pk_data k = PkSocket s -> R = feed_result k s) ->
  runs (r ← update_packet update_rounds p; match r with inr e => mret (inr e) | inl _ => mret (inl R) end) (popped p k2 w y) (fed y p w).
Proof.
  intros Hk Hk2 Hu Hw Hi Ht HR. pose proof (fun q => kind_popped y p k k2 w q Hk Hk2) as Hkind.
  apply runs_bind. eapply runs_conseq; [apply (update_packet_spec [] _ p Hi)|].
  - unfold updatable. by rewrite Hkind.
  - by rewrite (iv_polling _ _ Hi).
  - intros r y2 (H1 & H2 & H3). destruct r as [[]|x]; apply runs_ret.
    all: split_and!; [done|by rewrite (cm_waiter _ _ H2)|by rewrite (cm_threads _ _ H2)|by eapply tame_trans, calm_tame|try done].
    intros k0 s Hk0 Hd. rewrite Hk in Hk0. injection Hk0 as <-. auto.
Qed.

Lemma feed_result_idle k s b : feed_result (set_pk_in_use b k) (set_ss_status SkIdle s) = feed_result k s.
Proof. done. Qed.

Lemma feed_socket_spec y p k s n ne z entries :
  let w := IwFeed n ne z entries in
  Inv [] y -> ip_waiter_at y = IwFeed n ne z (p :: entries) -> ip_packets y !! p = Some k -> pk_data k = PkSocket s ->
  runs (feed_socket p (set_pk_in_use false k) s) (popped p (set_pk_in_use false k) w y) (fed y p w).
Proof.
  intros w Hi Hw Hk Hd. pose proof (iv_ok _ _ Hi p k Hk) as Ho. assert (Ho' := Ho). destruct Ho' as [Ho1 Ho2]. rewrite Hd in Ho2.
  set (s1 := set_ss_status SkIdle s). set (k1 := set_pk_data (PkSocket s1) (set_pk_in_use false k)).
  assert (Hu : updatable y p) by (left; unfold kind_at; rewrite Hk; cbn; by rewrite Hd).
  assert (Hpop : forall e k2 s2, pk_data k2 = PkSocket s2 -> packet_ok k2 -> pk_in_use k2 = false -> ss_socket s2 = ss_socket s ->
    ss_waiting_on_delete s2 = ss_waiting_on_delete s -> ss_status s2 = SkIdle ->
    p ∈ e \/ ss_waiting_on_delete s = true -> Inv e (popped p k2 w y) /\ tame y (popped p k2 w y)).
  { intros e k2 s2 Hd2 Ho2' Hu2 Hs1 Hs2 Hs3 He. split.
    - apply (inv_popped e y p k k2 n ne z entries Hi Hw Hk); [by rewrite Hd, Hd2|done|done|].
      intros s0 s' Hd0 Hd'. rewrite Hd in Hd0. rewrite Hd2 in Hd'. injection Hd0 as <-. injection Hd' as <-. auto.
    - apply (tame_popped y p k k2 w Hk). rewrite Hd. intros s0 [= <-]. exists s2. by rewrite Hs2. }
  unfold feed_socket. apply runs_bind. eapply runs_eq; [apply put_popped|]. fold s1 k1.
  assert (HR : forall R, R = feed_result (set_pk_in_use false k) s1 -> forall s0, pk_data k = PkSocket s0 -> R = feed_result k s0).
  { intros R -> s0 Hd0. rewrite Hd in Hd0. by injection Hd0 as <-. }
  unfold feed_result in HR. cbn [ss_waiting_on_delete s1 set_ss_status] in HR |- *. destruct (ss_waiting_on_delete s) eqn:Hwd.
  { apply runs_ret. destruct (Hpop [] k1 s1) as [H1 H2]; try done; [by right|]. split_and!; try done.
    intros k0 s0 Hk0 Hd0. rewrite Hk in Hk0. injection Hk0 as <-. split; [by apply HR|]. congruence. }
  destruct (poll_event_some (set_pk_in_use false k) s1) as [ev Hev]; [exact Ho|]. rewrite Hev in HR |- *. apply runs_bind.
  destruct (_ && _).
  - eapply runs_eq; [apply put_popped|]. edestruct (Hpop [p]) as [H1 H2]; [..|apply (feed_update_spec y p k); [done|by rewrite Hd|done|done|exact H1|exact H2|by apply HR]]; try done. left. set_solver.
  - apply runs_ret. destruct (Hpop [p] k1 s1) as [H1 H2]; try done; [left; set_solver|].
    apply (feed_update_spec y p k); [done|by rewrite Hd|done|done|done|done|by apply HR].
Qed.

Lemma feed_event_spec y p n ne z entries :
  let w := IwFeed n ne z entries in
  Inv [] y -> ip_waiter_at y = IwFeed n ne z (p :: entries) ->
  runs (into_packet p;; modifyS (set_waiter_at w);; feed_event p) y (fed y p w).
Proof.
  intros w Hi Hw. destruct (held_some [] y p Hi) as [c Hc]; [unfold held; rewrite Hw; set_solver|].
  apply kind_lookup in Hc as (k & Hk & Hc). apply runs_bind. eapply runs_eq; [by apply (put_done y p _ k)|].
  apply runs_bind, runs_modify. set (k0 := set_pk_in_use false k). change (set_waiter_at w _) with (popped p k0 w y).
  apply runs_bind. eapply runs_eq; [apply deref_done, lookup_insert_eq|].
  assert (Hpop : forall e k2, kind_of (pk_data k) <> KSocket -> kind_of (pk_data k2) = kind_of (pk_data k) -> packet_ok k2 -> pk_in_use k2 = false ->
    Inv e (popped p k2 w y) /\ tame y (popped p k2 w y)).
  { intros e k2 Hns Hk2 Ho2 Hu2. split; [|apply (tame_popped y p k k2 w Hk); intros s Hd; by rewrite Hd in Hns].
    apply (inv_popped e y p k k2 n ne z entries Hi Hw Hk Hk2 Ho2 Hu2). intros s s' Hd. by rewrite Hd in Hns. }
  pose proof (iv_ok _ _ Hi p k Hk) as Ho. change (pk_data k0) with (pk_data k).
  assert (Hno : kind_of (pk_data k) <> KSocket -> forall R, fed y p w (inl R) (popped p k0 w y)).
  { intros Hns R. destruct (Hpop [] k0) as [H1 H2]; try done. split_and!; try done. intros k' s Hk' Hd. rewrite Hk in Hk'. injection Hk' as <-. by rewrite Hd in Hns. }
  destruct (pk_data k) as [s|wt|ev|] eqn:Hd; [by apply (feed_socket_spec y p k s)| |by apply runs_ret, Hno..].
  assert (Hu : updatable y p) by (right; unfold kind_at; rewrite Hk; cbn; by rewrite Hd).
  unfold feed_waitable. apply runs_bind. destruct (is_oneshot _).
  - eapply runs_eq; [apply put_popped|]. edestruct (Hpop [p]) as [H1 H2]; [done| | | |apply (feed_update_spec y p k); [done|by rewrite Hd|done|done|exact H1|exact H2|by rewrite Hd]]; [done| |done].
    by destruct Ho.
  - apply runs_ret. destruct (Hpop [p] k0) as [H1 H2]; [done|by cbn; rewrite Hd|exact Ho|done|]. apply (feed_update_spec y p k); [done|done|done|done|done|done|by rewrite Hd].
Qed.
End run.
