(* ===== verification/IocpSys.v ===== *)
(** * Every step of the poller on completion ports keeps the invariant *)
From Stdlib Require Import ZArith Lia.
From stdpp Require Import base numbers gmap list.
From S2P Require Import Prelude PollFds PollFdsSpec Iocp IocpInv IocpRun.

#[export] Instance settled_dec s : Decision (settled s).
Proof. unfold settled. destruct (ss_status s); apply _. Defined.

Section sys.
Context {K : Type} `{!NtKernel K}.
Implicit Types y : Iocp K.

(** ** Changes without a packet *)

(** The notifier stands for a packet that does not change. *)
Lemma inv_held e y y' :
  Inv e y -> ip_packets y' = ip_packets y -> ip_next y' = ip_next y -> ip_sources y' = ip_sources y ->
  ip_waitables y' = ip_waitables y -> ip_threads y' = ip_threads y -> ip_pending y' = ip_pending y ->
  ip_inflight y' = ip_inflight y -> ip_waits y' = ip_waits y -> (ip_failed y' = false -> ip_failed y = false) ->
  ip_polling y' = polls (ip_waiter_at y') ->
  (forall q, q ∈ ip_port y' ++ waiter_packets (ip_waiter_at y') -> q ∈ held y \/ is_Some (kind_at y q)) ->
  (ip_failed y' = false -> forall q, kind_at y q = Some KSocket -> occ y' q = occ y q) -> Inv e y'.
Proof.
  intros Hi H1 H2 H3 H4 H5 H6 H7 H8 H9 H10 H11 H12. destruct (kind_lookup y _ _ (iv_notifier _ _ Hi)) as (k & Hk & Hkk).
  destruct (ip_failed y') eqn:Hf'.
  - (* nothing is claimed of sockets *)
    set (y0 := set_failed y). assert (Hi0 : Inv e y0) by (by apply (inv_same e y)).
    split; try (by destruct Hi0).
    all: rewrite ?H1, ?H2, ?H3, ?H4, ?H5, ?H6, ?H7, ?H8; try (by destruct Hi).
    + unfold kind_at. rewrite H1. apply (iv_notifier _ _ Hi).
    + intros h p Hp. unfold kind_at. rewrite H1. by apply (iv_waitables _ _ Hi h).
    + eapply Forall_impl; [apply (iv_pending _ _ Hi)|]. intros q. unfold updatable, kind_at. by rewrite H1.
    + eapply Forall_impl; [apply (iv_inflight _ _ Hi)|]. intros q. unfold kind_at. by rewrite H1.
    + apply Forall_forall. intros q Hq. assert (Hs : is_Some (kind_at y q)) by (destruct (H11 q Hq); [by apply (held_some e)|done]).
      unfold kind_at in *. by rewrite H1.
    + eapply Forall_impl; [apply (iv_waits _ _ Hi)|]. intros q. unfold kind_at. by rewrite H1.
    + intros t x Hx. apply (phase_ok_frame y); [intros q c; unfold kind_at; by rewrite H1|intros so q _; by rewrite H3|by apply (iv_threads _ _ Hi t)].
    + congruence.
  - apply (inv_change e e y y' NOTIFIER k k Hi). split; try done.
    + by rewrite H1, insert_id.
    + exact (iv_ok _ _ Hi _ k Hk).
    + intros s s' so Hd. by rewrite Hd in Hkk.
    + rewrite H6. auto.
    + rewrite H7. auto.
    + rewrite H8. auto.
    + rewrite H6. apply (iv_length _ _ Hi).
    + auto.
    + intros q _ Hq. by apply H12.
    + rewrite H7. auto.
    + intros q _. by apply queued_quiet.
    + intros s s' Hd. by rewrite Hd in Hkk.
Qed.

(** The thread in [wait_deadline] moves on, and keeps its entries. *)
Lemma inv_waiter e y w b : Inv e y -> waiter_packets w = waiter_packets (ip_waiter_at y) -> b = polls w ->
  Inv e (set_waiter_at w (set_polling b y)).
Proof.
  intros Hi Hw ->. apply (inv_held e y); try done; cbn.
  - rewrite Hw. intros q Hq. left. unfold held. rewrite elem_of_app. auto.
  - intros _ q _. unfold occ, held. cbn. by rewrite Hw.
Qed.

Lemma inv_post e y p c : Inv e y -> kind_at y p = Some c -> c <> KSocket -> Inv e (set_port (ip_port y ++ [p]) y).
Proof.
  intros Hi Hk Hc. apply (inv_held e y); try done; cbn.
  - apply (iv_polling _ _ Hi).
  - intros q. rewrite !elem_of_app, list_elem_of_singleton. intros [[Hq| ->]|Hq]; [left|right; eauto|left]; unfold held; set_solver.
  - intros _ q Hq. unfold occ, held. cbn. rewrite !count_occ_app. cbn. destruct (Nat.eq_dec p q); [congruence|lia].
Qed.

Lemma inv_take e y n nt z : Inv e y -> ip_waiter_at y = IwBlocked nt ->
  Inv e (set_waiter_at (IwFeed nt 0 z (take n (ip_port y))) (set_polling false (set_port (drop n (ip_port y)) y))).
Proof.
  intros Hi Hw. pose proof (take_drop n (ip_port y)) as Htd. apply (inv_held e y); try done; cbn.
  - intros q Hq. left. unfold held. rewrite <- Htd. set_solver.
  - intros _ q _. unfold occ, held. cbn. rewrite Hw. cbn. rewrite <- Htd at 3. rewrite !count_occ_app. cbn. lia.
Qed.

Lemma inv_log e y l : Inv e y -> Inv e (set_log l y).
Proof. intros Hi. by apply (inv_same e y). Qed.

(** A step keeps the invariant, and delivers no event of a socket that was
    deleted before. *)
Definition stepped y y' : Prop :=
  Inv [] y' /\ (forall q, doomed y q -> doomed y' q) /\
  exists l, ip_log y' = ip_log y ++ l /\ Forall (fun x => ~ doomed y x.1) l.
Lemma stepped_tame y y' : Inv [] y' -> tame y y' -> stepped y y'.
Proof. intros Hi [Hl Hd]. split_and!; [done|done|]. exists []. by rewrite app_nil_r. Qed.

(** ** Threads *)

Lemma inv_thread e y t x :
  Inv e y -> phase_ok y x ->
  (forall q, ip_threads y !! t = Some (IpUpdate q) \/ ip_threads y !! t = Some (IpPush q) ->
    x = IpUpdate q \/ x = IpPush q \/ q ∈ ip_pending y \/ done_at y q) ->
  (forall q, q ∈ e -> x = IpUpdate q \/ x = IpPush q) -> Inv [] (set_thread t x y).
Proof.
  intros Hi Hx Ht He. split; try (by destruct Hi).
  - intros t' x' Hx'. cbn in Hx'. destruct (decide (t' = t)) as [->|]; simplify_map_eq; [done|]. by apply (iv_threads _ _ Hi t').
  - intros Hf q k s Hk Hd. destruct (iv_sockets _ _ Hi Hf q k s Hk Hd) as [H1 H2 H3 H4]. split; try done.
    assert (Hnew : x = IpUpdate q \/ x = IpPush q -> queued (set_thread t x y) q).
    { intros [-> | ->]; right; exists t; cbn; simplify_map_eq; auto. }
    intros Hw _ Hnq. destruct (decide (settled s)) as [|Hns]; [done|]. exfalso.
    assert (Hq : q ∉ e) by (intros Hq; by apply Hnq, Hnew, He).
    assert (Hqd : ~ ~ queued y q) by (intros Hqd; by apply Hns, H4). apply Hqd. intros [Hp|(t' & Ht')]; [apply Hnq; by left|].
    destruct (decide (t' = t)) as [->|Hne]; [|apply Hnq; right; exists t'; cbn; by simplify_map_eq].
    destruct (Ht q Ht') as [Hu|[Hu|[Hp|Hd']]]; [apply Hnq, Hnew; auto|apply Hnq, Hnew; auto|apply Hnq; by left|].
    by apply Hns, (Hd' Hf k s).
Qed.

Lemma updatable_calm y y' p : updatable y p -> calm y y' -> updatable y' p.
Proof. intros Hu Hc. by apply (calm_updatable y). Qed.

Lemma wait_callback_spec y p : Inv [] y -> kind_at y p = Some KWaitable -> runs (wait_callback p) y (fun _ y' =>
  Inv [] y' /\ ip_threads y' = ip_threads y /\ tame y y').
Proof.
  intros Hi Hp. destruct (kind_lookup y p _ Hp) as (k & Hk & Hkk). pose proof (iv_ok _ _ Hi p k Hk) as [Ho1 _].
  apply runs_bind. eapply runs_eq; [by apply deref_done|]. destruct (pk_data k) as [|w| |] eqn:Hd; try done.
  apply runs_bind, runs_modify, runs_bind. eapply runs_eq; [by apply (put_done _ p _ k)|]. apply runs_modify.
  set (k1 := set_pk_data _ k). split_and!; [|done|split; [done|]; intros q; apply (doomed_insert y _ p k k1 q Hk); [done|by rewrite Hd]].
  assert (Hi1 : Inv [] (set_packets (<[p := k1]> (ip_packets y)) (set_waits (filter (fun q => q <> p) (ip_waits y)) y))).
  { apply (inv_other [] [] _ _ p k k1 (inv_drop_wait [] y p Hi)); try done; [by rewrite Hd|by rewrite Hd|auto]. }
  apply (inv_post [] _ p KWaitable Hi1); [|done]. unfold kind_at. cbn. by rewrite lookup_insert_eq.
Qed.

Lemma phase_step_spec y t x : Inv [] y -> ip_threads y !! t = Some x -> runs (thread_goes t (phase_step x)) y (fun _ y' => stepped y y').
Proof.
  intros Hi Ht. pose proof (iv_threads _ _ Hi t x Ht) as Hx.
  assert (Hw : forall p, Inv [p] y) by (intros p; by apply (inv_weaken []); [set_solver|]).
  assert (Hend : forall y' x', Inv [] (set_thread t x' y') -> tame y y' -> stepped y (set_thread t x' y')).
  { intros y' x' Hi' Ht'. apply stepped_tame; [done|]. by apply (tame_trans _ y'), tame_same. }
  unfold thread_goes. apply runs_bind. destruct x as [p ev mode|p|p|p|p|r]; cbn [phase_step phase_ok] in *.
  - destruct Hx as [Hu Hev]. apply runs_bind. eapply runs_conseq; [by apply (pk_set_events_spec y p ev mode)|].
    intros b y' [Hi' Hq]. apply runs_ret, runs_modify. pose proof (updatable_calm _ _ _ Hu (quiet_calm _ _ Hq)) as Hu'.
    destruct b; (apply Hend; [|by apply quiet_tame]; eapply inv_thread; [exact Hi'|done| |set_solver]); rewrite (qt_threads _ _ Hq), Ht; intros q [?|?]; congruence.
  - apply runs_bind. eapply runs_conseq; [by apply (update_check_spec [])|]. intros [r|] y' [Hq Hr]; apply runs_ret, runs_modify.
    + destruct Hr as (_ & Hi' & Hd & _). apply Hend; [|by apply quiet_tame]. eapply inv_thread; [exact Hi'|done| |set_solver].
      rewrite (qt_threads _ _ Hq), Ht. intros q [[= <-]|?]; [auto|congruence].
    + destruct Hr as [_ ->]. apply Hend; [|by apply tame_same]. eapply inv_thread; [exact Hi|done| |set_solver]. rewrite Ht. intros q [[= <-]|?]; [auto|congruence].
  - apply runs_bind. eapply runs_conseq; [by apply (update_push_spec [])|]. intros r y' [Hc Hr]. apply runs_ret, runs_modify.
    pose proof (updatable_calm _ _ _ Hx Hc) as Hu'. destruct r as [[[]|x]|]; destruct Hr as [Hi' Hr].
    all: apply Hend; [|by apply calm_tame]; eapply inv_thread; [exact Hi'|done| |set_solver]; rewrite (cm_threads _ _ Hc), Ht; intros q [?|[= <-]]; [congruence|].
    + auto.
    + right; right; right. intros Hf. congruence.
    + auto.
  - destruct Hx as [Hu Hs]. apply runs_bind. eapply runs_conseq; [by apply begin_delete_spec|]. intros r y' [Hi' Hq]. apply runs_ret, runs_modify.
    apply Hend; [|by apply quiet_tame]. eapply inv_thread; [exact Hi'|done| |set_solver]. rewrite (qt_threads _ _ Hq), Ht. intros q [?|?]; congruence.
  - apply runs_bind. eapply runs_conseq; [by apply wait_callback_spec|]. intros [] y' (Hi' & Hq & Htm). apply runs_ret, runs_modify.
    apply Hend; [|done]. eapply inv_thread; [exact Hi'|done| |set_solver]. rewrite Hq, Ht. intros q [?|?]; congruence.
  - apply runs_ret, runs_modify. apply Hend; [|by apply tame_same]. eapply inv_thread; [exact Hi|done| |set_solver]. rewrite Ht. intros q [?|?]; congruence.
Qed.

(** ** [wait_deadline] *)

Lemma drop_entries_spec l e y : Inv e y -> ip_failed y = true -> runs (drop_entries l) y (fun _ y' =>
  Inv e y' /\ ip_failed y' = true /\ ip_waiter_at y' = ip_waiter_at y /\ tame y y').
Proof.
  revert y. induction l as [|p l IH]; intros y Hi Hf; [apply runs_ret; split_and!; try done; by apply tame_same|]. cbn. apply runs_bind.
  destruct (ip_packets y !! p) as [k|] eqn:Hk.
  - eapply runs_eq; [by apply (put_done y p _ k)|]. eapply runs_conseq; [apply IH; [|done]|].
    2: { intros [] y' (H1 & H2 & H3 & H4). split_and!; try done. eapply tame_trans; [|exact H4]. split; [done|].
         intros q. apply (doomed_insert y _ p k (set_pk_in_use false k) q Hk); [done|]. cbn. eauto. }
    apply (inv_change e e y _ p k (set_pk_in_use false k) Hi). apply change_put; try done; [exact (iv_ok _ _ Hi p k Hk)| |intros; congruence].
    cbn. intros s s' so H1 H2. rewrite H1 in H2. by injection H2 as <-.
  - assert (Hid : alter (set_pk_in_use false) p (ip_packets y) = ip_packets y).
    { apply map_eq. intros q. destruct (decide (q = p)) as [->|]; by simplify_map_eq. }
    apply runs_modify. eapply runs_conseq; [apply IH; [|done]|].
    + by apply (inv_same e y).
    + intros [] y' (H1 & H2 & H3 & H4). split_and!; try done. eapply tame_trans; [|exact H4]. by apply tame_same.
Qed.

Lemma waiter_idle_spec y w w' b : Inv [] y -> waiter_packets w = waiter_packets (ip_waiter_at y) -> b = polls w -> ip_polling y = b ->
  w' = w -> Inv [] (set_waiter_at w' y).
Proof.
  intros Hi Hw -> Hb ->. pose proof (inv_waiter [] y w _ Hi Hw eq_refl) as H. rewrite <- Hb in H. by destruct y.
Qed.

Lemma wait_feed_go {A} y y' p w (r : FeedEventResult + ip_err) (k : FeedEventResult + ip_err -> M (Iocp K) A) Q :
  (into_packet p;; modifyS (set_waiter_at w);; feed_event p) y = Done (r, y') -> runs (k r) y' Q ->
  runs (into_packet p;; modifyS (set_waiter_at w);; feed_event p ≫= k) y Q.
Proof.
  intros He (a & y2 & H1 & H2). exists a, y2. split; [|done]. revert He. unfold mbind, M_bind, into_packet, pk_put, modifyS. cbn.
  destruct (feed_event p _) as [[r0 y0]|]; [|done]. by intros [= -> ->].
Qed.

Lemma wait_feed_spec y nt ne z l : Inv [] y -> ip_waiter_at y = IwFeed nt ne z l ->
  runs (waiter_goes (wait_feed nt ne z l)) y (fun _ y' => stepped y y').
Proof.
  intros Hi Hw. pose proof (iv_polling _ _ Hi) as Hpo. rewrite Hw in Hpo. unfold waiter_goes. apply runs_bind. destruct l as [|p l].
  - apply runs_ret, runs_modify. apply stepped_tame; [|by apply tame_same].
    eapply (waiter_idle_spec y); [done| | |exact Hpo|reflexivity]; rewrite ?Hw; by destruct (_ || _).
  - destruct (feed_event_spec y p nt ne z l Hi Hw) as (r & y' & He & Hi' & Hw' & _ & Htm & Hf).
    pose proof (iv_polling _ _ Hi') as Hpo'. rewrite Hw' in Hpo'.
    assert (Hset : forall w, waiter_packets w = l -> polls w = false -> stepped y (set_waiter_at w y')).
    { intros w Hl Hpw. apply stepped_tame; [|by apply (tame_trans _ y'), tame_same].
      eapply (waiter_idle_spec y'); [done| | |exact Hpo'|reflexivity]; rewrite ?Hw'; done. }
    unfold wait_feed. apply (wait_feed_go y y' p _ r); [done|]. destruct r as [[|ev|]|x]; [by apply runs_ret, runs_modify, Hset| |by apply runs_ret, runs_modify, Hset|].
    + apply runs_bind, runs_modify, runs_ret, runs_modify. destruct (Hset (IwFeed nt (S ne) z l) eq_refl eq_refl) as (H1 & H2 & _).
      split_and!; [by apply (inv_same [] _ _ H1)|intros q Hq; by apply (doomed_same (set_waiter_at (IwFeed nt (S ne) z l) y')), H2|].
      exists [(p, ev)]. cbn. destruct Htm as [-> _]. split; [done|]. apply Forall_singleton. intros (k & s & Hk & Hd & Hwt).
      destruct (Hf k s Hk Hd) as [Hr _]. unfold feed_result in Hr. cbn in Hwt. by rewrite Hwt in Hr.
    + apply runs_bind. eapply runs_conseq; [by apply (drop_entries_spec l [] y' Hi')|]. intros [] y2 (H1 & H2 & H3 & H4).
      apply runs_ret, runs_modify. apply stepped_tame; [|by apply (tame_trans _ y'); [|apply (tame_trans _ y2); [|apply tame_same]]].
      apply (inv_held [] y2); try done; cbn.
      * rewrite (iv_polling _ _ H1), H3, Hw'. done.
      * intros q Hq. left. unfold held. set_solver.
      * congruence.
Qed.

(** ** [afd_handle] *)

Lemma afd_search_done count fuel i l : (length l - i <= fuel)%nat -> exists o l', afd_search count fuel i l = Done (o, l').
Proof.
  revert i l. induction fuel as [|fuel IH]; intros i l Hf; cbn [afd_search].
  - destruct (l !! i) eqn:E; [apply lookup_lt_Some in E; lia|]. eauto.
  - destruct (l !! i) as [afd|] eqn:E; [|eauto]. apply lookup_lt_Some in E. destruct (count afd =? 0)%nat.
    + destruct (swap_remove_spec i l E) as (x & l' & _ & -> & Hl & _). cbn. apply IH. lia.
    + destruct (AFD_MAX_SIZE <=? count afd)%nat; [apply IH; lia|eauto].
Qed.

(** Nothing but devices changes. *)
Lemma afd_handle_spec e y : Inv e y -> runs afd_handle y (fun _ y' =>
  Inv e y' /\ quiet y y' /\ (ip_next y <= ip_next y')%nat /\ ip_packets y' = ip_packets y).
Proof.
  intros Hi. unfold afd_handle. apply runs_bind, runs_get, runs_bind.
  destruct (afd_search_done (strong_count y) (length (ip_afd y)) 0 (ip_afd y)) as (o & l & Hs); [lia|].
  eapply runs_lift; [exact Hs|]. apply runs_bind, runs_modify. cbn [fst snd].
  assert (Hr : forall y', ip_packets y' = ip_packets y -> (ip_next y <= ip_next y')%nat -> ip_sources y' = ip_sources y ->
    ip_waitables y' = ip_waitables y -> ip_pending y' = ip_pending y -> ip_inflight y' = ip_inflight y -> ip_port y' = ip_port y ->
    ip_waits y' = ip_waits y -> ip_threads y' = ip_threads y -> ip_waiter_at y' = ip_waiter_at y -> ip_polling y' = ip_polling y ->
    ip_log y' = ip_log y -> ip_failed y' = ip_failed y -> Inv e y' /\ quiet y y' /\ (ip_next y <= ip_next y')%nat /\ ip_packets y' = ip_packets y).
  { intros. split_and!; [by apply (inv_same e y); try congruence|by apply quiet_same; try congruence|done|done]. }
  destruct o as [afd|]; [apply runs_ret; by apply Hr|]. unfold afd_create. apply runs_bind. unfold kcall at 1, runs at 1.
  destruct (nt_create_afd _) as [[code|] k']; (eexists _, _; split; [reflexivity|]).
  - apply runs_ret. by apply Hr.
  - apply runs_bind, runs_gets, runs_bind, runs_modify, runs_ret. apply Hr; try done. cbn. lia.
Qed.

(** ** New packets *)

Definition alloced (d : PacketInner) y : Iocp K := set_next (S (ip_next y)) (set_packets (<[ip_next y := packet_new d]> (ip_packets y)) y).

Lemma kind_alloced e d y q c : Inv e y -> kind_at y q = Some c -> kind_at (alloced d y) q = Some c.
Proof.
  intros Hi Hq. pose proof (kind_fresh e y Hi) as Hn. unfold kind_at in *. cbn.
  destruct (decide (q = ip_next y)) as [->|]; [congruence|]. by simplify_map_eq.
Qed.
Lemma held_kind e y q : Inv e y -> kind_at y q = None -> q ∉ held y.
Proof. intros Hi Hn Hq. apply (held_some e y q Hi) in Hq as [c Hc]. congruence. Qed.

Lemma inv_alloc e y d :
  Inv e y -> match d with PkSocket s => extra_ok (ss_interest s) /\ ss_status s = SkIdle | _ => True end ->
  Inv (ip_next y :: e) (alloced d y).
Proof.
  intros Hi Hd. pose proof (kind_fresh e y Hi) as Hn. pose proof (fun q c => kind_alloced e d y q c Hi) as HK.
  assert (Hfr : ip_packets y !! ip_next y = None) by (unfold kind_at in Hn; by apply fmap_None in Hn).
  assert (HU : forall q, updatable y q -> updatable (alloced d y) q) by (intros q [H|H]; apply HK in H; [by left|by right]).
  split; try (by destruct Hi).
  - cbn. apply map_Forall_insert_2; [|apply (iv_ok _ _ Hi)]. split; [done|]. cbn. destruct d; naive_solver.
  - cbn. intros p k Hp. destruct (decide (p = ip_next y)) as [->|]; [lia|]. simplify_map_eq. pose proof (iv_next _ _ Hi p k Hp). lia.
  - by apply HK, (iv_notifier _ _ Hi).
  - intros so p Hp. cbn in Hp. destruct (iv_sources _ _ Hi so p Hp) as (k & s & Hk & Hrest). exists k, s. split; [|done].
    cbn. rewrite lookup_insert_ne; [done|congruence].
  - intros h p Hp. by apply HK, (iv_waitables _ _ Hi h).
  - eapply Forall_impl; [apply (iv_pending _ _ Hi)|]. auto.
  - eapply Forall_impl; [apply (iv_inflight _ _ Hi)|]. auto.
  - eapply Forall_impl; [apply (iv_port _ _ Hi)|]. intros q [c Hc]. eauto.
  - eapply Forall_impl; [apply (iv_waits _ _ Hi)|]. auto.
  - intros t x Hx. apply (phase_ok_frame y); [done|done|by apply (iv_threads _ _ Hi t)].
  - intros Hf p k s Hp Hs. cbn in Hp. destruct (decide (p = ip_next y)) as [->|].
    + rewrite lookup_insert_eq in Hp. injection Hp as <-. cbn in Hs. subst d. destruct Hd as [_ Hd].
      pose proof (held_kind e y _ Hi Hn) as Hh. split; cbn.
      * apply count_occ_not_In. by rewrite <- list_elem_of_In.
      * by rewrite Hd.
      * by rewrite Hd.
      * set_solver.
    + rewrite lookup_insert_ne in Hp by done. apply (packet_inv_except e); [set_solver|].
      by apply (packet_inv_frame e y), (iv_sockets _ _ Hi Hf).
Qed.

Lemma inv_sources e y m :
  Inv e y -> (forall so p, m !! so = Some p -> exists k s,
    ip_packets y !! p = Some k /\ pk_data k = PkSocket s /\ ss_socket s = so /\ ss_waiting_on_delete s = false) ->
  (forall t p so, ip_threads y !! t = Some (IpDelete p) -> m !! so <> Some p) -> Inv e (set_sources m y).
Proof.
  intros Hi Hm Ht. split; try (by destruct Hi).
  - intros t x Hx. cbn in Hx. pose proof (iv_threads _ _ Hi t x Hx) as Hp. destruct x; try done. cbn. split; [apply Hp|]. intros so. by apply (Ht t).
  - intros Hf p k s Hk Hd. by apply (packet_inv_frame e y), (iv_sockets _ _ Hi Hf).
Qed.
Lemma inv_waitables e y m : Inv e y -> (forall h p, m !! h = Some p -> kind_at y p = Some KWaitable) -> Inv e (set_waitables m y).
Proof.
  intros Hi Hm. split; try (by destruct Hi). intros Hf p k s Hk Hd. by apply (packet_inv_frame e y), (iv_sockets _ _ Hi Hf).
Qed.

(** ** Calls *)

Definition call_ok (c : ip_call) : Prop :=
  match c with
  | CallAdd _ ev _ | CallModify _ ev _ | CallAddWaitable _ ev _ | CallModifyWaitable _ ev _ | CallPost ev => extra_ok ev
  | _ => True
  end.
Definition call_post y (x : ip_phase) y' : Prop := exists e,
  Inv e y' /\ phase_ok y' x /\ ip_threads y' = ip_threads y /\ tame y y' /\ forall q, q ∈ e -> x = IpUpdate q.

Lemma call_ret y y' r : Inv [] y' -> ip_threads y' = ip_threads y -> tame y y' -> call_post y (IpRet r) y'.
Proof. intros Hi Ht Htm. exists []. split_and!; [done|done|done|done|set_solver]. Qed.
Lemma tame_refl y : tame y y.
Proof. by apply tame_same. Qed.
Lemma tame_alloc e y d : Inv e y -> tame y (alloced d y).
Proof.
  intros Hi. split; [done|]. intros q (k & s & Hk & Hd & Hw). exists k, s. split; [|done]. cbn.
  pose proof (iv_next _ _ Hi q k Hk). rewrite lookup_insert_ne by lia. done.
Qed.
Lemma call_set y p ev mode : Inv [] y -> updatable y p -> extra_ok ev -> call_post y (IpSet p ev mode) y.
Proof. intros Hi Hu He. exists []. split_and!; [done|done|done|apply tame_refl|set_solver]. Qed.
Lemma source_updatable e y so p : Inv e y -> ip_sources y !! so = Some p -> updatable y p.
Proof. intros Hi Hp. destruct (iv_sources _ _ Hi so p Hp) as (k & s & Hk & Hd & _). left. unfold kind_at. rewrite Hk. cbn. by rewrite Hd. Qed.

Lemma iocp_add_spec y so ev mode : Inv [] y -> extra_ok ev -> runs (iocp_add so ev mode) y (call_post y).
Proof.
  intros Hi Hev. unfold iocp_add. destruct (is_edge mode); [by apply runs_ret, call_ret, tame_refl|]. apply runs_bind. unfold kcall at 1, runs at 1.
  destruct (nt_base_socket so (ip_kernel y)) as [[base|x] k']; (eexists _, _; split; [reflexivity|]); cbv beta iota zeta.
  2: { apply runs_ret, call_ret; [by apply (inv_same [] y)|done|by apply tame_same]. }
  set (y1 := set_kernel k' y). assert (Hi1 : Inv [] y1) by (by apply (inv_same [] y)).
  apply runs_bind. eapply runs_conseq; [by apply (afd_handle_spec [])|]. intros r y2 (Hi2 & Hq & Hn & Hp).
  assert (Ht : ip_threads y2 = ip_threads y) by (by rewrite (qt_threads _ _ Hq)).
  assert (Htm : tame y y2) by (apply (tame_trans _ y1); [by apply tame_same|by apply quiet_tame]). destruct r as [afd|x]; [|by apply runs_ret, call_ret].
  apply runs_bind, runs_gets. destruct (ip_sources y2 !! so) as [p|] eqn:Hso; [by apply runs_ret, call_ret|].
  set (s := mkSocketState so base ev true mode afd false SkIdle). apply runs_bind.
  eapply runs_eq; [unfold alloc; fold (alloced (PkSocket s) y2); reflexivity|]. apply runs_bind, runs_modify, runs_ret.
  set (p := ip_next y2). pose proof (inv_alloc [] y2 (PkSocket s) Hi2 (conj Hev eq_refl)) as Hi3.
  assert (Hkp : ip_packets (alloced (PkSocket s) y2) !! p = Some (packet_new (PkSocket s))) by (apply lookup_insert_eq).
  assert (Hfr : kind_at y2 p = None) by (by apply (kind_fresh [])).
  exists [p]. split_and!; [|left; unfold kind_at; cbn; unfold p; by rewrite lookup_insert_eq|done| |set_solver].
  2: { apply (tame_trans _ y2 _ Htm), (tame_trans _ (alloced (PkSocket s) y2)); [by apply (tame_alloc [])|by apply tame_same]. }
  apply (inv_sources [p] _ _ Hi3).
  - intros so' q Hq'. destruct (decide (so' = so)) as [->|]; simplify_map_eq; [eauto 6|]. by apply (iv_sources _ _ Hi3).
  - intros t q so' Ht' Hq'. pose proof (iv_threads _ _ Hi2 t _ Ht') as [Hu Hno]. destruct (decide (so' = so)) as [->|]; simplify_map_eq; [|by apply (Hno so')].
    apply updatable_some in Hu as [c Hc]. congruence.
Qed.

Lemma iocp_delete_spec y so : Inv [] y -> runs (iocp_delete so) y (call_post y).
Proof.
  intros Hi. unfold iocp_delete. apply runs_bind, runs_gets. destruct (ip_sources y !! so) as [p|] eqn:Hso; [|by apply runs_ret, call_ret, tame_refl].
  apply runs_bind, runs_modify, runs_ret. destruct (iv_sources _ _ Hi so p Hso) as (k & s & Hk & Hd & Hs & Hw).
  exists []. split_and!; [|split|done|by apply tame_same|set_solver].
  - apply (inv_sources [] y _ Hi).
    + intros so' q. rewrite lookup_delete_Some. intros [_ Hq]. by apply (iv_sources _ _ Hi).
    + intros t q so' Ht Hq. rewrite lookup_delete_Some in Hq. pose proof (iv_threads _ _ Hi t _ Ht) as [_ Hno]. apply (Hno so'). by destruct Hq.
  - by apply (source_updatable [] y so).
  - intros so' Hq. cbn in Hq. rewrite lookup_delete_Some in Hq. destruct Hq as [Hne Hq].
    destruct (iv_sources _ _ Hi so' p Hq) as (k2 & s2 & Hk2 & Hd2 & Hs2 & _). congruence.
Qed.

Lemma add_waitable_spec y h ev mode : Inv [] y -> runs (add_waitable h ev mode) y (call_post y).
Proof.
  intros Hi. unfold add_waitable. destruct (is_edge mode); [by apply runs_ret, call_ret, tame_refl|]. apply runs_bind, runs_gets.
  destruct (ip_waitables y !! h) as [p|] eqn:Hh; [by apply runs_ret, call_ret, tame_refl|]. set (w := mkWaitableState h ev mode WtIdle).
  apply runs_bind. eapply runs_eq; [unfold alloc; fold (alloced (PkWaitable w) y); reflexivity|]. apply runs_bind, runs_modify, runs_ret.
  pose proof (inv_alloc [] y (PkWaitable w) Hi I) as Hi3.
  assert (Hkp : kind_at (alloced (PkWaitable w) y) (ip_next y) = Some KWaitable) by (unfold kind_at; cbn; by rewrite lookup_insert_eq).
  exists [ip_next y]. split_and!; [|by right|done|apply (tame_trans _ (alloced (PkWaitable w) y)); [by apply (tame_alloc [])|by apply tame_same]|set_solver].
  apply (inv_waitables _ _ _ Hi3).
  intros h' q Hq. destruct (decide (h' = h)) as [->|]; simplify_map_eq; [done|]. by apply (iv_waitables _ _ Hi3 h').
Qed.

Lemma run_call_spec y c : Inv [] y -> call_ok c -> runs (run_call c) y (call_post y).
Proof.
  intros Hi Hc. destruct c as [so ev mode|so ev mode|so|h ev mode|h ev mode|h| |ev]; cbn [run_call call_ok] in *.
  - by apply iocp_add_spec.
  - unfold iocp_modify. destruct (is_edge mode); [by apply runs_ret, call_ret, tame_refl|]. apply runs_bind, runs_gets, runs_ret.
    destruct (ip_sources y !! so) as [p|] eqn:Hso; [|by apply call_ret, tame_refl]. apply call_set; [done|by apply (source_updatable [] y so)|done].
  - by apply iocp_delete_spec.
  - by apply add_waitable_spec.
  - unfold modify_waitable. destruct (is_edge mode); [by apply runs_ret, call_ret, tame_refl|]. apply runs_bind, runs_gets, runs_ret.
    destruct (ip_waitables y !! h) as [p|] eqn:Hh; [|by apply call_ret, tame_refl]. apply call_set; [done|right; by apply (iv_waitables _ _ Hi h)|done].
  - unfold remove_waitable. apply runs_bind, runs_gets. destruct (ip_waitables y !! h) as [p|] eqn:Hh; [|by apply runs_ret, call_ret, tame_refl].
    apply runs_bind, runs_modify, runs_ret. pose proof (iv_waitables _ _ Hi h p Hh) as Hp. exists []. split_and!; [|split|done|by apply tame_same|set_solver].
    + apply (inv_waitables [] y _ Hi). intros h' q. rewrite lookup_delete_Some. intros [_ Hq]. by apply (iv_waitables _ _ Hi h').
    + by right.
    + intros so Hso. destruct (iv_sources _ _ Hi so p Hso) as (k & s & Hk & Hd & _). unfold kind_at in Hp. rewrite Hk in Hp. cbn in Hp. by rewrite Hd in Hp.
  - apply runs_bind, runs_modify, runs_ret, call_ret; [|done|by apply tame_same]. apply (inv_post [] y NOTIFIER KWakeup Hi); [apply (iv_notifier _ _ Hi)|done].
  - apply runs_bind. eapply runs_eq; [unfold alloc; fold (alloced (PkCustom ev) y); reflexivity|]. apply runs_bind, runs_modify, runs_ret, call_ret; [|done|apply (tame_trans _ (alloced (PkCustom ev) y)); [by apply (tame_alloc [])|by apply tame_same]].
    assert (Hkp : kind_at (alloced (PkCustom ev) y) (ip_next y) = Some KCustom) by (unfold kind_at; cbn; by rewrite lookup_insert_eq).
    apply (inv_post [] _ (ip_next y) KCustom); [|done|done]. eapply inv_done; [apply (inv_alloc [] y (PkCustom ev) Hi I)|].
    intros _ k s. cbn. rewrite lookup_insert_eq. by intros [= <-].
Qed.

(** ** The system *)

Lemma count_occ_filter_ne (p q : nat) l : count_occ Nat.eq_dec (filter (fun x => x <> p) l) q = if Nat.eq_dec p q then O else count_occ Nat.eq_dec l q.
Proof.
  induction l as [|x l IH]; [by destruct (Nat.eq_dec p q)|]. rewrite filter_cons. destruct (decide (x <> p)) as [Hx|Hx]; cbn; rewrite IH.
  - destruct (Nat.eq_dec x q), (Nat.eq_dec p q); congruence.
  - apply dec_stable in Hx. subst. destruct (Nat.eq_dec p q); congruence.
Qed.

Definition poll_returned (p : nat) (k' : Packet) y : Iocp K :=
  let y1 := set_packets (<[p := k']> (ip_packets y)) y in
  let y2 := set_inflight (filter (fun q => q <> p) (ip_inflight y)) y1 in set_port (ip_port y ++ [p]) y2.

Lemma inv_completed y p k s k' :
  Inv [] y -> p ∈ ip_inflight y -> ip_packets y !! p = Some k -> pk_data k = PkSocket s ->
  pk_data k' = pk_data k -> pk_in_use k' = pk_in_use k -> packet_ok k' -> Inv [] (poll_returned p k' y).
Proof.
  intros Hi Hp Hk Hd Hd' Hu Ho.
  assert (Hoc : forall q, occ (poll_returned p k' y) q =
    if Nat.eq_dec p q then S (count_occ Nat.eq_dec (ip_port y ++ waiter_packets (ip_waiter_at y)) q) else occ y q).
  { intros q. unfold occ, held, poll_returned. cbn. rewrite !count_occ_app, count_occ_filter_ne. cbn. destruct (Nat.eq_dec p q); lia. }
  apply (inv_change [] [] y _ p k k' Hi). split; cbn; try done; auto.
  - by rewrite Hd'.
  - intros s0 s' so H1 H2. rewrite Hd' in H2. rewrite H1 in H2. by injection H2 as <-.
  - intros q. rewrite list_elem_of_filter. tauto.
  - intros q. rewrite !elem_of_app, list_elem_of_singleton. unfold held. rewrite !elem_of_app. intros [[Hq| ->]|Hq]; auto.
  - apply (iv_polling _ _ Hi).
  - apply (iv_length _ _ Hi).
  - intros q Hq _. specialize (Hoc q). destruct (Nat.eq_dec p q); [congruence|done].
  - intros q _. rewrite list_elem_of_filter. tauto.
  - intros s0 s' H1 H2 Hf [P1 P2 P3 P4]. rewrite Hd' in H2. rewrite H1 in H2. injection H2 as <-.
    specialize (Hoc p). destruct (Nat.eq_dec p p) as [_|]; [|done].
    assert (Hone : (1 <= count_occ Nat.eq_dec (ip_inflight y) p)%nat) by (apply count_occ_In; by apply list_elem_of_In).
    unfold occ at 1, held in P1. rewrite count_occ_app in P1. split; rewrite ?Hu; try done.
    + etransitivity; [exact Hoc|]. destruct (pk_in_use k); cbn in *; lia.
    + intros f _. cbn. rewrite list_elem_of_filter. tauto.
Qed.

Lemma complete_spec y p status count events :
  Inv [] y -> complete_ok p status events y = true -> runs (iocp_step (IpComplete p status count events)) y (fun _ y' => stepped y y').
Proof.
  intros Hi Hc. unfold iocp_step. apply runs_bind, runs_get. rewrite Hc. unfold complete_ok in Hc.
  apply andb_true_iff in Hc as [[Hp%bool_decide_eq_true _]%andb_true_iff Hc].
  destruct (ip_packets y !! p) as [k|] eqn:Hk; [|done]. apply Z.eqb_eq in Hc.
  pose proof (iv_inflight _ _ Hi) as HF. rewrite Forall_forall in HF. specialize (HF p Hp). unfold kind_at in HF. rewrite Hk in HF. cbn in HF.
  destruct (pk_data k) as [s| | |] eqn:Hd; try done. pose proof (iv_ok _ _ Hi p k Hk) as [Ho1 Ho2].
  apply runs_bind. eapply runs_eq; [by apply (put_done y p _ k)|]. apply runs_bind, runs_modify, runs_modify.
  apply stepped_tame; [|split; [done|]; intros q; apply (doomed_insert y _ p k (set_pk_info status count events k) q Hk); [done|by eauto]].
  apply (inv_completed y p k s (set_pk_info status count events k) Hi Hp Hk Hd); [done|done|].
  split; cbn; [by apply (ldiff_land_0 _ (pk_events k))|done].
Qed.

Definition op_ok (op : ip_op) : Prop := match op with IpCall _ c => call_ok c | _ => True end.

Lemma thread_free_phase t y x q : thread_free t y = true -> ip_threads y !! t = Some x -> x <> IpUpdate q /\ x <> IpPush q.
Proof. unfold thread_free. intros Hf Hx. rewrite Hx in Hf. by destruct x. Qed.

Lemma iocp_step_spec op y : Inv [] y -> op_ok op -> runs (iocp_step op) y (fun _ y' => stepped y y').
Proof.
  intros Hi Ho. assert (Hsame : forall y', Inv [] y' -> ip_packets y' = ip_packets y -> ip_log y' = ip_log y -> stepped y y').
  { intros y' Hi' Hp Hl. by apply stepped_tame, tame_same. }
  destruct op as [t c|t| |z n|p status count events|t p].
  - unfold iocp_step. apply runs_bind, runs_get. destruct (thread_free t y) eqn:Hf; [|by apply runs_ret, Hsame]. unfold thread_goes. apply runs_bind.
    eapply runs_conseq; [by apply run_call_spec|]. intros x y' (e & Hi' & Hx & Ht & Htm & He). apply runs_modify.
    apply stepped_tame; [|by apply (tame_trans _ y'), tame_same].
    apply (inv_thread e); [done|done| |naive_solver]. rewrite Ht. intros q Hq. destruct (ip_threads y !! t) as [x0|] eqn:Ex; [|by destruct Hq].
    destruct (thread_free_phase t y x0 q Hf Ex). destruct Hq; congruence.
  - unfold iocp_step. apply runs_bind, runs_get. destruct (ip_threads y !! t) as [x|] eqn:Ht; [|by apply runs_ret, Hsame]. by apply phase_step_spec.
  - unfold iocp_step. apply runs_bind, runs_get. pose proof (iv_polling _ _ Hi) as Hpo. destruct (ip_waiter_at y) as [|nt|nt|nt|nt ne z l] eqn:Hw.
    + apply runs_modify, Hsame; try done. eapply (waiter_idle_spec y); [done| | |exact Hpo|done]; by rewrite ?Hw.
    + apply runs_bind, runs_bind, runs_modify, runs_ret, runs_modify, Hsame; try done. apply inv_waiter; [done|by rewrite Hw|done].
    + unfold waiter_goes, wait_drain. apply runs_bind, runs_bind. eapply runs_conseq; [by apply (drain_update_queue_spec false [])|].
      intros [[]|x] y' (H1 & H2 & H3 & H4); pose proof (cm_waiter _ _ H2) as Hw'; rewrite Hw in Hw'.
      * apply runs_ret, runs_modify, stepped_tame; [|by apply (tame_trans _ y'); [apply calm_tame|apply tame_same]].
        eapply (waiter_idle_spec y'); [done| | |rewrite (cm_polling _ _ H2); exact Hpo|done]; by rewrite ?Hw'.
      * apply runs_bind, runs_modify, runs_ret, runs_modify, stepped_tame; [|by apply (tame_trans _ y'); [apply calm_tame|apply tame_same]].
        apply inv_waiter; [done|by rewrite Hw'|done].
    + by apply runs_ret, Hsame.
    + by apply wait_feed_spec.
  - unfold iocp_step. apply runs_bind, runs_get. destruct (ip_waiter_at y) as [|nt|nt|nt|nt ne z' l] eqn:Hw; try by apply runs_ret, Hsame.
    unfold waiter_goes, wait_take. apply runs_bind, runs_bind, runs_gets, runs_bind, runs_modify, runs_bind, runs_modify, runs_ret, runs_modify, Hsame; try done.
    by apply (inv_take [] y n nt z).
  - destruct (complete_ok p status events y) eqn:Hc; [by apply complete_spec|].
    unfold iocp_step. apply runs_bind, runs_get. rewrite Hc. by apply runs_ret, Hsame.
  - unfold iocp_step. apply runs_bind, runs_get. destruct (thread_free t y) eqn:Hf; [|by apply runs_ret, Hsame]. cbn [andb].
    case_bool_decide as Hp; [|by apply runs_ret, Hsame]. apply runs_bind, runs_modify, runs_modify, Hsame; try done.
    pose proof (iv_waits _ _ Hi) as HF. rewrite Forall_forall in HF.
    apply (inv_thread []); [by apply inv_drop_wait|by apply HF| |set_solver].
    cbn. intros q Hq. destruct (ip_threads y !! t) as [x0|] eqn:Ex; [|by destruct Hq]. destruct (thread_free_phase t y x0 q Hf Ex). destruct Hq; congruence.
Qed.

Lemma inv_new (k : K) : Inv [] (iocp_new k).
Proof.
  split; try done; cbn [iocp_new ip_packets ip_next ip_pending length].
  - by apply map_Forall_singleton.
  - intros p k0. rewrite lookup_singleton_Some. intros [<- _]. unfold NOTIFIER. lia.
  - unfold pending_capacity. lia.
  - intros _ p k0 s. rewrite lookup_singleton_Some. by intros [_ <-].
Qed.

Lemma iocp_exec_spec ops y : Inv [] y -> Forall op_ok ops -> runs (iocp_exec ops) y (fun _ y' => stepped y y').
Proof.
  revert y. induction ops as [|op ops IH]; intros y Hi Ho; [by apply runs_ret, stepped_tame, tame_refl|]. apply Forall_cons_1 in Ho as [Ho Hos].
  apply runs_bind. eapply runs_conseq; [by apply iocp_step_spec|]. intros [] y1 (Hi1 & Hd1 & l1 & Hl1 & Hf1).
  eapply runs_conseq; [by apply IH|]. intros [] y2 (Hi2 & Hd2 & l2 & Hl2 & Hf2). split_and!; [done|auto|].
  exists (l1 ++ l2). split; [by rewrite Hl2, Hl1, app_assoc|]. apply Forall_app. split; [done|].
  eapply Forall_impl; [exact Hf2|]. cbn. auto.
Qed.
End sys.
