(* ===== verification/IocpProps.v ===== *)
(** * Properties of the poller on completion ports *)
From Stdlib Require Import ZArith Lia.
From stdpp Require Import base numbers gmap list.
From S2P Require Import Prelude PollFds Iocp IocpInv IocpRun IocpSys.

Section props.
Context {K : Type} `{!NtKernel K}.
Implicit Types y : Iocp K.

(** What the poller does about a registered socket: the system polls for its
    interest; or its packet comes back; or it waits for an update. *)
Definition source_alive y (p : nat) (k : Packet) (s : SocketState) : Prop :=
  (p ∈ ip_inflight y /\ pk_events k = ss_mask s) \/
  (p ∈ held y /\ (p ∈ ip_inflight y -> ss_status s = SkCancelled)) \/
  queued y p.

(** C3. In any interleaving of calls, of the thread that waits and of the
    system the poller on completion ports neither panics nor deadlocks, and,
    unless the system refused a request, it forgets no source: the system
    polls each registered socket for exactly its current interest, or the
    packet of the socket is on its way back, or an update of it is queued. *)
Theorem iocp_no_source_forgotten (k : K) ops : Forall op_ok ops ->
  exists y, iocp_exec ops (iocp_new k) = Done (tt, y) /\
    (ip_failed y = false -> forall socket p, ip_sources y !! socket = Some p -> exists pk s,
      ip_packets y !! p = Some pk /\ pk_data pk = PkSocket s /\ ss_socket s = socket /\ source_alive y p pk s).
Proof.
  intros Ho. destruct (iocp_exec_spec ops (iocp_new k) (inv_new k) Ho) as ([] & y & He & Hi & _). exists y. split; [done|].
  intros Hf socket p Hp. destruct (iv_sources _ _ Hi socket p Hp) as (pk & s & Hk & Hd & Hs & Hw). exists pk, s. split_and!; try done.
  destruct (iv_sockets _ _ Hi Hf p pk s Hk Hd) as [H1 H2 H3 H4]. unfold source_alive.
  destruct (decide (settled s)) as [Hset|Hset].
  - assert (Hu : pk_in_use pk = true) by (unfold settled in Hset; destruct (pk_in_use pk); [done|]; by rewrite (proj2 H2 eq_refl) in Hset).
    assert (Hh : p ∈ held y) by (apply list_elem_of_In, (count_occ_In Nat.eq_dec); unfold occ in H1; rewrite H1, Hu; cbn; lia).
    destruct (decide (p ∈ ip_inflight y)) as [Hin|Hin]; [|right; left; done].
    unfold settled in Hset. destruct (ss_status s) as [|f|] eqn:Hst; [done| |right; left; done].
    left. split; [done|]. by rewrite <- Hset, (H3 f).
  - right; right. destruct (decide (queued y p)) as [|Hq]; [done|]. destruct Hset. apply H4; [done|set_solver|done].
Qed.

(** C20. A deleted socket is silent: once [delete] has marked the packet of a
    socket, no event of it is delivered any more, although its completion may
    be in the queue of the port, and nothing that happens later undoes that. *)
Theorem iocp_deleted_socket_silent (k : K) ops1 ops2 y p :
  Forall op_ok ops1 -> Forall op_ok ops2 -> iocp_exec ops1 (iocp_new k) = Done (tt, y) -> doomed y p ->
  exists y', iocp_exec ops2 y = Done (tt, y') /\ doomed y' p /\
    filter (fun x => x.1 = p) (ip_log y') = filter (fun x => x.1 = p) (ip_log y).
Proof.
  intros H1 H2 He Hd. destruct (iocp_exec_spec ops1 (iocp_new k) (inv_new k) H1) as ([] & y1 & He1 & Hi & _).
  rewrite He in He1. injection He1 as <-. destruct (iocp_exec_spec ops2 y Hi H2) as ([] & y' & He' & _ & Hd' & l & Hl & Hn).
  exists y'. split_and!; [done|auto|]. rewrite Hl, filter_app. rewrite <- (app_nil_r (filter _ (ip_log y))) at 2. f_equal.
  clear Hl. induction Hn as [|[q ev] l Hq _ IH]; [done|]. rewrite filter_cons_False; [done|]. cbn in *. congruence.
Qed.

(** What a completion reports: an error of the poll is reported for reading
    and for writing. *)
Definition reports (k : Packet) (mask : Z) : bool :=
  negb (pk_iosb k =? STATUS_CANCELLED) &&
  ((pk_iosb k <? 0) || (1 <=? pk_handle_count k) && intersects (pk_events k) (Z.lor mask AFD_ERRORS)).

(** The flags of [Afd] that the event of a completion carries. *)
Definition reported (k : Packet) : Z :=
  if (pk_iosb k =? STATUS_CANCELLED) || (pk_iosb k <? 0) || (pk_handle_count k <? 1) then 0 else pk_events k.

Lemma afd_intersects_lor a b c : intersects a (Z.lor b c) = intersects a b || intersects a c.
Proof.
  unfold intersects. rewrite Z.land_lor_distr_r. destruct (Z.eqb_spec (Z.land a b) 0) as [->|Hb]; [done|]. cbn.
  destruct (Z.eqb_spec (Z.lor (Z.land a b) (Z.land a c)) 0) as [E|]; [|done]. by apply Z.lor_eq_0_iff in E as [??].
Qed.

Lemma poll_event_reports k s e : poll_event k s = Some e ->
  ev_key e = ev_key (ss_interest s) /\ ev_readable e = reports k AFD_READABLE /\ ev_writable e = reports k AFD_SEND /\
  ev_extra e = reported k.
Proof.
  unfold poll_event, reports, reported. destruct (pk_iosb k =? STATUS_CANCELLED); [by intros [= <-]|]. destruct (pk_iosb k <? 0); [by intros [= <-]|].
  rewrite Z.ltb_antisym. destruct (1 <=? pk_handle_count k); [|by intros [= <-]]. destruct (intersects _ AFD_LOCAL_CLOSE); [done|]. cbn [negb andb orb].
  rewrite !afd_intersects_lor. unfold afd_mask_to_event. destruct (intersects (pk_events k) AFD_ERRORS); intros [= <-]; cbn; by rewrite ?orb_true_r, ?orb_false_r.
Qed.

(** The event of a completion, of what was reported and asked for. *)
Lemma feed_result_spec k s : packet_ok k -> ss_waiting_on_delete s = false ->
  let r := ev_readable (ss_interest s) && reports k AFD_READABLE in
  let w := ev_writable (ss_interest s) && reports k AFD_SEND in
  let x := intersects (reported k) (ev_extra (ss_interest s)) in
  (r || w || x = true -> exists ev, feed_result k s = FeedEvent ev /\ ev = mkEvent (ev_key (ss_interest s)) r w (reported k)) /\
  (r || w || x = false -> feed_result k s = NoEvent).
Proof.
  intros Ho Hw r w x. destruct (poll_event_some k s Ho) as [e He]. destruct (poll_event_reports k s e He) as (Hk & Hr & Hwr & Hx).
  unfold feed_result. rewrite Hw, He. cbv zeta. unfold event_wanted, filter_event. cbn. rewrite Hk, Hr, Hwr, Hx.
  rewrite (andb_comm (reports k AFD_READABLE)), (andb_comm (reports k AFD_SEND)). fold r w x. split; intros ->; [|done]. by eexists.
Qed.

(** C21. Feeding a completion of a socket delivers an event exactly when the
    completion reports a direction or a flag that the user asked for, and the
    event has the key of the socket, only the directions asked for, and the
    flags that were reported; for a socket that was deleted nothing is
    delivered.  The packet is queued for the next poll.  All this as long as
    the system has refused no poll, cancellation or wait ([ip_failed]); the
    interests are ones that the methods of [Event] can make, which never ask
    for the flag of a local close. *)
Theorem iocp_delivers_what_was_asked (k : K) ops y p pk s nt ne z l :
  Forall op_ok ops -> iocp_exec ops (iocp_new k) = Done (tt, y) -> ip_waiter_at y = IwFeed nt ne z (p :: l) ->
  ip_packets y !! p = Some pk -> pk_data pk = PkSocket s ->
  exists y', iocp_step IpWait y = Done (tt, y') /\
    (ip_failed y' = false -> if ss_waiting_on_delete s then ip_log y' = ip_log y else
      let r := ev_readable (ss_interest s) && reports pk AFD_READABLE in
      let w := ev_writable (ss_interest s) && reports pk AFD_SEND in
      let x := intersects (reported pk) (ev_extra (ss_interest s)) in
      p ∈ ip_pending y' /\
      (r || w || x = true -> ip_log y' = ip_log y ++ [(p, mkEvent (ev_key (ss_interest s)) r w (reported pk))]) /\
      (r || w || x = false -> ip_log y' = ip_log y)).
Proof.
  intros Ho He Hw Hk Hd. destruct (iocp_exec_spec ops (iocp_new k) (inv_new k) Ho) as ([] & y1 & He1 & Hi & _).
  rewrite He in He1. injection He1 as <-. destruct (feed_event_spec y p nt ne z l Hi Hw) as (r & y' & Hr & Hi' & Hw' & _ & [Hlog _] & Hf).
  assert (Hgo : runs (iocp_step IpWait) y (fun _ y2 => ip_failed y2 = false -> ip_failed y' = false /\ exists R, r = inl R /\ ip_pending y2 = ip_pending y' /\
    ip_log y2 = ip_log y ++ match R with FeedEvent ev => [(p, ev)] | _ => [] end)).
  { unfold iocp_step. apply runs_bind, runs_get. rewrite Hw. unfold waiter_goes. apply runs_bind. unfold wait_feed. apply (wait_feed_go y y' p _ r); [done|].
    destruct r as [[|ev|]|x].
    - apply runs_ret, runs_modify. intros Hff. split; [done|]. exists NoEvent. by rewrite app_nil_r.
    - apply runs_bind, runs_modify, runs_ret, runs_modify. intros Hff. split; [done|]. exists (FeedEvent ev). cbn. by rewrite Hlog.
    - apply runs_ret, runs_modify. intros Hff. split; [done|]. exists Notified. by rewrite app_nil_r.
    - apply runs_bind. eapply runs_conseq; [by apply (drop_entries_spec l [] y' Hi')|]. intros [] y2 (_ & H2 & _). apply runs_ret, runs_modify. cbn. congruence. }
  destruct Hgo as ([] & y2 & Hs & H2). exists y2. split; [done|]. intros Hff. destruct (H2 Hff) as (_ & R & -> & Hp & Hl).
  destruct (Hf pk s Hk Hd) as [-> Hq]. pose proof (iv_ok _ _ Hi p pk Hk) as Hok. destruct (ss_waiting_on_delete s) eqn:Hwt.
  - unfold feed_result in Hl. rewrite Hwt in Hl. by rewrite app_nil_r in Hl.
  - destruct (feed_result_spec pk s Hok Hwt) as [H3 H4]. split_and!; [rewrite Hp; by apply Hq| |].
    + intros Hrw. destruct (H3 Hrw) as (ev & Hev & ->). by rewrite Hl, Hev.
    + intros Hrw. rewrite Hl, (H4 Hrw). apply app_nil_r.
Qed.
End props.

(** C38. A timeout is never shorter than the time that is asked for: a duration
    becomes the number of milliseconds that covers it, or [INFINITE] when that
    does not fit. *)
Theorem dur2timeout_covers secs nanos : 0 <= secs < 2 ^ 64 -> 0 <= nanos < 10 ^ 9 ->
  let d := secs * 10 ^ 9 + nanos in let t := dur2timeout secs nanos in
  0 <= t <= INFINITE /\ (t = INFINITE \/ d <= t * 10 ^ 6 < d + 10 ^ 6) /\ (d <= (INFINITE - 1) * 10 ^ 6 -> t <> INFINITE).
Proof.
  intros Hs Hn. cbv zeta. unfold dur2timeout, opt_u64, INFINITE, u32_max, u64_modulus, u32_modulus.
  pose proof (Z.div_mod nanos 1000000 ltac:(lia)) as Hdm. pose proof (Z.mod_pos_bound nanos 1000000 ltac:(lia)) as Hm.
  set (q := nanos / 1000000) in *. set (r := nanos mod 1000000) in *.
  destruct (Z.ltb_spec (secs * 1000) (2 ^ 64)); cbn [mbind option_bind]; [|lia].
  destruct (Z.ltb_spec (secs * 1000 + q) (2 ^ 64)); cbn [mbind option_bind]; [|lia].
  destruct (Z.ltb_spec 0 r); cbn [mbind option_bind].
  - destruct (Z.ltb_spec (secs * 1000 + q + 1) (2 ^ 64)); cbn [mbind option_bind]; [|lia].
    destruct (Z.ltb_spec (secs * 1000 + q + 1) (2 ^ 32)); lia.
  - destruct (Z.ltb_spec (secs * 1000 + q) (2 ^ 32)); lia.
Qed.

(** ** Runs

    A system that answers requests for polls from a list, and accepts
    everything else. *)
#[export] Instance listed_kernel : NtKernel (list nt_answer) := {|
  nt_poll _ _ _ ks := match ks with [] => (NtPending, []) | a :: ks => (a, ks) end;
  nt_cancel _ ks := (None, ks);
  nt_register_wait _ ks := (None, ks);
  nt_create_afd ks := (None, ks);
  nt_base_socket so ks := (inl so, ks);
|}.
Definition ipx_state (k : list nt_answer) (ops : list ip_op) : Iocp (list nt_answer) :=
  match iocp_exec ops (iocp_new k) with Done (_, y) => y | Fault _ => iocp_new k end.
Definition ipx_read : Event := event_new 5 true false.

(** The waiting thread goes to its next wait; a socket is added, and found
    readable. *)
Definition ipx_block : list ip_op := [IpWait; IpWait; IpWait].
Definition ipx_add : list ip_op := [IpCall 0 (CallAdd 7 ipx_read Level); IpThread 0; IpThread 0].
Definition ipx_ready : list ip_op := ipx_add ++ ipx_block ++ [IpComplete 2 0 1 AFD_RECEIVE; IpTake false 5].

Lemma iocp_no_source_forgotten_witness : exists y,
  iocp_exec (ipx_ready ++ [IpWait]) (iocp_new []) = Done (tt, y) /\ ip_failed y = false /\ ip_log y = [(2%nat, mkEvent 5 true false AFD_RECEIVE)] /\
  exists pk s, ip_packets y !! 2%nat = Some pk /\ pk_data pk = PkSocket s /\ source_alive y 2 pk s.
Proof.
  assert (Ho : Forall op_ok (ipx_ready ++ [IpWait])) by (repeat constructor).
  destruct (iocp_no_source_forgotten (@nil nt_answer) (ipx_ready ++ [IpWait]) Ho) as (y & He & H).
  assert (Hy : y = ipx_state [] (ipx_ready ++ [IpWait])) by (unfold ipx_state; by rewrite He).
  exists y. split; [done|]. subst y. split; [vm_compute; reflexivity|]. split; [vm_compute; reflexivity|].
  destruct (H ltac:(vm_compute; reflexivity) 7 2%nat ltac:(vm_compute; reflexivity)) as (pk & s & H1 & H2 & _ & H3). by exists pk, s.
Defined.

(** The socket is deleted when its completion is in the queue. *)
Lemma iocp_deleted_socket_silent_witness :
  let del := ipx_add ++ ipx_block ++ [IpComplete 2 0 1 AFD_RECEIVE; IpCall 0 (CallDelete 7); IpThread 0] in
  doomed (ipx_state [] del) 2 /\ ip_port (ipx_state [] del) = [2%nat] /\
  exists y', iocp_exec [IpTake false 5; IpWait; IpWait] (ipx_state [] del) = Done (tt, y') /\ doomed y' 2 /\
    filter (fun x => x.1 = 2%nat) (ip_log y') = [].
Proof.
  cbv zeta. set (del := ipx_add ++ _). assert (Hd : doomed (ipx_state [] del) 2) by (eexists _, _; split_and!; vm_compute; reflexivity).
  split; [done|]. split; [vm_compute; reflexivity|].
  destruct (iocp_deleted_socket_silent [] del [IpTake false 5; IpWait; IpWait] (ipx_state [] del) 2) as (y' & H1 & H2 & H3);
    [repeat constructor|repeat constructor|vm_compute; reflexivity|done|].
  exists y'. split_and!; [done|done|]. rewrite H3. vm_compute. reflexivity.
Defined.

Lemma iocp_delivers_what_was_asked_witness : exists y',
  iocp_step IpWait (ipx_state [] ipx_ready) = Done (tt, y') /\ (ip_failed y' = false ->
  ip_log y' = [(2%nat, mkEvent 5 true false AFD_RECEIVE)]).
Proof.
  destruct (ip_packets (ipx_state [] ipx_ready) !! 2%nat) as [pk|] eqn:Hk; [|by vm_compute in Hk].
  destruct (pk_data pk) as [s| | |] eqn:Hd; [|by vm_compute in Hk; injection Hk as <-..].
  destruct (iocp_delivers_what_was_asked [] ipx_ready (ipx_state [] ipx_ready) 2 pk s false 0 false []) as (y' & H1 & H2);
    [repeat constructor|vm_compute; reflexivity|vm_compute; reflexivity|done|done|].
  exists y'. split; [done|]. intros Hf. specialize (H2 Hf). vm_compute in Hk. injection Hk as <-. injection Hd as <-. vm_compute in H2.
  destruct H2 as (_ & H2 & _). exact (H2 eq_refl).
Defined.

Lemma dur2timeout_covers_witness : dur2timeout 1 500 = 1001 /\ (0 <= dur2timeout 1 500 <= INFINITE).
Proof. split; [reflexivity|]. apply (dur2timeout_covers 1 500); lia. Defined.

(** [update_packet] looks at [polling] and then queues the update: when
    the waiting thread drains the queue and blocks in between, [add] returns,
    but nothing polls the socket, and nothing can wake the thread that waits
    for it. *)
Theorem iocp_update_race : exists y,
  iocp_exec ([IpCall 0 (CallAdd 7 ipx_read Level); IpThread 0] ++ ipx_block ++ [IpThread 0]) (iocp_new []) = Done (tt, y) /\
  ip_threads y !! 0%nat = Some (IpRet (inl tt)) /\ ip_sources y !! 7 = Some 2%nat /\ ip_waiter_at y = IwBlocked false /\
  ip_pending y = [2%nat] /\ ip_inflight y = [] /\ ip_port y = [] /\ ip_waits y = [].
Proof. eexists. split; [vm_compute; reflexivity|]. split_and!; reflexivity. Qed.

(** A poll that the system refuses leaves its packet locked: [add] fails,
    and a later [modify] finds the packet in use, takes that for a poll in
    flight and returns without an error, although the socket is not polled. *)
Theorem iocp_refused_poll_masked : exists y y',
  iocp_exec (ipx_block ++ [IpCall 0 (CallAdd 7 ipx_read Level); IpThread 0]) (iocp_new [NtFail 1450]) = Done (tt, y) /\
  ip_threads y !! 0%nat = Some (IpRet (inr (IpOs 1450))) /\
  iocp_exec [IpCall 0 (CallModify 7 ipx_read Level); IpThread 0; IpThread 0] y = Done (tt, y') /\
  ip_threads y' !! 0%nat = Some (IpRet (inl tt)) /\ ip_waiter_at y' = IwBlocked false /\
  ip_sources y' !! 7 = Some 2%nat /\ ip_inflight y' = [] /\ ip_pending y' = [].
Proof. eexists _, _. split; [vm_compute; reflexivity|]. split; [reflexivity|]. split; [vm_compute; reflexivity|]. split_and!; reflexivity. Qed.

(** A handle that was removed comes back when the callback of its wait
    had begun: its event is delivered, and the system is asked to wait for the
    handle again. *)
Theorem iocp_removed_waitable_returns : exists y,
  iocp_exec ([IpCall 0 (CallAddWaitable 9 ipx_read Level); IpThread 0; IpThread 0] ++ ipx_block ++
    [IpFire 1 1; IpCall 0 (CallRemoveWaitable 9); IpThread 0; IpThread 1; IpTake false 5; IpWait; IpWait] ++ ipx_block) (iocp_new []) = Done (tt, y) /\
  ip_waitables y = ∅ /\ ip_threads y !! 0%nat = Some (IpRet (inl tt)) /\ ip_log y = [(1%nat, ipx_read)] /\ ip_waits y = [1%nat].
Proof. eexists. split; [vm_compute; reflexivity|]. split_and!; reflexivity. Qed.

(** A local close that [Afd] reports for a registered socket is never
    handled: [feed_event] holds the lock of the socket when it calls
    [begin_delete], which takes it again. *)
Theorem iocp_local_close_deadlocks {K} `{!NtKernel K} (y : Iocp K) p k s :
  ip_packets y !! p = Some k -> pk_data k = PkSocket s -> ss_waiting_on_delete s = false -> ip_sources y !! ss_socket s = Some p ->
  0 <= pk_iosb k -> 1 <= pk_handle_count k -> intersects (pk_events k) AFD_LOCAL_CLOSE = true -> feed_event p y = Fault Diverges.
Proof.
  intros Hk Hd Hw Hs Hi Hc He. unfold feed_event, mbind, M_bind. rewrite (deref_done y p k Hk), Hd. unfold feed_socket, mbind, M_bind.
  rewrite (put_done y p _ k Hk). cbn [ss_waiting_on_delete set_ss_status]. rewrite Hw. unfold poll_event.
  destruct (Z.eqb_spec (pk_iosb k) STATUS_CANCELLED) as [E|_]; [unfold STATUS_CANCELLED in E; lia|].
  rewrite (proj2 (Z.ltb_ge _ _) Hi), (proj2 (Z.leb_le _ _) Hc), He. unfold feed_closed, mbind, M_bind, getsS. cbn. rewrite Hs. by rewrite Nat.eqb_refl.
Qed.

Lemma iocp_local_close_deadlocks_witness :
  let k := mkPacket false 0 1 AFD_LOCAL_CLOSE (PkSocket (mkSocketState 7 7 ipx_read true Level 1 false (SkPolling 0))) in
  feed_event 2 (set_sources {[ 7 := 2%nat ]} (set_packets {[ 2%nat := k ]} (iocp_new []))) = Fault Diverges.
Proof. cbv zeta. eapply iocp_local_close_deadlocks; try reflexivity; cbn; lia. Defined.
