(* ===== verification/Server.v ===== *)
(** * The server

    The way of a connection from a listener to a worker: [Accept] of
    server/net/accept.rs with its commands, [Server::process] of
    server/server.rs, and the task [handle_cmd] of server/manager.rs with
    [HandleCmdState] and [ServerManager].

    The threads and tasks run in any order, in steps between which others may
    run: a step of the accept loop takes one connection from a listener or one
    from its backlog, or works off one command; a step of the manager takes a
    command, offers a connection to one worker, or notifies the accept loop.
    What a listener answers, whether the poller takes a registration, the
    clock, and the life of the workers are up to the environment. *)
From Stdlib Require Import ZArith Lia.
From stdpp Require Import base numbers gmap list.
From S2P Require Import Prelude.

Definition Conn := nat.

(** What [Listener::accept] answers, and what becomes of a registration with
    the poller. *)
Inductive acc_res := AccConn (c : Conn) | AccNone | AccWouldBlock | AccConnError | AccError.
Inductive reg_res := RegOk | RegWouldBlock | RegError.

Inductive AcceptorCommand := AcStop | AcTerminate | AcPause | AcResume | AcTimer.

(** [sk_armed]: the poller reports the listener when it is readable.
    [sk_incoming] are the answers of the listener; it would block when they
    are used up. *)
Record ServerSocketInfo := mkSocketInfo {
  sk_registered : bool;
  sk_timeout : option Z;
  sk_armed : bool;
  sk_incoming : list acc_res;
}.
Definition set_registered (b : bool) (i : ServerSocketInfo) := mkSocketInfo b (sk_timeout i) (sk_armed i) (sk_incoming i).
Definition set_timeout (t : option Z) (i : ServerSocketInfo) := mkSocketInfo (sk_registered i) t (sk_armed i) (sk_incoming i).
Definition set_armed (b : bool) (i : ServerSocketInfo) := mkSocketInfo (sk_registered i) (sk_timeout i) b (sk_incoming i).
Definition set_incoming (l : list acc_res) (i : ServerSocketInfo) := mkSocketInfo (sk_registered i) (sk_timeout i) (sk_armed i) l.

Inductive ServerStatus := StReady | StNotReady.

(** [AtTop]: at the listener [idx] of the loop of [poll]; [AtFlush]: in
    [backpressure(false)], at the backlog; [AtExit]: the thread has ended,
    because it was told to or because it panicked. *)
Inductive accept_at := AtStart | AtTop (idx : nat) | AtFlush | AtCmd | AtWait | AtExit (panicked : bool).

(** [ac_regs] are answers of the poller, which takes changes when they are
    used up; [ac_woken] tells whether [Poller::wait] returns; [ac_status] is
    what the status handler was told last; [ac_timers] are the tasks that will
    send [Timer]. *)
Record Accept := mkAccept {
  ac_sockets : list ServerSocketInfo;
  ac_backpressure : bool;
  ac_backlog : list Conn;
  ac_rx : list AcceptorCommand;
  ac_at : accept_at;
  ac_woken : bool;
  ac_regs : list reg_res;
  ac_timers : list Z;
  ac_status : option ServerStatus;
}.

(** A worker by its name, by which workers compare, and its channel. *)
Record Worker := mkWorker { wk_name : Z; wk_chan : nat }.
Record WorkerChan := mkChan { ch_open : bool; ch_items : list Conn }.

Inductive Signal := SigHup | SigInt | SigTerm | SigQuit | SigPanic.
Inductive Update := Available (w : Worker) | Unavailable (w : Worker).
Inductive ServerCommand :=
  | CmdItem (c : Conn)
  | CmdPause
  | CmdResume
  | CmdSignal (s : Signal)
  | CmdStop
  | CmdWorker (u : Update).

(** [MgrItem]: in the loop of [process]; [MgrBacklog]: in the loop over the
    backlog of [update_workers]; [MgrAwait] and [MgrTold]: in [stop], until
    the accept loop has ended and while the workers stop. *)
Inductive manager_at := MgrRun | MgrItem (c : Conn) | MgrBacklog | MgrAwait | MgrTold | MgrDone.

(** [mg_out] are the commands that are still to be sent to the accept loop,
    [mg_told] the workers that were told to stop. *)
Record Manager := mkManager {
  mg_next : nat;
  mg_backlog : list Conn;
  mg_workers : list Worker;
  mg_stopping : bool;
  mg_at : manager_at;
  mg_out : list AcceptorCommand;
  mg_told : list Worker;
}.

(** [sv_accepted], [sv_handled] and [sv_lost] collect the connections that
    listeners gave, that workers took, and that were dropped. *)
Record Server := mkServer {
  sv_accept : Accept;
  sv_paused : bool;
  sv_cmd : list ServerCommand;
  sv_manager : Manager;
  sv_chans : gmap nat WorkerChan;
  sv_accepted : list Conn;
  sv_handled : list Conn;
  sv_lost : list Conn;
}.

Definition set_sockets x (a : Accept) := mkAccept x (ac_backpressure a) (ac_backlog a) (ac_rx a) (ac_at a) (ac_woken a) (ac_regs a) (ac_timers a) (ac_status a).
Definition set_backpressure x (a : Accept) := mkAccept (ac_sockets a) x (ac_backlog a) (ac_rx a) (ac_at a) (ac_woken a) (ac_regs a) (ac_timers a) (ac_status a).
Definition set_backlog x (a : Accept) := mkAccept (ac_sockets a) (ac_backpressure a) x (ac_rx a) (ac_at a) (ac_woken a) (ac_regs a) (ac_timers a) (ac_status a).
Definition set_rx x (a : Accept) := mkAccept (ac_sockets a) (ac_backpressure a) (ac_backlog a) x (ac_at a) (ac_woken a) (ac_regs a) (ac_timers a) (ac_status a).
Definition set_at x (a : Accept) := mkAccept (ac_sockets a) (ac_backpressure a) (ac_backlog a) (ac_rx a) x (ac_woken a) (ac_regs a) (ac_timers a) (ac_status a).
Definition set_woken x (a : Accept) := mkAccept (ac_sockets a) (ac_backpressure a) (ac_backlog a) (ac_rx a) (ac_at a) x (ac_regs a) (ac_timers a) (ac_status a).
Definition set_regs x (a : Accept) := mkAccept (ac_sockets a) (ac_backpressure a) (ac_backlog a) (ac_rx a) (ac_at a) (ac_woken a) x (ac_timers a) (ac_status a).
Definition set_timers x (a : Accept) := mkAccept (ac_sockets a) (ac_backpressure a) (ac_backlog a) (ac_rx a) (ac_at a) (ac_woken a) (ac_regs a) x (ac_status a).
Definition set_status x (a : Accept) := mkAccept (ac_sockets a) (ac_backpressure a) (ac_backlog a) (ac_rx a) (ac_at a) (ac_woken a) (ac_regs a) (ac_timers a) x.
Definition set_mnext x (m : Manager) := mkManager x (mg_backlog m) (mg_workers m) (mg_stopping m) (mg_at m) (mg_out m) (mg_told m).
Definition set_mbacklog x (m : Manager) := mkManager (mg_next m) x (mg_workers m) (mg_stopping m) (mg_at m) (mg_out m) (mg_told m).
Definition set_workers x (m : Manager) := mkManager (mg_next m) (mg_backlog m) x (mg_stopping m) (mg_at m) (mg_out m) (mg_told m).
Definition set_stopping x (m : Manager) := mkManager (mg_next m) (mg_backlog m) (mg_workers m) x (mg_at m) (mg_out m) (mg_told m).
Definition set_mat x (m : Manager) := mkManager (mg_next m) (mg_backlog m) (mg_workers m) (mg_stopping m) x (mg_out m) (mg_told m).
Definition set_out x (m : Manager) := mkManager (mg_next m) (mg_backlog m) (mg_workers m) (mg_stopping m) (mg_at m) x (mg_told m).
Definition set_told x (m : Manager) := mkManager (mg_next m) (mg_backlog m) (mg_workers m) (mg_stopping m) (mg_at m) (mg_out m) x.
Definition set_accept x (y : Server) := mkServer x (sv_paused y) (sv_cmd y) (sv_manager y) (sv_chans y) (sv_accepted y) (sv_handled y) (sv_lost y).
Definition set_paused x (y : Server) := mkServer (sv_accept y) x (sv_cmd y) (sv_manager y) (sv_chans y) (sv_accepted y) (sv_handled y) (sv_lost y).
Definition set_cmd x (y : Server) := mkServer (sv_accept y) (sv_paused y) x (sv_manager y) (sv_chans y) (sv_accepted y) (sv_handled y) (sv_lost y).
Definition set_manager x (y : Server) := mkServer (sv_accept y) (sv_paused y) (sv_cmd y) x (sv_chans y) (sv_accepted y) (sv_handled y) (sv_lost y).
Definition set_chans x (y : Server) := mkServer (sv_accept y) (sv_paused y) (sv_cmd y) (sv_manager y) x (sv_accepted y) (sv_handled y) (sv_lost y).
Definition set_accepted x (y : Server) := mkServer (sv_accept y) (sv_paused y) (sv_cmd y) (sv_manager y) (sv_chans y) x (sv_handled y) (sv_lost y).
Definition set_handled x (y : Server) := mkServer (sv_accept y) (sv_paused y) (sv_cmd y) (sv_manager y) (sv_chans y) (sv_accepted y) x (sv_lost y).
Definition set_lost x (y : Server) := mkServer (sv_accept y) (sv_paused y) (sv_cmd y) (sv_manager y) (sv_chans y) (sv_accepted y) (sv_handled y) x.
Definition upd_accept g (y : Server) := set_accept (g (sv_accept y)) y.
Definition upd_manager g (y : Server) := set_manager (g (sv_manager y)) y.
Definition upd_socket idx g (a : Accept) := set_sockets (alter g idx (ac_sockets a)) a.
Definition log_accepted l (y : Server) := set_accepted (sv_accepted y ++ l) y.
Definition log_handled l (y : Server) := set_handled (sv_handled y ++ l) y.
Definition log_lost l (y : Server) := set_lost (sv_lost y ++ l) y.

Abbreviation SV A := (M Server A) (only parsing).
Definition acc {A} (g : Accept -> A) : SV A := getsS (fun y => g (sv_accept y)).
Definition mgr {A} (g : Manager -> A) : SV A := getsS (fun y => g (sv_manager y)).
Definition on_accept (g : Accept -> Accept) : SV () := modifyS (upd_accept g).
Definition on_manager (g : Manager -> Manager) : SV () := modifyS (upd_manager g).

(** ** [Server::process]

    The channel of commands is closed when the manager is done; [true] when
    the connection was taken. *)
Definition cmd_send (cmd : ServerCommand) : SV bool :=
  at_ ← mgr mg_at;
  match at_ with
  | MgrDone => mret false
  | _ => modifyS (fun y => set_cmd (sv_cmd y ++ [cmd]) y);; mret true
  end.
Definition srv_process (item : Conn) : SV bool :=
  paused ← getsS sv_paused;
  if (paused : bool) then mret false else cmd_send (CmdItem item).

(** [AcceptNotify::send]; the receiver is gone when the accept loop has ended. *)
Definition accept_send (cmd : AcceptorCommand) : SV () :=
  on_accept (fun a => match ac_at a with AtExit _ => a | _ => set_woken true (set_rx (ac_rx a ++ [cmd]) a) end).

(** ** [Accept] *)

Definition ERR_TIMEOUT : Z := 500.
Definition ERR_SLEEP_TIMEOUT : Z := 525.

(** After an error the listener rests, and a command is sent later. *)
Definition rest_socket (idx : nat) (now : Z) : SV () :=
  on_accept (upd_socket idx (set_timeout (Some (now + ERR_TIMEOUT))));;
  on_accept (fun a => set_timers (ac_timers a ++ [now + ERR_SLEEP_TIMEOUT]) a).

(** The registration is repeated as long as it would block. *)
Fixpoint try_register (regs : list reg_res) : bool * list reg_res :=
  match regs with
  | [] => (true, [])
  | RegOk :: regs => (true, regs)
  | RegWouldBlock :: regs => try_register regs
  | RegError :: regs => (false, regs)
  end.
Definition add_source (idx : nat) (now : Z) : SV () :=
  regs ← acc ac_regs;
  let '(ok, regs) := try_register regs in
  on_accept (set_regs regs);;
  if (ok : bool) then on_accept (upd_socket idx (fun i => set_registered true (set_armed true i)))
  else rest_socket idx now.

(** A change that the poller refuses is logged only. *)
Definition remove_source (idx : nat) (registered : bool) : SV () :=
  if registered then
    regs ← acc ac_regs;
    on_accept (set_regs (tail regs));;
    match head regs with
    | None | Some RegOk => on_accept (upd_socket idx (set_armed false))
    | Some _ => mret tt
    end
  else mret tt.

Definition update_status (st : ServerStatus) : SV () := on_accept (set_status (Some st)).

(** For the listeners from [idx] on. *)
Fixpoint each_socket (f : nat -> ServerSocketInfo -> SV ()) (n idx : nat) : SV () :=
  match n with
  | O => mret tt
  | S n =>
      l ← acc ac_sockets;
      match l !! idx with Some i => f idx i | None => failS Panic end;;
      each_socket f n (S idx)
  end.
Definition sockets_do (f : nat -> ServerSocketInfo -> SV ()) : SV () :=
  l ← acc ac_sockets; each_socket f (length l) 0.

(** [backpressure(true)]; it does nothing but report when it is on. *)
Definition pause_socket (idx : nat) (i : ServerSocketInfo) : SV () :=
  on_accept (upd_socket idx (set_timeout None));;
  match sk_timeout i with None => remove_source idx (sk_registered i) | Some _ => mret tt end.
Definition backpressure_on : SV () :=
  update_status StNotReady;;
  bp ← acc ac_backpressure;
  if (bp : bool) then mret tt
  else on_accept (set_backpressure true);; sockets_do pause_socket.

(** [backpressure(false)], called when it is on: the backlog goes first, one
    connection at a time. *)
Definition resume_socket (now : Z) (idx : nat) (i : ServerSocketInfo) : SV () :=
  match sk_timeout i with None => add_source idx now | Some _ => mret tt end.
Definition flush_backlog (now : Z) : SV () :=
  q ← acc ac_backlog;
  match q with
  | [] => on_accept (set_backpressure false);; sockets_do (resume_socket now);; on_accept (set_at AtCmd)
  | msg :: q =>
      ok ← srv_process msg;
      if (ok : bool) then on_accept (set_backlog q) else on_accept (set_at AtCmd)
  end.

(** A round of the loop of [accept]: [None] when it starts over, else whether
    to register the listener again. *)
Definition accept (idx : nat) (i : ServerSocketInfo) (now : Z) : SV (option bool) :=
  on_accept (upd_socket idx (set_incoming (tail (sk_incoming i))));;
  match head (sk_incoming i) with
  | Some (AccConn c) =>
      modifyS (log_accepted [c]);;
      ok ← srv_process c;
      if (ok : bool) then mret None
      else on_accept (fun a => set_backlog (ac_backlog a ++ [c]) a);; backpressure_on;; mret (Some false)
  | Some AccNone | Some AccWouldBlock | None => mret (Some true)
  | Some AccConnError => mret None
  | Some AccError => rest_socket idx now;; mret (Some false)
  end.
(** The listener [idx] at the top of the loop of [poll]. *)
Definition accept_top (idx : nat) (now : Z) : SV () :=
  l ← acc ac_sockets;
  match l !! idx with
  | None => on_accept (set_at AtCmd)
  | Some i =>
      if sk_registered i then
        r ← accept idx i now;
        match r with
        | None => mret tt
        | Some readd => (if (readd : bool) then add_source idx now else mret tt);; on_accept (set_at (AtTop (S idx)))
        end
      else on_accept (set_at (AtTop (S idx)))
  end.

Definition timer_socket (now : Z) (idx : nat) (i : ServerSocketInfo) : SV () :=
  bp ← acc ac_backpressure;
  match sk_timeout i with
  | Some inst => if (inst <? now) && negb bp then on_accept (upd_socket idx (set_timeout None));; add_source idx now else mret tt
  | None => mret tt
  end.
Definition process_timer (now : Z) : SV () := sockets_do (timer_socket now).

(** The end of the thread drops the listeners, the backlog and the receiver of
    the commands. *)
Definition accept_exit (panicked : bool) : SV () :=
  q ← acc ac_backlog;
  modifyS (log_lost q);;
  on_accept (fun a => set_at (AtExit panicked) (set_rx [] (set_backlog [] (set_sockets [] a)))).

(** A command of [process_cmd]. *)
Definition process_cmd (cmd : AcceptorCommand) (now : Z) : SV () :=
  bp ← acc ac_backpressure;
  match cmd with
  | AcStop => (if (bp : bool) then mret tt else backpressure_on);; accept_exit false
  | AcTerminate => backpressure_on;; accept_exit false
  | AcPause => if (bp : bool) then mret tt else backpressure_on
  | AcResume => if (bp : bool) then update_status StReady;; on_accept (set_at AtFlush) else mret tt
  | AcTimer => process_timer now
  end.

(** What [Poller::wait] does: it returns when it was notified or has events, it
    is interrupted, or it fails, which the thread does not survive. *)
Inductive wait_res := WaitOk | WaitInterrupted | WaitFailed.
Definition accept_step (now : Z) (wait : wait_res) : SV () :=
  a ← acc id;
  match ac_at a with
  | AtStart => sockets_do (fun idx _ => add_source idx now);; on_accept (set_at (AtTop 0))
  | AtTop idx => accept_top idx now
  | AtFlush => flush_backlog now
  | AtCmd =>
      match ac_rx a with
      | [] => on_accept (set_at AtWait)
      | cmd :: rx => on_accept (set_rx rx);; process_cmd cmd now
      end
  | AtWait =>
      match wait with
      | WaitOk => if ac_woken a then on_accept (fun a => set_at (AtTop 0) (set_woken false a)) else mret tt
      | WaitInterrupted => on_accept (set_at (AtTop 0))
      | WaitFailed => accept_exit true
      end
  | AtExit _ => mret tt
  end.

(** ** [HandleCmdState]

    [Worker::send]: it fails when the worker has dropped its receiver. *)
Definition worker_send (w : Worker) (item : Conn) : SV bool :=
  m ← getsS sv_chans;
  match m !! wk_chan w with
  | Some (mkChan true items) => modifyS (set_chans (<[wk_chan w := mkChan true (items ++ [item])]> m));; mret true
  | _ => mret false
  end.

(** [ServerManager::pause] and [resume]: the flag is stored, then the accept
    loop is notified. *)
Definition mgr_pause : SV () := modifyS (set_paused true);; on_manager (fun m => set_out (mg_out m ++ [AcPause]) m).
Definition mgr_resume : SV () := modifyS (set_paused false);; on_manager (fun m => set_out (mg_out m ++ [AcResume]) m).

Definition remove_at {A} (i : nat) (l : list A) : list A := take i l ++ drop (S i) l.

(** A round of the loop of [process]. *)
Definition process (item : Conn) : SV () :=
  m ← mgr id;
  match mg_workers m with
  | [] =>
      (if mg_stopping m then modifyS (log_lost [item])
       else on_manager (set_mbacklog (mg_backlog m ++ [item]));; mgr_pause);;
      on_manager (set_mat MgrRun)
  | w0 :: _ =>
      let next := if (length (mg_workers m) <=? mg_next m)%nat then (length (mg_workers m) - 1)%nat else mg_next m in
      ok ← worker_send (default w0 (mg_workers m !! next)) item;
      if (ok : bool) then on_manager (fun m => set_mat MgrRun (set_mnext ((next + 1) mod length (mg_workers m))%nat m))
      else on_manager (fun m => set_workers (remove_at next (mg_workers m)) (set_mnext next m))
  end.

(** [sort] is stable, and [binary_search] halves the range that is left. *)
Fixpoint sort_insert (w : Worker) (l : list Worker) : list Worker :=
  match l with
  | [] => [w]
  | v :: l => if wk_name w <? wk_name v then w :: v :: l else v :: sort_insert w l
  end.
Definition sort (l : list Worker) : list Worker := fold_left (fun l w => sort_insert w l) l [].
Fixpoint search_base (fuel : nat) (name : Z) (l : list Worker) (base size : nat) : nat :=
  match fuel with
  | O => base
  | S fuel =>
      if (size <=? 1)%nat then base
      else
        let half := (size / 2)%nat in
        let mid := (base + half)%nat in
        let greater := match l !! mid with Some v => name <? wk_name v | None => true end in
        search_base fuel name l (if greater then base else mid) (size - half)
  end.
Definition binary_search (name : Z) (l : list Worker) : option nat :=
  let base := search_base (length l) name l 0 (length l) in
  match l !! base with Some v => if wk_name v =? name then Some base else None | None => None end.

Definition update_workers (u : Update) : SV () :=
  (match u with
   | Available w =>
       on_manager (fun m => set_workers (sort (mg_workers m ++ [w])) m);;
       l ← mgr mg_workers;
       if (length l =? 1)%nat then mgr_resume else mret tt
   | Unavailable w =>
       on_manager (fun m => match binary_search (wk_name w) (mg_workers m) with
                            | Some idx => set_workers (remove_at idx (mg_workers m)) m
                            | None => m
                            end);;
       l ← mgr mg_workers;
       match l with [] => mgr_pause | _ => mret tt end
   end);;
  m ← mgr id;
  match mg_backlog m, mg_workers m with
  | _ :: _, _ :: _ => on_manager (set_mat MgrBacklog)
  | _, _ => mret tt
  end.
(** A round of its loop over the backlog; the first worker takes it all. *)
Definition handle_backlog : SV () :=
  m ← mgr id;
  match mg_backlog m with
  | [] => on_manager (set_mat MgrRun)
  | item :: q =>
      match mg_workers m with
      | [] => failS Panic
      | w :: ws =>
          ok ← worker_send w item;
          if (ok : bool) then on_manager (set_mbacklog q)
          else
            on_manager (fun m => set_mat MgrRun (set_workers ws (set_mbacklog (q ++ [item]) m)));;
            match ws with [] => mgr_pause | _ => mret tt end
      end
  end.

(** [stop] until the accept loop is awaited, and what it does then. *)
Definition stop : SV () :=
  on_manager (fun m => set_mat MgrAwait (set_out (mg_out m ++ [AcStop]) (set_stopping true m))).
Definition stop_workers (l : list Worker) : SV () := on_manager (fun m => set_told (mg_told m ++ l) m).

Definition cmd_items (q : list ServerCommand) : list Conn := omap (fun c => match c with CmdItem i => Some i | _ => None end) q.
(** The end of [handle_cmd]: its state, the receiver and [DropHandle] are
    dropped. *)
Definition handle_cmd_end : SV () :=
  y ← getS;
  modifyS (log_lost (cmd_items (sv_cmd y) ++ mg_backlog (sv_manager y)));;
  modifyS (set_cmd []);;
  on_manager (fun m => set_mat MgrDone (set_mbacklog [] (set_workers [] (set_out (mg_out m ++ [AcTerminate]) (set_stopping true m))))).

Definition handle_cmd (cmd : ServerCommand) : SV () :=
  match cmd with
  | CmdItem item => on_manager (set_mat (MgrItem item))
  | CmdWorker u => update_workers u
  | CmdPause => mgr_pause
  | CmdResume => mgr_resume
  | CmdStop => stop
  | CmdSignal SigHup => mret tt
  | CmdSignal _ => stop
  end.

Definition manager_step : SV () :=
  y ← getS;
  let m := sv_manager y in
  match mg_out m with
  | c :: out => on_manager (set_out out);; accept_send c
  | [] =>
      match mg_at m with
      | MgrRun =>
          match sv_cmd y with
          | [] => mret tt
          | cmd :: q => modifyS (set_cmd q);; handle_cmd cmd
          end
      | MgrItem item => process item
      | MgrBacklog => handle_backlog
      | MgrAwait => match ac_at (sv_accept y) with AtExit _ => stop_workers (mg_workers m);; on_manager (set_mat MgrTold) | _ => mret tt end
      | MgrTold => handle_cmd_end
      | MgrDone => mret tt
      end
  end.

(** With [stop_on_panic] the task of a worker that failed stops the server
    itself, on a [HandleCmdState] of its own, which has no workers; the second
    half runs when the accept loop has ended. *)
Definition panic_stop : SV () := on_manager (set_stopping true);; accept_send AcStop.
Definition panic_stopped : SV () :=
  at_ ← acc ac_at;
  match at_ with AtExit _ => stop_workers [] | _ => mret tt end.

(** ** Steps

    The user sends commands, the tasks of the workers report, workers start,
    take connections and end. *)
Inductive sv_op :=
  | SvAccept (now : Z) (wait : wait_res)
  | SvManager
  | SvIncoming (idx : nat) (r : acc_res)
  | SvReady (idx : nat)
  | SvReg (r : reg_res)
  | SvTimer (n : nat) (now : Z)
  | SvPause | SvResume | SvStop | SvSignal (s : Signal)
  | SvReport (u : Update)
  | SvPanicStop | SvPanicStopped
  | SvStart (ch : nat)
  | SvTake (ch : nat)
  | SvDie (ch : nat).

Definition sv_ready (idx : nat) : SV () :=
  l ← acc ac_sockets;
  match l !! idx with
  | Some i => if sk_armed i then on_accept (fun a => set_woken true (upd_socket idx (set_armed false) a)) else mret tt
  | None => mret tt
  end.
Definition sv_timer (n : nat) (now : Z) : SV () :=
  l ← acc ac_timers;
  match l !! n with
  | Some due => if due <=? now then on_accept (set_timers (remove_at n l));; accept_send AcTimer else mret tt
  | None => mret tt
  end.
Definition sv_start (ch : nat) : SV () :=
  m ← getsS sv_chans;
  match m !! ch with None => modifyS (set_chans (<[ch := mkChan true []]> m)) | Some _ => mret tt end.
Definition sv_take (ch : nat) : SV () :=
  m ← getsS sv_chans;
  match m !! ch with
  | Some (mkChan b (c :: items)) => modifyS (set_chans (<[ch := mkChan b items]> m));; modifyS (log_handled [c])
  | _ => mret tt
  end.
Definition sv_die (ch : nat) : SV () :=
  m ← getsS sv_chans;
  match m !! ch with
  | Some (mkChan b items) => modifyS (set_chans (<[ch := mkChan false []]> m));; modifyS (log_lost items)
  | None => mret tt
  end.

Definition sv_step (op : sv_op) : SV () :=
  match op with
  | SvAccept now wait => accept_step now wait
  | SvManager => manager_step
  | SvIncoming idx r => on_accept (upd_socket idx (fun i => set_incoming (sk_incoming i ++ [r]) i))
  | SvReady idx => sv_ready idx
  | SvReg r => on_accept (fun a => set_regs (ac_regs a ++ [r]) a)
  | SvTimer n now => sv_timer n now
  | SvPause => cmd_send CmdPause;; mret tt
  | SvResume => cmd_send CmdResume;; mret tt
  | SvStop => cmd_send CmdStop;; mret tt
  | SvSignal s => cmd_send (CmdSignal s);; mret tt
  | SvReport u => cmd_send (CmdWorker u);; mret tt
  | SvPanicStop => panic_stop
  | SvPanicStopped => panic_stopped
  | SvStart ch => sv_start ch
  | SvTake ch => sv_take ch
  | SvDie ch => sv_die ch
  end.
Fixpoint sv_exec (ops : list sv_op) : SV () :=
  match ops with [] => mret tt | op :: ops => sv_step op;; sv_exec ops end.

(** [ServerManager::start] and [Accept::new] for [n] listeners. *)
Definition accept_new (n : nat) : Accept :=
  mkAccept (replicate n (mkSocketInfo false None false [])) true [] [] AtStart false [] [] None.
Definition sv_new (n : nat) : Server :=
  mkServer (accept_new n) true [] (mkManager 0 [] [] false MgrRun [] []) ∅ [] [] [].
