(* ===== verification/ServerInv.v ===== *)
(** * Invariant of the server

    Where each connection is ([books]), how the accept loop follows the flag
    [paused] ([follow]), and what more holds when the user neither pauses nor
    stops the server and no worker ends. *)
From Stdlib Require Import ZArith Lia.
From stdpp Require Import base numbers gmap list.
From S2P Require Import Prelude Server.

Abbreviation occ c l := (count_occ Nat.eq_dec l c) (only parsing).

(** ** Definitions *)

Definition chan_items (m : gmap nat WorkerChan) : list Conn := mjoin (ch_items <$> (map_to_list m).*2).
Definition at_item (x : manager_at) : list Conn := match x with MgrItem c => [c] | _ => [] end.
(** The connections that are on their way. *)
Definition on_the_way (y : Server) : list Conn :=
  ac_backlog (sv_accept y) ++ cmd_items (sv_cmd y) ++ at_item (mg_at (sv_manager y)) ++ mg_backlog (sv_manager y) ++ chan_items (sv_chans y).
Definition books (y : Server) : Prop :=
  forall c, occ c (sv_accepted y) = (occ c (on_the_way y) + occ c (sv_handled y) + occ c (sv_lost y))%nat.

(** What the commands on their way will make of the back-pressure. *)
Definition final (bp : bool) (l : list AcceptorCommand) : bool :=
  fold_left (fun b c => match c with AcPause => true | AcResume => false | _ => b end) l bp.
Definition resuming (x : accept_at) : list AcceptorCommand := match x with AtFlush => [AcResume] | _ => [] end.
Definition pending (y : Server) : list AcceptorCommand :=
  resuming (ac_at (sv_accept y)) ++ ac_rx (sv_accept y) ++ mg_out (sv_manager y).
Definition acc_up (x : accept_at) : bool := match x with AtExit _ => false | _ => true end.
Definition follow_at (bp : bool) (y : Server) : Prop :=
  mg_at (sv_manager y) <> MgrDone -> acc_up (ac_at (sv_accept y)) = true -> final bp (pending y) = sv_paused y.
Definition follow (y : Server) : Prop := follow_at (ac_backpressure (sv_accept y)) y.

(** [paused] is the absence of workers. *)
Definition by_workers (y : Server) : Prop :=
  (CmdPause ∉ sv_cmd y) /\ (CmdResume ∉ sv_cmd y) /\
  (mg_stopping (sv_manager y) = false ->
    (mg_workers (sv_manager y) <> [] -> sv_paused y = false) /\
    (at_item (mg_at (sv_manager y)) = [] -> mg_workers (sv_manager y) = [] -> sv_paused y = true)).

Definition stops (c : ServerCommand) : bool :=
  match c with CmdStop => true | CmdSignal SigHup => false | CmdSignal _ => true | _ => false end.
Definition ends (c : AcceptorCommand) : bool := match c with AcStop | AcTerminate => true | _ => false end.
Definition mgr_up (x : manager_at) : bool := match x with MgrRun | MgrItem _ | MgrBacklog => true | _ => false end.
(** Nothing was lost, and nothing ends the server. *)
Definition calm (y : Server) : Prop :=
  sv_lost y = [] /\ mg_stopping (sv_manager y) = false /\ mgr_up (mg_at (sv_manager y)) = true /\ acc_up (ac_at (sv_accept y)) = true /\
  Forall (fun c => stops c = false) (sv_cmd y) /\ Forall (fun c => ends c = false) (ac_rx (sv_accept y) ++ mg_out (sv_manager y)).

(** Connections wait at the manager only while it has no workers. *)
Definition shelf (m : Manager) : Prop :=
  mg_backlog m <> [] -> match mg_at m with MgrBacklog => length (mg_workers m) = 1%nat | _ => mg_workers m = [] end.

(** ** Facts *)

Lemma occ_app c l k : occ c (l ++ k) = (occ c l + occ c k)%nat.
Proof. apply count_occ_app. Qed.

Lemma occ_chan_items c m ch v : m !! ch = Some v -> occ c (chan_items m) = (occ c (ch_items v) + occ c (chan_items (delete ch m)))%nat.
Proof.
  intros Hm. rewrite <- (insert_delete_id m ch v Hm) at 1. unfold chan_items.
  assert (Hp : map_to_list (<[ch:=v]> (delete ch m)) ≡ₚ (ch, v) :: map_to_list (delete ch m)) by apply map_to_list_insert, lookup_delete_eq.
  rewrite <- occ_app. apply (Permutation_count_occ Nat.eq_dec). rewrite Hp. done.
Qed.

Lemma occ_chan_insert c m ch v w : m !! ch = Some v ->
  (occ c (chan_items (<[ch := w]> m)) + occ c (ch_items v) = occ c (chan_items m) + occ c (ch_items w))%nat.
Proof.
  intros Hm. rewrite (occ_chan_items c m ch v Hm), (occ_chan_items c (<[ch := w]> m) ch w (lookup_insert_eq _ _ _)).
  rewrite delete_insert_eq. lia.
Qed.

Lemma occ_chan_new c m ch b : m !! ch = None -> occ c (chan_items (<[ch := mkChan b []]> m)) = occ c (chan_items m).
Proof.
  intros Hm. rewrite (occ_chan_items c _ ch (mkChan b []) (lookup_insert_eq _ _ _)). cbn. by rewrite delete_insert_id.
Qed.

Lemma cmd_items_app q r : cmd_items (q ++ r) = cmd_items q ++ cmd_items r.
Proof. apply omap_app. Qed.

Lemma cmd_items_item c q : cmd_items (CmdItem c :: q) = c :: cmd_items q.
Proof. done. Qed.

Lemma final_app b l k : final b (l ++ k) = final (final b l) k.
Proof. apply fold_left_app. Qed.

Lemma final_true b l : final b l = true -> final true l = true.
Proof. destruct b; [done|]. revert l. induction l as [|[] l IH] using rev_ind; rewrite ?final_app; cbn; auto. Qed.

(** ** The listeners

    Operations of the accept loop on its listeners. *)
Definition socks (b : bool) (y y' : Server) : Prop := exists a,
  y' = set_accept a y /\ ac_backpressure a = b /\ ac_backlog a = ac_backlog (sv_accept y) /\ ac_rx a = ac_rx (sv_accept y) /\
  ac_at a = ac_at (sv_accept y) /\ length (ac_sockets a) = length (ac_sockets (sv_accept y)).
Abbreviation kept y := (socks (ac_backpressure (sv_accept y)) y) (only parsing).

Lemma kept_refl y : kept y y.
Proof. exists (sv_accept y). by destruct y. Qed.

Lemma socks_trans b c y y1 y2 : socks b y y1 -> socks c y1 y2 -> socks c y y2.
Proof. intros (a & -> & _ & H1 & H2 & H3 & H4) (a' & -> & H5 & H6 & H7 & H8 & H9). exists a'. split; [done|]. cbn in *. split_and!; congruence. Qed.

Lemma socks_bp b y y' : socks b y y' -> ac_backpressure (sv_accept y') = b.
Proof. by intros (a & -> & H & _). Qed.

Lemma kept_trans y y1 y2 : kept y y1 -> kept y1 y2 -> kept y y2.
Proof. intros H1 H2. rewrite (socks_bp _ _ _ H1) in H2. by eapply socks_trans. Qed.

Lemma kept_length y y' b : socks b y y' -> length (ac_sockets (sv_accept y')) = length (ac_sockets (sv_accept y)).
Proof. intros (a & -> & _ & _ & _ & _ & H). exact H. Qed.

(** An operation on the listeners. *)
Definition tends (c : M Server ()) : Prop := forall y, runs c y (fun _ y' => kept y y').

Lemma tends_nothing : tends (mret tt).
Proof. intros y. apply runs_ret, kept_refl. Qed.

Lemma tends_seq c d : tends c -> tends d -> tends (c;; d).
Proof. intros Hc Hd y. apply runs_bind. eapply runs_conseq; [apply Hc|]. intros [] y1 H1. eapply runs_conseq; [apply Hd|]. intros [] y2 H2. by eapply kept_trans. Qed.

Lemma tends_acc {A} (g : Accept -> A) (k : A -> M Server ()) : (forall a, tends (k a)) -> tends (a ← acc g; k a).
Proof. intros Hk y. apply runs_bind, runs_gets, Hk. Qed.

Lemma tends_accept g : (forall a, ac_backpressure (g a) = ac_backpressure a /\ ac_backlog (g a) = ac_backlog a /\ ac_rx (g a) = ac_rx a /\
  ac_at (g a) = ac_at a /\ length (ac_sockets (g a)) = length (ac_sockets a)) -> tends (on_accept g).
Proof. intros Hg y. apply runs_modify. exists (g (sv_accept y)). by destruct (Hg (sv_accept y)) as (? & ? & ? & ? & ?). Qed.

Lemma tends_socket idx g : tends (on_accept (upd_socket idx g)).
Proof. apply tends_accept. intros a. cbn. by rewrite length_alter. Qed.

Create HintDb listeners.
#[export] Hint Resolve tends_nothing tends_seq tends_socket : listeners.
#[export] Hint Extern 2 (tends (on_accept _)) => (apply tends_accept; intros; by split_and!) : listeners.
Ltac tend := repeat (apply tends_seq || apply tends_acc || (progress intros) || case_match); auto with listeners.

Lemma tends_rest idx now : tends (rest_socket idx now).
Proof. unfold rest_socket. tend. Qed.

Lemma tends_add idx now : tends (add_source idx now).
Proof. unfold add_source. apply tends_acc. intros regs. destruct (try_register regs) as [ok rest]. pose proof tends_rest. tend. Qed.

Lemma tends_remove idx b : tends (remove_source idx b).
Proof. unfold remove_source. tend. Qed.
#[export] Hint Resolve tends_rest tends_add tends_remove : listeners.

Lemma each_socket_tends f : (forall idx i, tends (f idx i)) -> forall n idx y, (idx + n = length (ac_sockets (sv_accept y)))%nat ->
  runs (each_socket f n idx) y (fun _ y' => kept y y').
Proof.
  intros Hf n. induction n as [|n IH]; intros idx y Hl; cbn [each_socket]; [apply runs_ret, kept_refl|].
  apply runs_bind, runs_gets. destruct (lookup_lt_is_Some_2 (ac_sockets (sv_accept y)) idx) as [i Hi]; [lia|]. rewrite Hi.
  apply runs_bind. eapply runs_conseq; [apply Hf|]. intros [] y1 H1.
  eapply runs_conseq; [apply IH; rewrite (kept_length _ _ _ H1); lia|]. intros [] y2 H2. by eapply kept_trans.
Qed.

Lemma sockets_do_tends f : (forall idx i, tends (f idx i)) -> tends (sockets_do f).
Proof. intros Hf y. apply runs_bind, runs_gets. by apply each_socket_tends. Qed.

Lemma tends_timer now : tends (process_timer now).
Proof. apply sockets_do_tends. intros idx i. unfold timer_socket. tend. Qed.

Lemma tends_resume now : tends (sockets_do (resume_socket now)).
Proof. apply sockets_do_tends. intros idx i. unfold resume_socket. tend. Qed.

Lemma backpressure_on_spec y : runs backpressure_on y (fun _ y' => socks true y y').
Proof.
  unfold backpressure_on, update_status. apply runs_bind, runs_modify, runs_bind, runs_gets. cbn.
  destruct (ac_backpressure (sv_accept y)) eqn:Hb.
  - apply runs_ret. eexists. by split_and!.
  - apply runs_bind, runs_modify. eapply runs_conseq; [apply sockets_do_tends; intros idx i; unfold pause_socket; tend|].
    intros [] y' H. eapply (socks_trans true); [|exact H]. eexists. by split_and!.
Qed.

(** ** Moving connections *)

Create HintDb occs.
#[export] Hint Rewrite occ_app cmd_items_app : occs.
Ltac balance := let c := fresh "c" in intros c;
  repeat match goal with H : books _ |- _ => pose proof (H c); clear H end;
  unfold books, on_the_way in *; cbn [sv_accept sv_paused sv_cmd sv_manager sv_chans sv_accepted sv_handled sv_lost
    set_accept set_paused set_cmd set_manager set_chans set_accepted set_handled set_lost log_accepted log_handled log_lost upd_accept upd_manager
    ac_backlog set_backlog mg_backlog mg_at set_mbacklog set_mat at_item set_at set_rx set_sockets set_woken
    set_workers set_mnext set_out set_told set_stopping set_backpressure] in *;
  autorewrite with occs in *; cbn [cmd_items omap list_omap count_occ app] in *; repeat (case_decide || case_match); try lia.

(** A change that leaves the accept loop and the manager where they are. *)
Ltac inv_same := unfold books, follow, follow_at, by_workers, calm, on_the_way, pending in *; cbn in *.

Lemma srv_process_spec c y : runs (srv_process c) y (fun ok y' =>
  if (ok : bool) then y' = set_cmd (sv_cmd y ++ [CmdItem c]) y else y' = y /\ (sv_paused y = true \/ mg_at (sv_manager y) = MgrDone)).
Proof.
  unfold srv_process, cmd_send. apply runs_bind, runs_gets. destruct (sv_paused y) eqn:Hp; [apply runs_ret; auto|].
  apply runs_bind, runs_gets. destruct (mg_at (sv_manager y)) eqn:Ha; try (apply runs_bind, runs_modify, runs_ret; done).
  apply runs_ret. auto.
Qed.

(** [user]: the user may pause and resume the server; [loss]: it may be
    stopped, and workers and the accept loop may end; [failing]: [wait] may
    fail. *)
Section invariant.
Variable failing : bool.

Record Inv (user loss : bool) (y : Server) : Prop := mkInv {
  iv_books : books y;
  iv_follow : follow y;
  iv_backlog : mg_at (sv_manager y) = MgrBacklog -> mg_workers (sv_manager y) <> [];
  iv_front : ac_backpressure (sv_accept y) = false -> ac_backlog (sv_accept y) = [];
  iv_shelf : shelf (sv_manager y);
  iv_workers : user = false -> by_workers y;
  iv_calm : loss = false -> calm y;
  iv_alive : failing = false -> ac_at (sv_accept y) <> AtExit true;
}.

Definition op_ok (user loss : bool) (op : sv_op) : Prop :=
  match op with
  | SvAccept _ WaitFailed => loss = true /\ failing = true
  | SvPause | SvResume => user = true
  | SvStop | SvPanicStop | SvDie _ => loss = true
  | SvSignal s => s = SigHup \/ loss = true
  | _ => True
  end.

Lemma inv_socks u l b y y' : Inv u l y -> socks b y y' -> follow_at b y -> (b = false -> ac_backlog (sv_accept y) = []) -> Inv u l y'.
Proof.
  intros [H1 H2 H3 HF HS H4 H5 H9] (a & -> & Hb & Hq & Hr & Ha & _) Hf Hk.
  constructor; unfold books, follow, follow_at, by_workers, calm, on_the_way, pending in *; cbn in *; rewrite ?Hq, ?Hr, ?Ha, ?Hb; auto.
Qed.

Lemma inv_kept u l y y' : Inv u l y -> kept y y' -> Inv u l y'.
Proof. intros Hi Hk. eapply inv_socks; [exact Hi|exact Hk|apply Hi..]. Qed.

(** More commands for the manager. *)
Lemma inv_cmd u l y y1 cs : Inv u l y1 -> sv_cmd y = sv_cmd y1 ++ cs -> sv_accept y = sv_accept y1 -> sv_manager y = sv_manager y1 ->
  sv_paused y = sv_paused y1 -> sv_lost y = sv_lost y1 -> books y -> (u = false -> (CmdPause ∉ cs) /\ (CmdResume ∉ cs)) ->
  (l = false -> Forall (fun c => stops c = false) cs) -> Inv u l y.
Proof.
  intros [_ H2 H3 HF HS H4 H5 H9] Hc Ha Hm Hp Hl Hb Hu Hs. constructor; [done|..]; inv_same; rewrite ?Ha, ?Hm, ?Hp, ?Hl, ?Hc; auto.
  - intros E. destruct (H4 E) as (? & ? & ?), (Hu E). rewrite !elem_of_app. naive_solver.
  - intros E. destruct (H5 E) as (? & ? & ? & ? & ? & ?). rewrite Forall_app. auto 10.
Qed.

Lemma inv_taken u l y c : Inv u l y -> Inv u l (set_cmd (sv_cmd y ++ [CmdItem c]) (log_accepted [c] y)).
Proof.
  intros Hi. eapply (inv_cmd _ _ _ y [CmdItem c]); try done; [|intros _; set_solver|repeat constructor].
  pose proof (iv_books _ _ _ Hi). balance.
Qed.

(** The refusal of a connection puts the back-pressure on. *)
Lemma follow_refused u l y : Inv u l y -> sv_paused y = true \/ mg_at (sv_manager y) = MgrDone -> follow_at true y.
Proof.
  intros Hi [Hp|Hp] Hm Ha; [|done]. pose proof (iv_follow _ _ _ Hi Hm Ha) as Hf. rewrite Hp in Hf |- *. by eapply final_true.
Qed.

Lemma inv_shelved u l y y' c : Inv u l y -> sv_paused y = true \/ mg_at (sv_manager y) = MgrDone ->
  socks true (upd_accept (fun a => set_backlog (ac_backlog a ++ [c]) a) (log_accepted [c] y)) y' -> Inv u l y'.
Proof.
  intros Hi Hr (a & -> & Hb & Hq & Hx & Ha & Hl). pose proof (follow_refused _ _ _ Hi Hr) as Hf. set (y0 := upd_accept _ _) in *.
  assert (Hi0 : Inv u l (upd_accept (set_backpressure true) y0)).
  { pose proof (iv_books _ _ _ Hi). destruct Hi as [_ H2 H3 HF HS H4 H5 H9]. unfold y0. constructor; [balance|exact Hf|..]; inv_same; auto. done. }
  eapply (inv_socks u l true); [exact Hi0| |exact Hf|done]. by exists a.
Qed.

Lemma socks_at b y y' : socks b y y' -> ac_at (sv_accept y') = ac_at (sv_accept y).
Proof. intros (a & -> & _ & _ & _ & H & _). exact H. Qed.

Lemma accept_spec u l idx i now y : Inv u l y ->
  runs (accept idx i now) y (fun _ y' => Inv u l y' /\ ac_at (sv_accept y') = ac_at (sv_accept y)).
Proof.
  intros Hi. unfold accept. apply runs_bind. eapply runs_conseq; [apply tends_socket|]. intros [] y1 H1. rewrite <- (socks_at _ _ _ H1).
  apply (inv_kept _ _ _ _ Hi) in H1. clear Hi y. rename y1 into y, H1 into Hi.
  destruct (head (sk_incoming i)) as [[c| | | |]|]; try (apply runs_ret; done).
  - apply runs_bind, runs_modify, runs_bind. eapply runs_conseq; [apply srv_process_spec|]. intros [] y1.
    + intros ->. apply runs_ret. split; [exact (inv_taken u l y c Hi)|done].
    + intros [-> Hr]. apply runs_bind, runs_modify, runs_bind.
      eapply runs_conseq; [apply backpressure_on_spec|]. intros [] y2 H2. apply runs_ret. split; [|exact (socks_at _ _ _ H2)].
      by eapply inv_shelved.
  - apply runs_bind. eapply runs_conseq; [apply tends_rest|]. intros [] y2 H2. apply runs_ret. split; [by eapply inv_kept|exact (socks_at _ _ _ H2)].
Qed.

(** The loop goes from one place to another one. *)
Definition plain (x : accept_at) : Prop := x <> AtFlush /\ acc_up x = true.

Lemma inv_at u l y x : Inv u l y -> plain (ac_at (sv_accept y)) -> plain x -> Inv u l (upd_accept (set_at x) y).
Proof.
  intros Hi [P1 P2] [Q1 Q2]. pose proof (iv_books _ _ _ Hi). destruct Hi as [_ H2 H3 HF HS H4 H5 H9]. constructor; [balance|..]; inv_same; auto.
  - intros Hm _. rewrite <- (H2 Hm P2). f_equal. f_equal. by destruct x, (ac_at (sv_accept y)).
  - intros E. destruct (H5 E) as (? & ? & ? & ? & ?). by destruct x.
  - intros _ ->. done.
Qed.

Lemma inv_goes u l x y : Inv u l y -> plain (ac_at (sv_accept y)) -> plain x -> runs (on_accept (set_at x)) y (fun _ y' => Inv u l y').
Proof. intros. apply runs_modify. by apply inv_at. Qed.

Lemma accept_top_spec u l idx now y : Inv u l y -> ac_at (sv_accept y) = AtTop idx -> runs (accept_top idx now) y (fun _ y' => Inv u l y').
Proof.
  intros Hi Ha. unfold accept_top. apply runs_bind, runs_gets.
  assert (Hp : plain (ac_at (sv_accept y))) by (by rewrite Ha).
  destruct (ac_sockets (sv_accept y) !! idx) as [i|]; [|by apply inv_goes]. destruct (sk_registered i); [|by apply inv_goes].
  apply runs_bind. eapply runs_conseq; [by apply accept_spec|]. intros r y1 [H1 H2]. destruct r as [readd|]; [|by apply runs_ret].
  apply runs_bind. eapply runs_conseq with (Q := fun _ y2 => kept y1 y2); [destruct readd; [apply tends_add|apply tends_nothing]|].
  intros [] y2 H3. apply inv_goes; [by eapply inv_kept|rewrite (socks_at _ _ _ H3), H2, Ha|]; done.
Qed.

(** The backlog of the accept loop: what it gives goes to the manager. *)
Lemma inv_flushed u l y y' c q : Inv u l y -> ac_backlog (sv_accept y) = c :: q ->
  y' = upd_accept (set_backlog q) (set_cmd (sv_cmd y ++ [CmdItem c]) y) -> Inv u l y'.
Proof.
  intros Hi Hq ->. assert (Hb : books (upd_accept (set_backlog q) (set_cmd (sv_cmd y ++ [CmdItem c]) y))).
  { pose proof (iv_books _ _ _ Hi). balance; rewrite Hq in *; cbn in *; repeat case_decide; repeat case_match; lia. }
  destruct Hi as [_ H2 H3 HF HS H4 H5 H9]. constructor; [done|..]; inv_same; auto.
  - intros E. by rewrite HF in Hq.
  - intros E. destruct (H4 E) as (? & ? & ?). rewrite !elem_of_app, !list_elem_of_singleton. naive_solver.
  - intros E. destruct (H5 E) as (? & ? & ? & ? & ? & ?). rewrite Forall_app. auto 10.
Qed.

(** The end of a flush. *)
Lemma inv_leave u l y : Inv u l y -> ac_at (sv_accept y) = AtFlush ->
  (ac_backpressure (sv_accept y) = false \/ sv_paused y = true \/ mg_at (sv_manager y) = MgrDone) -> Inv u l (upd_accept (set_at AtCmd) y).
Proof.
  intros Hi Ha Hc. pose proof (iv_books _ _ _ Hi). destruct Hi as [_ H2 H3 HF HS H4 H5 H9]. constructor; [balance|..]; inv_same; auto.
  - intros Hm _. rewrite Ha in H2. specialize (H2 Hm ltac:(done)). change (final false (ac_rx (sv_accept y) ++ mg_out (sv_manager y)) = sv_paused y) in H2.
    destruct Hc as [->|[Hp|?]]; [exact H2| |done]. rewrite Hp in H2 |- *. destruct (ac_backpressure (sv_accept y)); [by eapply final_true|exact H2].
  - intros E. destruct (H5 E) as (? & ? & ? & ? & ? & ?). auto 10.
Qed.

Lemma flush_spec u l now y : Inv u l y -> ac_at (sv_accept y) = AtFlush -> runs (flush_backlog now) y (fun _ y' => Inv u l y').
Proof.
  intros Hi Ha. unfold flush_backlog. apply runs_bind, runs_gets. destruct (ac_backlog (sv_accept y)) as [|c q] eqn:Hq.
  - apply runs_bind, runs_modify. set (y1 := upd_accept (set_backpressure false) y). assert (Hi1 : Inv u l y1).
    { eapply (inv_socks u l false y); [done|eexists; by split_and!| |done]. intros Hm Hx. specialize (iv_follow _ _ _ Hi Hm Hx).
      unfold pending. by rewrite Ha. }
    apply runs_bind. eapply runs_conseq; [apply tends_resume|]. intros [] y2 H2. apply runs_modify.
    apply inv_leave; [by eapply inv_kept|by rewrite (socks_at _ _ _ H2)|]. left. by rewrite (socks_bp _ _ _ H2).
  - apply runs_bind. eapply runs_conseq; [apply srv_process_spec|]. intros [] y1.
    + intros ->. apply runs_modify. by eapply inv_flushed.
    + intros [-> Hr]. apply runs_modify, inv_leave; auto.
Qed.

(** The end of the accept loop. *)
Lemma inv_exit u l p y : Inv u l y -> l = true -> (failing = false -> p = false) -> Inv u l (upd_accept (fun a => set_at (AtExit p) (set_rx [] (set_backlog [] (set_sockets [] a))))
  (log_lost (ac_backlog (sv_accept y)) y)).
Proof.
  intros Hi -> Hp. pose proof (iv_books _ _ _ Hi). destruct Hi as [_ H2 H3 HF HS H4 H5 H9]. constructor; [balance|..]; inv_same; auto; try done.
  intros E. by rewrite Hp.
Qed.

Lemma accept_exit_spec u l p y : Inv u l y -> l = true -> (failing = false -> p = false) -> runs (accept_exit p) y (fun _ y' => Inv u l y').
Proof. intros. apply runs_bind, runs_gets, runs_bind, runs_modify, runs_modify. by apply inv_exit. Qed.

(** A command that was taken from the queue: what it does is due. *)
Definition due (u l : bool) (cmd : AcceptorCommand) (y : Server) : Prop :=
  ac_at (sv_accept y) = AtCmd /\ exists rx, Inv u l (upd_accept (set_rx (cmd :: rx)) y) /\ ac_rx (sv_accept y) = rx.

Lemma due_follow u l cmd y : due u l cmd y -> follow_at (final (ac_backpressure (sv_accept y)) [cmd]) y.
Proof.
  intros (Ha & rx & Hi & Hr) Hm Hx. pose proof (iv_follow _ _ _ Hi Hm Hx) as Hf. revert Hf. unfold pending. cbn. rewrite Ha, Hr. by intros <-.
Qed.

Lemma due_inv u l cmd y : due u l cmd y -> (cmd = AcResume -> ac_backpressure (sv_accept y) = false) -> Inv u l (upd_accept (set_backpressure (final (ac_backpressure (sv_accept y)) [cmd])) y).
Proof.
  intros Hd He. pose proof (due_follow _ _ _ _ Hd) as Hf. destruct Hd as (Ha & rx & Hi & Hr). pose proof (iv_books _ _ _ Hi).
  destruct Hi as [_ H2 H3 HF HS H4 H5 H9]. constructor; [balance|exact Hf|..]; inv_same; auto.
  - destruct cmd; try done; auto.
  - intros E. destruct (H5 E) as (? & ? & ? & ? & ? & Hall). rewrite Hr. apply Forall_cons in Hall as [_ ?]. auto 10.
Qed.

Lemma due_ends u cmd y : due u false cmd y -> ends cmd = false.
Proof. intros (_ & rx & Hi & _). destruct (iv_calm _ _ _ Hi eq_refl) as (_ & _ & _ & _ & _ & H). by apply Forall_cons in H as [? _]. Qed.

Lemma due_socks u l cmd y y' b : due u l cmd y -> socks b y y' -> b = final (ac_backpressure (sv_accept y)) [cmd] ->
  (cmd = AcResume -> ac_backpressure (sv_accept y) = false) -> Inv u l y'.
Proof.
  intros Hd (a & -> & Hb & Hq & Hr & Ha & Hl) E He. pose proof (due_follow _ _ _ _ Hd) as Hf. rewrite <- E in Hf.
  pose proof (due_inv _ _ _ _ Hd He) as Hi. rewrite <- E in Hi.
  eapply (inv_socks u l b); [exact Hi| |exact Hf|exact (iv_front _ _ _ Hi)]. by exists a.
Qed.

Lemma exits_spec u cmd y y' b : due u true cmd y -> ends cmd = true -> socks b y y' -> runs (accept_exit false) y' (fun _ y' => Inv u true y').
Proof.
  intros Hd He (a & -> & Hb & Hq & Hr & Ha & Hl). apply runs_bind, runs_gets, runs_bind, runs_modify, runs_modify. cbn. rewrite Hq.
  set (y0 := upd_accept (set_backpressure (final (ac_backpressure (sv_accept y)) [cmd])) y).
  assert (Hi : Inv u true y0) by (apply due_inv; [exact Hd|by intros ->]).
  pose proof (inv_exit u true false y0 Hi eq_refl ltac:(done)) as [H1 H2 H3 HF HS H4 H5 H9]. constructor; [exact H1|by intros _ ?|exact H3|done|exact HS|exact H4|done|done].
Qed.

Lemma process_cmd_spec u l cmd now y : due u l cmd y -> runs (process_cmd cmd now) y (fun _ y' => Inv u l y').
Proof.
  intros Hd. unfold process_cmd. apply runs_bind, runs_gets.
  assert (Hends : ends cmd = true -> l = true) by (destruct l; [done|]; intros E; by rewrite (due_ends _ _ _ Hd) in E).
  destruct cmd.
  - rewrite Hends in * by done. apply runs_bind. destruct (ac_backpressure (sv_accept y)).
    + apply runs_ret. eapply exits_spec; [exact Hd|done|apply kept_refl].
    + eapply runs_conseq; [apply backpressure_on_spec|]. intros [] y' H. by eapply exits_spec.
  - rewrite Hends in * by done. apply runs_bind. eapply runs_conseq; [apply backpressure_on_spec|]. intros [] y' H. by eapply exits_spec.
  - destruct (ac_backpressure (sv_accept y)) eqn:Hb.
    + apply runs_ret. apply (due_socks _ _ _ _ _ _ Hd (kept_refl y)); [by rewrite Hb|done].
    + eapply runs_conseq; [apply backpressure_on_spec|]. intros [] y' H. by eapply due_socks.
  - destruct (ac_backpressure (sv_accept y)) eqn:Hb.
    + apply runs_bind, runs_modify, runs_modify. destruct Hd as (Ha & rx & Hi & Hr). pose proof (iv_books _ _ _ Hi).
      destruct Hi as [_ H2 H3 HF HS H4 H5 H9]. constructor; [balance|..]; inv_same; auto.
      * rewrite Hb, Ha, Hr in *. intros Hm _. by rewrite <- H2.
      * intros E. destruct (H5 E) as (? & ? & ? & ? & ? & Hall). rewrite Hr. apply Forall_cons in Hall as [_ ?]. auto 10.
    + apply runs_ret. apply (due_socks _ _ _ _ _ _ Hd (kept_refl y)); [by rewrite Hb|done].
  - eapply runs_conseq; [apply tends_timer|]. intros [] y' H. by eapply due_socks.
Qed.

Lemma accept_step_spec u l now sp y : Inv u l y -> op_ok u l (SvAccept now sp) -> runs (accept_step now sp) y (fun _ y' => Inv u l y').
Proof.
  intros Hi Ho. unfold accept_step. apply runs_bind, runs_gets. unfold id. destruct (ac_at (sv_accept y)) as [|idx| | | |p] eqn:Ha.
  - apply runs_bind. eapply runs_conseq; [apply sockets_do_tends; intros; apply tends_add|]. intros [] y1 H1.
    apply inv_goes; [by eapply inv_kept|by rewrite (socks_at _ _ _ H1), Ha|done].
  - by apply accept_top_spec.
  - by apply flush_spec.
  - destruct (ac_rx (sv_accept y)) as [|cmd rx] eqn:Hr; [by apply inv_goes; [|rewrite Ha|]|].
    apply runs_bind, runs_modify, process_cmd_spec. split; [done|]. exists rx. split; [|done].
    assert (E : upd_accept (set_rx (cmd :: rx)) (upd_accept (set_rx rx) y) = y) by (destruct y as [[]]; cbn in *; by subst). by rewrite E.
  - destruct sp.
    + destruct (ac_woken (sv_accept y)); [|by apply runs_ret]. apply runs_modify.
      eapply (inv_at u l (upd_accept (set_woken false) y)); [|by cbn; rewrite Ha|done].
      eapply (inv_kept u l y); [done|]. eexists. by split_and!.
    + by apply inv_goes; [|rewrite Ha|].
    + destruct Ho as [-> Hf]. apply accept_exit_spec; [done..|]. by rewrite Hf.
  - by apply runs_ret.
Qed.

(** ** Steps of the server

    The manager and the environment keep the invariant. *)

(** ** The manager *)

(** The invariant without what it says of [paused]. *)
Record Base (user loss : bool) (y : Server) : Prop := mkBase {
  bs_books : books y;
  bs_backlog : mg_at (sv_manager y) = MgrBacklog -> mg_workers (sv_manager y) <> [];
  bs_front : ac_backpressure (sv_accept y) = false -> ac_backlog (sv_accept y) = [];
  bs_shelf : shelf (sv_manager y);
  bs_cmd : user = false -> (CmdPause ∉ sv_cmd y) /\ (CmdResume ∉ sv_cmd y);
  bs_calm : loss = false -> calm y;
  bs_alive : failing = false -> ac_at (sv_accept y) <> AtExit true;
}.

Lemma inv_base u l y : Inv u l y -> Base u l y.
Proof. intros [H1 H2 H3 HF HS H4 H5 H9]. constructor; auto. intros E. destruct (H4 E) as (? & ? & _). done. Qed.

Definition paused_now y := upd_manager (fun m => set_out (mg_out m ++ [AcPause]) m) (set_paused true y).
Definition resumed_now y := upd_manager (fun m => set_out (mg_out m ++ [AcResume]) m) (set_paused false y).

Lemma calm_out y c b : calm y -> ends c = false -> calm (upd_manager (fun m => set_out (mg_out m ++ [c]) m) (set_paused b y)).
Proof. intros (? & ? & ? & ? & ? & H) Hc. unfold calm. cbn. split_and!; auto. rewrite app_assoc. apply Forall_app. auto. Qed.

Lemma inv_paused u l y : Base u l y -> (u = false -> mg_stopping (sv_manager y) = false -> mg_workers (sv_manager y) = []) -> Inv u l (paused_now y).
Proof.
  intros [H1 H2 HF HS H3 H4 H9] Hw. unfold paused_now, resumed_now. constructor; [balance|..].
  - intros Hm Ha. unfold pending. cbn. by rewrite !app_assoc, final_app.
  - exact H2.
  - exact HF.
  - exact HS.
  - intros E. destruct (H3 E). split_and!; [done..|]. cbn. intros Hs. split; [|done]. by rewrite (Hw E Hs).
  - intros E. by apply calm_out; [apply H4|].
  - exact H9.
Qed.

Lemma inv_resumed u l y : Base u l y -> (u = false -> mg_stopping (sv_manager y) = false -> mg_workers (sv_manager y) <> []) -> Inv u l (resumed_now y).
Proof.
  intros [H1 H2 HF HS H3 H4 H9] Hw. unfold paused_now, resumed_now. constructor; [balance|..].
  - intros Hm Ha. unfold pending. cbn. by rewrite !app_assoc, final_app.
  - exact H2.
  - exact HF.
  - exact HS.
  - intros E. destruct (H3 E). split_and!; [done..|]. cbn. intros Hs. split; [done|]. intros _ Hn. by destruct (Hw E Hs).
  - intros E. by apply calm_out; [apply H4|].
  - exact H9.
Qed.

Lemma worker_send_spec w c y : runs (worker_send w c) y (fun ok y' =>
  if (ok : bool) then exists items, sv_chans y !! wk_chan w = Some (mkChan true items) /\
    y' = set_chans (<[wk_chan w := mkChan true (items ++ [c])]> (sv_chans y)) y
  else y' = y).
Proof.
  unfold worker_send. apply runs_bind, runs_gets. destruct (sv_chans y !! wk_chan w) as [[[] items]|] eqn:Hw; [|by apply runs_ret..].
  apply runs_bind, runs_modify, runs_ret. eauto.
Qed.

(** A change of the manager that leaves [paused] and the queues to the accept
    loop; [x] is where it is afterwards. *)
Lemma inv_manager u l y y' : Inv u l y -> sv_accept y' = sv_accept y -> sv_paused y' = sv_paused y ->
  mg_out (sv_manager y') = mg_out (sv_manager y) -> sv_lost y' = sv_lost y -> mg_stopping (sv_manager y') = mg_stopping (sv_manager y) ->
  books y' -> (mg_at (sv_manager y) <> MgrDone) -> (mg_at (sv_manager y') = MgrBacklog -> mg_workers (sv_manager y') <> []) ->
  shelf (sv_manager y') -> (u = false -> by_workers y -> by_workers y') ->
  (l = false -> Forall (fun c => stops c = false) (sv_cmd y) -> Forall (fun c => stops c = false) (sv_cmd y') /\ mgr_up (mg_at (sv_manager y')) = true) ->
  Inv u l y'.
Proof.
  intros [H1 H2 H3 HF HS H4 H5 H9] Ha Hp Ho Hl Hs Hb Hd Hk Hsh Hu Hc. constructor; [done| |done|by rewrite Ha|done|auto| |by rewrite Ha].
  - unfold follow, follow_at, pending in *. rewrite Ha, Hp, Ho. auto.
  - intros E. destruct (H5 E) as (C1 & C2 & C3 & C4 & C5 & C6). destruct (Hc E C5). unfold calm. rewrite Ha, Ho, Hl, Hs. auto 10.
Qed.

Lemma process_spec u l c y : Inv u l y -> mg_at (sv_manager y) = MgrItem c -> runs (process c) y (fun _ y' => Inv u l y').
Proof.
  intros Hi Hm. unfold process. apply runs_bind, runs_gets. unfold id. pose proof (iv_books _ _ _ Hi) as Hb.
  destruct (mg_workers (sv_manager y)) as [|w0 ws] eqn:Hw.
  - apply runs_bind. destruct (mg_stopping (sv_manager y)) eqn:Hs.
    + apply runs_modify, runs_modify. destruct l; [|by destruct (iv_calm _ _ _ Hi eq_refl) as (_ & Hs' & _); congruence].
      destruct Hi as [_ H2 H3 HF HS H4 H5 H9]. rewrite Hm in *. constructor; [|inv_same; rewrite ?Hm in *; auto..].
      * balance; rewrite Hm in *; cbn in *; repeat case_match; lia.
      * by intros _.
      * intros E. destruct (H4 E) as (? & ? & H6). split_and!; [done..|]. by rewrite Hs.
      * done.
    + apply runs_bind, runs_modify, runs_bind, runs_modify, runs_modify, runs_modify.
      apply (inv_paused u l (upd_manager (fun m => set_mat MgrRun (set_mbacklog (mg_backlog (sv_manager y) ++ [c]) m)) y)); [|done].
      destruct (inv_base _ _ _ Hi) as [_ B2 BF BS B3 B4 B9]. constructor; [|done|done|by intros _|done| |done].
      * balance; rewrite Hm in *; cbn in *; repeat case_match; lia.
      * intros E. destruct (B4 E) as (? & ? & ? & ?). done.
  - assert (Hq : mg_backlog (sv_manager y) = []).
    { pose proof (iv_shelf _ _ _ Hi) as HS. unfold shelf in HS. rewrite Hm, Hw in HS. destruct (mg_backlog (sv_manager y)); [done|]. by specialize (HS ltac:(done)). }
    match goal with |- context [worker_send ?v c] => generalize v; intros w end. apply runs_bind. eapply runs_conseq; [apply worker_send_spec|].
    intros [] y1.
    + intros (items & Hch & ->). apply runs_modify. eapply (inv_manager u l y); try done; cbn; rewrite ?Hm; try done.
      * intros x. pose proof (Hb x) as Hx. pose proof (occ_chan_insert x _ _ _ (mkChan true (items ++ [c])) Hch) as Hy. unfold on_the_way in *. cbn -[cmd_items] in *. rewrite Hm in *. autorewrite with occs in *. cbn -[cmd_items] in *. repeat case_match; lia.
      * by intros [].
      * intros E (? & ? & H6). split_and!; [done..|]. cbn. intros Hs. destruct (H6 Hs) as [H7 H8]. split; [done|]. intros _ Hn. by rewrite Hw in Hn.
    + intros ->. apply runs_modify. eapply (inv_manager u l y); try done; cbn; rewrite ?Hm; try done; [by intros []|].
      intros E (? & ? & H6). split_and!; [done..|]. cbn. rewrite Hm. intros Hs. destruct (H6 Hs) as [H7 H8]. split; [|done]. intros _. apply H7. by rewrite Hw.
Qed.

Lemma remove_at_nonempty {A} i (l : list A) : remove_at i l <> [] -> l <> [].
Proof. destruct l; [|done]. intros H. exfalso. apply H. unfold remove_at. by rewrite take_nil, drop_nil. Qed.

Lemma sort_insert_length w l : length (sort_insert w l) = S (length l).
Proof. induction l as [|v l IH]; cbn; [done|]. case_match; cbn; congruence. Qed.

Lemma sort_length l : length (sort l) = length l.
Proof.
  unfold sort. assert (H : forall k, length (fold_left (fun l w => sort_insert w l) l k) = (length l + length k)%nat); [|rewrite H; cbn; lia].
  induction l as [|w l IH]; intros k; cbn; [done|]. rewrite IH, sort_insert_length. lia.
Qed.

(** The workers changed, and the backlog may be handled now. *)
Definition next_at (m : Manager) : manager_at := match mg_backlog m, mg_workers m with _ :: _, _ :: _ => MgrBacklog | _, _ => mg_at m end.

Lemma to_backlog u l y : Inv u l (upd_manager (fun m => set_mat (next_at m) m) y) ->
  runs (m ← mgr id; match mg_backlog m, mg_workers m with _ :: _, _ :: _ => on_manager (set_mat MgrBacklog) | _, _ => mret tt end) y
    (fun _ y' => Inv u l y').
Proof.
  intros Hi. apply runs_bind, runs_gets. unfold id. assert (Hs : next_at (sv_manager y) = mg_at (sv_manager y) -> Inv u l y).
  { intros E. revert Hi. unfold upd_manager. rewrite E. by destruct y as [? ? ? []]. }
  unfold upd_manager, next_at in *. destruct (mg_backlog (sv_manager y)); [apply runs_ret; auto|].
  destruct (mg_workers (sv_manager y)); [apply runs_ret; auto|]. by apply runs_modify.
Qed.

(** A command is taken from the channel. *)
Lemma base_taken u l y cmd q : Inv u l y -> sv_cmd y = cmd :: q -> cmd_items [cmd] = [] -> Base u l (set_cmd q y).
Proof.
  intros Hi Hc Hn. pose proof (iv_books _ _ _ Hi) as Hb. destruct (inv_base _ _ _ Hi) as [_ B2 BF BS B3 B4 B9]. constructor; [|done|done|done| | |done].
  - balance; rewrite Hc in *; by destruct cmd.
  - intros E. destruct (B3 E) as [? ?]. rewrite Hc in *. cbn. set_solver.
  - intros E. destruct (B4 E) as (? & ? & ? & ? & H5 & ?). rewrite Hc in H5. apply Forall_cons in H5 as [_ ?]. by split_and!.
Qed.
Lemma inv_taken_cmd u l y cmd q : Inv u l y -> sv_cmd y = cmd :: q -> cmd_items [cmd] = [] -> Inv u l (set_cmd q y).
Proof.
  intros Hi Hc Hn. destruct (base_taken _ _ _ _ _ Hi Hc Hn) as [B1 B2 BF BS B3 B4 B9]. destruct Hi as [_ H2 _ _ _ H4 _]. constructor; auto.
  intros E. destruct (H4 E) as (_ & _ & ?), (B3 E). by split_and!.
Qed.

(** The workers after an update, and where the manager goes on. *)
Definition with_workers (ws : list Worker) (y : Server) : Server := upd_manager (fun m => set_mat (next_at m) m) (upd_manager (set_workers ws) y).
Lemma base_workers u l y ws : Base u l y -> mg_at (sv_manager y) = MgrRun -> (mg_backlog (sv_manager y) <> [] -> (length ws <= 1)%nat) ->
  Base u l (with_workers ws y).
Proof.
  intros [H1 H2 HF HS H3 H4 H9] Hm Hl. unfold with_workers, upd_manager, next_at. cbn. rewrite Hm.
  assert (Hx : match mg_backlog (sv_manager y), ws with _ :: _, _ :: _ => MgrBacklog | _, _ => MgrRun end = MgrRun \/ ws <> []) by (destruct (mg_backlog (sv_manager y)), ws; auto).
  constructor; [|by destruct Hx as [->|?]|exact HF| |exact H3| |exact H9].
  - pose proof H1. balance; rewrite Hm in *; cbn in *; lia.
  - unfold shelf. cbn. intros Hn. specialize (Hl Hn). destruct (mg_backlog (sv_manager y)); [done|]. destruct ws as [|w [|]]; cbn in *; [done..|lia].
  - intros E. destruct (H4 E) as (? & ? & ? & ?). split; [done|]. split; [done|]. split; [|done]. by destruct (mg_backlog (sv_manager y)), ws.
Qed.

Lemma inv_workers u l y ws : Inv u l y -> mg_at (sv_manager y) = MgrRun -> ws <> [] -> mg_workers (sv_manager y) <> [] -> Inv u l (with_workers ws y).
Proof.
  intros Hi Hm Hn Hw. assert (Hq : mg_backlog (sv_manager y) = []).
  { pose proof (iv_shelf _ _ _ Hi) as HS. unfold shelf in HS. rewrite Hm in HS. destruct (mg_backlog (sv_manager y)); [done|]. by destruct (Hw (HS ltac:(done))). }
  destruct (base_workers u l y ws (inv_base _ _ _ Hi) Hm) as [B1 B2 BF BS B3 B4 B9]; [by rewrite Hq|].
  eapply (inv_manager u l y); try done; unfold with_workers, upd_manager, next_at in *; cbn in *; rewrite ?Hm, ?Hq in *; try done.
  - intros E (? & ? & H6). split_and!; [done..|]. cbn. intros Hs. by destruct (H6 Hs) as [H7 _]; auto.
Qed.

Lemma shelf_workers u l y (ws : list Worker) : Inv u l y -> mg_at (sv_manager y) = MgrRun -> (length ws <= S (length (mg_workers (sv_manager y))))%nat ->
  mg_backlog (sv_manager y) <> [] -> (length ws <= 1)%nat.
Proof. intros Hi Hm Hl Hn. pose proof (iv_shelf _ _ _ Hi Hn) as HS. rewrite Hm in HS. by rewrite HS in Hl. Qed.

Lemma update_workers_spec u l up y : Inv u l y -> mg_at (sv_manager y) = MgrRun -> runs (update_workers up) y (fun _ y' => Inv u l y').
Proof.
  intros Hi Hm. pose proof (inv_base _ _ _ Hi) as Hb. unfold update_workers. apply runs_bind.
  apply (runs_conseq _ _ (fun _ y' => Inv u l (upd_manager (fun m => set_mat (next_at m) m) y'))); [|intros [] y'; apply to_backlog].
  destruct up as [w|w]; apply runs_bind, runs_modify, runs_bind, runs_gets.
  - cbn. set (ws := sort _). assert (Hl : length ws = S (length (mg_workers (sv_manager y)))) by (unfold ws; rewrite sort_length, length_app; cbn; lia).
    assert (Hn : ws <> []) by (by intros E; rewrite E in Hl). destruct (Nat.eqb_spec (length ws) 1) as [_|H1].
    + apply runs_bind, runs_modify, runs_modify.
      apply (inv_resumed u l (with_workers ws y)); [apply base_workers; [done..|]; eapply shelf_workers; [done..|lia]|done].
    + apply runs_ret. apply (inv_workers u l y ws Hi Hm Hn). intros E. rewrite E in Hl. cbn in Hl. lia.
  - match goal with |- context [upd_manager ?f y] => set (g := f) end.
    assert (Hws : exists ws, upd_manager g y = upd_manager (set_workers ws) y /\ (ws <> [] -> mg_workers (sv_manager y) <> [])).
    { unfold upd_manager, g. destruct (binary_search _ _); [|exists (mg_workers (sv_manager y)); by destruct (sv_manager y)].
      eexists. split; [done|]. apply remove_at_nonempty. }
    destruct Hws as (ws & -> & Hne). cbn [upd_manager sv_manager mg_workers set_workers set_manager]. destruct ws as [|v ws].
    + apply runs_bind, runs_modify, runs_modify. apply (inv_paused u l (with_workers [] y)); [by apply base_workers; [..|cbn; lia]|].
      intros _ _. done.
    + apply runs_ret. apply (inv_workers u l y (v :: ws) Hi Hm); auto.
Qed.

Lemma handle_backlog_spec u l y : Inv u l y -> mg_at (sv_manager y) = MgrBacklog -> runs handle_backlog y (fun _ y' => Inv u l y').
Proof.
  intros Hi Hm. pose proof (iv_books _ _ _ Hi) as Hb. unfold handle_backlog. apply runs_bind, runs_gets. unfold id.
  pose proof (iv_shelf _ _ _ Hi) as HS. unfold shelf in HS. rewrite Hm in HS.
  destruct (mg_backlog (sv_manager y)) as [|c q] eqn:Hq.
  - apply runs_modify. eapply (inv_manager u l y); try done; cbn; rewrite ?Hm; try done.
    + balance; rewrite Hm in *; cbn in *; lia.
    + intros Hn. exfalso. exact (Hn Hq).
    + intros E (? & ? & H6). split_and!; [done..|]. cbn. by rewrite Hm in H6.
  - specialize (HS ltac:(done)). destruct (mg_workers (sv_manager y)) as [|w [|]] eqn:Hw; [done| |done].
    apply runs_bind. eapply runs_conseq; [apply worker_send_spec|]. intros [] y1.
    + intros (items & Hch & ->). apply runs_modify. eapply (inv_manager u l y); try done; cbn; rewrite ?Hm, ?Hw; try done.
      * intros x. pose proof (Hb x) as Hx. pose proof (occ_chan_insert x _ _ _ (mkChan true (items ++ [c])) Hch) as Hy. unfold on_the_way in *.
        cbn -[cmd_items] in *. rewrite Hm, Hq in *. autorewrite with occs in *. cbn -[cmd_items] in *. repeat case_match; lia.
      * intros _. cbn. by rewrite Hm, Hw.
    + intros ->. apply runs_bind, runs_modify, runs_bind, runs_modify, runs_modify.
      apply (inv_paused u l (upd_manager (fun m => set_mat MgrRun (set_workers [] (set_mbacklog (q ++ [c]) m))) y)); [|done].
      destruct (inv_base _ _ _ Hi) as [_ B2 BF BS B3 B4 B9]. constructor; [|done|done|by intros _|done| |done].
      * balance; rewrite Hm, Hq in *; cbn in *; repeat case_match; lia.
      * intros E. by destruct (B4 E) as (? & ? & ? & ?).
Qed.

Lemma shelf_goes m x : shelf m -> mg_at m <> MgrBacklog -> x <> MgrBacklog -> shelf (set_mat x m).
Proof. intros HS Hm Hx Hn. specialize (HS Hn). cbn. destruct (mg_at m), x; done. Qed.

(** [stop]. *)
Lemma stop_spec u y : Inv u true y -> mg_at (sv_manager y) = MgrRun -> runs stop y (fun _ y' => Inv u true y').
Proof.
  intros Hi Hm. apply runs_modify. pose proof (iv_books _ _ _ Hi).
  destruct Hi as [_ H2 H3 HF HS H4 H5 H9]. constructor; [balance; rewrite Hm in *; cbn in *; lia|..|done|exact H9].
  - intros _ Ha. unfold pending. cbn. rewrite !app_assoc, final_app. cbn. rewrite <- app_assoc. apply H2; [by rewrite Hm|done].
  - done.
  - exact HF.
  - apply (shelf_goes _ MgrAwait HS); by rewrite ?Hm.
  - intros E. by destruct (H4 E) as (? & ? & ?).
Qed.

Lemma handle_cmd_spec u l cmd q y : Inv u l y -> mg_at (sv_manager y) = MgrRun -> sv_cmd y = cmd :: q ->
  runs (handle_cmd cmd) (set_cmd q y) (fun _ y' => Inv u l y').
Proof.
  intros Hi Hm Hc. assert (Hs : stops cmd = true -> l = true).
  { destruct l; [done|]. destruct (iv_calm _ _ _ Hi eq_refl) as (_ & _ & _ & _ & H & _). rewrite Hc in H. apply Forall_cons in H as [-> _]. done. }
  assert (Hu : cmd = CmdPause \/ cmd = CmdResume -> u = true).
  { destruct u; [done|]. destruct (iv_workers _ _ _ Hi eq_refl) as (H1 & H2 & _). rewrite Hc in *. intros [->| ->]; set_solver. }
  destruct cmd as [c| | |s| |up]; cbn [handle_cmd].
  - apply runs_modify. eapply (inv_manager u l y); try done; cbn; rewrite ?Hm; try done.
    + pose proof (iv_books _ _ _ Hi). balance; rewrite Hm, Hc, cmd_items_item in *; cbn -[cmd_items] in *; repeat case_match; lia.
    + apply shelf_goes; [apply Hi|by rewrite Hm|done].
    + intros E (? & ? & H6). rewrite Hc in *. split_and!; [set_solver..|]. cbn. intros Hst. by destruct (H6 Hst).
    + intros _. rewrite Hc. by intros [_ ?]%Forall_cons.
  - apply runs_bind, runs_modify, runs_modify. apply (inv_paused u l (set_cmd q y)); [by eapply base_taken|]. by rewrite Hu by auto.
  - apply runs_bind, runs_modify, runs_modify. apply (inv_resumed u l (set_cmd q y)); [by eapply base_taken|]. by rewrite Hu by auto.
  - assert (Hi' : Inv u l (set_cmd q y)) by (by eapply inv_taken_cmd). destruct s; [by apply runs_ret|..]; rewrite Hs in * by done; by apply stop_spec.
  - rewrite Hs in * by done. by apply stop_spec; [eapply inv_taken_cmd|].
  - apply update_workers_spec; [by eapply inv_taken_cmd|done].
Qed.

Lemma inv_notify u l c out y : Inv u l y -> mg_out (sv_manager y) = c :: out ->
  runs (on_manager (set_out out);; accept_send c) y (fun _ y' => Inv u l y').
Proof.
  intros Hi Ho. apply runs_bind, runs_modify, runs_modify. pose proof (iv_books _ _ _ Hi). destruct Hi as [_ H2 H3 HF HS H4 H5 H9]. cbn.
  unfold upd_accept. cbn. destruct (ac_at (sv_accept y)) eqn:Ha; constructor;
    try (balance; done); unfold follow, follow_at, pending, by_workers, calm in *; cbn; rewrite ?Ha, ?Ho in *; cbn in *; rewrite <- ?app_assoc; cbn; auto; [done|].
  intros E. by destruct (H5 E) as (? & ? & ? & ? & ?).
Qed.

Lemma handle_cmd_end_spec u y : Inv u true y -> mg_at (sv_manager y) = MgrTold -> runs handle_cmd_end y (fun _ y' => Inv u true y').
Proof.
  intros Hi Hm. apply runs_bind, runs_get, runs_bind, runs_modify, runs_bind, runs_modify, runs_modify. pose proof (iv_books _ _ _ Hi).
  destruct Hi as [_ H2 H3 HF HS H4 H5 H9]. constructor; [|by intros ?|done|exact HF|by intros []|..|done|exact H9].
  - balance; rewrite Hm in *; cbn in *; lia.
  - intros _. split_and!; [set_solver..|done].
Qed.

Lemma manager_step_spec u l y : Inv u l y -> runs manager_step y (fun _ y' => Inv u l y').
Proof.
  intros Hi. unfold manager_step. apply runs_bind, runs_get. destruct (mg_out (sv_manager y)) as [|c out] eqn:Ho; [|by apply inv_notify].
  assert (Hl : mgr_up (mg_at (sv_manager y)) = false -> l = true).
  { destruct l; [done|]. by destruct (iv_calm _ _ _ Hi eq_refl) as (_ & _ & -> & _). }
  destruct (mg_at (sv_manager y)) as [|c| | | |] eqn:Hm.
  - destruct (sv_cmd y) as [|cmd q] eqn:Hc; [by apply runs_ret|]. apply runs_bind, runs_modify. by apply handle_cmd_spec.
  - by apply process_spec.
  - by apply handle_backlog_spec.
  - destruct (ac_at (sv_accept y)); try by apply runs_ret. rewrite Hl in * by done. apply runs_bind, runs_modify, runs_modify.
    eapply (inv_manager u true y); try done; cbn; rewrite ?Hm; try done.
    + pose proof (iv_books _ _ _ Hi). balance; rewrite Hm in *; cbn in *; lia.
    + apply (shelf_goes (set_told _ _)); [apply Hi|cbn; by rewrite Hm|done].
    + intros E (? & ? & H6). split_and!; [done..|]. cbn. by rewrite Hm in H6.
  - rewrite Hl in * by done. by apply handle_cmd_end_spec.
  - by apply runs_ret.
Qed.

(** ** The environment *)

(** A command to the accept loop that has nothing to do with back-pressure. *)
Lemma accept_send_spec u l c y : Inv u l y -> (forall b, final b [c] = b) -> (l = false -> ends c = false) ->
  runs (accept_send c) y (fun _ y' => Inv u l y').
Proof.
  intros Hi Hc He. apply runs_modify. pose proof (iv_books _ _ _ Hi). destruct Hi as [_ H2 H3 HF HS H4 H5 H9]. unfold upd_accept.
  assert (Hf : forall b k r o, final b (k ++ (r ++ [c]) ++ o) = final b (k ++ r ++ o)) by (intros; by rewrite !final_app, Hc).
  destruct (ac_at (sv_accept y)) eqn:Ha; constructor; try (balance; done);
    unfold follow, follow_at, pending, by_workers, calm in *; cbn [sv_accept sv_manager sv_paused sv_cmd sv_lost set_accept ac_at ac_rx ac_backpressure set_rx set_woken];
    rewrite ?Hf, ?Ha in *; auto; intros E; destruct (H5 E) as (? & ? & ? & ? & ? & Hr); apply Forall_app in Hr as [??]; split_and!; auto; rewrite !Forall_app; auto.
Qed.

Lemma cmd_send_spec u l c y : Inv u l y -> cmd_items [c] = [] -> (u = false -> c <> CmdPause /\ c <> CmdResume) -> (l = false -> stops c = false) ->
  runs (cmd_send c;; mret tt) y (fun _ y' => Inv u l y').
Proof.
  intros Hi Hc Hu Hs. apply runs_bind, runs_bind, runs_gets.
  assert (Hn : Inv u l (set_cmd (sv_cmd y ++ [c]) y)).
  { eapply (inv_cmd u l _ y [c]); try done; [|intros E; destruct (Hu E); set_solver|intros E; constructor; auto].
    intros x. pose proof (iv_books _ _ _ Hi x) as Hb. unfold on_the_way in *. cbn -[cmd_items] in *. autorewrite with occs in *. rewrite Hc. cbn -[cmd_items]. lia. }
  destruct (mg_at (sv_manager y)); try (apply runs_bind, runs_modify, runs_ret, runs_ret; exact Hn). by apply runs_ret, runs_ret.
Qed.

(** The books hold and nothing else changes. *)
Lemma inv_chans u l y m h x : Inv u l y -> books (set_chans m (log_handled h (log_lost x y))) -> (l = false -> x = []) ->
  Inv u l (set_chans m (log_handled h (log_lost x y))).
Proof.
  intros [_ H2 H3 HF HS H4 H5 H9] Hb Hx. constructor; [done|exact H2|exact H3|exact HF|exact HS|exact H4| |exact H9]. intros E. destruct (H5 E) as (C1 & C2). split; [|exact C2].
  cbn. by rewrite C1, Hx.
Qed.

Lemma sv_chan_steps u l y ch : Inv u l y ->
  runs (sv_start ch) y (fun _ y' => Inv u l y') /\ runs (sv_take ch) y (fun _ y' => Inv u l y') /\ (l = true -> runs (sv_die ch) y (fun _ y' => Inv u l y')).
Proof.
  intros Hi. pose proof (iv_books _ _ _ Hi) as Hb. unfold sv_start, sv_take, sv_die.
  assert (Hgo : forall m h x, books (set_chans m (log_handled h (log_lost x y))) -> (l = false -> x = []) ->
    forall y', y' = set_chans m (log_handled h (log_lost x y)) -> Inv u l y') by (intros; subst; by apply inv_chans).
  assert (Hbk : forall m h x, (forall c, (occ c (chan_items m) + occ c h + occ c x = occ c (chan_items (sv_chans y)))%nat) ->
    books (set_chans m (log_handled h (log_lost x y)))).
  { intros m h x Hc c. specialize (Hc c). specialize (Hb c). unfold on_the_way in *. cbn -[cmd_items] in *. autorewrite with occs in *. lia. }
  split_and!; [|..|intros ->]; apply runs_bind, runs_gets; destruct (sv_chans y !! ch) as [[b items]|] eqn:Hch; try by apply runs_ret.
  - apply runs_modify. apply (Hgo (<[ch:=mkChan true []]> (sv_chans y)) [] []); [|done|by destruct y; unfold log_handled, log_lost; cbn; rewrite !app_nil_r].
    apply Hbk. intros c. rewrite occ_chan_new by done. cbn. lia.
  - destruct items as [|c0 items]; [by apply runs_ret|]. apply runs_bind, runs_modify, runs_modify.
    apply (Hgo (<[ch:=mkChan b items]> (sv_chans y)) [c0] []); [|done|by destruct y; unfold log_handled, log_lost; cbn; rewrite app_nil_r].
    apply Hbk. intros c. pose proof (occ_chan_insert c _ _ _ (mkChan b items) Hch). cbn in *. repeat case_match; lia.
  - apply runs_bind, runs_modify, runs_modify. apply (Hgo (<[ch:=mkChan false []]> (sv_chans y)) [] items); [|done|by destruct y; unfold log_handled, log_lost; cbn; rewrite app_nil_r].
    apply Hbk. intros c. pose proof (occ_chan_insert c _ _ _ (mkChan false []) Hch). cbn in *. lia.
Qed.

Lemma inv_tends u l c y : Inv u l y -> tends c -> runs c y (fun _ y' => Inv u l y').
Proof. intros Hi Hc. eapply runs_conseq; [apply Hc|]. intros [] y' H. by eapply inv_kept. Qed.

Lemma panic_stop_spec u y : Inv u true y -> runs panic_stop y (fun _ y' => Inv u true y').
Proof.
  intros Hi. apply runs_bind, runs_modify, accept_send_spec; [|done..]. pose proof (iv_books _ _ _ Hi).
  destruct Hi as [_ H2 H3 HF HS H4 H5 H9]. constructor; [balance|exact H2|exact H3|exact HF|exact HS|..|done|exact H9]. intros E. by destruct (H4 E) as (? & ? & ?).
Qed.

Lemma sv_step_spec u l op y : Inv u l y -> op_ok u l op -> runs (sv_step op) y (fun _ y' => Inv u l y').
Proof.
  intros Hi Ho. destruct op as [now sp| |idx r|idx|r|n now| | | |s|up| | |ch|ch|ch]; cbn [sv_step op_ok] in *.
  - apply accept_step_spec; [done|]. by destruct sp.
  - by apply manager_step_spec.
  - apply inv_tends; auto with listeners.
  - apply inv_tends; [done|]. unfold sv_ready. tend. apply tends_accept. intros x. cbn. by rewrite length_alter.
  - apply inv_tends; auto with listeners.
  - apply runs_bind, runs_gets. destruct (ac_timers (sv_accept y) !! n) as [due|]; [|by apply runs_ret]. destruct (due <=? now); [|by apply runs_ret].
    apply runs_bind. eapply runs_conseq; [apply inv_tends; [done|auto with listeners]|]. intros [] y1 H1. by apply accept_send_spec.
  - rewrite Ho in *. by apply cmd_send_spec.
  - rewrite Ho in *. by apply cmd_send_spec.
  - rewrite Ho in *. by apply cmd_send_spec.
  - apply cmd_send_spec; [done..|]. by destruct Ho as [->| ->].
  - by apply cmd_send_spec.
  - rewrite Ho in *. by apply panic_stop_spec.
  - apply runs_bind, runs_gets. destruct (ac_at (sv_accept y)); try by apply runs_ret. apply runs_modify.
    replace (upd_manager _ y) with y; [done|]. destruct y as [? ? ? []]. unfold upd_manager, set_told. cbn. by rewrite app_nil_r.
  - apply (sv_chan_steps u l y ch Hi).
  - apply (sv_chan_steps u l y ch Hi).
  - apply (sv_chan_steps u l y ch Hi), Ho.
Qed.

Lemma sv_exec_spec u l ops y : Inv u l y -> Forall (op_ok u l) ops -> runs (sv_exec ops) y (fun _ y' => Inv u l y').
Proof.
  intros Hi Ho. revert y Hi. induction Ho as [|op ops H1 _ IH]; intros y Hi; [by apply runs_ret|].
  apply runs_bind. eapply runs_conseq; [by apply sv_step_spec|]. intros [] y' H. by apply IH.
Qed.

Lemma inv_sv_new u l n : Inv u l (sv_new n).
Proof. constructor; [done|done|done|done|by intros []|..|done]; intros _; unfold by_workers, calm; cbn; split_and!; auto; set_solver. Qed.
End invariant.
