(* ===== verification/ServerWorker.v ===== *)
(** * Status of a worker

    [WorkerAvailability] and [WorkerAvailabilityTx] of server/wrk.rs, between
    the thread of the worker, which sets them, and the task of [start_worker]
    in server/manager.rs, which reports the status to the manager.  Each access
    to an atomic is a step, and the two interleave in any order. *)
From Stdlib Require Import ZArith Lia.
From stdpp Require Import base numbers list.
From S2P Require Import Prelude Server.

Inductive WorkerStatus := WsAvailable | WsUnavailable | WsFailed.

(** What is left to do of [set], of [drop], or of the callback of the arbiter. *)
Inductive tx_act := TxSwap (val : bool) | TxFailed | TxUpdated | TxUnavailable | TxWake.

(** Where the task is: in [status], in [wait_for_status], in a poll of
    [wait_for_update], suspended, or done with a worker that failed. *)
Inductive mon_at := MoStatus | MoAvailable | MoCheck | MoRegister | MoSwap | MoSleep | MoFailed.

(** [av_waker]: a waker is registered; [av_woken]: the task is scheduled;
    [av_log]: the reports so far. *)
Record Avail := mkAvail {
  av_updated : bool;
  av_available : bool;
  av_failed : bool;
  av_waker : bool;
  av_woken : bool;
  av_tx : list tx_act;
  av_at : mon_at;
  av_log : list WorkerStatus;
}.

Definition set_tx l s := mkAvail (av_updated s) (av_available s) (av_failed s) (av_waker s) (av_woken s) l (av_at s) (av_log s).
Definition set_mon x s := mkAvail (av_updated s) (av_available s) (av_failed s) (av_waker s) (av_woken s) (av_tx s) x (av_log s).
Definition set_updated b s := mkAvail b (av_available s) (av_failed s) (av_waker s) (av_woken s) (av_tx s) (av_at s) (av_log s).
Definition set_available b s := mkAvail (av_updated s) b (av_failed s) (av_waker s) (av_woken s) (av_tx s) (av_at s) (av_log s).
Definition set_wfailed s := mkAvail (av_updated s) (av_available s) true (av_waker s) (av_woken s) (av_tx s) (av_at s) (av_log s).
Definition set_waker b s := mkAvail (av_updated s) (av_available s) (av_failed s) b (av_woken s) (av_tx s) (av_at s) (av_log s).
Definition set_awoken b s := mkAvail (av_updated s) (av_available s) (av_failed s) (av_waker s) b (av_tx s) (av_at s) (av_log s).
Definition report st s := mkAvail (av_updated s) (av_available s) (av_failed s) (av_waker s) (av_woken s) (av_tx s) (av_at s) (av_log s ++ [st]).

(** [WorkerAvailability::create]; the task starts with [status]. *)
Definition av_create : Avail := mkAvail false false false false false [] MoStatus [].

(** [AtomicWaker::wake]. *)
Definition av_wake (s : Avail) : Avail := if av_waker s then set_awoken true (set_waker false s) else s.

Definition tx_set (val : bool) : list tx_act := [TxSwap val].
Definition tx_drop : list tx_act := [TxFailed; TxUpdated; TxUnavailable; TxWake].

(** A step of the thread of the worker. *)
Definition tx_step (s : Avail) : Avail :=
  match av_tx s with
  | [] => s
  | TxSwap val :: l =>
      set_available val (if Bool.eqb (av_available s) val then set_tx l s else set_tx (TxUpdated :: TxWake :: l) s)
  | TxFailed :: l => set_wfailed (set_tx l s)
  | TxUpdated :: l => set_updated true (set_tx l s)
  | TxUnavailable :: l => set_available false (set_tx l s)
  | TxWake :: l => av_wake (set_tx l s)
  end.

(** A step of the task; a suspended task may be polled without a reason. *)
Definition mon_step (s : Avail) : Avail :=
  match av_at s with
  | MoStatus => if av_failed s then set_mon MoFailed (report WsFailed s) else set_mon MoAvailable s
  | MoAvailable => set_mon MoCheck (report (if av_available s then WsAvailable else WsUnavailable) s)
  | MoCheck => set_mon (if av_failed s then MoStatus else MoRegister) s
  | MoRegister => set_mon MoSwap (set_waker true s)
  | MoSwap => if av_updated s then set_mon MoStatus (set_updated false s) else set_mon MoSleep s
  | MoSleep => set_mon MoRegister (set_awoken false s)
  | MoFailed => s
  end.

Inductive av_op := AvSet (val : bool) | AvDrop | AvTx | AvMon.
Definition av_step (op : av_op) (s : Avail) : Avail :=
  match op with
  | AvSet val => match av_tx s with [] => set_tx (tx_set val) s | _ => s end
  | AvDrop => match av_tx s with [] => set_tx tx_drop s | _ => s end
  | AvTx => tx_step s
  | AvMon => mon_step s
  end.
Definition av_exec (ops : list av_op) (s : Avail) : Avail := fold_left (fun s op => av_step op s) ops s.

(** The status as [Worker::status] would tell it. *)
Definition av_status (s : Avail) : WorkerStatus :=
  if av_failed s then WsFailed else if av_available s then WsAvailable else WsUnavailable.

(** ** Invariant *)

Definition tx_shape (l : list tx_act) : Prop :=
  match l with
  | [] | [TxSwap _] | [TxUpdated; TxWake] | [TxWake] => True
  | [TxFailed; TxUpdated; TxUnavailable; TxWake] | [TxUpdated; TxUnavailable; TxWake] | [TxUnavailable; TxWake] => True
  | _ => False
  end.
(** In the second half of [drop] the worker has failed. *)
Definition dropping (l : list tx_act) : bool :=
  match l with [TxUpdated; TxUnavailable; TxWake] | [TxUnavailable; TxWake] => true | _ => false end.
Definition updates (l : list tx_act) : bool := match l with TxUpdated :: _ | TxFailed :: _ => true | _ => false end.
Definition wakes (l : list tx_act) : bool := match l with [] | [TxSwap _] => false | _ => true end.

Record AvInv (s : Avail) : Prop := mkAvInv {
  ai_shape : tx_shape (av_tx s);
  ai_dropping : dropping (av_tx s) = true -> av_failed s = true;
  (** A change that was not reported is going to be noticed. *)
  ai_fresh : match av_at s with
    | MoStatus | MoFailed => True
    | MoAvailable => av_failed s = false \/ av_updated s || updates (av_tx s) = true
    | _ => last (av_log s) = Some (av_status s) \/ av_updated s || updates (av_tx s) = true \/ (av_at s = MoCheck /\ av_failed s = true)
    end;
  ai_waker : match av_at s with MoSwap | MoSleep => av_waker s || av_woken s = true | _ => True end;
  ai_wake : av_at s = MoSleep -> av_updated s = true -> av_woken s || wakes (av_tx s) = true;
}.

Lemma av_inv_create : AvInv av_create.
Proof. by constructor. Qed.

Ltac av_cases := repeat match goal with b : bool |- _ => destruct b end; cbn in *; try done; intuition congruence.

Lemma set_inv val s : AvInv s -> AvInv (av_step (AvSet val) s) /\ AvInv (av_step AvDrop s).
Proof.
  intros [H1 H2 H3 H4 H5]. destruct s as [up av fa wk wo tx at_ lg]. cbn in *. destruct tx; [|split; by constructor].
  split; constructor; cbn in *; auto; destruct at_; av_cases.
Qed.

Lemma tx_step_inv s : AvInv s -> AvInv (tx_step s).
Proof.
  intros [H1 H2 H3 H4 H5]. destruct s as [up av fa wk wo tx at_ lg]. cbn in *.
  destruct tx as [|[val| | | |] [|[] [|[] [|[] [|]]]]]; try done; unfold tx_step; cbn in *; unfold av_wake, av_status in *; cbn in *.
  all: constructor; cbn in *; auto.
  all: destruct at_; try done; av_cases.
Qed.

Lemma mon_step_inv s : AvInv s -> AvInv (mon_step s).
Proof.
  intros [H1 H2 H3 H4 H5]. destruct s as [up av fa wk wo tx at_ lg]. unfold mon_step, av_status in *. cbn in *.
  destruct at_; cbn in *; repeat case_match; constructor; cbn in *; rewrite ?last_snoc; auto; try done; try (intuition congruence).
  all: unfold av_status; destruct fa; cbn; intuition congruence.
Qed.

Lemma av_exec_inv ops s : AvInv s -> AvInv (av_exec ops s).
Proof.
  revert s. induction ops as [|op ops IH]; intros s Hs; [done|]. apply IH.
  destruct op; [by apply set_inv|by apply (set_inv true)|by apply tx_step_inv|by apply mon_step_inv].
Qed.

(** C19. No change of the status of a worker is missed: in any interleaving of
    the thread of the worker, which becomes available, unavailable or ends, and
    of the task that reports to the manager, whenever the thread is in none of
    these operations and the task is suspended and not woken, the last report
    is the status of the worker. *)
Theorem worker_status_not_missed ops :
  let s := av_exec ops av_create in
  av_tx s = [] -> av_at s = MoSleep -> av_woken s = false -> last (av_log s) = Some (av_status s).
Proof.
  intros s Ht Ha Hw. destruct (av_exec_inv ops av_create av_inv_create) as [_ _ H3 _ H5]. fold s in H3, H5. rewrite Ha, Ht, Hw in *. cbn in *.
  destruct (av_updated s); [by specialize (H5 eq_refl eq_refl)|]. by destruct H3 as [H|[H|[H _]]].
Qed.

(** The worker becomes available, and then unavailable. *)
Lemma worker_status_not_missed_witness :
  let s := av_exec ([AvSet true; AvTx; AvTx; AvTx] ++ replicate 10 AvMon ++ [AvSet false; AvTx; AvTx; AvTx] ++ replicate 8 AvMon) av_create in
  av_log s = [WsAvailable; WsAvailable; WsUnavailable] /\ last (av_log s) = Some (av_status s).
Proof. cbv zeta. split; [reflexivity|]. apply worker_status_not_missed; reflexivity. Defined.
