(* ===== verification/ServerProps.v ===== *)
(** * Theorems about the server *)
From Stdlib Require Import ZArith Lia.
From stdpp Require Import base numbers gmap list.
From S2P Require Import Prelude Server ServerInv ServerWorker.

(** The wait of the accept loop fails. *)
Definition wait_fails (op : sv_op) : bool := match op with SvAccept _ WaitFailed => true | _ => false end.

(** C2. No connection is lost or duplicated: in any interleaving of the accept
    loop, the manager, the workers and the user, no step panics but that of
    the accept loop when [Poller::wait] fails with an error other than
    [Interrupted], and the connections that the listeners gave are those that
    are on their way (in the backlog of the accept loop, in the channel of the
    manager, in its hands, in its backlog or in the channel of a worker), those
    that workers took, and those that were dropped.  Connections are dropped
    only when the server is stopped, when a worker ends, or when the accept
    loop panics. *)
Theorem server_conserves_connections n ops : exists y, sv_exec ops (sv_new n) = Done (tt, y) /\
  sv_accepted y ≡ₚ on_the_way y ++ sv_handled y ++ sv_lost y /\
  (ac_at (sv_accept y) = AtExit true -> exists now, SvAccept now WaitFailed ∈ ops) /\
  (Forall (op_ok false true false) ops -> sv_lost y = []).
Proof.
  assert (Hall : Forall (op_ok true true true) ops) by (apply Forall_forall; intros [? []| | | | | | | | | | | | | | |] _; cbn; auto).
  destruct (sv_exec_spec true true true ops (sv_new n) (inv_sv_new _ _ _ _) Hall) as ([] & y & He & Hi). exists y. split_and!; [done|..].
  - apply (Permutation_count_occ Nat.eq_dec). intros c. rewrite !occ_app. rewrite (iv_books _ _ _ _ Hi c). lia.
  - intros Ha. destruct (existsb wait_fails ops) eqn:Hx.
    { apply existsb_exists in Hx as ([now []| | | | | | | | | | | | | | |] & Hin & Hop); try done. exists now. by apply list_elem_of_In. }
    assert (Ho : Forall (op_ok false true true) ops).
    { apply Forall_forall. intros op Hin%list_elem_of_In. destruct op as [now []| | | | | | | | | | | | | | |]; cbn; auto.
      assert (existsb wait_fails ops = true) by (apply existsb_exists; by exists (SvAccept now WaitFailed)). congruence. }
    destruct (sv_exec_spec false true true ops (sv_new n) (inv_sv_new _ _ _ _) Ho) as ([] & y' & He' & Hi').
    rewrite He in He'. injection He' as <-. by destruct (iv_alive _ _ _ _ Hi' eq_refl).
  - intros Ho. destruct (sv_exec_spec false true false ops (sv_new n) (inv_sv_new _ _ _ _) Ho) as ([] & y' & He' & Hi').
    rewrite He in He'. injection He' as <-. by destruct (iv_calm _ _ _ _ Hi' eq_refl).
Qed.

(** Nothing is left to do but to wait. *)
Definition settled (y : Server) : Prop :=
  mg_at (sv_manager y) = MgrRun /\ mg_out (sv_manager y) = [] /\ sv_cmd y = [] /\ ac_at (sv_accept y) = AtWait /\ ac_rx (sv_accept y) = [].
(** The manager lists no worker. *)
Definition none_listed (y : Server) : bool := match mg_workers (sv_manager y) with [] => true | _ => false end.
(** The user neither pauses nor resumes the server. *)
Definition unattended (ops : list sv_op) : Prop := Forall (fun op => op <> SvPause /\ op <> SvResume) ops.

Lemma settled_follows u l y : Inv true u l y -> settled y -> ac_backpressure (sv_accept y) = sv_paused y.
Proof.
  intros Hi (Hm & Hout & _ & Hat & Hrx). pose proof (iv_follow _ _ _ _ Hi) as Hf. unfold follow, follow_at, pending in Hf.
  rewrite Hm, Hat, Hrx, Hout in Hf. exact (Hf ltac:(done) eq_refl).
Qed.

(** C18. Back-pressure follows the flag [paused], and by that the workers that
    the manager lists.  For every program, whenever the accept loop and the
    manager have worked off their commands, the back-pressure is on exactly if
    the server is paused.  If the user has neither paused nor resumed it and it
    is not being stopped, that is exactly if the manager lists no worker; and
    if it lists one, no connection waits in a backlog: each was handed to a
    worker.  A worker is listed from its report that it is available until a
    report that it is not, or until its channel is found closed; one that
    reported itself available twice stays listed ([worker_listed_twice]), and
    is not available then. *)
Theorem server_settles_with_workers n ops : exists y, sv_exec ops (sv_new n) = Done (tt, y) /\
  (settled y -> ac_backpressure (sv_accept y) = sv_paused y) /\
  (unattended ops -> settled y -> mg_stopping (sv_manager y) = false ->
    ac_backpressure (sv_accept y) = none_listed y /\
    (none_listed y = false -> sv_accepted y ≡ₚ chan_items (sv_chans y) ++ sv_handled y ++ sv_lost y)).
Proof.
  assert (Hall : Forall (op_ok true true true) ops) by (apply Forall_forall; intros [? []| | | | | | | | | | | | | | |] _; cbn; auto).
  destruct (sv_exec_spec true true true ops (sv_new n) (inv_sv_new _ _ _ _) Hall) as ([] & y & He & Hi0). exists y. split; [done|].
  pose proof (settled_follows _ _ _ Hi0) as Hf. split; [done|]. intros Hu Hst Hs. specialize (Hf Hst).
  assert (Ho : Forall (op_ok true false true) ops).
  { eapply Forall_impl; [exact Hu|]. intros [? []| | | | | | | | | | | | | | |]; cbn; auto; by intros [? ?]. }
  destruct (sv_exec_spec true false true ops (sv_new n) (inv_sv_new _ _ _ _) Ho) as ([] & y' & He' & Hi). rewrite He in He'. injection He' as <-.
  destruct Hst as (Hm & Hout & Hcmd & Hat & Hrx). destruct (iv_workers _ _ _ _ Hi eq_refl) as (_ & _ & Hw). destruct (Hw Hs) as [Hw1 Hw2].
  assert (Hb : ac_backpressure (sv_accept y) = none_listed y).
  { unfold none_listed. rewrite Hf, Hm in *. destruct (mg_workers (sv_manager y)); [by apply Hw2|by apply Hw1]. }
  split; [done|]. intros Hn. apply (Permutation_count_occ Nat.eq_dec). intros c. rewrite !occ_app, (iv_books _ _ _ _ Hi c). unfold on_the_way.
  rewrite Hcmd, Hm, (iv_front _ _ _ _ Hi) by congruence. pose proof (iv_shelf _ _ _ _ Hi) as HS. unfold shelf in HS. rewrite Hm in HS.
  unfold none_listed in Hn. destruct (mg_backlog (sv_manager y)); [cbn; lia|]. by rewrite HS in Hn.
Qed.

(** ** Dispatch *)

Definition chan_open (y : Server) (w : Worker) : bool :=
  match sv_chans y !! wk_chan w with Some (mkChan b _) => b | None => false end.

Lemma worker_send_open w c y : worker_send w c y = Done (chan_open y w, match sv_chans y !! wk_chan w with
  | Some (mkChan true items) => set_chans (<[wk_chan w := mkChan true (items ++ [c])]> (sv_chans y)) y | _ => y end).
Proof. unfold worker_send, chan_open, mbind, M_bind, getsS. by destruct (sv_chans y !! wk_chan w) as [[[] items]|]. Qed.

(** What becomes of the connection [c] that the manager holds. *)
Definition handed (c : Conn) (y y' : Server) (w : Worker) : Prop := exists items,
  sv_chans y !! wk_chan w = Some (mkChan true items) /\ sv_chans y' = <[wk_chan w := mkChan true (items ++ [c])]> (sv_chans y) /\
  mg_backlog (sv_manager y') = mg_backlog (sv_manager y) /\
  filter (chan_open y) (mg_workers (sv_manager y')) = filter (chan_open y) (mg_workers (sv_manager y)).
Definition shelved (c : Conn) (y y' : Server) : Prop :=
  filter (chan_open y) (mg_workers (sv_manager y)) = [] /\ mg_workers (sv_manager y') = [] /\ sv_chans y' = sv_chans y /\
  (if mg_stopping (sv_manager y) then sv_lost y' = sv_lost y ++ [c]
   else mg_backlog (sv_manager y') = mg_backlog (sv_manager y) ++ [c] /\ sv_paused y' = true /\ mg_out (sv_manager y') = [AcPause]).

Lemma filter_remove_at {A} (f : A -> bool) i l x : l !! i = Some x -> f x = false -> filter f (remove_at i l) = filter f l.
Proof.
  intros Hx Hf. unfold remove_at. rewrite <- (take_drop_middle l i x Hx) at 3. rewrite !filter_app. f_equal. by rewrite filter_cons_False; [|rewrite Hf; intros []].
Qed.

Lemma remove_at_length {A} i (l : list A) x : l !! i = Some x -> S (length (remove_at i l)) = length l.
Proof. intros Hx%lookup_lt_Some. unfold remove_at. rewrite length_app, length_take, length_drop. lia. Qed.

(** The index that [process] uses. *)
Definition next_index (m : Manager) : nat := if (length (mg_workers m) <=? mg_next m)%nat then (length (mg_workers m) - 1)%nat else mg_next m.

Lemma manager_item y c : mg_at (sv_manager y) = MgrItem c -> mg_out (sv_manager y) = [] -> manager_step y = process c y.
Proof. intros Hm Ho. unfold manager_step, mbind, M_bind, getS. by rewrite Ho, Hm. Qed.

Lemma next_lookup m w0 ws : mg_workers m = w0 :: ws -> exists w, mg_workers m !! next_index m = Some w.
Proof.
  intros Hw. apply lookup_lt_is_Some_2. unfold next_index. rewrite Hw. destruct (Nat.leb_spec (length (w0 :: ws)) (mg_next m)); cbn in *; lia.
Qed.

(** An offer to one worker. *)
Lemma process_offer y c w : mg_workers (sv_manager y) !! next_index (sv_manager y) = Some w ->
  process c y = Done (tt, match sv_chans y !! wk_chan w with
  | Some (mkChan true items) => upd_manager (fun m => set_mat MgrRun (set_mnext ((next_index (sv_manager y) + 1) mod length (mg_workers m))%nat m))
      (set_chans (<[wk_chan w := mkChan true (items ++ [c])]> (sv_chans y)) y)
  | _ => upd_manager (fun m => set_workers (remove_at (next_index (sv_manager y)) (mg_workers m)) (set_mnext (next_index (sv_manager y)) m)) y
  end).
Proof.
  intros Hw. unfold process, mgr, mbind, M_bind, getsS, id. fold (next_index (sv_manager y)).
  destruct (mg_workers (sv_manager y)) as [|w0 ws] eqn:Hl; [by rewrite lookup_nil in Hw|]. rewrite <- Hl. fold (next_index (sv_manager y)).
  rewrite Hl, Hw. cbn [from_option]. rewrite worker_send_open. unfold chan_open. by destruct (sv_chans y !! wk_chan w) as [[[] items]|].
Qed.

Lemma process_none y c : mg_workers (sv_manager y) = [] -> exists y', process c y = Done (tt, y') /\ mg_at (sv_manager y') = MgrRun /\
  sv_cmd y' = sv_cmd y /\ (mg_out (sv_manager y) = [] -> shelved c y y').
Proof.
  intros Hw. unfold process, mgr, mbind, M_bind, getsS, id, shelved. rewrite Hw. destruct (mg_stopping (sv_manager y)); eexists; (split; [reflexivity|]); cbn.
  - done.
  - split_and!; try done. intros ->. by rewrite Hw.
Qed.

(** The state after a worker has refused. *)
Definition refused (y : Server) : Server :=
  upd_manager (fun m => set_workers (remove_at (next_index (sv_manager y)) (mg_workers m)) (set_mnext (next_index (sv_manager y)) m)) y.

Lemma elem_of_remove_at {A} (x : A) i l : x ∈ remove_at i l -> x ∈ l.
Proof. unfold remove_at. intros [H|H]%elem_of_app; [apply (subseteq_take i l)|apply (subseteq_drop (S i) l)]; done. Qed.

Lemma run_item k y y1 c : mg_at (sv_manager y) = MgrItem c -> mg_out (sv_manager y) = [] -> process c y = Done (tt, y1) ->
  sv_exec (replicate (S k) SvManager) y = sv_exec (replicate k SvManager) y1.
Proof. intros Hm Ho Hp. cbn [replicate sv_exec]. unfold mbind, M_bind. cbn [sv_step]. by rewrite (manager_item y c Hm Ho), Hp. Qed.

(** What holds after the refusal holds before it. *)
Lemma refused_outcome y y' c w : mg_workers (sv_manager y) !! next_index (sv_manager y) = Some w -> chan_open y w = false ->
  (exists v, v ∈ mg_workers (sv_manager (refused y)) /\ handed c (refused y) y' v) \/ shelved c (refused y) y' ->
  (exists v, v ∈ mg_workers (sv_manager y) /\ handed c y y' v) \/ shelved c y y'.
Proof.
  intros Hx Hd. assert (Hf : filter (chan_open y) (mg_workers (sv_manager (refused y))) = filter (chan_open y) (mg_workers (sv_manager y))) by (by eapply filter_remove_at).
  intros [(v & Hv & items & G1 & G2 & G3 & G4)|(G1 & G2 & G3 & G4)]; [left|right].
  - exists v. split; [exact (elem_of_remove_at _ _ _ Hv)|]. exists items. split_and!; [exact G1|exact G2|exact G3|rewrite <- Hf; exact G4].
  - split; [rewrite <- Hf; exact G1|]. split; [exact G2|]. split; [exact G3|exact G4].
Qed.

Lemma manager_finds_worker m y c : length (mg_workers (sv_manager y)) = m -> mg_at (sv_manager y) = MgrItem c -> mg_out (sv_manager y) = [] ->
  exists k y', (k <= S m)%nat /\ sv_exec (replicate k SvManager) y = Done (tt, y') /\ mg_at (sv_manager y') = MgrRun /\ sv_cmd y' = sv_cmd y /\
    ((exists w, w ∈ mg_workers (sv_manager y) /\ handed c y y' w) \/ shelved c y y').
Proof.
  revert y. induction m as [|m IH]; intros y Hl Hm Ho.
  - apply nil_length_inv in Hl. destruct (process_none y c Hl) as (y' & Hp & H1 & H2 & H3). exists 1%nat, y'. split_and!; auto.
    by rewrite (run_item 0 y y' c Hm Ho Hp).
  - assert (exists w, mg_workers (sv_manager y) !! next_index (sv_manager y) = Some w) as [w Hx].
    { destruct (mg_workers (sv_manager y)) as [|w0 ws] eqn:Hw; [done|]. rewrite <- Hw. by eapply next_lookup. }
    pose proof (process_offer y c w Hx) as Hp. destruct (chan_open y w) eqn:Hd; unfold chan_open in Hd.
    + destruct (sv_chans y !! wk_chan w) as [[b items]|] eqn:Hc; [subst b|done]. eexists 1%nat, _. split; [lia|].
      split; [by rewrite (run_item 0 y _ c Hm Ho Hp)|]. split_and!; [done..|]. left. exists w. split; [by eapply list_elem_of_lookup_2|].
      exists items. by split_and!.
    + assert (Hr : process c y = Done (tt, refused y)) by (rewrite Hp; by destruct (sv_chans y !! wk_chan w) as [[[] items]|]).
      destruct (IH (refused y)) as (k & y' & Hk & He & H1 & H2 & H3); [cbn; pose proof (remove_at_length _ _ _ Hx); lia|done..|].
      exists (S k), y'. split; [lia|]. split; [by rewrite (run_item k y _ c Hm Ho Hr)|]. split_and!; [done..|]. by eapply refused_outcome.
Qed.

(** A connection reaches a live worker if there is one: the manager offers
    it to worker after worker, forgets those whose channel is closed, and
    after at most one round either a live worker has it, the others untouched,
    or no worker was alive, the connection is kept in the backlog and the
    server is paused.  When the worker that is next in turn is alive, it gets
    the connection at once, and the turn moves on by one. *)
Theorem server_finds_live_worker y c : mg_at (sv_manager y) = MgrItem c -> mg_out (sv_manager y) = [] ->
  exists k y', (k <= S (length (mg_workers (sv_manager y))))%nat /\ sv_exec (replicate k SvManager) y = Done (tt, y') /\
    mg_at (sv_manager y') = MgrRun /\ sv_cmd y' = sv_cmd y /\
    ((exists w, w ∈ mg_workers (sv_manager y) /\ handed c y y' w) \/ shelved c y y') /\
    (forall w, mg_workers (sv_manager y) !! mg_next (sv_manager y) = Some w -> chan_open y w = true ->
      k = 1%nat /\ handed c y y' w /\ mg_next (sv_manager y') = ((mg_next (sv_manager y) + 1) mod length (mg_workers (sv_manager y)))%nat).
Proof.
  intros Hm Ho. destruct (mg_workers (sv_manager y) !! mg_next (sv_manager y)) as [w|] eqn:Hx.
  2: { destruct (manager_finds_worker _ y c eq_refl Hm Ho) as (k & y' & H1 & H2 & H3 & H4 & H5). exists k, y'. split_and!; [done..|by intros w]. }
  destruct (chan_open y w) eqn:Hop.
  2: { destruct (manager_finds_worker _ y c eq_refl Hm Ho) as (k & y' & H1 & H2 & H3 & H4 & H5). exists k, y'. split_and!; [done..|].
       intros v [= <-] E. congruence. }
  assert (Hn : next_index (sv_manager y) = mg_next (sv_manager y)) by (unfold next_index; apply lookup_lt_Some in Hx; by destruct (Nat.leb_spec (length (mg_workers (sv_manager y))) (mg_next (sv_manager y))); [lia|]).
  pose proof (process_offer y c w) as Hp. rewrite Hn in Hp. specialize (Hp Hx). unfold chan_open in Hop. destruct (sv_chans y !! wk_chan w) as [[b items]|] eqn:Hc; [|done].
  subst b. eexists 1%nat, _. split; [lia|]. split; [by rewrite (run_item 0 y _ c Hm Ho Hp)|].
  assert (Hh : forall g, handed c y (upd_manager (fun m => set_mat MgrRun (set_mnext (g m) m)) (set_chans (<[wk_chan w:=mkChan true (items ++ [c])]> (sv_chans y)) y)) w)
    by (intros g; exists items; by split_and!).
  split_and!; [done..| |].
  - left. exists w. split; [by eapply list_elem_of_lookup_2|apply Hh].
  - intros v [= <-] _. split_and!; [done|apply Hh|done].
Qed.

(** ** Examples

    A server with one listener and the workers [svx_w] and [svx_v]. *)
Definition svx_w : Worker := mkWorker 1 0.
Definition svx_v : Worker := mkWorker 2 1.
Definition svx_state (ops : list sv_op) (n : nat) : Server := match sv_exec ops (sv_new n) with Done (_, y) => y | Fault _ => sv_new n end.
(** The accept loop runs a number of steps. *)
Definition svx_accept (now : Z) (n : nat) : list sv_op := replicate n (SvAccept now WaitOk).
(** It starts and waits; a worker comes up; the manager works off a command
    and notifies; a connection arrives. *)
Definition svx_start : list sv_op := svx_accept 0 4.
Definition svx_up : list sv_op := [SvStart 0; SvReport (Available svx_w); SvManager; SvManager].
Definition svx_conn (c : Conn) : list sv_op := [SvIncoming 0 (AccConn c); SvReady 0].

(** A connection comes before the first worker, and waits in the backlog;
    a second one comes when the worker is up; the worker takes one of them. *)
Definition svx_served : list sv_op :=
  svx_start ++ svx_conn 1%nat ++ svx_accept 0 4 ++ svx_up ++ svx_accept 0 10 ++ svx_conn 2%nat ++ svx_accept 0 6 ++ replicate 4 SvManager ++ [SvTake 0].

Lemma server_conserves_connections_witness : exists y, sv_exec svx_served (sv_new 1) = Done (tt, y) /\ sv_accepted y = [1; 2]%nat /\
  on_the_way y = [2%nat] /\ sv_handled y = [1%nat] /\ sv_lost y = [] /\ sv_accepted y ≡ₚ on_the_way y ++ sv_handled y ++ sv_lost y.
Proof.
  destruct (server_conserves_connections 1 svx_served) as (y & He & Hp & _ & Hl). exists y. split; [done|].
  assert (Hy : y = svx_state svx_served 1) by (unfold svx_state; by rewrite He). specialize (Hl ltac:(repeat constructor)).
  split_and!; try done; subst y; vm_compute; reflexivity.
Defined.

Lemma server_settles_with_workers_witness : exists y, sv_exec svx_served (sv_new 1) = Done (tt, y) /\ none_listed y = false /\
  ac_backpressure (sv_accept y) = false /\ sv_accepted y ≡ₚ chan_items (sv_chans y) ++ sv_handled y ++ sv_lost y.
Proof.
  destruct (server_settles_with_workers 1 svx_served) as (y & He & _ & H).
  assert (Hy : y = svx_state svx_served 1) by (unfold svx_state; by rewrite He).
  assert (Hn : none_listed y = false) by (subst y; vm_compute; reflexivity).
  destruct H as [H1 H2]; [repeat constructor; done|subst y; split_and!; vm_compute; reflexivity|subst y; vm_compute; reflexivity|].
  exists y. split_and!; [done|done|by rewrite H1|by apply H2].
Defined.

(** The worker whose turn it is has ended, the other one gets the connection. *)
Definition svx_item : Server := svx_state (svx_up ++ [SvStart 1; SvReport (Available svx_v); SvManager; SvDie 0] ++
  svx_start ++ svx_conn 7%nat ++ svx_accept 0 4 ++ [SvManager]) 1.

Lemma server_finds_live_worker_witness : mg_workers (sv_manager svx_item) = [svx_w; svx_v] /\
  exists k y', (k <= 3)%nat /\ sv_exec (replicate k SvManager) svx_item = Done (tt, y') /\ exists w, handed 7%nat svx_item y' w.
Proof.
  split; [vm_compute; reflexivity|].
  destruct (server_finds_live_worker svx_item 7%nat) as (k & y' & Hk & He & _ & _ & [(w & _ & Hw)|(Hf & _)] & _); [vm_compute; reflexivity..| |].
  - exists k, y'. split_and!; [|done|by exists w]. vm_compute in Hk. exact Hk.
  - by vm_compute in Hf.
Defined.

(** ** Runs in which the code does not do what it means to *)

(** Back-pressure does not stop the accept loop: each time the loop is woken
    it accepts from every registered listener, and when a listener would block
    it is registered again.  In this run no worker is up, the server is paused
    and the back-pressure is on throughout, and three connections are accepted
    and kept, the listener being armed again in between. *)
Theorem accept_ignores_backpressure :
  let wake := [SvPause; SvManager; SvManager] ++ svx_accept 0 5 in
  let y1 := svx_state (svx_start ++ svx_conn 1%nat ++ svx_accept 0 4 ++ [SvIncoming 0 (AccConn 2%nat)] ++ wake ++ wake) 1 in
  let y2 := svx_state (svx_start ++ svx_conn 1%nat ++ svx_accept 0 4 ++ [SvIncoming 0 (AccConn 2%nat)] ++ wake ++ wake ++ svx_conn 3%nat ++ svx_accept 0 4) 1 in
  ac_backpressure (sv_accept y1) = true /\ sv_paused y1 = true /\ ac_backlog (sv_accept y1) = [1; 2]%nat /\ sk_armed <$> ac_sockets (sv_accept y1) = [true] /\
  ac_backpressure (sv_accept y2) = true /\ sv_paused y2 = true /\ ac_backlog (sv_accept y2) = [1; 2; 3]%nat.
Proof. cbv zeta. split_and!; vm_compute; reflexivity. Qed.

(** A listener that the poller refuses at the start is never served: its
    timeout ends while the back-pressure is on, which the command [Timer] takes
    as a reason to do nothing; the end of the back-pressure leaves listeners
    with a timeout to that command, which does not come again. *)
Theorem accept_listener_never_registered :
  let y := svx_state ([SvReg RegError] ++ svx_start ++ [SvTimer 0 600] ++ svx_accept 600 5 ++ svx_up ++ svx_accept 700 7) 1 in
  settled y /\ ac_backpressure (sv_accept y) = false /\ mg_workers (sv_manager y) = [svx_w] /\ ac_woken (sv_accept y) = false /\
  ac_timers (sv_accept y) = [] /\ ac_sockets (sv_accept y) = [mkSocketInfo false (Some 500) false []].
Proof. cbv zeta. unfold settled. split_and!; vm_compute; reflexivity. Qed.

(** What the task of a worker sends for a status, of [start_worker]. *)
Definition report_of (w : Worker) (st : WorkerStatus) : Update := match st with WsAvailable => Available w | _ => Unavailable w end.

(** The manager keeps a worker that is not available: when the task of a
    worker reads the status between the two stores of [set], it reports
    [Available] twice, the manager lists the worker twice, and the report that
    the worker is not available any more removes it once; new connections still
    go to it. *)
Theorem worker_listed_twice :
  let mon n := replicate n AvMon in
  let s := av_exec ([AvSet true; AvTx] ++ mon 5%nat ++ [AvTx; AvTx] ++ mon 8%nat ++ [AvSet false; AvTx; AvTx; AvTx] ++ mon 8%nat) av_create in
  let y := svx_state (svx_start ++ [SvStart 0] ++ ((fun st => SvReport (report_of svx_w st)) <$> av_log s) ++ replicate 4 SvManager) 1 in
  av_log s = [WsAvailable; WsAvailable; WsUnavailable] /\ av_status s = WsUnavailable /\ av_at s = MoSleep /\
  sv_cmd y = [] /\ mg_workers (sv_manager y) = [svx_w] /\ sv_paused y = false.
Proof. cbv zeta. split_and!; vm_compute; reflexivity. Qed.

(** With [stop_on_panic] the stop that follows the failure of a worker tells
    no other worker to stop, although they are available: the task that stops
    the server has a list of workers of its own, which is empty. *)
Theorem panic_stop_tells_no_worker :
  let y := svx_state (svx_start ++ svx_up ++ [SvStart 1; SvReport (Available svx_v); SvManager; SvDie 0] ++
    [SvPanicStop] ++ svx_accept 0 9 ++ [SvPanicStopped]) 1 in
  ac_at (sv_accept y) = AtExit false /\ mg_stopping (sv_manager y) = true /\ mg_workers (sv_manager y) = [svx_w; svx_v] /\ mg_told (sv_manager y) = [].
Proof. cbv zeta. split_and!; vm_compute; reflexivity. Qed.
